(* ===== verification/_CoqProject ===== *)
-Q . S2P
Prelude.v
Strings.v
Json.v
RuntimeTypes.v
AccessModel.v
AccessEngine.v
AccessController.v
MemoryLedger.v
EventTransport.v
ModuleBoundary.v
Supervisor.v
Routing.v
Delivery.v
Gating.v
GatingProofs.v
GatingTheorems.v
Bootstrap.v
SqlWorld.v
ExtensionTypes.v
ExtensionPolicy.v
ExtensionStore.v
ExtensionExamples.v
ExtensionProofs.v
ExtensionTheorems.v
ExtensionReads.v
ExtensionPaging.v
ContinuityTypes.v
ContinuityReference.v
ContinuityTables.v
ContinuityLocal.v
ContinuityProofs.v
ContinuityWrites.v
ContinuityFence.v
ContinuityLedger.v
ContinuityLease.v
ContinuityTranscript.v
ContinuityExamples.v
ContinuityRefinement.v
ContinuityTheorems.v
MemoryRecords.v
MemorySecrets.v
MemoryTaint.v
MemoryTaintTheorems.v
MemoryStaged.v
MemoryStore.v
MemoryCalls.v
MemoryWalk.v
MemoryStoreInvariants.v
MemoryStoreCalls.v
MemoryStoreTheorems.v
MemoryReview.v
MemberIds.v
MemberIdTheorems.v
ToolPolicy.v
ToolCompose.v
WorkGraphAdmission.v
Policies.v
Composition.v
CompositionLaunch.v
TopologyTypes.v
TopologyState.v
TopologyWorld.v
EdgeReconcile.v
TopologyController.v
TopologyLogic.v
TopologyApply.v
TopologyTheorems.v
TopologyReplay.v
TopologyEdges.v
EdgeReconcileTheorems.v
TopologyFlights.v
TopologyExamples.v
BilateralState.v
BilateralCoordinator.v
BilateralLogic.v
BilateralInvariant.v
BilateralOperations.v
BilateralTheorems.v
BilateralAccess.v
BilateralExamples.v
