(* ===== verification/Prelude.v ===== *)
(** * Meerkat Meta: a verification of its decisions and its durable state

    Meerkat Meta ([src/crates/meerkat-meta/src]) runs a mob of agents and the
    modules around it.  This development models the parts of the system that decide
    what may happen and the parts that must not lose or corrupt what they store:

    - the _access control_ that decides who may do what to which agent;
    - the _module runtime_, the single [MetaRuntimeHandle] that starts module
      processes, keeps the merged event log, resolves routes, sends deliveries,
      gates consequential actions and keeps the operational memory ledger;
    - the _extension documents_ ([src/crates/meta-extension-state]), a SQLite store
      of shared documents with owners, audiences and idempotent mutations;
    - _identity continuity_: the SQLite store of identity records, fenced writes,
      session documents and append-only transcripts, the in-memory reference store
      it is compared with, and the leases that hand out fencing tokens;
    - the _governed memory_ of agents: the taint tracker, the write gate, the batch
      validator and the SQLite store of trusted, quarantined and reviewed records;
    - _member identities_: the codec between public aliases and roster ids;
    - _topology control_: the durable intent about which agents are wired to each
      other, its write-ahead journal, its recovery, the edge reconciliation that
      makes the mob follow it, and the coordinator that changes the topology of two
      authorities as one;
    - the _tools_ of agents: the compiled policies that grant them and the
      composition of the dispatchers that run them;
    - the _work graph_: the admission of attention bindings that point a member at
      a goal;
    - the _policies_ of an operator: console access, trust and release documents,
      governance checks and the directory of other mobs;
    - the _composition_ of a mob: what a mob storage was created for, and whether a
      launch may create or resume it.

    ** How the parts interact

    An [AccessController] holds a configuration (rules, groups, admins,
    approvers) behind a revision; every administrative edit validates the whole
    configuration, persists it and swaps it; a request takes a view of it and
    decides with the evaluation engine along the spawn lineage of the agent.

    The runtime handle is built by [start_meta_runtime]: it reads the ledger,
    starts each discovered module under supervision, merges the first events and
    opens a fresh gating owner.  Then its operations run one at a time on the one
    handle: [resolve_routing] asks the router module and remembers what it
    issued; [send_delivery] delivers only what was issued, through the delivery
    module; [evaluate_gating_action] looks up conflicts in the ledger, opens a
    gate for the highest risk tier and notifies the approver through routing and
    delivery; [decide_gating_action] and the deadline resolve gates.  Each of
    them logs to the merged event log.

    A gateway that restarts opens the continuity store, seeds the lease provider
    above every fencing token on file, and writes under the tokens it grants.  The
    taint tracker watches what agents read; its gate is asked by the memory store
    inside the transaction of every write.  Topology control names members by the
    aliases of the identity codec, reads the committed intent, and calls edge
    reconciliation to recover; access actions of a mutation are those of the
    access model.  The bilateral coordinator holds two topology controllers, journals
    its decision in a file of its own, and carries it out on both.  Tool policies and
    work-graph targets name members by the roster ids of the identity codec.

    ** Files

    - [Prelude]: results, the state-and-error monad [M] with its weakest
      precondition [wp] and the tactics that run it, ordered iteration over
      [BTreeMap]s, and lemmas on lists, options and machine integers.
    - [Strings]: the [str] methods the code uses, on UTF-8 bytes, and decimal and
      hexadecimal formatting with their inverses.
    - [Json]: [serde_json::Value] with the accessors the code uses.
    - [RuntimeTypes]: the structs and enums of [runtime.rs], [types.rs],
      [process.rs]; the handle, its fields grouped by the component that owns
      them; the class [RuntimeEnv] of what the runtime observes from outside.
      It ends with a concrete world and a concrete handle.
    - [AccessModel] ([access/model.rs]), [AccessEngine] ([access/engine.rs]),
      [AccessController] ([access/controller.rs]).
    - [MemoryLedger] ([runtime/memory.rs] and the load in [runtime/bootstrap.rs]).
    - [EventTransport] ([runtime/event_transport.rs], [protocol.rs]).
    - [ModuleBoundary] ([runtime/module_boundary.rs], the module call of
      [runtime/routing.rs], [unsettled_class] of [member_mcp_custody.rs]).
    - [Supervisor] ([runtime/supervisor.rs], [runtime/module_process.rs]).
    - [Routing] ([runtime/routing.rs]), [Delivery] ([runtime/delivery.rs]).
    - [Gating] ([runtime/gating.rs]), with its invariant in [GatingProofs] and its
      theorems in [GatingTheorems].
    - [Bootstrap] ([runtime/bootstrap.rs]).
    - [SqlWorld]: a SQLite file shared by the stores below: committed and open
      tables, transactions, and faults of any statement.
    - [ExtensionTypes], [ExtensionPolicy], [ExtensionStore] (types, [policy.rs],
      [sqlite.rs] and [lib.rs] of the extension crate); [ExtensionExamples] is a
      concrete store; [ExtensionProofs], [ExtensionTheorems], [ExtensionReads] and
      [ExtensionPaging] prove.
    - [ContinuityTypes] ([identity_first/types.rs], [contracts.rs]),
      [ContinuityReference] (the reference store of the conformance crate),
      [ContinuityTables] and [ContinuityLocal] ([identity_first/local_store.rs]),
      [ContinuityLease] ([identity_first/local_lease.rs] and the seeding in
      [gateway_wiring.rs]); [ContinuityProofs], [ContinuityWrites],
      [ContinuityFence], [ContinuityLedger], [ContinuityTranscript],
      [ContinuityRefinement] and [ContinuityTheorems] prove, on the store of
      [ContinuityExamples].
    - [MemoryRecords], [MemorySecrets], [MemoryTaint], [MemoryStaged] (the files of
      those names under [memory/]), [MemoryStore] and [MemoryCalls]
      ([memory/sqlite_store.rs], [memory/review.rs], the parts of
      [identity_first/agent_memory.rs] they share); [MemoryTaintTheorems],
      [MemoryWalk], [MemoryStoreInvariants], [MemoryStoreCalls],
      [MemoryStoreTheorems] and [MemoryReview] prove; the last
      one also runs it.
    - [MemberIds] ([member_comms_id.rs]) with [MemberIdTheorems].
    - [TopologyTypes], [TopologyState], [TopologyWorld], [TopologyController] and
      [TopologyFlights] ([topology_control.rs], [unified_runtime/edge_types.rs]);
      [EdgeReconcile] ([unified_runtime/edge_reconcile.rs] and the identity-first
      reconcile of [topology_control.rs]); [TopologyLogic] (a weakest precondition
      over the trace of effects), [TopologyApply], [TopologyTheorems],
      [TopologyReplay], [TopologyEdges] and [EdgeReconcileTheorems] prove;
      [TopologyExamples] runs it.
    - [BilateralState] and [BilateralCoordinator]
      ([topology_control/coordinator.rs]); [BilateralLogic] (a weakest precondition
      over its trace), [BilateralInvariant], [BilateralOperations],
      [BilateralTheorems] and [BilateralAccess] prove; [BilateralExamples] runs it.
    - [ToolPolicy] ([member_tool_policy.rs] and the boot code of [rpc_gateway.rs]
      that arms the policies), [ToolCompose] ([tool_compose.rs]).
    - [WorkGraphAdmission] ([workgraph_admission.rs], the guarded methods of
      [rpc/workgraph_methods.rs], the tool dispatch of [workgraph_wiring.rs] and the
      realm check of [workgraph_realm.rs]).
    - [Policies] ([decisions.rs], [governance.rs], [contact_directory.rs] and the key
      decoding of [auth/peer_keys.rs]).
    - [Composition] and [CompositionLaunch] ([mob_composition_manifest.rs], and of
      [mob_handle_runtime.rs] the normalisation of definitions and the selection
      between creating and resuming a storage in [MobRuntime::prepare]).

    A definition keeps the name of the function it translates; a piece of a long
    function that is named on its own is composed as the function composes it.

    ** State and effects

    An operation on [&mut self] that returns a [Result] is a function of the
    state to a result and a state: what was changed before an early return
    stays changed.  What an operation sees of the outside is a function of the
    number of observations made so far, so two observations
    may differ and the theorems hold for every behaviour of the outside.
    [u64] and [u32] are [Z] with their wrapping or saturation written out.
    [BTreeMap] is [gmap] iterated in key order.  A writer that holds a mutex from
    its first read to its last write is one step, and an execution is a sequence
    of steps ([rtc] of a step relation).

    A SQLite transaction reads and writes its open tables; a fault of any statement
    leaves the committed ones, and the stores' theorems quantify over the faults.
    Topology control keeps a trace of its effects: a future that is dropped, or a
    process that dies, leaves the memory and the disk of a prefix of that trace,
    and executions contain such cuts and restarts between the calls.

    What is outside the sources is a class or a record of operations, with a concrete
    instance in the examples: [RuntimeEnv] (clock, entropy, MCP client, module processes, ledger
    backend, JSON reader and renderer, derived decoders and [Debug] texts; its laws
    are that the clock is a [u64] and that the entropy is 128 bits), [GatingCodec]
    and [Serde] (a derived decoder reads what the derived encoder wrote),
    [ModuleOs] (processes of the operating system), [PersistConfig] (writing the
    access file), [Features] (the Cargo feature), [StoreEnv], [ContinuityEnv] and
    [MemoryEnv] (statement faults, clocks and fresh ids of the stores),
    [SessionCore] (the session documents of the agent runtime), [TaintEnv] (clock
    and iteration order of the tracker), [Sha256], [DebugText], [UtcClock],
    [UuidV5], [RequestJson], [TopologyEnv] (the mob, the application's edge
    discovery and the file system), [IdentityTopology] (what topology control
    asks of the identity runtime), [BilateralEnv] (the two authorities' primitives
    and the journal file), [PolicyArtifacts], [ToolHost] with [PlanLaws],
    [WorkGraph] with [WorkGraphLaws] (Meerkat's policy artifacts, dispatchers with
    their plans, and work-graph service), [DocumentParsers] (TOML, YAML, JSON and
    base64), [DefinitionEnv] (the parts of Meerkat's mob definition the code does not
    read, and its model catalog) and [SerdeEnv] (definitions and manifests as JSON: an
    object has distinct keys, a written manifest is read back).

    ** What the theorems show

    - Access control.  A check is allowed exactly by bypass, or by an applicable
      allow rule when no applicable rule denies; rules are a set; denials survive
      and grants are inherited along a lineage; the anonymous caller matches no
      constrained rule; the migration of memory-naive configurations changes no
      decision but memory read, which rides view; advertised capabilities are
      complete.  Every reachable controller holds a valid configuration with an
      administrator; a refused edit changes nothing; a checked edit cannot lose
      another edit; the lineage walk terminates, is bounded and has no cycle; the
      decision fence agrees with the per-request view.
    - Events.  The log stays sorted under every append (through the binary search
      the standard library performs) and the initial merge is a stable sort; what
      normalization accepts the log accepts; a subscriber replays a bounded tail
      from its checkpoint and never another agent's events.
    - Module calls.  A call succeeds exactly when the server connected, listed
      and answered the tool and its close settled; an unsettled close is never
      silent; an answer is the module's own.
    - Supervision.  The reported health transitions are a path of the module
      state machine with bounded attempts; no process is ever lost: each one
      started is live, retained for cleanup, or was confirmed to have exited.
    - Ledger.  Indexing is atomic with respect to the backend and keeps the
      ledger well formed; any ledger file loads to a well-formed ledger and a
      well-formed one survives a restart; what was indexed is found.
    - Routing and delivery.  The best matching route is chosen; a resolution is
      within its limits, freshly numbered and trusted; only trusted resolutions
      are delivered; a repeated idempotency key replays; the quota is charged
      once per delivery and never exceeded; history and idempotency index agree.
    - Gating.  Every reachable state is bounded and consistent; a gate is decided
      exactly when it is pending, before its deadline, by the approver asked for
      and not approved by its own actor; a decided gate never reopens; expiry
      resolves exactly the expired gates, with one notice and one audit entry
      each; an exported state is accepted by the importer.
    - Bootstrap.  A runtime whose configuration lists each discovered module once, and
      whose agent events carry their own kind of source, satisfies all these
      invariants at once when it starts, and what it loaded was discovered and
      configured; a start that is refused has started no process.
    - Extension documents.  The policy allows exactly what owner, entries and host
      say; a mutation is atomic, commits once per request id and consumes the
      revision it names; reads show exactly the readable documents, and paging
      ends and lists each once.
    - Continuity.  Accepted calls change exactly what their specification says and
      refused ones nothing; a superseded holder changes nothing; transcripts are
      append-only and read back; on six of the ten trait calls the local store
      refines the reference store (on the other four the two differ); a
      restart outranks every token on file; older binaries are locked out of files
      with head rows.
    - Governed memory.  Untrusted content, quoted peer messages included, quarantines
      later writes, and peers are told on every route but that one; tainted
      identities activate nothing; promoted records are clean along their
      provenance; records are append-only, but for their usage counters, and vetted;
      agents write only their own scope; a commit is all or nothing and a review decides once.
    - Member identities.  Every alias survives the codec, all spellings of an
      identity name one roster row, and a reservation is granted exactly when both
      checks of every target pass.
    - Topology.  Every state on the way of an apply has the old committed intent or
      is the commit, and the caller is told which, but for a rename that was not
      synced; the journal is durable before the mob is touched; nothing else
      moves the intent; recovery restores it; repeated keys only audit, and are
      answered by the policy, by the operation under way or by the retained receipt;
      an applied batch makes exactly the requested edges desired; a complete
      reconciliation converges but for desired edges that were wired on one side
      only, which it takes for wired; shared reads are never older than their call.
    - Bilateral topology.  After every prefix of a bilateral apply, the journal and
      the two intent files are those of before, or the decision to commit is
      durable; recovery from any crash carries out the decision on both sides; past the
      recovery an apply begins with, nothing but audit records is written unless both
      policies and both access controllers allow; a pair has one coordinator.
    - Tools.  A provider's accepted revision never goes back; a booted gateway serves
      exactly the policies it was given and allows only what they grant; a planned
      call runs only in the dispatcher and the binding it was planned for; what is
      advertised is what runs.
    - Work graph.  In every interleaving of the calls of several processes, with the
      admission in every tool plane, no owner key has two occupying bindings; nor has
      a member, however it is spelled, while no session changes hands.
    - Policies.  The one-pass scan of a traceability table accepts exactly the tables
      its two-step reading accepts; console access and cross-mob addresses are
      characterised exactly.
    - Composition of a mob.  The comparison of two definitions names exactly the places
      where they first differ; a resumed mob runs the definition the launch supplied,
      or the launch says that it does not; over every history of a storage, an
      authoritative launch resumes only what an authoritative launch created, and
      exactly when the definitions agree.

    ** Bounds and fuel

    Retention limits are the source's constants.  The loops that take fuel are
    given enough: [lineage_loop] takes [MAX_LINEAGE_DEPTH], and [lineage_loop_fuel] shows
    that more changes nothing; [supervise_attempts] takes one more than the
    larger restart budget, and [supervise_attempts_total] shows that it always
    returns.  The halving loop of [binary_search_by] takes the length of the log,
    and the loops on strings, characters and digits their length or width.  The
    walks over provenance edges take one more than the number of edges they can
    meet ([MemoryWalk] shows that they end); a client that reads pages takes one
    more than the number of rows ([paging_is_complete], [audit_pages_complete]).
    The comparison of definitions takes the depth of the recorded one ([collect_spec]
    holds for every such fuel).  The chain of compositions of a dispatcher is a finite tree, and its methods recurse
    on it.  The theorem on supervision asks for budgets below [u32::MAX], where the
    attempt counter cannot overflow; those on audit pages and shared reads ask that
    their [u64] counters have not wrapped.

    ** What is not modelled

    The poll loop that reads a module's first line and the bodies of the MCP
    client are behind the classes above; so are reading and writing the ledger
    file (with its remote health probe) and the access file.  Releasing the
    runtime handle itself, the broadcast channel of gating changes and the fault
    injection compiled only into tests are left out.  Of the continuity store, the
    offline backfill of old files is left out; of governed memory, migrations,
    imports, injections, harvests, dream runs, the panel reads and the
    agents around the store (steward, distiller, hygienist, coordinator).  Unwires
    of a reconciliation run in request order: the source collects them as they
    complete, which orders the report only.  A policy change while an apply runs is
    a separate step before or after it.  Two launches against one mob storage do not
    overlap, and the manifest itself is changed by launches only.
    The visibility filter of topology snapshots and the RPC around the bilateral
    coordinator are left out, and the primitives by which the two runtimes wire an
    edge across are operations of [BilateralEnv].  Of the work graph, the methods
    that take no permit are calls of the service's interface, and the migration
    between realms and the event projections are left out; adoption of a session by
    another member is a write of the agent runtime, so the statement about the
    spellings of a member asks that none happens while the calls run.
    Nothing is modelled of the HTTP console and its event streams, the
    rest of the JSON-RPC surface, cross-mob control, remote hosts, session stores, storage
    layouts and migrations, the identity-first runtime, the rest of the unified
    runtime, authentication, mobpacks, the rest of the mob handle runtime, and the code in
    other languages: input and output, or calls into the agent runtime, which is a
    dependency.

    ** Plan

    What could come next, in this order: storage layouts, the
    control protocol between mobs. *)

From stdpp Require Export base gmap strings list sorting fin_maps.
From Stdlib Require Export ZArith Lia.

#[export] Set Default Goal Selector "!".

Declare Scope meta_scope.
Delimit Scope meta_scope with meta.
Global Open Scope meta_scope.
Global Open Scope Z_scope.

(** ** Results and the state-and-error monad

    [Result] is Rust's [Result<A, E>].  An operation taking [&mut self] and
    returning a [Result] is an [M S E A]: it returns the result together with
    the state it leaves behind, so a mutation made before an early return with
    [Err] is kept, as it is in the source. *)

Inductive Result (A E : Type) : Type :=
| Ok (a : A)
| Err (e : E).
Arguments Ok {A E} a.
Arguments Err {A E} e.

#[global] Instance Result_eq_dec {A E} `{EqDecision A, EqDecision E} : EqDecision (Result A E).
Proof. solve_decision. Defined.

Definition is_ok {A E} (r : Result A E) : bool :=
  match r with Ok _ => true | Err _ => false end.

Definition map_err {A E F} (f : E → F) (r : Result A E) : Result A F :=
  match r with Ok a => Ok a | Err e => Err (f e) end.

Definition ok_or {A E} (o : option A) (e : E) : Result A E :=
  match o with Some a => Ok a | None => Err e end.

(** Rust's [?] on a result: [x ←? r; k] returns early with the error of [r]. *)
Definition and_then {A B E} (r : Result A E) (f : A → Result B E) : Result B E :=
  match r with Ok a => f a | Err e => Err e end.
Notation "x ←? r ; k" := (and_then r (λ x, k))
  (at level 20, r at level 100, k at level 200, only parsing) : meta_scope.

Lemma and_then_Ok {A B E} (r : Result A E) (f : A → Result B E) b :
  and_then r f = Ok b ↔ ∃ a, r = Ok a ∧ f a = Ok b.
Proof. destruct r as [a|e]; simpl; split; [eauto|by intros (? & [= ->] & ?)|done|by intros (? & ? & _)]. Qed.

Definition M (S E A : Type) : Type := S → Result A E * S.

Section monad.
Context {S E : Type}.

#[global] Instance m_ret : MRet (M S E) := λ A a s, (Ok a, s).
#[global] Instance m_bind : MBind (M S E) := λ A B f m s,
  match m s with
  | (Ok a, s') => f a s'
  | (Err e, s') => (Err e, s')
  end.

Definition throw {A} (e : E) : M S E A := λ s, (Err e, s).
Definition get : M S E S := λ s, (Ok s, s).
Definition gets {A} (f : S → A) : M S E A := λ s, (Ok (f s), s).
Definition modify (f : S → S) : M S E unit := λ s, (Ok tt, f s).
Definition lift_result {A} (r : Result A E) : M S E A := λ s, (r, s).
Definition lift_state {A} (f : S → A * S) : M S E A := λ s, (Ok (f s).1, (f s).2).
Definition throw_if (b : bool) (e : E) : M S E unit :=
  if b then throw e else mret tt.

(** [wp m Q s]: running [m] from [s] ends in a result and a state that
    satisfy [Q]. *)
Definition wp {A} (m : M S E A) (Q : Result A E → S → Prop) (s : S) : Prop :=
  Q (m s).1 (m s).2.

Lemma wp_bind {A B} (m : M S E A) (f : A → M S E B) Q s :
  wp (m ≫= f) Q s ↔
  wp m (λ r s', match r with Ok a => wp (f a) Q s' | Err e => Q (Err e) s' end) s.
Proof.
  unfold wp, mbind, m_bind. destruct (m s) as [[a|e] s']; done.
Qed.

Lemma wp_mono {A} (m : M S E A) (P Q : Result A E → S → Prop) s :
  wp m P s → (∀ r s', P r s' → Q r s') → wp m Q s.
Proof. unfold wp. auto. Qed.

Lemma wp_ret {A} (a : A) Q s : wp (mret a) Q s ↔ Q (Ok a) s.
Proof. done. Qed.
Lemma wp_throw {A} e (Q : Result A E → S → Prop) s : wp (throw e) Q s ↔ Q (Err e) s.
Proof. done. Qed.
Lemma wp_gets {A} (f : S → A) Q s : wp (gets f) Q s ↔ Q (Ok (f s)) s.
Proof. done. Qed.
Lemma wp_modify f Q s : wp (modify f) Q s ↔ Q (Ok tt) (f s).
Proof. done. Qed.
Lemma wp_lift_result {A} (r : Result A E) Q s : wp (lift_result r) Q s ↔ Q r s.
Proof. done. Qed.
Lemma wp_lift_state {A} (f : S → A * S) Q s : wp (lift_state f) Q s ↔ Q (Ok (f s).1) (f s).2.
Proof. done. Qed.
Lemma wp_throw_if b e Q s : wp (throw_if b e) Q s ↔ Q (if b then Err e else Ok tt) s.
Proof. by destruct b. Qed.

Lemma wp_run {A} (m : M S E A) Q s r s' :
  m s = (r, s') → wp m Q s → Q r s'.
Proof. unfold wp. intros ->. done. Qed.
End monad.

(** Run an operation whose errors are converted with [f], as [map_err(f)?]. *)
Definition with_err {S E F A} (f : E → F) (m : M S E A) : M S F A :=
  λ s, (map_err f (m s).1, (m s).2).

(** Run an operation and keep its result as a value, as a [match] on it does. *)
Definition catch {S E F A} (m : M S E A) : M S F (Result A E) := λ s, (Ok (m s).1, (m s).2).

Lemma wp_catch {S E F A} (m : M S E A) (Q : Result (Result A E) F → S → Prop) s :
  wp (catch m) Q s ↔ wp m (λ r, Q (Ok r)) s.
Proof. done. Qed.

Lemma wp_with_err {S E F A} (f : E → F) (m : M S E A) Q s :
  wp (with_err f m) Q s ↔ wp m (λ r, Q (map_err f r)) s.
Proof. done. Qed.

(** One step of symbolic execution of a [wp] goal. *)
Ltac wp_step :=
  cbv beta iota delta [map_err];
  lazymatch goal with
  | |- wp (_ ≫= _) _ _ => apply wp_bind
  | |- wp (mret _) _ _ => apply wp_ret
  | |- wp (throw _) _ _ => apply wp_throw
  | |- wp (gets _) _ _ => apply wp_gets
  | |- wp (modify _) _ _ => apply wp_modify
  | |- wp (lift_result _) _ _ => apply wp_lift_result
  | |- wp (lift_state _) _ _ => apply wp_lift_state
  | |- wp (throw_if _ _) _ _ => apply wp_throw_if
  | |- wp (with_err _ _) _ _ => apply wp_with_err
  | |- wp (catch _) _ _ => apply wp_catch
  end; cbv beta iota.

(** ** Unsigned machine integers

    A [u64] (or [u32]) is a [Z] in range; the operations that can leave the
    range are written out with the behaviour the source asks for. *)

Definition U64_MAX : Z := 2 ^ 64 - 1.
Definition U32_MAX : Z := 2 ^ 32 - 1.

Definition is_u64 (n : Z) : Prop := 0 ≤ n ≤ U64_MAX.
Definition is_u32 (n : Z) : Prop := 0 ≤ n ≤ U32_MAX.

Definition u64_saturating_add (a b : Z) : Z := Z.min (a + b) U64_MAX.
Definition u32_saturating_add (a b : Z) : Z := Z.min (a + b) U32_MAX.
Definition u64_saturating_sub (a b : Z) : Z := Z.max (a - b) 0.
Definition u64_saturating_mul (a b : Z) : Z := Z.min (a * b) U64_MAX.
Definition u64_checked_add (a b : Z) : option Z :=
  if decide (a + b ≤ U64_MAX) then Some (a + b) else None.
Definition u32_try_from (n : Z) : option Z :=
  if decide (n ≤ U32_MAX) then Some n else None.
Definition u64_clamp (lo hi n : Z) : Z := if n <? lo then lo else if hi <? n then hi else n.

(** ** Decidable tests *)

Notation "a =b b" := (bool_decide (a = b)) (at level 70, no associativity) : meta_scope.

Definition is_none_or {A} (o : option A) (f : A → bool) : bool :=
  match o with Some a => f a | None => true end.
Definition is_some_and {A} (o : option A) (f : A → bool) : bool :=
  match o with Some a => f a | None => false end.
Definition is_some {A} (o : option A) : bool :=
  match o with Some _ => true | None => false end.
Definition is_none {A} (o : option A) : bool := negb (is_some o).
Definition opt_filter {A} (f : A → bool) (o : option A) : option A :=
  match o with Some a => if f a then Some a else None | None => None end.
Definition opt_or {A} (o o' : option A) : option A :=
  match o with Some a => Some a | None => o' end.
Definition unwrap_or {A} (o : option A) (d : A) : A :=
  match o with Some a => a | None => d end.
Definition is_empty {A} (l : list A) : bool :=
  match l with [] => true | _ :: _ => false end.

(** Destruct the innermost test of the goal or of a hypothesis. *)
Ltac case_test :=
  match goal with
  | |- context [bool_decide ?P] => destruct (bool_decide_reflect P)
  | |- context [decide ?P] => destruct (decide P)
  | H : context [bool_decide ?P] |- _ => destruct (bool_decide_reflect P)
  | H : context [decide ?P] |- _ => destruct (decide P)
  end.

Ltac inv_pair := repeat match goal with H : (_, _) = (_, _) |- _ => injection H; clear H; intros; subst end.

(** ** Vectors *)

(** [while v.len() > n { v.remove(0) }] *)
Fixpoint shrink_front {A} (n : nat) (l : list A) : list A :=
  match l with
  | [] => []
  | _ :: l' => if (n <? length l)%nat then shrink_front n l' else l
  end.

(** [iter().find(f)] *)
Definition find_first {A} (f : A → bool) (l : list A) : option A := List.find f l.

(** [iter().position(f)] *)
Fixpoint position {A} (f : A → bool) (l : list A) : option nat :=
  match l with
  | [] => None
  | x :: l' => if f x then Some 0%nat else S <$> position f l'
  end.

(** [iter().rev().take(n).collect().into_iter().rev().collect()] *)
Definition take_last {A} (n : nat) (l : list A) : list A := rev (take n (rev l)).

Lemma shrink_front_drop {A} n (l : list A) :
  shrink_front n l = drop (length l - n) l.
Proof.
  induction l as [|x l IH]; [by rewrite drop_nil|].
  cbn [shrink_front]. destruct (Nat.ltb_spec n (length (x :: l))) as [H|H].
  - rewrite IH. replace (length (x :: l) - n)%nat with (S (length l - n)) by (simpl in *; lia). done.
  - replace (length (x :: l) - n)%nat with 0%nat by lia. done.
Qed.

Lemma length_shrink_front {A} n (l : list A) : (length (shrink_front n l) ≤ n)%nat.
Proof. rewrite shrink_front_drop, length_drop. lia. Qed.

Lemma shrink_front_id {A} n (l : list A) : (length l ≤ n)%nat → shrink_front n l = l.
Proof. intros. rewrite shrink_front_drop. by replace (length l - n)%nat with 0%nat by lia. Qed.

Lemma take_last_drop {A} n (l : list A) : take_last n l = drop (length l - n) l.
Proof.
  unfold take_last. by rewrite firstn_rev, rev_involutive.
Qed.

Lemma elem_of_shrink_front {A} n (l : list A) x : x ∈ shrink_front n l → x ∈ l.
Proof.
  rewrite shrink_front_drop. intros H. eapply elem_of_sublist; [exact H|]. apply sublist_drop.
Qed.

Lemma shrink_front_app {A} n (l k : list A) : shrink_front n (shrink_front n l ++ k) = shrink_front n (l ++ k).
Proof.
  rewrite !shrink_front_drop. destruct (decide (length l ≤ n)%nat) as [Hle|Hgt].
  - replace (length l - n)%nat with 0%nat by lia. done.
  - rewrite !length_app, length_drop, !drop_app, drop_drop, length_drop.
    f_equal; f_equal; lia.
Qed.

Lemma last_in_shrink_front {A} n (l : list A) x : (1 ≤ n)%nat → x ∈ shrink_front n (l ++ [x]).
Proof.
  intros Hn. rewrite shrink_front_drop, drop_app_le by (rewrite length_app; simpl; lia).
  apply elem_of_app. right. by apply list_elem_of_singleton.
Qed.

Lemma find_first_is_Some {A} (f : A → bool) l x : x ∈ l → f x = true → is_Some (find_first f l).
Proof.
  intros Hx Hf. destruct (find_first f l) eqn:E; [eauto|]. unfold find_first in E.
  eapply find_none in E; [|by apply list_elem_of_In]. congruence.
Qed.

Lemma find_first_Some {A} (f : A → bool) l x :
  find_first f l = Some x → x ∈ l ∧ f x = true.
Proof. intros H. apply find_some in H. by rewrite list_elem_of_In. Qed.

Lemma find_first_None {A} (f : A → bool) l :
  find_first f l = None ↔ ∀ x, x ∈ l → f x = false.
Proof.
  unfold find_first. split.
  - intros H x Hx. eapply find_none in H; [done|]. by apply list_elem_of_In.
  - intros H. induction l as [|y l IH]; [done|]. simpl.
    rewrite (H y) by set_solver. apply IH. set_solver.
Qed.

Lemma position_Some {A} (f : A → bool) l i :
  position f l = Some i →
  ∃ x, l !! i = Some x ∧ f x = true ∧ ∀ j y, (j < i)%nat → l !! j = Some y → f y = false.
Proof.
  revert i. induction l as [|x l IH]; intros i; simpl; [done|].
  destruct (f x) eqn:Hx.
  - intros [= <-]. exists x. split_and!; [done..|]. intros j y; lia.
  - destruct (position f l) as [k|] eqn:Hp; simpl; [|done]. intros [= <-].
    destruct (IH k) as (y & Hy & Hf & Hlt); [done|]. exists y. split_and!; [done..|].
    intros [|j] z Hj; simpl; [by intros [= <-]|]. apply Hlt. lia.
Qed.

Lemma position_None {A} (f : A → bool) l :
  position f l = None ↔ ∀ x, x ∈ l → f x = false.
Proof.
  induction l as [|x l IH]; simpl; [set_solver|].
  destruct (f x) eqn:Hx.
  - split; [done|]. intros H. rewrite H in Hx by set_solver. done.
  - rewrite fmap_None, IH. set_solver.
Qed.

Lemma forallb_elem_of {A} (f : A → bool) l : forallb f l = true ↔ ∀ x, x ∈ l → f x = true.
Proof. rewrite forallb_forall. by setoid_rewrite list_elem_of_In. Qed.

Lemma existsb_elem_of {A} (f : A → bool) l : existsb f l = true ↔ ∃ x, x ∈ l ∧ f x = true.
Proof. rewrite existsb_exists. by setoid_rewrite list_elem_of_In. Qed.

Lemma existsb_false {A} (f : A → bool) l : existsb f l = false ↔ ∀ x, x ∈ l → f x = false.
Proof.
  rewrite <- not_true_iff_false, existsb_elem_of. split.
  - intros H x Hx. destruct (f x) eqn:E; [|done]. exfalso; eauto.
  - intros H (x & Hx & Hf). rewrite H in Hf; done.
Qed.

Lemma existsb_ext {A} (f g : A → bool) l : (∀ x, f x = g x) → existsb f l = existsb g l.
Proof. intros H. induction l as [|x l IH]; [done|]. simpl. by rewrite H, IH. Qed.

Lemma forallb_false {A} (f : A → bool) l : forallb f l = false ↔ ∃ x, x ∈ l ∧ f x = false.
Proof.
  induction l as [|x l IH]; simpl; [set_solver|]. rewrite andb_false_iff, IH. set_solver.
Qed.

Lemma NoDup_filter_ne {A} `{EqDecision A} (x : A) l : NoDup l → NoDup (filter (λ y, y ≠ x) l).
Proof. apply NoDup_filter. Qed.

Lemma filter_ne_id {A} `{EqDecision A} (x : A) (l : list A) : x ∉ l → filter (λ y, y ≠ x) l = l.
Proof.
  induction l as [|y l IH]; [done|]. intros [Hy Hl]%not_elem_of_cons.
  rewrite filter_cons_True by done. by rewrite IH.
Qed.

Lemma map_Forall_mono {K A} `{Countable K} (P : K → A → Prop) (m m' : gmap K A) :
  m' ⊆ m → map_Forall P m → map_Forall P m'.
Proof. intros Hsub HP k a Hk. apply HP. eapply lookup_weaken; done. Qed.

(** ** The last values of a counter

    A table that keeps the last entries it issued: pushing the next one and
    dropping from the front keeps the ids the last values of the counter. *)

Lemma seqZ_snoc a n : 0 ≤ n → seqZ a (n + 1) = seqZ a n ++ [a + n].
Proof. intros Hn. rewrite seqZ_app by lia. done. Qed.

Lemma seqZ_drop k a n : 0 ≤ n → Z.of_nat k ≤ n → drop k (seqZ a n) = seqZ (a + Z.of_nat k) (n - Z.of_nat k).
Proof.
  intros Hn Hk. replace n with (Z.of_nat k + (n - Z.of_nat k)) at 1 by lia.
  rewrite seqZ_app by lia. rewrite drop_app_length'; [done|]. rewrite length_seqZ. lia.
Qed.

Definition last_issued {A} (f : Z → A) (next : Z) (l : list A) : Prop :=
  let n := Z.of_nat (length l) in n ≤ next ∧ l = f <$> seqZ (next - n) n.

Lemma last_issued_push {A} (f : Z → A) next l :
  last_issued f next l → last_issued f (next + 1) (l ++ [f next]).
Proof.
  unfold last_issued. intros [Hn Hl]. rewrite length_app, Nat2Z.inj_add. simpl length. split; [lia|].
  replace (next + 1 - (Z.of_nat (length l) + Z.of_nat 1)) with (next - Z.of_nat (length l)) by lia.
  change (Z.of_nat 1) with 1. rewrite seqZ_snoc, fmap_app by lia. rewrite <- Hl. simpl.
  by replace (next - Z.of_nat (length l) + Z.of_nat (length l)) with next by lia.
Qed.

Lemma last_issued_shrink {A} (f : Z → A) next n l :
  last_issued f next l → last_issued f next (shrink_front n l).
Proof.
  unfold last_issued. intros [Hn Hl]. rewrite shrink_front_drop, length_drop. split; [lia|].
  rewrite Hl at 2. rewrite <- fmap_drop, seqZ_drop by lia. do 2 f_equal; lia.
Qed.

Lemma last_issued_elem {A} (f : Z → A) next l x :
  last_issued f next l → x ∈ l → ∃ k, x = f k ∧ 0 ≤ k < next.
Proof.
  intros [Hn ->] (k & -> & Hk%elem_of_seqZ)%list_elem_of_fmap. exists k. split; [done|]. lia.
Qed.

Lemma last_issued_NoDup {A} (f : Z → A) next l :
  (∀ a b, 0 ≤ a < next → 0 ≤ b < next → f a = f b → a = b) → last_issued f next l → NoDup l.
Proof.
  intros Hinj [Hn ->]. apply NoDup_fmap_2_strong; [|apply NoDup_seqZ].
  intros x y Hx%elem_of_seqZ Hy%elem_of_seqZ. apply Hinj; lia.
Qed.

(** ** Ordered maps

    A [BTreeMap<K, V>] is a [gmap K V]; what its iterators yield is
    [btree_entries], the bindings in key order. *)

Class KeyOrder (K : Type) := {
  key_le : relation K;
  key_le_dec :: RelDecision key_le;
  key_le_po :: PartialOrder key_le;
  key_le_total :: Total key_le;
}.

#[global] Instance string_key_order : KeyOrder string := {| key_le := String.le |}.

(** Lexicographic order on triples, for keys with a derived [Ord]. *)
Definition lex2_le {A B} (RA : relation A) (RB : relation B) (p q : A * B) : Prop :=
  (p.1 = q.1 ∧ RB p.2 q.2) ∨ (p.1 ≠ q.1 ∧ RA p.1 q.1).

Section lex2.
Context {A B} `{EqDecision A} (RA : relation A) (RB : relation B).
Context `{!RelDecision RA, !RelDecision RB, !PartialOrder RA, !PartialOrder RB, !Total RA, !Total RB}.

#[global] Instance lex2_le_dec : RelDecision (lex2_le RA RB).
Proof using All. intros p q. unfold lex2_le. apply _. Defined.
#[global] Instance lex2_le_po : PartialOrder (lex2_le RA RB).
Proof using All.
  split; [split|].
  - intros p. left. by split.
  - intros [a b] [c d] [e f]; unfold lex2_le; simpl. intros [[-> H1]|[N1 H1]] [[-> H2]|[N2 H2]].
    + left. split; [done|]. by etrans.
    + right. done.
    + right. done.
    + right. split; [|by etrans]. intros ->. apply N1. by apply (anti_symm RA).
  - intros [a b] [c d]; unfold lex2_le; simpl. intros [[-> H1]|[N1 H1]] [[E H2]|[N2 H2]].
    + f_equal. by apply (anti_symm RB).
    + done.
    + by subst.
    + exfalso. apply N1. by apply (anti_symm RA).
Qed.
#[global] Instance lex2_le_total : Total (lex2_le RA RB).
Proof using All.
  intros [a b] [c d]; unfold lex2_le; simpl. destruct (decide (a = c)) as [->|Hne].
  - destruct (total RB b d); [left|right]; left; done.
  - destruct (total RA a c); [left|right]; right; done.
Qed.
End lex2.

Definition lex3_le : relation (string * string * string) := lex2_le (lex2_le String.le String.le) String.le.
#[global] Instance lex3_le_dec : RelDecision lex3_le.
Proof. unfold lex3_le. apply _. Defined.
#[global] Instance lex3_le_po : PartialOrder lex3_le.
Proof. unfold lex3_le. apply _. Qed.
#[global] Instance lex3_le_total : Total lex3_le.
Proof. unfold lex3_le. apply _. Qed.

Section btree.
Context {K V : Type} `{Countable K} `{!KeyOrder K}.
Implicit Types m : gmap K V.

Definition entry_le (p q : K * V) : Prop := key_le p.1 q.1.
#[global] Instance entry_le_dec : RelDecision entry_le.
Proof. intros p q. unfold entry_le. apply _. Defined.
#[global] Instance entry_le_total : Total entry_le.
Proof. intros p q. unfold entry_le. apply (total key_le). Qed.
#[global] Instance entry_le_trans : Transitive entry_le.
Proof. intros p q r. unfold entry_le. by etrans. Qed.

Definition btree_entries m : list (K * V) := merge_sort entry_le (map_to_list m).
Definition btree_keys m : list K := (btree_entries m).*1.
Definition btree_values m : list V := (btree_entries m).*2.

Lemma btree_entries_perm m : btree_entries m ≡ₚ map_to_list m.
Proof. apply merge_sort_Permutation. Qed.

Lemma elem_of_btree_entries m k v : (k, v) ∈ btree_entries m ↔ m !! k = Some v.
Proof. rewrite btree_entries_perm. apply elem_of_map_to_list. Qed.

Lemma btree_keys_sorted m : StronglySorted key_le (btree_keys m).
Proof.
  unfold btree_keys. eapply StronglySorted_fmap; [|apply StronglySorted_merge_sort; apply _].
  done.
Qed.

Lemma NoDup_btree_keys m : NoDup (btree_keys m).
Proof. unfold btree_keys. rewrite btree_entries_perm. apply NoDup_fst_map_to_list. Qed.

Lemma elem_of_btree_keys m k : k ∈ btree_keys m ↔ is_Some (m !! k).
Proof.
  unfold btree_keys. rewrite list_elem_of_fmap. split.
  - intros ([k' v] & -> & Hkv). exists v. by apply elem_of_btree_entries.
  - intros [v Hv]. exists (k, v). split; [done|]. by apply elem_of_btree_entries.
Qed.

Lemma elem_of_btree_values m v : v ∈ btree_values m ↔ ∃ k, m !! k = Some v.
Proof.
  unfold btree_values. rewrite list_elem_of_fmap. split.
  - intros ([k v'] & -> & Hkv). exists k. by apply elem_of_btree_entries.
  - intros [k Hv]. exists (k, v). split; [done|]. by apply elem_of_btree_entries.
Qed.

Lemma length_btree_entries m : length (btree_entries m) = size m.
Proof. by rewrite btree_entries_perm, length_map_to_list. Qed.

(** The first value in key order that passes a test has the least key of those that do. *)
Lemma find_first_sorted_entries f (l : list (K * V)) v :
  StronglySorted entry_le l →
  find_first f l.*2 = Some v →
  ∃ k, (k, v) ∈ l ∧ f v = true ∧ ∀ k' v', (k', v') ∈ l → f v' = true → key_le k k'.
Proof.
  unfold find_first. induction 1 as [|[k w] l Hs IH Hall]; simpl; [done|].
  destruct (f w) eqn:Hw.
  - intros [= ->]. exists k. split_and!; [by left|done|]. intros k' v' [Heq|Hin]%elem_of_cons _.
    + by injection Heq as -> ->.
    + rewrite Forall_forall in Hall. by apply (Hall (k', v')).
  - intros (k0 & Hin & Hf & Hmin)%IH. exists k0. split_and!; [by right|done|].
    intros k' v' [Heq|Hin']%elem_of_cons Hf'; [injection Heq as -> ->; congruence|eauto].
Qed.

Lemma find_first_btree_values f m v :
  find_first f (btree_values m) = Some v →
  ∃ k, m !! k = Some v ∧ f v = true ∧ ∀ k' v', m !! k' = Some v' → f v' = true → key_le k k'.
Proof.
  intros H1. apply find_first_sorted_entries in H1 as (k & Hin & Hf & Hmin).
  - exists k. rewrite <- elem_of_btree_entries. split_and!; [done..|].
    intros k' v' Hk'. apply Hmin. by apply elem_of_btree_entries.
  - apply StronglySorted_merge_sort; apply _.
Qed.
End btree.

(** [BTreeSet<String>] and its iteration order. *)
Definition bset_elements (s : gset string) : list string := merge_sort String.le (elements s).

Lemma elem_of_bset_elements s x : x ∈ bset_elements s ↔ x ∈ s.
Proof. unfold bset_elements. rewrite merge_sort_Permutation. apply elem_of_elements. Qed.

(** ** Automation of the development *)

Create HintDb meta discriminated.
#[export] Hint Resolve elem_of_shrink_front length_shrink_front : meta.
#[export] Hint Extern 1 (_ ≤ _)%Z => lia : meta.
#[export] Hint Resolve NoDup_btree_keys btree_keys_sorted : meta.
