(* ===== verification/Strings.v ===== *)
(** * Rust strings

    The [str] methods the runtime uses, on byte strings.  A Rust [String] is
    its UTF-8 encoding, so [trim] recognizes the encodings of the Unicode
    [White_Space] characters, as [char::is_whitespace] does; the other methods
    only look for ASCII bytes, where bytes and characters agree.  The second
    half is the decimal and hexadecimal formatting and parsing of integers. *)

From Stdlib Require Ascii.
From S2P Require Import Prelude.
Open Scope Z_scope.

Export (notations) Stdlib.Strings.Ascii.
Notation ascii := Stdlib.Strings.Ascii.ascii.
Notation N_of_ascii := Stdlib.Strings.Ascii.N_of_ascii.
Notation ascii_of_N := Stdlib.Strings.Ascii.ascii_of_N.

Notation "s +:+ t" := (String.app s t) (at level 60, right associativity) : meta_scope.

Fixpoint str_len (s : string) : nat :=
  match s with "" => 0%nat | String _ s' => S (str_len s') end.

Definition str_is_empty (s : string) : bool := match s with "" => true | _ => false end.

Definition byte_val (a : ascii) : Z := Z.of_N (N_of_ascii a).

(** ** Prefixes, suffixes and splitting *)

Fixpoint strip_prefix (p s : string) : option string :=
  match p, s with
  | "", _ => Some s
  | String a p', String b s' => if a =b b then strip_prefix p' s' else None
  | String _ _, "" => None
  end.

Fixpoint strip_suffix (q s : string) : option string :=
  if s =b q then Some ""
  else match s with
       | "" => None
       | String a s' => String a <$> strip_suffix q s'
       end.

Definition starts_with (p s : string) : bool := is_some (strip_prefix p s).

Fixpoint contains_byte (c : ascii) (s : string) : bool :=
  match s with "" => false | String a s' => (a =b c) || contains_byte c s' end.

(** [haystack.contains(needle)] *)
Fixpoint str_contains (needle s : string) : bool :=
  starts_with needle s ||
  match s with "" => false | String _ s' => str_contains needle s' end.

(** [s.split_once(c)] for an ASCII character *)
Fixpoint split_once (c : ascii) (s : string) : option (string * string) :=
  match s with
  | "" => None
  | String a s' =>
      if a =b c then Some ("", s')
      else (λ p, (String a p.1, p.2)) <$> split_once c s'
  end.

(** [s.split(c)] for an ASCII character *)
Fixpoint split_byte (c : ascii) (s : string) : list string :=
  match s with
  | "" => [""]
  | String a s' =>
      if a =b c then "" :: split_byte c s'
      else match split_byte c s' with
           | [] => [String a ""]
           | w :: ws => String a w :: ws
           end
  end.

(** [l.join(sep)] *)
Fixpoint join (sep : string) (l : list string) : string :=
  match l with
  | [] => ""
  | [x] => x
  | x :: rest => x +:+ sep +:+ join sep rest
  end.

Definition ascii_lower (a : ascii) : ascii :=
  let n := byte_val a in
  if (65 <=? n) && (n <=? 90) then ascii_of_N (Z.to_N (n + 32)) else a.

Fixpoint to_ascii_lowercase (s : string) : string :=
  match s with "" => "" | String a s' => String (ascii_lower a) (to_ascii_lowercase s') end.

Definition eq_ignore_ascii_case (s t : string) : bool :=
  to_ascii_lowercase s =b to_ascii_lowercase t.

(** ** Trimming *)

Definition is_ws1 (a : ascii) : bool :=
  let n := byte_val a in ((9 <=? n) && (n <=? 13)) || (n =? 32).
(** U+0085 and U+00A0 *)
Definition is_ws2 (a b : ascii) : bool :=
  (byte_val a =? 0xC2) && ((byte_val b =? 0x85) || (byte_val b =? 0xA0)).
(** U+1680, U+2000..U+200A, U+2028, U+2029, U+202F, U+205F and U+3000 *)
Definition is_ws3 (a b c : ascii) : bool :=
  let '(x, y, z) := (byte_val a, byte_val b, byte_val c) in
  ((x =? 0xE1) && (y =? 0x9A) && (z =? 0x80)) ||
  ((x =? 0xE2) && (y =? 0x80) &&
     (((0x80 <=? z) && (z <=? 0x8A)) || (z =? 0xA8) || (z =? 0xA9) || (z =? 0xAF))) ||
  ((x =? 0xE2) && (y =? 0x81) && (z =? 0x9F)) ||
  ((x =? 0xE3) && (y =? 0x80) && (z =? 0x80)).

(** What is left after one leading whitespace character, if there is one. *)
Definition ws_head (s : string) : option string :=
  match s with
  | String a s1 =>
      if is_ws1 a then Some s1
      else match s1 with
           | String b s2 =>
               if is_ws2 a b then Some s2
               else match s2 with
                    | String c s3 => if is_ws3 a b c then Some s3 else None
                    | "" => None
                    end
           | "" => None
           end
  | "" => None
  end.

(** The same on a reversed string: one trailing whitespace character. *)
Definition ws_last (s : string) : option string :=
  match s with
  | String a s1 =>
      if is_ws1 a then Some s1
      else match s1 with
           | String b s2 =>
               if is_ws2 b a then Some s2
               else match s2 with
                    | String c s3 => if is_ws3 c b a then Some s3 else None
                    | "" => None
                    end
           | "" => None
           end
  | "" => None
  end.

Fixpoint strip_while (fuel : nat) (h : string → option string) (s : string) : string :=
  match fuel with
  | O => s
  | S n => match h s with Some r => strip_while n h r | None => s end
  end.

Definition trim_start (s : string) : string := strip_while (str_len s) ws_head s.
Definition trim_end (s : string) : string :=
  String.rev (strip_while (str_len s) ws_last (String.rev s)).

(** [str::trim] *)
Definition trim (s : string) : string := trim_end (trim_start s).

(** The idiom [.map(str::trim).filter(|v| !v.is_empty()).map(ToString::to_string)]. *)
Definition trimmed_non_empty (o : option string) : option string :=
  opt_filter (λ v, negb (str_is_empty v)) (trim <$> o).

Lemma str_app_cons a s t : String a s +:+ t = String a (s +:+ t).
Proof. done. Qed.
Lemma str_app_nil_l s : "" +:+ s = s.
Proof. done. Qed.
Lemma str_app_nil_r s : s +:+ "" = s.
Proof. induction s as [|a s IH]; [done|]. by rewrite str_app_cons, IH. Qed.
Lemma str_app_assoc s t u : s +:+ t +:+ u = (s +:+ t) +:+ u.
Proof. induction s as [|a s IH]; [done|]. by rewrite !str_app_cons, IH. Qed.
Lemma str_len_app s t : str_len (s +:+ t) = (str_len s + str_len t)%nat.
Proof. induction s as [|a s IH]; [done|]. rewrite str_app_cons. simpl. by rewrite IH. Qed.

Lemma rev_app_spec s t : String.rev_app s t = String.rev s +:+ t.
Proof.
  unfold String.rev. revert t. induction s as [|a s IH]; intros t; [done|]. simpl.
  rewrite (IH (String a t)), (IH (String a "")), <- str_app_assoc. done.
Qed.
Lemma str_rev_cons a s : String.rev (String a s) = String.rev s +:+ String a "".
Proof. unfold String.rev at 1. simpl. apply rev_app_spec. Qed.
Lemma str_rev_app s t : String.rev (s +:+ t) = String.rev t +:+ String.rev s.
Proof.
  induction s as [|a s IH]; [by rewrite str_app_nil_r|].
  by rewrite str_app_cons, !str_rev_cons, IH, str_app_assoc.
Qed.
Lemma str_rev_involutive s : String.rev (String.rev s) = s.
Proof. induction s as [|a s IH]; [done|]. by rewrite str_rev_cons, str_rev_app, IH. Qed.
Lemma str_len_rev s : str_len (String.rev s) = str_len s.
Proof.
  induction s as [|a s IH]; [done|]. rewrite str_rev_cons, str_len_app, IH. simpl. lia.
Qed.

Lemma strip_prefix_Some p s r : strip_prefix p s = Some r ↔ s = p +:+ r.
Proof.
  revert s. induction p as [|a p IH]; intros s; simpl.
  - rewrite str_app_nil_l. naive_solver.
  - destruct s as [|b s]; [done|]. rewrite str_app_cons. case_test.
    + subst. rewrite IH. naive_solver.
    + naive_solver.
Qed.

Lemma strip_prefix_app p r : strip_prefix p (p +:+ r) = Some r.
Proof. by apply strip_prefix_Some. Qed.

Lemma strip_suffix_Some q s r : strip_suffix q s = Some r ↔ s = r +:+ q.
Proof.
  revert r. induction s as [|a s IH]; intros r; cbn [strip_suffix].
  - case_test.
    + subst. split; [by intros [= <-]|]. destruct r; [done|]. intros H. by apply (f_equal str_len) in H.
    + split; [done|]. destruct r; [|done]. rewrite str_app_nil_l. congruence.
  - destruct (bool_decide_reflect (String a s = q)) as [<-|Hne].
    + split; [by intros [= <-]|]. destruct r as [|b r]; [done|]. intros H.
      apply (f_equal str_len) in H. rewrite str_len_app in H. simpl in H. lia.
    + rewrite fmap_Some. setoid_rewrite IH. split.
      * intros (x & -> & ->). done.
      * destruct r as [|b r]; [by rewrite str_app_nil_l; congruence|].
        rewrite str_app_cons. intros [= -> ->]. eauto.
Qed.

Lemma starts_with_spec p s : starts_with p s = true ↔ ∃ r, s = p +:+ r.
Proof.
  unfold starts_with, is_some. destruct (strip_prefix p s) as [r|] eqn:E.
  - apply strip_prefix_Some in E. naive_solver.
  - split; [done|]. intros [r Hr]. apply strip_prefix_Some in Hr. congruence.
Qed.

Lemma split_once_app c x y :
  contains_byte c x = false → split_once c (x +:+ String c y) = Some (x, y).
Proof.
  induction x as [|a x IH]; simpl.
  - by rewrite bool_decide_eq_true_2.
  - intros [Ha Hx]%orb_false_elim. rewrite Ha, IH by done. done.
Qed.

(** *** Trimming is idempotent *)

Section strip_while.
Context (h : string → option string).
Context (h_shorter : ∀ s r, h s = Some r → (str_len r < str_len s)%nat).
Context (h_suffix : ∀ s r, h s = Some r → ∃ p, s = p +:+ r).

Lemma strip_while_done n s : (str_len s ≤ n)%nat → h (strip_while n h s) = None.
Proof using h_shorter.
  revert s. induction n as [|n IH]; intros s Hn; simpl.
  - destruct (h s) as [r|] eqn:E; [|done]. apply h_shorter in E. lia.
  - destruct (h s) as [r|] eqn:E; [|done]. apply IH. apply h_shorter in E. lia.
Qed.

Lemma strip_while_suffix n s : ∃ p, s = p +:+ strip_while n h s.
Proof using h_suffix.
  revert s. induction n as [|n IH]; intros s; simpl; [by exists ""|].
  destruct (h s) as [r|] eqn:E; [|by exists ""].
  destruct (h_suffix _ _ E) as [p ->]. destruct (IH r) as [p' Hp'].
  exists (p +:+ p'). rewrite <- str_app_assoc. by rewrite <- Hp'.
Qed.

Lemma strip_while_stuck n s : h s = None → strip_while n h s = s.
Proof using. intros H. destruct n; simpl; [done|]. by rewrite H. Qed.
End strip_while.

Ltac ws_cases s := destruct s as [|? [|? [|? ?]]]; simpl; repeat case_match; naive_solver lia.

Lemma ws_head_shorter s r : ws_head s = Some r → (str_len r < str_len s)%nat.
Proof. ws_cases s. Qed.
Lemma ws_last_shorter s r : ws_last s = Some r → (str_len r < str_len s)%nat.
Proof. ws_cases s. Qed.

Lemma ws_head_suffix s r : ws_head s = Some r → ∃ p, s = p +:+ r.
Proof.
  destruct s as [|a [|b [|c t]]]; simpl; repeat case_match; intros ?; simplify_eq.
  all: first [ by exists (String a "") | by exists (String a (String b ""))
             | by exists (String a (String b (String c ""))) ].
Qed.
Lemma ws_last_suffix s r : ws_last s = Some r → ∃ p, s = p +:+ r.
Proof.
  destruct s as [|a [|b [|c t]]]; simpl; repeat case_match; intros ?; simplify_eq.
  all: first [ by exists (String a "") | by exists (String a (String b ""))
             | by exists (String a (String b (String c ""))) ].
Qed.

Lemma ws_head_app s t r : ws_head s = Some r → ∃ r', ws_head (s +:+ t) = Some r'.
Proof.
  destruct s as [|a [|b [|c s]]]; simpl; rewrite ?str_app_cons; simpl;
    repeat case_match; intros ?; simplify_eq; eauto.
Qed.

Lemma trim_start_prefix s : ∃ p, s = p +:+ trim_start s.
Proof. apply strip_while_suffix, ws_head_suffix. Qed.

Lemma trim_end_prefix s : ∃ q, s = trim_end s +:+ q.
Proof.
  unfold trim_end.
  destruct (strip_while_suffix ws_last ws_last_suffix (str_len s) (String.rev s)) as [p Hp].
  exists (String.rev p). rewrite <- str_rev_app, <- Hp. by rewrite str_rev_involutive.
Qed.

Lemma trim_end_idemp s : trim_end (trim_end s) = trim_end s.
Proof.
  unfold trim_end at 1. rewrite strip_while_stuck.
  - by rewrite str_rev_involutive.
  - unfold trim_end. rewrite str_rev_involutive. apply strip_while_done; [apply ws_last_shorter|].
    by rewrite str_len_rev.
Qed.

Lemma trim_start_trim s : trim_start (trim s) = trim s.
Proof.
  unfold trim_start at 1. apply strip_while_stuck.
  destruct (ws_head (trim s)) as [r|] eqn:E; [|done].
  destruct (trim_end_prefix (trim_start s)) as [q Hq]. fold (trim s) in Hq.
  destruct (ws_head_app _ q _ E) as [r' Hr']. rewrite <- Hq in Hr'.
  unfold trim_start in Hr'. rewrite strip_while_done in Hr'; [done|apply ws_head_shorter|lia].
Qed.

Lemma trim_idemp s : trim (trim s) = trim s.
Proof.
  unfold trim at 1. rewrite trim_start_trim. unfold trim. apply trim_end_idemp.
Qed.
#[export] Hint Rewrite trim_idemp : meta.

Lemma trimmed_non_empty_Some o v :
  trimmed_non_empty o = Some v → trim v = v ∧ v ≠ "".
Proof.
  unfold trimmed_non_empty. destruct o as [s|]; simpl; [|done].
  destruct (trim s) as [|a t] eqn:E; simpl; [done|]. intros [= <-].
  split; [|done]. rewrite <- E. apply trim_idemp.
Qed.

Lemma str_is_empty_true s : str_is_empty s = true ↔ s = "".
Proof. by destruct s. Qed.
Lemma str_is_empty_false s : str_is_empty s = false ↔ s ≠ "".
Proof. by destruct s. Qed.

(** ** Lower-casing commutes with trimming *)

Lemma byte_val_range a : 0 ≤ byte_val a < 256.
Proof. unfold byte_val. pose proof (Stdlib.Strings.Ascii.N_ascii_bounded a). lia. Qed.

Lemma byte_val_lower a :
  byte_val (ascii_lower a) = if (65 <=? byte_val a) && (byte_val a <=? 90) then byte_val a + 32 else byte_val a.
Proof.
  unfold ascii_lower. pose proof (byte_val_range a).
  destruct ((65 <=? byte_val a) && (byte_val a <=? 90)) eqn:E; [|done].
  apply andb_true_iff in E as [?%Z.leb_le ?%Z.leb_le].
  unfold byte_val at 1. rewrite Stdlib.Strings.Ascii.N_ascii_embedding by lia. lia.
Qed.

Lemma ascii_lower_idemp a : ascii_lower (ascii_lower a) = ascii_lower a.
Proof.
  unfold ascii_lower at 1. rewrite byte_val_lower.
  destruct ((65 <=? byte_val a) && (byte_val a <=? 90)) eqn:E.
  - apply andb_true_iff in E as [?%Z.leb_le ?%Z.leb_le].
    replace (byte_val a + 32 <=? 90) with false by (symmetry; apply Z.leb_gt; lia). by rewrite andb_false_r.
  - rewrite E. done.
Qed.

Lemma to_ascii_lowercase_idemp s : to_ascii_lowercase (to_ascii_lowercase s) = to_ascii_lowercase s.
Proof. induction s as [|a s IH]; simpl; [done|]. by rewrite ascii_lower_idemp, IH. Qed.

Lemma lowercase_app s t : to_ascii_lowercase (s +:+ t) = to_ascii_lowercase s +:+ to_ascii_lowercase t.
Proof. induction s as [|a s IH]; [done|]. rewrite str_app_cons. simpl. rewrite IH. done. Qed.

Lemma lowercase_rev s : to_ascii_lowercase (String.rev s) = String.rev (to_ascii_lowercase s).
Proof.
  induction s as [|a s IH]; [done|]. simpl to_ascii_lowercase. rewrite !str_rev_cons, lowercase_app, IH. done.
Qed.

Lemma lowercase_len s : str_len (to_ascii_lowercase s) = str_len s.
Proof. induction s as [|a s IH]; simpl; [done|]. by rewrite IH. Qed.

(** No letter is part of a whitespace character. *)
Lemma byte_test_lower (P : Z → bool) a :
  (∀ n, 65 ≤ n ≤ 122 → P n = false) → P (byte_val (ascii_lower a)) = P (byte_val a).
Proof.
  intros HP. rewrite byte_val_lower. destruct ((65 <=? byte_val a) && (byte_val a <=? 90)) eqn:E; [|done].
  apply andb_true_iff in E as [?%Z.leb_le ?%Z.leb_le]. rewrite !HP by lia. done.
Qed.

Ltac byte_test := intros n [Hn1 Hn2]; rewrite ?(proj2 (Z.eqb_neq n _)) by lia; try done;
  apply not_true_iff_false; rewrite ?orb_true_iff, ?andb_true_iff, ?Z.leb_le, ?Z.eqb_eq; lia.

Lemma is_ws1_lower a : is_ws1 (ascii_lower a) = is_ws1 a.
Proof. apply (byte_test_lower (λ n, ((9 <=? n) && (n <=? 13)) || (n =? 32))). byte_test. Qed.

Lemma byte_eqb_lower k a : 122 < k → (byte_val (ascii_lower a) =? k) = (byte_val a =? k).
Proof. intros Hk. apply (byte_test_lower (λ n, n =? k)). byte_test. Qed.

Lemma is_ws2_lower a b : is_ws2 (ascii_lower a) (ascii_lower b) = is_ws2 a b.
Proof. unfold is_ws2. by rewrite !byte_eqb_lower by lia. Qed.

Lemma is_ws3_lower a b c : is_ws3 (ascii_lower a) (ascii_lower b) (ascii_lower c) = is_ws3 a b c.
Proof.
  unfold is_ws3. rewrite !byte_eqb_lower by lia.
  assert (∀ x, ((0x80 <=? byte_val (ascii_lower x)) && (byte_val (ascii_lower x) <=? 0x8A))
    = ((0x80 <=? byte_val x) && (byte_val x <=? 0x8A))) as E
    by (intros x; apply (byte_test_lower (λ n, (0x80 <=? n) && (n <=? 0x8A))); byte_test).
  by rewrite E.
Qed.

Lemma ws_head_lower s : ws_head (to_ascii_lowercase s) = to_ascii_lowercase <$> ws_head s.
Proof.
  destruct s as [|a [|b [|c t]]]; simpl; rewrite ?is_ws1_lower, ?is_ws2_lower, ?is_ws3_lower;
    repeat case_match; done.
Qed.
Lemma ws_last_lower s : ws_last (to_ascii_lowercase s) = to_ascii_lowercase <$> ws_last s.
Proof.
  destruct s as [|a [|b [|c t]]]; simpl; rewrite ?is_ws1_lower, ?is_ws2_lower, ?is_ws3_lower;
    repeat case_match; done.
Qed.

Lemma strip_while_lower h n s :
  (∀ s, h (to_ascii_lowercase s) = to_ascii_lowercase <$> h s) →
  strip_while n h (to_ascii_lowercase s) = to_ascii_lowercase (strip_while n h s).
Proof.
  intros Hh. revert s. induction n as [|n IH]; intros s; simpl; [done|]. rewrite Hh. by destruct (h s); simpl.
Qed.

Lemma trim_lower s : trim (to_ascii_lowercase s) = to_ascii_lowercase (trim s).
Proof.
  unfold trim, trim_end, trim_start. rewrite lowercase_len, strip_while_lower by apply ws_head_lower.
  rewrite lowercase_len, <- !lowercase_rev, strip_while_lower by apply ws_last_lower. by rewrite lowercase_rev.
Qed.

#[export] Hint Rewrite trim_lower to_ascii_lowercase_idemp : meta.

(** ** Integers as text *)

Definition digit_char (d : Z) : ascii := ascii_of_N (Z.to_N (48 + d)).
Definition digit_val (a : ascii) : option Z :=
  let n := byte_val a in
  if (48 <=? n) && (n <=? 57) then Some (n - 48) else None.

(** Decimal digits, most significant first; 20 digits cover every [u64]. *)
Fixpoint dec_digits (fuel : nat) (n : Z) (acc : string) : string :=
  match fuel with
  | O => acc
  | S f =>
      let acc' := String (digit_char (n mod 10)) acc in
      if n <? 10 then acc' else dec_digits f (n / 10) acc'
  end.

(** [format!("{n}")] *)
Definition fmt_dec (n : Z) : string := dec_digits 20 n "".

Fixpoint zeros (k : nat) (s : string) : string :=
  match k with O => s | S k' => String (digit_char 0) (zeros k' s) end.
Definition pad_zero (w : nat) (s : string) : string := zeros (w - str_len s) s.

(** [format!("{n:06}")] *)
Definition fmt06 (n : Z) : string := pad_zero 6 (fmt_dec n).

Fixpoint parse_digits (s : string) (acc : Z) : option Z :=
  match s with
  | "" => Some acc
  | String a s' =>
      d ← digit_val a;
      if acc * 10 + d <=? U64_MAX then parse_digits s' (acc * 10 + d) else None
  end.

(** [s.parse::<u64>().ok()]: an optional [+], then at least one digit. *)
Definition parse_u64 (s : string) : option Z :=
  match s with
  | "" => None
  | String a s' =>
      if byte_val a =? 43 then if str_is_empty s' then None else parse_digits s' 0
      else parse_digits s 0
  end.

Fixpoint str_forall (f : ascii → bool) (s : string) : bool :=
  match s with "" => true | String a s' => f a && str_forall f s' end.

(** [u8::is_ascii_digit] *)
Definition is_ascii_digit (a : ascii) : bool := is_some (digit_val a).
Definition is_hex_lower (a : ascii) : bool :=
  is_ascii_digit a || ((97 <=? byte_val a) && (byte_val a <=? 102)).

Definition hex_char (d : Z) : ascii :=
  if d <? 10 then digit_char d else ascii_of_N (Z.to_N (87 + d)).
Fixpoint hex_digits (fuel : nat) (n : Z) (acc : string) : string :=
  match fuel with
  | O => acc
  | S f =>
      let acc' := String (hex_char (n mod 16)) acc in
      if n <? 16 then acc' else hex_digits f (n / 16) acc'
  end.

(** [format!("{n:032x}")] of a [u128] *)
Definition fmt_hex32 (n : Z) : string := pad_zero 32 (hex_digits 32 n "").

Lemma digit_char_cases (P : Z → ascii → Prop) :
  P 0 (digit_char 0) → P 1 (digit_char 1) → P 2 (digit_char 2) → P 3 (digit_char 3) →
  P 4 (digit_char 4) → P 5 (digit_char 5) → P 6 (digit_char 6) → P 7 (digit_char 7) →
  P 8 (digit_char 8) → P 9 (digit_char 9) →
  ∀ d, 0 ≤ d < 10 → P d (digit_char d).
Proof.
  intros ?????????? d Hd.
  assert (d = 0 ∨ d = 1 ∨ d = 2 ∨ d = 3 ∨ d = 4 ∨ d = 5 ∨ d = 6 ∨ d = 7 ∨ d = 8 ∨ d = 9) by lia.
  naive_solver.
Qed.

Lemma digit_val_char d : 0 ≤ d < 10 → digit_val (digit_char d) = Some d.
Proof. revert d. by apply (digit_char_cases (λ d a, digit_val a = Some d)). Qed.

Lemma parse_dec_digits f n acc :
  0 ≤ n < 10 ^ Z.of_nat f → n ≤ U64_MAX →
  parse_digits (dec_digits f n acc) 0 = parse_digits acc n.
Proof.
  revert n acc. induction f as [|f IH]; intros n acc Hn Hmax.
  - simpl in *. by replace n with 0 by lia.
  - cbn [dec_digits]. pose proof (Z.mod_pos_bound n 10 ltac:(lia)) as Hm.
    pose proof (Z.div_mod n 10 ltac:(lia)) as Hdm.
    destruct (Z.ltb_spec n 10) as [Hlt|Hge].
    + cbn [parse_digits]. rewrite digit_val_char by done. simpl.
      rewrite Z.mod_small by lia. replace (0 * 10 + n) with n by lia.
      destruct (Z.leb_spec n U64_MAX); [done|lia].
    + rewrite IH; [|split; [apply Z.div_pos; lia|]; apply Z.div_lt_upper_bound; [lia|];
        rewrite <- Z.pow_succ_r, <- Nat2Z.inj_succ by lia; lia |
        transitivity n; [apply Z.div_le_upper_bound; lia|done]].
      cbn [parse_digits]. rewrite digit_val_char by done. simpl.
      replace (n `div` 10 * 10 + n `mod` 10) with n by lia.
      destruct (Z.leb_spec n U64_MAX); [done|lia].
Qed.

Lemma parse_zeros k s : parse_digits (zeros k s) 0 = parse_digits s 0.
Proof. induction k as [|k IH]; [done|]. cbn [zeros parse_digits]. by rewrite digit_val_char by lia. Qed.

Lemma parse_digits_fmt06 n : is_u64 n → parse_digits (fmt06 n) 0 = Some n.
Proof.
  intros [Hn Hm]. unfold fmt06, pad_zero, fmt_dec. rewrite parse_zeros, parse_dec_digits; [done| |done].
  split; [done|]. unfold U64_MAX in Hm. simpl. lia.
Qed.

Lemma str_forall_app f s t : str_forall f (s +:+ t) = str_forall f s && str_forall f t.
Proof. induction s as [|a s IH]; [done|]. simpl. by rewrite IH, andb_assoc. Qed.

Lemma str_forall_zeros f k s :
  f (digit_char 0) = true → str_forall f s = true → str_forall f (zeros k s) = true.
Proof. intros H0 Hs. induction k as [|k IH]; [done|]. simpl. by rewrite H0. Qed.

Lemma dec_digits_are_digits f n acc :
  str_forall is_ascii_digit acc = true → str_forall is_ascii_digit (dec_digits f n acc) = true.
Proof.
  revert n acc. induction f as [|f IH]; intros n acc Hacc; [done|]. cbn [dec_digits].
  assert (str_forall is_ascii_digit (String (digit_char (n mod 10)) acc) = true) as Hs.
  { simpl. unfold is_ascii_digit at 1. by rewrite digit_val_char by (apply Z.mod_pos_bound; lia). }
  case_match; auto.
Qed.

Lemma fmt06_digits n : str_forall is_ascii_digit (fmt06 n) = true.
Proof. apply str_forall_zeros; [done|]. by apply dec_digits_are_digits. Qed.

Lemma str_len_zeros k s : str_len (zeros k s) = (k + str_len s)%nat.
Proof. induction k; simpl; [done|]. congruence. Qed.

Lemma fmt06_parse n : is_u64 n → parse_u64 (fmt06 n) = Some n.
Proof.
  intros Hn. pose proof (fmt06_digits n) as Hd. pose proof (parse_digits_fmt06 n Hn) as Hp.
  unfold parse_u64. destruct (fmt06 n) as [|a s] eqn:E.
  - apply (f_equal str_len) in E. unfold fmt06, pad_zero in E. rewrite str_len_zeros in E. simpl in E. lia.
  - simpl in Hd. apply andb_true_iff in Hd as [Ha _].
    destruct (Z.eqb_spec (byte_val a) 43) as [H43|_]; [|done].
    unfold is_ascii_digit, digit_val in Ha. rewrite H43 in Ha. discriminate.
Qed.

Lemma fmt06_inj n m : is_u64 n → is_u64 m → fmt06 n = fmt06 m → n = m.
Proof. intros Hn Hm E. apply fmt06_parse in Hn, Hm. rewrite E in Hn. congruence. Qed.

Lemma hex_digits_forall f n acc :
  0 ≤ n → str_forall is_hex_lower acc = true → str_forall is_hex_lower (hex_digits f n acc) = true.
Proof.
  revert n acc. induction f as [|f IH]; intros n acc Hn Hacc; [done|]. cbn [hex_digits].
  pose proof (Z.mod_pos_bound n 16 ltac:(lia)) as Hm.
  assert (str_forall is_hex_lower (String (hex_char (n mod 16)) acc) = true) as Hs.
  { cbn [str_forall]. rewrite Hacc, andb_true_r. revert Hm. generalize (n mod 16). intros d Hd.
    unfold hex_char, is_hex_lower. destruct (Z.ltb_spec d 10).
    - unfold is_ascii_digit. by rewrite digit_val_char by lia.
    - assert (d = 10 ∨ d = 11 ∨ d = 12 ∨ d = 13 ∨ d = 14 ∨ d = 15) as Hc by lia.
      by destruct Hc as [->|[->|[->|[->|[->| ->]]]]]. }
  case_match; [done|]. apply IH; [|done]. apply Z.div_pos; lia.
Qed.

Lemma hex_digits_len f n acc : (str_len (hex_digits f n acc) ≤ f + str_len acc)%nat.
Proof.
  revert n acc. induction f as [|f IH]; intros n acc; simpl; [lia|].
  case_match; simpl; [lia|]. etrans; [apply IH|]. simpl. lia.
Qed.

(** A formatted 128-bit number is exactly 32 lowercase hexadecimal digits. *)
Lemma fmt_hex32_shape n :
  0 ≤ n → str_len (fmt_hex32 n) = 32%nat ∧ str_forall is_hex_lower (fmt_hex32 n) = true.
Proof.
  intros Hn. unfold fmt_hex32, pad_zero. split.
  - rewrite str_len_zeros. pose proof (hex_digits_len 32 n "") as H. change (str_len "") with 0%nat in H. lia.
  - apply str_forall_zeros; [done|]. by apply hex_digits_forall.
Qed.

Lemma str_forall_no_byte f c s :
  f c = false → str_forall f s = true → contains_byte c s = false.
Proof.
  intros Hc. induction s as [|a s IH]; simpl; [done|]. intros [Ha Hs]%andb_true_iff.
  rewrite IH by done. rewrite orb_false_r. apply bool_decide_eq_false. intros ->. congruence.
Qed.

Lemma digit_val_range a d : digit_val a = Some d → 0 ≤ d ≤ 9.
Proof.
  unfold digit_val. destruct ((48 <=? byte_val a) && (byte_val a <=? 57)) eqn:E; [|done].
  apply andb_true_iff in E as [?%Z.leb_le ?%Z.leb_le]. intros [= <-]. lia.
Qed.

Lemma parse_digits_u64 s acc n : is_u64 acc → parse_digits s acc = Some n → is_u64 n.
Proof.
  revert acc. induction s as [|a s IH]; intros acc Hacc; simpl; [by intros [= <-]|].
  destruct (digit_val a) as [d|] eqn:Hd; [|done]. apply digit_val_range in Hd. simpl.
  destruct (Z.leb_spec (acc * 10 + d) U64_MAX); [|done]. apply IH. unfold is_u64 in *. lia.
Qed.

Lemma parse_u64_range s n : parse_u64 s = Some n → is_u64 n.
Proof.
  assert (is_u64 0) by (unfold is_u64, U64_MAX; lia).
  destruct s as [|a s]; simpl; [done|]. destruct (byte_val a =? 43).
  - destruct (str_is_empty s); [done|]. by apply parse_digits_u64.
  - by apply (parse_digits_u64 (String a s)).
Qed.
