(* ===== verification/Json.v ===== *)
(** * JSON values

    The [serde_json::Value] data the runtime stores, compares and inspects,
    with the accessors it uses.  The members of an object are listed in key
    order, so equal objects are equal terms; [obj] is the [json!] literal. *)

From S2P Require Import Prelude Strings.
Open Scope Z_scope.

(** A number is a [u64], a negative [i64], or a float; a float is kept as a
    code that identifies it up to [==]. *)
Inductive Number := PosInt (n : Z) | NegInt (n : Z) | Float (code : Z).

#[global] Instance Number_eq_dec : EqDecision Number.
Proof. solve_decision. Defined.

Inductive Value :=
| VNull
| VBool (b : bool)
| VNumber (n : Number)
| VString (s : string)
| VArray (l : list Value)
| VObject (members : list (string * Value)).

(** Induction that reaches the values inside arrays and objects. *)
Section Value_ind.
Context (P : Value → Prop).
Context (Hnull : P VNull) (Hbool : ∀ b, P (VBool b)) (Hnum : ∀ n, P (VNumber n)).
Context (Hstr : ∀ s, P (VString s)).
Context (Harr : ∀ l, Forall P l → P (VArray l)).
Context (Hobj : ∀ m, Forall (λ p : string * Value, P p.2) m → P (VObject m)).

Fixpoint Value_nested_ind (v : Value) : P v :=
  match v with
  | VNull => Hnull
  | VBool b => Hbool b
  | VNumber n => Hnum n
  | VString s => Hstr s
  | VArray l => Harr l
      ((fix go (l : list Value) : Forall P l :=
          match l with
          | [] => Forall_nil_2 P
          | x :: l' => Forall_cons_2 P x l' (Value_nested_ind x) (go l')
          end) l)
  | VObject m => Hobj m
      ((fix go (m : list (string * Value)) : Forall (λ p, P p.2) m :=
          match m with
          | [] => Forall_nil_2 _
          | p :: m' => Forall_cons_2 (λ p, P p.2) p m' (Value_nested_ind p.2) (go m')
          end) m)
  end.
End Value_ind.

Fixpoint value_eqb (v w : Value) {struct v} : bool :=
  match v, w with
  | VNull, VNull => true
  | VBool a, VBool b => a =b b
  | VNumber a, VNumber b => a =b b
  | VString a, VString b => a =b b
  | VArray l, VArray k =>
      (fix go (l k : list Value) : bool :=
         match l, k with
         | [], [] => true
         | a :: l', b :: k' => value_eqb a b && go l' k'
         | _, _ => false
         end) l k
  | VObject m, VObject n =>
      (fix go (m n : list (string * Value)) : bool :=
         match m, n with
         | [], [] => true
         | p :: m', q :: n' => (p.1 =b q.1) && value_eqb p.2 q.2 && go m' n'
         | _, _ => false
         end) m n
  | _, _ => false
  end.

Lemma value_eqb_eq v w : value_eqb v w = true ↔ v = w.
Proof.
  revert w. induction v as [| | | |l IH|m IH] using Value_nested_ind; intros w;
    destruct w as [| | | |k|m']; cbn [value_eqb]; rewrite ?bool_decide_eq_true;
    try (split; [discriminate|discriminate]); try done;
    try (split; [by intros ->|by intros [= ->]]).
  - revert k. induction IH as [|a l Ha _ IHl]; intros [|b k];
      try (split; [discriminate|discriminate]); try done.
    rewrite andb_true_iff, Ha, IHl. split; [by intros [-> [= ->]]|by intros [= -> ->]].
  - revert m'. induction IH as [|[i a] m Ha _ IHm]; intros [|[j b] m'];
      try (split; [discriminate|discriminate]); try done.
    rewrite !andb_true_iff, bool_decide_eq_true, Ha, IHm. simpl.
    split; [by intros [[-> ->] [= ->]]|by intros [= -> -> ->]].
Qed.

#[global] Instance Value_eq_dec : EqDecision Value.
Proof.
  intros v w. destruct (value_eqb v w) eqn:E.
  - left. by apply value_eqb_eq.
  - right. intros ->. assert (value_eqb w w = true) by by apply value_eqb_eq. congruence.
Defined.

(** ** Construction and access *)

Definition member_le (p q : string * Value) : Prop := String.le p.1 q.1.
#[global] Instance member_le_dec : RelDecision member_le.
Proof. intros p q. unfold member_le. apply _. Defined.

Definition obj (members : list (string * Value)) : Value := VObject (merge_sort member_le members).

Definition str (s : string) : Value := VString s.
Definition num (n : Z) : Value := VNumber (PosInt n).
Definition opt_value {A} (f : A → Value) (o : option A) : Value :=
  match o with Some a => f a | None => VNull end.

Definition as_object (v : Value) : option (list (string * Value)) :=
  match v with VObject m => Some m | _ => None end.
Definition as_str (v : Value) : option string :=
  match v with VString s => Some s | _ => None end.
Definition as_bool (v : Value) : option bool :=
  match v with VBool b => Some b | _ => None end.
(** A [PosInt] of [serde_json] holds a [u64]. *)
Definition as_u64 (v : Value) : option Z :=
  match v with
  | VNumber (PosInt n) => if decide (0 ≤ n ≤ U64_MAX) then Some n else None
  | _ => None
  end.
Definition is_null (v : Value) : bool := match v with VNull => true | _ => false end.

(** [Map::get] *)
Definition member (k : string) (m : list (string * Value)) : option Value :=
  snd <$> find_first (λ p, p.1 =b k) m.

(** [Value::get] with a string index *)
Definition value_get (k : string) (v : Value) : option Value :=
  m ← as_object v; member k m.

Example obj_get : value_get "b" (obj [("b", num 1); ("a", str "x")]) = Some (num 1).
Proof. reflexivity. Qed.
