(* ===== verification/RuntimeTypes.v ===== *)
(** * Data of the module runtime ([runtime.rs], [types.rs], [process.rs])

    The structs and enums of the runtime, the state of [MetaRuntimeHandle], and
    the world it runs in.  The fields of [MetaRuntimeHandle] are grouped by the
    subsystem that owns them ([RoutingState], [DeliveryState], [GatingState],
    [MemoryState], [SupervisorState]); each keeps the name it has in the source.

    [RuntimeEnv] is everything the runtime observes from outside: the wall
    clock, the answers of module processes and the persistence backend, and
    what the derived [serde] and [Debug] implementations produce.  An
    observation is a function of the number of observations made before it
    ([world_step]), so it may change arbitrarily from one to the next. *)

From S2P Require Import Prelude Strings Json.
Open Scope Z_scope.

(** ** Record update *)

Class Update {R F : Type} (proj : R → F) := update_field : F → R → R.
#[global] Arguments update_field {R F} proj {_} _ _ /.
Notation "r <| f := v |>" := (update_field f v r)
  (at level 12, f at level 10, v at level 200, left associativity) : meta_scope.

(** ** Module configuration and events ([types.rs]) *)

Inductive RestartPolicy :=
| Never
| OnFailure
| Always.

#[global] Instance RestartPolicy_eq_dec : EqDecision RestartPolicy.
Proof. solve_decision. Defined.

Record ModuleConfig := mkModule {
  module_id : string;
  module_command : string;
  module_args : list string;
  restart_policy : RestartPolicy;
}.

#[global] Instance ModuleConfig_eq_dec : EqDecision ModuleConfig.
Proof. solve_decision. Defined.

Record DiscoverySpec := mkDiscovery {
  discovery_namespace : string;
  discovery_modules : list string;
}.

#[global] Instance DiscoverySpec_eq_dec : EqDecision DiscoverySpec.
Proof. solve_decision. Defined.

Record PreSpawnData := mkPreSpawn {
  pre_spawn_module_id : string;
  pre_spawn_env : list (string * string);
}.

#[global] Instance PreSpawnData_eq_dec : EqDecision PreSpawnData.
Proof. solve_decision. Defined.

Record MetaConfig := mkMetaConfig {
  modules : list ModuleConfig;
  discovery : DiscoverySpec;
  pre_spawn : list PreSpawnData;
}.

#[global] Instance MetaConfig_eq_dec : EqDecision MetaConfig.
Proof. solve_decision. Defined.

Record ModuleEvent := mkModuleEvent {
  event_module : string;
  module_event_type : string;
  module_payload : Value;
}.

#[global] Instance ModuleEvent_eq_dec : EqDecision ModuleEvent.
Proof. solve_decision. Defined.

Inductive UnifiedEvent :=
| AgentEvent (agent_id event_type : string) (payload : option Value)
| ModuleEvt (event : ModuleEvent).

#[global] Instance UnifiedEvent_eq_dec : EqDecision UnifiedEvent.
Proof. solve_decision. Defined.

Record EventEnvelope := mkEnvelope {
  event_id : string;
  source : string;
  timestamp_ms : Z;
  event : UnifiedEvent;
}.

#[global] Instance EventEnvelope_eq_dec : EqDecision EventEnvelope.
Proof. solve_decision. Defined.

(** ** Boundary errors *)

Inductive NormalizationError :=
| InvalidJson
| InvalidSchema
| MissingField (field : string)
| InvalidFieldType (field : string)
| SourceMismatch (expected got : string).

#[global] Instance NormalizationError_eq_dec : EqDecision NormalizationError.
Proof. solve_decision. Defined.

Inductive ProcessBoundaryError :=
| SpawnFailed (message : string)
| MissingStdout
| ProcessIo (message : string)
| ProcessTimeout (timeout_ms : Z)
| EmptyOutput
| InvalidJsonLine
| CleanupUnconfirmed (pid : Z) (source : string).

#[global] Instance ProcessBoundaryError_eq_dec : EqDecision ProcessBoundaryError.
Proof. solve_decision. Defined.

Inductive McpCloseUnsettledClass :=
| WaitFailed
| NotReaped
| StdoutOpen
| StdoutUnobserved
| NotHeld
| ClassCloseFailed
| TaskFailed.

#[global] Instance McpCloseUnsettledClass_eq_dec : EqDecision McpCloseUnsettledClass.
Proof. solve_decision. Defined.

Inductive McpBoundaryError :=
| RuntimeUnavailable (message : string)
| McpRequired (module_id flow : string)
| McpTimeout (module_id operation : string) (timeout_ms : Z)
| ConnectionFailed (module_id reason : string)
| ToolListFailed (module_id reason : string)
| ToolNotFound (module_id tool : string) (available_tools : list string)
| ToolCallFailed (module_id tool reason : string)
| CloseFailed (module_id reason : string)
| CloseUnsettled (module_id : string) (class : McpCloseUnsettledClass)
| OperationFailedWithCloseFailure (primary close : McpBoundaryError)
| InvalidToolPayload (module_id tool reason : string)
| InvalidJsonResponse (module_id tool response : string).

#[global] Instance McpBoundaryError_eq_dec : EqDecision McpBoundaryError.
Proof. solve_decision. Defined.

Inductive RuntimeBoundaryError :=
| ProcessError (e : ProcessBoundaryError)
| NormalizeError (e : NormalizationError)
| McpError (e : McpBoundaryError).

#[global] Instance RuntimeBoundaryError_eq_dec : EqDecision RuntimeBoundaryError.
Proof. solve_decision. Defined.

Inductive ConfigResolutionError :=
| ModuleNotConfigured (id : string)
| ModuleNotDiscovered (id : string).

#[global] Instance ConfigResolutionError_eq_dec : EqDecision ConfigResolutionError.
Proof. solve_decision. Defined.

Inductive RuntimeMutationError :=
| MutationConfig (e : ConfigResolutionError)
| MutationRuntime (e : RuntimeBoundaryError).

#[global] Instance RuntimeMutationError_eq_dec : EqDecision RuntimeMutationError.
Proof. solve_decision. Defined.

(** ** Supervision ([runtime.rs], [module_process.rs]) *)

Inductive LifecycleStage :=
| MobStarted
| ModulesStarted
| MergedStreamStarted
| ShutdownRequested
| ShutdownComplete.

#[global] Instance LifecycleStage_eq_dec : EqDecision LifecycleStage.
Proof. solve_decision. Defined.

Record LifecycleEvent := mkLifecycle {
  lifecycle_seq : Z;
  lifecycle_stage : LifecycleStage;
}.

#[global] Instance LifecycleEvent_eq_dec : EqDecision LifecycleEvent.
Proof. solve_decision. Defined.

Inductive ModuleHealthState :=
| Starting
| Healthy
| Failed
| Restarting
| Stopped.

#[global] Instance ModuleHealthState_eq_dec : EqDecision ModuleHealthState.
Proof. solve_decision. Defined.

Record ModuleHealthTransition := mkTransition {
  transition_module_id : string;
  transition_from : option ModuleHealthState;
  transition_to : ModuleHealthState;
  transition_attempt : Z;
}.

#[global] Instance ModuleHealthTransition_eq_dec : EqDecision ModuleHealthTransition.
Proof. solve_decision. Defined.

Inductive ModuleCleanupPhase :=
| CleanupPending
| CleanupFailed
| CleanupSettled.

#[global] Instance ModuleCleanupPhase_eq_dec : EqDecision ModuleCleanupPhase.
Proof. solve_decision. Defined.

Inductive ModuleCleanupOperation :=
| CleanupKill
| CleanupWait.

#[global] Instance ModuleCleanupOperation_eq_dec : EqDecision ModuleCleanupOperation.
Proof. solve_decision. Defined.

Record ModuleCleanupFailure := mkCleanupFailure {
  cleanup_operation : ModuleCleanupOperation;
  cleanup_message : string;
}.

#[global] Instance ModuleCleanupFailure_eq_dec : EqDecision ModuleCleanupFailure.
Proof. solve_decision. Defined.

Inductive ProcessState :=
| Running
| Reaped.

#[global] Instance ProcessState_eq_dec : EqDecision ProcessState.
Proof. solve_decision. Defined.

(** [process_pid] stands for the [Child] handle the owner holds. *)
Record ModuleProcess := mkProcess {
  process_module_id : string;
  process_pid : Z;
  process_state : ProcessState;
  process_kill_sent : bool;
  process_failure : option ModuleCleanupFailure;
}.

#[global] Instance ModuleProcess_eq_dec : EqDecision ModuleProcess.
Proof. solve_decision. Defined.

#[global] Instance upd_process_module_id : Update process_module_id := λ v r, mkProcess v (process_pid r) (process_state r) (process_kill_sent r) (process_failure r).
#[global] Instance upd_process_pid : Update process_pid := λ v r, mkProcess (process_module_id r) v (process_state r) (process_kill_sent r) (process_failure r).
#[global] Instance upd_process_state : Update process_state := λ v r, mkProcess (process_module_id r) (process_pid r) v (process_kill_sent r) (process_failure r).
#[global] Instance upd_process_kill_sent : Update process_kill_sent := λ v r, mkProcess (process_module_id r) (process_pid r) (process_state r) v (process_failure r).
#[global] Instance upd_process_failure : Update process_failure := λ v r, mkProcess (process_module_id r) (process_pid r) (process_state r) (process_kill_sent r) v.

(** What the operating system saw of module processes: one was started, its exit was
    confirmed to its owner, or its handle was given up without that. *)
Inductive ProcessEvent :=
| Spawned (pid : Z)
| Confirmed (pid : Z)
| Abandoned (pid : Z).

#[global] Instance ProcessEvent_eq_dec : EqDecision ProcessEvent.
Proof. solve_decision. Defined.

Record LocalJsonMemoryBackendConfig := mkLedgerConfig {
  config_state_path : string;
  config_health_check_endpoint : option string;
}.

#[global] Instance LocalJsonMemoryBackendConfig_eq_dec : EqDecision LocalJsonMemoryBackendConfig.
Proof. solve_decision. Defined.

Record RuntimeOptions := mkOptions {
  on_failure_retry_budget : Z;
  always_restart_budget : Z;
  supervisor_restart_backoff_ms : Z;
  supervisor_test_force_terminate_failure : bool;
  memory_backend_config : option LocalJsonMemoryBackendConfig;
}.

#[global] Instance RuntimeOptions_eq_dec : EqDecision RuntimeOptions.
Proof. solve_decision. Defined.

Record SupervisorState := mkSupervisor {
  loaded_modules : gset string;
  live_children : gmap string ModuleProcess;
  retained_cleanup : list ModuleProcess;
  lifecycle_events : list LifecycleEvent;
  supervisor_transitions : list ModuleHealthTransition;
  running : bool;
}.

#[global] Instance upd_loaded_modules : Update loaded_modules := λ v r, mkSupervisor v (live_children r) (retained_cleanup r) (lifecycle_events r) (supervisor_transitions r) (running r).
#[global] Instance upd_live_children : Update live_children := λ v r, mkSupervisor (loaded_modules r) v (retained_cleanup r) (lifecycle_events r) (supervisor_transitions r) (running r).
#[global] Instance upd_retained_cleanup : Update retained_cleanup := λ v r, mkSupervisor (loaded_modules r) (live_children r) v (lifecycle_events r) (supervisor_transitions r) (running r).
#[global] Instance upd_lifecycle_events : Update lifecycle_events := λ v r, mkSupervisor (loaded_modules r) (live_children r) (retained_cleanup r) v (supervisor_transitions r) (running r).
#[global] Instance upd_supervisor_transitions : Update supervisor_transitions := λ v r, mkSupervisor (loaded_modules r) (live_children r) (retained_cleanup r) (lifecycle_events r) v (running r).
#[global] Instance upd_running : Update running := λ v r, mkSupervisor (loaded_modules r) (live_children r) (retained_cleanup r) (lifecycle_events r) (supervisor_transitions r) v.

(** ** Routing and delivery *)

Record RoutingResolveRequest := mkResolveRequest {
  request_recipient : string;
  request_channel : option string;
  request_retry_max : option Z;
  request_backoff_ms : option Z;
  request_rate_limit : option Z;
}.

#[global] Instance RoutingResolveRequest_eq_dec : EqDecision RoutingResolveRequest.
Proof. solve_decision. Defined.

Record RuntimeRoute := mkRoute {
  route_key : string;
  route_recipient : string;
  route_channel : option string;
  route_sink : string;
  route_target_module : string;
  route_retry_max : option Z;
  route_backoff_ms : option Z;
  route_rate_limit : option Z;
}.

#[global] Instance RuntimeRoute_eq_dec : EqDecision RuntimeRoute.
Proof. solve_decision. Defined.

Record RoutingResolution := mkResolution {
  route_id : string;
  recipient : string;
  channel : string;
  sink : string;
  target_module : string;
  retry_max : Z;
  backoff_ms : Z;
  rate_limit_per_minute : Z;
}.

#[global] Instance RoutingResolution_eq_dec : EqDecision RoutingResolution.
Proof. solve_decision. Defined.

Record DeliverySendRequest := mkSendRequest {
  send_resolution : RoutingResolution;
  send_payload : Value;
  send_idempotency_key : option string;
}.

#[global] Instance DeliverySendRequest_eq_dec : EqDecision DeliverySendRequest.
Proof. solve_decision. Defined.

Record DeliveryAttempt := mkAttempt {
  attempt : Z;
  attempt_status : string;
  attempt_backoff_ms : Z;
}.

#[global] Instance DeliveryAttempt_eq_dec : EqDecision DeliveryAttempt.
Proof. solve_decision. Defined.

Record DeliveryRecord := mkRecord {
  delivery_id : string;
  record_route_id : string;
  record_recipient : string;
  record_sink : string;
  record_target_module : string;
  record_payload : Value;
  status : string;
  attempts : list DeliveryAttempt;
  first_attempt_ms : Z;
  final_attempt_ms : Z;
  record_idempotency_key : option string;
  sink_adapter : option string;
}.

#[global] Instance DeliveryRecord_eq_dec : EqDecision DeliveryRecord.
Proof. solve_decision. Defined.

Record DeliveryHistoryRequest := mkHistoryRequest {
  history_recipient : option string;
  history_sink : option string;
  history_limit : nat;
}.

#[global] Instance DeliveryHistoryRequest_eq_dec : EqDecision DeliveryHistoryRequest.
Proof. solve_decision. Defined.

Record DeliveryIdempotencyEntry := mkIdempotency {
  entry_delivery_id : string;
  entry_payload : Value;
  canonical_resolution : RoutingResolution;
}.

#[global] Instance DeliveryIdempotencyEntry_eq_dec : EqDecision DeliveryIdempotencyEntry.
Proof. solve_decision. Defined.

Record RouterBoundaryOverrides := mkOverrides {
  override_channel : option string;
  override_sink : option string;
  override_target_module : option string;
  override_retry_max : option Z;
  override_backoff_ms : option Z;
  override_rate_limit : option Z;
}.

#[global] Instance RouterBoundaryOverrides_eq_dec : EqDecision RouterBoundaryOverrides.
Proof. solve_decision. Defined.

Record DeliveryBoundaryOutcome := mkOutcome {
  outcome_sink_adapter : option string;
  outcome_force_fail : bool;
}.

#[global] Instance DeliveryBoundaryOutcome_eq_dec : EqDecision DeliveryBoundaryOutcome.
Proof. solve_decision. Defined.

Record DeliveryRateWindowKey := mkRateKey {
  rate_route_id : string;
  rate_recipient : string;
  rate_sink : string;
  window_start_ms : Z;
}.

#[global] Instance DeliveryRateWindowKey_eq_dec : EqDecision DeliveryRateWindowKey.
Proof. solve_decision. Defined.

#[global] Instance DeliveryRateWindowKey_countable : Countable DeliveryRateWindowKey.
Proof.
  refine (inj_countable' (λ k, (rate_route_id k, rate_recipient k, rate_sink k, window_start_ms k))
            (λ '(a, b, c, d), mkRateKey a b c d) _). by intros [].
Defined.

Inductive RoutingResolveError :=
| RouterModuleNotLoaded
| RoutingDeliveryModuleNotLoaded
| EmptyRecipient
| InvalidChannel
| InvalidRateLimitPerMinute
| RetryMaxExceedsCap (provided cap : Z)
| RouterBoundary (e : RuntimeBoundaryError).

#[global] Instance RoutingResolveError_eq_dec : EqDecision RoutingResolveError.
Proof. solve_decision. Defined.

Inductive DeliverySendError :=
| DeliveryModuleNotLoaded
| InvalidRouteTarget (target : string)
| InvalidRouteId
| UnknownRouteId (id : string)
| ForgedResolution
| InvalidRecipient
| InvalidSink
| InvalidIdempotencyKey
| IdempotencyPayloadMismatch
| RateLimited (sink : string) (window_start_ms limit : Z)
| DeliveryBoundary (e : RuntimeBoundaryError).

#[global] Instance DeliverySendError_eq_dec : EqDecision DeliverySendError.
Proof. solve_decision. Defined.

Inductive RuntimeRouteMutationError :=
| EmptyRouteKey
| RouteEmptyRecipient
| RouteInvalidChannel
| EmptySink
| EmptyTargetModule
| RouteInvalidRateLimit
| RouteRetryMaxExceedsCap (provided cap : Z)
| RouteNotFound (key : string).

#[global] Instance RuntimeRouteMutationError_eq_dec : EqDecision RuntimeRouteMutationError.
Proof. solve_decision. Defined.

Record RoutingState := mkRouting {
  routing_sequence : Z;
  routing_resolutions : gmap string RoutingResolution;
  routing_resolution_order : list string;
  runtime_routes : gmap string RuntimeRoute;
}.

#[global] Instance upd_routing_sequence : Update routing_sequence := λ v r, mkRouting v (routing_resolutions r) (routing_resolution_order r) (runtime_routes r).
#[global] Instance upd_routing_resolutions : Update routing_resolutions := λ v r, mkRouting (routing_sequence r) v (routing_resolution_order r) (runtime_routes r).
#[global] Instance upd_routing_resolution_order : Update routing_resolution_order := λ v r, mkRouting (routing_sequence r) (routing_resolutions r) v (runtime_routes r).
#[global] Instance upd_runtime_routes : Update runtime_routes := λ v r, mkRouting (routing_sequence r) (routing_resolutions r) (routing_resolution_order r) v.

Record DeliveryState := mkDelivery {
  delivery_sequence : Z;
  delivery_runtime_epoch_ms : Z;
  delivery_now_floor_ms : Z;
  delivery_clock_ms : Z;
  delivery_history : list DeliveryRecord;
  delivery_idempotency : gmap string DeliveryIdempotencyEntry;
  delivery_idempotency_by_delivery : gmap string (list string);
  delivery_rate_window_counts : gmap DeliveryRateWindowKey Z;
}.

#[global] Instance upd_delivery_sequence : Update delivery_sequence := λ v r, mkDelivery v (delivery_runtime_epoch_ms r) (delivery_now_floor_ms r) (delivery_clock_ms r) (delivery_history r) (delivery_idempotency r) (delivery_idempotency_by_delivery r) (delivery_rate_window_counts r).
#[global] Instance upd_delivery_runtime_epoch_ms : Update delivery_runtime_epoch_ms := λ v r, mkDelivery (delivery_sequence r) v (delivery_now_floor_ms r) (delivery_clock_ms r) (delivery_history r) (delivery_idempotency r) (delivery_idempotency_by_delivery r) (delivery_rate_window_counts r).
#[global] Instance upd_delivery_now_floor_ms : Update delivery_now_floor_ms := λ v r, mkDelivery (delivery_sequence r) (delivery_runtime_epoch_ms r) v (delivery_clock_ms r) (delivery_history r) (delivery_idempotency r) (delivery_idempotency_by_delivery r) (delivery_rate_window_counts r).
#[global] Instance upd_delivery_clock_ms : Update delivery_clock_ms := λ v r, mkDelivery (delivery_sequence r) (delivery_runtime_epoch_ms r) (delivery_now_floor_ms r) v (delivery_history r) (delivery_idempotency r) (delivery_idempotency_by_delivery r) (delivery_rate_window_counts r).
#[global] Instance upd_delivery_history : Update delivery_history := λ v r, mkDelivery (delivery_sequence r) (delivery_runtime_epoch_ms r) (delivery_now_floor_ms r) (delivery_clock_ms r) v (delivery_idempotency r) (delivery_idempotency_by_delivery r) (delivery_rate_window_counts r).
#[global] Instance upd_delivery_idempotency : Update delivery_idempotency := λ v r, mkDelivery (delivery_sequence r) (delivery_runtime_epoch_ms r) (delivery_now_floor_ms r) (delivery_clock_ms r) (delivery_history r) v (delivery_idempotency_by_delivery r) (delivery_rate_window_counts r).
#[global] Instance upd_delivery_idempotency_by_delivery : Update delivery_idempotency_by_delivery := λ v r, mkDelivery (delivery_sequence r) (delivery_runtime_epoch_ms r) (delivery_now_floor_ms r) (delivery_clock_ms r) (delivery_history r) (delivery_idempotency r) v (delivery_rate_window_counts r).
#[global] Instance upd_delivery_rate_window_counts : Update delivery_rate_window_counts := λ v r, mkDelivery (delivery_sequence r) (delivery_runtime_epoch_ms r) (delivery_now_floor_ms r) (delivery_clock_ms r) (delivery_history r) (delivery_idempotency r) (delivery_idempotency_by_delivery r) v.

(** ** Operational memory ledger *)

Record MemoryIndexRequest := mkIndexRequest {
  index_entity : string;
  index_topic : string;
  index_store : option string;
  index_fact : option string;
  index_metadata : option Value;
  index_conflict : option bool;
  index_conflict_reason : option string;
}.

#[global] Instance MemoryIndexRequest_eq_dec : EqDecision MemoryIndexRequest.
Proof. solve_decision. Defined.

Record MemoryAssertion := mkAssertion {
  assertion_id : string;
  assertion_entity : string;
  assertion_topic : string;
  assertion_store : string;
  fact : string;
  metadata : option Value;
  indexed_at_ms : Z;
}.

#[global] Instance MemoryAssertion_eq_dec : EqDecision MemoryAssertion.
Proof. solve_decision. Defined.

Record MemoryConflictSignal := mkSignal {
  signal_entity : string;
  signal_topic : string;
  signal_store : string;
  reason : option string;
  updated_at_ms : Z;
}.

#[global] Instance MemoryConflictSignal_eq_dec : EqDecision MemoryConflictSignal.
Proof. solve_decision. Defined.

Record MemoryIndexResult := mkIndexResult {
  result_entity : string;
  result_topic : string;
  result_store : string;
  result_assertion_id : option string;
  conflict_active : bool;
}.

#[global] Instance MemoryIndexResult_eq_dec : EqDecision MemoryIndexResult.
Proof. solve_decision. Defined.

Record MemoryQueryRequest := mkQueryRequest {
  query_entity : option string;
  query_topic : option string;
  query_store : option string;
  query_text : option string;
}.

#[global] Instance MemoryQueryRequest_eq_dec : EqDecision MemoryQueryRequest.
Proof. solve_decision. Defined.

Record MemoryQueryResult := mkQueryResult {
  result_assertions : list MemoryAssertion;
  result_conflicts : list MemoryConflictSignal;
}.

#[global] Instance MemoryQueryResult_eq_dec : EqDecision MemoryQueryResult.
Proof. solve_decision. Defined.

Record PersistedMemoryState := mkPersisted {
  persisted_assertions : list MemoryAssertion;
  persisted_conflicts : list MemoryConflictSignal;
}.

#[global] Instance PersistedMemoryState_eq_dec : EqDecision PersistedMemoryState.
Proof. solve_decision. Defined.

Inductive LocalJsonMemoryStoreError :=
| InvalidConfig (message : string)
| StoreIo (message : string)
| Serialize (message : string)
| InvalidStoreData (message : string)
| ExternalCallFailed (message : string).

#[global] Instance LocalJsonMemoryStoreError_eq_dec : EqDecision LocalJsonMemoryStoreError.
Proof. solve_decision. Defined.

Inductive MemoryIndexError :=
| EntityRequired
| TopicRequired
| UnsupportedStore (store : string)
| FactRequiredWhenConflictUnset
| BackendPersistFailed (e : LocalJsonMemoryStoreError).

#[global] Instance MemoryIndexError_eq_dec : EqDecision MemoryIndexError.
Proof. solve_decision. Defined.

Record MemoryConflictKey := mkConflictKey {
  key_entity : string;
  key_topic : string;
  key_store : string;
}.

#[global] Instance MemoryConflictKey_eq_dec : EqDecision MemoryConflictKey.
Proof. solve_decision. Defined.

#[global] Instance MemoryConflictKey_countable : Countable MemoryConflictKey.
Proof.
  refine (inj_countable' (λ k, (key_entity k, key_topic k, key_store k))
            (λ '(a, b, c), mkConflictKey a b c) _). by intros [].
Defined.

(** The derived [Ord]: entity, then topic, then store. *)
Definition conflict_key_le (k l : MemoryConflictKey) : Prop :=
  lex3_le (key_entity k, key_topic k, key_store k) (key_entity l, key_topic l, key_store l).
#[global] Instance conflict_key_le_dec : RelDecision conflict_key_le.
Proof. intros k l. unfold conflict_key_le. apply _. Defined.
#[global] Instance conflict_key_order : KeyOrder MemoryConflictKey.
Proof.
  refine {| key_le := conflict_key_le |}.
  - split; [split|].
    + intros k. unfold conflict_key_le. reflexivity.
    + intros k l m. unfold conflict_key_le. by etrans.
    + intros [] [] H1 H2. unfold conflict_key_le in *. simpl in *.
      pose proof (anti_symm lex3_le _ _ H1 H2). by simplify_eq.
  - intros k l. unfold conflict_key_le. apply (total lex3_le).
Defined.

Record LocalJsonMemoryStoreAdapter := mkLedger {
  health_check_endpoint : option string;
  state_path : string;
}.

#[global] Instance LocalJsonMemoryStoreAdapter_eq_dec : EqDecision LocalJsonMemoryStoreAdapter.
Proof. solve_decision. Defined.

Record MemoryState := mkMemory {
  memory_sequence : Z;
  memory_assertions : list MemoryAssertion;
  memory_conflicts : gmap MemoryConflictKey MemoryConflictSignal;
  memory_backend : option LocalJsonMemoryStoreAdapter;
}.

#[global] Instance upd_memory_sequence : Update memory_sequence := λ v r, mkMemory v (memory_assertions r) (memory_conflicts r) (memory_backend r).
#[global] Instance upd_memory_assertions : Update memory_assertions := λ v r, mkMemory (memory_sequence r) v (memory_conflicts r) (memory_backend r).
#[global] Instance upd_memory_conflicts : Update memory_conflicts := λ v r, mkMemory (memory_sequence r) (memory_assertions r) v (memory_backend r).
#[global] Instance upd_memory_backend : Update memory_backend := λ v r, mkMemory (memory_sequence r) (memory_assertions r) (memory_conflicts r) v.

(** ** Gating *)

Inductive GatingRiskTier :=
| R0
| R1
| R2
| R3.

#[global] Instance GatingRiskTier_eq_dec : EqDecision GatingRiskTier.
Proof. solve_decision. Defined.

Record GatingEvaluateRequest := mkEvaluateRequest {
  request_action : string;
  request_actor_id : string;
  request_risk_tier : GatingRiskTier;
  request_rationale : option string;
  request_requested_approver : option string;
  request_approval_recipient : option string;
  request_approval_channel : option string;
  request_approval_timeout_ms : option Z;
  request_entity : option string;
  request_topic : option string;
}.

#[global] Instance GatingEvaluateRequest_eq_dec : EqDecision GatingEvaluateRequest.
Proof. solve_decision. Defined.

Inductive GatingOutcome :=
| Allowed
| AllowedWithAudit
| PendingApproval
| SafeDraft.

#[global] Instance GatingOutcome_eq_dec : EqDecision GatingOutcome.
Proof. solve_decision. Defined.

Record GatingEvaluateResult := mkEvaluateResult {
  eval_action_id : string;
  eval_action : string;
  eval_actor_id : string;
  eval_risk_tier : GatingRiskTier;
  eval_outcome : GatingOutcome;
  eval_pending_id : option string;
  eval_fallback_reason : option string;
}.

#[global] Instance GatingEvaluateResult_eq_dec : EqDecision GatingEvaluateResult.
Proof. solve_decision. Defined.

Record GatingOrigin := mkOrigin {
  origin_identity : string;
  origin_conversation_id : option string;
  origin_interaction_id : option string;
}.

#[global] Instance GatingOrigin_eq_dec : EqDecision GatingOrigin.
Proof. solve_decision. Defined.

Record GatingPendingEntry := mkPending {
  pending_id : string;
  pending_action_id : string;
  pending_action : string;
  pending_actor_id : string;
  pending_risk_tier : GatingRiskTier;
  requested_approver : option string;
  approval_recipient : option string;
  approval_channel : option string;
  approval_route_id : option string;
  approval_delivery_id : option string;
  created_at_ms : Z;
  deadline_at_ms : Z;
  pending_rationale : option string;
  pending_origin : option GatingOrigin;
}.

#[global] Instance GatingPendingEntry_eq_dec : EqDecision GatingPendingEntry.
Proof. solve_decision. Defined.

#[global] Instance upd_pending_id : Update pending_id := λ v r, mkPending v (pending_action_id r) (pending_action r) (pending_actor_id r) (pending_risk_tier r) (requested_approver r) (approval_recipient r) (approval_channel r) (approval_route_id r) (approval_delivery_id r) (created_at_ms r) (deadline_at_ms r) (pending_rationale r) (pending_origin r).
#[global] Instance upd_pending_action_id : Update pending_action_id := λ v r, mkPending (pending_id r) v (pending_action r) (pending_actor_id r) (pending_risk_tier r) (requested_approver r) (approval_recipient r) (approval_channel r) (approval_route_id r) (approval_delivery_id r) (created_at_ms r) (deadline_at_ms r) (pending_rationale r) (pending_origin r).
#[global] Instance upd_pending_action : Update pending_action := λ v r, mkPending (pending_id r) (pending_action_id r) v (pending_actor_id r) (pending_risk_tier r) (requested_approver r) (approval_recipient r) (approval_channel r) (approval_route_id r) (approval_delivery_id r) (created_at_ms r) (deadline_at_ms r) (pending_rationale r) (pending_origin r).
#[global] Instance upd_pending_actor_id : Update pending_actor_id := λ v r, mkPending (pending_id r) (pending_action_id r) (pending_action r) v (pending_risk_tier r) (requested_approver r) (approval_recipient r) (approval_channel r) (approval_route_id r) (approval_delivery_id r) (created_at_ms r) (deadline_at_ms r) (pending_rationale r) (pending_origin r).
#[global] Instance upd_pending_risk_tier : Update pending_risk_tier := λ v r, mkPending (pending_id r) (pending_action_id r) (pending_action r) (pending_actor_id r) v (requested_approver r) (approval_recipient r) (approval_channel r) (approval_route_id r) (approval_delivery_id r) (created_at_ms r) (deadline_at_ms r) (pending_rationale r) (pending_origin r).
#[global] Instance upd_requested_approver : Update requested_approver := λ v r, mkPending (pending_id r) (pending_action_id r) (pending_action r) (pending_actor_id r) (pending_risk_tier r) v (approval_recipient r) (approval_channel r) (approval_route_id r) (approval_delivery_id r) (created_at_ms r) (deadline_at_ms r) (pending_rationale r) (pending_origin r).
#[global] Instance upd_approval_recipient : Update approval_recipient := λ v r, mkPending (pending_id r) (pending_action_id r) (pending_action r) (pending_actor_id r) (pending_risk_tier r) (requested_approver r) v (approval_channel r) (approval_route_id r) (approval_delivery_id r) (created_at_ms r) (deadline_at_ms r) (pending_rationale r) (pending_origin r).
#[global] Instance upd_approval_channel : Update approval_channel := λ v r, mkPending (pending_id r) (pending_action_id r) (pending_action r) (pending_actor_id r) (pending_risk_tier r) (requested_approver r) (approval_recipient r) v (approval_route_id r) (approval_delivery_id r) (created_at_ms r) (deadline_at_ms r) (pending_rationale r) (pending_origin r).
#[global] Instance upd_approval_route_id : Update approval_route_id := λ v r, mkPending (pending_id r) (pending_action_id r) (pending_action r) (pending_actor_id r) (pending_risk_tier r) (requested_approver r) (approval_recipient r) (approval_channel r) v (approval_delivery_id r) (created_at_ms r) (deadline_at_ms r) (pending_rationale r) (pending_origin r).
#[global] Instance upd_approval_delivery_id : Update approval_delivery_id := λ v r, mkPending (pending_id r) (pending_action_id r) (pending_action r) (pending_actor_id r) (pending_risk_tier r) (requested_approver r) (approval_recipient r) (approval_channel r) (approval_route_id r) v (created_at_ms r) (deadline_at_ms r) (pending_rationale r) (pending_origin r).
#[global] Instance upd_created_at_ms : Update created_at_ms := λ v r, mkPending (pending_id r) (pending_action_id r) (pending_action r) (pending_actor_id r) (pending_risk_tier r) (requested_approver r) (approval_recipient r) (approval_channel r) (approval_route_id r) (approval_delivery_id r) v (deadline_at_ms r) (pending_rationale r) (pending_origin r).
#[global] Instance upd_deadline_at_ms : Update deadline_at_ms := λ v r, mkPending (pending_id r) (pending_action_id r) (pending_action r) (pending_actor_id r) (pending_risk_tier r) (requested_approver r) (approval_recipient r) (approval_channel r) (approval_route_id r) (approval_delivery_id r) (created_at_ms r) v (pending_rationale r) (pending_origin r).
#[global] Instance upd_pending_rationale : Update pending_rationale := λ v r, mkPending (pending_id r) (pending_action_id r) (pending_action r) (pending_actor_id r) (pending_risk_tier r) (requested_approver r) (approval_recipient r) (approval_channel r) (approval_route_id r) (approval_delivery_id r) (created_at_ms r) (deadline_at_ms r) v (pending_origin r).
#[global] Instance upd_pending_origin : Update pending_origin := λ v r, mkPending (pending_id r) (pending_action_id r) (pending_action r) (pending_actor_id r) (pending_risk_tier r) (requested_approver r) (approval_recipient r) (approval_channel r) (approval_route_id r) (approval_delivery_id r) (created_at_ms r) (deadline_at_ms r) (pending_rationale r) v.

Inductive GatingDecision :=
| Approve
| Reject
| Escalate.

#[global] Instance GatingDecision_eq_dec : EqDecision GatingDecision.
Proof. solve_decision. Defined.

Record GatingEscalationRoutes := mkEscalation {
  escalation_default : option string;
  escalation_routes : gmap string string;
}.

#[global] Instance GatingEscalationRoutes_eq_dec : EqDecision GatingEscalationRoutes.
Proof. solve_decision. Defined.

Record GatingDecider := mkDecider {
  principal : string;
  decider_held : gset string;
}.

Record GatingDecideRequest := mkDecideRequest {
  decide_pending_id : string;
  decide_approver_id : string;
  decision : GatingDecision;
  decide_reason : option string;
}.

#[global] Instance GatingDecideRequest_eq_dec : EqDecision GatingDecideRequest.
Proof. solve_decision. Defined.

Record GatingDecisionResult := mkDecisionResult {
  decided_pending_id : string;
  decided_action_id : string;
  decided_approver_id : string;
  decided_decision : GatingDecision;
  decided_outcome : GatingOutcome;
  decided_at_ms : Z;
  decided_reason : option string;
  next_pending_id : option string;
}.

#[global] Instance GatingDecisionResult_eq_dec : EqDecision GatingDecisionResult.
Proof. solve_decision. Defined.

Record GatingAuditEntry := mkAudit {
  audit_id : string;
  audit_timestamp_ms : Z;
  audit_event_type : string;
  audit_action_id : string;
  audit_pending_id : option string;
  audit_actor_id : string;
  audit_risk_tier : GatingRiskTier;
  audit_outcome : GatingOutcome;
  audit_detail : Value;
}.

#[global] Instance GatingAuditEntry_eq_dec : EqDecision GatingAuditEntry.
Proof. solve_decision. Defined.

#[global] Instance upd_audit_id : Update audit_id := λ v r, mkAudit v (audit_timestamp_ms r) (audit_event_type r) (audit_action_id r) (audit_pending_id r) (audit_actor_id r) (audit_risk_tier r) (audit_outcome r) (audit_detail r).
#[global] Instance upd_audit_timestamp_ms : Update audit_timestamp_ms := λ v r, mkAudit (audit_id r) v (audit_event_type r) (audit_action_id r) (audit_pending_id r) (audit_actor_id r) (audit_risk_tier r) (audit_outcome r) (audit_detail r).
#[global] Instance upd_audit_event_type : Update audit_event_type := λ v r, mkAudit (audit_id r) (audit_timestamp_ms r) v (audit_action_id r) (audit_pending_id r) (audit_actor_id r) (audit_risk_tier r) (audit_outcome r) (audit_detail r).
#[global] Instance upd_audit_action_id : Update audit_action_id := λ v r, mkAudit (audit_id r) (audit_timestamp_ms r) (audit_event_type r) v (audit_pending_id r) (audit_actor_id r) (audit_risk_tier r) (audit_outcome r) (audit_detail r).
#[global] Instance upd_audit_pending_id : Update audit_pending_id := λ v r, mkAudit (audit_id r) (audit_timestamp_ms r) (audit_event_type r) (audit_action_id r) v (audit_actor_id r) (audit_risk_tier r) (audit_outcome r) (audit_detail r).
#[global] Instance upd_audit_actor_id : Update audit_actor_id := λ v r, mkAudit (audit_id r) (audit_timestamp_ms r) (audit_event_type r) (audit_action_id r) (audit_pending_id r) v (audit_risk_tier r) (audit_outcome r) (audit_detail r).
#[global] Instance upd_audit_risk_tier : Update audit_risk_tier := λ v r, mkAudit (audit_id r) (audit_timestamp_ms r) (audit_event_type r) (audit_action_id r) (audit_pending_id r) (audit_actor_id r) v (audit_outcome r) (audit_detail r).
#[global] Instance upd_audit_outcome : Update audit_outcome := λ v r, mkAudit (audit_id r) (audit_timestamp_ms r) (audit_event_type r) (audit_action_id r) (audit_pending_id r) (audit_actor_id r) (audit_risk_tier r) v (audit_detail r).
#[global] Instance upd_audit_detail : Update audit_detail := λ v r, mkAudit (audit_id r) (audit_timestamp_ms r) (audit_event_type r) (audit_action_id r) (audit_pending_id r) (audit_actor_id r) (audit_risk_tier r) (audit_outcome r) v.

Record GatingAuditPage := mkAuditPage {
  page_entries : list GatingAuditEntry;
  page_gap : bool;
}.

#[global] Instance GatingAuditPage_eq_dec : EqDecision GatingAuditPage.
Proof. solve_decision. Defined.

Record GatingStateSnapshot := mkSnapshot {
  snapshot_version : Z;
  snapshot_owner_epoch : option string;
  snapshot_next_sequence : Z;
  snapshot_pending : list GatingPendingEntry;
  snapshot_audit : list GatingAuditEntry;
}.

#[global] Instance GatingStateSnapshot_eq_dec : EqDecision GatingStateSnapshot.
Proof. solve_decision. Defined.

Inductive GatingStateRestoreError :=
| RuntimeNotPristine
| UnsupportedVersion (version : Z)
| InvalidSnapshot (why : string).

#[global] Instance GatingStateRestoreError_eq_dec : EqDecision GatingStateRestoreError.
Proof. solve_decision. Defined.

Record GatingResolutionNotice := mkNotice {
  notice_pending_id : string;
  notice_action_id : string;
  approved : bool;
  notice_next_pending_id : option string;
  cause : string;
}.

#[global] Instance GatingResolutionNotice_eq_dec : EqDecision GatingResolutionNotice.
Proof. solve_decision. Defined.

Inductive GatingIdUnavailable :=
| EpochUnavailable
| SequenceExhausted.

#[global] Instance GatingIdUnavailable_eq_dec : EqDecision GatingIdUnavailable.
Proof. solve_decision. Defined.

Inductive GatingDecideError :=
| UnknownPendingId (id : string)
| SelfApprovalForbidden
| ApproverMismatch (expected provided : string)
| EmptyPrincipal
| NoEscalationRoute (requested_approver : option string)
| IdsUnavailable (reason : GatingIdUnavailable).

#[global] Instance GatingDecideError_eq_dec : EqDecision GatingDecideError.
Proof. solve_decision. Defined.

(** Observers are numbered; [gating_delivered] is what they were told, in order,
    and [gating_changes] counts the wakes sent to live readers. *)
Record GatingState := mkGating {
  gating_epoch : option string;
  gating_sequence : Z;
  gating_pending : gmap string GatingPendingEntry;
  gating_pending_order : list string;
  gating_audit : list GatingAuditEntry;
  gating_resolution_observers : list nat;
  gating_notice_queue : list GatingResolutionNotice;
  gating_escalation_routes : GatingEscalationRoutes;
  gating_changes : nat;
  gating_delivered : list (nat * GatingResolutionNotice);
}.

#[global] Instance upd_gating_epoch : Update gating_epoch := λ v r, mkGating v (gating_sequence r) (gating_pending r) (gating_pending_order r) (gating_audit r) (gating_resolution_observers r) (gating_notice_queue r) (gating_escalation_routes r) (gating_changes r) (gating_delivered r).
#[global] Instance upd_gating_sequence : Update gating_sequence := λ v r, mkGating (gating_epoch r) v (gating_pending r) (gating_pending_order r) (gating_audit r) (gating_resolution_observers r) (gating_notice_queue r) (gating_escalation_routes r) (gating_changes r) (gating_delivered r).
#[global] Instance upd_gating_pending : Update gating_pending := λ v r, mkGating (gating_epoch r) (gating_sequence r) v (gating_pending_order r) (gating_audit r) (gating_resolution_observers r) (gating_notice_queue r) (gating_escalation_routes r) (gating_changes r) (gating_delivered r).
#[global] Instance upd_gating_pending_order : Update gating_pending_order := λ v r, mkGating (gating_epoch r) (gating_sequence r) (gating_pending r) v (gating_audit r) (gating_resolution_observers r) (gating_notice_queue r) (gating_escalation_routes r) (gating_changes r) (gating_delivered r).
#[global] Instance upd_gating_audit : Update gating_audit := λ v r, mkGating (gating_epoch r) (gating_sequence r) (gating_pending r) (gating_pending_order r) v (gating_resolution_observers r) (gating_notice_queue r) (gating_escalation_routes r) (gating_changes r) (gating_delivered r).
#[global] Instance upd_gating_resolution_observers : Update gating_resolution_observers := λ v r, mkGating (gating_epoch r) (gating_sequence r) (gating_pending r) (gating_pending_order r) (gating_audit r) v (gating_notice_queue r) (gating_escalation_routes r) (gating_changes r) (gating_delivered r).
#[global] Instance upd_gating_notice_queue : Update gating_notice_queue := λ v r, mkGating (gating_epoch r) (gating_sequence r) (gating_pending r) (gating_pending_order r) (gating_audit r) (gating_resolution_observers r) v (gating_escalation_routes r) (gating_changes r) (gating_delivered r).
#[global] Instance upd_gating_escalation_routes : Update gating_escalation_routes := λ v r, mkGating (gating_epoch r) (gating_sequence r) (gating_pending r) (gating_pending_order r) (gating_audit r) (gating_resolution_observers r) (gating_notice_queue r) v (gating_changes r) (gating_delivered r).
#[global] Instance upd_gating_changes : Update gating_changes := λ v r, mkGating (gating_epoch r) (gating_sequence r) (gating_pending r) (gating_pending_order r) (gating_audit r) (gating_resolution_observers r) (gating_notice_queue r) (gating_escalation_routes r) v (gating_delivered r).
#[global] Instance upd_gating_delivered : Update gating_delivered := λ v r, mkGating (gating_epoch r) (gating_sequence r) (gating_pending r) (gating_pending_order r) (gating_audit r) (gating_resolution_observers r) (gating_notice_queue r) (gating_escalation_routes r) (gating_changes r) v.

(** ** The runtime handle *)

(** [world_step] counts the observations made of the world, and [process_journal] is
    the history of module processes; neither is a field of the source. *)
Record MetaRuntimeHandle := mkRuntime {
  config : MetaConfig;
  runtime_options : RuntimeOptions;
  supervisor : SupervisorState;
  merged_events : list EventEnvelope;
  routing : RoutingState;
  delivery : DeliveryState;
  gating : GatingState;
  memory : MemoryState;
  world_step : nat;
  process_journal : list ProcessEvent;
}.

#[global] Instance upd_config : Update config := λ v r, mkRuntime v (runtime_options r) (supervisor r) (merged_events r) (routing r) (delivery r) (gating r) (memory r) (world_step r) (process_journal r).
#[global] Instance upd_runtime_options : Update runtime_options := λ v r, mkRuntime (config r) v (supervisor r) (merged_events r) (routing r) (delivery r) (gating r) (memory r) (world_step r) (process_journal r).
#[global] Instance upd_supervisor : Update supervisor := λ v r, mkRuntime (config r) (runtime_options r) v (merged_events r) (routing r) (delivery r) (gating r) (memory r) (world_step r) (process_journal r).
#[global] Instance upd_merged_events : Update merged_events := λ v r, mkRuntime (config r) (runtime_options r) (supervisor r) v (routing r) (delivery r) (gating r) (memory r) (world_step r) (process_journal r).
#[global] Instance upd_routing : Update routing := λ v r, mkRuntime (config r) (runtime_options r) (supervisor r) (merged_events r) v (delivery r) (gating r) (memory r) (world_step r) (process_journal r).
#[global] Instance upd_delivery : Update delivery := λ v r, mkRuntime (config r) (runtime_options r) (supervisor r) (merged_events r) (routing r) v (gating r) (memory r) (world_step r) (process_journal r).
#[global] Instance upd_gating : Update gating := λ v r, mkRuntime (config r) (runtime_options r) (supervisor r) (merged_events r) (routing r) (delivery r) v (memory r) (world_step r) (process_journal r).
#[global] Instance upd_memory : Update memory := λ v r, mkRuntime (config r) (runtime_options r) (supervisor r) (merged_events r) (routing r) (delivery r) (gating r) v (world_step r) (process_journal r).
#[global] Instance upd_world_step : Update world_step := λ v r, mkRuntime (config r) (runtime_options r) (supervisor r) (merged_events r) (routing r) (delivery r) (gating r) (memory r) v (process_journal r).
#[global] Instance upd_process_journal : Update process_journal := λ v r, mkRuntime (config r) (runtime_options r) (supervisor r) (merged_events r) (routing r) (delivery r) (gating r) (memory r) (world_step r) v.

(** ** The world *)

(** What the MCP client library reports.  Its enums are open: the last
    constructor of each stands for the variants the code does not name. *)
Inductive McpStdioLeaderOutcome := LeaderReaped | LeaderWaitFailed | LeaderNotReaped | LeaderOther.
Inductive McpStdioWitnessOutcome := WitnessClosed | WitnessStillOpen | WitnessOther.
Inductive McpServerCloseOutcome :=
| CloseStdio (leader : McpStdioLeaderOutcome) (witness : McpStdioWitnessOutcome)
| CloseNotHeld
| CloseTaskFailed
| CloseErrored (error : string)
| CloseOther.

Record McpServerConfig := mkServer {
  server_name : string;
  server_command : string;
  server_args : list string;
  server_env : gmap string string;
}.

Record McpConnectFailure := mkConnectFailure {
  failure_timed_out : bool;
  failure_error : string;
  failure_close : option McpServerCloseOutcome;
}.

(** A bounded call that did not answer: the bound elapsed, or the call failed. *)
Inductive McpNoAnswer := Elapsed | McpFailed (error : string).

Inductive ContentBlock := TextBlock (text : string) | OtherBlock (content : Value).

Class RuntimeEnv := {
  clock : nat → Z;
  clock_u64 : ∀ n, is_u64 (clock n);
  (** The async executor: the caller is inside one; building one fails. *)
  in_tokio : nat → bool;
  tokio_build : nat → option string;
  (** The MCP client library. *)
  mcp_connect : nat → McpServerConfig → Z → option McpConnectFailure;
  mcp_list_tools : nat → McpServerConfig → Z → Result (list string) McpNoAnswer;
  mcp_call_tool : nat → McpServerConfig → string → Value → Z → Result (list ContentBlock) McpNoAnswer;
  mcp_close : nat → McpServerConfig → McpServerCloseOutcome;
  close_is_settled : McpServerCloseOutcome → bool;
  blocks_to_json : list ContentBlock → string;
  (** [run_process_json_line] on a command, its arguments, environment and timeout. *)
  process_line : nat → string → list string → list (string * string) → Z → Result string ProcessBoundaryError;
  (** The ledger adapter's [write_state] ([None] when it was written) and [read_state]. *)
  ledger_write : nat → LocalJsonMemoryStoreAdapter → PersistedMemoryState → option LocalJsonMemoryStoreError;
  ledger_read : nat → LocalJsonMemoryStoreAdapter → Result PersistedMemoryState LocalJsonMemoryStoreError;
  (** The platform's entropy: 128 bits, or none. *)
  entropy : nat → option Z;
  entropy_u128 : ∀ n v, entropy n = Some v → 0 ≤ v < 2 ^ 128;
  (** [serde_json::from_str::<Value>] and the compact rendering. *)
  json_parse : string → option Value;
  json_render : Value → string;
  (** The derived [Deserialize] of an event envelope and [Serialize] of an event. *)
  envelope_from_value : Value → option EventEnvelope;
  event_to_string : UnifiedEvent → option string;
  (** The derived [Deserialize] of a conflict signal and of a gate origin. *)
  conflict_from_value : Value → Result MemoryConflictSignal string;
  origin_from_value : Value → option GatingOrigin;
  debug_boundary : RuntimeBoundaryError → string;
  debug_routing : RoutingResolveError → string;
  debug_delivery : DeliverySendError → string;
}.

Section world.
Context `{RuntimeEnv}.

Definition tick (s : MetaRuntimeHandle) : MetaRuntimeHandle := s <| world_step := S (world_step s) |>.

(** [current_time_ms()]: the clock is read and one observation has passed. *)
Definition current_time_ms (s : MetaRuntimeHandle) : Z * MetaRuntimeHandle :=
  (clock (world_step s), tick s).
End world.

(** [MetaRuntimeHandle::next_sequence]: the counter's value, then a saturating step. *)
Definition next_sequence (counter : Z) : Z * Z := (counter, u64_saturating_add counter 1).

(** ** A concrete world and a concrete runtime

    The instance of [RuntimeEnv] and the runtime state at which the components'
    theorems are applied to concrete inputs. *)


(** A clock that advances by one second an observation, saturating at the top
    of its range. *)
Definition example_clock (n : nat) : Z := Z.min (1000 * Z.of_nat n) U64_MAX.

Lemma example_clock_u64 n : is_u64 (example_clock n).
Proof. unfold is_u64, example_clock, U64_MAX. lia. Qed.

Lemma example_entropy v : Some 1 = Some v → 0 ≤ v < 2 ^ 128.
Proof. intros [= <-]. lia. Qed.

(** The reader of a gate origin: the absent fields are [None]. *)
Definition example_origin (v : Value) : option GatingOrigin :=
  identity ← value_get "identity" v ≫= as_str;
  Some (mkOrigin identity (value_get "conversation_id" v ≫= as_str) (value_get "interaction_id" v ≫= as_str)).

(** A world whose modules answer every tool with the line [answer] gives, or do
    not answer; whose ledger fails to be written when [broken]; and whose JSON
    reader knows the texts of [lines]. *)
Definition example_env (answer : string → string → option string)
    (broken : bool) (lines : list (string * Value)) : RuntimeEnv := {|
  clock := example_clock;
  clock_u64 := example_clock_u64;
  in_tokio _ := false;
  tokio_build _ := None;
  mcp_connect _ _ _ := None;
  mcp_list_tools _ _ _ := Ok ["routing.resolve"; "delivery.send"; "memory.conflict_read"];
  mcp_call_tool _ server tool _ _ :=
    match answer (server_name server) tool with
    | Some text => Ok [TextBlock text]
    | None => Err Elapsed
    end;
  mcp_close _ _ := CloseStdio LeaderReaped WitnessClosed;
  close_is_settled o := match o with CloseStdio LeaderReaped WitnessClosed => true | _ => false end;
  blocks_to_json _ := "[]";
  process_line _ command _ _ _ := Err (SpawnFailed command);
  ledger_write _ _ _ := if broken then Some (StoreIo "disk full") else None;
  ledger_read _ _ := Ok (mkPersisted [] []);
  entropy _ := Some 1;
  entropy_u128 _ := example_entropy;
  json_parse line := snd <$> find_first (λ p, p.1 =b line) lines;
  json_render v := match v with VString t => t | _ => "json" end;
  envelope_from_value _ := None;
  event_to_string _ := Some "event";
  conflict_from_value _ := Err "no conflict";
  origin_from_value := example_origin;
  debug_boundary _ := "boundary";
  debug_routing _ := "routing";
  debug_delivery _ := "delivery";
|}.

Definition silent_env : RuntimeEnv := example_env (λ _ _, None) false [].

Definition example_options : RuntimeOptions := mkOptions 1 2 0 false None.

Definition example_epoch : string := "0123456789abcdef0123456789abcdef".

Definition example_module (id : string) : ModuleConfig := mkModule id "run" [] OnFailure.

(** A freshly started runtime with the given modules loaded. *)
Definition example_runtime (loaded : list string) : MetaRuntimeHandle :=
  mkRuntime
    (mkMetaConfig (map example_module loaded) (mkDiscovery "example" loaded)
       (map (λ id, mkPreSpawn id [("META_MODULE_BOUNDARY", "mcp")]) loaded))
    example_options
    (mkSupervisor (list_to_set loaded) ∅ [] [] [] true)
    []
    (mkRouting 0 ∅ [] ∅)
    (mkDelivery 0 0 0 0 [] ∅ ∅ ∅)
    (mkGating (Some example_epoch) 0 ∅ [] [] [] [] (mkEscalation None ∅) 0 [])
    (mkMemory 0 [] ∅ None)
    0 [].
