(* ===== verification/AccessModel.v ===== *)
(** * Access-control configuration ([access/model.rs])

    The action vocabulary, the configuration schema, the pattern language of
    rule actions, the migration rewrite for memory-naive configurations and
    configuration validation, with the specification [valid_config] that
    validation decides. *)

From S2P Require Import Prelude Strings.

(** ** Action vocabulary *)

Definition ACTION_AGENT_VIEW := "agent.view".
Definition ACTION_AGENT_SEND := "agent.send".
Definition ACTION_AGENT_MEMORY_WRITE := "agent.memory.write".
Definition ACTION_AGENT_MEMORY_DELETE := "agent.memory.delete".
Definition ACTION_AGENT_MEMORY_READ := "agent.memory.read".
Definition ACTION_OPERATOR_MEMORY_READ := "operator.memory.read".
Definition ACTION_AGENT_MEMORY_ADMIN := "agent.memory.admin".
Definition ACTION_MOB_MEMORY_READ := "mob.memory.read".
Definition ACTION_MOB_MEMORY_PROPOSE := "mob.memory.propose".
Definition ACTION_MOB_MEMORY_COMMIT := "mob.memory.commit".
Definition ACTION_MEMORY_QUARANTINE_REVIEW := "memory.quarantine.review".
Definition ACTION_AGENT_SPAWN := "agent.spawn".
Definition ACTION_AGENT_RESPAWN := "agent.respawn".
Definition ACTION_AGENT_RETIRE := "agent.retire".
Definition ACTION_AGENT_RESET := "agent.reset".
Definition ACTION_GATING_VIEW := "gating.view".
Definition ACTION_GATING_DECIDE := "gating.decide".
Definition ACTION_WORKGRAPH_VIEW := "workgraph.view".
Definition ACTION_WORKGRAPH_MANAGE := "workgraph.manage".
Definition ACTION_MOB_OBSERVE := "mob.observe".
Definition ACTION_RUNTIME_ADMIN := "runtime.admin".
Definition ACTION_TOPOLOGY_VIEW := "topology.view".
Definition ACTION_TOPOLOGY_AUDIT := "topology.audit".
Definition ACTION_TOPOLOGY_CONNECT := "topology.connect".
Definition ACTION_TOPOLOGY_DISCONNECT := "topology.disconnect".
Definition ACTION_TOPOLOGY_RECONNECT := "topology.reconnect".
Definition ACTION_TOPOLOGY_BULK := "topology.bulk".
Definition ACTION_TOPOLOGY_CROSS_AUTHORITY := "topology.cross_authority".
Definition ACTION_MOBPACK_AUTHOR := "mobpack.author".
Definition ACTION_MOBPACK_DEPLOY := "mobpack.deploy".
Definition ACTION_ACCESS_ADMIN := "access.admin".

(** The cargo features that change the vocabulary. *)
Class Features := { extension_state : bool }.

Definition ACCESS_ACTIONS `{Features} : list string :=
  (if extension_state then ["extension.read"; "extension.edit"; "extension.manage"] else []) ++
  [ ACTION_AGENT_VIEW; ACTION_AGENT_SEND; ACTION_AGENT_MEMORY_WRITE; ACTION_AGENT_MEMORY_DELETE;
    ACTION_AGENT_MEMORY_READ; ACTION_AGENT_MEMORY_ADMIN; ACTION_OPERATOR_MEMORY_READ;
    ACTION_MOB_MEMORY_READ; ACTION_MOB_MEMORY_PROPOSE; ACTION_MOB_MEMORY_COMMIT;
    ACTION_MEMORY_QUARANTINE_REVIEW; ACTION_AGENT_SPAWN; ACTION_AGENT_RESPAWN;
    ACTION_AGENT_RETIRE; ACTION_AGENT_RESET; ACTION_GATING_VIEW; ACTION_GATING_DECIDE;
    ACTION_WORKGRAPH_VIEW; ACTION_WORKGRAPH_MANAGE; ACTION_MOB_OBSERVE; ACTION_RUNTIME_ADMIN;
    ACTION_TOPOLOGY_VIEW; ACTION_TOPOLOGY_AUDIT; ACTION_TOPOLOGY_CONNECT;
    ACTION_TOPOLOGY_DISCONNECT; ACTION_TOPOLOGY_RECONNECT; ACTION_TOPOLOGY_BULK;
    ACTION_TOPOLOGY_CROSS_AUTHORITY; ACTION_MOBPACK_AUTHOR; ACTION_MOBPACK_DEPLOY;
    ACTION_ACCESS_ADMIN ].

(** ** Configuration schema *)

Record AccessApprover := mkApprover {
  approver_subjects : list string;
  approver_groups : list string;
}.

Record AccessGroup := mkGroup {
  group_description : option string;
  group_members : list string;
}.

Inductive AccessEffect := Allow | Deny.

Record AccessRule := mkRule {
  rule_id : string;
  rule_description : option string;
  rule_effect : AccessEffect;
  rule_subjects : list string;
  rule_groups : list string;
  rule_actions : list string;
  rule_agents : list string;
  rule_roles : list string;
  rule_match_labels : gmap string string;
}.

Record AccessControlConfig := mkConfig {
  enabled : bool;
  admins : list string;
  groups : gmap string AccessGroup;
  rules : list AccessRule;
  approvers : gmap string AccessApprover;
}.

#[global] Instance AccessApprover_eq_dec : EqDecision AccessApprover.
Proof. solve_decision. Defined.
#[global] Instance AccessGroup_eq_dec : EqDecision AccessGroup.
Proof. solve_decision. Defined.
#[global] Instance AccessEffect_eq_dec : EqDecision AccessEffect.
Proof. solve_decision. Defined.
#[global] Instance AccessRule_eq_dec : EqDecision AccessRule.
Proof. solve_decision. Defined.
#[global] Instance AccessControlConfig_eq_dec : EqDecision AccessControlConfig.
Proof. solve_decision. Defined.

(** [AccessControlConfig::default()] *)
Definition default_config : AccessControlConfig := mkConfig false [] ∅ [] ∅.

Definition has_resource_selector (r : AccessRule) : bool :=
  negb (is_empty (rule_agents r)) || negb (is_empty (rule_roles r)) ||
  negb (bool_decide (rule_match_labels r = ∅)).

Inductive AccessConfigError :=
| EnabledWithoutAdmins
| EmptyRuleId
| DuplicateRuleId (id : string)
| EmptyActions (id : string)
| UnknownAction (rule action : string)
| UnknownGroup (rule group : string)
| EmptyApproverId
| ApproverWithoutHolders (id : string)
| UnknownApproverGroup (approver group : string)
| UnknownRule (id : string)
| Parse (message : string)
| Io (message : string)
| RevisionExhausted.

(** ** Action patterns *)

Definition dotted_prefix (prefix action : string) : bool :=
  is_some_and (strip_prefix prefix action) (starts_with ".").

Definition action_pattern_is_known `{Features} (pattern : string) : bool :=
  if pattern =b "*" then true
  else match strip_suffix ".*" pattern with
       | Some prefix => existsb (dotted_prefix prefix) ACCESS_ACTIONS
       | None => bool_decide (pattern ∈ ACCESS_ACTIONS)
       end.

Definition action_pattern_matches (pattern action : string) : bool :=
  if (pattern =b "*") || (pattern =b action) then true
  else is_some_and (strip_suffix ".*" pattern) (λ prefix, dotted_prefix prefix action).

Definition pattern_mentions_memory (pattern : string) : bool :=
  existsb (λ segment, segment =b "memory")
    (split_byte "."%char (unwrap_or (strip_suffix ".*" pattern) pattern)).

(** ** Migration of memory-naive configurations *)

Definition matches_any (patterns : list string) (action : string) : bool :=
  existsb (λ pattern, action_pattern_matches pattern action) patterns.

Definition with_actions (r : AccessRule) (actions : list string) : AccessRule :=
  mkRule (rule_id r) (rule_description r) (rule_effect r) (rule_subjects r) (rule_groups r)
    actions (rule_agents r) (rule_roles r) (rule_match_labels r).

Definition with_rules (c : AccessControlConfig) (rs : list AccessRule) : AccessControlConfig :=
  mkConfig (enabled c) (admins c) (groups c) rs (approvers c).

Definition mentions_memory (c : AccessControlConfig) : bool :=
  existsb (λ r, existsb pattern_mentions_memory (rule_actions r)) (rules c).

(** One pass of the rewrite loop: does the rule change, and what it becomes. *)
Definition rule_needs_read (r : AccessRule) : bool :=
  matches_any (rule_actions r) ACTION_AGENT_VIEW &&
  negb (matches_any (rule_actions r) ACTION_AGENT_MEMORY_READ).

Definition extend_rule (r : AccessRule) : AccessRule :=
  if rule_needs_read r then with_actions r (rule_actions r ++ [ACTION_AGENT_MEMORY_READ]) else r.

Definition normalize_access_config_for_memory_actions (c : AccessControlConfig)
  : bool * AccessControlConfig :=
  if mentions_memory c then (false, c)
  else (existsb rule_needs_read (rules c), with_rules c (extend_rule <$> rules c)).

(** ** Validation *)

Section validation.
Context `{Features}.

Definition validate_action (r : AccessRule) (action : string) : Result unit AccessConfigError :=
  if negb (action_pattern_is_known action) then Err (UnknownAction (rule_id r) action) else Ok tt.

Definition validate_group (c : AccessControlConfig) (r : AccessRule) (g : string)
  : Result unit AccessConfigError :=
  if is_none (groups c !! g) then Err (UnknownGroup (rule_id r) g) else Ok tt.

Fixpoint for_each {A E} (f : A → Result unit E) (l : list A) : Result unit E :=
  match l with
  | [] => Ok tt
  | x :: l' => match f x with Ok _ => for_each f l' | Err e => Err e end
  end.

Definition validate_rule (c : AccessControlConfig) (seen_ids : gset string) (r : AccessRule)
  : Result (gset string) AccessConfigError :=
  if str_is_empty (trim (rule_id r)) then Err EmptyRuleId
  else if bool_decide (rule_id r ∈ seen_ids) then Err (DuplicateRuleId (rule_id r))
  else if is_empty (rule_actions r) then Err (EmptyActions (rule_id r))
  else match for_each (validate_action r) (rule_actions r) with
       | Err e => Err e
       | Ok _ =>
           match for_each (validate_group c r) (rule_groups r) with
           | Err e => Err e
           | Ok _ => Ok ({[ rule_id r ]} ∪ seen_ids)
           end
       end.

Fixpoint validate_rules (c : AccessControlConfig) (seen_ids : gset string) (rs : list AccessRule)
  : Result unit AccessConfigError :=
  match rs with
  | [] => Ok tt
  | r :: rs' =>
      match validate_rule c seen_ids r with
      | Ok seen' => validate_rules c seen' rs'
      | Err e => Err e
      end
  end.

Definition validate_approver (c : AccessControlConfig) (p : string * AccessApprover)
  : Result unit AccessConfigError :=
  let '(approver, holders) := p in
  if str_is_empty (trim approver) || negb (trim approver =b approver) then Err EmptyApproverId
  else if forallb (λ subject, str_is_empty (trim subject)) (approver_subjects holders)
          && is_empty (approver_groups holders)
  then Err (ApproverWithoutHolders approver)
  else for_each (λ g, if is_none (groups c !! g) then Err (UnknownApproverGroup approver g)
                      else Ok tt) (approver_groups holders).

Definition validate_access_config (c : AccessControlConfig) : Result unit AccessConfigError :=
  if enabled c && forallb (λ admin, str_is_empty (trim admin)) (admins c)
  then Err EnabledWithoutAdmins
  else match validate_rules c ∅ (rules c) with
       | Err e => Err e
       | Ok _ => for_each (validate_approver c) (btree_entries (approvers c))
       end.

(** *** What validation decides *)

Definition group_defined (c : AccessControlConfig) (g : string) : Prop := is_Some (groups c !! g).

Record valid_rule (c : AccessControlConfig) (r : AccessRule) : Prop := {
  valid_rule_id : trim (rule_id r) ≠ "";
  valid_rule_actions : rule_actions r ≠ [];
  valid_rule_known : ∀ a, a ∈ rule_actions r → action_pattern_is_known a = true;
  valid_rule_groups : ∀ g, g ∈ rule_groups r → group_defined c g;
}.

Record valid_approver (c : AccessControlConfig) (id : string) (h : AccessApprover) : Prop := {
  valid_approver_id : id ≠ "" ∧ trim id = id;
  valid_approver_held :
    (∃ s, s ∈ approver_subjects h ∧ trim s ≠ "") ∨ approver_groups h ≠ [];
  valid_approver_groups : ∀ g, g ∈ approver_groups h → group_defined c g;
}.

Record valid_config (c : AccessControlConfig) : Prop := {
  valid_admins : enabled c = true → ∃ a, a ∈ admins c ∧ trim a ≠ "";
  valid_rules : ∀ r, r ∈ rules c → valid_rule c r;
  valid_ids : NoDup (rule_id <$> rules c);
  valid_approvers : ∀ id h, approvers c !! id = Some h → valid_approver c id h;
}.

Lemma for_each_Ok {A E} (f : A → Result unit E) l :
  for_each f l = Ok tt ↔ ∀ x, x ∈ l → f x = Ok tt.
Proof.
  induction l as [|x l IH]; simpl; [set_solver|].
  destruct (f x) as [[]|e] eqn:Hx.
  - rewrite IH. set_solver.
  - split; [done|]. intros Hall. rewrite Hall in Hx by set_solver. done.
Qed.

Lemma is_none_defined c g : is_none (groups c !! g) = false ↔ group_defined c g.
Proof. unfold group_defined, is_none. destruct (groups c !! g); simpl; naive_solver. Qed.

Lemma validate_rule_Ok c seen r seen' :
  validate_rule c seen r = Ok seen' ↔
  valid_rule c r ∧ rule_id r ∉ seen ∧ seen' = {[ rule_id r ]} ∪ seen.
Proof.
  unfold validate_rule. destruct (str_is_empty (trim (rule_id r))) eqn:Hid.
  { split; [done|]. intros [Hv _]. by apply str_is_empty_true, (valid_rule_id _ _ Hv) in Hid. }
  apply str_is_empty_false in Hid. case_bool_decide as Hseen; [naive_solver|].
  destruct (rule_actions r) as [|a0 acts] eqn:Hacts; cbn [is_empty].
  { split; [done|]. intros [Hv _]. by destruct (valid_rule_actions _ _ Hv). }
  rewrite <- Hacts.
  destruct (for_each (validate_action r) _) as [[]|e] eqn:Ha.
  2:{ split; [done|]. intros [Hv _]. assert (for_each (validate_action r) (rule_actions r) = Ok tt); [|congruence].
      apply for_each_Ok. intros x Hx. unfold validate_action. by rewrite (valid_rule_known _ _ Hv). }
  destruct (for_each (validate_group c r) _) as [[]|e] eqn:Hg.
  2:{ split; [done|]. intros [Hv _]. assert (for_each (validate_group c r) (rule_groups r) = Ok tt); [|congruence].
      apply for_each_Ok. intros x Hx. unfold validate_group.
      by rewrite (proj2 (is_none_defined c x) (valid_rule_groups _ _ Hv x Hx)). }
  rewrite for_each_Ok in Ha, Hg. split; [intros [= <-]|naive_solver].
  split_and!; [|done..]. split; [done|congruence| |].
  - intros x Hx. specialize (Ha x Hx). unfold validate_action in Ha.
    by destruct (action_pattern_is_known x).
  - intros g Hgx. specialize (Hg g Hgx). unfold validate_group in Hg.
    apply is_none_defined. by destruct (is_none _).
Qed.

Lemma validate_rules_Ok c seen rs :
  validate_rules c seen rs = Ok tt ↔
  (∀ r, r ∈ rs → valid_rule c r) ∧ NoDup (rule_id <$> rs) ∧ (∀ r, r ∈ rs → rule_id r ∉ seen).
Proof.
  revert seen. induction rs as [|r rs IH]; intros seen; simpl.
  { split; [|done]. intros _. split_and!; [set_solver|constructor|set_solver]. }
  rewrite NoDup_cons, list_elem_of_fmap. split.
  - destruct (validate_rule c seen r) as [seen'|e] eqn:Hr; [|done].
    apply validate_rule_Ok in Hr as (Hv & Hns & ->). rewrite IH.
    intros (Hvs & Hnd & Hns'). split_and!; [set_solver| |done|set_solver].
    intros (r' & Heq & Hr'). apply (Hns' r' Hr'). rewrite <- Heq. set_solver.
  - intros (Hvs & (Hni & Hnd) & Hns).
    assert (validate_rule c seen r = Ok ({[ rule_id r ]} ∪ seen)) as ->.
    { apply validate_rule_Ok. split_and!; [set_solver|set_solver|done]. }
    apply IH. split_and!; [set_solver|done|]. intros r' Hr' Hin.
    apply elem_of_union in Hin as [Heq%elem_of_singleton|Hin]; [|set_solver].
    apply Hni. eauto.
Qed.

Lemma validate_approver_Ok c id h :
  validate_approver c (id, h) = Ok tt ↔ valid_approver c id h.
Proof.
  unfold validate_approver. destruct (str_is_empty (trim id)) eqn:Hid; simpl.
  { split; [done|]. intros [[Hne Ht] _ _]. rewrite Ht in Hid. by apply str_is_empty_true in Hid. }
  case_bool_decide as Ht; simpl; [|split; [done|]; by intros [[_ Ht'] _ _]]. rewrite Ht in Hid. apply str_is_empty_false in Hid.
  destruct (forallb _ _ && _) eqn:Hh.
  { split; [done|]. intros [_ Hheld _]. apply andb_true_iff in Hh as [Hs Hg].
    rewrite forallb_elem_of in Hs. destruct Hheld as [(s & Hin & Hne)|Hne].
    - by apply Hs, str_is_empty_true in Hin.
    - by destruct (approver_groups h). }
  rewrite for_each_Ok. split.
  - intros Hall. split; [done| |].
    + apply andb_false_iff in Hh as [Hf|Hg]; [left|right; by destruct (approver_groups h)].
      apply forallb_false in Hf as (x & Hx & Hf). exists x. by rewrite <- str_is_empty_false.
    + intros g Hg. specialize (Hall g Hg). apply is_none_defined. by destruct (is_none _).
  - intros [_ _ Hg] g Hin. by rewrite (proj2 (is_none_defined c g) (Hg g Hin)).
Qed.

Lemma admins_named c :
  enabled c && forallb (λ admin, str_is_empty (trim admin)) (admins c) = false ↔
  (enabled c = true → ∃ a, a ∈ admins c ∧ trim a ≠ "").
Proof.
  destruct (enabled c); simpl; [|naive_solver].
  rewrite forallb_false. setoid_rewrite str_is_empty_false. naive_solver.
Qed.

(** Validation accepts exactly the valid configurations. *)
Lemma validate_access_config_Ok c : validate_access_config c = Ok tt ↔ valid_config c.
Proof.
  unfold validate_access_config.
  destruct (enabled c && _) eqn:Ha.
  { split; [done|]. intros Hv. pose proof (proj2 (admins_named c) (valid_admins _ Hv)). congruence. }
  rewrite admins_named in Ha.
  destruct (validate_rules c ∅ (rules c)) as [[]|e] eqn:Hr.
  2:{ split; [done|]. intros Hv. assert (validate_rules c ∅ (rules c) = Ok tt); [|congruence].
      apply validate_rules_Ok. split_and!; [apply Hv|apply Hv|set_solver]. }
  apply validate_rules_Ok in Hr as (Hvs & Hnd & _). rewrite for_each_Ok. split.
  - intros Hap. split; [done..|]. intros id h Hh.
    apply validate_approver_Ok, Hap. by apply elem_of_btree_entries.
  - intros Hv [id h] Hin. apply validate_approver_Ok, Hv. by apply elem_of_btree_entries.
Qed.
End validation.
