(* ===== verification/AccessEngine.v ===== *)
(** * Access decisions ([access/engine.rs])

    Attribute matching of rules against a principal and a resource, the
    deny-overrides evaluation of a check against an agent and its spawn
    lineage, and what the evaluation decides. *)

From S2P Require Import Prelude Strings AccessModel.

Record AccessPrincipal := mkPrincipal {
  principal_subject : option string;
  principal_groups : gset string;
}.

Definition anonymous : AccessPrincipal := mkPrincipal None ∅.

Record AccessResource := mkResource {
  resource_identity : option string;
  resource_agent_id : option string;
  resource_role : option string;
  resource_labels : option (gmap string string);
}.

Definition no_resource : AccessResource := mkResource None None None None.
Definition for_identity (identity : string) : AccessResource := mkResource (Some identity) None None None.
Definition is_present (r : AccessResource) : bool :=
  is_some (resource_identity r) || is_some (resource_agent_id r).

Inductive AccessDecision := AccessAllow | AccessDeny (reason : string).

#[global] Instance AccessDecision_eq_dec : EqDecision AccessDecision.
Proof. solve_decision. Defined.

Definition is_allow (d : AccessDecision) : bool :=
  match d with AccessAllow => true | AccessDeny _ => false end.

Definition subject_matches (rule : AccessRule) (principal : AccessPrincipal) : bool :=
  if is_empty (rule_subjects rule) && is_empty (rule_groups rule) then true
  else if is_some_and (principal_subject principal) (λ subject,
            existsb (λ candidate, (candidate =b "*") || (candidate =b subject)) (rule_subjects rule))
  then true
  else existsb (λ group, bool_decide (group ∈ principal_groups principal)) (rule_groups rule).

Definition agent_listed (rule : AccessRule) (resource : AccessResource) : bool :=
  existsb (λ candidate,
    (candidate =b "*")
    || is_some_and (resource_identity resource) (λ identity, identity =b candidate)
    || is_some_and (resource_agent_id resource) (λ agent_id, agent_id =b candidate))
    (rule_agents rule).

Definition role_listed (rule : AccessRule) (resource : AccessResource) : bool :=
  is_some_and (resource_role resource) (λ role,
    existsb (λ candidate, (candidate =b "*") || (candidate =b role)) (rule_roles rule)).

Definition all_labels_match (rule : AccessRule) (labels : gmap string string) : bool :=
  forallb (λ kv, labels !! kv.1 =b Some kv.2) (btree_entries (rule_match_labels rule)).

Definition resource_matches (rule : AccessRule) (resource : AccessResource) : bool :=
  if negb (has_resource_selector rule) then true
  else if negb (is_present resource) then false
  else if negb (is_empty (rule_agents rule)) && negb (agent_listed rule resource) then false
  else if negb (is_empty (rule_roles rule)) && negb (role_listed rule resource) then false
  else if bool_decide (rule_match_labels rule = ∅) then true
  else match resource_labels resource with
       | None => false
       | Some labels => all_labels_match rule labels
       end.

Definition rule_applies (principal : AccessPrincipal) (action : string)
    (resources : list AccessResource) (rule : AccessRule) : bool :=
  matches_any (rule_actions rule) action
  && subject_matches rule principal
  && existsb (resource_matches rule) resources.

(** The rule loop: [allowed] is the flag the loop carries. *)
Fixpoint evaluate_rules (principal : AccessPrincipal) (action : string)
    (resources : list AccessResource) (allowed : bool) (rs : list AccessRule) : AccessDecision :=
  match rs with
  | [] => if allowed then AccessAllow else AccessDeny ("no rule allows " +:+ action)
  | rule :: rs' =>
      if negb (rule_applies principal action resources rule)
      then evaluate_rules principal action resources allowed rs'
      else match rule_effect rule with
           | Deny => AccessDeny ("denied by rule " +:+ rule_id rule)
           | Allow => evaluate_rules principal action resources true rs'
           end
  end.

Definition is_admin_subject (config : AccessControlConfig) (principal : AccessPrincipal) : bool :=
  is_some_and (principal_subject principal) (λ subject,
    existsb (λ admin, admin =b subject) (admins config)).

Definition evaluate_access_lineage (config : AccessControlConfig) (principal : AccessPrincipal)
    (action : string) (resources : list AccessResource) : AccessDecision :=
  if negb (enabled config) then AccessAllow
  else if is_admin_subject config principal then AccessAllow
  else evaluate_rules principal action resources false (rules config).

Definition evaluate_access (config : AccessControlConfig) (principal : AccessPrincipal)
    (action : string) (resource : AccessResource) : AccessDecision :=
  evaluate_access_lineage config principal action [resource].

Definition principal_may_perform (config : AccessControlConfig) (principal : AccessPrincipal)
    (action : string) : bool :=
  if negb (enabled config) then true
  else existsb (λ rule,
         (rule_effect rule =b Allow) && matches_any (rule_actions rule) action
         && subject_matches rule principal) (rules config).

Definition groups_for_subject (config : AccessControlConfig) (subject : string) : gset string :=
  list_to_set (fst <$> filter (λ p : string * AccessGroup, subject ∈ group_members p.2)
                         (btree_entries (groups config))).

(** ** What a decision means *)

Section decisions.
Context (config : AccessControlConfig) (principal : AccessPrincipal).
Implicit Types (action : string) (resources : list AccessResource).

Definition bypasses : Prop :=
  enabled config = false ∨ is_admin_subject config principal = true.

Definition denied_by_rule action resources : Prop :=
  ∃ r, r ∈ rules config ∧ rule_applies principal action resources r = true ∧ rule_effect r = Deny.
Definition allowed_by_rule action resources : Prop :=
  ∃ r, r ∈ rules config ∧ rule_applies principal action resources r = true ∧ rule_effect r = Allow.

Lemma evaluate_rules_allow action resources allowed rs :
  evaluate_rules principal action resources allowed rs = AccessAllow ↔
  (∀ r, r ∈ rs → rule_applies principal action resources r = true → rule_effect r = Allow) ∧
  (allowed = true ∨
   ∃ r, r ∈ rs ∧ rule_applies principal action resources r = true ∧ rule_effect r = Allow).
Proof.
  revert allowed. induction rs as [|r rs IH]; intros allowed; simpl.
  { destruct allowed; split.
    - intros _. split; [|by left]. intros r Hr. by apply not_elem_of_nil in Hr.
    - done.
    - done.
    - intros [_ [?|(r & Hr & _)]]; [done|]. by apply not_elem_of_nil in Hr. }
  setoid_rewrite elem_of_cons.
  destruct (rule_applies principal action resources r) eqn:Happ; simpl;
    [destruct (rule_effect r) eqn:He; [rewrite IH|]|rewrite IH]; split; try done.
  - intros [Hall Hor]. split; [by intros r' [->|Hr']; eauto|]. right. exists r. auto.
  - intros [Hall _]. split; [eauto|by left].
  - intros [Hall _]. exfalso. rewrite Hall in He; [done|by left|done].
  - intros [Hall Hor]. split; [intros r' [->|Hr'] Ha; [congruence|eauto]|naive_solver].
  - intros [Hall Hor]. split; [by eauto|]. destruct Hor as [?|(r' & [->|Hr'] & Ha & He)]; [by left|congruence|eauto].
Qed.

Lemma evaluate_lineage_allow action resources :
  evaluate_access_lineage config principal action resources = AccessAllow ↔
  bypasses ∨ (¬ denied_by_rule action resources ∧ allowed_by_rule action resources).
Proof.
  unfold evaluate_access_lineage, bypasses, denied_by_rule, allowed_by_rule.
  destruct (enabled config); simpl; [|naive_solver].
  destruct (is_admin_subject config principal); [naive_solver|].
  rewrite evaluate_rules_allow. split.
  - intros [Hall [?|(r & Hr)]]; [done|]. right. split; [|by exists r].
    intros (r' & Hr' & Happ & Hd). by rewrite (Hall r') in Hd.
  - intros [[?|?]|[Hnd Ha]]; [done..|]. split; [|naive_solver].
    intros r Hr Happ. destruct (rule_effect r) eqn:E; [done|]. exfalso. apply Hnd. naive_solver.
Qed.

Lemma is_allow_iff d : is_allow d = true ↔ d = AccessAllow.
Proof. by destruct d. Qed.

Lemma rule_applies_mono action resources resources' r :
  resources ⊆ resources' →
  rule_applies principal action resources r = true →
  rule_applies principal action resources' r = true.
Proof.
  unfold rule_applies. rewrite !andb_true_iff, !existsb_elem_of. intros Hsub [[-> ->] (x & Hx & Hm)].
  split; [done|]. exists x. by split; [apply Hsub|].
Qed.

Lemma subject_matches_anonymous r :
  subject_matches r anonymous = true ↔ rule_subjects r = [] ∧ rule_groups r = [].
Proof.
  unfold subject_matches, anonymous. simpl.
  destruct (rule_subjects r) as [|s ss], (rule_groups r) as [|g gs]; simpl; try naive_solver.
  - rewrite bool_decide_eq_false_2 by set_solver. simpl. split; [|by intros []].
    rewrite existsb_elem_of. intros (x & _ & Hx%bool_decide_eq_true). set_solver.
  - rewrite bool_decide_eq_false_2 by set_solver. simpl. split; [|by intros []].
    rewrite existsb_elem_of. intros (x & _ & Hx%bool_decide_eq_true). set_solver.
Qed.

Lemma resource_matches_none r :
  resource_matches r no_resource = true ↔ has_resource_selector r = false.
Proof. unfold resource_matches. destruct (has_resource_selector r); simpl; naive_solver. Qed.
End decisions.

(** ** The memory migration *)

(** The only dotted prefixes of [agent.memory.read]. *)
Lemma read_prefixes prefix :
  dotted_prefix prefix ACTION_AGENT_MEMORY_READ = true → prefix = "agent" ∨ prefix = "agent.memory".
Proof.
  unfold dotted_prefix. destruct (strip_prefix _ _) as [rest|] eqn:E; simpl; [|done].
  rewrite starts_with_spec. intros [r ->]. apply strip_prefix_Some in E.
  change ("." +:+ r) with (String "."%char r) in E. unfold ACTION_AGENT_MEMORY_READ in E.
  repeat (destruct prefix as [|? prefix]; [try discriminate; auto; fail|];
          rewrite ?str_app_cons in E; injection E as <- E; try discriminate E).
  by destruct prefix.
Qed.

Lemma naive_read_is_view pattern :
  pattern_mentions_memory pattern = false →
  action_pattern_matches pattern ACTION_AGENT_MEMORY_READ = true →
  action_pattern_matches pattern ACTION_AGENT_VIEW = true.
Proof.
  intros Hm. unfold action_pattern_matches at 1.
  destruct (bool_decide_reflect (pattern = "*")) as [->|Hstar]; [done|].
  destruct (bool_decide_reflect (pattern = ACTION_AGENT_MEMORY_READ)) as [->|Hne]; [by vm_compute in Hm|].
  simpl. destruct (strip_suffix ".*" pattern) as [prefix|] eqn:E; simpl; [|done].
  apply strip_suffix_Some in E as ->. intros [-> | ->]%read_prefixes; [done|by vm_compute in Hm].
Qed.

Section migration.
Context (config : AccessControlConfig).
Context (naive : mentions_memory config = false).

Lemma naive_patterns r pattern :
  r ∈ rules config → pattern ∈ rule_actions r → pattern_mentions_memory pattern = false.
Proof using naive.
  intros Hr Hp. unfold mentions_memory in naive. rewrite existsb_false in naive.
  specialize (naive r Hr). rewrite existsb_false in naive. auto.
Qed.

Lemma extend_rule_read r :
  r ∈ rules config →
  matches_any (rule_actions (extend_rule r)) ACTION_AGENT_MEMORY_READ =
  matches_any (rule_actions r) ACTION_AGENT_VIEW.
Proof using naive.
  intros Hr. unfold extend_rule, rule_needs_read.
  destruct (matches_any (rule_actions r) ACTION_AGENT_VIEW) eqn:Hv; simpl.
  - destruct (matches_any (rule_actions r) ACTION_AGENT_MEMORY_READ) eqn:Hread; simpl; [done|].
    unfold matches_any. rewrite existsb_app. simpl. by rewrite orb_true_r.
  - unfold matches_any in *. rewrite existsb_false in Hv |- *. intros p Hp.
    destruct (action_pattern_matches p ACTION_AGENT_MEMORY_READ) eqn:Hm; [|done].
    apply naive_read_is_view in Hm; [by rewrite Hv in Hm|by eapply naive_patterns].
Qed.
End migration.

Lemma extend_rule_other r action :
  action ≠ ACTION_AGENT_MEMORY_READ →
  matches_any (rule_actions (extend_rule r)) action = matches_any (rule_actions r) action.
Proof.
  intros Hne. unfold extend_rule. destruct (rule_needs_read r); [|done].
  unfold matches_any. simpl. rewrite existsb_app. simpl. rewrite orb_false_r.
  replace (action_pattern_matches ACTION_AGENT_MEMORY_READ action) with false; [by rewrite orb_false_r|].
  unfold action_pattern_matches. simpl. by rewrite bool_decide_eq_false_2.
Qed.

Lemma extend_rule_fields r :
  rule_effect (extend_rule r) = rule_effect r ∧ rule_id (extend_rule r) = rule_id r ∧
  (∀ p, subject_matches (extend_rule r) p = subject_matches r p) ∧
  (∀ x, resource_matches (extend_rule r) x = resource_matches r x).
Proof. unfold extend_rule. by destruct (rule_needs_read r). Qed.

Lemma evaluate_rules_extend principal a a' resources allowed rs :
  (∀ r, r ∈ rs → matches_any (rule_actions (extend_rule r)) a' = matches_any (rule_actions r) a) →
  is_allow (evaluate_rules principal a' resources allowed (extend_rule <$> rs)) =
  is_allow (evaluate_rules principal a resources allowed rs).
Proof.
  revert allowed. induction rs as [|r rs IH]; intros allowed Hm; [by destruct allowed|].
  cbn [fmap list_fmap evaluate_rules].
  destruct (extend_rule_fields r) as (He & Hid & Hs & Hx).
  assert (rule_applies principal a' resources (extend_rule r) = rule_applies principal a resources r) as ->.
  { unfold rule_applies. rewrite Hm by set_solver. rewrite Hs. f_equal.
    apply existsb_ext. intros x. apply Hx. }
  rewrite He. assert (∀ r, r ∈ rs → matches_any (rule_actions (extend_rule r)) a' =
    matches_any (rule_actions r) a) by set_solver.
  destruct (rule_applies _ _ _ _); simpl; [|auto]. destruct (rule_effect r); [auto|done].
Qed.

Lemma evaluate_lineage_extend config principal a a' resources :
  (∀ r, r ∈ rules config →
     matches_any (rule_actions (extend_rule r)) a' = matches_any (rule_actions r) a) →
  is_allow (evaluate_access_lineage (with_rules config (extend_rule <$> rules config)) principal a' resources) =
  is_allow (evaluate_access_lineage config principal a resources).
Proof.
  intros Hm. unfold evaluate_access_lineage. simpl. destruct (enabled config); simpl; [|done].
  unfold is_admin_subject. simpl. destruct (is_some_and _ _); [done|].
  by apply evaluate_rules_extend.
Qed.

Lemma mentions_memory_extended config :
  existsb rule_needs_read (rules config) = true →
  mentions_memory (with_rules config (extend_rule <$> rules config)) = true.
Proof.
  rewrite existsb_elem_of. intros (r & Hr & Hn). unfold mentions_memory. simpl.
  apply existsb_elem_of. exists (extend_rule r). split; [by apply list_elem_of_fmap_2|].
  unfold extend_rule. rewrite Hn. simpl. apply existsb_elem_of.
  exists ACTION_AGENT_MEMORY_READ. split; [set_solver|done].
Qed.

Lemma extend_rules_id rs :
  existsb rule_needs_read rs = false → extend_rule <$> rs = rs.
Proof.
  rewrite existsb_false. intros H. induction rs as [|r rs IH]; [done|]. cbn [fmap list_fmap].
  f_equal; [|apply IH; set_solver]. unfold extend_rule. by rewrite H by set_solver.
Qed.

Lemma with_rules_id config : with_rules config (rules config) = config.
Proof. by destruct config. Qed.

Lemma memory_migration_stable config :
  let migrated := (normalize_access_config_for_memory_actions config).2 in
  normalize_access_config_for_memory_actions migrated = (false, migrated).
Proof.
  unfold normalize_access_config_for_memory_actions.
  destruct (mentions_memory config) eqn:Hm; simpl; [by rewrite Hm|].
  destruct (existsb rule_needs_read (rules config)) eqn:Hn.
  - by rewrite mentions_memory_extended.
  - by rewrite (extend_rules_id _ Hn), with_rules_id, Hm, Hn, (extend_rules_id _ Hn), with_rules_id.
Qed.

(** ** Properties *)

(** C1: An access check against an agent and its spawn lineage is allowed exactly
    when enforcement is off, or the caller is a named admin, or no deny rule that
    applies to the check exists in the configuration and some allow rule that
    applies does: deny by default, with deny overriding allow. *)
Theorem evaluate_deny_overrides config principal action resources :
  is_allow (evaluate_access_lineage config principal action resources) = true ↔
  bypasses config principal ∨
  (¬ denied_by_rule config principal action resources ∧
   allowed_by_rule config principal action resources).
Proof. by rewrite is_allow_iff, evaluate_lineage_allow. Qed.

(** Rules are a set: permuting the rule list never changes whether a check is
    allowed, for any principal, action and lineage. *)
Theorem evaluate_rule_order_irrelevant config rs' principal action resources :
  rules config ≡ₚ rs' →
  is_allow (evaluate_access_lineage (with_rules config rs') principal action resources) =
  is_allow (evaluate_access_lineage config principal action resources).
Proof.
  intros Hp. apply eq_true_iff_eq. rewrite !is_allow_iff, !evaluate_lineage_allow.
  unfold bypasses, denied_by_rule, allowed_by_rule, is_admin_subject. simpl.
  by setoid_rewrite Hp.
Qed.

(** Along a spawn lineage permissions are inherited and denials survive: when
    the caller does not bypass the rules and the lineage grows from [resources] to
    [resources'], a deny rule that applied still denies, and a check that was
    allowed stays allowed unless a deny rule applies to the longer lineage. *)
Theorem lineage_inheritance config principal action resources resources' :
  resources ⊆ resources' → ¬ bypasses config principal →
  (denied_by_rule config principal action resources →
   is_allow (evaluate_access_lineage config principal action resources') = false) ∧
  (is_allow (evaluate_access_lineage config principal action resources) = true →
   ¬ denied_by_rule config principal action resources' →
   is_allow (evaluate_access_lineage config principal action resources') = true).
Proof.
  intros Hsub Hnb. split.
  - intros (r & Hr & Happ & He). apply not_true_iff_false. rewrite is_allow_iff, evaluate_lineage_allow.
    intros [?|[Hnd _]]; [done|]. apply Hnd. exists r. eauto using rule_applies_mono.
  - rewrite !is_allow_iff, !evaluate_lineage_allow. intros [?|[_ (r & Hr & Happ & He)]] Hnd; [done|].
    right. split; [done|]. exists r. eauto using rule_applies_mono.
Qed.

(** An unauthenticated caller only ever matches rules without subject and group
    constraints, so an enabled configuration whose allow rules all name subjects or
    groups denies the anonymous principal every action on every lineage; a rule
    naming the wildcard subject does not admit it either. *)
Theorem anonymous_never_matches_constrained config action resources :
  enabled config = true →
  (∀ r, r ∈ rules config → rule_effect r = Allow → rule_subjects r ≠ [] ∨ rule_groups r ≠ []) →
  is_allow (evaluate_access_lineage config anonymous action resources) = false.
Proof.
  intros Hen Hc. apply not_true_iff_false. rewrite is_allow_iff, evaluate_lineage_allow.
  unfold bypasses. intros [[?|?]|[_ (r & Hr & Happ & He)]]; [congruence|done|].
  unfold rule_applies in Happ. rewrite !andb_true_iff in Happ. destruct Happ as [[_ Hs] _].
  apply subject_matches_anonymous in Hs as [H1 H2]. by destruct (Hc r Hr He).
Qed.

(** A configuration that mentions no memory action is migrated so that reading
    an agent's memory is allowed exactly when viewing the agent was, for every
    principal and lineage (denials included), and no other action's decision
    changes. *)
Theorem memory_migration_read_rides_view config principal resources :
  mentions_memory config = false →
  let migrated := (normalize_access_config_for_memory_actions config).2 in
  is_allow (evaluate_access_lineage migrated principal ACTION_AGENT_MEMORY_READ resources) =
  is_allow (evaluate_access_lineage config principal ACTION_AGENT_VIEW resources) ∧
  ∀ action, action ≠ ACTION_AGENT_MEMORY_READ →
    is_allow (evaluate_access_lineage migrated principal action resources) =
    is_allow (evaluate_access_lineage config principal action resources).
Proof.
  intros Hn. unfold normalize_access_config_for_memory_actions. rewrite Hn. simpl. split.
  - apply evaluate_lineage_extend. intros r Hr. by eapply extend_rule_read.
  - intros action Hne. apply evaluate_lineage_extend. intros r Hr. by apply extend_rule_other.
Qed.

(** The migration is self-limiting: run again on its own result it reports no
    change and returns the configuration as it is, and a configuration that
    mentions any memory action is left untouched. *)
Theorem memory_migration_idempotent config :
  let migrated := (normalize_access_config_for_memory_actions config).2 in
  normalize_access_config_for_memory_actions migrated = (false, migrated) ∧
  (mentions_memory config = true → migrated = config).
Proof.
  split; [apply memory_migration_stable|]. intros Hm.
  unfold normalize_access_config_for_memory_actions. by rewrite Hm.
Qed.

(** Capability advertisement is complete: whenever some check of an action is
    allowed to a caller that is not a named admin, [principal_may_perform] says the
    action is available, so an affordance the caller can use is never hidden. *)
Theorem may_perform_complete config principal action resources :
  is_admin_subject config principal = false →
  is_allow (evaluate_access_lineage config principal action resources) = true →
  principal_may_perform config principal action = true.
Proof.
  intros Hna. rewrite is_allow_iff, evaluate_lineage_allow. unfold principal_may_perform, bypasses.
  destruct (enabled config); simpl; [|done]. intros [[?|?]|[_ (r & Hr & Happ & He)]]; [congruence..|].
  apply existsb_elem_of. exists r. split; [done|]. rewrite He. simpl.
  unfold rule_applies in Happ. rewrite !andb_true_iff in Happ. destruct Happ as [[-> ->] _]. done.
Qed.

(** ** Witnesses *)

Module EngineExamples.
Definition view_all : AccessRule :=
  mkRule "ops-view-all" None Allow [] ["ops"] ["agent.view"] [] [] ∅.
Definition hide_secret : AccessRule :=
  mkRule "hide-secret" None Deny [] [] ["agent.*"] ["identity:secret"] [] ∅.
Definition ops_config : AccessControlConfig :=
  mkConfig true ["root@example.test"] {[ "ops" := mkGroup None ["alice@example.test"] ]}
    [view_all; hide_secret] ∅.
Definition alice : AccessPrincipal :=
  mkPrincipal (Some "alice@example.test") (groups_for_subject ops_config "alice@example.test").
Definition scout : AccessResource := for_identity "identity:scout".
Definition secret : AccessResource := for_identity "identity:secret".

Example alice_sees_scout : evaluate_access ops_config alice "agent.view" scout = AccessAllow.
Proof. vm_compute. reflexivity. Qed.
Example alice_denied_secret :
  evaluate_access ops_config alice "agent.view" secret = AccessDeny "denied by rule hide-secret".
Proof. vm_compute. reflexivity. Qed.

Lemma alice_not_bypassing : ¬ bypasses ops_config alice.
Proof. intros [H|H]; vm_compute in H; discriminate. Defined.

Lemma evaluate_rule_order_irrelevant_witness :
  is_allow (evaluate_access_lineage (with_rules ops_config [hide_secret; view_all]) alice "agent.view" [scout]) =
  is_allow (evaluate_access_lineage ops_config alice "agent.view" [scout]).
Proof.
  apply (evaluate_rule_order_irrelevant ops_config [hide_secret; view_all] alice "agent.view" [scout]).
  apply perm_swap.
Defined.

Lemma lineage_inheritance_witness :
  is_allow (evaluate_access_lineage ops_config alice "agent.view" [scout; secret]) = false.
Proof.
  apply (lineage_inheritance ops_config alice "agent.view" [secret] [scout; secret]).
  - set_solver.
  - apply alice_not_bypassing.
  - exists hide_secret. split_and!; [set_solver|vm_compute; reflexivity|reflexivity].
Defined.

Definition named_config : AccessControlConfig :=
  mkConfig true ["root@example.test"] ∅
    [mkRule "all" None Allow ["*"] [] ["*"] [] [] ∅] ∅.

Lemma anonymous_never_matches_constrained_witness :
  is_allow (evaluate_access_lineage named_config anonymous "agent.view" [scout]) = false.
Proof.
  apply (anonymous_never_matches_constrained named_config "agent.view" [scout]); [reflexivity|].
  intros r Hr _. apply list_elem_of_singleton in Hr as ->. left. discriminate.
Defined.

Lemma memory_migration_read_rides_view_witness :
  is_allow (evaluate_access_lineage (normalize_access_config_for_memory_actions ops_config).2
    alice ACTION_AGENT_MEMORY_READ [scout]) = true.
Proof.
  rewrite (proj1 (memory_migration_read_rides_view ops_config alice [scout]
    ltac:(vm_compute; reflexivity))).
  vm_compute. reflexivity.
Defined.

Lemma memory_migration_idempotent_witness :
  (normalize_access_config_for_memory_actions
     (mkConfig true ["root"] ∅ [mkRule "w" None Allow [] [] ["agent.memory.write"] [] [] ∅] ∅)).2 =
  mkConfig true ["root"] ∅ [mkRule "w" None Allow [] [] ["agent.memory.write"] [] [] ∅] ∅.
Proof.
  apply (proj2 (memory_migration_idempotent
    (mkConfig true ["root"] ∅ [mkRule "w" None Allow [] [] ["agent.memory.write"] [] [] ∅] ∅))).
  vm_compute. reflexivity.
Defined.

Lemma may_perform_complete_witness : principal_may_perform ops_config alice "agent.view" = true.
Proof.
  apply (may_perform_complete ops_config alice "agent.view" [scout]); vm_compute; reflexivity.
Defined.
End EngineExamples.
