(* ===== verification/AccessController.v ===== *)
(** * The access controller ([access/controller.rs])

    The live configuration with its revision, persistence and authorization
    publication, the administrative edits (direct and checked), the agent
    attribute cache and the per-request views that decide against it.

    Every writer holds the [mutation] mutex from its first read of the
    configuration to the swap that exposes the new one, so an edit is one step
    on the controller state.  [disk] holds the configuration each path was last
    persisted with; writing it is the parameter [persist_config], because the
    file system and the TOML renderer decide whether it succeeds.  [published]
    counts the owner changes begun on the joined authorization publication. *)

From S2P Require Import Prelude Strings AccessModel AccessEngine.
Open Scope Z_scope.

Record AgentResourceAttributes := mkAttributes {
  attr_identity : string;
  attr_agent_id : option string;
  attr_role : option string;
  attr_labels : gmap string string;
}.

#[global] Instance AgentResourceAttributes_eq_dec : EqDecision AgentResourceAttributes.
Proof. solve_decision. Defined.

Record AccessEditPrecondition := mkPrecondition {
  expected_owner_instance : string;
  expected_revision : Z;
}.

Inductive AccessMutation :=
| Replace (replacement : AccessControlConfig)
| UpsertRule (rule : AccessRule)
| DeleteRule (id : string)
| SetGroup (name : string) (group : AccessGroup)
| DeleteGroup (name : string)
| SetEnabled (on : bool).

Definition with_groups (c : AccessControlConfig) (g : gmap string AccessGroup) : AccessControlConfig :=
  mkConfig (enabled c) (admins c) g (rules c) (approvers c).
Definition with_enabled (c : AccessControlConfig) (on : bool) : AccessControlConfig :=
  mkConfig on (admins c) (groups c) (rules c) (approvers c).

(** [iter_mut().find(..)]: the first rule with the id is replaced in place. *)
Fixpoint upsert (rule : AccessRule) (rs : list AccessRule) : list AccessRule :=
  match rs with
  | [] => [rule]
  | r :: rs' => if rule_id r =b rule_id rule then rule :: rs' else r :: upsert rule rs'
  end.

(** [AccessMutation::apply] *)
Definition apply_mutation (m : AccessMutation) (c : AccessControlConfig)
  : Result AccessControlConfig AccessConfigError :=
  match m with
  | Replace replacement => Ok replacement
  | UpsertRule rule => Ok (with_rules c (upsert rule (rules c)))
  | DeleteRule id =>
      let kept := filter (λ r, rule_id r ≠ id) (rules c) in
      if (length kept =? length (rules c))%nat then Err (UnknownRule id) else Ok (with_rules c kept)
  | SetGroup name group => Ok (with_groups c (<[name := group]> (groups c)))
  | DeleteGroup name => Ok (with_groups c (delete name (groups c)))
  | SetEnabled on => Ok (with_enabled c on)
  end.

Inductive AccessEditError :=
| Denied
| Unavailable
| OwnerChanged
| RevisionConflict (expected actual : Z)
| ConfigError (e : AccessConfigError).

(** Writing the persisted configuration: [None] when the write and the rename
    succeed. *)
Class PersistConfig := persist_config : string → AccessControlConfig → option AccessConfigError.

Record AccessController := mkController {
  owner_instance : option string;
  config : AccessControlConfig;
  revision : Z;
  persist_path : option string;
  attributes : gmap string AgentResourceAttributes;
  publication_joined : bool;
  published : nat;
  disk : gmap string AccessControlConfig;
}.

Definition set_state (k : AccessController) (c : AccessControlConfig) (rev : Z) : AccessController :=
  mkController (owner_instance k) c rev (persist_path k) (attributes k) (publication_joined k)
    (published k) (disk k).
Definition set_persist_path (k : AccessController) (p : option string) : AccessController :=
  mkController (owner_instance k) (config k) (revision k) p (attributes k) (publication_joined k)
    (published k) (disk k).
Definition set_attributes (k : AccessController) (a : gmap string AgentResourceAttributes) : AccessController :=
  mkController (owner_instance k) (config k) (revision k) (persist_path k) a (publication_joined k)
    (published k) (disk k).
Definition set_publication (k : AccessController) (joined : bool) (n : nat) : AccessController :=
  mkController (owner_instance k) (config k) (revision k) (persist_path k) (attributes k) joined n (disk k).
Definition set_disk (k : AccessController) (d : gmap string AccessControlConfig) : AccessController :=
  mkController (owner_instance k) (config k) (revision k) (persist_path k) (attributes k)
    (publication_joined k) (published k) d.

(** ** Views and spawn lineage *)

Record AccessView := mkView {
  view_config : AccessControlConfig;
  view_principal : AccessPrincipal;
  view_is_admin : bool;
}.

Definition view_from_config (c : AccessControlConfig) (subject : option string) : AccessView :=
  let principal := match subject with
                   | Some s => mkPrincipal (Some s) (groups_for_subject c s)
                   | None => anonymous
                   end in
  mkView c principal (is_some_and (principal_subject principal) (λ s,
    existsb (λ admin, admin =b s) (admins c))).

Definition view_decide (v : AccessView) (action : string) (resource : AccessResource) : AccessDecision :=
  evaluate_access (view_config v) (view_principal v) action resource.

Definition view_allows (v : AccessView) (action : string) : bool :=
  is_allow (view_decide v action no_resource).

Definition may_perform_anywhere (v : AccessView) (action : string) : bool :=
  view_is_admin v || principal_may_perform (view_config v) (view_principal v) action.

Definition can_administer (v : AccessView) : bool :=
  if view_is_admin v then true
  else enabled (view_config v) && is_allow (view_decide v ACTION_ACCESS_ADMIN no_resource).

Definition held_approver_ids (v : AccessView) : gset string :=
  match principal_subject (view_principal v) with
  | None => ∅
  | Some subject =>
      list_to_set (fst <$> filter (λ p : string * AccessApprover,
        subject ∈ approver_subjects p.2 ∨
        Exists (λ g, g ∈ principal_groups (view_principal v)) (approver_groups p.2))
        (btree_entries (approvers (view_config v))))
  end.

Record LineageLink := mkLink {
  link_identity : string;
  link_attributes : option AgentResourceAttributes;
}.

Definition MAX_LINEAGE_DEPTH : nat := 8.

(** Cached attributes by identity, else by runtime agent id. *)
Definition resolve (cache : gmap string AgentResourceAttributes) (key : string)
  : option AgentResourceAttributes :=
  match cache !! key with
  | Some a => Some a
  | None => find_first (λ a, attr_agent_id a =b Some key) (btree_values cache)
  end.

Definition spawn_parent (lineage : list LineageLink) : option string :=
  link ← last lineage;
  a ← link_attributes link;
  label ← attr_labels a !! "spawned_by";
  trimmed_non_empty (Some label).

(** The [while] loop; [fuel] bounds its iterations. *)
Fixpoint lineage_loop (res : string → option AgentResourceAttributes) (fuel : nat)
    (visited : gset string) (lineage : list LineageLink) : list LineageLink :=
  match fuel with
  | O => lineage
  | S fuel' =>
      if (length lineage <? MAX_LINEAGE_DEPTH)%nat then
        match spawn_parent lineage with
        | None => lineage
        | Some parent =>
            let attributes := res parent in
            let parent_identity := unwrap_or (attr_identity <$> attributes) parent in
            if bool_decide (parent_identity ∈ visited) then lineage
            else lineage_loop res fuel' ({[ parent_identity ]} ∪ visited)
                   (lineage ++ [mkLink parent_identity attributes])
        end
      else lineage
  end.

Definition lineage_from_attributes (own : AgentResourceAttributes)
    (res : string → option AgentResourceAttributes) : list LineageLink :=
  lineage_loop res MAX_LINEAGE_DEPTH {[ attr_identity own ]} [mkLink (attr_identity own) (Some own)].

Definition lineage_in (cache : gmap string AgentResourceAttributes) (identity : string) : list LineageLink :=
  match resolve cache identity with
  | None => []
  | Some own => lineage_from_attributes own (resolve cache)
  end.

Definition lineage_for_attributes (cache : gmap string AgentResourceAttributes)
    (own : AgentResourceAttributes) : list LineageLink :=
  lineage_from_attributes own (resolve cache).

Definition link_resource (fallback_identity : string) (index : nat) (link : LineageLink) : AccessResource :=
  match link_attributes link with
  | Some a => mkResource (Some (attr_identity a))
                (opt_or (attr_agent_id a) (if (index =? 0)%nat then Some fallback_identity else None))
                (attr_role a) (Some (attr_labels a))
  | None => for_identity (link_identity link)
  end.

Definition decide_agent_lineage (v : AccessView) (action fallback_identity : string)
    (lineage : list LineageLink) : AccessDecision :=
  evaluate_access_lineage (view_config v) (view_principal v) action
    (imap (link_resource fallback_identity) lineage).

Definition decide_agent (v : AccessView) (cache : gmap string AgentResourceAttributes)
    (action identity : string) : AccessDecision :=
  if negb (enabled (view_config v)) then AccessAllow
  else let lineage := lineage_in cache identity in
       if is_empty lineage then view_decide v action (for_identity identity)
       else decide_agent_lineage v action identity lineage.

Definition decide_agent_with_attributes (v : AccessView) (cache : gmap string AgentResourceAttributes)
    (action : string) (a : AgentResourceAttributes) : AccessDecision :=
  if negb (enabled (view_config v)) then AccessAllow
  else decide_agent_lineage v action (attr_identity a) (lineage_for_attributes cache a).

Definition can_view_agent (v : AccessView) (cache : gmap string AgentResourceAttributes)
    (identity : string) : bool :=
  is_allow (decide_agent v cache ACTION_AGENT_VIEW identity).

Definition knows_agent (cache : gmap string AgentResourceAttributes) (identity : string) : bool :=
  is_some (cache !! identity)
  || existsb (λ a, attr_agent_id a =b Some identity) (btree_values cache).

(** [AccessDecisionFence]: the view and the attributes read-locked together. *)
Record AccessDecisionFence := mkFence {
  fence_view : AccessView;
  fence_attributes : gmap string AgentResourceAttributes;
}.

Definition fence_can_view_agent (f : AccessDecisionFence) (identity : string) : bool :=
  if negb (enabled (view_config (fence_view f))) then true
  else let lineage := lineage_in (fence_attributes f) identity in
       if is_empty lineage
       then is_allow (view_decide (fence_view f) ACTION_AGENT_VIEW (for_identity identity))
       else is_allow (decide_agent_lineage (fence_view f) ACTION_AGENT_VIEW identity lineage).

(** ** Operations of the controller *)

Section controller.
Context `{Features} `{PersistConfig}.

Definition with_edit_identity (c : AccessControlConfig) (owner : option string)
  : Result AccessController AccessConfigError :=
  let c' := (normalize_access_config_for_memory_actions c).2 in
  match validate_access_config c' with
  | Err e => Err e
  | Ok _ => Ok (mkController owner c' 0 None ∅ false 0 ∅)
  end.

(** [AccessController::load]: the parsed file content, or the parse or read
    error, then [new] and [with_persist_path]. *)
Definition load (path : string) (read : Result AccessControlConfig AccessConfigError)
    (owner : option string) : Result AccessController AccessConfigError :=
  match read with
  | Err e => Err e
  | Ok c => match with_edit_identity c owner with
            | Err e => Err e
            | Ok k => Ok (set_persist_path k (Some path))
            end
  end.

Definition join_authorization_publication (k : AccessController) : Result AccessController unit :=
  if publication_joined k then Err tt else Ok (set_publication k true (published k)).

(** [publish_owner_change]: begun only when a publication was joined. *)
Definition publish_owner_change (k : AccessController) : AccessController :=
  if publication_joined k then set_publication k true (S (published k)) else k.

Definition snapshot (k : AccessController) : AccessControlConfig * Z := (config k, revision k).

Definition commit (c : AccessControlConfig) : M AccessController AccessConfigError Z := λ k,
  match u64_checked_add (revision k) 1 with
  | None => (Err RevisionExhausted, k)
  | Some next_revision =>
      match persist_path k with
      | Some path =>
          match persist_config path c with
          | Some e => (Err e, k)
          | None => (Ok next_revision,
              set_state (publish_owner_change (set_disk k (<[path := c]> (disk k)))) c next_revision)
          end
      | None => (Ok next_revision, set_state (publish_owner_change k) c next_revision)
      end
  end.

Definition edit_and_commit (c : AccessControlConfig) (m : AccessMutation)
  : M AccessController AccessConfigError Z :=
  c' ← lift_result (apply_mutation m c);
  let c'' := (normalize_access_config_for_memory_actions c').2 in
  _ ← lift_result (validate_access_config c'');
  commit c''.

Definition mutate (m : AccessMutation) : M AccessController AccessConfigError Z := λ k,
  edit_and_commit (config k) m k.

Definition view_and_revision (k : AccessController) (subject : option string) : AccessView * Z :=
  (view_from_config (config k) subject, revision k).

Definition admin_config (k : AccessController) (subject : option string)
  : Result (AccessControlConfig * Z) AccessEditError :=
  let '(view, rev) := view_and_revision k subject in
  if negb (can_administer view) then Err Denied else Ok (view_config view, rev).

Definition admin_preview (k : AccessController) (caller target : option string)
  : Result AccessView AccessEditError :=
  let c := config k in
  if negb (can_administer (view_from_config c caller)) then Err Denied
  else Ok (view_from_config c target).

Definition check_precondition (k : AccessController) (rev : Z) (expected : option AccessEditPrecondition)
  : Result unit AccessEditError :=
  match expected with
  | None => Ok tt
  | Some p =>
      match owner_instance k with
      | None => Err Unavailable
      | Some instance =>
          if negb (instance =b expected_owner_instance p) then Err OwnerChanged
          else if negb (rev =b expected_revision p)
          then Err (RevisionConflict (expected_revision p) rev)
          else Ok tt
      end
  end.

Definition mutate_admin (subject : option string) (expected : option AccessEditPrecondition)
    (m : AccessMutation) : M AccessController AccessEditError Z := λ k,
  match admin_config k subject with
  | Err e => (Err e, k)
  | Ok (c, rev) =>
      match check_precondition k rev expected with
      | Err e => (Err e, k)
      | Ok _ => with_err ConfigError (edit_and_commit c m) k
      end
  end.

Definition decision_fence (k : AccessController) (subject : option string) : AccessDecisionFence :=
  mkFence (view_from_config (config k) subject) (attributes k).

Definition records_attributes (k : AccessController) (a : AgentResourceAttributes) : bool :=
  is_some_and (attributes k !! attr_identity a) (λ recorded, recorded =b a).

Definition record_agent_attributes (a : AgentResourceAttributes) (k : AccessController) : AccessController :=
  if str_is_empty (attr_identity a) || records_attributes k a then k
  else set_attributes (publish_owner_change k) (<[attr_identity a := a]> (attributes k)).

(** Later entries of the roster replace earlier ones with the same identity,
    as collecting into a map does. *)
Definition roster_map (l : list AgentResourceAttributes) : gmap string AgentResourceAttributes :=
  foldl (λ m a, <[attr_identity a := a]> m) ∅
    (filter (λ a, str_is_empty (attr_identity a) = false) l).

Definition replace_agent_attributes (l : list AgentResourceAttributes) (k : AccessController)
  : AccessController :=
  let next := roster_map l in
  if bool_decide (next = ∅) || bool_decide (attributes k = next) then k
  else set_attributes (publish_owner_change k) next.
End controller.

(** ** Reachable controllers *)

Section reachability.
Context `{Features} `{PersistConfig}.

Inductive controller_step : AccessController → AccessController → Prop :=
| step_mutate m k : controller_step k (mutate m k).2
| step_mutate_admin subject expected m k :
    controller_step k (mutate_admin subject expected m k).2
| step_join k k' : join_authorization_publication k = Ok k' → controller_step k k'
| step_persist_path path k : controller_step k (set_persist_path k (Some path))
| step_record a k : controller_step k (record_agent_attributes a k)
| step_replace l k : controller_step k (replace_agent_attributes l k).

Definition controller_reachable (k : AccessController) : Prop :=
  ∃ c owner k0, with_edit_identity c owner = Ok k0 ∧ rtc controller_step k0 k.

Record controller_inv (k : AccessController) : Prop := {
  inv_config : valid_config (config k);
  inv_migrated : normalize_access_config_for_memory_actions (config k) = (false, config k);
  inv_revision : is_u64 (revision k);
  inv_cache : ∀ i a, attributes k !! i = Some a → attr_identity a = i ∧ i ≠ "";
  inv_disk : ∀ path c, disk k !! path = Some c → valid_config c;
}.

Lemma publish_fields k :
  let k' := publish_owner_change k in
  config k' = config k ∧ revision k' = revision k ∧ attributes k' = attributes k ∧
  disk k' = disk k ∧ owner_instance k' = owner_instance k ∧ persist_path k' = persist_path k ∧
  publication_joined k' = publication_joined k ∧
  published k' = (published k + if publication_joined k then 1 else 0)%nat.
Proof.
  unfold publish_owner_change. destruct (publication_joined k) eqn:E; simpl;
    repeat split; rewrite ?E; lia.
Qed.

(** What an edit leaves behind, on success and on every error. *)
Record edit_committed (c : AccessControlConfig) (k k' : AccessController) (rev : Z) : Prop := {
  committed_revision : rev = revision k + 1 ∧ revision k' = rev ∧ rev ≤ U64_MAX;
  committed_config : config k' = c;
  committed_disk :
    disk k' = match persist_path k with Some path => <[path := c]> (disk k) | None => disk k end;
  committed_published :
    published k' = (published k + if publication_joined k then 1 else 0)%nat;
  committed_frame :
    attributes k' = attributes k ∧ owner_instance k' = owner_instance k ∧
    persist_path k' = persist_path k ∧ publication_joined k' = publication_joined k;
}.

Lemma commit_spec c k :
  wp (commit c) (λ r k', match r with Ok rev => edit_committed c k k' rev | Err _ => k' = k end) k.
Proof.
  unfold wp, commit, u64_checked_add. destruct (decide _) as [Hle|]; simpl; [|done].
  destruct (persist_path k) as [path|] eqn:Hp; simpl.
  - destruct (persist_config path c); simpl; [done|].
    pose proof (publish_fields (set_disk k (<[path:=c]> (disk k)))) as Hf. cbv zeta in Hf. simpl in Hf.
    destruct_and! Hf. split; simpl; rewrite ?Hp; split_and?; first [congruence|lia].
  - pose proof (publish_fields k) as Hf. cbv zeta in Hf. destruct_and! Hf.
    split; simpl; rewrite ?Hp; split_and?; first [congruence|lia].
Qed.

(** The configuration an edit would commit. *)
Definition edited (m : AccessMutation) (c : AccessControlConfig) : Result AccessControlConfig AccessConfigError :=
  match apply_mutation m c with
  | Err e => Err e
  | Ok c' => Ok (normalize_access_config_for_memory_actions c').2
  end.

Lemma edit_and_commit_spec c m k :
  wp (edit_and_commit c m) (λ r k',
    match r with
    | Ok rev => ∃ c', edited m c = Ok c' ∧ valid_config c' ∧ edit_committed c' k k' rev
    | Err _ => k' = k
    end) k.
Proof.
  unfold edit_and_commit, edited. rewrite wp_bind. unfold wp at 1, lift_result.
  destruct (apply_mutation m c) as [c'|e]; simpl; [|done].
  rewrite wp_bind. unfold wp at 1, lift_result.
  destruct (validate_access_config _) as [[]|e] eqn:Hv; simpl; [|done].
  eapply wp_mono; [apply commit_spec|]. intros [rev|e] k'; simpl; [|done].
  intros Hc. eexists. split_and!; [done| |exact Hc]. by apply validate_access_config_Ok.
Qed.

Lemma mutate_admin_spec subject expected m k :
  wp (mutate_admin subject expected m) (λ r k',
    match r with
    | Ok rev =>
        can_administer (view_from_config (config k) subject) = true ∧
        check_precondition k (revision k) expected = Ok tt ∧
        ∃ c', edited m (config k) = Ok c' ∧ valid_config c' ∧ edit_committed c' k k' rev
    | Err _ => k' = k
    end) k.
Proof.
  unfold wp, mutate_admin, admin_config, view_and_revision. simpl.
  destruct (can_administer _) eqn:Ha; simpl; [|done].
  destruct (check_precondition k (revision k) expected) as [[]|e]; simpl; [|done].
  pose proof (edit_and_commit_spec (config k) m k) as Hs. unfold wp in Hs. unfold with_err.
  destruct (edit_and_commit (config k) m k) as [[rev|e] k']; simpl in *; [|done]. naive_solver.
Qed.

Lemma edit_preserves_inv m k k' c' rev :
  controller_inv k → edited m (config k) = Ok c' → valid_config c' →
  edit_committed c' k k' rev → controller_inv k'.
Proof.
  intros [Hc Hm Hr Hca Hd] He Hv Hcom. destruct Hcom as [(-> & Hrev & Hle) Hcfg Hdisk _ (Hat & _)].
  assert (normalize_access_config_for_memory_actions c' = (false, c')) as Hmig.
  { unfold edited in He. destruct (apply_mutation m (config k)); [|done].
    injection He as <-. apply memory_migration_stable. }
  split; rewrite ?Hcfg, ?Hat; try done.
  - rewrite Hrev. destruct Hr. unfold is_u64. lia.
  - intros path c. rewrite Hdisk. destruct (persist_path k) as [p|]; [|apply Hd].
    rewrite lookup_insert_Some. intros [[_ <-]|[_ ?]]; [done|eauto].
Qed.

Lemma roster_map_keyed l i a :
  roster_map l !! i = Some a → attr_identity a = i ∧ i ≠ "".
Proof.
  unfold roster_map.
  assert (∀ m : gmap string AgentResourceAttributes,
    (∀ i a, m !! i = Some a → attr_identity a = i ∧ i ≠ "") →
    ∀ l', (∀ x, x ∈ l' → str_is_empty (attr_identity x) = false) →
    ∀ i a, foldl (λ m a, <[attr_identity a := a]> m) m l' !! i = Some a →
    attr_identity a = i ∧ i ≠ "") as Hgen.
  { intros m Hm l'. revert m Hm. induction l' as [|x l' IH]; intros m Hm Hl j b; simpl; [apply Hm|].
    apply IH; [|set_solver]. intros j' b'. rewrite lookup_insert_Some.
    intros [[<- <-]|[_ ?]]; [|eauto]. split; [done|]. apply str_is_empty_false, Hl. set_solver. }
  apply Hgen; [intros ??; by rewrite lookup_empty|].
  intros x Hx. by apply list_elem_of_filter in Hx as [? _].
Qed.

Lemma step_preserves_inv k k' : controller_step k k' → controller_inv k → controller_inv k'.
Proof.
  intros Hstep Hinv. destruct Hstep as [m k|subject expected m k|k k' Hj|path k|a k|l k].
  - pose proof (edit_and_commit_spec (config k) m k) as Hs. unfold wp in Hs. unfold mutate.
    destruct (edit_and_commit (config k) m k) as [[rev|e] k'] eqn:E; simpl in *; [|by subst].
    destruct Hs as (c' & He & Hv & Hcom). by eapply edit_preserves_inv.
  - pose proof (mutate_admin_spec subject expected m k) as Hs. unfold wp in Hs.
    destruct (mutate_admin subject expected m k) as [[rev|e] k'] eqn:E; simpl in *; [|by subst].
    destruct Hs as (_ & _ & c' & He & Hv & Hcom). by eapply edit_preserves_inv.
  - unfold join_authorization_publication in Hj. destruct (publication_joined k); [done|].
    simplify_eq. destruct Hinv. by split.
  - destruct Hinv. by split.
  - unfold record_agent_attributes. destruct (str_is_empty (attr_identity a)) eqn:Hid; simpl; [done|].
    destruct (records_attributes k a); [done|].
    pose proof (publish_fields k) as Hf. cbv zeta in Hf. destruct_and! Hf.
    destruct Hinv as [Hc Hm Hr Hca Hd]. split; simpl; try congruence.
    + intros i b. rewrite lookup_insert_Some. intros [[<- <-]|[_ ?]]; [|eauto].
      split; [done|]. by apply str_is_empty_false.
    + intros path c. replace (disk (publish_owner_change k)) with (disk k). apply Hd.
  - unfold replace_agent_attributes. case_match; [done|].
    pose proof (publish_fields k) as Hf. cbv zeta in Hf. destruct_and! Hf.
    destruct Hinv as [Hc Hm Hr Hca Hd]. split; simpl; try congruence.
    + apply roster_map_keyed.
    + intros path c. replace (disk (publish_owner_change k)) with (disk k). apply Hd.
Qed.

Lemma new_controller_inv c owner k0 : with_edit_identity c owner = Ok k0 → controller_inv k0.
Proof.
  unfold with_edit_identity. destruct (validate_access_config _) as [[]|e] eqn:Hv; [|done].
  intros [= <-]. split; simpl; try done.
  - by apply validate_access_config_Ok.
  - apply memory_migration_stable.
Qed.

Lemma reachable_inv k : controller_reachable k → controller_inv k.
Proof.
  intros (c & owner & k0 & Hnew & Hsteps). apply new_controller_inv in Hnew.
  induction Hsteps as [|k1 k2 k3 Hs _ IH]; [done|]. apply IH. by eapply step_preserves_inv.
Qed.
End reachability.

(** ** Spawn lineage *)

Section lineage.
Context (res : string → option AgentResourceAttributes).

Definition link_of_parent (parent : string) : LineageLink :=
  mkLink (unwrap_or (attr_identity <$> res parent) parent) (res parent).

(** Consecutive links follow the [spawned_by] label. *)
Definition lineage_chain (l : list LineageLink) : Prop :=
  ∀ i y, l !! S i = Some y →
    ∃ parent, spawn_parent (take (S i) l) = Some parent ∧ y = link_of_parent parent.

Lemma lineage_loop_unfold fuel visited l :
  lineage_loop res (S fuel) visited l =
  if (length l <? MAX_LINEAGE_DEPTH)%nat then
    match spawn_parent l with
    | None => l
    | Some parent =>
        let y := link_of_parent parent in
        if bool_decide (link_identity y ∈ visited) then l
        else lineage_loop res fuel ({[ link_identity y ]} ∪ visited) (l ++ [y])
    end
  else l.
Proof. done. Qed.

Lemma lineage_chain_snoc l y parent :
  lineage_chain l → spawn_parent l = Some parent → y = link_of_parent parent →
  lineage_chain (l ++ [y]).
Proof.
  intros Hc Hp -> i z Hz. destruct (decide (S i < length l)%nat) as [Hlt|Hge].
  - rewrite lookup_app_l in Hz by done. rewrite take_app_le by lia. auto.
  - assert (S i = length l) as Hi.
    { apply lookup_lt_Some in Hz. rewrite length_app in Hz. simpl in Hz. lia. }
    rewrite Hi, take_app_length. rewrite Hi, list_lookup_middle in Hz by done. naive_solver.
Qed.

Lemma lineage_loop_wf fuel visited l :
  visited = list_to_set (link_identity <$> l) →
  NoDup (link_identity <$> l) → (length l ≤ MAX_LINEAGE_DEPTH)%nat → lineage_chain l →
  let l' := lineage_loop res fuel visited l in
  l `prefix_of` l' ∧ NoDup (link_identity <$> l') ∧ (length l' ≤ MAX_LINEAGE_DEPTH)%nat ∧
  lineage_chain l'.
Proof.
  revert visited l. induction fuel as [|fuel IH]; intros visited l Hv Hnd Hlen Hch; [done|].
  rewrite lineage_loop_unfold. destruct (Nat.ltb_spec (length l) MAX_LINEAGE_DEPTH) as [Hlt|]; [|done].
  destruct (spawn_parent l) as [parent|] eqn:Hp; [|done]. cbv zeta.
  case_bool_decide as Hvis; [done|].
  destruct (IH ({[ link_identity (link_of_parent parent) ]} ∪ visited) (l ++ [link_of_parent parent]))
    as (Hpre & Hrest).
  - rewrite Hv, fmap_app, list_to_set_app_L. set_solver.
  - rewrite fmap_app. apply NoDup_app. split_and!; [done| |apply NoDup_singleton].
    subst visited. set_solver.
  - rewrite length_app. simpl. lia.
  - by eapply lineage_chain_snoc.
  - split; [|done]. etrans; [|exact Hpre]. by apply prefix_app_r.
Qed.

(** The loop ends by itself: more fuel than the depth limit changes nothing. *)
Lemma lineage_loop_fuel n m visited l :
  (MAX_LINEAGE_DEPTH ≤ n + length l)%nat → (MAX_LINEAGE_DEPTH ≤ m + length l)%nat →
  lineage_loop res n visited l = lineage_loop res m visited l.
Proof.
  revert m visited l. induction n as [|n IH]; intros m visited l Hn Hm.
  - destruct m as [|m]; [done|]. rewrite lineage_loop_unfold.
    destruct (Nat.ltb_spec (length l) MAX_LINEAGE_DEPTH); [lia|done].
  - destruct m as [|m]; [|rewrite !lineage_loop_unfold].
    { rewrite lineage_loop_unfold. destruct (Nat.ltb_spec (length l) MAX_LINEAGE_DEPTH); [lia|done]. }
    destruct (Nat.ltb_spec (length l) MAX_LINEAGE_DEPTH); [|done].
    destruct (spawn_parent l) as [parent|]; [|done]. cbv zeta. case_bool_decide; [done|].
    apply IH; rewrite length_app; simpl; lia.
Qed.
End lineage.

(** ** Properties *)

Section properties.
Context `{Features} `{PersistConfig}.

(** Every controller reachable by any sequence of edits, checked edits, path and
    publication changes and attribute updates holds a valid, migrated configuration;
    so does every file it persisted, and while enforcement is on some subject can
    administer it: no edit can lock every administrator out. *)
Theorem reachable_config_valid k :
  controller_reachable k →
  valid_config (config k) ∧
  normalize_access_config_for_memory_actions (config k) = (false, config k) ∧
  (∀ path c, disk k !! path = Some c → valid_config c) ∧
  (enabled (config k) = true →
   ∃ s, can_administer (view_from_config (config k) (Some s)) = true).
Proof.
  intros Hinv%reachable_inv. split_and!; [apply Hinv..|].
  intros Hen. destruct (valid_admins _ (inv_config _ Hinv) Hen) as (a & Ha & _).
  exists a. unfold can_administer, view_from_config. simpl.
  assert (existsb (λ admin, admin =b a) (admins (config k)) = true) as ->; [|done].
  apply existsb_elem_of. exists a. by rewrite bool_decide_eq_true.
Qed.

(** An edit is atomic. A refused edit (unknown rule, invalid result, exhausted
    revision, failed persistence) leaves the controller exactly as it was and
    publishes nothing; an accepted edit commits a valid configuration, raises the
    revision by one, persists what it committed and publishes one owner change. *)
Theorem edit_atomic m k r k' :
  mutate m k = (r, k') →
  match r with
  | Err _ => k' = k
  | Ok rev =>
      rev = revision k + 1 ∧ revision k' = rev ∧
      edited m (config k) = Ok (config k') ∧ valid_config (config k') ∧
      (∀ path, persist_path k = Some path → disk k' !! path = Some (config k')) ∧
      published k' = (published k + if publication_joined k then 1 else 0)%nat
  end.
Proof.
  intros Hm. unfold mutate in Hm.
  pose proof (wp_run _ _ _ _ _ Hm (edit_and_commit_spec (config k) m k)) as Hs.
  destruct r as [rev|e]; [|done]. destruct Hs as (c' & He & Hv & [(Hr & Hr' & _) Hc Hd Hp _]).
  subst c'. split_and!; try done. intros path Hpath. rewrite Hd, Hpath. apply lookup_insert_eq.
Qed.

(** A checked administrative edit is accepted only from a caller who administers
    the configuration in force at that moment, on the owner and revision the caller
    named; and it consumes that revision: any later checked edit with the same
    precondition is refused as a conflict and changes nothing, so no edit made
    against an older configuration is lost silently. *)
Theorem checked_edit_no_lost_update subject p m k rev k' :
  mutate_admin subject (Some p) m k = (Ok rev, k') →
  can_administer (view_from_config (config k) subject) = true ∧
  owner_instance k = Some (expected_owner_instance p) ∧ revision k = expected_revision p ∧
  ∀ subject' m', can_administer (view_from_config (config k') subject') = true →
    mutate_admin subject' (Some p) m' k' = (Err (RevisionConflict (expected_revision p) rev), k').
Proof.
  intros Hm. pose proof (wp_run _ _ _ _ _ Hm (mutate_admin_spec subject (Some p) m k)) as Hs.
  simpl in Hs. destruct Hs as (Ha & Hpre & c' & _ & _ & [(-> & Hrev & _) _ _ _ (_ & Hown & _)]).
  destruct (owner_instance k) as [inst|] eqn:Hi; [|done].
  case_bool_decide as Hinst; simpl in Hpre; [|done].
  case_bool_decide as Hr; simpl in Hpre; [|done].
  split_and!; [done|by f_equal|done|].
  intros subject' m' Ha'. unfold mutate_admin, admin_config, view_and_revision. simpl.
  rewrite Ha'. simpl. rewrite Hown, Hrev. rewrite bool_decide_eq_true_2 by done. simpl.
  rewrite bool_decide_eq_false_2 by lia. done.
Qed.

(** The spawn lineage an access decision uses starts with the agent itself,
    follows the [spawned_by] labels link by link, never repeats an identity (cycles
    stop it), has at most eight links, and is complete: the walk ended by itself. *)
Theorem lineage_well_formed own res :
  let l := lineage_from_attributes own res in
  head l = Some (mkLink (attr_identity own) (Some own)) ∧
  lineage_chain res l ∧ NoDup (link_identity <$> l) ∧ (length l ≤ MAX_LINEAGE_DEPTH)%nat ∧
  ∀ fuel, (MAX_LINEAGE_DEPTH ≤ fuel)%nat →
    lineage_loop res fuel {[ attr_identity own ]} [mkLink (attr_identity own) (Some own)] = l.
Proof.
  cbv zeta. unfold lineage_from_attributes. set (l0 := [mkLink (attr_identity own) (Some own)]).
  destruct (lineage_loop_wf res MAX_LINEAGE_DEPTH {[ attr_identity own ]} l0)
    as ([t Ht] & Hnd & Hlen & Hch).
  - unfold l0. simpl. set_solver.
  - unfold l0. simpl. apply NoDup_singleton.
  - unfold l0, MAX_LINEAGE_DEPTH. simpl. lia.
  - intros i y. unfold l0. destruct i; simpl; done.
  - split_and!; [by rewrite Ht|done..|]. intros fuel Hf. apply lineage_loop_fuel; unfold l0, MAX_LINEAGE_DEPTH in *; simpl; lia.
Qed.

(** The fenced visibility check agrees with the ordinary per-request check on
    the same configuration and attributes, for every subject and identity, so
    deciding under the fence grants neither more nor less. *)
Theorem fence_agrees_with_view k subject identity :
  fence_can_view_agent (decision_fence k subject) identity =
  can_view_agent (view_from_config (config k) subject) (attributes k) identity.
Proof.
  unfold fence_can_view_agent, can_view_agent, decide_agent, decision_fence. simpl.
  destruct (enabled _); simpl; [|done]. by destruct (is_empty _).
Qed.
End properties.

(** ** Witnesses *)

Module ControllerExamples.
#[local] Instance demo_features : Features := {| extension_state := false |}.
(** A file system that accepts every write. *)
#[local] Instance demo_persist : PersistConfig := λ _ _, None.

Definition root_config : AccessControlConfig := mkConfig true ["root@example.test"] ∅ [] ∅.
Definition k0 : AccessController :=
  mkController (Some "owner-1") root_config 0 None ∅ false 0 ∅.
Definition k1 : AccessController := set_persist_path k0 (Some "config/access.toml").
Definition view_rule : AccessRule := mkRule "view-all" None Allow [] [] ["agent.view"] [] [] ∅.
Definition k2 : AccessController := (mutate (UpsertRule view_rule) k1).2.

Lemma k1_reachable : controller_reachable k1.
Proof.
  exists root_config, (Some "owner-1"), k0. split; [vm_compute; reflexivity|].
  apply rtc_once, step_persist_path.
Defined.

Lemma reachable_config_valid_witness :
  ∃ s, can_administer (view_from_config (config k1) (Some s)) = true.
Proof.
  destruct (reachable_config_valid k1 k1_reachable) as (_ & _ & _ & Hadmin).
  apply Hadmin. reflexivity.
Defined.

Lemma edit_atomic_witness :
  disk k2 !! "config/access.toml" = Some (config k2) ∧ revision k2 = 1.
Proof.
  assert (mutate (UpsertRule view_rule) k1 = (Ok 1, k2)) as Hrun by (vm_compute; reflexivity).
  destruct (edit_atomic (UpsertRule view_rule) k1 (Ok 1) k2 Hrun) as (_ & Hrev & _ & _ & Hdisk & _).
  split; [apply Hdisk; reflexivity|exact Hrev].
Defined.

Lemma checked_edit_no_lost_update_witness :
  let p := mkPrecondition "owner-1" 0 in
  (mutate_admin (Some "root@example.test") (Some p) (SetEnabled false) k2).1 =
  Err (RevisionConflict 0 1).
Proof.
  assert (mutate_admin (Some "root@example.test") (Some (mkPrecondition "owner-1" 0))
    (UpsertRule view_rule) k1 = (Ok 1, k2)) as Hrun by (vm_compute; reflexivity).
  destruct (checked_edit_no_lost_update (Some "root@example.test") (mkPrecondition "owner-1" 0)
    (UpsertRule view_rule) k1 1 k2 Hrun) as (_ & _ & _ & Hconf).
  cbv zeta. rewrite (Hconf (Some "root@example.test") (SetEnabled false)); [reflexivity|].
  vm_compute. reflexivity.
Defined.

(** A two-agent spawn cycle. *)
Definition spawned (id parent : string) : AgentResourceAttributes :=
  mkAttributes id None None {[ "spawned_by" := parent ]}.
Definition cycle : gmap string AgentResourceAttributes :=
  {[ "a" := spawned "a" " b "; "b" := spawned "b" "a" ]}.
Example lineage_of_cycle : link_identity <$> lineage_in cycle "a" = ["a"; "b"].
Proof. vm_compute. reflexivity. Qed.
End ControllerExamples.
