(* ===== verification/MemoryLedger.v ===== *)
(** * The operational memory ledger ([runtime/memory.rs], its load in [runtime/bootstrap.rs])

    Assertions and conflict signals are indexed under canonical tokens, kept
    within a bound, written to the configured backend before the operation
    answers, and rolled back when that write fails.  At start the persisted
    ledger is normalized the same way. *)

From S2P Require Import Prelude Strings Json RuntimeTypes.
Open Scope Z_scope.

Definition MEMORY_ASSERTIONS_MAX_RETAINED : nat := 4096.
Definition MEMORY_SUPPORTED_STORES : list string := ["knowledge_graph"; "vector"; "timeline"; "todo"; "top_of_mind"].

Definition canonical_memory_token (raw : string) : option string :=
  let token := to_ascii_lowercase (trim raw) in
  if str_is_empty token then None else Some token.

Definition canonical_memory_store (raw : string) : option string :=
  store ← canonical_memory_token raw;
  if existsb (λ s, s =b store) MEMORY_SUPPORTED_STORES then Some store else None.

Definition default_memory_store : string := "knowledge_graph".

Definition memory_conflict_for_reference (s : MetaRuntimeHandle) (entity topic : option string) :
    option MemoryConflictSignal :=
  let canonical_entity := entity ≫= canonical_memory_token in
  let canonical_topic := topic ≫= canonical_memory_token in
  let signals := btree_values (memory_conflicts (memory s)) in
  match canonical_entity, canonical_topic with
  | Some entity, Some topic =>
      find_first (λ signal, (signal_entity signal =b entity) && (signal_topic signal =b topic)) signals
  | Some entity, None => find_first (λ signal, signal_entity signal =b entity) signals
  | None, Some topic => find_first (λ signal, signal_topic signal =b topic) signals
  | None, None => None
  end.

Record MemoryStoreInfo := mkStoreInfo {
  info_store : string;
  record_count : nat;
}.

Definition memory_stores (s : MetaRuntimeHandle) : list MemoryStoreInfo :=
  map (λ store, mkStoreInfo store
         (length (List.filter (λ a, assertion_store a =b store) (memory_assertions (memory s)))
          + length (List.filter (λ c, signal_store c =b store) (btree_values (memory_conflicts (memory s))))))
      MEMORY_SUPPORTED_STORES.

(** The state [persist_memory_state] writes. *)
Definition persisted_state (m : MemoryState) : PersistedMemoryState :=
  mkPersisted (memory_assertions m) (btree_values (memory_conflicts m)).

Definition memory_assertion_id (sequence : Z) : string := "memory-assert-" +:+ fmt06 sequence.

Section ledger.
Context `{RuntimeEnv}.

Definition persist_memory_state : M MetaRuntimeHandle MemoryIndexError unit :=
  λ s,
    match memory_backend (memory s) with
    | None => (Ok tt, s)
    | Some backend =>
        (match ledger_write (world_step s) backend (persisted_state (memory s)) with
         | None => Ok tt
         | Some e => Err (BackendPersistFailed e)
         end, tick s)
    end.

(** Persist; on failure put the saved fields back and return the error. *)
Definition persist_or_rollback (previous : MemoryState) : M MetaRuntimeHandle MemoryIndexError unit :=
  λ s, match persist_memory_state s with
       | (Ok _, s') => (Ok tt, s')
       | (Err error, s') =>
           (Err error,
            s' <| memory := (memory s') <| memory_assertions := memory_assertions previous |>
                              <| memory_conflicts := memory_conflicts previous |>
                              <| memory_sequence := memory_sequence previous |> |>)
       end.

(** Push an assertion under the next id and drop the oldest above the bound. *)
Definition push_assertion (entity topic store fact : string) (metadata : option Value)
    (s : MetaRuntimeHandle) : string * MetaRuntimeHandle :=
  let (assertion_sequence, next) := next_sequence (memory_sequence (memory s)) in
  let s := s <| memory := (memory s) <| memory_sequence := next |> |> in
  let id := memory_assertion_id assertion_sequence in
  let (now, s) := current_time_ms s in
  let assertion := mkAssertion id entity topic store fact metadata now in
  (id, s <| memory := (memory s) <| memory_assertions :=
         shrink_front MEMORY_ASSERTIONS_MAX_RETAINED (memory_assertions (memory s) ++ [assertion]) |> |>).

Definition raise_conflict (entity topic store : string) (conflict_reason : option string)
    (s : MetaRuntimeHandle) : MetaRuntimeHandle :=
  let (now, s) := current_time_ms s in
  s <| memory := (memory s) <| memory_conflicts :=
         <[mkConflictKey entity topic store :=
             mkSignal entity topic store (trimmed_non_empty conflict_reason) now]>
           (memory_conflicts (memory s)) |> |>.

(** The canonical entity, topic, store and fact of a request. *)
Definition index_arguments (request : MemoryIndexRequest) :
    Result (string * string * string * option string) MemoryIndexError :=
  entity ←? ok_or (canonical_memory_token (index_entity request)) EntityRequired;
  topic ←? ok_or (canonical_memory_token (index_topic request)) TopicRequired;
  store ←? match index_store request with
           | None => Ok default_memory_store
           | Some raw_store => ok_or (canonical_memory_store raw_store) (UnsupportedStore (trim raw_store))
           end;
  let fact := trimmed_non_empty (index_fact request) in
  if is_none fact && negb (unwrap_or (index_conflict request) false)
  then Err FactRequiredWhenConflictUnset
  else Ok (entity, topic, store, fact).

Definition memory_index (request : MemoryIndexRequest) : M MetaRuntimeHandle MemoryIndexError MemoryIndexResult :=
  arguments ← lift_result (index_arguments request);
  let '(entity, topic, store, fact) := arguments in
  let conflict := unwrap_or (index_conflict request) false in
  previous ← gets memory;
  assertion_id ← match fact with
                 | Some fact =>
                     id ← lift_state (push_assertion entity topic store fact (index_metadata request));
                     mret (Some id)
                 | None => mret None
                 end;
  _ ← modify (λ s, if conflict then raise_conflict entity topic store (index_conflict_reason request) s else s);
  _ ← persist_or_rollback previous;
  conflict_active ← gets (λ s, is_some (memory_conflict_for_reference s (Some entity) (Some topic)));
  mret (mkIndexResult entity topic store assertion_id conflict_active).
End ledger.

(** ** Queries *)

Definition assertion_matches_query (query : option string) (a : MemoryAssertion) : bool :=
  is_none_or query (λ needle,
    str_contains needle (assertion_entity a) || str_contains needle (assertion_topic a)
    || str_contains needle (to_ascii_lowercase (fact a))).

Definition conflict_matches_query (query : option string) (c : MemoryConflictSignal) : bool :=
  is_none_or query (λ needle,
    str_contains needle (signal_entity c) || str_contains needle (signal_topic c)
    || is_some_and (reason c) (λ r, str_contains needle (to_ascii_lowercase r))).

Definition memory_query (s : MetaRuntimeHandle) (request : MemoryQueryRequest) : MemoryQueryResult :=
  let entity := query_entity request ≫= canonical_memory_token in
  let topic := query_topic request ≫= canonical_memory_token in
  let store := query_store request ≫= canonical_memory_store in
  let query := query_text request ≫= canonical_memory_token in
  mkQueryResult
    (List.filter (assertion_matches_query query)
       (List.filter (λ a, is_none_or store (λ v, assertion_store a =b v))
          (List.filter (λ a, is_none_or topic (λ v, assertion_topic a =b v))
             (List.filter (λ a, is_none_or entity (λ v, assertion_entity a =b v))
                (memory_assertions (memory s))))))
    (List.filter (conflict_matches_query query)
       (List.filter (λ c, is_none_or store (λ v, signal_store c =b v))
          (List.filter (λ c, is_none_or topic (λ v, signal_topic c =b v))
             (List.filter (λ c, is_none_or entity (λ v, signal_entity c =b v))
                (btree_values (memory_conflicts (memory s))))))).

(** ** Loading the ledger at start ([bootstrap.rs]) *)

Definition from_config (config : LocalJsonMemoryBackendConfig) :
    Result LocalJsonMemoryStoreAdapter LocalJsonMemoryStoreError :=
  endpoint ←? match config_health_check_endpoint config with
              | None => Ok None
              | Some raw =>
                  let endpoint := trim raw in
                  if str_is_empty endpoint
                  then Err (InvalidConfig "memory backend health_check_endpoint must not be empty when provided")
                  else Ok (Some endpoint)
              end;
  let state_path := trim (config_state_path config) in
  if str_is_empty state_path then Err (InvalidConfig "memory backend state_path must not be empty")
  else Ok (mkLedger endpoint state_path).

Definition load_assertion (a : MemoryAssertion) : option MemoryAssertion :=
  entity ← canonical_memory_token (assertion_entity a);
  topic ← canonical_memory_token (assertion_topic a);
  store ← canonical_memory_store (assertion_store a);
  let trimmed_fact := trim (fact a) in
  if str_is_empty trimmed_fact then None
  else Some (mkAssertion (assertion_id a) entity topic store trimmed_fact (metadata a) (indexed_at_ms a)).

Definition load_conflict (c : MemoryConflictSignal) : option (MemoryConflictKey * MemoryConflictSignal) :=
  entity ← canonical_memory_token (signal_entity c);
  topic ← canonical_memory_token (signal_topic c);
  store ← canonical_memory_store (signal_store c);
  Some (mkConflictKey entity topic store,
        mkSignal entity topic store (trimmed_non_empty (reason c)) (updated_at_ms c)).

Definition parse_memory_assertion_sequence (id : string) : option Z :=
  suffix ← strip_prefix "memory-assert-" id; parse_u64 suffix.

(** [iter().filter_map(f).max()] *)
Definition max_sequence (l : list Z) : option Z :=
  match l with [] => None | x :: l' => Some (foldl Z.max x l') end.

Definition load_memory_state (persisted : PersistedMemoryState) (backend : option LocalJsonMemoryStoreAdapter) : MemoryState :=
  let assertions := shrink_front MEMORY_ASSERTIONS_MAX_RETAINED (omap load_assertion (persisted_assertions persisted)) in
  let conflicts :=
    foldl (λ m c, match load_conflict c with Some (k, v) => <[k := v]> m | None => m end) ∅
      (persisted_conflicts persisted) in
  let sequence :=
    match max_sequence (omap (λ a, parse_memory_assertion_sequence (assertion_id a)) assertions) with
    | Some last_sequence => u64_saturating_add last_sequence 1
    | None => Z.of_nat (length assertions)
    end in
  mkMemory sequence assertions conflicts backend.

(** ** Canonical tokens *)

Definition token_ok (t : string) : Prop := canonical_memory_token t = Some t.
Definition store_ok (t : string) : Prop := canonical_memory_store t = Some t.
Definition text_ok (t : string) : Prop := trim t = t ∧ t ≠ "".

Lemma canonical_token_ok raw t : canonical_memory_token raw = Some t → token_ok t.
Proof.
  unfold token_ok, canonical_memory_token. destruct (str_is_empty (to_ascii_lowercase (trim raw))) eqn:E; [done|].
  intros [= <-]. autorewrite with meta. by rewrite E.
Qed.

Lemma canonical_store_Some raw t :
  canonical_memory_store raw = Some t ↔ canonical_memory_token raw = Some t ∧ t ∈ MEMORY_SUPPORTED_STORES.
Proof.
  unfold canonical_memory_store. destruct (canonical_memory_token raw) as [u|]; cbn [mbind option_bind]; [|naive_solver].
  destruct (existsb _ _) eqn:E.
  - apply existsb_elem_of in E as (x & Hx & ->%bool_decide_eq_true). naive_solver.
  - rewrite existsb_false in E. split; [done|]. intros [[= <-] Hin]. specialize (E _ Hin).
    by rewrite bool_decide_eq_true_2 in E.
Qed.

Lemma canonical_store_ok raw t : canonical_memory_store raw = Some t → store_ok t.
Proof.
  unfold store_ok. rewrite !canonical_store_Some. intros [Ht Hin]. split; [|done]. by eapply canonical_token_ok.
Qed.

Lemma store_ok_supported t : store_ok t → t ∈ MEMORY_SUPPORTED_STORES.
Proof. unfold store_ok. by intros [_ ?]%canonical_store_Some. Qed.

(** ** The invariant of the ledger *)

Record assertion_ok (a : MemoryAssertion) : Prop := {
  ao_entity : token_ok (assertion_entity a);
  ao_topic : token_ok (assertion_topic a);
  ao_store : store_ok (assertion_store a);
  ao_fact : text_ok (fact a);
}.

Record signal_ok (k : MemoryConflictKey) (c : MemoryConflictSignal) : Prop := {
  so_key : k = mkConflictKey (signal_entity c) (signal_topic c) (signal_store c);
  so_entity : token_ok (signal_entity c);
  so_topic : token_ok (signal_topic c);
  so_store : store_ok (signal_store c);
  so_reason : ∀ r, reason c = Some r → text_ok r;
}.

(** Until the sequence saturates, it is above every id in the ledger. *)
Record memory_inv (m : MemoryState) : Prop := {
  mi_bound : (length (memory_assertions m) ≤ MEMORY_ASSERTIONS_MAX_RETAINED)%nat;
  mi_assertions : Forall assertion_ok (memory_assertions m);
  mi_conflicts : map_Forall signal_ok (memory_conflicts m);
  mi_sequence : is_u64 (memory_sequence m);
  mi_fresh : memory_sequence m < U64_MAX →
    Forall (λ a, ∀ n, parse_memory_assertion_sequence (assertion_id a) = Some n → n < memory_sequence m)
      (memory_assertions m);
}.

Lemma trimmed_text_ok o r : trimmed_non_empty o = Some r → text_ok r.
Proof. apply trimmed_non_empty_Some. Qed.

Lemma parse_assertion_id n : is_u64 n → parse_memory_assertion_sequence (memory_assertion_id n) = Some n.
Proof.
  intros Hn. unfold parse_memory_assertion_sequence, memory_assertion_id. rewrite strip_prefix_app. simpl.
  by apply fmt06_parse.
Qed.

Lemma index_arguments_Ok request entity topic store f :
  index_arguments request = Ok (entity, topic, store, f) →
  canonical_memory_token (index_entity request) = Some entity ∧
  canonical_memory_token (index_topic request) = Some topic ∧
  store_ok store ∧ f = trimmed_non_empty (index_fact request) ∧
  (f ≠ None ∨ index_conflict request = Some true).
Proof.
  unfold index_arguments.
  intros (e & He & (t & Ht & (st & Hs & H)%and_then_Ok)%and_then_Ok)%and_then_Ok.
  destruct (canonical_memory_token (index_entity request)) eqn:E1; simplify_eq/=.
  destruct (canonical_memory_token (index_topic request)) eqn:E2; simplify_eq/=.
  assert (Hst : store_ok st).
  { destruct (index_store request) as [raw|]; [|injection Hs as <-; by vm_compute].
    destruct (canonical_memory_store raw) eqn:E3; simplify_eq/=. by eapply canonical_store_ok. }
  destruct (trimmed_non_empty (index_fact request)) as [g|] eqn:Ef; simplify_eq/=.
  - split_and!; [done..|]. by left.
  - destruct (index_conflict request) as [[]|]; simplify_eq/=. split_and!; [done..|]. by right.
Qed.

Section ledger_theorems.
Context `{RuntimeEnv}.

(** The new assertion and signal of a request, at the instants they are made. *)
Definition new_assertion (request : MemoryIndexRequest) (entity topic store f : string) (seqn now : Z) : MemoryAssertion :=
  mkAssertion (memory_assertion_id seqn) entity topic store f (index_metadata request) now.

(** What a request adds to a ledger. *)
Definition indexed (request : MemoryIndexRequest) (entity topic store : string) (f : option string)
    (t1 t2 : Z) (m : MemoryState) : MemoryState :=
  mkMemory
    (if f then u64_saturating_add (memory_sequence m) 1 else memory_sequence m)
    (match f with
     | Some f => shrink_front MEMORY_ASSERTIONS_MAX_RETAINED
                   (memory_assertions m ++ [new_assertion request entity topic store f (memory_sequence m) t1])
     | None => memory_assertions m
     end)
    (if unwrap_or (index_conflict request) false
     then <[mkConflictKey entity topic store :=
              mkSignal entity topic store (trimmed_non_empty (index_conflict_reason request)) t2]> (memory_conflicts m)
     else memory_conflicts m)
    (memory_backend m).

Definition index_outcome (request : MemoryIndexRequest) (s : MetaRuntimeHandle)
    (r : Result MemoryIndexResult MemoryIndexError) (s' : MetaRuntimeHandle) : Prop :=
  match r with
  | Err _ => s' = s <| world_step := world_step s' |>
  | Ok res =>
      ∃ entity topic store f t1 t2,
        index_arguments request = Ok (entity, topic, store, f) ∧
        s' = s <| memory := indexed request entity topic store f t1 t2 (memory s) |> <| world_step := world_step s' |> ∧
        (∀ b, memory_backend (memory s) = Some b → ∃ n, ledger_write n b (persisted_state (memory s')) = None) ∧
        res = mkIndexResult entity topic store
                (if f then Some (memory_assertion_id (memory_sequence (memory s))) else None)
                (is_some (memory_conflict_for_reference s' (Some entity) (Some topic)))
  end.

Lemma persist_or_rollback_wp previous s Q :
  (∀ e, Q (Err e) (s <| memory := mkMemory (memory_sequence previous) (memory_assertions previous)
                                    (memory_conflicts previous) (memory_backend (memory s)) |>
                     <| world_step := S (world_step s) |>)) →
  (∀ w, (∀ b, memory_backend (memory s) = Some b → ∃ n, ledger_write n b (persisted_state (memory s)) = None) →
        Q (Ok tt) (s <| world_step := w |>)) →
  wp (persist_or_rollback previous) Q s.
Proof.
  intros Herr Hok. unfold wp, persist_or_rollback, persist_memory_state.
  destruct (memory_backend (memory s)) as [b|] eqn:Hb.
  - destruct (ledger_write _ _ _) as [e|] eqn:Hw; simpl.
    + specialize (Herr (BackendPersistFailed e)). rewrite <- Hb in Herr. exact Herr.
    + apply Hok. intros b' [= <-]. eauto.
  - specialize (Hok (world_step s)). simpl. destruct s. apply Hok. done.
Qed.

Lemma memory_index_outcome request s : wp (memory_index request) (index_outcome request s) s.
Proof.
  unfold memory_index. do 2 wp_step.
  destruct (index_arguments request) as [[[[entity topic] store] f]|e] eqn:Ha; [|by destruct s].
  do 2 wp_step.
  assert (Hend : ∀ t1 t2 s2,
    memory s2 = indexed request entity topic store f t1 t2 (memory s) →
    s2 = s <| memory := memory s2 |> <| world_step := world_step s2 |> →
    let id := if f then Some (memory_assertion_id (memory_sequence (memory s))) else None in
    wp (persist_or_rollback (memory s) ≫= λ _ : unit,
        gets (λ s, is_some (memory_conflict_for_reference s (Some entity) (Some topic))) ≫= λ conflict_active,
        mret (mkIndexResult entity topic store id conflict_active)) (index_outcome request s) s2).
  { intros t1 t2 s2 Hm Hs2 id. wp_step. apply persist_or_rollback_wp.
    - intros e. unfold index_outcome. rewrite Hm, Hs2. by destruct s as [? ? ? ? ? ? ? []].
    - intros w Hw. do 3 wp_step. exists entity, topic, store, f, t1, t2. split_and!; [done| | |done].
      + rewrite Hs2, Hm. done.
      + intros b Hb. apply Hw. by rewrite Hm. }
  destruct f as [f|].
  - wp_step. do 3 wp_step. do 2 wp_step.
    destruct (unwrap_or (index_conflict request) false) eqn:Hc.
    + eapply Hend; [|done]. unfold indexed, raise_conflict, push_assertion, next_sequence, current_time_ms. rewrite Hc. done.
    + eapply (Hend _ 0); [|done]. unfold indexed, push_assertion, next_sequence, current_time_ms. rewrite Hc. done.
  - do 2 wp_step. do 2 wp_step.
    destruct (unwrap_or (index_conflict request) false) eqn:Hc.
    + eapply (Hend 0); [|by destruct s]. unfold indexed, raise_conflict, current_time_ms. rewrite Hc. by destruct s as [? ? ? ? ? ? ? []].
    + eapply (Hend 0 0); [|by destruct s]. unfold indexed. rewrite Hc. by destruct s as [? ? ? ? ? ? ? []].
Qed.

Lemma indexed_inv request entity topic store f t1 t2 m :
  index_arguments request = Ok (entity, topic, store, f) →
  memory_inv m → memory_inv (indexed request entity topic store f t1 t2 m).
Proof.
  intros Ha [Hb Has Hcs Hseq Hfr].
  apply index_arguments_Ok in Ha as (He%canonical_token_ok & Ht%canonical_token_ok & Hst & Hf & _).
  assert (Hnew : ∀ g, f = Some g → assertion_ok (new_assertion request entity topic store g (memory_sequence m) t1)).
  { intros g ->. split; [done..|]. by eapply trimmed_text_ok. }
  split; cbn [indexed memory_assertions memory_conflicts memory_sequence].
  - destruct f; [auto with meta|done].
  - destruct f as [g|]; [|done]. rewrite shrink_front_drop. apply Forall_drop, Forall_app. split; [done|].
    apply Forall_singleton. by apply Hnew.
  - destruct (unwrap_or (index_conflict request) false); [|done]. apply map_Forall_insert_2; [|done].
    split; try done. simpl. intros r. apply trimmed_text_ok.
  - destruct f; [|done]. unfold is_u64, u64_saturating_add in *. lia.
  - destruct f as [g|]; [|done]. intros Hlt. rewrite shrink_front_drop. apply Forall_drop.
    assert (Hlt0 : memory_sequence m < U64_MAX) by (unfold u64_saturating_add, is_u64 in *; lia).
    assert (Hs : u64_saturating_add (memory_sequence m) 1 = memory_sequence m + 1) by (unfold u64_saturating_add in *; lia).
    rewrite Hs. apply Forall_app. split.
    + eapply Forall_impl; [by apply Hfr|]. simpl. intros a Ha n Hn. apply Ha in Hn. lia.
    + apply Forall_singleton. simpl. intros n. rewrite parse_assertion_id by done. intros [= <-]. lia.
Qed.

(** Indexing is atomic.  When it is refused, or the backend cannot be
    written, the ledger and the rest of the runtime are exactly as before.
    When it succeeds, the backend (if there is one) was written with exactly
    the ledger that is now in memory, that ledger is the old one plus what
    was asked for, and the ledger invariant (at most 4096 assertions,
    canonical tokens, supported stores, each signal under its own key, ids
    below the sequence) is kept. *)
Theorem memory_index_atomic s request :
  memory_inv (memory s) →
  wp (memory_index request) (λ r s',
    memory_inv (memory s') ∧ s' = s <| memory := memory s' |> <| world_step := world_step s' |> ∧
    match r with
    | Err _ => memory s' = memory s
    | Ok res =>
        ∃ f t1 t2,
          memory s' = indexed request (result_entity res) (result_topic res) (result_store res) f t1 t2 (memory s) ∧
          f = trimmed_non_empty (index_fact request) ∧
          ∀ b, memory_backend (memory s) = Some b → ∃ n, ledger_write n b (persisted_state (memory s')) = None
    end) s.
Proof.
  intros Hinv. eapply wp_mono; [apply memory_index_outcome|].
  intros [res|e] s'; cbn [index_outcome].
  - intros (entity & topic & store & f & t1 & t2 & Ha & Hs' & Hw & ->).
    pose proof (indexed_inv _ _ _ _ _ t1 t2 _ Ha Hinv) as Hinv'.
    assert (Hm : memory s' = indexed request entity topic store f t1 t2 (memory s)) by (by rewrite Hs').
    rewrite Hm. split; [done|]. split; [by rewrite Hs' at 1|]. exists f, t1, t2.
    apply index_arguments_Ok in Ha as (_ & _ & _ & Hf & _). rewrite <- Hm. done.
  - intros Hs'. assert (Hm : memory s' = memory s) by (by rewrite Hs'). rewrite Hm.
    split; [done|]. split; [|done]. rewrite Hs' at 1. by destruct s.
Qed.

(** What was indexed is found again.  After a fact is indexed, a query for
    its entity, topic and store, each in any spelling with the same canonical
    form, returns it.  After a conflict is raised, the conflict lookup that
    guards consequential actions finds a signal for that entity and topic,
    whatever their spelling, and the result says so. *)
Theorem indexed_is_found s request res s' :
  memory_index request s = (Ok res, s') →
  (∀ g e t st, trimmed_non_empty (index_fact request) = Some g →
     canonical_memory_token e = canonical_memory_token (index_entity request) →
     canonical_memory_token t = canonical_memory_token (index_topic request) →
     canonical_memory_store st = Some (result_store res) →
     ∃ a, a ∈ result_assertions (memory_query s' (mkQueryRequest (Some e) (Some t) (Some st) None)) ∧
       result_assertion_id res = Some (assertion_id a) ∧ fact a = g ∧ metadata a = index_metadata request) ∧
  (∀ e t, index_conflict request = Some true →
     canonical_memory_token e = canonical_memory_token (index_entity request) →
     canonical_memory_token t = canonical_memory_token (index_topic request) →
     conflict_active res = true ∧ is_Some (memory_conflict_for_reference s' (Some e) (Some t))).
Proof.
  intros Hrun. pose proof (wp_run _ _ _ _ _ Hrun (memory_index_outcome request s)) as Ho.
  cbn [index_outcome] in Ho. destruct Ho as (entity & topic & store & f & t1 & t2 & Ha & Hs' & _ & ->).
  apply index_arguments_Ok in Ha as (He & Ht & Hst & Hf & _).
  assert (Hm : memory s' = indexed request entity topic store f t1 t2 (memory s)) by (by rewrite Hs'). split.
  - intros g e t st Hg Ee Et Est. rewrite Hf, Hg in Hm. simpl in Est.
    exists (new_assertion request entity topic store g (memory_sequence (memory s)) t1).
    split; [|rewrite Hf, Hg; done]. unfold memory_query. cbn [query_entity query_topic query_store query_text mbind option_bind].
    rewrite Ee, He, Et, Ht, Est, Hm. cbn [result_assertions].
    rewrite !list_elem_of_In, !filter_In, <- list_elem_of_In.
    split_and!; [|by apply bool_decide_eq_true_2..|done].
    apply last_in_shrink_front. unfold MEMORY_ASSERTIONS_MAX_RETAINED. lia.
  - intros e t Hc Ee Et.
    assert (Hfound : ∀ e t, canonical_memory_token e = Some entity → canonical_memory_token t = Some topic →
      is_Some (memory_conflict_for_reference s' (Some e) (Some t))).
    { intros e0 t0 E1 E2. unfold memory_conflict_for_reference. cbn [mbind option_bind]. rewrite E1, E2, Hm.
      eapply find_first_is_Some.
      - apply elem_of_btree_values. exists (mkConflictKey entity topic store).
        cbn [indexed memory_conflicts]. rewrite Hc. cbn [unwrap_or]. by rewrite lookup_insert_eq.
      - simpl. by rewrite !bool_decide_eq_true_2. }
    split; [|apply Hfound; congruence]. simpl.
    destruct (Hfound entity topic) as [c ->]; [by eapply canonical_token_ok..|]. done.
Qed.
End ledger_theorems.

(** ** Loading *)

Lemma load_assertion_ok a a' : load_assertion a = Some a' → assertion_ok a'.
Proof.
  unfold load_assertion.
  destruct (canonical_memory_token (assertion_entity a)) eqn:E1; [|done]. cbn [mbind option_bind].
  destruct (canonical_memory_token (assertion_topic a)) eqn:E2; [|done]. cbn [mbind option_bind].
  destruct (canonical_memory_store (assertion_store a)) eqn:E3; [|done]. cbn [mbind option_bind].
  destruct (str_is_empty (trim (fact a))) eqn:E4; [done|]. intros [= <-].
  split; simpl; [by eapply canonical_token_ok..|by eapply canonical_store_ok|].
  split; [apply trim_idemp|by apply str_is_empty_false].
Qed.

Lemma load_assertion_id a : assertion_ok a → load_assertion a = Some a.
Proof.
  intros [He Ht Hs [Hf Hne]]. unfold load_assertion, token_ok, store_ok in *. rewrite He, Ht, Hs. cbn [mbind option_bind].
  rewrite Hf. apply str_is_empty_false in Hne. rewrite Hne. by destruct a.
Qed.

Lemma load_conflict_ok c k c' : load_conflict c = Some (k, c') → signal_ok k c'.
Proof.
  unfold load_conflict.
  destruct (canonical_memory_token (signal_entity c)) eqn:E1; [|done]. cbn [mbind option_bind].
  destruct (canonical_memory_token (signal_topic c)) eqn:E2; [|done]. cbn [mbind option_bind].
  destruct (canonical_memory_store (signal_store c)) eqn:E3; [|done]. cbn [mbind option_bind]. intros [= <- <-].
  split; simpl; [done|by eapply canonical_token_ok..|by eapply canonical_store_ok|]. intros r. apply trimmed_text_ok.
Qed.

Lemma load_conflict_id k c : signal_ok k c → load_conflict c = Some (k, c).
Proof.
  intros [-> He Ht Hs Hr]. unfold load_conflict, token_ok, store_ok in *. rewrite He, Ht, Hs. cbn [mbind option_bind].
  assert (trimmed_non_empty (reason c) = reason c) as ->; [|by destruct c].
  destruct (reason c) as [r|]; [|done]. destruct (Hr r eq_refl) as [Htr Hne]. unfold trimmed_non_empty. simpl.
  rewrite Htr. apply str_is_empty_false in Hne. by rewrite Hne.
Qed.

Definition insert_loaded (m : gmap MemoryConflictKey MemoryConflictSignal) (c : MemoryConflictSignal) :=
  match load_conflict c with Some (k, v) => <[k := v]> m | None => m end.

Lemma load_conflicts_ok m l : map_Forall signal_ok m → map_Forall signal_ok (foldl insert_loaded m l).
Proof.
  revert m. induction l as [|c l IH]; intros m Hm; [done|]. simpl. apply IH. unfold insert_loaded.
  destruct (load_conflict c) as [[k v]|] eqn:E; [|done]. apply map_Forall_insert_2; [|done]. by eapply load_conflict_ok.
Qed.

(** Loading the entries of a well-formed map, in any order, rebuilds it. *)
Lemma load_conflicts_entries m0 (l : list (MemoryConflictKey * MemoryConflictSignal)) :
  Forall (λ p, signal_ok p.1 p.2) l → NoDup l.*1 →
  foldl insert_loaded m0 l.*2 = list_to_map l ∪ m0.
Proof.
  intros Hl. revert m0. induction Hl as [|[k c] l Hc Hl IH]; intros m0 Hnd; simpl; [by rewrite (left_id_L ∅ (∪))|].
  apply NoDup_cons in Hnd as [Hk Hnd]. rewrite IH by done. unfold insert_loaded. rewrite (load_conflict_id k c) by done.
  rewrite <- insert_union_l. symmetry. apply insert_union_r. by apply not_elem_of_list_to_map_1.
Qed.

Lemma max_sequence_spec l : 
  match max_sequence l with
  | None => l = []
  | Some m => m ∈ l ∧ ∀ x, x ∈ l → x ≤ m
  end.
Proof.
  destruct l as [|x l]; [done|]. simpl. revert x. induction l as [|y l IH]; intros x; simpl.
  - split; [set_solver|]. intros z ->%list_elem_of_singleton. lia.
  - destruct (IH (Z.max x y)) as [Hin Hmax]. split.
    + apply elem_of_cons in Hin as [->|Hin]; [|set_solver]. destruct (Z.max_spec x y) as [[_ ->]|[_ ->]]; set_solver.
    + intros z. rewrite !elem_of_cons. assert (Z.max x y ≤ foldl Z.max (Z.max x y) l) by (apply Hmax; set_solver).
      intros [->|[->|Hz]]; [lia..|]. apply Hmax. set_solver.
Qed.

(** Whatever is found in the file is bounded and canonical once loaded. *)
Lemma load_memory_state_inv p b : memory_inv (load_memory_state p b).
Proof.
  set (l := shrink_front MEMORY_ASSERTIONS_MAX_RETAINED (omap load_assertion (persisted_assertions p))).
  set (ids := omap (λ a, parse_memory_assertion_sequence (assertion_id a)) l).
  assert (Hids : ∀ n, n ∈ ids → is_u64 n).
  { intros n (a & _ & Ha)%list_elem_of_omap. unfold parse_memory_assertion_sequence in Ha.
    destruct (strip_prefix _ (assertion_id a)); [|done]. by eapply parse_u64_range. }
  pose proof (max_sequence_spec ids) as Hmax. pose proof (length_shrink_front MEMORY_ASSERTIONS_MAX_RETAINED
    (omap load_assertion (persisted_assertions p))) as Hlen. fold l in Hlen.
  split; cbn [load_memory_state memory_assertions memory_conflicts memory_sequence]; fold l.
  - done.
  - unfold l. rewrite shrink_front_drop. apply Forall_drop, Forall_forall.
    intros a (a0 & _ & Ha)%list_elem_of_omap. by eapply load_assertion_ok.
  - apply load_conflicts_ok. apply map_Forall_empty.
  - fold ids. destruct (max_sequence ids) as [mx|].
    + destruct Hmax as [Hin%Hids _]. unfold is_u64, u64_saturating_add in *. lia.
    + unfold MEMORY_ASSERTIONS_MAX_RETAINED, is_u64, U64_MAX in *. lia.
  - fold ids. intros Hlt. apply Forall_forall. intros a Ha n Hn.
    assert (n ∈ ids) as Hn' by (apply list_elem_of_omap; eauto).
    destruct (max_sequence ids) as [mx|].
    + destruct Hmax as [_ Hmax]. specialize (Hmax _ Hn'). unfold u64_saturating_add in *. lia.
    + rewrite Hmax in Hn'. by apply elem_of_nil in Hn'.
Qed.

(** Whatever ledger file is found at start, the loaded ledger is well formed:
    bounded, canonical, with a sequence above every id it holds.  And a
    well-formed ledger survives a restart: loading what was persisted gives
    back the same assertions and conflict signals. *)
Theorem ledger_load_wellformed_and_roundtrips :
  (∀ persisted backend, memory_inv (load_memory_state persisted backend)) ∧
  (∀ m backend, memory_inv m →
    memory_assertions (load_memory_state (persisted_state m) backend) = memory_assertions m ∧
    memory_conflicts (load_memory_state (persisted_state m) backend) = memory_conflicts m).
Proof.
  split.
  - apply load_memory_state_inv.
  - intros m b [Hb Has Hcs _ _]. cbn [load_memory_state memory_assertions memory_conflicts persisted_state
      persisted_assertions persisted_conflicts]. split.
    + assert (omap load_assertion (memory_assertions m) = memory_assertions m) as ->.
      { induction Has as [|a l Ha Hl IH]; [done|]. cbn [omap list_omap]. rewrite (load_assertion_id a) by done.
        f_equal. apply IH. simpl in Hb. lia. }
      by apply shrink_front_id.
    + change (foldl _ ∅ (btree_values (memory_conflicts m))) with (foldl insert_loaded ∅ (btree_entries (memory_conflicts m)).*2).
      rewrite load_conflicts_entries, (right_id_L ∅ (∪)).
      * rewrite (list_to_map_proper _ _ (NoDup_btree_keys _) (btree_entries_perm _)). apply list_to_map_to_list.
      * apply Forall_forall. intros [k c] Hkc%elem_of_btree_entries. by apply Hcs.
      * apply NoDup_btree_keys.
Qed.

(** ** Instances of the theorems *)

Module LedgerExamples.

Lemma empty_memory_inv loaded : memory_inv (memory (example_runtime loaded)).
Proof.
  split.
  - apply Nat.le_0_l.
  - constructor.
  - intros k c E. vm_compute in E. discriminate.
  - vm_compute. split; congruence.
  - constructor.
Defined.

Definition ledger_runtime : MetaRuntimeHandle :=
  example_runtime [] <| memory := mkMemory 0 [] ∅ (Some (mkLedger None "/var/ledger.json")) |>.

Lemma ledger_runtime_inv : memory_inv (memory ledger_runtime).
Proof.
  split.
  - apply Nat.le_0_l.
  - constructor.
  - intros k c E. vm_compute in E. discriminate.
  - vm_compute. split; congruence.
  - constructor.
Defined.

Definition note : MemoryIndexRequest := mkIndexRequest " Alice " "Budget" None (Some " over limit ") None (Some true) None.
Definition broken_env : RuntimeEnv := example_env (λ _ _, None) true [].

(** The backend is down: nothing is kept. *)
Lemma memory_index_atomic_witness :
  let out := @memory_index broken_env note ledger_runtime in
  out.1 = Err (BackendPersistFailed (StoreIo "disk full")) ∧ memory out.2 = memory ledger_runtime.
Proof.
  intros out.
  assert (E : out.1 = Err (BackendPersistFailed (StoreIo "disk full"))) by (vm_compute; reflexivity).
  pose proof (@memory_index_atomic broken_env ledger_runtime note ledger_runtime_inv) as Hw.
  unfold wp in Hw. fold out in Hw. rewrite E in Hw. split; [exact E|]. exact (proj2 (proj2 Hw)).
Defined.

Lemma indexed_is_found_witness :
  let out := @memory_index silent_env note ledger_runtime in
  let res := mkIndexResult "alice" "budget" "knowledge_graph" (Some "memory-assert-000000") true in
  out.1 = Ok res ∧ is_Some (memory_conflict_for_reference out.2 (Some "ALICE") (Some "budget ")).
Proof.
  intros out res. assert (E : out.1 = Ok res) by (vm_compute; reflexivity). split; [exact E|].
  assert (Hrun : @memory_index silent_env note ledger_runtime = (Ok res, out.2))
    by (rewrite <- E; apply surjective_pairing).
  destruct (@indexed_is_found silent_env ledger_runtime note res out.2 Hrun) as [_ Hc].
  apply (Hc "ALICE" "budget "); vm_compute; reflexivity.
Defined.

Lemma ledger_load_wellformed_and_roundtrips_witness :
  memory_assertions (load_memory_state (persisted_state (memory ledger_runtime)) None) = [].
Proof.
  destruct ledger_load_wellformed_and_roundtrips as [_ Hr].
  destruct (Hr (memory ledger_runtime) None ledger_runtime_inv) as [Ha _]. exact Ha.
Defined.

End LedgerExamples.
