(* ===== verification/EventTransport.v ===== *)
(** * The merged event log ([runtime/event_transport.rs], [protocol.rs])

    Lines a module prints are normalized into envelopes whose [source] agrees
    with the kind of event they carry; envelopes are kept in one log ordered by
    time stamp, event id and source; a subscriber replays the bounded tail of
    the events in its scope.  [binary_search_by] is the standard library's
    halving loop, so the order theorem is about the search the code performs. *)

From S2P Require Import Prelude Strings Json RuntimeTypes.
Open Scope Z_scope.

(** ** Normalization *)

Definition enforce_source_consistency (envelope : EventEnvelope) :
    Result EventEnvelope NormalizationError :=
  let expected := match event envelope with
                  | AgentEvent _ _ _ => "agent"
                  | ModuleEvt _ => "module"
                  end in
  if negb (source envelope =b expected)
  then Err (SourceMismatch expected (source envelope))
  else Ok envelope.

Definition required_string (value : option Value) (field : string) : Result string NormalizationError :=
  value ←? ok_or value (MissingField field);
  ok_or (as_str value) (InvalidFieldType field).

Definition required_u64 (value : option Value) (field : string) : Result Z NormalizationError :=
  value ←? ok_or value (MissingField field);
  ok_or (as_u64 value) (InvalidFieldType field).

Inductive ProtocolParseError := ProtocolInvalidJson | ProtocolInvalidSchema | UnexpectedEventKind | UnexpectedPayloadType.

#[global] Instance ProtocolParseError_eq_dec : EqDecision ProtocolParseError.
Proof. solve_decision. Defined.

(** The tail of [normalize_event_line], on the object of a flat line. *)
Definition normalize_flat_object (object : list (string * Value)) : Result EventEnvelope NormalizationError :=
  event_id ←? required_string (member "event_id" object) "event_id";
  source ←? required_string (member "source" object) "source";
  timestamp_ms ←? required_u64 (member "timestamp_ms" object) "timestamp_ms";
  match member "module" object with
  | Some module =>
      module ←? required_string (Some module) "module";
      event_type ←? required_string (member "event_type" object) "event_type";
      payload ←? ok_or (member "payload" object) (MissingField "payload");
      enforce_source_consistency
        (mkEnvelope event_id source timestamp_ms (ModuleEvt (mkModuleEvent module event_type payload)))
  | None =>
      agent_id ←? required_string (member "agent_id" object) "agent_id";
      event_type ←? required_string (member "event_type" object) "event_type";
      enforce_source_consistency
        (mkEnvelope event_id source timestamp_ms (AgentEvent agent_id event_type (member "payload" object)))
  end.

Section protocol.
Context `{RuntimeEnv}.

Definition parse_unified_event_line (line : string) : Result EventEnvelope ProtocolParseError :=
  value ←? ok_or (json_parse line) ProtocolInvalidJson;
  ok_or (envelope_from_value value) ProtocolInvalidSchema.

(** [from_value] is the payload type's own decoder. *)
Definition parse_module_event_line {T} (from_value : Value → option T)
    (line expected_event_type : string) :
    Result (string * string * Z * T) ProtocolParseError :=
  envelope ←? parse_unified_event_line line;
  match event envelope with
  | ModuleEvt module_event =>
      if negb (module_event_type module_event =b expected_event_type) then Err UnexpectedPayloadType
      else
        typed_payload ←? ok_or (from_value (module_payload module_event)) UnexpectedPayloadType;
        Ok (event_id envelope, source envelope, timestamp_ms envelope, typed_payload)
  | AgentEvent _ _ _ => Err UnexpectedEventKind
  end.

Definition normalize_event_line (line : string) : Result EventEnvelope NormalizationError :=
  match parse_unified_event_line line with
  | Ok envelope => enforce_source_consistency envelope
  | Err _ =>
      value ←? ok_or (json_parse line) InvalidJson;
      object ←? ok_or (as_object value) InvalidSchema;
      normalize_flat_object object
  end.
End protocol.

(** ** The order of the log *)

(** [a.timestamp_ms.cmp(..).then_with(event_id).then_with(source)] *)
Definition event_cmp (left right : EventEnvelope) : comparison :=
  match timestamp_ms left ?= timestamp_ms right with
  | Eq => match String.compare (event_id left) (event_id right) with
          | Eq => String.compare (source left) (source right)
          | c => c
          end
  | c => c
  end.

Definition event_le (left right : EventEnvelope) : Prop := event_cmp left right ≠ Gt.

#[global] Instance event_le_dec : RelDecision event_le.
Proof. intros a b. unfold event_le. apply _. Defined.

(** [sort_by]: the stable sort by [event_cmp]. *)
Fixpoint insert_before_ge (x : EventEnvelope) (l : list EventEnvelope) : list EventEnvelope :=
  match l with
  | [] => [x]
  | y :: l' => if decide (event_le x y) then x :: l else y :: insert_before_ge x l'
  end.
Definition sort_by_event_cmp (l : list EventEnvelope) : list EventEnvelope := foldr insert_before_ge [] l.

Definition merge_unified_events (module_events agent_events : list EventEnvelope) : list EventEnvelope :=
  sort_by_event_cmp (module_events ++ agent_events).

(** The loop of [slice::binary_search_by]: [size] halves until it is one. *)
Fixpoint halve {A} (fuel : nat) (f : A → comparison) (l : list A) (base size : nat) : nat :=
  match fuel with
  | O => base
  | S fuel' =>
      if (1 <? size)%nat then
        let half := (size / 2)%nat in
        let mid := (base + half)%nat in
        let base' := match f <$> l !! mid with Some Gt => base | _ => mid end in
        halve fuel' f l base' (size - half)
      else base
  end.

Definition binary_search_by {A} (f : A → comparison) (l : list A) : nat + nat :=
  match l with
  | [] => inr 0%nat
  | _ :: _ =>
      let base := halve (length l) f l 0 (length l) in
      match f <$> l !! base with
      | Some Eq => inl base
      | Some Lt => inr (base + 1)%nat
      | _ => inr base
      end
  end.

(** [Vec::insert] at an index at most the length. *)
Definition vec_insert {A} (i : nat) (x : A) (l : list A) : list A := take i l ++ x :: drop i l.

Definition insert_event_sorted (events : list EventEnvelope) (e : EventEnvelope) : list EventEnvelope :=
  let insertion_index := match binary_search_by (λ existing, event_cmp existing e) events with
                         | inl i | inr i => i
                         end in
  vec_insert insertion_index e events.

Definition append_normalized_event (e : EventEnvelope) : M MetaRuntimeHandle NormalizationError unit :=
  e ← lift_result (enforce_source_consistency e);
  modify (λ s, s <| merged_events := insert_event_sorted (merged_events s) e |>).

(** ** Subscription *)

Inductive SubscribeScope := ScopeMob | ScopeAgent | ScopeInteraction.

#[global] Instance SubscribeScope_eq_dec : EqDecision SubscribeScope.
Proof. solve_decision. Defined.

Record SubscribeRequest := mkSubscribe {
  scope : SubscribeScope;
  last_event_id : option string;
  subscribe_agent_id : option string;
}.

Inductive SubscribeError :=
| EmptyCheckpoint
| UnknownCheckpoint (checkpoint : string)
| MissingAgentId
| InvalidAgentId.

#[global] Instance SubscribeError_eq_dec : EqDecision SubscribeError.
Proof. solve_decision. Defined.

Record SubscribeKeepAlive := mkKeepAlive {
  interval_ms : Z;
  keep_alive_event : string;
}.

Record SubscribeResponse := mkResponse {
  response_scope : SubscribeScope;
  replay_from_event_id : option string;
  keep_alive : SubscribeKeepAlive;
  keep_alive_comment : string;
  event_frames : list string;
  events : list EventEnvelope;
}.

Definition SSE_KEEP_ALIVE_INTERVAL_MS : Z := 15000.
Definition SSE_KEEP_ALIVE_EVENT_NAME : string := "keep-alive".
Definition newline : string := String "010"%char "".
Definition SSE_KEEP_ALIVE_COMMENT_FRAME : string := ": keep-alive" +:+ newline +:+ newline.
Definition SUBSCRIBE_REPLAY_EVENT_CAP : nat := 3.

Definition agent_scope_filter_matches (selected agent_id : string) : bool :=
  if selected =b agent_id then true
  else
    is_some_and (rest ← strip_prefix selected agent_id; strip_prefix ":" rest)
      (λ generation, negb (str_is_empty generation) && str_forall is_ascii_digit generation).

Definition event_matches_request (e : EventEnvelope) (request : SubscribeRequest) : bool :=
  match scope request with
  | ScopeMob => true
  | ScopeAgent =>
      match event e with
      | AgentEvent agent_id _ _ =>
          unwrap_or ((λ selected, agent_scope_filter_matches selected agent_id) <$> subscribe_agent_id request) false
      | ModuleEvt _ => false
      end
  | ScopeInteraction =>
      match event e with
      | AgentEvent _ event_type _ => starts_with "interaction" event_type
      | ModuleEvt module_event => starts_with "interaction" (module_event_type module_event)
      end
  end.

Section subscribe.
Context `{RuntimeEnv}.

Definition build_sse_event_frame (e : EventEnvelope) : string :=
  let event_name := match event e with
                    | AgentEvent _ event_type _ => event_type
                    | ModuleEvt module_event => module_event_type module_event
                    end in
  let payload := unwrap_or (event_to_string (event e)) "{}" in
  "id: " +:+ event_id e +:+ newline +:+ "event: " +:+ event_name +:+ newline
    +:+ "data: " +:+ payload +:+ newline +:+ newline.

(** The guards on the request. *)
Definition check_subscribe_request (request : SubscribeRequest) : Result unit SubscribeError :=
  if is_some_and (last_event_id request) (λ checkpoint, str_is_empty (trim checkpoint))
  then Err EmptyCheckpoint
  else match scope request with
       | ScopeAgent =>
           agent_id ←? ok_or (subscribe_agent_id request) MissingAgentId;
           if str_is_empty (trim agent_id) then Err InvalidAgentId else Ok tt
       | _ => Ok tt
       end.

Definition subscribe_events (s : MetaRuntimeHandle) (request : SubscribeRequest) :
    Result SubscribeResponse SubscribeError :=
  _ ←? check_subscribe_request request;
  let scoped_events := List.filter (λ e, event_matches_request e request) (merged_events s) in
  let skip := (length scoped_events - SUBSCRIBE_REPLAY_EVENT_CAP)%nat in
  let bounded := drop skip scoped_events in
  replay_events ←? match last_event_id request with
                  | Some checkpoint =>
                      start_idx ←? ok_or (position (λ e, event_id e =b checkpoint) bounded)
                                    (UnknownCheckpoint checkpoint);
                      Ok (drop start_idx bounded)
                  | None => Ok bounded
                  end;
  Ok (mkResponse (scope request) (last_event_id request)
        (mkKeepAlive SSE_KEEP_ALIVE_INTERVAL_MS SSE_KEEP_ALIVE_EVENT_NAME)
        SSE_KEEP_ALIVE_COMMENT_FRAME
        (map build_sse_event_frame replay_events) replay_events).
End subscribe.

(** ** The event order is a total preorder *)

Definition event_key (e : EventEnvelope) : Z * string * string := (timestamp_ms e, event_id e, source e).
Definition event_key_le : relation (Z * string * string) := lex2_le (lex2_le Z.le String.le) String.le.

Lemma str_compare_refl (s : string) : String.compare s s = Eq.
Proof.
  induction s as [|a s IH]; [done|]. simpl. unfold Ascii.compare. by rewrite N.compare_refl.
Qed.

Lemma str_le_compare (s t : string) : String.le s t ↔ String.compare s t ≠ Gt.
Proof. unfold String.le, String.leb. destruct (s ?= t)%string; naive_solver. Qed.

Lemma event_le_key a b : event_le a b ↔ event_key_le (event_key a) (event_key b).
Proof.
  unfold event_le, event_cmp, event_key_le, event_key, lex2_le; simpl.
  destruct (Z.compare_spec (timestamp_ms a) (timestamp_ms b)) as [Ht|Ht|Ht].
  - rewrite Ht. destruct (String.compare (event_id a) (event_id b)) eqn:Hi.
    + apply String.compare_eq_iff in Hi as ->. rewrite str_le_compare. naive_solver.
    + assert (event_id a ≠ event_id b) by (intros E; rewrite E, str_compare_refl in Hi; done).
      assert (String.le (event_id a) (event_id b)) by (apply str_le_compare; congruence).
      naive_solver.
    + assert (event_id a ≠ event_id b) by (intros E; rewrite E, str_compare_refl in Hi; done).
      assert (¬ String.le (event_id a) (event_id b)) by (rewrite str_le_compare; congruence).
      naive_solver.
  - split; [intros _|done]. right. split; [intros [= ? ?]; lia|]. right. split; lia.
  - split; [done|]. intros [[[= ? ?] _]|[_ [[? _]|[_ ?]]]]; lia.
Qed.

#[global] Instance event_le_trans : Transitive event_le.
Proof. intros a b c. rewrite !event_le_key. unfold event_key_le. by etrans. Qed.
#[global] Instance event_le_total : Total event_le.
Proof. intros a b. rewrite !event_le_key. unfold event_key_le. apply total. apply _. Qed.

Lemma event_le_not a b : ¬ event_le a b → event_le b a.
Proof. destruct (total event_le a b); done. Qed.

(** [Lt] at [b] against [e] means [e] does not come before [b]. *)
Lemma event_cmp_Lt a b : event_cmp a b ≠ Lt → event_le b a.
Proof.
  intros Hne. destruct (decide (event_le b a)) as [|Hn]; [done|]. exfalso. apply Hne.
  revert Hn. unfold event_le, event_cmp.
  rewrite (Z.compare_antisym (timestamp_ms a) (timestamp_ms b)).
  rewrite (String.compare_antisym (event_id b) (event_id a)).
  rewrite (String.compare_antisym (source b) (source a)).
  destruct (timestamp_ms a ?= timestamp_ms b), (event_id a ?= event_id b)%string,
    (source a ?= source b)%string; simpl; intros Hn; try done;
    exfalso; by apply Hn.
Qed.

(** ** The sorted log *)

Definition log_sorted (l : list EventEnvelope) : Prop := StronglySorted event_le l.

Lemma insert_before_ge_perm x l : insert_before_ge x l ≡ₚ x :: l.
Proof.
  induction l as [|y l IH]; simpl; [done|]. case_test; [done|]. rewrite IH. by rewrite Permutation_swap.
Qed.

Lemma insert_before_ge_sorted x l : log_sorted l → log_sorted (insert_before_ge x l).
Proof.
  unfold log_sorted. induction 1 as [|y l Hl IH Hy]; simpl; [by repeat constructor|].
  destruct (decide (event_le x y)) as [Hle|Hn].
  - constructor; [by constructor|]. constructor; [done|].
    eapply Forall_impl; [exact Hy|]. intros z ?; by etrans.
  - constructor; [done|]. rewrite insert_before_ge_perm. constructor; [by apply event_le_not|done].
Qed.

Lemma sort_by_event_cmp_perm l : sort_by_event_cmp l ≡ₚ l.
Proof. induction l as [|x l IH]; [done|]. simpl. by rewrite insert_before_ge_perm, IH. Qed.

Lemma sort_by_event_cmp_sorted l : log_sorted (sort_by_event_cmp l).
Proof. induction l as [|x l IH]; [constructor|]. by apply insert_before_ge_sorted. Qed.

(** Stability: the events of one key keep their relative order. *)
Lemma insert_before_ge_stable k x l :
  log_sorted l →
  List.filter (λ e, event_key e =b k) (insert_before_ge x l)
  = List.filter (λ e, event_key e =b k) (x :: l).
Proof.
  unfold log_sorted. induction 1 as [|y l Hl IH Hy]; [done|]. cbn [insert_before_ge].
  destruct (decide (event_le x y)) as [|Hn]; [done|].
  cbn [List.filter] in *. rewrite IH.
  destruct (bool_decide_reflect (event_key x = k)) as [Hx|]; [|done].
  destruct (bool_decide_reflect (event_key y = k)) as [Hy'|]; [|done].
  exfalso. apply Hn, event_le_key. rewrite Hx, Hy'. unfold event_key_le. reflexivity.
Qed.

Section binary_search.
Context {A : Type} (f : A → comparison) (l : list A).

(** Once the probe is past the target it stays past it. *)
Definition probe_monotone : Prop :=
  ∀ i j x y, (i ≤ j)%nat → l !! i = Some x → l !! j = Some y → f x = Gt → f y = Gt.

Definition none_after (base : nat) : Prop := ∀ j y, (j < base)%nat → l !! j = Some y → f y ≠ Gt.
Definition all_after (bound : nat) : Prop := ∀ j y, (bound ≤ j)%nat → l !! j = Some y → f y = Gt.

Lemma halve_spec fuel base size :
  probe_monotone → (1 ≤ size ≤ S fuel)%nat → (base + size ≤ length l)%nat →
  none_after base → all_after (base + size) →
  let b := halve fuel f l base size in
  (b < length l)%nat ∧ none_after b ∧ all_after (b + 1).
Proof.
  intros Hmono. revert base size. induction fuel as [|fuel IH]; intros base size Hsz Hlen Hlo Hhi.
  { simpl. replace size with 1%nat in * by lia. split_and!; [lia|done..]. }
  cbn [halve]. destruct (Nat.ltb_spec 1 size) as [Hgt|Hle]; cbv zeta.
  2: { replace size with 1%nat in * by lia. split_and!; [lia|done..]. }
  assert (1 ≤ size / 2)%nat by (apply Nat.div_le_lower_bound; lia).
  assert (size / 2 < size)%nat by (apply Nat.div_lt; lia).
  destruct (lookup_lt_is_Some_2 l (base + size / 2)) as [x Hx]; [lia|]. rewrite Hx; cbn [fmap option_fmap option_map].
  assert (2 * (size / 2) ≤ size)%nat by (apply Nat.Div0.mul_div_le).
  destruct (f x) eqn:Hf.
  1,2: apply IH; [lia|lia| |replace (base + size / 2 + (size - size / 2))%nat with (base + size)%nat by lia; done];
    intros j y Hj Hy Hg; rewrite (Hmono j (base + size / 2)%nat y x) in Hf; [done|lia|done..].
  apply IH; [lia|lia|done|].
  intros j y Hj Hy. apply (Hmono (base + size / 2)%nat j x y); [|done..].
  pose proof (Nat.div_mod_eq size 2). pose proof (Nat.mod_upper_bound size 2). lia.
Qed.

Lemma binary_search_by_spec :
  probe_monotone →
  let i := match binary_search_by f l with inl i | inr i => i end in
  (i ≤ length l)%nat ∧ none_after i ∧
  ∀ j y, (i ≤ j)%nat → l !! j = Some y → f y ≠ Lt.
Proof.
  intros Hmono. unfold binary_search_by. destruct l as [|x0 l0] eqn:El.
  { simpl. split_and!; [lia| |done]. intros j y ?; lia. }
  rewrite <- El in *. pose proof (halve_spec (length l) 0 (length l) Hmono) as Hs.
  destruct Hs as (Hb & Hlo & Hhi); [rewrite El; simpl; lia|lia|intros j y ?; lia| |].
  { intros j y Hj Hy. apply lookup_lt_Some in Hy. lia. }
  set (b := halve (length l) f l 0 (length l)) in *.
  destruct (lookup_lt_is_Some_2 l b Hb) as [x Hx]. rewrite Hx; simpl.
  assert (Htail : ∀ j y, (b < j)%nat → l !! j = Some y → f y ≠ Lt).
  { intros j y Hj Hy. rewrite (Hhi j y); [done|lia|done]. }
  destruct (f x) eqn:Hf.
  - split_and!; [lia|done|]. intros j y Hj Hy. destruct (decide (j = b)) as [->|]; [congruence|].
    apply (Htail j); [lia|done].
  - split_and!; [lia| |].
    + intros j y Hj Hy. destruct (decide (j = b)) as [->|]; [congruence|]. apply (Hlo j); [lia|done].
    + intros j y Hj Hy. apply (Htail j); [lia|done].
  - split_and!; [lia|done|]. intros j y Hj Hy. destruct (decide (j = b)) as [->|]; [congruence|].
    apply (Htail j); [lia|done].
Qed.
End binary_search.

Lemma vec_insert_perm {A} i (x : A) l : vec_insert i x l ≡ₚ x :: l.
Proof. unfold vec_insert. rewrite <- Permutation_middle, take_drop. done. Qed.

Lemma sorted_probe_monotone l e :
  log_sorted l → probe_monotone (λ existing, event_cmp existing e) l.
Proof.
  intros Hs i j x y Hij Hx Hy Hg. destruct (decide (i = j)) as [->|]; [congruence|].
  assert (event_le x y) as Hxy.
  { apply list_elem_of_split_length in Hy as (l1 & l2 & -> & ->). rewrite lookup_app_l in Hx by lia.
    eapply StronglySorted_app_1_elem_of; [exact Hs| |by left]. by eapply list_elem_of_lookup_2. }
  destruct (decide (event_cmp y e = Gt)) as [|Hn]; [done|].
  exfalso. assert (event_le x e) by (etrans; [exact Hxy|done]). done.
Qed.

Lemma insert_event_sorted_perm l e : insert_event_sorted l e ≡ₚ e :: l.
Proof. apply vec_insert_perm. Qed.

Lemma insert_event_sorted_sorted l e : log_sorted l → log_sorted (insert_event_sorted l e).
Proof.
  intros Hs. unfold insert_event_sorted.
  destruct (binary_search_by_spec _ _ (sorted_probe_monotone l e Hs)) as (Hi & Hlo & Hhi).
  destruct (binary_search_by _ l) as [i|i]; unfold vec_insert, log_sorted in *.
  all: rewrite <- (take_drop i l) in Hs; apply StronglySorted_app in Hs as (Hcross & Ht & Hd).
  all: apply StronglySorted_app_2; [|done|constructor; [done|]].
  all: try (apply Forall_forall; intros y Hy; apply list_elem_of_lookup in Hy as (j & Hj);
    rewrite lookup_drop in Hj; apply event_cmp_Lt; by apply (Hhi (i + j)%nat); [lia|]).
  all: intros x y Hx Hy; apply elem_of_cons in Hy as [->|Hy]; [|by apply Hcross].
  all: apply list_elem_of_lookup in Hx as (j & Hj); apply lookup_take_Some in Hj as [Hj Hlt];
    by apply (Hlo j).
Qed.

(** ** Source consistency *)

Definition source_consistent (e : EventEnvelope) : Prop :=
  source e = match event e with AgentEvent _ _ _ => "agent" | ModuleEvt _ => "module" end.

Lemma enforce_source_consistency_Ok e e' :
  enforce_source_consistency e = Ok e' ↔ e' = e ∧ source_consistent e.
Proof.
  unfold enforce_source_consistency, source_consistent.
  destruct (bool_decide_reflect (source e = match event e with AgentEvent _ _ _ => "agent" | ModuleEvt _ => "module" end));
    simpl; naive_solver.
Qed.

Lemma normalize_flat_object_consistent o e : normalize_flat_object o = Ok e → source_consistent e.
Proof.
  unfold normalize_flat_object. intros H.
  repeat (apply and_then_Ok in H as (? & _ & H)).
  destruct (member "module" o); repeat (apply and_then_Ok in H as (? & _ & H));
    apply enforce_source_consistency_Ok in H as [-> H]; done.
Qed.

Lemma normalize_event_line_consistent `{RuntimeEnv} line e :
  normalize_event_line line = Ok e → source_consistent e.
Proof.
  unfold normalize_event_line. destruct (parse_unified_event_line line) as [envelope|].
  - intros [-> ?]%enforce_source_consistency_Ok. done.
  - intros (? & _ & (? & _ & Hf)%and_then_Ok)%and_then_Ok. by eapply normalize_flat_object_consistent.
Qed.

(** The log of a runtime: in order, and every event carries the source of its kind. *)
Definition log_wf (l : list EventEnvelope) : Prop := log_sorted l ∧ Forall source_consistent l.

Lemma append_normalized_event_wp s e (Q : Result unit NormalizationError → MetaRuntimeHandle → Prop) :
  (source_consistent e → Q (Ok tt) (s <| merged_events := insert_event_sorted (merged_events s) e |>)) →
  (¬ source_consistent e → ∀ err, Q (Err err) s) →
  wp (append_normalized_event e) Q s.
Proof.
  intros H1 H2. unfold append_normalized_event, wp, mbind, m_bind, lift_result, modify.
  destruct (enforce_source_consistency e) as [e'|err] eqn:E; simpl.
  - apply enforce_source_consistency_Ok in E as [-> ?]. auto.
  - apply H2. intros Hc. assert (enforce_source_consistency e = Ok e) by by apply enforce_source_consistency_Ok.
    congruence.
Qed.

(** ** Theorems *)

(** Appending an event to a well-formed log either refuses it, when its
    source contradicts its kind, and leaves the whole runtime as it was, or
    adds exactly that event and leaves the log ordered by time stamp, event id
    and source: the binary search finds a place that keeps the order. *)
Theorem append_event_keeps_log_ordered s e :
  log_wf (merged_events s) →
  wp (append_normalized_event e) (λ r s',
    match r with
    | Ok _ => source_consistent e ∧ log_wf (merged_events s') ∧ merged_events s' ≡ₚ e :: merged_events s
              ∧ s' = s <| merged_events := merged_events s' |>
    | Err _ => ¬ source_consistent e ∧ s' = s
    end) s.
Proof.
  intros [Hs Hc]. apply append_normalized_event_wp; [|done]. intros He. simpl.
  split_and!; [done| |apply insert_event_sorted_perm|by destruct s].
  split; [by apply insert_event_sorted_sorted|]. rewrite insert_event_sorted_perm. by constructor.
Qed.

(** The initial merge of module and agent events is a permutation of its
    inputs in the order of the log, and it is stable: the events that share a
    time stamp, id and source keep the order they arrived in, modules first. *)
Theorem merge_unified_events_stable_sort ms ags :
  log_sorted (merge_unified_events ms ags) ∧
  merge_unified_events ms ags ≡ₚ ms ++ ags ∧
  ∀ k, List.filter (λ e, event_key e =b k) (merge_unified_events ms ags)
       = List.filter (λ e, event_key e =b k) (ms ++ ags).
Proof.
  unfold merge_unified_events.
  split_and!; [apply sort_by_event_cmp_sorted|apply sort_by_event_cmp_perm|]. intros k.
  induction (ms ++ ags) as [|x l IH]; [done|]. cbn [sort_by_event_cmp foldr].
  rewrite insert_before_ge_stable by apply sort_by_event_cmp_sorted. cbn [List.filter].
  by rewrite <- IH.
Qed.

(** Whatever line a module prints, and whatever the wire decoder makes of
    it, an event that normalization accepts is accepted by the log: it carries
    the source of its kind, so appending it succeeds. *)
Theorem normalized_line_is_appendable `{RuntimeEnv} line e s :
  normalize_event_line line = Ok e →
  source_consistent e ∧
  append_normalized_event e s
  = (Ok tt, s <| merged_events := insert_event_sorted (merged_events s) e |>).
Proof.
  intros Hn%normalize_event_line_consistent. split; [done|].
  unfold append_normalized_event, mbind, m_bind, lift_result.
  by rewrite (proj2 (enforce_source_consistency_Ok e e) (conj eq_refl Hn)).
Qed.

(** The events a request can see, and the window of them a replay starts from. *)
Definition visible_events (s : MetaRuntimeHandle) (request : SubscribeRequest) : list EventEnvelope :=
  List.filter (λ e, event_matches_request e request) (merged_events s).

(** A successful subscription replays a tail of the visible events, never
    more than three, one frame for each; without a checkpoint the tail is as
    long as the cap allows, and with one it starts at the first event of the
    window with that id, so the subscriber resumes where it stopped. *)
Theorem subscribe_replays_bounded_tail `{RuntimeEnv} s request resp :
  subscribe_events s request = Ok resp →
  suffix (events resp) (visible_events s request) ∧
  (length (events resp) ≤ SUBSCRIBE_REPLAY_EVENT_CAP)%nat ∧
  event_frames resp = map build_sse_event_frame (events resp) ∧
  match last_event_id request with
  | None => length (events resp) = (length (visible_events s request) `min` SUBSCRIBE_REPLAY_EVENT_CAP)%nat
  | Some checkpoint =>
      ∃ e rest skipped, events resp = e :: rest ∧ event_id e = checkpoint ∧
        take_last SUBSCRIBE_REPLAY_EVENT_CAP (visible_events s request) = skipped ++ events resp ∧
        Forall (λ e', event_id e' ≠ checkpoint) skipped
  end.
Proof.
  unfold subscribe_events. fold (visible_events s request).
  intros (_ & _ & (ev & Hev & [= <-])%and_then_Ok)%and_then_Ok. simpl.
  set (vis := visible_events s request) in *.
  rewrite take_last_drop.
  set (win := drop (length vis - SUBSCRIBE_REPLAY_EVENT_CAP) vis) in *.
  assert (Hwin : suffix win vis) by (exists (take (length vis - SUBSCRIBE_REPLAY_EVENT_CAP) vis); unfold win; by rewrite take_drop).
  assert (Hlen : length win = (length vis `min` SUBSCRIBE_REPLAY_EVENT_CAP)%nat)
    by (unfold win; rewrite length_drop; lia).
  destruct (last_event_id request) as [c|].
  - apply and_then_Ok in Hev as (i & Hp & [= <-]).
    destruct (position _ win) as [k|] eqn:Hk; simplify_eq/=.
    apply position_Some in Hk as (e & He & Hid & Hbefore). apply bool_decide_eq_true in Hid.
    split_and!; [|rewrite length_drop; lia|done|].
    { etrans; [|exact Hwin]. exists (take i win). by rewrite take_drop. }
    exists e, (drop (S i) win), (take i win). rewrite take_drop. split_and!; [by apply drop_S|done..|].
    apply Forall_forall. intros x Hx. apply list_elem_of_lookup in Hx as (j & Hj).
    apply lookup_take_Some in Hj as [Hj Hlt]. specialize (Hbefore j x Hlt Hj).
    by apply bool_decide_eq_false in Hbefore.
  - injection Hev as <-. split_and!; [done|lia|done..].
Qed.

(** A subscription fails for exactly four reasons: a blank checkpoint, an
    agent scope without an agent id or with a blank one, and a checkpoint that
    is not among the last three visible events. *)
Theorem subscribe_error_exact `{RuntimeEnv} s request err :
  subscribe_events s request = Err err ↔
  match err with
  | EmptyCheckpoint => ∃ c, last_event_id request = Some c ∧ trim c = ""
  | MissingAgentId =>
      (∀ c, last_event_id request = Some c → trim c ≠ "") ∧
      scope request = ScopeAgent ∧ subscribe_agent_id request = None
  | InvalidAgentId =>
      (∀ c, last_event_id request = Some c → trim c ≠ "") ∧
      scope request = ScopeAgent ∧ ∃ a, subscribe_agent_id request = Some a ∧ trim a = ""
  | UnknownCheckpoint c =>
      check_subscribe_request request = Ok tt ∧ last_event_id request = Some c ∧
      Forall (λ e, event_id e ≠ c) (take_last SUBSCRIBE_REPLAY_EVENT_CAP (visible_events s request))
  end.
Proof.
  assert (Hguard : ∀ g, check_subscribe_request request = g →
    g = if is_some_and (last_event_id request) (λ c, str_is_empty (trim c)) then Err EmptyCheckpoint
        else match scope request, subscribe_agent_id request with
             | ScopeAgent, None => Err MissingAgentId
             | ScopeAgent, Some a => if str_is_empty (trim a) then Err InvalidAgentId else Ok tt
             | _, _ => Ok tt
             end).
  { intros g <-. unfold check_subscribe_request. destruct (is_some_and _ _); [done|].
    by destruct (scope request), (subscribe_agent_id request). }
  unfold subscribe_events. fold (visible_events s request). rewrite take_last_drop.
  set (win := drop _ (visible_events s request)).
  assert (Hblank : is_some_and (last_event_id request) (λ c, str_is_empty (trim c)) = true
    ↔ ∃ c, last_event_id request = Some c ∧ trim c = "").
  { destruct (last_event_id request) as [c|]; simpl; [rewrite str_is_empty_true|]; naive_solver. }
  assert (Hpos : ∀ c, position (λ e, event_id e =b c) win = None ↔ Forall (λ e, event_id e ≠ c) win).
  { intros c. rewrite position_None, Forall_forall.
    setoid_rewrite bool_decide_eq_false. done. }
  destruct (check_subscribe_request request) as [[]|g] eqn:Hc; specialize (Hguard _ eq_refl).
  - simpl. destruct (is_some_and _ _) eqn:Hb; [done|].
    assert (Hnb : ∀ c, last_event_id request = Some c → trim c ≠ "").
    { intros c E1 E2. assert (false = true) by (apply Hblank; eauto). done. }
    transitivity (∃ c, err = UnknownCheckpoint c ∧ last_event_id request = Some c ∧ Forall (λ e, event_id e ≠ c) win).
    { destruct (last_event_id request) as [c|]; simpl; [|naive_solver].
      destruct (position _ win) as [i|] eqn:Hp; simpl.
      - split; [done|]. intros (c' & -> & [= <-] & Hf). apply Hpos in Hf. congruence.
      - apply Hpos in Hp. naive_solver. }
    assert (Hagent : scope request = ScopeAgent → ∃ a, subscribe_agent_id request = Some a ∧ trim a ≠ "").
    { intros E. rewrite E in Hguard. destruct (subscribe_agent_id request) as [a|]; [|done].
      destruct (str_is_empty (trim a)) eqn:Ea; [done|]. exists a. by apply str_is_empty_false in Ea. }
    destruct err; naive_solver.
  - simpl. destruct (is_some_and _ _) eqn:Hb.
    { injection Hguard as ->. destruct (proj1 Hblank eq_refl) as (c & E & Ec).
      destruct err; naive_solver. }
    assert (Hnb : ∀ c, last_event_id request = Some c → trim c ≠ "").
    { intros c E1 E2. assert (false = true) by (apply Hblank; eauto). done. }
    destruct (scope request) eqn:Es; [done| |done].
    destruct (subscribe_agent_id request) as [a|] eqn:Ea.
    + destruct (str_is_empty (trim a)) eqn:Et; [|done]. apply str_is_empty_true in Et. injection Hguard as ->.
      destruct err; naive_solver.
    + injection Hguard as ->. destruct err; naive_solver.
Qed.

(** The agent filter accepts an id exactly when it is the selected id, or
    the selected id followed by a colon and a non-empty decimal generation;
    so an agent never receives the events of a sibling that only shares a
    prefix of its name. *)
Theorem agent_filter_exact selected agent_id :
  agent_scope_filter_matches selected agent_id = true ↔
  agent_id = selected ∨
  ∃ generation, agent_id = selected +:+ ":" +:+ generation ∧ generation ≠ "" ∧
    str_forall is_ascii_digit generation = true.
Proof.
  unfold agent_scope_filter_matches.
  destruct (bool_decide_reflect (selected = agent_id)) as [->|Hne]; [naive_solver|].
  destruct (strip_prefix selected agent_id) as [rest|] eqn:H1; cbn [mbind option_bind is_some_and].
  - apply strip_prefix_Some in H1 as ->. destruct (strip_prefix ":" rest) as [g|] eqn:H2; cbn [is_some_and].
    + apply strip_prefix_Some in H2 as ->. rewrite andb_true_iff, negb_true_iff, str_is_empty_false.
      split; [naive_solver|]. intros [E|(g' & E & ? & ?)]; [done|].
      apply (inj (String.app selected)), (inj (String.app ":")) in E as <-. done.
    + split; [done|]. intros [E|(g' & E & ? & ?)]; [done|].
      apply (inj (String.app selected)) in E as ->. rewrite strip_prefix_app in H2. done.
  - split; [done|]. intros [E|(g' & E & _)]; [done|]. rewrite E, strip_prefix_app in H1. done.
Qed.

(** ** Instances of the theorems *)

Module EventExamples.

Definition agent_event (id : string) (t : Z) : EventEnvelope :=
  mkEnvelope id "agent" t (AgentEvent "worker:0" "interaction.done" None).

Definition busy : MetaRuntimeHandle :=
  example_runtime [] <| merged_events := [agent_event "a" 1; agent_event "b" 2; agent_event "c" 2; agent_event "d" 5] |>.

Lemma busy_log_wf : log_wf (merged_events busy).
Proof.
  split; [|by repeat constructor].
  unfold log_sorted. repeat constructor; vm_compute; discriminate.
Defined.

Lemma append_event_keeps_log_ordered_witness :
  map event_id (merged_events (append_normalized_event (agent_event "bb" 2) busy).2) = ["a"; "b"; "bb"; "c"; "d"] ∧
  log_wf (merged_events (append_normalized_event (agent_event "bb" 2) busy).2).
Proof.
  split; [reflexivity|].
  pose proof (append_event_keeps_log_ordered busy (agent_event "bb" 2) busy_log_wf) as H.
  exact (proj1 (proj2 H)).
Defined.

Definition flat_line : Value :=
  obj [("event_id", str "e1"); ("source", str "module"); ("timestamp_ms", num 7);
       ("module", str "mem"); ("event_type", str "ready"); ("payload", VNull)].

Definition line_env : RuntimeEnv :=
  example_env (λ _ _, None) false [("line", flat_line)].

Lemma normalized_line_is_appendable_witness :
  let e := mkEnvelope "e1" "module" 7 (ModuleEvt (mkModuleEvent "mem" "ready" VNull)) in
  @normalize_event_line line_env "line" = Ok e ∧
  merged_events (append_normalized_event e busy).2 = merged_events busy ++ [e].
Proof.
  intros e. assert (Hn : @normalize_event_line line_env "line" = Ok e) by (vm_compute; reflexivity).
  split; [exact Hn|]. rewrite (proj2 (@normalized_line_is_appendable line_env "line" e busy Hn)). reflexivity.
Defined.

Definition resume (c : option string) : SubscribeRequest := mkSubscribe ScopeAgent c (Some "worker").

Lemma subscribe_replays_bounded_tail_witness :
  ∃ resp, @subscribe_events silent_env busy (resume (Some "c")) = Ok resp ∧
    map event_id (events resp) = ["c"; "d"] ∧ suffix (events resp) (visible_events busy (resume (Some "c"))).
Proof.
  destruct (@subscribe_events silent_env busy (resume (Some "c"))) as [resp|err] eqn:E;
    [|vm_compute in E; discriminate].
  exists resp. split; [reflexivity|]. split.
  - vm_compute in E. injection E as <-. reflexivity.
  - exact (proj1 (@subscribe_replays_bounded_tail silent_env busy (resume (Some "c")) resp E)).
Defined.

End EventExamples.
