(* ===== verification/ModuleBoundary.v ===== *)
(** * Calls to modules ([runtime/module_boundary.rs], [runtime/routing.rs])

    A module is called either through one MCP connection, which is opened, used
    for one tool and closed whatever happened, or by running its command once and
    reading one line.  The failure of the close is reported beside the failure of
    the operation.  [route_module_call] chooses between the two. *)

From S2P Require Import Prelude Strings Json RuntimeTypes EventTransport.
Open Scope Z_scope.

Definition MODULE_BOUNDARY_KIND_ENV : string := "META_MODULE_BOUNDARY".
Definition MODULE_BOUNDARY_KIND_MCP : string := "mcp".
Definition CORE_MODULE_MCP_TIMEOUT : Z := 5000.
Definition ROUTER_RESOLVE_MCP_TOOL : string := "routing.resolve".
Definition DELIVERY_SEND_MCP_TOOL : string := "delivery.send".
Definition MEMORY_CONFLICT_READ_MCP_TOOL : string := "memory.conflict_read".

Definition module_uses_mcp (module : ModuleConfig) (pre_spawn : option PreSpawnData) : bool :=
  unwrap_or
    ((λ value, eq_ignore_ascii_case (trim value) MODULE_BOUNDARY_KIND_MCP) <$>
      (data ← opt_filter (λ data, pre_spawn_module_id data =b module_id module) pre_spawn;
       snd <$> find_first (λ kv, kv.1 =b MODULE_BOUNDARY_KIND_ENV) (pre_spawn_env data)))
    false.

Definition module_env_with_extra (module : ModuleConfig) (pre_spawn : option PreSpawnData)
    (extra_env : list (string * string)) : list (string * string) :=
  unwrap_or (pre_spawn_env <$> opt_filter (λ data, pre_spawn_module_id data =b module_id module) pre_spawn) []
    ++ extra_env.

Definition mcp_required_error (module_id flow : string) : RuntimeBoundaryError :=
  McpError (McpRequired module_id flow).

(** [into_iter().collect::<HashMap<_, _>>()]: a later binding wins. *)
Definition env_map (env : list (string * string)) : gmap string string :=
  foldl (λ m kv, <[kv.1 := kv.2]> m) ∅ env.

Definition mcp_timeout_error (module_id operation : string) (timeout_ms : Z) : RuntimeBoundaryError :=
  McpError (McpTimeout module_id operation timeout_ms).
Definition mcp_connect_error (module_id error : string) : RuntimeBoundaryError :=
  McpError (ConnectionFailed module_id error).
Definition mcp_list_tools_error (module_id error : string) : RuntimeBoundaryError :=
  McpError (ToolListFailed module_id error).
Definition mcp_tool_call_error (module_id tool_name error : string) : RuntimeBoundaryError :=
  McpError (ToolCallFailed module_id tool_name error).

Definition attach_mcp_close_failure (operation_error close_error : RuntimeBoundaryError) : RuntimeBoundaryError :=
  match operation_error, close_error with
  | McpError primary, McpError close => McpError (OperationFailedWithCloseFailure primary close)
  | operation_error, _ => operation_error
  end.

Definition finalize_mcp_operation_with_close {T} (operation_result : Result T RuntimeBoundaryError)
    (close_result : Result unit RuntimeBoundaryError) : Result T RuntimeBoundaryError :=
  match operation_result, close_result with
  | Ok value, Ok _ => Ok value
  | Ok _, Err close_error => Err close_error
  | Err operation_error, Ok _ => Err operation_error
  | Err operation_error, Err close_error => Err (attach_mcp_close_failure operation_error close_error)
  end.

Section boundary.
Context `{RuntimeEnv}.

Definition unsettled_class (outcome : McpServerCloseOutcome) : option McpCloseUnsettledClass :=
  if close_is_settled outcome then None
  else Some match outcome with
            | CloseStdio LeaderWaitFailed _ => WaitFailed
            | CloseStdio LeaderNotReaped _ => NotReaped
            | CloseStdio _ WitnessStillOpen => StdoutOpen
            | CloseStdio _ _ => StdoutUnobserved
            | CloseNotHeld => NotHeld
            | CloseTaskFailed => TaskFailed
            | _ => ClassCloseFailed
            end.

Definition close_failure (module_id : string) (outcome : McpServerCloseOutcome) : option RuntimeBoundaryError :=
  class ← unsettled_class outcome;
  Some (McpError match outcome with
                 | CloseErrored error => CloseFailed module_id error
                 | _ => CloseUnsettled module_id class
                 end).

Definition connect_within (n : nat) (module_id : string) (config : McpServerConfig) (timeout_ms : Z) :
    Result unit RuntimeBoundaryError :=
  match mcp_connect n config timeout_ms with
  | None => Ok tt
  | Some failure =>
      let primary := if failure_timed_out failure
                     then mcp_timeout_error module_id "connect" timeout_ms
                     else mcp_connect_error module_id (failure_error failure) in
      match failure_close failure ≫= close_failure module_id with
      | Some close => Err (attach_mcp_close_failure primary close)
      | None => Err primary
      end
  end.

Definition list_tools_with_timeout (n : nat) (module_id : string) (config : McpServerConfig) (timeout_ms : Z) :
    Result (list string) RuntimeBoundaryError :=
  match mcp_list_tools n config timeout_ms with
  | Ok tools => Ok tools
  | Err Elapsed => Err (mcp_timeout_error module_id "list_tools" timeout_ms)
  | Err (McpFailed error) => Err (mcp_list_tools_error module_id error)
  end.

Definition content_blocks_to_text (blocks : list ContentBlock) : string :=
  if forallb (λ b, match b with TextBlock _ => true | OtherBlock _ => false end) blocks
  then String.concat "" (omap (λ b, match b with TextBlock t => Some t | OtherBlock _ => None end) blocks)
  else blocks_to_json blocks.

Definition call_tool_with_timeout (n : nat) (module_id tool_name : string) (config : McpServerConfig)
    (args : Value) (timeout_ms : Z) : Result string RuntimeBoundaryError :=
  match mcp_call_tool n config tool_name args timeout_ms with
  | Ok blocks => Ok (content_blocks_to_text blocks)
  | Err Elapsed => Err (mcp_timeout_error module_id ("call_tool:" +:+ tool_name) timeout_ms)
  | Err (McpFailed error) => Err (mcp_tool_call_error module_id tool_name error)
  end.

Definition close_settled (n : nat) (module_id : string) (config : McpServerConfig) :
    Result unit RuntimeBoundaryError :=
  match close_failure module_id (mcp_close n config) with
  | None => Ok tt
  | Some close => Err close
  end.

Definition run_in_tokio_runtime {T} (n : nat) (future : Result T RuntimeBoundaryError) :
    Result T RuntimeBoundaryError :=
  if in_tokio n
  then Err (McpError (RuntimeUnavailable
              "cannot execute blocking MCP boundary call inside an active tokio runtime"))
  else match tokio_build n with
       | Some error => Err (McpError (RuntimeUnavailable error))
       | None => future
       end.

Definition module_server (module : ModuleConfig) (pre_spawn : option PreSpawnData) : McpServerConfig :=
  mkServer ("meta-" +:+ module_id module) (module_command module) (module_args module)
    (env_map (module_env_with_extra module pre_spawn [])).

Definition probe_module_mcp_tools (n : nat) (module : ModuleConfig) (pre_spawn : option PreSpawnData)
    (timeout_ms : Z) : Result (list string) RuntimeBoundaryError :=
  let config := module_server module pre_spawn in
  run_in_tokio_runtime n
    (_ ←? connect_within n (module_id module) config timeout_ms;
     let tools_result := list_tools_with_timeout n (module_id module) config timeout_ms in
     let close_result := close_settled n (module_id module) config in
     tools ←? finalize_mcp_operation_with_close tools_result close_result;
     Ok (merge_sort String.le tools)).

Definition call_module_mcp_tool_text (n : nat) (module : ModuleConfig) (pre_spawn : option PreSpawnData)
    (tool_name : string) (args : Value) (timeout_ms : Z) : Result string RuntimeBoundaryError :=
  let config := module_server module pre_spawn in
  run_in_tokio_runtime n
    (_ ←? connect_within n (module_id module) config timeout_ms;
     let operation_result :=
       available_tools ←? list_tools_with_timeout n (module_id module) config timeout_ms;
       if negb (existsb (λ name, name =b tool_name) available_tools)
       then Err (McpError (ToolNotFound (module_id module) tool_name available_tools))
       else call_tool_with_timeout n (module_id module) tool_name config args timeout_ms in
     let close_result := close_settled n (module_id module) config in
     finalize_mcp_operation_with_close operation_result close_result).

Definition call_module_mcp_tool_json (n : nat) (module : ModuleConfig) (pre_spawn : option PreSpawnData)
    (tool_name : string) (args : Value) (timeout_ms : Z) : Result Value RuntimeBoundaryError :=
  response ←? call_module_mcp_tool_text n module pre_spawn tool_name args timeout_ms;
  ok_or (json_parse response) (McpError (InvalidJsonResponse (module_id module) tool_name response)).

(** The same call made by the runtime: one observation of the world. *)
Definition call_tool (module : ModuleConfig) (pre_spawn : option PreSpawnData)
    (tool_name : string) (args : Value) : M MetaRuntimeHandle RuntimeBoundaryError Value :=
  λ s, (call_module_mcp_tool_json (world_step s) module pre_spawn tool_name args CORE_MODULE_MCP_TIMEOUT, tick s).

Definition is_module_loaded (s : MetaRuntimeHandle) (id : string) : bool :=
  bool_decide (id ∈ loaded_modules (supervisor s)).

Definition module_and_prespawn (s : MetaRuntimeHandle) (id : string) :
    option (ModuleConfig * option PreSpawnData) :=
  module ← find_first (λ module, module_id module =b id) (modules (config s));
  Some (module, find_first (λ data, pre_spawn_module_id data =b id) (pre_spawn (config s))).

(** The guard the core flows share: the module is configured and speaks MCP. *)
Definition mcp_module (id tool : string) (s : MetaRuntimeHandle) :
    Result (ModuleConfig * option PreSpawnData) RuntimeBoundaryError :=
  match module_and_prespawn s id with
  | Some (module, pre_spawn) =>
      if module_uses_mcp module pre_spawn then Ok (module, pre_spawn)
      else Err (mcp_required_error id tool)
  | None => Err (mcp_required_error id tool)
  end.

Definition run_module_boundary_with_env (n : nat) (module : ModuleConfig) (pre_spawn : option PreSpawnData)
    (extra_env : list (string * string)) (timeout_ms : Z) : Result EventEnvelope RuntimeBoundaryError :=
  let env := module_env_with_extra module pre_spawn extra_env in
  line ←? map_err ProcessError (process_line n (module_command module) (module_args module) env timeout_ms);
  map_err NormalizeError (normalize_event_line line).

Definition run_module_boundary_once (n : nat) (module : ModuleConfig) (pre_spawn : option PreSpawnData)
    (timeout_ms : Z) : Result EventEnvelope RuntimeBoundaryError :=
  run_module_boundary_with_env n module pre_spawn [] timeout_ms.
End boundary.

(** ** Routed module calls *)

Record ModuleRouteRequest := mkRouteRequest {
  request_module_id : string;
  request_method : string;
  request_params : Value;
}.

Record ModuleRouteResponse := mkRouteResponse {
  response_module_id : string;
  response_method : string;
  response_payload : Value;
}.

Inductive ModuleRouteError :=
| UnloadedModule (id : string)
| ModuleRuntime (e : RuntimeBoundaryError)
| UnexpectedRouteResponse.

Definition MCP_REQUIRED_CORE_MODULES : list string := ["router"; "delivery"; "memory"].

Definition core_module_requires_mcp (id : string) : bool := existsb (λ m, m =b id) MCP_REQUIRED_CORE_MODULES.

Inductive RuntimeFromConfigError :=
| FromConfig (e : ConfigResolutionError)
| FromRuntime (e : RuntimeBoundaryError).

Section route_call.
Context `{RuntimeEnv}.

Definition route_module_call (s : MetaRuntimeHandle) (request : ModuleRouteRequest) (timeout_ms : Z) :
    Result ModuleRouteResponse ModuleRouteError :=
  let id := request_module_id request in
  if negb (is_module_loaded s id) then Err (UnloadedModule id)
  else
    module ←? ok_or (find_first (λ module, module_id module =b id) (modules (config s))) (UnloadedModule id);
    let pre_spawn := find_first (λ data, pre_spawn_module_id data =b id) (pre_spawn (config s)) in
    let uses_mcp := module_uses_mcp module pre_spawn in
    if core_module_requires_mcp (module_id module) && negb uses_mcp
    then Err (ModuleRuntime (mcp_required_error id (request_method request)))
    else if uses_mcp then
      response ←? map_err ModuleRuntime
        (call_module_mcp_tool_text (world_step s) module pre_spawn (request_method request)
           (request_params request) timeout_ms);
      let payload := unwrap_or (json_parse response) (VString response) in
      Ok (mkRouteResponse id (request_method request) payload)
    else
      envelope ←? map_err ModuleRuntime (run_module_boundary_once (world_step s) module pre_spawn timeout_ms);
      match event envelope with
      | ModuleEvt e =>
          if event_module e =b id
          then Ok (mkRouteResponse id (request_method request) (module_payload e))
          else Err UnexpectedRouteResponse
      | AgentEvent _ _ _ => Err UnexpectedRouteResponse
      end.

Definition run_discovered_module_once (n : nat) (cfg : MetaConfig) (id : string) (timeout_ms : Z) :
    Result EventEnvelope RuntimeFromConfigError :=
  module ←? ok_or (find_first (λ module, module_id module =b id) (modules cfg))
              (FromConfig (ModuleNotConfigured id));
  if negb (existsb (λ d, d =b id) (discovery_modules (discovery cfg)))
  then Err (FromConfig (ModuleNotDiscovered id))
  else
    let pre_spawn := find_first (λ data, pre_spawn_module_id data =b id) (pre_spawn cfg) in
    map_err FromRuntime (run_module_boundary_once n module pre_spawn timeout_ms).
End route_call.

(** ** Theorems *)

Section theorems.
Context `{RuntimeEnv}.

Lemma wp_call_tool module pre_spawn tool args Q s :
  wp (call_tool module pre_spawn tool args) Q s ↔
  Q (call_module_mcp_tool_json (world_step s) module pre_spawn tool args CORE_MODULE_MCP_TIMEOUT) (tick s).
Proof. done. Qed.

Lemma unsettled_class_None o : unsettled_class o = None ↔ close_is_settled o = true.
Proof. unfold unsettled_class. destruct (close_is_settled o); naive_solver. Qed.

Lemma close_failure_None id o : close_failure id o = None ↔ close_is_settled o = true.
Proof.
  rewrite <- unsettled_class_None. unfold close_failure. destruct (unsettled_class o); naive_solver.
Qed.

Lemma finalize_Ok {T} (op : Result T RuntimeBoundaryError) cl v :
  finalize_mcp_operation_with_close op cl = Ok v ↔ op = Ok v ∧ cl = Ok tt.
Proof. destruct op as [a|e], cl as [[]|c]; simpl; naive_solver. Qed.

Lemma close_settled_Ok n id cfg : close_settled n id cfg = Ok tt ↔ close_is_settled (mcp_close n cfg) = true.
Proof. rewrite <- (close_failure_None id). unfold close_settled. destruct (close_failure _ _); naive_solver. Qed.

(** A tool call succeeds exactly when the caller may block, the module's
    server connected, listed the tool, answered the call, and closed with
    settled facts; the text is that of the answer.  So a successful module
    call never leaves a server behind. *)
Theorem mcp_call_succeeds_iff_settled n module pre_spawn tool args timeout_ms text :
  let server := module_server module pre_spawn in
  call_module_mcp_tool_text n module pre_spawn tool args timeout_ms = Ok text ↔
  in_tokio n = false ∧ tokio_build n = None ∧ mcp_connect n server timeout_ms = None ∧
  (∃ tools, mcp_list_tools n server timeout_ms = Ok tools ∧ tool ∈ tools) ∧
  (∃ blocks, mcp_call_tool n server tool args timeout_ms = Ok blocks ∧ text = content_blocks_to_text blocks) ∧
  close_is_settled (mcp_close n server) = true.
Proof.
  intros server. unfold call_module_mcp_tool_text, run_in_tokio_runtime. fold server.
  destruct (in_tokio n); [naive_solver|]. destruct (tokio_build n); [naive_solver|].
  unfold connect_within. destruct (mcp_connect n server timeout_ms) as [failure|]; simpl.
  { destruct (failure_close failure ≫= _); naive_solver. }
  rewrite finalize_Ok, close_settled_Ok.
  unfold list_tools_with_timeout, call_tool_with_timeout.
  destruct (mcp_list_tools n server timeout_ms) as [tools|[|]]; cbn [and_then];
    [|split; [by intros []|by intros (_ & _ & _ & (? & ? & _) & _)]..].
  assert (Hin : existsb (λ name, name =b tool) tools = true ↔ tool ∈ tools).
  { rewrite existsb_elem_of. setoid_rewrite bool_decide_eq_true. naive_solver. }
  destruct (existsb _ tools) eqn:Ex; cbn [negb].
  - assert (tool ∈ tools) by by apply Hin.
    destruct (mcp_call_tool n server tool args timeout_ms) as [blocks|[|]].
    + split; [intros [[= <-] Hs]; eauto 10|]. intros (_ & _ & _ & _ & (b & [= <-] & ->) & Hs). done.
    + split; [by intros []|]. by intros (_ & _ & _ & _ & (? & ? & _) & _).
    + split; [by intros []|]. by intros (_ & _ & _ & _ & (? & ? & _) & _).
  - split; [by intros []|]. intros (_ & _ & _ & (t & [= <-] & Ht) & _). apply Hin in Ht. congruence.
Qed.

(** The close failure of an outcome is in an error: alone, or beside the
    operation's own failure. *)
Definition reports_close (close err : RuntimeBoundaryError) : Prop :=
  err = close ∨ ∃ primary c, close = McpError c ∧ err = McpError (OperationFailedWithCloseFailure primary c).

(** Once the server of a call was connected, a close that did not settle
    is always reported: the call fails, and its error is the close failure or
    carries it beside the operation's own error. *)
Theorem mcp_close_failure_reported n module pre_spawn tool args timeout_ms close :
  let server := module_server module pre_spawn in
  in_tokio n = false → tokio_build n = None → mcp_connect n server timeout_ms = None →
  close_failure (module_id module) (mcp_close n server) = Some close →
  ∃ err, call_module_mcp_tool_text n module pre_spawn tool args timeout_ms = Err err ∧ reports_close close err.
Proof.
  intros server H1 H2 H3 Hc. unfold call_module_mcp_tool_text, run_in_tokio_runtime, connect_within. fold server.
  rewrite H1, H2, H3. simpl. unfold close_settled. rewrite Hc.
  assert (∃ c, close = McpError c) as [c ->].
  { unfold close_failure in Hc. destruct (unsettled_class _); simplify_eq/=; eauto. }
  assert (Hop : ∀ op : Result string RuntimeBoundaryError,
    (∀ e, op = Err e → ∃ p, e = McpError p) →
    ∃ err, finalize_mcp_operation_with_close op (Err (McpError c)) = Err err ∧ reports_close (McpError c) err).
  { intros [v|e] He; simpl; eexists; (split; [done|]); [by left|].
    destruct (He e eq_refl) as [p ->]. right. eauto. }
  apply Hop. intros e. unfold list_tools_with_timeout, call_tool_with_timeout.
  destruct (mcp_list_tools n server timeout_ms) as [tools|[|]]; simpl;
    [|intros [= <-]; unfold mcp_timeout_error, mcp_list_tools_error; eauto..].
  destruct (existsb _ tools); simpl; [|intros [= <-]; eauto].
  destruct (mcp_call_tool n server tool args timeout_ms) as [blocks|[|]]; [done|..];
    intros [= <-]; unfold mcp_timeout_error, mcp_tool_call_error; eauto.
Qed.

Lemma core_module_requires_mcp_spec id :
  core_module_requires_mcp id = true ↔ id ∈ MCP_REQUIRED_CORE_MODULES.
Proof.
  unfold core_module_requires_mcp. rewrite existsb_elem_of.
  setoid_rewrite bool_decide_eq_true. naive_solver.
Qed.

(** A routed call answers only for a loaded, configured module, and echoes
    its id and method.  A core module (router, delivery, memory) is answered
    by its MCP tool and never by running its command; any other module that
    answers through its command answered with an event of its own. *)
Theorem routed_call_answer_is_the_modules s request timeout_ms resp :
  route_module_call s request timeout_ms = Ok resp →
  let id := request_module_id request in
  is_module_loaded s id = true ∧ response_module_id resp = id ∧ response_method resp = request_method request ∧
  ∃ module, find_first (λ m, module_id m =b id) (modules (config s)) = Some module ∧
    let pre_spawn := find_first (λ data, pre_spawn_module_id data =b id) (pre_spawn (config s)) in
    (∃ text, call_module_mcp_tool_text (world_step s) module pre_spawn (request_method request)
               (request_params request) timeout_ms = Ok text ∧
             response_payload resp = unwrap_or (json_parse text) (VString text)) ∨
    (id ∉ MCP_REQUIRED_CORE_MODULES ∧ ∃ envelope e,
       run_module_boundary_once (world_step s) module pre_spawn timeout_ms = Ok envelope ∧
       event envelope = ModuleEvt e ∧ event_module e = id ∧ response_payload resp = module_payload e).
Proof.
  intros Hr id. unfold route_module_call in Hr. fold id in Hr.
  destruct (is_module_loaded s id); [|done]. cbn [negb] in Hr.
  apply and_then_Ok in Hr as (module & Hm & Hr).
  destruct (find_first _ (modules (config s))) as [m|] eqn:Hf; [|done]. injection Hm as ->.
  pose proof Hf as Hid. apply find_first_Some in Hid as [_ Hid]. apply bool_decide_eq_true in Hid.
  rewrite Hid in Hr. destruct (module_uses_mcp _ _); cbn [negb] in Hr.
  - rewrite andb_false_r in Hr. apply and_then_Ok in Hr as (text & Ht & [= <-]).
    destruct (call_module_mcp_tool_text _ _ _ _ _ _) eqn:E; simplify_eq/=. split_and!; eauto 10.
  - destruct (core_module_requires_mcp id) eqn:Hcore; [done|]. cbn [andb] in Hr.
    apply and_then_Ok in Hr as (envelope & He & Hr).
    destruct (run_module_boundary_once _ _ _ _) eqn:E; simplify_eq/=.
    destruct (event envelope) as [|e] eqn:Hev; [done|].
    destruct (bool_decide_reflect (event_module e = request_module_id request)); [|done]. injection Hr as <-. simpl.
    split_and!; [done..|]. exists module. split; [done|]. right. split; [|eauto 10].
    rewrite <- core_module_requires_mcp_spec. by rewrite Hcore.
Qed.
End theorems.

(** ** Instances of the theorems *)

Module BoundaryExamples.

Definition stubborn_env : RuntimeEnv := {|
  clock := example_clock; clock_u64 := example_clock_u64;
  in_tokio _ := false; tokio_build _ := None;
  mcp_connect _ _ _ := None;
  mcp_list_tools _ _ _ := Ok ["echo"];
  mcp_call_tool _ _ _ _ _ := Err Elapsed;
  mcp_close _ _ := CloseStdio LeaderReaped WitnessStillOpen;
  close_is_settled o := match o with CloseStdio LeaderReaped WitnessClosed => true | _ => false end;
  blocks_to_json _ := "[]";
  process_line _ command _ _ _ := Err (SpawnFailed command);
  ledger_write _ _ _ := None; ledger_read _ _ := Ok (mkPersisted [] []); entropy _ := Some 1; entropy_u128 _ := example_entropy;
  conflict_from_value _ := Err ""; origin_from_value _ := None;
  json_parse _ := None; json_render _ := ""; envelope_from_value _ := None; event_to_string _ := None;
  debug_boundary _ := ""; debug_routing _ := ""; debug_delivery _ := "";
|}.

Lemma mcp_close_failure_reported_witness :
  @call_module_mcp_tool_text stubborn_env 0 (example_module "router") None "echo" VNull 5000
  = Err (McpError (OperationFailedWithCloseFailure (McpTimeout "router" "call_tool:echo" 5000)
                     (CloseUnsettled "router" StdoutOpen))) ∧
  ∃ err, @call_module_mcp_tool_text stubborn_env 0 (example_module "router") None "echo" VNull 5000 = Err err ∧
    reports_close (McpError (CloseUnsettled "router" StdoutOpen)) err.
Proof.
  split; [vm_compute; reflexivity|].
  refine (@mcp_close_failure_reported stubborn_env 0 (example_module "router") None "echo" VNull 5000 _
            eq_refl eq_refl eq_refl _).
  vm_compute; reflexivity.
Defined.

Definition echo_env : RuntimeEnv := example_env (λ _ _, Some "pong") false [].

Lemma routed_call_answer_is_the_modules_witness :
  let request := mkRouteRequest "delivery" "delivery.send" VNull in
  let resp := mkRouteResponse "delivery" "delivery.send" (VString "pong") in
  @route_module_call echo_env (example_runtime ["delivery"]) request 5000 = Ok resp ∧
  is_module_loaded (example_runtime ["delivery"]) "delivery" = true.
Proof.
  intros request resp.
  assert (Hr : @route_module_call echo_env (example_runtime ["delivery"]) request 5000 = Ok resp)
    by (vm_compute; reflexivity).
  split; [exact Hr|].
  exact (proj1 (@routed_call_answer_is_the_modules echo_env _ _ _ _ Hr)).
Defined.

End BoundaryExamples.
