(* ===== verification/Supervisor.v ===== *)
(** * Supervision ([runtime/supervisor.rs], [runtime/module_process.rs])

    A module runs as a child process with one owner.  Starting it reads its
    first event line and restarts it within a budget; a process whose exit was
    not confirmed stays owned until it is.  The operating system is a
    parameter; [process_journal] records what happened to each process. *)

From stdpp Require Import gmultiset.
From S2P Require Import Prelude Strings Json RuntimeTypes EventTransport ModuleBoundary.
Open Scope Z_scope.

(** [FirstLine] *)
Inductive FirstLine :=
| FirstLineRead (line : string)
| FirstLineClosed
| FirstLineTimedOut
| FirstLineReadFailed (message : string).

(** An error of [wait], and whether its code is [ECHILD]. *)
Record WaitError := mkWaitError { wait_message : string; wait_echild : bool }.

Inductive ReleaseWaitFailure := NoWaitableChild | Unconfirmed.

(** The operating system's processes, seen through [std::process]; reading the
    first line of a module's output; and the [Debug] text of a normalization error. *)
Class ModuleOs := {
  (** The process id of a started child, and whether its output pipe was given. *)
  os_spawn : nat → string → list string → list (string * string) → Result (Z * bool) string;
  os_first_line : nat → Z → Z → FirstLine;
  (** Whether it has exited. *)
  os_try_wait : nat → Z → Result bool string;
  os_kill : nat → Z → option string;
  os_wait : nat → Z → option WaitError;
  debug_normalization : NormalizationError → string;
}.

Record ModuleCleanupReapedProcess := mkReaped { reaped_module_id : string; reaped_process_id : Z }.

Record ModuleCleanupProcessObservation := mkOutstanding {
  outstanding_module_id : string;
  outstanding_process_id : Z;
  outstanding_kill_sent : bool;
  child_reaped : bool;
  reader_pending : bool;
  outstanding_failure : option ModuleCleanupFailure;
}.

Record ModuleCleanupObservation := mkCleanupObservation {
  cleanup_phase : ModuleCleanupPhase;
  outstanding : list ModuleCleanupProcessObservation;
  cleanup_reaped : list ModuleCleanupReapedProcess;
}.

Record RuntimeShutdownReport := mkShutdownReport {
  terminated_modules : list string;
  orphan_processes : Z;
  physical_cleanup : ModuleCleanupObservation;
}.

(** ** One process *)

Section process.
Context `{ModuleOs}.

Definition journal (e : ProcessEvent) (s : MetaRuntimeHandle) : MetaRuntimeHandle :=
  s <| process_journal := process_journal s ++ [e] |>.

Definition is_reaped (p : ModuleProcess) : bool := process_state p =b Reaped.

(** A successful [try_wait] or [wait]. *)
Definition mark_reaped (p : ModuleProcess) (s : MetaRuntimeHandle) : ModuleProcess * MetaRuntimeHandle :=
  (p <| process_state := Reaped |>, journal (Confirmed (process_pid p)) s).

Definition mark_failure (operation : ModuleCleanupOperation) (message : string) (p : ModuleProcess) : ModuleProcess :=
  p <| process_failure := Some (mkCleanupFailure operation message) |>.

Definition terminate_failed (operation : ModuleCleanupOperation) (message : string) (p : ModuleProcess)
    (s : MetaRuntimeHandle) : Result unit string * ModuleProcess * MetaRuntimeHandle :=
  (Err message, mark_failure operation message p, s).

Definition terminate_reaped (p : ModuleProcess) (s : MetaRuntimeHandle) :
    Result unit string * ModuleProcess * MetaRuntimeHandle :=
  let (p, s) := mark_reaped p s in (Ok tt, p, s).

Definition terminate (force_failure : bool) (p : ModuleProcess) (s : MetaRuntimeHandle) :
    Result unit string * ModuleProcess * MetaRuntimeHandle :=
  let pid := process_pid p in
  if is_reaped p then (Ok tt, p, s)
  else if force_failure then terminate_failed CleanupKill "forced terminate failure for testing" p s
  else
    match os_try_wait (world_step s) pid with
    | Ok true => terminate_reaped p (tick s)
    | Ok false =>
        let s := tick s in
        match os_kill (world_step s) pid with
        | None =>
            let s := tick s in
            let p := p <| process_kill_sent := true |> in
            match os_wait (world_step s) pid with
            | None => terminate_reaped p (tick s)
            | Some err => terminate_failed CleanupWait ("wait after kill failed: " +:+ wait_message err) p (tick s)
            end
        | Some kill_err =>
            let s := tick s in
            match os_try_wait (world_step s) pid with
            | Ok true => terminate_reaped p (tick s)
            | Ok false =>
                terminate_failed CleanupKill ("kill failed while process still running: " +:+ kill_err) p (tick s)
            | Err probe_err =>
                terminate_failed CleanupWait
                  ("kill failed and process status probe failed: " +:+ kill_err +:+ "; " +:+ probe_err) p (tick s)
            end
        end
    | Err err => terminate_failed CleanupWait ("try_wait failed: " +:+ err) p (tick s)
    end.

(** One non-blocking step of a retained process. *)
Definition progress_cleanup (p : ModuleProcess) (s : MetaRuntimeHandle) : bool * ModuleProcess * MetaRuntimeHandle :=
  let pid := process_pid p in
  if is_reaped p then (true, p, s)
  else
    match os_try_wait (world_step s) pid with
    | Ok true => let (p, s) := mark_reaped p (tick s) in (true, p, s)
    | Ok false =>
        let s := tick s in
        if process_kill_sent p then (false, p, s)
        else match os_kill (world_step s) pid with
             | None => (false, p <| process_kill_sent := true |>, tick s)
             | Some err =>
                 (false, mark_failure CleanupKill ("kill failed while process still running: " +:+ err) p, tick s)
             end
    | Err err => (false, mark_failure CleanupWait ("try_wait failed: " +:+ err) p, tick s)
    end.

Definition reaped (p : ModuleProcess) : ModuleCleanupReapedProcess := mkReaped (process_module_id p) (process_pid p).

(** On the platforms without a reader thread. *)
Definition observation (p : ModuleProcess) : ModuleCleanupProcessObservation :=
  mkOutstanding (process_module_id p) (process_pid p) (process_kill_sent p) (is_reaped p) false (process_failure p).

Definition classify_release_wait_error (error : WaitError) : ReleaseWaitFailure :=
  if wait_echild error then NoWaitableChild else Unconfirmed.

(** [Drop]: kill, then wait; what the wait could not confirm is abandoned. *)
Definition drop_process (p : ModuleProcess) (s : MetaRuntimeHandle) : MetaRuntimeHandle :=
  if is_reaped p then s
  else
    let s := tick s in
    match os_wait (world_step s) (process_pid p) with
    | None => (mark_reaped p (tick s)).2
    | Some err =>
        match classify_release_wait_error err with
        | NoWaitableChild => journal (Confirmed (process_pid p)) (tick s)
        | Unconfirmed => journal (Abandoned (process_pid p)) (tick s)
        end
    end.

Definition spawn (module_id command : string) (args : list string) (env : list (string * string))
    (s : MetaRuntimeHandle) : Result ModuleProcess ProcessBoundaryError * MetaRuntimeHandle :=
  match os_spawn (world_step s) command args env with
  | Err err => (Err (SpawnFailed err), tick s)
  | Ok (pid, has_stdout) =>
      let s := journal (Spawned pid) (tick s) in
      let process := mkProcess module_id pid Running false None in
      if (has_stdout : bool) then (Ok process, s) else (Err MissingStdout, drop_process process s)
  end.
End process.

(** ** Retained cleanup *)

Section cleanup.
Context `{ModuleOs}.

Definition set_retained (l : list ModuleProcess) (s : MetaRuntimeHandle) : MetaRuntimeHandle :=
  s <| supervisor := supervisor s <| retained_cleanup := l |> |>.

Definition retain (p : ModuleProcess) (s : MetaRuntimeHandle) : MetaRuntimeHandle :=
  if is_reaped p then s else set_retained (retained_cleanup (supervisor s) ++ [p]) s.

Definition retain_all (l : list ModuleProcess) (s : MetaRuntimeHandle) : MetaRuntimeHandle :=
  foldl (λ s p, retain p s) s l.

Definition cleanup_observation (reaped : list ModuleCleanupReapedProcess) (s : MetaRuntimeHandle) : ModuleCleanupObservation :=
  let outstanding := map observation (retained_cleanup (supervisor s)) in
  let phase := if is_empty outstanding then CleanupSettled
               else if existsb (λ p, is_some (outstanding_failure p)) outstanding then CleanupFailed
               else CleanupPending in
  mkCleanupObservation phase outstanding reaped.

(** [retain_mut]: what is reaped, and what stays. *)
Fixpoint progress_all (processes : list ModuleProcess) (s : MetaRuntimeHandle) :
    list ModuleCleanupReapedProcess * list ModuleProcess * MetaRuntimeHandle :=
  match processes with
  | [] => ([], [], s)
  | p :: rest =>
      let '(done, p, s) := progress_cleanup p s in
      let '(gone, kept, s) := progress_all rest s in
      if (done : bool) then (reaped p :: gone, kept, s) else (gone, p :: kept, s)
  end.

Definition progress (s : MetaRuntimeHandle) : ModuleCleanupObservation * MetaRuntimeHandle :=
  let '(gone, kept, s) := progress_all (retained_cleanup (supervisor s)) s in
  let s := set_retained kept s in
  (cleanup_observation gone s, s).

Definition module_cleanup_observation (s : MetaRuntimeHandle) : ModuleCleanupObservation := cleanup_observation [] s.
Definition progress_module_cleanup (s : MetaRuntimeHandle) : ModuleCleanupObservation * MetaRuntimeHandle := progress s.

(** ** Shutdown *)

(** The loop over the children: confirmed reaps, and the count of the others, which are retained. *)
Fixpoint terminate_children (children : list ModuleProcess) (s : MetaRuntimeHandle) :
    list ModuleCleanupReapedProcess * Z * MetaRuntimeHandle :=
  match children with
  | [] => ([], 0, s)
  | child :: rest =>
      let '(result, child, s) := terminate false child s in
      match result with
      | Ok _ => let '(gone, orphans, s) := terminate_children rest s in (reaped child :: gone, orphans, s)
      | Err _ => let '(gone, orphans, s) := terminate_children rest (retain child s) in (gone, orphans + 1, s)
      end
  end.

Definition shutdown (s : MetaRuntimeHandle) : RuntimeShutdownReport * MetaRuntimeHandle :=
  let sup := supervisor s in
  let seq := match last (lifecycle_events sup) with Some event => lifecycle_seq event + 1 | None => 0 end in
  let terminated := bset_elements (loaded_modules sup) in
  let children := btree_values (live_children sup) in
  let s := s <| supervisor := sup
    <| lifecycle_events := lifecycle_events sup ++ [mkLifecycle seq ShutdownRequested; mkLifecycle (seq + 1) ShutdownComplete] |>
    <| running := false |> <| loaded_modules := ∅ |> <| live_children := ∅ |> |> in
  let '(gone, orphans, s) := terminate_children children s in
  let (physical, s) := progress s in
  let physical := mkCleanupObservation (cleanup_phase physical) (outstanding physical)
                    (gone ++ cleanup_reaped physical) in
  (mkShutdownReport terminated (Z.max orphans (Z.of_nat (length (outstanding physical)))) physical, s).
End cleanup.

(** ** Starting a module *)

Record SuperviseModuleStartResult := mkStart {
  start_event : option EventEnvelope;
  start_child : option ModuleProcess;
  start_transitions : list ModuleHealthTransition;
  terminal_error : option RuntimeBoundaryError;
  start_retained : list ModuleProcess;
}.

Section start.
Context `{RuntimeEnv} `{ModuleOs}.

Definition mcp_ready_event (module : ModuleConfig) (tools : list string) (s : MetaRuntimeHandle) :
    EventEnvelope * MetaRuntimeHandle :=
  let (timestamp_ms, s) := current_time_ms s in
  (mkEnvelope ("evt-mcp-ready-" +:+ module_id module +:+ "-" +:+ fmt_dec timestamp_ms) "module" timestamp_ms
     (ModuleEvt (mkModuleEvent (module_id module) "mcp.ready" (obj [("tools", VArray (map str tools))]))), s).

Definition supervisor_warning_event (id : string) (error : RuntimeBoundaryError) (s : MetaRuntimeHandle) :
    EventEnvelope * MetaRuntimeHandle :=
  let (timestamp_ms, s) := current_time_ms s in
  (mkEnvelope ("evt-supervisor-warning-" +:+ id +:+ "-" +:+ fmt_dec timestamp_ms) "module" timestamp_ms
     (ModuleEvt (mkModuleEvent id "supervisor.warning" (obj [("error", str (debug_boundary error))]))), s).

Definition apply_restart_backoff (options : RuntimeOptions) (s : MetaRuntimeHandle) : MetaRuntimeHandle :=
  if supervisor_restart_backoff_ms options =? 0 then s else tick s.

(** A trailing newline, and the carriage return before it. *)
Definition chomp (line : string) : string :=
  match strip_suffix newline line with
  | Some line => unwrap_or (strip_suffix (String "013"%char "") line) line
  | None => line
  end.

(** What a first line amounts to: an event, or why not. *)
Definition first_event (timeout_ms : Z) (first : FirstLine) : Result EventEnvelope (string * RuntimeBoundaryError) :=
  match first with
  | FirstLineRead line =>
      match normalize_event_line (chomp line) with
      | Ok event => Ok event
      | Err err => Err ("normalize error: " +:+ debug_normalization err, NormalizeError err)
      end
  | FirstLineClosed => Err ("empty output", ProcessError EmptyOutput)
  | FirstLineReadFailed err => Err ("io read error: " +:+ err, ProcessError (ProcessIo err))
  | FirstLineTimedOut => Err ("timeout(" +:+ fmt_dec timeout_ms +:+ "ms)", ProcessError (ProcessTimeout timeout_ms))
  end.

Definition spawn_module_capture_first_event (module : ModuleConfig) (pre_spawn : option PreSpawnData)
    (timeout_ms : Z) (force_terminate_failure : bool) (s : MetaRuntimeHandle) :
    Result (EventEnvelope * ModuleProcess) (RuntimeBoundaryError * option ModuleProcess) * MetaRuntimeHandle :=
  let env := module_env_with_extra module pre_spawn [] in
  match spawn (module_id module) (module_command module) (module_args module) env s with
  | (Err error, s) => (Err (ProcessError error, None), s)
  | (Ok child, s) =>
      let first := os_first_line (world_step s) (process_pid child) timeout_ms in
      let s := tick s in
      match first_event timeout_ms first with
      | Ok event => (Ok (event, child), s)
      | Err (context, error) =>
          match terminate force_terminate_failure child s with
          | (Err terminate_err, child, s) =>
              (Err (ProcessError (ProcessIo ("cleanup terminate failed after " +:+ context +:+ ": " +:+ terminate_err)),
                    Some child), s)
          | (Ok _, _, s) => (Err (error, None), s)
          end
      end
  end.

Definition supervise_mcp_module_start (module : ModuleConfig) (pre_spawn : option PreSpawnData) (timeout_ms : Z)
    (s : MetaRuntimeHandle) : SuperviseModuleStartResult * MetaRuntimeHandle :=
  let id := module_id module in
  let transitions := [mkTransition id None Starting 0] in
  let probed := probe_module_mcp_tools (world_step s) module pre_spawn timeout_ms in
  let s := tick s in
  match probed with
  | Ok tools =>
      let (event, s) := mcp_ready_event module tools s in
      (mkStart (Some event) None (transitions ++ [mkTransition id (Some Starting) Healthy 1]) None [], s)
  | Err error =>
      (mkStart None None
         (transitions ++ [mkTransition id (Some Starting) Failed 1; mkTransition id (Some Failed) Stopped 1])
         (Some error) [], s)
  end.

Definition should_restart (module : ModuleConfig) (options : RuntimeOptions) (attempts : Z) : bool :=
  match restart_policy module with Always => attempts <=? always_restart_budget options | _ => false end.

Definition should_retry (module : ModuleConfig) (options : RuntimeOptions) (attempts : Z) : bool :=
  match restart_policy module with
  | Never => false
  | OnFailure => attempts <=? on_failure_retry_budget options
  | Always => attempts <=? always_restart_budget options
  end.

(** The loop; [fuel] is the number of attempts it may still make. *)
Fixpoint supervise_attempts (fuel : nat) (module : ModuleConfig) (pre_spawn : option PreSpawnData) (timeout_ms : Z)
    (options : RuntimeOptions) (attempts : Z) (state : ModuleHealthState) (transitions : list ModuleHealthTransition)
    (retained : list ModuleProcess) (s : MetaRuntimeHandle) : option (SuperviseModuleStartResult * MetaRuntimeHandle) :=
  match fuel with
  | O => None
  | S fuel =>
      let id := module_id module in
      let attempts := attempts + 1 in
      let force := supervisor_test_force_terminate_failure options in
      match spawn_module_capture_first_event module pre_spawn timeout_ms force s with
      | (Ok (event, child), s) =>
          let transitions := transitions ++ [mkTransition id (Some state) Healthy attempts] in
          if should_restart module options attempts then
            let transitions := transitions ++ [mkTransition id (Some Healthy) Restarting attempts] in
            match terminate force child s with
            | (Err err, child, s) =>
                Some (mkStart (Some event) (Some child)
                        (transitions ++ [mkTransition id (Some Restarting) Failed attempts;
                                         mkTransition id (Some Failed) Healthy attempts])
                        (Some (ProcessError (ProcessIo ("terminate child failed during restart: " +:+ err)))) retained, s)
            | (Ok _, _, s) =>
                supervise_attempts fuel module pre_spawn timeout_ms options attempts Restarting transitions retained
                  (apply_restart_backoff options s)
            end
          else Some (mkStart (Some event) (Some child) transitions None retained, s)
      | (Err (err, unconfirmed), s) =>
          let retained := retained ++ match unconfirmed with Some child => [child] | None => [] end in
          let transitions := transitions ++ [mkTransition id (Some state) Failed attempts] in
          if should_retry module options attempts then
            supervise_attempts fuel module pre_spawn timeout_ms options attempts Restarting
              (transitions ++ [mkTransition id (Some Failed) Restarting attempts]) retained
              (apply_restart_backoff options s)
          else
            Some (mkStart None None (transitions ++ [mkTransition id (Some Failed) Stopped attempts]) (Some err) retained, s)
      end
  end.

(** More attempts than any budget allows. *)
Definition start_fuel (options : RuntimeOptions) : nat :=
  S (Z.to_nat (Z.max (on_failure_retry_budget options) (always_restart_budget options))).

(** The fuel is never exhausted ([supervise_attempts_total]). *)
Definition supervise_module_start (module : ModuleConfig) (pre_spawn : option PreSpawnData) (timeout_ms : Z)
    (options : RuntimeOptions) (s : MetaRuntimeHandle) : SuperviseModuleStartResult * MetaRuntimeHandle :=
  if module_uses_mcp module pre_spawn then supervise_mcp_module_start module pre_spawn timeout_ms s
  else unwrap_or (supervise_attempts (start_fuel options) module pre_spawn timeout_ms options 0 Starting
                    [mkTransition (module_id module) None Starting 0] [] s)
         (mkStart None None [] None [], s).
End start.

(** ** Members *)

Section members.
Context `{RuntimeEnv} `{ModuleOs}.

Definition set_supervisor (sup : SupervisorState) (s : MetaRuntimeHandle) : MetaRuntimeHandle := s <| supervisor := sup |>.

Definition log_event (e : EventEnvelope) (s : MetaRuntimeHandle) : MetaRuntimeHandle :=
  s <| merged_events := insert_event_sorted (merged_events s) e |>.

(** [insert_event_sorted(&mut self.merged_events, supervisor_warning_event(..))] *)
Definition warn (id : string) (error : RuntimeBoundaryError) (s : MetaRuntimeHandle) : MetaRuntimeHandle :=
  let (e, s) := supervisor_warning_event id error s in log_event e s.

Definition set_discovery (l : list string) (s : MetaRuntimeHandle) : MetaRuntimeHandle :=
  let c := config s in
  s <| config := mkMetaConfig (modules c) (mkDiscovery (discovery_namespace (discovery c)) l) (pre_spawn c) |>.

Definition discover (id : string) (s : MetaRuntimeHandle) : MetaRuntimeHandle :=
  let l := discovery_modules (discovery (config s)) in
  if existsb (λ configured, configured =b id) l then s else set_discovery (l ++ [id]) s.

Definition set_child (id : string) (child : option ModuleProcess) (s : MetaRuntimeHandle) : MetaRuntimeHandle :=
  let sup := supervisor s in
  set_supervisor (sup <| live_children := match child with
                                          | Some child => <[id := child]> (live_children sup)
                                          | None => delete id (live_children sup)
                                          end |>) s.

Definition set_loaded (id : string) (s : MetaRuntimeHandle) : MetaRuntimeHandle :=
  let sup := supervisor s in set_supervisor (sup <| loaded_modules := {[id]} ∪ loaded_modules sup |>) s.

(** What a start leaves with the supervisor: its transitions and its unconfirmed children. *)
Definition adopt_start (result : SuperviseModuleStartResult) (s : MetaRuntimeHandle) : MetaRuntimeHandle :=
  let sup := supervisor s in
  retain_all (start_retained result)
    (set_supervisor (sup <| supervisor_transitions := supervisor_transitions sup ++ start_transitions result |>) s).

Definition start_error (result : SuperviseModuleStartResult) : RuntimeMutationError :=
  MutationRuntime (unwrap_or (terminal_error result) (ProcessError EmptyOutput)).

(** The old child is taken out and terminated; when that fails it is put back. *)
Definition terminate_existing (id : string) : M MetaRuntimeHandle string unit := λ s,
  match live_children (supervisor s) !! id with
  | None => (Ok tt, s)
  | Some existing =>
      let s := set_child id None s in
      match terminate (supervisor_test_force_terminate_failure (runtime_options s)) existing s with
      | (Ok _, _, s) => (Ok tt, s)
      | (Err err, existing, s) => (Err err, set_child id (Some existing) s)
      end
  end.

(** The replacement of an aborted respawn: terminated, or retained. *)
Definition abort_replacement (child : ModuleProcess) (error_message : string) (s : MetaRuntimeHandle) : string * MetaRuntimeHandle :=
  match terminate false child s with
  | (Ok _, _, s) => (error_message, s)
  | (Err replacement_err, child, s) =>
      (error_message +:+ "; failed to terminate replacement child after aborted respawn: " +:+ replacement_err,
       retain child s)
  end.

Definition install_child (id : string) (event : EventEnvelope) (child : ModuleProcess) :
    M MetaRuntimeHandle RuntimeMutationError unit := λ s,
  match terminate_existing id s with
  | (Err err, s) =>
      let (message, s) := abort_replacement child ("failed to terminate existing child before respawn: " +:+ err) s in
      let runtime_error := ProcessError (ProcessIo message) in
      (Err (MutationRuntime runtime_error), warn id runtime_error s)
  | (Ok _, s) => (Ok tt, log_event event (set_child id (Some child) (set_loaded id s)))
  end.

Definition install_mcp (id : string) (event : EventEnvelope) : M MetaRuntimeHandle RuntimeMutationError unit := λ s,
  match terminate_existing id s with
  | (Err err, s) =>
      let runtime_error := ProcessError (ProcessIo ("failed to terminate existing child before MCP respawn: " +:+ err)) in
      (Err (MutationRuntime runtime_error), warn id runtime_error s)
  | (Ok _, s) => (Ok tt, log_event event (set_loaded id s))
  end.

Definition spawn_member (id : string) (timeout_ms : Z) : M MetaRuntimeHandle RuntimeMutationError unit :=
  found ← gets (λ s, module_and_prespawn s id);
  target ← lift_result (ok_or found (MutationConfig (ModuleNotConfigured id)));
  let module : ModuleConfig := target.1 in
  let pre_spawn : option PreSpawnData := target.2 in
  options ← gets runtime_options;
  result ← lift_state (supervise_module_start module pre_spawn timeout_ms options);
  _ ← modify (adopt_start result);
  _ ← modify (λ s, match terminal_error result with Some error => warn id error s | None => s end);
  event ← lift_result (ok_or (start_event result) (start_error result));
  _ ← modify (discover id);
  if negb (module_uses_mcp module pre_spawn) then
    child ← lift_result (ok_or (start_child result) (start_error result));
    install_child id event child
  else install_mcp id event.

Fixpoint spawn_missing (ids : list string) (timeout_ms : Z) : M MetaRuntimeHandle RuntimeMutationError nat :=
  match ids with
  | [] => mret 0%nat
  | id :: rest =>
      loaded ← gets (λ s, is_module_loaded s id);
      if (loaded : bool) then spawn_missing rest timeout_ms
      else
        _ ← spawn_member id timeout_ms;
        added ← spawn_missing rest timeout_ms;
        mret (S added)
  end.

Definition reconcile_modules (ids : list string) (timeout_ms : Z) : M MetaRuntimeHandle RuntimeMutationError nat :=
  c ← gets config;
  _ ← lift_result (match find_first (λ id, forallb (λ configured, negb (module_id configured =b id)) (modules c)) ids with
                   | Some id => Err (MutationConfig (ModuleNotConfigured id))
                   | None => Ok tt
                   end);
  _ ← modify (set_discovery ids);
  spawn_missing ids timeout_ms.
End members.

(** ** Health paths *)

Definition legal_edge (a b : ModuleHealthState) : bool :=
  match a, b with
  | Starting, Healthy | Starting, Failed | Restarting, Healthy | Restarting, Failed
  | Healthy, Restarting | Failed, Restarting | Failed, Stopped | Failed, Healthy => true
  | _, _ => false
  end.

(** The attempt a transition that leaves [a] belongs to, after attempt [n]: a start is a new
    attempt, a restart is one unless the old process could not be stopped for it. *)
Definition attempt_ok (a : ModuleHealthState) (n k : Z) : Prop :=
  match a with Starting => k = n + 1 | Restarting => k = n + 1 ∨ k = n | _ => k = n end.

(** [l] leads a module from [a] at attempt [n] to [b] at attempt [k], each transition leaving the
    state before it along a legal edge. *)
Fixpoint health_path (id : string) (a : ModuleHealthState) (n : Z) (l : list ModuleHealthTransition)
    (b : ModuleHealthState) (k : Z) : Prop :=
  match l with
  | [] => a = b ∧ n = k
  | t :: l =>
      transition_module_id t = id ∧ transition_from t = Some a ∧ legal_edge a (transition_to t) = true ∧
      attempt_ok a n (transition_attempt t) ∧
      health_path id (transition_to t) (transition_attempt t) l b k
  end.

Lemma health_path_app id a n l b k l' c j :
  health_path id a n l b k → health_path id b k l' c j → health_path id a n (l ++ l') c j.
Proof.
  revert a n. induction l as [|t l IH]; intros a n; simpl; [by intros [-> ->]|].
  intros (H1 & H2 & H3 & H4 & H5) Hl. split_and!; eauto.
Qed.

Section supervision.
Context `{RuntimeEnv} `{ModuleOs}.

(** How a supervised start may end. *)
Record start_report (id : string) (budget : Z) (mcp : bool) (r : SuperviseModuleStartResult) : Prop := {
  sr_path : ∃ l b k, start_transitions r = mkTransition id None Starting 0 :: l ∧
    health_path id Starting 0 l b k ∧ 1 ≤ k ≤ budget + 1 ∧
    match start_event r with Some _ => b = Healthy | None => b = Stopped end;
  sr_child : is_some (start_child r) = is_some (start_event r) && negb mcp;
  sr_error : start_event r = None → is_some (terminal_error r) = true;
}.

Lemma supervise_attempts_spec fuel module pre timeout options attempts state l retained s (budget : Z) :
  let id := module_id module in
  (∀ n, should_restart module options n = true → n ≤ budget) →
  (∀ n, should_retry module options n = true → n ≤ budget) →
  0 ≤ attempts ≤ budget → (Z.to_nat (budget - attempts) < fuel)%nat →
  state = Starting ∨ state = Restarting → health_path id Starting 0 l state attempts →
  ∃ r s', supervise_attempts fuel module pre timeout options attempts state
            (mkTransition id None Starting 0 :: l) retained s = Some (r, s') ∧ start_report id budget false r.
Proof.
  intros id Hrestart Hretry. revert attempts state l retained s.
  induction fuel as [|fuel IH]; intros attempts state l retained s Ha Hfuel Hstate Hl; [lia|].
  assert (Hnext : ∀ b, b = Healthy ∨ b = Failed →
    health_path id Starting 0 (l ++ [mkTransition id (Some state) b (attempts + 1)]) b (attempts + 1)).
  { intros b Hb. eapply health_path_app; [exact Hl|]. destruct Hstate as [-> | ->], Hb as [-> | ->]; split_and!; simpl; auto. }
  cbn [supervise_attempts]. destruct (spawn_module_capture_first_event _ _ _ _ s) as [[[event child]|[err unconfirmed]] s1].
  - destruct (should_restart module options (attempts + 1)) eqn:Hr.
    + apply Hrestart in Hr. destruct (terminate _ child s1) as [[[[]|err] child'] s2].
      * rewrite <- !app_comm_cons. apply IH; [lia|lia|by right|].
        eapply health_path_app; [apply Hnext; by left|done].
      * eexists _, _. split; [reflexivity|]. split; simpl; try done.
        rewrite <- !app_assoc. eexists _, _, _. split; [done|]. split; [|split; [|done]].
        { eapply health_path_app; [exact Hl|]. destruct Hstate as [-> | ->]; simpl; split_and!; auto. }
        lia.
    + eexists _, _. split; [reflexivity|]. split; simpl; try done. eexists _, _, _. split; [done|].
      split; [apply Hnext; by left|]. split; [lia|done].
  - destruct (should_retry module options (attempts + 1)) eqn:Hr.
    + apply Hretry in Hr. rewrite <- !app_comm_cons. apply IH; [lia|lia|by right|].
      eapply health_path_app; [apply Hnext; by right|done].
    + eexists _, _. split; [reflexivity|]. split; simpl; try done. rewrite <- app_assoc.
      eexists _, _, _. split; [done|]. split; [|split; [|done]].
      { eapply health_path_app; [exact Hl|]. destruct Hstate as [-> | ->]; simpl; split_and!; auto. }
      lia.
Qed.

(** The number of restarts a module is allowed. *)
Definition restart_budget (module : ModuleConfig) (options : RuntimeOptions) : Z :=
  match restart_policy module with
  | Never => 0
  | OnFailure => on_failure_retry_budget options
  | Always => always_restart_budget options
  end.

Lemma restart_within module options n :
  0 ≤ restart_budget module options → 
  (should_restart module options n = true → n ≤ restart_budget module options) ∧
  (should_retry module options n = true → n ≤ restart_budget module options).
Proof.
  unfold should_restart, should_retry, restart_budget. destruct (restart_policy module); intros _; split; try done;
    apply Z.leb_le.
Qed.

Lemma supervise_attempts_total module pre timeout options s :
  is_u32 (on_failure_retry_budget options) → is_u32 (always_restart_budget options) →
  ∃ r s', supervise_attempts (start_fuel options) module pre timeout options 0 Starting
            [mkTransition (module_id module) None Starting 0] [] s = Some (r, s') ∧
          start_report (module_id module) (restart_budget module options) false r.
Proof.
  intros [H1 _] [H2 _]. assert (Hb : 0 ≤ restart_budget module options).
  { unfold restart_budget. destruct (restart_policy module); lia. }
  apply supervise_attempts_spec; try (intros n; by apply restart_within); [lia| |by left|done].
  unfold start_fuel, restart_budget. destruct (restart_policy module); lia.
Qed.

Lemma supervise_start_report module pre timeout options s :
  is_u32 (on_failure_retry_budget options) → is_u32 (always_restart_budget options) →
  start_report (module_id module) (restart_budget module options) (module_uses_mcp module pre)
    (supervise_module_start module pre timeout options s).1.
Proof.
  intros H1 H2. unfold supervise_module_start. destruct (module_uses_mcp module pre).
  - unfold supervise_mcp_module_start. assert (0 ≤ restart_budget module options).
    { unfold restart_budget, is_u32 in *. destruct (restart_policy module); lia. }
    destruct (probe_module_mcp_tools _ _ _ _) as [tools|error]; split; simpl; try done.
    + eexists _, Healthy, 1. split; [done|]. split; [repeat split|]. split; [lia|done].
    + eexists _, Stopped, 1. split; [done|]. split; [repeat split|]. split; [lia|done].
  - destruct (supervise_attempts_total module pre timeout options s H1 H2) as (r & s' & -> & Hr). done.
Qed.
End supervision.

(** ** The account of processes *)

(** The process ids of the unreaped processes of a list, and what a journal says, with multiplicity:
    the operating system may use an id again. *)
Definition pid_if_running (p : ModuleProcess) : gmultiset Z := if is_reaped p then ∅ else {[+ process_pid p +]}.
Definition held (l : list ModuleProcess) : gmultiset Z := foldr (λ p, (pid_if_running p ⊎.)) ∅ l.

Definition pids_of (f : ProcessEvent → option Z) (j : list ProcessEvent) : gmultiset Z := list_to_set_disj (omap f j).
Definition spawned : list ProcessEvent → gmultiset Z := pids_of (λ e, match e with Spawned p => Some p | _ => None end).
Definition confirmed : list ProcessEvent → gmultiset Z := pids_of (λ e, match e with Confirmed p => Some p | _ => None end).
Definition abandoned : list ProcessEvent → gmultiset Z := pids_of (λ e, match e with Abandoned p => Some p | _ => None end).

Lemma pids_of_app f j j' : pids_of f (j ++ j') = pids_of f j ⊎ pids_of f j'.
Proof. unfold pids_of. by rewrite omap_app, list_to_set_disj_app. Qed.

Lemma held_app l l' : held (l ++ l') = held l ⊎ held l'.
Proof. induction l as [|p l IH]; simpl; [multiset_solver|]. rewrite IH. multiset_solver. Qed.

Lemma held_perm l l' : l ≡ₚ l' → held l = held l'.
Proof. induction 1; simpl; [done|by f_equal|multiset_solver|by etrans]. Qed.

(** Only the world moved. *)
Definition world_only (s s' : MetaRuntimeHandle) : Prop :=
  s' = s <| world_step := world_step s' |> <| process_journal := process_journal s' |>.

(** From [s] to [s'], the processes in hand went from [l] to [l']: every one that was started is
    among them or was confirmed to have exited, and none was abandoned. *)
Definition accounts (l : list ModuleProcess) (s : MetaRuntimeHandle) (l' : list ModuleProcess) (s' : MetaRuntimeHandle) : Prop :=
  ∃ j, process_journal s' = process_journal s ++ j ∧
    spawned j ⊎ held l = confirmed j ⊎ held l' ∧ abandoned j = ∅.

Lemma accounts_refl l s s' : process_journal s' = process_journal s → accounts l s l s'.
Proof. intros E. exists []. rewrite app_nil_r. split_and!; [done| |done]. unfold spawned, confirmed, pids_of. multiset_solver. Qed.

#[export] Hint Resolve accounts_refl : meta.

Lemma accounts_trans l1 s1 l2 s2 l3 s3 : accounts l1 s1 l2 s2 → accounts l2 s2 l3 s3 → accounts l1 s1 l3 s3.
Proof.
  intros (j & Ej & Hj & Aj) (k & Ek & Hk & Ak). exists (j ++ k). rewrite Ek, Ej, app_assoc. split; [done|].
  unfold spawned, confirmed, abandoned in *. rewrite !pids_of_app. split; [multiset_solver|multiset_solver].
Qed.

Lemma accounts_frame k l s l' s' : accounts l s l' s' → accounts (k ++ l) s (k ++ l') s'.
Proof. intros (j & Ej & Hj & Aj). exists j. rewrite !held_app. split_and!; [done| |done]. multiset_solver. Qed.

Lemma accounts_held l1 l2 s l1' l2' s' : held l1 = held l2 → held l1' = held l2' → accounts l2 s l2' s' → accounts l1 s l1' s'.
Proof. unfold accounts. by intros -> ->. Qed.

(** [multiset_solver] on what the goal is about. *)
Ltac bag :=
  repeat match goal with
  | H : ∀ (n : nat) _ _ _ _, os_spawn _ _ _ _ ≠ _ |- _ => clear H
  | H : ModuleOs |- _ => clear H
  | H : RuntimeEnv |- _ => clear H
  end; multiset_solver.

Section account.
Context `{RuntimeEnv} `{ModuleOs}.

(** [Stdio::piped] gives the output pipe. *)
Context (piped : ∀ n command args env pid, os_spawn n command args env ≠ Ok (pid, false)).

Lemma world_only_refl s : world_only s s.
Proof. by destruct s. Qed.

#[local] Hint Resolve world_only_refl : meta.

Lemma world_only_trans s1 s2 s3 : world_only s1 s2 → world_only s2 s3 → world_only s1 s3.
Proof. unfold world_only. intros H1 H2. rewrite H2, H1 at 1. done. Qed.

Lemma world_only_sup s s' : world_only s s' → supervisor s' = supervisor s.
Proof. by intros ->. Qed.

Lemma reap_accounts p s s0 :
  is_reaped p = false → process_journal s0 = process_journal s →
  accounts [p] s [p <| process_state := Reaped |>] (journal (Confirmed (process_pid p)) s0).
Proof.
  intros Hp E. exists [Confirmed (process_pid p)]. split_and!; [simpl; by rewrite E| |done].
  simpl. unfold pid_if_running at 1. rewrite Hp. unfold pid_if_running. simpl. unfold spawned, confirmed, pids_of. simpl.
  bag.
Qed.

Lemma same_pid_accounts p p' s s' :
  process_journal s' = process_journal s → is_reaped p' = is_reaped p → process_pid p' = process_pid p → accounts [p] s [p'] s'.
Proof.
  intros E Hr Hp. eapply accounts_held; [reflexivity| |apply (accounts_refl [p]), E].
  simpl. unfold pid_if_running. by rewrite Hr, Hp.
Qed.

Definition no_spawn (s s' : MetaRuntimeHandle) : Prop :=
  ∃ j, process_journal s' = process_journal s ++ j ∧ spawned j = ∅.

Lemma no_spawn_same s s' : process_journal s' = process_journal s → no_spawn s s'.
Proof. intros E. exists []. by rewrite app_nil_r. Qed.

Record handled (p : ModuleProcess) (s : MetaRuntimeHandle) (ok : bool) (p' : ModuleProcess) (s' : MetaRuntimeHandle) : Prop := {
  hd_world : world_only s s';
  hd_account : accounts [p] s [p'] s';
  hd_quiet : no_spawn s s';
  hd_reaped : is_reaped p' = ok;
  hd_pid : process_pid p' = process_pid p;
  hd_module : process_module_id p' = process_module_id p;
}.

Lemma handled_reaped p q s s0 :
  is_reaped q = false → process_pid q = process_pid p → process_module_id q = process_module_id p →
  is_reaped p = false → world_only s s0 → process_journal s0 = process_journal s →
  handled p s true (q <| process_state := Reaped |>) (journal (Confirmed (process_pid q)) s0).
Proof.
  intros Hq E1 E2 Hp Hw Hj. split; try done.
  - eapply world_only_trans; [exact Hw|]. by destruct s0.
  - eapply accounts_trans; [by apply (same_pid_accounts p q s s); congruence|by apply reap_accounts].
  - exists [Confirmed (process_pid q)]. split; [simpl; by rewrite Hj|done].
Qed.

Lemma handled_kept p q s s0 :
  is_reaped q = false → process_pid q = process_pid p → process_module_id q = process_module_id p →
  is_reaped p = false → world_only s s0 → process_journal s0 = process_journal s → handled p s false q s0.
Proof. intros Hq E1 E2 Hp Hw Hj. split; try done; [apply same_pid_accounts; congruence|by apply no_spawn_same]. Qed.

Lemma ticks_world s : world_only s (tick s) ∧ world_only s (tick (tick s)) ∧ world_only s (tick (tick (tick s))).
Proof. destruct s. done. Qed.

Lemma terminate_handled force p s :
  handled p s (is_ok (terminate force p s).1.1) (terminate force p s).1.2 (terminate force p s).2.
Proof.
  unfold terminate. destruct (is_reaped p) eqn:Hp.
  { split; simpl; try done; [auto with meta|auto with meta|by apply no_spawn_same]. }
  destruct (ticks_world s) as (W1 & W2 & W3).
  destruct force; [apply handled_kept; try done; auto with meta|].
  destruct (os_try_wait _ _) as [[]|]; [by apply handled_reaped| |by apply handled_kept].
  destruct (os_kill _ _) as [err|].
  - destruct (os_try_wait _ _) as [[]|]; [by apply handled_reaped|by apply handled_kept..].
  - destruct (os_wait _ _) as [err|]; [by apply handled_kept|].
    apply (handled_reaped p (p <| process_kill_sent := true |>)); done.
Qed.

Lemma progress_handled p s :
  handled p s (progress_cleanup p s).1.1 (progress_cleanup p s).1.2 (progress_cleanup p s).2.
Proof.
  unfold progress_cleanup. destruct (is_reaped p) eqn:Hp.
  { split; simpl; try done; [auto with meta|auto with meta|by apply no_spawn_same]. }
  destruct (ticks_world s) as (W1 & W2 & W3).
  destruct (os_try_wait _ _) as [[]|]; [by apply handled_reaped| |by apply handled_kept].
  destruct (process_kill_sent p); [by apply handled_kept|].
  destruct (os_kill _ _) as [err|]; by apply handled_kept.
Qed.

Lemma spawn_accounts id command args env s :
  let (r, s') := spawn id command args env s in
  world_only s s' ∧
  match r with
  | Ok p => accounts [] s [p] s' ∧ is_reaped p = false
  | Err _ => accounts [] s [] s'
  end.
Proof.
  unfold spawn. destruct (ticks_world s) as (W1 & _). destruct (os_spawn _ _ _ _) as [[pid []]|err] eqn:E.
  - split; [by destruct s|]. split; [|done]. exists [Spawned pid]. split_and!; [done| |done].
    simpl. unfold pid_if_running, spawned, confirmed, pids_of. simpl. bag.
  - by apply piped in E.
  - split; [done|auto with meta].
Qed.

Definition in_hand (o : option ModuleProcess) : list ModuleProcess := match o with Some p => [p] | None => [] end.

Lemma capture_accounts module pre timeout force s :
  let (r, s') := spawn_module_capture_first_event module pre timeout force s in
  world_only s s' ∧
  match r with
  | Ok (_, child) => accounts [] s [child] s' ∧ is_reaped child = false
  | Err (_, unconfirmed) => accounts [] s (in_hand unconfirmed) s' ∧ ∀ p, unconfirmed = Some p → is_reaped p = false
  end.
Proof.
  unfold spawn_module_capture_first_event. pose proof (spawn_accounts (module_id module) (module_command module)
    (module_args module) (module_env_with_extra module pre []) s) as Hs.
  destruct (spawn _ _ _ _ s) as [[child|error] s1]; [|destruct Hs; by split_and!].
  destruct Hs as (Hw & Ha & Hr). destruct (ticks_world s1) as (W1 & _).
  destruct (first_event _ _) as [event|[context error]].
  - split; [by eapply world_only_trans|]. split; [|done]. eapply accounts_trans; [exact Ha|auto with meta].
  - pose proof (terminate_handled force child (tick s1)) as Ht.
    destruct (terminate force child (tick s1)) as [[[[]|err] child'] s2]; destruct Ht as [T1 T2 _ T3 _ _]; simpl in *.
    + split; [exact (world_only_trans _ _ _ Hw (world_only_trans _ _ _ W1 T1))|]. split; [|done].
      eapply accounts_trans; [exact Ha|]. eapply accounts_held; [reflexivity| |eapply accounts_trans; [by apply (accounts_refl _ s1 (tick s1))|exact T2]].
      simpl. unfold pid_if_running. by rewrite T3.
    + split; [exact (world_only_trans _ _ _ Hw (world_only_trans _ _ _ W1 T1))|]. split; [|by intros p [= <-]].
      eapply accounts_trans; [exact Ha|]. eapply accounts_trans; [by apply (accounts_refl _ s1 (tick s1))|exact T2].
Qed.

Definition unreaped (l : list ModuleProcess) : Prop := Forall (λ p, is_reaped p = false) l.

Lemma backoff_world options s : world_only s (apply_restart_backoff options s) ∧
  process_journal (apply_restart_backoff options s) = process_journal s.
Proof. unfold apply_restart_backoff. destruct (_ =? 0); (split; [|done]); [auto with meta|apply ticks_world]. Qed.

Definition start_hand (r : SuperviseModuleStartResult) : list ModuleProcess := in_hand (start_child r) ++ start_retained r.

Lemma attempts_accounts fuel module pre timeout options attempts state l retained s r s' :
  supervise_attempts fuel module pre timeout options attempts state l retained s = Some (r, s') →
  unreaped retained → world_only s s' ∧ accounts retained s (start_hand r) s' ∧ unreaped (start_hand r).
Proof.
  revert attempts state l retained s. induction fuel as [|fuel IH]; intros attempts state l retained s; [done|].
  cbn [supervise_attempts]. set (force := supervisor_test_force_terminate_failure options).
  pose proof (capture_accounts module pre timeout force s) as Hc.
  destruct (spawn_module_capture_first_event module pre timeout force s) as [[[event child]|[err unconfirmed]] s1];
    destruct Hc as (Hw & Ha & Hr); intros E Hret; apply (accounts_frame retained) in Ha; rewrite app_nil_r in Ha.
  - destruct (should_restart module options (attempts + 1)).
    + pose proof (terminate_handled force child s1) as [T1 T2 _ T3 T4 T5]. apply (accounts_frame retained) in T2.
      destruct (terminate force child s1) as [[[[]|err] child'] s2]; simpl in *.
      * destruct (backoff_world options s2) as [B1 B2].
        apply IH in E as (I1 & I2 & I3); [|done]. split; [|split; [|done]].
        { exact (world_only_trans _ _ _ Hw (world_only_trans _ _ _ T1 (world_only_trans _ _ _ B1 I1))). }
        eapply accounts_trans; [exact Ha|]. eapply accounts_trans; [exact T2|].
        eapply accounts_trans; [|exact I2]. eapply accounts_held; [|reflexivity|apply accounts_refl, B2].
        rewrite held_app. simpl. unfold pid_if_running. rewrite T3. bag.
      * injection E as <- <-. split; [exact (world_only_trans _ _ _ Hw T1)|]. split.
        { eapply accounts_held; [reflexivity| |eapply accounts_trans; [exact Ha|exact T2]]. apply held_perm, Permutation_cons_append. }
        by constructor.
    + injection E as <- <-. split; [done|]. split; [|by constructor].
      eapply accounts_held; [reflexivity| |exact Ha]. apply held_perm, Permutation_cons_append.
  - change (match unconfirmed with Some child => [child] | None => [] end) with (in_hand unconfirmed) in E.
    assert (Hret' : unreaped (retained ++ in_hand unconfirmed)).
    { apply Forall_app. split; [done|]. destruct unconfirmed; simpl; [|by constructor]. apply Forall_singleton. auto. }
    destruct (should_retry module options (attempts + 1)).
    + destruct (backoff_world options s1) as [B1 B2]. apply IH in E as (I1 & I2 & I3); [|done].
      split; [exact (world_only_trans _ _ _ Hw (world_only_trans _ _ _ B1 I1))|]. split; [|done].
      eapply accounts_trans; [exact Ha|]. eapply accounts_trans; [apply accounts_refl, B2|exact I2].
    + injection E as <- <-. done.
Qed.

(** A start without an event leaves no child, and neither does an MCP start. *)
Lemma attempts_child fuel module pre timeout options attempts state l retained s r s' :
  supervise_attempts fuel module pre timeout options attempts state l retained s = Some (r, s') →
  start_event r = None → start_child r = None.
Proof.
  revert attempts state l retained s. induction fuel as [|fuel IH]; intros attempts state l retained s; [done|].
  cbn [supervise_attempts].
  destruct (spawn_module_capture_first_event _ _ _ _ s) as [[[event child]|[err unconfirmed]] s1].
  - destruct (should_restart _ _ _); [|by intros [= <- <-]].
    destruct (terminate _ child s1) as [[[[]|err] child'] s2]; [apply IH|by intros [= <- <-]].
  - destruct (should_retry _ _ _); [apply IH|by intros [= <- <-]].
Qed.

Lemma start_child_none module pre timeout options s :
  let r := (supervise_module_start module pre timeout options s).1 in
  start_event r = None ∨ module_uses_mcp module pre = true → start_child r = None.
Proof.
  unfold supervise_module_start. destruct (module_uses_mcp module pre).
  - intros _. unfold supervise_mcp_module_start. by destruct (probe_module_mcp_tools _ _ _ _).
  - destruct (supervise_attempts _ _ _ _ _ _ _ _ _ s) as [[r s']|] eqn:E; [|done].
    simpl. intros [He|]; [by eapply attempts_child|done].
Qed.

Lemma start_accounts module pre timeout options s :
  let (r, s') := supervise_module_start module pre timeout options s in
  world_only s s' ∧ accounts [] s (start_hand r) s' ∧ unreaped (start_hand r).
Proof.
  unfold supervise_module_start. destruct (module_uses_mcp module pre).
  - unfold supervise_mcp_module_start, mcp_ready_event, current_time_ms. destruct (ticks_world s) as (W1 & W2 & _).
    destruct (probe_module_mcp_tools _ _ _ _); (split; [done|split; [auto with meta|by constructor]]).
  - destruct (supervise_attempts _ _ _ _ _ _ _ _ _ s) as [[r s']|] eqn:E.
    + apply attempts_accounts in E; [done|by constructor].
    + split; [auto with meta|]. split; [auto with meta|by constructor].
Qed.

(** ** What the supervisor owns *)

Definition owned (s : MetaRuntimeHandle) : list ModuleProcess :=
  (map_to_list (live_children (supervisor s))).*2 ++ retained_cleanup (supervisor s).

Lemma owned_sup s s' : supervisor s' = supervisor s → owned s' = owned s.
Proof. unfold owned. by intros ->. Qed.

(** Live children belong to loaded modules and everything owned is still running. *)
Record sup_ok (s : MetaRuntimeHandle) : Prop := {
  so_running : unreaped (owned s);
  so_loaded : ∀ id, is_Some (live_children (supervisor s) !! id) → id ∈ loaded_modules (supervisor s);
}.

Lemma sup_ok_same s s' : supervisor s' = supervisor s → sup_ok s → sup_ok s'.
Proof. intros E []. split; unfold owned; by rewrite E. Qed.

#[local] Hint Resolve sup_ok_same : meta.

Lemma retain_owned p s :
  held (owned (retain p s)) = pid_if_running p ⊎ held (owned s) ∧ process_journal (retain p s) = process_journal s ∧
  (sup_ok s → sup_ok (retain p s)).
Proof.
  unfold retain. destruct (is_reaped p) eqn:Hp.
  - split_and!; try done. unfold pid_if_running. rewrite Hp. bag.
  - split_and!; [|done|].
    + unfold owned, set_retained. simpl. rewrite !held_app. simpl. bag.
    + intros [Hr Hl]. split; [|done]. unfold owned, set_retained in *. simpl. rewrite app_assoc.
      apply Forall_app. split; [done|]. by apply Forall_singleton.
Qed.

Lemma retain_all_owned l s :
  held (owned (retain_all l s)) = held l ⊎ held (owned s) ∧ process_journal (retain_all l s) = process_journal s ∧
  (sup_ok s → sup_ok (retain_all l s)).
Proof.
  revert s. induction l as [|p l IH]; intros s; simpl; [split_and!; [bag|done|done]|].
  destruct (IH (retain p s)) as (H1 & H2 & H3). destruct (retain_owned p s) as (R1 & R2 & R3).
  split_and!; [|by etrans|auto]. fold (retain_all l (retain p s)). rewrite H1, R1. bag.
Qed.

Lemma set_child_owned id c s :
  live_children (supervisor s) !! id = None → id ∈ loaded_modules (supervisor s) → is_reaped c = false →
  held (owned (set_child id (Some c) s)) = pid_if_running c ⊎ held (owned s) ∧ (sup_ok s → sup_ok (set_child id (Some c) s)).
Proof.
  intros Hn Hld Hc. split.
  - unfold owned. simpl. rewrite !held_app.
    rewrite (held_perm (_ <$> map_to_list (<[id:=c]> _)) (c :: (map_to_list (live_children (supervisor s))).*2));
      [simpl; bag|]. by rewrite map_to_list_insert.
  - intros [Hr Hl]. split.
    + unfold owned, unreaped in *. simpl. rewrite map_to_list_insert by done. simpl. by constructor.
    + simpl. intros i. rewrite lookup_insert_is_Some'. intros [<-|Hi]; [done|by apply Hl].
Qed.

Lemma unset_child_owned id c s :
  live_children (supervisor s) !! id = Some c →
  held (owned s) = pid_if_running c ⊎ held (owned (set_child id None s)) ∧ (sup_ok s → sup_ok (set_child id None s) ∧ is_reaped c = false).
Proof.
  intros Hc. pose proof (map_to_list_delete _ _ _ Hc) as Hp. split.
  - unfold owned. simpl. rewrite !held_app.
    rewrite (held_perm ((map_to_list (live_children (supervisor s))).*2)
      (c :: (map_to_list (delete id (live_children (supervisor s)))).*2)); [simpl; bag|]. by rewrite <- Hp.
  - intros [Hr Hl]. unfold owned, unreaped in *. apply Forall_app in Hr as [Hr1 Hr2].
    rewrite <- (fmap_Permutation snd _ _ Hp) in Hr1. simpl in Hr1. apply Forall_cons in Hr1 as [Hrc Hr1]. split; [|done]. split.
    + unfold owned, unreaped. simpl. apply Forall_app. done.
    + simpl. intros i. rewrite lookup_delete_is_Some. intros [_ Hi]. by apply Hl.
Qed.

Lemma terminate_existing_accounts id s :
  sup_ok s →
  let (r, s') := terminate_existing id s in
  accounts (owned s) s (owned s') s' ∧ sup_ok s' ∧ loaded_modules (supervisor s') = loaded_modules (supervisor s) ∧
  (r = Ok tt → live_children (supervisor s') !! id = None).
Proof.
  intros Hok. unfold terminate_existing. destruct (live_children (supervisor s) !! id) as [c|] eqn:Hc.
  2: { split_and!; [auto with meta|done..]. }
  destruct (unset_child_owned _ _ _ Hc) as [U1 U2]. destruct (U2 Hok) as [Hok1 Hrun].
  set (s1 := set_child id None s) in *.
  pose proof (terminate_handled (supervisor_test_force_terminate_failure (runtime_options s1)) c s1) as [T1 T2 _ T3 T4 T5].
  destruct (terminate _ c s1) as [[[[]|err] c'] s2]; simpl in T1, T2, T3.
  - pose proof (world_only_sup _ _ T1) as E. split_and!.
    + apply (accounts_frame (owned s1)) in T2. eapply accounts_held; [| |exact T2].
      * rewrite U1, held_app. simpl. bag.
      * rewrite (owned_sup _ _ E), held_app. simpl. unfold pid_if_running. rewrite T3. bag.
    + eauto with meta.
    + by rewrite E.
    + intros _. rewrite E. apply lookup_delete_eq.
  - pose proof (world_only_sup _ _ T1) as E.
    destruct (set_child_owned id c' s2) as [S1 S2]; [rewrite E; apply lookup_delete_eq| |done|].
    { rewrite E. apply Hok. eauto. }
    split_and!; [|apply S2; eauto with meta|simpl; by rewrite E|done].
    apply (accounts_frame (owned s1)) in T2. eapply accounts_held; [| |exact T2].
    + rewrite U1, held_app. simpl. bag.
    + rewrite S1, held_app, (owned_sup _ _ E). simpl. bag.
Qed.

(** From [s] with [l] in hand to [s'], nothing is lost and the supervisor stays in order. *)
Definition keeps (l : list ModuleProcess) (s s' : MetaRuntimeHandle) : Prop :=
  accounts (l ++ owned s) s (owned s') s' ∧ sup_ok s'.

Lemma keeps_trans l s1 s2 s3 : keeps l s1 s2 → keeps [] s2 s3 → keeps l s1 s3.
Proof. intros [A1 _] [A2 O2]. split; [by eapply accounts_trans|done]. Qed.

(** Changes that concern neither the processes nor the supervisor. *)
Definition aside (s s' : MetaRuntimeHandle) : Prop :=
  supervisor s' = supervisor s ∧ process_journal s' = process_journal s.

Lemma keeps_aside s s' : aside s s' → sup_ok s → keeps [] s s'.
Proof.
  intros [E1 E2] Hok. split; [|eauto with meta]. simpl. rewrite (owned_sup _ _ E1). auto with meta.
Qed.

#[local] Hint Resolve keeps_aside : meta.
#[local] Hint Extern 1 (aside _ _) => done : meta.

Lemma warn_aside id error s : aside s (warn id error s).
Proof. done. Qed.

Lemma log_aside e s : aside s (log_event e s).
Proof. done. Qed.

Lemma discover_aside id s : aside s (discover id s).
Proof. unfold discover. by destruct (existsb _ _). Qed.

Lemma adopt_keeps r s : sup_ok s → unreaped (start_hand r) → keeps (start_retained r) s (adopt_start r s).
Proof.
  intros Hok _. unfold adopt_start. set (s1 := set_supervisor _ s).
  assert (Hok1 : sup_ok s1) by (destruct Hok; by split). destruct (retain_all_owned (start_retained r) s1) as (H1 & H2 & H3).
  split; [|by apply H3]. eapply accounts_held; [reflexivity| |auto with meta]. by rewrite H1, held_app.
Qed.

Lemma set_loaded_keeps id s : sup_ok s → keeps [] s (set_loaded id s).
Proof.
  intros [Hr Hl]. split; [auto with meta|]. split; [done|]. simpl. intros i Hi. apply elem_of_union_r. by apply Hl.
Qed.

Lemma abort_keeps c message s : sup_ok s → keeps [c] s (abort_replacement c message s).2.
Proof.
  intros Hok. unfold abort_replacement. pose proof (terminate_handled false c s) as [T1 T2 _ T3 T4 T5].
  pose proof (world_only_sup _ _ T1) as E. apply (accounts_frame (owned s)) in T2.
  destruct (terminate false c s) as [[[[]|err] c'] s2]; simpl in *.
  - split; [|eauto with meta]. eapply accounts_held; [| |exact T2].
    + rewrite !held_app. simpl. bag.
    + rewrite (owned_sup _ _ E), held_app. simpl. unfold pid_if_running. rewrite T3. bag.
  - destruct (retain_owned c' s2) as (R1 & R2 & R3). split; [|apply R3; eauto with meta].
    eapply accounts_trans; [eapply accounts_held; [|reflexivity|exact T2]|].
    + rewrite !held_app. simpl. bag.
    + eapply accounts_held; [reflexivity| |apply accounts_refl, R2]. rewrite R1, (owned_sup _ _ E), held_app. simpl. bag.
Qed.

Lemma install_child_keeps id event c s :
  sup_ok s → is_reaped c = false → keeps [c] s (install_child id event c s).2.
Proof.
  intros Hok Hc. unfold install_child. pose proof (terminate_existing_accounts id s Hok) as Ht.
  destruct (terminate_existing id s) as [[[]|err] s1]; destruct Ht as (Ha & Hok1 & Hl & Hn).
  - destruct (set_loaded_keeps id s1 Hok1) as [L1 L2].
    destruct (set_child_owned id c (set_loaded id s1)) as [S1 S2]; [by apply Hn|simpl; set_solver|done|].
    apply (keeps_trans _ _ (set_child id (Some c) (set_loaded id s1))); [|by apply keeps_aside; [|apply S2]].
    split; [|by apply S2]. eapply accounts_trans; [apply (accounts_frame [c]), Ha|].
    eapply accounts_held; [reflexivity| |auto with meta]. by rewrite S1.
  - pose proof (abort_keeps c ("failed to terminate existing child before respawn: " +:+ err) s1 Hok1) as [A1 A2].
    destruct (abort_replacement _ _ s1) as [message s2]. cbn [snd] in *.
    apply (keeps_trans _ _ s2); [|auto with meta]. split; [|done].
    eapply accounts_trans; [apply (accounts_frame [c]), Ha|exact A1].
Qed.

Lemma install_mcp_keeps id event s : sup_ok s → keeps [] s (install_mcp id event s).2.
Proof.
  intros Hok. unfold install_mcp. pose proof (terminate_existing_accounts id s Hok) as Ht.
  destruct (terminate_existing id s) as [[[]|err] s1]; destruct Ht as (Ha & Hok1 & Hl & Hn); simpl.
  - apply (keeps_trans _ _ (set_loaded id s1)).
    + apply (keeps_trans _ _ s1); [done|by apply set_loaded_keeps].
    + apply keeps_aside; [done|by apply set_loaded_keeps].
  - apply (keeps_trans _ _ s1); [done|auto with meta].
Qed.

Lemma spawn_member_keeps id timeout s : sup_ok s → wp (spawn_member id timeout) (λ _ s', keeps [] s s') s.
Proof.
  intros Hok. assert (Hid : keeps [] s s) by auto with meta.
  unfold spawn_member. do 4 wp_step. destruct (module_and_prespawn s id) as [[module pre]|]; [|done].
  cbn [ok_or fst snd]. do 4 wp_step.
  pose proof (start_accounts module pre timeout (runtime_options s) s) as Hst.
  pose proof (start_child_none module pre timeout (runtime_options s) s) as Hnone.
  destruct (supervise_module_start module pre timeout (runtime_options s) s) as [r s1]. cbn [fst snd] in *.
  destruct Hst as (Hw & Ha & Hr). pose proof (world_only_sup _ _ Hw) as E1.
  assert (Hok1 : sup_ok s1) by eauto with meta.
  do 2 wp_step. set (s2 := adopt_start r s1). destruct (adopt_keeps r s1 Hok1 Hr) as [Ha2 Hok2]. fold s2 in Ha2, Hok2.
  do 2 wp_step. set (s3 := match terminal_error r with Some error => warn id error s2 | None => s2 end).
  assert (Has : aside s2 s3) by (unfold s3; by destruct (terminal_error r)).
  pose proof (keeps_aside _ _ Has Hok2) as [Ha3 Hok3].
  (* what is in hand besides the retained processes *)
  assert (Hchild : accounts (owned s) s (in_hand (start_child r) ++ owned s3) s3).
  { eapply accounts_trans; [eapply accounts_held; [| |exact (accounts_frame (owned s) _ _ _ _ Ha)]|].
    - by rewrite app_nil_r.
    - reflexivity.
    - eapply accounts_trans; [|apply (accounts_frame (in_hand (start_child r))), Ha3].
      eapply accounts_held; [|reflexivity|apply (accounts_frame (in_hand (start_child r))), Ha2].
      unfold start_hand. rewrite !held_app, (owned_sup _ _ E1). bag. }
  wp_step. wp_step. destruct (start_event r) as [event|]; cbn [ok_or].
  2: { split; [|done]. rewrite (Hnone (or_introl eq_refl)) in Hchild. done. }
  do 2 wp_step. set (s4 := discover id s3). pose proof (keeps_aside _ _ (discover_aside id s3) Hok3) as [Ha4 Hok4]. fold s4 in Ha4, Hok4.
  destruct (module_uses_mcp module pre) eqn:Hm; cbn [negb].
  - rewrite (Hnone (or_intror eq_refl)) in Hchild.
    unfold wp. apply (keeps_trans _ _ s4); [|by apply install_mcp_keeps]. split; [|done]. by eapply accounts_trans.
  - wp_step. wp_step. destruct (start_child r) as [child|] eqn:Hc; cbn [ok_or].
    + unfold wp. unfold start_hand in Hr. rewrite Hc in Hr. apply Forall_cons in Hr as [Hrc _].
      destruct (install_child_keeps id event child s4 Hok4 Hrc) as [A5 O5]. split; [|done].
      eapply accounts_trans; [exact Hchild|]. eapply accounts_trans; [apply (accounts_frame [child]), Ha4|exact A5].
    + split; [|done]. by eapply accounts_trans.
Qed.

Lemma spawn_missing_keeps ids timeout s : sup_ok s → wp (spawn_missing ids timeout) (λ _ s', keeps [] s s') s.
Proof.
  revert s. induction ids as [|id ids IH]; intros s Hok; cbn [spawn_missing].
  { wp_step. auto with meta. }
  do 2 wp_step. destruct (is_module_loaded s id); [by apply IH|]. wp_step.
  eapply wp_mono; [by apply spawn_member_keeps|]. intros [[]|e] s1 Hk; [|done]. wp_step.
  eapply wp_mono; [apply IH, Hk|]. intros [n|e] s2 Hk2; [wp_step|]; by eapply keeps_trans.
Qed.

Lemma reconcile_keeps ids timeout s : sup_ok s → wp (reconcile_modules ids timeout) (λ _ s', keeps [] s s') s.
Proof.
  intros Hok. unfold reconcile_modules. do 4 wp_step. destruct (find_first _ ids); [auto with meta|].
  do 2 wp_step. assert (Hk : keeps [] s (set_discovery ids s)) by auto with meta.
  eapply wp_mono; [apply spawn_missing_keeps, Hk|]. intros r s' Hk2. by eapply keeps_trans.
Qed.

Definition reported (gone : list ModuleCleanupReapedProcess) : gmultiset Z :=
  list_to_set_disj (map reaped_process_id gone).

(** Handling running processes one by one: what is confirmed is what is reported. *)
Definition settles (l : list ModuleProcess) (s : MetaRuntimeHandle) (gone : list ModuleCleanupReapedProcess)
    (l' : list ModuleProcess) (s' : MetaRuntimeHandle) : Prop :=
  ∃ j, process_journal s' = process_journal s ++ j ∧ spawned j = ∅ ∧ abandoned j = ∅ ∧
    confirmed j = reported gone ∧ held l = reported gone ⊎ held l'.

Lemma settles_accounts l s gone l' s' : settles l s gone l' s' → accounts l s l' s'.
Proof. intros (j & E & H1 & H2 & H3 & H4). exists j. split_and!; [done| |done]. rewrite H1, H3, H4. bag. Qed.

Lemma settles_cons l1 s1 g1 l1' s2 l2 g2 l2' s3 :
  settles l1 s1 g1 l1' s2 → settles l2 s2 g2 l2' s3 → settles (l1 ++ l2) s1 (g1 ++ g2) (l1' ++ l2') s3.
Proof.
  intros (j & E & H1 & H2 & H3 & H4) (k & F & K1 & K2 & K3 & K4). exists (j ++ k).
  unfold spawned, confirmed, abandoned, reported in *. rewrite !pids_of_app, !held_app, !map_app, !list_to_set_disj_app.
  split_and!; [rewrite F, E; by rewrite app_assoc|bag..].
Qed.

Lemma handled_settles p s ok p' s' :
  handled p s ok p' s' → is_reaped p = false → settles [p] s (if ok then [reaped p'] else []) (if ok then [] else [p']) s'.
Proof.
  intros [_ (j & E & Hj & Aj) (k & F & Hk) Hr Hp _] Hrun. assert (k = j) as -> by (rewrite E in F; by apply app_inv_head in F).
  exists j. simpl in *. unfold pid_if_running in *. rewrite Hrun, Hr, ?Hk in Hj. rewrite Hrun. split_and!; try done.
  - unfold reported. destruct ok; simpl; rewrite ?Hp; bag.
  - unfold reported. destruct ok; simpl; unfold pid_if_running; rewrite ?Hr, ?Hp; bag.
Qed.

Lemma progress_all_settles l s :
  let '(gone, kept, s') := progress_all l s in
  world_only s s' ∧ (unreaped l → settles l s gone kept s' ∧ unreaped kept).
Proof.
  revert s. induction l as [|p l IH]; intros s; cbn [progress_all].
  { split; [auto with meta|]. intros _. split; [|by constructor]. exists []. rewrite app_nil_r. done. }
  pose proof (progress_handled p s) as Hh. destruct (progress_cleanup p s) as [[ok p'] s1]. cbn [fst snd] in Hh.
  specialize (IH s1). destruct (progress_all l s1) as [[gone kept] s2]. destruct IH as [Hw IH].
  pose proof (world_only_trans _ _ _ (hd_world _ _ _ _ _ Hh) Hw) as Hw'. pose proof (hd_reaped _ _ _ _ _ Hh) as Hr.
  destruct ok; (split; [done|]); intros [Hp Hl]%Forall_cons; destruct (IH Hl) as [Hs Hk];
    pose proof (settles_cons _ _ _ _ _ _ _ _ _ (handled_settles _ _ _ _ _ Hh Hp) Hs) as Hsc.
  - done.
  - split; [done|by constructor].
Qed.

Lemma progress_keeps s :
  sup_ok s → let (o, s') := progress s in
  keeps [] s s' ∧ settles (retained_cleanup (supervisor s)) s (cleanup_reaped o) (retained_cleanup (supervisor s')) s' ∧
  o = cleanup_observation (cleanup_reaped o) s' ∧
  supervisor s' = supervisor s <| retained_cleanup := retained_cleanup (supervisor s') |>.
Proof.
  intros Hok. unfold progress. pose proof (progress_all_settles (retained_cleanup (supervisor s)) s) as Hp.
  destruct (progress_all _ s) as [[gone kept] s1]. destruct Hp as [Hw Hs].
  pose proof Hok as [Hr Hl]. apply Forall_app in Hr as [Hr1 Hr2]. destruct (Hs Hr2) as [Hset Hkept].
  pose proof (world_only_sup _ _ Hw) as E. split_and!; [|done|done|simpl; by rewrite E].
  split.
  - apply settles_accounts in Hset. apply (accounts_frame ((map_to_list (live_children (supervisor s))).*2)) in Hset.
    unfold owned. simpl. by rewrite E.
  - split; [|simpl; by rewrite E]. unfold owned, unreaped. simpl. rewrite E. apply Forall_app. done.
Qed.

Lemma terminate_children_settles children s :
  unreaped children →
  let '(gone, orphans, s') := terminate_children children s in
  ∃ kept, settles children s gone kept s' ∧ unreaped kept ∧ orphans = Z.of_nat (length kept) ∧
    supervisor s' = supervisor s <| retained_cleanup := retained_cleanup (supervisor s) ++ kept |>.
Proof.
  revert s. induction children as [|c l IH]; intros s; cbn [terminate_children].
  { intros _. exists []. split_and!; [|by constructor|done|].
    - exists []. by rewrite app_nil_r.
    - rewrite app_nil_r. by destruct (supervisor s). }
  intros [Hc Hl]%Forall_cons. pose proof (terminate_handled false c s) as Hh.
  destruct (terminate false c s) as [[r c'] s1]. cbn [fst snd] in Hh.
  pose proof (handled_settles _ _ _ _ _ Hh Hc) as Hs. pose proof (world_only_sup _ _ (hd_world _ _ _ _ _ Hh)) as E.
  pose proof (hd_reaped _ _ _ _ _ Hh) as Hr. destruct r as [[]|err]; cbn [is_ok] in *.
  - specialize (IH s1 Hl). destruct (terminate_children l s1) as [[gone orphans] s2].
    destruct IH as (kept & K1 & K2 & K3 & K4). exists kept. rewrite K4, E. split_and!; [|done..].
    exact (settles_cons _ _ _ _ _ _ _ _ _ Hs K1).
  - specialize (IH (retain c' s1) Hl). destruct (terminate_children l (retain c' s1)) as [[gone orphans] s2].
    destruct IH as (kept & K1 & K2 & K3 & K4). exists (c' :: kept). unfold retain in *. rewrite Hr in *. split_and!.
    + exact (settles_cons _ _ _ _ _ _ _ _ _ Hs K1).
    + by constructor.
    + simpl length. lia.
    + rewrite K4. simpl. rewrite E, <- app_assoc. done.
Qed.

Lemma btree_values_perm (m : gmap string ModuleProcess) : btree_values m ≡ₚ (map_to_list m).*2.
Proof. unfold btree_values. by rewrite btree_entries_perm. Qed.

Record shut (s : MetaRuntimeHandle) (report : RuntimeShutdownReport) (s' : MetaRuntimeHandle) : Prop := {
  sh_keeps : keeps [] s s';
  sh_stopped : live_children (supervisor s') = ∅ ∧ loaded_modules (supervisor s') = ∅ ∧ running (supervisor s') = false;
  sh_report : ∃ j, process_journal s' = process_journal s ++ j ∧ spawned j = ∅ ∧
    confirmed j = reported (cleanup_reaped (physical_cleanup report));
  sh_settled : cleanup_phase (physical_cleanup report) = CleanupSettled ↔ retained_cleanup (supervisor s') = [];
}.

Lemma settled_iff gone s : cleanup_phase (cleanup_observation gone s) = CleanupSettled ↔ retained_cleanup (supervisor s) = [].
Proof. unfold cleanup_observation. simpl. destruct (retained_cleanup (supervisor s)); simpl; [done|]. by destruct (_ || _). Qed.

Lemma shutdown_shut s : sup_ok s → let (report, s') := shutdown s in shut s report s'.
Proof.
  intros Hok. unfold shutdown. set (s0 := s <| supervisor := _ |>).
  assert (Hch : unreaped (btree_values (live_children (supervisor s)))).
  { unfold unreaped. rewrite btree_values_perm. pose proof (so_running _ Hok) as Hr. by apply Forall_app in Hr as [? _]. }
  pose proof (terminate_children_settles _ s0 Hch) as Hc.
  destruct (terminate_children _ s0) as [[gone orphans] s1]. destruct Hc as (kept & K1 & K2 & K3 & K4).
  assert (Hok1 : sup_ok s1).
  { split; unfold owned, unreaped; rewrite K4; simpl.
    - rewrite map_to_list_empty. simpl. apply Forall_app. split; [|done]. pose proof (so_running _ Hok) as Hr. by apply Forall_app in Hr as [_ ?].
    - intros i. rewrite lookup_empty. by intros []. }
  pose proof (progress_keeps s1 Hok1) as Hp. destruct (progress s1) as [o s2]. destruct Hp as (P1 & P2 & P3 & P4).
  assert (Hset : settles (btree_values (live_children (supervisor s)) ++ retained_cleanup (supervisor s1)) s0
    (gone ++ cleanup_reaped o) (kept ++ retained_cleanup (supervisor s2)) s2) by (eapply settles_cons; [exact K1|exact P2]).
  assert (Hown : held (owned s1) = held (retained_cleanup (supervisor s)) ⊎ held kept).
  { unfold owned. rewrite K4. simpl. rewrite map_to_list_empty. simpl. apply held_app. }
  split.
  - split; [|apply P1]. apply settles_accounts in K1.
    apply (accounts_frame (retained_cleanup (supervisor s))) in K1.
    eapply accounts_trans; [|exact (proj1 P1)]. eapply accounts_held; [| |exact K1].
    + unfold owned. simpl. rewrite !held_app, (held_perm _ _ (btree_values_perm _)). bag.
    + simpl. by rewrite Hown, held_app.
  - rewrite P4, K4. done.
  - destruct Hset as (j & J1 & J2 & _ & J4 & _). exists j. done.
  - simpl. rewrite P3. apply settled_iff.
Qed.
End account.

#[export] Hint Resolve world_only_refl sup_ok_same keeps_aside : meta.
#[export] Hint Extern 1 (aside _ _) => done : meta.

(** ** Theorems *)

(** The operations of the supervisor; [SupervisorAside] stands for those of other components. *)
Inductive supervisor_step `{RuntimeEnv} `{ModuleOs} : MetaRuntimeHandle → MetaRuntimeHandle → Prop :=
| SpawnsMember id timeout s : supervisor_step s (spawn_member id timeout s).2
| Reconciles ids timeout s : supervisor_step s (reconcile_modules ids timeout s).2
| Progresses s : supervisor_step s (progress_module_cleanup s).2
| ShutsDown s : supervisor_step s (shutdown s).2
| SupervisorAside s s' : aside s s' → supervisor_step s s'.

(** Every process that was ever started is owned by the supervisor, as a live child or as retained
    cleanup, or its exit was confirmed; none was abandoned. *)
Definition all_accounted (s : MetaRuntimeHandle) : Prop :=
  spawned (process_journal s) = confirmed (process_journal s) ⊎ held (owned s) ∧ abandoned (process_journal s) = ∅.

Section theorems.
Context `{RuntimeEnv} `{ModuleOs}.

Lemma keeps_accounted s s' : keeps [] s s' → all_accounted s → all_accounted s'.
Proof.
  intros [(j & E & Hj & Aj) _] [Ha Hb]. unfold all_accounted, spawned, confirmed, abandoned in *. rewrite E, !pids_of_app.
  simpl in Hj. split; multiset_solver.
Qed.

Lemma step_keeps s s' :
  (∀ n command args env pid, os_spawn n command args env ≠ Ok (pid, false)) →
  supervisor_step s s' → sup_ok s → keeps [] s s'.
Proof.
  intros Hpiped Hstep Hok. destruct Hstep as [id timeout s|ids timeout s|s|s|s s' Ha].
  - exact (spawn_member_keeps Hpiped id timeout s Hok).
  - exact (reconcile_keeps Hpiped ids timeout s Hok).
  - pose proof (progress_keeps s Hok) as Hp. unfold progress_module_cleanup. destruct (progress s). apply Hp.
  - pose proof (shutdown_shut s Hok) as Hs. destruct (shutdown s). apply Hs.
  - auto with meta.
Qed.

(** C38: No module process is lost.  On an operating system that gives the pipe it was asked for, after
    any sequence of starts, respawns (aborted ones included), reconciliations, cleanup steps and
    shutdowns, every process that was ever started is a live child of a loaded module, is retained for
    cleanup, or was confirmed to have exited; none is abandoned, and nothing confirmed is still held.  A
    shutdown leaves no live child, reports exactly the exits it confirmed, and when it reports the
    cleanup settled, every process ever started has exited. *)
Theorem no_process_is_lost s0 s :
  (∀ n command args env pid, os_spawn n command args env ≠ Ok (pid, false)) →
  sup_ok s0 → all_accounted s0 → rtc supervisor_step s0 s →
  sup_ok s ∧ all_accounted s ∧
  let (report, s') := shutdown s in
  shut s report s' ∧
  (cleanup_phase (physical_cleanup report) = CleanupSettled →
    spawned (process_journal s') = confirmed (process_journal s')).
Proof.
  intros Hpiped Hok Hacc Hsteps.
  assert (Hs : sup_ok s ∧ all_accounted s).
  { induction Hsteps as [s|s1 s2 s3 Hstep _ IH]; [done|]. pose proof (step_keeps _ _ Hpiped Hstep Hok) as Hk.
    apply IH; [apply Hk|by eapply keeps_accounted]. }
  destruct Hs as [Hok' Hacc']. split; [done|]. split; [done|].
  pose proof (shutdown_shut s Hok') as Hsh. destruct (shutdown s) as [report s']. split; [done|]. intros Hset.
  destruct Hsh as [Hk (Hlive & _) _ Hst]. apply Hst in Hset.
  destruct (keeps_accounted _ _ Hk Hacc') as [Ha _]. rewrite Ha. unfold owned. rewrite Hlive, Hset, map_to_list_empty. simpl.
  multiset_solver.
Qed.

(** C37: A supervised start terminates and reports a path of the module's health: it begins at Starting,
    every transition leaves the state the one before it entered along a legal edge, there are between one
    attempt and the restart budget of the module's policy plus one (so below the top budget the 32-bit
    attempt counter does not overflow), and it ends Healthy with the event of
    the module (and its process, unless it is an MCP module) or Stopped with the error. *)
Theorem supervision_report_is_a_path module pre timeout options s :
  0 ≤ on_failure_retry_budget options < U32_MAX → 0 ≤ always_restart_budget options < U32_MAX →
  let r := (supervise_module_start module pre timeout options s).1 in
  (∃ l final attempts, start_transitions r = mkTransition (module_id module) None Starting 0 :: l ∧
    health_path (module_id module) Starting 0 l final attempts ∧
    1 ≤ attempts ≤ restart_budget module options + 1 ∧ is_u32 attempts ∧
    match start_event r with Some _ => final = Healthy | None => final = Stopped end) ∧
  is_some (start_child r) = is_some (start_event r) && negb (module_uses_mcp module pre) ∧
  (start_event r = None → is_some (terminal_error r) = true).
Proof.
  intros H1 H2 r.
  destruct (supervise_start_report module pre timeout options s) as [(l & final & n & Hl & Hp & Hn & Hf) Hc He];
    [unfold is_u32; lia..|].
  split; [|by split]. exists l, final, n. do 3 (split; [done|]). split; [|done].
  unfold is_u32, restart_budget in *. destruct (restart_policy module); lia.
Qed.
End theorems.

Module SupervisorExamples.

#[local] Existing Instance silent_env.

(** Processes 1, 2, .. that print nothing, whose even ones cannot be waited for at first. *)
#[local] Instance example_os : ModuleOs := {|
  os_spawn n _ _ _ := Ok (Z.of_nat n, true);
  os_first_line _ _ _ := FirstLineClosed;
  os_try_wait n pid := if (pid mod 2 =? 0) && (n <? 4)%nat then Err "busy" else Ok true;
  os_kill _ _ := None;
  os_wait _ _ := None;
  debug_normalization _ := "error";
|}.

Lemma example_piped n command args env pid : os_spawn n command args env ≠ Ok (pid, false).
Proof. discriminate. Qed.

Definition worker : ModuleConfig := mkModule "worker" "run" [] OnFailure.

Definition idle : MetaRuntimeHandle :=
  example_runtime [] <| config := mkMetaConfig [worker] (mkDiscovery "example" []) [] |>.

Definition tried : MetaRuntimeHandle := (spawn_member "worker" 100 idle).2.

Lemma idle_ok : sup_ok idle ∧ all_accounted idle.
Proof.
  split; [split|split].
  - apply Forall_nil_2.
  - intros i. change (live_children (supervisor idle)) with (∅ : gmap string ModuleProcess). rewrite lookup_empty. by intros [].
  - vm_compute. reflexivity.
  - vm_compute. reflexivity.
Qed.

(** The first attempt's process could not be confirmed and is retained; the shutdown settles it. *)
Lemma no_process_is_lost_witness :
  rtc supervisor_step idle tried ∧ sup_ok tried ∧ all_accounted tried ∧
  retained_cleanup (supervisor tried) ≠ [] ∧
  spawned (process_journal (shutdown tried).2) = confirmed (process_journal (shutdown tried).2).
Proof.
  assert (Hstep : rtc supervisor_step idle tried) by (apply rtc_once; apply SpawnsMember).
  pose proof (no_process_is_lost idle tried example_piped (proj1 idle_ok) (proj2 idle_ok) Hstep) as (H1 & H2 & H3).
  split; [exact Hstep|]. split; [exact H1|]. split; [exact H2|]. split; [vm_compute; discriminate|].
  destruct (shutdown tried) as [report s'] eqn:E. destruct H3 as [_ H3]. apply H3.
  assert (Hr : report = (shutdown tried).1) by (rewrite E; reflexivity). rewrite Hr. vm_compute. reflexivity.
Defined.

Lemma supervision_report_is_a_path_witness :
  start_transitions (supervise_module_start worker None 100 example_options idle).1 =
    [mkTransition "worker" None Starting 0; mkTransition "worker" (Some Starting) Failed 1;
     mkTransition "worker" (Some Failed) Restarting 1; mkTransition "worker" (Some Restarting) Failed 2;
     mkTransition "worker" (Some Failed) Stopped 2] ∧
  is_some (terminal_error (supervise_module_start worker None 100 example_options idle).1) = true.
Proof.
  split; [vm_compute; reflexivity|].
  assert (H1 : 0 ≤ 1 < U32_MAX) by (unfold U32_MAX; lia). assert (H2 : 0 ≤ 2 < U32_MAX) by (unfold U32_MAX; lia).
  destruct (supervision_report_is_a_path worker None 100 example_options idle H1 H2) as (_ & _ & He).
  apply He. vm_compute. reflexivity.
Defined.
End SupervisorExamples.

