(* ===== verification/Routing.v ===== *)
(** * Routing ([runtime/routing.rs], the clock of [runtime/delivery.rs])

    Operators keep a table of runtime routes; a resolution starts from the
    request, is overridden by the router module's answer and then by the best
    matching runtime route, is range checked after each step, gets the next
    route id, and is remembered as trusted among the last 512. *)

From S2P Require Import Prelude Strings Json RuntimeTypes EventTransport ModuleBoundary.
Open Scope Z_scope.

Definition ROUTING_RESOLUTION_LIMIT_MAX : nat := 512.
Definition ROUTING_RETRY_MAX_CAP : Z := 10.
Definition WILDCARD_ROUTE : string := "*".

Definition require_non_empty (value : string) : option string :=
  let trimmed := trim value in
  if str_is_empty trimmed then None else Some trimmed.

(** ** The router module's answer *)

Definition trimmed_member (k : string) (payload : list (string * Value)) : option string :=
  text ← member k payload ≫= as_str; require_non_empty text.

Definition member_u64 (k : string) (payload : list (string * Value)) : option Z :=
  v ← member k payload; as_u64 v.
Definition member_u32 (k : string) (payload : list (string * Value)) : option Z :=
  raw ← member_u64 k payload; u32_try_from raw.

Definition parse_router_payload_overrides (payload : list (string * Value)) : RouterBoundaryOverrides :=
  mkOverrides
    (trimmed_member "channel" payload)
    (trimmed_member "sink" payload)
    (trimmed_member "target_module" payload)
    (member_u32 "retry_max" payload)
    (member_u64 "backoff_ms" payload)
    (member_u32 "rate_limit_per_minute" payload).

Definition parse_router_mcp_overrides (response : Value) : RouterBoundaryOverrides :=
  match as_object response with
  | None => mkOverrides None None None None None None
  | Some payload => parse_router_payload_overrides payload
  end.

(** ** Runtime routes *)

Definition exact_recipient (recipient : string) (route : RuntimeRoute) : bool :=
  negb (route_recipient route =b WILDCARD_ROUTE) && (route_recipient route =b recipient).
Definition wild_recipient (route : RuntimeRoute) : bool := route_recipient route =b WILDCARD_ROUTE.
Definition exact_channel (channel : string) (route : RuntimeRoute) : bool :=
  is_none_or (route_channel route) (λ c, negb (c =b WILDCARD_ROUTE) && (c =b channel)).
Definition wild_channel (route : RuntimeRoute) : bool := route_channel route =b Some WILDCARD_ROUTE.

Definition matching_runtime_route (s : MetaRuntimeHandle) (recipient channel : string) : option RuntimeRoute :=
  let routes := btree_values (runtime_routes (routing s)) in
  match find_first (λ route, exact_recipient recipient route && exact_channel channel route) routes with
  | Some exact => Some exact
  | None =>
      match find_first (λ route, exact_recipient recipient route && wild_channel route) routes with
      | Some exact_recip_wild_chan => Some exact_recip_wild_chan
      | None =>
          match find_first (λ route, wild_recipient route && exact_channel channel route) routes with
          | Some wild_recip_exact_chan => Some wild_recip_exact_chan
          | None => find_first (λ route, wild_recipient route && wild_channel route) routes
          end
      end
  end.

Definition list_runtime_routes (s : MetaRuntimeHandle) : list RuntimeRoute :=
  btree_values (runtime_routes (routing s)).

(** The checks of [add_runtime_route], and the canonical route they give. *)
Definition canonical_route (route : RuntimeRoute) : Result RuntimeRoute RuntimeRouteMutationError :=
  key ←? ok_or (require_non_empty (route_key route)) EmptyRouteKey;
  recipient ←? ok_or (require_non_empty (route_recipient route)) RouteEmptyRecipient;
  if is_some_and (route_channel route) (λ channel, is_none (require_non_empty channel))
  then Err RouteInvalidChannel
  else
    sink ←? ok_or (require_non_empty (route_sink route)) EmptySink;
    target_module ←? ok_or (require_non_empty (route_target_module route)) EmptyTargetModule;
    if is_some_and (route_retry_max route) (λ retry_max, ROUTING_RETRY_MAX_CAP <? retry_max)
    then Err (RouteRetryMaxExceedsCap (unwrap_or (route_retry_max route) 0) ROUTING_RETRY_MAX_CAP)
    else if route_rate_limit route =b Some 0 then Err RouteInvalidRateLimit
    else Ok (mkRoute key recipient (route_channel route ≫= require_non_empty) sink target_module
               (route_retry_max route) (route_backoff_ms route) (route_rate_limit route)).

Definition set_routes (m : gmap string RuntimeRoute) (s : MetaRuntimeHandle) : MetaRuntimeHandle :=
  s <| routing := (routing s) <| runtime_routes := m |> |>.

Definition add_runtime_route (route : RuntimeRoute) :
    M MetaRuntimeHandle RuntimeRouteMutationError RuntimeRoute :=
  canonical ← lift_result (canonical_route route);
  _ ← modify (λ s, set_routes (<[route_key canonical := canonical]> (runtime_routes (routing s))) s);
  mret canonical.

Definition delete_runtime_route (key : string) :
    M MetaRuntimeHandle RuntimeRouteMutationError RuntimeRoute :=
  let key := trim key in
  _ ← throw_if (str_is_empty key) EmptyRouteKey;
  removed ← gets (λ s, runtime_routes (routing s) !! key);
  _ ← modify (λ s, set_routes (delete key (runtime_routes (routing s))) s);
  lift_result (ok_or removed (RouteNotFound key)).

(** ** The clock of deliveries ([delivery.rs]) *)

Section clock.
Context `{RuntimeEnv}.

Definition refresh_delivery_clocks_from_now (s : MetaRuntimeHandle) : MetaRuntimeHandle :=
  let (now, s) := current_time_ms s in
  let d := delivery s in
  let observed_now_ms := u64_saturating_sub now (delivery_runtime_epoch_ms d) in
  let d := d <| delivery_now_floor_ms := Z.max (delivery_now_floor_ms d) observed_now_ms |> in
  let d := d <| delivery_clock_ms := Z.max (delivery_clock_ms d) (delivery_now_floor_ms d) |> in
  s <| delivery := d |>.

Definition next_route_resolved_timestamp_ms (s : MetaRuntimeHandle) : Z * MetaRuntimeHandle :=
  let s := refresh_delivery_clocks_from_now s in
  let latest_merged_timestamp_ms := unwrap_or (timestamp_ms <$> last (merged_events s)) 0 in
  let timestamp_ms := Z.max (delivery_clock_ms (delivery s)) latest_merged_timestamp_ms in
  (timestamp_ms, s <| delivery := (delivery s) <| delivery_clock_ms := timestamp_ms |> |>).
End clock.

(** ** Resolution *)

(** [while order.len() > n { map.remove(&order.remove(0)) }] *)
Fixpoint evict_oldest {V} (n : nat) (order : list string) (m : gmap string V) : list string * gmap string V :=
  match order with
  | [] => (order, m)
  | oldest :: rest =>
      if (n <? length order)%nat then evict_oldest n rest (delete oldest m) else (order, m)
  end.

Definition remember_routing_resolution (resolution : RoutingResolution) (r : RoutingState) : RoutingState :=
  let m := <[route_id resolution := resolution]> (routing_resolutions r) in
  let order := routing_resolution_order r ++ [route_id resolution] in
  let (order, m) := evict_oldest ROUTING_RESOLUTION_LIMIT_MAX order m in
  r <| routing_resolutions := m |> <| routing_resolution_order := order |>.

(** [serde_json::to_value] of the request and of a resolution. *)
Definition resolve_request_value (request : RoutingResolveRequest) : Value :=
  obj [("recipient", str (request_recipient request));
       ("channel", opt_value str (request_channel request));
       ("retry_max", opt_value num (request_retry_max request));
       ("backoff_ms", opt_value num (request_backoff_ms request));
       ("rate_limit_per_minute", opt_value num (request_rate_limit request))].

Definition resolution_value (r : RoutingResolution) : Value :=
  obj [("route_id", str (route_id r)); ("recipient", str (recipient r)); ("channel", str (channel r));
       ("sink", str (sink r)); ("target_module", str (target_module r)); ("retry_max", num (retry_max r));
       ("backoff_ms", num (backoff_ms r)); ("rate_limit_per_minute", num (rate_limit_per_minute r))].

(** The local variables of [resolve_routing]. *)
Record ResolveDraft := mkDraft {
  draft_recipient : string;
  draft_channel : string;
  draft_sink : string;
  draft_target_module : string;
  draft_retry_max : Z;
  draft_backoff_ms : Z;
  draft_rate_limit : Z;
}.

Definition check_limits (draft : ResolveDraft) : Result ResolveDraft RoutingResolveError :=
  if ROUTING_RETRY_MAX_CAP <? draft_retry_max draft
  then Err (RetryMaxExceedsCap (draft_retry_max draft) ROUTING_RETRY_MAX_CAP)
  else if draft_rate_limit draft =? 0 then Err InvalidRateLimitPerMinute
  else Ok draft.

Definition default_sink (recipient : string) : string :=
  if contains_byte "@"%char recipient then "email"
  else if starts_with "+" recipient then "sms"
  else "webhook".

Definition initial_draft (request : RoutingResolveRequest) : Result ResolveDraft RoutingResolveError :=
  recipient ←? ok_or (require_non_empty (request_recipient request)) EmptyRecipient;
  channel ←? ok_or (require_non_empty (unwrap_or (request_channel request) "notification")) InvalidChannel;
  check_limits
    (mkDraft recipient channel (default_sink recipient) "delivery"
       (unwrap_or (request_retry_max request) 1) (unwrap_or (request_backoff_ms request) 250)
       (unwrap_or (request_rate_limit request) 2)).

Definition apply_router_overrides (overrides : RouterBoundaryOverrides) (draft : ResolveDraft) : ResolveDraft :=
  mkDraft (draft_recipient draft)
    (unwrap_or (override_channel overrides) (draft_channel draft))
    (unwrap_or (override_sink overrides) (draft_sink draft))
    (unwrap_or (override_target_module overrides) (draft_target_module draft))
    (unwrap_or (override_retry_max overrides) (draft_retry_max draft))
    (unwrap_or (override_backoff_ms overrides) (draft_backoff_ms draft))
    (unwrap_or (override_rate_limit overrides) (draft_rate_limit draft)).

Definition apply_runtime_route (route : option RuntimeRoute) (draft : ResolveDraft) : ResolveDraft :=
  match route with
  | None => draft
  | Some route_override =>
      mkDraft (draft_recipient draft) (draft_channel draft)
        (route_sink route_override) (route_target_module route_override)
        (unwrap_or (route_retry_max route_override) (draft_retry_max draft))
        (unwrap_or (route_backoff_ms route_override) (draft_backoff_ms draft))
        (unwrap_or (route_rate_limit route_override) (draft_rate_limit draft))
  end.

Definition route_id_of (sequence : Z) : string := "route-" +:+ fmt06 sequence.

Section resolve.
Context `{RuntimeEnv}.

(** The end of [resolve_routing]: id, memory of the resolution, event. *)
Definition commit_resolution (draft : ResolveDraft) (s : MetaRuntimeHandle) : RoutingResolution * MetaRuntimeHandle :=
  let (route_sequence, next) := next_sequence (routing_sequence (routing s)) in
  let s := s <| routing := (routing s) <| routing_sequence := next |> |> in
  let resolution := mkResolution (route_id_of route_sequence) (draft_recipient draft) (draft_channel draft)
                      (draft_sink draft) (draft_target_module draft) (draft_retry_max draft)
                      (draft_backoff_ms draft) (draft_rate_limit draft) in
  let s := s <| routing := remember_routing_resolution resolution (routing s) |> in
  let event_id := "evt-routing-" +:+ fmt06 route_sequence in
  let (resolved_timestamp_ms, s) := next_route_resolved_timestamp_ms s in
  (resolution,
   s <| merged_events := insert_event_sorted (merged_events s)
          (mkEnvelope event_id "module" resolved_timestamp_ms
             (ModuleEvt (mkModuleEvent "router" "resolved" (resolution_value resolution)))) |>).

Definition resolve_routing (request : RoutingResolveRequest) :
    M MetaRuntimeHandle RoutingResolveError RoutingResolution :=
  router_loaded ← gets (λ s, is_module_loaded s "router");
  _ ← throw_if (negb router_loaded) RouterModuleNotLoaded;
  delivery_loaded ← gets (λ s, is_module_loaded s "delivery");
  _ ← throw_if (negb delivery_loaded) RoutingDeliveryModuleNotLoaded;
  draft ← lift_result (initial_draft request);
  found ← gets (mcp_module "router" ROUTER_RESOLVE_MCP_TOOL);
  router ← lift_result (map_err RouterBoundary found);
  response ← with_err RouterBoundary
               (call_tool router.1 router.2 ROUTER_RESOLVE_MCP_TOOL (resolve_request_value request));
  draft ← lift_result (check_limits (apply_router_overrides (parse_router_mcp_overrides response) draft));
  route ← gets (λ s, matching_runtime_route s (draft_recipient draft) (draft_channel draft));
  draft ← lift_result (check_limits (apply_runtime_route route draft));
  lift_state (commit_resolution draft).
End resolve.

(** ** Well-formedness *)

(** A string the runtime accepts as a name: trimmed and not empty. *)
Definition name_ok (t : string) : Prop := trim t = t ∧ t ≠ "".

Definition opt_u32 (o : option Z) : Prop := ∀ n, o = Some n → is_u32 n.
Definition opt_u64 (o : option Z) : Prop := ∀ n, o = Some n → is_u64 n.

(** The machine ranges of a route's and a request's numbers. *)
Definition typed_route (r : RuntimeRoute) : Prop :=
  opt_u32 (route_retry_max r) ∧ opt_u64 (route_backoff_ms r) ∧ opt_u32 (route_rate_limit r).
Definition typed_request (r : RoutingResolveRequest) : Prop :=
  opt_u32 (request_retry_max r) ∧ opt_u64 (request_backoff_ms r) ∧ opt_u32 (request_rate_limit r).

Record route_ok (r : RuntimeRoute) : Prop := {
  rok_typed : typed_route r;
  rok_key : name_ok (route_key r);
  rok_recipient : name_ok (route_recipient r);
  rok_channel : ∀ c, route_channel r = Some c → name_ok c;
  rok_sink : name_ok (route_sink r);
  rok_target : name_ok (route_target_module r);
  rok_retry : ∀ n, route_retry_max r = Some n → n ≤ ROUTING_RETRY_MAX_CAP;
  rok_rate : ∀ n, route_rate_limit r = Some n → n ≠ 0;
}.

Record resolution_ok (r : RoutingResolution) : Prop := {
  res_recipient : name_ok (recipient r);
  res_channel : name_ok (channel r);
  res_sink : name_ok (sink r);
  res_target : name_ok (target_module r);
  res_retry : 0 ≤ retry_max r ≤ ROUTING_RETRY_MAX_CAP;
  res_backoff : is_u64 (backoff_ms r);
  res_rate : 1 ≤ rate_limit_per_minute r ≤ U32_MAX;
}.

Lemma require_non_empty_Some v t : require_non_empty v = Some t ↔ t = trim v ∧ name_ok t.
Proof.
  unfold require_non_empty, name_ok. destruct (str_is_empty (trim v)) eqn:E.
  - apply str_is_empty_true in E. rewrite E. split; [done|]. intros (-> & _ & ?). done.
  - apply str_is_empty_false in E. split.
    + intros [= <-]. by autorewrite with meta.
    + by intros [-> _].
Qed.

Lemma require_non_empty_id t : name_ok t → require_non_empty t = Some t.
Proof. intros Ht. apply require_non_empty_Some. split; [|done]. by destruct Ht. Qed.

Lemma trimmed_member_ok k p t : trimmed_member k p = Some t → name_ok t.
Proof.
  unfold trimmed_member. destruct (member k p ≫= as_str) as [v|]; [|done]. simpl.
  by intros [_ ?]%require_non_empty_Some.
Qed.

Lemma as_u64_range v n : as_u64 v = Some n → is_u64 n.
Proof. unfold as_u64, is_u64. destruct v as [| |[]| | |]; try done. by case_decide; intros [= <-]. Qed.

Lemma member_u64_range k p : opt_u64 (member_u64 k p).
Proof.
  intros n. unfold member_u64. destruct (member k p); [|done]. simpl. apply as_u64_range.
Qed.

Lemma member_u32_range k p : opt_u32 (member_u32 k p).
Proof.
  intros n. unfold member_u32. destruct (member_u64 k p) as [m|] eqn:E; [|done]. simpl.
  apply member_u64_range in E. unfold u32_try_from, is_u32, is_u64 in *. case_decide; intros [= <-]. lia.
Qed.

(** ** Runtime routes *)

Lemma canonical_route_Ok r c :
  typed_route r → canonical_route r = Ok c →
  route_ok c ∧ route_key c = trim (route_key r) ∧ typed_route c.
Proof.
  intros Hty. unfold canonical_route. intros H.
  apply and_then_Ok in H as (key & Hk & H). apply and_then_Ok in H as (rc & Hr & H).
  destruct (is_some_and _ _) eqn:Hc in H; [done|].
  apply and_then_Ok in H as (sk & Hs & H). apply and_then_Ok in H as (tm & Ht & H).
  destruct (is_some_and _ _) eqn:Hm in H; [done|].
  destruct (bool_decide_reflect (route_rate_limit r = Some 0)) as [|Hz]; [done|]. injection H as <-.
  destruct (require_non_empty (route_key r)) eqn:E1; simplify_eq/=. apply require_non_empty_Some in E1 as [-> E1].
  destruct (require_non_empty (route_recipient r)) eqn:E2; simplify_eq/=. apply require_non_empty_Some in E2 as [-> E2].
  destruct (require_non_empty (route_sink r)) eqn:E3; simplify_eq/=. apply require_non_empty_Some in E3 as [-> E3].
  destruct (require_non_empty (route_target_module r)) eqn:E4; simplify_eq/=. apply require_non_empty_Some in E4 as [-> E4].
  split_and!; [|done..]. split; simpl; try done.
  - intros c. destruct (route_channel r); simpl; [|done]. by intros [_ ?]%require_non_empty_Some.
  - intros n Hn. rewrite Hn in Hm. simpl in Hm. apply Z.ltb_ge in Hm. done.
  - intros n Hn ->. done.
Qed.

Lemma canonical_route_id c : route_ok c → canonical_route c = Ok c.
Proof.
  intros []. unfold canonical_route. rewrite !require_non_empty_id by done. simpl.
  destruct c as [k rc ch sk tm rm bm rl]; simpl in *. destruct ch as [ch|]; simpl.
  - rewrite (require_non_empty_id ch) by auto. simpl.
    destruct rm as [rm|]; simpl.
    + destruct (Z.ltb_spec ROUTING_RETRY_MAX_CAP rm) as [Hlt|_]; [specialize (rok_retry0 _ eq_refl); lia|].
      case_bool_decide; [by destruct (rok_rate0 0)|done].
    + case_bool_decide; [by destruct (rok_rate0 0)|done].
  - destruct rm as [rm|]; simpl.
    + destruct (Z.ltb_spec ROUTING_RETRY_MAX_CAP rm) as [Hlt|_]; [specialize (rok_retry0 _ eq_refl); lia|].
      case_bool_decide; [by destruct (rok_rate0 0)|done].
    + case_bool_decide; [by destruct (rok_rate0 0)|done].
Qed.

Lemma set_routes_routes m s : runtime_routes (routing (set_routes m s)) = m.
Proof. done. Qed.
Lemma set_routes_same s : set_routes (runtime_routes (routing s)) s = s.
Proof. by destruct s as [? ? ? ? [] ? ? ? ?]. Qed.

(** A route that is added is stored in canonical form under its trimmed
    key: names are trimmed and not empty, the retry count and rate limit are in
    range, and adding the stored form again changes nothing; a refused route
    changes nothing.  Deleting a fresh route by any spelling of its key that
    trims to it returns the stored route and restores the table. *)
Theorem route_add_delete_roundtrip s route key :
  typed_route route →
  wp (add_runtime_route route) (λ r s',
    match r with
    | Err _ => s' = s
    | Ok stored =>
        route_ok stored ∧ route_key stored = trim (route_key route) ∧
        runtime_routes (routing s') = <[route_key stored := stored]> (runtime_routes (routing s)) ∧
        add_runtime_route stored s' = (Ok stored, s') ∧
        (runtime_routes (routing s) !! route_key stored = None → trim key = route_key stored →
         delete_runtime_route key s' = (Ok stored, s))
    end) s.
Proof.
  intros Hty. unfold add_runtime_route at 1. wp_step. wp_step.
  destruct (canonical_route route) as [c|e] eqn:Hc; [|done].
  apply canonical_route_Ok in Hc as (Hok & Hkey & _); [|done]. repeat wp_step.
  split_and!; [done..| |].
  - unfold add_runtime_route, mbind, m_bind, lift_result, modify, mret, m_ret.
    rewrite canonical_route_id by done. rewrite set_routes_routes, insert_insert_eq.
    done.
  - intros Hnone Hk. unfold delete_runtime_route. rewrite Hk.
    destruct (rok_key _ Hok) as [_ Hne]. apply str_is_empty_false in Hne. rewrite Hne.
    unfold throw_if, mbind, m_bind, gets, modify, mret, m_ret, lift_result.
    rewrite !set_routes_routes, lookup_insert_eq. simpl. f_equal.
    rewrite delete_insert_id by done. by destruct s as [? ? ? ? [] ? ? ? ?].
Qed.

(** ** The best matching route *)

(** The rank of a route for a recipient and a channel: a literal recipient
    beats a wildcard one, and then a channel that is literal or left out beats
    a wildcard channel. *)
Definition route_rank (recipient channel : string) (route : RuntimeRoute) : option nat :=
  base ← (if route_recipient route =b WILDCARD_ROUTE then Some 2%nat
          else if route_recipient route =b recipient then Some 0%nat else None);
  chan ← match route_channel route with
         | None => Some 1%nat
         | Some c => if c =b WILDCARD_ROUTE then Some 2%nat
                     else if c =b channel then Some 1%nat else None
         end;
  Some (base + chan)%nat.

Lemma route_rank_tests rc ch r :
  route_rank rc ch r =
  if exact_recipient rc r && exact_channel ch r then Some 1%nat
  else if exact_recipient rc r && wild_channel r then Some 2%nat
  else if wild_recipient r && exact_channel ch r then Some 3%nat
  else if wild_recipient r && wild_channel r then Some 4%nat
  else None.
Proof.
  unfold route_rank, exact_recipient, exact_channel, wild_recipient, wild_channel.
  destruct (route_channel r) as [c|]; simpl.
  - assert (Some c =b Some WILDCARD_ROUTE = (c =b WILDCARD_ROUTE)) as ->
      by (apply bool_decide_ext; naive_solver).
    repeat case_test; simpl; done.
  - repeat case_test; simpl; done.
Qed.

Definition best_route (routes : gmap string RuntimeRoute) (rc ch : string) (route : RuntimeRoute) : Prop :=
  ∃ key rank, routes !! key = Some route ∧ route_rank rc ch route = Some rank ∧
  ∀ key' route' rank', routes !! key' = Some route' → route_rank rc ch route' = Some rank' →
    (rank ≤ rank')%nat ∧ (rank' = rank → String.le key key').

(** The first route that passes the test of a rank, when no route has a better one. *)
Lemma best_route_intro routes f p rc ch route :
  find_first f (btree_values routes) = Some route →
  (∀ k r, routes !! k = Some r → f r = true → route_rank rc ch r = Some p) →
  (∀ k r, routes !! k = Some r → ∀ p', route_rank rc ch r = Some p' → (p ≤ p')%nat ∧ (p' = p → f r = true)) →
  best_route routes rc ch route.
Proof.
  intros (k & Hk & Hf & Hmin)%find_first_btree_values Hp Hle. exists k, p.
  split_and!; [done|by eapply Hp|]. intros k' r' p' Hk' Hr'.
  destruct (Hle _ _ Hk' _ Hr') as [? Heq]. split; [done|]. intros E. by eapply Hmin; [|apply Heq].
Qed.

Lemma find_first_btree_None (f : RuntimeRoute → bool) (routes : gmap string RuntimeRoute) :
  find_first f (btree_values routes) = None → ∀ k r, routes !! k = Some r → f r = false.
Proof. intros Hf k r Hk. rewrite find_first_None in Hf. apply Hf, elem_of_btree_values. eauto. Qed.

Lemma matching_route_in_table s rc ch r :
  matching_runtime_route s rc ch = Some r → ∃ k, runtime_routes (routing s) !! k = Some r.
Proof.
  unfold matching_runtime_route. intros Hm. apply elem_of_btree_values.
  repeat case_match; simplify_eq; match goal with H : find_first _ _ = Some r |- _ => by apply find_first_Some in H as [] end.
Qed.

(** The runtime route a resolution uses is the best one: no route of the
    table has a better rank for that recipient and channel, among equals it is
    the first in key order, and there is none only when no route applies. *)
Theorem matching_route_is_best s recipient channel :
  let routes := runtime_routes (routing s) in
  match matching_runtime_route s recipient channel with
  | Some route => best_route routes recipient channel route
  | None => ∀ key' route', routes !! key' = Some route' → route_rank recipient channel route' = None
  end.
Proof.
  intros routes. unfold matching_runtime_route. fold routes.
  destruct (find_first _ _) as [r|] eqn:E1; [|pose proof (find_first_btree_None _ _ E1) as N1; clear E1].
  { eapply (best_route_intro _ _ 1); [exact E1|..]; intros k r'; intros; rewrite route_rank_tests in *;
      repeat case_match; simplify_eq; split_and?; (done || lia). }
  destruct (find_first _ _) as [r|] eqn:E2; [|pose proof (find_first_btree_None _ _ E2) as N2; clear E2].
  { eapply (best_route_intro _ _ 2); [exact E2|..]; intros k r' ?; rewrite route_rank_tests, (N1 k r') by done;
      intros; repeat case_match; simplify_eq; split_and?; (done || lia). }
  destruct (find_first _ _) as [r|] eqn:E3; [|pose proof (find_first_btree_None _ _ E3) as N3; clear E3].
  { eapply (best_route_intro _ _ 3); [exact E3|..]; intros k r' ?; rewrite route_rank_tests, (N1 k r'), (N2 k r') by done;
      intros; repeat case_match; simplify_eq; split_and?; (done || lia). }
  destruct (find_first _ _) as [r|] eqn:E4; [|pose proof (find_first_btree_None _ _ E4) as N4; clear E4].
  { eapply (best_route_intro _ _ 4); [exact E4|..]; intros k r' ?;
      rewrite route_rank_tests, (N1 k r'), (N2 k r'), (N3 k r') by done;
      intros; repeat case_match; simplify_eq; split_and?; (done || lia). }
  intros k r' ?. by rewrite route_rank_tests, (N1 k r'), (N2 k r'), (N3 k r'), (N4 k r').
Qed.

(** ** Remembered resolutions *)

Lemma evict_oldest_order {V} n order (m : gmap string V) :
  (evict_oldest n order m).1 = shrink_front n order.
Proof.
  revert m. induction order as [|x order IH]; intros m; [done|]. cbn [evict_oldest shrink_front].
  destruct (n <? length (x :: order))%nat; [apply IH|done].
Qed.

Lemma evict_oldest_lookup {V} n order (m : gmap string V) id :
  (evict_oldest n order m).2 !! id =
  if decide (id ∈ take (length order - n) order) then None else m !! id.
Proof.
  revert m. induction order as [|x order IH]; intros m; [by rewrite take_nil|].
  cbn [evict_oldest]. destruct (Nat.ltb_spec n (length (x :: order))) as [Hlt|Hge].
  - rewrite IH. cbn [length] in *. replace (S (length order) - n)%nat with (S (length order - n)) by lia.
    cbn [take]. destruct (decide (id = x)) as [->|Hne].
    + rewrite lookup_delete_eq. rewrite (decide_True (P := x ∈ x :: _)) by (by left). by case_decide.
    + rewrite lookup_delete_ne by done. apply decide_ext. rewrite elem_of_cons. naive_solver.
  - replace (length (x :: order) - n)%nat with 0%nat by lia. cbn [take].
    by rewrite decide_False by apply not_elem_of_nil.
Qed.

Lemma evict_oldest_sub {V} n order (m : gmap string V) :
  (evict_oldest n order m).2 ⊆ m.
Proof.
  apply map_subseteq_spec. intros id v. rewrite evict_oldest_lookup. by case_decide.
Qed.

(** What holds of the routing state at all times.  Until the sequence saturates,
    the remembered ids are exactly the last ones issued. *)
Record routing_inv (r : RoutingState) : Prop := {
  ri_routes : map_Forall (λ key route, route_key route = key ∧ route_ok route) (runtime_routes r);
  ri_sequence : is_u64 (routing_sequence r);
  ri_bound : (length (routing_resolution_order r) ≤ ROUTING_RESOLUTION_LIMIT_MAX)%nat;
  ri_dom : ∀ id, is_Some (routing_resolutions r !! id) → id ∈ routing_resolution_order r;
  ri_trusted : map_Forall (λ id res, route_id res = id ∧ resolution_ok res) (routing_resolutions r);
  ri_recent : routing_sequence r < U64_MAX →
    last_issued route_id_of (routing_sequence r) (routing_resolution_order r) ∧
    ∀ id, id ∈ routing_resolution_order r → is_Some (routing_resolutions r !! id);
}.

Lemma route_id_of_inj a b : is_u64 a → is_u64 b → route_id_of a = route_id_of b → a = b.
Proof. intros Ha Hb E. apply (inj (String.app "route-")) in E. by apply fmt06_inj. Qed.

Lemma remember_order res r :
  routing_resolution_order (remember_routing_resolution res r)
  = shrink_front ROUTING_RESOLUTION_LIMIT_MAX (routing_resolution_order r ++ [route_id res]).
Proof.
  unfold remember_routing_resolution.
  rewrite (surjective_pairing (evict_oldest _ _ _)), evict_oldest_order. done.
Qed.

Lemma remember_resolutions res r :
  routing_resolutions (remember_routing_resolution res r)
  = (evict_oldest ROUTING_RESOLUTION_LIMIT_MAX (routing_resolution_order r ++ [route_id res])
       (<[route_id res := res]> (routing_resolutions r))).2.
Proof. unfold remember_routing_resolution. by rewrite (surjective_pairing (evict_oldest _ _ _)). Qed.

Lemma remember_rest res r :
  routing_sequence (remember_routing_resolution res r) = routing_sequence r ∧
  runtime_routes (remember_routing_resolution res r) = runtime_routes r.
Proof. unfold remember_routing_resolution. by rewrite (surjective_pairing (evict_oldest _ _ _)). Qed.

(** Issuing the next id and remembering its resolution. *)
Definition issue (res : RoutingResolution) (r : RoutingState) : RoutingState :=
  remember_routing_resolution res (r <| routing_sequence := u64_saturating_add (routing_sequence r) 1 |>).

Lemma issue_fresh res r :
  routing_inv r → routing_sequence r < U64_MAX → route_id res = route_id_of (routing_sequence r) →
  route_id res ∉ routing_resolution_order r.
Proof.
  intros Hr Hlt Hid Hin. destruct (ri_recent _ Hr Hlt) as [Hl _].
  eapply last_issued_elem in Hl as (k & E & Hk); [|exact Hin]. rewrite Hid in E.
  apply route_id_of_inj in E; [lia|apply Hr|]. unfold is_u64. lia.
Qed.

Lemma issue_trusted res r :
  routing_inv r → routing_sequence r < U64_MAX → route_id res = route_id_of (routing_sequence r) →
  routing_resolutions (issue res r) !! route_id res = Some res.
Proof.
  intros Hr Hlt Hid. unfold issue. rewrite remember_resolutions, evict_oldest_lookup. simpl.
  rewrite decide_False; [by rewrite lookup_insert_eq|].
  pose proof (ri_bound _ Hr). rewrite length_app. simpl.
  rewrite take_app_le by (unfold ROUTING_RESOLUTION_LIMIT_MAX; lia).
  intros Hin. eapply (issue_fresh res r); try done. eapply elem_of_sublist; [exact Hin|]. apply sublist_take.
Qed.

(** Before saturation: the new order is the last ids issued, and every id of it is remembered. *)
Lemma issue_recent res r :
  routing_inv r → routing_sequence r < U64_MAX → route_id res = route_id_of (routing_sequence r) →
  let r' := issue res r in
  last_issued route_id_of (routing_sequence r + 1) (routing_resolution_order r') ∧
  ∀ id, id ∈ routing_resolution_order r' → is_Some (routing_resolutions r' !! id).
Proof.
  intros Hr Hlt Hid r'. destruct (ri_recent _ Hr Hlt) as [Hl Hall].
  pose proof (issue_fresh res r Hr Hlt Hid) as Hfresh. pose proof (ri_sequence _ Hr).
  unfold r', issue. rewrite remember_order, remember_resolutions.
  cbn [routing_resolution_order routing_resolutions update_field upd_routing_sequence].
  apply last_issued_push in Hl. rewrite <- Hid in Hl.
  set (order := routing_resolution_order r ++ [route_id res]) in *.
  split; [by apply last_issued_shrink|].
  intros id Hin. rewrite evict_oldest_lookup, decide_False.
  - assert (Hin0 : id ∈ order) by by eapply elem_of_shrink_front.
    apply elem_of_app in Hin0 as [Hin0|Hin0%list_elem_of_singleton].
    + rewrite lookup_insert_ne by (intros E; rewrite E in Hfresh; done). by apply Hall.
    + subst id. rewrite lookup_insert_eq. eauto.
  - intros Hin'. rewrite shrink_front_drop in Hin.
    assert (NoDup order) as Hnd.
    { eapply last_issued_NoDup; [|exact Hl]. intros a b ? ?. apply route_id_of_inj; unfold is_u64 in *; lia. }
    rewrite <- (take_drop (length order - ROUTING_RESOLUTION_LIMIT_MAX) order) in Hnd.
    apply NoDup_app in Hnd as (_ & Hdis & _). by apply (Hdis id).
Qed.

Lemma issue_inv res r :
  routing_inv r → route_id res = route_id_of (routing_sequence r) → resolution_ok res →
  routing_inv (issue res r).
Proof.
  intros Hr Hid Hok. pose proof Hr as [Hroutes Hseq Hb Hdom Htr Hrec].
  destruct (remember_rest res (r <| routing_sequence := u64_saturating_add (routing_sequence r) 1 |>)) as [Es Er].
  split.
  - unfold issue. by rewrite Er.
  - unfold issue. rewrite Es. simpl. unfold is_u64, u64_saturating_add in *. lia.
  - unfold issue. rewrite remember_order. auto with meta.
  - intros id. unfold issue. rewrite remember_order, remember_resolutions, evict_oldest_lookup. simpl.
    case_decide as Hin; [by intros [? ?]|]. intros Hs.
    assert (id ∈ routing_resolution_order r ++ [route_id res]) as Hall.
    { destruct (decide (id = route_id res)) as [->|Hne]; [set_solver|].
      rewrite lookup_insert_ne in Hs by done. apply Hdom in Hs. set_solver. }
    rewrite shrink_front_drop.
    rewrite <- (take_drop (length (routing_resolution_order r ++ [route_id res]) - ROUTING_RESOLUTION_LIMIT_MAX)
                  (routing_resolution_order r ++ [route_id res])) in Hall.
    apply elem_of_app in Hall as [|]; done.
  - unfold issue. rewrite remember_resolutions. eapply map_Forall_mono; [apply evict_oldest_sub|].
    by apply map_Forall_insert_2.
  - assert (Hs : routing_sequence (issue res r) = u64_saturating_add (routing_sequence r) 1) by (unfold issue; by rewrite Es).
    rewrite Hs. unfold u64_saturating_add. intros Hlt.
    replace (Z.min (routing_sequence r + 1) U64_MAX) with (routing_sequence r + 1) by lia.
    apply issue_recent; [done|lia|done].
Qed.

(** ** Resolution *)

Record draft_ok (d : ResolveDraft) : Prop := {
  d_recipient : name_ok (draft_recipient d);
  d_channel : name_ok (draft_channel d);
  d_sink : name_ok (draft_sink d);
  d_target : name_ok (draft_target_module d);
  d_retry : is_u32 (draft_retry_max d);
  d_backoff : is_u64 (draft_backoff_ms d);
  d_rate : is_u32 (draft_rate_limit d);
}.

Lemma unwrap_or_ind {A} (P : A → Prop) o d : (∀ a, o = Some a → P a) → P d → P (unwrap_or o d).
Proof. destruct o; simpl; auto. Qed.

Lemma check_limits_Ok d d' :
  check_limits d = Ok d' ↔ d' = d ∧ draft_retry_max d ≤ ROUTING_RETRY_MAX_CAP ∧ draft_rate_limit d ≠ 0.
Proof.
  unfold check_limits. destruct (Z.ltb_spec ROUTING_RETRY_MAX_CAP (draft_retry_max d)).
  { split; [done|]. intros (_ & ? & _). lia. }
  destruct (Z.eqb_spec (draft_rate_limit d) 0).
  { split; [done|]. by intros (_ & _ & ?). }
  split; [by intros [= <-]|by intros (-> & _)].
Qed.

Lemma default_sink_ok t : name_ok (default_sink t).
Proof. unfold default_sink. repeat case_match; by vm_compute. Qed.

Lemma initial_draft_ok request d :
  typed_request request → initial_draft request = Ok d →
  draft_ok d ∧ draft_recipient d = trim (request_recipient request).
Proof.
  intros (T1 & T2 & T3). unfold initial_draft.
  intros (rc & Hr & (ch & Hc & (-> & _ & _)%check_limits_Ok)%and_then_Ok)%and_then_Ok.
  destruct (require_non_empty (request_recipient request)) as [r0|] eqn:E1; simplify_eq/=.
  apply require_non_empty_Some in E1 as [-> E1].
  destruct (require_non_empty (unwrap_or _ _)) as [c0|] eqn:E2; simplify_eq/=.
  apply require_non_empty_Some in E2 as [-> E2].
  split; [|done]. split; simpl; [done..| | | | |].
  - apply default_sink_ok.
  - by vm_compute.
  - apply unwrap_or_ind; [done|by vm_compute].
  - apply unwrap_or_ind; [done|by vm_compute].
  - apply unwrap_or_ind; [done|by vm_compute].
Qed.

Lemma apply_router_overrides_ok response d :
  draft_ok d → draft_ok (apply_router_overrides (parse_router_mcp_overrides response) d).
Proof.
  intros []. unfold parse_router_mcp_overrides. destruct (as_object response) as [p|]; [|by split].
  split; simpl; try (apply unwrap_or_ind; [|done]); try done;
    eauto using trimmed_member_ok, member_u64_range, member_u32_range.
  - intros n Hn. by eapply member_u32_range.
  - intros n Hn. by eapply member_u64_range.
  - intros n Hn. by eapply member_u32_range.
Qed.

Lemma apply_runtime_route_ok route d :
  (∀ r, route = Some r → route_ok r) → draft_ok d → draft_ok (apply_runtime_route route d).
Proof.
  intros Hr []. destruct route as [r|]; [|done]. destruct (Hr r eq_refl) as [(T1 & T2 & T3) ? ? ? ? ? ? ?].
  split; simpl; try (apply unwrap_or_ind; [|done]); done.
Qed.

Lemma matching_route_ok s rc ch r :
  routing_inv (routing s) → matching_runtime_route s rc ch = Some r → route_ok r.
Proof.
  intros Hinv Hm. apply matching_route_in_table in Hm as (k & Hk).
  by apply (ri_routes _ Hinv) in Hk as [_ ?].
Qed.

Section resolve_theorems.
Context `{RuntimeEnv}.

Lemma commit_resolution_spec d s :
  let res := mkResolution (route_id_of (routing_sequence (routing s))) (draft_recipient d) (draft_channel d)
               (draft_sink d) (draft_target_module d) (draft_retry_max d) (draft_backoff_ms d)
               (draft_rate_limit d) in
  (commit_resolution d s).1 = res ∧
  let s' := (commit_resolution d s).2 in
  routing s' = issue res (routing s) ∧
  (∃ e, source_consistent e ∧ module_event_type <$> (match event e with ModuleEvt m => Some m | _ => None end) = Some "resolved"
        ∧ merged_events s' = insert_event_sorted (merged_events s) e) ∧
  supervisor s' = supervisor s ∧ gating s' = gating s ∧ memory s' = memory s ∧ config s' = config s ∧
  delivery_history (delivery s') = delivery_history (delivery s) ∧
  delivery_clock_ms (delivery s) ≤ delivery_clock_ms (delivery s').
Proof.
  intros res. unfold commit_resolution, next_sequence, next_route_resolved_timestamp_ms,
    refresh_delivery_clocks_from_now, current_time_ms. cbn -[insert_event_sorted remember_routing_resolution fmt06].
  split_and!; try done; [|lia]. eexists. split_and!; [| |reflexivity]; done.
Qed.

(** Whatever happens, the parts of the runtime that routing does not own are left alone. *)
Lemma resolve_routing_frame request s :
  wp (resolve_routing request) (λ _ s',
    supervisor s' = supervisor s ∧ gating s' = gating s ∧ memory s' = memory s ∧ config s' = config s) s.
Proof.
  unfold resolve_routing. do 4 wp_step. destruct (negb _); [done|]. do 4 wp_step. destruct (negb _); [done|].
  do 2 wp_step. destruct (initial_draft request) as [d0|]; [|done].
  do 4 wp_step. destruct (mcp_module _ _ s) as [router|]; [|done].
  do 2 wp_step. apply wp_call_tool. destruct (call_module_mcp_tool_json _ _ _ _ _ _) as [response|]; [|done].
  do 2 wp_step. destruct (check_limits _) as [d1|]; [|done].
  do 4 wp_step. destruct (check_limits _) as [d2|]; [|done]. wp_step.
  destruct (commit_resolution_spec d2 (tick s)) as (_ & _ & _ & ? & ? & ? & ? & _). done.
Qed.

(** Only the observation counter moved. *)
Definition only_observed (s s' : MetaRuntimeHandle) : Prop := s' = s ∨ s' = tick s.

(** A successful resolution is well formed (trimmed names, at most ten
    retries, a rate limit of at least one), carries the next route id, is
    remembered as the trusted resolution of that id, is recorded by one
    event in the ordered log, and leaves supervision, gating and memory
    alone; a failed one changes nothing.  The routing invariant (at most 512
    trusted resolutions, the last ones issued, each under its own id) holds
    afterwards. *)
Theorem resolution_is_valid_and_trusted s request :
  routing_inv (routing s) → log_wf (merged_events s) → typed_request request →
  wp (resolve_routing request) (λ r s',
    match r with
    | Err _ => only_observed s s'
    | Ok res =>
        resolution_ok res ∧ recipient res = trim (request_recipient request) ∧
        route_id res = route_id_of (routing_sequence (routing s)) ∧
        routing_inv (routing s') ∧
        (routing_sequence (routing s) < U64_MAX →
         routing_resolutions (routing s) !! route_id res = None ∧
         routing_resolutions (routing s') !! route_id res = Some res) ∧
        log_wf (merged_events s') ∧ length (merged_events s') = S (length (merged_events s)) ∧
        supervisor s' = supervisor s ∧ gating s' = gating s ∧ memory s' = memory s
    end) s.
Proof.
  intros Hinv [Hsorted Hcons] Hty. unfold resolve_routing.
  do 2 wp_step. do 2 wp_step. destruct (negb _); [by left|]. do 2 wp_step. do 2 wp_step. destruct (negb _); [by left|].
  do 2 wp_step. destruct (initial_draft request) as [d0|] eqn:Hd0; [|by left].
  apply initial_draft_ok in Hd0 as [Hd0 Hrec]; [|done].
  do 2 wp_step. do 2 wp_step. destruct (mcp_module _ _ s) as [router|]; [|by left].
  do 2 wp_step. apply wp_call_tool.
  destruct (call_module_mcp_tool_json _ _ _ _ _ _) as [response|]; [|by right].
  do 2 wp_step. destruct (check_limits _) as [d1|] eqn:Hd1; [|by right].
  apply check_limits_Ok in Hd1 as (-> & _ & _).
  do 2 wp_step. do 2 wp_step. destruct (check_limits _) as [d2|] eqn:Hd2; [|by right].
  apply check_limits_Ok in Hd2 as (-> & Hretry & Hrate). wp_step.
  set (route := matching_runtime_route _ _ _) in *.
  set (d := apply_runtime_route route _) in *.
  assert (Hd : draft_ok d).
  { apply apply_runtime_route_ok; [|by apply apply_router_overrides_ok].
    intros r Hr. eapply (matching_route_ok (tick s)); done. }
  assert (Hdr : draft_recipient d = trim (request_recipient request)) by (unfold d; by destruct route).
  destruct (commit_resolution_spec d (tick s)) as (-> & Hrouting & (e & He & _ & Hlog) & ? & ? & ? & _).
  cbn [routing tick update_field upd_world_step] in *. rewrite Hrouting, Hlog. simpl merged_events.
  assert (Hok : resolution_ok (mkResolution (route_id_of (routing_sequence (routing s))) (draft_recipient d)
    (draft_channel d) (draft_sink d) (draft_target_module d) (draft_retry_max d) (draft_backoff_ms d) (draft_rate_limit d))).
  { destruct Hd. unfold is_u32 in *. split; simpl; [done..|lia|done|lia]. }
  split_and!; try done.
  - by apply issue_inv.
  - intros Hlt. split; [|by apply issue_trusted].
    apply eq_None_not_Some. intros Hs%(ri_dom _ Hinv).
    by eapply (issue_fresh (mkResolution (route_id_of (routing_sequence (routing s))) "" "" "" "" 0 0 0)).
  - split; [by apply insert_event_sorted_sorted|]. rewrite insert_event_sorted_perm. by constructor.
  - by rewrite insert_event_sorted_perm.
Qed.
End resolve_theorems.

(** ** Instances of the theorems *)

Module RoutingExamples.

Definition team_route : RuntimeRoute := mkRoute " team " "ops@example.com" None "pager" "delivery" (Some 3) None None.

Lemma team_route_typed : typed_route team_route.
Proof. split; [|split]; intros n E; [|discriminate..]. injection E as <-. unfold is_u32, U32_MAX. lia. Defined.

Definition idle : MetaRuntimeHandle := example_runtime ["router"; "delivery"].

Lemma route_add_delete_roundtrip_witness :
  let stored := mkRoute "team" "ops@example.com" None "pager" "delivery" (Some 3) None None in
  add_runtime_route team_route idle = (Ok stored, (add_runtime_route team_route idle).2) ∧
  delete_runtime_route "team  " (add_runtime_route team_route idle).2 = (Ok stored, idle).
Proof.
  intros stored.
  assert (E : (add_runtime_route team_route idle).1 = Ok stored) by (vm_compute; reflexivity).
  pose proof (route_add_delete_roundtrip idle team_route "team  " team_route_typed) as Hw.
  unfold wp in Hw. rewrite E in Hw. split.
  - rewrite <- E. apply surjective_pairing.
  - apply Hw; vm_compute; reflexivity.
Defined.

Definition router_env : RuntimeEnv :=
  example_env (λ _ _, Some "answer") false [("answer", obj [("sink", str " pager "); ("retry_max", num 4)])].

Lemma idle_routing_inv loaded : routing_inv (routing (example_runtime loaded)).
Proof.
  split; simpl; try (by vm_compute); try lia; try done.
  - by intros id [? ?].
  - intros _. split; [by split|]. intros id Hid. by apply elem_of_nil in Hid.
Defined.

Lemma idle_log_wf loaded : log_wf (merged_events (example_runtime loaded)).
Proof. split; constructor. Defined.

Definition ask : RoutingResolveRequest := mkResolveRequest "+4670000" None None None (Some 5).

Lemma ask_typed : typed_request ask.
Proof. split; [|split]; intros n E; [discriminate..|]. injection E as <-. unfold is_u32, U32_MAX. lia. Defined.

Lemma resolution_is_valid_and_trusted_witness :
  let res := mkResolution "route-000000" "+4670000" "notification" "pager" "delivery" 4 250 5 in
  let s' := (@resolve_routing router_env ask idle).2 in
  (@resolve_routing router_env ask idle).1 = Ok res ∧
  resolution_ok res ∧ routing_inv (routing s') ∧ routing_resolutions (routing s') !! "route-000000" = Some res.
Proof.
  intros res s'.
  assert (E : (@resolve_routing router_env ask idle).1 = Ok res) by (vm_compute; reflexivity).
  pose proof (@resolution_is_valid_and_trusted router_env idle ask (idle_routing_inv _) (idle_log_wf _) ask_typed) as Hw.
  unfold wp in Hw. rewrite E in Hw. destruct Hw as (Hok & _ & _ & Hinv & Htrust & _).
  split; [exact E|]. split; [exact Hok|]. split; [exact Hinv|].
  apply Htrust. reflexivity.
Defined.

End RoutingExamples.
