(* ===== verification/Delivery.v ===== *)
(** * Delivery ([runtime/delivery.rs])

    A delivery is sent for a resolution the router issued: a repeated
    idempotency key replays the recorded delivery, a resolution that differs
    from the trusted one is refused, a per-window quota is enforced and charged
    only when the sink answered, and the last 200 records are kept together
    with the idempotency keys that point to them. *)

From S2P Require Import Prelude Strings Json RuntimeTypes EventTransport ModuleBoundary Routing.
Open Scope Z_scope.

Definition DELIVERY_HISTORY_LIMIT_MAX : nat := 200.
Definition DELIVERY_RATE_WINDOW_MS : Z := 60000.
Definition DELIVERY_RATE_WINDOWS_RETAINED : Z := 2.
Definition DELIVERY_CLOCK_STEP_MS : Z := 1000.

Definition parse_delivery_outcome_payload (payload : list (string * Value)) : DeliveryBoundaryOutcome :=
  mkOutcome (trimmed_member "adapter" payload)
    (unwrap_or (v ← member "force_fail" payload; as_bool v) false).

Definition parse_delivery_mcp_outcome (response : Value) : DeliveryBoundaryOutcome :=
  match as_object response with
  | None => mkOutcome None false
  | Some payload => parse_delivery_outcome_payload payload
  end.

Definition scoped_idempotency_key (route_id idempotency_key : string) : string :=
  route_id +:+ ":" +:+ idempotency_key.

Definition trusted_resolution_for_delivery (s : MetaRuntimeHandle) (provided : RoutingResolution) :
    Result RoutingResolution DeliverySendError :=
  let id := trim (route_id provided) in
  if str_is_empty id then Err InvalidRouteId
  else match routing_resolutions (routing s) !! id with
       | None => Err (UnknownRouteId id)
       | Some trusted => if negb (trusted =b provided) then Err ForgedResolution else Ok trusted
       end.

Definition prune_delivery_rate_window_counts (current_window_start_ms : Z) (d : DeliveryState) : DeliveryState :=
  let earliest_window_start_ms :=
    u64_saturating_sub current_window_start_ms
      (u64_saturating_mul DELIVERY_RATE_WINDOW_MS (DELIVERY_RATE_WINDOWS_RETAINED - 1)) in
  d <| delivery_rate_window_counts :=
         filter (λ kv, earliest_window_start_ms ≤ window_start_ms kv.1) (delivery_rate_window_counts d) |>.

(** Forget an idempotency key whose record is gone. *)
Definition forget_stale_key (scoped_key : string) (entry : DeliveryIdempotencyEntry) (d : DeliveryState) : DeliveryState :=
  let d := d <| delivery_idempotency := delete scoped_key (delivery_idempotency d) |> in
  match delivery_idempotency_by_delivery d !! entry_delivery_id entry with
  | None => d
  | Some scoped_keys =>
      let scoped_keys := filter (λ candidate, candidate ≠ scoped_key) scoped_keys in
      let by_delivery := delivery_idempotency_by_delivery d in
      d <| delivery_idempotency_by_delivery :=
             if is_empty scoped_keys then delete (entry_delivery_id entry) by_delivery
             else <[entry_delivery_id entry := scoped_keys]> by_delivery |>
  end.

Definition replay_delivery_for_scoped_idempotency (provided_resolution : RoutingResolution)
    (idempotency_key : string) (payload : Value) :
    M MetaRuntimeHandle DeliverySendError (option DeliveryRecord) :=
  λ s,
    let id := trim (route_id provided_resolution) in
    let scoped_key := scoped_idempotency_key id idempotency_key in
    match delivery_idempotency (delivery s) !! scoped_key with
    | None => (Ok None, s)
    | Some entry =>
        if negb (entry_payload entry =b payload) then (Err IdempotencyPayloadMismatch, s)
        else if negb (unwrap_or (routing_resolutions (routing s) !! id) (canonical_resolution entry)
                        =b provided_resolution)
        then (Err ForgedResolution, s)
        else match find_first (λ record, delivery_id record =b entry_delivery_id entry)
                     (delivery_history (delivery s)) with
             | Some existing => (Ok (Some existing), s)
             | None => (Ok None, s <| delivery := forget_stale_key scoped_key entry (delivery s) |>)
             end
    end.

(** [serde_json::to_value(&request)] *)
Definition send_request_value (request : DeliverySendRequest) : Value :=
  obj [("resolution", resolution_value (send_resolution request));
       ("payload", send_payload request);
       ("idempotency_key", opt_value str (send_idempotency_key request))].

Definition attempt_value (a : DeliveryAttempt) : Value :=
  obj [("attempt", num (attempt a)); ("status", str (attempt_status a)); ("backoff_ms", num (attempt_backoff_ms a))].

(** The loop over [1..=total_attempts]. *)
Definition delivery_attempts (total_attempts backoff_ms : Z) (status : string) : list DeliveryAttempt :=
  map (λ attempt,
         let is_final_attempt := attempt =? total_attempts in
         mkAttempt attempt (if is_final_attempt then status else "transient_failure")
           (if is_final_attempt then 0 else backoff_ms))
      (seqZ 1 total_attempts).

(** [while history.len() > n { evict the oldest record and its keys }] *)
Fixpoint evict_history (n : nat) (history : list DeliveryRecord)
    (idem : gmap string DeliveryIdempotencyEntry) (by_delivery : gmap string (list string)) :
    list DeliveryRecord * gmap string DeliveryIdempotencyEntry * gmap string (list string) :=
  match history with
  | [] => (history, idem, by_delivery)
  | evicted :: rest =>
      if (n <? length history)%nat then
        let idem := match by_delivery !! delivery_id evicted with
                    | Some scoped_keys => foldl (λ m scoped_key, delete scoped_key m) idem scoped_keys
                    | None => idem
                    end in
        evict_history n rest idem (delete (delivery_id evicted) by_delivery)
      else (history, idem, by_delivery)
  end.

Definition delivery_id_of (sequence : Z) : string := "delivery-" +:+ fmt06 sequence.

(** The tail of [send_delivery]: register the idempotency key, push the record,
    evict the oldest. *)
Definition remember_delivery (record : DeliveryRecord) (scoped_key : option string)
    (trusted : RoutingResolution) (d : DeliveryState) : DeliveryState :=
  let d := match scoped_key with
           | None => d
           | Some key =>
               d <| delivery_idempotency :=
                      <[key := mkIdempotency (delivery_id record) (record_payload record) trusted]>
                        (delivery_idempotency d) |>
                 <| delivery_idempotency_by_delivery :=
                      <[delivery_id record :=
                          unwrap_or (delivery_idempotency_by_delivery d !! delivery_id record) [] ++ [key]]>
                        (delivery_idempotency_by_delivery d) |>
           end in
  let '(history, idem, by_delivery) :=
    evict_history DELIVERY_HISTORY_LIMIT_MAX (delivery_history d ++ [record])
      (delivery_idempotency d) (delivery_idempotency_by_delivery d) in
  d <| delivery_history := history |> <| delivery_idempotency := idem |>
    <| delivery_idempotency_by_delivery := by_delivery |>.

(** The quota check of one send: the key of the window and its count. *)
Definition rate_key_of (trusted : RoutingResolution) (now : Z) : DeliveryRateWindowKey :=
  mkRateKey (route_id trusted) (recipient trusted) (sink trusted) (now - now mod DELIVERY_RATE_WINDOW_MS).

Definition rate_count (key : DeliveryRateWindowKey) (d : DeliveryState) : Z :=
  unwrap_or (delivery_rate_window_counts d !! key) 0.

(** The checks on the trusted resolution. *)
Definition check_trusted (trusted : RoutingResolution) : Result unit DeliverySendError :=
  if negb (target_module trusted =b "delivery") then Err (InvalidRouteTarget (target_module trusted))
  else if str_is_empty (trim (recipient trusted)) then Err InvalidRecipient
  else if str_is_empty (trim (sink trusted)) then Err InvalidSink
  else Ok tt.

Definition delivery_event (record : DeliveryRecord) (sequence : Z) : EventEnvelope :=
  mkEnvelope ("evt-delivery-" +:+ fmt06 sequence) "module" (final_attempt_ms record)
    (ModuleEvt (mkModuleEvent "delivery" "send"
       (obj [("delivery_id", str (delivery_id record)); ("route_id", str (record_route_id record));
             ("recipient", str (record_recipient record)); ("sink", str (record_sink record));
             ("status", str (status record)); ("attempts", VArray (map attempt_value (attempts record)))]))).

Section send.
Context `{RuntimeEnv}.

(** From the clock refresh to the quota check. *)
Definition charge_check (trusted : RoutingResolution) : M MetaRuntimeHandle DeliverySendError (DeliveryRateWindowKey * Z) :=
  _ ← modify refresh_delivery_clocks_from_now;
  rate_window_now_ms ← gets (λ s, delivery_now_floor_ms (delivery s));
  let rate_key := rate_key_of trusted rate_window_now_ms in
  _ ← modify (λ s, s <| delivery := prune_delivery_rate_window_counts (window_start_ms rate_key) (delivery s) |>);
  current_count ← gets (λ s, rate_count rate_key (delivery s));
  _ ← throw_if (rate_limit_per_minute trusted <=? current_count)
        (RateLimited (sink trusted) (window_start_ms rate_key) (rate_limit_per_minute trusted));
  mret (rate_key, current_count).

(** The call of the delivery module. *)
Definition deliver_boundary (request : DeliverySendRequest) : M MetaRuntimeHandle DeliverySendError DeliveryBoundaryOutcome :=
  found ← gets (mcp_module "delivery" DELIVERY_SEND_MCP_TOOL);
  delivery_module ← lift_result (map_err DeliveryBoundary found);
  mcp_response ← with_err DeliveryBoundary
                   (call_tool delivery_module.1 delivery_module.2 DELIVERY_SEND_MCP_TOOL (send_request_value request));
  mret (parse_delivery_mcp_outcome mcp_response).

(** From the charge of the quota to the end. *)
Definition record_delivery (request : DeliverySendRequest) (trusted : RoutingResolution)
    (rate_key : DeliveryRateWindowKey) (current_count first_attempt_ms : Z)
    (boundary_outcome : DeliveryBoundaryOutcome) (s : MetaRuntimeHandle) : DeliveryRecord * MetaRuntimeHandle :=
  let d := delivery s in
  let d := d <| delivery_rate_window_counts :=
                  <[rate_key := u32_saturating_add current_count 1]> (delivery_rate_window_counts d) |> in
  let should_force_fail :=
    unwrap_or (v ← value_get "force_fail" (send_payload request); as_bool v) false
    || outcome_force_fail boundary_outcome in
  let status := if should_force_fail then "failed" else "sent" in
  let total_attempts := u32_saturating_add (retry_max trusted) 1 in
  let attempts := delivery_attempts total_attempts (backoff_ms trusted) status in
  let (sequence, next) := next_sequence (delivery_sequence d) in
  let d := d <| delivery_sequence := next |> in
  let final_attempt_ms :=
    u64_saturating_add first_attempt_ms (u64_saturating_mul (backoff_ms trusted) (retry_max trusted)) in
  let record := mkRecord (delivery_id_of sequence) (route_id trusted) (recipient trusted) (sink trusted)
                  (target_module trusted) (send_payload request) status attempts first_attempt_ms
                  final_attempt_ms (send_idempotency_key request) (outcome_sink_adapter boundary_outcome) in
  let d := d <| delivery_clock_ms := Z.max (delivery_clock_ms d) final_attempt_ms |> in
  let scoped_key := (λ key, scoped_idempotency_key (route_id trusted) key) <$> send_idempotency_key request in
  (record,
   s <| merged_events := insert_event_sorted (merged_events s) (delivery_event record sequence) |>
     <| delivery := remember_delivery record scoped_key trusted d |>).

(** A send that is not a replay. *)
Definition send_new_delivery (request : DeliverySendRequest) : M MetaRuntimeHandle DeliverySendError DeliveryRecord :=
  found ← gets (λ s, trusted_resolution_for_delivery s (send_resolution request));
  trusted ← lift_result found;
  _ ← lift_result (check_trusted trusted);
  quota ← charge_check trusted;
  clock_ms ← gets (λ s, delivery_clock_ms (delivery s));
  let first_attempt_ms := u64_saturating_add clock_ms DELIVERY_CLOCK_STEP_MS in
  _ ← modify (λ s, s <| delivery := (delivery s) <| delivery_clock_ms := first_attempt_ms |> |>);
  boundary_outcome ← deliver_boundary request;
  lift_state (record_delivery request trusted quota.1 quota.2 first_attempt_ms boundary_outcome).

Definition send_delivery (request : DeliverySendRequest) : M MetaRuntimeHandle DeliverySendError DeliveryRecord :=
  loaded ← gets (λ s, is_module_loaded s "delivery");
  _ ← throw_if (negb loaded) DeliveryModuleNotLoaded;
  _ ← throw_if (is_some_and (send_idempotency_key request) (λ key, str_is_empty (trim key))) InvalidIdempotencyKey;
  existing ← match send_idempotency_key request with
             | Some key => replay_delivery_for_scoped_idempotency (send_resolution request) key (send_payload request)
             | None => mret None
             end;
  match existing with
  | Some record => mret record
  | None => send_new_delivery request
  end.
End send.

Definition history_filter (f : option string) : option string := trimmed_non_empty f.

Definition delivery_history_page (s : MetaRuntimeHandle) (request : DeliveryHistoryRequest) : list DeliveryRecord :=
  let recipient_filter := history_filter (history_recipient request) in
  let sink_filter := history_filter (history_sink request) in
  take_last (history_limit request)
    (List.filter (λ record, is_none_or sink_filter (λ sink, record_sink record =b sink))
       (List.filter (λ record, is_none_or recipient_filter (λ recipient, record_recipient record =b recipient))
          (delivery_history (delivery s)))).

Definition delivery_rate_window_count_entries (s : MetaRuntimeHandle) : nat :=
  size (delivery_rate_window_counts (delivery s)).

(** ** What one send does *)

(** The clocks are in range, and the clock is never behind the floor. *)
Record clock_ok (d : DeliveryState) : Prop := {
  c_epoch : is_u64 (delivery_runtime_epoch_ms d);
  c_floor : is_u64 (delivery_now_floor_ms d);
  c_clock : delivery_now_floor_ms d ≤ delivery_clock_ms d ≤ U64_MAX;
}.

(** Between [s] and [s'] only the delivery clocks moved forward, old rate
    windows were dropped, and the world was observed. *)
Record quiet (s s' : MetaRuntimeHandle) : Prop := {
  q_config : config s' = config s;
  q_supervisor : supervisor s' = supervisor s;
  q_log : merged_events s' = merged_events s;
  q_routing : routing s' = routing s;
  q_gating : gating s' = gating s;
  q_memory : memory s' = memory s;
  q_sequence : delivery_sequence (delivery s') = delivery_sequence (delivery s);
  q_history : delivery_history (delivery s') = delivery_history (delivery s);
  q_idem : delivery_idempotency (delivery s') = delivery_idempotency (delivery s);
  q_by : delivery_idempotency_by_delivery (delivery s') = delivery_idempotency_by_delivery (delivery s);
  q_floor : delivery_now_floor_ms (delivery s) ≤ delivery_now_floor_ms (delivery s');
  q_clock : delivery_clock_ms (delivery s) ≤ delivery_clock_ms (delivery s');
  q_counts : delivery_rate_window_counts (delivery s') ⊆ delivery_rate_window_counts (delivery s);
  q_clock_ok : clock_ok (delivery s) → clock_ok (delivery s');
}.

#[global] Instance quiet_refl : Reflexive quiet.
Proof. intros s. split; try done; lia. Qed.

#[global] Instance quiet_trans : Transitive quiet.
Proof.
  intros s1 s2 s3 [] []. split; try congruence; try lia; [etrans; eassumption|auto].
Qed.

Lemma quiet_tick s : quiet s (tick s).
Proof. split; simpl; try done; lia. Qed.

Lemma quiet_refresh `{RuntimeEnv} s : quiet s (refresh_delivery_clocks_from_now s).
Proof.
  split; simpl; try done; try lia. intros [[] [] []]. pose proof (clock_u64 (world_step s)) as [].
  split; simpl; unfold is_u64, u64_saturating_sub; lia.
Qed.

Lemma quiet_prune w s : quiet s (s <| delivery := prune_delivery_rate_window_counts w (delivery s) |>).
Proof. split; simpl; try done; try lia; [apply map_filter_subseteq|]. intros []. by split. Qed.

Lemma quiet_clock c s :
  delivery_clock_ms (delivery s) ≤ c ≤ U64_MAX →
  quiet s (s <| delivery := (delivery s) <| delivery_clock_ms := c |> |>).
Proof. intros Hc. split; simpl; try done; try lia. intros []. split; simpl; [done..|lia]. Qed.

(** The windows a send keeps: this one and the one before it. *)
Definition window_of (now : Z) : Z := now - now mod DELIVERY_RATE_WINDOW_MS.

Lemma window_of_range now : 0 ≤ now → window_of now ≤ now < window_of now + DELIVERY_RATE_WINDOW_MS ∧ 0 ≤ window_of now.
Proof.
  intros Hn. unfold window_of, DELIVERY_RATE_WINDOW_MS. pose proof (Z.mod_pos_bound now 60000).
  pose proof (Z.mod_le now 60000). lia.
Qed.

Lemma prune_lookup w d key :
  window_start_ms key = w → 0 ≤ w →
  delivery_rate_window_counts (prune_delivery_rate_window_counts w d) !! key = delivery_rate_window_counts d !! key.
Proof.
  intros Hw H0. cbn [prune_delivery_rate_window_counts delivery_rate_window_counts update_field
    upd_delivery_rate_window_counts]. rewrite map_lookup_filter.
  destruct (delivery_rate_window_counts d !! key) as [n|]; [|done]. simpl.
  rewrite option_guard_True; [done|]. rewrite Hw.
  unfold u64_saturating_sub, u64_saturating_mul, DELIVERY_RATE_WINDOW_MS, DELIVERY_RATE_WINDOWS_RETAINED, U64_MAX. lia.
Qed.

Section send_cases.
Context `{RuntimeEnv}.

Inductive send_outcome (request : DeliverySendRequest) (s : MetaRuntimeHandle) :
    Result DeliveryRecord DeliverySendError → MetaRuntimeHandle → Prop :=
| send_refused err s' : quiet s s' → send_outcome request s (Err err) s'
| send_replayed key entry record :
    send_idempotency_key request = Some key →
    delivery_idempotency (delivery s) !! scoped_idempotency_key (trim (route_id (send_resolution request))) key = Some entry →
    entry_payload entry = send_payload request →
    unwrap_or (routing_resolutions (routing s) !! trim (route_id (send_resolution request))) (canonical_resolution entry)
      = send_resolution request →
    find_first (λ record, delivery_id record =b entry_delivery_id entry) (delivery_history (delivery s)) = Some record →
    send_outcome request s (Ok record) s
| send_new s1 first_attempt boundary_outcome :
    quiet s s1 →
    (∀ key, send_idempotency_key request = Some key →
      delivery_idempotency (delivery s) !! scoped_idempotency_key (trim (route_id (send_resolution request))) key = None) →
    routing_resolutions (routing s) !! trim (route_id (send_resolution request)) = Some (send_resolution request) →
    check_trusted (send_resolution request) = Ok tt →
    u64_saturating_add (delivery_clock_ms (delivery s)) DELIVERY_CLOCK_STEP_MS ≤ first_attempt ≤ U64_MAX →
    delivery_clock_ms (delivery s1) = first_attempt →
    let key := rate_key_of (send_resolution request) (delivery_now_floor_ms (delivery s1)) in
    rate_count key (delivery s1) < rate_limit_per_minute (send_resolution request) →
    delivery_rate_window_counts (delivery s1) !! key = delivery_rate_window_counts (delivery s) !! key →
    let out := record_delivery request (send_resolution request) key (rate_count key (delivery s1))
                 first_attempt boundary_outcome s1 in
    send_outcome request s (Ok out.1) out.2.

Lemma trusted_resolution_Ok s provided trusted :
  trusted_resolution_for_delivery s provided = Ok trusted →
  trusted = provided ∧ routing_resolutions (routing s) !! trim (route_id provided) = Some provided.
Proof.
  unfold trusted_resolution_for_delivery. destruct (str_is_empty _); [done|].
  destruct (routing_resolutions _ !! _) as [t|]; [|done].
  destruct (bool_decide_reflect (t = provided)); simpl; [|done]. intros [= <-]. by subst.
Qed.

Lemma charge_check_wp trusted s Q :
  0 ≤ delivery_now_floor_ms (delivery s) →
  (∀ err s', quiet s s' → Q (Err err) s') →
  (∀ s', quiet s s' →
    let key := rate_key_of trusted (delivery_now_floor_ms (delivery s')) in
    rate_count key (delivery s') < rate_limit_per_minute trusted →
    delivery_rate_window_counts (delivery s') !! key = delivery_rate_window_counts (delivery s) !! key →
    Q (Ok (key, rate_count key (delivery s'))) s') →
  wp (charge_check trusted) Q s.
Proof.
  intros Hfloor Herr Hok. unfold charge_check.
  assert (Hq1 := quiet_refresh s).
  set (s1 := refresh_delivery_clocks_from_now s) in *.
  do 2 wp_step. fold s1. do 2 wp_step. do 2 wp_step.
  set (key := rate_key_of trusted (delivery_now_floor_ms (delivery s1))).
  assert (Hq2 := quiet_prune (window_start_ms key) s1).
  set (s2 := s1 <| delivery := _ |>) in *.
  assert (Hq : quiet s s2) by (by transitivity s1).
  do 2 wp_step. do 2 wp_step. destruct (Z.leb_spec (rate_limit_per_minute trusted) (rate_count key (delivery s2))).
  { apply Herr. done. }
  wp_step. apply (Hok s2); [done|done|].
  transitivity (delivery_rate_window_counts (delivery s1) !! key); [|done].
  apply (prune_lookup _ (delivery s1) key); [done|].
  apply window_of_range. pose proof (q_floor _ _ Hq1). lia.
Qed.

Lemma deliver_boundary_wp request s Q :
  (∀ err s', quiet s s' → Q (Err err) s') → (∀ out, Q (Ok out) (tick s)) →
  wp (deliver_boundary request) Q s.
Proof.
  intros Herr Hok. unfold deliver_boundary. do 2 wp_step. wp_step. wp_step.
  destruct (mcp_module _ _ s) as [m|]; [|apply Herr; done].
  do 2 wp_step. apply wp_call_tool.
  destruct (call_module_mcp_tool_json _ _ _ _ _ _); [|apply Herr, quiet_tick]. wp_step. apply Hok.
Qed.

Lemma send_new_delivery_outcome request s :
  clock_ok (delivery s) →
  (∀ key, send_idempotency_key request = Some key →
    delivery_idempotency (delivery s) !! scoped_idempotency_key (trim (route_id (send_resolution request))) key = None) →
  wp (send_new_delivery request) (send_outcome request s) s.
Proof.
  intros Hck Hkey. unfold send_new_delivery. do 2 wp_step. do 2 wp_step.
  destruct (trusted_resolution_for_delivery s (send_resolution request)) as [trusted|] eqn:Ht; [|by apply send_refused].
  apply trusted_resolution_Ok in Ht as [-> Ht]. do 2 wp_step.
  destruct (check_trusted _) as [[]|] eqn:Hc; [|by apply send_refused].
  wp_step. apply charge_check_wp; [apply Hck|by intros; apply send_refused|].
  intros s1 Hq1 key Hlim Hcnt. do 2 wp_step. do 2 wp_step.
  set (first := u64_saturating_add _ DELIVERY_CLOCK_STEP_MS). set (s2 := s1 <| delivery := _ |>).
  pose proof (q_clock_ok _ _ Hq1 Hck) as [_ _ [_ Hmax]].
  assert (Hfirst : u64_saturating_add (delivery_clock_ms (delivery s)) DELIVERY_CLOCK_STEP_MS ≤ first ≤ U64_MAX).
  { pose proof (q_clock _ _ Hq1). unfold first, u64_saturating_add. lia. }
  assert (Hq2 : quiet s s2).
  { transitivity s1; [done|]. apply quiet_clock. unfold first, u64_saturating_add, DELIVERY_CLOCK_STEP_MS in *. lia. }
  wp_step. apply deliver_boundary_wp.
  - intros err s3 Hq3. apply send_refused. by transitivity s2.
  - intros out. wp_step.
    apply (send_new request s (tick s2) first out); try done. by transitivity s2; [|apply quiet_tick].
Qed.

(** Every entry of the idempotency table points to a record that is kept. *)
Definition no_stale_keys (d : DeliveryState) : Prop :=
  ∀ key entry, delivery_idempotency d !! key = Some entry →
    ∃ record, find_first (λ record, delivery_id record =b entry_delivery_id entry) (delivery_history d) = Some record.

Lemma send_delivery_outcome request s :
  clock_ok (delivery s) → no_stale_keys (delivery s) →
  wp (send_delivery request) (send_outcome request s) s.
Proof.
  intros Hck Hstale. unfold send_delivery. do 2 wp_step. do 2 wp_step.
  destruct (negb _); [by apply send_refused|]. do 2 wp_step.
  destruct (is_some_and _ _); [by apply send_refused|].
  destruct (send_idempotency_key request) as [key|] eqn:Hkey.
  2: { do 2 wp_step. apply send_new_delivery_outcome; [done|]. congruence. }
  wp_step. unfold wp at 1, replay_delivery_for_scoped_idempotency.
  destruct (delivery_idempotency (delivery s) !! _) as [entry|] eqn:He.
  2: { apply send_new_delivery_outcome; [done|]. intros k [= <-]%(eq_trans (eq_sym Hkey)). done. }
  destruct (bool_decide_reflect (entry_payload entry = send_payload request)); [|by apply send_refused].
  destruct (bool_decide_reflect (unwrap_or (routing_resolutions (routing s) !! trim (route_id (send_resolution request)))
    (canonical_resolution entry) = send_resolution request)); [|by apply send_refused].
  destruct (Hstale _ _ He) as [record Hrec]. cbn [negb]. rewrite Hrec. cbn [fst snd]. wp_step.
  eapply send_replayed; done.
Qed.
End send_cases.

(** ** The idempotency index *)

(** Each key points to its delivery, and that delivery back to exactly that key. *)
Record index_ok (idem : gmap string DeliveryIdempotencyEntry) (by_delivery : gmap string (list string)) : Prop := {
  ix_forward : ∀ key entry, idem !! key = Some entry → by_delivery !! entry_delivery_id entry = Some [key];
  ix_back : ∀ id keys, by_delivery !! id = Some keys →
    ∃ key entry, keys = [key] ∧ idem !! key = Some entry ∧ entry_delivery_id entry = id;
}.

Lemma index_ok_insert idem by_delivery key entry :
  index_ok idem by_delivery → idem !! key = None → by_delivery !! entry_delivery_id entry = None →
  index_ok (<[key := entry]> idem) (<[entry_delivery_id entry := [key]]> by_delivery).
Proof.
  intros [Hf Hb] Hk Hi. split.
  - intros k e. rewrite lookup_insert_Some. intros [[<- <-]|[Hne He]]; [by rewrite lookup_insert_eq|].
    rewrite lookup_insert_ne; [by apply Hf|]. intros Heq. apply Hf in He. rewrite <- Heq in He. congruence.
  - intros id ks. rewrite lookup_insert_Some. intros [[<- <-]|[Hne Hks]].
    + exists key, entry. by rewrite lookup_insert_eq.
    + apply Hb in Hks as (k & e & -> & He & Hid). exists k, e. split_and!; [done| |done].
      rewrite lookup_insert_ne; [done|]. intros <-. congruence.
Qed.

(** Evicting one delivery removes its key and nothing else. *)
Lemma index_ok_evict idem by_delivery id :
  index_ok idem by_delivery →
  let idem' := match by_delivery !! id with
               | Some keys => foldl (λ m key, delete key m) idem keys
               | None => idem
               end in
  index_ok idem' (delete id by_delivery) ∧
  ∀ key entry, idem' !! key = Some entry ↔ idem !! key = Some entry ∧ entry_delivery_id entry ≠ id.
Proof.
  intros [Hf Hb]. simpl.
  assert (Hspec : ∀ key entry,
    match by_delivery !! id with
    | Some keys => foldl (λ m key, delete key m) idem keys
    | None => idem
    end !! key = Some entry ↔ idem !! key = Some entry ∧ entry_delivery_id entry ≠ id).
  { intros k e. destruct (by_delivery !! id) as [ks|] eqn:Hid.
    - apply Hb in Hid as (k0 & e0 & -> & He0 & Heid). cbn [foldl]. rewrite lookup_delete_Some. split.
      + intros [Hne He]. split; [done|]. intros Heq.
        apply Hf in He, He0. rewrite Heq in He. rewrite Heid in He0. congruence.
      + intros [He Hne]. split; [|done]. intros ->. congruence.
    - split; [|by intros []]. intros He. split; [done|]. intros Heq. apply Hf in He. congruence. }
  split; [|done]. split.
  - intros k e [He Hne]%Hspec. rewrite lookup_delete_ne by done. by apply Hf.
  - intros i ks [Hne Hks]%lookup_delete_Some. apply Hb in Hks as (k & e & -> & He & Heid).
    exists k, e. split_and!; [done| |done]. apply Hspec. split; [done|congruence].
Qed.

Lemma evict_history_spec n history idem by_delivery :
  index_ok idem by_delivery →
  let '(history', idem', by_delivery') := evict_history n history idem by_delivery in
  history' = shrink_front n history ∧ index_ok idem' by_delivery' ∧
  ∀ key entry, idem' !! key = Some entry ↔
    idem !! key = Some entry ∧ entry_delivery_id entry ∉ delivery_id <$> take (length history - n) history.
Proof.
  revert idem by_delivery. induction history as [|r history IH]; intros idem by_delivery Hix.
  { simpl. split_and!; [done..|]. intros k e. rewrite elem_of_nil. naive_solver. }
  cbn [evict_history shrink_front]. destruct (Nat.ltb_spec n (length (r :: history))) as [Hlt|Hge].
  - destruct (index_ok_evict idem by_delivery (delivery_id r) Hix) as [Hix' Hspec].
    specialize (IH _ _ Hix'). destruct (evict_history n history _ _) as [[h' i'] b'].
    destruct IH as (-> & Hix'' & Hspec''). split_and!; [done..|]. intros k e.
    rewrite Hspec'', Hspec. cbn [length] in *.
    replace (S (length history) - n)%nat with (S (length history - n)) by lia. cbn [take].
    rewrite fmap_cons, elem_of_cons. naive_solver.
  - replace (length (r :: history) - n)%nat with 0%nat by lia. cbn [take].
    split_and!; [done..|]. intros k e. rewrite elem_of_nil. naive_solver.
Qed.

(** ** The invariant of deliveries *)

(** It holds until the sequence saturates: the kept records are the last ones
    issued, at most 200, each key points to a kept record with its payload, and
    the quota counts are positive. *)
Record delivery_inv (d : DeliveryState) : Prop := {
  di_clock : clock_ok d;
  di_sequence : is_u64 (delivery_sequence d);
  di_bound : (length (delivery_history d) ≤ DELIVERY_HISTORY_LIMIT_MAX)%nat;
  di_ids : last_issued delivery_id_of (delivery_sequence d) (delivery_id <$> delivery_history d);
  di_index : index_ok (delivery_idempotency d) (delivery_idempotency_by_delivery d);
  di_entries : ∀ key entry, delivery_idempotency d !! key = Some entry →
    ∃ record, record ∈ delivery_history d ∧ delivery_id record = entry_delivery_id entry ∧
      record_payload record = entry_payload entry;
}.

Lemma delivery_id_of_inj a b : is_u64 a → is_u64 b → delivery_id_of a = delivery_id_of b → a = b.
Proof. intros Ha Hb E. apply (inj (String.app "delivery-")) in E. by apply fmt06_inj. Qed.

Lemma delivery_ids_NoDup d : delivery_inv d → NoDup (delivery_id <$> delivery_history d).
Proof.
  intros Hinv. pose proof (di_sequence _ Hinv) as [_ Hmax].
  eapply last_issued_NoDup; [|apply Hinv]. intros a b ? ?. apply delivery_id_of_inj; unfold is_u64; lia.
Qed.

Lemma delivery_id_fresh d :
  delivery_inv d → delivery_id_of (delivery_sequence d) ∉ delivery_id <$> delivery_history d.
Proof.
  intros Hinv Hin. pose proof (di_sequence _ Hinv) as [H0 Hmax].
  eapply last_issued_elem in Hin as (k & E & Hk); [|apply Hinv].
  apply delivery_id_of_inj in E; unfold is_u64; lia.
Qed.

(** Records are found by their id. *)
Lemma find_record history record :
  NoDup (delivery_id <$> history) → record ∈ history →
  find_first (λ r, delivery_id r =b delivery_id record) history = Some record.
Proof.
  unfold find_first. induction history as [|x history IH]; [by intros _ ?%elem_of_nil|].
  rewrite fmap_cons, NoDup_cons, elem_of_cons. intros [Hx Hnd] [->|Hin]; simpl.
  - by rewrite bool_decide_eq_true_2.
  - rewrite bool_decide_eq_false_2; [by apply IH|]. intros E. apply Hx. rewrite E. by apply list_elem_of_fmap_2.
Qed.

Lemma delivery_inv_no_stale d : delivery_inv d → no_stale_keys d.
Proof.
  intros Hinv k e He. destruct (di_entries _ Hinv k e He) as (r & Hr & <- & _).
  exists r. apply find_record; [by apply delivery_ids_NoDup|done].
Qed.

Lemma quiet_inv s s' : quiet s s' → delivery_inv (delivery s) → delivery_inv (delivery s').
Proof.
  intros [] []. split; [auto|..]; rewrite ?q_sequence0, ?q_history0, ?q_idem0, ?q_by0; done.
Qed.

(** ** Recording a delivery *)

Lemma by_delivery_fresh d id :
  delivery_inv d → id ∉ delivery_id <$> delivery_history d → delivery_idempotency_by_delivery d !! id = None.
Proof.
  intros Hinv Hid. apply eq_None_not_Some. intros [ks Hks].
  apply (ix_back _ _ (di_index _ Hinv)) in Hks as (k & e & _ & He & <-).
  destruct (di_entries _ Hinv k e He) as (r & Hr & E & _). apply Hid. rewrite <- E. by apply list_elem_of_fmap_2.
Qed.

(** Pushing a fresh record and evicting the oldest keeps the table and its index. *)
Lemma evict_push_inv history idem by_delivery seqn record :
  index_ok idem by_delivery →
  (∀ key entry, idem !! key = Some entry →
    ∃ r, r ∈ history ++ [record] ∧ delivery_id r = entry_delivery_id entry ∧ record_payload r = entry_payload entry) →
  last_issued delivery_id_of seqn (delivery_id <$> history) → delivery_id record = delivery_id_of seqn →
  let '(history', idem', by_delivery') := evict_history DELIVERY_HISTORY_LIMIT_MAX (history ++ [record]) idem by_delivery in
  (length history' ≤ DELIVERY_HISTORY_LIMIT_MAX)%nat ∧
  last_issued delivery_id_of (seqn + 1) (delivery_id <$> history') ∧ index_ok idem' by_delivery' ∧
  ∀ key entry, idem' !! key = Some entry →
    ∃ r, r ∈ history' ∧ delivery_id r = entry_delivery_id entry ∧ record_payload r = entry_payload entry.
Proof.
  intros Hix Hent Hl Hid.
  pose proof (evict_history_spec DELIVERY_HISTORY_LIMIT_MAX (history ++ [record]) _ _ Hix) as Hspec.
  destruct (evict_history _ _ _ _) as [[h' i'] b']. destruct Hspec as (-> & Hix' & Hkeys).
  split_and!; [auto with meta| |done|].
  - rewrite shrink_front_drop, fmap_drop, <- (length_fmap delivery_id), <- shrink_front_drop.
    apply last_issued_shrink. rewrite fmap_app. simpl. rewrite Hid. by apply last_issued_push.
  - intros k e [He Hev]%Hkeys. destruct (Hent _ _ He) as (r & Hr & Hrid & Hpay). exists r. split_and!; [|done..].
    rewrite shrink_front_drop. rewrite <- (take_drop (length (history ++ [record]) - DELIVERY_HISTORY_LIMIT_MAX)
      (history ++ [record])) in Hr. apply elem_of_app in Hr as [Hr|]; [|done].
    exfalso. apply Hev. rewrite <- Hrid. by apply list_elem_of_fmap_2.
Qed.

(** [remember_delivery] in a state [d] whose counter has just been stepped from [d0]. *)
Lemma remember_delivery_inv d0 d record key trusted :
  delivery_inv d0 → clock_ok d → delivery_sequence d0 < U64_MAX →
  delivery_sequence d = delivery_sequence d0 + 1 → delivery_history d = delivery_history d0 →
  delivery_idempotency d = delivery_idempotency d0 →
  delivery_idempotency_by_delivery d = delivery_idempotency_by_delivery d0 →
  delivery_id record = delivery_id_of (delivery_sequence d0) →
  (∀ k, key = Some k → delivery_idempotency d0 !! k = None) →
  delivery_inv (remember_delivery record key trusted d).
Proof.
  intros Hinv Hck Hlt Hs Hh Hi Hb Hid Hkey. pose proof (delivery_id_fresh _ Hinv) as Hfresh. rewrite <- Hid in Hfresh.
  pose proof (by_delivery_fresh _ _ Hinv Hfresh) as Hby. destruct (di_sequence _ Hinv) as [H0 _].
  set (entry := mkIdempotency (delivery_id record) (record_payload record) trusted).
  set (idem := match key with None => delivery_idempotency d | Some k => <[k := entry]> (delivery_idempotency d) end).
  set (by_d := match key with None => delivery_idempotency_by_delivery d
               | Some k => <[delivery_id record := [k]]> (delivery_idempotency_by_delivery d) end).
  assert (Hix : index_ok idem by_d).
  { unfold idem, by_d. rewrite Hi, Hb. destruct key as [k|]; [|apply Hinv].
    apply (index_ok_insert _ _ k entry); [apply Hinv|by apply Hkey|done]. }
  assert (Hent : ∀ k e, idem !! k = Some e → ∃ r, r ∈ delivery_history d ++ [record] ∧
    delivery_id r = entry_delivery_id e ∧ record_payload r = entry_payload e).
  { assert (Hold : ∀ k e, delivery_idempotency d !! k = Some e → ∃ r, r ∈ delivery_history d ++ [record] ∧
      delivery_id r = entry_delivery_id e ∧ record_payload r = entry_payload e).
    { rewrite Hi, Hh. intros k e (r & Hr & ?)%(di_entries _ Hinv). exists r. rewrite elem_of_app. auto. }
    unfold idem. destruct key as [k0|]; [|done]. intros k e [[<- <-]|[_ He]]%lookup_insert_Some; [|by apply (Hold k)].
    exists record. rewrite elem_of_app, list_elem_of_singleton. auto. }
  pose proof (evict_push_inv _ _ _ (delivery_sequence d0) record Hix Hent) as Hev.
  rewrite Hh in Hev at 1. specialize (Hev (di_ids _ Hinv) Hid).
  assert (Hrem : remember_delivery record key trusted d =
    let '(history, idem, by_delivery) := evict_history DELIVERY_HISTORY_LIMIT_MAX (delivery_history d ++ [record]) idem by_d in
    d <| delivery_history := history |> <| delivery_idempotency := idem |> <| delivery_idempotency_by_delivery := by_delivery |>).
  { unfold remember_delivery, idem, by_d. destruct key as [k|]; cbn -[evict_history]; [|done].
    by rewrite Hb, Hby. }
  rewrite Hrem. destruct (evict_history _ _ _ _) as [[h' i'] b']. destruct Hev as (? & ? & ? & ?).
  destruct Hck. split; simpl; try done; rewrite Hs; [unfold is_u64; lia|done].
Qed.

Lemma remember_delivery_rest record key trusted d :
  delivery_rate_window_counts (remember_delivery record key trusted d) = delivery_rate_window_counts d ∧
  delivery_clock_ms (remember_delivery record key trusted d) = delivery_clock_ms d ∧
  delivery_now_floor_ms (remember_delivery record key trusted d) = delivery_now_floor_ms d.
Proof. unfold remember_delivery. destruct key; by destruct (evict_history _ _ _ _) as [[h' i'] b']. Qed.

(** The record that was just pushed, and its key, survive the eviction. *)
Lemma remember_delivery_kept d0 d record key trusted :
  delivery_inv d0 → delivery_history d = delivery_history d0 →
  delivery_idempotency d = delivery_idempotency d0 →
  delivery_idempotency_by_delivery d = delivery_idempotency_by_delivery d0 →
  delivery_id record = delivery_id_of (delivery_sequence d0) →
  (∀ k, key = Some k → delivery_idempotency d0 !! k = None) →
  let d' := remember_delivery record key trusted d in
  record ∈ delivery_history d' ∧
  ∀ k, key = Some k → delivery_idempotency d' !! k = Some (mkIdempotency (delivery_id record) (record_payload record) trusted).
Proof.
  intros Hinv Hh Hi Hb Hid Hkey d'. pose proof (delivery_id_fresh _ Hinv) as Hfresh. rewrite <- Hid in Hfresh.
  pose proof (by_delivery_fresh _ _ Hinv Hfresh) as Hby. pose proof (di_bound _ Hinv) as Hbound.
  assert (Hlast : record ∈ shrink_front DELIVERY_HISTORY_LIMIT_MAX (delivery_history d ++ [record])).
  { rewrite shrink_front_drop, drop_app_le; [set_solver|]. rewrite length_app, Hh. simpl.
    unfold DELIVERY_HISTORY_LIMIT_MAX. lia. }
  unfold d', remember_delivery. destruct key as [k|].
  - set (entry := mkIdempotency _ _ _). cbn -[evict_history shrink_front]. rewrite Hb, Hby. cbn [unwrap_or app].
    pose proof (evict_history_spec DELIVERY_HISTORY_LIMIT_MAX (delivery_history d ++ [record])
      (<[k:=entry]> (delivery_idempotency d)) (<[delivery_id record:=[k]]> (delivery_idempotency_by_delivery d0))) as Hspec.
    destruct (evict_history _ _ _ _) as [[h' i'] b']. destruct Hspec as (-> & _ & Hkeys).
    { rewrite Hi. apply (index_ok_insert _ _ k entry); [apply Hinv|by apply Hkey|done]. }
    split; [done|]. intros ? [= <-]. apply Hkeys. rewrite lookup_insert_eq. split; [done|].
    intros (r & E & Hr)%list_elem_of_fmap. apply Hfresh. simpl in E. rewrite E. apply list_elem_of_fmap_2.
    rewrite Hh in Hr. rewrite take_app_le in Hr; [eapply elem_of_sublist; [exact Hr|apply sublist_take]|].
    rewrite length_app. simpl. unfold DELIVERY_HISTORY_LIMIT_MAX. lia.
  - cbn -[evict_history shrink_front].
    pose proof (evict_history_spec DELIVERY_HISTORY_LIMIT_MAX (delivery_history d ++ [record])
      (delivery_idempotency d) (delivery_idempotency_by_delivery d)) as Hspec.
    destruct (evict_history _ _ _ _) as [[h' i'] b']. destruct Hspec as (-> & _ & _); [rewrite Hi, Hb; apply Hinv|done].
Qed.

Lemma trusted_id_trimmed s provided :
  routing_inv (routing s) → routing_resolutions (routing s) !! trim (route_id provided) = Some provided →
  trim (route_id provided) = route_id provided.
Proof. intros Hr Hp. by apply (ri_trusted _ Hr) in Hp as [? _]. Qed.

Lemma record_delivery_rest request trusted key n first out s1 :
  let o := record_delivery request trusted key n first out s1 in
  delivery_rate_window_counts (delivery o.2) = <[key := u32_saturating_add n 1]> (delivery_rate_window_counts (delivery s1)) ∧
  delivery_clock_ms (delivery o.2) = Z.max (delivery_clock_ms (delivery s1)) (final_attempt_ms o.1) ∧
  delivery_now_floor_ms (delivery o.2) = delivery_now_floor_ms (delivery s1).
Proof.
  unfold record_delivery, next_sequence.
  cbn -[remember_delivery delivery_attempts u64_saturating_add u64_saturating_mul value_get].
  match goal with |- context [remember_delivery ?r ?k ?t ?d] =>
    destruct (remember_delivery_rest r k t d) as (E1 & E2 & E3) end.
  by rewrite E1, E2, E3.
Qed.

(** Whatever happens, the parts of the runtime that delivery does not own are left alone. *)
Lemma send_delivery_frame `{RuntimeEnv} request s :
  wp (send_delivery request) (λ _ s',
    supervisor s' = supervisor s ∧ gating s' = gating s ∧ memory s' = memory s ∧ config s' = config s) s.
Proof.
  set (P := λ (_ : Result DeliveryRecord DeliverySendError) s', supervisor s' = supervisor s ∧ gating s' = gating s ∧ memory s' = memory s ∧ config s' = config s).
  assert (Hnew : ∀ s1, supervisor s1 = supervisor s → gating s1 = gating s → memory s1 = memory s → config s1 = config s →
    wp (send_new_delivery request) P s1).
  { intros s1 E1 E2 E3 E4. unfold send_new_delivery. do 4 wp_step.
    destruct (trusted_resolution_for_delivery _ _) as [trusted|]; [|done]. do 2 wp_step.
    destruct (check_trusted trusted); [|done]. wp_step. unfold charge_check. do 10 wp_step.
    destruct (_ <=? _); [done|]. wp_step. do 4 wp_step. wp_step. unfold deliver_boundary. do 4 wp_step.
    destruct (mcp_module _ _ _) as [m|]; [|done]. do 2 wp_step. apply wp_call_tool.
    destruct (call_module_mcp_tool_json _ _ _ _ _ _); [|done]. do 2 wp_step. done. }
  unfold send_delivery. do 4 wp_step. destruct (negb _); [done|]. do 2 wp_step. destruct (is_some_and _ _); [done|].
  destruct (send_idempotency_key request) as [key|]; [|do 2 wp_step; by apply Hnew].
  wp_step. unfold wp at 1, replay_delivery_for_scoped_idempotency.
  destruct (delivery_idempotency _ !! _) as [entry|]; [|by apply Hnew].
  destruct (negb _); [done|]. destruct (negb _); [done|]. destruct (find_first _ _); [done|]. by apply Hnew.
Qed.

Section send_theorems.
Context `{RuntimeEnv}.

(** The state in which [record_delivery] remembers its record. *)
Lemma record_delivery_new request s s1 first out :
  delivery_inv (delivery s) → delivery_sequence (delivery s) < U64_MAX → quiet s s1 →
  routing_inv (routing s) →
  (∀ key, send_idempotency_key request = Some key →
    delivery_idempotency (delivery s) !! scoped_idempotency_key (trim (route_id (send_resolution request))) key = None) →
  routing_resolutions (routing s) !! trim (route_id (send_resolution request)) = Some (send_resolution request) →
  delivery_clock_ms (delivery s1) = first →
  let key := rate_key_of (send_resolution request) (delivery_now_floor_ms (delivery s1)) in
  let o := record_delivery request (send_resolution request) key (rate_count key (delivery s1)) first out s1 in
  delivery_inv (delivery o.2) ∧ o.1 ∈ delivery_history (delivery o.2) ∧
  delivery_id o.1 = delivery_id_of (delivery_sequence (delivery s)) ∧
  ∀ k, send_idempotency_key request = Some k →
    delivery_idempotency (delivery o.2) !! scoped_idempotency_key (trim (route_id (send_resolution request))) k
    = Some (mkIdempotency (delivery_id o.1) (send_payload request) (send_resolution request)).
Proof.
  intros Hinv Hlt Hq Hr Hkey Htr Hclock key o.
  pose proof (trusted_id_trimmed _ _ Hr Htr) as Htrim.
  pose proof (quiet_inv _ _ Hq Hinv) as Hinv1. pose proof (di_clock _ Hinv1) as Hck.
  assert (Hk : ∀ k, scoped_idempotency_key (route_id (send_resolution request)) <$> send_idempotency_key request = Some k →
    delivery_idempotency (delivery s1) !! k = None).
  { intros k Hk. rewrite (q_idem _ _ Hq). destruct (send_idempotency_key request) as [k0|]; [|done].
    injection Hk as <-. rewrite <- Htrim. by apply Hkey. }
  pose proof (q_sequence _ _ Hq) as Hseq. pose proof (di_sequence _ Hinv1) as [H0 _].
  assert (Hid : delivery_id o.1 = delivery_id_of (delivery_sequence (delivery s1))) by done.
  split_and!; [| |by rewrite Hid, Hseq|].
  - apply (remember_delivery_inv (delivery s1)); try done; [|lia|].
    + destruct Hck as [? ? [? ?]]. split; simpl; [done..|]. unfold u64_saturating_add. lia.
    + simpl. unfold u64_saturating_add. lia.
  - eapply (remember_delivery_kept (delivery s1)); done.
  - intros k Hkk. rewrite Htrim.
    eapply (remember_delivery_kept (delivery s1)); try done. by rewrite Hkk.
Qed.

(** Every send, whether it delivers, replays or fails, keeps the delivery
    invariant (at most 200 records, the last ones issued; every idempotency
    key points to a kept record with its payload, and back), keeps the log in
    order, never moves the delivery clock backwards, and touches neither
    routing, supervision, gating nor memory. *)
Theorem send_keeps_delivery_invariant s request :
  delivery_inv (delivery s) → routing_inv (routing s) → log_wf (merged_events s) →
  delivery_sequence (delivery s) < U64_MAX →
  wp (send_delivery request) (λ _ s',
    delivery_inv (delivery s') ∧ log_wf (merged_events s') ∧
    delivery_clock_ms (delivery s) ≤ delivery_clock_ms (delivery s') ∧
    routing s' = routing s ∧ supervisor s' = supervisor s ∧ gating s' = gating s ∧ memory s' = memory s) s.
Proof.
  intros Hinv Hr Hlog Hlt.
  eapply wp_mono; [apply send_delivery_outcome; [apply Hinv|by apply delivery_inv_no_stale]|].
  intros r s' [err s2 Hq|key entry record|s1 first out Hq Hkey Htr Hck Hfirst Hclk key Hcnt Hcnt' o].
  - split; [by eapply quiet_inv|]. destruct Hq. by rewrite q_log0.
  - done.
  - destruct (record_delivery_new request s s1 first out) as (Hinv' & _); try done.
    split; [exact Hinv'|]. destruct Hq. split; [|split; [|done]].
    + simpl. rewrite q_log0. destruct Hlog. split; [by apply insert_event_sorted_sorted|].
      rewrite insert_event_sorted_perm. by constructor.
    + unfold o. rewrite (proj1 (proj2 (record_delivery_rest _ _ _ _ _ _ _))). lia.
Qed.

(** Sending the same request again after it succeeded with an idempotency
    key returns the record of the first send and changes nothing, not even
    the clock or the quota; the same key with another payload is refused. *)
Theorem resend_is_idempotent s request record s' key other :
  delivery_inv (delivery s) → routing_inv (routing s) → delivery_sequence (delivery s) < U64_MAX →
  send_idempotency_key request = Some key →
  send_delivery request s = (Ok record, s') →
  send_delivery request s' = (Ok record, s') ∧
  (other ≠ send_payload request →
   send_delivery (mkSendRequest (send_resolution request) other (Some key)) s'
   = (Err IdempotencyPayloadMismatch, s')).
Proof.
  intros Hinv Hr Hlt Hkey Hsend.
  assert (Hguards : is_module_loaded s "delivery" = true ∧ str_is_empty (trim key) = false).
  { revert Hsend. unfold send_delivery, mbind, m_bind, gets, throw_if, throw, mret, m_ret. rewrite Hkey.
    destruct (is_module_loaded s "delivery"); [|done]. simpl. by destruct (str_is_empty (trim key)). }
  assert (Hfound : ∃ entry,
    delivery_idempotency (delivery s') !! scoped_idempotency_key (trim (route_id (send_resolution request))) key = Some entry ∧
    entry_payload entry = send_payload request ∧
    unwrap_or (routing_resolutions (routing s') !! trim (route_id (send_resolution request))) (canonical_resolution entry)
      = send_resolution request ∧
    find_first (λ r, delivery_id r =b entry_delivery_id entry) (delivery_history (delivery s')) = Some record ∧
    supervisor s' = supervisor s).
  { assert (Ho : send_outcome request s (Ok record) s').
    { eapply (wp_run (send_delivery request)); [exact Hsend|].
      apply send_delivery_outcome; [apply Hinv|by apply delivery_inv_no_stale]. }
    inversion Ho as [|k e r Hk He Hp Hres Hf|s1 first out Hq Hnk Htr Hck Hfirst Hclk rk Hcnt Hcnt' o]; subst.
    - exists e. replace k with key in * by congruence. done.
    - destruct (record_delivery_new request s s1 (delivery_clock_ms (delivery s1)) out) as (Hinv' & Hin & Hid & Hidx); try done.
      specialize (Hidx key Hkey). eexists. split; [exact Hidx|]. simpl entry_payload. split; [done|].
      change (routing o.2) with (routing s1). rewrite (q_routing _ _ Hq), Htr. split; [done|]. split.
      + apply (find_record _ o.1); [by apply delivery_ids_NoDup|done].
      + change (supervisor o.2) with (supervisor s1). apply Hq. }
  destruct Hfound as (entry & He & Hp & Hres & Hf & Hsup). destruct Hguards as [Hload Hne].
  assert (Hload' : is_module_loaded s' "delivery" = true) by (unfold is_module_loaded in *; by rewrite Hsup).
  split.
  - unfold send_delivery, mbind, m_bind, gets, throw_if, mret, m_ret, replay_delivery_for_scoped_idempotency.
    rewrite Hkey, Hload'. simpl. rewrite Hne, He. rewrite (bool_decide_eq_true_2 _ Hp), (bool_decide_eq_true_2 _ Hres).
    simpl. by rewrite Hf.
  - intros Hother. unfold send_delivery, mbind, m_bind, gets, throw_if, mret, m_ret, replay_delivery_for_scoped_idempotency.
    rewrite Hload'. simpl. rewrite Hne, He. rewrite bool_decide_eq_false_2; [done|]. congruence.
Qed.

(** Nothing is delivered for a resolution the router did not issue: a send
    that succeeds carries either the trusted resolution of its route id,
    unaltered and addressed to the delivery module, or the resolution an
    earlier delivery with the same key was recorded with. *)
Theorem only_trusted_resolutions_deliver s request record s' :
  delivery_inv (delivery s) →
  send_delivery request s = (Ok record, s') →
  let provided := send_resolution request in
  (routing_resolutions (routing s) !! trim (route_id provided) = Some provided ∧
   (s' = s ∨ target_module provided = "delivery" ∧ record_recipient record = recipient provided ∧
             record_sink record = sink provided ∧ record_payload record = send_payload request)) ∨
  (routing_resolutions (routing s) !! trim (route_id provided) = None ∧ s' = s ∧
   ∃ key entry, send_idempotency_key request = Some key ∧
     delivery_idempotency (delivery s) !! scoped_idempotency_key (trim (route_id provided)) key = Some entry ∧
     canonical_resolution entry = provided ∧ entry_payload entry = send_payload request ∧
     entry_delivery_id entry = delivery_id record).
Proof.
  intros Hinv Hsend provided.
  assert (Ho : send_outcome request s (Ok record) s').
  { eapply (wp_run (send_delivery request)); [exact Hsend|].
    apply send_delivery_outcome; [apply Hinv|by apply delivery_inv_no_stale]. }
  inversion Ho as [|k e r Hk He Hp Hres Hf|s1 first out Hq Hnk Htr Hck Hfirst Hclk rk Hcnt Hcnt' o]; subst.
  - fold provided in Hres, He. destruct (routing_resolutions (routing s') !! trim (route_id provided)) as [t|] eqn:Ht.
    + left. simpl in Hres. subst t. auto.
    + right. split_and!; [done..|]. exists k, e. apply find_first_Some in Hf as [_ Hf%bool_decide_eq_true]. auto.
  - left. fold provided in Htr. split; [done|]. right. unfold check_trusted in Hck. fold provided in Hck.
    destruct (bool_decide_reflect (target_module provided = "delivery")); [|done]. auto.
Qed.

(** The quota of a route, recipient, sink and minute is charged exactly
    once per new delivery and only while it is below the route's limit, so it
    never passes the limit; a replay and every failure, a failing sink
    included, charge nothing. *)
Theorem quota_charged_only_on_delivery s request r s' :
  delivery_inv (delivery s) → routing_inv (routing s) →
  send_delivery request s = (r, s') →
  let key := rate_key_of (send_resolution request) (delivery_now_floor_ms (delivery s')) in
  let counts := delivery_rate_window_counts (delivery s) in
  let counts' := delivery_rate_window_counts (delivery s') in
  match r with
  | Err _ => counts' ⊆ counts
  | Ok _ =>
      s' = s ∨
      (rate_count key (delivery s) < rate_limit_per_minute (send_resolution request) ∧
       rate_count key (delivery s') = rate_count key (delivery s) + 1 ∧
       counts' ⊆ <[key := rate_count key (delivery s) + 1]> counts)
  end.
Proof.
  intros Hinv Hr Hsend key counts counts'.
  assert (Ho : send_outcome request s r s').
  { eapply (wp_run (send_delivery request)); [exact Hsend|].
    apply send_delivery_outcome; [apply Hinv|by apply delivery_inv_no_stale]. }
  destruct Ho as [err s2 Hq|k e rec Hk He Hp Hres Hf|s1 first out Hq Hnk Htr Hck Hfirst Hclk rk Hcnt Hcnt' o];
    [apply Hq|by left|]. right.
  assert (Hfloor : delivery_now_floor_ms (delivery o.2) = delivery_now_floor_ms (delivery s1))
    by apply record_delivery_rest.
  assert (Hcounts : counts' = <[rk := u32_saturating_add (rate_count rk (delivery s1)) 1]> (delivery_rate_window_counts (delivery s1)))
    by apply record_delivery_rest.
  assert (Hkey : key = rk) by (unfold key, rk; by rewrite Hfloor).
  assert (Hsame : rate_count rk (delivery s1) = rate_count rk (delivery s)) by (unfold rate_count; by rewrite Hcnt').
  assert (Hadd : u32_saturating_add (rate_count rk (delivery s1)) 1 = rate_count rk (delivery s1) + 1).
  { apply (ri_trusted _ Hr) in Htr as [_ Hok]. pose proof (res_rate _ Hok). unfold u32_saturating_add. lia. }
  rewrite Hkey, <- Hsame. split_and!; [done| |].
  - unfold rate_count at 1. fold counts'. rewrite Hcounts, lookup_insert_eq. simpl. done.
  - rewrite Hcounts, Hadd. apply insert_mono. apply Hq.
Qed.

Lemma delivery_attempts_lookup total backoff st i a :
  delivery_attempts total backoff st !! i = Some a ↔
  Z.of_nat i < total ∧
  a = mkAttempt (Z.of_nat i + 1) (if Z.of_nat i + 1 =? total then st else "transient_failure")
        (if Z.of_nat i + 1 =? total then 0 else backoff).
Proof.
  unfold delivery_attempts. change (map ?f ?l) with (f <$> l). rewrite list_lookup_fmap, fmap_Some.
  setoid_rewrite lookup_seqZ. split.
  - intros (k & [-> ?] & ->). split; [lia|]. by replace (1 + Z.of_nat i) with (Z.of_nat i + 1) by lia.
  - intros [? ->]. exists (1 + Z.of_nat i). split; [lia|]. by replace (1 + Z.of_nat i) with (Z.of_nat i + 1) by lia.
Qed.

(** The record of a new delivery lists one attempt more than the allowed
    retries (so between one and eleven), numbered from one; every attempt but
    the last is a transient failure with the route's backoff, and the last
    carries the final status; the times are in order and later than every
    earlier delivery unless the clock is exhausted. *)
Theorem delivery_attempts_shape s request record s' :
  delivery_inv (delivery s) → routing_inv (routing s) →
  send_delivery request s = (Ok record, s') → s' ≠ s →
  let provided := send_resolution request in
  Z.of_nat (length (attempts record)) = retry_max provided + 1 ∧
  (1 ≤ length (attempts record) ≤ 11)%nat ∧
  (∀ i a, attempts record !! i = Some a →
    attempt a = Z.of_nat i + 1 ∧
    if (S i =? length (attempts record))%nat
    then attempt_status a = status record ∧ attempt_backoff_ms a = 0
    else attempt_status a = "transient_failure" ∧ attempt_backoff_ms a = backoff_ms provided) ∧
  (status record = "sent" ∨ status record = "failed") ∧
  u64_saturating_add (delivery_clock_ms (delivery s)) DELIVERY_CLOCK_STEP_MS ≤ first_attempt_ms record ∧
  first_attempt_ms record ≤ final_attempt_ms record ≤ delivery_clock_ms (delivery s').
Proof.
  intros Hinv Hr Hsend Hnew provided.
  assert (Ho : send_outcome request s (Ok record) s').
  { eapply (wp_run (send_delivery request)); [exact Hsend|].
    apply send_delivery_outcome; [apply Hinv|by apply delivery_inv_no_stale]. }
  remember (Ok record) as res eqn:Er.
  destruct Ho as [err s2 Hq|k e r Hk He Hp Hres Hf|s1 first out Hq Hnk Htr Hck Hfirst Hclk rk Hcnt Hcnt' o]; [done..|].
  assert (record = o.1) as -> by congruence.
  apply (ri_trusted _ Hr) in Htr as [_ Hok]. fold provided in Hok.
  destruct (res_retry _ Hok) as [Hr0 Hr1]. pose proof (res_backoff _ Hok) as [Hb0 _]. unfold ROUTING_RETRY_MAX_CAP in Hr1.
  assert (Htot : u32_saturating_add (retry_max provided) 1 = retry_max provided + 1)
    by (unfold u32_saturating_add, U32_MAX; lia).
  assert (Hatt : attempts o.1 = delivery_attempts (retry_max provided + 1) (backoff_ms provided) (status o.1))
    by (rewrite <- Htot; done).
  assert (Hlen : Z.of_nat (length (attempts o.1)) = retry_max provided + 1).
  { rewrite Hatt. unfold delivery_attempts. rewrite length_map, length_seqZ. lia. }
  split_and!; [done|lia|lia| | |apply Hfirst| |].
  - intros i a Ha. pose proof (lookup_lt_Some _ _ _ Ha) as Hi. rewrite Hatt in Ha at 1.
    apply delivery_attempts_lookup in Ha as [Hlt ->].
    destruct (Nat.eqb_spec (S i) (length (attempts o.1))) as [E|E].
    + rewrite (proj2 (Z.eqb_eq (Z.of_nat i + 1) (retry_max provided + 1))) by lia. done.
    + rewrite (proj2 (Z.eqb_neq (Z.of_nat i + 1) (retry_max provided + 1))) by lia. done.
  - unfold o, record_delivery. cbn -[remember_delivery delivery_attempts u64_saturating_add value_get].
    destruct (_ || _); auto.
  - unfold o, record_delivery. cbn -[remember_delivery delivery_attempts u64_saturating_add u64_saturating_mul value_get].
    unfold u64_saturating_add, u64_saturating_mul, U64_MAX in *. fold provided. nia.
  - unfold o at 2. rewrite (proj1 (proj2 (record_delivery_rest _ _ _ _ _ _ _))). fold o. lia.
Qed.
End send_theorems.

(** A history page is the last records that match its filters, in the order
    they were sent, at most as many as asked for. *)
Theorem history_page_is_filtered_tail s request :
  let page := delivery_history_page s request in
  let wanted record :=
    (∀ r, trimmed_non_empty (history_recipient request) = Some r → record_recipient record = r) ∧
    (∀ k, trimmed_non_empty (history_sink request) = Some k → record_sink record = k) in
  (length page ≤ history_limit request)%nat ∧
  sublist page (delivery_history (delivery s)) ∧
  Forall wanted page ∧
  (∀ record, record ∈ delivery_history (delivery s) → wanted record → (length page < history_limit request)%nat →
    record ∈ page).
Proof.
  intros page wanted. unfold page, delivery_history_page, history_filter.
  set (l := List.filter _ (List.filter _ _)). rewrite take_last_drop, length_drop.
  assert (Hl : ∀ record, record ∈ l ↔ record ∈ delivery_history (delivery s) ∧ wanted record).
  { intros record. unfold l, wanted. rewrite !list_elem_of_In, !filter_In, <- list_elem_of_In.
    unfold is_none_or. destruct (trimmed_non_empty (history_recipient request)), (trimmed_non_empty (history_sink request));
      rewrite ?bool_decide_eq_true; naive_solver. }
  assert (Hsub : ∀ f (k : list DeliveryRecord), sublist (List.filter f k) k).
  { intros f k. induction k as [|x k IH]; simpl; [constructor|]. destruct (f x); by constructor. }
  split_and!; [lia| | |].
  - etrans; [apply sublist_drop|]. unfold l. etrans; apply Hsub.
  - apply Forall_forall. intros x Hx. apply Hl. eapply elem_of_sublist; [exact Hx|apply sublist_drop].
  - intros record Hin Hw Hlt. replace (length l - history_limit request)%nat with 0%nat by lia. simpl. by apply Hl.
Qed.

(** ** Instances of the theorems *)

Module DeliveryExamples.
Import RoutingExamples.

Definition res0 : RoutingResolution := mkResolution "route-000000" "+4670000" "notification" "sms" "delivery" 1 250 2.

Lemma res0_ok : resolution_ok res0.
Proof. split; vm_compute; split; congruence. Defined.

(** A runtime that has issued one resolution. *)
Definition issued : MetaRuntimeHandle := idle <| routing := issue res0 (routing idle) |>.

Lemma issued_routing_inv : routing_inv (routing issued).
Proof. apply issue_inv; [apply idle_routing_inv|reflexivity|apply res0_ok]. Defined.

Lemma fresh_delivery_inv loaded : delivery_inv (delivery (example_runtime loaded)).
Proof.
  split.
  - split; vm_compute; split; congruence.
  - vm_compute; split; congruence.
  - apply Nat.le_0_l.
  - split; [vm_compute; congruence|reflexivity].
  - split; [intros k e E; vm_compute in E; discriminate|intros k e E; vm_compute in E; discriminate].
  - intros k e E. vm_compute in E. discriminate.
Defined.

Definition send_env : RuntimeEnv := example_env (λ _ _, Some "ok") false [("ok", obj [("adapter", str "sms-1")])].
Definition hello : DeliverySendRequest := mkSendRequest res0 (str "hello") (Some "k1").

Definition sent : MetaRuntimeHandle := (@send_delivery send_env hello issued).2.
Definition sent_record : DeliveryRecord :=
  mkRecord "delivery-000000" "route-000000" "+4670000" "sms" "delivery" (str "hello") "sent"
    [mkAttempt 1 "transient_failure" 250; mkAttempt 2 "sent" 0] 1000 1250 (Some "k1") (Some "sms-1").

Lemma hello_sent : @send_delivery send_env hello issued = (Ok sent_record, sent).
Proof.
  assert (E : (@send_delivery send_env hello issued).1 = Ok sent_record) by (vm_compute; reflexivity).
  rewrite <- E. apply surjective_pairing.
Defined.

Lemma send_keeps_delivery_invariant_witness :
  delivery_sequence (delivery sent) = 1 ∧ delivery_inv (delivery sent).
Proof.
  split; [vm_compute; reflexivity|].
  pose proof (@send_keeps_delivery_invariant send_env issued hello (fresh_delivery_inv _) issued_routing_inv
    (idle_log_wf _) eq_refl) as Hw.
  exact (proj1 Hw).
Defined.

Lemma resend_is_idempotent_witness :
  @send_delivery send_env hello sent = (Ok sent_record, sent) ∧
  @send_delivery send_env (mkSendRequest res0 (str "bye") (Some "k1")) sent = (Err IdempotencyPayloadMismatch, sent).
Proof.
  destruct (@resend_is_idempotent send_env issued hello sent_record sent "k1" (str "bye")
    (fresh_delivery_inv _) issued_routing_inv eq_refl eq_refl hello_sent) as [H1 H2].
  split; [exact H1|]. apply H2. discriminate.
Defined.

Lemma only_trusted_resolutions_deliver_witness :
  routing_resolutions (routing issued) !! "route-000000" = Some res0 ∧
  @send_delivery send_env hello issued = (Ok sent_record, sent).
Proof.
  destruct (@only_trusted_resolutions_deliver send_env issued hello sent_record sent (fresh_delivery_inv _) hello_sent)
    as [[H1 _]|(H1 & _)].
  - split; [exact H1|exact hello_sent].
  - vm_compute in H1. discriminate.
Defined.

Lemma sent_ne : sent ≠ issued.
Proof. intros E. apply (f_equal world_step) in E. vm_compute in E. discriminate. Defined.

Lemma quota_charged_only_on_delivery_witness :
  rate_count (mkRateKey "route-000000" "+4670000" "sms" 0) (delivery sent) = 1.
Proof.
  pose proof (@quota_charged_only_on_delivery send_env issued hello (Ok sent_record) sent
    (fresh_delivery_inv _) issued_routing_inv hello_sent) as [Hs|(_ & Hc & _)].
  - destruct (sent_ne Hs).
  - assert (K : rate_key_of (send_resolution hello) (delivery_now_floor_ms (delivery sent))
      = mkRateKey "route-000000" "+4670000" "sms" 0) by (vm_compute; reflexivity).
    rewrite K in Hc. rewrite Hc. vm_compute. reflexivity.
Defined.

Lemma delivery_attempts_shape_witness :
  Z.of_nat (length (attempts sent_record)) = retry_max res0 + 1 ∧ first_attempt_ms sent_record ≤ final_attempt_ms sent_record.
Proof.
  destruct (@delivery_attempts_shape send_env issued hello sent_record sent
    (fresh_delivery_inv _) issued_routing_inv hello_sent sent_ne) as (H1 & _ & _ & _ & _ & H2 & _).
  split; [exact H1|exact H2].
Defined.

Lemma history_page_is_filtered_tail_witness :
  sent_record ∈ delivery_history_page sent (mkHistoryRequest (Some " +4670000 ") None 5).
Proof.
  apply (history_page_is_filtered_tail sent (mkHistoryRequest (Some " +4670000 ") None 5)).
  - assert (E : delivery_history (delivery sent) = [sent_record]) by (vm_compute; reflexivity).
    rewrite E. apply list_elem_of_singleton. reflexivity.
  - split; [|discriminate]. intros r Hr.
    assert (E : trimmed_non_empty (Some " +4670000 ") = Some "+4670000") by (vm_compute; reflexivity).
    simpl in Hr. rewrite E in Hr. injection Hr as <-. reflexivity.
  - vm_compute. lia.
Defined.

End DeliveryExamples.
