(* ===== verification/Gating.v ===== *)
(** * Gating ([runtime/gating.rs], the gating types of [runtime.rs])

    Consequential actions are evaluated by risk tier; the highest tier waits for
    a decision by an approver other than the actor, within a deadline, and falls
    back to a safe draft.  Identities are minted under the owner's random epoch
    and a counter that never repeats.  This file holds the operations;
    [GatingProofs] holds the invariant and [GatingTheorems] the theorems. *)

From S2P Require Import Prelude Strings Json RuntimeTypes MemoryLedger EventTransport ModuleBoundary Routing Delivery.
Open Scope Z_scope.

Definition GATING_APPROVAL_TIMEOUT_DEFAULT_MS : Z := 60000.
Definition GATING_APPROVAL_TIMEOUT_MIN_MS : Z := 1000.
Definition GATING_APPROVAL_TIMEOUT_MAX_MS : Z := 7 * 24 * 60 * 60 * 1000.
Definition GATING_AUDIT_MAX_RETAINED : nat := 512.
Definition GATING_ID_FORMAT : string := "v2".
Definition GATING_IDS_PER_EVALUATION : Z := 4.
Definition GATING_IDS_PER_DECISION : Z := 3.
Definition GATING_PENDING_MAX_RETAINED : nat := 512.

(** ** Identities *)

Definition valid_gating_origin (origin : GatingOrigin) : bool :=
  negb (str_is_empty (trim (origin_identity origin)))
  && is_none_or (origin_conversation_id origin) (λ value, negb (str_is_empty (trim value)))
  && is_none_or (origin_interaction_id origin) (λ value, negb (str_is_empty (trim value))).

Definition valid_gating_epoch (epoch : string) : bool :=
  (str_len epoch =? 32)%nat && str_forall is_hex_lower epoch.

Inductive GatingIdForm :=
| Legacy (sequence : Z)
| Epoch (epoch : string) (sequence : Z).

Definition canonical_sequence (digits : string) : option Z :=
  opt_filter (λ sequence, digits =b fmt06 sequence) (parse_u64 digits).

Definition parse_gating_id (value prefix : string) : option GatingIdForm :=
  rest ← strip_prefix prefix value;
  match (rest ← strip_prefix GATING_ID_FORMAT rest; strip_prefix "-" rest) with
  | Some rest =>
      p ← split_once "-"%char rest;
      let (epoch, digits) := (p : string * string) in
      if negb (valid_gating_epoch epoch) then None
      else sequence ← canonical_sequence digits; Some (Epoch epoch sequence)
  | None => Legacy <$> canonical_sequence rest
  end.

Definition is_legacy_sequential_pending_id (pending_id : string) : bool :=
  match parse_gating_id pending_id "gate-pending-" with Some (Legacy _) => true | _ => false end.

(** [format!("gate-{kind}-{GATING_ID_FORMAT}-{epoch}-{sequence:06}")] *)
Definition gating_id (kind epoch : string) (sequence : Z) : string :=
  "gate-" +:+ kind +:+ "-" +:+ GATING_ID_FORMAT +:+ "-" +:+ epoch +:+ "-" +:+ fmt06 sequence.

Definition fallback_reason (unavailable : GatingIdUnavailable) : string :=
  match unavailable with
  | EpochUnavailable => "gating_identity_unavailable"
  | SequenceExhausted => "gating_sequence_exhausted"
  end.

Definition set_gating (g : GatingState) (s : MetaRuntimeHandle) : MetaRuntimeHandle := s <| gating := g |>.

Definition gating_ids_available (g : GatingState) (count : Z) : Result unit GatingIdUnavailable :=
  match gating_epoch g with
  | None => Err EpochUnavailable
  | Some _ => match u64_checked_add (gating_sequence g) count with
              | Some _ => Ok tt
              | None => Err SequenceExhausted
              end
  end.

Definition mint_gating_id (kind : string) : M MetaRuntimeHandle GatingIdUnavailable string :=
  g ← gets gating;
  epoch ← lift_result (ok_or (gating_epoch g) EpochUnavailable);
  let sequence := gating_sequence g in
  next ← lift_result (ok_or (u64_checked_add sequence 1) SequenceExhausted);
  _ ← modify (λ s, set_gating (gating s <| gating_sequence := next |>) s);
  mret (gating_id kind epoch sequence).

(** ** Escalation routes and notices *)

Definition escalation_id_ok (id : string) : bool := negb (str_is_empty id) && (trim id =b id).

Definition validate_escalation_routes (r : GatingEscalationRoutes) : Result unit string :=
  if is_some_and (escalation_default r) (λ id, negb (escalation_id_ok id))
     || existsb (λ ft, negb (escalation_id_ok ft.1) || negb (escalation_id_ok ft.2))
          (btree_entries (escalation_routes r))
  then Err "escalation approver ids must be non-empty and unpadded"
  else Ok tt.

Definition successor_for (r : GatingEscalationRoutes) (requested_approver : option string) : option string :=
  opt_or (requested_approver ≫= λ approver, escalation_routes r !! approver) (escalation_default r).

Definition set_gating_escalation_routes (r : GatingEscalationRoutes) (s : MetaRuntimeHandle) : MetaRuntimeHandle :=
  set_gating (gating s <| gating_escalation_routes := r |>) s.

Definition register_gating_resolution_observer (observer : nat) (s : MetaRuntimeHandle) : MetaRuntimeHandle :=
  set_gating (gating s <| gating_resolution_observers := gating_resolution_observers (gating s) ++ [observer] |>) s.

(** [GatingNoticeBatch] *)
Record GatingNoticeBatch := mkBatch {
  batch_notices : list GatingResolutionNotice;
  batch_observers : list nat;
}.

Definition take_gating_notices (s : MetaRuntimeHandle) : GatingNoticeBatch * MetaRuntimeHandle :=
  let g := gating s in
  (mkBatch (gating_notice_queue g) (gating_resolution_observers g),
   set_gating (g <| gating_notice_queue := [] |>) s).

(** What [deliver] tells whom, in order. *)
Definition batch_deliveries (batch : GatingNoticeBatch) : list (nat * GatingResolutionNotice) :=
  notice ← batch_notices batch; observer ← batch_observers batch; [(observer, notice)].

Definition deliver (batch : GatingNoticeBatch) (s : MetaRuntimeHandle) : MetaRuntimeHandle :=
  set_gating (gating s <| gating_delivered := gating_delivered (gating s) ++ batch_deliveries batch |>) s.

Definition flush_gating_notices (s : MetaRuntimeHandle) : MetaRuntimeHandle :=
  let (batch, s) := take_gating_notices s in deliver batch s.

(** ** JSON of the audit details *)

Definition origin_value (o : GatingOrigin) : Value :=
  obj ([("identity", str (origin_identity o))]
       ++ match origin_conversation_id o with Some c => [("conversation_id", str c)] | None => [] end
       ++ match origin_interaction_id o with Some i => [("interaction_id", str i)] | None => [] end).

Definition signal_value (c : MemoryConflictSignal) : Value :=
  obj [("entity", str (signal_entity c)); ("topic", str (signal_topic c)); ("store", str (signal_store c));
       ("reason", opt_value str (reason c)); ("updated_at_ms", num (updated_at_ms c))].

Definition risk_tier_str (t : GatingRiskTier) : string :=
  match t with R0 => "r0" | R1 => "r1" | R2 => "r2" | R3 => "r3" end.

Definition decision_str (d : GatingDecision) : string :=
  match d with Approve => "approve" | Reject => "reject" | Escalate => "escalate" end.

Definition reference_value (entity topic : option string) : Value :=
  obj [("entity", opt_value str entity); ("topic", opt_value str topic)].

(** ** The audit log *)

Section gating.
Context `{RuntimeEnv}.

Definition record_gating_audit (new_id : string) (entry : GatingAuditEntry) (s : MetaRuntimeHandle) : MetaRuntimeHandle :=
  let (now, s) := current_time_ms s in
  let entry := entry <| audit_id := new_id |> <| audit_timestamp_ms := now |> in
  let g := gating s in
  let g := g <| gating_changes := S (gating_changes g) |> in
  set_gating (g <| gating_audit := shrink_front GATING_AUDIT_MAX_RETAINED (gating_audit g ++ [entry]) |>) s.

Definition append_gating_audit (entry : GatingAuditEntry) : M MetaRuntimeHandle GatingIdUnavailable unit :=
  audit_id ← mint_gating_id "audit";
  modify (record_gating_audit audit_id entry).

(** [GatingAuditEntry { audit_id: String::new(), timestamp_ms: 0, .. }] *)
Definition audit_entry (event_type action_id : string) (pending_id : option string) (actor_id : string)
    (risk_tier : GatingRiskTier) (outcome : GatingOutcome) (detail : Value) : GatingAuditEntry :=
  mkAudit "" 0 event_type action_id pending_id actor_id risk_tier outcome detail.

(** ** Expiry *)

(** The body of the expiry loop, once it has an audit id. *)
Definition expire_entry (audit_id pending_id : string) (s : MetaRuntimeHandle) : MetaRuntimeHandle :=
  match gating_pending (gating s) !! pending_id with
  | None => s
  | Some expired_entry =>
      let g := gating s in
      let s := set_gating
        (g <| gating_pending := delete pending_id (gating_pending g) |>
           <| gating_pending_order := filter (λ candidate, candidate ≠ pending_id) (gating_pending_order g) |>) s in
      let s := record_gating_audit audit_id
        (audit_entry "timeout_fallback" (pending_action_id expired_entry) (Some pending_id)
           (pending_actor_id expired_entry) (pending_risk_tier expired_entry) SafeDraft
           (obj [("fallback", str "safe_draft"); ("reason", str "approval_timeout");
                 ("origin", opt_value origin_value (pending_origin expired_entry))])) s in
      set_gating (gating s <| gating_notice_queue :=
        gating_notice_queue (gating s)
        ++ [mkNotice pending_id (pending_action_id expired_entry) false None "timeout_fallback"] |>) s
  end.

Fixpoint expire_all (expired : list string) (s : MetaRuntimeHandle) : MetaRuntimeHandle :=
  match expired with
  | [] => s
  | pending_id :: rest =>
      match mint_gating_id "audit" s with
      | (Err _, s) => s
      | (Ok audit_id, s) => expire_all rest (expire_entry audit_id pending_id s)
      end
  end.

Definition expired_ids (now_ms : Z) (g : GatingState) : list string :=
  map fst (List.filter (λ p, deadline_at_ms p.2 <=? now_ms) (btree_entries (gating_pending g))).

Definition refresh_gating_timeouts_at (now_ms : Z) (s : MetaRuntimeHandle) : MetaRuntimeHandle :=
  expire_all (expired_ids now_ms (gating s)) s.

Definition refresh_gating_timeouts (s : MetaRuntimeHandle) : MetaRuntimeHandle :=
  let (now, s) := current_time_ms s in refresh_gating_timeouts_at now s.

(** [insert], then [retain], [push] and the eviction of the oldest. *)
Definition upsert_gating_pending_entry (entry : GatingPendingEntry) (g : GatingState) : GatingState :=
  let id := pending_id entry in
  let m := <[id := entry]> (gating_pending g) in
  let order := filter (λ candidate, candidate ≠ id) (gating_pending_order g) ++ [id] in
  let (order, m) := evict_oldest GATING_PENDING_MAX_RETAINED order m in
  g <| gating_pending := m |> <| gating_pending_order := order |>.

(** ** The memory conflict lookup *)

Definition parse_memory_conflict_mcp_response (response : Value) :
    Result (option MemoryConflictSignal) RuntimeBoundaryError :=
  let candidate := unwrap_or (value_get "conflict" response) response in
  if is_null candidate then Ok None
  else match conflict_from_value candidate with
       | Ok signal => Ok (Some signal)
       | Err error => Err (McpError (InvalidToolPayload "memory" MEMORY_CONFLICT_READ_MCP_TOOL error))
       end.

Definition gating_memory_conflict_for_reference (entity topic : option string) :
    M MetaRuntimeHandle RuntimeBoundaryError (option MemoryConflictSignal) :=
  loaded ← gets (λ s, is_module_loaded s "memory");
  if (loaded : bool) then
    found ← gets (mcp_module "memory" MEMORY_CONFLICT_READ_MCP_TOOL);
    memory_module ← lift_result found;
    response ← call_tool memory_module.1 memory_module.2 MEMORY_CONFLICT_READ_MCP_TOOL (reference_value entity topic);
    lift_result (parse_memory_conflict_mcp_response response)
  else gets (λ s, memory_conflict_for_reference s entity topic).

(** ** Evaluation *)

(** The names [evaluate_gating_action_minting] has bound by its first checks. *)
Record Evaluation := mkEvaluation {
  ev_request : GatingEvaluateRequest;
  ev_origin : option GatingOrigin;
  ev_action : string;
  ev_actor : string;
  ev_action_id : string;
  ev_entity : option string;
  ev_topic : option string;
}.

Definition ev_tier (ev : Evaluation) : GatingRiskTier := request_risk_tier (ev_request ev).
Definition ev_origin_value (ev : Evaluation) : Value := opt_value origin_value (ev_origin ev).

Definition evaluate_result (ev : Evaluation) (outcome : GatingOutcome) (pending : option string)
    (why : option string) : GatingEvaluateResult :=
  mkEvaluateResult (ev_action_id ev) (ev_action ev) (ev_actor ev) (ev_tier ev) outcome pending why.

Definition evaluation_audit (ev : Evaluation) (event_type : string) (pending : option string)
    (outcome : GatingOutcome) (detail : Value) : GatingAuditEntry :=
  audit_entry event_type (ev_action_id ev) pending (ev_actor ev) (ev_tier ev) outcome detail.

(** Blank correlation metadata is dropped from a supplied origin. *)
Definition normalize_origin (origin : GatingOrigin) : GatingOrigin :=
  mkOrigin (origin_identity origin)
    (opt_filter (λ value, negb (str_is_empty (trim value))) (origin_conversation_id origin))
    (opt_filter (λ value, negb (str_is_empty (trim value))) (origin_interaction_id origin)).

Definition conflict_context_detail (ev : Evaluation) (conflict_count : nat) : Value :=
  obj [("policy", str "memory_conflict_context_required_v0_1");
       ("reason", str "memory_conflict_context_missing"); ("action", str (ev_action ev));
       ("reference", reference_value (ev_entity ev) (ev_topic ev));
       ("missing_context", obj [("entity", VBool (is_none (ev_entity ev))); ("topic", VBool (is_none (ev_topic ev)))]);
       ("conflict_count", num (Z.of_nat conflict_count)); ("origin", ev_origin_value ev)].

Definition conflict_lookup_detail (ev : Evaluation) (error : RuntimeBoundaryError) : Value :=
  obj [("policy", str "memory_conflict_lookup_via_core_mcp"); ("reason", str "memory_conflict_lookup_failed");
       ("error", str (debug_boundary error)); ("origin", ev_origin_value ev);
       ("reference", reference_value (ev_entity ev) (ev_topic ev))].

Definition conflict_detail (ev : Evaluation) (conflict : MemoryConflictSignal) : Value :=
  obj [("policy", str "memory_conflict_block_v0_1"); ("reason", str "memory_conflict"); ("action", str (ev_action ev));
       ("reference", reference_value (ev_entity ev) (ev_topic ev)); ("conflict", signal_value conflict);
       ("origin", ev_origin_value ev)].

(** The block for the two upper tiers: [Some] is its early return. *)
Definition conflict_guard (ev : Evaluation) : M MetaRuntimeHandle GatingIdUnavailable (option GatingEvaluateResult) :=
  conflicts ← gets (λ s, memory_conflicts (memory s));
  if negb (size conflicts =? 0)%nat && (is_none (ev_entity ev) || is_none (ev_topic ev)) then
    _ ← append_gating_audit (evaluation_audit ev "conflict_blocked" None SafeDraft
          (conflict_context_detail ev (size conflicts)));
    mret (Some (evaluate_result ev SafeDraft None (Some "memory_conflict_context_missing")))
  else
    found ← catch (gating_memory_conflict_for_reference (ev_entity ev) (ev_topic ev));
    match found with
    | Err error =>
        _ ← append_gating_audit (evaluation_audit ev "memory_conflict_lookup_failed" None SafeDraft
              (conflict_lookup_detail ev error));
        mret (Some (evaluate_result ev SafeDraft None (Some "memory_conflict_lookup_failed")))
    | Ok (Some conflict) =>
        _ ← append_gating_audit (evaluation_audit ev "conflict_blocked" None SafeDraft (conflict_detail ev conflict));
        mret (Some (evaluate_result ev SafeDraft None (Some "memory_conflict")))
    | Ok None => mret None
    end.

(** The arms for the lower tiers. *)
Definition allow_with (ev : Evaluation) (policy : string) (outcome : GatingOutcome) :
    M MetaRuntimeHandle GatingIdUnavailable GatingEvaluateResult :=
  _ ← append_gating_audit (evaluation_audit ev "evaluated" None outcome
        (obj [("policy", str policy); ("origin", ev_origin_value ev);
              ("rationale", opt_value str (request_rationale (ev_request ev))); ("action", str (ev_action ev))]));
  mret (evaluate_result ev outcome None None).

(** Where the approval request is to be sent, or why it cannot be. *)
Definition resolve_notification (recipient channel : option string) :
    M MetaRuntimeHandle GatingIdUnavailable (option RoutingResolution * option string) :=
  match recipient, channel with
  | Some recipient, Some channel =>
      router ← gets (λ s, is_module_loaded s "router");
      delivery_loaded ← gets (λ s, is_module_loaded s "delivery");
      if (router : bool) && delivery_loaded then
        resolved ← catch (resolve_routing (mkResolveRequest recipient (Some channel) None None None));
        match resolved with
        | Ok resolution => mret (Some resolution, None)
        | Err err => mret (None, Some ("routing:" +:+ debug_routing err))
        end
      else
        let missing_modules := (if (router : bool) then [] else ["router"])
                               ++ (if (delivery_loaded : bool) then [] else ["delivery"]) in
        mret (None, Some ("notification_modules_unavailable:" +:+ String.concat "," missing_modules))
  | _, _ => mret (None, None)
  end.

Definition approval_notification_disposition (sent : Result DeliveryRecord DeliverySendError) : string :=
  match sent with
  | Ok record => if status record =b "sent" then "acknowledged" else "not_delivered"
  | Err (DeliveryBoundary (McpError (McpRequired _ _))) => "not_sent"
  | Err (DeliveryBoundary _) => "unknown"
  | Err _ => "not_sent"
  end.

(** The delivery id and the error text of a notification. *)
Definition notification_outcome (sent : Result DeliveryRecord DeliverySendError) : option string * option string :=
  match sent with
  | Ok record =>
      if status record =b "sent" then (Some (delivery_id record), None)
      else (Some (delivery_id record),
            Some ("delivery_status:" +:+ status record +:+ ":" +:+ delivery_id record))
  | Err err => (None, Some ("delivery:" +:+ debug_delivery err))
  end.

Definition notification_detail (disposition : string) (route_id delivery_id error : option string) (origin : Value) : Value :=
  obj [("disposition", str disposition); ("approval_route_id", opt_value str route_id);
       ("approval_delivery_id", opt_value str delivery_id);
       ("approval_notification_error", opt_value str error); ("origin", origin)].

Definition pending_detail (entry : GatingPendingEntry) (error : option string) : Value :=
  obj [("requested_approver", opt_value str (requested_approver entry));
       ("approval_recipient", opt_value str (approval_recipient entry));
       ("approval_channel", opt_value str (approval_channel entry));
       ("approval_route_id", opt_value str (approval_route_id entry));
       ("approval_delivery_id", opt_value str (approval_delivery_id entry));
       ("approval_notification_error", opt_value str error);
       ("deadline_at_ms", num (deadline_at_ms entry)); ("action", str (pending_action entry));
       ("origin", opt_value origin_value (pending_origin entry))].

Definition approval_request (entry : GatingPendingEntry) (resolution : RoutingResolution) : DeliverySendRequest :=
  mkSendRequest resolution
    (obj [("kind", str "gating_approval_request"); ("pending_id", str (pending_id entry));
          ("action_id", str (pending_action_id entry)); ("action", str (pending_action entry));
          ("actor_id", str (pending_actor_id entry)); ("risk_tier", str (risk_tier_str (pending_risk_tier entry)));
          ("requested_approver", opt_value str (requested_approver entry));
          ("deadline_at_ms", num (deadline_at_ms entry))])
    (Some ("gating-approval-" +:+ pending_id entry)).

(** [if disposition == "acknowledged" && let Some(entry) = .. && entry.action_id == action_id] *)
Definition acknowledge_delivery (disposition : string) (entry : GatingPendingEntry) (delivered : option string)
    (s : MetaRuntimeHandle) : MetaRuntimeHandle :=
  match gating_pending (gating s) !! pending_id entry with
  | Some held =>
      if (disposition =b "acknowledged") && (pending_action_id held =b pending_action_id entry)
      then set_gating (gating s <| gating_pending :=
             <[pending_id entry := held <| approval_delivery_id := delivered |>]> (gating_pending (gating s)) |>) s
      else s
  | None => s
  end.

(** After the commit: send the approval request and record how that ended. *)
Definition publish_approval (ev : Evaluation) (entry : GatingPendingEntry)
    (resolution : option RoutingResolution) (error : option string) : M MetaRuntimeHandle GatingIdUnavailable unit :=
  match resolution with
  | None =>
      match error with
      | None => mret tt
      | Some error =>
          append_gating_audit (evaluation_audit ev "approval_notification" (Some (pending_id entry)) PendingApproval
            (notification_detail "not_sent" None None (Some error) (opt_value origin_value (pending_origin entry))))
      end
  | Some resolution =>
      sent ← catch (send_delivery (approval_request entry resolution));
      let disposition := approval_notification_disposition sent in
      let (delivered, error) := notification_outcome sent in
      _ ← modify (acknowledge_delivery disposition entry delivered);
      append_gating_audit (evaluation_audit ev "approval_notification" (Some (pending_id entry)) PendingApproval
        (notification_detail disposition (Some (route_id resolution)) delivered error
           (opt_value origin_value (pending_origin entry))))
  end.

(** The arm for the highest tier. *)
Definition await_approval (ev : Evaluation) : M MetaRuntimeHandle GatingIdUnavailable GatingEvaluateResult :=
  let request := ev_request ev in
  let recipient := trimmed_non_empty (request_approval_recipient request) in
  let channel := trimmed_non_empty (request_approval_channel request) in
  new_pending_id ← mint_gating_id "pending";
  created_at ← lift_state current_time_ms;
  let timeout_ms := u64_clamp GATING_APPROVAL_TIMEOUT_MIN_MS GATING_APPROVAL_TIMEOUT_MAX_MS
                      (unwrap_or (request_approval_timeout_ms request) GATING_APPROVAL_TIMEOUT_DEFAULT_MS) in
  let deadline_at := u64_saturating_add created_at timeout_ms in
  notification ← resolve_notification recipient channel;
  let resolution : option RoutingResolution := notification.1 in
  let error : option string := notification.2 in
  let entry := mkPending new_pending_id (ev_action_id ev) (ev_action ev) (ev_actor ev) (ev_tier ev)
                 (trimmed_non_empty (request_requested_approver request)) recipient channel
                 (route_id <$> resolution) None created_at deadline_at (request_rationale request) (ev_origin ev) in
  _ ← modify (λ s, set_gating (upsert_gating_pending_entry entry (gating s)) s);
  _ ← append_gating_audit (evaluation_audit ev "pending_created" (Some new_pending_id) PendingApproval
        (pending_detail entry error));
  _ ← publish_approval ev entry resolution error;
  mret (evaluate_result ev PendingApproval (Some new_pending_id) None).

Definition evaluate_gating_action_minting (request : GatingEvaluateRequest) (origin : option GatingOrigin) :
    M MetaRuntimeHandle GatingIdUnavailable GatingEvaluateResult :=
  let origin := normalize_origin <$> origin in
  _ ← modify refresh_gating_timeouts;
  available ← gets (λ s, gating_ids_available (gating s) GATING_IDS_PER_EVALUATION);
  _ ← lift_result available;
  new_action_id ← mint_gating_id "action";
  let ev := mkEvaluation request origin (trim (request_action request)) (trim (request_actor_id request))
              new_action_id (trimmed_non_empty (request_entity request)) (trimmed_non_empty (request_topic request)) in
  if is_some_and origin (λ origin, negb (valid_gating_origin origin))
  then mret (evaluate_result ev SafeDraft None (Some "invalid_gating_origin"))
  else
    blocked ← (match request_risk_tier request with
               | R2 | R3 => conflict_guard ev
               | R0 | R1 => mret None
               end : M MetaRuntimeHandle GatingIdUnavailable (option GatingEvaluateResult));
    match blocked with
    | Some result => mret result
    | None =>
        match request_risk_tier request with
        | R0 | R1 => allow_with ev "allow_immediate" Allowed
        | R2 => allow_with ev "consequence_mode_allow_with_audit_v0_1" AllowedWithAudit
        | R3 => await_approval ev
        end
    end.

Definition evaluate_gating_action_with_origin (request : GatingEvaluateRequest) (origin : option GatingOrigin)
    (s : MetaRuntimeHandle) : GatingEvaluateResult * MetaRuntimeHandle :=
  let (evaluated, s) := evaluate_gating_action_minting request origin s in
  let result := match evaluated with
                | Ok result => result
                | Err unavailable =>
                    mkEvaluateResult "" (trim (request_action request)) (trim (request_actor_id request))
                      (request_risk_tier request) SafeDraft None (Some (fallback_reason unavailable))
                end in
  (result, flush_gating_notices s).

Definition evaluate_gating_action (request : GatingEvaluateRequest) (s : MetaRuntimeHandle) :
    GatingEvaluateResult * MetaRuntimeHandle :=
  evaluate_gating_action_with_origin request None s.

(** ** Decisions *)

(** Who decides, and how that is recorded. *)
Definition deciding_approver (request : GatingDecideRequest) (decider : option GatingDecider)
    (requested : option string) : string * option string :=
  match decider with
  | None => (trim (decide_approver_id request), None)
  | Some decider =>
      match opt_filter (λ requested, bool_decide (requested ∈ decider_held decider)) requested with
      | Some requested => (requested, Some "held")
      | None => (principal decider, Some "principal")
      end
  end.

Definition actor_is_decider (approver_id : string) (decider : option GatingDecider) (actor_id : string) : bool :=
  match decider with
  | None => approver_id =b actor_id
  | Some decider => (principal decider =b actor_id) || bool_decide (actor_id ∈ decider_held decider)
  end.

Definition is_approve (d : GatingDecision) : bool := match d with Approve => true | _ => false end.

(** The checks on the entry, before anything changes; the successor of an escalation. *)
Definition check_decision (request : GatingDecideRequest) (decider : option GatingDecider)
    (entry : GatingPendingEntry) (routes : GatingEscalationRoutes) : Result (option string) GatingDecideError :=
  let approver_id := (deciding_approver request decider (requested_approver entry)).1 in
  if is_approve (decision request) && actor_is_decider approver_id decider (pending_actor_id entry)
  then Err SelfApprovalForbidden
  else if is_some_and (requested_approver entry) (λ expected, negb (expected =b approver_id))
  then Err (ApproverMismatch (unwrap_or (requested_approver entry) "") approver_id)
  else match decision request with
       | Escalate =>
           match successor_for routes (requested_approver entry) with
           | Some successor => Ok (Some successor)
           | None => Err (NoEscalationRoute (requested_approver entry))
           end
       | _ => Ok None
       end.

Definition escalation_detail (from : string) (entry : GatingPendingEntry) : Value :=
  obj [("escalated_from_pending_id", str from);
       ("requested_approver", opt_value str (requested_approver entry));
       ("approval_recipient", opt_value str (approval_recipient entry));
       ("approval_channel", opt_value str (approval_channel entry));
       ("approval_route_id", opt_value str (approval_route_id entry));
       ("approval_delivery_id", opt_value str (approval_delivery_id entry));
       ("deadline_at_ms", num (deadline_at_ms entry)); ("action", str (pending_action entry));
       ("origin", opt_value origin_value (pending_origin entry))].

(** The escalation arm: a successor entry with the same candidate and deadline. *)
Definition escalate_entry (now_ms : Z) (from : string) (entry : GatingPendingEntry) (successor : option string) :
    M MetaRuntimeHandle GatingIdUnavailable string :=
  successor_id ← mint_gating_id "pending";
  let successor_entry :=
    mkPending successor_id (pending_action_id entry) (pending_action entry) (pending_actor_id entry)
      (pending_risk_tier entry) successor (approval_recipient entry) (approval_channel entry) None None
      now_ms (deadline_at_ms entry) (pending_rationale entry) (pending_origin entry) in
  _ ← modify (λ s, set_gating (upsert_gating_pending_entry successor_entry (gating s)) s);
  _ ← append_gating_audit
        (audit_entry "pending_created" (pending_action_id successor_entry) (Some successor_id)
           (pending_actor_id successor_entry) (pending_risk_tier successor_entry) PendingApproval
           (escalation_detail from successor_entry));
  mret successor_id.

Definition decision_outcome (d : GatingDecision) : GatingOutcome :=
  match d with Approve => Allowed | Reject => SafeDraft | Escalate => PendingApproval end.
Definition decision_event (d : GatingDecision) : string :=
  match d with
  | Approve => "approval_decided"
  | Reject => "rejection_decided"
  | Escalate => "escalation_decided"
  end.

Definition decision_detail (request : GatingDecideRequest) (decider : option GatingDecider)
    (entry : GatingPendingEntry) (next : option string) : Value :=
  let approver := deciding_approver request decider (requested_approver entry) in
  obj [("approver_id", str approver.1);
       ("deciding_principal", opt_value (λ d, str (principal d)) decider);
       ("approver_binding", opt_value str approver.2);
       ("decision", str (decision_str (decision request))); ("reason", opt_value str (decide_reason request));
       ("approval_route_id", opt_value str (approval_route_id entry));
       ("approval_delivery_id", opt_value str (approval_delivery_id entry));
       ("next_pending_id", opt_value str next); ("origin", opt_value origin_value (pending_origin entry))].

(** From the removal of the entry to the end. *)
Definition commit_decision (request : GatingDecideRequest) (decider : option GatingDecider) (now_ms : Z)
    (id : string) (entry : GatingPendingEntry) (successor : option string) :
    M MetaRuntimeHandle GatingIdUnavailable GatingDecisionResult :=
  _ ← modify (λ s, set_gating
        (gating s <| gating_pending := delete id (gating_pending (gating s)) |>
                  <| gating_pending_order := filter (λ candidate, candidate ≠ id) (gating_pending_order (gating s)) |>) s);
  next ← (match decision request with
          | Escalate => next ← escalate_entry now_ms id entry successor; mret (Some next)
          | _ => mret None
          end : M MetaRuntimeHandle GatingIdUnavailable (option string));
  let outcome := decision_outcome (decision request) in
  let event_type := decision_event (decision request) in
  _ ← append_gating_audit
        (audit_entry event_type (pending_action_id entry) (Some id) (pending_actor_id entry)
           (pending_risk_tier entry) outcome (decision_detail request decider entry next));
  _ ← modify (λ s, set_gating (gating s <| gating_notice_queue :=
        gating_notice_queue (gating s)
        ++ [mkNotice id (pending_action_id entry) (is_approve (decision request)) next event_type] |>) s);
  mret (mkDecisionResult id (pending_action_id entry)
          (deciding_approver request decider (requested_approver entry)).1
          (decision request) outcome now_ms (decide_reason request) next).

Definition decide_gating_action_as (request : GatingDecideRequest) (decider : option GatingDecider) :
    M MetaRuntimeHandle GatingDecideError GatingDecisionResult :=
  now_ms ← lift_state current_time_ms;
  _ ← modify (refresh_gating_timeouts_at now_ms);
  available ← gets (λ s, gating_ids_available (gating s) GATING_IDS_PER_DECISION);
  _ ← lift_result (map_err IdsUnavailable available);
  _ ← throw_if (is_some_and decider (λ decider, str_is_empty (trim (principal decider)))) EmptyPrincipal;
  let id := trim (decide_pending_id request) in
  found ← gets (λ s, gating_pending (gating s) !! id);
  entry ← lift_result (ok_or found (UnknownPendingId id));
  routes ← gets (λ s, gating_escalation_routes (gating s));
  successor ← lift_result (check_decision request decider entry routes);
  with_err IdsUnavailable (commit_decision request decider now_ms id entry successor).

Definition decide_gating_action (request : GatingDecideRequest) (s : MetaRuntimeHandle) :
    Result GatingDecisionResult GatingDecideError * MetaRuntimeHandle :=
  let (result, s) := decide_gating_action_as request None s in (result, flush_gating_notices s).

Definition decide_gating_action_for (request : GatingDecideRequest) (decider : GatingDecider) (s : MetaRuntimeHandle) :
    Result GatingDecisionResult GatingDecideError * MetaRuntimeHandle :=
  let (result, s) := decide_gating_action_as request (Some decider) s in (result, flush_gating_notices s).

(** The notices are returned undelivered. *)
Definition decide_gating_action_authorized {E} (request : GatingDecideRequest)
    (authorize : option GatingPendingEntry → Result GatingDecider E) (s : MetaRuntimeHandle) :
    Result (Result GatingDecisionResult GatingDecideError) E * GatingNoticeBatch * MetaRuntimeHandle :=
  let s := refresh_gating_timeouts s in
  let pending := gating_pending (gating s) !! trim (decide_pending_id request) in
  let '(result, s) := match authorize pending with
                      | Err e => (Err e, s)
                      | Ok decider =>
                          let (decided, s) := decide_gating_action_as request (Some decider) s in (Ok decided, s)
                      end in
  let (batch, s) := take_gating_notices s in
  (result, batch, s).

(** ** Views *)

(** [order.iter().filter_map(|id| pending.get(id).cloned())] *)
Definition pending_in_order (g : GatingState) : list GatingPendingEntry :=
  omap (λ id, gating_pending g !! id) (gating_pending_order g).

Definition list_gating_pending (s : MetaRuntimeHandle) : list GatingPendingEntry * MetaRuntimeHandle :=
  let s := flush_gating_notices (refresh_gating_timeouts s) in
  (pending_in_order (gating s), s).

Definition gating_audit_after (after_audit_id : option string) (s : MetaRuntimeHandle) :
    GatingAuditPage * MetaRuntimeHandle :=
  let s := flush_gating_notices (refresh_gating_timeouts s) in
  let start := match after_audit_id with
               | None => Some 0%nat
               | Some cursor => S <$> position (λ entry, audit_id entry =b cursor) (gating_audit (gating s))
               end in
  (mkAuditPage (drop (unwrap_or start 0%nat) (gating_audit (gating s))) (is_none start), s).

Definition gating_audit_entries (limit : nat) (s : MetaRuntimeHandle) : list GatingAuditEntry * MetaRuntimeHandle :=
  let s := flush_gating_notices (refresh_gating_timeouts s) in
  (take_last limit (gating_audit (gating s)), s).

(** ** Persistence *)

Definition gating_state_snapshot (s : MetaRuntimeHandle) : GatingStateSnapshot * MetaRuntimeHandle :=
  let s := flush_gating_notices (refresh_gating_timeouts s) in
  let g := gating s in
  (mkSnapshot 2 (gating_epoch g) (gating_sequence g) (pending_in_order g) (gating_audit g), s).

(** [valid_id] of [validate_gating_snapshot] *)
Definition snapshot_id_ok (snapshot : GatingStateSnapshot) (legacy : bool) (value prefix : string) : bool :=
  match parse_gating_id value prefix with
  | Some (Legacy sequence) => negb legacy || (sequence <? snapshot_next_sequence snapshot)
  | Some (Epoch epoch sequence) =>
      negb legacy
      && (negb (snapshot_owner_epoch snapshot =b Some epoch) || (sequence <? snapshot_next_sequence snapshot))
  | None => false
  end.

(** The loop over the pending entries; the ids it has seen are its result. *)
Fixpoint validate_pending (snapshot : GatingStateSnapshot) (legacy : bool) (entries : list GatingPendingEntry)
    (seen : list string) : Result (list string) GatingStateRestoreError :=
  match entries with
  | [] => Ok seen
  | entry :: rest =>
      if negb (snapshot_id_ok snapshot legacy (pending_id entry) "gate-pending-")
         || negb (snapshot_id_ok snapshot legacy (pending_action_id entry) "gate-action-")
         || bool_decide (pending_id entry ∈ seen)
      then Err (InvalidSnapshot "invalid or duplicate pending ID")
      else if negb (pending_risk_tier entry =b R3) || (deadline_at_ms entry <? created_at_ms entry)
      then Err (InvalidSnapshot "invalid pending policy or deadline")
      else if is_some_and (pending_origin entry) (λ origin, negb (valid_gating_origin origin))
      then Err (InvalidSnapshot "invalid pending origin")
      else validate_pending snapshot legacy rest (pending_id entry :: seen)
  end.

Definition resolution_events : list string :=
  ["approval_decided"; "rejection_decided"; "escalation_decided"; "timeout_fallback"].

(** [entry.detail.get("origin").filter(|value| !value.is_null())] must decode to a valid origin. *)
Definition detail_origin_ok (detail : Value) : bool :=
  match opt_filter (λ value, negb (is_null value)) (value_get "origin" detail) with
  | None => true
  | Some value => is_some_and (origin_from_value value) valid_gating_origin
  end.

Fixpoint validate_audit (snapshot : GatingStateSnapshot) (legacy : bool) (pending_ids : list string)
    (entries : list GatingAuditEntry) (seen : list string) : Result unit GatingStateRestoreError :=
  match entries with
  | [] => Ok tt
  | entry :: rest =>
      if negb (snapshot_id_ok snapshot legacy (audit_id entry) "gate-audit-")
         || negb (snapshot_id_ok snapshot legacy (audit_action_id entry) "gate-action-")
         || bool_decide (audit_id entry ∈ seen)
         || is_some_and (audit_pending_id entry) (λ id, negb (snapshot_id_ok snapshot legacy id "gate-pending-"))
      then Err (InvalidSnapshot "invalid or duplicate audit ID")
      else if is_some_and (audit_pending_id entry) (λ id, bool_decide (id ∈ pending_ids))
              && bool_decide (audit_event_type entry ∈ resolution_events)
      then Err (InvalidSnapshot "resolved request is also pending")
      else if negb (detail_origin_ok (audit_detail entry)) then Err (InvalidSnapshot "invalid audit origin")
      else validate_audit snapshot legacy pending_ids rest (audit_id entry :: seen)
  end.

Definition validate_gating_snapshot (snapshot : GatingStateSnapshot) : Result unit GatingStateRestoreError :=
  legacy ←? (if snapshot_version snapshot =? 1 then Ok true
             else if snapshot_version snapshot =? 2 then Ok false
             else Err (UnsupportedVersion (snapshot_version snapshot)));
  if is_some (snapshot_owner_epoch snapshot) && legacy
  then Err (InvalidSnapshot "version 1 snapshot names an owner epoch")
  else if is_some_and (snapshot_owner_epoch snapshot) (λ epoch, negb (valid_gating_epoch epoch))
  then Err (InvalidSnapshot "invalid owner epoch")
  else if (GATING_PENDING_MAX_RETAINED <? length (snapshot_pending snapshot))%nat
          || (GATING_AUDIT_MAX_RETAINED <? length (snapshot_audit snapshot))%nat
  then Err (InvalidSnapshot "retention bounds exceeded")
  else if legacy && is_none (u64_checked_add (snapshot_next_sequence snapshot)
                               (Z.of_nat (length (snapshot_pending snapshot)) + 1))
  then Err (InvalidSnapshot "sequence is exhausted")
  else
    pending_ids ←? validate_pending snapshot legacy (snapshot_pending snapshot) [];
    validate_audit snapshot legacy pending_ids (snapshot_audit snapshot) [].

Definition gating_pristine (g : GatingState) : bool :=
  (gating_sequence g =? 0) && (size (gating_pending g) =? 0)%nat
  && is_empty (gating_pending_order g) && is_empty (gating_audit g).

Definition restore_gating_state (snapshot : GatingStateSnapshot) : M MetaRuntimeHandle GatingStateRestoreError unit :=
  g ← gets gating;
  _ ← throw_if (negb (gating_pristine g)) RuntimeNotPristine;
  _ ← lift_result (validate_gating_snapshot snapshot);
  _ ← modify (λ s, set_gating
        (gating s <| gating_pending_order := map pending_id (snapshot_pending snapshot) |>
                  <| gating_pending := foldl (λ m entry, <[pending_id entry := entry]> m) ∅ (snapshot_pending snapshot) |>
                  <| gating_audit := snapshot_audit snapshot |>) s);
  modify (λ s, flush_gating_notices (refresh_gating_timeouts s)).
End gating.
