(* ===== verification/GatingProofs.v ===== *)
(** * The gating invariant

    An invariant of the gating state, that the primitive changes keep it, and
    the symbolic execution of expiry and evaluation under it.  The theorems that
    follow are in [GatingTheorems]. *)

From S2P Require Import Prelude Strings Json RuntimeTypes MemoryLedger EventTransport ModuleBoundary Routing Delivery Gating.
Open Scope Z_scope.

(** ** Identities *)

Lemma valid_epoch_no_dash e : valid_gating_epoch e = true → contains_byte "-"%char e = false.
Proof.
  intros [_ He]%andb_true_iff. eapply str_forall_no_byte; [|exact He]. reflexivity.
Qed.

Lemma canonical_sequence_fmt06 n : is_u64 n → canonical_sequence (fmt06 n) = Some n.
Proof. intros Hn. unfold canonical_sequence. rewrite fmt06_parse by done. simpl. by rewrite bool_decide_eq_true_2. Qed.

Lemma parse_gating_id_mint kind e n :
  valid_gating_epoch e = true → is_u64 n →
  parse_gating_id (gating_id kind e n) ("gate-" +:+ kind +:+ "-") = Some (Epoch e n).
Proof.
  intros He Hn. unfold parse_gating_id, gating_id.
  replace ("gate-" +:+ kind +:+ "-" +:+ GATING_ID_FORMAT +:+ "-" +:+ e +:+ "-" +:+ fmt06 n)
    with (("gate-" +:+ kind +:+ "-") +:+ GATING_ID_FORMAT +:+ "-" +:+ e +:+ "-" +:+ fmt06 n)
    by (by rewrite <- !str_app_assoc).
  rewrite strip_prefix_app. cbn [mbind option_bind]. rewrite strip_prefix_app. cbn [mbind option_bind].
  rewrite strip_prefix_app.
  change ("-" +:+ fmt06 n) with (String "-"%char (fmt06 n)).
  rewrite split_once_app by by apply valid_epoch_no_dash. cbn [mbind option_bind]. rewrite He. cbn [negb].
  by rewrite canonical_sequence_fmt06.
Qed.

Lemma gating_id_inj kind e e' n n' :
  valid_gating_epoch e = true → valid_gating_epoch e' = true → is_u64 n → is_u64 n' →
  gating_id kind e n = gating_id kind e' n' → e = e' ∧ n = n'.
Proof.
  intros He He' Hn Hn' E.
  pose proof (parse_gating_id_mint kind e n He Hn) as P1. rewrite E, parse_gating_id_mint in P1 by done.
  by injection P1 as -> ->.
Qed.

(** The ids an owner with epoch [ep] and counter [next] may hold: older ones of
    its own, and any of other owners. *)
Definition id_known (ep : option string) (next : Z) (prefix value : string) : Prop :=
  match parse_gating_id value prefix with
  | Some (Legacy _) => True
  | Some (Epoch e n) => ep = Some e → n < next
  | None => False
  end.

Lemma id_known_mono ep next next' prefix v : id_known ep next prefix v → next ≤ next' → id_known ep next' prefix v.
Proof. unfold id_known. destruct (parse_gating_id v prefix) as [[]|]; try done. intros H Hle E. apply H in E. lia. Qed.

#[export] Hint Resolve id_known_mono : meta.

Lemma minted_known kind e n :
  valid_gating_epoch e = true → is_u64 n → id_known (Some e) (n + 1) ("gate-" +:+ kind +:+ "-") (gating_id kind e n).
Proof. intros He Hn. unfold id_known. rewrite parse_gating_id_mint by done. intros _. lia. Qed.

Lemma minted_fresh kind e n v :
  valid_gating_epoch e = true → is_u64 n → id_known (Some e) n ("gate-" +:+ kind +:+ "-") v → v ≠ gating_id kind e n.
Proof. intros He Hn Hk ->. unfold id_known in Hk. rewrite parse_gating_id_mint in Hk by done. specialize (Hk eq_refl). lia. Qed.

(** ** The invariant *)

(** The derived serialization of an origin is read back by its deserialization. *)
Class GatingCodec `{RuntimeEnv} := {
  origin_roundtrip : ∀ o, origin_from_value (origin_value o) = Some o;
}.

Section invariant.
Context `{RuntimeEnv}.

Record pending_ok (ep : option string) (next : Z) (entry : GatingPendingEntry) : Prop := {
  pk_id : id_known ep next "gate-pending-" (pending_id entry);
  pk_action : id_known ep next "gate-action-" (pending_action_id entry);
  pk_tier : pending_risk_tier entry = R3;
  pk_deadline : created_at_ms entry ≤ deadline_at_ms entry;
  pk_origin : ∀ o, pending_origin entry = Some o → valid_gating_origin o = true;
}.

Record audit_ok (ep : option string) (next : Z) (entry : GatingAuditEntry) : Prop := {
  ak_id : id_known ep next "gate-audit-" (audit_id entry);
  ak_action : id_known ep next "gate-action-" (audit_action_id entry);
  ak_pending : ∀ p, audit_pending_id entry = Some p → id_known ep next "gate-pending-" p;
  ak_origin : detail_origin_ok (audit_detail entry) = true;
}.

Record gating_inv (g : GatingState) : Prop := {
  gi_sequence : is_u64 (gating_sequence g);
  gi_epoch : ∀ e, gating_epoch g = Some e → valid_gating_epoch e = true;
  gi_order : NoDup (gating_pending_order g);
  gi_dom : ∀ id, id ∈ gating_pending_order g ↔ is_Some (gating_pending g !! id);
  gi_bound : (length (gating_pending_order g) ≤ GATING_PENDING_MAX_RETAINED)%nat;
  gi_pending : map_Forall (λ id entry, pending_id entry = id ∧ pending_ok (gating_epoch g) (gating_sequence g) entry)
                 (gating_pending g);
  gi_audit_bound : (length (gating_audit g) ≤ GATING_AUDIT_MAX_RETAINED)%nat;
  gi_audit : Forall (audit_ok (gating_epoch g) (gating_sequence g)) (gating_audit g);
  gi_audit_ids : NoDup (audit_id <$> gating_audit g);
  gi_resolved : ∀ a p, a ∈ gating_audit g → audit_pending_id a = Some p →
    audit_event_type a ∈ resolution_events → gating_pending g !! p = None;
}.

Lemma pending_ok_mono ep next next' entry : pending_ok ep next entry → next ≤ next' → pending_ok ep next' entry.
Proof. intros [] Hle. split; eauto with meta. Qed.

Lemma audit_ok_mono ep next next' entry : audit_ok ep next entry → next ≤ next' → audit_ok ep next' entry.
Proof. intros [] Hle. split; eauto with meta. Qed.

(** Two states that agree on what the invariant reads. *)
Definition same_gates (g g' : GatingState) : Prop :=
  gating_sequence g' = gating_sequence g ∧ gating_epoch g' = gating_epoch g ∧
  gating_pending_order g' = gating_pending_order g ∧ gating_pending g' = gating_pending g ∧
  gating_audit g' = gating_audit g.

Lemma same_gates_inv g g' : same_gates g g' → gating_inv g → gating_inv g'.
Proof. intros (E1 & E2 & E3 & E4 & E5) []. split; rewrite ?E1, ?E2, ?E3, ?E4, ?E5; done. Qed.

(** The passage of time: the owner and its counter only move forward, and a gate that
    was resolved, or never was, does not come back under an old id. *)
Definition later (g g' : GatingState) : Prop :=
  gating_epoch g' = gating_epoch g ∧ gating_sequence g ≤ gating_sequence g' ∧
  ∀ id, id_known (gating_epoch g) (gating_sequence g) "gate-pending-" id →
    gating_pending g !! id = None → gating_pending g' !! id = None.

#[global] Instance later_preorder : PreOrder later.
Proof.
  split; [by intros g|]. intros g1 g2 g3 (E1 & L1 & P1) (E2 & L2 & P2). split_and!; [congruence|lia|].
  intros id Hk Hn. apply P2; [|by apply P1]. rewrite E1. eauto with meta.
Qed.

Lemma later_sub g g' :
  gating_epoch g' = gating_epoch g → gating_sequence g ≤ gating_sequence g' →
  (∀ id, gating_pending g !! id = None → gating_pending g' !! id = None) → later g g'.
Proof. intros. split_and!; auto. Qed.

(** ** The primitive changes *)

Definition step_sequence (g : GatingState) : GatingState := g <| gating_sequence := gating_sequence g + 1 |>.

Lemma step_sequence_inv g : gating_sequence g < U64_MAX → gating_inv g → gating_inv (step_sequence g).
Proof.
  intros Hlt []. split; simpl; try done.
  - unfold is_u64 in *. lia.
  - eapply map_Forall_impl; [done|]. simpl. intros id entry [? ?]. split; [done|]. eapply pending_ok_mono; eauto with meta.
  - eapply Forall_impl; [done|]. intros a ?. eapply audit_ok_mono; eauto with meta.
Qed.

Lemma ids_available_Ok g k :
  gating_ids_available g k = Ok tt ↔ is_Some (gating_epoch g) ∧ gating_sequence g + k ≤ U64_MAX.
Proof.
  unfold gating_ids_available, u64_checked_add. destruct (gating_epoch g); [|naive_solver].
  destruct (decide (gating_sequence g + k ≤ U64_MAX)); naive_solver.
Qed.

Lemma mint_wp kind s Q :
  (∀ err, gating_ids_available (gating s) 1 = Err err → Q (Err err) s) →
  (∀ e, gating_epoch (gating s) = Some e → gating_sequence (gating s) < U64_MAX →
    Q (Ok (gating_id kind e (gating_sequence (gating s)))) (set_gating (step_sequence (gating s)) s)) →
  wp (mint_gating_id kind) Q s.
Proof.
  intros Herr Hok. unfold mint_gating_id. do 4 wp_step. unfold gating_ids_available in Herr.
  destruct (gating_epoch (gating s)) as [e|] eqn:He; [|by apply Herr]. cbn [ok_or]. cbv zeta. do 2 wp_step.
  unfold u64_checked_add in *. destruct (decide _) as [Hle|]; [|by apply Herr]. cbn [ok_or].
  do 3 wp_step. apply (Hok e); [done|lia].
Qed.

Definition push_audit (a : GatingAuditEntry) (g : GatingState) : GatingState :=
  g <| gating_changes := S (gating_changes g) |>
    <| gating_audit := shrink_front GATING_AUDIT_MAX_RETAINED (gating_audit g ++ [a]) |>.

Lemma push_audit_inv a g :
  gating_inv g → audit_ok (gating_epoch g) (gating_sequence g) a → audit_id a ∉ audit_id <$> gating_audit g →
  (∀ p, audit_pending_id a = Some p → audit_event_type a ∈ resolution_events → gating_pending g !! p = None) →
  gating_inv (push_audit a g).
Proof.
  intros [] Ha Hfresh Hres. split; cbn [push_audit update_field upd_gating_changes upd_gating_audit gating_audit
    gating_sequence gating_epoch gating_pending gating_pending_order]; try done.
  - auto with meta.
  - rewrite shrink_front_drop. apply Forall_drop, Forall_app. split; [done|by apply Forall_singleton].
  - rewrite shrink_front_drop, fmap_drop. eapply sublist_NoDup; [|apply sublist_drop].
    rewrite fmap_app. simpl. apply NoDup_app. split_and!; [done| |apply NoDup_singleton].
    intros x Hx ->%list_elem_of_singleton. done.
  - intros b p [Hb| ->%list_elem_of_singleton]%elem_of_shrink_front%elem_of_app; [by eapply gi_resolved0|apply Hres].
Qed.

(** What an appended entry becomes. *)
Definition stamped (entry : GatingAuditEntry) (e : string) (n t : Z) : GatingAuditEntry :=
  entry <| audit_id := gating_id "audit" e n |> <| audit_timestamp_ms := t |>.

Lemma append_wp entry s Q :
  gating_inv (gating s) →
  id_known (gating_epoch (gating s)) (gating_sequence (gating s)) "gate-action-" (audit_action_id entry) →
  (∀ p, audit_pending_id entry = Some p →
    id_known (gating_epoch (gating s)) (gating_sequence (gating s)) "gate-pending-" p) →
  detail_origin_ok (audit_detail entry) = true →
  (∀ p, audit_pending_id entry = Some p → audit_event_type entry ∈ resolution_events →
    gating_pending (gating s) !! p = None) →
  (∀ err, gating_ids_available (gating s) 1 = Err err → Q (Err err) s) →
  (∀ e t s', gating_epoch (gating s) = Some e → gating_sequence (gating s) < U64_MAX →
    gating s' = push_audit (stamped entry e (gating_sequence (gating s)) t) (step_sequence (gating s)) →
    gating_inv (gating s') → s' = set_gating (gating s') (tick s) →
    Q (Ok tt) s') →
  wp (append_gating_audit entry) Q s.
Proof.
  intros Hinv Hact Hpend Horig Hres Herr Hok. unfold append_gating_audit. wp_step. apply mint_wp; [done|].
  intros e He Hlt. wp_step. pose proof (gi_epoch _ Hinv _ He) as Hv. pose proof (gi_sequence _ Hinv) as Hseq.
  eapply (Hok e (clock (world_step s))); try done.
  change (gating (record_gating_audit (gating_id "audit" e (gating_sequence (gating s))) entry
    (set_gating (step_sequence (gating s)) s)))
    with (push_audit (stamped entry e (gating_sequence (gating s)) (clock (world_step s))) (step_sequence (gating s))).
  apply push_audit_inv; [by apply step_sequence_inv| | |].
  - cbn [step_sequence update_field upd_gating_sequence gating_epoch gating_sequence]. rewrite He in *.
    split; simpl; [apply (minted_known "audit"); done| | |done].
    + eauto with meta.
    + intros p Hp. eauto with meta.
  - simpl. intros (a & E & Ha)%list_elem_of_fmap. pose proof (gi_audit _ Hinv) as Hall.
    rewrite Forall_forall in Hall. apply Hall in Ha as [Hid _ _ _]. rewrite He in Hid.
    symmetry in E. revert E. by apply (minted_fresh "audit").
  - intros p Hp Hev. by apply Hres.
Qed.

Definition drop_pending (id : string) (g : GatingState) : GatingState :=
  g <| gating_pending := delete id (gating_pending g) |>
    <| gating_pending_order := filter (λ candidate, candidate ≠ id) (gating_pending_order g) |>.

Lemma drop_pending_inv id g : gating_inv g → gating_inv (drop_pending id g).
Proof.
  intros []. split; simpl; try done.
  - by apply NoDup_filter.
  - intros i. rewrite list_elem_of_filter, gi_dom0. destruct (decide (i = id)) as [->|Hne].
    + rewrite lookup_delete_eq. split; [by intros []|by intros [? ?]].
    + rewrite lookup_delete_ne by done. naive_solver.
  - etrans; [apply length_filter|done].
  - by apply map_Forall_delete.
  - intros a p Ha Hp Hev. apply lookup_delete_None. right. by eapply gi_resolved0.
Qed.

Lemma upsert_None entry g id :
  gating_pending g !! id = None → id ≠ pending_id entry →
  gating_pending (upsert_gating_pending_entry entry g) !! id = None.
Proof.
  intros Hn Hne. unfold upsert_gating_pending_entry.
  set (m := <[_ := _]> _). set (order := _ ++ _). pose proof (evict_oldest_sub GATING_PENDING_MAX_RETAINED order m) as Hsub.
  destruct (evict_oldest _ order m) as [o m']. simpl in *. eapply lookup_weaken_None; [|exact Hsub].
  unfold m. by rewrite lookup_insert_ne.
Qed.

Lemma upsert_inv entry g :
  gating_inv g → pending_ok (gating_epoch g) (gating_sequence g) entry →
  gating_pending g !! pending_id entry = None →
  (∀ a, a ∈ gating_audit g → audit_pending_id a = Some (pending_id entry) → audit_event_type a ∉ resolution_events) →
  gating_inv (upsert_gating_pending_entry entry g) ∧
  gating_pending (upsert_gating_pending_entry entry g) !! pending_id entry = Some entry ∧
  same_gates (upsert_gating_pending_entry entry g)
    (g <| gating_pending := gating_pending (upsert_gating_pending_entry entry g) |>
       <| gating_pending_order := gating_pending_order (upsert_gating_pending_entry entry g) |>).
Proof.
  intros Hinv Hok Hnone Hres. pose proof Hinv as [].
  set (id := pending_id entry) in *.
  assert (Hid : id ∉ gating_pending_order g) by (rewrite gi_dom0, Hnone; by intros [? ?]).
  assert (Hfilter : filter (λ candidate, candidate ≠ id) (gating_pending_order g) = gating_pending_order g) by by apply filter_ne_id.
  set (order := gating_pending_order g ++ [id]). set (m := <[id := entry]> (gating_pending g)).
  assert (Hup : upsert_gating_pending_entry entry g =
    g <| gating_pending := (evict_oldest GATING_PENDING_MAX_RETAINED order m).2 |>
      <| gating_pending_order := shrink_front GATING_PENDING_MAX_RETAINED order |>).
  { unfold upsert_gating_pending_entry. fold id. rewrite Hfilter. fold order m.
    rewrite <- (evict_oldest_order _ order m). by destruct (evict_oldest _ order m). }
  assert (Hnd : NoDup order).
  { apply NoDup_app. split_and!; [done| |apply NoDup_singleton]. intros x Hx ->%list_elem_of_singleton. done. }
  rewrite Hup. split; [|split; [|done]].
  - split; simpl; try done.
    + rewrite shrink_front_drop. eapply sublist_NoDup; [done|apply sublist_drop].
    + intros i. rewrite evict_oldest_lookup, shrink_front_drop.
      set (k := (length order - GATING_PENDING_MAX_RETAINED)%nat).
      assert (Hi : i ∈ order ↔ is_Some (m !! i)).
      { unfold order, m. rewrite elem_of_app, list_elem_of_singleton, gi_dom0, lookup_insert_is_Some'. naive_solver. }
      rewrite <- (take_drop k order) in Hnd, Hi. apply NoDup_app in Hnd as (_ & Hdis & _). rewrite elem_of_app in Hi.
      case_decide as Ht; [|naive_solver]. split; [intros Hd; destruct (Hdis i Ht Hd)|by intros [? ?]].
    + auto with meta.
    + eapply map_Forall_mono; [apply evict_oldest_sub|]. by apply map_Forall_insert_2.
    + intros a p Ha Hp Hev. eapply lookup_weaken_None; [|apply evict_oldest_sub].
      apply lookup_insert_None. split; [by eapply gi_resolved0|]. intros <-. by eapply Hres.
  - simpl. rewrite evict_oldest_lookup, decide_False; [by apply lookup_insert_eq|]. intros Hin. apply Hid.
    unfold order in Hin. rewrite take_app_le in Hin; [eapply elem_of_sublist; [exact Hin|apply sublist_take]|].
    rewrite length_app. simpl. unfold GATING_PENDING_MAX_RETAINED in *. lia.
Qed.
End invariant.

(** ** Expiry *)

Section expiry.
Context `{GatingCodec}.

Lemma detail_origin_opt v o :
  value_get "origin" v = Some (opt_value origin_value o) →
  (∀ x, o = Some x → valid_gating_origin x = true) → detail_origin_ok v = true.
Proof.
  intros Hv Ho. unfold detail_origin_ok. rewrite Hv. destruct o as [x|]; [|done]. simpl.
  rewrite origin_roundtrip. simpl. by apply Ho.
Qed.

Definition timeout_notice (id : string) (entry : GatingPendingEntry) : GatingResolutionNotice :=
  mkNotice id (pending_action_id entry) false None "timeout_fallback".

Definition timeout_audit (id : string) (entry : GatingPendingEntry) : GatingAuditEntry :=
  audit_entry "timeout_fallback" (pending_action_id entry) (Some id) (pending_actor_id entry)
    (pending_risk_tier entry) SafeDraft
    (obj [("fallback", str "safe_draft"); ("reason", str "approval_timeout");
          ("origin", opt_value origin_value (pending_origin entry))]).

Lemma mint_cases kind s :
  (∃ err, mint_gating_id kind s = (Err err, s) ∧ gating_ids_available (gating s) 1 = Err err) ∨
  (∃ e, gating_epoch (gating s) = Some e ∧ gating_sequence (gating s) < U64_MAX ∧
     mint_gating_id kind s = (Ok (gating_id kind e (gating_sequence (gating s))), set_gating (step_sequence (gating s)) s)).
Proof.
  pose proof (mint_wp kind s (λ r s', mint_gating_id kind s = (r, s') →
    (∃ err, mint_gating_id kind s = (Err err, s) ∧ gating_ids_available (gating s) 1 = Err err) ∨
    (∃ e, gating_epoch (gating s) = Some e ∧ gating_sequence (gating s) < U64_MAX ∧
     mint_gating_id kind s = (Ok (gating_id kind e (gating_sequence (gating s))), set_gating (step_sequence (gating s)) s)))) as Hw.
  apply Hw; [eauto..|]. apply surjective_pairing.
Qed.

(** The gates after one expiry. *)
Definition expired_gate (id e : string) (t : Z) (entry : GatingPendingEntry) (g : GatingState) : GatingState :=
  let g1 := push_audit (stamped (timeout_audit id entry) e (gating_sequence g) t) (drop_pending id (step_sequence g)) in
  g1 <| gating_notice_queue := gating_notice_queue g1 ++ [timeout_notice id entry] |>.

Lemma expired_gate_inv id e t entry g :
  gating_inv g → gating_epoch g = Some e → gating_sequence g < U64_MAX → gating_pending g !! id = Some entry →
  gating_inv (expired_gate id e t entry g).
Proof.
  intros Hinv He Hlt Hid. pose proof (gi_epoch _ Hinv _ He) as Hv. pose proof (gi_sequence _ Hinv) as Hseq.
  destruct (gi_pending _ Hinv _ _ Hid) as [Hpid [Hp1 Hp2 Hp3 Hp4 Hp5]]. rewrite Hpid in Hp1. rewrite He in Hp1, Hp2.
  eapply (same_gates_inv (push_audit (stamped (timeout_audit id entry) e (gating_sequence g) t) (drop_pending id (step_sequence g)))); [done|].
  apply push_audit_inv; [by apply drop_pending_inv, step_sequence_inv| | |].
  - cbn [drop_pending step_sequence update_field upd_gating_sequence upd_gating_pending upd_gating_pending_order
      gating_epoch gating_sequence]. rewrite He. split; simpl.
    + by apply (minted_known "audit").
    + eauto with meta.
    + intros p [= <-]. eauto with meta.
    + by apply (detail_origin_opt _ (pending_origin entry)).
  - simpl. intros (a & E & Ha)%list_elem_of_fmap. pose proof (gi_audit _ Hinv) as Hall.
    rewrite Forall_forall in Hall. apply Hall in Ha as [Haid _ _ _]. rewrite He in Haid.
    symmetry in E. revert E. by apply (minted_fresh "audit").
  - simpl. intros p [= <-] _. by apply lookup_delete_eq.
Qed.

Record expiry (l : list string) (k : nat) (s s' : MetaRuntimeHandle) : Prop := {
  ex_inv : gating_inv (gating s');
  ex_frame : s' = set_gating (gating s') (s <| world_step := world_step s' |>);
  ex_prefix : (k ≤ length l)%nat;
  ex_stop : (k < length l)%nat → ∃ err, gating_ids_available (gating s') 1 = Err err;
  ex_pending : ∀ id, gating_pending (gating s') !! id =
    if decide (id ∈ take k l) then None else gating_pending (gating s) !! id;
  ex_notices : gating_notice_queue (gating s') = gating_notice_queue (gating s) ++
    omap (λ id, timeout_notice id <$> gating_pending (gating s) !! id) (take k l);
  ex_audit : ∃ news, gating_audit (gating s') = shrink_front GATING_AUDIT_MAX_RETAINED (gating_audit (gating s) ++ news) ∧
    Forall2 (λ id a, audit_pending_id a = Some id ∧ audit_event_type a = "timeout_fallback" ∧ audit_outcome a = SafeDraft)
      (take k l) news;
  ex_epoch : gating_epoch (gating s') = gating_epoch (gating s);
  ex_sequence : gating_sequence (gating s') = gating_sequence (gating s) + Z.of_nat k;
  ex_routes : gating_escalation_routes (gating s') = gating_escalation_routes (gating s);
  ex_observers : gating_resolution_observers (gating s') = gating_resolution_observers (gating s);
  ex_delivered : gating_delivered (gating s') = gating_delivered (gating s);
}.

Lemma expiry_none l s : gating_inv (gating s) → ((0 < length l)%nat → ∃ err, gating_ids_available (gating s) 1 = Err err) →
  expiry l 0 s s.
Proof.
  intros Hinv Hstop. split; rewrite ?take_0; try done; try lia.
  - by destruct s.
  - by rewrite app_nil_r.
  - exists []. rewrite app_nil_r. split; [|constructor]. symmetry. apply shrink_front_id, Hinv.
Qed.

Lemma expire_all_spec l s :
  gating_inv (gating s) → NoDup l → (∀ id, id ∈ l → is_Some (gating_pending (gating s) !! id)) →
  ∃ k, expiry l k s (expire_all l s).
Proof.
  revert s. induction l as [|id l IH]; intros s Hinv Hnd Hall.
  { exists 0%nat. apply expiry_none; [done|]. simpl. lia. }
  apply NoDup_cons in Hnd as [Hid Hnd]. cbn [expire_all].
  destruct (mint_cases "audit" s) as [(err & -> & Herr)|(e & He & Hlt & ->)].
  { exists 0%nat. apply expiry_none; eauto. }
  destruct (Hall id) as [entry Hentry]; [by left|].
  set (s1 := expire_entry _ id _).
  assert (Hs1 : s1 = set_gating (expired_gate id e (clock (world_step s)) entry (gating s)) (tick s)).
  { unfold s1, expire_entry. cbn [set_gating update_field upd_gating gating step_sequence upd_gating_sequence gating_pending].
    rewrite Hentry. done. }
  destruct (IH s1) as [k Hk].
  - rewrite Hs1. by apply expired_gate_inv.
  - done.
  - intros i Hi. rewrite Hs1. simpl. rewrite lookup_delete_ne by (intros ->; done). apply Hall. by right.
  - exists (S k). destruct Hk as [K1 K2 K3 K4 K5 K6 (news & K7 & K8) K9 K10 K11 K12 K13]. rewrite Hs1 in *.
    cbn [take length]. split; try done.
    + simpl. lia.
    + simpl. intros Hl. apply K4. lia.
    + intros i. rewrite K5. cbn [take]. simpl gating_pending. destruct (decide (i = id)) as [->|Hne].
      * rewrite lookup_delete_eq, (decide_True (P := id ∈ id :: _)) by (by left). by case_decide.
      * rewrite lookup_delete_ne by done. apply decide_ext. rewrite elem_of_cons. naive_solver.
    + rewrite K6. simpl. rewrite Hentry. simpl. rewrite <- app_assoc. f_equal. simpl. f_equal.
      apply list_omap_ext. apply Forall2_same_length_lookup_2; [done|]. intros i x y Hx Hy. simplify_eq.
      rewrite lookup_delete_ne; [done|]. intros ->. apply Hid. eapply elem_of_sublist; [|apply (sublist_take _ k)].
      by eapply list_elem_of_lookup_2.
    + exists (stamped (timeout_audit id entry) e (gating_sequence (gating s)) (clock (world_step s)) :: news).
      split; [|by constructor]. rewrite K7. simpl gating_audit. rewrite shrink_front_app, <- app_assoc. done.
    + simpl in K10. rewrite K10. lia.
Qed.
End expiry.

Section refresh.
Context `{GatingCodec}.

Lemma elem_of_expired_ids now g id :
  id ∈ expired_ids now g ↔ ∃ entry, gating_pending g !! id = Some entry ∧ deadline_at_ms entry ≤ now.
Proof.
  unfold expired_ids. rewrite list_elem_of_fmap. split.
  - intros ([k e] & -> & Hk). apply list_elem_of_In, filter_In in Hk as [Hk Hd].
    apply list_elem_of_In, elem_of_btree_entries in Hk. apply Z.leb_le in Hd. eauto.
  - intros (e & He & Hd). exists (id, e). split; [done|]. apply list_elem_of_In, filter_In.
    split; [by apply list_elem_of_In, elem_of_btree_entries|by apply Z.leb_le].
Qed.

Lemma NoDup_expired_ids now g : NoDup (expired_ids now g).
Proof.
  unfold expired_ids. pose proof (NoDup_btree_keys (gating_pending g)) as Hnd. unfold btree_keys in Hnd.
  induction (btree_entries (gating_pending g)) as [|[k e] l IH]; [constructor|]. simpl in *.
  apply NoDup_cons in Hnd as [Hk Hnd]. destruct (deadline_at_ms e <=? now); [|by apply IH]. simpl.
  apply NoDup_cons. split; [|by apply IH]. intros ([k' e'] & -> & Hin)%list_elem_of_fmap.
  apply Hk. apply list_elem_of_In, filter_In in Hin as [Hin _]. apply list_elem_of_fmap.
  exists (k', e'). split; [done|]. by apply list_elem_of_In.
Qed.

Lemma refresh_at_spec now s :
  gating_inv (gating s) →
  ∃ k, expiry (expired_ids now (gating s)) k s (refresh_gating_timeouts_at now s).
Proof.
  intros Hinv. apply expire_all_spec; [done|apply NoDup_expired_ids|].
  intros id (e & He & _)%elem_of_expired_ids. eauto.
Qed.

Lemma expiry_tick l k s s' : expiry l k (tick s) s' → expiry l k s s'.
Proof. by intros []. Qed.

Lemma refresh_spec s :
  gating_inv (gating s) →
  ∃ k, expiry (expired_ids (clock (world_step s)) (gating s)) k s (refresh_gating_timeouts s).
Proof. intros Hinv. destruct (refresh_at_spec (clock (world_step s)) (tick s) Hinv) as [k Hk]. eauto using expiry_tick. Qed.

(** Room for [k] more identities. *)
Definition room (g : GatingState) (k : Z) : Prop := gating_ids_available g k = Ok tt.

Lemma room_le g k k' : room g k → k' ≤ k → room g k'.
Proof. unfold room. rewrite !ids_available_Ok. intros [? ?] Hle. split; [done|lia]. Qed.

#[local] Hint Resolve room_le : meta.

Lemma room_same g g' k : gating_epoch g' = gating_epoch g → gating_sequence g' = gating_sequence g → room g k → room g' k.
Proof. unfold room. rewrite !ids_available_Ok. by intros -> ->. Qed.

Lemma room_step g k : room g (k + 1) → room (step_sequence g) k.
Proof. unfold room. rewrite !ids_available_Ok. simpl. intros [? ?]. split; [done|lia]. Qed.

(** With room for one identity left after it, a refresh was complete. *)
Lemma expiry_complete now k s s' :
  expiry (expired_ids now (gating s)) k s s' → room (gating s') 1 →
  ∀ id, gating_pending (gating s') !! id =
    if decide (id ∈ expired_ids now (gating s)) then None else gating_pending (gating s) !! id.
Proof.
  intros Hex Hroom id. assert (k = length (expired_ids now (gating s))) as ->.
  { destruct (decide (k < length (expired_ids now (gating s)))%nat) as [Hlt|Hge].
    - destruct (ex_stop _ _ _ _ Hex Hlt) as [err E]. unfold room in Hroom. congruence.
    - pose proof (ex_prefix _ _ _ _ Hex). lia. }
  rewrite (ex_pending _ _ _ _ Hex), take_ge by lia. done.
Qed.

Lemma expiry_live now k s s' id entry :
  expiry (expired_ids now (gating s)) k s s' → room (gating s') 1 →
  gating_pending (gating s') !! id = Some entry →
  gating_pending (gating s) !! id = Some entry ∧ now < deadline_at_ms entry.
Proof.
  intros Hex Hroom. rewrite (expiry_complete _ _ _ _ Hex Hroom). case_decide as Hin; [done|]. intros Hid.
  split; [done|]. apply Z.nle_gt. intros Hle. apply Hin, elem_of_expired_ids. eauto.
Qed.

Lemma mint_room_wp kind s Q :
  room (gating s) 1 →
  (∀ e, gating_epoch (gating s) = Some e →
    Q (Ok (gating_id kind e (gating_sequence (gating s)))) (set_gating (step_sequence (gating s)) s)) →
  wp (mint_gating_id kind) Q s.
Proof. intros Hroom Hok. apply mint_wp; [unfold room in Hroom; congruence|auto]. Qed.

Lemma append_room_wp entry s Q :
  room (gating s) 1 → gating_inv (gating s) →
  id_known (gating_epoch (gating s)) (gating_sequence (gating s)) "gate-action-" (audit_action_id entry) →
  (∀ p, audit_pending_id entry = Some p →
    id_known (gating_epoch (gating s)) (gating_sequence (gating s)) "gate-pending-" p) →
  detail_origin_ok (audit_detail entry) = true →
  (∀ p, audit_pending_id entry = Some p → audit_event_type entry ∈ resolution_events →
    gating_pending (gating s) !! p = None) →
  (∀ e t s', gating_epoch (gating s) = Some e →
    gating s' = push_audit (stamped entry e (gating_sequence (gating s)) t) (step_sequence (gating s)) →
    gating_inv (gating s') → s' = set_gating (gating s') (tick s) →
    Q (Ok tt) s') →
  wp (append_gating_audit entry) Q s.
Proof.
  intros Hroom Hinv H1 H2 H3 H4 Hok. apply append_wp; try done; [unfold room in Hroom; congruence|eauto].
Qed.

Lemma flush_same s : same_gates (gating s) (gating (flush_gating_notices s)).
Proof. done. Qed.
End refresh.

#[export] Hint Resolve room_le : meta.

(** ** Evaluation *)

Section evaluation.
Context `{GatingCodec}.

Definition ev_ok (g : GatingState) (ev : Evaluation) : Prop :=
  id_known (gating_epoch g) (gating_sequence g) "gate-action-" (ev_action_id ev) ∧
  ∀ o, ev_origin ev = Some o → valid_gating_origin o = true.

Lemma ev_ok_later g g' ev :
  gating_epoch g' = gating_epoch g → gating_sequence g ≤ gating_sequence g' → ev_ok g ev → ev_ok g' ev.
Proof. intros He Hle [Ha Ho]. split; [|done]. rewrite He. eauto with meta. Qed.

(** An audit entry of the evaluation that does not resolve a gate. *)
Lemma append_evaluation_wp ev event pend outcome detail s Q :
  room (gating s) 1 → gating_inv (gating s) → ev_ok (gating s) ev →
  (∀ p, pend = Some p → id_known (gating_epoch (gating s)) (gating_sequence (gating s)) "gate-pending-" p) →
  value_get "origin" detail = Some (ev_origin_value ev) → event ∉ resolution_events →
  (∀ e t s', gating_epoch (gating s) = Some e →
    gating s' = push_audit (stamped (evaluation_audit ev event pend outcome detail) e (gating_sequence (gating s)) t)
                  (step_sequence (gating s)) →
    gating_inv (gating s') → later (gating s) (gating s') → Q (Ok tt) s') →
  wp (append_gating_audit (evaluation_audit ev event pend outcome detail)) Q s.
Proof.
  intros Hroom Hinv [Ha Ho] Hp Hd Hev Hok.
  apply append_room_wp; try done; [by apply (detail_origin_opt _ (ev_origin ev))|].
  intros e t s' He Hg Hinv' _. apply (Hok e t); try done. rewrite Hg. apply later_sub; simpl; [done|lia|done].
Qed.

Ltac not_resolution := apply (bool_decide_unpack _); vm_compute; exact I.

Lemma conflict_lookup_frame entity topic s :
  wp (gating_memory_conflict_for_reference entity topic) (λ r s',
    gating s' = gating s ∧ memory s' = memory s ∧ supervisor s' = supervisor s ∧
    (is_module_loaded s "memory" = false → r = Ok (memory_conflict_for_reference s entity topic))) s.
Proof.
  unfold gating_memory_conflict_for_reference. do 2 wp_step. destruct (is_module_loaded s "memory").
  - do 4 wp_step. destruct (mcp_module _ _ s) as [m|]; [|done]. wp_step. apply wp_call_tool.
    destruct (call_module_mcp_tool_json _ _ _ _ _ _); [|done]. wp_step. done.
  - wp_step. done.
Qed.

(** Why the runtime's own ledger of conflicts blocks a reference, if it does. *)
Definition local_conflict (s : MetaRuntimeHandle) (entity topic : option string) : option string :=
  if negb (size (memory_conflicts (memory s)) =? 0)%nat && (is_none entity || is_none topic)
  then Some "memory_conflict_context_missing"
  else (λ _, "memory_conflict") <$> memory_conflict_for_reference s entity topic.

Lemma conflict_guard_wp ev s Q :
  room (gating s) 1 → gating_inv (gating s) → ev_ok (gating s) ev →
  (∀ why s', gating_inv (gating s') → later (gating s) (gating s') → gating_pending (gating s') = gating_pending (gating s) →
    (is_module_loaded s "memory" = false → local_conflict s (ev_entity ev) (ev_topic ev) = Some why) →
    Q (Ok (Some (evaluate_result ev SafeDraft None (Some why)))) s') →
  (∀ s', gating s' = gating s →
    (is_module_loaded s "memory" = false → local_conflict s (ev_entity ev) (ev_topic ev) = None) →
    Q (Ok None) s') →
  wp (conflict_guard ev) Q s.
Proof.
  intros Hroom Hinv Hev Hblock Hpass. unfold conflict_guard, local_conflict in *. do 2 wp_step.
  destruct (negb _ && _) eqn:Hctx.
  - wp_step. apply append_evaluation_wp; try done; [not_resolution|].
    intros e t s' _ Hg Hinv' Hl. wp_step. apply Hblock; [done|done| |done]. by rewrite Hg.
  - do 2 wp_step. eapply wp_mono; [apply conflict_lookup_frame|]. intros r s1 (E1 & E2 & E3 & Hlocal).
    destruct r as [[conflict|]|error].
    + wp_step. apply append_evaluation_wp; rewrite ?E1; try done; [not_resolution|].
      intros e t s' _ Hg Hinv' Hl. wp_step. apply Hblock; [done|done|by rewrite Hg|].
      intros [= <-]%Hlocal. done.
    + wp_step. apply Hpass; [done|]. by intros [= <-]%Hlocal.
    + wp_step. apply append_evaluation_wp; rewrite ?E1; try done; [not_resolution|].
      intros e t s' _ Hg Hinv' Hl. wp_step. apply Hblock; [done|done|by rewrite Hg|]. by intros ?%Hlocal.
Qed.

Lemma allow_with_wp ev policy outcome s Q :
  room (gating s) 1 → gating_inv (gating s) → ev_ok (gating s) ev →
  (∀ s', gating_inv (gating s') → later (gating s) (gating s') → gating_pending (gating s') = gating_pending (gating s) →
    Q (Ok (evaluate_result ev outcome None None)) s') →
  wp (allow_with ev policy outcome) Q s.
Proof.
  intros Hroom Hinv Hev Hok. unfold allow_with. wp_step. apply append_evaluation_wp; try done; [not_resolution|].
  intros e t s' _ Hg Hinv' Hl. wp_step. apply Hok; [done|done|]. by rewrite Hg.
Qed.

Lemma resolve_notification_frame recipient channel s :
  wp (resolve_notification recipient channel) (λ r s', gating s' = gating s ∧ ∃ n, r = Ok n) s.
Proof.
  unfold resolve_notification. destruct recipient as [rc|]; [destruct channel as [ch|]|]; [|wp_step; by eauto..].
  do 4 wp_step. destruct (_ && _); [|wp_step; eauto]. do 2 wp_step.
  eapply wp_mono; [apply resolve_routing_frame|]. intros r s' (_ & Hg & _). destruct r; wp_step; eauto.
Qed.

(** Recording the delivery id of the approval request keeps the gates. *)
Lemma acknowledge_inv disposition entry delivered s :
  gating_inv (gating s) →
  let s' := acknowledge_delivery disposition entry delivered s in
  gating_inv (gating s') ∧ later (gating s) (gating s') ∧ gating_sequence (gating s') = gating_sequence (gating s) ∧
  ∀ id e, gating_pending (gating s) !! id = Some e →
    gating_pending (gating s') !! id = Some e ∨ gating_pending (gating s') !! id = Some (e <| approval_delivery_id := delivered |>).
Proof.
  intros Hinv. unfold acknowledge_delivery. destruct (gating_pending (gating s) !! pending_id entry) as [held|] eqn:Hh; [|by split_and!; auto].
  destruct (_ && _); [|by split_and!; auto]. cbn [set_gating update_field upd_gating gating gating_epoch gating_sequence].
  split_and!; [|apply later_sub; simpl; [done|lia|]|done|].
  - pose proof Hinv as []. destruct (gi_pending0 _ _ Hh) as [Hid [? ? ? ? ?]].
    split; simpl; try done.
    + intros i. rewrite lookup_insert_is_Some', gi_dom0. split; [eauto|]. intros [<-|?]; [|done]. rewrite Hh. eauto.
    + apply map_Forall_insert_2; [|done]. split; [done|]. by split.
    + intros a p Ha Hp Hev. pose proof (gi_resolved0 a p Ha Hp Hev) as Hn. apply lookup_insert_None. split; [done|].
      intros <-. congruence.
  - intros id Hid. apply lookup_insert_None. split; [done|]. intros <-. congruence.
  - simpl. intros id e He. destruct (decide (id = pending_id entry)) as [->|Hne].
    + rewrite lookup_insert_eq. right. congruence.
    + rewrite lookup_insert_ne by done. auto.
Qed.

(** The entry a gate holds, up to the delivery id of its approval request. *)
Definition gate_held (g : GatingState) (entry : GatingPendingEntry) : Prop :=
  ∃ delivered, gating_pending g !! pending_id entry = Some (entry <| approval_delivery_id := delivered |>).

Lemma gate_held_now g entry :
  approval_delivery_id entry = None → gating_pending g !! pending_id entry = Some entry → gate_held g entry.
Proof. intros Hd Hp. exists None. rewrite Hp. destruct entry; simpl in *. by subst. Qed.

Lemma publish_wp ev entry resolution error s Q :
  room (gating s) 1 → gating_inv (gating s) → ev_ok (gating s) ev → pending_origin entry = ev_origin ev →
  gating_pending (gating s) !! pending_id entry = Some entry → approval_delivery_id entry = None →
  (∀ s', gating_inv (gating s') → later (gating s) (gating s') → gate_held (gating s') entry → Q (Ok tt) s') →
  wp (publish_approval ev entry resolution error) Q s.
Proof.
  intros Hroom Hinv Hev Ho Hheld Hd Hok. unfold publish_approval.
  destruct (gi_pending _ Hinv _ _ Hheld) as [_ [Hknown _ _ _ _]].
  destruct resolution as [resolution|].
  - do 2 wp_step. eapply wp_mono; [apply send_delivery_frame|]. intros sent s1 (_ & E1 & _). cbv zeta.
    destruct (notification_outcome sent) as [delivered err]. do 2 wp_step.
    rewrite <- E1 in Hinv, Hheld, Hroom, Hev, Hknown, Hok.
    destruct (acknowledge_inv (approval_notification_disposition sent) entry delivered s1 Hinv) as (Hinv2 & Hlater & F2 & F3).
    pose proof Hlater as (F1 & _).
    set (s2 := acknowledge_delivery _ _ _ s1) in *.
    apply append_evaluation_wp; try done.
    + by eapply room_same.
    + eapply ev_ok_later; [exact F1|lia|done].
    + intros p [= <-]. by rewrite F1, F2.
    + by rewrite Ho.
    + not_resolution.
    + intros e t s' _ Hg Hinv' Hl. apply Hok; [done|by etrans|]. unfold gate_held. rewrite Hg. simpl.
      destruct (F3 _ _ Hheld) as [F|F]; [by apply gate_held_now|eauto].
  - destruct error as [error|].
    + apply append_evaluation_wp; try done; [by intros p [= <-]|by rewrite Ho|not_resolution|].
      intros e t s' _ Hg Hinv' Hl. apply Hok; [done|done|]. apply gate_held_now; [done|]. by rewrite Hg.
    + wp_step. apply Hok; [done|done|]. by apply gate_held_now.
Qed.

(** A freshly minted gate is nowhere in the state. *)
Lemma fresh_gate g e :
  gating_inv g → gating_epoch g = Some e →
  gating_pending g !! gating_id "pending" e (gating_sequence g) = None ∧
  ∀ a, a ∈ gating_audit g → audit_pending_id a ≠ Some (gating_id "pending" e (gating_sequence g)).
Proof.
  intros Hinv He. pose proof (gi_epoch _ Hinv _ He) as Hv. pose proof (gi_sequence _ Hinv) as Hseq. split.
  - apply eq_None_not_Some. intros [entry Hentry].
    destruct (gi_pending _ Hinv _ _ Hentry) as [Hid [Hk _ _ _ _]]. rewrite He in Hk.
    revert Hid. by apply (minted_fresh "pending").
  - intros a Ha Hp. pose proof (gi_audit _ Hinv) as Hall. rewrite Forall_forall in Hall.
    apply Hall in Ha as [_ _ Hk _]. specialize (Hk _ Hp). rewrite He in Hk.
    by eapply (minted_fresh "pending").
Qed.

Lemma open_gate_inv g e entry :
  gating_inv g → gating_epoch g = Some e → gating_sequence g < U64_MAX →
  pending_id entry = gating_id "pending" e (gating_sequence g) →
  id_known (Some e) (gating_sequence g) "gate-action-" (pending_action_id entry) →
  pending_risk_tier entry = R3 → created_at_ms entry ≤ deadline_at_ms entry →
  (∀ o, pending_origin entry = Some o → valid_gating_origin o = true) →
  let g' := upsert_gating_pending_entry entry (step_sequence g) in
  gating_inv g' ∧ gating_pending g' !! pending_id entry = Some entry ∧
  gating_epoch g' = Some e ∧ gating_sequence g' = gating_sequence g + 1 ∧ later g g'.
Proof.
  intros Hinv He Hlt Hid Ha Ht Hd Ho g'. pose proof (gi_epoch _ Hinv _ He) as Hv. pose proof (gi_sequence _ Hinv) as Hseq.
  destruct (fresh_gate g e Hinv He) as [F1 F2]. rewrite <- Hid in F1, F2.
  destruct (upsert_inv entry (step_sequence g)) as (U1 & U2 & U3 & U4 & _).
  - by apply step_sequence_inv.
  - simpl. rewrite He. split; try done.
    + rewrite Hid. by apply (minted_known "pending").
    + eauto with meta.
  - done.
  - intros a Hin Hp. by destruct (F2 a Hin).
  - assert (E1 : gating_epoch g' = Some e) by by etrans; [symmetry; exact U4|].
    assert (E2 : gating_sequence g' = gating_sequence g + 1) by by etrans; [symmetry; exact U3|].
    split_and!; try done. split_and!; [congruence|lia|]. intros id Hk Hn. apply upsert_None; [done|].
    intros ->. rewrite He, Hid in Hk. by eapply (minted_fresh "pending").
Qed.

(** The deadline of a new gate is after its creation and within the clamp. *)
Definition approval_deadline (created : Z) (timeout : option Z) : Z :=
  u64_saturating_add created
    (u64_clamp GATING_APPROVAL_TIMEOUT_MIN_MS GATING_APPROVAL_TIMEOUT_MAX_MS
       (unwrap_or timeout GATING_APPROVAL_TIMEOUT_DEFAULT_MS)).

Lemma approval_deadline_after created timeout : is_u64 created → created ≤ approval_deadline created timeout.
Proof.
  intros Hc. unfold approval_deadline, u64_saturating_add, u64_clamp, is_u64 in *.
  unfold GATING_APPROVAL_TIMEOUT_MIN_MS, GATING_APPROVAL_TIMEOUT_MAX_MS. repeat case_match; lia.
Qed.

(** The entry a request of the highest tier leaves. *)
Definition gate_of (request : GatingEvaluateRequest) (origin : option GatingOrigin) (res : GatingEvaluateResult)
    (entry : GatingPendingEntry) : Prop :=
  eval_pending_id res = Some (pending_id entry) ∧ pending_action_id entry = eval_action_id res ∧
  pending_action entry = trim (request_action request) ∧ pending_actor_id entry = trim (request_actor_id request) ∧
  requested_approver entry = trimmed_non_empty (request_requested_approver request) ∧
  pending_origin entry = normalize_origin <$> origin ∧
  ∃ n, created_at_ms entry = clock n ∧ deadline_at_ms entry = approval_deadline (clock n) (request_approval_timeout_ms request).

Lemma await_wp ev origin s Q :
  room (gating s) 3 → gating_inv (gating s) → ev_ok (gating s) ev → ev_tier ev = R3 →
  ev_origin ev = normalize_origin <$> origin → ev_action ev = trim (request_action (ev_request ev)) →
  ev_actor ev = trim (request_actor_id (ev_request ev)) →
  (∀ s' entry, gating_inv (gating s') → later (gating s) (gating s') → gate_held (gating s') entry →
    gating_pending (gating s) !! pending_id entry = None →
    gate_of (ev_request ev) origin (evaluate_result ev PendingApproval (Some (pending_id entry)) None) entry →
    Q (Ok (evaluate_result ev PendingApproval (Some (pending_id entry)) None)) s') →
  wp (await_approval ev) Q s.
Proof.
  intros Hroom Hinv Hev Htier Horig Hact Hactor Hok. unfold await_approval. cbv zeta.
  wp_step. apply mint_room_wp; [eauto with meta|]. intros e He.
  do 2 wp_step. cbn [current_time_ms]. wp_step.
  eapply wp_mono; [apply resolve_notification_frame|]. intros r s1 [E1 [[resolution error] ->]].
  cbn [fst snd]. do 2 wp_step.
  fold (approval_deadline (clock (world_step s)) (request_approval_timeout_ms (ev_request ev))).
  cbn [set_gating update_field upd_gating upd_world_step tick gating world_step] in *.
  set (entry := mkPending _ _ _ _ _ _ _ _ _ _ _ _ _ _).
  destruct Hev as [Hea Heo]. rewrite He in Hea.
  destruct (open_gate_inv (gating s) e entry) as (I1 & I2 & I3 & I4 & I5); try done.
  { apply ids_available_Ok in Hroom as [_ ?]. lia. }
  { apply approval_deadline_after, clock_u64. }
  rewrite E1. set (g' := upsert_gating_pending_entry _ _) in *.
  assert (Hroom' : room g' 2).
  { revert Hroom. unfold room. rewrite !ids_available_Ok, I3, I4. intros [_ ?]. split; [eauto|lia]. }
  assert (Hev' : ev_ok g' ev).
  { split; [|done]. rewrite I3, I4. eauto with meta. }
  destruct (gi_pending _ I1 _ _ I2) as [_ [Hk _ _ _ _]].
  wp_step. apply append_evaluation_wp; cbn [set_gating update_field upd_gating gating]; try done.
  { eauto with meta. }
  { by intros p [= <-]. }
  { not_resolution. }
  intros e2 t s2 _ Hg Hinv2 Hl2. wp_step. apply publish_wp; try done.
  - rewrite Hg. by apply (room_step g').
  - rewrite Hg. eapply ev_ok_later; [..|exact Hev']; simpl; [done|lia].
  - by rewrite Hg.
  - intros s3 Hinv3 Hl3 Hheld. wp_step. apply (Hok s3 entry); try done.
    + etrans; [exact I5|]. etrans; [exact Hl2|done].
    + by apply fresh_gate.
    + split_and!; simpl; try done. eauto.
Qed.

(** The outcomes a tier admits. *)
Definition tier_admits (tier : GatingRiskTier) (outcome : GatingOutcome) : Prop :=
  match outcome with
  | Allowed => tier = R0 ∨ tier = R1
  | AllowedWithAudit => tier = R2
  | PendingApproval => tier = R3
  | SafeDraft => True
  end.

(** What a request is answered when the conflicts are the runtime's own. *)
Definition expected_outcome (s : MetaRuntimeHandle) (request : GatingEvaluateRequest) (origin : option GatingOrigin) :
    GatingOutcome * option string :=
  let guarded outcome :=
    match local_conflict s (trimmed_non_empty (request_entity request)) (trimmed_non_empty (request_topic request)) with
    | Some why => (SafeDraft, Some why)
    | None => (outcome, None)
    end in
  match gating_ids_available (gating s) GATING_IDS_PER_EVALUATION with
  | Err unavailable => (SafeDraft, Some (fallback_reason unavailable))
  | Ok _ =>
      if is_some_and (normalize_origin <$> origin) (λ o, negb (valid_gating_origin o))
      then (SafeDraft, Some "invalid_gating_origin")
      else match request_risk_tier request with
           | R0 | R1 => (Allowed, None)
           | R2 => guarded AllowedWithAudit
           | R3 => guarded PendingApproval
           end
  end.

Record evaluated (request : GatingEvaluateRequest) (origin : option GatingOrigin) (s1 s' : MetaRuntimeHandle)
    (res : GatingEvaluateResult) : Prop := {
  ed_inv : gating_inv (gating s');
  ed_later : later (gating s1) (gating s');
  ed_tier : tier_admits (request_risk_tier request) (eval_outcome res);
  ed_closed : eval_outcome res ≠ PendingApproval →
    eval_pending_id res = None ∧ gating_pending (gating s') = gating_pending (gating s1);
  ed_open : eval_outcome res = PendingApproval →
    ∃ entry, gate_of request origin res entry ∧ gate_held (gating s') entry ∧
      gating_pending (gating s1) !! pending_id entry = None;
  ed_exact : is_module_loaded s1 "memory" = false →
    (eval_outcome res, eval_fallback_reason res) = expected_outcome s1 request origin;
}.

Lemma evaluate_minting_wp request origin s :
  gating_inv (gating s) →
  let s1 := refresh_gating_timeouts s in
  wp (evaluate_gating_action_minting request origin) (λ r s',
    match r with
    | Err u => s' = s1 ∧ gating_ids_available (gating s1) GATING_IDS_PER_EVALUATION = Err u
    | Ok res => evaluated request origin s1 s' res
    end) s.
Proof.
  intros Hinv s1. unfold evaluate_gating_action_minting. cbv zeta. do 2 wp_step. fold s1.
  destruct (refresh_spec s Hinv) as [k Hex]. fold s1 in Hex. pose proof (ex_inv _ _ _ _ Hex) as Hinv1.
  do 4 wp_step. destruct (gating_ids_available _ _) as [[]|u] eqn:Hroom; [|done].
  change (room (gating s1) 4) in Hroom. wp_step. apply mint_room_wp; [eauto with meta|]. intros e He.
  pose proof (gi_epoch _ Hinv1 _ He) as Hv. pose proof (gi_sequence _ Hinv1) as Hseq.
  assert (Hlt : gating_sequence (gating s1) < U64_MAX) by (apply ids_available_Ok in Hroom as [_ ?]; lia).
  set (s2 := set_gating _ s1). assert (Hinv2 : gating_inv (gating s2)) by by apply step_sequence_inv.
  assert (Hroom2 : room (gating s2) 3) by by apply room_step.
  assert (Hlater : later (gating s1) (gating s2)) by (apply later_sub; simpl; [done|lia|done]).
  set (ev := mkEvaluation _ _ _ _ _ _ _).
  assert (Hexact : ∀ tier outcome why, request_risk_tier request = tier → is_some_and (ev_origin ev) (λ o, negb (valid_gating_origin o)) = false →
    (is_module_loaded s1 "memory" = false → local_conflict s1 (ev_entity ev) (ev_topic ev) = why) →
    is_module_loaded s1 "memory" = false →
    (tier = R2 ∧ outcome = AllowedWithAudit ∨ tier = R3 ∧ outcome = PendingApproval) →
    (if why then (SafeDraft, why) else (outcome, None)) = expected_outcome s1 request origin).
  { intros tier outcome why Ht Hok Hw Hl Hcase. unfold expected_outcome. unfold room in Hroom.
    unfold GATING_IDS_PER_EVALUATION. rewrite Hroom. cbn [ev_origin ev] in Hok. rewrite Hok, Ht.
    specialize (Hw Hl). cbn [ev_entity ev_topic ev] in Hw. rewrite Hw.
    destruct why, Hcase as [[-> ->]|[-> ->]]; done. }
  cbn [ev_origin ev] in Hexact.
  destruct (is_some_and _ _) eqn:Horig.
  { wp_step. split; simpl; try done. intros _. unfold expected_outcome. unfold room in Hroom.
    unfold GATING_IDS_PER_EVALUATION. by rewrite Hroom, Horig. }
  assert (Hev : ev_ok (gating s2) ev).
  { split; [simpl; rewrite He; by apply (minted_known "action")|]. cbn [ev_origin ev]. intros o Ho. rewrite Ho in Horig.
    by apply negb_false_iff in Horig. }
  assert (Hroom1 : room (gating s2) 1) by eauto with meta.
  destruct (request_risk_tier request) eqn:Ht.
  1,2: do 2 wp_step; apply allow_with_wp; try done; intros s' Hinv' Hl' Hp; split; simpl; rewrite ?Ht; auto; try done; [by etrans|];
    intros _; unfold expected_outcome, room, GATING_IDS_PER_EVALUATION in *; by rewrite Hroom, Horig, Ht.
  - wp_step. apply conflict_guard_wp; try done.
    + intros why s' Hinv' Hl' Hp Hw. wp_step. split; simpl; try done; [by etrans|]. intros Hl.
      by apply (Hexact R2 AllowedWithAudit (Some why)); auto.
    + intros s' E Hw. apply allow_with_wp; rewrite ?E; try done. intros s3 Hinv' Hl' Hp.
      split; simpl; rewrite ?Ht; auto; try done; [by etrans|].
      intros Hl. by apply (Hexact R2 AllowedWithAudit None); auto.
  - wp_step. apply conflict_guard_wp; try done.
    + intros why s' Hinv' Hl' Hp Hw. wp_step. split; simpl; try done; [by etrans|]. intros Hl.
      by apply (Hexact R3 PendingApproval (Some why)); auto.
    + intros s' E Hw. apply (await_wp ev origin); rewrite ?E; try done. intros s3 entry Hinv' Hl' Hheld Hnew Hgate.
      split; simpl; rewrite ?Ht; try done.
      * by etrans.
      * intros _. by exists entry.
      * intros Hl. by apply (Hexact R3 PendingApproval None); auto.
Qed.
End evaluation.
