(* ===== verification/GatingTheorems.v ===== *)
(** * The gating theorems

    A gate is opened exactly when its tier asks for one, decided at most once,
    never by its own actor and never after its deadline; every refusal changes
    nothing but what time alone changed; an exported snapshot is always accepted
    by the importer. *)

From S2P Require Import Prelude Strings Json RuntimeTypes MemoryLedger EventTransport ModuleBoundary Routing Delivery Gating GatingProofs.
Open Scope Z_scope.

(** ** Decisions *)

Section decisions.
Context `{GatingCodec}.

(** Every check of a decision, on the state its refresh leaves. *)
Definition decision_check (request : GatingDecideRequest) (decider : option GatingDecider) (g : GatingState) :
    Result (GatingPendingEntry * option string) GatingDecideError :=
  _ ←? map_err IdsUnavailable (gating_ids_available g GATING_IDS_PER_DECISION);
  if is_some_and decider (λ decider, str_is_empty (trim (principal decider))) then Err EmptyPrincipal
  else
    entry ←? ok_or (gating_pending g !! trim (decide_pending_id request)) (UnknownPendingId (trim (decide_pending_id request)));
    successor ←? check_decision request decider entry (gating_escalation_routes g);
    Ok (entry, successor).

(** The gate that takes over from an escalated one. *)
Definition successor_gate (now : Z) (id : string) (entry : GatingPendingEntry) (successor : option string) :
    GatingPendingEntry :=
  mkPending id (pending_action_id entry) (pending_action entry) (pending_actor_id entry) (pending_risk_tier entry)
    successor (approval_recipient entry) (approval_channel entry) None None now (deadline_at_ms entry)
    (pending_rationale entry) (pending_origin entry).

Lemma upsert_room entry g :
  gating_pending_order g = filter (λ i, i ≠ pending_id entry) (gating_pending_order g) →
  (length (gating_pending_order g) < GATING_PENDING_MAX_RETAINED)%nat →
  upsert_gating_pending_entry entry g =
    g <| gating_pending := <[pending_id entry := entry]> (gating_pending g) |>
      <| gating_pending_order := gating_pending_order g ++ [pending_id entry] |>.
Proof.
  intros Hf Hlen. unfold upsert_gating_pending_entry. rewrite <- Hf.
  set (m := <[_ := _]> _). set (order := _ ++ _).
  destruct (evict_oldest _ order m) as [o m'] eqn:E.
  assert (Ho : o = order).
  { change o with (o, m').1. rewrite <- E, evict_oldest_order. apply shrink_front_id.
    unfold order. rewrite length_app. simpl. lia. }
  assert (Hm : m' = m).
  { change m' with (o, m').2. rewrite <- E. apply map_eq. intros i. rewrite evict_oldest_lookup.
    replace (length order - _)%nat with 0%nat by (unfold order; rewrite length_app; simpl; lia). done. }
  by subst.
Qed.

(** A gate opened when the limit is reached displaces the oldest one, which leaves no audit entry and
    no notice: nothing of the state tells that it was not resolved. *)
Lemma full_upsert_displaces_oldest entry oldest rest g :
  gating_inv g → gating_pending g !! pending_id entry = None →
  gating_pending_order g = oldest :: rest → length (gating_pending_order g) = GATING_PENDING_MAX_RETAINED →
  let g' := upsert_gating_pending_entry entry g in
  is_Some (gating_pending g !! oldest) ∧ gating_pending g' !! oldest = None ∧
  gating_audit g' = gating_audit g ∧ gating_notice_queue g' = gating_notice_queue g.
Proof.
  intros Hinv Hnone Ho Hlen. cbv zeta.
  assert (Hold : is_Some (gating_pending g !! oldest)) by (apply (gi_dom _ Hinv); rewrite Ho; by left).
  assert (Hid : pending_id entry ∉ gating_pending_order g) by (rewrite (gi_dom _ Hinv), Hnone; by intros [? ?]).
  split; [done|]. unfold upsert_gating_pending_entry. rewrite (filter_ne_id _ _ Hid). set (m := <[_ := _]> _).
  destruct (evict_oldest _ _ m) as [o m'] eqn:E. split; [|done]. simpl. change m' with (o, m').2.
  rewrite <- E, evict_oldest_lookup, decide_True; [done|]. rewrite length_app, Hlen, Nat.add_sub_swap, Nat.sub_diag, Ho by done.
  by left.
Qed.

(** Removing a gate that is held makes room. *)
Lemma drop_pending_room id g :
  gating_inv g → is_Some (gating_pending g !! id) →
  (length (gating_pending_order (drop_pending id g)) < GATING_PENDING_MAX_RETAINED)%nat.
Proof.
  intros Hinv Hid. apply (gi_dom _ Hinv) in Hid. pose proof (gi_bound _ Hinv) as Hb. simpl.
  eapply Nat.lt_le_trans; [|exact Hb]. clear -Hid. revert Hid.
  induction (gating_pending_order g) as [|x l IH]; [by intros ?%elem_of_nil|].
  intros [->|Hin]%elem_of_cons.
  - rewrite filter_cons_False by auto. simpl. pose proof (length_filter (λ i, i ≠ x) l). lia.
  - destruct (decide (x = id)) as [->|Hne].
    + rewrite filter_cons_False by auto. simpl. pose proof (length_filter (λ i, i ≠ id) l). lia.
    + rewrite filter_cons_True by done. simpl. specialize (IH Hin). lia.
Qed.

Lemma gate_not_ordered g id :
  gating_inv g → gating_pending g !! id = None → gating_pending_order g = filter (λ i, i ≠ id) (gating_pending_order g).
Proof.
  intros Hinv Hid. symmetry. apply filter_ne_id. rewrite (gi_dom _ Hinv), Hid. by intros [? ?].
Qed.

Record committed (request : GatingDecideRequest) (decider : option GatingDecider) (now : Z) (id : string)
    (entry : GatingPendingEntry) (successor : option string) (g g' : GatingState) (res : GatingDecisionResult) : Prop := {
  cm_inv : gating_inv g';
  cm_later : later g g';
  cm_moved : gating_sequence g < gating_sequence g';
  cm_pending : gating_pending g' =
    match next_pending_id res with
    | None => delete id (gating_pending g)
    | Some next => <[next := successor_gate now next entry successor]> (delete id (gating_pending g))
    end;
  cm_next : is_some (next_pending_id res) = (decision request =b Escalate);
  cm_fresh : ∀ next, next_pending_id res = Some next → gating_pending g !! next = None;
  cm_notices : gating_notice_queue g' = gating_notice_queue g ++
    [mkNotice id (pending_action_id entry) (is_approve (decision request)) (next_pending_id res)
       (decision_event (decision request))];
  cm_audit : ∃ a, a ∈ gating_audit g' ∧ audit_pending_id a = Some id ∧
    audit_event_type a = decision_event (decision request) ∧ audit_outcome a = decided_outcome res;
  cm_result : res = mkDecisionResult id (pending_action_id entry)
    (deciding_approver request decider (requested_approver entry)).1 (decision request)
    (decision_outcome (decision request)) now (decide_reason request) (next_pending_id res);
  cm_observers : gating_resolution_observers g' = gating_resolution_observers g;
  cm_delivered : gating_delivered g' = gating_delivered g;
}.

Lemma escalate_wp now id entry successor s Q :
  room (gating s) 2 → gating_inv (gating s) →
  (length (gating_pending_order (gating s)) < GATING_PENDING_MAX_RETAINED)%nat →
  pending_ok (gating_epoch (gating s)) (gating_sequence (gating s)) entry → now ≤ deadline_at_ms entry →
  (∀ e s', gating_epoch (gating s) = Some e →
    let next := gating_id "pending" e (gating_sequence (gating s)) in
    gating_inv (gating s') → later (gating s) (gating s') → gating_pending (gating s) !! next = None →
    gating_pending (gating s') = <[next := successor_gate now next entry successor]> (gating_pending (gating s)) →
    gating_epoch (gating s') = gating_epoch (gating s) → gating_sequence (gating s') = gating_sequence (gating s) + 2 →
    gating_notice_queue (gating s') = gating_notice_queue (gating s) →
    gating_resolution_observers (gating s') = gating_resolution_observers (gating s) →
    gating_delivered (gating s') = gating_delivered (gating s) → Q (Ok next) s') →
  wp (escalate_entry now id entry successor) Q s.
Proof.
  intros Hroom Hinv Hlen [P1 P2 P3 P4 P5] Hnow Hok. unfold escalate_entry. wp_step.
  apply mint_room_wp; [eauto with meta|]. intros e He. cbv zeta.
  rewrite He in P2. specialize (Hok e). cbv zeta in Hok.
  set (next := gating_id "pending" e (gating_sequence (gating s))) in *.
  change (mkPending next _ _ _ _ _ _ _ _ _ _ _ _ _) with (successor_gate now next entry successor).
  destruct (fresh_gate _ _ Hinv He) as [Hfresh _]. fold next in Hfresh.
  destruct (open_gate_inv (gating s) e (successor_gate now next entry successor)) as (I1 & I2 & I3 & I4 & I5); try done.
  { apply ids_available_Ok in Hroom as [_ ?]. lia. }
  do 2 wp_step. cbn [set_gating update_field upd_gating gating].
  pose proof (upsert_room (successor_gate now next entry successor) (step_sequence (gating s))
    (gate_not_ordered _ _ Hinv Hfresh) Hlen) as Hup. rewrite Hup in *. clear Hup.
  destruct (gi_pending _ I1 _ _ I2) as [_ [Q1 Q2 _ _ Q5]]. set (g' := update_field _ _ _) in *.
  wp_step. apply append_room_wp; cbn [set_gating update_field upd_gating gating]; try done.
  - by apply (room_step (gating s) 1).
  - by intros p [= <-].
  - by apply (detail_origin_opt _ (pending_origin entry)).
  - intros p _ Hev. exfalso. revert Hev. apply (bool_decide_unpack _). vm_compute. exact I.
  - intros e2 t s' _ Hg Hinv' _. wp_step. apply Hok; try done; rewrite Hg; try done.
    + etrans; [exact I5|]. apply later_sub; simpl; [done|lia|done].
    + simpl. lia.
Qed.

Lemma commit_wp request decider now id entry successor s :
  room (gating s) 3 → gating_inv (gating s) → gating_pending (gating s) !! id = Some entry →
  now ≤ deadline_at_ms entry →
  wp (commit_decision request decider now id entry successor) (λ r s',
    ∃ res, r = Ok res ∧ committed request decider now id entry successor (gating s) (gating s') res) s.
Proof.
  intros Hroom Hinv Hid Hnow. unfold commit_decision. cbv zeta. do 2 wp_step.
  change (set_gating _ s) with (set_gating (drop_pending id (gating s)) s).
  set (s1 := set_gating _ s). assert (Hinv1 : gating_inv (gating s1)) by by apply drop_pending_inv.
  destruct (gi_pending _ Hinv _ _ Hid) as [Hpid Hpok]. pose proof Hpok as [P1 P2 P3 P4 P5]. rewrite Hpid in P1.
  assert (Hmine : gating_pending (gating s1) !! id = None) by apply lookup_delete_eq.
  assert (Hl1 : later (gating s) (gating s1)).
  { apply later_sub; simpl; [done|lia|]. intros i Hi. apply lookup_delete_None. by right. }
  set (Q := λ (r : Result (option string) GatingIdUnavailable) s2, ∃ next, r = Ok next ∧
    gating_inv (gating s2) ∧ room (gating s2) 1 ∧ gating_pending (gating s2) !! id = None ∧
    later (gating s) (gating s2) ∧ gating_pending (gating s2) = (match next with
      | None => delete id (gating_pending (gating s))
      | Some n => <[n := successor_gate now n entry successor]> (delete id (gating_pending (gating s))) end) ∧
    is_some next = (decision request =b Escalate) ∧ (∀ n, next = Some n → gating_pending (gating s) !! n = None) ∧
    gating_notice_queue (gating s2) = gating_notice_queue (gating s) ∧
    gating_resolution_observers (gating s2) = gating_resolution_observers (gating s) ∧
    gating_delivered (gating s2) = gating_delivered (gating s)).
  wp_step. apply (wp_mono _ Q).
  - unfold Q. assert (Hroom1 : room (gating s1) 3) by done. destruct (decision request).
    1,2: wp_step; exists None; split_and!; try done; eauto with meta.
    wp_step. apply escalate_wp; try done; [eauto with meta| |].
    { apply drop_pending_room; [done|eauto]. }
    intros e s2 He next I1 Hl I2 I3 I4 I5 I6 I7 I8. wp_step.
    pose proof (proj1 (fresh_gate (gating s) e Hinv He)) as Hfresh.
    change (gating_pending (gating s) !! next = None) in Hfresh. clearbody next.
    exists (Some next). split_and!; try done.
    + revert Hroom. unfold room. rewrite !ids_available_Ok, I4, I5. simpl. intros [? ?]. split; [done|lia].
    + rewrite I3. rewrite lookup_insert_ne by congruence. done.
    + by etrans.
    + by intros n [= <-].
  - intros r s2 (next & -> & J1 & J2 & J3 & Jl & J6 & J7 & J8 & J9 & J10 & J11). wp_step. pose proof Jl as (J4 & J5 & _).
    apply append_room_wp; try done.
    + rewrite J4. eauto with meta.
    + intros p [= <-]. rewrite J4. eauto with meta.
    + by apply (detail_origin_opt _ (pending_origin entry)).
    + by intros p [= <-].
    + intros e t s3 _ Hg Hinv3 _. do 3 wp_step. eexists. split; [done|].
      split; cbn [next_pending_id set_gating update_field upd_gating upd_gating_notice_queue gating gating_pending
        gating_notice_queue gating_audit gating_resolution_observers gating_delivered]; rewrite ?Hg; try done.
      * eapply same_gates_inv; [|exact Hinv3]. by rewrite Hg.
      * etrans; [exact Jl|]. apply later_sub; simpl; [done|lia|done].
      * simpl. lia.
      * simpl. by rewrite J9.
      * eexists. split; [apply last_in_shrink_front; vm_compute; lia|]. done.
Qed.

(** A decision is refused exactly by its checks, which change nothing; one
    that passes them is carried out. *)
Lemma decide_wp request decider s :
  gating_inv (gating s) →
  let now := clock (world_step s) in
  let s1 := refresh_gating_timeouts s in
  wp (decide_gating_action_as request decider) (λ r s',
    match decision_check request decider (gating s1) with
    | Err err => r = Err err ∧ s' = s1
    | Ok (entry, successor) => ∃ res, r = Ok res ∧
        now < deadline_at_ms entry ∧ gating_pending (gating s) !! trim (decide_pending_id request) = Some entry ∧
        committed request decider now (trim (decide_pending_id request)) entry successor (gating s1) (gating s') res
    end) s.
Proof.
  intros Hinv now s1. unfold decide_gating_action_as, decision_check. cbv zeta. wp_step. wp_step.
  cbn [current_time_ms fst snd]. do 2 wp_step.
  change (refresh_gating_timeouts_at (clock (world_step s)) (tick s)) with s1.
  destruct (refresh_spec s Hinv) as [k Hex]. fold s1 in Hex. pose proof (ex_inv _ _ _ _ Hex) as Hinv1.
  do 4 wp_step. destruct (gating_ids_available _ _) as [[]|u] eqn:Hroom; cbn [map_err and_then]; [|done].
  do 2 wp_step. destruct (is_some_and _ _); [done|]. do 4 wp_step.
  destruct (gating_pending (gating s1) !! _) as [entry|] eqn:Hp; cbn [ok_or and_then]; [|done].
  do 4 wp_step. destruct (check_decision _ _ _ _) as [successor|err]; cbn [and_then]; [|done].
  change (room (gating s1) 3) in Hroom. assert (Hroom1 : room (gating s1) 1) by eauto with meta.
  destruct (expiry_live _ _ _ _ _ _ Hex Hroom1 Hp) as [Hp0 Hlive].
  wp_step. eapply wp_mono; [apply commit_wp; try done; lia|]. intros r s' (res & -> & Hc). exists res. done.
Qed.
End decisions.

(** ** Persistence *)

Section persistence.
Context `{RuntimeEnv}.

(** What the importer asks of a pending entry and of an audit entry. *)
Record snapshot_pending_ok (id_ok : string → string → bool) (entry : GatingPendingEntry) : Prop := {
  sp_id : id_ok (pending_id entry) "gate-pending-" = true;
  sp_action : id_ok (pending_action_id entry) "gate-action-" = true;
  sp_tier : pending_risk_tier entry = R3;
  sp_deadline : created_at_ms entry ≤ deadline_at_ms entry;
  sp_origin : ∀ o, pending_origin entry = Some o → valid_gating_origin o = true;
}.

Record snapshot_audit_ok (id_ok : string → string → bool) (pending_ids : list string) (entry : GatingAuditEntry) : Prop := {
  sa_id : id_ok (audit_id entry) "gate-audit-" = true;
  sa_action : id_ok (audit_action_id entry) "gate-action-" = true;
  sa_pending : ∀ p, audit_pending_id entry = Some p → id_ok p "gate-pending-" = true;
  sa_resolved : ∀ p, audit_pending_id entry = Some p → audit_event_type entry ∈ resolution_events → p ∉ pending_ids;
  sa_origin : detail_origin_ok (audit_detail entry) = true;
}.

Lemma is_some_and_negb {A} (o : option A) f : is_some_and o (λ x, negb (f x)) = false ↔ ∀ x, o = Some x → f x = true.
Proof.
  destruct o as [x|]; simpl; [|done]. rewrite negb_false_iff. split; [by intros ? ? [= <-]|auto].
Qed.

Lemma validate_pending_Ok snapshot legacy entries seen out :
  validate_pending snapshot legacy entries seen = Ok out ↔
  out = rev (map pending_id entries) ++ seen ∧ NoDup (map pending_id entries) ∧
  (∀ x, x ∈ map pending_id entries → x ∉ seen) ∧
  Forall (snapshot_pending_ok (snapshot_id_ok snapshot legacy)) entries.
Proof.
  revert seen. induction entries as [|entry rest IH]; intros seen; cbn [validate_pending map rev].
  { split; [intros [= <-]|intros (-> & _)]; [|done]. split_and!; [done|constructor|by intros x ?%elem_of_nil|constructor]. }
  destruct (negb _ || negb _ || _) eqn:E1.
  { split; [done|]. intros (_ & _ & Hnew & [[H1 H2 _ _ _] _]%Forall_cons). rewrite H1, H2 in E1. simpl in E1.
    apply bool_decide_eq_true in E1. exfalso. apply (Hnew (pending_id entry)); [by left|done]. }
  apply orb_false_iff in E1 as [[H1%negb_false_iff H2%negb_false_iff]%orb_false_iff H3%bool_decide_eq_false].
  destruct (negb _ || _) eqn:E2.
  { split; [done|]. intros (_ & _ & _ & [[_ _ H4 H5 _] _]%Forall_cons). rewrite H4 in E2. simpl in E2.
    apply Z.ltb_lt in E2. lia. }
  apply orb_false_iff in E2 as [H4%negb_false_iff%bool_decide_eq_true H5%Z.ltb_ge].
  destruct (is_some_and _ _) eqn:E3.
  { split; [done|]. intros (_ & _ & _ & [[_ _ _ _ H6] _]%Forall_cons). apply is_some_and_negb in H6. congruence. }
  rewrite IH, NoDup_cons, Forall_cons. pose proof (proj1 (is_some_and_negb _ _) E3) as H6. rewrite <- app_assoc. simpl. split.
  - intros (-> & Hnd & Hnew & Hall). split_and!; try done.
    + intros Hin. apply (Hnew _ Hin). by left.
    + intros x [->|Hx]%elem_of_cons; [done|]. intros Hs. apply (Hnew x Hx). by right.
  - intros (-> & (Hni & Hnd) & Hnew & _ & Hall). split_and!; try done.
    intros x Hx [->|Hs]%elem_of_cons; [done|]. apply (Hnew x); [by right|done].
Qed.

Lemma validate_audit_Ok snapshot legacy pending_ids entries seen :
  validate_audit snapshot legacy pending_ids entries seen = Ok tt ↔
  NoDup (map audit_id entries) ∧ (∀ x, x ∈ map audit_id entries → x ∉ seen) ∧
  Forall (snapshot_audit_ok (snapshot_id_ok snapshot legacy) pending_ids) entries.
Proof.
  revert seen. induction entries as [|entry rest IH]; intros seen; cbn [validate_audit map].
  { split; [|done]. intros _. split_and!; [constructor|by intros x ?%elem_of_nil|constructor]. }
  destruct (negb _ || negb _ || _ || _) eqn:E1.
  { split; [done|]. intros (_ & Hnew & [[H1 H2 H3 _ _] _]%Forall_cons). rewrite H1, H2 in E1. simpl in E1.
    apply is_some_and_negb in H3. rewrite H3, orb_false_r in E1. apply bool_decide_eq_true in E1.
    exfalso. apply (Hnew (audit_id entry)); [by left|done]. }
  apply orb_false_iff in E1 as [[[H1%negb_false_iff H2%negb_false_iff]%orb_false_iff H3%bool_decide_eq_false]%orb_false_iff H4].
  pose proof (proj1 (is_some_and_negb _ _) H4) as H4'.
  destruct (is_some_and _ _ && _) eqn:E2.
  { split; [done|]. intros (_ & _ & [[_ _ _ H5 _] _]%Forall_cons). apply andb_true_iff in E2 as [E2 E3%bool_decide_eq_true].
    destruct (audit_pending_id entry) as [p|]; [|done]. apply bool_decide_eq_true in E2. by destruct (H5 p). }
  destruct (negb (detail_origin_ok _)) eqn:E3.
  { split; [done|]. intros (_ & _ & [[_ _ _ _ H6] _]%Forall_cons). by rewrite H6 in E3. }
  apply negb_false_iff in E3. rewrite IH, NoDup_cons, Forall_cons. split.
  - intros (Hnd & Hnew & Hall). split_and!; try done.
    + intros Hin. apply (Hnew _ Hin). by left.
    + intros x [->|Hx]%elem_of_cons; [done|]. intros Hs. apply (Hnew x Hx). by right.
    + split; try done. intros p Hp Hev Hin. rewrite Hp in E2. simpl in E2.
      by rewrite !bool_decide_eq_true_2 in E2 by done.
  - intros ((Hni & Hnd) & Hnew & _ & Hall). split_and!; try done.
    intros x Hx [->|Hs]%elem_of_cons; [done|]. apply (Hnew x); [by right|done].
Qed.

(** A well-formed snapshot, of the sequential format (1) or the epoch format (2). *)
Record snapshot_wf (snapshot : GatingStateSnapshot) : Prop := {
  sw_version : snapshot_version snapshot = 1 ∨ snapshot_version snapshot = 2;
  sw_legacy : snapshot_version snapshot = 1 →
    snapshot_owner_epoch snapshot = None ∧
    snapshot_next_sequence snapshot + (Z.of_nat (length (snapshot_pending snapshot)) + 1) ≤ U64_MAX;
  sw_epoch : ∀ e, snapshot_owner_epoch snapshot = Some e → valid_gating_epoch e = true;
  sw_pending_bound : (length (snapshot_pending snapshot) ≤ GATING_PENDING_MAX_RETAINED)%nat;
  sw_audit_bound : (length (snapshot_audit snapshot) ≤ GATING_AUDIT_MAX_RETAINED)%nat;
  sw_pending_ids : NoDup (map pending_id (snapshot_pending snapshot));
  sw_pending : Forall (snapshot_pending_ok (snapshot_id_ok snapshot (snapshot_version snapshot =? 1)))
    (snapshot_pending snapshot);
  sw_audit_ids : NoDup (map audit_id (snapshot_audit snapshot));
  sw_audit : Forall (snapshot_audit_ok (snapshot_id_ok snapshot (snapshot_version snapshot =? 1))
    (map pending_id (snapshot_pending snapshot))) (snapshot_audit snapshot);
}.

Lemma audits_against_ids snapshot ids ids' :
  (∀ x, x ∈ ids ↔ x ∈ ids') → ∀ legacy entries,
  Forall (snapshot_audit_ok (snapshot_id_ok snapshot legacy) ids) entries →
  Forall (snapshot_audit_ok (snapshot_id_ok snapshot legacy) ids') entries.
Proof.
  intros Hids legacy entries Hall. eapply Forall_impl; [exact Hall|]. intros a []. split; try done.
  intros p Hp Hev Hin. by apply (sa_resolved0 p Hp Hev), Hids.
Qed.

Lemma elem_of_rev_app_nil {A} (l : list A) x : x ∈ rev l ++ [] ↔ x ∈ l.
Proof. rewrite app_nil_r, !list_elem_of_In. symmetry. apply in_rev. Qed.

Lemma validate_lists snapshot legacy :
  and_then (validate_pending snapshot legacy (snapshot_pending snapshot) [])
    (λ ids, validate_audit snapshot legacy ids (snapshot_audit snapshot) []) = Ok tt ↔
  NoDup (map pending_id (snapshot_pending snapshot)) ∧
  Forall (snapshot_pending_ok (snapshot_id_ok snapshot legacy)) (snapshot_pending snapshot) ∧
  NoDup (map audit_id (snapshot_audit snapshot)) ∧
  Forall (snapshot_audit_ok (snapshot_id_ok snapshot legacy) (map pending_id (snapshot_pending snapshot)))
    (snapshot_audit snapshot).
Proof.
  rewrite and_then_Ok. setoid_rewrite validate_audit_Ok. setoid_rewrite validate_pending_Ok. split.
  - intros (ids & (-> & H1 & _ & H2) & H3 & _ & H4). split_and!; try done.
    eapply audits_against_ids; [|exact H4]. apply elem_of_rev_app_nil.
  - intros (H1 & H2 & H3 & H4). eexists. split_and!; try done; [by intros x _ ?%elem_of_nil..|].
    eapply audits_against_ids; [|exact H4]. intros x. by rewrite elem_of_rev_app_nil.
Qed.

Lemma validate_snapshot_iff snapshot : validate_gating_snapshot snapshot = Ok tt ↔ snapshot_wf snapshot.
Proof.
  unfold validate_gating_snapshot. rewrite and_then_Ok. split.
  - intros (legacy & Hv & Hrest).
    assert (Hlegacy : legacy = (snapshot_version snapshot =? 1) ∧ (snapshot_version snapshot = 1 ∨ snapshot_version snapshot = 2)).
    { destruct (Z.eqb_spec (snapshot_version snapshot) 1); [|destruct (Z.eqb_spec (snapshot_version snapshot) 2)]; naive_solver. }
    destruct Hlegacy as [-> Hversion]. clear Hv.
    destruct (is_some _ && _) eqn:E1; [done|]. destruct (is_some_and _ _) eqn:E2; [done|].
    destruct (_ || _) eqn:E3; [done|]. destruct (_ && is_none _) eqn:E4; [done|].
    apply validate_lists in Hrest as (H1 & H2 & H3 & H4).
    apply orb_false_iff in E3 as [B1%Nat.ltb_ge B2%Nat.ltb_ge]. split; try done.
    + intros Hv1. rewrite Hv1 in E1, E4. simpl in E1, E4. rewrite andb_true_r in E1. split; [by destruct (snapshot_owner_epoch snapshot)|].
      unfold u64_checked_add in E4. case_decide; [done|done].
    + by apply is_some_and_negb.
  - intros []. exists (snapshot_version snapshot =? 1). split.
    { destruct sw_version0 as [-> | ->]; done. }
    pose proof (proj2 (is_some_and_negb _ _) sw_epoch0) as ->.
    apply Nat.ltb_ge in sw_pending_bound0, sw_audit_bound0. rewrite sw_pending_bound0, sw_audit_bound0. simpl.
    pose proof (proj2 (validate_lists snapshot _) (conj sw_pending_ids0 (conj sw_pending0 (conj sw_audit_ids0 sw_audit0)))) as Hl.
    destruct sw_version0 as [Hv|Hv]; rewrite Hv in *; cbn [Z.eqb Pos.eqb andb] in *.
    + destruct sw_legacy0 as [-> Hseq]; [done|]. cbn [is_some andb]. unfold u64_checked_add. by rewrite decide_True.
    + by rewrite andb_false_r.
Qed.

(** No id of the snapshot was minted under the epoch [ep]. *)
Definition foreign (ep : option string) (prefix value : string) : Prop :=
  ∀ e n, ep = Some e → parse_gating_id value prefix ≠ Some (Epoch e n).

Record snapshot_foreign (ep : option string) (snapshot : GatingStateSnapshot) : Prop := {
  sf_pending : ∀ entry, entry ∈ snapshot_pending snapshot →
    foreign ep "gate-pending-" (pending_id entry) ∧ foreign ep "gate-action-" (pending_action_id entry);
  sf_audit : ∀ entry, entry ∈ snapshot_audit snapshot →
    foreign ep "gate-audit-" (audit_id entry) ∧ foreign ep "gate-action-" (audit_action_id entry) ∧
    ∀ p, audit_pending_id entry = Some p → foreign ep "gate-pending-" p;
}.

Lemma foreign_known snapshot legacy ep next prefix v :
  snapshot_id_ok snapshot legacy v prefix = true → foreign ep prefix v → id_known ep next prefix v.
Proof.
  unfold snapshot_id_ok, foreign, id_known. destruct (parse_gating_id v prefix) as [[n|e n]|]; [done| |done].
  intros _ Hf ->. by destruct (Hf e n).
Qed.

Definition load_pending (entries : list GatingPendingEntry) (m : gmap string GatingPendingEntry) : gmap string GatingPendingEntry :=
  foldl (λ m entry, <[pending_id entry := entry]> m) m entries.

Lemma load_pending_lookup entries m id e :
  NoDup (map pending_id entries) →
  load_pending entries m !! id = Some e ↔
    (e ∈ entries ∧ pending_id e = id) ∨ (id ∉ map pending_id entries ∧ m !! id = Some e).
Proof.
  revert m. induction entries as [|x l IH]; intros m Hnd; cbn [load_pending foldl map] in *.
  { split; [|by intros [[?%elem_of_nil _]|[_ ?]]]. intros Hm. right. split; [apply not_elem_of_nil|done]. }
  apply NoDup_cons in Hnd as [Hx Hnd]. fold (load_pending l). unfold load_pending in IH. rewrite IH by done.
  rewrite elem_of_cons, not_elem_of_cons. destruct (decide (id = pending_id x)) as [->|Hne].
  - rewrite lookup_insert_eq. split.
    + intros [[He Hid]|[_ [= ->]]]; [by left; split; [right|]|left; by split; [left|]].
    + intros [[[->|He] Hid]|[[? _] _]]; [right; done|by left|done].
  - rewrite lookup_insert_ne by done. split.
    + intros [[He Hid]|[Hn Hm]]; [by left; split; [right|]|by right].
    + intros [[[->|He] Hid]|[[_ Hn] Hm]]; [by destruct Hne|by left|by right].
Qed.

(** The state [restore_gating_state] builds, before its refresh. *)
Definition loaded (snapshot : GatingStateSnapshot) (g : GatingState) : GatingState :=
  g <| gating_pending_order := map pending_id (snapshot_pending snapshot) |>
    <| gating_pending := load_pending (snapshot_pending snapshot) ∅ |>
    <| gating_audit := snapshot_audit snapshot |>.

Lemma loaded_lookup snapshot g id e :
  NoDup (map pending_id (snapshot_pending snapshot)) →
  gating_pending (loaded snapshot g) !! id = Some e ↔ e ∈ snapshot_pending snapshot ∧ pending_id e = id.
Proof.
  intros Hnd. simpl. rewrite load_pending_lookup by done. split; [|auto]. intros [?|[_ Hm]]; [done|].
  by rewrite lookup_empty in Hm.
Qed.

Lemma loaded_inv snapshot g :
  snapshot_wf snapshot → snapshot_foreign (gating_epoch g) snapshot → is_u64 (gating_sequence g) →
  (∀ e, gating_epoch g = Some e → valid_gating_epoch e = true) → gating_inv (loaded snapshot g).
Proof.
  intros [] [] Hseq He. rewrite !Forall_forall in *. split; try done.
  - intros id. cbn [loaded update_field upd_gating_pending_order upd_gating_pending upd_gating_audit gating_pending_order].
    rewrite list_elem_of_fmap. split.
    + intros (e & -> & Hin). exists e. by apply loaded_lookup.
    + intros [e [Hin <-]%loaded_lookup]; [|done]. eauto.
  - simpl. by rewrite length_map.
  - intros id e [Hin Hid]%loaded_lookup; [|done]. split; [done|]. destruct (sw_pending0 _ Hin).
    destruct (sf_pending0 _ Hin). split; try done; by eapply foreign_known.
  - simpl. apply Forall_forall. intros a Hin. destruct (sw_audit0 _ Hin). destruct (sf_audit0 _ Hin) as (F1 & F2 & F3).
    split; try done; try by eapply foreign_known. intros p Hp. eapply foreign_known; eauto.
  - intros a p Ha Hp Hev. apply eq_None_not_Some. intros [e [Hin Hid]%loaded_lookup]; [|done].
    destruct (sw_audit0 _ Ha). apply (sa_resolved0 p Hp Hev), list_elem_of_fmap. eauto.
Qed.
End persistence.

Section export.
Context `{GatingCodec}.

Lemma in_order_lookup g e : gating_inv g → e ∈ pending_in_order g ↔ gating_pending g !! pending_id e = Some e.
Proof.
  intros Hinv. unfold pending_in_order. rewrite list_elem_of_omap. split.
  - intros (id & _ & He). by destruct (gi_pending _ Hinv _ _ He) as [-> _].
  - intros He. exists (pending_id e). split; [|done]. apply (gi_dom _ Hinv). eauto.
Qed.

Lemma in_order_ids g : gating_inv g → map pending_id (pending_in_order g) = gating_pending_order g.
Proof.
  intros Hinv. unfold pending_in_order.
  assert (Hall : ∀ id, id ∈ gating_pending_order g → ∃ e, gating_pending g !! id = Some e ∧ pending_id e = id).
  { intros id [e He]%(gi_dom _ Hinv). exists e. split; [done|]. by destruct (gi_pending _ Hinv _ _ He). }
  induction (gating_pending_order g) as [|id l IH]; [done|]. destruct (Hall id) as (e & He & Hid); [by left|].
  simpl. rewrite He. simpl. rewrite Hid. f_equal. apply IH. intros i Hi. apply Hall. by right.
Qed.

Definition exported (g : GatingState) : GatingStateSnapshot :=
  mkSnapshot 2 (gating_epoch g) (gating_sequence g) (pending_in_order g) (gating_audit g).

Lemma known_exported g prefix v :
  id_known (gating_epoch g) (gating_sequence g) prefix v → snapshot_id_ok (exported g) false v prefix = true.
Proof.
  unfold id_known, snapshot_id_ok. destruct (parse_gating_id v prefix) as [[n|e n]|]; try done. simpl.
  intros Hk. case_bool_decide as He; [|done]. simpl. apply Z.ltb_lt, Hk. done.
Qed.

Lemma exported_wf g : gating_inv g → snapshot_wf (exported g).
Proof.
  intros Hinv. split; cbn [exported snapshot_version snapshot_owner_epoch snapshot_pending
    snapshot_audit snapshot_next_sequence]; try done; try apply Hinv.
  - by right.
  - rewrite <- (length_map pending_id), in_order_ids by done. apply Hinv.
  - rewrite in_order_ids by done. apply Hinv.
  - apply Forall_forall. intros e He%in_order_lookup; [|done]. destruct (gi_pending _ Hinv _ _ He) as [_ []].
    split; try done; by apply known_exported.
  - pose proof (gi_audit _ Hinv) as Hall. rewrite Forall_forall in *. intros a Ha. destruct (Hall a Ha). split; try done; try by apply known_exported.
    + intros p Hp. apply known_exported. auto.
    + intros p Hp Hev. rewrite in_order_ids by done. rewrite (gi_dom _ Hinv), (gi_resolved _ Hinv a p) by done. by intros [? ?].
Qed.

Lemma loaded_exported g g0 : gating_inv g → gating_pending (loaded (exported g) g0) = gating_pending g.
Proof.
  intros Hinv. apply map_eq. intros id. apply option_eq. intros e.
  rewrite loaded_lookup by (simpl; rewrite in_order_ids; [apply Hinv|done]). simpl.
  rewrite in_order_lookup by done. split; [by intros [? <-]|].
  intros He. by destruct (gi_pending _ Hinv _ _ He) as [-> _].
Qed.
End export.


(** ** The life of a runtime, as far as its gates can tell *)

Section life.
Context `{GatingCodec}.

Inductive gating_step : MetaRuntimeHandle → MetaRuntimeHandle → Prop :=
| Evaluates request origin s : gating_step s (evaluate_gating_action_with_origin request origin s).2
| Decides request s : gating_step s (decide_gating_action request s).2
| DecidesFor request decider s : gating_step s (decide_gating_action_for request decider s).2
| DecidesAuthorized E request (authorize : option GatingPendingEntry → Result GatingDecider E) s :
    gating_step s (decide_gating_action_authorized request authorize s).2
| Delivers batch s : gating_step s (deliver batch s)
| Lists s : gating_step s (list_gating_pending s).2
| ReadsAfter cursor s : gating_step s (gating_audit_after cursor s).2
| ReadsAudit limit s : gating_step s (gating_audit_entries limit s).2
| Exports s : gating_step s (gating_state_snapshot s).2
| Restores snapshot s :
    snapshot_foreign (gating_epoch (gating s)) snapshot → gating_step s (restore_gating_state snapshot s).2
| SetsRoutes routes s : gating_step s (set_gating_escalation_routes routes s)
| Observes observer s : gating_step s (register_gating_resolution_observer observer s)
| Elsewhere s s' : gating s' = gating s → gating_step s s'.

Definition advances (s s' : MetaRuntimeHandle) : Prop :=
  gating_inv (gating s') ∧ later (gating s) (gating s').

Lemma later_same g g' : same_gates g g' → later g g'.
Proof. intros (E1 & E2 & _ & E4 & _). split_and!; [done|lia|]. by rewrite E4. Qed.

Lemma advances_same s s' s'' : same_gates (gating s') (gating s'') → advances s s' → advances s s''.
Proof. intros Hs [Hi Hl]. split; [by eapply same_gates_inv|]. etrans; [exact Hl|]. by apply later_same. Qed.

Lemma expiry_later l k s s' : expiry l k s s' → later (gating s) (gating s').
Proof.
  intros []. apply later_sub; [done|lia|]. intros id Hid. rewrite ex_pending. by case_decide.
Qed.

Lemma refresh_advances s : gating_inv (gating s) → advances s (refresh_gating_timeouts s).
Proof. intros Hinv. destruct (refresh_spec s Hinv) as [k Hex]. split; [apply Hex|by eapply expiry_later]. Qed.

Lemma view_advances s : gating_inv (gating s) → advances s (flush_gating_notices (refresh_gating_timeouts s)).
Proof. intros Hinv. eapply advances_same; [apply flush_same|by apply refresh_advances]. Qed.

Lemma expired_bound now g : gating_inv g → (length (expired_ids now g) ≤ GATING_PENDING_MAX_RETAINED)%nat.
Proof.
  intros Hinv. etrans; [|exact (gi_bound _ Hinv)].
  apply submseteq_length, NoDup_submseteq; [apply NoDup_expired_ids|].
  intros id (e & He & _)%elem_of_expired_ids. apply (gi_dom _ Hinv). eauto.
Qed.

(** Dropping the expired ids is keeping the live entries. *)
Lemma live_lookup now g id :
  (if decide (id ∈ expired_ids now g) then None else gating_pending g !! id) =
  opt_filter (λ entry, now <? deadline_at_ms entry) (gating_pending g !! id).
Proof.
  destruct (gating_pending g !! id) as [entry|] eqn:Hid; [|by case_decide].
  simpl. destruct (Z.ltb_spec now (deadline_at_ms entry)) as [Hlt|Hge]; case_decide as Hin; try done.
  - apply elem_of_expired_ids in Hin as (e & He & Hd). rewrite Hid in He. injection He as <-. lia.
  - destruct Hin. apply elem_of_expired_ids. eauto.
Qed.

Lemma evaluate_advances request origin s :
  gating_inv (gating s) → advances s (evaluate_gating_action_with_origin request origin s).2.
Proof.
  intros Hinv. unfold evaluate_gating_action_with_origin.
  destruct (evaluate_gating_action_minting request origin s) as [r s'] eqn:E.
  pose proof (evaluate_minting_wp request origin s Hinv) as Hrun. apply (wp_run _ _ _ _ _ E) in Hrun.
  destruct (refresh_advances s Hinv) as [Hi Hl]. cbn [fst snd] in *.
  apply (advances_same _ s'); [apply flush_same|]. destruct r as [res|u].
  - split; [apply Hrun|]. etrans; [exact Hl|apply Hrun].
  - destruct Hrun as [-> _]. done.
Qed.

Lemma decide_advances request decider s :
  gating_inv (gating s) → advances s (decide_gating_action_as request decider s).2.
Proof.
  intros Hinv. destruct (decide_gating_action_as request decider s) as [r s'] eqn:E.
  pose proof (decide_wp request decider s Hinv) as Hrun. apply (wp_run _ _ _ _ _ E) in Hrun.
  destruct (refresh_advances s Hinv) as [Hi Hl].
  destruct (decision_check _ _ _) as [[entry successor]|err].
  - destruct Hrun as (res & _ & _ & _ & []). split; [done|by etrans].
  - by destruct Hrun as [_ ->].
Qed.

(** A restore is refused and changes nothing, or builds the loaded state and expires it. *)
Lemma restore_cases snapshot s :
  (∃ err, restore_gating_state snapshot s = (Err err, s) ∧ (gating_pristine (gating s) = false ∨ ¬ snapshot_wf snapshot)) ∨
  (gating_pristine (gating s) = true ∧ snapshot_wf snapshot ∧
   restore_gating_state snapshot s =
     (Ok tt, flush_gating_notices (refresh_gating_timeouts (set_gating (loaded snapshot (gating s)) s)))).
Proof.
  destruct (restore_gating_state snapshot s) as [r s'] eqn:E. revert E.
  enough (Hw : wp (restore_gating_state snapshot) (λ r s',
    (∃ err, (r, s') = (Err err, s) ∧ (gating_pristine (gating s) = false ∨ ¬ snapshot_wf snapshot)) ∨
    (gating_pristine (gating s) = true ∧ snapshot_wf snapshot ∧ (r, s') =
      (Ok tt, flush_gating_notices (refresh_gating_timeouts (set_gating (loaded snapshot (gating s)) s))))) s).
  { intros E. exact (wp_run _ _ _ _ _ E Hw). }
  unfold restore_gating_state. do 4 wp_step. destruct (gating_pristine (gating s)); cbn [negb]; [|left; by eauto].
  do 2 wp_step. destruct (validate_gating_snapshot snapshot) as [[]|err] eqn:Hv.
  2: { left. exists err. split; [done|]. right. intros Hwf%validate_snapshot_iff. congruence. }
  apply validate_snapshot_iff in Hv. do 3 wp_step. right. split_and!; done.
Qed.

Lemma restored_inv snapshot s :
  gating_inv (gating s) → snapshot_wf snapshot → snapshot_foreign (gating_epoch (gating s)) snapshot →
  gating_inv (gating (set_gating (loaded snapshot (gating s)) s)).
Proof. intros [] Hwf Hf. by apply loaded_inv. Qed.

(** Every step keeps the invariant; once the owner has minted, time only moves forward. *)
Lemma step_advances s s' :
  gating_step s s' → gating_inv (gating s) →
  gating_inv (gating s') ∧ (0 < gating_sequence (gating s) → later (gating s) (gating s')).
Proof.
  intros Hstep Hinv. enough (advances s s' ∨ (gating_sequence (gating s) = 0 ∧ gating_inv (gating s'))) as [[]|[]].
  { auto. } { split; [done|lia]. }
  destruct Hstep as [request origin s|request s|request decider s|E request authorize s|batch s|s|cursor s|limit s|s
                    |snapshot s Hf|routes s|observer s|s s' Hg].
  - left. by apply evaluate_advances.
  - left. unfold decide_gating_action. pose proof (decide_advances request None s Hinv).
    destruct (decide_gating_action_as _ _ _) as [r s']. by apply (advances_same _ s').
  - left. unfold decide_gating_action_for. pose proof (decide_advances request (Some decider) s Hinv).
    destruct (decide_gating_action_as _ _ _) as [r s']. by apply (advances_same _ s').
  - left. unfold decide_gating_action_authorized. destruct (refresh_advances s Hinv) as [Hi Hl].
    destruct (authorize _) as [decider|e]; [|by apply (advances_same _ (refresh_gating_timeouts s))].
    pose proof (decide_advances request (Some decider) _ Hi) as [Hi2 Hl2].
    destruct (decide_gating_action_as _ _ _) as [r s2].
    apply (advances_same _ s2); [done|]. split; [done|]. etrans; [exact Hl|exact Hl2].
  - left. by apply (advances_same _ s); [|split].
  - left. by apply view_advances.
  - left. by apply view_advances.
  - left. by apply view_advances.
  - left. by apply view_advances.
  - destruct (restore_cases snapshot s) as [(err & -> & _)|(Hp & Hwf & ->)]; [by left|]. right. split.
    + unfold gating_pristine in Hp. apply andb_true_iff in Hp as [[[Hp _]%andb_true_iff _]%andb_true_iff _]. by apply Z.eqb_eq.
    + by apply view_advances, restored_inv.
  - left. by apply (advances_same _ s); [|split].
  - left. by apply (advances_same _ s); [|split].
  - left. unfold advances. by rewrite Hg.
Qed.

Lemma steps_advance s s' :
  rtc gating_step s s' → gating_inv (gating s) → 0 < gating_sequence (gating s) →
  gating_inv (gating s') ∧ later (gating s) (gating s').
Proof.
  induction 1 as [s|s1 s2 s3 Hstep _ IH]; [done|]. intros Hinv Hpos.
  destruct (step_advances _ _ Hstep Hinv) as [Hinv2 Hl2]. specialize (Hl2 Hpos).
  destruct IH as [Hinv3 Hl3]; [done|pose proof Hl2 as (_ & ? & _); lia|]. split; [done|by etrans].
Qed.

Definition freshly_started (s : MetaRuntimeHandle) : Prop :=
  gating_pristine (gating s) = true ∧ ∀ e, gating_epoch (gating s) = Some e → valid_gating_epoch e = true.

Lemma fresh_inv s : freshly_started s → gating_inv (gating s).
Proof.
  intros [Hp He]. unfold gating_pristine, is_empty in Hp.
  destruct (gating s) as [ep n m [] [] obs q r c d]; try (by rewrite ?andb_false_r in Hp). simpl in *.
  apply andb_true_iff in Hp as [[[->%Z.eqb_eq Hm%Nat.eqb_eq]%andb_true_iff _]%andb_true_iff _].
  apply map_size_empty_iff in Hm as ->.
  split; simpl; try done; try (unfold is_u64, U64_MAX; lia); try constructor; try lia.
  - by intros ?%elem_of_nil.
  - rewrite lookup_empty. by intros [].
Qed.
End life.

(** ** Theorems *)

(** What the theorems say of a state, named. *)

(** An evaluation opened a new gate, with the request's terms. *)
Definition gate_opened `{RuntimeEnv} (request : GatingEvaluateRequest) (origin : option GatingOrigin)
    (res : GatingEvaluateResult) (before after : GatingState) : Prop :=
  ∃ entry, gate_of request origin res entry ∧ gate_held after entry ∧ gating_pending before !! pending_id entry = None.

(** The audit entry of a gate that timed out. *)
Definition timed_out (id : string) (a : GatingAuditEntry) : Prop :=
  audit_pending_id a = Some id ∧ audit_event_type a = "timeout_fallback" ∧ audit_outcome a = SafeDraft.

(** [entries] is what follows the one entry with the cursor's id. *)
Definition follows_cursor (cursor : string) (entries log : list GatingAuditEntry) : Prop :=
  ∃ before a, log = before ++ a :: entries ∧ audit_id a = cursor ∧
    ∀ b, b ∈ before ++ entries → audit_id b ≠ cursor.

Section theorems.
Context `{GatingCodec}.

(** C32: From a freshly started runtime on, after any sequence of gating
    operations, restores of other owners' snapshots and operations of other
    components, the gating state is well formed: at most 512 gates and 512
    audit entries, each gate listed once in order of arrival, of the highest
    tier and with a deadline after its creation, every id one this owner has
    already issued or another owner's, and no gate both pending and resolved. *)
Theorem gating_invariant_reachable s0 s :
  freshly_started s0 → rtc gating_step s0 s → gating_inv (gating s).
Proof.
  intros Hfresh Hsteps. apply fresh_inv in Hfresh. induction Hsteps as [s|s1 s2 s3 Hstep _ IH]; [done|].
  apply IH. by eapply step_advances.
Qed.

(** C3: A decision taken through a handle is carried out exactly when its checks
    pass on the state that time leaves; otherwise it reports the first check that
    failed and changes nothing else.  One that is carried out was on a gate still
    pending and before its deadline, by the approver that was asked for, not by
    the actor when it approves; the gate is gone, the audit log and one notice
    say how, and an escalation opens one new gate with the same deadline. *)
Theorem decision_sound request decider s r s' :
  gating_inv (gating s) → decide_gating_action_as request decider s = (r, s') →
  let now := clock (world_step s) in
  let id := trim (decide_pending_id request) in
  let s1 := refresh_gating_timeouts s in
  match decision_check request decider (gating s1) with
  | Err err => r = Err err ∧ s' = s1
  | Ok (entry, successor) => ∃ res, r = Ok res ∧
      gating_pending (gating s) !! id = Some entry ∧ now < deadline_at_ms entry ∧
      (∀ a, requested_approver entry = Some a → decided_approver_id res = a) ∧
      (decision request = Approve →
        actor_is_decider (decided_approver_id res) decider (pending_actor_id entry) = false) ∧
      committed request decider now id entry successor (gating s1) (gating s') res
  end.
Proof.
  intros Hinv E now id s1. pose proof (decide_wp request decider s Hinv) as Hrun.
  apply (wp_run _ _ _ _ _ E) in Hrun. fold s1 in Hrun.
  destruct (decision_check request decider (gating s1)) as [[entry successor]|err] eqn:Hcheck; [|done].
  destruct Hrun as (res & -> & Hlive & Hpend & Hc). exists res.
  pose proof (cm_result _ _ _ _ _ _ _ _ _ Hc) as Hres. rewrite Hres. cbn [decided_approver_id].
  rewrite <- Hres. unfold decision_check in Hcheck.
  apply and_then_Ok in Hcheck as (_ & _ & Hcheck). destruct (is_some_and decider _); [done|].
  apply and_then_Ok in Hcheck as (entry' & _ & Hcheck). apply and_then_Ok in Hcheck as (succ & Hck & [= -> ->]).
  unfold check_decision in Hck. destruct (is_approve _ && _) eqn:Eself; [done|].
  destruct (is_some_and (requested_approver entry) _) eqn:Eapp; [done|]. split_and!; try done.
  - intros a Ha. rewrite Ha in Eapp at 1. simpl in Eapp. apply negb_false_iff, bool_decide_eq_true in Eapp. done.
  - intros Hd. rewrite Hd in Eself. by destruct (actor_is_decider _ _ _).
Qed.

(** A gate that was decided is never pending again, whatever is done to the
    runtime afterwards: no later decision can find it. *)
Theorem decided_gate_never_reopens request decider s res s1 s2 :
  gating_inv (gating s) → decide_gating_action_as request decider s = (Ok res, s1) → rtc gating_step s1 s2 →
  gating_pending (gating s2) !! trim (decide_pending_id request) = None.
Proof.
  intros Hinv E Hsteps. pose proof (decide_wp request decider s Hinv) as Hrun. apply (wp_run _ _ _ _ _ E) in Hrun.
  destruct (refresh_advances s Hinv) as [Hinvr Hlr].
  destruct (decision_check _ _ _) as [[entry successor]|err] eqn:Hcheck; [|by destruct Hrun].
  destruct Hrun as (res' & [= <-] & _ & Hpend & Hc). set (id := trim _) in *.
  assert (Hpr : gating_pending (gating (refresh_gating_timeouts s)) !! id = Some entry).
  { unfold decision_check in Hcheck. apply and_then_Ok in Hcheck as (_ & _ & Hcheck).
    destruct (is_some_and decider _); [done|]. apply and_then_Ok in Hcheck as (entry' & Hfound & Hcheck).
    apply and_then_Ok in Hcheck as (? & _ & [= <- <-]). fold id in Hfound.
    by destruct (gating_pending _ !! id) as [?|]; [injection Hfound as ->|]. }
  destruct (gi_pending _ Hinvr _ _ Hpr) as [Hid [Hk _ _ _ _]]. rewrite Hid in Hk.
  pose proof (cm_inv _ _ _ _ _ _ _ _ _ Hc) as Hinv1. pose proof (cm_later _ _ _ _ _ _ _ _ _ Hc) as (Hep & _ & _).
  pose proof (cm_moved _ _ _ _ _ _ _ _ _ Hc) as Hmoved. pose proof (gi_sequence _ Hinvr) as [Hpos _].
  destruct (steps_advance _ _ Hsteps Hinv1 ltac:(lia)) as [_ (_ & _ & Hgone)]. apply Hgone.
  - rewrite Hep. eauto with meta.
  - rewrite (cm_pending _ _ _ _ _ _ _ _ _ Hc). destruct (next_pending_id res) as [next|] eqn:Hnext.
    + rewrite lookup_insert_ne; [apply lookup_delete_eq|]. intros ->.
      pose proof (cm_fresh _ _ _ _ _ _ _ _ _ Hc _ Hnext). congruence.
    + apply lookup_delete_eq.
Qed.

(** An evaluation never grants more than its tier admits: the two lower tiers
    are allowed, the third is allowed with an audit entry, the highest opens a
    gate.  The gate is new, holds the request's actor, approver and origin, and
    its deadline is its creation plus the timeout clamped to one second and
    seven days.  Without a gate the pending gates are untouched.  When conflicts
    are the runtime's own, the answer is exactly: a safe draft when ids have run
    out, when the origin is invalid, or when a conflict or its missing context
    blocks an upper tier; otherwise what the tier admits. *)
Theorem evaluation_sound request origin s res s' :
  gating_inv (gating s) → evaluate_gating_action_with_origin request origin s = (res, s') →
  let s1 := refresh_gating_timeouts s in
  tier_admits (request_risk_tier request) (eval_outcome res) ∧
  (eval_outcome res = PendingApproval → gate_opened request origin res (gating s1) (gating s')) ∧
  (eval_outcome res ≠ PendingApproval →
    eval_pending_id res = None ∧ gating_pending (gating s') = gating_pending (gating s1)) ∧
  (is_module_loaded s "memory" = false →
    (eval_outcome res, eval_fallback_reason res) = expected_outcome s1 request origin).
Proof.
  intros Hinv E s1. unfold evaluate_gating_action_with_origin in E.
  destruct (evaluate_gating_action_minting request origin s) as [r s2] eqn:Em.
  pose proof (evaluate_minting_wp request origin s Hinv) as Hrun. apply (wp_run _ _ _ _ _ Em) in Hrun. fold s1 in Hrun.
  destruct (refresh_spec s Hinv) as [k Hex]. fold s1 in Hex.
  assert (Hload : is_module_loaded s1 "memory" = is_module_loaded s "memory") by (rewrite (ex_frame _ _ _ _ Hex); done).
  rewrite <- Hload. injection E as <- <-. destruct r as [res|u]; cbn [fst snd].
  - destruct Hrun as [_ _ H1 H2 H3 H4]. split_and!; done.
  - destruct Hrun as [-> Hu]. split_and!; try done. intros _. unfold expected_outcome. by rewrite Hu.
Qed.

(** When the owner has ids for them, a refresh resolves exactly the gates whose
    deadline has passed: they leave the pending set, the other gates stay as they
    were, and each resolution is announced and audited as a safe draft once. *)
Theorem timeouts_resolve_expired_gates s :
  let now := clock (world_step s) in
  let expired := expired_ids now (gating s) in
  gating_inv (gating s) → gating_ids_available (gating s) (Z.of_nat (length expired)) = Ok tt →
  let s' := refresh_gating_timeouts s in
  (∀ id, gating_pending (gating s') !! id =
    opt_filter (λ entry, now <? deadline_at_ms entry) (gating_pending (gating s) !! id)) ∧
  gating_notice_queue (gating s') =
    gating_notice_queue (gating s) ++ omap (λ id, timeout_notice id <$> gating_pending (gating s) !! id) expired ∧
  ∃ news, gating_audit (gating s') = shrink_front GATING_AUDIT_MAX_RETAINED (gating_audit (gating s) ++ news) ∧
    Forall2 timed_out expired news.
Proof.
  intros now expired Hinv Hroom s'. destruct (refresh_spec s Hinv) as [k Hex]. fold now expired s' in Hex.
  assert (k = length expired) as Hk.
  { destruct (decide (k < length expired)%nat) as [Hlt|]; [|pose proof (ex_prefix _ _ _ _ Hex); lia].
    destruct (ex_stop _ _ _ _ Hex Hlt) as [err Hstop]. apply ids_available_Ok in Hroom as [He Hle].
    enough (gating_ids_available (gating s') 1 = Ok tt) by congruence.
    apply ids_available_Ok. rewrite (ex_epoch _ _ _ _ Hex), (ex_sequence _ _ _ _ Hex). split; [done|lia]. }
  destruct Hex as [_ _ _ _ Hp Hn Ha _ _ _ _ _]. rewrite take_ge in Hp, Hn, Ha by lia. split_and!; try done.
  intros id. rewrite Hp. apply live_lookup.
Qed.

(** A runtime's own snapshot is accepted by the importer and restores: read
    into a freshly started owner under another epoch, it gives a well-formed
    state with the same gates, less those whose deadline has passed meanwhile, and
    the same audit log followed by their timeouts. *)
Theorem snapshot_restores s snapshot s' t e :
  gating_inv (gating s) → gating_state_snapshot s = (snapshot, s') →
  freshly_started t → gating_epoch (gating t) = Some e → snapshot_foreign (Some e) snapshot →
  validate_gating_snapshot snapshot = Ok tt ∧
  ∃ t', restore_gating_state snapshot t = (Ok tt, t') ∧ gating_inv (gating t') ∧
    (∀ id, gating_pending (gating t') !! id =
      opt_filter (λ entry, clock (world_step t) <? deadline_at_ms entry) (gating_pending (gating s') !! id)) ∧
    ∃ news, gating_audit (gating t') = shrink_front GATING_AUDIT_MAX_RETAINED (gating_audit (gating s') ++ news) ∧
      Forall (λ a, audit_event_type a = "timeout_fallback" ∧ audit_outcome a = SafeDraft) news.
Proof.
  intros Hinv Hsnap Hfresh He Hforeign. injection Hsnap as <- <-.
  destruct (view_advances s Hinv) as [Hinv1 _]. set (s1 := flush_gating_notices _) in *.
  change (mkSnapshot 2 _ _ _ _) with (exported (gating s1)) in *. clearbody s1.
  pose proof (exported_wf _ Hinv1) as Hwf. split; [by apply validate_snapshot_iff|].
  pose proof (fresh_inv _ Hfresh) as Hinvt. rewrite <- He in Hforeign.
  destruct (restore_cases (exported (gating s1)) t) as [(err & _ & [Hn|Hn])|(Hp & _ & ->)]; [|done|].
  { destruct Hfresh. congruence. }
  pose proof (restored_inv _ _ Hinvt Hwf Hforeign) as Hinvl. set (t1 := set_gating _ t) in *.
  eexists. split; [done|]. split; [by apply view_advances|].
  destruct (refresh_spec t1 Hinvl) as [k Hex]. change (world_step t1) with (world_step t) in Hex.
  assert (Hload : gating_pending (gating t1) = gating_pending (gating s1)) by by apply loaded_exported.
  assert (Hroom : room (gating (refresh_gating_timeouts t1)) 1).
  { apply ids_available_Ok. rewrite (ex_epoch _ _ _ _ Hex), (ex_sequence _ _ _ _ Hex).
    change (gating_epoch (gating t1)) with (gating_epoch (gating t)). rewrite He. split; [eauto|].
    change (gating_sequence (gating t1)) with (gating_sequence (gating t)).
    unfold gating_pristine in Hp. apply andb_true_iff in Hp as [[[->%Z.eqb_eq _]%andb_true_iff _]%andb_true_iff _].
    pose proof (ex_prefix _ _ _ _ Hex) as Hk. pose proof (expired_bound (clock (world_step t)) _ Hinvl) as Hb.
    unfold GATING_PENDING_MAX_RETAINED, U64_MAX in *. lia. }
  split.
  - intros id. change (gating_pending (gating (flush_gating_notices (refresh_gating_timeouts t1))))
      with (gating_pending (gating (refresh_gating_timeouts t1))).
    rewrite (expiry_complete _ _ _ _ Hex Hroom), <- Hload. apply live_lookup.
  - destruct (ex_audit _ _ _ _ Hex) as (news & Ha & Hn). exists news. split; [exact Ha|].
    eapply Forall2_Forall_r; [exact Hn|]. apply Forall_forall. intros ? _ a (_ & ? & ?). done.
Qed.

(** An audit reader that resumes after a cursor gets exactly the entries after
    it, in order; a cursor that has left the retained log is reported as a gap, and
    only then, with the whole log. *)
Theorem audit_page_after_cursor s cursor page s' :
  gating_inv (gating s) → gating_audit_after (Some cursor) s = (page, s') →
  (page_gap page = false → follows_cursor cursor (page_entries page) (gating_audit (gating s'))) ∧
  (page_gap page = true ↔ cursor ∉ audit_id <$> gating_audit (gating s')) ∧
  (page_gap page = true → page_entries page = gating_audit (gating s')).
Proof.
  intros Hinv E. unfold gating_audit_after in E. destruct (view_advances s Hinv) as [Hinv1 _].
  set (s1 := flush_gating_notices _) in *. clearbody s1. injection E as <- <-. cbn [page_entries page_gap].
  destruct (position _ _) as [i|] eqn:Hpos; cbn [fmap option_fmap option_map unwrap_or is_none is_some negb].
  - apply position_Some in Hpos as (a & Ha & Hid%bool_decide_eq_true & _).
    pose proof (take_drop_middle _ _ _ Ha) as Hsplit. split_and!; [|split; [done|]|done].
    + intros _. exists (take i (gating_audit (gating s1))), a. split_and!; [done|done|].
      pose proof (gi_audit_ids _ Hinv1) as Hnd. rewrite <- Hsplit, fmap_app, fmap_cons in Hnd.
      apply NoDup_app in Hnd as (_ & Hdis & [Hni _]%NoDup_cons). rewrite Hid in *.
      intros b [Hb|Hb]%elem_of_app Hbid.
      * apply (Hdis cursor); [apply list_elem_of_fmap; eauto|by left].
      * apply Hni, list_elem_of_fmap. eauto.
    + intros Hn. destruct Hn. apply list_elem_of_fmap. exists a. split; [done|]. by eapply list_elem_of_lookup_2.
  - pose proof (proj1 (position_None _ _) Hpos) as Hnone. split_and!; [done| |done]. split; [|done].
    intros _ (a & Hid & Ha)%list_elem_of_fmap. specialize (Hnone a Ha). by apply bool_decide_eq_false in Hnone.
Qed.
End theorems.

Module GatingExamples.

#[local] Existing Instance silent_env.

#[local] Instance silent_codec : GatingCodec.
Proof. split. intros [i [c|] [a|]]; reflexivity. Qed.

Definition start : MetaRuntimeHandle := example_runtime [].

Lemma start_fresh : freshly_started start.
Proof. split; [vm_compute; reflexivity|]. intros e [= <-]. vm_compute. reflexivity. Qed.

(** A deployment that waits for the lead. *)
Definition ask : GatingEvaluateRequest :=
  mkEvaluateRequest "deploy" "agent-1" R3 None (Some "lead") None None None None None.

Definition opened : MetaRuntimeHandle := (evaluate_gating_action_with_origin ask None start).2.

Lemma opened_inv : gating_inv (gating opened).
Proof. apply evaluate_advances, fresh_inv, start_fresh. Qed.

Definition gate : string := gating_id "pending" example_epoch 1.

Definition verdict : GatingDecideRequest := mkDecideRequest gate "lead" Approve None.

Lemma gating_invariant_reachable_witness :
  freshly_started start ∧ rtc gating_step start opened ∧ gating_inv (gating opened).
Proof.
  assert (Hs : rtc gating_step start opened) by (apply rtc_once; apply Evaluates).
  split; [apply start_fresh|]. split; [exact Hs|]. apply (gating_invariant_reachable start); [apply start_fresh|exact Hs].
Defined.

Lemma decision_sound_witness :
  ∃ res s', decide_gating_action_as verdict None opened = (Ok res, s') ∧
    decided_approver_id res = "lead" ∧ decided_outcome res = Allowed ∧ gating_inv (gating s').
Proof.
  destruct (decide_gating_action_as verdict None opened) as [r s'] eqn:E.
  pose proof (decision_sound verdict None opened r s' opened_inv E) as Hd. cbv zeta in Hd.
  assert (Hc : ∃ e, decision_check verdict None (gating (refresh_gating_timeouts opened)) = Ok (e, None) ∧
    requested_approver e = Some "lead") by (eexists; split; vm_compute; reflexivity).
  destruct Hc as (e & Hc & He). rewrite Hc in Hd. destruct Hd as (res & -> & _ & _ & Ha & _ & Hm).
  exists res, s'. split; [reflexivity|]. split; [by apply Ha|]. destruct Hm as [Hi _ _ _ _ _ _ _ Hr _ _].
  split; [rewrite Hr; reflexivity|exact Hi].
Defined.

Lemma decided_gate_never_reopens_witness :
  ∃ res s1, decide_gating_action_as verdict None opened = (Ok res, s1) ∧
    gating_pending (gating (list_gating_pending s1).2) !! gate = None.
Proof.
  destruct (decide_gating_action_as verdict None opened) as [r s1] eqn:E.
  assert (Hok : is_ok (decide_gating_action_as verdict None opened).1 = true) by (vm_compute; reflexivity).
  rewrite E in Hok. destruct r as [res|]; [|discriminate Hok]. exists res, s1. split; [reflexivity|].
  apply (decided_gate_never_reopens verdict None opened res s1); [apply opened_inv|exact E|apply rtc_once, Lists].
Defined.

Lemma evaluation_sound_witness :
  ∃ res s', evaluate_gating_action_with_origin ask None start = (res, s') ∧
    (eval_outcome res, eval_fallback_reason res) = (PendingApproval, None) ∧
    ∃ entry, gate_of ask None res entry ∧ gate_held (gating s') entry.
Proof.
  destruct (evaluate_gating_action_with_origin ask None start) as [res s'] eqn:E. exists res, s'. split; [reflexivity|].
  destruct (evaluation_sound ask None start res s' (fresh_inv _ start_fresh) E) as (_ & Hopen & _ & Hexact).
  assert (He : (eval_outcome res, eval_fallback_reason res) = (PendingApproval, None)) by (rewrite Hexact; vm_compute; reflexivity).
  split; [exact He|]. injection He as He _. destruct (Hopen He) as (entry & H1 & H2 & _). by exists entry.
Defined.

(** A minute later the gate has expired. *)
Definition much_later : MetaRuntimeHandle := opened <| world_step := 100%nat |>.

Lemma clock_inv s n : gating_inv (gating s) → gating_inv (gating (s <| world_step := n |>)).
Proof. done. Qed.

Lemma much_later_inv : gating_inv (gating much_later).
Proof. apply clock_inv, opened_inv. Qed.

Lemma timeouts_resolve_expired_gates_witness :
  gating_ids_available (gating much_later)
    (Z.of_nat (length (expired_ids (clock (world_step much_later)) (gating much_later)))) = Ok tt ∧
  gating_pending (gating much_later) !! gate ≠ None ∧
  gating_pending (gating (refresh_gating_timeouts much_later)) !! gate = None.
Proof.
  assert (Hids : gating_ids_available (gating much_later)
    (Z.of_nat (length (expired_ids (clock (world_step much_later)) (gating much_later)))) = Ok tt) by (vm_compute; reflexivity).
  split; [exact Hids|]. split; [vm_compute; discriminate|].
  destruct (timeouts_resolve_expired_gates much_later much_later_inv Hids) as [Hp _]. rewrite Hp. vm_compute. reflexivity.
Defined.

(** Another process, started under another epoch. *)
Definition other : MetaRuntimeHandle :=
  set_gating (gating start <| gating_epoch := Some "fedcba9876543210fedcba9876543210" |>) start.

Lemma other_fresh : freshly_started other.
Proof. split; [vm_compute; reflexivity|]. intros e [= <-]. vm_compute. reflexivity. Qed.

Definition backup : GatingStateSnapshot := (gating_state_snapshot opened).1.

Definition foreign_b (e prefix value : string) : bool :=
  match parse_gating_id value prefix with Some (Epoch e' _) => negb (e' =b e) | _ => true end.

Lemma foreign_b_sound e prefix value : foreign_b e prefix value = true → foreign (Some e) prefix value.
Proof.
  unfold foreign_b, foreign. intros Hf e' n [= <-] Hp. rewrite Hp in Hf. by apply negb_true_iff, bool_decide_eq_false in Hf.
Qed.

Lemma backup_foreign : snapshot_foreign (Some "fedcba9876543210fedcba9876543210") backup.
Proof.
  split.
  - assert (Hall : forallb (λ entry, foreign_b "fedcba9876543210fedcba9876543210" "gate-pending-" (pending_id entry)
      && foreign_b "fedcba9876543210fedcba9876543210" "gate-action-" (pending_action_id entry)) (snapshot_pending backup) = true)
      by (vm_compute; reflexivity).
    intros entry Hin. rewrite forallb_elem_of in Hall. apply Hall, andb_true_iff in Hin as [H1 H2].
    split; by apply foreign_b_sound.
  - assert (Hall : forallb (λ entry, foreign_b "fedcba9876543210fedcba9876543210" "gate-audit-" (audit_id entry)
      && foreign_b "fedcba9876543210fedcba9876543210" "gate-action-" (audit_action_id entry)
      && is_none_or (audit_pending_id entry) (foreign_b "fedcba9876543210fedcba9876543210" "gate-pending-"))
      (snapshot_audit backup) = true) by (vm_compute; reflexivity).
    intros entry Hin. rewrite forallb_elem_of in Hall. apply Hall in Hin as [[H1 H2]%andb_true_iff H3]%andb_true_iff.
    split_and!; [by apply foreign_b_sound..|]. intros p Hp. rewrite Hp in H3. by apply foreign_b_sound.
Qed.

Lemma snapshot_restores_witness :
  validate_gating_snapshot backup = Ok tt ∧
  ∃ t', restore_gating_state backup other = (Ok tt, t') ∧ is_Some (gating_pending (gating t') !! gate).
Proof.
  destruct (gating_state_snapshot opened) as [snapshot s'] eqn:E.
  assert (Hb : snapshot = backup) by (unfold backup; rewrite E; reflexivity). subst snapshot.
  destruct (snapshot_restores opened backup s' other "fedcba9876543210fedcba9876543210"
    opened_inv E other_fresh eq_refl backup_foreign) as (Hv & t' & Hr & _ & Hp & _).
  split; [exact Hv|]. exists t'. split; [exact Hr|]. rewrite Hp.
  assert (Hs : s' = (gating_state_snapshot opened).2) by (rewrite E; reflexivity). rewrite Hs. vm_compute. eexists. reflexivity.
Defined.

Definition first_audit : string := gating_id "audit" example_epoch 2.

Lemma audit_page_after_cursor_witness :
  page_gap (gating_audit_after (Some first_audit) opened).1 = false ∧
  ∃ before a, gating_audit (gating (gating_audit_after (Some first_audit) opened).2) =
    before ++ a :: page_entries (gating_audit_after (Some first_audit) opened).1 ∧ audit_id a = first_audit.
Proof.
  assert (Hg : page_gap (gating_audit_after (Some first_audit) opened).1 = false) by (vm_compute; reflexivity).
  split; [exact Hg|]. destruct (audit_page_after_cursor opened first_audit _ _ opened_inv (surjective_pairing _)) as [Hb _].
  destruct (Hb Hg) as (before & a & H1 & H2 & _). exists before, a. split; [exact H1|exact H2].
Defined.
End GatingExamples.

