(* ===== verification/Bootstrap.v ===== *)
(** * Bootstrap ([runtime/bootstrap.rs])

    Starting a runtime: the configuration is resolved, the ledger is read, the
    modules are started, the first events are merged, and a handle is built.
    The handle under construction carries what has been built so far. *)

From stdpp Require Import gmultiset.
From S2P Require Import Prelude Strings Json RuntimeTypes MemoryLedger EventTransport ModuleBoundary Supervisor Routing Delivery Gating GatingProofs GatingTheorems.
Open Scope Z_scope.

Inductive MetaRuntimeError :=
| StartConfig (e : ConfigResolutionError)
| StartMemoryBackend (e : LocalJsonMemoryStoreError).

Section bootstrap.
Context `{RuntimeEnv} `{ModuleOs}.

Definition new_gating_epoch (s : MetaRuntimeHandle) : option string * MetaRuntimeHandle :=
  (fmt_hex32 <$> entropy (world_step s), tick s).

(** The handle before anything was started, in a world that has been observed [n] times. *)
Definition blank_runtime (config : MetaConfig) (options : RuntimeOptions) (n : nat) : MetaRuntimeHandle :=
  mkRuntime config options (mkSupervisor ∅ ∅ [] [mkLifecycle 0 MobStarted] [] true) []
    (mkRouting 0 ∅ [] ∅) (mkDelivery 0 0 0 0 [] ∅ ∅ ∅)
    (mkGating None 0 ∅ [] [] [] [] (mkEscalation None ∅) 0 []) (mkMemory 0 [] ∅ None) n [].

Definition first_unconfigured (config : MetaConfig) : option string :=
  find_first (λ id, negb (existsb (λ module, module_id module =b id) (modules config)))
    (discovery_modules (discovery config)).

Definition open_backend (options : RuntimeOptions) : Result (option LocalJsonMemoryStoreAdapter) MetaRuntimeError :=
  match memory_backend_config options with
  | Some config => adapter ←? map_err StartMemoryBackend (from_config config); Ok (Some adapter)
  | None => Ok None
  end.

Definition read_ledger (backend : option LocalJsonMemoryStoreAdapter) :
    M MetaRuntimeHandle MetaRuntimeError PersistedMemoryState :=
  match backend with
  | Some adapter => λ s, (map_err StartMemoryBackend (ledger_read (world_step s) adapter), tick s)
  | None => mret (mkPersisted [] [])
  end.

(** [BTreeMap::insert]: an older child under the same id is dropped. *)
Definition insert_child (id : string) (child : option ModuleProcess) (s : MetaRuntimeHandle) : MetaRuntimeHandle :=
  match child with
  | None => s
  | Some child =>
      let old := live_children (supervisor s) !! id in
      let s := set_child id (Some child) s in
      match old with Some old => drop_process old s | None => s end
  end.

(** The body of the module loop; the events it pushes. *)
Definition start_module (timeout_ms : Z) (id : string) : M MetaRuntimeHandle MetaRuntimeError (list EventEnvelope) :=
  found ← gets (λ s, module_and_prespawn s id);
  target ← lift_result (ok_or found (StartConfig (ModuleNotConfigured id)));
  let module : ModuleConfig := target.1 in
  options ← gets runtime_options;
  result ← lift_state (supervise_module_start module target.2 timeout_ms options);
  _ ← modify (adopt_start result);
  warnings ← (match terminal_error result with
              | Some error => e ← lift_state (supervisor_warning_event (module_id module) error); mret [e]
              | None => mret []
              end : M MetaRuntimeHandle MetaRuntimeError (list EventEnvelope));
  match start_event result with
  | None => mret warnings
  | Some event =>
      _ ← modify (set_loaded id);
      _ ← modify (insert_child id (start_child result));
      mret (warnings ++ [event])
  end.

Fixpoint start_modules (timeout_ms : Z) (ids : list string) : M MetaRuntimeHandle MetaRuntimeError (list EventEnvelope) :=
  match ids with
  | [] => mret []
  | id :: rest =>
      events ← start_module timeout_ms id;
      more ← start_modules timeout_ms rest;
      mret (events ++ more)
  end.

(** The handle that is returned. *)
Definition build_handle (runtime_epoch_ms : Z) (epoch : option string) (ledger : MemoryState)
    (module_events agent_events : list EventEnvelope) (s : MetaRuntimeHandle) : MetaRuntimeHandle :=
  let sup := supervisor s in
  s <| supervisor := sup <| lifecycle_events :=
         lifecycle_events sup ++ [mkLifecycle 1 ModulesStarted; mkLifecycle 2 MergedStreamStarted] |> |>
    <| merged_events := merge_unified_events module_events agent_events |>
    <| delivery := mkDelivery 0 runtime_epoch_ms 0 0 [] ∅ ∅ ∅ |>
    <| gating := gating s <| gating_epoch := epoch |> |>
    <| memory := ledger |>.

Definition boot (agent_events : list EventEnvelope) (timeout_ms : Z) : M MetaRuntimeHandle MetaRuntimeError unit :=
  runtime_epoch_ms ← lift_state current_time_ms;
  c ← gets config;
  _ ← lift_result (match first_unconfigured c with
                   | Some id => Err (StartConfig (ModuleNotConfigured id))
                   | None => Ok tt
                   end);
  options ← gets runtime_options;
  backend ← lift_result (open_backend options);
  persisted ← read_ledger backend;
  module_events ← start_modules timeout_ms (discovery_modules (discovery c));
  epoch ← lift_state new_gating_epoch;
  modify (build_handle runtime_epoch_ms epoch (load_memory_state persisted backend) module_events agent_events).

(** The handle is returned when the result is [Ok] and dropped otherwise. *)
Definition start_meta_runtime_with_options (config : MetaConfig) (agent_events : list EventEnvelope) (timeout_ms : Z)
    (options : RuntimeOptions) (n : nat) : Result unit MetaRuntimeError * MetaRuntimeHandle :=
  boot agent_events timeout_ms (blank_runtime config options n).

Definition default_options : RuntimeOptions := mkOptions 1 1 0 false None.

Definition start_meta_runtime (config : MetaConfig) (agent_events : list EventEnvelope) (timeout_ms : Z) (n : nat) :
    Result unit MetaRuntimeError * MetaRuntimeHandle :=
  start_meta_runtime_with_options config agent_events timeout_ms default_options n.
End bootstrap.

(** ** Proofs *)

Section starting.
Context `{RuntimeEnv} `{ModuleOs}.

Lemma new_epoch_valid s e : (new_gating_epoch s).1 = Some e → valid_gating_epoch e = true.
Proof.
  unfold new_gating_epoch. cbn [fst]. intros (v & Hv & ->)%fmap_Some. apply entropy_u128 in Hv as [Hv _].
  destruct (fmt_hex32_shape v Hv) as [Hl Hf]. unfold valid_gating_epoch. by rewrite Hl, Hf.
Qed.

(** The event a started module is loaded with carries the source of its kind. *)
Lemma capture_event module pre timeout force s event child s' :
  spawn_module_capture_first_event module pre timeout force s = (Ok (event, child), s') → source_consistent event.
Proof.
  unfold spawn_module_capture_first_event. destruct (spawn _ _ _ _ s) as [[c|err] s1]; [|done].
  unfold first_event. destruct (os_first_line _ _ _) as [line| | |err].
  1: destruct (normalize_event_line (chomp line)) as [e|err] eqn:E;
    [intros [= <- <- <-]; by eapply normalize_event_line_consistent|].
  all: by destruct (terminate _ _ _) as [[[]]].
Qed.

Lemma attempts_event fuel module pre timeout options attempts state l retained s r s' event :
  supervise_attempts fuel module pre timeout options attempts state l retained s = Some (r, s') →
  start_event r = Some event → source_consistent event.
Proof.
  revert attempts state l retained s. induction fuel as [|fuel IH]; intros attempts state l retained s; [done|].
  cbn [supervise_attempts].
  destruct (spawn_module_capture_first_event _ _ _ _ s) as [[[e child]|[err unconfirmed]] s1] eqn:Ec.
  - apply capture_event in Ec. destruct (should_restart _ _ _); [|by intros [= <- <-] [= <-]].
    destruct (terminate _ child s1) as [[[[]|err] child'] s2]; [apply IH|by intros [= <- <-] [= <-]].
  - destruct (should_retry _ _ _); [apply IH|by intros [= <- <-]].
Qed.

Lemma start_event_consistent module pre timeout options s event :
  start_event (supervise_module_start module pre timeout options s).1 = Some event → source_consistent event.
Proof.
  unfold supervise_module_start. destruct (module_uses_mcp module pre).
  - unfold supervise_mcp_module_start. destruct (probe_module_mcp_tools _ _ _ _); [|done]. by intros [= <-].
  - destruct (supervise_attempts _ _ _ _ _ _ _ _ _ s) as [[r s']|] eqn:E; [|done]. simpl. by eapply attempts_event.
Qed.

(** What starting modules leaves alone. *)
Definition boot_frame (s s' : MetaRuntimeHandle) : Prop :=
  s' = s <| supervisor := supervisor s' |> <| world_step := world_step s' |> <| process_journal := process_journal s' |> ∧
  lifecycle_events (supervisor s') = lifecycle_events (supervisor s) ∧ running (supervisor s') = running (supervisor s).

#[global] Instance boot_frame_preorder : PreOrder boot_frame.
Proof.
  split; [intros s; by destruct s|]. intros s1 s2 s3 (E1 & L1 & R1) (E2 & L2 & R2). split; [|split; congruence].
  rewrite E2, E1 at 1. done.
Qed.

Lemma world_frame s s' : world_only s s' → boot_frame s s'.
Proof. intros Hw. rewrite Hw. by destruct s. Qed.

Lemma retain_all_frame l s :
  boot_frame s (retain_all l s) ∧ loaded_modules (supervisor (retain_all l s)) = loaded_modules (supervisor s) ∧
  live_children (supervisor (retain_all l s)) = live_children (supervisor s).
Proof.
  revert s. induction l as [|p l IH]; intros s; simpl; [by split_and!; [reflexivity|..]|].
  destruct (IH (retain p s)) as (H1 & H2 & H3). fold (retain_all l (retain p s)).
  assert (boot_frame s (retain p s) ∧ loaded_modules (supervisor (retain p s)) = loaded_modules (supervisor s) ∧
    live_children (supervisor (retain p s)) = live_children (supervisor s)) as (R1 & R2 & R3).
  { unfold retain. destruct (is_reaped p); [by split_and!; [reflexivity|..]|]. destruct s. done. }
  split_and!; [by etrans|congruence|congruence].
Qed.

Lemma adopt_frame r s :
  boot_frame s (adopt_start r s) ∧ loaded_modules (supervisor (adopt_start r s)) = loaded_modules (supervisor s) ∧
  live_children (supervisor (adopt_start r s)) = live_children (supervisor s).
Proof.
  unfold adopt_start. set (s1 := set_supervisor _ s). destruct (retain_all_frame (start_retained r) s1) as (H1 & H2 & H3).
  split_and!; [|done|done]. etrans; [|exact H1]. unfold s1. destruct s. done.
Qed.

Context (piped : ∀ n command args env pid, os_spawn n command args env ≠ Ok (pid, false)).

(** A module that is not loaded yet is started without losing a process. *)
Lemma start_module_wp timeout id s :
  sup_ok s → id ∉ loaded_modules (supervisor s) →
  wp (start_module timeout id) (λ r s',
    match r with
    | Ok events => keeps [] s s' ∧ boot_frame s s' ∧ Forall source_consistent events ∧
        loaded_modules (supervisor s') ⊆ {[id]} ∪ loaded_modules (supervisor s)
    | Err _ => module_and_prespawn s id = None
    end) s.
Proof.
  intros Hok Hnl. unfold start_module. do 4 wp_step. destruct (module_and_prespawn s id) as [[module pre]|]; [|done].
  cbn [ok_or fst snd]. do 4 wp_step.
  pose proof (start_accounts piped module pre timeout (runtime_options s) s) as Hst.
  pose proof (start_child_none module pre timeout (runtime_options s) s) as Hnone.
  pose proof (start_event_consistent module pre timeout (runtime_options s) s) as Hev.
  destruct (supervise_module_start module pre timeout (runtime_options s) s) as [r s1]. cbn [fst snd] in *.
  destruct Hst as (Hw & Ha & Hr). pose proof (world_only_sup _ _ Hw) as E1.
  assert (Hok1 : sup_ok s1) by eauto with meta.
  do 2 wp_step. set (s2 := adopt_start r s1). destruct (adopt_keeps r s1 Hok1 Hr) as [Ha2 Hok2]. fold s2 in Ha2, Hok2.
  destruct (adopt_frame r s1) as (F2 & L2 & C2). fold s2 in F2, L2, C2. rewrite E1 in L2, C2.
  assert (Hf2 : boot_frame s s2) by (etrans; [by apply world_frame|exact F2]).
  assert (Hchild : accounts (owned s) s (in_hand (start_child r) ++ owned s2) s2).
  { eapply accounts_trans; [eapply accounts_held; [| |exact (accounts_frame (owned s) _ _ _ _ Ha)]|].
    - by rewrite app_nil_r.
    - reflexivity.
    - eapply accounts_held; [|reflexivity|apply (accounts_frame (in_hand (start_child r))), Ha2].
      unfold start_hand. rewrite !held_app, (owned_sup _ _ E1). bag. }
  wp_step. apply (wp_mono _ (λ r' s3, ∃ es, r' = Ok es ∧ Forall source_consistent es ∧ aside s2 s3 ∧ boot_frame s2 s3)).
  { destruct (terminal_error r) as [error|]; [|wp_step; exists []; split_and!; try done; reflexivity].
    do 3 wp_step. eexists. split; [done|]. split_and!; [by constructor|done|destruct s2; done]. }
  intros _ s3 (es & -> & Hes & Has & Hf3). pose proof (keeps_aside _ _ Has Hok2) as [Ha3 Hok3].
  pose proof Has as [E3 _]. assert (Hf : boot_frame s s3) by by etrans.
  assert (Hc3 : accounts (owned s) s (in_hand (start_child r) ++ owned s3) s3).
  { eapply accounts_trans; [exact Hchild|]. apply accounts_frame, Ha3. }
  destruct (start_event r) as [event|].
  2: { wp_step. rewrite (Hnone (or_introl eq_refl)) in Hc3. split_and!; [by split|done|done|rewrite E3, L2; set_solver]. }
  do 2 wp_step. do 3 wp_step. assert (Hes' : Forall source_consistent (es ++ [event])).
  { apply Forall_app. split; [done|]. apply Forall_singleton. by apply Hev. }
  destruct (set_loaded_keeps id s3 Hok3) as [Ha4 Hok4]. set (s4 := set_loaded id s3) in *.
  assert (Hf4 : boot_frame s s4) by (etrans; [exact Hf|unfold s4; by destruct s3]).
  assert (Hl4 : loaded_modules (supervisor s4) ⊆ {[id]} ∪ loaded_modules (supervisor s)) by (simpl; rewrite E3, L2; done).
  assert (Hc4 : accounts (owned s) s (in_hand (start_child r) ++ owned s4) s4).
  { eapply accounts_trans; [exact Hc3|]. apply accounts_frame, Ha4. }
  unfold insert_child. destruct (start_child r) as [child|] eqn:Hch; [|split_and!; [by split|done..]].
  assert (Hfree : live_children (supervisor s4) !! id = None).
  { simpl. rewrite E3, C2. apply eq_None_not_Some. intros Hs. by apply Hnl, Hok. }
  rewrite Hfree. unfold start_hand in Hr. rewrite Hch in Hr. apply Forall_cons in Hr as [Hrc _].
  destruct (set_child_owned id child s4 Hfree) as [S1 S2]; [simpl; set_solver|done|].
  split_and!; [split; [|by apply S2]|etrans; [exact Hf4|by destruct s4]|done|done].
  eapply accounts_trans; [exact Hc4|]. eapply accounts_held; [reflexivity| |by apply accounts_refl]. by rewrite S1.
Qed.

Lemma start_modules_wp timeout ids s :
  sup_ok s → NoDup ids → (∀ id, id ∈ ids → id ∉ loaded_modules (supervisor s)) →
  wp (start_modules timeout ids) (λ r s',
    match r with
    | Ok events => keeps [] s s' ∧ boot_frame s s' ∧ Forall source_consistent events ∧
        loaded_modules (supervisor s') ⊆ list_to_set ids ∪ loaded_modules (supervisor s)
    | Err _ => ∃ id, id ∈ ids ∧ module_and_prespawn s id = None
    end) s.
Proof.
  revert s. induction ids as [|id ids IH]; intros s Hok Hnd Hnl; cbn [start_modules].
  { wp_step. split_and!; [auto with meta|reflexivity|by constructor|set_solver]. }
  apply NoDup_cons in Hnd as [Hid Hnd]. wp_step.
  eapply wp_mono; [apply start_module_wp; [done|apply Hnl; by left]|]. intros [events|e] s1.
  2: { intros Hn. exists id. split; [by left|done]. }
  intros (K1 & F1 & C1 & L1). wp_step. eapply wp_mono; [apply IH; [apply K1|done|]|].
  { intros i Hi Hin. apply L1, elem_of_union in Hin as [->%elem_of_singleton|Hin]; [done|]. apply (Hnl i); [by right|done]. }
  intros [more|e] s2.
  - intros (K2 & F2 & C2 & L2). wp_step. split_and!; [by eapply keeps_trans|by etrans|by apply Forall_app|set_solver].
  - intros (i & Hi & Hn). exists i. split; [by right|]. destruct F1 as [F1 _]. rewrite F1 in Hn. done.
Qed.
End starting.

(** ** Theorems *)

(** A runtime that has just started. *)
Record ready (c : MetaConfig) (agent_events : list EventEnvelope) (s : MetaRuntimeHandle) : Prop := {
  rd_config : config s = c;
  rd_gating : freshly_started s;
  rd_memory : memory_inv (memory s);
  rd_routing : routing_inv (routing s);
  rd_delivery : delivery_inv (delivery s);
  rd_log : log_wf (merged_events s);
  rd_agents : ∀ e, e ∈ agent_events → e ∈ merged_events s;
  rd_supervisor : sup_ok s;
  rd_processes : all_accounted s;
  rd_loaded : ∀ id, id ∈ loaded_modules (supervisor s) → id ∈ discovery_modules (discovery c);
  rd_configured : ∀ id, id ∈ loaded_modules (supervisor s) → ∃ module, module ∈ modules c ∧ module_id module = id;
  rd_lifecycle : lifecycle_events (supervisor s) =
    [mkLifecycle 0 MobStarted; mkLifecycle 1 ModulesStarted; mkLifecycle 2 MergedStreamStarted];
  rd_running : running (supervisor s) = true;
}.

Section theorems.
Context `{RuntimeEnv} `{ModuleOs}.

Lemma blank_routing_inv : routing_inv (mkRouting 0 ∅ [] ∅).
Proof.
  split; simpl; try (by vm_compute); try lia; try done.
  - by intros id [? ?].
  - intros _. split; [by split|]. intros id Hid. by apply elem_of_nil in Hid.
Qed.

Lemma blank_delivery_inv e : is_u64 e → delivery_inv (mkDelivery 0 e 0 0 [] ∅ ∅ ∅).
Proof.
  intros He. split; simpl.
  - split; simpl; unfold is_u64, U64_MAX in *; lia.
  - done.
  - apply Nat.le_0_l.
  - by split.
  - by split; intros ? ? E; rewrite lookup_empty in E.
  - intros ? ? E. by rewrite lookup_empty in E.
Qed.

Lemma all_configured c id : first_unconfigured c = None → id ∈ discovery_modules (discovery c) →
  ∃ module, module ∈ modules c ∧ module_id module = id.
Proof.
  intros Hn Hid. unfold first_unconfigured in Hn. rewrite find_first_None in Hn. specialize (Hn id Hid).
  apply negb_false_iff, existsb_elem_of in Hn as (m & Hm & Hmid). exists m. split; [done|].
  by apply bool_decide_eq_true in Hmid.
Qed.

Lemma configured_found c s id : config s = c → first_unconfigured c = None → id ∈ discovery_modules (discovery c) →
  module_and_prespawn s id ≠ None.
Proof.
  intros Hc Hn Hid. destruct (all_configured c id Hn Hid) as (m & Hm & Hmid). unfold module_and_prespawn. rewrite Hc.
  destruct (find_first_is_Some (λ module, module_id module =b id) _ _ Hm) as [x ->]; [|done].
  by apply bool_decide_eq_true.
Qed.

Lemma unconfigured_spec c id : first_unconfigured c = Some id →
  id ∈ discovery_modules (discovery c) ∧ ∀ module, module ∈ modules c → module_id module ≠ id.
Proof.
  intros [Hid Hno]%find_first_Some. split; [done|]. apply negb_true_iff in Hno. rewrite existsb_false in Hno.
  intros module Hm Heq. specialize (Hno module Hm). by apply bool_decide_eq_false in Hno.
Qed.

Lemma open_backend_Err options err : open_backend options = Err err →
  ∃ e, err = StartMemoryBackend e ∧ is_Some (memory_backend_config options).
Proof.
  unfold open_backend. destruct (memory_backend_config options) as [mc|]; [|done].
  destruct (from_config mc); [done|]. intros [= <-]. eauto.
Qed.

(** Reading the ledger observes the world, and fails only with a backend. *)
Lemma read_ledger_wp options backend s : open_backend options = Ok backend →
  wp (read_ledger backend) (λ r s1, world_only s s1 ∧ process_journal s1 = process_journal s ∧
    match r with
    | Ok _ => True
    | Err (StartMemoryBackend _) => is_Some (memory_backend_config options)
    | Err _ => False
    end) s.
Proof.
  intros Hb. unfold read_ledger. destruct backend as [adapter|]; [|wp_step; split; [auto with meta|done]].
  unfold wp. cbn [fst snd]. destruct (ledger_read _ adapter); simpl; [done|]. split_and!; try done.
  unfold open_backend in Hb. by destruct (memory_backend_config options).
Qed.

(** The handle that is built from a started set of modules is ready. *)
Lemma build_ready c agent_events options n epoch_ms persisted backend events s :
  boot_frame (blank_runtime c options n) s → is_u64 epoch_ms → all_accounted s → sup_ok s → first_unconfigured c = None →
  (∀ id, id ∈ loaded_modules (supervisor s) → id ∈ discovery_modules (discovery c)) →
  Forall source_consistent events → Forall source_consistent agent_events →
  ready c agent_events (build_handle epoch_ms (new_gating_epoch s).1 (load_memory_state persisted backend)
    events agent_events (new_gating_epoch s).2).
Proof.
  intros (F & Fl & Fr) Hms [A1 A2] [Hok1 Hok2] Hun Hl Hev Hag. pose proof (new_epoch_valid s) as Hepoch.
  assert (Fc : config s = c) by by rewrite F. assert (Fg : gating s = gating (blank_runtime c options n)) by by rewrite F.
  assert (Frt : routing s = mkRouting 0 ∅ [] ∅) by by rewrite F.
  split; cbn [build_handle update_field upd_supervisor upd_merged_events upd_delivery upd_gating upd_memory
    config gating memory routing delivery merged_events supervisor process_journal].
  - done.
  - split; [|exact Hepoch]. unfold gating_pristine. simpl. by rewrite Fg.
  - apply load_memory_state_inv.
  - change (routing (new_gating_epoch s).2) with (routing s). rewrite Frt. apply blank_routing_inv.
  - by apply blank_delivery_inv.
  - split; [apply sort_by_event_cmp_sorted|]. unfold merge_unified_events. rewrite sort_by_event_cmp_perm. by apply Forall_app.
  - intros e He. unfold merge_unified_events. rewrite sort_by_event_cmp_perm. apply elem_of_app. by right.
  - by split.
  - by split.
  - done.
  - intros id Hid. apply all_configured; [done|]. by apply Hl.
  - simpl. by rewrite Fl.
  - simpl. by rewrite Fr.
Qed.

(** C39: Take a configuration that lists each discovered module once, agent events that are all
    labelled with their own kind of source, and spawned processes that have a piped standard output.  A runtime that starts is
    then well formed in every component at once: the gating owner is fresh under a valid epoch, the ledger, the
    routing table, the delivery state and the event log satisfy their invariants, every agent event is in the
    log, every process that was started is accounted for, every loaded module is discovered and has a
    configuration entry, and the lifecycle says so.  A start that is refused names a discovered module with no
    configuration entry or a ledger that cannot be opened, and has started no process. *)
Theorem runtime_starts_well_formed c agent_events timeout options n r s :
  (∀ n command args env pid, os_spawn n command args env ≠ Ok (pid, false)) →
  NoDup (discovery_modules (discovery c)) → Forall source_consistent agent_events →
  start_meta_runtime_with_options c agent_events timeout options n = (r, s) →
  match r with
  | Ok _ => ready c agent_events s
  | Err error => process_journal s = [] ∧
      match error with
      | StartConfig e => ∃ id, e = ModuleNotConfigured id ∧ id ∈ discovery_modules (discovery c) ∧
          ∀ module, module ∈ modules c → module_id module ≠ id
      | StartMemoryBackend _ => is_Some (memory_backend_config options)
      end
  end.
Proof.
  intros Hpiped Hnd Hag Hrun. set (s0 := blank_runtime c options n).
  assert (Hok0 : sup_ok s0) by (split; [apply Forall_nil_2|by intros id [? ?]]).
  assert (Hacc0 : all_accounted s0) by (split; vm_compute; reflexivity).
  pattern r, s. lazymatch goal with |- ?Q _ _ => apply (wp_run (boot agent_events timeout) Q s0 r s Hrun) end.
  unfold boot. do 2 wp_step. cbn [current_time_ms fst snd].
  do 4 wp_step. change (config (tick s0)) with c. destruct (first_unconfigured c) as [id|] eqn:Hun.
  { split; [done|]. exists id. by destruct (unconfigured_spec c id Hun). }
  do 4 wp_step. change (runtime_options (tick s0)) with options.
  destruct (open_backend options) as [backend|err] eqn:Hb.
  2: { split; [done|]. by apply open_backend_Err in Hb as (e & -> & He). }
  wp_step. eapply wp_mono; [exact (read_ledger_wp options backend (tick s0) Hb)|].
  intros [persisted|err] s1 (Hw & Hj & He); [|split; [done|by destruct err]].
  assert (E1 : supervisor s1 = supervisor s0) by by apply (world_only_sup (tick s0)).
  assert (Hok1 : sup_ok s1) by eauto with meta.
  assert (Hacc1 : all_accounted s1).
  { unfold all_accounted. rewrite Hj, (owned_sup _ _ E1). done. }
  wp_step. eapply wp_mono; [apply start_modules_wp; [done|done|done|]|].
  { intros id _. rewrite E1. simpl. set_solver. }
  intros [events|err] s2.
  2: { intros (id & Hid & Hn). exfalso. eapply configured_found; [| |exact Hid|exact Hn]; [|done]. by rewrite Hw. }
  intros (Hk & F & Hev & Hl). do 2 wp_step. wp_step.
  apply (build_ready _ _ options n); try done; [| |by eapply keeps_accounted|apply Hk|].
  - etrans; [|exact F]. by apply (world_frame s0).
  - exact (clock_u64 _).
  - intros id Hid. apply Hl in Hid. rewrite E1 in Hid. simpl in Hid. set_solver.
Qed.
End theorems.

Module BootstrapExamples.

#[local] Existing Instance silent_env.

(** Processes that print nothing and exit when they are asked. *)
#[local] Instance quiet_os : ModuleOs := {|
  os_spawn n _ _ _ := Ok (Z.of_nat n, true);
  os_first_line _ _ _ := FirstLineClosed;
  os_try_wait _ _ := Ok true;
  os_kill _ _ := None;
  os_wait _ _ := None;
  debug_normalization _ := "error";
|}.

Definition two_modules : MetaConfig :=
  mkMetaConfig [example_module "router"; example_module "worker"] (mkDiscovery "example" ["router"; "worker"])
    [mkPreSpawn "router" [("META_MODULE_BOUNDARY", "mcp")]].

(** The router answers as an MCP server and is loaded; the worker prints no event and is not. *)
Lemma runtime_starts_well_formed_witness :
  let s := (start_meta_runtime two_modules [] 100 0).2 in
  ready two_modules [] s ∧ elements (loaded_modules (supervisor s)) = ["router"] ∧
  length (merged_events s) = 2%nat ∧ (spawned (process_journal s) ≠ ∅).
Proof.
  intros s. split; [|split; [vm_compute; reflexivity|split; [vm_compute; reflexivity|vm_compute; discriminate]]].
  assert (Hnd : NoDup (discovery_modules (discovery two_modules))).
  { apply NoDup_cons. split; [intros Hin; apply list_elem_of_singleton in Hin; discriminate|apply NoDup_singleton]. }
  refine (runtime_starts_well_formed two_modules [] 100 default_options 0 (Ok tt) s _ Hnd (Forall_nil_2 _) _).
  - intros n command args env pid. discriminate.
  - assert (E : (start_meta_runtime_with_options two_modules [] 100 default_options 0).1 = Ok tt) by (vm_compute; reflexivity).
    rewrite <- E. apply surjective_pairing.
Defined.

(** Processes that print an event and whose exit cannot be waited for. *)
#[local] Instance speaking_os : ModuleOs := {|
  os_spawn n _ _ _ := Ok (Z.of_nat n, true);
  os_first_line _ _ _ := FirstLineRead "hello";
  os_try_wait _ _ := Ok false;
  os_kill _ _ := None;
  os_wait _ _ := Some (mkWaitError "busy" false);
  debug_normalization _ := "error";
|}.

Definition hello_env : RuntimeEnv := example_env (λ _ _, None) false
  [("hello", obj [("event_id", str "e"); ("source", str "module"); ("timestamp_ms", num 1); ("module", str "worker");
    ("event_type", str "ready"); ("payload", VNull)])].

Definition listed_twice : MetaConfig :=
  mkMetaConfig [example_module "worker"] (mkDiscovery "example" ["worker"; "worker"]) [].

(** A configuration that lists a module twice starts it twice; the second child takes the first one's place
    in the table of children, and the first one is released while it runs: here its exit is not observed, and
    nothing retains it. *)
Example duplicate_module_drops_a_live_child :
  let s := (@start_meta_runtime_with_options hello_env speaking_os listed_twice [] 100 default_options 0).2 in
  size (spawned (process_journal s)) = 2%nat ∧ size (confirmed (process_journal s)) = 0%nat ∧
  size (abandoned (process_journal s)) = 1%nat ∧ length (owned s) = 1%nat.
Proof. vm_compute. split_and!; reflexivity. Qed.
End BootstrapExamples.
