(* ===== verification/SqlWorld.v ===== *)
(** * Operations on an SQLite database

    What the SQLite-backed stores of the repository have in common.  A [World]
    holds the committed tables, the working copy the connection (or its open
    transaction) sees, what the handle caches in memory, which no rollback undoes,
    and the number of observations made so far.  What a store
    observes from outside, a failing statement above all, is a function of that
    number, so it may change arbitrarily from one observation to the next.  Every
    [map_err(...)?] on a statement is a call of [statement].

    An operation starts from the committed tables ([enter]: what an earlier one
    left uncommitted was rolled back when its transaction was dropped) and makes
    its changes durable with [commit]. *)

From S2P Require Import Prelude.
Open Scope Z_scope.

Record World (Db V : Type) := mkWorld { committed : Db; working : Db; volatile : V; observed : nat }.
Arguments mkWorld {Db V} _ _ _ _.
Arguments committed {Db V} _.
Arguments working {Db V} _.
Arguments volatile {Db V} _.
Arguments observed {Db V} _.

Section sql.
Context {Db V E : Type}.
Implicit Types w : World Db V.

Definition tick w : World Db V := mkWorld (committed w) (working w) (volatile w) (S (observed w)).
Definition with_working (db : Db) w : World Db V := mkWorld (committed w) db (volatile w) (observed w).

Definition observe {A} (f : nat → A) : M (World Db V) E A := λ w, (Ok (f (observed w)), tick w).

(** A statement that may fail. *)
Definition statement (fault : nat → option E) : M (World Db V) E unit :=
  e ← observe fault;
  match e with Some e => throw e | None => mret tt end.

(** Taking the connection, which may fail, before [f] runs. *)
Definition enter {A} (fault : nat → option E) (f : M (World Db V) E A) : M (World Db V) E A :=
  e ← observe fault;
  match e with
  | Some e => throw e
  | None => _ ← modify (λ w, with_working (committed w) w); f
  end.

(** The commit of a transaction, which may fail. *)
Definition commit_tables (fault : nat → option E) : M (World Db V) E unit :=
  _ ← statement fault;
  modify (λ w, mkWorld (working w) (working w) (volatile w) (observed w)).

Lemma wp_observe {A} (f : nat → A) Q w : wp (observe f) Q w ↔ Q (Ok (f (observed w))) (tick w).
Proof. done. Qed.

Lemma wp_statement fault Q w :
  (∀ e, fault (observed w) = Some e → Q (Err e) (tick w)) → Q (Ok tt) (tick w) → wp (statement fault) Q w.
Proof. unfold statement, wp, observe, mbind, m_bind. simpl. destruct (fault (observed w)); simpl; auto. Qed.

Lemma wp_enter {A} fault (f : M (World Db V) E A) Q w :
  (∀ e, Q (Err e) (tick w)) → wp f Q (with_working (committed w) (tick w)) → wp (enter fault f) Q w.
Proof.
  unfold enter, wp, observe, modify, mbind, m_bind. simpl. destruct (fault (observed w)); simpl; auto.
Qed.

Lemma wp_commit_tables fault Q w :
  (∀ e, Q (Err e) (tick w)) → Q (Ok tt) (mkWorld (working w) (working w) (volatile w) (S (observed w))) →
  wp (commit_tables fault) Q w.
Proof.
  intros Herr Hok. unfold commit_tables. wp_step. apply wp_statement; [auto|]. wp_step. done.
Qed.

(** The tables did not move. *)
Definition quiet w w' : Prop :=
  committed w' = committed w ∧ working w' = working w ∧ (observed w ≤ observed w')%nat.

Lemma quiet_refl w : quiet w w.
Proof. done. Qed.
Lemma quiet_observed w w' : quiet w w' → quiet w (tick w').
Proof. unfold quiet. simpl. naive_solver lia. Qed.
#[global] Instance quiet_trans : Transitive quiet.
Proof. unfold quiet. intros w1 w2 w3 (? & ? & ?) (? & ? & ?). split_and!; [congruence..|lia]. Qed.

(** Every step of [f] stays within the relation [R] on worlds. *)
Definition within {F A} (R : relation (World Db V)) (f : M (World Db V) F A) : Prop := ∀ w, R w (f w).2.

Section within.
Context (R : relation (World Db V)) `{!PreOrder R}.

Lemma within_bind {F A B} (f : M (World Db V) F A) (g : A → M (World Db V) F B) :
  within R f → (∀ a, within R (g a)) → within R (f ≫= g).
Proof using PreOrder0.
  intros Hf Hg w. specialize (Hf w). unfold mbind, m_bind. destruct (f w) as [[a|e] w'] eqn:Ew; simpl in *; [|done].
  etrans; [done|apply Hg].
Qed.
Lemma within_ret {F A} (a : A) : within (F := F) R (mret a).
Proof using PreOrder0. intros w. by simpl. Qed.
Lemma within_throw {F A} (e : F) : within (A := A) R (throw e).
Proof using PreOrder0. intros w. by simpl. Qed.
Lemma within_lift {F A} (r : Result A F) : within R (lift_result r).
Proof using PreOrder0. intros w. by simpl. Qed.
Lemma within_throw_if {F} b (e : F) : within R (throw_if b e).
Proof using PreOrder0. intros w. by destruct b. Qed.
Lemma within_gets {F A} (f : World Db V → A) : within (F := F) R (gets f).
Proof using PreOrder0. intros w. by simpl. Qed.
Lemma within_modify {F} f : (∀ w, R w (f w)) → within (F := F) R (modify f).
Proof using. intros Hf w. apply Hf. Qed.
Lemma within_with_err {F G A} (h : F → G) (f : M (World Db V) F A) : within R f → within R (with_err h f).
Proof using. intros Hf w. apply Hf. Qed.
Lemma within_catch {F G A} (f : M (World Db V) F A) : within R f → within (F := G) R (catch f).
Proof using. intros Hf w. apply Hf. Qed.
End within.

Lemma within_observe (R : relation (World Db V)) {A} (f : nat → A) : (∀ w, R w (tick w)) → within R (observe f).
Proof. intros Ht w. apply Ht. Qed.

Lemma within_statement (R : relation (World Db V)) fault : (∀ w, R w (tick w)) → within R (statement fault).
Proof.
  intros Ht w. specialize (Ht w). unfold statement, observe, mbind, m_bind. simpl.
  by destruct (fault (observed w)).
Qed.

Lemma within_wp {F A} (R : relation (World Db V)) (f : M (World Db V) F A) (Q : Result A F → World Db V → Prop) w :
  within R f → (∀ r w', R w w' → Q r w') → wp f Q w.
Proof. intros Hf HQ. apply HQ, Hf. Qed.

#[global] Instance quiet_preorder : PreOrder quiet.
Proof. split; [intros w; apply quiet_refl|apply quiet_trans]. Qed.

(** A read: the tables stay as they are. *)
Notation reads := (within quiet).

Lemma reads_statement fault : reads (statement fault).
Proof. apply within_statement. intros w. apply quiet_observed, quiet_refl. Qed.

(** What a run of a read leaves: the committed tables and a larger counter. *)
Definition kept w w' : Prop := committed w' = committed w ∧ (observed w ≤ observed w')%nat.

Lemma enter_kept {A} fault (f : M (World Db V) E A) w : reads f → kept w (enter fault f w).2.
Proof.
  intros Hf. apply (wp_enter fault f (λ _ w', kept w w')).
  - intros _. split; [done|simpl; lia].
  - destruct (Hf (with_working (committed w) (tick w))) as (Hc & _ & Ho). split; [done|simpl in Ho; lia].
Qed.

Lemma bind_lift_kept {A B} (r : Result A E) (g : A → M (World Db V) E B) w :
  (∀ a, kept w (g a w).2) → kept w ((lift_result r ≫= g) w).2.
Proof. intros Hg. unfold mbind, m_bind, lift_result. destruct r; simpl; [done|split; [done|lia]]. Qed.

(** Evaluating an operation step by step. *)
Lemma bind_ok {A B} (m : M (World Db V) E A) (f : A → M (World Db V) E B) w a w' :
  m w = (Ok a, w') → (m ≫= f) w = f a w'.
Proof. intros H. unfold mbind, m_bind. by rewrite H. Qed.
Lemma bind_fst_err {A B} (m : M (World Db V) E A) (f : A → M (World Db V) E B) w e :
  (m w).1 = Err e → ((m ≫= f) w).1 = Err e.
Proof. unfold mbind, m_bind. destruct (m w) as [[a|e'] w'] eqn:Ew; simpl; congruence. Qed.
Lemma bind_fst_ok {A B} (m : M (World Db V) E A) (f : A → M (World Db V) E B) w a :
  (m w).1 = Ok a → ((m ≫= f) w).1 = (f a (m w).2).1.
Proof. unfold mbind, m_bind. destruct (m w) as [[a'|e'] w'] eqn:Ew; simpl; congruence. Qed.
End sql.

Notation reads := (within quiet).

#[export] Hint Resolve quiet_refl quiet_observed : meta.
#[export] Hint Resolve within_bind within_ret within_throw within_lift within_throw_if within_gets
  within_with_err within_catch reads_statement : meta.
#[export] Hint Extern 0 (PreOrder _) => apply _ : meta.

(** A branch that returns early with an error, the tables untouched. *)
Ltac early := intros; split; [solve [eauto with meta]|by intros ? ?].
