(* ===== verification/ExtensionTypes.v ===== *)
(** * Extension documents: data ([meta-extension-state/src/types.rs])

    Principals and their verified lineage, owners, audiences, documents and
    the requests of the document store, with the validation each of them gets.
    A [BTreeSet] is a [gset]; [Vec<u8>] is a byte [string]. *)

From S2P Require Import Prelude Strings.
Open Scope Z_scope.

(** ** Errors and identifiers *)

Inductive Error :=
| NotFound
| Conflict
| RequestIdReused
| AuthorityUnavailable
| Invalid (reason : string)
| Storage (reason : string).

#[global] Instance Error_eq_dec : EqDecision Error.
Proof. solve_decision. Defined.

Definition error_message (e : Error) : string :=
  match e with
  | NotFound => "document unavailable"
  | Conflict => "document revision changed"
  | RequestIdReused => "request id already used for a different request"
  | AuthorityUnavailable => "caller authority unavailable"
  | Invalid s => "invalid document request: " +:+ s
  | Storage s => "document storage failed: " +:+ s
  end.

Definition MAX_IDENTIFIER_BYTES : Z := 512.

(** [chars().any(char::is_control)] on the UTF-8 encoding: the controls are
    U+0000..U+001F and U+007F, one byte each, and U+0080..U+009F, encoded as
    [C2 80]..[C2 9F]. *)
Fixpoint has_control (s : string) : bool :=
  match s with
  | "" => false
  | String a s' =>
      (byte_val a <? 0x20) || (byte_val a =? 0x7F) ||
      ((byte_val a =? 0xC2) &&
         match s' with String b _ => (0x80 <=? byte_val b) && (byte_val b <=? 0x9F) | "" => false end) ||
      has_control s'
  end.

Definition identifier (value : string) : Result unit Error :=
  if str_is_empty value || (MAX_IDENTIFIER_BYTES <? Z.of_nat (str_len value)) || has_control value
  then Err (Invalid "invalid identifier")
  else Ok tt.

(** ** Principals, roles and lineage *)

Inductive Principal :=
| AgentPrincipal (identity : string)
| WorkerPrincipal (mob_id member_id creation_id : string).

#[global] Instance Principal_eq_dec : EqDecision Principal.
Proof. solve_decision. Defined.
#[global] Instance Principal_countable : Countable Principal.
Proof.
  refine (inj_countable'
    (λ p, match p with AgentPrincipal i => inl i | WorkerPrincipal a b c => inr (a, b, c) end)
    (λ s, match s with inl i => AgentPrincipal i | inr (a, b, c) => WorkerPrincipal a b c end) _).
  by intros [].
Defined.

Definition validate_principal (p : Principal) : Result unit Error :=
  match p with
  | AgentPrincipal identity => identifier identity
  | WorkerPrincipal mob_id member_id creation_id =>
      _ ←? identifier mob_id;
      _ ←? identifier member_id;
      identifier creation_id
  end.

(** [Reader < Editor], the derived order. *)
Inductive Role := Reader | Editor.
#[global] Instance Role_eq_dec : EqDecision Role.
Proof. solve_decision. Defined.

Definition role_min (a b : Role) : Role :=
  match a, b with Editor, Editor => Editor | _, _ => Reader end.
Definition role_max (a b : Role) : Role :=
  match a, b with Reader, Reader => Reader | _, _ => Editor end.

Inductive Reach := SelfOnly | Forks | Descendants.
#[global] Instance Reach_eq_dec : EqDecision Reach.
Proof. solve_decision. Defined.

Inductive EdgeKind := Fork | Spawn.
#[global] Instance EdgeKind_eq_dec : EqDecision EdgeKind.
Proof. solve_decision. Defined.

Record LineageLink := mkLink {
  link_child : Principal;
  link_parent : Principal;
  link_kind : EdgeKind;
  link_ceiling : option Role;
}.

Record VerifiedLineage := mkLineage { links : list LineageLink }.

Definition lineage_root : VerifiedLineage := mkLineage [].

(** The loop of [derived]: the children seen so far and the previous link. *)
Fixpoint check_links (seen : gset Principal) (prev : option LineageLink) (ls : list LineageLink)
    : Result unit Error :=
  match ls with
  | [] => Ok tt
  | link :: rest =>
      _ ←? validate_principal (link_child link);
      _ ←? validate_principal (link_parent link);
      let seen' := {[link_child link]} ∪ seen in
      if bool_decide (link_child link ∈ seen) || bool_decide (link_parent link ∈ seen')
      then Err AuthorityUnavailable
      else if is_some_and prev (λ p, negb (link_parent p =b link_child link))
      then Err AuthorityUnavailable
      else check_links seen' (Some link) rest
  end.

Definition derived (ls : list LineageLink) : Result VerifiedLineage Error :=
  if is_empty ls || (128 <? Z.of_nat (length ls)) then Err AuthorityUnavailable
  else _ ←? check_links ∅ None ls;
       Ok (mkLineage ls).

(** ** Owners, audiences and the trusted host context *)

Record HostPolicy := mkPolicy { policy_read : bool; policy_edit : bool; policy_manage : bool }.
Definition ALLOW : HostPolicy := mkPolicy true true true.
Definition READ_ONLY : HostPolicy := mkPolicy true false false.
Definition DENY : HostPolicy := mkPolicy false false false.

Inductive Owner :=
| OwnerAgent (p : Principal)
| OwnerMob (id : string)
| OwnerRealm.

#[global] Instance Owner_eq_dec : EqDecision Owner.
Proof. solve_decision. Defined.
#[global] Instance Owner_countable : Countable Owner.
Proof.
  refine (inj_countable'
    (λ o, match o with OwnerAgent p => inl (inl p) | OwnerMob i => inl (inr i) | OwnerRealm => inr () end)
    (λ s, match s with inl (inl p) => OwnerAgent p | inl (inr i) => OwnerMob i | inr _ => OwnerRealm end) _).
  by intros [].
Defined.

Record HostAccessContext := mkCaller {
  caller_realm : string;
  caller_principal : Principal;
  caller_lineage : VerifiedLineage;
  member_mobs : gset string;
  managed_mobs : gset string;
  realm_admin : bool;
  caller_policy : HostPolicy;
  valid_owners : gset Owner;
}.

Definition new_caller (realm : string) (principal : Principal) (lineage : VerifiedLineage)
    (policy : HostPolicy) : Result HostAccessContext Error :=
  _ ←? identifier realm;
  _ ←? validate_principal principal;
  if is_some_and (head (links lineage)) (λ link, negb (link_child link =b principal))
  then Err AuthorityUnavailable
  else Ok (mkCaller realm principal lineage ∅ ∅ false policy ∅).

Fixpoint validate_identifiers (ids : list string) : Result unit Error :=
  match ids with
  | [] => Ok tt
  | id :: rest => _ ←? identifier id; validate_identifiers rest
  end.

Definition with_memberships (c : HostAccessContext) (members managed : gset string) (admin : bool)
    : Result HostAccessContext Error :=
  _ ←? validate_identifiers (bset_elements members ++ bset_elements managed);
  Ok (mkCaller (caller_realm c) (caller_principal c) (caller_lineage c) members managed admin
        (caller_policy c) (valid_owners c)).

Definition with_valid_owners (c : HostAccessContext) (owners : gset Owner) : HostAccessContext :=
  mkCaller (caller_realm c) (caller_principal c) (caller_lineage c) (member_mobs c) (managed_mobs c)
    (realm_admin c) (caller_policy c) owners.

Definition owner_is_valid (c : HostAccessContext) (owner : Owner) : bool :=
  bool_decide (owner ∈ valid_owners c) ||
  match owner with
  | OwnerAgent principal => principal =b caller_principal c
  | OwnerMob id => bool_decide (id ∈ managed_mobs c)
  | OwnerRealm => realm_admin c
  end.

Inductive Audience :=
| AudienceAgent (principal : Principal) (reach : Reach)
| AudienceMob (id : string)
| AudienceRealm.

Inductive DeniedOperation := DenyRead | DenyEdit.
#[global] Instance DeniedOperation_eq_dec : EqDecision DeniedOperation.
Proof. solve_decision. Defined.

Record Grant := mkGrant { grant_audience : Audience; grant_role : Role }.
Record Deny := mkDeny { deny_audience : Audience; deny_operation : DeniedOperation }.

Record DocumentAccess := mkAccess {
  owner_reach : Reach;
  grants : list Grant;
  denies : list Deny;
}.

Definition access_default : DocumentAccess := mkAccess Forks [] [].

Definition access_audiences (a : DocumentAccess) : list Audience :=
  (grant_audience <$> grants a) ++ (deny_audience <$> denies a).

Definition validate_audience (a : Audience) : Result unit Error :=
  match a with
  | AudienceAgent principal _ => validate_principal principal
  | AudienceMob id => identifier id
  | AudienceRealm => Ok tt
  end.

Fixpoint validate_audiences (l : list Audience) : Result unit Error :=
  match l with
  | [] => Ok tt
  | a :: rest => _ ←? validate_audience a; validate_audiences rest
  end.

Definition validate_access (a : DocumentAccess) : Result unit Error :=
  if 256 <? Z.of_nat (length (grants a) + length (denies a))
  then Err (Invalid "too many access entries")
  else validate_audiences (access_audiences a).

(** ** Documents *)

Definition MAX_PAYLOAD_BYTES : Z := 8 * 1024 * 1024.

Record DocumentContent := mkContent {
  title : string;
  content_type : string;
  schema_version : Z;
  payload : string;
}.

Definition validate_content (c : DocumentContent) : Result unit Error :=
  if (1024 <? Z.of_nat (str_len (title c))) || (MAX_PAYLOAD_BYTES <? Z.of_nat (str_len (payload c))) ||
     (schema_version c =? 0)
  then Err (Invalid "content exceeds limits or has invalid schema version")
  else identifier (content_type c).

Definition with_payload (c : DocumentContent) (p : string) : DocumentContent :=
  mkContent (title c) (content_type c) (schema_version c) p.

Record NewDocument := mkNewDocument {
  new_content : DocumentContent;
  new_owner : option Owner;
  new_access : DocumentAccess;
}.

Record Document := mkDocument {
  doc_id : string;
  revision : string;
  content : DocumentContent;
  owner : Owner;
  access : DocumentAccess;
  created_at_ms : Z;
  updated_at_ms : Z;
}.

Definition with_content (d : Document) (c : DocumentContent) : Document :=
  mkDocument (doc_id d) (revision d) c (owner d) (access d) (created_at_ms d) (updated_at_ms d).
Definition with_access (d : Document) (a : DocumentAccess) : Document :=
  mkDocument (doc_id d) (revision d) (content d) (owner d) a (created_at_ms d) (updated_at_ms d).
Definition with_owner (d : Document) (o : Owner) : Document :=
  mkDocument (doc_id d) (revision d) (content d) o (access d) (created_at_ms d) (updated_at_ms d).
Definition with_revision (d : Document) (r : string) (ts : Z) : Document :=
  mkDocument (doc_id d) r (content d) (owner d) (access d) (created_at_ms d) ts.

Definition names_mob (d : Document) (mob_id : string) : bool :=
  match owner d with OwnerMob o => o =b mob_id | _ => false end ||
  existsb (λ a, match a with AudienceMob id => id =b mob_id | _ => false end)
    (access_audiences (access d)).

Record DocumentSummary := mkSummary {
  summary_id : string;
  summary_revision : string;
  summary_title : string;
  summary_content_type : string;
  summary_schema_version : Z;
  summary_created_at_ms : Z;
  summary_updated_at_ms : Z;
}.

Definition summary_of (d : Document) : DocumentSummary :=
  mkSummary (doc_id d) (revision d) (title (content d)) (content_type (content d))
    (schema_version (content d)) (created_at_ms d) (updated_at_ms d).

(** ** Requests and answers *)

Record ListRequest := mkListRequest { limit : nat; after : option string }.
Definition list_request_default : ListRequest := mkListRequest 50 None.

Record DocumentPage := mkPage { documents : list DocumentSummary; next : option string }.

Record DocumentScope := mkScope { scope_realm : string; scope_namespace : string }.

Definition new_scope (realm namespace : string) : Result DocumentScope Error :=
  _ ←? identifier realm;
  _ ←? identifier namespace;
  Ok (mkScope realm namespace).

Definition validate_scope (s : DocumentScope) (caller : HostAccessContext) : Result unit Error :=
  if scope_realm s =b caller_realm caller then Ok tt else Err NotFound.

Record RequestIdentity := mkRequest { request_id : string; fingerprint : string }.

(** [Sha256::digest] is the parameter [digest]. *)
Definition new_request (digest : string → string) (id : string) (canonical_original_request : string)
    : Result RequestIdentity Error :=
  _ ←? identifier id;
  if MAX_PAYLOAD_BYTES <? Z.of_nat (str_len canonical_original_request)
  then Err (Invalid "request too large")
  else Ok (mkRequest id (digest canonical_original_request)).

Inductive Mutation :=
| Create (new : NewDocument)
| Replace (id expected_revision : string) (content : DocumentContent)
| SetAccess (id expected_revision : string) (access : DocumentAccess)
| Transfer (id expected_revision : string) (owner : Owner) (access : option DocumentAccess)
| Delete (id expected_revision : string).

Record MutationReceipt := mkReceipt {
  receipt_document_id : string;
  receipt_revision : string;
  receipt_deleted : bool;
}.

Record MutationOutcome := mkOutcome { receipt_of : MutationReceipt; replayed : bool }.

(** Decidable equality of the document data, for the evaluations of examples. *)
#[global] Instance Audience_eq_dec : EqDecision Audience.
Proof. solve_decision. Defined.
#[global] Instance Grant_eq_dec : EqDecision Grant.
Proof. solve_decision. Defined.
#[global] Instance Deny_eq_dec : EqDecision Deny.
Proof. solve_decision. Defined.
#[global] Instance DocumentAccess_eq_dec : EqDecision DocumentAccess.
Proof. solve_decision. Defined.
#[global] Instance DocumentContent_eq_dec : EqDecision DocumentContent.
Proof. solve_decision. Defined.
#[global] Instance Document_eq_dec : EqDecision Document.
Proof. solve_decision. Defined.
#[global] Instance MutationReceipt_eq_dec : EqDecision MutationReceipt.
Proof. solve_decision. Defined.

(** ** Lemmas *)

Lemma identifier_Ok s :
  identifier s = Ok tt ↔
  s ≠ "" ∧ Z.of_nat (str_len s) ≤ MAX_IDENTIFIER_BYTES ∧ has_control s = false.
Proof.
  unfold identifier. destruct (str_is_empty s) eqn:E1; simpl.
  - apply str_is_empty_true in E1. naive_solver.
  - apply str_is_empty_false in E1.
    destruct (Z.ltb_spec MAX_IDENTIFIER_BYTES (Z.of_nat (str_len s))); simpl; [naive_solver lia|].
    destruct (has_control s); naive_solver lia.
Qed.

Lemma role_min_editor a b : role_min a b = Editor ↔ a = Editor ∧ b = Editor.
Proof. destruct a, b; naive_solver. Qed.
Lemma role_max_editor a b : role_max a b = Editor ↔ a = Editor ∨ b = Editor.
Proof. destruct a, b; naive_solver. Qed.

Lemma validate_access_bound a :
  validate_access a = Ok tt → (length (access_audiences a) ≤ 256)%nat.
Proof.
  unfold validate_access, access_audiences. rewrite length_app, !length_fmap.
  destruct (Z.ltb_spec 256 (Z.of_nat (length (grants a) + length (denies a)))); [done|lia].
Qed.
