(* ===== verification/ExtensionPolicy.v ===== *)
(** * Extension documents: the policy evaluator ([meta-extension-state/src/policy.rs])

    [authorize] decides every operation on a stored document from the facts the
    host attests about the caller.  A principal named by an owner or an audience
    reaches a caller through the caller's verified lineage; each creation edge on
    the way caps the role that is delegated along it.  The theorems relate the
    loops of the evaluator to the declarative reading of a document's access
    entries, and the construction of a lineage to the simple paths it accepts. *)

From S2P Require Import Prelude Strings ExtensionTypes.
Open Scope Z_scope.

Inductive Operation := Read | Edit | Manage.
#[global] Instance Operation_eq_dec : EqDecision Operation.
Proof. solve_decision. Defined.

Definition manages (caller : HostAccessContext) (o : Owner) : bool :=
  match o with
  | OwnerAgent principal => principal =b caller_principal caller
  | OwnerMob id => bool_decide (id ∈ managed_mobs caller)
  | OwnerRealm => realm_admin caller
  end.

Definition can_create (caller : HostAccessContext) (o : Owner) : bool :=
  policy_read (caller_policy caller) && policy_edit (caller_policy caller) &&
  policy_manage (caller_policy caller) && owner_is_valid caller o && manages caller o.

Record MatchedRoute := mkRoute { ceiling : option Role }.

(** [ceiling.zip(link.ceiling).map(|(a, b)| a.min(b))] *)
Definition zip_min (a b : option Role) : option Role :=
  match a, b with Some x, Some y => Some (role_min x y) | _, _ => None end.

(** The loop over the caller's lineage. *)
Fixpoint lineage_route (principal : Principal) (reach : Reach) (c : option Role)
    (ls : list LineageLink) : option MatchedRoute :=
  match ls with
  | [] => None
  | link :: rest =>
      if (reach =b Forks) && negb (link_kind link =b Fork) then None
      else let c' := zip_min c (link_ceiling link) in
           if link_parent link =b principal then Some (mkRoute c')
           else lineage_route principal reach c' rest
  end.

Definition agent_route (caller : HostAccessContext) (principal : Principal) (reach : Reach)
    : option MatchedRoute :=
  if caller_principal caller =b principal then Some (mkRoute (Some Editor))
  else if reach =b SelfOnly then None
  else lineage_route principal reach (Some Editor) (links (caller_lineage caller)).

Definition route (caller : HostAccessContext) (a : Audience) : option MatchedRoute :=
  match a with
  | AudienceAgent principal reach => agent_route caller principal reach
  | AudienceMob id => if bool_decide (id ∈ member_mobs caller) then Some (mkRoute (Some Editor)) else None
  | AudienceRealm => Some (mkRoute (Some Editor))
  end.

(** One turn of the loop over the grants. *)
Definition add_grant (caller : HostAccessContext) (role : option Role) (g : Grant) : option Role :=
  match route caller (grant_audience g) ≫= ceiling with
  | Some c =>
      let candidate := role_min (grant_role g) c in
      Some (match role with None => candidate | Some old => role_max old candidate end)
  | None => role
  end.

Definition owner_role (caller : HostAccessContext) (d : Document) : option Role :=
  match owner d with
  | OwnerAgent principal => agent_route caller principal (owner_reach (access d)) ≫= ceiling
  | o => if manages caller o then Some Editor else None
  end.

Definition denied (caller : HostAccessContext) (d : Document) (op : Operation) : bool :=
  existsb (λ deny, is_some (route caller (deny_audience deny)) &&
                   ((deny_operation deny =b DenyRead) || (op =b Edit)))
    (denies (access d)).

Definition authorize (caller : HostAccessContext) (d : Document) (op : Operation) : bool :=
  let policy := caller_policy caller in
  match op with
  | Manage => policy_manage policy && manages caller (owner d)
  | _ =>
      if negb (policy_read policy) || ((op =b Edit) && negb (policy_edit policy)) then false
      else if denied caller d op then false
      else match foldl (add_grant caller) (owner_role caller d) (grants (access d)) with
           | Some role => (op =b Read) || (role =b Editor)
           | None => false
           end
  end.

#[global] Arguments authorize _ _ _ : simpl never.

(** ** The declarative reading *)

(** [p] is on the caller's lineage within [reach]: [via] is the part of the
    lineage from the caller up to the first edge out of [p]. *)
Definition Ancestor (caller : HostAccessContext) (p : Principal) (reach : Reach)
    (via : list LineageLink) : Prop :=
  caller_principal caller ≠ p ∧ reach ≠ SelfOnly ∧
  ∃ pre link post,
    links (caller_lineage caller) = pre ++ link :: post ∧ via = pre ++ [link] ∧
    link_parent link = p ∧ Forall (λ l, link_parent l ≠ p) pre ∧
    (reach = Forks → Forall (λ l, link_kind l = Fork) via).

(** An edge lets a role through when its ceiling is that role or above. *)
Definition edge_admits (r : Role) (l : LineageLink) : Prop :=
  link_ceiling l = Some Editor ∨ (r = Reader ∧ link_ceiling l = Some Reader).

(** The principal's entry concerns the caller. *)
Definition PrincipalReaches (caller : HostAccessContext) (p : Principal) (reach : Reach) : Prop :=
  caller_principal caller = p ∨ ∃ via, Ancestor caller p reach via.

(** The principal's entry gives the caller role [r]. *)
Definition PrincipalAdmits (caller : HostAccessContext) (p : Principal) (reach : Reach) (r : Role) : Prop :=
  caller_principal caller = p ∨ ∃ via, Ancestor caller p reach via ∧ Forall (edge_admits r) via.

Definition AudienceReaches (caller : HostAccessContext) (a : Audience) : Prop :=
  match a with
  | AudienceAgent p reach => PrincipalReaches caller p reach
  | AudienceMob id => id ∈ member_mobs caller
  | AudienceRealm => True
  end.

Definition AudienceAdmits (caller : HostAccessContext) (a : Audience) (r : Role) : Prop :=
  match a with
  | AudienceAgent p reach => PrincipalAdmits caller p reach r
  | AudienceMob id => id ∈ member_mobs caller
  | AudienceRealm => True
  end.

Definition OwnerAdmits (caller : HostAccessContext) (d : Document) (r : Role) : Prop :=
  match owner d with
  | OwnerAgent p => PrincipalAdmits caller p (owner_reach (access d)) r
  | o => manages caller o = true
  end.

(** A role is at least another: an editor may also read. *)
Definition role_covers (have need : Role) : Prop := have = Editor ∨ need = Reader.

Definition Entitled (caller : HostAccessContext) (d : Document) (r : Role) : Prop :=
  OwnerAdmits caller d r ∨
  ∃ g, g ∈ grants (access d) ∧ role_covers (grant_role g) r ∧ AudienceAdmits caller (grant_audience g) r.

Definition Denied (caller : HostAccessContext) (d : Document) (op : Operation) : Prop :=
  ∃ x, x ∈ denies (access d) ∧ AudienceReaches caller (deny_audience x) ∧
       (deny_operation x = DenyRead ∨ op = Edit).

(** ** The lineage walk *)

Definition admitted (c : option Role) (r : Role) : Prop := ∃ x, c = Some x ∧ role_covers x r.

Lemma admitted_zip_min c l r : admitted (zip_min c (link_ceiling l)) r ↔ admitted c r ∧ edge_admits r l.
Proof.
  unfold admitted, edge_admits, role_covers.
  destruct c as [[]|], (link_ceiling l) as [[]|], r; simpl; naive_solver.
Qed.

Lemma admitted_editor r : admitted (Some Editor) r.
Proof. exists Editor. split; [done|by left]. Qed.

(** The walk stops at the first edge out of the principal. *)
Lemma lineage_route_Some p reach c ls m :
  lineage_route p reach c ls = Some m ↔
  ∃ pre link post, ls = pre ++ link :: post ∧ link_parent link = p ∧
    Forall (λ l, link_parent l ≠ p) pre ∧
    (reach = Forks → Forall (λ l, link_kind l = Fork) (pre ++ [link])) ∧
    m = mkRoute (foldl (λ c l, zip_min c (link_ceiling l)) c (pre ++ [link])).
Proof.
  revert c. induction ls as [|l ls IH]; intros c; cbn [lineage_route].
  - split; [done|]. intros ([|? ?] & ? & ? & ? & _); done.
  - destruct ((reach =b Forks) && negb (link_kind l =b Fork)) eqn:Ek.
    + apply andb_true_iff in Ek as [Er%bool_decide_eq_true Hk%negb_true_iff%bool_decide_eq_false].
      split; [done|]. intros ([|l' pre] & link & post & E & _ & _ & Hf & _); injection E as -> ->;
        specialize (Hf Er); by inversion Hf.
    + assert (Hkind : reach = Forks → link_kind l = Fork).
      { intros ->. destruct (link_kind l); done. }
      clear Ek. case_test.
      * split.
        -- intros [= <-]. exists [], l, ls. split_and!; [done..|by constructor| |done].
           intros Hr. repeat constructor. auto.
        -- intros ([|l' pre] & link & post & E & Hp & Hpre & Hf & ->); injection E as -> ->; [done|].
           by inversion Hpre.
      * rewrite IH. split.
        -- intros (pre & link & post & -> & Hp & Hpre & Hf & ->). exists (l :: pre), link, post.
           split_and!; [done..|by constructor| |done]. intros Hr. simpl. constructor; auto.
        -- intros ([|l' pre] & link & post & E & Hp & Hpre & Hf & ->); injection E as -> ->; [done|].
           exists pre, link, post. inversion Hpre. split_and!; [done..| |done].
           intros Hr. specialize (Hf Hr). by inversion Hf.
Qed.

Lemma admitted_foldl c ls r :
  admitted (foldl (λ c l, zip_min c (link_ceiling l)) c ls) r ↔ admitted c r ∧ Forall (edge_admits r) ls.
Proof.
  revert c. induction ls as [|l ls IH]; intros c; simpl.
  - rewrite Forall_nil. tauto.
  - rewrite IH, admitted_zip_min, Forall_cons. tauto.
Qed.

Lemma agent_route_reaches caller p reach :
  is_Some (agent_route caller p reach) ↔ PrincipalReaches caller p reach.
Proof.
  unfold agent_route, PrincipalReaches, Ancestor. case_test; [naive_solver|].
  case_test; [split; [by intros []|naive_solver]|].
  split.
  - intros [m (pre & link & post & ? & ? & ? & ? & _)%lineage_route_Some]. right.
    exists (pre ++ [link]). split_and!; [done..|]. exists pre, link, post. naive_solver.
  - intros [?|(via & _ & _ & pre & link & post & ? & -> & ? & ? & ?)]; [done|].
    eexists. apply lineage_route_Some. exists pre, link, post. split_and!; [done..|reflexivity].
Qed.

Lemma agent_route_admits caller p reach r :
  admitted (agent_route caller p reach ≫= ceiling) r ↔ PrincipalAdmits caller p reach r.
Proof.
  unfold agent_route, PrincipalAdmits, Ancestor. case_test.
  { simpl. split; [by left|intros _; apply admitted_editor]. }
  case_test; [split; [by intros (? & ? & _)|naive_solver]|].
  split.
  - destruct (lineage_route _ _ _ _) as [m|] eqn:E; [|by intros (? & ? & _)].
    apply lineage_route_Some in E as (pre & link & post & ? & ? & ? & ? & ->). simpl.
    intros [_ Hall]%admitted_foldl. right. exists (pre ++ [link]). split; [|done].
    split_and!; [done..|]. exists pre, link, post. naive_solver.
  - intros [?|(via & (_ & _ & pre & link & post & Hl & -> & Hp & Hpre & Hf) & Hall)]; [done|].
    replace (lineage_route p reach (Some Editor) (links (caller_lineage caller)))
      with (Some (mkRoute (foldl (λ c l, zip_min c (link_ceiling l)) (Some Editor) (pre ++ [link])))).
    + simpl. apply admitted_foldl. split; [apply admitted_editor|done].
    + symmetry. apply lineage_route_Some. exists pre, link, post. naive_solver.
Qed.

Lemma route_reaches caller a : is_Some (route caller a) ↔ AudienceReaches caller a.
Proof.
  destruct a as [p reach|id|]; simpl; [apply agent_route_reaches| |naive_solver].
  case_test; [naive_solver|]. split; [by intros []|done].
Qed.

Lemma route_admits caller a r : admitted (route caller a ≫= ceiling) r ↔ AudienceAdmits caller a r.
Proof.
  destruct a as [p reach|id|]; simpl; [apply agent_route_admits| |].
  - case_test; simpl; [|split; [by intros (? & ? & _)|done]].
    split; [done|intros _; apply admitted_editor].
  - split; [done|intros _; apply admitted_editor].
Qed.

(** ** The grants *)

Lemma admitted_add_grant caller role g r :
  admitted (add_grant caller role g) r ↔
  admitted role r ∨ (role_covers (grant_role g) r ∧ AudienceAdmits caller (grant_audience g) r).
Proof.
  unfold add_grant. rewrite <- route_admits. unfold admitted, role_covers.
  destruct (route caller (grant_audience g) ≫= ceiling) as [c|], role as [x|], r, (grant_role g);
    try destruct c; try destruct x; simpl; naive_solver.
Qed.

Lemma admitted_grants caller role gs r :
  admitted (foldl (add_grant caller) role gs) r ↔
  admitted role r ∨
  ∃ g, g ∈ gs ∧ role_covers (grant_role g) r ∧ AudienceAdmits caller (grant_audience g) r.
Proof.
  revert role. induction gs as [|g gs IH]; intros role; simpl.
  - set_solver.
  - rewrite IH, admitted_add_grant. setoid_rewrite elem_of_cons. naive_solver.
Qed.

Lemma owner_role_admits caller d r : admitted (owner_role caller d) r ↔ OwnerAdmits caller d r.
Proof.
  unfold owner_role, OwnerAdmits. destruct (owner d) as [p|id|]; [apply agent_route_admits|..].
  all: destruct (manages _ _); split; try done; try (intros _; apply admitted_editor); by intros (? & ? & _).
Qed.

Lemma denied_spec caller d op : denied caller d op = true ↔ Denied caller d op.
Proof.
  unfold denied, Denied. rewrite existsb_elem_of. f_equiv. intros x.
  rewrite andb_true_iff, orb_true_iff, !bool_decide_eq_true, <- route_reaches.
  unfold is_some. destruct (route caller (deny_audience x)) as [m|]; [naive_solver|].
  split; [naive_solver|]. intros (? & [? ?] & _). done.
Qed.

Lemma role_test role r (op : Operation) :
  op = match r with Reader => Read | Editor => Edit end →
  match role with Some x => (op =b Read) || (x =b Editor) | None => false end = true ↔ admitted role r.
Proof.
  unfold admitted, role_covers. intros ->. destruct role as [[]|], r; simpl; split; try done;
    naive_solver.
Qed.

(** ** The evaluator *)

Lemma authorize_iff caller d op :
  authorize caller d op = true ↔
  match op with
  | Manage => policy_manage (caller_policy caller) = true ∧ manages caller (owner d) = true
  | Read => policy_read (caller_policy caller) = true ∧ ¬ Denied caller d Read ∧ Entitled caller d Reader
  | Edit => policy_read (caller_policy caller) = true ∧ policy_edit (caller_policy caller) = true ∧
            ¬ Denied caller d Edit ∧ Entitled caller d Editor
  end.
Proof.
  unfold authorize, Entitled. destruct op; [| |by rewrite andb_true_iff].
  - rewrite <- denied_spec, <- owner_role_admits, <- admitted_grants, <- (role_test _ Reader Read) by done.
    destruct (policy_read _), (denied caller d Read); simpl; naive_solver.
  - rewrite <- denied_spec, <- owner_role_admits, <- admitted_grants, <- (role_test _ Editor Edit) by done.
    destruct (policy_read _), (policy_edit _), (denied caller d Edit); simpl; naive_solver.
Qed.

(** The policy evaluator allows exactly what the access entries say.
    Managing needs the host's manage policy and ownership through the caller's
    own identity, a managed mob or realm administration.  Reading and editing
    need the host's policy, no deny entry that reaches the caller (a read deny
    forbids both), and an owner or grant entry that admits the role: directly,
    through a mob or the realm, or along the caller's verified lineage, where
    every creation edge on the way must let the role through. *)
Theorem authorize_exact caller d op :
  authorize caller d op = true ↔
  match op with
  | Manage => policy_manage (caller_policy caller) = true ∧ manages caller (owner d) = true
  | Read => policy_read (caller_policy caller) = true ∧ ¬ Denied caller d Read ∧ Entitled caller d Reader
  | Edit => policy_read (caller_policy caller) = true ∧ policy_edit (caller_policy caller) = true ∧
            ¬ Denied caller d Edit ∧ Entitled caller d Editor
  end.
Proof. apply authorize_iff. Qed.

(** Editing is the stronger right: whoever may edit a document may read it. *)
Lemma edit_implies_read caller d : authorize caller d Edit = true → authorize caller d Read = true.
Proof.
  rewrite !authorize_iff. intros (Hr & _ & Hd & He). split_and!; [done| |].
  - intros (x & Hx & Ha & [Ho|?]); [|done]. apply Hd. exists x. auto.
  - assert (Hedge : ∀ via, Forall (edge_admits Editor) via → Forall (edge_admits Reader) via).
    { intros via H. eapply Forall_impl; [exact H|]. intros l [?|[? _]]; [by left|done]. }
    assert (Hpr : ∀ p reach, PrincipalAdmits caller p reach Editor → PrincipalAdmits caller p reach Reader).
    { intros p reach [?|(via & ? & ?)]; [by left|right; eauto]. }
    destruct He as [Ho|(g & Hg & _ & Ha)].
    + left. revert Ho. unfold OwnerAdmits. destruct (owner d); auto.
    + right. exists g. split_and!; [done|by right|]. revert Ha. destruct (grant_audience g); simpl; auto.
Qed.

(** ** Verified lineages *)

Definition valid_link (l : LineageLink) : Prop :=
  validate_principal (link_child l) = Ok tt ∧ validate_principal (link_parent l) = Ok tt.

(** The principals of a lineage, from the caller to the root. *)
Fixpoint lineage_path (ls : list LineageLink) : list Principal :=
  match ls with
  | [] => []
  | [l] => [link_child l; link_parent l]
  | l :: rest => link_child l :: lineage_path rest
  end.

(** Each link's child is the parent of the link before it. *)
Fixpoint chained (prev : option LineageLink) (ls : list LineageLink) : Prop :=
  match ls with
  | [] => True
  | l :: rest => (∀ p, prev = Some p → link_parent p = link_child l) ∧ chained (Some l) rest
  end.

Lemma lineage_path_head l ls : link_child l ∈ lineage_path (l :: ls).
Proof. destruct ls; simpl; set_solver. Qed.

Lemma lineage_path_cons l k ls : lineage_path (l :: k :: ls) = link_child l :: lineage_path (k :: ls).
Proof. done. Qed.

Lemma check_link_Ok (seen : gset Principal) prev l (k : Result unit Error) :
  (_ ←? validate_principal (link_child l);
   _ ←? validate_principal (link_parent l);
   if bool_decide (link_child l ∈ seen) || bool_decide (link_parent l ∈ {[link_child l]} ∪ seen)
   then Err AuthorityUnavailable
   else if is_some_and prev (λ p, negb (link_parent p =b link_child l))
   then Err AuthorityUnavailable
   else k) = Ok tt ↔
  valid_link l ∧ link_child l ∉ seen ∧ link_parent l ∉ {[link_child l]} ∪ seen ∧
  (∀ p, prev = Some p → link_parent p = link_child l) ∧ k = Ok tt.
Proof.
  unfold valid_link.
  assert (Hprev : is_some_and prev (λ p, negb (link_parent p =b link_child l)) = false ↔
                  ∀ p, prev = Some p → link_parent p = link_child l).
  { destruct prev as [p|]; simpl; [|naive_solver]. rewrite negb_false_iff, bool_decide_eq_true. naive_solver. }
  rewrite <- Hprev. clear Hprev.
  destruct (validate_principal (link_child l)) as [[]|]; simpl; [|naive_solver].
  destruct (validate_principal (link_parent l)) as [[]|]; simpl; [|naive_solver].
  destruct (is_some_and _ _); repeat case_test; simpl; naive_solver.
Qed.

Lemma check_links_Ok seen prev l ls :
  check_links seen prev (l :: ls) = Ok tt ↔
  Forall valid_link (l :: ls) ∧ chained prev (l :: ls) ∧ NoDup (lineage_path (l :: ls)) ∧
  (∀ p, p ∈ lineage_path (l :: ls) → p ∉ seen).
Proof.
  revert seen prev l. induction ls as [|k ls IH]; intros seen prev l.
  - cbn [check_links]. cbv zeta. rewrite check_link_Ok. cbn [chained lineage_path].
    rewrite Forall_singleton, NoDup_cons. setoid_rewrite elem_of_cons. setoid_rewrite list_elem_of_singleton.
    rewrite not_elem_of_union, not_elem_of_singleton. split.
    + intros (? & ? & [? ?] & ? & _). split_and!; [done..|set_solver|apply NoDup_singleton|set_solver].
    + intros (? & [? _] & [Hn _] & Hs). split_and!; [done|set_solver|set_solver|set_solver|done..].
  - cbn [check_links] in *. cbv zeta in *. rewrite check_link_Ok, IH, lineage_path_cons.
    cbn [chained]. rewrite (Forall_cons _ l), NoDup_cons. setoid_rewrite elem_of_cons.
    pose proof (lineage_path_head k ls) as Hk. split.
    + intros (? & Hc & Hp & ? & ? & [Hlk Hch] & ? & Hs). split_and!; [done..| | |].
      * intros Hin. apply Hs in Hin. set_solver.
      * done.
      * intros p [->|Hin]; [done|]. apply Hs in Hin. set_solver.
    + intros ([? ?] & (? & Hlk & ?) & [Hn ?] & Hs).
      assert (Hs' : ∀ p, p ∈ lineage_path (k :: ls) → p ∉ ({[link_child l]} ∪ seen : gset Principal)).
      { intros p Hin. apply not_elem_of_union. rewrite not_elem_of_singleton. split; [by intros ->|auto]. }
      split_and!; [done|apply Hs; by left| |done..].
      apply Hs'. rewrite (Hlk l) by done. done.
Qed.

(** A derived lineage is accepted exactly when it is a simple path of valid
    principals of 1 to 128 creation edges: each edge starts where the one before
    it ends, and no principal occurs twice, the root included, so the walk from a
    caller to its root neither loops nor skips an edge. *)
Theorem derived_iff_simple_path ls lineage :
  derived ls = Ok lineage ↔
  lineage = mkLineage ls ∧ (1 ≤ length ls ≤ 128)%nat ∧ Forall valid_link ls ∧ chained None ls ∧
  NoDup (lineage_path ls).
Proof.
  unfold derived. destruct ls as [|l ls]; [simpl; split; [done|naive_solver lia]|].
  cbn [is_empty orb]. destruct (Z.ltb_spec 128 (Z.of_nat (length (l :: ls)))) as [Hlt|Hge].
  - split; [done|]. intros (_ & ? & _). lia.
  - rewrite and_then_Ok. split.
    + intros ([] & Hc & [= <-]). apply check_links_Ok in Hc as (? & ? & ? & _).
      split_and!; [done|simpl; lia|lia|done..].
    + intros (-> & _ & ? & ? & ?). exists tt. split; [|done]. apply check_links_Ok. set_solver.
Qed.
