(* ===== verification/ExtensionStore.v ===== *)
(** * Extension documents: the SQLite store ([meta-extension-state/src/sqlite.rs], [lib.rs])

    The two tables are finite maps on their primary keys, in the worlds of
    [SqlWorld].  What the store observes from outside is [StoreEnv]: whether a
    statement fails, the clock, fresh UUIDs, whether the connection and the
    operation guard can be taken, and the order of an unordered scan.  Every
    [map_err(storage)?] of the source is a call of [sql], so a failure may strike
    between any two statements.

    The JSON text of a column is what [serde_json] makes of it; [Serde] states
    that reading back what was written gives the same value. *)

From S2P Require Import Prelude Strings SqlWorld ExtensionTypes ExtensionPolicy.
Open Scope Z_scope.

(** ** Serialization and the outside world *)

Class Serde (A : Type) := {
  encode : A → Result string Error;
  decode : string → Result A Error;
}.

(** What the store relies on: a value written as JSON is read back unchanged. *)
Class SerdeRoundTrip (A : Type) `{!Serde A} : Prop :=
  decode_encode : ∀ (a : A) (t : string), encode a = Ok t → decode t = Ok a.

Record DocRow := mkDocRow { row_metadata : string; row_payload : string; row_deleted : bool }.
Record ReceiptRow := mkReceiptRow {
  row_fingerprint : string;
  row_receipt : string;
  row_document_id : string;
  row_operation : string;
}.

Definition DocKey : Type := string * string * string.
Definition ReceiptKey : Type := string * string * string * string.

#[global] Instance doc_key_order : KeyOrder DocKey := {| key_le := lex3_le |}.

Record Db := mkDb {
  extension_documents : gmap DocKey DocRow;
  extension_receipts : gmap ReceiptKey ReceiptRow;
}.

Record StoreEnv := mkEnv {
  sql_fault : nat → option string;
  now_at : nat → Result Z Error;
  uuid_at : nat → string;
  enter_fault : nat → option Error;
  unique_violation : string;
  scan_order : list DocRow → list DocRow;
}.

Notation St := (M (World Db unit) Error).

Definition doc_key (scope : DocumentScope) (id : string) : DocKey :=
  (scope_realm scope, scope_namespace scope, id).
Definition receipt_key (scope : DocumentScope) (principal request : string) : ReceiptKey :=
  (scope_realm scope, scope_namespace scope, principal, request).

Section store.
Context (env : StoreEnv).
Context `{!Serde Document, !Serde MutationReceipt, !Serde Principal, !Serde Operation}.

(** A statement that may fail. *)
Definition sql : St unit := statement (λ n, Storage <$> sql_fault env n).

Definition now : St Z := r ← observe (now_at env); lift_result r.
Definition new_v4 : St string := observe (uuid_at env).

(** [run]: the connection is locked and the operation guard taken. *)
Definition run {A} (f : St A) : St A := enter (enter_fault env) f.

Definition commit : St unit := commit_tables (λ n, Storage <$> sql_fault env n).

(** ** Rows *)

Definition row_document (row : DocRow) : Result Document Error :=
  doc ←? decode (row_metadata row);
  Ok (with_content doc (with_payload (content doc) (row_payload row))).

Definition load (scope : DocumentScope) (id : string) : St (option (Document * bool)) :=
  _ ← sql;
  row ← gets (λ w, extension_documents (working w) !! doc_key scope id);
  match row with
  | None => mret None
  | Some row =>
      doc ← lift_result (row_document row);
      mret (Some (doc, row_deleted row))
  end.

Definition receipt (scope : DocumentScope) (caller : HostAccessContext) (request : RequestIdentity)
    : St (option MutationReceipt) :=
  _ ← lift_result (validate_scope scope caller);
  principal ← lift_result (encode (caller_principal caller));
  _ ← sql;
  row ← gets (λ w, extension_receipts (working w) !! receipt_key scope principal (request_id request));
  match row with
  | None => mret None
  | Some row =>
      loaded ← load scope (row_document_id row);
      document ← lift_result (ok_or loaded NotFound);
      operation ← lift_result (decode (A := Operation) (row_operation row));
      _ ← throw_if (negb (authorize caller document.1 operation)) NotFound;
      _ ← throw_if (negb (row_fingerprint row =b fingerprint request)) RequestIdReused;
      r ← lift_result (decode (A := MutationReceipt) (row_receipt row));
      mret (Some r)
  end.

(** [INSERT] fails on an existing key; [UPDATE] of a missing row changes nothing. *)
Definition put_row (create : bool) (key : DocKey) (row : DocRow) (docs : gmap DocKey DocRow)
    : gmap DocKey DocRow :=
  if create then <[key := row]> docs else alter (λ _, row) key docs.

Definition document_row (metadata : string) (d : Document) (deleted : bool) : DocRow :=
  mkDocRow metadata (if deleted then "" else payload (content d)) deleted.

Definition write_document (scope : DocumentScope) (d : Document) (deleted create : bool) : St unit :=
  metadata ← lift_result (encode (with_content d (with_payload (content d) "")));
  _ ← sql;
  docs ← gets (λ w, extension_documents (working w));
  let key := doc_key scope (doc_id d) in
  _ ← throw_if (create && is_some (docs !! key)) (Storage (unique_violation env));
  modify (λ w, with_working
    (mkDb (put_row create key (document_row metadata d deleted) docs) (extension_receipts (working w))) w).

Definition insert_receipt (key : ReceiptKey) (row : ReceiptRow) : St unit :=
  _ ← sql;
  receipts ← gets (λ w, extension_receipts (working w));
  _ ← throw_if (is_some (receipts !! key)) (Storage (unique_violation env));
  modify (λ w, with_working (mkDb (extension_documents (working w)) (<[key := row]> receipts)) w).

Definition validate_owner (o : Owner) : Result unit Error :=
  match o with
  | OwnerAgent principal => validate_principal principal
  | OwnerMob id => identifier id
  | OwnerRealm => Ok tt
  end.

(** ** Reads *)

Definition readable_document (scope : DocumentScope) (caller : HostAccessContext) (id : string)
    : St Document :=
  loaded ← load scope id;
  document ← lift_result (ok_or loaded NotFound);
  _ ← throw_if (document.2 || negb (authorize caller document.1 Read)) NotFound;
  mret document.1.

Definition get_document (scope : DocumentScope) (caller : HostAccessContext) (id : string) : St Document :=
  _ ← lift_result (validate_scope scope caller);
  run (readable_document scope caller id).

(** [WHERE realm=?1 AND namespace=?2 AND deleted=0 AND id>?3 ORDER BY id]: within
    one realm and namespace the key order is the order of ids. *)
Definition page_row (scope : DocumentScope) (after_id : string) (e : DocKey * DocRow) : bool :=
  let '((realm, namespace, id), row) := e in
  (realm =b scope_realm scope) && (namespace =b scope_namespace scope) &&
  negb (row_deleted row) && negb (bool_decide (String.le id after_id)).

Definition page_rows (db : Db) (scope : DocumentScope) (after_id : string) : list DocRow :=
  (List.filter (page_row scope after_id) (btree_entries (extension_documents db))).*2.

Fixpoint list_rows (caller : HostAccessContext) (n : nat) (rows : list DocRow)
    (acc : list DocumentSummary) : St (list DocumentSummary * bool) :=
  _ ← sql;
  match rows with
  | [] => mret (acc, false)
  | row :: rest =>
      _ ← sql;
      document ← lift_result (decode (A := Document) (row_metadata row));
      if negb (authorize caller document Read) then list_rows caller n rest acc
      else if (length acc =? n)%nat then mret (acc, true)
      else list_rows caller n rest (acc ++ [summary_of document])
  end.

(** [next] is the id of the last document when the loop stopped early. *)
Definition page_of (found : list DocumentSummary * bool) : DocumentPage :=
  mkPage found.1 (if found.2 then summary_id <$> last found.1 else None).

Definition list_documents (scope : DocumentScope) (caller : HostAccessContext) (request : ListRequest)
    : St DocumentPage :=
  _ ← lift_result (validate_scope scope caller);
  _ ← throw_if ((limit request =? 0)%nat || (100 <? limit request)%nat) (Invalid "list limit must be 1-100");
  run (
    _ ← sql;
    _ ← match after request with
        | Some id => _ ← readable_document scope caller id; mret tt
        | None => mret tt
        end;
    _ ← sql;
    _ ← sql;
    db ← gets working;
    found ← list_rows caller (limit request) (page_rows db scope (unwrap_or (after request) "")) [];
    mret (page_of found)).

Fixpoint scan_mob (mob_id : string) (rows : list DocRow) : St bool :=
  _ ← sql;
  match rows with
  | [] => mret false
  | row :: rest =>
      _ ← sql;
      document ← lift_result (decode (A := Document) (row_metadata row));
      if names_mob document mob_id then mret true else scan_mob mob_id rest
  end.

Definition live_row_of (realm : string) (e : DocKey * DocRow) : bool :=
  (e.1.1.1 =b realm) && negb (row_deleted e.2).

Definition references_mob (realm mob_id : string) : St bool :=
  run (
    _ ← sql;
    _ ← sql;
    _ ← sql;
    db ← gets working;
    scan_mob mob_id (scan_order env
      (List.filter (live_row_of realm) (btree_entries (extension_documents db))).*2)).

Definition lookup_receipt (scope : DocumentScope) (caller : HostAccessContext) (request : RequestIdentity)
    : St (option MutationReceipt) :=
  run (_ ← sql; receipt scope caller request).

(** ** Mutations *)

Definition is_create (m : Mutation) : bool := match m with Create _ => true | _ => false end.
Definition is_delete (m : Mutation) : bool := match m with Delete _ _ => true | _ => false end.
Definition mutation_operation (m : Mutation) : Operation :=
  match m with Replace _ _ _ => Edit | _ => Manage end.

(** The document and the revision a mutation other than [Create] names. *)
Definition mutation_target (m : Mutation) : option (string * string) :=
  match m with
  | Create _ => None
  | Replace id r _ | SetAccess id r _ | Transfer id r _ _ | Delete id r => Some (id, r)
  end.

Definition scrubbed_content : DocumentContent := mkContent "" "application/octet-stream" 1 "".

Definition apply_mutation (caller : HostAccessContext) (m : Mutation) (d : Document)
    : Result Document Error :=
  match m with
  | Create _ => Err (Invalid "invalid mutation")
  | Replace _ _ c => _ ←? validate_content c; Ok (with_content d c)
  | SetAccess _ _ a => _ ←? validate_access a; Ok (with_access d a)
  | Transfer _ _ o a =>
      _ ←? validate_owner o;
      if negb (owner_is_valid caller o) then Err NotFound
      else match a with
           | None => Ok (with_owner d o)
           | Some a => _ ←? validate_access a; Ok (with_access (with_owner d o) a)
           end
  | Delete _ _ => Ok (with_content d scrubbed_content)
  end.

Definition create_document (caller : HostAccessContext) (new : NewDocument) (timestamp : Z) : St Document :=
  let o := unwrap_or (new_owner new) (OwnerAgent (caller_principal caller)) in
  _ ← lift_result (validate_owner o);
  _ ← lift_result (validate_content (new_content new));
  _ ← lift_result (validate_access (new_access new));
  _ ← throw_if (negb (can_create caller o)) NotFound;
  id ← new_v4;
  mret (mkDocument id "" (new_content new) o (new_access new) timestamp timestamp).

Definition change_document (scope : DocumentScope) (caller : HostAccessContext) (m : Mutation) : St Document :=
  match mutation_target m with
  | None => throw (Invalid "invalid mutation")
  | Some (id, expected_revision) =>
      loaded ← load scope id;
      document ← lift_result (ok_or loaded NotFound);
      _ ← throw_if (document.2 || negb (authorize caller document.1 (mutation_operation m))) NotFound;
      _ ← throw_if (negb (revision document.1 =b expected_revision)) Conflict;
      lift_result (apply_mutation caller m document.1)
  end.

(** From the mutated document to the commit: a new revision, the row, the receipt. *)
Definition commit_document (scope : DocumentScope) (caller : HostAccessContext) (request : RequestIdentity)
    (m : Mutation) (d : Document) (timestamp : Z) : St MutationOutcome :=
  rev ← new_v4;
  let document := with_revision d rev timestamp in
  _ ← write_document scope document (is_delete m) (is_create m);
  let result := mkReceipt (doc_id document) rev (is_delete m) in
  principal ← lift_result (encode (caller_principal caller));
  receipt_text ← lift_result (encode result);
  operation_text ← lift_result (encode (mutation_operation m));
  _ ← insert_receipt (receipt_key scope principal (request_id request))
        (mkReceiptRow (fingerprint request) receipt_text (doc_id document) operation_text);
  _ ← commit;
  mret (mkOutcome result false).

Definition mutate (scope : DocumentScope) (caller : HostAccessContext) (request : RequestIdentity)
    (m : Mutation) : St MutationOutcome :=
  _ ← lift_result (validate_scope scope caller);
  run (
    _ ← sql;
    prior ← receipt scope caller request;
    match prior with
    | Some r => mret (mkOutcome r true)
    | None =>
        timestamp ← now;
        document ← match m with
                   | Create new => create_document caller new timestamp
                   | _ => change_document scope caller m
                   end;
        commit_document scope caller request m document timestamp
    end).
End store.

(** ** The store interface and the service bound to a scope ([lib.rs])

    [ExtensionDocumentStore] is the trait: a provider's operations on its own
    state.  [references_mob] has a default that refuses to answer.  A
    [DocumentService] fixes the realm and namespace once, at composition. *)

Record ExtensionDocumentStore (W : Type) := mkStore {
  store_get : DocumentScope → HostAccessContext → string → M W Error Document;
  store_list : DocumentScope → HostAccessContext → ListRequest → M W Error DocumentPage;
  store_lookup_receipt :
    DocumentScope → HostAccessContext → RequestIdentity → M W Error (option MutationReceipt);
  store_mutate : DocumentScope → HostAccessContext → RequestIdentity → Mutation → M W Error MutationOutcome;
  store_references_mob : string → string → M W Error bool;
}.
Arguments mkStore {W} _ _ _ _ _.
Arguments store_get {W} _ _ _ _.
Arguments store_list {W} _ _ _ _.
Arguments store_lookup_receipt {W} _ _ _ _.
Arguments store_mutate {W} _ _ _ _ _.
Arguments store_references_mob {W} _ _ _.

Definition default_references_mob {W} (realm mob_id : string) : M W Error bool :=
  throw (Storage "this document store cannot report which documents name a mob").

Definition SqliteExtensionDocumentStore (env : StoreEnv)
    `{!Serde Document, !Serde MutationReceipt, !Serde Principal, !Serde Operation}
    : ExtensionDocumentStore (World Db unit) :=
  mkStore (get_document env) (list_documents env) (lookup_receipt env) (mutate env) (references_mob env).

Record DocumentService (W : Type) := mkService {
  service_scope : DocumentScope;
  service_store : ExtensionDocumentStore W;
}.
Arguments mkService {W} _ _.
Arguments service_scope {W} _.
Arguments service_store {W} _.

Section service.
Context {W : Type}.

Definition new_service (realm namespace : string) (store : ExtensionDocumentStore W)
    : Result (DocumentService W) Error :=
  scope ←? new_scope realm namespace;
  Ok (mkService scope store).

Definition service_get (s : DocumentService W) (caller : HostAccessContext) (id : string) : M W Error Document :=
  store_get (service_store s) (service_scope s) caller id.
Definition service_list (s : DocumentService W) (caller : HostAccessContext) (request : ListRequest)
    : M W Error DocumentPage :=
  store_list (service_store s) (service_scope s) caller request.
Definition service_lookup_receipt (s : DocumentService W) (caller : HostAccessContext) (request : RequestIdentity)
    : M W Error (option MutationReceipt) :=
  store_lookup_receipt (service_store s) (service_scope s) caller request.
Definition service_mutate (s : DocumentService W) (caller : HostAccessContext) (request : RequestIdentity)
    (m : Mutation) : M W Error MutationOutcome :=
  store_mutate (service_store s) (service_scope s) caller request m.
End service.
