(* ===== verification/ExtensionExamples.v ===== *)
(** * Extension documents: concrete values

    A document store with a working clock, distinct identifiers and no failing
    statement, and serializers that read back what they write: the values the
    examples of the extension files evaluate on. *)

From stdpp Require Import pretty.
From S2P Require Import Prelude Strings ExtensionTypes ExtensionPolicy ExtensionStore.
Open Scope Z_scope.

Module ExtensionExamples.

(** Text of a positive number, and back. *)
Fixpoint pos_text (p : positive) : string :=
  match p with
  | xH => ""
  | xO q => String "0"%char (pos_text q)
  | xI q => String "1"%char (pos_text q)
  end.
Fixpoint text_pos (s : string) : positive :=
  match s with
  | "" => xH
  | String a t => if a =b "0"%char then xO (text_pos t) else xI (text_pos t)
  end.

Lemma text_pos_text p : text_pos (pos_text p) = p.
Proof. induction p as [p IH|p IH|]; cbn [pos_text text_pos]; [..|done]; by rewrite IH. Qed.

Definition bool_role (b : bool) : Role := if b then Editor else Reader.
#[export] Instance Role_countable : Countable Role.
Proof. refine (inj_countable' (λ r, r =b Editor) bool_role _). by intros []. Defined.
#[export] Instance Reach_countable : Countable Reach.
Proof.
  refine (inj_countable' (λ r, match r with SelfOnly => 0%nat | Forks => 1%nat | Descendants => 2%nat end)
    (λ n, match n with 0%nat => SelfOnly | 1%nat => Forks | _ => Descendants end) _). by intros [].
Defined.
#[export] Instance Audience_countable : Countable Audience.
Proof.
  refine (inj_countable'
    (λ a, match a with AudienceAgent p r => inl (inl (p, r)) | AudienceMob i => inl (inr i) | AudienceRealm => inr () end)
    (λ s, match s with inl (inl (p, r)) => AudienceAgent p r | inl (inr i) => AudienceMob i | inr _ => AudienceRealm end) _).
  by intros [].
Defined.
#[export] Instance DeniedOperation_countable : Countable DeniedOperation.
Proof. refine (inj_countable' (λ r, r =b DenyEdit) (λ b : bool, if b then DenyEdit else DenyRead) _). by intros []. Defined.
#[export] Instance Grant_countable : Countable Grant.
Proof. refine (inj_countable' (λ g, (grant_audience g, grant_role g)) (λ p, mkGrant p.1 p.2) _). by intros []. Defined.
#[export] Instance Deny_countable : Countable Deny.
Proof. refine (inj_countable' (λ g, (deny_audience g, deny_operation g)) (λ p, mkDeny p.1 p.2) _). by intros []. Defined.
#[export] Instance DocumentAccess_countable : Countable DocumentAccess.
Proof.
  refine (inj_countable' (λ a, (owner_reach a, grants a, denies a)) (λ '(r, g, d), mkAccess r g d) _). by intros [].
Defined.
#[export] Instance DocumentContent_countable : Countable DocumentContent.
Proof.
  refine (inj_countable' (λ c, (title c, content_type c, schema_version c, payload c))
    (λ '(t, c, v, p), mkContent t c v p) _). by intros [].
Defined.
#[export] Instance Document_countable : Countable Document.
Proof.
  refine (inj_countable'
    (λ d, (doc_id d, revision d, content d, owner d, access d, created_at_ms d, updated_at_ms d))
    (λ '(i, r, c, o, a, x, y), mkDocument i r c o a x y) _). by intros [].
Defined.
#[export] Instance MutationReceipt_countable : Countable MutationReceipt.
Proof.
  refine (inj_countable' (λ r, (receipt_document_id r, receipt_revision r, receipt_deleted r))
    (λ '(i, r, d), mkReceipt i r d) _). by intros [].
Defined.
#[export] Instance Operation_countable : Countable Operation.
Proof.
  refine (inj_countable' (λ o, match o with Read => 0%nat | Edit => 1%nat | Manage => 2%nat end)
    (λ n, match n with 0%nat => Read | 1%nat => Edit | _ => Manage end) _). by intros [].
Defined.

#[export] Instance text_serde {A} `{Countable A} : Serde A := {
  encode a := Ok (pos_text (countable.encode a));
  decode t := match countable.decode (text_pos t) with Some a => Ok a | None => Err (Storage "text") end;
}.
#[export] Instance text_serde_round_trip {A} `{Countable A} : SerdeRoundTrip A.
Proof.
  intros a t [= <-]. simpl. by rewrite text_pos_text, countable.decode_encode.
Qed.

Definition env0 : StoreEnv :=
  mkEnv (λ _, None) (λ n, Ok (Z.of_nat n)) (λ n, pretty (N.of_nat n)) (λ _, None) "unique" (λ rows, rows).

Lemma env0_uuid i j : uuid_at env0 i = uuid_at env0 j → i = j.
Proof. simpl. intros H%(inj pretty). lia. Qed.

Definition alice : Principal := AgentPrincipal "alice".
Definition fork_of_alice : Principal := WorkerPrincipal "mob" "member" "creation".

Definition alice_caller : HostAccessContext := mkCaller "realm" alice lineage_root ∅ ∅ false ALLOW ∅.
(** A fork of Alice whose creation edge lets reading through. *)
Definition fork_link : LineageLink := mkLink fork_of_alice alice Fork (Some Reader).
Definition fork_caller : HostAccessContext :=
  mkCaller "realm" fork_of_alice (mkLineage [fork_link]) ∅ ∅ false ALLOW ∅.

Definition scope0 : DocumentScope := mkScope "realm" "tables".
Definition content0 : DocumentContent := mkContent "plan" "text/plain" 1 "first".
Definition content1 : DocumentContent := mkContent "plan" "text/plain" 1 "second".
Definition access0 : DocumentAccess := mkAccess Forks [mkGrant (AudienceMob "crew") Reader] [].
Definition request0 : RequestIdentity := mkRequest "request-0" "fp-0".
Definition request1 : RequestIdentity := mkRequest "request-1" "fp-1".
Definition create0 : Mutation := Create (mkNewDocument content0 None access0).

End ExtensionExamples.
