(* ===== verification/ExtensionProofs.v ===== *)
(** * Extension documents: what an operation does to the tables

    Symbolic execution of the store's operations.  A read leaves the tables alone
    whatever fails on the way ([quiet]); a mutation either leaves the committed
    tables alone or commits one document and one receipt ([Commits]).  The tables
    of every reachable world satisfy [DbInv]. *)

From S2P Require Import Prelude Strings SqlWorld ExtensionTypes ExtensionPolicy ExtensionStore.
Open Scope Z_scope.

Section proofs.
Context (env : StoreEnv).
Context `{!Serde Document, !Serde MutationReceipt, !Serde Principal, !Serde Operation}.

Lemma wp_store_sql Q w :
  (∀ t, Q (Err (Storage t)) (tick w)) → Q (Ok tt) (tick w) → wp (sql env) Q w.
Proof.
  intros Herr Hok. unfold sql. apply wp_statement; [|done]. intros e. destruct (sql_fault env _); simpl; [|done].
  intros [= <-]. apply Herr.
Qed.

Lemma wp_now Q w : (∀ r, Q r (tick w)) → wp (now env) Q w.
Proof. unfold now, wp, observe, mbind, m_bind. simpl. auto. Qed.

Lemma wp_transaction {A} (f : St A) Q w :
  (∀ e, Q (Err e) (tick w)) → wp f Q (with_working (committed w) (tick w)) → wp (run env f) Q w.
Proof. apply wp_enter. Qed.

(** What [load] answers, when it answers. *)
Definition loaded (db : Db) (scope : DocumentScope) (id : string) (o : option (Document * bool)) : Prop :=
  match o with
  | None => extension_documents db !! doc_key scope id = None
  | Some (d, deleted) => ∃ row, extension_documents db !! doc_key scope id = Some row ∧
      row_document row = Ok d ∧ row_deleted row = deleted
  end.

Lemma wp_load scope id w :
  wp (load env scope id)
    (λ r w', quiet w w' ∧ ∀ o, r = Ok o → loaded (working w) scope id o) w.
Proof.
  unfold load. wp_step. apply wp_store_sql; [early|]. wp_step. wp_step.
  destruct (extension_documents _ !! _) as [row|] eqn:E.
  - wp_step. wp_step. destruct (row_document row) as [d|e] eqn:Ed; simpl.
    + wp_step. split; [auto with meta|]. intros o [= <-]. simpl. eauto.
    + early.
  - wp_step. split; [auto with meta|]. by intros o [= <-].
Qed.

Lemma wp_quiet_load {scope id w0} (Q : Result (option (Document * bool)) Error → World Db unit → Prop) w :
  quiet w0 w →
  (∀ o w', quiet w0 w' → loaded (working w0) scope id o → Q (Ok o) w') →
  (∀ e w', quiet w0 w' → Q (Err e) w') → wp (load env scope id) Q w.
Proof.
  intros Hq Hok Herr. eapply wp_mono; [apply wp_load|]. intros [o|e] w' [Hq' Hl].
  - apply Hok; [by etrans|]. destruct Hq as (_ & <- & _). auto.
  - apply Herr. by etrans.
Qed.

(** What the receipt lookup answers, when it answers: the receipt stored under
    the caller and the request id, for a document the caller may still operate
    on and the same fingerprint. *)
Definition receipt_found (db : Db) (scope : DocumentScope) (caller : HostAccessContext)
    (request : RequestIdentity) (o : option MutationReceipt) : Prop :=
  ∃ principal, encode (caller_principal caller) = Ok principal ∧ scope_realm scope = caller_realm caller ∧
  match o with
  | None => extension_receipts db !! receipt_key scope principal (request_id request) = None
  | Some rc => ∃ row d deleted op,
      extension_receipts db !! receipt_key scope principal (request_id request) = Some row ∧
      loaded db scope (row_document_id row) (Some (d, deleted)) ∧
      decode (row_operation row) = Ok op ∧ authorize caller d op = true ∧
      row_fingerprint row = fingerprint request ∧ decode (row_receipt row) = Ok rc
  end.

Lemma validate_scope_Ok scope caller :
  validate_scope scope caller = Ok tt ↔ scope_realm scope = caller_realm caller.
Proof. unfold validate_scope. case_test; naive_solver. Qed.

Lemma wp_receipt scope caller request w :
  wp (receipt env scope caller request)
    (λ r w', quiet w w' ∧ ∀ o, r = Ok o → receipt_found (working w) scope caller request o) w.
Proof.
  unfold receipt. do 2 wp_step. destruct (validate_scope scope caller) as [[]|] eqn:Es; [|early].
  apply validate_scope_Ok in Es. do 2 wp_step. destruct (encode _) as [principal|] eqn:Ep; [|early].
  wp_step. apply wp_store_sql; [early|]. do 2 wp_step. simpl.
  destruct (extension_receipts (working w) !! _) as [row|] eqn:Er.
  2: { wp_step. split; [auto with meta|]. intros o [= <-]. exists principal. auto. }
  wp_step. apply (wp_quiet_load (w0 := w)); [auto with meta| |early].
  intros [[d del]|] w' Hq Hl; do 2 wp_step; simpl; [|early].
  do 2 wp_step. destruct (decode _) as [op|] eqn:Eo; [|early].
  do 2 wp_step. destruct (authorize caller d op) eqn:Ea; simpl; [|early].
  do 2 wp_step. case_test; simpl; [|early].
  do 2 wp_step. destruct (decode (row_receipt row)) as [rc|] eqn:Erc; [|early].
  wp_step. split; [done|]. intros o [= <-]. exists principal. split_and!; [done..|].
  exists row, d, del, op. done.
Qed.

(** ** Mutations *)

(** The document a mutation produces from the tables it starts from, before it
    gets its new revision. *)
Definition produces (scope : DocumentScope) (caller : HostAccessContext) (m : Mutation) (db : Db)
    (n n' : nat) (ts : Z) (d : Document) : Prop :=
  match m with
  | Create new =>
      let o := unwrap_or (new_owner new) (OwnerAgent (caller_principal caller)) in
      validate_owner o = Ok tt ∧ validate_content (new_content new) = Ok tt ∧
      validate_access (new_access new) = Ok tt ∧ can_create caller o = true ∧
      ∃ i, (n ≤ i < n')%nat ∧ d = mkDocument (uuid_at env i) "" (new_content new) o (new_access new) ts ts
  | _ => ∃ id expected d0, mutation_target m = Some (id, expected) ∧
      loaded db scope id (Some (d0, false)) ∧ authorize caller d0 (mutation_operation m) = true ∧
      revision d0 = expected ∧ apply_mutation caller m d0 = Ok d
  end.

(** One commit: the row of the document under a fresh revision, and the receipt
    of a request that had none. *)
Definition Commits (scope : DocumentScope) (caller : HostAccessContext) (request : RequestIdentity)
    (m : Mutation) (db db' : Db) (n n' : nat) (rc : MutationReceipt) : Prop :=
  ∃ d ts j metadata principal receipt_text operation_text,
    let d' := with_revision d (uuid_at env j) ts in
    let key := doc_key scope (doc_id d) in
    let rkey := receipt_key scope principal (request_id request) in
    scope_realm scope = caller_realm caller ∧
    produces scope caller m db n j ts d ∧ (n ≤ j < n')%nat ∧
    encode (with_content d' (with_payload (content d') "")) = Ok metadata ∧
    encode (caller_principal caller) = Ok principal ∧ encode rc = Ok receipt_text ∧
    encode (mutation_operation m) = Ok operation_text ∧
    rc = mkReceipt (doc_id d) (uuid_at env j) (is_delete m) ∧
    (is_create m = true → extension_documents db !! key = None) ∧
    extension_receipts db !! rkey = None ∧
    db' = mkDb (put_row (is_create m) key (document_row metadata d' (is_delete m)) (extension_documents db))
            (<[rkey := mkReceiptRow (fingerprint request) receipt_text (doc_id d) operation_text]>
               (extension_receipts db)).

Lemma produces_weaken scope caller m db n0 n n' n1 ts d :
  (n0 ≤ n)%nat → (n' ≤ n1)%nat → produces scope caller m db n n' ts d → produces scope caller m db n0 n1 ts d.
Proof.
  intros Hn Hn'. destruct m; simpl; [|auto..]. intros (? & ? & ? & ? & i & Hi & ->).
  split_and!; [done..|]. exists i. split; [lia|done].
Qed.

Lemma wp_create_document caller new ts scope w :
  wp (create_document env caller new ts)
    (λ r w', quiet w w' ∧ ∀ d, r = Ok d →
      produces scope caller (Create new) (working w) (observed w) (observed w') ts d) w.
Proof.
  unfold create_document. do 2 wp_step. destruct (validate_owner _) as [[]|] eqn:Eo; [|early].
  do 2 wp_step. destruct (validate_content _) as [[]|] eqn:Ec; [|early].
  do 2 wp_step. destruct (validate_access _) as [[]|] eqn:Ea; [|early].
  do 2 wp_step. destruct (can_create _ _) eqn:Ecc; simpl; [|early].
  wp_step. apply wp_observe. wp_step. split; [auto with meta|]. intros d [= <-].
  split_and!; [done..|]. exists (observed w). simpl. split; [lia|done].
Qed.

Lemma wp_change_document scope caller m ts w :
  is_create m = false →
  wp (change_document env scope caller m)
    (λ r w', quiet w w' ∧ ∀ d, r = Ok d →
      produces scope caller m (working w) (observed w) (observed w') ts d) w.
Proof.
  intros Hm. unfold change_document.
  destruct (mutation_target m) as [[id expected]|] eqn:Et; [|by destruct m].
  wp_step. apply (wp_quiet_load (w0 := w)); [auto with meta| |early].
  intros [[d0 del]|] w' Hq Hl; do 2 wp_step; simpl; [|early].
  do 2 wp_step. destruct del; simpl; [early|].
  destruct (authorize caller d0 (mutation_operation m)) eqn:Ea; simpl; [|early].
  do 2 wp_step. case_test; simpl; [|early].
  wp_step. split; [done|]. intros d Hd.
  destruct m; simpl; [done|..]; exists id, expected, d0; done.
Qed.

Lemma wp_mutated_document scope caller m ts w :
  wp (match m with Create new => create_document env caller new ts | _ => change_document env scope caller m end)
    (λ r w', quiet w w' ∧ ∀ d, r = Ok d →
      produces scope caller m (working w) (observed w) (observed w') ts d) w.
Proof. destruct m; [apply wp_create_document|by apply wp_change_document..]. Qed.

(** The tail of a mutation: from the produced document to the commit. *)
Lemma wp_commit_document scope caller request m d ts w n principal :
  committed w = working w → (n ≤ observed w)%nat →
  scope_realm scope = caller_realm caller → encode (caller_principal caller) = Ok principal →
  extension_receipts (working w) !! receipt_key scope principal (request_id request) = None →
  produces scope caller m (committed w) n (observed w) ts d →
  wp (commit_document env scope caller request m d ts)
    (λ r w', (observed w ≤ observed w')%nat ∧
      match r with
      | Err _ => committed w' = committed w
      | Ok o => replayed o = false ∧
          Commits scope caller request m (committed w) (committed w') n (observed w') (receipt_of o)
      end) w.
Proof.
  intros Hcw Hn Hrealm Hp Hnone Hprod. unfold commit_document, write_document, insert_receipt.
  wp_step. apply wp_observe. do 3 wp_step.
  destruct (encode (with_content _ _)) as [metadata|] eqn:Em; [|simpl; split; [lia|done]].
  wp_step. apply wp_store_sql; [simpl; split; [lia|done]|]. do 4 wp_step. simpl.
  destruct (is_create m && is_some _) eqn:Ec; [simpl; split; [lia|done]|].
  do 3 wp_step. rewrite Hp. do 2 wp_step.
  destruct (encode (mkReceipt _ _ _)) as [rtext|] eqn:Er; [|simpl; split; [lia|done]].
  do 2 wp_step. destruct (encode (mutation_operation m)) as [otext|] eqn:Eo; [|simpl; split; [lia|done]].
  do 2 wp_step. apply wp_store_sql; [simpl; split; [lia|done]|]. do 4 wp_step. simpl. rewrite Hnone. simpl.
  do 2 wp_step. unfold commit. apply wp_commit_tables; [simpl; split; [lia|done]|]. wp_step. simpl. split; [lia|]. split; [done|].
  exists d, ts, (observed w), metadata, principal, rtext, otext. simpl. rewrite Hcw in *. split_and!; try done; try lia.
  intros Hc. rewrite Hc in Ec. simpl in Ec. destruct (extension_documents _ !! _) eqn:E; [done|]. rewrite <- E. done.
Qed.

(** A mutation either leaves the committed tables alone, and then answers with an
    error or replays a receipt, or it commits. *)
Definition mutation_effect (scope : DocumentScope) (caller : HostAccessContext) (request : RequestIdentity)
    (m : Mutation) (w : World Db unit) (r : Result MutationOutcome Error) (w' : World Db unit) : Prop :=
  (observed w ≤ observed w')%nat ∧
  ((committed w' = committed w ∧
    ∀ o, r = Ok o → replayed o = true ∧ receipt_found (committed w) scope caller request (Some (receipt_of o)))
   ∨ (∃ o, r = Ok o ∧ replayed o = false ∧
       Commits scope caller request m (committed w) (committed w') (observed w) (observed w') (receipt_of o))).

Lemma wp_mutate scope caller request m w :
  wp (mutate env scope caller request m) (mutation_effect scope caller request m w) w.
Proof.
  unfold mutate, mutation_effect. do 2 wp_step. destruct (validate_scope scope caller) as [[]|] eqn:Es; [|split; [lia|left; done]].
  apply validate_scope_Ok in Es. apply wp_transaction; [simpl; intros; split; [lia|left; done]|].
  set (w1 := with_working _ _). wp_step. apply wp_store_sql; [simpl; intros; split; [lia|left; done]|].
  wp_step. eapply wp_mono; [apply wp_receipt|]. intros [[rc|]|e] w2 [(Hc2 & Hw2 & Ho2) Hrc]; simpl in *.
  - wp_step. simpl. split; [lia|]. left. split; [done|]. intros o [= <-]. split; [done|]. simpl. auto.
  - destruct (Hrc None) as (principal & Hp & _ & Hnone); [done|].
    wp_step. apply wp_now. intros [ts|e]; [|split; [simpl; lia|left; done]].
    wp_step. eapply wp_mono; [apply wp_mutated_document|]. intros [d|e] w3 [(Hc3 & Hw3 & Ho3) Hd]; simpl in *.
    + eapply wp_mono; [apply (wp_commit_document _ _ _ _ _ ts w3 (observed w) principal)|]; try congruence.
      * lia.
      * specialize (Hd d eq_refl). rewrite Hc3, Hc2, Hw2 in *. simpl in *.
        eapply produces_weaken; [| |exact Hd]; simpl; lia.
      * intros [o|e] w4 [Ho4 H4]; (split; [lia|]).
        -- right. exists o. destruct H4 as [? H4]. rewrite Hc3, Hc2 in H4. done.
        -- left. split; [congruence|done].
    + split; [lia|]. left. split; [congruence|done].
  - split; [lia|]. left. split; [congruence|done].
Qed.

Lemma mutate_cases scope caller request m w r w' :
  mutate env scope caller request m w = (r, w') → mutation_effect scope caller request m w r w'.
Proof. intros H. pose proof (wp_mutate scope caller request m w) as Hwp. unfold wp in Hwp. by rewrite H in Hwp. Qed.
End proofs.

(** ** Operations as calls, and the worlds they reach *)

Inductive Call :=
| CallGet (scope : DocumentScope) (caller : HostAccessContext) (id : string)
| CallList (scope : DocumentScope) (caller : HostAccessContext) (request : ListRequest)
| CallLookup (scope : DocumentScope) (caller : HostAccessContext) (request : RequestIdentity)
| CallReferences (realm mob_id : string)
| CallMutate (scope : DocumentScope) (caller : HostAccessContext) (request : RequestIdentity) (m : Mutation).

Section calls.
Context (env : StoreEnv).
Context `{!Serde Document, !Serde MutationReceipt, !Serde Principal, !Serde Operation}.
Notation sql := (sql env).

Definition perform (w : World Db unit) (c : Call) : World Db unit :=
  match c with
  | CallGet scope caller id => (get_document env scope caller id w).2
  | CallList scope caller request => (list_documents env scope caller request w).2
  | CallLookup scope caller request => (lookup_receipt env scope caller request w).2
  | CallReferences realm mob_id => (references_mob env realm mob_id w).2
  | CallMutate scope caller request m => (mutate env scope caller request m w).2
  end.

Definition performs (w : World Db unit) (cs : list Call) : World Db unit := foldl perform w cs.

(** An empty database, whatever was observed before. *)
Definition initial (n : nat) : World Db unit := mkWorld (mkDb ∅ ∅) (mkDb ∅ ∅) tt n.

Lemma reads_sql : reads sql.
Proof. apply reads_statement. Qed.
Lemma reads_load scope id : reads (load env scope id).
Proof. intros w. apply (wp_load env scope id w). Qed.
Lemma reads_receipt scope caller request : reads (receipt env scope caller request).
Proof. intros w. apply (wp_receipt env scope caller request w). Qed.
#[local] Hint Resolve reads_sql reads_load reads_receipt : meta.

Lemma reads_readable scope caller id : reads (readable_document env scope caller id).
Proof. unfold readable_document. auto 10 with meta. Qed.
#[local] Hint Resolve reads_readable : meta.

Lemma reads_list_rows caller n rows acc : reads (list_rows env caller n rows acc).
Proof.
  revert acc. induction rows as [|row rows IH]; intros acc; simpl; [auto with meta|].
  repeat (apply (within_bind quiet); [by auto with meta|intros]). repeat case_match; auto with meta.
Qed.

Lemma reads_scan_mob mob_id rows : reads (scan_mob env mob_id rows).
Proof.
  induction rows as [|row rows IH]; simpl; [auto with meta|].
  repeat (apply (within_bind quiet); [by auto with meta|intros]). case_match; auto with meta.
Qed.
#[local] Hint Resolve reads_list_rows reads_scan_mob : meta.

Lemma run_kept {A} (f : St A) w : reads f → kept w (run env f w).2.
Proof. apply enter_kept. Qed.

Lemma perform_kept w c :
  match c with CallMutate _ _ _ _ => True | _ => kept w (perform w c) end.
Proof.
  destruct c as [scope caller id|scope caller request|scope caller request|realm mob_id|]; simpl; [..|done].
  - unfold get_document. apply bind_lift_kept. intros _. apply run_kept. auto with meta.
  - unfold list_documents. apply bind_lift_kept. intros _.
    unfold throw_if. destruct (_ || _); [split; [done|simpl; lia]|]. apply run_kept.
    repeat (apply (within_bind quiet); [first [by auto with meta|by case_match; auto with meta]|intros]). apply within_ret; apply _.
  - unfold lookup_receipt. apply run_kept. auto with meta.
  - unfold references_mob. apply run_kept.
    repeat (apply (within_bind quiet); [by auto with meta|intros]). apply reads_scan_mob.
Qed.

(** A property of the tables and the counter that commits preserve holds in every
    world that calls reach. *)
Lemma performs_ind (P : Db → nat → Prop) :
  (∀ db n n', (n ≤ n')%nat → P db n → P db n') →
  (∀ scope caller request m db db' n n' rc, (n ≤ n')%nat →
     Commits env scope caller request m db db' n n' rc → P db n → P db' n') →
  ∀ cs w, P (committed w) (observed w) → P (committed (performs w cs)) (observed (performs w cs)).
Proof.
  intros Hmono Hcommit cs. induction cs as [|c cs IH]; intros w Hw; [done|]. simpl. apply IH. clear IH.
  pose proof (perform_kept w c) as Hk.
  destruct c as [| | | |scope caller request m]; try by (destruct Hk as [-> Hle]; eauto).
  simpl. destruct (mutate env scope caller request m w) as [r w'] eqn:E. simpl.
  apply mutate_cases in E as [Hle [[-> _]|(o & _ & _ & Hc)]]; eauto.
Qed.
End calls.
