(* ===== verification/ExtensionTheorems.v ===== *)
(** * Extension documents: the store's contract

    The invariant of the tables, and what it gives the callers of the store:
    atomic mutations, commits that happen once per request, revisions that are
    consumed, reads that agree with the commits, and complete paging. *)

From S2P Require Import Prelude Strings SqlWorld ExtensionTypes ExtensionPolicy ExtensionStore ExtensionExamples ExtensionProofs.
Open Scope Z_scope.

Section contract.
Context (env : StoreEnv).
Context `{!Serde Document, !Serde MutationReceipt, !Serde Principal, !Serde Operation}.
Context `{!SerdeRoundTrip Document, !SerdeRoundTrip MutationReceipt, !SerdeRoundTrip Principal,
          !SerdeRoundTrip Operation}.

(** ** The invariant of the tables *)

(** A stored row is a valid document under its own id, with a revision issued
    before; a tombstone has lost its content. *)
Definition row_ok (n : nat) (key : DocKey) (row : DocRow) : Prop :=
  ∃ d, row_document row = Ok d ∧ doc_id d = key.2 ∧
    validate_owner (owner d) = Ok tt ∧ validate_access (access d) = Ok tt ∧
    validate_content (content d) = Ok tt ∧
    (∃ j, (j < n)%nat ∧ revision d = uuid_at env j) ∧
    (row_deleted row = true → content d = scrubbed_content).

(** A receipt reads back and is about a document that exists. *)
Definition receipt_ok (n : nat) (db : Db) (key : ReceiptKey) (row : ReceiptRow) : Prop :=
  let '(realm, namespace, _, _) := key in
  ∃ rc op, decode (row_receipt row) = Ok rc ∧ decode (A := Operation) (row_operation row) = Ok op ∧
    receipt_document_id rc = row_document_id row ∧
    (∃ j, (j < n)%nat ∧ receipt_revision rc = uuid_at env j) ∧
    is_Some (extension_documents db !! (realm, namespace, row_document_id row)).

Definition DbInv (db : Db) (n : nat) : Prop :=
  map_Forall (row_ok n) (extension_documents db) ∧ map_Forall (receipt_ok n db) (extension_receipts db).

Lemma row_ok_mono n n' key row : (n ≤ n')%nat → row_ok n key row → row_ok n' key row.
Proof.
  intros Hn (d & ? & ? & ? & ? & ? & (j & Hj & ?) & ?). exists d. split_and!; [done..| |done].
  exists j. split; [lia|done].
Qed.

Lemma receipt_ok_mono n n' db db' key row :
  (n ≤ n')%nat → (∀ k, is_Some (extension_documents db !! k) → is_Some (extension_documents db' !! k)) →
  receipt_ok n db key row → receipt_ok n' db' key row.
Proof.
  intros Hn Hdb. destruct key as [[[realm namespace] p] r]. intros (rc & op & ? & ? & ? & (j & ? & ?) & ?).
  exists rc, op. split_and!; [done..|exists j; split; [lia|done]|auto].
Qed.

Lemma DbInv_mono db n n' : (n ≤ n')%nat → DbInv db n → DbInv db n'.
Proof.
  intros Hn [Hd Hr]. split; eapply map_Forall_impl; eauto using row_ok_mono, receipt_ok_mono.
Qed.

Lemma doc_key_inj scope id id' : doc_key scope id = doc_key scope id' → id = id'.
Proof. by intros [=]. Qed.

(** The stored form of a document reads back as the document. *)
Lemma row_of_document d deleted metadata :
  encode (with_content d (with_payload (content d) "")) = Ok metadata →
  (deleted = true → content d = scrubbed_content) →
  row_document (document_row metadata d deleted) = Ok d.
Proof using SerdeRoundTrip0.
  intros He Hdel. unfold row_document, document_row. simpl. rewrite (decode_encode _ _ He). simpl.
  f_equal. destruct d as [i r [t c v p] o a cr up]. unfold with_content, with_payload. simpl in *.
  destruct deleted; [|done]. specialize (Hdel eq_refl). injection Hdel as -> -> -> ->. done.
Qed.

Lemma loaded_unique db scope id d deleted n :
  loaded db scope id (Some (d, deleted)) → DbInv db n →
  doc_id d = id ∧ (∃ j, (j < n)%nat ∧ revision d = uuid_at env j) ∧ validate_owner (owner d) = Ok tt ∧
  validate_access (access d) = Ok tt ∧ validate_content (content d) = Ok tt.
Proof using.
  intros (row & Hrow & Hd & _) [Hinv _]. destruct (Hinv _ _ Hrow) as (d' & Hd' & ? & ? & ? & ? & ? & _).
  rewrite Hd in Hd'. injection Hd' as <-. done.
Qed.

(** ** What a mutation makes of a document *)

(** The document a commit leaves, from the one it found. *)
Definition changed (m : Mutation) (d0 d : Document) : Prop :=
  match m with
  | Create _ => False
  | Replace _ _ c => d = with_content d0 c
  | SetAccess _ _ a => d = with_access d0 a
  | Transfer _ _ o None => d = with_owner d0 o
  | Transfer _ _ o (Some a) => d = with_access (with_owner d0 o) a
  | Delete _ _ => d = with_content d0 scrubbed_content
  end.

Lemma apply_mutation_Ok caller m d0 d :
  apply_mutation caller m d0 = Ok d →
  changed m d0 d ∧ doc_id d = doc_id d0 ∧ is_create m = false ∧
  (is_delete m = true → content d = scrubbed_content) ∧
  (validate_owner (owner d0) = Ok tt → validate_owner (owner d) = Ok tt) ∧
  (validate_access (access d0) = Ok tt → validate_access (access d) = Ok tt) ∧
  (validate_content (content d0) = Ok tt → validate_content (content d) = Ok tt).
Proof using.
  destruct m as [new|id r c|id r a|id r o [a|]|id r]; simpl; [done|..].
  - intros ([] & ? & [= <-])%and_then_Ok. done.
  - intros ([] & ? & [= <-])%and_then_Ok. done.
  - intros ([] & ? & H)%and_then_Ok. destruct (owner_is_valid caller o); simpl in H; [|done].
    apply and_then_Ok in H as ([] & ? & [= <-]). done.
  - intros ([] & ? & H)%and_then_Ok. destruct (owner_is_valid caller o); simpl in H; [|done].
    injection H as <-. done.
  - intros [= <-]. done.
Qed.

(** A mutation other than a creation works on the live document it names. *)
Lemma produces_change scope caller m db n j ts d n0 :
  produces env scope caller m db n j ts d → DbInv db n0 → is_create m = false →
  ∃ d0, mutation_target m = Some (doc_id d, revision d0) ∧ loaded db scope (doc_id d) (Some (d0, false)) ∧
    authorize caller d0 (mutation_operation m) = true ∧ apply_mutation caller m d0 = Ok d.
Proof using.
  intros Hp Hinv Hm.
  assert (∃ id d0, mutation_target m = Some (id, revision d0) ∧ loaded db scope id (Some (d0, false)) ∧
    authorize caller d0 (mutation_operation m) = true ∧ apply_mutation caller m d0 = Ok d) as (id & d0 & Ht & Hl & Ha & Happ).
  { destruct m; [done|..]; destruct Hp as (i & x & d0 & ? & ? & ? & <- & ?); by exists i, d0. }
  destruct (loaded_unique _ _ _ _ _ _ Hl Hinv) as (Hid & _). exists d0.
  pose proof (apply_mutation_Ok _ _ _ _ Happ) as (_ & Hd & _). rewrite Hd, Hid. done.
Qed.

(** The facts about a produced document that the tables' invariant needs. *)
Lemma produces_facts scope caller m db n j ts d :
  produces env scope caller m db n j ts d → DbInv db n →
  validate_owner (owner d) = Ok tt ∧ validate_access (access d) = Ok tt ∧ validate_content (content d) = Ok tt ∧
  (is_delete m = true → content d = scrubbed_content) ∧
  (is_create m = false → is_Some (extension_documents db !! doc_key scope (doc_id d))).
Proof using.
  intros Hp Hinv. destruct (is_create m) eqn:Hm.
  - destruct m; try done. destruct Hp as (? & ? & ? & _ & i & _ & ->). done.
  - destruct (produces_change _ _ _ _ _ _ _ _ _ Hp Hinv Hm) as (d0 & _ & Hl & _ & Ha).
    destruct (loaded_unique _ _ _ _ _ _ Hl Hinv) as (_ & _ & ? & ? & ?).
    apply apply_mutation_Ok in Ha as (_ & Hd & _ & ? & ? & ? & ?). split_and!; auto.
    intros _. destruct Hl as (row & -> & _). done.
Qed.

(** A commit replaces one row by a document under the new revision and adds one
    receipt; every other row stays. *)
Lemma Commits_tables scope caller request m db db' n n' rc :
  Commits env scope caller request m db db' n n' rc → DbInv db n →
  ∃ d row j ts principal rrow, let d' := with_revision d (uuid_at env j) ts in
    produces env scope caller m db n j ts d ∧ (n ≤ j < n')%nat ∧
    rc = mkReceipt (doc_id d) (uuid_at env j) (is_delete m) ∧
    row_document row = Ok d' ∧ row_deleted row = is_delete m ∧
    encode (caller_principal caller) = Ok principal ∧ scope_realm scope = caller_realm caller ∧
    extension_documents db' = <[doc_key scope (doc_id d) := row]> (extension_documents db) ∧
    extension_receipts db' =
      <[receipt_key scope principal (request_id request) := rrow]> (extension_receipts db) ∧
    extension_receipts db !! receipt_key scope principal (request_id request) = None ∧
    row_fingerprint rrow = fingerprint request ∧ decode (row_receipt rrow) = Ok rc ∧
    row_document_id rrow = doc_id d ∧ decode (row_operation rrow) = Ok (mutation_operation m) ∧
    (is_create m = true → extension_documents db !! doc_key scope (doc_id d) = None).
Proof using SerdeRoundTrip0 SerdeRoundTrip1 SerdeRoundTrip3.
  intros (d & ts & j & md & principal & rt & ot & Hreal & Hp & Hj & Hmd & Hpr & Hrt & Hot & Hrc & Hnew & Hnone & ->) Hinv.
  destruct (produces_facts _ _ _ _ _ _ _ _ Hp Hinv) as (_ & _ & _ & Hdel & Hold).
  exists d, (document_row md (with_revision d (uuid_at env j) ts) (is_delete m)), j, ts, principal,
    (mkReceiptRow (fingerprint request) rt (doc_id d) ot).
  split_and!; try done; try lia.
  - apply row_of_document; done.
  - simpl. unfold put_row. destruct (is_create m); [done|]. destruct (Hold eq_refl) as [row0 Hrow0].
    apply map_eq. intros k. destruct (decide (k = doc_key scope (doc_id d))) as [->|Hne].
    + rewrite lookup_alter_eq, lookup_insert_eq, Hrow0. done.
    + by rewrite lookup_alter_ne, lookup_insert_ne.
  - by apply decode_encode.
  - by apply decode_encode.
Qed.

Lemma Commits_inv scope caller request m db db' n n' rc :
  (n ≤ n')%nat → Commits env scope caller request m db db' n n' rc → DbInv db n → DbInv db' n'.
Proof using SerdeRoundTrip0 SerdeRoundTrip1 SerdeRoundTrip3.
  intros Hn Hc Hinv. destruct (Commits_tables _ _ _ _ _ _ _ _ _ Hc Hinv) as
    (d & row & j & ts & principal & rrow & Hp & Hj & -> & Hrow & Hdel & _ & _ & Hdocs & Hrecs & _ & _ & Hrc & Hid & Hop & _).
  destruct (produces_facts _ _ _ _ _ _ _ _ Hp Hinv) as (? & ? & ? & Hscrub & _).
  destruct (DbInv_mono _ _ n' Hn Hinv) as [Hd Hr]. split.
  - rewrite Hdocs. apply map_Forall_insert_2; [|done]. exists (with_revision d (uuid_at env j) ts).
    split_and!; [done..|exists j; split; [lia|done]|]. rewrite Hdel. done.
  - rewrite Hrecs. apply map_Forall_insert_2.
    + unfold receipt_ok, receipt_key. eexists _, _. split_and!; [done..|exists j; split; [lia|done]|].
      rewrite Hdocs, Hid. unfold doc_key. rewrite lookup_insert_eq. eauto.
    + eapply map_Forall_impl; [exact Hr|]. intros k rr. apply receipt_ok_mono; [done|].
      intros k'. rewrite Hdocs. destruct (decide (k' = doc_key scope (doc_id d))) as [->|].
      * rewrite lookup_insert_eq. eauto.
      * by rewrite lookup_insert_ne.
Qed.

Lemma performs_inv n cs : let w := performs env (initial n) cs in DbInv (committed w) (observed w).
Proof using SerdeRoundTrip0 SerdeRoundTrip1 SerdeRoundTrip3.
  apply (performs_ind env DbInv); [apply DbInv_mono|eauto using Commits_inv|].
  split; apply map_Forall_empty.
Qed.

(** ** Receipts and revisions over time *)

(** A receipt, once committed, is never changed or removed. *)
Lemma receipt_persists k rrow cs w :
  DbInv (committed w) (observed w) → extension_receipts (committed w) !! k = Some rrow →
  extension_receipts (committed (performs env w cs)) !! k = Some rrow.
Proof using SerdeRoundTrip0 SerdeRoundTrip1 SerdeRoundTrip3.
  intros Hinv Hk.
  refine (proj2 (performs_ind env (λ db n, DbInv db n ∧ extension_receipts db !! k = Some rrow) _ _ cs w _)).
  - intros db n n' Hn [? ?]. split; [by eapply DbInv_mono|done].
  - intros scope caller request m db db' n n' rc Hn Hc [Hi Hk']. split; [by eapply Commits_inv|].
    destruct (Commits_tables _ _ _ _ _ _ _ _ _ Hc Hi) as
      (d & row & j & ts & principal & r' & _ & _ & _ & _ & _ & _ & _ & _ & -> & Hnone & _).
    rewrite lookup_insert_ne; [done|]. intros <-. congruence.
  - done.
Qed.

(** The row under [key] holds the revision issued by the [j]-th observation. *)
Definition revision_at (db : Db) (key : DocKey) (j : nat) : Prop :=
  ∃ row d, extension_documents db !! key = Some row ∧ row_document row = Ok d ∧ revision d = uuid_at env j.

(** The revision of a document only moves to ones issued later. *)
Lemma revision_advances key j cs w :
  DbInv (committed w) (observed w) → revision_at (committed w) key j → (j < observed w)%nat →
  ∃ j', (j ≤ j')%nat ∧ revision_at (committed (performs env w cs)) key j'.
Proof using SerdeRoundTrip0 SerdeRoundTrip1 SerdeRoundTrip3.
  intros Hinv Hr Hlt.
  destruct (performs_ind env (λ db n, (DbInv db n ∧ (j < n)%nat) ∧ ∃ j', (j ≤ j')%nat ∧ revision_at db key j')) with
    (cs := cs) (w := w) as [_ ?]; [..|done].
  - intros db n n' Hn [[? ?] ?]. split; [split; [by eapply DbInv_mono|lia]|done].
  - intros scope caller request m db db' n n' rc Hn Hc [[Hi Hj] (j' & Hj' & Hr')].
    split; [split; [by eapply Commits_inv|lia]|].
    destruct (Commits_tables _ _ _ _ _ _ _ _ _ Hc Hi) as
      (d & row & k & ts & principal & r' & _ & Hk & _ & Hrow & _ & _ & _ & Hdocs & _).
    unfold revision_at. rewrite Hdocs. destruct (decide (key = doc_key scope (doc_id d))) as [->|Hne].
    + exists k. split; [lia|]. eexists _, _. rewrite lookup_insert_eq. done.
    + exists j'. split; [done|]. rewrite lookup_insert_ne by done. done.
  - split; [done|]. exists j. done.
Qed.

(** A mutation of an existing document that commits found the revision it names. *)
Lemma Commits_target scope caller request m db db' n n' rc id expected :
  Commits env scope caller request m db db' n n' rc → DbInv db n → mutation_target m = Some (id, expected) →
  receipt_document_id rc = id ∧
  ∃ d0, loaded db scope id (Some (d0, false)) ∧ revision d0 = expected ∧
        authorize caller d0 (mutation_operation m) = true.
Proof using.
  intros (d & ts & j & _ & _ & _ & _ & _ & Hp & _ & _ & _ & _ & _ & -> & _) Hinv Ht.
  assert (Hm : is_create m = false) by by destruct m.
  destruct (produces_change _ _ _ _ _ _ _ _ _ Hp Hinv Hm) as (d0 & Ht' & Hl & Ha & _).
  rewrite Ht in Ht'. injection Ht' as -> ->. simpl. eauto.
Qed.

Lemma Commits_revision scope caller request m db db' n n' rc :
  Commits env scope caller request m db db' n n' rc → DbInv db n →
  ∃ j, (n ≤ j < n')%nat ∧ receipt_revision rc = uuid_at env j ∧
       revision_at db' (doc_key scope (receipt_document_id rc)) j.
Proof using SerdeRoundTrip0 SerdeRoundTrip1 SerdeRoundTrip3.
  intros Hc Hinv. destruct (Commits_tables _ _ _ _ _ _ _ _ _ Hc Hinv) as
    (d & row & j & ts & principal & r' & _ & Hj & -> & Hrow & _ & _ & _ & Hdocs & _).
  exists j. split_and!; [lia..|done|]. eexists _, _. rewrite Hdocs. simpl. rewrite lookup_insert_eq. done.
Qed.

(** Whatever sequence of reads and mutations runs against the store, and
    whatever statement fails on the way, every stored row reads back as a valid
    document under its own id with a revision the store issued, a tombstone keeps
    no content, and every receipt reads back and names a document that exists. *)
Theorem store_invariant_reachable n cs :
  let w := performs env (initial n) cs in DbInv (committed w) (observed w).
Proof using SerdeRoundTrip0 SerdeRoundTrip1 SerdeRoundTrip3. apply performs_inv. Qed.

(** C18: A mutation is atomic.  When it is refused or fails anywhere, commit
    included, or when it replays a receipt, the tables are unchanged.  When it
    commits, exactly one document row and one new receipt change: a creation adds
    the new document under a fresh id, any other mutation found the document live,
    at the expected revision, and the caller authorized on it, and replaces
    exactly the fields it names. *)
Theorem mutation_atomic n cs scope caller request m r w' :
  let w := performs env (initial n) cs in
  mutate env scope caller request m w = (r, w') →
  match r with
  | Err _ => committed w' = committed w
  | Ok (mkOutcome rc true) => committed w' = committed w
  | Ok (mkOutcome rc false) =>
      let key := doc_key scope (receipt_document_id rc) in
      scope_realm scope = caller_realm caller ∧ receipt_deleted rc = is_delete m ∧
      ∃ d d' row, row_document row = Ok d' ∧ row_deleted row = is_delete m ∧
        d' = with_revision d (receipt_revision rc) (updated_at_ms d') ∧
        extension_documents (committed w') = <[key := row]> (extension_documents (committed w)) ∧
        (∃ k rrow, extension_receipts (committed w) !! k = None ∧
          extension_receipts (committed w') = <[k := rrow]> (extension_receipts (committed w))) ∧
        match m with
        | Create new =>
            extension_documents (committed w) !! key = None ∧ can_create caller (owner d') = true ∧
            owner d' = unwrap_or (new_owner new) (OwnerAgent (caller_principal caller)) ∧
            content d' = new_content new ∧ access d' = new_access new
        | _ => ∃ d0, mutation_target m = Some (receipt_document_id rc, revision d0) ∧
            loaded (committed w) scope (receipt_document_id rc) (Some (d0, false)) ∧
            authorize caller d0 (mutation_operation m) = true ∧ changed m d0 d
        end
  end.
Proof using SerdeRoundTrip0 SerdeRoundTrip1 SerdeRoundTrip3.
  intros w Hm. pose proof (performs_inv n cs) as Hinv. fold w in Hinv.
  apply mutate_cases in Hm as [_ [[Hc Ho]|(o & -> & Hf & Hc)]].
  - destruct r as [[rc rep]|]; [|done]. destruct (Ho _ eq_refl) as [Hr _]. simpl in Hr. by subst.
  - destruct o as [rc rep]. simpl in Hf, Hc. subst rep.
    destruct (Commits_tables _ _ _ _ _ _ _ _ _ Hc Hinv) as
      (d & row & j & ts & principal & rrow & Hp & Hj & -> & Hrow & Hdel & _ & Hreal & Hdocs & Hrecs & Hnone & _ & _ & _ & _ & Hnew).
    simpl. split_and!; [done..|]. exists d, (with_revision d (uuid_at env j) ts), row.
    split_and!; [done..|eauto|].
    destruct (is_create m) eqn:Hcr.
    + destruct m; try done. destruct Hp as (_ & _ & _ & Hcc & i & _ & ->). simpl in *. auto.
    + destruct (produces_change _ _ _ _ _ _ _ _ _ Hp Hinv Hcr) as (d0 & Ht & Hl & Ha & Happ).
      apply apply_mutation_Ok in Happ as (Hch & _). destruct m; [done|..]; by exists d0.
Qed.

(** C30: A request commits at most once.  After a mutation committed under a
    request id, and whatever runs in between, no later mutation of the same
    principal under that id in that scope changes the tables; if it answers, it
    answers the first commit's receipt, marked as replayed, and only for the
    fingerprint that committed. *)
Theorem request_commits_once n cs cs' scope caller caller' request request' m m' o w1 r w3 :
  let w := performs env (initial n) cs in
  mutate env scope caller request m w = (Ok o, w1) → replayed o = false →
  caller_principal caller' = caller_principal caller → request_id request' = request_id request →
  let w2 := performs env w1 cs' in
  mutate env scope caller' request' m' w2 = (r, w3) →
  committed w3 = committed w2 ∧
  ∀ o', r = Ok o' → o' = mkOutcome (receipt_of o) true ∧ fingerprint request' = fingerprint request.
Proof using SerdeRoundTrip0 SerdeRoundTrip1 SerdeRoundTrip3.
  intros w Hm Hf Hpr Hid w2 Hm2. pose proof (performs_inv n cs) as Hinv. fold w in Hinv.
  apply mutate_cases in Hm as [Hle [[_ Ho]|(? & [= <-] & _ & Hc)]].
  { destruct (Ho o eq_refl). congruence. }
  pose proof (Commits_inv _ _ _ _ _ _ _ _ _ Hle Hc Hinv) as Hinv1.
  destruct (Commits_tables _ _ _ _ _ _ _ _ _ Hc Hinv) as
    (d & row & j & ts & principal & rrow & _ & _ & _ & _ & _ & Hp & _ & _ & Hrecs & _ & Hfp & Hdec & _).
  assert (Hk : extension_receipts (committed w2) !! receipt_key scope principal (request_id request) = Some rrow).
  { apply receipt_persists; [done|]. by rewrite Hrecs, lookup_insert_eq. }
  apply mutate_cases in Hm2 as [_ [[Hc2 Ho2]|(o2 & -> & _ & Hc2)]].
  - split; [done|]. intros [rc rep] ->. destruct (Ho2 _ eq_refl) as [Hrep Hfound]. simpl in Hrep. subst.
    destruct Hfound as (p' & Hp' & _ & row' & d' & del & op & Hrow' & _ & _ & _ & Hfp' & Hdec').
    simpl in Hdec'. rewrite Hpr, Hp in Hp'. injection Hp' as <-. rewrite Hid, Hk in Hrow'. injection Hrow' as <-.
    rewrite Hdec in Hdec'. injection Hdec' as <-. split; [done|congruence].
  - exfalso. destruct Hc2 as (? & ? & ? & ? & p' & ? & ? & _ & _ & _ & _ & Hp' & _ & _ & _ & _ & Hnone & _).
    rewrite Hpr, Hp in Hp'. injection Hp' as <-. rewrite Hid, Hk in Hnone. done.
Qed.

(** No update is lost.  Once a mutation has replaced the revision of a
    document, no mutation that names the replaced revision ever commits on that
    document again, however many operations run in between: a writer that read
    the old revision is always told of the conflict or refused. *)
Theorem revision_is_consumed n cs cs' scope caller caller' request request' m m' id expected o w1 o2 w3 :
  (∀ i j, uuid_at env i = uuid_at env j → i = j) →
  let w := performs env (initial n) cs in
  mutation_target m = Some (id, expected) → mutate env scope caller request m w = (Ok o, w1) → replayed o = false →
  let w2 := performs env w1 cs' in
  mutation_target m' = Some (id, expected) → mutate env scope caller' request' m' w2 = (Ok o2, w3) →
  replayed o2 = true ∧ committed w3 = committed w2.
Proof using SerdeRoundTrip0 SerdeRoundTrip1 SerdeRoundTrip3.
  intros Huuid w Ht Hm Hf w2 Ht' Hm2. pose proof (performs_inv n cs) as Hinv. fold w in Hinv.
  apply mutate_cases in Hm as [Hle [[_ Ho]|(? & [= <-] & _ & Hc)]].
  { destruct (Ho o eq_refl). congruence. }
  pose proof (Commits_inv _ _ _ _ _ _ _ _ _ Hle Hc Hinv) as Hinv1.
  destruct (Commits_target _ _ _ _ _ _ _ _ _ _ _ Hc Hinv Ht) as (Hid & d0 & Hl & Hr0 & _).
  destruct (loaded_unique _ _ _ _ _ _ Hl Hinv) as (_ & (j0 & Hj0 & Hrev0) & _).
  destruct (Commits_revision _ _ _ _ _ _ _ _ _ Hc Hinv) as (j1 & Hj1 & _ & Hat). rewrite Hid in Hat.
  destruct (revision_advances _ _ cs' _ Hinv1 Hat) as (j2 & Hj2 & row & d & Hrow & Hd & Hrev); [lia|].
  apply mutate_cases in Hm2 as [_ [[Hc2 Ho2]|(? & [= <-] & _ & Hc2)]].
  { destruct (Ho2 _ eq_refl). done. }
  exfalso. assert (Hinv2 : DbInv (committed w2) (observed w2)).
  { apply (performs_ind env DbInv); eauto using DbInv_mono, Commits_inv. }
  destruct (Commits_target _ _ _ _ _ _ _ _ _ _ _ Hc2 Hinv2 Ht') as (_ & d2 & (row2 & Hrow2 & Hd2 & _) & Hr2 & _).
  fold w2 in Hrow. rewrite Hrow2 in Hrow. injection Hrow as <-. rewrite Hd in Hd2. injection Hd2 as <-.
  assert (j2 = j0) by (apply Huuid; congruence). lia.
Qed.
End contract.

(** ** Examples *)

Module ContractExamples.
Import ExtensionExamples.

Definition created : Result MutationOutcome Error * World Db unit :=
  mutate env0 scope0 alice_caller request0 create0 (initial 0).
Definition replace0 : Mutation := Replace "4" "5" content1.
Definition replaced : Result MutationOutcome Error * World Db unit :=
  mutate env0 scope0 alice_caller request1 replace0 created.2.

Lemma pair_of_fst {A B} (p : A * B) a : p.1 = a → p = (a, p.2).
Proof. by destruct p; intros <-. Qed.

Lemma created_ok : created = (Ok (mkOutcome (mkReceipt "4" "5" false) false), created.2).
Proof. apply pair_of_fst. vm_compute. reflexivity. Qed.
Lemma replaced_ok : replaced = (Ok (mkOutcome (mkReceipt "4" "14" false) false), replaced.2).
Proof. apply pair_of_fst. vm_compute. reflexivity. Qed.

(** The worlds of the examples are the ones these calls lead to. *)
Lemma created_performs : performs env0 (initial 0) [CallMutate scope0 alice_caller request0 create0] = created.2.
Proof. unfold created. reflexivity. Qed.
Lemma replaced_performs :
  performs env0 created.2 [CallMutate scope0 alice_caller request1 replace0] = replaced.2.
Proof. unfold replaced. reflexivity. Qed.

Lemma store_invariant_reachable_witness :
  DbInv env0 (committed created.2) (observed created.2).
Proof.
  rewrite <- created_performs. apply store_invariant_reachable; apply _.
Defined.

(** The fork that may read only is refused a replacement, and nothing changes. *)
Lemma mutation_atomic_witness :
  ∃ w', mutate env0 scope0 fork_caller request1 replace0 created.2 = (Err NotFound, w') ∧
        committed w' = committed created.2.
Proof.
  pose proof (mutation_atomic env0 0 [CallMutate scope0 alice_caller request0 create0] scope0 fork_caller
                request1 replace0) as T. cbv zeta in T. rewrite created_performs in T.
  destruct (mutate env0 scope0 fork_caller request1 replace0 created.2) as [r w'] eqn:E.
  assert (Hr : (mutate env0 scope0 fork_caller request1 replace0 created.2).1 = Err NotFound)
    by (vm_compute; reflexivity).
  rewrite E in Hr. simpl in Hr. subst r. exists w'. split; [done|]. exact (T _ _ eq_refl).
Defined.

(** The creation is retried after a replacement: it is replayed. *)
Lemma request_commits_once_witness :
  ∃ w', mutate env0 scope0 alice_caller request0 create0 replaced.2 =
          (Ok (mkOutcome (mkReceipt "4" "5" false) true), w') ∧ committed w' = committed replaced.2.
Proof.
  pose proof (request_commits_once env0 0 [] [CallMutate scope0 alice_caller request1 replace0]
    scope0 alice_caller alice_caller request0 request0 create0 create0
    (mkOutcome (mkReceipt "4" "5" false) false) created.2) as T. cbv zeta in T. rewrite replaced_performs in T.
  destruct (mutate env0 scope0 alice_caller request0 create0 replaced.2) as [r w'] eqn:E.
  assert (Hr : (mutate env0 scope0 alice_caller request0 create0 replaced.2).1 =
               Ok (mkOutcome (mkReceipt "4" "5" false) true)) by (vm_compute; reflexivity).
  rewrite E in Hr. simpl in Hr. subst r. exists w'. split; [done|]. exact (proj1 (T _ _ created_ok eq_refl eq_refl eq_refl eq_refl)).
Defined.

(** After the replacement, the revision it consumed only answers as a replay. *)
Lemma revision_is_consumed_witness :
  ∃ o w', mutate env0 scope0 alice_caller request1 replace0 replaced.2 = (Ok o, w') ∧
    replayed o = true ∧ committed w' = committed replaced.2.
Proof.
  pose proof (revision_is_consumed env0 0 [CallMutate scope0 alice_caller request0 create0] []
    scope0 alice_caller alice_caller request1 request1 replace0 replace0 "4" "5") as T. cbv zeta in T.
  rewrite created_performs in T.
  destruct (mutate env0 scope0 alice_caller request1 replace0 replaced.2) as [r w'] eqn:E.
  assert (Hr : (mutate env0 scope0 alice_caller request1 replace0 replaced.2).1 =
               Ok (mkOutcome (mkReceipt "4" "14" false) true)) by (vm_compute; reflexivity).
  rewrite E in Hr. simpl in Hr. subst r. eexists _, w'. split; [done|]. exact (T _ _ _ _ env0_uuid eq_refl replaced_ok eq_refl eq_refl E).
Defined.
End ContractExamples.
