(* ===== verification/ExtensionReads.v ===== *)
(** * Extension documents: reads, replays and paging

    When no statement fails, the answers of the store are functions of the
    committed tables.  The theorems give those functions: which document a read
    returns and that every refusal looks the same, what a retried request is told,
    which mobs the live documents name, and that following the cursors of a
    listing visits every readable document once. *)

From S2P Require Import Prelude Strings SqlWorld ExtensionTypes ExtensionPolicy ExtensionStore ExtensionExamples ExtensionProofs ExtensionTheorems.
Open Scope Z_scope.

(** Nothing fails: neither a statement nor taking the connection. *)
Definition no_faults (env : StoreEnv) : Prop :=
  (∀ i, sql_fault env i = None) ∧ (∀ i, enter_fault env i = None).

(** The calls that lead to a world are some sequence from an empty database. *)
Definition Reachable (env : StoreEnv) `{!Serde Document, !Serde MutationReceipt, !Serde Principal, !Serde Operation}
    (w : World Db unit) : Prop := ∃ n cs, w = performs env (initial n) cs.

Section reads.
Context (env : StoreEnv).
Context `{!Serde Document, !Serde MutationReceipt, !Serde Principal, !Serde Operation}.
Context `{!SerdeRoundTrip Document, !SerdeRoundTrip MutationReceipt, !SerdeRoundTrip Principal,
          !SerdeRoundTrip Operation}.

Lemma Reachable_inv w : Reachable env w → DbInv env (committed w) (observed w).
Proof using SerdeRoundTrip0 SerdeRoundTrip1 SerdeRoundTrip3. intros (n & cs & ->). apply performs_inv; done. Qed.

(** What a read of a document answers. *)
Definition read_answer (db : Db) (scope : DocumentScope) (caller : HostAccessContext) (id : string)
    : Result Document Error :=
  match extension_documents db !! doc_key scope id with
  | None => Err NotFound
  | Some row =>
      d ←? row_document row;
      if row_deleted row || negb (authorize caller d Read) then Err NotFound else Ok d
  end.

(** What a request that committed before is told. *)
Definition replay_answer (caller : HostAccessContext) (request : RequestIdentity)
    (d : Document) (op : Operation) (fp : string) (rc : MutationReceipt) : Result (option MutationReceipt) Error :=
  if negb (authorize caller d op) then Err NotFound
  else if negb (fp =b fingerprint request) then Err RequestIdReused
  else Ok (Some rc).

Section fault_free.
Context (Hfree : no_faults env).

Lemma sql_ok w : sql env w = (Ok tt, tick w).
Proof using Hfree. unfold sql, statement, observe, mbind, m_bind. simpl. by rewrite (proj1 Hfree). Qed.

Lemma bind_sql {A} (f : unit → St A) w : (sql env ≫= f) w = f tt (tick w).
Proof using Hfree. unfold mbind, m_bind. by rewrite sql_ok. Qed.

Lemma run_ok {A} (f : St A) w : run env f w = f (with_working (committed w) (tick w)).
Proof using Hfree. unfold run, enter, observe, modify, mbind, m_bind. simpl. by rewrite (proj2 Hfree). Qed.

Lemma load_ok scope id w :
  load env scope id w =
  (match extension_documents (working w) !! doc_key scope id with
   | None => Ok None
   | Some row => d ←? row_document row; Ok (Some (d, row_deleted row))
   end, tick w).
Proof using Hfree.
  unfold load. rewrite bind_sql. unfold gets, lift_result, mbind, m_bind. simpl.
  destruct (extension_documents (working w) !! doc_key scope id) as [row|]; [|done].
  by destruct (row_document row).
Qed.

Lemma readable_ok scope caller id w :
  readable_document env scope caller id w = (read_answer (working w) scope caller id, tick w).
Proof using Hfree.
  unfold readable_document, read_answer, mbind, m_bind. rewrite load_ok.
  destruct (extension_documents (working w) !! doc_key scope id) as [row|]; [|done]. simpl.
  destruct (row_document row) as [d|]; [|done]. simpl. unfold throw_if.
  by destruct (row_deleted row), (authorize caller d Read).
Qed.

Lemma get_answer scope caller id w :
  (get_document env scope caller id w).1 =
  if scope_realm scope =b caller_realm caller then read_answer (committed w) scope caller id else Err NotFound.
Proof using Hfree.
  unfold get_document, validate_scope, mbind, m_bind, lift_result. case_test; [|done].
  by rewrite run_ok, readable_ok.
Qed.

Lemma receipt_answer db scope caller request w principal rrow row d rc op :
  working w = db → scope_realm scope = caller_realm caller → encode (caller_principal caller) = Ok principal →
  extension_receipts db !! receipt_key scope principal (request_id request) = Some rrow →
  extension_documents db !! doc_key scope (row_document_id rrow) = Some row → row_document row = Ok d →
  decode (row_operation rrow) = Ok op → decode (row_receipt rrow) = Ok rc →
  (receipt env scope caller request w).1 = replay_answer caller request d op (row_fingerprint rrow) rc.
Proof using Hfree.
  intros <- Hreal Hp Hr Hrow Hd Hop Hrc. unfold receipt.
  rewrite (bind_ok _ _ _ tt w) by (unfold lift_result; by rewrite (proj2 (validate_scope_Ok _ _))).
  rewrite (bind_ok _ _ _ principal w) by (unfold lift_result; by rewrite Hp). rewrite bind_sql.
  rewrite (bind_ok _ _ _ (Some rrow) (tick w)) by (unfold gets; simpl; by rewrite Hr).
  rewrite (bind_ok _ _ _ (Some (d, row_deleted row)) (tick (tick w)))
    by (rewrite load_ok; simpl; by rewrite Hrow, Hd).
  rewrite (bind_ok _ _ _ (d, row_deleted row) (tick (tick w))) by done.
  rewrite (bind_ok _ _ _ op (tick (tick w))) by (unfold lift_result; by rewrite Hop).
  unfold replay_answer, throw_if. simpl. destruct (authorize caller d op); simpl; [|done].
  unfold mbind, m_bind, throw, lift_result. simpl. destruct (row_fingerprint rrow =b fingerprint request); simpl; [|done].
  by rewrite Hrc.
Qed.
End fault_free.

(** A read returns exactly the live document the caller may read.  When no
    statement fails, reading answers the stored document, payload included, if it
    exists in the caller's realm, is not deleted and the policy lets the caller
    read it; in every other case the answer is the same [NotFound], so a caller
    cannot tell a hidden document from a missing or deleted one. *)
Theorem get_exact w scope caller id :
  no_faults env → Reachable env w →
  let answer := (get_document env scope caller id w).1 in
  (∀ d, answer = Ok d ↔
     scope_realm scope = caller_realm caller ∧ loaded (committed w) scope id (Some (d, false)) ∧
     authorize caller d Read = true) ∧
  (∀ e, answer = Err e → e = NotFound).
Proof using SerdeRoundTrip0 SerdeRoundTrip1 SerdeRoundTrip3.
  intros Hfree [Hinv _]%Reachable_inv. cbv zeta. rewrite get_answer by done. case_test; [|naive_solver].
  unfold read_answer, loaded.
  destruct (extension_documents (committed w) !! doc_key scope id) as [row|] eqn:Hrow; [|naive_solver].
  destruct (Hinv _ _ Hrow) as (d & Hd & _). rewrite Hd. simpl.
  destruct (row_deleted row) eqn:Hdel; simpl; [naive_solver congruence|].
  destruct (authorize caller d Read) eqn:Ha; simpl; naive_solver congruence.
Qed.

(** ** Reading what was committed *)

(** What a mutation says the new document holds. *)
Definition written (m : Mutation) (d : Document) : Prop :=
  match m with
  | Create new => content d = new_content new ∧ access d = new_access new
  | Replace _ _ c => content d = c
  | SetAccess _ _ a => access d = a
  | Transfer _ _ o a => owner d = o ∧ (∀ a', a = Some a' → access d = a')
  | Delete _ _ => content d = scrubbed_content
  end.

(** A committed mutation is what readers see.  Right after a commit, a reader
    of the realm gets the document with the receipt's revision and exactly what
    the mutation wrote, payload included, if the new access entries let them read
    it, and [NotFound] if they do not; after a deletion every reader gets
    [NotFound]. *)
Theorem commit_is_read_back w scope caller request m rc w1 reader :
  no_faults env → Reachable env w →
  mutate env scope caller request m w = (Ok (mkOutcome rc false), w1) →
  scope_realm scope = caller_realm reader →
  let answer := (get_document env scope reader (receipt_document_id rc) w1).1 in
  if is_delete m then answer = Err NotFound
  else ∃ d, doc_id d = receipt_document_id rc ∧ revision d = receipt_revision rc ∧ written m d ∧
         answer = if authorize reader d Read then Ok d else Err NotFound.
Proof using SerdeRoundTrip0 SerdeRoundTrip1 SerdeRoundTrip3.
  intros Hfree Hinv%Reachable_inv Hm Hreal. cbv zeta. rewrite get_answer by done.
  rewrite bool_decide_eq_true_2 by done. unfold read_answer.
  apply mutate_cases in Hm as [_ [[_ Ho]|(? & [= <-] & _ & Hc)]]; [by destruct (Ho _ eq_refl)|]. simpl in Hc.
  destruct (Commits_tables _ _ _ _ _ _ _ _ _ _ Hc Hinv) as
    (d & row & j & ts & principal & rrow & Hp & Hj & -> & Hrow & Hdel & _ & _ & Hdocs & _).
  simpl. rewrite Hdocs, lookup_insert_eq, Hrow, Hdel. simpl. destruct (is_delete m); [done|].
  exists (with_revision d (uuid_at env j) ts). simpl. split_and!; [done..| |by destruct (authorize _ _ _)].
  destruct (is_create m) eqn:Hcr.
  - destruct m; try done. destruct Hp as (_ & _ & _ & _ & i & _ & ->). done.
  - destruct (produces_change _ _ _ _ _ _ _ _ _ _ Hp Hinv Hcr) as (d0 & _ & _ & _ & Happ).
    apply apply_mutation_Ok in Happ as (Hch & _).
    destruct m as [| | |? ? ? [a|]|]; simpl in *; subst; naive_solver.
Qed.

(** A retried request is answered from its receipt.  When no statement fails,
    and whatever ran since the commit, a retry of the same principal under the
    same request id is told the receipt of the first commit if it may still
    perform that operation on the document and sends the same request;
    [RequestIdReused] if it sends another request; and [NotFound] if it has lost
    its authority, as a sender who transferred the document away has. *)
Theorem retry_is_answered w scope caller request m rc w1 cs caller' request' m' :
  no_faults env → Reachable env w →
  mutate env scope caller request m w = (Ok (mkOutcome rc false), w1) →
  scope_realm scope = caller_realm caller' → caller_principal caller' = caller_principal caller →
  request_id request' = request_id request →
  let w2 := performs env w1 cs in
  ∃ d deleted, loaded (committed w2) scope (receipt_document_id rc) (Some (d, deleted)) ∧
    let answer := replay_answer caller' request' d (mutation_operation m) (fingerprint request) rc in
    (lookup_receipt env scope caller' request' w2).1 = answer ∧
    (mutate env scope caller' request' m' w2).1 =
      match answer with Ok (Some r) => Ok (mkOutcome r true) | Ok None => Err NotFound | Err e => Err e end.
Proof using SerdeRoundTrip0 SerdeRoundTrip1 SerdeRoundTrip3.
  intros Hfree Hinv%Reachable_inv Hm Hreal Hpr Hid w2.
  apply mutate_cases in Hm as [Hle [[_ Ho]|(? & [= <-] & _ & Hc)]]; [by destruct (Ho _ eq_refl)|]. simpl in Hc.
  pose proof (Commits_inv _ _ _ _ _ _ _ _ _ _ Hle Hc Hinv) as Hinv1.
  destruct (Commits_tables _ _ _ _ _ _ _ _ _ _ Hc Hinv) as
    (d & row & j & ts & principal & rrow & _ & _ & Erc & _ & _ & Hp & _ & _ & Hrecs & _ & Hfp & Hdec & Hdid & Hop & _).
  assert (Hk : extension_receipts (committed w2) !! receipt_key scope principal (request_id request') = Some rrow).
  { rewrite Hid. apply receipt_persists; [done..|]. by rewrite Hrecs, lookup_insert_eq. }
  assert (Hinv2 : DbInv env (committed w2) (observed w2)).
  { apply (performs_ind env (DbInv env)); eauto using DbInv_mono, Commits_inv. }
  destruct (proj2 Hinv2 _ _ Hk) as (? & ? & _ & _ & _ & _ & [row2 Hrow2]).
  destruct (proj1 Hinv2 _ _ Hrow2) as (d2 & Hd2 & _).
  assert (Hdoc : receipt_document_id rc = row_document_id rrow) by (subst rc; done).
  exists d2, (row_deleted row2). split; [rewrite Hdoc; exists row2; done|].
  rewrite <- Hfp, <- Hpr in *.
  assert (Hans : ∀ w', working w' = committed w2 →
    (receipt env scope caller' request' w').1 =
    replay_answer caller' request' d2 (mutation_operation m) (row_fingerprint rrow) rc).
  { intros w' Hw'. by apply (receipt_answer Hfree (committed w2) _ _ _ _ principal rrow row2). }
  split.
  - unfold lookup_receipt. rewrite run_ok, bind_sql by done. by apply Hans.
  - unfold mutate. rewrite (bind_ok _ _ _ tt w2) by (unfold lift_result; by rewrite (proj2 (validate_scope_Ok _ _))).
    rewrite run_ok, bind_sql by done. specialize (Hans (tick (with_working (committed w2) (tick w2))) eq_refl).
    destruct (replay_answer _ _ _ _ _ _) as [[r|]|e] eqn:E.
    + by rewrite (bind_fst_ok _ _ _ _ Hans).
    + unfold replay_answer in E. by repeat case_match.
    + by apply bind_fst_err.
Qed.

(** ** Which mobs the documents name *)

Lemma wp_scan_mob mob_id rows w :
  wp (scan_mob env mob_id rows)
    (λ r _, match r with
            | Ok true => ∃ row d, row ∈ rows ∧ decode (row_metadata row) = Ok d ∧ names_mob d mob_id = true
            | Ok false => ∀ row, row ∈ rows → ∃ d, decode (row_metadata row) = Ok d ∧ names_mob d mob_id = false
            | Err _ => True
            end) w.
Proof using.
  clear -Serde0 env. revert w. induction rows as [|row rows IH]; intros w; cbn [scan_mob]; wp_step; (apply wp_store_sql; [done|]).
  - wp_step. set_solver.
  - wp_step. apply wp_store_sql; [done|]. do 2 wp_step. destruct (decode (row_metadata row)) as [d|] eqn:Ed; [|done].
    destruct (names_mob d mob_id) eqn:En.
    + wp_step. exists row, d. set_solver.
    + eapply wp_mono; [apply IH|]. intros [[]|] _; [|..|done].
      * intros (row' & d' & ? & ?). exists row', d'. set_solver.
      * intros H row' [->|Hin]%elem_of_cons; eauto.
Qed.

(** A live document of the realm, in any namespace, names the mob. *)
Definition mob_is_named (db : Db) (realm mob_id : string) : Prop :=
  ∃ namespace id d, loaded db (mkScope realm namespace) id (Some (d, false)) ∧ names_mob d mob_id = true.

Lemma names_mob_payload d p mob_id : names_mob (with_content d (with_payload (content d) p)) mob_id = names_mob d mob_id.
Proof using. done. Qed.

Lemma live_rows_spec db realm row :
  row ∈ (List.filter (live_row_of realm) (btree_entries (extension_documents db))).*2 ↔
  ∃ namespace id, extension_documents db !! (realm, namespace, id) = Some row ∧ row_deleted row = false.
Proof using.
  rewrite list_elem_of_fmap. setoid_rewrite list_elem_of_In. setoid_rewrite filter_In.
  setoid_rewrite <- list_elem_of_In. split.
  - intros ([[[r ns] id] row'] & -> & Hin%elem_of_btree_entries & Hf).
    unfold live_row_of in Hf. simpl in Hf. apply andb_true_iff in Hf as [->%bool_decide_eq_true Hf%negb_true_iff].
    simpl. eauto.
  - intros (ns & id & Hin & Hf). exists ((realm, ns, id), row). split_and!; [done|by apply elem_of_btree_entries|].
    unfold live_row_of. simpl. by rewrite bool_decide_eq_true_2, Hf.
Qed.

(** The answer whether a realm's documents name a mob is never wrong.
    Whatever fails on the way, an answer [true] comes from a live document that
    names the mob as owner or in an audience, and an answer [false] means no live
    document of the realm in any namespace does: no row is skipped. *)
Theorem references_mob_exact w realm mob_id b w' :
  (∀ rows, scan_order env rows ≡ₚ rows) → Reachable env w →
  references_mob env realm mob_id w = (Ok b, w') →
  b = true ↔ mob_is_named (committed w) realm mob_id.
Proof using SerdeRoundTrip0 SerdeRoundTrip1 SerdeRoundTrip3.
  intros Hperm [Hinv _]%Reachable_inv Hrun.
  set (rows := (List.filter (live_row_of realm) (btree_entries (extension_documents (committed w)))).*2).
  assert (Hwp : wp (references_mob env realm mob_id) (λ r _, match r with
            | Ok true => ∃ row d, row ∈ rows ∧ decode (row_metadata row) = Ok d ∧ names_mob d mob_id = true
            | Ok false => ∀ row, row ∈ rows → ∃ d, decode (row_metadata row) = Ok d ∧ names_mob d mob_id = false
            | Err _ => True
            end) w).
  { unfold references_mob. apply wp_transaction; [done|]. wp_step. apply wp_store_sql; [done|]. wp_step. apply wp_store_sql; [done|].
    wp_step. apply wp_store_sql; [done|]. do 2 wp_step. simpl. eapply wp_mono; [apply wp_scan_mob|].
    intros [[]|] _; [..|done]; by setoid_rewrite Hperm. }
  unfold wp in Hwp. rewrite Hrun in Hwp. simpl in Hwp.
  assert (Hload : ∀ row namespace id, extension_documents (committed w) !! (realm, namespace, id) = Some row →
    ∃ d, decode (row_metadata row) = Ok d ∧ row_document row = Ok (with_content d (with_payload (content d) (row_payload row)))).
  { intros row ns id Hrow. destruct (Hinv _ _ Hrow) as (d & Hd & _). unfold row_document in *.
    destruct (decode (row_metadata row)) as [d0|]; [|done]. eauto. }
  unfold mob_is_named, loaded, doc_key. simpl. destruct b.
  - split; [intros _|done]. destruct Hwp as (row & d & (ns & id & Hrow & Hdel)%live_rows_spec & Hd & Hn).
    destruct (Hload _ _ _ Hrow) as (d' & Hd' & Hrd). rewrite Hd in Hd'. injection Hd' as <-.
    eexists ns, id, _. split; [exists row; split_and!; done|]. by rewrite names_mob_payload.
  - split; [done|]. intros (ns & id & d & (row & Hrow & Hrd & Hdel) & Hn). exfalso.
    destruct (Hload _ _ _ Hrow) as (d' & Hd' & Hrd'). rewrite Hrd in Hrd'. injection Hrd' as ->.
    rewrite names_mob_payload in Hn. destruct (Hwp row) as (d2 & Hd2 & Hn2); [apply live_rows_spec; eauto|].
    rewrite Hd' in Hd2. injection Hd2 as <-. congruence.
Qed.
End reads.

(** ** Examples *)

Module ReadExamples.
Import ExtensionExamples ContractExamples.

Lemma env0_free : no_faults env0.
Proof. done. Qed.
Lemma created_reachable : Reachable env0 created.2.
Proof. exists 0%nat, [CallMutate scope0 alice_caller request0 create0]. symmetry. apply created_performs. Qed.
Lemma initial_reachable : Reachable env0 (initial 0).
Proof. exists 0%nat, []. reflexivity. Qed.

(** A stranger in the realm gets the answer of a missing document. *)
Definition stranger : HostAccessContext :=
  mkCaller "realm" (AgentPrincipal "bob") lineage_root ∅ ∅ false ALLOW ∅.

Lemma get_exact_witness :
  is_ok (get_document env0 scope0 fork_caller "4" created.2).1 = true ∧
  (get_document env0 scope0 stranger "4" created.2).1 = Err NotFound.
Proof.
  split; [vm_compute; reflexivity|].
  destruct (get_exact env0 created.2 scope0 stranger "4" env0_free created_reachable) as [_ He].
  destruct (get_document env0 scope0 stranger "4" created.2).1 as [d|e] eqn:E; [vm_compute in E; discriminate|].
  by rewrite (He e eq_refl).
Defined.

Lemma commit_is_read_back_witness :
  ∃ d, revision d = "5" ∧ content d = content0 ∧
       (get_document env0 scope0 fork_caller "4" created.2).1 = Ok d.
Proof.
  destruct (commit_is_read_back env0 (initial 0) scope0 alice_caller request0 create0 _ _ fork_caller
              env0_free initial_reachable created_ok eq_refl) as (d & _ & Hr & [Hc _] & Hg).
  exists d. split_and!; [exact Hr|exact Hc|]. simpl in Hg.
  assert (Hok : is_ok (get_document env0 scope0 fork_caller "4" created.2).1 = true) by (vm_compute; reflexivity).
  rewrite Hg in Hok |- *. by destruct (authorize fork_caller d Read).
Defined.

Lemma retry_is_answered_witness :
  ∃ d deleted, loaded (committed created.2) scope0 "4" (Some (d, deleted)) ∧
    (lookup_receipt env0 scope0 alice_caller (mkRequest "request-0" "other") created.2).1 =
      replay_answer alice_caller (mkRequest "request-0" "other") d Manage "fp-0" (mkReceipt "4" "5" false).
Proof.
  destruct (retry_is_answered env0 (initial 0) scope0 alice_caller request0 create0 _ _ [] alice_caller
              (mkRequest "request-0" "other") create0 env0_free initial_reachable created_ok
              eq_refl eq_refl eq_refl) as (d & deleted & Hl & Ha & _).
  exists d, deleted. split; [exact Hl|exact Ha].
Defined.

Lemma references_mob_exact_witness : mob_is_named (committed created.2) "realm" "crew".
Proof.
  assert (H : references_mob env0 "realm" "crew" created.2 =
              (Ok true, (references_mob env0 "realm" "crew" created.2).2)) by (apply pair_of_fst; vm_compute; reflexivity).
  by apply (references_mob_exact env0 created.2 "realm" "crew" true _ (λ _, reflexivity _) created_reachable H).
Defined.
End ReadExamples.
