(* ===== verification/ExtensionPaging.v ===== *)
(** * Extension documents: paging through a listing

    One page of [list_documents] is a prefix of the readable documents after the
    cursor, in id order, and the cursor it returns is the id of its last
    document.  Following the cursors therefore enumerates the readable documents
    of the namespace exactly once each. *)

From S2P Require Import Prelude Strings SqlWorld ExtensionTypes ExtensionPolicy ExtensionStore ExtensionExamples ExtensionProofs ExtensionTheorems ExtensionReads.
Open Scope Z_scope.

(** ** Strictly sorted lists *)

Section strict.
Context {A : Type} (R : relation A).

Lemma StronglySorted_List_filter (f : A → bool) l : StronglySorted R l → StronglySorted R (List.filter f l).
Proof.
  induction 1 as [|x l Hs IH Hall]; simpl; [constructor|]. destruct (f x); [|done]. constructor; [done|].
  apply Forall_forall. intros y [Hy _]%list_elem_of_In%filter_In. rewrite Forall_forall in Hall.
  apply Hall. by apply list_elem_of_In.
Qed.

Lemma StronglySorted_omap {B} (R' : relation B) (f : A → option B) l :
  StronglySorted R l →
  (∀ x y a b, x ∈ l → y ∈ l → R x y → f x = Some a → f y = Some b → R' a b) →
  StronglySorted R' (omap f l).
Proof.
  induction 1 as [|x l Hs IH Hall]; intros Hf; simpl; [constructor|].
  assert (StronglySorted R' (omap f l)) by (apply IH; intros x' y' a b Hx Hy; apply (Hf x' y'); by right).
  destruct (f x) as [a|] eqn:Ex; [|done]. constructor; [done|]. apply Forall_forall.
  intros b (y & Hy & Ey)%list_elem_of_omap. rewrite Forall_forall in Hall.
  eapply (Hf x y); [by left|by right|by apply Hall|done..].
Qed.
End strict.

Definition id_lt (d d' : Document) : Prop := String.le (doc_id d) (doc_id d') ∧ doc_id d ≠ doc_id d'.
Definition after_cursor (cursor : string) (d : Document) : bool := negb (bool_decide (String.le (doc_id d) cursor)).

(** Past the id of an element of a strictly sorted list comes the rest of the list. *)
Lemma filter_after_cursor l x q :
  StronglySorted id_lt (l ++ x :: q) → List.filter (after_cursor (doc_id x)) (l ++ x :: q) = q.
Proof.
  intros Hs. apply StronglySorted_app in Hs as (Hlx & _ & [Hxq _]%StronglySorted_cons).
  rewrite List.filter_app.
  assert (List.filter (after_cursor (doc_id x)) l = []) as ->.
  { clear -Hlx. induction l as [|y l IH]; simpl; [done|].
    destruct (Hlx y x) as [Hle _]; [left|left|]. unfold after_cursor at 1.
    rewrite bool_decide_eq_true_2 by done. simpl. apply IH. intros; apply Hlx; [by right|done]. }
  simpl. unfold after_cursor at 1. rewrite bool_decide_eq_true_2 by done. simpl.
  clear -Hxq. induction Hxq as [|y q [Hle Hne] _ IH]; simpl; [done|].
  unfold after_cursor at 1. rewrite bool_decide_eq_false_2; [simpl; by rewrite IH|].
  intros Hle'. apply Hne. by apply (anti_symm String.le).
Qed.

Lemma String_le_empty s : String.le "" s.
Proof. unfold String.le, String.leb. by destruct s. Qed.
Lemma String_le_empty_inv s : String.le s "" → s = "".
Proof. intros H. apply (anti_symm String.le); [done|apply String_le_empty]. Qed.

(** ** The readable documents of a namespace *)

Section paging.
Context (env : StoreEnv).
Context `{!Serde Document, !Serde MutationReceipt, !Serde Principal, !Serde Operation}.

Definition row_visible (caller : HostAccessContext) (row : DocRow) : option Document :=
  match decode (row_metadata row) with
  | Ok d => if authorize caller d Read then Some d else None
  | Err _ => None
  end.

(** The readable documents with an id past the cursor, in id order. *)
Definition visible (db : Db) (scope : DocumentScope) (caller : HostAccessContext) (cursor : string)
    : list Document :=
  omap (row_visible caller) (page_rows db scope cursor).

Lemma omap_fmap_snd {A B C} (f : B → option C) (l : list (A * B)) :
  omap f l.*2 = omap (λ e, f e.2) l.
Proof. induction l as [|[a b] l IH]; [done|]. csimpl. by rewrite IH. Qed.

Lemma visible_entries db scope caller cursor :
  visible db scope caller cursor =
  omap (λ e, row_visible caller e.2) (List.filter (page_row scope cursor) (btree_entries (extension_documents db))).
Proof. unfold visible, page_rows. apply omap_fmap_snd. Qed.

Section invariant.
Context (db : Db) (n : nat) (Hinv : DbInv env db n).

Lemma entry_id caller e d :
  e ∈ btree_entries (extension_documents db) → row_visible caller e.2 = Some d → doc_id d = e.1.2.
Proof.
  destruct e as [key row]. intros Hin%elem_of_btree_entries. unfold row_visible. simpl.
  destruct (proj1 Hinv _ _ Hin) as (d' & Hd & Hid & _). unfold row_document in Hd.
  destruct (decode (row_metadata row)) as [d0|]; [|done]. injection Hd as <-. simpl in Hid.
  destruct (authorize caller d0 Read); [|done]. by intros [= <-].
Qed.

Lemma entries_strict :
  StronglySorted (λ e e' : DocKey * DocRow, entry_le e e' ∧ e.1 ≠ e'.1) (btree_entries (extension_documents db)).
Proof.
  assert (Hs : StronglySorted entry_le (btree_entries (extension_documents db))).
  { apply StronglySorted_merge_sort; apply _. }
  pose proof (NoDup_btree_keys (extension_documents db)) as Hn. unfold btree_keys in Hn.
  induction Hs as [|e l Hs IH Hall]; [constructor|]. simpl in Hn. apply NoDup_cons in Hn as [Hnot Hn].
  constructor; [auto|]. rewrite Forall_forall in Hall |- *. intros e' He'. split; [auto|].
  intros Heq. apply Hnot. rewrite Heq. by apply list_elem_of_fmap_2.
Qed.

Lemma page_row_scope scope cursor e :
  page_row scope cursor e = true →
  e.1.1 = (scope_realm scope, scope_namespace scope) ∧ row_deleted e.2 = false ∧ ¬ String.le e.1.2 cursor.
Proof.
  destruct e as [[[r ns] id] row]. simpl. rewrite !andb_true_iff, !negb_true_iff, !bool_decide_eq_true, bool_decide_eq_false.
  intros [[[-> ->] ?] ?]. done.
Qed.

Lemma visible_sorted scope caller cursor : StronglySorted id_lt (visible db scope caller cursor).
Proof.
  rewrite visible_entries. eapply StronglySorted_omap; [apply StronglySorted_List_filter, entries_strict|].
  intros e e' d d' He He' [Hle Hne] Hd Hd'.
  apply list_elem_of_In, filter_In in He as [He Hp], He' as [He' Hp']. apply list_elem_of_In in He, He'.
  apply page_row_scope in Hp as (Hk & _), Hp' as (Hk' & _).
  unfold id_lt. rewrite (entry_id caller e d He Hd), (entry_id caller e' d' He' Hd').
  destruct e as [[k id] row], e' as [[k' id'] row']. simpl in *. subst.
  destruct Hle as [[_ Hle]|[Hne' _]]; [|done]. split; [done|]. simpl. congruence.
Qed.

Lemma visible_cursor scope caller cursor :
  visible db scope caller cursor = List.filter (after_cursor cursor) (visible db scope caller "").
Proof.
  rewrite !visible_entries.
  assert (Hid : ∀ e d, e ∈ btree_entries (extension_documents db) → row_visible caller e.2 = Some d → doc_id d = e.1.2)
    by eauto using entry_id.
  revert Hid. generalize (btree_entries (extension_documents db)) as l.
  induction l as [|e l IH]; intros Hid; [done|]. cbn [List.filter].
  assert (IH' := IH (λ e' d' He', Hid e' d' (list_elem_of_further _ _ _ He'))). clear IH.
  assert (Hsplit : page_row scope cursor e = page_row scope "" e && negb (bool_decide (String.le e.1.2 cursor))).
  { destruct e as [[[r ns] id] row]. simpl. destruct (bool_decide_reflect (String.le id cursor)) as [|Hn]; simpl.
    - by rewrite !andb_false_r.
    - rewrite (bool_decide_eq_false_2 (String.le id "")); [by rewrite !andb_true_r|].
      intros ->%String_le_empty_inv. apply Hn, String_le_empty. }
  rewrite Hsplit. destruct (page_row scope "" e); cbn [andb]; csimpl; [|done].
  destruct (row_visible caller e.2) as [d|] eqn:Ev.
  - assert (Hd := Hid e d (list_elem_of_here _ _) Ev). cbn [List.filter]. unfold after_cursor at 1. rewrite Hd.
    destruct (decide (String.le e.1.2 cursor)).
    + rewrite !bool_decide_eq_true_2 by done. exact IH'.
    + rewrite !bool_decide_eq_false_2 by done. cbn [negb]. csimpl. by rewrite Ev, IH'.
  - destruct (bool_decide (String.le e.1.2 cursor)); cbn [negb]; csimpl; rewrite ?Ev; done.
Qed.

Lemma visible_readable scope caller d :
  d ∈ visible db scope caller "" →
  ∃ d', read_answer db scope caller (doc_id d) = Ok d'.
Proof.
  rewrite visible_entries. intros (e & He & Hv)%list_elem_of_omap.
  apply list_elem_of_In, filter_In in He as [He Hp]. apply list_elem_of_In in He.
  pose proof (entry_id caller e d He Hv) as Hid. apply page_row_scope in Hp as (Hk & Hdel & _).
  destruct e as [[k id] row]. simpl in *. subst. apply elem_of_btree_entries in He.
  unfold read_answer, doc_key. rewrite He. revert Hv. unfold row_visible, row_document.
  destruct (decode (row_metadata row)) as [d0|]; [|done]. simpl.
  change (authorize caller (with_content d0 (with_payload (content d0) (row_payload row))) Read)
    with (authorize caller d0 Read).
  destruct (authorize caller d0 Read); [|done]. rewrite Hdel. simpl. eauto.
Qed.

Lemma page_rows_decode scope cursor row :
  row ∈ page_rows db scope cursor → ∃ d, decode (A := Document) (row_metadata row) = Ok d.
Proof.
  unfold page_rows. intros (e & -> & He)%list_elem_of_fmap. apply list_elem_of_In, filter_In in He as [He _].
  apply list_elem_of_In in He. destruct e as [key row]. apply elem_of_btree_entries in He.
  destruct (proj1 Hinv _ _ He) as (d & Hd & _). unfold row_document in Hd. simpl.
  destruct (decode (row_metadata row)); [eauto|done].
Qed.

Lemma filter_after_after c c' l :
  String.le c c' → List.filter (after_cursor c') (List.filter (after_cursor c) l) = List.filter (after_cursor c') l.
Proof.
  intros Hle. induction l as [|d l IH]; [done|]. cbn [List.filter].
  destruct (after_cursor c d) eqn:E; cbn [List.filter]; rewrite IH; [done|].
  unfold after_cursor in *. apply negb_false_iff, bool_decide_eq_true in E.
  by rewrite bool_decide_eq_true_2 by (by etrans).
Qed.

(** The documents after the last one of a page are the rest of the listing. *)
Lemma visible_rest scope caller cursor p x q :
  visible db scope caller cursor = p ++ x :: q → visible db scope caller (doc_id x) = q.
Proof.
  intros Hv. rewrite <- (filter_after_cursor p x q) by (rewrite <- Hv; apply visible_sorted).
  rewrite <- Hv, visible_cursor, (visible_cursor _ _ cursor), filter_after_after; [done|].
  assert (Hx : x ∈ visible db scope caller cursor) by (rewrite Hv; apply elem_of_app; right; left).
  rewrite visible_cursor in Hx. apply list_elem_of_In, filter_In in Hx as [_ Hx].
  unfold after_cursor in Hx. apply negb_true_iff, bool_decide_eq_false in Hx.
  destruct (total String.le cursor (doc_id x)); done.
Qed.
End invariant.

(** ** One page *)

Section fault_free.
Context (Hfree : no_faults env).

Lemma list_rows_answer caller lim rows acc w :
  (∀ row, row ∈ rows → ∃ d, decode (A := Document) (row_metadata row) = Ok d) → (length acc ≤ lim)%nat →
  (list_rows env caller lim rows acc w).1 =
  Ok (acc ++ take (lim - length acc) (summary_of <$> omap (row_visible caller) rows),
      (lim - length acc <? length (omap (row_visible caller) rows))%nat).
Proof.
  revert acc w. induction rows as [|row rows IH]; intros acc w Hdec Hlen; cbn [list_rows]; rewrite bind_sql by done.
  - simpl. rewrite take_nil, app_nil_r. by destruct (lim - length acc)%nat.
  - rewrite bind_sql by done. destruct (Hdec row) as [d Hd]; [left|].
    rewrite (bind_ok _ _ _ d (tick (tick w))) by (unfold lift_result; by rewrite Hd).
    assert (Hrv : row_visible caller row = if authorize caller d Read then Some d else None)
      by (unfold row_visible; by rewrite Hd).
    csimpl. rewrite Hrv. destruct (authorize caller d Read); cbn [negb].
    + destruct (Nat.eqb_spec (length acc) lim) as [Heq|Hne].
      * replace (lim - length acc)%nat with 0%nat by lia. simpl. by rewrite app_nil_r.
      * rewrite IH by (rewrite ?length_app; simpl; try lia; set_solver). rewrite length_app. simpl length.
        destruct (lim - length acc)%nat as [|k] eqn:Ek; [lia|].
        replace (lim - (length acc + 1))%nat with k by lia. csimpl. by rewrite <- app_assoc.
    + apply IH; [set_solver|done].
Qed.

(** Whether the cursor of a request names a document the caller may read. *)
Definition cursor_ok (db : Db) (scope : DocumentScope) (caller : HostAccessContext) (cursor : option string) : Prop :=
  ∀ id, cursor = Some id → ∃ d, read_answer db scope caller id = Ok d.

Lemma list_documents_answer scope caller lim cursor w n :
  DbInv env (committed w) n → scope_realm scope = caller_realm caller → (1 ≤ lim ≤ 100)%nat →
  cursor_ok (committed w) scope caller cursor →
  let v := visible (committed w) scope caller (unwrap_or cursor "") in
  (list_documents env scope caller (mkListRequest lim cursor) w).1 =
  Ok (page_of (take lim (summary_of <$> v), (lim <? length v)%nat)).
Proof.
  intros Hinv Hreal Hlim Hcur v. unfold list_documents.
  rewrite (bind_ok _ _ _ tt w) by (unfold lift_result; by rewrite (proj2 (validate_scope_Ok _ _))).
  rewrite (bind_ok _ _ _ tt w).
  2: { simpl. destruct (Nat.eqb_spec lim 0); [lia|]. destruct (Nat.ltb_spec 100 lim); [lia|]. done. }
  rewrite run_ok, bind_sql by done. set (w1 := tick _).
  assert (∃ w2, (match cursor with
                 | Some id => _ ← readable_document env scope caller id; mret tt
                 | None => mret tt
                 end) w1 = (Ok tt, w2) ∧ working w2 = committed w) as (w2 & H2 & Hw2).
  { destruct cursor as [id|]; [|by exists w1]. destruct (Hcur id eq_refl) as [d Hd].
    exists (tick w1). rewrite (bind_ok _ _ _ d (tick w1)); [done|]. rewrite readable_ok by done.
    change (working w1) with (committed w). by rewrite Hd. }
  cbn [after]. rewrite (bind_ok _ _ _ _ _ H2), !bind_sql by done.
  rewrite (bind_ok _ _ _ (committed w) (tick (tick w2))) by (unfold gets; simpl; by rewrite Hw2).
  cbn [limit]. erewrite bind_fst_ok.
  2: { apply list_rows_answer; [intros row; eapply page_rows_decode; done|simpl; lia]. }
  simpl. unfold v, visible. by rewrite Nat.sub_0_r.
Qed.
End fault_free.

(** Follow the cursors from a first request, as a client that lists everything does. *)
Fixpoint follow_pages (fuel : nat) (scope : DocumentScope) (caller : HostAccessContext) (lim : nat)
    (cursor : option string) (w : World Db unit) : option (list DocumentSummary) :=
  match fuel with
  | O => None
  | S fuel =>
      match list_documents env scope caller (mkListRequest lim cursor) w with
      | (Ok page, w') =>
          match next page with
          | None => Some (documents page)
          | Some id => app (documents page) <$> follow_pages fuel scope caller lim (Some id) w'
          end
      | (Err _, _) => None
      end
  end.

Lemma follow_pages_rest fuel scope caller lim cursor db n w :
  no_faults env → DbInv env db n → scope_realm scope = caller_realm caller → (1 ≤ lim ≤ 100)%nat →
  committed w = db → cursor_ok db scope caller cursor →
  (length (visible db scope caller (unwrap_or cursor "")) < fuel)%nat →
  follow_pages fuel scope caller lim cursor w = Some (summary_of <$> visible db scope caller (unwrap_or cursor "")).
Proof.
  intros Hfree Hinv Hreal Hlim. revert cursor w. induction fuel as [|fuel IH]; intros cursor w Hw Hcur Hlen; [lia|].
  cbn [follow_pages]. rewrite <- Hw in Hcur.
  pose proof (list_documents_answer Hfree scope caller lim cursor w n ltac:(by rewrite Hw) Hreal Hlim Hcur) as Hans.
  pose proof (perform_kept env w (CallList scope caller (mkListRequest lim cursor))) as [Hc _]. simpl in Hc.
  destruct (list_documents env scope caller (mkListRequest lim cursor) w) as [r w']. simpl in Hans, Hc. subst r.
  rewrite Hw in *. set (v := visible db scope caller (unwrap_or cursor "")) in *.
  unfold page_of. cbn [next documents fst snd]. destruct (Nat.ltb_spec lim (length v)) as [Hlt|Hge].
  2: { rewrite take_ge by (rewrite length_fmap; lia). done. }
  assert (∃ p x, take lim v = p ++ [x]) as (p & x & Hpx).
  { destruct (take lim v) as [|y t] eqn:Ht using rev_ind; [|eauto].
    apply (f_equal length) in Ht. rewrite length_take in Ht. simpl in Ht. lia. }
  assert (Hv : v = p ++ x :: drop lim v).
  { rewrite <- (take_drop lim v) at 1. rewrite Hpx, <- app_assoc. done. }
  rewrite <- fmap_take, Hpx, fmap_app, last_app. cbn [fmap list_fmap last summary_of summary_id option_fmap option_map].
  pose proof (visible_rest db n Hinv scope caller _ p x (drop lim v) Hv) as Hrest.
  rewrite (IH (Some (doc_id x)) w'); [|done|..]; simpl unwrap_or.
  - rewrite Hrest. simpl. f_equal. rewrite Hv at 2. by rewrite fmap_app, fmap_cons, <- app_assoc.
  - intros id [= <-]. apply (visible_readable db n Hinv).
    assert (Hx : x ∈ v) by (rewrite Hv; apply elem_of_app; right; left). unfold v in Hx. rewrite (visible_cursor db n Hinv) in Hx.
    by apply list_elem_of_In, filter_In in Hx as [Hx%list_elem_of_In _].
  - rewrite Hrest, length_drop. lia.
Qed.

Lemma visible_ids db n scope caller id :
  DbInv env db n → id ≠ "" →
  (∃ d, d ∈ visible db scope caller "" ∧ doc_id d = id) ↔ ∃ d, read_answer db scope caller id = Ok d.
Proof.
  intros Hinv Hne. split.
  - intros (d & Hd & <-). by eapply visible_readable.
  - unfold read_answer, doc_key. intros [d Hd].
    destruct (extension_documents db !! _) as [row|] eqn:Hrow; [|done].
    destruct (proj1 Hinv _ _ Hrow) as (d' & Hd' & Hid & _). rewrite Hd' in Hd. simpl in Hd, Hid.
    destruct (row_deleted row) eqn:Hdel; [done|]. destruct (authorize caller d' Read) eqn:Ha; [|done].
    unfold row_document in Hd'. destruct (decode (row_metadata row)) as [d0|] eqn:Hdec; [|done].
    injection Hd' as <-. exists d0. split; [|done]. rewrite visible_entries. apply list_elem_of_omap.
    eexists ((scope_realm scope, scope_namespace scope, id), row). split.
    + apply list_elem_of_In, filter_In. split; [by apply list_elem_of_In, elem_of_btree_entries|].
      simpl. rewrite !bool_decide_eq_true_2, Hdel by done. simpl.
      rewrite bool_decide_eq_false_2; [done|]. by intros ?%String_le_empty_inv.
    + unfold row_visible. cbn [snd]. rewrite Hdec. change (authorize caller d0 Read = true) in Ha. by rewrite Ha.
Qed.

(** C40: A client that follows the cursors sees every readable document once.
    When no statement fails and nothing is written in between, asking for pages
    of any admitted size from the start until no cursor is returned ends after at
    most one request more than there are readable documents, and the pages put
    together list, in strictly increasing id order, exactly the documents of the
    namespace that a read would return. *)
Theorem paging_is_complete `{!SerdeRoundTrip Document, !SerdeRoundTrip MutationReceipt, !SerdeRoundTrip Operation}
    w scope caller lim fuel :
  no_faults env → Reachable env w → scope_realm scope = caller_realm caller → (1 ≤ lim ≤ 100)%nat →
  (length (visible (committed w) scope caller "") < fuel)%nat →
  ∃ docs, follow_pages fuel scope caller lim None w = Some (summary_of <$> docs) ∧
    StronglySorted id_lt docs ∧
    ∀ id, id ≠ "" →
      (∃ d, d ∈ docs ∧ doc_id d = id) ↔ ∃ d, (get_document env scope caller id w).1 = Ok d.
Proof.
  intros Hfree Hinv%Reachable_inv Hreal Hlim Hfuel; [|done..].
  exists (visible (committed w) scope caller ""). split_and!.
  - by eapply (follow_pages_rest fuel scope caller lim None).
  - by eapply visible_sorted.
  - intros id Hid. rewrite get_answer, bool_decide_eq_true_2 by done. by eapply visible_ids.
Qed.
End paging.

(** ** Examples *)

Module PagingExamples.
Import ExtensionExamples ContractExamples ReadExamples.

Definition create1 : Mutation := Create (mkNewDocument content1 None access_default).
Definition two : World Db unit := (mutate env0 scope0 alice_caller request1 create1 created.2).2.

Lemma paging_is_complete_witness :
  ∃ docs, follow_pages env0 5 scope0 fork_caller 1 None two = Some (summary_of <$> docs) ∧
    StronglySorted id_lt docs ∧ length docs = 2%nat.
Proof.
  destruct (paging_is_complete env0 two scope0 fork_caller 1 5) as (docs & Hf & Hs & _).
  - apply env0_free.
  - exists 0%nat, [CallMutate scope0 alice_caller request0 create0; CallMutate scope0 alice_caller request1 create1].
    reflexivity.
  - reflexivity.
  - lia.
  - apply (bool_decide_unpack _). vm_compute. exact I.
  - exists docs. split_and!; [exact Hf|exact Hs|].
    assert (Hl : length <$> follow_pages env0 5 scope0 fork_caller 1 None two = Some 2%nat) by (vm_compute; reflexivity).
    rewrite Hf in Hl. cbn in Hl. injection Hl as Hl. by rewrite length_fmap in Hl.
Defined.
End PagingExamples.
