(* ===== verification/ContinuityTypes.v ===== *)
(** * Identity continuity: data and contracts
      ([identity_first/types.rs], [identity_first/contracts.rs])

    The records, errors and leases of identity-first continuity, and the
    [ContinuityStore] trait as a record of operations on a provider's own state
    together with its default methods.  Generations, checkpoint versions and
    fencing tokens are [u64] values; a [SessionId] is its canonical text. *)

From S2P Require Import Prelude Strings.
Open Scope Z_scope.

(** ** Validated identities *)

(** [s.contains(char::is_whitespace)] on the UTF-8 encoding. *)
Fixpoint has_whitespace (s : string) : bool :=
  is_some (ws_head s) || match s with "" => false | String _ s' => has_whitespace s' end.

Record InvalidIdentity := mkInvalidIdentity { invalid_input : string; invalid_reason : string }.

Definition validate_identity_string (s : string) : Result unit InvalidIdentity :=
  if str_is_empty s then Err (mkInvalidIdentity s "must not be empty")
  else if has_whitespace s then Err (mkInvalidIdentity s "must not contain whitespace")
  else if contains_byte "/" s then Err (mkInvalidIdentity s "must not contain slashes")
  else Ok tt.

(** [AgentIdentity::parse] and [AgentRuntimeId::parse]. *)
Definition parse_identity (s : string) : Result string InvalidIdentity :=
  _ ←? validate_identity_string s; Ok s.

(** ** Records and errors *)

Record ContinuityRecord := mkContinuityRecord {
  record_identity : string;
  agent_runtime_id : string;
  session_id : string;
  generation : Z;
  checkpoint_version : Z;
}.
#[global] Instance ContinuityRecord_eq_dec : EqDecision ContinuityRecord.
Proof. solve_decision. Defined.

Definition with_checkpoint_version (r : ContinuityRecord) (v : Z) : ContinuityRecord :=
  mkContinuityRecord (record_identity r) (agent_runtime_id r) (session_id r) (generation r) v.

Inductive ContinuityResolveState :=
| Uninitialized
| Ready (record : ContinuityRecord)
| Broken (failure : string).
#[global] Instance ContinuityResolveState_eq_dec : EqDecision ContinuityResolveState.
Proof. solve_decision. Defined.

Inductive ContinuityStoreError :=
| UnsupportedAuthority (capability : string)
| StaleFencingToken (identity : string) (presented current : Z)
| StaleCheckpointVersion (identity : string) (presented current : Z)
| StaleContinuityGeneration (identity : string) (presented current : Z)
| RecordNotFound (identity : string)
| StoreIo (text : string)
| Corruption (text : string)
| Transient (text : string).
#[global] Instance ContinuityStoreError_eq_dec : EqDecision ContinuityStoreError.
Proof. solve_decision. Defined.

Definition continuity_error_text (e : ContinuityStoreError) : string :=
  match e with
  | UnsupportedAuthority capability => "continuity authority does not support " +:+ capability
  | StaleFencingToken i p c =>
      "stale fencing token for " +:+ i +:+ ": presented " +:+ fmt_dec p +:+ ", current " +:+ fmt_dec c
  | StaleCheckpointVersion i p c =>
      "stale checkpoint version for " +:+ i +:+ ": presented " +:+ fmt_dec p +:+ ", current " +:+ fmt_dec c
  | StaleContinuityGeneration i p c =>
      "stale continuity generation for " +:+ i +:+ ": presented " +:+ fmt_dec p +:+ ", current " +:+ fmt_dec c
  | RecordNotFound i => "continuity record not found for " +:+ i
  | StoreIo m => "continuity store I/O error: " +:+ m
  | Corruption m => "continuity store corruption: " +:+ m
  | Transient m => "continuity store transient failure: " +:+ m
  end.

(** The write cursor of a delta mutation. *)
Record ContinuityWriteCursor := mkCursor {
  cursor_identity : string;
  cursor_generation : Z;
  cursor_version : Z;
  cursor_token : Z;
}.

Record SessionSnapshotMatchCandidate := mkCandidate {
  candidate_identity : string;
  candidate_session_id : string;
  candidate_generation : Z;
  candidate_version : Z;
  candidate_token : Z;
  candidate_data : string;
}.

(** ** Leases *)

Record LeaseGrant := mkGrant { grant_identity : string; grant_token : Z; grant_ttl_ms : Z }.

Inductive LeaseAcquireResult :=
| Acquired (grant : LeaseGrant)
| AlreadyHeld (identity holder : string).

Inductive LeaseRenewResult :=
| Renewed (grant : LeaseGrant)
| Lost (identity : string).

(** ** The store trait

    A provider's operations on its state [W].  [resolve_many] returns a map with
    the requested identities; the trait's default methods are the [default_]
    definitions below. *)

Record ContinuityStore (W : Type) := mkContinuityStore {
  resolve_many : list string → M W ContinuityStoreError (gmap string ContinuityResolveState);
  resolve_record_by_session : string → M W ContinuityStoreError (option (ContinuityRecord * Z * Z));
  session_owner : string → M W ContinuityStoreError (option string);
  load_session_snapshot : string → M W ContinuityStoreError (option string);
  session_snapshot_matches_current : SessionSnapshotMatchCandidate → M W ContinuityStoreError bool;
  delete_session_snapshot_if_current_revision : string → string → M W ContinuityStoreError bool;
  save_session_snapshot : string → string → Z → Z → Z → string → M W ContinuityStoreError unit;
  upsert_continuity_record : ContinuityRecord → Z → M W ContinuityStoreError unit;
  rollback_continuity_record :
    ContinuityRecord → option ContinuityRecord → Z → M W ContinuityStoreError unit;
  delete_continuity_record : string → Z → M W ContinuityStoreError unit;
}.
Arguments mkContinuityStore {W} _ _ _ _ _ _ _ _ _ _.
Arguments resolve_many {W} _ _.
Arguments resolve_record_by_session {W} _ _.
Arguments session_owner {W} _ _.
Arguments load_session_snapshot {W} _ _.
Arguments session_snapshot_matches_current {W} _ _.
Arguments delete_session_snapshot_if_current_revision {W} _ _ _.
Arguments save_session_snapshot {W} _ _ _ _ _ _ _.
Arguments upsert_continuity_record {W} _ _ _.
Arguments rollback_continuity_record {W} _ _ _ _.
Arguments delete_continuity_record {W} _ _ _.

Section defaults.
Context {W : Type}.
Notation Op := (M W ContinuityStoreError).

Definition default_session_snapshot_matches_current (c : SessionSnapshotMatchCandidate) : Op bool := mret false.
Definition default_delete_session_snapshot_if_current_revision (session revision : string) : Op bool := mret false.

Definition default_session_owner
    (by_session : string → Op (option (ContinuityRecord * Z * Z))) (sid : string) : Op (option string) :=
  found ← by_session sid;
  match found with
  | None => mret None
  | Some (record, _, _) =>
      _ ← throw_if (negb (session_id record =b sid))
            (Corruption "session owner lookup returned a different session");
      mret (Some (record_identity record))
  end.

(** The compatibility rollback: check the attempt, delete it, re-insert the
    previous record as a fresh row.  It is not atomic. *)
Definition default_rollback_continuity_record
    (resolve : list string → Op (gmap string ContinuityResolveState))
    (delete : string → Z → Op unit) (upsert : ContinuityRecord → Z → Op unit)
    (expected_attempt : ContinuityRecord) (previous : option ContinuityRecord) (token : Z) : Op unit :=
  resolved ← resolve [record_identity expected_attempt];
  match resolved !! record_identity expected_attempt with
  | Some (Ready current) =>
      _ ← throw_if (negb (agent_runtime_id current =b agent_runtime_id expected_attempt) ||
                    negb (session_id current =b session_id expected_attempt) ||
                    negb (generation current =b generation expected_attempt))
            (StaleContinuityGeneration (record_identity expected_attempt)
               (generation expected_attempt) (generation current));
      _ ← delete (record_identity expected_attempt) token;
      match previous with
      | Some p => upsert p token
      | None => mret tt
      end
  | _ => throw (RecordNotFound (record_identity expected_attempt))
  end.
End defaults.

(** ** Lemmas *)

Lemma parse_identity_Ok s t : parse_identity s = Ok t → t = s.
Proof. unfold parse_identity. by intros ([] & _ & [= <-])%and_then_Ok. Qed.
