(* ===== verification/ContinuityReference.v ===== *)
(** * The reference continuity store
      ([meta-store-conformance/src/reference.rs], [CompatRollbackContinuityStore])

    The minimal in-memory store that documents what a backend must implement:
    records with their fence, and whole snapshots with their owner.  It inherits
    the trait's non-atomic rollback.  Decoding a session document and its
    compare-and-set token belong to [meerkat_core] and are parameters. *)

From S2P Require Import Prelude Strings ContinuityTypes.
Open Scope Z_scope.

Record StoredRecord := mkStored { stored_record : ContinuityRecord; stored_fence : Z }.
Record StoredSnapshot := mkSnapshot {
  snapshot_identity : string;
  snapshot_generation : Z;
  snapshot_data : string;
}.

Record ContinuityInner := mkInner {
  ref_records : gmap string StoredRecord;
  ref_snapshots : gmap string StoredSnapshot;
}.

Notation RefOp := (M ContinuityInner ContinuityStoreError).

Definition set_records (f : gmap string StoredRecord → gmap string StoredRecord) (s : ContinuityInner)
    : ContinuityInner := mkInner (f (ref_records s)) (ref_snapshots s).
Definition set_snapshots (f : gmap string StoredSnapshot → gmap string StoredSnapshot) (s : ContinuityInner)
    : ContinuityInner := mkInner (ref_records s) (f (ref_snapshots s)).

Section reference.
Context {Session : Type} (decode_session : string → Result Session string)
        (projection_cas_token : Session → Result string string).

Definition ref_resolve_record_by_session (sid : string) : RefOp (option (ContinuityRecord * Z * Z)) :=
  gets (λ s, (λ stored, (stored_record stored, stored_fence stored, checkpoint_version (stored_record stored))) <$>
    find_first (λ stored, session_id (stored_record stored) =b sid) (btree_values (ref_records s))).

Definition resolve_state (s : ContinuityInner) (identity : string) : ContinuityResolveState :=
  match ref_records s !! identity with
  | None => Uninitialized
  | Some stored => Ready (stored_record stored)
  end.

Definition ref_resolve_many (identities : list string) : RefOp (gmap string ContinuityResolveState) :=
  gets (λ s, foldl (λ m identity, <[identity := resolve_state s identity]> m) ∅ identities).

Definition ref_load_session_snapshot (sid : string) : RefOp (option string) :=
  gets (λ s, snapshot_data <$> ref_snapshots s !! sid).

Definition ref_delete_snapshot (sid expected : string) : RefOp bool :=
  found ← gets (λ s, ref_snapshots s !! sid);
  match found with
  | None => mret false
  | Some snapshot =>
      session ← lift_result (map_err (λ e, StoreIo ("deserialize snapshot: " +:+ e))
                               (decode_session (snapshot_data snapshot)));
      current ← lift_result (map_err (λ e, StoreIo ("cas token: " +:+ e)) (projection_cas_token session));
      if current =b expected then
        _ ← modify (set_snapshots (delete sid)); mret true
      else mret false
  end.

(** The fence and version checks of a save against the identity's record. *)
Definition check_cursor (stored : StoredRecord) (identity sid : string) (gen version token : Z)
    : Result unit ContinuityStoreError :=
  if negb (session_id (stored_record stored) =b sid) || negb (generation (stored_record stored) =b gen)
  then Err (RecordNotFound identity)
  else if token <? stored_fence stored
  then Err (StaleFencingToken identity token (stored_fence stored))
  else if version <=? checkpoint_version (stored_record stored)
  then Err (StaleCheckpointVersion identity version (checkpoint_version (stored_record stored)))
  else Ok tt.

Definition ref_save_session_snapshot (identity sid : string) (gen version token : Z) (data : string) : RefOp unit :=
  found ← gets (λ s, ref_records s !! identity);
  _ ← match found with
      | Some stored => lift_result (check_cursor stored identity sid gen version token)
      | None => mret tt
      end;
  existing ← gets (λ s, ref_snapshots s !! sid);
  _ ← match existing with
      | Some x => throw_if (negb (snapshot_identity x =b identity) || negb (snapshot_generation x =b gen))
                    (Corruption ("snapshot " +:+ sid +:+ " already owned by " +:+ snapshot_identity x +:+
                                 "/generation " +:+ fmt_dec (snapshot_generation x)))
      | None => mret tt
      end;
  _ ← modify (set_snapshots (insert sid (mkSnapshot identity gen data)));
  modify (set_records (alter (λ stored, mkStored (with_checkpoint_version (stored_record stored) version) token) identity)).

(** A rebind in the same generation keeps the larger checkpoint version. *)
Definition merged_record (old : ContinuityRecord) (record : ContinuityRecord) : ContinuityRecord :=
  if generation record =b generation old
  then with_checkpoint_version record (Z.max (checkpoint_version old) (checkpoint_version record))
  else record.

Definition ref_upsert_continuity_record (record : ContinuityRecord) (token : Z) : RefOp unit :=
  let key := record_identity record in
  found ← gets (λ s, ref_records s !! key);
  match found with
  | Some stored =>
      _ ← throw_if (token <? stored_fence stored) (StaleFencingToken key token (stored_fence stored));
      _ ← throw_if (generation record <? generation (stored_record stored))
            (StaleContinuityGeneration key (generation record) (generation (stored_record stored)));
      modify (set_records (insert key (mkStored (merged_record (stored_record stored) record) token)))
  | None => modify (set_records (insert key (mkStored record token)))
  end.

Definition ref_delete_continuity_record (identity : string) (token : Z) : RefOp unit :=
  found ← gets (λ s, ref_records s !! identity);
  _ ← match found with
      | Some stored => throw_if (token <? stored_fence stored) (StaleFencingToken identity token (stored_fence stored))
      | None => mret tt
      end;
  _ ← modify (set_records (delete identity));
  modify (set_snapshots (filter (λ kv, snapshot_identity kv.2 ≠ identity))).

Definition CompatRollbackContinuityStore : ContinuityStore ContinuityInner :=
  mkContinuityStore ref_resolve_many ref_resolve_record_by_session
    (default_session_owner ref_resolve_record_by_session)
    ref_load_session_snapshot default_session_snapshot_matches_current
    ref_delete_snapshot ref_save_session_snapshot ref_upsert_continuity_record
    (default_rollback_continuity_record ref_resolve_many ref_delete_continuity_record ref_upsert_continuity_record)
    ref_delete_continuity_record.
End reference.
