(* ===== verification/ContinuityTables.v ===== *)
(** * Identity continuity: the tables of the local store
      ([identity_first/local_store.rs], lines 473-2443)

    The SQLite tables of [LocalContinuityStore] as finite maps on their primary
    keys, in the worlds of [SqlWorld], and the functions that work on them inside
    one transaction.  A session is stored as a whole document
    ([session_snapshots]) or, once it has a head row, as a head plus immutable
    transcript rows ([continuity_session_heads], [continuity_strand_messages],
    [continuity_session_rewrites]).  The handle caches two facts about the file
    ([Latches]).

    Sessions, messages, heads and their validators belong to [meerkat_core]:
    [SessionCore] has one field for each function the store calls, and the types
    are parameters. *)

From S2P Require Import Prelude Strings SqlWorld ContinuityTypes.
Open Scope Z_scope.

(** ** Failing statements *)

Inductive SqliteErrorClass := ClassTransient | ClassCorrupt | ClassOther.
#[global] Instance SqliteErrorClass_eq_dec : EqDecision SqliteErrorClass.
Proof. solve_decision. Defined.

Record SqlFault := mkFault { fault_class : SqliteErrorClass; fault_read_only : bool; fault_text : string }.

Definition sqlite_err (context : string) (f : SqlFault) : ContinuityStoreError :=
  let text := context +:+ ": " +:+ fault_text f in
  match fault_class f with
  | ClassTransient => Transient text
  | ClassCorrupt => Corruption text
  | ClassOther => StoreIo text
  end.

(** The session-store errors the transaction functions produce or pass on. *)
Inductive SessionStoreError :=
| Internal (text : string)
| Corrupted (session : string)
| Serialization (text : string)
| SessionNotFound (session : string)
| InvalidTranscriptRewrite (session reason : string)
| TranscriptRevisionConflict (session expected actual : string)
| TranscriptContinuityViolation (session previous incoming reason : string)
| CoreError (text : string).
#[global] Instance SessionStoreError_eq_dec : EqDecision SessionStoreError.
Proof. solve_decision. Defined.

Definition session_err (context : string) (e : ContinuityStoreError) : SessionStoreError :=
  Internal (context +:+ ": " +:+ continuity_error_text e).

Definition I64_MAX : Z := 2 ^ 63 - 1.
Definition fits_i64 (n : Z) : bool := n <=? I64_MAX.

(** ** The sessions of [meerkat_core] *)

Inductive SessionHeadCas := CasCreate | CasIfToken (token : string).

(** What the store reads of a strand layout: an anchor, then per rewrite the
    change of the parent, its suffix and the splice that makes the successor. *)
Inductive ParentTransition :=
| ExactAppend
| ExactSplice (splice_start splice_end : Z) (serialized_replacement : list string).

Record LayoutRewrite (Commit : Type) := mkLayoutRewrite {
  parent_transition : ParentTransition;
  layout_parent_strand : string;
  parent_base_seq : Z;
  serialized_parent_suffix : list string;
  layout_replacement : list string;
  layout_splice_start : Z;
  successor_end : Z;
  layout_strand_len : Z;
  layout_commit : Commit;
  layout_strand : string;
}.
Arguments parent_transition {Commit} _.
Arguments layout_parent_strand {Commit} _.
Arguments parent_base_seq {Commit} _.
Arguments serialized_parent_suffix {Commit} _.
Arguments layout_replacement {Commit} _.
Arguments layout_splice_start {Commit} _.
Arguments successor_end {Commit} _.
Arguments layout_strand_len {Commit} _.
Arguments layout_commit {Commit} _.
Arguments layout_strand {Commit} _.

Record StrandLayout (Commit : Type) := mkStrandLayout {
  anchor_strand : string;
  serialized_anchor : list string;
  layout_rewrites : list (LayoutRewrite Commit);
  layout_head_strand : string;
  serialized_tail : list string;
  head_len : Z;
}.
Arguments anchor_strand {Commit} _.
Arguments serialized_anchor {Commit} _.
Arguments layout_rewrites {Commit} _.
Arguments layout_head_strand {Commit} _.
Arguments serialized_tail {Commit} _.
Arguments head_len {Commit} _.

Record SessionCore (Session Message Head Commit Rewrite RowPrefix RewritePrefix : Type) := mkCore {
  session_key : Session → string;
  session_messages : Session → list Message;
  decode_session : string → Result Session string;
  encode_session : Session → Result string string;
  to_persisted_bytes : Session → Result string string;
  session_projection_cas_token : Session → Result string string;
  decode_message : string → Result Message string;
  encode_message : Message → Result string SessionStoreError;
  decode_head : string → option Head;
  encode_head : Head → Result string SessionStoreError;
  head_key : Head → string;
  head_strand : Head → string;
  head_message_count : Head → Z;
  head_rewrite_count : Head → Z;
  head_revision : Head → string;
  head_envelope_version : Head → Z;
  session_head_cas_token : Head → Result string SessionStoreError;
  into_session : Head → list Message → Result Session SessionStoreError;
  from_session : Session → string → Z → Result Head SessionStoreError;
  message_row_prefix : Head → option RowPrefix;
  rewrite_prefix : Head → RewritePrefix;
  extend_serialized_rows : RowPrefix → list string → Result RowPrefix SessionStoreError;
  from_session_proved : Session → string → RewritePrefix → RowPrefix → Result Head SessionStoreError;
  without_row_authority : Head → Head;
  transcript_messages_digest : list Message → Result string SessionStoreError;
  rebase_strand : string → string;
  strand_layout_for_session : Session → Result (StrandLayout Commit) SessionStoreError;
  rewrite_commit : Rewrite → Commit;
  rewrite_messages : Rewrite → list Message;
  commit_parent_revision : Commit → string;
  commit_messages_before : Commit → Z;
  commit_messages_after : Commit → Z;
  encode_commit : Commit → Result string SessionStoreError;
  decode_commit : string → option Commit;
  reconstruct_rewrite_record :
    string → Commit → list Message → list Message → Result Rewrite SessionStoreError;
  validate_save_head_transition :
    Head → option (Head * string) → SessionHeadCas → Z → Z → Result unit SessionStoreError;
  validate_commit_rewrite_transition :
    string → Rewrite → Head → string → SessionHeadCas → string → Result Head SessionStoreError;
  append_only_save_guard : Session → Session → Result unit SessionStoreError;
  import_released_0810_session : string → Result (Session * (string * string)) string;
  released_0810_rows_digest : list string → Result string string;
  raw_value : string → option string;
  released_envelope : Head → string → list string → Result string string;
  sha256 : string → string;
  session_error_text : SessionStoreError → string;
}.
Arguments session_key {_ _ _ _ _ _ _} _ _.
Arguments session_messages {_ _ _ _ _ _ _} _ _.
Arguments decode_session {_ _ _ _ _ _ _} _ _.
Arguments encode_session {_ _ _ _ _ _ _} _ _.
Arguments to_persisted_bytes {_ _ _ _ _ _ _} _ _.
Arguments session_projection_cas_token {_ _ _ _ _ _ _} _ _.
Arguments decode_message {_ _ _ _ _ _ _} _ _.
Arguments encode_message {_ _ _ _ _ _ _} _ _.
Arguments decode_head {_ _ _ _ _ _ _} _ _.
Arguments encode_head {_ _ _ _ _ _ _} _ _.
Arguments head_key {_ _ _ _ _ _ _} _ _.
Arguments head_strand {_ _ _ _ _ _ _} _ _.
Arguments head_message_count {_ _ _ _ _ _ _} _ _.
Arguments head_rewrite_count {_ _ _ _ _ _ _} _ _.
Arguments head_revision {_ _ _ _ _ _ _} _ _.
Arguments head_envelope_version {_ _ _ _ _ _ _} _ _.
Arguments session_head_cas_token {_ _ _ _ _ _ _} _ _.
Arguments into_session {_ _ _ _ _ _ _} _ _ _.
Arguments from_session {_ _ _ _ _ _ _} _ _ _ _.
Arguments message_row_prefix {_ _ _ _ _ _ _} _ _.
Arguments rewrite_prefix {_ _ _ _ _ _ _} _ _.
Arguments extend_serialized_rows {_ _ _ _ _ _ _} _ _ _.
Arguments from_session_proved {_ _ _ _ _ _ _} _ _ _ _ _.
Arguments without_row_authority {_ _ _ _ _ _ _} _ _.
Arguments transcript_messages_digest {_ _ _ _ _ _ _} _ _.
Arguments rebase_strand {_ _ _ _ _ _ _} _ _.
Arguments strand_layout_for_session {_ _ _ _ _ _ _} _ _.
Arguments rewrite_commit {_ _ _ _ _ _ _} _ _.
Arguments rewrite_messages {_ _ _ _ _ _ _} _ _.
Arguments commit_parent_revision {_ _ _ _ _ _ _} _ _.
Arguments commit_messages_before {_ _ _ _ _ _ _} _ _.
Arguments commit_messages_after {_ _ _ _ _ _ _} _ _.
Arguments encode_commit {_ _ _ _ _ _ _} _ _.
Arguments decode_commit {_ _ _ _ _ _ _} _ _.
Arguments reconstruct_rewrite_record {_ _ _ _ _ _ _} _ _ _ _ _.
Arguments validate_save_head_transition {_ _ _ _ _ _ _} _ _ _ _ _ _.
Arguments validate_commit_rewrite_transition {_ _ _ _ _ _ _} _ _ _ _ _ _ _.
Arguments append_only_save_guard {_ _ _ _ _ _ _} _ _ _.
Arguments import_released_0810_session {_ _ _ _ _ _ _} _ _.
Arguments released_0810_rows_digest {_ _ _ _ _ _ _} _ _.
Arguments raw_value {_ _ _ _ _ _ _} _ _.
Arguments released_envelope {_ _ _ _ _ _ _} _ _ _ _.
Arguments sha256 {_ _ _ _ _ _ _} _ _.
Arguments session_error_text {_ _ _ _ _ _ _} _ _.

(** ** Tables *)

Record RecordRow := mkRecordRow {
  rec_runtime : string;
  rec_session : string;
  rec_generation : Z;
  rec_version : Z;
  rec_token : Z;
}.
Record SnapshotRow := mkSnapshotRow {
  snap_identity : string;
  snap_generation : Z;
  snap_version : Z;
  snap_token : Z;
  snap_data : string;
}.
Record HeadRow := mkHeadRow {
  hd_identity : string;
  hd_generation : Z;
  hd_version : Z;
  hd_token : Z;
  hd_revision : string;
  hd_message_count : Z;
  hd_rewrite_count : Z;
  hd_json : string;
  hd_cas_token : string;
}.
Record StrandRow := mkStrandRow {
  str_json : string;
  str_identity : string;
  str_generation : Z;
  str_created_at : Z;
}.
Record RewriteDbRow := mkRewriteDbRow {
  rw_parent_strand : string;
  rw_parent_len : Z;
  rw_strand : string;
  rw_strand_len : Z;
  rw_commit_json : string;
  rw_identity : string;
  rw_generation : Z;
  rw_created_at : Z;
}.

(** [head_tables] tells whether the head-canonical tables exist, [ledger] the
    version of the file's migration ledger. *)
Record Db := mkDb {
  continuity_records : gmap string RecordRow;
  session_snapshots : gmap string SnapshotRow;
  head_tables : bool;
  ledger : option Z;
  continuity_session_heads : gmap string HeadRow;
  continuity_strand_messages : gmap (string * string * Z) StrandRow;
  continuity_session_rewrites : gmap (string * Z) RewriteDbRow;
  continuity_identity_history : gmap string string;
  continuity_identity_coverage : gmap string Z;
}.

Definition with_records (f : gmap string RecordRow → gmap string RecordRow) (d : Db) : Db :=
  mkDb (f (continuity_records d)) (session_snapshots d) (head_tables d) (ledger d) (continuity_session_heads d)
    (continuity_strand_messages d) (continuity_session_rewrites d) (continuity_identity_history d)
    (continuity_identity_coverage d).
Definition with_snapshots (f : gmap string SnapshotRow → gmap string SnapshotRow) (d : Db) : Db :=
  mkDb (continuity_records d) (f (session_snapshots d)) (head_tables d) (ledger d) (continuity_session_heads d)
    (continuity_strand_messages d) (continuity_session_rewrites d) (continuity_identity_history d)
    (continuity_identity_coverage d).
Definition with_schema (tables : bool) (version : option Z) (d : Db) : Db :=
  mkDb (continuity_records d) (session_snapshots d) tables version (continuity_session_heads d)
    (continuity_strand_messages d) (continuity_session_rewrites d) (continuity_identity_history d)
    (continuity_identity_coverage d).
Definition with_heads (f : gmap string HeadRow → gmap string HeadRow) (d : Db) : Db :=
  mkDb (continuity_records d) (session_snapshots d) (head_tables d) (ledger d) (f (continuity_session_heads d))
    (continuity_strand_messages d) (continuity_session_rewrites d) (continuity_identity_history d)
    (continuity_identity_coverage d).
Definition with_strands (f : gmap (string * string * Z) StrandRow → gmap (string * string * Z) StrandRow)
    (d : Db) : Db :=
  mkDb (continuity_records d) (session_snapshots d) (head_tables d) (ledger d) (continuity_session_heads d)
    (f (continuity_strand_messages d)) (continuity_session_rewrites d) (continuity_identity_history d)
    (continuity_identity_coverage d).
Definition with_rewrites (f : gmap (string * Z) RewriteDbRow → gmap (string * Z) RewriteDbRow) (d : Db) : Db :=
  mkDb (continuity_records d) (session_snapshots d) (head_tables d) (ledger d) (continuity_session_heads d)
    (continuity_strand_messages d) (f (continuity_session_rewrites d)) (continuity_identity_history d)
    (continuity_identity_coverage d).
Definition with_history (f : gmap string string → gmap string string) (d : Db) : Db :=
  mkDb (continuity_records d) (session_snapshots d) (head_tables d) (ledger d) (continuity_session_heads d)
    (continuity_strand_messages d) (continuity_session_rewrites d) (f (continuity_identity_history d))
    (continuity_identity_coverage d).
Definition with_coverage (f : gmap string Z → gmap string Z) (d : Db) : Db :=
  mkDb (continuity_records d) (session_snapshots d) (head_tables d) (ledger d) (continuity_session_heads d)
    (continuity_strand_messages d) (continuity_session_rewrites d) (continuity_identity_history d)
    (f (continuity_identity_coverage d)).

(** What the handle caches: the tables are queryable; the ledger carries the
    head-canonical version. *)
Record Latches := mkLatches { head_canonical_schema : bool; head_canonical_ledger : bool }.

Notation CWorld := (World Db Latches).
Notation COp := (M CWorld ContinuityStoreError).
Notation SOp := (M CWorld SessionStoreError).

Record ContinuityEnv := mkContinuityEnv {
  sql_fault : nat → option SqlFault;
  enter_fault : nat → option ContinuityStoreError;
  now_millis : nat → Z;
  no_such_table : string;
  unique_violation : string;
  conversion_failure : string;
  history_conflict : string;
  debug_text : string → string;
  parse_session_id : string → Result string string;
  row_order : list (string * RecordRow) → list (string * RecordRow);
  panic_text : string;
}.

Definition HEAD_CANONICAL_SCHEMA_VERSION : Z := 2.
Definition IDENTITY_HISTORY_SCHEMA_VERSION : Z := 3.
Definition SUPPORTED_SCHEMA_VERSION : Z := 3.
Definition RELEASED_0810_SESSION_ENVELOPE_VERSION : Z := 2.

(** The full rows of the strands of a document, its rewrites and its head strand. *)
Record RewriteRow (Commit : Type) := mkRewriteRow {
  row_commit : Commit;
  row_parent_strand : string;
  row_parent_len : Z;
  row_strand : string;
  row_strand_len : Z;
}.
Arguments mkRewriteRow {Commit} _ _ _ _ _.
Arguments row_commit {Commit} _.
Arguments row_parent_strand {Commit} _.
Arguments row_parent_len {Commit} _.
Arguments row_strand {Commit} _.
Arguments row_strand_len {Commit} _.

Record MaterializedBlobLayout (Message Commit : Type) := mkMaterialized {
  strands : list (string * list Message);
  rewrites : list (RewriteRow Commit);
  materialized_head_strand : string;
}.
Arguments mkMaterialized {Message Commit} _ _ _.
Arguments strands {Message Commit} _.
Arguments rewrites {Message Commit} _.
Arguments materialized_head_strand {Message Commit} _.

Section tables.
Context (env : ContinuityEnv).
Context {Session Message Head Commit Rewrite RowPrefix RewritePrefix : Type}.
Context (core : SessionCore Session Message Head Commit Rewrite RowPrefix RewritePrefix).

(** ** Statements *)

Definition sql (context : string) : COp unit := statement (λ n, sqlite_err context <$> sql_fault env n).
Definition sql_session (context : string) : SOp unit := with_err (session_err context) (sql context).

Definition table {E A} (f : Db → A) : M CWorld E A := gets (λ w, f (working w)).
Definition update {E} (f : Db → Db) : M CWorld E unit := modify (λ w, with_working (f (working w)) w).

Definition other_fault (text : string) : SqlFault := mkFault ClassOther false text.

(** A statement on one of the head-canonical tables. *)
Definition head_sql (context : string) : COp unit :=
  _ ← sql context;
  present ← table head_tables;
  throw_if (negb present) (sqlite_err context (other_fault (no_such_table env))).
Definition head_sql_session (context : string) : SOp unit := with_err (session_err context) (head_sql context).

(** [u64] parameters must fit SQLite's signed integers. *)
Definition bind_u64 (context : string) (values : list Z) : COp unit :=
  throw_if (negb (forallb fits_i64 values)) (sqlite_err context (other_fault (conversion_failure env))).

(** [i64::try_from(n).map_err(|_| Corrupted(id))] *)
Definition as_i64 (id : string) (n : Z) : SOp unit := throw_if (negb (fits_i64 n)) (Corrupted id).

(** The triggers of the identity history: once the history is enabled, a row that
    binds a session records its identity, and aborts the statement when the
    session is bound to another one. *)
Definition history_enabled (d : Db) : bool :=
  is_some_and (ledger d) (λ v, IDENTITY_HISTORY_SCHEMA_VERSION <=? v).

Definition bind_history (context sid identity : string) : COp unit :=
  d ← table id;
  if history_enabled d then
    match continuity_identity_history d !! sid with
    | Some other => throw_if (negb (other =b identity)) (sqlite_err context (other_fault (history_conflict env)))
    | None => update (with_history (insert sid identity))
    end
  else mret tt.

(** ** The ledger *)

Definition refuse_future_continuity_schema : COp unit :=
  _ ← sql "continuity schema preflight";
  version ← table ledger;
  throw_if (is_some_and version (λ v, SUPPORTED_SCHEMA_VERSION <? v))
    (StoreIo "continuity schema preflight: schema from the future").

Definition converge_head_canonical_schema_in_txn : COp unit :=
  _ ← refuse_future_continuity_schema;
  _ ← sql "read continuity ledger";
  version ← table ledger;
  match version with
  | None => throw (Corruption ("continuity ledger has no meta-continuity row; the file's migration ledger was " +:+
                               "removed after it was opened"))
  | Some current =>
      if current <? HEAD_CANONICAL_SCHEMA_VERSION then
        _ ← sql "apply head-canonical schema";
        update (λ d, with_schema true (ledger d) d)
      else mret tt
  end.

Definition head_canonical_ledger_stamped_in_txn : COp bool :=
  _ ← sql "read continuity ledger";
  version ← table ledger;
  mret (is_some_and version (λ v, HEAD_CANONICAL_SCHEMA_VERSION <=? v)).

Definition session_head_exists_in_txn (sid : string) : COp bool :=
  _ ← head_sql "probe session head row";
  table (λ d, is_some (continuity_session_heads d !! sid)).

Definition stamp_head_canonical_ledger_in_txn : COp unit :=
  _ ← sql "stamp head-canonical ledger";
  update (λ d, with_schema (head_tables d)
    (Some (match ledger d with
           | Some v => Z.max v HEAD_CANONICAL_SCHEMA_VERSION
           | None => HEAD_CANONICAL_SCHEMA_VERSION
           end)) d).

(** The probe is cached: the latch is set once the tables are seen. *)
Definition head_tables_available : COp bool :=
  latch ← gets (λ w, head_canonical_schema (volatile w));
  if latch : bool then mret true
  else
    _ ← sql "probe head-canonical tables";
    present ← table head_tables;
    _ ← modify (λ w, if present : bool
                     then mkWorld (committed w) (working w)
                            (mkLatches true (head_canonical_ledger (volatile w))) (observed w)
                     else w);
    mret present.

(** ** Heads *)

Definition head_row_in_txn (sid : string) : SOp (option (Head * string)) :=
  _ ← head_sql_session "query session head";
  row ← table (λ d, continuity_session_heads d !! sid);
  match row with
  | None => mret None
  | Some row =>
      head ← lift_result (ok_or (decode_head core (hd_json row)) (Corrupted sid));
      mret (Some (head, hd_cas_token row))
  end.

Definition head_owner_in_txn (sid : string) : COp (option (string * Z)) :=
  _ ← head_sql "query head owner";
  table (λ d, (λ row, (hd_identity row, hd_generation row)) <$> continuity_session_heads d !! sid).

Definition write_head_row_in_txn (head : Head) (identity : string) (gen version token : Z) : SOp string :=
  json ← lift_result (encode_head core head);
  cas ← lift_result (session_head_cas_token core head);
  _ ← as_i64 (head_key core head) (head_message_count core head);
  _ ← as_i64 (head_key core head) (head_rewrite_count core head);
  _ ← with_err (session_err "upsert session head") (bind_u64 "upsert session head" [gen; version; token]);
  _ ← head_sql_session "upsert session head";
  _ ← update (with_heads (insert (head_key core head)
        (mkHeadRow identity gen version token (head_revision core head) (head_message_count core head)
           (head_rewrite_count core head) json cas)));
  _ ← with_err (session_err "upsert session head") (bind_history "upsert session head" (head_key core head) identity);
  mret cas.

(** ** Strand rows *)

Definition strand_rows (d : Db) (sid strand : string) : gmap (string * string * Z) StrandRow :=
  filter (λ kv, kv.1.1.1 = sid ∧ kv.1.1.2 = strand) (continuity_strand_messages d).

Definition strand_row_count_in_txn (sid strand : string) : SOp Z :=
  _ ← head_sql_session "count strand rows";
  table (λ d, Z.of_nat (size (strand_rows d sid strand))).

Definition row_bytes (d : Db) (sid strand : string) (start stop : Z) : list string :=
  omap (λ i, str_json <$> continuity_strand_messages d !! (sid, strand, i)) (seqZ start (stop - start)).

Definition strand_row_bytes_in_txn (sid strand : string) (start stop : Z) : SOp (list string) :=
  if stop <=? start then mret []
  else
    _ ← as_i64 sid start;
    _ ← as_i64 sid stop;
    _ ← head_sql_session "prepare strand read";
    _ ← head_sql_session "read strand rows";
    rows ← table (λ d, row_bytes d sid strand start stop);
    _ ← throw_if (negb (Z.of_nat (length rows) =? stop - start)) (Corrupted sid);
    mret rows.

Fixpoint decode_messages (sid : string) (rows : list string) : Result (list Message) SessionStoreError :=
  match rows with
  | [] => Ok []
  | bytes :: rest =>
      message ←? map_err (λ _, Corrupted sid) (decode_message core bytes);
      messages ←? decode_messages sid rest;
      Ok (message :: messages)
  end.

Definition strand_messages_in_txn (sid strand : string) (start stop : Z) : SOp (list Message) :=
  rows ← strand_row_bytes_in_txn sid strand start stop;
  lift_result (decode_messages sid rows).

Fixpoint encode_messages (messages : list Message) : Result (list string) SessionStoreError :=
  match messages with
  | [] => Ok []
  | m :: rest => bytes ←? encode_message core m; more ←? encode_messages rest; Ok (bytes :: more)
  end.

(** Rows that exist must be repeated byte for byte. *)
Fixpoint check_overlap (sid strand : string) (seq : Z) (stored serialized : list string)
    : Result unit SessionStoreError :=
  match stored, serialized with
  | old :: stored', new :: serialized' =>
      if old =b new then check_overlap sid strand (seq + 1) stored' serialized'
      else Err (TranscriptContinuityViolation sid
                  ("strand:" +:+ strand +:+ " seq:" +:+ fmt_dec seq) "divergent-bytes"
                  ("append would overwrite immutable row (strand " +:+ strand +:+ ", seq " +:+ fmt_dec seq +:+
                   ") with different bytes"))
  | _, _ => Ok tt
  end.

(** The insert loop: rows below [existing] are skipped. *)
Fixpoint insert_rows (sid strand identity : string) (gen created existing seq : Z) (serialized : list string)
    : SOp unit :=
  match serialized with
  | [] => mret tt
  | bytes :: rest =>
      _ ← (if seq <? existing then mret tt
           else
             _ ← as_i64 sid seq;
             _ ← with_err (session_err "insert strand row") (bind_u64 "insert strand row" [gen]);
             _ ← head_sql_session "insert strand row";
             present ← table (λ d, is_some (continuity_strand_messages d !! (sid, strand, seq)));
             _ ← throw_if present (session_err "insert strand row"
                                     (sqlite_err "insert strand row" (other_fault (unique_violation env))));
             update (with_strands (insert (sid, strand, seq) (mkStrandRow bytes identity gen created))));
      insert_rows sid strand identity gen created existing (seq + 1) rest
  end.

Definition insert_strand_rows_in_txn (sid strand : string) (base_seq : Z) (messages : list Message)
    (identity : string) (gen : Z) : SOp unit :=
  existing ← strand_row_count_in_txn sid strand;
  _ ← throw_if (existing <? base_seq)
        (TranscriptContinuityViolation sid ("strand-rows:" +:+ fmt_dec existing)
           ("append-base-seq:" +:+ fmt_dec base_seq)
           ("append at base_seq " +:+ fmt_dec base_seq +:+ " would leave a gap in strand " +:+ strand +:+ " with " +:+
            fmt_dec existing +:+ " rows"));
  serialized ← lift_result (encode_messages messages);
  let overlap_end := Z.min existing (base_seq + Z.of_nat (length serialized)) in
  _ ← (if base_seq <? overlap_end then
         stored ← strand_row_bytes_in_txn sid strand base_seq overlap_end;
         lift_result (check_overlap sid strand base_seq stored serialized)
       else mret tt);
  created ← observe (now_millis env);
  insert_rows sid strand identity gen created existing base_seq serialized.

(** ** Rewrite rows *)

Definition rewrite_row_count_in_txn (sid : string) : SOp Z :=
  _ ← head_sql_session "count rewrite rows";
  table (λ d, Z.of_nat (size (filter (λ kv : (string * Z) * RewriteDbRow, kv.1.1 = sid) (continuity_session_rewrites d)))).

(** [WHERE rewrite_idx < n ORDER BY rewrite_idx]: indices are not negative. *)
Definition rewrite_db_rows (d : Db) (sid : string) (n : Z) : list RewriteDbRow :=
  omap (λ i, continuity_session_rewrites d !! (sid, i)) (seqZ 0 n).

Fixpoint decode_rewrites (sid : string) (rows : list RewriteDbRow)
    : Result (list (RewriteRow Commit)) SessionStoreError :=
  match rows with
  | [] => Ok []
  | r :: rest =>
      commit ←? ok_or (decode_commit core (rw_commit_json r)) (Corrupted sid);
      more ←? decode_rewrites sid rest;
      Ok (mkRewriteRow commit (rw_parent_strand r) (rw_parent_len r) (rw_strand r) (rw_strand_len r) :: more)
  end.

Definition rewrite_rows_in_txn (sid : string) (n : Z) : SOp (list (RewriteRow Commit)) :=
  _ ← as_i64 sid n;
  _ ← head_sql_session "prepare rewrite read";
  _ ← head_sql_session "read rewrite rows";
  rows ← table (λ d, rewrite_db_rows d sid n);
  lift_result (decode_rewrites sid rows).

Fixpoint rewrite_records (sid : string) (rows : list (RewriteRow Commit)) : SOp (list Rewrite) :=
  match rows with
  | [] => mret []
  | row :: rest =>
      parent ← strand_messages_in_txn sid (row_parent_strand row) 0 (row_parent_len row);
      revision ← strand_messages_in_txn sid (row_strand row) 0 (row_strand_len row);
      record ← lift_result (reconstruct_rewrite_record core sid (row_commit row) parent revision);
      more ← rewrite_records sid rest;
      mret (record :: more)
  end.

Definition rewrite_records_in_txn (sid : string) (n : Z) : SOp (list Rewrite) :=
  rows ← rewrite_rows_in_txn sid n;
  rewrite_records sid rows.

(** [INSERT OR REPLACE] *)
Definition insert_rewrite_row_in_txn (sid : string) (idx : Z) (row : RewriteRow Commit) (identity : string) (gen : Z)
    : SOp unit :=
  json ← lift_result (encode_commit core (row_commit row));
  _ ← as_i64 sid idx;
  _ ← as_i64 sid (row_parent_len row);
  _ ← as_i64 sid (row_strand_len row);
  created ← observe (now_millis env);
  _ ← with_err (session_err "insert rewrite row") (bind_u64 "insert rewrite row" [gen]);
  _ ← head_sql_session "insert rewrite row";
  update (with_rewrites (insert (sid, idx)
    (mkRewriteDbRow (row_parent_strand row) (row_parent_len row) (row_strand row) (row_strand_len row) json
       identity gen created))).

(** ** Documents stored as a whole *)

(** One-time import of a document the current decoder refuses: the importer's
    receipt must name the bytes and the session, and the current bytes replace
    the stored ones unless the connection is read-only. *)
Definition import_released_blob_in_txn (sid source decode_error : string) : SOp Session :=
  imported ← lift_result (map_err (λ e, Serialization
      ("continuity blob " +:+ sid +:+ " decodes neither as a current document (" +:+ decode_error +:+
       ") nor as              a released 0.8.10 envelope (" +:+ e +:+ ")"))
    (import_released_0810_session core source));
  let '(session, (source_sha, source_id)) := imported in
  _ ← throw_if (negb (source_sha =b sha256 core source))
        (Serialization ("continuity blob " +:+ sid +:+ " changed during exact released-0.8.10 import"));
  _ ← throw_if (negb (source_id =b sid))
        (Serialization ("continuity blob key " +:+ sid +:+ " contains released session " +:+ source_id));
  current ← lift_result (map_err Serialization (to_persisted_bytes core session));
  fault ← observe (sql_fault env);
  match fault with
  | Some f =>
      if fault_read_only f then mret session
      else throw (session_err "adopt imported released snapshot" (sqlite_err "adopt imported released snapshot" f))
  | None =>
      present ← table (λ d, is_some (session_snapshots d !! sid));
      _ ← update (with_snapshots (alter (λ row, mkSnapshotRow (snap_identity row) (snap_generation row)
                    (snap_version row) (snap_token row) current) sid));
      _ ← throw_if (negb present) (Corrupted sid);
      mret session
  end.

Definition blob_session_in_txn (sid : string) : SOp (option Session) :=
  _ ← sql_session "read archived snapshot";
  data ← table (λ d, snap_data <$> session_snapshots d !! sid);
  match data with
  | None => mret None
  | Some data =>
      match decode_session core data with
      | Ok session => mret (Some session)
      | Err e => session ← import_released_blob_in_txn sid data e; mret (Some session)
      end
  end.

(** ** Layout of a document as rows *)

Fixpoint decode_rows (sid : string) (rows : list string) : Result (list Message) SessionStoreError :=
  match rows with
  | [] => Ok []
  | bytes :: rest =>
      message ←? map_err (λ e, InvalidTranscriptRewrite sid ("layout strand row does not decode: " +:+ e))
                   (decode_message core bytes);
      messages ←? decode_rows sid rest;
      Ok (message :: messages)
  end.

Definition splice_rows (sid : string) (source : list Message) (start stop : Z) (replacement : list Message)
    : Result (list Message) SessionStoreError :=
  if (stop <? start) || (Z.of_nat (length source) <? stop) then Err (Corrupted sid)
  else Ok (take (Z.to_nat start) source ++ replacement ++ drop (Z.to_nat stop) source).

(** Replace the rows of a strand, or add the strand at the end. *)
Fixpoint upsert_strand (strands : list (string * list Message)) (strand : string) (rows : list Message)
    : list (string * list Message) :=
  match strands with
  | [] => [(strand, rows)]
  | (s, old) :: rest => if s =b strand then (s, rows) :: rest else (s, old) :: upsert_strand rest strand rows
  end.

(** The walk over the rewrites: the rows and strand reached so far, the strands
    and rewrite rows collected. *)
Record LayoutWalk := mkWalk {
  walk_current : list Message;
  walk_strand : string;
  walk_strands : list (string * list Message);
  walk_rewrites : list (RewriteRow Commit);
}.

Definition walk_rewrite (sid : string) (w : LayoutWalk) (r : LayoutRewrite Commit)
    : Result LayoutWalk SessionStoreError :=
  parent ←? match parent_transition r with
            | ExactAppend =>
                if layout_parent_strand r =b walk_strand w then Ok (walk_current w, walk_strand w)
                else Err (Corrupted sid)
            | ExactSplice start stop replacement =>
                replacement ←? decode_rows sid replacement;
                rows ←? splice_rows sid (walk_current w) start stop replacement;
                Ok (rows, layout_parent_strand r)
            end;
  let '(current, strand) := parent in
  if negb (Z.of_nat (length current) =? parent_base_seq r) then Err (Corrupted sid)
  else
    suffix ←? decode_rows sid (serialized_parent_suffix r);
    let parent_rows := current ++ suffix in
    let collected := upsert_strand (walk_strands w) strand parent_rows in
    replacement ←? decode_rows sid (layout_replacement r);
    rows ←? splice_rows sid parent_rows (layout_splice_start r) (successor_end r) replacement;
    if negb (Z.of_nat (length rows) =? layout_strand_len r) then Err (Corrupted sid)
    else Ok (mkWalk rows (layout_strand r) (upsert_strand collected (layout_strand r) rows)
               (walk_rewrites w ++ [mkRewriteRow (layout_commit r) (layout_parent_strand r)
                  (Z.of_nat (length parent_rows)) (layout_strand r) (layout_strand_len r)])).

Fixpoint walk_rewrites_of (sid : string) (w : LayoutWalk) (rs : list (LayoutRewrite Commit))
    : Result LayoutWalk SessionStoreError :=
  match rs with
  | [] => Ok w
  | r :: rest => w' ←? walk_rewrite sid w r; walk_rewrites_of sid w' rest
  end.

Definition from_layout (sid : string) (layout : StrandLayout Commit)
    : Result (MaterializedBlobLayout Message Commit) SessionStoreError :=
  anchor ←? decode_rows sid (serialized_anchor layout);
  w ←? walk_rewrites_of sid (mkWalk anchor (anchor_strand layout) (upsert_strand [] (anchor_strand layout) anchor) [])
         (layout_rewrites layout);
  if negb (layout_head_strand layout =b walk_strand w) then Err (Corrupted sid)
  else
    tail ←? decode_rows sid (serialized_tail layout);
    let current := walk_current w ++ tail in
    if negb (Z.of_nat (length current) =? head_len layout) then Err (Corrupted sid)
    else Ok (mkMaterialized (upsert_strand (walk_strands w) (walk_strand w) current) (walk_rewrites w)
               (layout_head_strand layout)).

Definition layout_for_blob_session (session : Session)
    : Result (MaterializedBlobLayout Message Commit * Head) SessionStoreError :=
  layout ←? strand_layout_for_session core session;
  materialized ←? from_layout (session_key core session) layout;
  head ←? from_session core session (materialized_head_strand materialized)
            (Z.of_nat (length (rewrites materialized)));
  Ok (materialized, head).

(** Write the rows of a laid-out document under the session [sid]. *)
Fixpoint write_strands (sid : string) (l : list (string * list Message)) (identity : string) (gen : Z) : SOp unit :=
  match l with
  | [] => mret tt
  | (strand, rows) :: rest =>
      _ ← insert_strand_rows_in_txn sid strand 0 rows identity gen;
      write_strands sid rest identity gen
  end.

Fixpoint write_rewrites (sid : string) (idx : Z) (l : list (RewriteRow Commit)) (identity : string) (gen : Z)
    : SOp unit :=
  match l with
  | [] => mret tt
  | row :: rest =>
      _ ← insert_rewrite_row_in_txn sid idx row identity gen;
      write_rewrites sid (idx + 1) rest identity gen
  end.

Definition delete_orphan_head_canonical_rows_in_txn (sid : string) : SOp unit :=
  _ ← head_sql_session "delete orphan head-canonical rows";
  _ ← update (with_strands (filter (λ kv, kv.1.1.1 ≠ sid)));
  _ ← head_sql_session "delete orphan head-canonical rows";
  update (with_rewrites (filter (λ kv, kv.1.1 ≠ sid))).

Definition migrate_legacy_blob_in_txn (sid identity : string) (gen version token : Z) : SOp (option (Head * string)) :=
  blob ← blob_session_in_txn sid;
  match blob with
  | None => mret None
  | Some session =>
      _ ← throw_if (negb (session_key core session =b sid)) (Corrupted sid);
      _ ← delete_orphan_head_canonical_rows_in_txn sid;
      laid_out ← lift_result (layout_for_blob_session session);
      let '(layout, head) := laid_out in
      _ ← write_strands sid (strands layout) identity gen;
      _ ← write_rewrites sid 0 (rewrites layout) identity gen;
      cas ← write_head_row_in_txn head identity gen version token;
      mret (Some (head, cas))
  end.

Definition ensure_head_canonical_for_write_in_txn (sid identity : string) (gen version token : Z)
    : SOp (option (Head * string)) :=
  existing ← head_row_in_txn sid;
  match existing with
  | Some found => mret (Some found)
  | None => migrate_legacy_blob_in_txn sid identity gen version token
  end.

(** ** Reading and adopting a head-canonical document *)

Fixpoint raw_values (sid : string) (rows : list string) : Result (list string) SessionStoreError :=
  match rows with
  | [] => Ok []
  | r :: rest =>
      v ←? ok_or (raw_value core r) (Corrupted sid);
      more ←? raw_values sid rest;
      Ok (v :: more)
  end.

Definition import_released_head_in_txn (sid : string) (head : Head) (refusal_context : string) : SOp Session :=
  let prefix := "continuity head row " +:+ sid +:+ " " +:+ refusal_context in
  raw_rows ← strand_row_bytes_in_txn sid (head_strand core head) 0 (head_message_count core head);
  digest ← lift_result (map_err (λ e, Serialization
      (prefix +:+ " and its strand rows do not admit the released 0.8.10 digest (" +:+ e +:+ ")"))
    (released_0810_rows_digest core raw_rows));
  _ ← throw_if (negb (digest =b head_revision core head))
        (Serialization (prefix +:+ " and its strand rows do not match the released head commitment (released digest " +:+
                        digest +:+ ", head revision " +:+ head_revision core head +:+ ")"));
  messages ← lift_result (raw_values sid raw_rows);
  envelope ← lift_result (map_err Serialization (released_envelope core head sid messages));
  imported ← lift_result (map_err (λ e, Serialization
      (prefix +:+ " and does not interpret as a released 0.8.10 head-canonical document either (" +:+ e +:+ ")"))
    (import_released_0810_session core envelope));
  let '(session, (source_sha, source_id)) := imported in
  _ ← throw_if (negb (source_sha =b sha256 core envelope))
        (Serialization ("continuity head row " +:+ sid +:+ " changed during exact released-0.8.10 import"));
  _ ← throw_if (negb (source_id =b sid))
        (Serialization ("continuity head key " +:+ sid +:+ " contains released session " +:+ source_id));
  mret session.

Definition materialize_slim_in_txn (sid : string) (head : Head) : SOp Session :=
  messages ← strand_messages_in_txn sid (head_strand core head) 0 (head_message_count core head);
  match into_session core head messages with
  | Ok session => mret session
  | Err e =>
      if head_envelope_version core head =? RELEASED_0810_SESSION_ENVELOPE_VERSION
      then import_released_head_in_txn sid head
             ("failed current materialization (" +:+ session_error_text core e +:+ ")")
      else throw e
  end.

Definition adopt_released_head_in_txn (incoming : Session) (identity : string) (gen version token : Z) : SOp unit :=
  let sid := session_key core incoming in
  stored ← head_row_in_txn sid;
  match stored with
  | None => throw (Internal ("released head adoption for session " +:+ sid +:+
              " found no durable head row; the adoption lane is only reachable from a stored released head"))
  | Some (head, _) =>
      _ ← throw_if (negb (head_envelope_version core head =? RELEASED_0810_SESSION_ENVELOPE_VERSION))
            (Internal ("released head adoption for session " +:+ sid +:+ " found a current head (envelope version " +:+
                       fmt_dec (head_envelope_version core head) +:+
                       "); refusing to re-adopt a document the ordinary write arms already own"));
      imported ← import_released_head_in_txn sid head "is being adopted on the write path";
      _ ← lift_result (append_only_save_guard core incoming imported);
      _ ← delete_orphan_head_canonical_rows_in_txn sid;
      laid_out ← lift_result (layout_for_blob_session incoming);
      let '(layout, new_head) := laid_out in
      _ ← write_strands sid (strands layout) identity gen;
      _ ← write_rewrites sid 0 (rewrites layout) identity gen;
      _ ← write_head_row_in_txn new_head identity gen version token;
      mret tt
  end.

(** A whole document onto a head-canonical session: an append to the head strand
    when the stored transcript is a prefix, a rebased strand otherwise. *)
Definition canonical_head (session : Session) (head : Head) (identity : string) (gen : Z) (plain_append : bool)
    : SOp Head :=
  let sid := session_key core session in
  let live := session_messages core session in
  let prev_count := Z.to_nat (head_message_count core head) in
  if plain_append then
    _ ← (if (prev_count <? length live)%nat
         then insert_strand_rows_in_txn sid (head_strand core head) (head_message_count core head)
                (drop prev_count live) identity gen
         else mret tt);
    match message_row_prefix core head with
    | Some prefix =>
        appended ← lift_result (encode_messages (drop prev_count live));
        proved ← lift_result (extend_serialized_rows core prefix appended);
        lift_result (from_session_proved core session (head_strand core head) (rewrite_prefix core head) proved)
    | None =>
        unproved ← lift_result (from_session core session (head_strand core head) (head_rewrite_count core head));
        mret (without_row_authority core unproved)
    end
  else
    digest ← lift_result (transcript_messages_digest core live);
    let rebased := rebase_strand core digest in
    _ ← insert_strand_rows_in_txn sid rebased 0 live identity gen;
    lift_result (from_session core session rebased (head_rewrite_count core head)).

Definition write_head_canonical_session_in_txn (session : Session) (head : Head) (identity : string)
    (gen version token : Z) : SOp unit :=
  let live := session_messages core session in
  let prev_count := Z.to_nat (head_message_count core head) in
  plain_append ← (if (prev_count <=? length live)%nat then
                    digest ← lift_result (transcript_messages_digest core (take prev_count live));
                    mret (digest =b head_revision core head)
                  else mret false);
  new_head ← canonical_head session head identity gen plain_append;
  _ ← write_head_row_in_txn new_head identity gen version token;
  mret tt.

(** ** The continuity write discipline *)

Definition enforce_continuity_cursor_in_txn (identity sid : string) (gen version token : Z) : COp bool :=
  _ ← sql "query continuity record";
  existing ← table (λ d, continuity_records d !! identity);
  match existing with
  | None => mret false
  | Some row =>
      _ ← throw_if (negb (rec_session row =b sid) || negb (rec_generation row =? gen)) (RecordNotFound identity);
      _ ← throw_if (token <? rec_token row) (StaleFencingToken identity token (rec_token row));
      _ ← throw_if (version <=? rec_version row) (StaleCheckpointVersion identity version (rec_version row));
      mret true
  end.

(** [UPDATE ... WHERE identity AND session_id AND generation] *)
Definition advance_continuity_record_in_txn (identity sid : string) (gen version token : Z) (was_present : bool)
    : COp unit :=
  _ ← bind_u64 "advance continuity record" [version; token; gen];
  _ ← sql "advance continuity record";
  existing ← table (λ d, continuity_records d !! identity);
  let matches := is_some_and existing (λ row, (rec_session row =b sid) && (rec_generation row =? gen)) in
  _ ← (if matches
       then update (with_records (alter (λ row, mkRecordRow (rec_runtime row) (rec_session row)
                      (rec_generation row) version token) identity))
       else mret tt);
  throw_if (was_present && negb matches) (RecordNotFound identity).

Definition ensure_snapshot_owner_in_txn (sid identity : string) (gen : Z) : COp unit :=
  _ ← sql "query snapshot owner";
  existing ← table (λ d, session_snapshots d !! sid);
  match existing with
  | Some row =>
      throw_if (negb (snap_identity row =b identity) || negb (snap_generation row =? gen))
        (Corruption ("session snapshot " +:+ sid +:+ " is owned by " +:+ snap_identity row +:+ "/generation " +:+
                     fmt_dec (snap_generation row) +:+ ", not " +:+ identity +:+ "/generation " +:+ fmt_dec gen))
  | None => mret tt
  end.

Definition ensure_head_owner_in_txn (sid identity : string) (gen : Z) : COp unit :=
  owner ← head_owner_in_txn sid;
  match owner with
  | Some (head_identity, head_generation) =>
      throw_if (negb (head_identity =b identity) || negb (head_generation =? gen))
        (Corruption ("session head " +:+ sid +:+ " is owned by " +:+ head_identity +:+ "/generation " +:+
                     fmt_dec head_generation +:+ ", not " +:+ identity +:+ "/generation " +:+ fmt_dec gen))
  | None => mret tt
  end.

(** [DELETE ... WHERE predicate] on the three head-canonical tables; a predicate
    is a test on the session, identity and generation of a row. *)
Definition delete_head_canonical_rows_in_txn (doomed : string → string → Z → bool) : COp unit :=
  _ ← head_sql "delete head-canonical rows";
  _ ← update (with_heads (filter (λ kv, doomed kv.1 (hd_identity kv.2) (hd_generation kv.2) = false)));
  _ ← head_sql "delete head-canonical rows";
  _ ← update (with_strands (filter (λ kv, doomed kv.1.1.1 (str_identity kv.2) (str_generation kv.2) = false)));
  _ ← head_sql "delete head-canonical rows";
  update (with_rewrites (filter (λ kv, doomed kv.1.1 (rw_identity kv.2) (rw_generation kv.2) = false))).
End tables.
