(* ===== verification/ContinuityLocal.v ===== *)
(** * Identity continuity: the local store
      ([identity_first/local_store.rs], [LocalContinuityStore])

    The operations of the [ContinuityStore] trait and of the session-delta
    channel over the tables of [ContinuityTables], each in one transaction; the
    opening of a file and the fencing high-water mark a restarted lease provider
    starts from. *)

From S2P Require Import Prelude Strings SqlWorld ContinuityTypes ContinuityTables.
Open Scope Z_scope.

Section local.
Context (env : ContinuityEnv).
Context {Session Message Head Commit Rewrite RowPrefix RewritePrefix : Type}.
Context (core : SessionCore Session Message Head Commit Rewrite RowPrefix RewritePrefix).
Notation sql := (sql env).

Definition with_connection {A} (f : COp A) : COp A := enter (enter_fault env) f.
Definition commit (context : string) : COp unit :=
  commit_tables (λ n, sqlite_err context <$> sql_fault env n).

Definition io_err {A} (m : SOp A) : COp A := with_err (λ e, StoreIo (session_error_text core e)) m.

(** ** Opening a file *)

Definition converge_schema_at_open : COp bool :=
  _ ← refuse_future_continuity_schema env;
  _ ← sql "read continuity ledger";
  version ← table ledger;
  match version with
  | Some v =>
      if IDENTITY_HISTORY_SCHEMA_VERSION <=? v then _ ← sql "identity history schema preflight"; mret true
      else mret (HEAD_CANONICAL_SCHEMA_VERSION <=? v)
  | None =>
      _ ← sql "apply schema";
      _ ← update (λ d, with_schema (head_tables d) (Some 1) d);
      _ ← commit "apply schema";
      mret false
  end.

(** A fresh handle on the file: both latches say what the ledger says. *)
Definition open_store : COp unit :=
  with_connection (
    head_canonical ← converge_schema_at_open;
    modify (λ w, mkWorld (committed w) (working w) (mkLatches head_canonical head_canonical) (observed w))).

Definition map_max {A} (f : A → Z) (m : gmap string A) : Z := foldr (λ a acc, Z.max (f a) acc) 0 (btree_values m).

(** [COALESCE(MAX(...), 0)] over the tables that exist. *)
Definition high_water (d : Db) (heads : bool) : Z :=
  Z.max (map_max rec_token (continuity_records d))
    (Z.max (map_max snap_token (session_snapshots d))
       (if heads then map_max hd_token (continuity_session_heads d) else 0)).

Definition max_fencing_token : COp Z :=
  with_connection (
    heads ← head_tables_available env;
    _ ← sql "max_fencing_token";
    table (λ d, high_water d heads)).

Definition open_with_fencing_floor : COp Z := _ ← open_store; max_fencing_token.

(** ** Identity history *)

Definition history_sql (context : string) : COp unit :=
  _ ← sql context;
  enabled ← table history_enabled;
  throw_if (negb enabled) (sqlite_err context (other_fault (no_such_table env))).

Definition establish_identity_history_coverage (mob : string) (cursor : Z) : COp unit :=
  with_connection (
    _ ← bind_u64 env "coverage anchor" [cursor];
    _ ← history_sql "coverage anchor";
    _ ← update (with_coverage (λ m, match m !! mob with Some _ => m | None => <[mob := cursor]> m end));
    commit "coverage anchor").

Definition identity_history_covers_birth (mob : string) (birth_cursor : Z) : COp bool :=
  with_connection (
    _ ← history_sql "coverage read";
    table (λ d, is_some_and (continuity_identity_coverage d !! mob) (λ cursor, cursor <? birth_cursor))).

(** The bindings the history starts with: records, snapshots, then heads. *)
Definition bindings (d : Db) : list (string * string) :=
  ((λ e : string * RecordRow, (rec_session e.2, e.1)) <$> btree_entries (continuity_records d)) ++
  ((λ e : string * SnapshotRow, (e.1, snap_identity e.2)) <$> btree_entries (session_snapshots d)) ++
  ((λ e : string * HeadRow, (e.1, hd_identity e.2)) <$> btree_entries (continuity_session_heads d)).

Fixpoint backfill (history : gmap string string) (l : list (string * string)) : option (gmap string string) :=
  match l with
  | [] => Some history
  | (sid, identity) :: rest =>
      match history !! sid with
      | Some other => if other =b identity then backfill history rest else None
      | None => backfill (<[sid := identity]> history) rest
      end
  end.

Definition enable_identity_binding_history : COp unit :=
  with_connection (
    _ ← refuse_future_continuity_schema env;
    d ← table id;
    _ ← (if history_enabled d then sql "identity history schema"
         else
           _ ← sql "identity history schema";
           match backfill ∅ (bindings d) with
           | None => throw (sqlite_err "identity history schema" (other_fault (history_conflict env)))
           | Some history =>
               _ ← update (λ d, with_history (λ _, history) (with_schema true (Some IDENTITY_HISTORY_SCHEMA_VERSION) d));
               commit "identity history schema"
           end);
    modify (λ w, mkWorld (committed w) (working w) (mkLatches true true) (observed w))).

Definition has_historical_identity (identity : string) : COp bool :=
  with_connection (
    _ ← history_sql "identity intent history";
    table (λ d, existsb (λ i, i =b identity) (btree_values (continuity_identity_history d)))).

Definition invalid_identity_text (e : InvalidIdentity) : string :=
  "invalid identity " +:+ debug_text env (invalid_input e) +:+ ": " +:+ invalid_reason e.

Definition historical_identity_binding (sid : string) : COp (option string) :=
  with_connection (
    _ ← history_sql "identity history read";
    found ← table (λ d, continuity_identity_history d !! sid);
    match found with
    | None => mret None
    | Some identity =>
        parsed ← lift_result (map_err (λ e, Corruption (invalid_identity_text e)) (parse_identity identity));
        mret (Some parsed)
    end).

(** ** Reads *)

Definition corrupt (context : string) {A E} (f : E → string) (r : Result A E) : COp A :=
  lift_result (map_err (λ e, Corruption (context +:+ f e)) r).

Definition record_of (identity : string) (row : RecordRow) : COp ContinuityRecord :=
  runtime ← corrupt "invalid runtime_id in store: " invalid_identity_text (parse_identity (rec_runtime row));
  sid ← corrupt "invalid session_id in store: " id (parse_session_id env (rec_session row));
  mret (mkContinuityRecord identity runtime sid (rec_generation row) (rec_version row)).

Fixpoint resolve_each (identities : list string) (m : gmap string ContinuityResolveState)
    : COp (gmap string ContinuityResolveState) :=
  match identities with
  | [] => mret m
  | identity :: rest =>
      _ ← sql "prepare";
      _ ← sql "query";
      row ← table (λ d, continuity_records d !! identity);
      match row with
      | Some row =>
          record ← record_of identity row;
          resolve_each rest (<[identity := Ready record]> m)
      | None => resolve_each rest (<[identity := Uninitialized]> m)
      end
  end.

Definition local_resolve_many (identities : list string) : COp (gmap string ContinuityResolveState) :=
  with_connection (resolve_each identities ∅).

(** The records that bind a session, in the order the database returns them. *)
Definition records_of_session (d : Db) (sid : string) : list (string * RecordRow) :=
  row_order env (List.filter (λ e, rec_session e.2 =b sid) (btree_entries (continuity_records d))).

Definition session_version (d : Db) (heads : bool) (sid : string) : Z :=
  Z.max (match session_snapshots d !! sid with Some row => snap_version row | None => 0 end)
    (match (if heads then continuity_session_heads d !! sid else None) with Some row => hd_version row | None => 0 end).

Definition local_resolve_record_by_session (sid : string) : COp (option (ContinuityRecord * Z * Z)) :=
  with_connection (
    _ ← sql "prepare";
    _ ← sql "query";
    rows ← table (λ d, records_of_session d sid);
    match head rows with
    | None => mret None
    | Some (identity, row) =>
        heads ← head_tables_available env;
        _ ← sql "fence query";
        current ← table (λ d, session_version d heads sid);
        parsed ← corrupt "invalid identity in store: " invalid_identity_text (parse_identity identity);
        runtime ← corrupt "invalid runtime_id in store: " invalid_identity_text (parse_identity (rec_runtime row));
        mret (Some (mkContinuityRecord parsed runtime sid (rec_generation row) (rec_version row),
                    rec_token row, Z.max current (rec_version row)))
    end).

(** Every owner a table states for the session must agree. *)
Fixpoint agreed_owner (sid : string) (owner : option string) (identities : list string) : COp (option string) :=
  match identities with
  | [] => mret owner
  | identity :: rest =>
      _ ← sql "read session owner";
      parsed ← corrupt "invalid session owner in store: " invalid_identity_text (parse_identity identity);
      _ ← throw_if (is_some_and owner (λ existing, negb (existing =b parsed)))
            (Corruption ("conflicting owners for session " +:+ sid));
      agreed_owner sid (Some parsed) rest
  end.

Definition stated_owners (d : Db) (heads : bool) (sid : string) : list string :=
  match session_snapshots d !! sid with Some row => [snap_identity row] | None => [] end ++
  match (if heads then continuity_session_heads d !! sid else None) with Some row => [hd_identity row] | None => [] end ++
  (records_of_session d sid).*1.

Definition local_session_owner (sid : string) : COp (option string) :=
  with_connection (
    heads ← head_tables_available env;
    _ ← sql "prepare session owner";
    _ ← sql "query session owner";
    owners ← table (λ d, stated_owners d heads sid);
    agreed_owner sid None owners).

Definition local_load_session_snapshot (sid : string) : COp (option string) :=
  with_connection (
    heads ← head_tables_available env;
    found ← (if heads : bool then
               _ ← sql "begin read tx";
               io_err (head_row_in_txn env core sid)
             else mret None);
    match found with
    | Some (head, _) =>
        session ← io_err (materialize_slim_in_txn env core sid head);
        data ← lift_result (map_err (λ e, StoreIo ("serialize head-canonical session snapshot: " +:+ e))
                              (encode_session core session));
        mret (Some data)
    | None =>
        _ ← sql "prepare";
        _ ← sql "query";
        table (λ d, snap_data <$> session_snapshots d !! sid)
    end).

(** The exact-match query: the snapshot row and the record that is its
    continuity head. *)
Definition snapshot_matches (d : Db) (c : SessionSnapshotMatchCandidate) : bool :=
  match session_snapshots d !! candidate_session_id c, continuity_records d !! candidate_identity c with
  | Some snap, Some row =>
      (snap_identity snap =b candidate_identity c) && (rec_session row =b candidate_session_id c) &&
      (rec_generation row =? snap_generation snap) && (rec_version row =? snap_version snap) &&
      (snap_generation snap =? candidate_generation c) && (snap_version snap =? candidate_version c) &&
      (rec_token row =? candidate_token c) && (snap_token snap <=? candidate_token c) &&
      (snap_data snap =b candidate_data c)
  | _, _ => false
  end.

Definition local_session_snapshot_matches_current (c : SessionSnapshotMatchCandidate) : COp bool :=
  with_connection (
    heads ← head_tables_available env;
    canonical ← (if heads : bool then
                   _ ← sql "begin read tx";
                   owner ← head_owner_in_txn env (candidate_session_id c);
                   mret (is_some owner)
                 else mret false);
    if canonical : bool then mret false
    else
      _ ← bind_u64 env "match session snapshot" [candidate_generation c; candidate_version c; candidate_token c];
      _ ← sql "match session snapshot";
      table (λ d, snapshot_matches d c)).

(** ** Writes *)

Definition local_delete_session_snapshot_if_current_revision (sid expected : string) : COp bool :=
  with_connection (
    heads ← head_tables_available env;
    _ ← sql "begin tx";
    found ← (if heads : bool then io_err (head_row_in_txn env core sid) else mret None);
    session ← match found with
              | Some (head, _) => s ← io_err (materialize_slim_in_txn env core sid head); mret (Some s)
              | None =>
                  _ ← sql "query snapshot";
                  data ← table (λ d, snap_data <$> session_snapshots d !! sid);
                  match data with
                  | None => mret None
                  | Some data =>
                      s ← lift_result (map_err (λ e, StoreIo
                            ("deserialize session snapshot for revision check: " +:+ e)) (decode_session core data));
                      mret (Some s)
                  end
              end;
    match session with
    | None => mret false
    | Some session =>
        current ← lift_result (map_err StoreIo (session_projection_cas_token core session));
        if negb (current =b expected) then mret false
        else
          _ ← sql "delete snapshot";
          deleted ← table (λ d, is_some (session_snapshots d !! sid));
          _ ← update (with_snapshots (delete sid));
          _ ← (if heads : bool then delete_head_canonical_rows_in_txn env (λ s _ _, s =b sid) else mret tt);
          _ ← commit "commit snapshot delete";
          mret (deleted || (heads && is_some found))
    end).

(** The whole document as a row, or as rows and a head when the session is
    head-canonical. *)
Definition write_document_in_txn (heads : bool) (identity sid : string) (gen version token : Z) (data : string)
    : COp unit :=
  found ← (if heads then io_err (head_row_in_txn env core sid) else mret None);
  match found with
  | Some (head, _) =>
      session ← lift_result (map_err (λ e, StoreIo ("session " +:+ sid +:+
          " is head-canonical: a whole-document save must carry a serialized session document, not opaque bytes (" +:+
          e +:+ ")")) (decode_session core data));
      _ ← throw_if (negb (session_key core session =b sid))
            (Corruption ("session snapshot for " +:+ sid +:+ " carries session " +:+ session_key core session));
      io_err (write_head_canonical_session_in_txn env core session head identity gen version token)
  | None =>
      _ ← bind_u64 env "upsert snapshot" [gen; version; token];
      _ ← sql "upsert snapshot";
      _ ← update (with_snapshots (insert sid (mkSnapshotRow identity gen version token data)));
      bind_history env "upsert snapshot" sid identity
  end.

Definition local_save_session_snapshot (identity sid : string) (gen version token : Z) (data : string) : COp unit :=
  with_connection (
    heads ← head_tables_available env;
    _ ← sql "begin tx";
    was_present ← enforce_continuity_cursor_in_txn env identity sid gen version token;
    _ ← ensure_snapshot_owner_in_txn env sid identity gen;
    _ ← (if heads : bool then ensure_head_owner_in_txn env sid identity gen else mret tt);
    _ ← write_document_in_txn heads identity sid gen version token data;
    _ ← advance_continuity_record_in_txn env identity sid gen version token was_present;
    commit "commit tx").

(** [ON CONFLICT(identity) DO UPDATE]: a rebind in the same generation keeps the
    larger checkpoint version. *)
Definition upserted_row (old : option RecordRow) (record : ContinuityRecord) (token : Z) : RecordRow :=
  let version :=
    match old with
    | Some row => if rec_generation row =? generation record
                  then Z.max (rec_version row) (checkpoint_version record) else checkpoint_version record
    | None => checkpoint_version record
    end in
  mkRecordRow (agent_runtime_id record) (session_id record) (generation record) version token.

Definition local_upsert_continuity_record (record : ContinuityRecord) (token : Z) : COp unit :=
  with_connection (
    let identity := record_identity record in
    _ ← sql "prepare";
    _ ← sql "query";
    existing ← table (λ d, continuity_records d !! identity);
    _ ← match existing with
        | Some row =>
            _ ← throw_if (token <? rec_token row) (StaleFencingToken identity token (rec_token row));
            throw_if (generation record <? rec_generation row)
              (StaleContinuityGeneration identity (generation record) (rec_generation row))
        | None => mret tt
        end;
    _ ← bind_u64 env "upsert record" [generation record; checkpoint_version record; token];
    _ ← sql "upsert record";
    _ ← update (with_records (insert identity (upserted_row existing record token)));
    _ ← bind_history env "upsert record" (session_id record) identity;
    commit "upsert record").

Definition local_rollback_continuity_record (expected_attempt : ContinuityRecord)
    (previous : option ContinuityRecord) (token : Z) : COp unit :=
  with_connection (
    let identity := record_identity expected_attempt in
    heads ← head_tables_available env;
    _ ← match previous with
        | Some p => throw_if (negb (record_identity p =b identity))
                      (Corruption ("reset rollback identity mismatch: attempted " +:+ identity +:+ ", previous " +:+
                                   record_identity p))
        | None => mret tt
        end;
    _ ← sql "begin tx";
    _ ← sql "query";
    found ← table (λ d, continuity_records d !! identity);
    row ← lift_result (ok_or found (RecordNotFound identity));
    _ ← throw_if (negb (rec_token row =? token)) (StaleFencingToken identity token (rec_token row));
    _ ← throw_if (negb (rec_runtime row =b agent_runtime_id expected_attempt) ||
                  negb (rec_session row =b session_id expected_attempt) ||
                  negb (rec_generation row =? generation expected_attempt))
          (StaleContinuityGeneration identity (generation expected_attempt) (rec_generation row));
    _ ← bind_u64 env "delete attempted snapshots" [generation expected_attempt];
    _ ← sql "delete attempted snapshots";
    _ ← update (with_snapshots (filter (λ kv,
          negb ((snap_identity kv.2 =b identity) && (snap_generation kv.2 =? generation expected_attempt)) = true)));
    _ ← (if heads : bool
         then delete_head_canonical_rows_in_txn env (λ _ i g, (i =b identity) && (g =? generation expected_attempt))
         else mret tt);
    _ ← match previous with
        | Some p =>
            _ ← bind_u64 env "restore previous record" [generation p; checkpoint_version p; token];
            _ ← sql "restore previous record";
            _ ← update (with_records (insert identity
                  (mkRecordRow (agent_runtime_id p) (session_id p) (generation p) (checkpoint_version p) token)));
            bind_history env "restore previous record" (session_id p) identity
        | None =>
            _ ← sql "delete attempted record";
            update (with_records (delete identity))
        end;
    commit "commit tx").

Definition local_delete_continuity_record (identity : string) (token : Z) : COp unit :=
  with_connection (
    heads ← head_tables_available env;
    _ ← sql "begin tx";
    _ ← sql "prepare";
    _ ← sql "query";
    existing ← table (λ d, continuity_records d !! identity);
    _ ← match existing with
        | Some row => throw_if (token <? rec_token row) (StaleFencingToken identity token (rec_token row))
        | None => mret tt
        end;
    _ ← sql "delete snapshots";
    _ ← update (with_snapshots (filter (λ kv, negb (snap_identity kv.2 =b identity) = true)));
    _ ← (if heads : bool then delete_head_canonical_rows_in_txn env (λ _ i _, i =b identity) else mret tt);
    _ ← sql "delete record";
    _ ← update (with_records (delete identity));
    commit "commit tx").

Definition list_session_bindings : COp (list (string * string)) :=
  with_connection (
    _ ← sql "prepare";
    _ ← sql "query";
    rows ← table (λ d, btree_entries (continuity_records d));
    (fix each (l : list (string * RecordRow)) : COp (list (string * string)) :=
       match l with
       | [] => mret []
       | (identity, row) :: rest =>
           _ ← sql "row";
           parsed ← corrupt "invalid identity in store: " invalid_identity_text (parse_identity identity);
           sid ← corrupt "invalid session id in store: " id (parse_session_id env (rec_session row));
           more ← each rest;
           mret ((parsed, sid) :: more)
       end) rows).

Definition LocalContinuityStore : ContinuityStore CWorld :=
  mkContinuityStore local_resolve_many local_resolve_record_by_session local_session_owner
    local_load_session_snapshot local_session_snapshot_matches_current
    local_delete_session_snapshot_if_current_revision local_save_session_snapshot
    local_upsert_continuity_record local_rollback_continuity_record local_delete_continuity_record.

(** ** The session-delta channel *)

(** Whether the stamp is still owed; the tables are created before anything is
    written. *)
Definition lockout_owed_in_txn : COp bool :=
  latch ← gets (λ w, head_canonical_ledger (volatile w));
  lockout_owed ← (if latch : bool then mret false
                  else stamped ← head_canonical_ledger_stamped_in_txn env; mret (negb stamped));
  _ ← (if lockout_owed : bool then converge_head_canonical_schema_in_txn env else mret tt);
  mret lockout_owed.

(** The ledger is stamped when the write left the session with a head row. *)
Definition settle_lockout_in_txn (lockout_owed : bool) (sid : string) : COp bool :=
  stamp ← (if lockout_owed then session_head_exists_in_txn env sid else mret false);
  _ ← (if stamp : bool then stamp_head_canonical_ledger_in_txn env else mret tt);
  mret stamp.

(** One mutation in one transaction: the schema, the cursor, the owners, the
    operation, the advance of the record, and the ledger stamp when the write
    left the session with a head row. *)
Definition delta_body {A} (c : ContinuityWriteCursor) (sid : string) (operation : SOp A)
    : COp (Result A SessionStoreError) :=
  _ ← sql "begin tx";
  lockout_owed ← lockout_owed_in_txn;
  was_present ← enforce_continuity_cursor_in_txn env (cursor_identity c) sid (cursor_generation c)
                  (cursor_version c) (cursor_token c);
  _ ← ensure_snapshot_owner_in_txn env sid (cursor_identity c) (cursor_generation c);
  _ ← ensure_head_owner_in_txn env sid (cursor_identity c) (cursor_generation c);
  outcome ← catch operation;
  match outcome with
  | Err typed => mret (Err typed)
  | Ok value =>
      _ ← advance_continuity_record_in_txn env (cursor_identity c) sid (cursor_generation c)
            (cursor_version c) (cursor_token c) was_present;
      stamp ← settle_lockout_in_txn lockout_owed sid;
      _ ← commit "commit tx";
      _ ← modify (λ w, mkWorld (committed w) (working w)
            (mkLatches (lockout_owed || head_canonical_schema (volatile w))
               (stamp || negb lockout_owed || head_canonical_ledger (volatile w))) (observed w));
      mret (Ok value)
  end.

Definition delta_write {A} (name : string) (c : ContinuityWriteCursor) (sid : string) (operation : SOp A) : SOp A :=
  outcome ← with_err (session_err name) (with_connection (delta_body c sid operation));
  lift_result outcome.

Definition delta_read {A} (name : string) (operation : bool → SOp A) : SOp A :=
  outcome ← with_err (session_err name) (with_connection (
    heads ← head_tables_available env;
    _ ← sql "begin read tx";
    catch (operation heads)));
  lift_result outcome.

Definition append_messages (c : ContinuityWriteCursor) (sid strand : string) (base_seq : Z) (messages : list Message)
    : SOp unit :=
  delta_write "continuity append_messages" c sid (
    _ ← ensure_head_canonical_for_write_in_txn env core sid (cursor_identity c) (cursor_generation c)
          (cursor_version c) (cursor_token c);
    insert_strand_rows_in_txn env core sid strand base_seq messages (cursor_identity c) (cursor_generation c)).

Definition rewrite_conflict (sid : string) (expected : SessionHeadCas) (token : string) : Result unit SessionStoreError :=
  match expected with
  | CasCreate => Err (TranscriptRevisionConflict sid "<create>" token)
  | CasIfToken t => if t =b token then Ok tt else Err (TranscriptRevisionConflict sid t token)
  end.

Definition commit_rewrite (c : ContinuityWriteCursor) (sid : string) (record : Rewrite) (expected : SessionHeadCas)
    : SOp Head :=
  delta_write "continuity commit_rewrite" c sid (
    found ← ensure_head_canonical_for_write_in_txn env core sid (cursor_identity c) (cursor_generation c)
              (cursor_version c) (cursor_token c);
    stored ← lift_result (ok_or found (InvalidTranscriptRewrite sid "rewrite target has no persisted session head"));
    let '(stored_head, stored_token) := stored in
    _ ← lift_result (rewrite_conflict sid expected stored_token);
    let commit := rewrite_commit core record in
    _ ← throw_if (negb (commit_parent_revision core commit =b head_revision core stored_head))
          (TranscriptRevisionConflict sid (commit_parent_revision core commit) (head_revision core stored_head));
    let before := commit_messages_before core commit in
    rows ← strand_row_count_in_txn env sid (head_strand core stored_head);
    _ ← throw_if (rows <? before)
          (InvalidTranscriptRewrite sid ("commit messages_before " +:+ fmt_dec before +:+
             " exceeds persisted rows of strand " +:+ head_strand core stored_head));
    parent_rows ← strand_messages_in_txn env core sid (head_strand core stored_head) 0 before;
    parent_digest ← lift_result (transcript_messages_digest core parent_rows);
    next ← lift_result (validate_commit_rewrite_transition core sid record stored_head stored_token expected parent_digest);
    _ ← insert_rewrite_row_in_txn env core sid (head_rewrite_count core stored_head)
          (mkRewriteRow commit (head_strand core stored_head) before (head_strand core next)
             (commit_messages_after core commit)) (cursor_identity c) (cursor_generation c);
    _ ← insert_strand_rows_in_txn env core sid (head_strand core next) 0 (rewrite_messages core record)
          (cursor_identity c) (cursor_generation c);
    mret next).

Definition save_head (c : ContinuityWriteCursor) (head : Head) (expected : SessionHeadCas) : SOp unit :=
  let sid := head_key core head in
  delta_write "continuity save_head" c sid (
    stored ← ensure_head_canonical_for_write_in_txn env core sid (cursor_identity c) (cursor_generation c)
               (cursor_version c) (cursor_token c);
    strand_len ← strand_row_count_in_txn env sid (head_strand core head);
    recorded ← rewrite_row_count_in_txn env sid;
    _ ← lift_result (validate_save_head_transition core head stored expected strand_len recorded);
    _ ← write_head_row_in_txn env core head (cursor_identity c) (cursor_generation c) (cursor_version c) (cursor_token c);
    mret tt).

Definition adopt_released_head_document (c : ContinuityWriteCursor) (session : Session) : SOp unit :=
  delta_write "continuity adopt_released_head_document" c (session_key core session)
    (adopt_released_head_in_txn env core session (cursor_identity c) (cursor_generation c) (cursor_version c)
       (cursor_token c)).

Definition load_head (sid : string) : SOp (option Head) :=
  delta_read "continuity load_head" (λ heads,
    found ← (if heads : bool then head_row_in_txn env core sid else mret None);
    match found with
    | Some (head, _) => mret (Some head)
    | None =>
        blob ← blob_session_in_txn env core sid;
        match blob with
        | None => mret None
        | Some session =>
            laid_out ← lift_result (layout_for_blob_session core session);
            mret (Some laid_out.2)
        end
    end).

Definition load_canonical_head (sid : string) : SOp (option Head) :=
  delta_read "continuity load_canonical_head" (λ heads,
    if negb heads then mret None
    else found ← head_row_in_txn env core sid; mret (fst <$> found)).

Definition load_canonical_session (sid : string) : SOp (option Session) :=
  delta_read "continuity load_canonical_session" (λ heads,
    if negb heads then mret None
    else
      found ← head_row_in_txn env core sid;
      match found with
      | None => mret None
      | Some (head, _) => session ← materialize_slim_in_txn env core sid head; mret (Some session)
      end).

Definition load_canonical_previous (sid : string) : SOp (option (Session * list Commit)) :=
  delta_read "continuity load_canonical_previous" (λ heads,
    if negb heads then mret None
    else
      found ← head_row_in_txn env core sid;
      match found with
      | None => mret None
      | Some (head, _) =>
          session ← materialize_slim_in_txn env core sid head;
          rows ← rewrite_rows_in_txn env core sid (head_rewrite_count core head);
          mret (Some (session, row_commit <$> rows))
      end).

Definition load_messages (sid strand : string) (start stop : Z) : SOp (list Message) :=
  delta_read "continuity load_messages" (λ heads,
    found ← (if heads : bool then head_row_in_txn env core sid else mret None);
    match found with
    | Some _ => strand_messages_in_txn env core sid strand start stop
    | None =>
        blob ← blob_session_in_txn env core sid;
        session ← lift_result (ok_or blob (SessionNotFound sid));
        laid_out ← lift_result (layout_for_blob_session core session);
        entry ← lift_result (ok_or (find_first (λ e : string * list Message, e.1 =b strand) (strands laid_out.1))
                               (Corrupted sid));
        _ ← throw_if ((stop <? start) || (Z.of_nat (length entry.2) <? stop)) (Corrupted sid);
        mret (take (Z.to_nat (stop - start)) (drop (Z.to_nat start) entry.2))
    end).

(** [rows[..len]] panics past the end: the worker's failure is the answer. *)
Definition rewrite_slice (sid : string) (layout : MaterializedBlobLayout Message Commit) (strand : string) (len : Z)
    : SOp (list Message) :=
  entry ← lift_result (ok_or (find_first (λ e : string * list Message, e.1 =b strand) (strands layout)) (Corrupted sid));
  _ ← throw_if (Z.of_nat (length entry.2) <? len)
        (session_err "continuity load_rewrites"
           (StoreIo ("continuity load_rewrites blocking worker failed: " +:+ panic_text env)));
  mret (take (Z.to_nat len) entry.2).

Fixpoint blob_rewrites (sid : string) (layout : MaterializedBlobLayout Message Commit) (rows : list (RewriteRow Commit))
    : SOp (list Rewrite) :=
  match rows with
  | [] => mret []
  | row :: rest =>
      parent ← rewrite_slice sid layout (row_parent_strand row) (row_parent_len row);
      revision ← rewrite_slice sid layout (row_strand row) (row_strand_len row);
      record ← lift_result (reconstruct_rewrite_record core sid (row_commit row) parent revision);
      more ← blob_rewrites sid layout rest;
      mret (record :: more)
  end.

Definition load_rewrites (sid : string) : SOp (list Rewrite) :=
  delta_read "continuity load_rewrites" (λ heads,
    found ← (if heads : bool then head_row_in_txn env core sid else mret None);
    match found with
    | Some (head, _) => rewrite_records_in_txn env core sid (head_rewrite_count core head)
    | None =>
        blob ← blob_session_in_txn env core sid;
        match blob with
        | None => mret []
        | Some session =>
            laid_out ← lift_result (layout_for_blob_session core session);
            blob_rewrites sid laid_out.1 (rewrites laid_out.1)
        end
    end).

Definition session_head_matches_current `{!EqDecision Head} (identity sid : string) (gen token : Z) (head : Head)
    : SOp bool :=
  delta_read "continuity session_head_matches_current" (λ heads,
    if negb heads then mret false
    else
      found ← head_row_in_txn env core sid;
      match found with
      | None => mret false
      | Some (stored, _) =>
          if negb (stored =b head) then mret false
          else
            _ ← sql_session env "query continuity record";
            row ← table (λ d, continuity_records d !! identity);
            mret (is_some_and row (λ r, (rec_session r =b sid) && (rec_generation r =? gen) && (rec_token r =? token)))
      end).
End local.
