(* ===== verification/ContinuityProofs.v ===== *)
(** * Identity continuity: what a transaction function may touch

    The functions that lay out, read, append to and migrate one session work on
    the rows of that session only ([touches]).  They never write the continuity
    records, the ledger or the owner columns of a stored document, and they keep
    every recorded identity binding. *)

From S2P Require Import Prelude Strings SqlWorld ContinuityTypes ContinuityTables ContinuityLocal.
Open Scope Z_scope.

(** The columns of a snapshot that state who owns it, and at which version. *)
Definition snap_stamp (row : SnapshotRow) : string * Z * Z * Z :=
  (snap_identity row, snap_generation row, snap_version row, snap_token row).

(** Transitivity through two hypotheses. *)
Ltac chain := etrans; [multimatch goal with H : _ |- _ => solve [apply H; assumption|apply H] end|solve [eauto]].

(** The rows of the sessions other than [sid], the schema, the ledger and the
    coverage stay, and no identity binding is forgotten. *)
Record elsewhere (sid : string) (d d' : Db) : Prop := mkElsewhere {
  same_schema : head_tables d' = head_tables d;
  same_ledger : ledger d' = ledger d;
  same_coverage : continuity_identity_coverage d' = continuity_identity_coverage d;
  more_history : continuity_identity_history d ⊆ continuity_identity_history d';
  same_snapshots : ∀ s, s ≠ sid → session_snapshots d' !! s = session_snapshots d !! s;
  same_heads : ∀ s, s ≠ sid → continuity_session_heads d' !! s = continuity_session_heads d !! s;
  same_strands : ∀ s strand i, s ≠ sid →
    continuity_strand_messages d' !! (s, strand, i) = continuity_strand_messages d !! (s, strand, i);
  same_rewrites : ∀ s i, s ≠ sid →
    continuity_session_rewrites d' !! (s, i) = continuity_session_rewrites d !! (s, i);
}.

#[global] Instance elsewhere_preorder sid : PreOrder (elsewhere sid).
Proof.
  split.
  - intros d. by constructor.
  - intros d1 d2 d3 [] []. constructor; intros; chain.
Qed.

(** The tables outside the session [sid] are unchanged, and so is everything that
    is not the content of a session. *)
Record touches (sid : string) (w w' : CWorld) : Prop := mkTouches {
  touch_committed : committed w' = committed w;
  touch_volatile : volatile w' = volatile w;
  touch_observed : (observed w ≤ observed w')%nat;
  touch_elsewhere : elsewhere sid (working w) (working w');
  touch_records : continuity_records (working w') = continuity_records (working w);
  touch_stamps : ∀ s, snap_stamp <$> session_snapshots (working w') !! s =
                      snap_stamp <$> session_snapshots (working w) !! s;
}.

#[global] Instance touches_preorder sid : PreOrder (touches sid).
Proof.
  split.
  - intros w. by constructor.
  - intros w1 w2 w3 [? ? ? He1 ? ?] [? ? ? He2 ? ?].
    constructor; intros; first [lia|chain].
Qed.

(** Observations stay within the relation. *)
Class Ticks (R : relation CWorld) : Prop := tick_in : ∀ w, R w (tick w).

#[global] Instance touches_tick sid : Ticks (touches sid).
Proof. constructor; try done. simpl. lia. Qed.

(** Nothing moved but the number of observations. *)
Definition steady (w w' : CWorld) : Prop :=
  committed w' = committed w ∧ working w' = working w ∧ volatile w' = volatile w ∧ (observed w ≤ observed w')%nat.
#[global] Instance steady_preorder : PreOrder steady.
Proof. unfold steady. split; [done|]. intros w1 w2 w3 (? & ? & ? & ?) (? & ? & ? & ?). split_and!; [congruence..|lia]. Qed.
#[global] Instance steady_tick : Ticks steady.
Proof. intros w. unfold steady. simpl. split_and!; [done..|lia]. Qed.

(** Moreover the stored documents stay as they are, no transcript row changes or
    disappears, and neither does a head. *)
Record appends (sid : string) (w w' : CWorld) : Prop := mkAppends {
  append_touches : touches sid w w';
  append_snapshots : session_snapshots (working w') = session_snapshots (working w);
  append_strands : continuity_strand_messages (working w) ⊆ continuity_strand_messages (working w');
  append_heads : ∀ s, is_Some (continuity_session_heads (working w) !! s) →
                      is_Some (continuity_session_heads (working w') !! s);
}.

#[global] Instance appends_preorder sid : PreOrder (appends sid).
Proof.
  split.
  - intros w. by constructor.
  - intros w1 w2 w3 [? ? ? ?] [? ? ? ?]. constructor; intros; first [chain|by eauto].
Qed.
#[global] Instance appends_tick sid : Ticks (appends sid).
Proof. constructor; [apply touches_tick|done..]. Qed.

Lemma within_appends {E A} sid (f : M CWorld E A) : within (appends sid) f → within (touches sid) f.
Proof. intros Hf w. apply append_touches, Hf. Qed.

(** An update of the working tables that only changes rows of the session. *)
Lemma within_update {E} sid (f : Db → Db) :
  (∀ d, elsewhere sid d (f d) ∧ continuity_records (f d) = continuity_records d) →
  (∀ d s, snap_stamp <$> session_snapshots (f d) !! s = snap_stamp <$> session_snapshots d !! s) →
  within (touches sid) (update (E := E) f).
Proof.
  intros H1 Hst. apply within_modify. intros w. destruct (H1 (working w)) as [? ?]. by constructor; simpl; auto.
Qed.

Lemma within_update_appends {E} sid (f : Db → Db) :
  (∀ d, elsewhere sid d (f d) ∧ continuity_records (f d) = continuity_records d) →
  (∀ d, session_snapshots (f d) = session_snapshots d ∧
        continuity_strand_messages (f d) = continuity_strand_messages d) →
  (∀ d s, is_Some (continuity_session_heads d !! s) → is_Some (continuity_session_heads (f d) !! s)) →
  within (appends sid) (update (E := E) f).
Proof.
  intros H1 H2 H3. apply within_modify. intros w. destruct (H1 (working w)) as [? ?].
  destruct (H2 (working w)) as [Hs Ht]. constructor; simpl; [constructor; simpl; try done; intros; by rewrite Hs|..]; auto.
  by rewrite Ht.
Qed.

(** Closes what an update of one table leaves of [within_update]. *)
Ltac one_table := apply within_update; [intros d; split; [constructor; try done; simpl|done]|try done].

(** A deletion keeps the rows its predicate does not name. *)
Lemma filter_keeps {K A} `{Countable K} (P : K * A → Prop) `{!∀ x, Decision (P x)} (m : gmap K A) (k : K) :
  (∀ a, m !! k = Some a → P (k, a)) → filter P m !! k = m !! k.
Proof.
  intros HP. destruct (m !! k) as [a|] eqn:Em.
  - apply map_lookup_filter_Some. auto.
  - apply map_lookup_filter_None. by left.
Qed.

(** ** Reads

    The functions that only read, in any relation that admits observations. *)

Section reading.
Context (env : ContinuityEnv).
Context {Session Message Head Commit Rewrite RowPrefix RewritePrefix : Type}.
Context (core : SessionCore Session Message Head Commit Rewrite RowPrefix RewritePrefix).
Context (R : relation CWorld) {R_pre : PreOrder R} {R_tick : Ticks R}.

Lemma read_sql context : within R (sql env context).
Proof using R_tick. apply within_statement, R_tick. Qed.
Lemma read_sql_session context : within R (sql_session env context).
Proof using R_tick. apply within_with_err, read_sql. Qed.
Lemma read_table {E A} (f : Db → A) : within R (table (E := E) f).
Proof using R_pre. apply within_gets. apply _. Qed.
Lemma read_observe {E A} (f : nat → A) : within (F := E) R (observe f).
Proof using R_tick. intros w. apply R_tick. Qed.
#[local] Hint Resolve read_sql read_sql_session read_table read_observe : meta.

Lemma read_head_sql context : within R (head_sql env context).
Proof using R_pre R_tick. unfold head_sql. auto 10 with meta. Qed.
Lemma read_head_sql_session context : within R (head_sql_session env context).
Proof using R_pre R_tick. apply within_with_err, read_head_sql. Qed.
Lemma read_bind_u64 context l : within R (bind_u64 env context l).
Proof using R_pre. unfold bind_u64. auto with meta. Qed.
Lemma read_as_i64 id n : within R (as_i64 id n).
Proof using R_pre. unfold as_i64. auto with meta. Qed.
#[local] Hint Resolve read_head_sql read_head_sql_session read_bind_u64 read_as_i64 : meta.

Lemma read_head_row s : within R (head_row_in_txn env core s).
Proof using R_pre R_tick.
  unfold head_row_in_txn. repeat (apply (within_bind R); [by auto with meta|intros]). case_match; auto with meta.
Qed.
Lemma read_head_owner s : within R (head_owner_in_txn env s).
Proof using R_pre R_tick. unfold head_owner_in_txn. auto with meta. Qed.
Lemma read_strand_row_count s strand : within R (strand_row_count_in_txn env s strand).
Proof using R_pre R_tick. unfold strand_row_count_in_txn. auto with meta. Qed.
Lemma read_strand_row_bytes s strand a b : within R (strand_row_bytes_in_txn env s strand a b).
Proof using R_pre R_tick. unfold strand_row_bytes_in_txn. case_match; auto 10 with meta. Qed.
#[local] Hint Resolve read_head_row read_strand_row_bytes : meta.
Lemma read_strand_messages s strand a b : within R (strand_messages_in_txn env core s strand a b).
Proof using R_pre R_tick. unfold strand_messages_in_txn. auto with meta. Qed.
Lemma read_rewrite_row_count s : within R (rewrite_row_count_in_txn env s).
Proof using R_pre R_tick. unfold rewrite_row_count_in_txn. auto with meta. Qed.
Lemma read_rewrite_rows s n : within R (rewrite_rows_in_txn env core s n).
Proof using R_pre R_tick. unfold rewrite_rows_in_txn. auto 10 with meta. Qed.
#[local] Hint Resolve read_strand_messages read_rewrite_rows : meta.
Lemma read_rewrite_records s n : within R (rewrite_records_in_txn env core s n).
Proof using R_pre R_tick.
  unfold rewrite_records_in_txn. apply (within_bind R); [auto with meta|intros rows].
  induction rows as [|row rows IH]; simpl; auto 10 with meta.
Qed.
Lemma read_import_released_head s head context : within R (import_released_head_in_txn env core s head context).
Proof using R_pre R_tick.
  unfold import_released_head_in_txn. repeat (apply (within_bind R); [by auto with meta|intros]).
  case_match. case_match. auto with meta.
Qed.
#[local] Hint Resolve read_import_released_head : meta.
Lemma read_materialize s head : within R (materialize_slim_in_txn env core s head).
Proof using R_pre R_tick.
  unfold materialize_slim_in_txn. apply (within_bind R); [auto with meta|intros]. repeat case_match; auto with meta.
Qed.
End reading.

#[export] Hint Extern 0 (Ticks _) => apply _ : meta.
#[export] Hint Resolve read_sql read_sql_session read_table read_observe read_head_sql read_head_sql_session
  read_bind_u64 read_as_i64 read_head_row read_head_owner read_strand_row_count read_strand_row_bytes
  read_strand_messages read_rewrite_row_count read_rewrite_rows read_rewrite_records read_import_released_head
  read_materialize : meta.

Section touching.
Context (env : ContinuityEnv).
Context {Session Message Head Commit Rewrite RowPrefix RewritePrefix : Type}.
Context (core : SessionCore Session Message Head Commit Rewrite RowPrefix RewritePrefix).

(** A head is stored under the session it was made from. *)
Class HeadKeys : Prop := {
  from_session_key : ∀ s strand n h, from_session core s strand n = Ok h → head_key core h = session_key core s;
  from_session_proved_key : ∀ s strand p q h,
    from_session_proved core s strand p q = Ok h → head_key core h = session_key core s;
  without_row_authority_key : ∀ h, head_key core (without_row_authority core h) = head_key core h;
}.

(** What the computation returns satisfies [P]. *)
Definition yields {E A} (P : A → Prop) (m : M CWorld E A) : Prop := ∀ w a, (m w).1 = Ok a → P a.

Lemma yields_bind {E A B} P (m : M CWorld E A) (g : A → M CWorld E B) : (∀ a, yields P (g a)) → yields P (m ≫= g).
Proof. intros Hg w b. unfold mbind, m_bind. destruct (m w) as [[a|e] w']; simpl; [apply Hg|done]. Qed.
Lemma yields_lift {E A} (P : A → Prop) (r : Result A E) : (∀ a, r = Ok a → P a) → yields P (lift_result r).
Proof. intros HP w a. apply HP. Qed.

Lemma within_yields_bind R `{!PreOrder R} {E A B} P (m : M CWorld E A) (g : A → M CWorld E B) :
  within R m → yields P m → (∀ a, P a → within R (g a)) → within R (m ≫= g).
Proof.
  intros Hm HP Hg w. specialize (Hm w). specialize (HP w). unfold mbind, m_bind.
  destruct (m w) as [[a|e] w']; simpl in *; [|done]. etrans; [done|by apply Hg, HP].
Qed.

Section session.
Context (sid : string).
Notation T := (touches sid).
Notation R := (appends sid).

(** ** Appending *)

Lemma append_bind_history context s identity : within R (bind_history env context s identity).
Proof.
  intros w. unfold bind_history, table, gets, mbind, m_bind. simpl.
  destruct (history_enabled _); [|simpl; reflexivity].
  destruct (continuity_identity_history (working w) !! s) as [other|] eqn:Eh; [by destruct (negb _)|].
  unfold update, modify. simpl. constructor; try done. constructor; try done. constructor; try done.
  by apply insert_subseteq.
Qed.
#[local] Hint Resolve append_bind_history : meta.

Lemma append_write_head_row h identity gen version token :
  head_key core h = sid → within R (write_head_row_in_txn env core h identity gen version token).
Proof.
  intros Hk. unfold write_head_row_in_txn. rewrite Hk.
  repeat (apply (within_bind R); [by auto with meta|intros]). apply (within_bind R); [|auto with meta].
  apply within_update_appends; [intros d; split; [constructor; try done; simpl|done]|done|].
  - intros s Hs. by rewrite lookup_insert_ne.
  - intros d s Hs. simpl. rewrite lookup_insert_is_Some'. auto.
Qed.

(** A new row has a fresh key: nothing stored is replaced. *)
Lemma append_row strand i row (e : SessionStoreError) :
  within R (present ← table (λ d, is_some (continuity_strand_messages d !! (sid, strand, i)));
            _ ← throw_if present e; update (with_strands (insert (sid, strand, i) row))).
Proof.
  intros w. unfold table, gets, throw_if, mbind, m_bind. simpl.
  destruct (continuity_strand_messages (working w) !! (sid, strand, i)) eqn:Ei; simpl; [done|].
  constructor; simpl; [constructor; try done; simpl| | |]; try done.
  - constructor; try done. intros s st j Hs. simpl. rewrite lookup_insert_ne; congruence.
  - by apply insert_subseteq.
Qed.
#[local] Hint Resolve append_write_head_row append_row : meta.

Lemma append_insert_rows strand identity gen created existing seq l :
  within R (insert_rows env sid strand identity gen created existing seq l).
Proof.
  revert seq. induction l as [|bytes l IH]; intros seq; simpl; [auto with meta|].
  apply (within_bind R); [|intros; apply IH]. case_match; [auto with meta|].
  do 3 (apply (within_bind R); [by auto with meta|intros]). apply append_row.
Qed.
#[local] Hint Resolve append_insert_rows : meta.

Lemma append_insert_strand_rows strand base messages identity gen :
  within R (insert_strand_rows_in_txn env core sid strand base messages identity gen).
Proof.
  unfold insert_strand_rows_in_txn. repeat (apply (within_bind R); [by auto with meta|intros]).
  apply (within_bind R); [case_match; auto with meta|auto with meta].
Qed.
#[local] Hint Resolve append_insert_strand_rows : meta.

Lemma append_insert_rewrite_row idx row identity gen :
  within R (insert_rewrite_row_in_txn env core sid idx row identity gen).
Proof.
  unfold insert_rewrite_row_in_txn. repeat (apply (within_bind R); [by auto with meta|intros]).
  apply within_update_appends; [intros d; split; [constructor; try done; simpl|done]|done|done].
  intros s i Hs. rewrite lookup_insert_ne; congruence.
Qed.
#[local] Hint Resolve append_insert_rewrite_row : meta.

Lemma append_write_strands l identity gen : within R (write_strands env core sid l identity gen).
Proof. induction l as [|[strand rows] l IH]; simpl; auto with meta. Qed.
Lemma append_write_rewrites idx l identity gen : within R (write_rewrites env core sid idx l identity gen).
Proof. revert idx. induction l as [|row l IH]; intros idx; simpl; auto with meta. Qed.
#[local] Hint Resolve append_write_strands append_write_rewrites : meta.

(** ** Importing and replacing *)

#[local] Hint Extern 2 (within (touches _) _) => apply within_appends : meta.
Lemma touch_import_released_blob source e : within T (import_released_blob_in_txn env core sid source e).
Proof.
  unfold import_released_blob_in_txn. apply (within_bind T); [auto with meta|intros [session [sha key]]].
  repeat (apply (within_bind T); [by auto with meta|intros]). case_match; [case_match; auto with meta|].
  apply (within_bind T); [auto with meta|intros present]. apply (within_bind T); [|auto with meta].
  one_table.
  - intros s Hs. simpl. by rewrite lookup_alter_ne.
  - intros d s. simpl. destruct (decide (s = sid)) as [->|Hne].
    + rewrite lookup_alter_eq. by destruct (session_snapshots d !! sid).
    + by rewrite lookup_alter_ne.
Qed.
#[local] Hint Resolve touch_import_released_blob : meta.

Lemma touch_blob_session : within T (blob_session_in_txn env core sid).
Proof.
  unfold blob_session_in_txn. repeat (apply (within_bind T); [by auto with meta|intros]).
  repeat case_match; auto with meta.
Qed.


Lemma touch_delete_orphans : within T (delete_orphan_head_canonical_rows_in_txn env sid).
Proof.
  unfold delete_orphan_head_canonical_rows_in_txn. apply (within_bind T); [auto with meta|intros _].
  apply (within_bind T); [|intros _; apply (within_bind T); [auto with meta|intros _]].
  - one_table. intros s strand i Hs. simpl.
    by apply filter_keeps.
  - one_table. intros s i Hs. simpl. by apply filter_keeps.
Qed.
#[local] Hint Resolve touch_blob_session touch_delete_orphans : meta.

Context {Hkeys : HeadKeys}.

Lemma layout_head_key session layout head :
  layout_for_blob_session core session = Ok (layout, head) → head_key core head = session_key core session.
Proof using Hkeys.
  unfold layout_for_blob_session. intros (l & _ & H)%and_then_Ok. apply and_then_Ok in H as (m & _ & H).
  apply and_then_Ok in H as (h & Hh & [= _ <-]). by eapply from_session_key.
Qed.

(** Laying a document out as rows and a head of its session. *)
Lemma append_lay_out {A} session identity gen version token (k : Head → string → A) :
  session_key core session = sid →
  within R (laid_out ← lift_result (layout_for_blob_session core session);
            let '(layout, head) := laid_out in
            _ ← write_strands env core sid (strands layout) identity gen;
            _ ← write_rewrites env core sid 0 (rewrites layout) identity gen;
            cas ← write_head_row_in_txn env core head identity gen version token;
            mret (k head cas)).
Proof using Hkeys.
  intros Hkey. unfold mbind, m_bind, lift_result.
  destruct (layout_for_blob_session core session) as [[layout head]|e] eqn:El; [|intros w; by simpl].
  apply layout_head_key in El. intros w. simpl.
  apply (within_bind R); [by auto with meta|intros]. apply (within_bind R); [by auto with meta|intros].
  apply (within_bind R); [apply append_write_head_row; congruence|auto with meta].
Qed.

Lemma touch_migrate identity gen version token :
  within T (migrate_legacy_blob_in_txn env core sid identity gen version token).
Proof using Hkeys.
  unfold migrate_legacy_blob_in_txn. apply (within_bind T); [auto with meta|intros [session|]]; [|auto with meta].
  destruct (session_key core session =b sid) eqn:Ek; [|intros w; by simpl].
  apply bool_decide_eq_true in Ek. apply (within_bind T); [auto with meta|intros _].
  apply (within_bind T); [auto with meta|intros _]. apply within_appends; by apply (append_lay_out _ _ _ _ _ (λ h c, Some (h, c))).
Qed.

Lemma touch_ensure identity gen version token :
  within T (ensure_head_canonical_for_write_in_txn env core sid identity gen version token).
Proof using Hkeys.
  unfold ensure_head_canonical_for_write_in_txn. apply (within_bind T); [auto with meta|intros [found|]];
    [auto with meta|apply touch_migrate].
Qed.
#[local] Hint Resolve touch_ensure : meta.

Lemma touch_adopt incoming identity gen version token :
  session_key core incoming = sid →
  within T (adopt_released_head_in_txn env core incoming identity gen version token).
Proof using Hkeys.
  intros Hk. unfold adopt_released_head_in_txn. rewrite Hk.
  apply (within_bind T); [auto with meta|intros [[head cas]|]]; [|auto with meta].
  do 4 (apply (within_bind T); [by auto with meta|intros]).
  apply within_appends; by apply (append_lay_out _ _ _ _ _ (λ _ _, tt)).
Qed.

(** The head a document write stores is one of the session. *)
Lemma new_head_key session head identity gen plain :
  yields (λ h, head_key core h = session_key core session) (canonical_head env core session head identity gen plain).
Proof using Hkeys.
  unfold canonical_head. destruct plain; repeat (apply yields_bind; intros); [case_match|].
  - repeat (apply yields_bind; intros). apply yields_lift. by intros h Hh%from_session_proved_key.
  - intros w h. unfold mbind, m_bind, lift_result. simpl.
    destruct (from_session core _ _ _) eqn:Ef; simpl; [|done]. intros [= <-].
    rewrite without_row_authority_key. by apply from_session_key in Ef.
  - apply yields_lift. by intros h Hh%from_session_key.
Qed.

Lemma append_canonical_head session head identity gen plain :
  session_key core session = sid → within R (canonical_head env core session head identity gen plain).
Proof.
  intros Hk. unfold canonical_head. rewrite Hk.
  destruct plain; [apply (within_bind R); [case_match; auto with meta|intros _]; case_match|]; auto 10 with meta.
Qed.

Lemma append_write_head_canonical session head identity gen version token :
  session_key core session = sid →
  within R (write_head_canonical_session_in_txn env core session head identity gen version token).
Proof using Hkeys.
  intros Hk. unfold write_head_canonical_session_in_txn.
  apply (within_bind R); [case_match; auto with meta|intros plain].
  apply (within_yields_bind R (λ h, head_key core h = session_key core session));
    [by apply append_canonical_head|apply (new_head_key session head identity gen plain)|].
  intros h Hh. rewrite Hk in Hh. auto with meta.
Qed.
End session.
End touching.
