(* ===== verification/ContinuityWrites.v ===== *)
(** * Identity continuity: what a write of the local store commits

    The exact tables each write leaves behind when it is accepted, what it
    checked first, and that a refused one commits nothing. *)

From S2P Require Import Prelude Strings SqlWorld ContinuityTypes ContinuityTables ContinuityLocal ContinuityProofs.
Open Scope Z_scope.

(** ** Specifications *)

(** An accepted call commits tables that satisfy [Q], a refused one none. *)
Definition outcome {A E} (d : Db) (Q : A → Db → Prop) (r : Result A E) (w : CWorld) : Prop :=
  match r with
  | Ok a => Q a (committed w)
  | Err _ => committed w = d
  end.

(** The write cursor against the identity's record: the same session and
    generation, a fence not below the stored one, a newer checkpoint. *)
Definition cursor_admits (d : Db) (identity sid : string) (gen version token : Z) : Prop :=
  match continuity_records d !! identity with
  | None => True
  | Some row => rec_session row = sid ∧ rec_generation row = gen ∧ rec_token row ≤ token ∧ rec_version row < version
  end.

Definition owns_snapshot (d : Db) (identity sid : string) (gen : Z) : Prop :=
  ∀ row, session_snapshots d !! sid = Some row → snap_identity row = identity ∧ snap_generation row = gen.
Definition owns_head (d : Db) (identity sid : string) (gen : Z) : Prop :=
  ∀ row, continuity_session_heads d !! sid = Some row → hd_identity row = identity ∧ hd_generation row = gen.

Definition advanced (version token : Z) (row : RecordRow) : RecordRow :=
  mkRecordRow (rec_runtime row) (rec_session row) (rec_generation row) version token.

(** The tables after an accepted write under a cursor: the identity's record
    carries the cursor, other sessions and identities are as before.  What became
    of the schema and the ledger is stated apart. *)
Record written (d d' : Db) (identity sid : string) (version token : Z) : Prop := mkWritten {
  written_elsewhere : elsewhere sid (with_schema (head_tables d') (ledger d') d) d';
  written_records : continuity_records d' = alter (advanced version token) identity (continuity_records d);
}.

(** The history after a row bound [sid] to [identity]. *)
Definition bound (d : Db) (sid identity : string) : Db :=
  if history_enabled d then with_history (λ h, match h !! sid with Some _ => h | None => <[sid := identity]> h end) d
  else d.
Definition binding_allowed (d : Db) (sid identity : string) : Prop :=
  history_enabled d = true → ∀ other, continuity_identity_history d !! sid = Some other → other = identity.

Lemma wp_update {E} (f : Db → Db) (Q : Result unit E → CWorld → Prop) c d v n :
  wp (update f) Q (mkWorld c d v n) ↔ Q (Ok tt) (mkWorld c (f d) v n).
Proof. done. Qed.
Lemma wp_table {E A} (f : Db → A) (Q : Result A E → CWorld → Prop) c d v n :
  wp (table f) Q (mkWorld c d v n) ↔ Q (Ok (f d)) (mkWorld c d v n).
Proof. done. Qed.

Lemma wp_steady {E A} (m : M CWorld E A) Q c d v n :
  within steady m → (∀ r n', Q r (mkWorld c d v n')) → wp m Q (mkWorld c d v n).
Proof.
  intros Hm HQ. unfold wp. destruct (Hm (mkWorld c d v n)) as (Hc & Hw & Hv & _).
  destruct (m (mkWorld c d v n)) as [r [c' d' v' n']]. simpl in *. subst. apply HQ.
Qed.

Ltac db_step :=
  cbv beta iota delta [map_err];
  lazymatch goal with
  | |- wp (update _) _ _ => apply wp_update
  | |- wp (table _) _ _ => apply wp_table
  | |- wp _ _ _ => wp_step
  end; cbv beta iota.

Section writes.
Context (env : ContinuityEnv).
Context {Session Message Head Commit Rewrite RowPrefix RewritePrefix : Type}.
Context (core : SessionCore Session Message Head Commit Rewrite RowPrefix RewritePrefix).
Notation sql := (sql env).

(** ** Steps *)

Lemma wp_sql context Q c d v n :
  (∀ e, Q (Err e) (mkWorld c d v (S n))) → Q (Ok tt) (mkWorld c d v (S n)) → wp (sql context) Q (mkWorld c d v n).
Proof. intros He Ho. apply wp_statement; [intros e _; apply He|apply Ho]. Qed.

Lemma wp_head_sql context Q c d v n :
  (∀ e, Q (Err e) (mkWorld c d v (S n))) → (head_tables d = true → Q (Ok tt) (mkWorld c d v (S n))) →
  wp (head_sql env context) Q (mkWorld c d v n).
Proof.
  intros He Ho. unfold head_sql. wp_step. apply wp_sql; [intros; apply He|].
  do 3 db_step. destruct (head_tables d); simpl; auto.
Qed.

Lemma wp_bind_u64 context l Q w :
  (∀ e, Q (Err e) w) → (Forall (λ z, z ≤ I64_MAX) l → Q (Ok tt) w) → wp (bind_u64 env context l) Q w.
Proof.
  intros He Ho. unfold bind_u64. wp_step. destruct (forallb fits_i64 l) eqn:Ef; [|apply He]. apply Ho.
  apply Forall_forall. intros z Hz. rewrite forallb_elem_of in Ef. specialize (Ef z Hz). unfold fits_i64 in Ef. lia.
Qed.

Lemma wp_available Q c d v n :
  (∀ e, Q (Err e) (mkWorld c d v (S n))) →
  (∀ n', Q (Ok (head_canonical_schema v || head_tables d))
     (mkWorld c d (mkLatches (head_canonical_schema v || head_tables d) (head_canonical_ledger v)) n')) →
  wp (head_tables_available env) Q (mkWorld c d v n).
Proof.
  intros He Ho. unfold head_tables_available. do 2 wp_step. destruct v as [[] l]; simpl in *; [by wp_step|].
  wp_step. apply wp_sql; [intros; apply He|]. do 5 db_step. destruct (head_tables d); apply Ho.
Qed.

Lemma wp_bind_history context sid identity Q c d v n :
  (∀ e, Q (Err e) (mkWorld c d v n)) →
  (binding_allowed d sid identity → Q (Ok tt) (mkWorld c (bound d sid identity) v n)) →
  wp (bind_history env context sid identity) Q (mkWorld c d v n).
Proof.
  intros He Ho. unfold bind_history, binding_allowed, bound in *. do 2 db_step. simpl.
  destruct (history_enabled d); [|db_step; by apply Ho].
  destruct (continuity_identity_history d !! sid) as [other|] eqn:Eh.
  - wp_step. case_bool_decide; simpl; [|apply He]. subst. unfold with_history in Ho. rewrite Eh in Ho.
    destruct d. apply Ho. intros _ ? [= <-]. done.
  - db_step. unfold with_history in *. rewrite Eh in Ho. apply Ho. done.
Qed.

Lemma wp_connection {A} (f : COp A) Q w :
  (∀ e n, Q (Err e) (mkWorld (committed w) (working w) (volatile w) n)) →
  (∀ n, wp f Q (mkWorld (committed w) (committed w) (volatile w) n)) → wp (with_connection env f) Q w.
Proof. intros He Hf. apply wp_enter; [intros e; apply He|apply Hf]. Qed.

Lemma wp_commit context Q c d v n :
  (∀ e, Q (Err e) (mkWorld c d v (S n))) → Q (Ok tt) (mkWorld d d v (S n)) →
  wp (commit env context) Q (mkWorld c d v n).
Proof. intros He Ho. by apply wp_commit_tables. Qed.

End writes.

(** An error exit: nothing was committed. *)
Ltac refused := intros; cbv beta iota; exact eq_refl.

(** One step of a transaction whose error exits commit nothing. *)
Ltac tx_step :=
  lazymatch goal with
  | |- wp (_ ≫= _) _ _ => apply wp_bind
  | |- wp (ContinuityTables.sql _ _) _ _ => apply wp_sql; [refused|]
  | |- wp (head_sql _ _) _ _ => apply wp_head_sql; [refused|intros ?]
  | |- wp (bind_u64 _ _ _) _ _ => apply wp_bind_u64; [refused|intros ?]
  | |- wp (head_tables_available _) _ _ => apply wp_available; [refused|intros ?]
  | |- wp (bind_history _ _ _ _) _ _ => apply wp_bind_history; [refused|intros ?]
  | |- wp (with_connection _ _) _ _ => apply wp_connection; [refused|intros ?]
  | |- wp (commit _ _) _ _ => apply wp_commit; [refused|]
  | |- wp _ _ _ => db_step
  end; cbn [committed working volatile observed]; cbv beta iota.

(** Neither were the latches set. *)
Ltac delta_refused := intros; cbv beta iota; exact (conj eq_refl eq_refl).

Section operations.
Context (env : ContinuityEnv).
Context {Session Message Head Commit Rewrite RowPrefix RewritePrefix : Type}.
Context (core : SessionCore Session Message Head Commit Rewrite RowPrefix RewritePrefix).

(** ** Records *)

Definition upsert_admits (d : Db) (record : ContinuityRecord) (token : Z) : Prop :=
  ∀ row, continuity_records d !! record_identity record = Some row →
    rec_token row ≤ token ∧ rec_generation row ≤ generation record.

Definition upserted (d : Db) (record : ContinuityRecord) (token : Z) : Db :=
  bound (with_records (insert (record_identity record)
           (upserted_row (continuity_records d !! record_identity record) record token)) d)
    (session_id record) (record_identity record).

Lemma wp_upsert record token w :
  wp (local_upsert_continuity_record env record token)
    (outcome (committed w) (λ _ d', upsert_admits (committed w) record token ∧
       binding_allowed (committed w) (session_id record) (record_identity record) ∧
       d' = upserted (committed w) record token)) w.
Proof.
  unfold local_upsert_continuity_record. destruct w as [d dw v n0]; cbn [committed volatile]. repeat tx_step. unfold upsert_admits, upserted.
  destruct (continuity_records d !! record_identity record) as [row|] eqn:Er; repeat tx_step; simpl.
  - destruct (Z.ltb_spec token (rec_token row)); simpl; [done|]. repeat tx_step.
    destruct (Z.ltb_spec (generation record) (rec_generation row)); simpl; [done|]. repeat tx_step. simpl.
    split_and!; [|done..]. intros ? [= <-]. lia.
  - split_and!; [|done..]. by intros ? [=].
Qed.

(** [DELETE] of the documents a predicate on session, identity and generation
    names; the head tables are only touched when the handle knows them. *)
Definition without_rows (heads : bool) (doomed : string → string → Z → bool) (d : Db) : Db :=
  if heads then
    with_rewrites (filter (λ kv, doomed kv.1.1 (rw_identity kv.2) (rw_generation kv.2) = false))
      (with_strands (filter (λ kv, doomed kv.1.1.1 (str_identity kv.2) (str_generation kv.2) = false))
         (with_heads (filter (λ kv, doomed kv.1 (hd_identity kv.2) (hd_generation kv.2) = false)) d))
  else d.

Lemma wp_delete_rows doomed Q c d v n (heads : bool) :
  (∀ e d' n', Q (Err e) (mkWorld c d' v n')) →
  (∀ n', Q (Ok tt) (mkWorld c (without_rows heads doomed d) v n')) →
  wp (if heads then delete_head_canonical_rows_in_txn env doomed else mret tt) Q (mkWorld c d v n).
Proof.
  intros He Ho. destruct heads; [|by wp_step]. unfold delete_head_canonical_rows_in_txn.
  do 3 (wp_step; apply wp_head_sql; [intros; apply He|intros _; try wp_step; db_step]). apply Ho.
Qed.

Definition delete_admits (d : Db) (identity : string) (token : Z) : Prop :=
  ∀ row, continuity_records d !! identity = Some row → rec_token row ≤ token.

Definition identity_deleted (heads : bool) (identity : string) (d : Db) : Db :=
  with_records (delete identity) (without_rows heads (λ _ i _, i =b identity)
    (with_snapshots (filter (λ kv, negb (snap_identity kv.2 =b identity) = true)) d)).

Definition knows_heads (w : CWorld) : bool := head_canonical_schema (volatile w) || head_tables (committed w).

Lemma wp_delete identity token w :
  wp (local_delete_continuity_record env identity token)
    (outcome (committed w) (λ _ d', delete_admits (committed w) identity token ∧
       d' = identity_deleted (knows_heads w) identity (committed w))) w.
Proof.
  unfold local_delete_continuity_record, knows_heads. destruct w as [d dw v n0]; cbn [committed volatile]. repeat tx_step.
  unfold delete_admits. destruct (continuity_records d !! identity) as [row|] eqn:Er; repeat tx_step; simpl.
  - destruct (Z.ltb_spec token (rec_token row)); simpl; [done|]. repeat tx_step.
    apply wp_delete_rows; [refused|intros]. repeat tx_step. split; [|done]. intros ? [= <-]. lia.
  - apply wp_delete_rows; [refused|intros]. repeat tx_step. split; [|done]. by intros ? [=].
Qed.

Definition rollback_admits (d : Db) (attempt : ContinuityRecord) (token : Z) : Prop :=
  ∃ row, continuity_records d !! record_identity attempt = Some row ∧ rec_token row = token ∧
    rec_runtime row = agent_runtime_id attempt ∧ rec_session row = session_id attempt ∧
    rec_generation row = generation attempt.

(** The documents of the attempted generation go, the record is the previous one
    again (under the caller's fence) or gone. *)
Definition rolled_back (heads : bool) (attempt : ContinuityRecord) (previous : option ContinuityRecord) (token : Z)
    (d : Db) : Db :=
  let d1 := without_rows heads (λ _ i g, (i =b record_identity attempt) && (g =? generation attempt))
    (with_snapshots (filter (λ kv, negb ((snap_identity kv.2 =b record_identity attempt) &&
                                         (snap_generation kv.2 =? generation attempt)) = true)) d) in
  match previous with
  | Some p => bound (with_records (insert (record_identity attempt)
                (mkRecordRow (agent_runtime_id p) (session_id p) (generation p) (checkpoint_version p) token)) d1)
                (session_id p) (record_identity attempt)
  | None => with_records (delete (record_identity attempt)) d1
  end.

Lemma wp_rollback attempt previous token w :
  wp (local_rollback_continuity_record env attempt previous token)
    (outcome (committed w) (λ _ d', rollback_admits (committed w) attempt token ∧
       (∀ p, previous = Some p → record_identity p = record_identity attempt) ∧
       d' = rolled_back (knows_heads w) attempt previous token (committed w))) w.
Proof.
  unfold local_rollback_continuity_record, knows_heads, rollback_admits. destruct w as [d dw v n0]; cbn [committed volatile].
  do 4 tx_step.
  apply (wp_mono _ (λ r w', match r with
    | Ok _ => (∃ n, w' = mkWorld d d (mkLatches (head_canonical_schema v || head_tables d) (head_canonical_ledger v)) n) ∧
              ∀ p, previous = Some p → record_identity p = record_identity attempt
    | Err _ => committed w' = d end)).
  { destruct previous as [p|]; tx_step; [|by split; [eexists|]]. case_bool_decide; simpl; [|done]. split; [by eexists|]. by intros ? [= <-]. }
  intros [[]|e] w'; [|done]. intros [[k ->] Hprev]. repeat tx_step.
  destruct (continuity_records d !! record_identity attempt) as [row|] eqn:Er; simpl; [|done]. repeat tx_step.
  destruct (Z.eqb_spec (rec_token row) token); simpl; [|done]. repeat tx_step.
  case_bool_decide; simpl; [|done]. case_bool_decide; simpl; [|done].
  destruct (Z.eqb_spec (rec_generation row) (generation attempt)); simpl; [|done]. repeat tx_step.
  apply wp_delete_rows; [refused|intros]. destruct previous as [p|]; repeat tx_step; (split_and!; [by exists row|done|done]).
Qed.

(** An unfenced deletion of one document, if it still has the given revision. *)
Lemma wp_delete_document sid expected w :
  wp (local_delete_session_snapshot_if_current_revision env core sid expected)
    (outcome (committed w) (λ _ d', d' = committed w ∨
       d' = without_rows (knows_heads w) (λ s _ _, s =b sid) (with_snapshots (delete sid) (committed w)))) w.
Proof.
  unfold local_delete_session_snapshot_if_current_revision, knows_heads, io_err.
  destruct w as [d dw v n0]; cbn [committed volatile]. do 5 tx_step. set (heads := _ || _).
  wp_step. apply wp_steady; [by destruct heads; auto with meta|]. intros [found|e] n2; [|done].
  wp_step. apply wp_steady.
  { destruct found as [[head cas]|]; [auto with meta|]. do 2 (apply (within_bind steady); [by auto with meta|intros]).
    case_match; auto with meta. }
  intros [[session|]|e] n3; [|tx_step; by left|done].
  tx_step. tx_step. destruct (session_projection_cas_token core session); simpl; [|done].
  case_match; [tx_step; by left|]. repeat tx_step. apply wp_delete_rows; [refused|intros]. repeat tx_step. by right.
Qed.

(** ** Documents *)

Lemma wp_enforce identity sid gen version token Q c d v n :
  (∀ e n', Q (Err e) (mkWorld c d v n')) →
  (∀ n', cursor_admits d identity sid gen version token →
     Q (Ok (is_some (continuity_records d !! identity))) (mkWorld c d v n')) →
  wp (enforce_continuity_cursor_in_txn env identity sid gen version token) Q (mkWorld c d v n).
Proof.
  intros He Ho. unfold enforce_continuity_cursor_in_txn, cursor_admits in *. wp_step. apply wp_sql; [intros; apply He|].
  do 2 db_step. destruct (continuity_records d !! identity) as [row|]; [|db_step; by apply Ho]. do 2 db_step.
  case_bool_decide; simpl; [|apply He]. destruct (Z.eqb_spec (rec_generation row) gen); simpl; [|apply He].
  do 2 db_step. destruct (Z.ltb_spec token (rec_token row)); simpl; [apply He|].
  do 2 db_step. destruct (Z.leb_spec version (rec_version row)); simpl; [apply He|]. db_step. apply Ho. auto.
Qed.

Lemma wp_snapshot_owner sid identity gen Q c d v n :
  (∀ e n', Q (Err e) (mkWorld c d v n')) →
  (∀ n', owns_snapshot d identity sid gen → Q (Ok tt) (mkWorld c d v n')) →
  wp (ensure_snapshot_owner_in_txn env sid identity gen) Q (mkWorld c d v n).
Proof.
  intros He Ho. unfold ensure_snapshot_owner_in_txn, owns_snapshot in *. wp_step. apply wp_sql; [intros; apply He|].
  do 2 db_step. destruct (session_snapshots d !! sid) as [row|]; db_step; [|by apply Ho].
  case_bool_decide; simpl; [|apply He]. destruct (Z.eqb_spec (snap_generation row) gen); simpl; [|apply He].
  apply Ho. by intros ? [= <-].
Qed.

Lemma wp_head_owner sid identity gen Q c d v n :
  (∀ e n', Q (Err e) (mkWorld c d v n')) →
  (∀ n', head_tables d = true → owns_head d identity sid gen → Q (Ok tt) (mkWorld c d v n')) →
  wp (ensure_head_owner_in_txn env sid identity gen) Q (mkWorld c d v n).
Proof.
  intros He Ho. unfold ensure_head_owner_in_txn, head_owner_in_txn, owns_head in *. wp_step. wp_step.
  apply wp_head_sql; [intros; apply He|intros Ht]. db_step.
  destruct (continuity_session_heads d !! sid) as [row|]; simpl; db_step; [|by apply Ho].
  case_bool_decide; simpl; [|apply He]. destruct (Z.eqb_spec (hd_generation row) gen); simpl; [|apply He].
  apply Ho; [done|]. by intros ? [= <-].
Qed.

Lemma wp_advance identity sid gen version token Q c d v n :
  cursor_admits d identity sid gen version token →
  (∀ e n', Q (Err e) (mkWorld c d v n')) →
  (∀ n', Forall (λ z, z ≤ I64_MAX) [version; token; gen] →
     Q (Ok tt) (mkWorld c (with_records (alter (advanced version token) identity) d) v n')) →
  wp (advance_continuity_record_in_txn env identity sid gen version token (is_some (continuity_records d !! identity)))
    Q (mkWorld c d v n).
Proof.
  intros Ha He Ho. unfold advance_continuity_record_in_txn, cursor_admits in *. wp_step.
  apply wp_bind_u64; [intros; apply He|intros Hfit]. wp_step. apply wp_sql; [intros; apply He|]. do 3 db_step.
  destruct (continuity_records d !! identity) as [row|] eqn:Er; simpl.
  - destruct Ha as (-> & -> & _). rewrite bool_decide_eq_true_2, Z.eqb_refl by done. simpl. do 2 db_step. by apply Ho.
  - do 2 db_step. specialize (Ho (S n)). unfold with_records in Ho.
    rewrite alter_id in Ho by (intros ?; by rewrite Er). destruct d. by apply Ho.
Qed.

Context {Hkeys : HeadKeys core}.

(** The head row a session has, as far as the handle looks. *)
Definition head_of (heads : bool) (d : Db) (sid : string) : option HeadRow :=
  if heads then continuity_session_heads d !! sid else None.

Definition head_stamp (row : HeadRow) : string * Z * Z * Z :=
  (hd_identity row, hd_generation row, hd_version row, hd_token row).

(** What an accepted save stores: onto a head-canonical session a head under the
    caller's cursor, the archived document and every transcript row kept;
    otherwise the document itself. *)
Definition document_saved (heads : bool) (d d' : Db) (identity sid : string) (gen version token : Z) (data : string)
    : Prop :=
  match head_of heads d sid with
  | Some _ =>
      head_stamp <$> continuity_session_heads d' !! sid = Some (identity, gen, version, token) ∧
      session_snapshots d' = session_snapshots d ∧
      continuity_strand_messages d ⊆ continuity_strand_messages d'
  | None =>
      session_snapshots d' = <[sid := mkSnapshotRow identity gen version token data]> (session_snapshots d) ∧
      continuity_session_heads d' = continuity_session_heads d ∧
      continuity_strand_messages d' = continuity_strand_messages d ∧
      continuity_session_rewrites d' = continuity_session_rewrites d
  end.

(** A bind whose last step stores the head. *)
Lemma wp_write_head_row head identity gen version token Q c d v n :
  (∀ e d' n', Q (Err e) (mkWorld c d' v n')) →
  (∀ cas d' n', head_stamp <$> continuity_session_heads d' !! head_key core head = Some (identity, gen, version, token) →
     Q (Ok cas) (mkWorld c d' v n')) →
  wp (write_head_row_in_txn env core head identity gen version token) Q (mkWorld c d v n).
Proof.
  intros He Ho. unfold write_head_row_in_txn. wp_step. wp_step. destruct (encode_head core head); [|apply He].
  wp_step. wp_step. destruct (session_head_cas_token core head); [|apply He].
  unfold as_i64. do 2 (do 2 wp_step; destruct (fits_i64 _); simpl; [|apply He]).
  do 2 wp_step. apply wp_bind_u64; [intros; apply He|intros _]. wp_step. unfold head_sql_session.
  wp_step. apply wp_head_sql; [intros; apply He|intros _]. do 2 db_step. do 2 wp_step.
  apply wp_bind_history; [intros; apply He|intros _]. db_step. apply Ho. unfold bound.
  by case_match; simpl; rewrite lookup_insert_eq.
Qed.

Lemma wp_any {E A} (m : M CWorld E A) Q w : (∀ r w', Q r w') → wp m Q w.
Proof. intros HQ. apply HQ. Qed.
Lemma wp_yields {E A} P (m : M CWorld E A) w :
  yields P m → wp m (λ r _, match r with Ok a => P a | Err _ => True end) w.
Proof. intros HP. unfold wp. specialize (HP w). destruct (m w) as [[a|e] w']; simpl in *; auto. Qed.
Lemma wp_within {E A} (R : relation CWorld) (m : M CWorld E A) Q w :
  within R m → wp m Q w → wp m (λ r w', R w w' ∧ Q r w') w.
Proof. intros Hm HQ. split; [apply Hm|apply HQ]. Qed.

(** The write onto a head-canonical session appends, and ends with the head. *)
Lemma wp_write_head_canonical session head identity gen version token w :
  wp (write_head_canonical_session_in_txn env core session head identity gen version token)
    (λ r w', appends (session_key core session) w w' ∧
       match r with
       | Ok _ => head_stamp <$> continuity_session_heads (working w') !! session_key core session =
                 Some (identity, gen, version, token)
       | Err _ => True
       end) w.
Proof using Hkeys.
  apply wp_within; [by apply append_write_head_canonical|]. unfold write_head_canonical_session_in_txn.
  wp_step. apply wp_any. intros [plain|e] w1; [|done]. wp_step.
  apply (wp_mono _ (λ r _, match r with Ok h => head_key core h = session_key core session | Err _ => True end)).
  { by apply wp_yields, new_head_key. }
  intros [h|e] [c d v n]; [|done]. intros Hk. wp_step. apply wp_write_head_row; [done|].
  intros cas d' n' Hs. wp_step. by rewrite <- Hk.
Qed.

Lemma wp_head_row sid Q c d v n :
  (∀ e n', Q (Err e) (mkWorld c d v n')) →
  (∀ n', head_tables d = true → continuity_session_heads d !! sid = None → Q (Ok None) (mkWorld c d v n')) →
  (∀ n' row head, head_tables d = true → continuity_session_heads d !! sid = Some row →
     decode_head core (hd_json row) = Some head → Q (Ok (Some (head, hd_cas_token row))) (mkWorld c d v n')) →
  wp (head_row_in_txn env core sid) Q (mkWorld c d v n).
Proof.
  intros He Hn Hs. unfold head_row_in_txn. wp_step. unfold head_sql_session. wp_step.
  apply wp_head_sql; [intros; apply He|intros Ht]. do 2 db_step.
  destruct (continuity_session_heads d !! sid) as [row|] eqn:Er; db_step; [|by apply Hn].
  wp_step. destruct (decode_head core (hd_json row)) as [head|] eqn:Ed; simpl; [|apply He]. db_step. by apply Hs.
Qed.

Lemma wp_write_document heads identity sid gen version token data Q c d v n :
  (∀ e d' n', Q (Err e) (mkWorld c d' v n')) →
  (∀ d' n', elsewhere sid d d' → continuity_records d' = continuity_records d →
     document_saved heads d d' identity sid gen version token data → Q (Ok tt) (mkWorld c d' v n')) →
  wp (write_document_in_txn env core heads identity sid gen version token data) Q (mkWorld c d v n).
Proof using Hkeys.
  intros He Ho. unfold write_document_in_txn, io_err. wp_step.
  assert (∀ n', head_of heads d sid = None →
    wp (_ ← bind_u64 env "upsert snapshot" [gen; version; token];
        _ ← sql env "upsert snapshot";
        _ ← update (with_snapshots (insert sid (mkSnapshotRow identity gen version token data)));
        bind_history env "upsert snapshot" sid identity) Q (mkWorld c d v n')) as Hblob.
  { intros n' Hno. wp_step. apply wp_bind_u64; [intros; apply He|intros _]. wp_step.
    apply wp_sql; [intros; apply He|]. do 2 db_step. apply wp_bind_history; [intros; apply He|intros _].
    apply Ho; unfold bound, document_saved; [| |rewrite Hno]; case_match; try done.
    - constructor; try done; simpl; intros; rewrite ?lookup_insert_ne by done; try done.
      case_match; [done|by apply insert_subseteq].
    - constructor; try done. intros s Hs. simpl. by rewrite lookup_insert_ne. }
  destruct heads; [|db_step; by apply Hblob]. wp_step. apply wp_head_row; [intros; apply He| |].
  - intros n' _ Hno. by apply Hblob.
  - intros n' row head _ Hrow _. cbv beta iota delta [map_err]. wp_step. wp_step.
    destruct (decode_session core data) as [session|]; simpl; [|apply He]. wp_step. wp_step.
    case_bool_decide as Hk; simpl; [|apply He]. wp_step.
    eapply wp_mono; [apply wp_write_head_canonical|]. intros r [c' d' v' k] [[Ht Hsn Hst Hh] Hok].
    destruct Ht as [Hc Hv _ Hel Hrec _]. simpl in *. subst c' v'. rewrite Hk in *.
    destruct r as [[]|e]; simpl; [|apply He]. apply Ho; [done..|]. unfold document_saved, head_of. by rewrite Hrow.
Qed.

(** The whole save: what it checked, and what it left. *)
Lemma wp_save identity sid gen version token data w :
  let d := committed w in
  wp (local_save_session_snapshot env core identity sid gen version token data)
    (outcome d (λ _ d', cursor_admits d identity sid gen version token ∧ owns_snapshot d identity sid gen ∧
       (knows_heads w = true → owns_head d identity sid gen) ∧
       written d d' identity sid version token ∧ head_tables d' = head_tables d ∧ ledger d' = ledger d ∧
       document_saved (knows_heads w) d d' identity sid gen version token data)) w.
Proof using Hkeys.
  unfold local_save_session_snapshot, knows_heads. destruct w as [d dw v n0]; cbn [committed volatile].
  do 5 tx_step. set (heads := _ || _). wp_step. apply wp_enforce; [refused|intros n1 Hcur].
  cbv beta iota. wp_step. apply wp_snapshot_owner; [refused|intros n2 Hown]. cbv beta iota. wp_step.
  apply (wp_mono _ (λ r w', match r with
    | Ok _ => (∃ n, w' = mkWorld d d (mkLatches heads (head_canonical_ledger v)) n) ∧
              (heads = true → owns_head d identity sid gen)
    | Err _ => committed w' = d end)).
  { destruct heads; [|wp_step; split; [by eexists|done]].
    apply wp_head_owner; [refused|intros n3 _ Hh]. split; [by eexists|done]. }
  intros [[]|e] w'; [|done]. intros [[k ->] Hhead]. wp_step. apply wp_write_document; [refused|].
  intros d1 n4 Hel Hrec Hdoc. cbv beta iota. wp_step.
  assert (cursor_admits d1 identity sid gen version token) as Hcur1 by (unfold cursor_admits; by rewrite Hrec).
  rewrite <- Hrec. apply wp_advance; [done|refused|]. intros n5 _. tx_step. cbn [committed].
  destruct Hel. split_and!; [done..| |done|done|].
  - constructor; [|simpl; by rewrite Hrec]. by constructor.
  - unfold document_saved in *. by case_match.
Qed.

(** ** The session-delta channel *)

Definition stamped (d : Db) : bool := is_some_and (ledger d) (λ v, HEAD_CANONICAL_SCHEMA_VERSION <=? v).

(** The handle has not seen the ledger carry the head-canonical version, and it
    does not. *)
Definition owes_stamp (w : CWorld) : bool := negb (head_canonical_ledger (volatile w)) && negb (stamped (committed w)).

Definition has_head (d : Db) (sid : string) : bool := is_some (continuity_session_heads d !! sid).

(** The tables a delta write starts from: the schema may have been created. *)
Definition with_tables (owed : bool) (d : Db) : Db := if owed then with_schema true (ledger d) d else d.

Definition content (d : Db) :=
  (session_snapshots d, continuity_session_heads d, continuity_strand_messages d, continuity_session_rewrites d).

(** An accepted delta write: the checks it passed, the tables, the schema and the
    latches it left; [P] is what its operation guarantees of the tables. *)
Record delta_accepted (P : relation Db) (w w' : CWorld) (c : ContinuityWriteCursor) (sid : string) : Prop := mkDeltaAccepted {
  delta_cursor : cursor_admits (committed w) (cursor_identity c) sid (cursor_generation c) (cursor_version c) (cursor_token c);
  delta_snapshot_owner : owns_snapshot (committed w) (cursor_identity c) sid (cursor_generation c);
  delta_head_owner : owns_head (committed w) (cursor_identity c) sid (cursor_generation c);
  delta_written : written (committed w) (committed w') (cursor_identity c) sid (cursor_version c) (cursor_token c);
  delta_tables : head_tables (committed w') = true;
  delta_ledger : ledger (committed w') =
    if owes_stamp w && has_head (committed w') sid then Some HEAD_CANONICAL_SCHEMA_VERSION else ledger (committed w);
  delta_latches : volatile w' = mkLatches (owes_stamp w || head_canonical_schema (volatile w))
    (owes_stamp w && has_head (committed w') sid || negb (owes_stamp w) || head_canonical_ledger (volatile w));
  delta_content : ∃ d1, P (with_tables (owes_stamp w) (committed w)) d1 ∧ content (committed w') = content d1;
}.

Definition delta_outcome {A E} (P : relation Db) (w : CWorld) (c : ContinuityWriteCursor) (sid : string) (r : Result A E) (w' : CWorld)
    : Prop :=
  match r with
  | Ok _ => delta_accepted P w w' c sid
  | Err _ => committed w' = committed w ∧ volatile w' = volatile w
  end.

(** The lock-out owed by this write, with the tables it created. *)
Lemma wp_lockout Q c d v n :
  let owed := negb (head_canonical_ledger v) && negb (stamped d) in
  (∀ e n', Q (Err e) (mkWorld c d v n')) →
  (∀ n', (owed = true → ∃ old, ledger d = Some old ∧ old < HEAD_CANONICAL_SCHEMA_VERSION) →
     Q (Ok owed) (mkWorld c (if owed then with_schema true (ledger d) d else d) v n')) →
  wp (lockout_owed_in_txn env) Q (mkWorld c d v n).
Proof.
  intros owed He Ho. subst owed. unfold lockout_owed_in_txn. do 3 wp_step. simpl. destruct (head_canonical_ledger v); simpl in *.
  - repeat db_step. by apply Ho.
  - wp_step. unfold head_canonical_ledger_stamped_in_txn. wp_step. apply wp_sql; [intros; apply He|].
    repeat db_step. unfold stamped in Ho. destruct (ledger d) as [old|] eqn:El; simpl in *.
    + destruct (Z.leb_spec HEAD_CANONICAL_SCHEMA_VERSION old); simpl in *; [repeat db_step; by apply Ho|].
      unfold converge_head_canonical_schema_in_txn, refuse_future_continuity_schema. repeat wp_step.
      apply wp_sql; [intros; apply He|]. repeat db_step. rewrite El. simpl.
      destruct (_ <? old); simpl; [apply He|]. repeat db_step.
      apply wp_sql; [intros; apply He|]. repeat db_step. rewrite El.
      destruct (Z.ltb_spec old HEAD_CANONICAL_SCHEMA_VERSION); simpl; [|lia]. wp_step.
      apply wp_sql; [intros; apply He|]. repeat db_step. rewrite El. apply Ho. eauto.
    + unfold converge_head_canonical_schema_in_txn, refuse_future_continuity_schema. repeat wp_step.
      apply wp_sql; [intros; apply He|]. repeat db_step. rewrite El. simpl. repeat db_step.
      apply wp_sql; [intros; apply He|]. repeat db_step. rewrite El. db_step. apply He.
Qed.

(** The ledger stamp at the end of a delta write. *)
Lemma wp_stamp sid (owed : bool) Q c d v n :
  (∀ e n', Q (Err e) (mkWorld c d v n')) →
  (∀ n', Q (Ok (owed && has_head d sid)) (mkWorld c
     (if owed && has_head d sid
      then with_schema (head_tables d) (Some (match ledger d with Some v => Z.max v HEAD_CANONICAL_SCHEMA_VERSION
                                              | None => HEAD_CANONICAL_SCHEMA_VERSION end)) d else d) v n')) →
  wp (settle_lockout_in_txn env owed sid) Q (mkWorld c d v n).
Proof.
  intros He Ho. unfold settle_lockout_in_txn. destruct owed; [|repeat db_step; by apply Ho].
  unfold session_head_exists_in_txn. wp_step. wp_step. apply wp_head_sql; [intros; apply He|intros _]. db_step. unfold has_head in Ho. simpl in *.
  destruct (is_some _); [|repeat db_step; by apply Ho]. unfold stamp_head_canonical_ledger_in_txn. do 2 wp_step.
  apply wp_sql; [intros; apply He|]. repeat db_step. apply Ho.
Qed.

Lemma with_tables_same owed d :
  continuity_records (with_tables owed d) = continuity_records d ∧
  session_snapshots (with_tables owed d) = session_snapshots d ∧
  continuity_session_heads (with_tables owed d) = continuity_session_heads d ∧
  ledger (with_tables owed d) = ledger d.
Proof. by destruct owed. Qed.

(** The change of the session, then the record, then the stamp. *)
Lemma written_of d d1 owed (stamp : bool) identity sid version token ver :
  elsewhere sid (with_tables owed d) d1 → continuity_records d1 = continuity_records (with_tables owed d) →
  let d2 := with_records (alter (advanced version token) identity) d1 in
  written d (if stamp then with_schema (head_tables d2) ver d2 else d2) identity sid version token.
Proof.
  intros [] Hrec d2. subst d2. destruct owed, stamp; (constructor; [by constructor|simpl; by rewrite Hrec]).
Qed.

(** An operation that keeps to its session, and guarantees [P] when it succeeds. *)
Definition session_op {A} (P : relation Db) (sid : string) (op : SOp A) : Prop :=
  ∀ w, wp op (λ r w', touches sid w w' ∧ match r with Ok _ => P (working w) (working w') | Err _ => True end) w.

Lemma wp_delta_body {A} (P : relation Db) c sid (op : SOp A) w :
  session_op P sid op →
  wp (delta_body env c sid op)
    (λ r, delta_outcome P w c sid (match r with Ok (Ok a) => Ok a | Ok (Err e) => Err (Some e) | Err _ => Err None end))
    (mkWorld (committed w) (committed w) (volatile w) (observed w)).
Proof.
  intros Hop. unfold delta_body. destruct w as [d dw v n]; cbn [committed volatile observed].
  wp_step. apply wp_sql; [delta_refused|]. cbv beta iota. wp_step. apply wp_lockout; [delta_refused|].
  intros n1 Howed. change (negb (head_canonical_ledger v) && negb (stamped d)) with (owes_stamp (mkWorld d dw v n)) in *.
  set (w := mkWorld d dw v n) in *. change (if owes_stamp w then _ else _) with (with_tables (owes_stamp w) d).
  destruct (with_tables_same (owes_stamp w) d) as (Hr & Hs & Hhd & Hl).
  cbv beta iota. wp_step. apply wp_enforce; [delta_refused|intros n2 Hcur]. cbv beta iota. wp_step.
  apply wp_snapshot_owner; [delta_refused|intros n3 Hsn]. cbv beta iota. wp_step.
  apply wp_head_owner; [delta_refused|intros n4 Ht Hh]. cbv beta iota. do 2 wp_step.
  eapply wp_mono; [apply Hop|]. intros r [c1 d1 v1 k] [[Hc Hv _ Hel Hrec _] HP]. simpl in Hc, Hv, Hel, Hrec, HP. subst c1 v1.
  destruct r as [a|e]; cbv beta iota; [|wp_step; delta_refused]. wp_step. rewrite <- Hrec.
  apply wp_advance; [unfold cursor_admits; by rewrite Hrec|delta_refused|intros n5 _]. cbv beta iota. wp_step.
  apply wp_stamp; [delta_refused|]. intros n6. cbv beta iota. wp_step. apply wp_commit; [delta_refused|].
  cbv beta iota. repeat db_step. set (stamp := owes_stamp w && _).
  unfold cursor_admits, owns_snapshot, owns_head in *. rewrite Hr in Hcur. rewrite Hs in Hsn. rewrite Hhd in Hh.
  constructor; [done|done|done|by apply (written_of _ _ (owes_stamp w))| | | |].
  - cbn [committed]. rewrite <- Ht, <- (same_schema _ _ _ Hel). by destruct stamp.
  - cbn [committed]. subst stamp. destruct (owes_stamp w) eqn:Eo; simpl; [|by rewrite (same_ledger _ _ _ Hel)].
    destruct (Howed eq_refl) as (old & Hold & ?). unfold has_head. simpl.
    destruct (is_some (continuity_session_heads d1 !! sid)) eqn:Eh; simpl; rewrite Eh; simpl;
      rewrite (same_ledger _ _ _ Hel); simpl; rewrite Hold; [|done]. f_equal. lia.
  - cbn [volatile committed]. subst stamp. unfold has_head. destruct (owes_stamp w); simpl; [|done].
    by destruct (is_some (continuity_session_heads d1 !! sid)) eqn:Eh; simpl; rewrite ?Eh.
  - exists d1. split; [done|]. by destruct stamp.
Qed.

(** Every delta write of an operation that keeps to its session. *)
Lemma wp_delta_write {A} (P : relation Db) name c sid (op : SOp A) w :
  session_op P sid op → wp (delta_write env name c sid op) (delta_outcome P w c sid) w.
Proof.
  intros Hop. unfold delta_write. do 2 wp_step. apply wp_connection.
  { intros e n. split; reflexivity. }
  intros n. pose proof (wp_delta_body P c sid op (mkWorld (committed w) (working w) (volatile w) n) Hop) as Hb.
  cbn [committed volatile observed] in Hb. eapply wp_mono; [exact Hb|]. intros r w' Hr. cbv beta iota in *.
  destruct r as [[a|e]|e]; [wp_step; destruct Hr; by constructor|wp_step; exact Hr|exact Hr].
Qed.

(** On a session that has a head row, documents stay and rows are only added. *)
Definition canonical_kept (sid : string) (d d1 : Db) : Prop :=
  has_head d sid = true →
  session_snapshots d1 = session_snapshots d ∧ continuity_strand_messages d ⊆ continuity_strand_messages d1 ∧
  has_head d1 sid = true.

Definition keeps (sid : string) (w w' : CWorld) : Prop := touches sid w w' ∧ canonical_kept sid (working w) (working w').

#[local] Instance keeps_preorder sid : PreOrder (keeps sid).
Proof.
  split; [intros w; split; [done|]; intros Hh; by split_and!|]. intros w1 w2 w3 [Ht Hc] [Ht' Hc'].
  split; [by etrans|]. intros Hh. destruct (Hc Hh) as (? & ? & Hh2). destruct (Hc' Hh2) as (? & ? & ?).
  split_and!; [congruence|by etrans|done].
Qed.
#[local] Instance keeps_tick sid : Ticks (keeps sid).
Proof. intros w. split; [apply touches_tick|]. intros Hh. by split_and!. Qed.

Lemma keeps_op {A} sid (op : SOp A) : within (keeps sid) op → session_op (canonical_kept sid) sid op.
Proof. intros Hop w. destruct (Hop w) as [Ht Hc]. split; [done|]. by destruct (op w).1. Qed.

Lemma has_head_true d s : has_head d s = true ↔ is_Some (continuity_session_heads d !! s).
Proof. unfold has_head. destruct (continuity_session_heads d !! s); simpl; [by eauto|]. split; [done|]. by intros [? ?]. Qed.

Lemma keeps_appends {E A} sid (f : M CWorld E A) : within (appends sid) f → within (keeps sid) f.
Proof.
  intros Hf w. destruct (Hf w) as [Ht Hs Hst Hh]. split; [done|]. intros Hhd. split_and!; [done..|].
  rewrite has_head_true in *. auto.
Qed.

(** Making a session head-canonical leaves one that already is. *)
Lemma keeps_ensure sid identity gen version token :
  within (keeps sid) (ensure_head_canonical_for_write_in_txn env core sid identity gen version token).
Proof using Hkeys.
  intros w. split; [by apply touch_ensure|]. destruct w as [c d v n]. intros Hh.
  change (wp (ensure_head_canonical_for_write_in_txn env core sid identity gen version token)
    (λ _ w', session_snapshots (working w') = session_snapshots d ∧
       continuity_strand_messages d ⊆ continuity_strand_messages (working w') ∧ has_head (working w') sid = true)
    (mkWorld c d v n)).
  unfold ensure_head_canonical_for_write_in_txn. wp_step. apply wp_head_row; [intros; by split_and!| |].
  - intros n' _ Hno. apply has_head_true in Hh as [row Hrow]. simpl in Hrow. congruence.
  - intros n' row head _ _ _. wp_step. by split_and!.
Qed.
#[local] Hint Resolve keeps_ensure : meta.
Notation K := keeps.

Lemma wp_append_messages c sid strand base messages w :
  wp (append_messages env core c sid strand base messages) (delta_outcome (canonical_kept sid) w c sid) w.
Proof using Hkeys.
  apply wp_delta_write, keeps_op. apply (within_bind (K sid)); [by apply keeps_ensure|intros _].
  apply keeps_appends, append_insert_strand_rows.
Qed.

Lemma wp_commit_rewrite c sid record expected w :
  wp (commit_rewrite env core c sid record expected) (delta_outcome (canonical_kept sid) w c sid) w.
Proof using Hkeys.
  apply wp_delta_write, keeps_op. apply (within_bind (K sid)); [by apply keeps_ensure|intros found].
  apply (within_bind (K sid)); [auto with meta|intros [head token]].
  repeat (apply (within_bind (K sid)); [by auto with meta|intros]).
  apply (within_bind (K sid)); [apply keeps_appends, append_insert_rewrite_row|intros _].
  apply (within_bind (K sid)); [apply keeps_appends, append_insert_strand_rows|auto with meta].
Qed.

Lemma wp_save_head c head expected w :
  wp (save_head env core c head expected)
    (delta_outcome (canonical_kept (head_key core head)) w c (head_key core head)) w.
Proof using Hkeys.
  apply wp_delta_write, keeps_op. apply (within_bind (K _)); [by apply keeps_ensure|intros stored].
  do 3 (apply (within_bind (K _)); [by auto with meta|intros]).
  apply (within_bind (K _)); [by apply keeps_appends, append_write_head_row|auto with meta].
Qed.

Lemma wp_adopt c session w :
  wp (adopt_released_head_document env core c session)
    (delta_outcome (λ _ _, True) w c (session_key core session)) w.
Proof using Hkeys. apply wp_delta_write. intros w'. split; [by apply touch_adopt|]. by case_match. Qed.
End operations.
