(* ===== verification/ContinuityFence.v ===== *)
(** * Identity continuity: calls and fencing

    Every call of the local store with what it does to the records, and the interface
    [FencedStore] that the local store and the reference store implement. *)

From S2P Require Import Prelude Strings SqlWorld ContinuityTypes ContinuityReference ContinuityTables ContinuityLocal ContinuityProofs ContinuityWrites.
Open Scope Z_scope.

(** ** The calls of the local store

    Every call a client can make on the local store, and what an accepted one does
    to the continuity records.  A refused call changes nothing durable. *)

(** ** The calls of the trait *)

Inductive StoreCall :=
| ResolveMany (identities : list string)
| ResolveBySession (sid : string)
| SessionOwner (sid : string)
| LoadSnapshot (sid : string)
| MatchesCurrent (c : SessionSnapshotMatchCandidate)
| DeleteSnapshotIf (sid revision : string)
| SaveSnapshot (identity sid : string) (gen version token : Z) (data : string)
| UpsertRecord (record : ContinuityRecord) (token : Z)
| RollbackRecord (attempt : ContinuityRecord) (previous : option ContinuityRecord) (token : Z)
| DeleteRecord (identity : string) (token : Z).

Definition void {S E A} (m : M S E A) : M S E unit := _ ← m; mret tt.

Definition perform_store {W} (store : ContinuityStore W) (call : StoreCall) : M W ContinuityStoreError unit :=
  match call with
  | ResolveMany identities => void (resolve_many store identities)
  | ResolveBySession sid => void (resolve_record_by_session store sid)
  | SessionOwner sid => void (session_owner store sid)
  | LoadSnapshot sid => void (load_session_snapshot store sid)
  | MatchesCurrent c => void (session_snapshot_matches_current store c)
  | DeleteSnapshotIf sid revision => void (delete_session_snapshot_if_current_revision store sid revision)
  | SaveSnapshot identity sid gen version token data => save_session_snapshot store identity sid gen version token data
  | UpsertRecord record token => upsert_continuity_record store record token
  | RollbackRecord attempt previous token => rollback_continuity_record store attempt previous token
  | DeleteRecord identity token => delete_continuity_record store identity token
  end.

(** The identity a call writes for and the fencing token it presents. *)
Definition presents_token (call : StoreCall) : option (string * Z) :=
  match call with
  | SaveSnapshot identity _ _ _ token _ => Some (identity, token)
  | UpsertRecord record token => Some (record_identity record, token)
  | RollbackRecord attempt _ token => Some (record_identity attempt, token)
  | DeleteRecord identity token => Some (identity, token)
  | _ => None
  end.

(** The calls that may leave an identity without a record. *)
Definition may_remove (call : StoreCall) (identity : string) : bool :=
  match call with
  | RollbackRecord attempt None _ => record_identity attempt =b identity
  | DeleteRecord i _ => i =b identity
  | _ => false
  end.

Definition accepted {A E} (r : Result A E) : bool := match r with Ok _ => true | Err _ => false end.

Section calls.
Context (env : ContinuityEnv).
Context {Session Message Head Commit Rewrite RowPrefix RewritePrefix : Type}.
Context (core : SessionCore Session Message Head Commit Rewrite RowPrefix RewritePrefix).

Inductive LocalCall :=
| Trait (call : StoreCall)
| AppendMessages (c : ContinuityWriteCursor) (sid strand : string) (base_seq : Z) (messages : list Message)
| CommitRewrite (c : ContinuityWriteCursor) (sid : string) (record : Rewrite) (expected : SessionHeadCas)
| SaveHead (c : ContinuityWriteCursor) (head : Head) (expected : SessionHeadCas)
| AdoptDocument (c : ContinuityWriteCursor) (session : Session)
| EnableHistory
| EstablishCoverage (mob : string) (cursor : Z)
| Reopen.

Definition perform_local (call : LocalCall) (w : CWorld) : bool * CWorld :=
  match call with
  | Trait c => let '(r, w') := perform_store (LocalContinuityStore env core) c w in (accepted r, w')
  | AppendMessages c sid strand base_seq messages =>
      let '(r, w') := append_messages env core c sid strand base_seq messages w in (accepted r, w')
  | CommitRewrite c sid record expected =>
      let '(r, w') := commit_rewrite env core c sid record expected w in (accepted r, w')
  | SaveHead c head expected => let '(r, w') := save_head env core c head expected w in (accepted r, w')
  | AdoptDocument c session => let '(r, w') := adopt_released_head_document env core c session w in (accepted r, w')
  | EnableHistory => let '(r, w') := enable_identity_binding_history env w in (accepted r, w')
  | EstablishCoverage mob cursor => let '(r, w') := establish_identity_history_coverage env mob cursor w in (accepted r, w')
  | Reopen => let '(r, w') := open_store env w in (accepted r, w')
  end.

Definition run_local (calls : list LocalCall) (w : CWorld) : CWorld :=
  foldl (λ w call, (perform_local call w).2) w calls.

(** The cursor a call writes under, with its session. *)
Definition cursor_of (call : LocalCall) : option (ContinuityWriteCursor * string) :=
  match call with
  | Trait (SaveSnapshot identity sid gen version token _) => Some (mkCursor identity gen version token, sid)
  | AppendMessages c sid _ _ _ => Some (c, sid)
  | CommitRewrite c sid _ _ => Some (c, sid)
  | SaveHead c head _ => Some (c, head_key core head)
  | AdoptDocument c session => Some (c, session_key core session)
  | _ => None
  end.

(** What an accepted call required of the records, and what it made of them. *)
Definition records_effect (call : LocalCall) (d d' : Db) : Prop :=
  match cursor_of call with
  | Some (c, sid) =>
      cursor_admits d (cursor_identity c) sid (cursor_generation c) (cursor_version c) (cursor_token c) ∧
      continuity_records d' =
        alter (advanced (cursor_version c) (cursor_token c)) (cursor_identity c) (continuity_records d)
  | None =>
      match call with
      | Trait (UpsertRecord record token) =>
          upsert_admits d record token ∧
          continuity_records d' =
            <[record_identity record :=
                upserted_row (continuity_records d !! record_identity record) record token]> (continuity_records d)
      | Trait (RollbackRecord attempt (Some p) token) =>
          rollback_admits d attempt token ∧ record_identity p = record_identity attempt ∧
          continuity_records d' =
            <[record_identity attempt :=
                mkRecordRow (agent_runtime_id p) (session_id p) (generation p) (checkpoint_version p) token]>
              (continuity_records d)
      | Trait (RollbackRecord attempt None token) =>
          rollback_admits d attempt token ∧
          continuity_records d' = delete (record_identity attempt) (continuity_records d)
      | Trait (DeleteRecord identity token) =>
          delete_admits d identity token ∧ continuity_records d' = delete identity (continuity_records d)
      | _ => continuity_records d' = continuity_records d
      end
  end.

(** ** Reads *)

(** A read moves no table; it may have cached that the head tables exist. *)
Definition looks (w w' : CWorld) : Prop :=
  committed w' = committed w ∧ working w' = working w ∧
  (volatile w' = volatile w ∨
   volatile w' = mkLatches true (head_canonical_ledger (volatile w)) ∧ head_tables (working w) = true).

#[global] Instance looks_preorder : PreOrder looks.
Proof.
  unfold looks. split; [intros w; split_and!; auto|].
  intros w1 w2 w3 (Hc & Hw & Hv) (Hc' & Hw' & Hv'). split_and!; [congruence|congruence|].
  destruct Hv as [Hv|[Hv Ht]], Hv' as [Hv'|[Hv' Ht']]; rewrite ?Hv', ?Hv; simpl in *; auto.
  right. by rewrite <- Hw.
Qed.
#[global] Instance looks_tick : Ticks looks.
Proof. intros w. unfold looks. simpl. split_and!; auto. Qed.

Lemma look_available : within looks (head_tables_available env).
Proof.
  intros [c d v n]. apply (wp_available env (λ _ w', looks (mkWorld c d v n) w')); [intros _; apply looks_tick|].
  intros n'. unfold looks. simpl. split_and!; [done..|]. destruct v as [[] l], (head_tables d); simpl; auto.
Qed.
#[local] Hint Resolve look_available : meta.

Lemma within_corrupt R `{!PreOrder R} context {A E} (f : E → string) (r : Result A E) : within R (corrupt context f r).
Proof. unfold corrupt. auto with meta. Qed.
#[local] Hint Resolve within_corrupt : meta.

Lemma look_resolve_each identities m : within looks (resolve_each env identities m).
Proof.
  revert m. induction identities as [|i l IH]; intros m; simpl; [auto with meta|].
  do 3 (apply (within_bind looks); [by auto with meta|intros]). case_match; [|auto with meta].
  apply (within_bind looks); [unfold record_of; auto 10 with meta|auto with meta].
Qed.

Lemma look_agreed_owner sid owner l : within looks (agreed_owner env sid owner l).
Proof. revert owner. induction l as [|i l IH]; intros owner; simpl; auto 10 with meta. Qed.

Lemma wp_read {A} (f : COp A) w :
  within looks f → wp (void (with_connection env f)) (λ _ w', committed w' = committed w) w.
Proof.
  intros Hf. unfold void. wp_step. apply wp_connection; [done|].
  intros n. eapply within_wp; [exact Hf|]. intros r w' (Hc & _ & Hv). destruct r; simpl; [wp_step|]; done.
Qed.

Ltac look :=
  repeat first
    [ progress intros
    | apply look_resolve_each | apply look_agreed_owner
    | match goal with |- within looks (_ ≫= _) => apply (within_bind looks) end
    | match goal with |- within looks (match ?x with _ => _ end) => destruct x end
    | solve [auto with meta] ].

(** The reads of the trait leave the file as it is. *)
Lemma wp_store_read call w :
  match call with
  | ResolveMany _ | ResolveBySession _ | SessionOwner _ | LoadSnapshot _ | MatchesCurrent _ =>
      wp (perform_store (LocalContinuityStore env core) call) (λ _ w', committed w' = committed w) w
  | _ => True
  end.
Proof.
  destruct call; [..|done|done|done|done|done]; apply wp_read; unfold io_err; look.
Qed.

(** ** Opening and the identity history *)

Lemma wp_open w :
  wp (open_store env)
    (λ r w', match r with
     | Ok _ => committed w' = (if ledger (committed w) then committed w
                               else with_schema (head_tables (committed w)) (Some 1) (committed w)) ∧
               volatile w' = mkLatches (stamped (committed w)) (stamped (committed w))
     | Err _ => committed w' = committed w ∧ volatile w' = volatile w
     end) w.
Proof.
  unfold open_store, converge_schema_at_open, refuse_future_continuity_schema, stamped.
  destruct w as [d dw v n0]; cbn [committed volatile]. apply wp_connection; [delta_refused|intros n; cbn [committed volatile]].
  do 3 wp_step. apply wp_sql; [delta_refused|]. do 3 db_step. destruct (is_some_and (ledger d) _); [delta_refused|].
  cbv beta iota. do 1 wp_step. apply wp_sql; [delta_refused|]. do 2 db_step.
  destruct (ledger d) as [ver|] eqn:El; simpl.
  - unfold IDENTITY_HISTORY_SCHEMA_VERSION, HEAD_CANONICAL_SCHEMA_VERSION. destruct (Z.leb_spec 3 ver).
    + wp_step. apply wp_sql; [delta_refused|]. repeat db_step. simpl. split; [done|].
      destruct (Z.leb_spec 2 ver); [done|lia].
    + repeat db_step. done.
  - wp_step. apply wp_sql; [delta_refused|]. do 2 db_step. wp_step. apply wp_commit; [delta_refused|]. repeat db_step. done.
Qed.

Lemma wp_enable_history w :
  wp (enable_identity_binding_history env)
    (λ r w', match r with
     | Ok _ => volatile w' = mkLatches true true ∧
               (if history_enabled (committed w) then committed w' = committed w
                else ∃ history, backfill ∅ (bindings (committed w)) = Some history ∧
                  committed w' = with_history (λ _, history)
                    (with_schema true (Some IDENTITY_HISTORY_SCHEMA_VERSION) (committed w)))
     | Err _ => committed w' = committed w ∧ volatile w' = volatile w
     end) w.
Proof.
  unfold enable_identity_binding_history, refuse_future_continuity_schema.
  destruct w as [d dw v n0]; cbn [committed volatile]. apply wp_connection; [delta_refused|intros n; cbn [committed volatile]].
  do 2 wp_step. apply wp_sql; [delta_refused|]. do 3 db_step. destruct (is_some_and (ledger d) _); [delta_refused|].
  cbv beta iota. do 3 db_step. unfold id. destruct (history_enabled d).
  - apply wp_sql; [delta_refused|]. db_step. done.
  - wp_step. apply wp_sql; [delta_refused|]. destruct (backfill ∅ (bindings d)) as [history|].
    + do 2 db_step. apply wp_commit; [delta_refused|]. db_step. eauto.
    + db_step. delta_refused.
Qed.

Lemma wp_coverage mob cursor w :
  wp (establish_identity_history_coverage env mob cursor)
    (λ r w', volatile w' = volatile w ∧ match r with
     | Ok _ => committed w' = with_coverage (λ m, match m !! mob with Some _ => m | None => <[mob := cursor]> m end)
                 (committed w)
     | Err _ => committed w' = committed w
     end) w.
Proof.
  unfold establish_identity_history_coverage, history_sql.
  destruct w as [d dw v n0]; cbn [committed volatile]. apply wp_connection; [done|intros n; cbn [committed volatile]].
  wp_step. apply wp_bind_u64; [done|intros _]. do 2 wp_step. apply wp_sql; [done|]. do 3 db_step.
  destruct (history_enabled d); simpl; [|done]. do 2 db_step. apply wp_commit; done.
Qed.

(** ** Every call *)

Context {Hkeys : HeadKeys core}.

Lemma records_bound d sid identity : continuity_records (bound d sid identity) = continuity_records d.
Proof. unfold bound. by case_match. Qed.
Lemma records_without heads doomed d : continuity_records (without_rows heads doomed d) = continuity_records d.
Proof. by destruct heads. Qed.

Definition call_outcome (call : LocalCall) (w : CWorld) (p : bool * CWorld) : Prop :=
  if p.1 then records_effect call (committed w) (committed p.2) else committed p.2 = committed w.

(** From a specification of an operation to one of the call. *)
Lemma outcome_of {E A} (m : M CWorld E A) call w (Q : A → Db → Prop) :
  wp m (outcome (committed w) Q) w →
  (∀ a d', Q a d' → records_effect call (committed w) d') →
  call_outcome call w (let '(r, w') := m w in (accepted r, w')).
Proof. unfold wp, call_outcome, outcome. destruct (m w) as [[a|e] w']; simpl; eauto. Qed.

Lemma delta_outcome_of {E A} P (m : M CWorld E A) call c sid w :
  wp m (delta_outcome P w c sid) w → cursor_of call = Some (c, sid) →
  call_outcome call w (let '(r, w') := m w in (accepted r, w')).
Proof.
  unfold wp, call_outcome, delta_outcome, records_effect. intros Hm ->. destruct (m w) as [[a|e] w']; simpl in *; [|by apply Hm].
  destruct Hm as [? ? ? [] ? ? ? ?]. done.
Qed.

Lemma unchanged_outcome {E A} (m : M CWorld E A) call w :
  wp m (λ _ w', committed w' = committed w) w → (∀ d, records_effect call d d) →
  call_outcome call w (let '(r, w') := m w in (accepted r, w')).
Proof. unfold wp, call_outcome. intros Hm Heff. destruct (m w) as [[a|e] w']; simpl in *; rewrite Hm; auto. Qed.

Lemma wp_void {E A} (m : M CWorld E A) d (Q : Db → Prop) w :
  wp m (outcome d (λ _ d', Q d')) w → wp (void m) (outcome d (λ _ d', Q d')) w.
Proof. intros Hm. unfold void. wp_step. eapply wp_mono; [exact Hm|]. intros [a|e] w'; [|done]. intros. by wp_step. Qed.

Lemma store_call_outcome call w : call_outcome (Trait call) w (perform_local (Trait call) w).
Proof using Hkeys.
  destruct call.
  1-5: by match goal with |- call_outcome (Trait ?c) _ _ =>
         eapply unchanged_outcome; [exact (wp_store_read c w)|] end.
  - eapply (outcome_of _ _ _ (λ _ d', _)); [apply wp_void, wp_delete_document|]. intros _ d' [->| ->]; [done|].
    unfold records_effect. simpl. by rewrite records_without.
  - eapply outcome_of; [by apply wp_save|]. intros _ d' (? & ? & ? & [] & ?). done.
  - eapply outcome_of; [apply wp_upsert|]. intros _ d' (? & ? & ->). split; [done|]. unfold upserted. by rewrite records_bound.
  - eapply outcome_of; [apply wp_rollback|]. intros _ d' (? & Hp & ->). unfold records_effect, rolled_back.
    destruct previous as [p|]; simpl; rewrite ?records_bound; simpl; rewrite records_without; auto.
  - eapply outcome_of; [apply wp_delete|]. intros _ d' (? & ->). split; [done|]. simpl. by rewrite records_without.
Qed.

(** What every call does to the continuity records. *)
Lemma local_call_outcome call w : call_outcome call w (perform_local call w).
Proof using Hkeys.
  destruct call; simpl.
  - apply store_call_outcome.
  - by eapply delta_outcome_of; [apply wp_append_messages|].
  - by eapply delta_outcome_of; [apply wp_commit_rewrite|].
  - by eapply delta_outcome_of; [apply wp_save_head|].
  - by eapply delta_outcome_of; [apply wp_adopt|].
  - pose proof (wp_enable_history w) as H. unfold wp, call_outcome in *.
    destruct (enable_identity_binding_history env w) as [[]  w']; simpl in *; [|by apply H].
    destruct H as [_ H]. unfold records_effect. simpl. case_match; [by rewrite H|]. by destruct H as (? & _ & ->).
  - pose proof (wp_coverage mob cursor w) as [_ H]. unfold call_outcome.
    destruct (establish_identity_history_coverage env mob cursor w) as [[] w']; simpl in *; by rewrite H.
  - pose proof (wp_open w) as H. unfold wp, call_outcome in *.
    destruct (open_store env w) as [[] w']; simpl in *; [|by apply H]. destruct H as [-> _].
    unfold records_effect. simpl. by case_match.
Qed.
End calls.

(** ** Fencing

    What a continuity store promises to the holders of leases, as an interface
    ([FencedStore]) that the local store and the reference store both implement:
    the fence of an identity never goes back while the identity has a record, and
    a holder whose token lies below it changes nothing any more. *)

(** ** The interface *)

Class FencedStore (W Call D : Type) := {
  perform : Call → W → bool * W;
  durable : W → D;
  fence : D → string → option Z;
  presents : Call → option (string * Z);
  removes : Call → string → bool;
  valid : Call → Prop;
  refused_unchanged c w : valid c → (perform c w).1 = false → durable (perform c w).2 = durable w;
  stale_refused c w i t f :
    valid c → presents c = Some (i, t) → fence (durable w) i = Some f → t < f → (perform c w).1 = false;
  fence_monotone c w i f :
    valid c → fence (durable w) i = Some f → removes c i = false →
    ∃ f', fence (durable (perform c w).2) i = Some f' ∧ f ≤ f';
}.

(** ** Its client: a sequence of calls by any number of holders *)

Section client.
Context {W Call D : Type} `{!FencedStore W Call D}.

Definition run_calls (calls : list Call) (w : W) : W := foldl (λ w c, (perform c w).2) w calls.

Lemma run_fence calls w i f :
  Forall valid calls → Forall (λ c, removes c i = false) calls → fence (durable w) i = Some f →
  ∃ f', fence (durable (run_calls calls w)) i = Some f' ∧ f ≤ f'.
Proof.
  intros Hv Hr. revert w f. induction calls as [|c calls IH]; intros w f Hf; [by exists f|].
  apply Forall_cons in Hv as [Hvc Hv]. apply Forall_cons in Hr as [Hrc Hr].
  destruct (fence_monotone c w i f) as (f1 & Hf1 & Hle); [done..|].
  destruct (IH Hv Hr _ _ Hf1) as (f2 & Hf2 & Hle2). exists f2. split; [done|lia].
Qed.

Lemma superseded calls w i f c t :
  Forall valid calls → Forall (λ c, removes c i = false) calls → fence (durable w) i = Some f →
  valid c → presents c = Some (i, t) → t < f →
  let w' := run_calls calls w in
  (perform c w').1 = false ∧ durable (perform c w').2 = durable w'.
Proof.
  intros Hv Hr Hf Hvc Hp Ht w'. destruct (run_fence calls w i f) as (f' & Hf' & Hle); [done..|].
  assert ((perform c w').1 = false) as Hno by (eapply stale_refused; [done..|lia]).
  split; [done|]. by apply refused_unchanged.
Qed.
End client.

(** ** The local store *)

Section local.
Context (env : ContinuityEnv).
Context {Session Message Head Commit Rewrite RowPrefix RewritePrefix : Type}.
Context (core : SessionCore Session Message Head Commit Rewrite RowPrefix RewritePrefix).
Context {Hkeys : HeadKeys core}.
Notation Call := (LocalCall (Session := Session) (Message := Message) (Head := Head) (Rewrite := Rewrite)).

Definition local_fence (d : Db) (identity : string) : option Z := rec_token <$> continuity_records d !! identity.

Definition local_presents (call : Call) : option (string * Z) :=
  match call with
  | Trait c => presents_token c
  | _ => (λ '(c, _), (cursor_identity c, cursor_token c)) <$> cursor_of core call
  end.
Definition local_removes (call : Call) (identity : string) : bool :=
  match call with Trait c => may_remove c identity | _ => false end.

(** The fence a call presents is not below the stored one when it is accepted. *)
Lemma effect_presents call d d' i t f :
  records_effect core call d d' → local_presents call = Some (i, t) → local_fence d i = Some f → f ≤ t.
Proof.
  unfold records_effect, local_fence. intros Heff Hp Hf. apply fmap_Some in Hf as (row & Hrow & ->).
  destruct (cursor_of core call) as [[c sid]|] eqn:Ec.
  - assert (i = cursor_identity c ∧ t = cursor_token c) as [-> ->].
    { destruct call as [[]| | | | | | |]; simplify_eq/=; by simplify_eq/=. }
    destruct Heff as [Ha _]. unfold cursor_admits in Ha. rewrite Hrow in Ha. naive_solver.
  - destruct call as [[]| | | | | | |]; simplify_eq/=.
    + destruct Heff as [Ha _]. by apply (Ha row).
    + destruct previous; destruct Heff as [(row' & Hrow' & ? & _) _]; simplify_eq/=; lia.
    + destruct Heff as [Ha _]. by apply (Ha row).
Qed.

(** The fence of [i] after its row, or another one, was written. *)
Lemma fence_insert (m : gmap string RecordRow) i k row row' :
  m !! i = Some row → (i = k → rec_token row ≤ rec_token row') →
  ∃ f', rec_token <$> <[k := row']> m !! i = Some f' ∧ rec_token row ≤ f'.
Proof.
  intros Hrow Hle. destruct (decide (i = k)) as [->|Hne].
  - rewrite lookup_insert_eq. eauto.
  - rewrite lookup_insert_ne, Hrow by done. eauto with lia.
Qed.
Lemma fence_delete (m : gmap string RecordRow) i k row :
  m !! i = Some row → (k =b i) = false → ∃ f', rec_token <$> delete k m !! i = Some f' ∧ rec_token row ≤ f'.
Proof. intros Hrow Hne%bool_decide_eq_false. rewrite lookup_delete_ne, Hrow by done. eauto with lia. Qed.

Lemma effect_monotone call d d' i f :
  records_effect core call d d' → local_fence d i = Some f → local_removes call i = false →
  ∃ f', local_fence d' i = Some f' ∧ f ≤ f'.
Proof.
  intros Heff Hf Hr. pose proof Hf as (row & Hrow & ->)%fmap_Some. unfold records_effect, local_fence in *.
  destruct (cursor_of core call) as [[c sid]|] eqn:Ec.
  - destruct Heff as [Ha Hrec]. rewrite Hrec. destruct (decide (i = cursor_identity c)) as [->|Hne].
    + rewrite lookup_alter_eq, Hrow. simpl. eexists. split; [done|]. unfold cursor_admits in Ha. rewrite Hrow in Ha. naive_solver.
    + rewrite lookup_alter_ne, Hrow by done. eauto with lia.
  - destruct call as [[]| | | | | | |]; simplify_eq/=; try (rewrite Heff, Hrow; eauto with lia).
    + destruct Heff as [Ha ->]. apply fence_insert; [done|]. intros ->. by apply (Ha row).
    + destruct previous; [destruct Heff as ((row' & Hrow' & <- & _) & _ & ->)|destruct Heff as (_ & ->)];
        [apply fence_insert; [done|]|by apply fence_delete]. intros ->. simplify_eq. simpl. lia.
    + destruct Heff as [_ ->]. by apply fence_delete.
Qed.

#[export] Program Instance local_fenced : FencedStore CWorld Call Db := {|
  perform := perform_local env core;
  durable := committed;
  fence := local_fence;
  presents := local_presents;
  removes := local_removes;
  valid _ := True;
|}.
Next Obligation.
  intros c w _ Hno. pose proof (local_call_outcome env core c w) as H. unfold call_outcome in H. by rewrite Hno in H.
Qed.
Next Obligation.
  intros c w i t f _ Hp Hf Ht. pose proof (local_call_outcome env core c w) as H. unfold call_outcome in H.
  destruct (perform_local env core c w) as [[] w']; [|done]. simpl in *.
  pose proof (effect_presents _ _ _ _ _ _ H Hp Hf). lia.
Qed.
Next Obligation.
  intros c w i f _ Hf Hr. pose proof (local_call_outcome env core c w) as H. unfold call_outcome in H.
  destruct (perform_local env core c w) as [[] w']; simpl in *; [by eapply effect_monotone|]. rewrite H. eauto with lia.
Qed.
End local.

(** ** The reference store *)

Section reference.
Context {Session : Type} (decode_session : string → Result Session string)
        (projection_cas_token : Session → Result string string).
Notation store := (CompatRollbackContinuityStore decode_session projection_cas_token).

Definition perform_reference (call : StoreCall) (s : ContinuityInner) : bool * ContinuityInner :=
  let '(r, s') := perform_store store call s in (accepted r, s').

Definition reference_fence (s : ContinuityInner) (identity : string) : option Z :=
  stored_fence <$> ref_records s !! identity.

(** The trait's rollback is for a previous record of the same identity. *)
Definition same_identity (call : StoreCall) : Prop :=
  match call with
  | RollbackRecord attempt (Some p) _ => record_identity p = record_identity attempt
  | _ => True
  end.

(** An accepted call keeps every fence the call may not remove, moves only the
    fence of the identity it presents a token for, and only to that token. *)
Definition fences_kept (call : StoreCall) (s s' : ContinuityInner) : Prop :=
  (∀ i t f, presents_token call = Some (i, t) → reference_fence s i = Some f → f ≤ t) ∧
  (∀ i f, reference_fence s i = Some f → may_remove call i = false →
     reference_fence s' i = Some f ∨ ∃ t, presents_token call = Some (i, t) ∧ reference_fence s' i = Some t).

Definition reference_outcome (call : StoreCall) {A} (s : ContinuityInner) (r : Result A ContinuityStoreError)
    (s' : ContinuityInner) : Prop :=
  match r with Ok _ => fences_kept call s s' | Err _ => s' = s end.

Lemma fences_kept_refl call s : presents_token call = None → fences_kept call s s.
Proof. intros Hp. split; [by rewrite Hp|auto]. Qed.

Lemma reference_insert call s s' k t stored :
  presents_token call = Some (k, t) → (∀ f, reference_fence s k = Some f → f ≤ t) → stored_fence stored = t →
  ref_records s' = <[k := stored]> (ref_records s) → fences_kept call s s'.
Proof.
  intros Hp Hle Ht Hs. split; [rewrite Hp; by intros ? ? f [= <- <-] Hf; apply Hle|].
  intros i f Hf _. unfold reference_fence in *. rewrite Hs. destruct (decide (i = k)) as [->|Hne].
  - right. exists t. rewrite lookup_insert_eq. simpl. by rewrite Ht.
  - left. by rewrite lookup_insert_ne.
Qed.

Lemma wp_ref_save identity sid gen version token data s :
  wp (ref_save_session_snapshot identity sid gen version token data)
    (reference_outcome (SaveSnapshot identity sid gen version token data) s) s.
Proof.
  unfold ref_save_session_snapshot. do 3 wp_step.
  apply (wp_mono _ (λ r s', s' = s ∧ match r with Ok _ => ∀ f, reference_fence s identity = Some f → f ≤ token | Err _ => True end)).
  { unfold reference_fence. destruct (ref_records s !! identity) as [stored|]; wp_step; [|done]. split; [done|].
    unfold check_cursor. repeat case_match; try done. intros f [= <-]. lia. }
  intros [[]|e] s' [-> Hle]; [|done]. do 3 wp_step.
  apply (wp_mono _ (λ r s', s' = s)); [by case_match; wp_step|]. intros [[]|e] ? ->; [|done]. do 3 wp_step.
  split; [intros ? ? f [= <- <-]; apply Hle|]. intros i f Hf _. unfold reference_fence in *. simpl.
  destruct (decide (i = identity)) as [->|Hne]; [|left; by rewrite lookup_alter_ne].
  right. exists token. split; [done|]. rewrite lookup_alter_eq. by destruct (ref_records s !! identity).
Qed.

Lemma wp_ref_upsert record token s :
  wp (ref_upsert_continuity_record record token) (λ r s', match r with
    | Ok _ => (∀ f, reference_fence s (record_identity record) = Some f → f ≤ token) ∧
              ∃ stored, stored_fence stored = token ∧ ref_records s' = <[record_identity record := stored]> (ref_records s)
    | Err _ => s' = s ∧ is_Some (ref_records s !! record_identity record) end) s.
Proof.
  unfold ref_upsert_continuity_record, reference_fence. do 2 wp_step.
  destruct (ref_records s !! record_identity record) as [stored|].
  - do 2 wp_step. destruct (Z.ltb_spec token (stored_fence stored)); [by eauto|]. do 2 wp_step.
    destruct (_ <? _); [by eauto|]. wp_step. split; [by intros f [= <-]|].
    by exists (mkStored (merged_record (stored_record stored) record) token).
  - wp_step. split; [done|]. by exists (mkStored record token).
Qed.

Lemma wp_ref_delete identity token s :
  wp (ref_delete_continuity_record identity token) (λ r s', match r with
    | Ok _ => (∀ f, reference_fence s identity = Some f → f ≤ token) ∧ ref_records s' = delete identity (ref_records s)
    | Err _ => s' = s end) s.
Proof.
  unfold ref_delete_continuity_record, reference_fence. do 3 wp_step.
  destruct (ref_records s !! identity) as [stored|]; wp_step.
  - destruct (Z.ltb_spec token (stored_fence stored)); [done|]. do 3 wp_step. split; [by intros f [= <-]|done].
  - do 3 wp_step. done.
Qed.

Lemma wp_ref_rollback attempt previous token s :
  same_identity (RollbackRecord attempt previous token) →
  wp (rollback_continuity_record store attempt previous token)
    (reference_outcome (RollbackRecord attempt previous token) s) s.
Proof.
  intros Hsame. simpl. unfold default_rollback_continuity_record, ref_resolve_many. do 2 wp_step.
  destruct (foldl _ _ _ !! _) as [[]|]; try by wp_step.
  do 2 wp_step. destruct (_ || _); [done|]. wp_step. eapply wp_mono; [apply wp_ref_delete|].
  intros [[]|e] s1 H1; [|done]. destruct H1 as [Hle Hdel]. destruct previous as [p|].
  - simpl in Hsame. eapply wp_mono; [apply wp_ref_upsert|]. intros [[]|e] s2 H2.
    + destruct H2 as (_ & stored & Ht & Hins). simpl. eapply (reference_insert _ _ _ _ token); [done|done|exact Ht|].
      rewrite Hins, Hdel, Hsame. apply insert_delete_eq.
    + destruct H2 as [_ [? Hx]]. rewrite Hdel, Hsame, lookup_delete_eq in Hx. done.
  - wp_step. split; [by intros ? ? f [= <- <-]; apply Hle|]. simpl. intros i f Hf Hne%bool_decide_eq_false. left.
    unfold reference_fence in *. by rewrite Hdel, lookup_delete_ne.
Qed.

Lemma reference_call_outcome call s :
  same_identity call → wp (perform_store store call) (reference_outcome call s) s.
Proof.
  intros Hv. destruct call; simpl; unfold void.
  - unfold ref_resolve_many. do 3 wp_step. by apply fences_kept_refl.
  - unfold ref_resolve_record_by_session. do 3 wp_step. by apply fences_kept_refl.
  - unfold default_session_owner, ref_resolve_record_by_session. do 3 wp_step.
    destruct (_ <$> _) as [[[record f] v]|]; [|do 2 wp_step; by apply fences_kept_refl].
    do 2 wp_step. destruct (negb _); [done|]. do 2 wp_step. by apply fences_kept_refl.
  - unfold ref_load_session_snapshot. do 3 wp_step. by apply fences_kept_refl.
  - unfold default_session_snapshot_matches_current. do 3 wp_step. by apply fences_kept_refl.
  - unfold ref_delete_snapshot. do 3 wp_step. case_match; [|do 2 wp_step; by apply fences_kept_refl].
    do 2 wp_step. destruct (decode_session _); [|done]. do 2 wp_step. destruct (projection_cas_token _); [|done].
    cbv beta iota delta [map_err]. case_bool_decide; [|do 2 wp_step; by apply fences_kept_refl]. do 4 wp_step. split; [done|]. intros i f Hf _. by left.
  - apply wp_ref_save.
  - eapply wp_mono; [apply wp_ref_upsert|]. intros [[]|e] s'; [|by intros [-> _]].
    intros (Hle & stored & Ht & Hins). by eapply reference_insert.
  - by apply wp_ref_rollback.
  - eapply wp_mono; [apply wp_ref_delete|]. intros [[]|e] s'; [|done]. intros [Hle Hdel].
    split; [by intros ? ? f [= <- <-]; apply Hle|]. intros i f Hf Hne%bool_decide_eq_false. left.
    unfold reference_fence in *. by rewrite Hdel, lookup_delete_ne.
Qed.

#[export] Program Instance reference_fenced : FencedStore ContinuityInner StoreCall ContinuityInner := {|
  perform := perform_reference;
  durable s := s;
  fence := reference_fence;
  presents := presents_token;
  removes := may_remove;
  valid := same_identity;
|}.
Next Obligation.
  intros c s Hv. pose proof (reference_call_outcome c s Hv) as H. unfold wp, perform_reference in *.
  by destruct (perform_store store c s) as [[] s'].
Qed.
Next Obligation.
  intros c s i t f Hv Hp Hf Ht. pose proof (reference_call_outcome c s Hv) as H. unfold wp, perform_reference in *.
  destruct (perform_store store c s) as [[] s']; simpl in *; [|done]. destruct H as [Hle _].
  specialize (Hle _ _ _ Hp Hf). lia.
Qed.
Next Obligation.
  intros c s i f Hv Hf Hr. pose proof (reference_call_outcome c s Hv) as H. unfold wp, perform_reference in *.
  destruct (perform_store store c s) as [[] s']; simpl in *; [|subst; eauto with lia].
  destruct H as [Hle Hk]. destruct (Hk i f Hf Hr) as [Hf'|(t & Hp & Hf')]; [eauto with lia|].
  exists t. split; [done|]. by eapply Hle.
Qed.
End reference.
