(* ===== verification/ContinuityLedger.v ===== *)
(** * Identity continuity: the ledger lock-out

    A file that holds a head-canonical session carries the ledger version that
    makes older binaries refuse it, and only such a file does: a refused write, or
    one that leaves no head row, costs the file nothing.  The two latches of a
    handle never claim more than the file shows. *)

From S2P Require Import Prelude Strings SqlWorld ContinuityTypes ContinuityTables ContinuityLocal ContinuityProofs ContinuityWrites ContinuityFence.
Open Scope Z_scope.

Definition schema (d : Db) : bool * option Z := (head_tables d, ledger d).

(** The head-canonical tables hold rows only where they exist; the ledger carries
    their version only where they exist; it does carry it once a session has a
    head row. *)
Record file_sound (d : Db) : Prop := mkFileSound {
  no_tables_no_rows : head_tables d = false →
    continuity_session_heads d = ∅ ∧ continuity_strand_messages d = ∅ ∧ continuity_session_rewrites d = ∅;
  stamp_has_tables : stamped d = true → head_tables d = true;
  heads_are_stamped : ∀ s, has_head d s = true → stamped d = true;
}.

Record handle_sound (w : CWorld) : Prop := mkHandleSound {
  sound_file : file_sound (committed w);
  sound_schema_latch : head_canonical_schema (volatile w) = true → head_tables (committed w) = true;
  sound_ledger_latch : head_canonical_ledger (volatile w) = true → stamped (committed w) = true;
}.

(** A step of a transaction that leaves the schema and the ledger alone; the
    schema latch may be set where the tables exist. *)
Definition settled (w w' : CWorld) : Prop :=
  schema (working w') = schema (working w) ∧
  (schema (committed w') = schema (committed w) ∨ schema (committed w') = schema (working w)) ∧
  (volatile w' = volatile w ∨
   volatile w' = mkLatches true (head_canonical_ledger (volatile w)) ∧ head_tables (working w) = true).

#[global] Instance settled_preorder : PreOrder settled.
Proof.
  unfold settled. split; [intros w; split_and!; auto|].
  intros w1 w2 w3 (Hs & Hc & Hv) (Hs' & Hc' & Hv'). split_and!; [congruence|destruct Hc, Hc'; (left; congruence) || (right; congruence)|].
  destruct Hv as [Hv|[Hv Ht]], Hv' as [Hv'|[Hv' Ht']]; rewrite ?Hv', ?Hv; simpl in *; auto.
  right. split; [done|]. unfold schema in Hs. congruence.
Qed.
#[global] Instance settled_tick : Ticks settled.
Proof. intros w. unfold settled. simpl. auto. Qed.

Lemma touches_settled sid w w' : touches sid w w' → settled w w'.
Proof.
  intros [Hc Hv _ [] _ _]. unfold settled, schema. split_and!; [congruence|left; congruence|auto].
Qed.

Section ledger.
Context (env : ContinuityEnv).
Context {Session Message Head Commit Rewrite RowPrefix RewritePrefix : Type}.
Context (core : SessionCore Session Message Head Commit Rewrite RowPrefix RewritePrefix).
Context {Hkeys : HeadKeys core}.

Lemma settled_update {E} f : (∀ d, schema (f d) = schema d) → within settled (update (E := E) f).
Proof. intros Hf w. unfold settled. simpl. auto. Qed.
Lemma settled_commit context : within settled (commit env context).
Proof.
  intros w. unfold commit, commit_tables, statement, observe, modify, mbind, m_bind. simpl.
  destruct (sql_fault env (observed w)); simpl; unfold settled; simpl; auto.
Qed.
Lemma settled_available : within settled (head_tables_available env).
Proof. intros w. destruct (look_available env w) as (Hc & Hw & Hv). unfold settled. rewrite Hc, Hw. auto. Qed.
Lemma settled_bind_history context sid identity : within settled (bind_history env context sid identity).
Proof. intros w. eapply (touches_settled sid), append_touches, append_bind_history. Qed.
#[local] Hint Resolve settled_commit settled_available settled_bind_history : meta.

Ltac settle :=
  repeat first
    [ progress intros
    | apply settled_update; done
    | match goal with |- within settled (_ ≫= _) => apply (within_bind settled) end
    | match goal with |- within settled (match ?x with _ => _ end) => destruct x end
    | solve [auto with meta] ].

Lemma settled_enforce identity sid gen version token :
  within settled (enforce_continuity_cursor_in_txn env identity sid gen version token).
Proof. unfold enforce_continuity_cursor_in_txn. settle. Qed.
Lemma settled_advance identity sid gen version token was_present :
  within settled (advance_continuity_record_in_txn env identity sid gen version token was_present).
Proof. unfold advance_continuity_record_in_txn. settle. Qed.
Lemma settled_owner sid identity gen : within settled (ensure_snapshot_owner_in_txn env sid identity gen).
Proof. unfold ensure_snapshot_owner_in_txn. settle. Qed.
Lemma settled_head_owner sid identity gen : within settled (ensure_head_owner_in_txn env sid identity gen).
Proof. unfold ensure_head_owner_in_txn. settle. Qed.
Lemma settled_delete_rows doomed : within settled (delete_head_canonical_rows_in_txn env doomed).
Proof. unfold delete_head_canonical_rows_in_txn. settle. Qed.
#[local] Hint Resolve settled_enforce settled_advance settled_owner settled_head_owner settled_delete_rows : meta.

Lemma settled_write_document heads identity sid gen version token data :
  within settled (write_document_in_txn env core heads identity sid gen version token data).
Proof using Hkeys.
  unfold write_document_in_txn, io_err. settle. intros w.
  eapply touches_settled, append_touches. by apply append_write_head_canonical.
Qed.
#[local] Hint Resolve settled_write_document : meta.

(** What a call that keeps the schema leaves of the handle. *)
Definition latched (w w' : CWorld) : Prop :=
  schema (committed w') = schema (committed w) ∧
  (volatile w' = volatile w ∨
   volatile w' = mkLatches true (head_canonical_ledger (volatile w)) ∧ head_tables (committed w) = true).

Lemma settled_connection {A} (f : COp A) w : within settled f → latched w (with_connection env f w).2.
Proof.
  intros Hf. apply (wp_connection env f (λ _ w', latched w w')).
  - intros e n. split; auto.
  - intros n. destruct (Hf (mkWorld (committed w) (committed w) (volatile w) n)) as (_ & Hc & Hv).
    simpl in *. split; [by destruct Hc|done].
Qed.

Lemma latched_void {A} (m : COp A) w : latched w (m w).2 → latched w (void m w).2.
Proof. unfold void, mbind, m_bind. by destruct (m w) as [[] w']. Qed.

Lemma settled_resolve_each identities m : within settled (resolve_each env identities m).
Proof.
  revert m. induction identities as [|i l IH]; intros m; simpl; [auto with meta|].
  unfold record_of, corrupt. settle; apply IH.
Qed.
Lemma settled_agreed_owner sid owner l : within settled (agreed_owner env sid owner l).
Proof. revert owner. induction l as [|i l IH]; intros owner; simpl; unfold corrupt; settle. Qed.
#[local] Hint Resolve settled_resolve_each settled_agreed_owner : meta.

Lemma store_call_latched call w : latched w (perform_store (LocalContinuityStore env core) call w).2.
Proof using Hkeys.
  destruct call; simpl; try apply latched_void; apply settled_connection; unfold io_err, corrupt; settle.
Qed.

(** No call of the trait gives a session its first head row. *)
Definition no_rows (d : Db) : Prop :=
  continuity_session_heads d = ∅ ∧ continuity_strand_messages d = ∅ ∧ continuity_session_rewrites d = ∅.
Definition no_new_heads (d d' : Db) : Prop :=
  (∀ s, has_head d' s = true → has_head d s = true) ∧ (no_rows d → no_rows d').

Lemma no_new_heads_refl d d' :
  continuity_session_heads d' = continuity_session_heads d →
  continuity_strand_messages d' = continuity_strand_messages d →
  continuity_session_rewrites d' = continuity_session_rewrites d → no_new_heads d d'.
Proof. intros Hh Hs Hr. unfold no_new_heads, has_head, no_rows. by rewrite Hh, Hs, Hr. Qed.

#[local] Instance no_new_heads_trans : Transitive no_new_heads.
Proof. intros d1 d2 d3 [Ha Hb] [Hc He]. split; auto. Qed.

Lemma no_new_heads_without heads doomed d : no_new_heads d (without_rows heads doomed d).
Proof.
  destruct heads; [|by apply no_new_heads_refl]. split.
  - intros s. rewrite !has_head_true. simpl. intros [row Hrow]. apply map_lookup_filter_Some in Hrow as [? _]. eauto.
  - intros (Hh & Hs & Hr). unfold no_rows. simpl. by rewrite Hh, Hs, Hr, !map_filter_empty.
Qed.

Lemma no_new_heads_bound d sid identity : no_new_heads d (bound d sid identity).
Proof. unfold bound. case_match; by apply no_new_heads_refl. Qed.

Lemma no_new_heads_save heads d d' identity sid gen version token data :
  elsewhere sid (with_schema (head_tables d') (ledger d') d) d' →
  document_saved heads d d' identity sid gen version token data → no_new_heads d d'.
Proof.
  intros [_ _ _ _ _ Hh Hs Hr]. unfold document_saved. destruct (head_of heads d sid) as [row|] eqn:Ehd.
  - intros (Hstamp & _). assert (continuity_session_heads d !! sid = Some row) as Hrow by (by destruct heads).
    split.
    + intros s. rewrite !has_head_true. destruct (decide (s = sid)) as [->|Hne]; [eauto|]. by rewrite Hh.
    + intros (He & _). rewrite He in Hrow. done.
  - intros (_ & ? & ? & ?). by apply no_new_heads_refl.
Qed.

Lemma outcome_heads {E A} (m : M CWorld E A) w (Q : A → Db → Prop) :
  wp m (outcome (committed w) Q) w → (∀ a d', Q a d' → no_new_heads (committed w) d') →
  no_new_heads (committed w) (committed (m w).2).
Proof.
  unfold wp, outcome. destruct (m w) as [[a|e] w']; simpl; [eauto|]. intros -> _. by apply no_new_heads_refl.
Qed.

Lemma store_call_heads call w :
  no_new_heads (committed w) (committed (perform_store (LocalContinuityStore env core) call w).2).
Proof using Hkeys.
  destruct call.
  1-5: match goal with |- context [perform_store _ ?c _] => pose proof (wp_store_read env core c w) as H end;
       unfold wp in H; cbv beta in H; rewrite H; by apply no_new_heads_refl.
  - eapply (outcome_heads _ _ (λ _ d', _)); [apply wp_void, wp_delete_document|]. intros _ d' [->| ->]; [by apply no_new_heads_refl|].
    etrans; [|apply no_new_heads_without]. by apply no_new_heads_refl.
  - eapply outcome_heads; [by apply wp_save|]. intros _ d' (_ & _ & _ & [] & _ & _ & ?). by eapply no_new_heads_save.
  - eapply outcome_heads; [apply wp_upsert|]. intros _ d' (_ & _ & ->). etrans; [|apply no_new_heads_bound]. by apply no_new_heads_refl.
  - eapply outcome_heads; [apply wp_rollback|]. intros _ d' (_ & _ & ->). unfold rolled_back. set (d1 := without_rows _ _ _).
    assert (no_new_heads (committed w) d1) as Hd1 by (etrans; [|apply no_new_heads_without]; by apply no_new_heads_refl).
    etrans; [exact Hd1|]. destruct previous; [etrans; [|apply no_new_heads_bound]|]; by apply no_new_heads_refl.
  - eapply outcome_heads; [apply wp_delete|]. intros _ d' (_ & ->). unfold identity_deleted. set (d1 := without_rows _ _ _).
    assert (no_new_heads (committed w) d1) as Hd1 by (etrans; [|apply no_new_heads_without]; by apply no_new_heads_refl).
    etrans; [exact Hd1|by apply no_new_heads_refl].
Qed.

(** ** The invariant *)

Lemma stamped_schema d d' : schema d' = schema d → stamped d' = stamped d ∧ head_tables d' = head_tables d.
Proof. unfold schema, stamped. by intros [= -> ->]. Qed.

Lemma latched_sound w w' :
  handle_sound w → latched w w' → no_new_heads (committed w) (committed w') → handle_sound w'.
Proof.
  intros [[Hrows Htab Hst] Hs Hl] [Hsch Hv] [Hnew Hno]. destruct (stamped_schema _ _ Hsch) as [Est Et].
  constructor; [constructor|..]; rewrite ?Est, ?Et; auto.
  - intros H. apply Hno, Hrows, H.
  - intros s H. eauto.
  - by destruct Hv as [->|[-> Ht]].
  - by destruct Hv as [->|[-> Ht]].
Qed.

Lemma delta_sound {E A} P (m : M CWorld E A) c sid w :
  wp m (delta_outcome P w c sid) w → handle_sound w → handle_sound (m w).2.
Proof.
  unfold wp, delta_outcome. intros Hm Hw. destruct (m w) as [r w']; simpl in *.
  destruct r as [a|e]; [|destruct Hw, Hm as [Hc Hv]; constructor; by rewrite ?Hc, ?Hv].
  destruct Hm as [_ _ _ [[_ _ _ _ _ Hh _ _] _] Ht Hl Hv _]. destruct Hw as [[Hrows Htab Hst] Hs Hll].
  assert (owes_stamp w = false → stamped (committed w) = true) as Howes.
  { unfold owes_stamp. destruct (head_canonical_ledger (volatile w)), (stamped (committed w)); simpl; auto. }
  assert (stamped (committed w) = true → stamped (committed w') = true) as Hkeep.
  { unfold stamped at 2. rewrite Hl. by case_match. }
  assert (∀ s, has_head (committed w') s = true → stamped (committed w') = true) as Hheads.
  { intros s Hhs. destruct (decide (s = sid)) as [->|Hne].
    - destruct (owes_stamp w) eqn:Eo; [|auto]. unfold stamped. by rewrite Hl, Hhs.
    - apply Hkeep, (Hst s). rewrite has_head_true in *. by rewrite <- Hh. }
  constructor; [constructor; [congruence|done|done]|done|]. rewrite Hv. simpl.
  destruct (owes_stamp w) eqn:Eo; simpl; [|auto]. rewrite orb_false_r. intros [Hhd|Hl']%orb_true_iff; [eauto|].
  apply Hkeep. auto.
Qed.

Lemma open_sound w : handle_sound w → handle_sound (open_store env w).2.
Proof.
  intros [[Hrows Htab Hst] Hs Hl]. pose proof (wp_open env w) as H. unfold wp in H.
  destruct (open_store env w) as [[] w']; simpl in *; destruct H as [Hc Hv].
  - assert (stamped (committed w') = stamped (committed w) ∧ head_tables (committed w') = head_tables (committed w))
      as [E1 E2] by (rewrite Hc; unfold stamped; by destruct (ledger (committed w)) eqn:El; simpl; rewrite ?El).
    constructor; [constructor|..]; rewrite ?E1, ?E2, ?Hv; try done; rewrite Hc; by destruct (ledger (committed w)).
  - constructor; rewrite ?Hc, ?Hv; done.
Qed.

Lemma enable_sound w : handle_sound w → handle_sound (enable_identity_binding_history env w).2.
Proof.
  intros [[Hrows Htab Hst] Hs Hl]. pose proof (wp_enable_history env w) as H. unfold wp in H.
  destruct (enable_identity_binding_history env w) as [[] w']; simpl in *; [|by destruct H as [Hc Hv]; constructor; rewrite ?Hc, ?Hv].
  destruct H as [Hv H]. destruct (history_enabled (committed w)) eqn:Eh.
  - assert (stamped (committed w) = true) as Hstamp.
    { unfold history_enabled, stamped in *. destruct (ledger (committed w)); simpl in *; [|done].
      unfold IDENTITY_HISTORY_SCHEMA_VERSION, HEAD_CANONICAL_SCHEMA_VERSION in *. lia. }
    constructor; rewrite ?H; auto. by constructor.
  - destruct H as (history & _ & Hc). constructor; rewrite Hc; by constructor.
Qed.

Lemma coverage_sound mob cursor w : handle_sound w → handle_sound (establish_identity_history_coverage env mob cursor w).2.
Proof.
  intros Hw. pose proof (wp_coverage env mob cursor w) as [Hv H]. apply (latched_sound w); [done|..].
  - split; [|by left]. by destruct (establish_identity_history_coverage env mob cursor w) as [[] w']; simpl in *; rewrite H.
  - by apply no_new_heads_refl; destruct (establish_identity_history_coverage env mob cursor w) as [[] w']; simpl in *; rewrite H.
Qed.

Lemma call_sound call w : handle_sound w → handle_sound (perform_local env core call w).2.
Proof using Hkeys.
  intros Hw. destruct call; simpl;
    match goal with |- context [let '(r, w') := ?m w in _] =>
      assert (handle_sound (m w).2) as H; [|by destruct (m w)] end.
  - eapply latched_sound; [done|apply store_call_latched|apply store_call_heads].
  - eapply delta_sound; [by apply wp_append_messages|done].
  - eapply delta_sound; [by apply wp_commit_rewrite|done].
  - eapply delta_sound; [by apply wp_save_head|done].
  - eapply delta_sound; [by apply wp_adopt|done].
  - by apply enable_sound.
  - by apply coverage_sound.
  - by apply open_sound.
Qed.

Lemma run_sound calls w : handle_sound w → handle_sound (run_local env core calls w).
Proof using Hkeys.
  revert w. induction calls as [|call calls IH]; intros w Hw; [done|]. apply IH. by apply call_sound.
Qed.
End ledger.

(** ** Claims *)

Definition empty_db : Db := mkDb ∅ ∅ false None ∅ ∅ ∅ ∅ ∅.
Definition fresh_handle : CWorld := mkWorld empty_db empty_db (mkLatches false false) 0.

Lemma fresh_sound : handle_sound fresh_handle.
Proof. by constructor; [constructor|..]. Qed.

Section claims.
Context (env : ContinuityEnv).
Context {Session Message Head Commit Rewrite RowPrefix RewritePrefix : Type}.
Context (core : SessionCore Session Message Head Commit Rewrite RowPrefix RewritePrefix).

Context {Hkeys : HeadKeys core}.

Lemma delta_stamps {E A} P (m : M CWorld E A) c sid w :
  wp m (delta_outcome P w c sid) w → stamped (committed w) = false → stamped (committed (m w).2) = true →
  has_head (committed (m w).2) sid = true.
Proof.
  unfold wp, delta_outcome. intros Hm Hun Hst. destruct (m w) as [[a|e] w']; simpl in *; [|destruct Hm; congruence].
  destruct Hm as [_ _ _ _ _ Hl _ _]. unfold stamped in Hst, Hun. rewrite Hl in Hst.
  destruct (has_head (committed w') sid); [done|]. rewrite andb_false_r in Hst. congruence.
Qed.

(** A file becomes stamped by the history migration, or by the delta write that
    gives its session a head row. *)
Lemma stamping_call call w :
  stamped (committed w) = false → stamped (committed (perform_local env core call w).2) = true →
  call = EnableHistory ∨
  ∃ c sid, cursor_of core call = Some (c, sid) ∧ has_head (committed (perform_local env core call w).2) sid = true.
Proof using Hkeys.
  intros Hun. destruct call; simpl;
    match goal with |- context [let '(r, w') := ?m w in _] => 
      assert ((let '(r, w') := m w in (accepted r, w')).2 = (m w).2) as -> by (by destruct (m w)) end; intros Hst.
  - exfalso. pose proof (store_call_latched env core call w) as [Hsch _]. destruct (stamped_schema _ _ Hsch) as [Hs _]. congruence.
  - right. eexists _, _. split; [done|]. eapply delta_stamps; [by apply wp_append_messages|done..].
  - right. eexists _, _. split; [done|]. eapply delta_stamps; [by apply wp_commit_rewrite|done..].
  - right. eexists _, _. split; [done|]. eapply delta_stamps; [by apply wp_save_head|done..].
  - right. eexists _, _. split; [done|]. eapply delta_stamps; [by apply wp_adopt|done..].
  - by left.
  - exfalso. pose proof (wp_coverage env mob cursor w) as [_ H].
    destruct (establish_identity_history_coverage env mob cursor w) as [[] w']; simpl in *; rewrite H in Hst; by unfold stamped in *; simpl in *; congruence.
  - exfalso. pose proof (wp_open env w) as H. unfold wp in H.
    destruct (open_store env w) as [[] w']; simpl in *; destruct H as [Hc _]; rewrite Hc in Hst; [|congruence].
    destruct (ledger (committed w)); [congruence|]. by vm_compute in Hst.
Qed.

(** The ledger lock-out, from a fresh file and over every sequence of calls
    (reads, whole-document and delta writes, rollbacks, reopenings, faults of the
    database at any point): a file that holds a session with a head row carries the
    head-canonical ledger version, the version is only there where the tables are,
    and the two latches of the handle never claim what the file does not show.  And
    an unstamped file becomes stamped only by the history migration or by a delta
    write that leaves its session with a head row. *)
Theorem head_rows_lock_older_binaries_out calls :
  let w := run_local env core calls fresh_handle in
  (∀ sid, has_head (committed w) sid = true → stamped (committed w) = true) ∧
  (stamped (committed w) = true → head_tables (committed w) = true) ∧
  (head_canonical_schema (volatile w) = true → head_tables (committed w) = true) ∧
  (head_canonical_ledger (volatile w) = true → stamped (committed w) = true) ∧
  (∀ call, let w' := (perform_local env core call w).2 in
     stamped (committed w) = false → stamped (committed w') = true →
     call = EnableHistory ∨ ∃ c sid, cursor_of core call = Some (c, sid) ∧ has_head (committed w') sid = true).
Proof using Hkeys.
  intros w. destruct (run_sound env core calls fresh_handle fresh_sound) as [[] ? ?].
  split_and!; [done..|]. intros call w'. apply stamping_call.
Qed.
End claims.
