(* ===== verification/ContinuityLease.v ===== *)
(** * Identity continuity: leases
      ([identity_first/local_lease.rs], [gateway_wiring.rs])

    The single-process lease provider: a counter of fencing tokens and the lease
    each identity is held under.  A restarted gateway seeds the counter from the
    store's high-water mark ([open_identity_substrate]), so the tokens it grants
    lie above every fence on file. *)

From S2P Require Import Prelude Strings SqlWorld ContinuityTypes ContinuityTables ContinuityLocal ContinuityProofs ContinuityWrites ContinuityFence ContinuityLedger.
Open Scope Z_scope.

Record LeaseRecord := mkLease { lease_token : Z; lease_holder : string }.
Record LocalLeaseState := mkLeases { next_token : Z; leases : gmap string LeaseRecord }.

(** [Duration::from_hours(24)], in milliseconds. *)
Definition LOCAL_LEASE_TTL : Z := 86400000.

(** [+= 1] on a [u64] without overflow checks. *)
Definition bump (n : Z) : Z := (n + 1) mod 2 ^ 64.

Definition with_floor (floor : Z) : LocalLeaseState := mkLeases (u64_saturating_add floor 1) ∅.
Definition new_provider : LocalLeaseState := with_floor 0.

(** One identity of an acquisition: refused only to another holder. *)
Definition acquire_one (s : LocalLeaseState) (identity runtime_instance : string) : LeaseAcquireResult * LocalLeaseState :=
  let grant := (Acquired (mkGrant identity (next_token s) LOCAL_LEASE_TTL),
                mkLeases (bump (next_token s)) (<[identity := mkLease (next_token s) runtime_instance]> (leases s))) in
  match leases s !! identity with
  | Some record => if lease_holder record =b runtime_instance then grant
                   else (AlreadyHeld identity (lease_holder record), s)
  | None => grant
  end.

Fixpoint acquire_each (identities : list string) (runtime_instance : string) (s : LocalLeaseState)
    (results : gmap string LeaseAcquireResult) : gmap string LeaseAcquireResult * LocalLeaseState :=
  match identities with
  | [] => (results, s)
  | id :: rest =>
      let '(r, s') := acquire_one s id runtime_instance in
      acquire_each rest runtime_instance s' (<[id := r]> results)
  end.

Definition acquire_leases (identities : list string) (runtime_instance : string) (s : LocalLeaseState)
    : gmap string LeaseAcquireResult * LocalLeaseState :=
  acquire_each identities runtime_instance s ∅.

Definition current (s : LocalLeaseState) (grant : LeaseGrant) : bool :=
  is_some_and (leases s !! grant_identity grant) (λ record, lease_token record =? grant_token grant).

Definition renew_one (s : LocalLeaseState) (grant : LeaseGrant) : LeaseRenewResult :=
  if current s grant then Renewed (mkGrant (grant_identity grant) (grant_token grant) LOCAL_LEASE_TTL)
  else Lost (grant_identity grant).

Definition renew_leases (grants : list LeaseGrant) (s : LocalLeaseState) : gmap string LeaseRenewResult :=
  foldl (λ results grant, <[grant_identity grant := renew_one s grant]> results) ∅ grants.

Definition release_one (s : LocalLeaseState) (grant : LeaseGrant) : LocalLeaseState :=
  if current s grant then mkLeases (next_token s) (delete (grant_identity grant) (leases s)) else s.

Definition release_leases (grants : list LeaseGrant) (s : LocalLeaseState) : LocalLeaseState := foldl release_one s grants.

(** ** Sequences of calls *)

Inductive LeaseCall :=
| Acquire (identities : list string) (runtime_instance : string)
| Release (grants : list LeaseGrant).

(** The grants of a call, in the order they were made. *)
Fixpoint acquire_grants (identities : list string) (runtime_instance : string) (s : LocalLeaseState) : list LeaseGrant :=
  match identities with
  | [] => []
  | id :: rest =>
      let '(r, s') := acquire_one s id runtime_instance in
      match r with Acquired g => [g] | AlreadyHeld _ _ => [] end ++ acquire_grants rest runtime_instance s'
  end.

Definition call_grants (call : LeaseCall) (s : LocalLeaseState) : list LeaseGrant :=
  match call with Acquire ids rt => acquire_grants ids rt s | Release _ => [] end.
Definition lease_step (call : LeaseCall) (s : LocalLeaseState) : LocalLeaseState :=
  match call with Acquire ids rt => (acquire_leases ids rt s).2 | Release grants => release_leases grants s end.

(** Every grant of a sequence of calls, and the state it ends in. *)
Fixpoint lease_run (calls : list LeaseCall) (s : LocalLeaseState) : list LeaseGrant * LocalLeaseState :=
  match calls with
  | [] => ([], s)
  | call :: rest =>
      let '(grants, s') := lease_run rest (lease_step call s) in (call_grants call s ++ grants, s')
  end.

(** How many tokens a sequence may use. *)
Definition demand (calls : list LeaseCall) : Z :=
  foldr (λ call n, match call with Acquire ids _ => Z.of_nat (length ids) | Release _ => 0 end + n) 0 calls.

(** ** The gateway's substrate *)

Definition open_identity_substrate (env : ContinuityEnv) (w : CWorld) : Result LocalLeaseState ContinuityStoreError * CWorld :=
  let '(r, w') := open_with_fencing_floor env w in
  (match r with Ok floor => Ok (with_floor floor) | Err e => Err e end, w').

(** ** Lemmas *)

(** The state after the grants [G] made so far from [lo] on: their tokens are the
    consecutive numbers from [lo], and an identity is leased under its newest
    grant or not at all. *)
Record lease_history (lo : Z) (G : list LeaseGrant) (s : LocalLeaseState) : Prop := mkLeaseHistory {
  history_tokens : grant_token <$> G = seqZ lo (Z.of_nat (length G));
  history_next : next_token s = lo + Z.of_nat (length G);
  history_leases : ∀ i r, leases s !! i = Some r →
    ∃ g, g ∈ G ∧ grant_identity g = i ∧ grant_token g = lease_token r ∧
      ∀ g', g' ∈ G → grant_identity g' = i → grant_token g' ≤ grant_token g;
}.

Lemma history_below lo G s g : lease_history lo G s → g ∈ G → lo ≤ grant_token g < next_token s.
Proof.
  intros [Ht Hn _] Hg. assert (grant_token g ∈ grant_token <$> G) as Hin by (apply list_elem_of_fmap; eauto).
  rewrite Ht in Hin. apply elem_of_seqZ in Hin. lia.
Qed.

Lemma bump_small n : 0 ≤ n → n + 1 ≤ U64_MAX → bump n = n + 1.
Proof. intros ? ?. unfold bump. apply Z.mod_small. unfold U64_MAX in *. lia. Qed.

Lemma acquire_one_cases s id rt :
  (∃ holder, acquire_one s id rt = (AlreadyHeld id holder, s)) ∨
  acquire_one s id rt = (Acquired (mkGrant id (next_token s) LOCAL_LEASE_TTL),
    mkLeases (bump (next_token s)) (<[id := mkLease (next_token s) rt]> (leases s))).
Proof. unfold acquire_one. destruct (leases s !! id); [case_bool_decide|]; eauto. Qed.

(** One more grant. *)
Lemma history_grant lo G s id rt :
  0 ≤ lo → next_token s + 1 ≤ U64_MAX → lease_history lo G s →
  lease_history lo (G ++ [mkGrant id (next_token s) LOCAL_LEASE_TTL])
    (mkLeases (bump (next_token s)) (<[id := mkLease (next_token s) rt]> (leases s))).
Proof.
  intros Hlo Hmax Hh. assert (∀ g, g ∈ G → grant_token g < next_token s) as Hlt by (intros g Hg; by apply (history_below lo G s g)).
  destruct Hh as [Ht Hn Hl].
  constructor; simpl.
  - rewrite fmap_app, length_app, Nat2Z.inj_add, Ht. simpl. change (Z.of_nat 1) with 1.
    rewrite seqZ_snoc by lia. by rewrite Hn.
  - rewrite bump_small by lia. rewrite length_app. simpl. lia.
  - intros i r Hr. destruct (decide (i = id)) as [->|Hne].
    + rewrite lookup_insert_eq in Hr. simplify_eq. exists (mkGrant id (next_token s) LOCAL_LEASE_TTL). simpl.
      split_and!; [set_solver|done|done|]. intros g' [Hg'|Hg']%elem_of_app _; [specialize (Hlt _ Hg'); lia|].
      apply list_elem_of_singleton in Hg' as ->. simpl. lia.
    + rewrite lookup_insert_ne in Hr by done. destruct (Hl i r Hr) as (g & Hg & Hi & Htok & Hnew).
      exists g. split_and!; [set_solver|done|done|]. intros g' [Hg'|Hg']%elem_of_app Hi'; [by apply Hnew|].
      apply list_elem_of_singleton in Hg' as ->. simpl in Hi'. congruence.
Qed.

Lemma history_acquire ids rt s results lo G :
  0 ≤ lo → next_token s + Z.of_nat (length ids) ≤ U64_MAX → lease_history lo G s →
  lease_history lo (G ++ acquire_grants ids rt s) (acquire_each ids rt s results).2 ∧
  next_token (acquire_each ids rt s results).2 ≤ next_token s + Z.of_nat (length ids).
Proof.
  intros Hlo. revert s results G. induction ids as [|id ids IH]; intros s results G Hmax Hh; simpl in *.
  - rewrite app_nil_r. split; [done|lia].
  - destruct (acquire_one_cases s id rt) as [[holder ->]| ->]; simpl.
    + destruct (IH s (<[id := AlreadyHeld id holder]> results) G) as [? ?]; [lia|done|]. split; [done|lia].
    + pose proof (history_grant lo G s id rt) as Hg.
      assert (0 ≤ next_token s) by (destruct Hh; lia). assert (bump (next_token s) = next_token s + 1) as Hb by (apply bump_small; lia).
      specialize (IH (mkLeases (bump (next_token s)) (<[id := mkLease (next_token s) rt]> (leases s)))
        (<[id := Acquired (mkGrant id (next_token s) LOCAL_LEASE_TTL)]> results) (G ++ [mkGrant id (next_token s) LOCAL_LEASE_TTL])).
      simpl in IH. rewrite <- app_assoc in IH. simpl in IH.
      destruct IH as [? ?]; [lia|by apply Hg; [lia|lia|]|]. split; [done|lia].
Qed.

Lemma history_release lo G s grant : lease_history lo G s → lease_history lo G (release_one s grant).
Proof.
  intros Hh. unfold release_one. destruct (current s grant); [|done]. destruct Hh as [Ht Hn Hl]. constructor; [done..|].
  intros i r Hr. simpl in Hr. apply lookup_delete_Some in Hr as [_ Hr]. by apply Hl.
Qed.

Lemma release_next grants s : next_token (release_leases grants s) = next_token s.
Proof.
  revert s. induction grants as [|g grants IH]; intros s; [done|]. unfold release_leases in *. simpl. rewrite IH.
  unfold release_one. by case_match.
Qed.

Lemma demand_pos calls : 0 ≤ demand calls.
Proof. unfold demand. induction calls as [|[] calls IH]; simpl; lia. Qed.

Lemma history_run calls lo G s :
  0 ≤ lo → next_token s + demand calls ≤ U64_MAX → lease_history lo G s →
  let '(grants, s') := lease_run calls s in lease_history lo (G ++ grants) s' ∧ next_token s' ≤ U64_MAX.
Proof.
  intros Hlo. revert G s. induction calls as [|call calls IH]; intros G s Hmax Hh; simpl; [rewrite app_nil_r; split; [done|unfold demand in Hmax; simpl in Hmax; lia]|].
  assert (lease_history lo (G ++ call_grants call s) (lease_step call s) ∧ next_token (lease_step call s) + demand calls ≤ U64_MAX)
    as [Hstep Hnext].
  { pose proof (demand_pos calls). destruct call as [ids rt|grants]; simpl in *.
    - destruct (history_acquire ids rt s ∅ lo G) as [? ?]; [lia|unfold demand in *; simpl in *; lia|done|].
      split; [done|]. unfold acquire_leases, demand in *. simpl in *. lia.
    - rewrite app_nil_r, release_next. split; [|unfold demand in *; simpl in *; lia].
      clear Hmax. unfold release_leases. revert s Hh. induction grants as [|g grants IHg]; intros s Hh; [done|].
      simpl. apply IHg. by apply history_release. }
  specialize (IH _ _ Hnext Hstep). destruct (lease_run calls (lease_step call s)) as [grants s']. by rewrite app_assoc.
Qed.

Lemma history_new floor : lease_history (next_token (with_floor floor)) [] (with_floor floor).
Proof. constructor; simpl; [done|lia|]. by intros i r Hr%lookup_empty_Some. Qed.

Lemma current_renewed s g :
  renew_one s g = Renewed (mkGrant (grant_identity g) (grant_token g) LOCAL_LEASE_TTL) →
  ∃ r, leases s !! grant_identity g = Some r ∧ lease_token r = grant_token g.
Proof.
  unfold renew_one, current. destruct (leases s !! grant_identity g) as [r|]; [|done]. simpl.
  destruct (Z.eqb_spec (lease_token r) (grant_token g)); [eauto|done].
Qed.

(** ** Restart *)

(** A fencing token stored with a record, a document or a head. *)
Definition on_file (d : Db) (f : Z) : Prop :=
  (∃ i row, continuity_records d !! i = Some row ∧ rec_token row = f) ∨
  (∃ s row, session_snapshots d !! s = Some row ∧ snap_token row = f) ∨
  (∃ s row, continuity_session_heads d !! s = Some row ∧ hd_token row = f).

Lemma map_max_bound {A} (f : A → Z) (m : gmap string A) : 0 ≤ map_max f m ∧ ∀ k a, m !! k = Some a → f a ≤ map_max f m.
Proof.
  unfold map_max. assert (∀ l : list A, 0 ≤ foldr (λ a acc, Z.max (f a) acc) 0 l ∧
    ∀ a, a ∈ l → f a ≤ foldr (λ a acc, Z.max (f a) acc) 0 l) as H.
  { induction l as [|x l [IH0 IH]]; simpl; [split; [done|]; by intros a Ha%elem_of_nil|].
    split; [lia|]. intros a [->|Ha]%elem_of_cons; [lia|]. specialize (IH a Ha). lia. }
  destruct (H (btree_values m)) as [H0 Hb]. split; [done|]. intros k a Hk. apply Hb, elem_of_btree_values. eauto.
Qed.

Lemma high_water_bound d heads f :
  (heads = false → continuity_session_heads d = ∅) → on_file d f → 0 ≤ high_water d heads ∧ f ≤ high_water d heads.
Proof.
  intros Hh Hf. unfold high_water. destruct (map_max_bound rec_token (continuity_records d)) as [? Hr].
  destruct (map_max_bound snap_token (session_snapshots d)) as [? Hs].
  destruct (map_max_bound hd_token (continuity_session_heads d)) as [? Hd].
  destruct Hf as [(i & row & Hrow & <-)|[(i & row & Hrow & <-)|(i & row & Hrow & <-)]].
  - specialize (Hr _ _ Hrow). case_match; lia.
  - specialize (Hs _ _ Hrow). case_match; lia.
  - specialize (Hd _ _ Hrow). destruct heads; [lia|]. rewrite Hh in Hrow by done. done.
Qed.

Section restart.
Context (env : ContinuityEnv).

Lemma wp_floor w :
  file_sound (committed w) →
  wp (open_with_fencing_floor env)
    (λ r w', match r with Ok floor => 0 ≤ floor ∧ ∀ f, on_file (committed w') f → f ≤ floor | Err _ => True end) w.
Proof.
  intros Hfs. unfold open_with_fencing_floor. wp_step. eapply wp_mono; [apply wp_open|].
  intros [[]|e] [c d v n]; [|done]. simpl. intros [Hc Hv].
  assert (head_tables c = false → continuity_session_heads c = ∅) as Hno.
  { rewrite Hc. destruct (ledger (committed w)); intros Ht; by apply (no_tables_no_rows _ Hfs). }
  unfold max_fencing_token. apply wp_connection; [done|]. intros n1. cbn [committed volatile]. wp_step.
  apply wp_available; [done|]. intros n2. cbv beta iota. wp_step. apply wp_sql; [done|]. db_step. cbv beta iota.
  assert (∀ f, on_file c f → 0 ≤ high_water c (head_canonical_schema v || head_tables c) ∧
    f ≤ high_water c (head_canonical_schema v || head_tables c)) as Hb.
  { intros f Hf. apply high_water_bound; [|done]. intros [_ Hheads]%orb_false_iff. by apply Hno. }
  split; [|naive_solver]. unfold high_water.
  destruct (map_max_bound rec_token (continuity_records c)). case_match; lia.
Qed.

(** C31: every fencing token a restarted gateway grants lies above every token on
    file.  The provider is seeded by [open_identity_substrate] from the store it
    opens; after any sequence of acquisitions (by any runtimes, for any
    identities) and releases within the range of the counter, the tokens granted
    are consecutive from the floor on, each above the fence of every record,
    document and head the file holds, and only the newest grant of an identity is
    ever renewed. *)
Theorem restart_outranks_the_file w s0 w' calls :
  file_sound (committed w) → open_identity_substrate env w = (Ok s0, w') →
  next_token s0 + demand calls ≤ U64_MAX →
  let '(grants, s) := lease_run calls s0 in
  grant_token <$> grants = seqZ (next_token s0) (Z.of_nat (length grants)) ∧
  (∀ g f, g ∈ grants → on_file (committed w') f → f < grant_token g) ∧
  (∀ g, g ∈ grants → renew_one s g = Renewed (mkGrant (grant_identity g) (grant_token g) LOCAL_LEASE_TTL) →
     ∀ g', g' ∈ grants → grant_identity g' = grant_identity g → grant_token g' ≤ grant_token g).
Proof.
  intros Hfs Hopen Hmax. pose proof (wp_floor w Hfs) as Hfl. unfold open_identity_substrate, wp in *.
  destruct (open_with_fencing_floor env w) as [[floor|e] w1]; simplify_eq/=. destruct Hfl as [Hpos Hfl].
  assert (0 ≤ next_token (with_floor floor)) as Hlo by (simpl; unfold u64_saturating_add, U64_MAX; lia).
  pose proof (history_run calls _ [] (with_floor floor) Hlo Hmax (history_new floor)) as Hrun.
  destruct (lease_run calls (with_floor floor)) as [grants s]. destruct Hrun as [Hrun Hs]. simpl app in Hrun. destruct (Hrun) as [Ht Hn Hl].
  split_and!; [done| |].
  - intros g f Hg Hf. specialize (Hfl f Hf). pose proof (history_below _ _ _ _ Hrun Hg) as Hb.
    simpl in *. unfold u64_saturating_add, U64_MAX in *. lia.
  - intros g Hg Hren g' Hg' Hi. apply current_renewed in Hren as (r & Hr & Htok).
    destruct (Hl _ _ Hr) as (g0 & Hg0 & _ & Ht0 & Hnew). rewrite <- Htok, <- Ht0. by apply Hnew.
Qed.
End restart.
