(* ===== verification/ContinuityTranscript.v ===== *)
(** * Identity continuity: transcript rows

    The steps of a transaction on a database that does not fail, and what appends,
    rewrites, heads and saves do to the rows of a transcript. *)

From S2P Require Import Prelude Strings SqlWorld ContinuityTypes ContinuityTables ContinuityLocal ContinuityProofs ContinuityWrites ContinuityFence ContinuityLedger.
Open Scope Z_scope.

(** ** Runs without faults

    The steps of a transaction on a database that does not fail: every statement
    succeeds, so an operation answers exactly what its tables say. *)

Definition no_faults (env : ContinuityEnv) : Prop :=
  (∀ n, sql_fault env n = None) ∧ (∀ n, enter_fault env n = None).

Section quiet.
Context (env : ContinuityEnv) (Hq : no_faults env).

Lemma quiet_sql context Q c d v n :
  (∀ n', Q (Ok tt) (mkWorld c d v n')) → wp (sql env context) Q (mkWorld c d v n).
Proof using Hq.
  intros Ho. unfold sql, statement, wp, observe, mbind, m_bind. simpl. destruct Hq as [Hs _]. rewrite Hs. apply Ho.
Qed.

Lemma quiet_head_sql context Q c d v n :
  head_tables d = true → (∀ n', Q (Ok tt) (mkWorld c d v n')) → wp (head_sql env context) Q (mkWorld c d v n).
Proof using Hq.
  intros Ht Ho. unfold head_sql. wp_step. apply quiet_sql. intros n'. cbv beta iota. do 3 db_step. rewrite Ht. apply Ho.
Qed.

Lemma quiet_connection {A} (f : COp A) Q w :
  (∀ n, wp f Q (mkWorld (committed w) (committed w) (volatile w) n)) → wp (with_connection env f) Q w.
Proof using Hq.
  intros Hf. unfold with_connection, enter, wp, observe, modify, mbind, m_bind in *. simpl.
  destruct Hq as [_ He]. rewrite He. apply Hf.
Qed.

Lemma quiet_commit context Q c d v n :
  (∀ n', Q (Ok tt) (mkWorld d d v n')) → wp (commit env context) Q (mkWorld c d v n).
Proof using Hq.
  intros Ho. unfold commit, commit_tables, statement, wp, observe, modify, mbind, m_bind. simpl.
  destruct Hq as [Hs _]. rewrite Hs. apply Ho.
Qed.

Lemma quiet_available Q c d v n :
  (∀ n', Q (Ok (head_canonical_schema v || head_tables d))
     (mkWorld c d (mkLatches (head_canonical_schema v || head_tables d) (head_canonical_ledger v)) n')) →
  wp (head_tables_available env) Q (mkWorld c d v n).
Proof using Hq.
  intros Ho. unfold head_tables_available. do 2 wp_step. destruct v as [[] l]; simpl in *; [by wp_step|].
  wp_step. apply quiet_sql. intros n'. cbv beta iota. do 5 db_step. destruct (head_tables d); apply Ho.
Qed.

Lemma quiet_bind_u64 context l Q w :
  Forall (λ z, z ≤ I64_MAX) l → Q (Ok tt) w → wp (bind_u64 env context l) Q w.
Proof using.
  intros Hl Ho. unfold bind_u64. wp_step. replace (forallb fits_i64 l) with true; [done|].
  symmetry. apply forallb_elem_of. intros z Hz. rewrite Forall_forall in Hl. specialize (Hl z Hz). unfold fits_i64. lia.
Qed.

Lemma quiet_as_i64 id n Q w : n ≤ I64_MAX → Q (Ok tt) w → wp (as_i64 id n) Q w.
Proof using. intros Hn Ho. unfold as_i64, fits_i64. wp_step. destruct (Z.leb_spec n I64_MAX); [done|lia]. Qed.
End quiet.

(** One step of a transaction on a database that does not fail. *)
Ltac quiet_step Hq :=
  lazymatch goal with
  | |- wp (_ ≫= _) _ _ => apply wp_bind
  | |- wp (ContinuityTables.sql _ _) _ _ => apply (quiet_sql _ Hq); intros ?
  | |- wp (sql_session _ _) _ _ => apply wp_with_err
  | |- wp (head_sql_session _ _) _ _ => apply wp_with_err
  | |- wp (head_sql _ _) _ _ => apply (quiet_head_sql _ Hq); [solve [simpl; assumption]|intros ?]
  | |- wp (as_i64 _ _) _ _ => apply quiet_as_i64; [solve [lia]|]
  | |- wp (head_tables_available _) _ _ => apply (quiet_available _ Hq); intros ?
  | |- wp (with_connection _ _) _ _ => apply (quiet_connection _ Hq); intros ?
  | |- wp (commit _ _) _ _ => apply (quiet_commit _ Hq); intros ?
  | |- wp _ _ _ => db_step
  end; cbn [committed working volatile observed]; cbv beta iota delta [map_err].

(** ** Transcript rows

    An accepted append has stored every message at its place, whether the row was
    there before or not, and on a head-canonical session no stored row is ever
    changed by an append, a rewrite, a new head or a whole-document save. *)

Section transcript.
Context (env : ContinuityEnv).
Context {Session Message Head Commit Rewrite RowPrefix RewritePrefix : Type}.
Context (core : SessionCore Session Message Head Commit Rewrite RowPrefix RewritePrefix).

(** The bytes stored at an index of a strand. *)
Definition row_at (d : Db) (sid strand : string) (i : Z) : option string :=
  str_json <$> continuity_strand_messages d !! (sid, strand, i).

Lemma row_at_mono d d' sid strand i bytes :
  continuity_strand_messages d ⊆ continuity_strand_messages d' → row_at d sid strand i = Some bytes →
  row_at d' sid strand i = Some bytes.
Proof.
  unfold row_at. intros Hsub (row & Hrow & ->)%fmap_Some. by rewrite (lookup_weaken _ _ _ _ Hrow Hsub).
Qed.

(** Bytes [l] are stored from [seq] on, as far as [from]. *)
Definition stored_from (d : Db) (sid strand : string) (seq from : Z) (l : list string) : Prop :=
  ∀ k bytes, l !! k = Some bytes → from ≤ seq + Z.of_nat k → row_at d sid strand (seq + Z.of_nat k) = Some bytes.

Lemma stored_cons d sid strand seq from bytes l :
  (from ≤ seq → row_at d sid strand seq = Some bytes) → stored_from d sid strand (seq + 1) from l →
  stored_from d sid strand seq from (bytes :: l).
Proof.
  intros H0 Hl k b Hk Hle. destruct k as [|k].
  - simpl in Hk. simplify_eq. replace (seq + Z.of_nat 0) with seq in * by lia. auto.
  - replace (seq + Z.of_nat (S k)) with (seq + 1 + Z.of_nat k) in * by lia. by apply Hl.
Qed.

Lemma wp_insert_rows sid strand identity gen created existing l seq w :
  wp (insert_rows env sid strand identity gen created existing seq l)
    (λ r w', appends sid w w' ∧
       match r with Ok _ => stored_from (working w') sid strand seq existing l | Err _ => True end) w.
Proof.
  apply wp_within; [apply append_insert_rows|]. revert seq w.
  induction l as [|bytes l IH]; intros seq w; simpl; [by wp_step|]. wp_step.
  apply (wp_mono _ (λ r w', match r with
    | Ok _ => existing ≤ seq → row_at (working w') sid strand seq = Some bytes | Err _ => True end)).
  - destruct (Z.ltb_spec seq existing); [wp_step; lia|]. destruct w as [c d v n]. unfold as_i64. do 2 wp_step.
    destruct (fits_i64 seq); simpl; [|done]. do 2 wp_step. apply wp_bind_u64; [done|intros _]. wp_step.
    unfold head_sql_session. wp_step. apply wp_head_sql; [done|intros _]. do 4 db_step.
    destruct (is_some _); [done|]. db_step. intros _. unfold row_at. simpl. by rewrite lookup_insert_eq.
  - intros [[]|e] w1 H1; [|done].
    eapply wp_mono; [apply (wp_within (appends sid)); [apply append_insert_rows|apply IH]|].
    intros [[]|e] w2 [[_ _ Hsub _] H2]; [|done]. apply stored_cons; [|done]. intros Hle. eapply row_at_mono; eauto.
Qed.

Lemma length_omap_le {A B} (f : A → option B) l : (length (omap f l) ≤ length l)%nat.
Proof. induction l as [|a l IH]; csimpl; [done|]. destruct (f a); csimpl; lia. Qed.

(** A list read without gaps is the row at each index. *)
Lemma omap_full {A B} (f : A → option B) l :
  length (omap f l) = length l → ∀ k x, l !! k = Some x → f x = omap f l !! k.
Proof.
  induction l as [|a l IH]; [done|]. csimpl. pose proof (length_omap_le f l) as Hle. destruct (f a) as [b|] eqn:Ef; csimpl.
  - intros [= Hl] [|k] x Hx; csimpl in *; simplify_eq; [done|]. by apply IH.
  - intros Hl. lia.
Qed.

Lemma check_overlap_Ok sid strand seq stored serialized k a b :
  check_overlap sid strand seq stored serialized = Ok tt → stored !! k = Some a → serialized !! k = Some b → a = b.
Proof.
  revert seq serialized k. induction stored as [|old stored IH]; intros seq [|new serialized] [|k]; simpl; try done;
    case_bool_decide; try done; [naive_solver|]. intros. by eapply IH.
Qed.

(** The rows an append finds are the ones it would write. *)
Lemma wp_overlap sid strand base overlap serialized c d v n Q :
  (∀ e d' n', Q (Err e) (mkWorld c d' v n')) →
  (∀ n', (∀ k bytes, serialized !! k = Some bytes → base + Z.of_nat k < overlap →
            row_at d sid strand (base + Z.of_nat k) = Some bytes) → Q (Ok tt) (mkWorld c d v n')) →
  wp (if base <? overlap then
        stored ← strand_row_bytes_in_txn env sid strand base overlap;
        lift_result (check_overlap sid strand base stored serialized)
      else mret tt) Q (mkWorld c d v n).
Proof.
  intros He Ho. destruct (Z.ltb_spec base overlap); [|wp_step; apply Ho; lia]. wp_step.
  unfold strand_row_bytes_in_txn. destruct (Z.leb_spec overlap base); [lia|]. unfold as_i64, head_sql_session.
  do 2 (do 2 wp_step; destruct (fits_i64 _); simpl; [|apply He]).
  do 2 (do 2 wp_step; apply wp_head_sql; [intros; apply He|intros _]). do 4 db_step.
  destruct (Z.eqb_spec (Z.of_nat (length (row_bytes d sid strand base overlap))) (overlap - base)) as [Hlen|]; simpl; [|apply He].
  do 2 db_step. destruct (check_overlap _ _ _ _ _) as [[]|e] eqn:Ec; [|apply He]. apply Ho.
  intros k bytes Hk Hlt. unfold row_bytes in *.
  assert (seqZ base (overlap - base) !! k = Some (base + Z.of_nat k)) as Hseq by (apply lookup_seqZ; lia).
  pose proof (omap_full (row_at d sid strand) (seqZ base (overlap - base))) as Hfull.
  unfold row_at in *. rewrite (Hfull ltac:(rewrite length_seqZ; lia) _ _ Hseq).
  destruct (omap _ _ !! k) as [a|] eqn:Ea; [by rewrite (check_overlap_Ok _ _ _ _ _ _ _ _ Ec Ea Hk)|].
  apply lookup_ge_None in Ea. lia.
Qed.

Lemma encode_messages_length messages bytes :
  encode_messages core messages = Ok bytes → length bytes = length messages.
Proof.
  revert bytes. induction messages as [|m l IH]; simpl; intros bytes; [by intros [= <-]|].
  intros (b & _ & H)%and_then_Ok. apply and_then_Ok in H as (more & Hm & [= <-]). simpl. by rewrite (IH _ Hm).
Qed.

Lemma wp_insert_strand_rows sid strand base messages identity gen w :
  wp (insert_strand_rows_in_txn env core sid strand base messages identity gen)
    (λ r w', appends sid w w' ∧ match r with
      | Ok _ => ∃ bytes, encode_messages core messages = Ok bytes ∧
                  ∀ k b, bytes !! k = Some b → row_at (working w') sid strand (base + Z.of_nat k) = Some b
      | Err _ => True end) w.
Proof.
  apply wp_within; [apply append_insert_strand_rows|]. destruct w as [c d v n]. unfold insert_strand_rows_in_txn. wp_step.
  unfold strand_row_count_in_txn, head_sql_session. do 2 wp_step. apply wp_head_sql; [done|intros _]. do 3 db_step.
  set (existing := Z.of_nat _). destruct (Z.ltb_spec existing base); [done|]. do 2 db_step.
  destruct (encode_messages core messages) as [bytes|e]; [|done]. cbv beta iota zeta. wp_step.
  apply wp_overlap; [done|]. intros n2 Hover. cbv beta iota. wp_step. apply wp_observe. cbv beta iota.
  eapply wp_mono; [apply wp_insert_rows|]. intros [[]|e] w' [[_ _ Hsub _] Hst]; [|done]. exists bytes. split; [done|].
  intros k b Hk. destruct (Z.le_gt_cases existing (base + Z.of_nat k)) as [Hle|Hlt]; [by apply Hst|].
  eapply row_at_mono; [exact Hsub|]. simpl. apply Hover; [done|]. apply lookup_lt_Some in Hk. lia.
Qed.

Context {Hkeys : HeadKeys core}.

(** ** An accepted append *)

Definition messages_stored (sid strand : string) (base : Z) (messages : list Message) (d : Db) : Prop :=
  ∃ bytes, encode_messages core messages = Ok bytes ∧
    ∀ k b, bytes !! k = Some b → row_at d sid strand (base + Z.of_nat k) = Some b.

Lemma wp_append_stores c sid strand base messages w :
  wp (append_messages env core c sid strand base messages)
    (delta_outcome (λ _ d1, messages_stored sid strand base messages d1) w c sid) w.
Proof using Hkeys.
  apply wp_delta_write. intros w1. wp_step.
  eapply wp_mono; [apply (wp_within (touches sid)); [by apply touch_ensure|by apply (wp_any _ (λ _ _, True))]|].
  intros [found|e] w2 [Ht _]; [|done].
  eapply wp_mono; [apply wp_insert_strand_rows|]. intros [[]|e] w3 [[Ht' _ _ _] Hst]; (split; [by etrans|done]).
Qed.

Lemma messages_stored_content sid strand base messages d d' :
  content d = content d' → messages_stored sid strand base messages d' → messages_stored sid strand base messages d.
Proof.
  intros [= _ _ Hs _] (bytes & He & Hrow). exists bytes. split; [done|]. intros k b Hk. unfold row_at in *. rewrite Hs. by apply Hrow.
Qed.

Lemma append_stores c sid strand base messages w w' :
  append_messages env core c sid strand base messages w = (Ok tt, w') →
  messages_stored sid strand base messages (committed w').
Proof using Hkeys.
  intros Hw. pose proof (wp_append_stores c sid strand base messages w) as H. unfold wp in H. rewrite Hw in H.
  destruct H as [_ _ _ _ _ _ _ (d1 & Hst & Hc)]. by eapply messages_stored_content.
Qed.

(** ** Reading it back *)

Lemma row_bytes_of sid strand base bytes d :
  (∀ k b, bytes !! k = Some b → row_at d sid strand (base + Z.of_nat k) = Some b) →
  row_bytes d sid strand base (base + Z.of_nat (length bytes)) = bytes.
Proof.
  revert base. induction bytes as [|b bytes IH]; intros base Hrow; unfold row_bytes in *.
  - by rewrite Z.add_0_r, Z.sub_diag.
  - replace (base + Z.of_nat (length (b :: bytes)) - base) with (Z.succ (Z.of_nat (length bytes))) by (simpl; lia).
    rewrite seqZ_cons by lia. csimpl. pose proof (Hrow 0%nat b eq_refl) as H0. rewrite Z.add_0_r in H0. unfold row_at in H0.
    rewrite H0. f_equal. rewrite Z.pred_succ.
    rewrite <- (IH (Z.succ base)) at 2; [repeat f_equal; lia|].
    intros k b' Hk. rewrite <- (Hrow (S k) b' Hk). f_equal. lia.
Qed.

Lemma decode_encoded sid messages bytes :
  (∀ m b, encode_message core m = Ok b → decode_message core b = Ok m) →
  encode_messages core messages = Ok bytes → decode_messages core sid bytes = Ok messages.
Proof.
  intros Hcodec. revert bytes. induction messages as [|m l IH]; simpl; intros bytes; [by intros [= <-]|].
  intros (b & Hb & H)%and_then_Ok. apply and_then_Ok in H as (more & Hm & [= <-]). simpl.
  rewrite (Hcodec _ _ Hb). simpl. by rewrite (IH _ Hm).
Qed.

Lemma load_stored (Hq : no_faults env) sid strand base messages head row w :
  (∀ m b, encode_message core m = Ok b → decode_message core b = Ok m) →
  head_tables (committed w) = true → continuity_session_heads (committed w) !! sid = Some row →
  decode_head core (hd_json row) = Some head →
  base + Z.of_nat (length messages) ≤ I64_MAX → messages_stored sid strand base messages (committed w) →
  (load_messages env core sid strand base (base + Z.of_nat (length messages)) w).1 = Ok messages.
Proof.
  intros Hcodec Ht Hrow Hhead Hfit (bytes & Henc & Hst). pose proof (encode_messages_length _ _ Henc) as Hlen.
  change (wp (load_messages env core sid strand base (base + Z.of_nat (length messages))) (λ r _, r = Ok messages) w).
  destruct w as [d dw v n0]; simpl in *. unfold load_messages, delta_read, head_row_in_txn, strand_messages_in_txn.
  repeat quiet_step Hq. rewrite Ht, orb_true_r. repeat quiet_step Hq.
  rewrite Hrow. repeat quiet_step Hq. rewrite Hhead. simpl. repeat quiet_step Hq.
  unfold strand_row_bytes_in_txn. rewrite <- Hlen in *. destruct (Z.leb_spec (base + Z.of_nat (length bytes)) base).
  - destruct bytes; [|simpl in *; lia]. repeat quiet_step Hq. by rewrite <- (decode_encoded sid _ _ Hcodec Henc).
  - repeat quiet_step Hq. rewrite (row_bytes_of _ _ _ _ _ Hst).
    replace (_ =? _) with true by lia. simpl. repeat quiet_step Hq. by rewrite (decode_encoded sid _ _ Hcodec Henc).
Qed.

(** ** No stored row changes *)

(** The calls whose purpose is to remove or replace a document. *)
Definition replaces (call : LocalCall (Session := Session) (Message := Message) (Head := Head) (Rewrite := Rewrite)) : bool :=
  match call with
  | Trait (DeleteSnapshotIf _ _) | Trait (RollbackRecord _ _ _) | Trait (DeleteRecord _ _) | AdoptDocument _ _ => true
  | _ => false
  end.

(** The head-canonical session [sid] of [d] is still one, with the same archived
    document and every row it had. *)
Definition transcript_kept (sid : string) (d d' : Db) : Prop :=
  has_head d sid = true →
  has_head d' sid = true ∧ session_snapshots d' !! sid = session_snapshots d !! sid ∧
  ∀ strand i row, continuity_strand_messages d !! (sid, strand, i) = Some row →
                  continuity_strand_messages d' !! (sid, strand, i) = Some row.

Lemma transcript_kept_refl sid d : transcript_kept sid d d.
Proof. done. Qed.
Lemma transcript_kept_trans sid d1 d2 d3 :
  transcript_kept sid d1 d2 → transcript_kept sid d2 d3 → transcript_kept sid d1 d3.
Proof.
  intros H1 H2 Hh. destruct (H1 Hh) as (Hh2 & Hs2 & Hr2). destruct (H2 Hh2) as (Hh3 & Hs3 & Hr3).
  split_and!; [done|congruence|auto].
Qed.

(** Writes to another session. *)
Lemma elsewhere_transcript sid sid' d d' :
  elsewhere sid' (with_schema (head_tables d') (ledger d') d) d' → sid ≠ sid' → transcript_kept sid d d'.
Proof.
  intros [_ _ _ _ Hs Hh Hst _] Hne Hhd. simpl in *. split_and!; [|by apply Hs|].
  - rewrite has_head_true in *. by rewrite Hh.
  - intros strand i row. by rewrite Hst.
Qed.

Lemma canonical_transcript sid d d' :
  session_snapshots d' = session_snapshots d → continuity_strand_messages d ⊆ continuity_strand_messages d' →
  has_head d' sid = true → transcript_kept sid d d'.
Proof. intros Hs Hst Hh _. split_and!; [done|by rewrite Hs|]. intros. by eapply lookup_weaken. Qed.

Lemma delta_transcript {E A} (m : M CWorld E A) c sid' sid w :
  wp m (delta_outcome (canonical_kept sid') w c sid') w → transcript_kept sid (committed w) (committed (m w).2).
Proof.
  unfold wp, delta_outcome. destruct (m w) as [[a|e] w']; simpl; [|intros [-> _]; apply transcript_kept_refl].
  intros [_ _ _ [Hel _] _ _ _ (d1 & HP & [= Hs Hh Hst _])]. destruct (decide (sid = sid')) as [<-|Hne]; [|by eapply elsewhere_transcript].
  intros Hhd. destruct HP as (Hs1 & Hst1 & Hh1); [by destruct (owes_stamp w)|].
  destruct (with_tables_same (owes_stamp w) (committed w)) as (_ & Es & _ & _).
  apply canonical_transcript; [by rewrite Hs, Hs1, Es| |unfold has_head in *; by rewrite Hh|done].
  rewrite Hst. etrans; [|exact Hst1]. by destruct (owes_stamp w).
Qed.

Lemma outcome_transcript {E A} (m : M CWorld E A) sid w (Q : A → Db → Prop) :
  wp m (outcome (committed w) Q) w → (∀ a d', Q a d' → transcript_kept sid (committed w) d') →
  transcript_kept sid (committed w) (committed (m w).2).
Proof. unfold wp, outcome. destruct (m w) as [[a|e] w']; simpl; [eauto|]. intros -> _. apply transcript_kept_refl. Qed.

Lemma save_transcript sid identity sid' gen version token data w :
  has_head (committed w) sid = true → knows_heads w = true →
  transcript_kept sid (committed w)
    (committed (local_save_session_snapshot env core identity sid' gen version token data w).2).
Proof using Hkeys.
  intros Hhd Hk. eapply outcome_transcript; [by apply wp_save|]. intros _ d' (_ & _ & _ & [Hel _] & _ & _ & Hdoc).
  destruct (decide (sid = sid')) as [<-|Hne]; [|by eapply elsewhere_transcript].
  unfold document_saved, head_of in Hdoc. rewrite Hk in Hdoc. pose proof Hhd as [row Hrow]%has_head_true. rewrite Hrow in Hdoc.
  destruct Hdoc as (Hstamp & Hs & Hst). apply canonical_transcript; [done|done|].
  rewrite has_head_true. apply fmap_Some in Hstamp as (? & ? & _). eauto.
Qed.

Lemma store_transcript sid call w :
  handle_sound w → replaces (Trait call) = false →
  transcript_kept sid (committed w) (committed (perform_store (LocalContinuityStore env core) call w).2).
Proof using Hkeys.
  intros Hw Hr Hhd. revert Hhd. destruct call; try done.
  1-5: match goal with |- context [perform_store _ ?c _] => pose proof (wp_store_read env core c w) as H end;
       unfold wp in H; cbv beta in H; by rewrite H.
  - intros Hhd. apply save_transcript; [done| |done]. unfold knows_heads. destruct Hw as [[_ Htab Hst] _ _].
    by rewrite (Htab (Hst _ Hhd)), orb_true_r.
  - eapply outcome_transcript; [apply wp_upsert|]. intros _ d' (_ & _ & ->). unfold upserted, bound. by case_match.
Qed.

Lemma call_transcript sid call w :
  handle_sound w → replaces call = false →
  transcript_kept sid (committed w) (committed (perform_local env core call w).2).
Proof using Hkeys.
  intros Hw Hr. destruct call; simpl;
    match goal with |- context [let '(r, w') := ?m w in _] =>
      assert (transcript_kept sid (committed w) (committed (m w).2)) as H; [|by destruct (m w)] end.
  - by apply store_transcript.
  - by eapply delta_transcript, wp_append_messages.
  - by eapply delta_transcript, wp_commit_rewrite.
  - by eapply delta_transcript, wp_save_head.
  - done.
  - pose proof (wp_enable_history env w) as H. unfold wp in H.
    destruct (enable_identity_binding_history env w) as [[] w']; simpl in *; [|by destruct H as [-> _]].
    destruct H as [_ H]. case_match; [by rewrite H|]. by destruct H as (history & _ & ->).
  - pose proof (wp_coverage env mob cursor w) as [_ H].
    by destruct (establish_identity_history_coverage env mob cursor w) as [[] w']; simpl in *; rewrite H.
  - pose proof (wp_open env w) as H. unfold wp in H. destruct (open_store env w) as [[] w']; simpl in *; destruct H as [-> _]; [|done].
    by case_match.
Qed.

Lemma run_transcript sid calls w :
  handle_sound w → Forall (λ call, replaces call = false) calls →
  transcript_kept sid (committed w) (committed (run_local env core calls w)).
Proof using Hkeys.
  intros Hw Hr. revert w Hw. induction Hr as [|call calls Hc _ IH]; intros w Hw; [apply transcript_kept_refl|].
  eapply transcript_kept_trans; [by apply (call_transcript sid call w)|]. apply IH. by apply call_sound.
Qed.
End transcript.
