(* ===== verification/ContinuityExamples.v ===== *)
(** * Identity continuity: concrete values

    A database that does not fail, and sessions that are a key and a list of
    messages: the values the examples of the continuity files evaluate on. *)

From S2P Require Import Prelude Strings SqlWorld ContinuityTypes ContinuityTables ContinuityLocal ContinuityProofs ContinuityWrites ContinuityFence ContinuityLedger ContinuityTranscript ExtensionExamples.
Open Scope Z_scope.

Module ContinuityExamples.

Definition text {A} `{Countable A} (a : A) : string := ExtensionExamples.pos_text (encode a).
Definition untext {A} `{Countable A} (s : string) : option A := decode (ExtensionExamples.text_pos s).

Lemma untext_text {A} `{Countable A} (a : A) : untext (text a) = Some a.
Proof. unfold untext, text. by rewrite ExtensionExamples.text_pos_text, decode_encode. Qed.

(** Key, strand, message count, rewrite count, revision. *)
Notation ToyHead := (string * string * Z * Z * string)%type.
Notation ToySession := (string * list string)%type.

Definition toy_head (s : ToySession) (strand : string) (rewrites : Z) : ToyHead :=
  (s.1, strand, Z.of_nat (length s.2), rewrites, text s.2).

(** A head follows the stored one when its rows exist and the token is current. *)
Definition toy_transition (head : ToyHead) (stored : option (ToyHead * string)) (cas : SessionHeadCas) (rows rewrites : Z)
    : Result unit SessionStoreError :=
  if rows <? head.1.1.2 then Err (Internal "rows are missing")
  else match stored, cas with
       | None, CasCreate => Ok tt
       | Some (_, token), CasIfToken t => if t =b token then Ok tt else Err (Internal "token moved")
       | _, _ => Err (Internal "head exists or not")
       end.

Definition toy_core : SessionCore ToySession string ToyHead unit (list string) unit unit := {|
  session_key s := s.1;
  session_messages s := s.2;
  decode_session data := ok_or (untext data) "not a session";
  encode_session s := Ok (text s);
  to_persisted_bytes s := Ok (text s);
  session_projection_cas_token s := Ok (text s.2);
  decode_message bytes := ok_or (untext bytes) "not a message";
  encode_message m := Ok (text m);
  decode_head := untext;
  encode_head h := Ok (text h);
  head_key h := h.1.1.1.1;
  head_strand h := h.1.1.1.2;
  head_message_count h := h.1.1.2;
  head_rewrite_count h := h.1.2;
  head_revision h := h.2;
  head_envelope_version _ := 3;
  session_head_cas_token h := Ok (text h);
  into_session h messages := Ok (h.1.1.1.1, messages);
  from_session s strand n := Ok (toy_head s strand n);
  message_row_prefix _ := None;
  rewrite_prefix _ := tt;
  extend_serialized_rows _ _ := Ok tt;
  from_session_proved s strand _ _ := Ok (toy_head s strand 0);
  without_row_authority h := h;
  transcript_messages_digest l := Ok (text l);
  rebase_strand digest := "rebase-" +:+ digest;
  strand_layout_for_session s := Ok (mkStrandLayout unit "main" (text <$> s.2) [] "main" [] (Z.of_nat (length s.2)));
  rewrite_commit _ := tt;
  rewrite_messages r := r;
  commit_parent_revision _ := "";
  commit_messages_before _ := 0;
  commit_messages_after _ := 0;
  encode_commit _ := Ok "";
  decode_commit _ := Some tt;
  reconstruct_rewrite_record _ _ _ revision := Ok revision;
  validate_save_head_transition := toy_transition;
  validate_commit_rewrite_transition _ _ head _ _ _ := Ok head;
  append_only_save_guard _ _ := Ok tt;
  import_released_0810_session _ := Err "not a released envelope";
  released_0810_rows_digest _ := Err "not released rows";
  raw_value s := Some s;
  released_envelope _ _ _ := Err "no envelope";
  sha256 s := s;
  session_error_text _ := "session store error";
|}.

#[export] Instance toy_keys : HeadKeys toy_core.
Proof. by split; simpl; intros; simplify_eq. Qed.

Definition toy_env : ContinuityEnv := {|
  sql_fault _ := None;
  enter_fault _ := None;
  now_millis n := Z.of_nat n;
  no_such_table := "no such table";
  unique_violation := "UNIQUE constraint failed";
  conversion_failure := "out of range";
  history_conflict := "identity history conflict";
  debug_text s := s;
  parse_session_id s := Ok s;
  row_order l := l;
  panic_text := "panic";
|}.

Lemma toy_quiet : no_faults toy_env.
Proof. done. Qed.

Notation ToyCall := (LocalCall (Session := ToySession) (Message := string) (Head := ToyHead) (Rewrite := list string)).

(** The first life of an identity: a record, a whole document, then an append
    that makes the session head-canonical. *)
Definition record1 : ContinuityRecord := mkContinuityRecord "ada" "rt-1" "s1" 1 0.
Definition document1 : string := text (("s1", ["hello"]) : ToySession).
Definition first_life : list ToyCall :=
  [Reopen; Trait (UpsertRecord record1 7); Trait (SaveSnapshot "ada" "s1" 1 1 7 document1)].
Definition second_message : ToyCall := AppendMessages (mkCursor "ada" 1 2 7) "s1" "main" 1 ["again"].

Definition file1 : CWorld := run_local toy_env toy_core first_life fresh_handle.
Definition file2 : CWorld := run_local toy_env toy_core [second_message] file1.

Example first_life_stored :
  continuity_records (committed file1) !! "ada" = Some (mkRecordRow "rt-1" "s1" 1 1 7) ∧
  has_head (committed file1) "s1" = false.
Proof. vm_compute. done. Qed.

Example append_migrates :
  (perform_local toy_env toy_core second_message file1).1 = true ∧
  has_head (committed file2) "s1" = true ∧ ledger (committed file2) = Some 2 ∧
  continuity_records (committed file2) !! "ada" = Some (mkRecordRow "rt-1" "s1" 1 2 7).
Proof. vm_compute. done. Qed.
End ContinuityExamples.
