(* ===== verification/ContinuityRefinement.v ===== *)
(** * Identity continuity: the local store against the reference store

    On a file without head-canonical sessions and a database that does not fail,
    the local store answers the calls that create, fence, read and delete
    continuity exactly as the reference store of the conformance suite does, up to
    the text of an error: a simulation of the reference by the local tables. *)

From S2P Require Import Prelude Strings SqlWorld ContinuityTypes ContinuityReference ContinuityTables ContinuityLocal ContinuityProofs ContinuityWrites ContinuityFence ContinuityTranscript.
Open Scope Z_scope.

(** ** Answers *)

Inductive Answer :=
| AnswerStates (states : gmap string ContinuityResolveState)
| AnswerData (data : option string)
| AnswerFlag (deleted : bool)
| AnswerDone.

(** The six calls of the trait on which the two stores are compared.  On the other four the stores differ, and
    the trait lets them: the reference store never says that a candidate matches the current snapshot, and knows
    a session's owner only while a record binds it; its lookup by session reports the version of the record,
    where the local store reports the highest version on file; and its rollback is the trait's default, which
    is not atomic, accepts a larger token and drops all documents of the identity. *)
Inductive CoreCall :=
| CResolve (identities : list string)
| CLoad (sid : string)
| CDelete (sid revision : string)
| CSave (identity sid : string) (gen version token : Z) (data : string)
| CUpsert (record : ContinuityRecord) (token : Z)
| CRemove (identity : string) (token : Z).

Definition answering {S E A} (f : A → Answer) (m : M S E A) : M S E Answer := a ← m; mret (f a).

Definition answer_core {W} (store : ContinuityStore W) (call : CoreCall) : M W ContinuityStoreError Answer :=
  match call with
  | CResolve identities => answering AnswerStates (resolve_many store identities)
  | CLoad sid => answering AnswerData (load_session_snapshot store sid)
  | CDelete sid revision => answering AnswerFlag (delete_session_snapshot_if_current_revision store sid revision)
  | CSave identity sid gen version token data =>
      answering (λ _, AnswerDone) (save_session_snapshot store identity sid gen version token data)
  | CUpsert record token => answering (λ _, AnswerDone) (upsert_continuity_record store record token)
  | CRemove identity token => answering (λ _, AnswerDone) (delete_continuity_record store identity token)
  end.

(** An error without its text: a class, and the values the typed ones carry. *)
Definition without_text (e : ContinuityStoreError) : ContinuityStoreError :=
  match e with
  | StoreIo _ => StoreIo ""
  | Corruption _ => Corruption ""
  | Transient _ => Transient ""
  | _ => e
  end.

(** The answers of a sequence of calls. *)
Fixpoint answers {W} (store : ContinuityStore W) (calls : list CoreCall) (w : W)
    : list (Result Answer ContinuityStoreError) :=
  match calls with
  | [] => []
  | call :: rest => let '(r, w') := answer_core store call w in map_err without_text r :: answers store rest w'
  end.

(** ** The abstraction *)

Definition abs_record (identity : string) (row : RecordRow) : StoredRecord :=
  mkStored (mkContinuityRecord identity (rec_runtime row) (rec_session row) (rec_generation row) (rec_version row))
    (rec_token row).
Definition abs_snapshot (row : SnapshotRow) : StoredSnapshot :=
  mkSnapshot (snap_identity row) (snap_generation row) (snap_data row).

Definition abs (d : Db) : ContinuityInner :=
  mkInner (map_imap (λ i row, Some (abs_record i row)) (continuity_records d)) (abs_snapshot <$> session_snapshots d).

Lemma lookup_abs_record d i : ref_records (abs d) !! i = abs_record i <$> continuity_records d !! i.
Proof. simpl. rewrite map_lookup_imap. by destruct (continuity_records d !! i). Qed.
Lemma lookup_abs_snapshot d s : ref_snapshots (abs d) !! s = abs_snapshot <$> session_snapshots d !! s.
Proof. simpl. by rewrite lookup_fmap. Qed.

Lemma abs_insert_record d i row stored :
  stored = abs_record i row → abs (with_records (insert i row) d) = set_records (insert i stored) (abs d).
Proof.
  intros ->. unfold abs, set_records. simpl. f_equal. apply map_eq. intros k. rewrite map_lookup_imap.
  destruct (decide (k = i)) as [->|Hne]; [by rewrite !lookup_insert_eq|]. by rewrite !lookup_insert_ne, map_lookup_imap.
Qed.

Lemma abs_delete_record d i : abs (with_records (delete i) d) = set_records (delete i) (abs d).
Proof.
  unfold abs, set_records. simpl. f_equal. apply map_eq. intros k. rewrite map_lookup_imap.
  destruct (decide (k = i)) as [->|Hne]; [by rewrite !lookup_delete_eq|]. by rewrite !lookup_delete_ne, map_lookup_imap.
Qed.

Lemma abs_advance d i version token :
  abs (with_records (alter (advanced version token) i) d) =
  set_records (alter (λ stored, mkStored (with_checkpoint_version (stored_record stored) version) token) i) (abs d).
Proof.
  unfold abs, set_records. simpl. f_equal. apply map_eq. intros k. rewrite map_lookup_imap.
  destruct (decide (k = i)) as [->|Hne]; [|by rewrite !lookup_alter_ne, map_lookup_imap].
  rewrite !lookup_alter_eq, map_lookup_imap. by destruct (continuity_records d !! i).
Qed.

Lemma abs_with_snapshots d f g :
  (abs_snapshot <$> f (session_snapshots d)) = g (abs_snapshot <$> session_snapshots d) →
  abs (with_snapshots f d) = set_snapshots g (abs d).
Proof. intros H. unfold abs, set_snapshots. simpl. by f_equal. Qed.

(** ** The worlds and calls compared *)

Section refinement.
Context (env : ContinuityEnv) (Hq : no_faults env).
Context {Session Message Head Commit Rewrite RowPrefix RewritePrefix : Type}.
Context (core : SessionCore Session Message Head Commit Rewrite RowPrefix RewritePrefix).
Notation local := (LocalContinuityStore env core).
Notation reference := (CompatRollbackContinuityStore (decode_session core) (session_projection_cas_token core)).

(** Identities and session ids are valid texts, as their types guarantee. *)
Definition valid_row (row : RecordRow) : Prop :=
  parse_identity (rec_runtime row) = Ok (rec_runtime row) ∧ parse_session_id env (rec_session row) = Ok (rec_session row).

Record blob_only (w : CWorld) : Prop := mkBlobOnly {
  blob_tables : head_tables (committed w) = false;
  blob_latch : head_canonical_schema (volatile w) = false;
  blob_history : history_enabled (committed w) = false;
  blob_rows : map_Forall (λ _ row, valid_row row) (continuity_records (committed w));
}.

(** The arguments of a call fit the columns they are stored in. *)
Definition admissible (call : CoreCall) : Prop :=
  match call with
  | CSave _ _ gen version token _ => gen ≤ I64_MAX ∧ version ≤ I64_MAX ∧ token ≤ I64_MAX
  | CUpsert record token =>
      generation record ≤ I64_MAX ∧ checkpoint_version record ≤ I64_MAX ∧ token ≤ I64_MAX ∧
      parse_identity (agent_runtime_id record) = Ok (agent_runtime_id record) ∧
      parse_session_id env (session_id record) = Ok (session_id record)
  | _ => True
  end.

(** Equal answers, related states. *)
Definition agree {A} (r : Result A ContinuityStoreError) (w : CWorld) (r' : Result A ContinuityStoreError)
    (s : ContinuityInner) : Prop :=
  map_err without_text r = map_err without_text r' ∧ s = abs (committed w) ∧ blob_only w.

(** The local operation [m] simulates the reference operation [m']. *)
Definition simulates {A} (m : COp A) (m' : RefOp A) : Prop :=
  ∀ w, blob_only w → wp m (λ r w', wp m' (λ r' s', agree r w' r' s') (abs (committed w))) w.

Lemma simulates_answering {A} (f : A → Answer) (m : COp A) m' :
  simulates m m' → simulates (answering f m) (answering f m').
Proof.
  intros Hm w Hw. specialize (Hm w Hw). unfold wp, answering, mbind, m_bind in *.
  destruct (m w) as [[a|e] w'], (m' _) as [[a'|e'] s']; simpl in *; destruct Hm as [Hr Hs]; simpl in *;
    try done; (split; [simpl; congruence|done]).
Qed.

(** ** Each operation *)

Ltac start Hb := intros [d dw v n0] Hb; destruct (Hb) as [Ht Hl Hh Hrows]; cbn [committed volatile] in *.

Lemma agree_same {A} (r r' : Result A ContinuityStoreError) d dw v v' dw' n n' :
  blob_only (mkWorld d dw v n) → map_err without_text r = map_err without_text r' →
  head_canonical_schema v' = head_canonical_schema v → agree r (mkWorld d dw' v' n') r' (abs d).
Proof. intros [Ht Hl Hh Hrows] Hr Hv. split; [done|]. split; [done|]. constructor; simpl in *; congruence || done. Qed.

Lemma simulates_load sid : simulates (local_load_session_snapshot env core sid) (ref_load_session_snapshot sid).
Proof using Hq.
  start Hb. unfold local_load_session_snapshot, ref_load_session_snapshot. repeat quiet_step Hq.
  rewrite Ht, Hl. cbn [orb]. repeat quiet_step Hq. rewrite lookup_abs_snapshot.
  eapply agree_same; [exact Hb| |simpl; by rewrite Hl]. by destruct (session_snapshots d !! sid).
Qed.

Lemma quiet_history context sid identity Q c d v n :
  history_enabled d = false → Q (Ok tt) (mkWorld c d v n) → wp (bind_history env context sid identity) Q (mkWorld c d v n).
Proof using. intros Hh Ho. unfold bind_history. do 2 db_step. unfold id. rewrite Hh. by db_step. Qed.

(** The tables after an admissible upsert. *)
Lemma blob_only_upsert record token old d v v' n n' dw dw' :
  admissible (CUpsert record token) → blob_only (mkWorld d dw v n) → head_canonical_schema v' = false →
  blob_only (mkWorld (with_records (insert (record_identity record) (upserted_row old record token)) d) dw' v' n').
Proof using.
  intros (_ & _ & _ & Hrt & Hsid) [Ht Hl Hh Hrows] Hv. constructor; [done..|]. simpl in *.
  by apply map_Forall_insert_2.
Qed.

Lemma abs_upsert record token d :
  abs (with_records (insert (record_identity record)
         (upserted_row (continuity_records d !! record_identity record) record token)) d) =
  set_records (insert (record_identity record)
    (mkStored (match continuity_records d !! record_identity record with
               | Some row => merged_record (stored_record (abs_record (record_identity record) row)) record
               | None => record end) token)) (abs d).
Proof using.
  apply abs_insert_record. unfold abs_record, upserted_row, merged_record, with_checkpoint_version.
  destruct record as [i rt sid g ver]; simpl. destruct (continuity_records d !! i) as [row|]; simpl; [|done].
  destruct (Z.eqb_spec (rec_generation row) g), (bool_decide_reflect (g = rec_generation row)); congruence.
Qed.

Ltac fits := repeat constructor; assumption.

Lemma simulates_upsert record token :
  admissible (CUpsert record token) →
  simulates (local_upsert_continuity_record env record token) (ref_upsert_continuity_record record token).
Proof using Hq.
  intros Hadm. pose proof Hadm as (Hg & Hc & Htok & _). start Hb.
  pose proof (abs_upsert record token d) as Habs. pose proof (lookup_abs_record d (record_identity record)) as Hlk.
  unfold local_upsert_continuity_record, ref_upsert_continuity_record. repeat quiet_step Hq.
  destruct (continuity_records d !! record_identity record) as [row|] eqn:Er; repeat quiet_step Hq.
  - destruct (token <? rec_token row) eqn:E1; repeat quiet_step Hq.
    { rewrite Hlk. repeat wp_step. simpl. rewrite E1. by eapply agree_same. }
    destruct (generation record <? rec_generation row) eqn:E2; repeat quiet_step Hq.
    { rewrite Hlk. repeat wp_step. simpl. rewrite E1. repeat wp_step. simpl. rewrite E2. by eapply agree_same. }
    apply quiet_bind_u64; [fits|]. repeat quiet_step Hq. apply quiet_history; [done|]. repeat quiet_step Hq.
    rewrite Hlk. repeat wp_step. simpl. rewrite E1. repeat wp_step. simpl. rewrite E2. repeat wp_step.
    split; [done|]. split; [exact (eq_sym Habs)|by eapply blob_only_upsert].
  - apply quiet_bind_u64; [fits|]. repeat quiet_step Hq. apply quiet_history; [done|]. repeat quiet_step Hq.
    rewrite Hlk. repeat wp_step. split; [done|]. split; [exact (eq_sym Habs)|by eapply blob_only_upsert].
Qed.

Lemma blob_only_snapshots f d v v' n n' dw dw' :
  blob_only (mkWorld d dw v n) → head_canonical_schema v' = false → blob_only (mkWorld (with_snapshots f d) dw' v' n').
Proof using. intros [Ht Hl Hh Hrows] Hv. by constructor. Qed.

Lemma filter_abs_snapshots identity (m : gmap string SnapshotRow) :
  abs_snapshot <$> filter (λ kv, negb (snap_identity kv.2 =b identity) = true) m =
  filter (λ kv, snapshot_identity kv.2 ≠ identity) (abs_snapshot <$> m).
Proof using.
  rewrite map_filter_fmap. f_equal. apply map_filter_ext. intros s row _. simpl. case_bool_decide; naive_solver.
Qed.

Lemma simulates_remove identity token :
  simulates (local_delete_continuity_record env identity token) (ref_delete_continuity_record identity token).
Proof using Hq.
  start Hb. pose proof (lookup_abs_record d identity) as Hlk.
  unfold local_delete_continuity_record, ref_delete_continuity_record. repeat quiet_step Hq.
  destruct (continuity_records d !! identity) as [row|] eqn:Er; repeat quiet_step Hq.
  1: destruct (token <? rec_token row) eqn:E1; repeat quiet_step Hq;
     [rewrite Hlk; repeat wp_step; simpl; rewrite E1; eapply agree_same; [exact Hb|done|by simpl; rewrite Ht, Hl]|].
  all: rewrite Ht, Hl; cbn [orb]; repeat quiet_step Hq; rewrite Hlk; repeat wp_step; simpl; rewrite ?E1; repeat wp_step.
  all: (split; [done|]); split; [cbn [committed]|].
  1,3: rewrite abs_delete_record; unfold set_records, set_snapshots, abs; simpl; by rewrite filter_abs_snapshots.
  all: destruct Hb as [_ _ _ Hr]; constructor; [done..|]; by apply map_Forall_delete.
Qed.

(** Run both sides up to the next test, with the reference's lookup resolved. *)
Ltac both Hlk :=
  repeat quiet_step Hq; rewrite ?Hlk;
  cbn [fmap option_fmap option_map abs_snapshot snapshot_data snapshot_identity snapshot_generation];
  repeat quiet_step Hq.

Lemma simulates_delete sid revision :
  simulates (local_delete_session_snapshot_if_current_revision env core sid revision)
    (ref_delete_snapshot (decode_session core) (session_projection_cas_token core) sid revision).
Proof using Hq.
  start Hb. pose proof (lookup_abs_snapshot d sid) as Hlk.
  assert (∀ (r r' : Result bool ContinuityStoreError) n,
    map_err without_text r = map_err without_text r' →
    agree r (mkWorld d d (mkLatches false (head_canonical_ledger v)) n) r' (abs d)) as Hsame by (intros; by eapply agree_same).
  unfold local_delete_session_snapshot_if_current_revision, ref_delete_snapshot, io_err.
  repeat quiet_step Hq. rewrite Ht, Hl. cbn [orb]. repeat quiet_step Hq.
  destruct (session_snapshots d !! sid) as [row|] eqn:Es; cbn [fmap option_fmap option_map]; both Hlk; [|by apply Hsame].
  destruct (decode_session core (snap_data row)) as [session|e] eqn:Ed; both Hlk; rewrite ?Ed; both Hlk; [|by apply Hsame].
  destruct (session_projection_cas_token core session) as [current|e] eqn:Ec; both Hlk; rewrite ?Ed; both Hlk; rewrite ?Ec; both Hlk;
    [|by apply Hsame].
  destruct (current =b revision) eqn:Er; cbn [negb]; both Hlk; rewrite ?Ed; both Hlk; rewrite ?Ec; both Hlk; rewrite ?Er; both Hlk;
    [|by apply Hsame].
  rewrite Es. split; [done|]. split; [|by eapply blob_only_snapshots]. symmetry. apply abs_with_snapshots. apply fmap_delete.
Qed.

Lemma quiet_advance identity sid gen version token Q c d v n :
  cursor_admits d identity sid gen version token → gen ≤ I64_MAX → version ≤ I64_MAX → token ≤ I64_MAX →
  (∀ n', Q (Ok tt) (mkWorld c (with_records (alter (advanced version token) identity) d) v n')) →
  wp (advance_continuity_record_in_txn env identity sid gen version token (is_some (continuity_records d !! identity)))
    Q (mkWorld c d v n).
Proof using Hq.
  intros Ha Hg Hv Ht Ho. unfold advance_continuity_record_in_txn, cursor_admits in *. wp_step.
  apply quiet_bind_u64; [fits|]. repeat quiet_step Hq.
  destruct (continuity_records d !! identity) as [row|] eqn:Er; simpl.
  - destruct Ha as (-> & -> & _). rewrite bool_decide_eq_true_2, Z.eqb_refl by done. simpl. do 2 db_step. by apply Ho.
  - do 2 db_step. rename n' into k. specialize (Ho k). unfold with_records in Ho.
    rewrite alter_id in Ho by (intros ?; by rewrite Er). destruct d. by apply Ho.
Qed.

Lemma eqb_decide (a b : Z) : (a =? b) = (a =b b).
Proof. apply eq_true_iff_eq. by rewrite Z.eqb_eq, bool_decide_eq_true. Qed.

(** The cursor check of the local store is the reference's. *)
Definition cursor_check (d : Db) (identity sid : string) (gen version token : Z) : Result unit ContinuityStoreError :=
  match continuity_records d !! identity with
  | None => Ok tt
  | Some row => check_cursor (abs_record identity row) identity sid gen version token
  end.

Lemma quiet_enforce identity sid gen version token Q c d v n :
  (∀ n', Q (match cursor_check d identity sid gen version token with
            | Ok _ => Ok (is_some (continuity_records d !! identity))
            | Err e => Err e
            end) (mkWorld c d v n')) →
  wp (enforce_continuity_cursor_in_txn env identity sid gen version token) Q (mkWorld c d v n).
Proof using Hq.
  intros Ho. unfold enforce_continuity_cursor_in_txn, cursor_check in *. repeat quiet_step Hq.
  destruct (continuity_records d !! identity) as [row|]; [|wp_step; apply Ho]. unfold check_cursor in Ho. simpl in Ho.
  rewrite eqb_decide. repeat quiet_step Hq. destruct (_ || _); [apply Ho|]. repeat quiet_step Hq. destruct (token <? _); [apply Ho|].
  repeat quiet_step Hq. destruct (version <=? _); [apply Ho|]. repeat quiet_step Hq. apply Ho.
Qed.

Lemma ref_cursor_check d identity sid gen version token (Q : Result unit ContinuityStoreError → ContinuityInner → Prop) s :
  Q (cursor_check d identity sid gen version token) s →
  wp (S := ContinuityInner) (E := ContinuityStoreError) (match ref_records (abs d) !! identity with
      | Some stored => lift_result (check_cursor stored identity sid gen version token)
      | None => mret tt
      end) Q s.
Proof using. rewrite lookup_abs_record. unfold cursor_check. by destruct (continuity_records d !! identity). Qed.

Lemma cursor_check_admits d identity sid gen version token :
  cursor_check d identity sid gen version token = Ok tt → cursor_admits d identity sid gen version token.
Proof using.
  unfold cursor_check, check_cursor, cursor_admits. destruct (continuity_records d !! identity) as [row|]; [|done]. simpl.
  repeat case_bool_decide; simpl; try done. destruct (Z.ltb_spec token (rec_token row)); [done|].
  destruct (Z.leb_spec version (rec_version row)); [done|]. done.
Qed.

Lemma quiet_write_document identity sid gen version token data Q c d v n :
  history_enabled d = false → gen ≤ I64_MAX → version ≤ I64_MAX → token ≤ I64_MAX →
  (∀ n', Q (Ok tt) (mkWorld c (with_snapshots (insert sid (mkSnapshotRow identity gen version token data)) d) v n')) →
  wp (write_document_in_txn env core false identity sid gen version token data) Q (mkWorld c d v n).
Proof using Hq.
  intros Hh Hg Hv Ht Ho. unfold write_document_in_txn. repeat quiet_step Hq.
  apply quiet_bind_u64; [fits|]. repeat quiet_step Hq. apply quiet_history; [done|]. apply Ho.
Qed.

(** The tables after an accepted save. *)
Lemma abs_saved identity sid gen version token data d :
  abs (with_records (alter (advanced version token) identity)
         (with_snapshots (insert sid (mkSnapshotRow identity gen version token data)) d)) =
  set_records (alter (λ stored, mkStored (with_checkpoint_version (stored_record stored) version) token) identity)
    (set_snapshots (insert sid (mkSnapshot identity gen data)) (abs d)).
Proof using.
  rewrite abs_advance. f_equal. apply abs_with_snapshots. by rewrite fmap_insert.
Qed.

(** So is its check of the owner, up to the text of the refusal. *)
Definition owner_ok (d : Db) (identity sid : string) (gen : Z) : bool :=
  match session_snapshots d !! sid with
  | Some row => (snap_identity row =b identity) && (snap_generation row =b gen)
  | None => true
  end.

Lemma quiet_owner sid identity gen Q c d v n :
  (∀ n' text, Q (if owner_ok d identity sid gen then Ok tt else Err (Corruption text)) (mkWorld c d v n')) →
  wp (ensure_snapshot_owner_in_txn env sid identity gen) Q (mkWorld c d v n).
Proof using Hq.
  intros Ho. unfold ensure_snapshot_owner_in_txn, owner_ok in *. repeat quiet_step Hq.
  destruct (session_snapshots d !! sid) as [row|]; repeat quiet_step Hq; [|by apply (Ho _ "")].
  rewrite eqb_decide, <- negb_andb. destruct (_ && _); simpl in *; [by apply (Ho _ "")|apply Ho].
Qed.

Lemma ref_owner d identity sid gen (Q : Result unit ContinuityStoreError → ContinuityInner → Prop) s :
  (∀ text, Q (if owner_ok d identity sid gen then Ok tt else Err (Corruption text)) s) →
  wp (S := ContinuityInner) (E := ContinuityStoreError)
    (match ref_snapshots (abs d) !! sid with
     | Some x => throw_if (negb (snapshot_identity x =b identity) || negb (snapshot_generation x =b gen))
                   (Corruption ("snapshot " +:+ sid +:+ " already owned by " +:+ snapshot_identity x +:+
                                "/generation " +:+ fmt_dec (snapshot_generation x)))
     | None => mret tt
     end) Q s.
Proof using.
  intros Ho. rewrite lookup_abs_snapshot. unfold owner_ok in Ho.
  destruct (session_snapshots d !! sid) as [row|]; simpl; wp_step; [|by apply (Ho "")].
  rewrite <- negb_andb. destruct (_ && _); simpl in *; [by apply (Ho "")|apply Ho].
Qed.

Lemma simulates_save identity sid gen version token data :
  admissible (CSave identity sid gen version token data) →
  simulates (local_save_session_snapshot env core identity sid gen version token data)
    (ref_save_session_snapshot identity sid gen version token data).
Proof using Hq.
  intros (Hg & Hv & Htok). start Hb. unfold local_save_session_snapshot, ref_save_session_snapshot.
  assert (∀ (r r' : Result unit ContinuityStoreError) n,
    map_err without_text r = map_err without_text r' →
    agree r (mkWorld d d (mkLatches false (head_canonical_ledger v)) n) r' (abs d)) as Hsame by (intros; by eapply agree_same).
  repeat quiet_step Hq. rewrite Ht, Hl. cbn [orb]. apply quiet_enforce. intros n1.
  destruct (cursor_check d identity sid gen version token) as [[]|e] eqn:Ecur; repeat quiet_step Hq;
    [|apply ref_cursor_check; rewrite Ecur; by apply Hsame].
  apply quiet_owner. intros n2 text. destruct (owner_ok d identity sid gen) eqn:Eown; repeat quiet_step Hq;
    [|apply ref_cursor_check; rewrite Ecur; repeat wp_step; apply ref_owner; rewrite Eown; intros text'; by apply Hsame].
  apply quiet_write_document; [done..|intros n3]. repeat quiet_step Hq.
  set (d1 := with_snapshots _ d). change (continuity_records d) with (continuity_records d1).
  apply quiet_advance; [exact (cursor_check_admits d _ _ _ _ _ Ecur)|done..|intros n4]. subst d1. repeat quiet_step Hq.
  apply ref_cursor_check. rewrite Ecur. repeat wp_step. apply ref_owner. rewrite Eown. intros _. repeat wp_step.
  split; [done|]. split; [exact (eq_sym (abs_saved identity sid gen version token data d))|].
  destruct Hb as [_ _ _ Hr]. constructor; [done..|]. simpl. intros i row Hrow. apply lookup_alter_Some in Hrow as [(-> & old & Hold & ->)|[_ Hold]].
  - exact (Hr _ _ Hold).
  - exact (Hr _ _ Hold).
Qed.

(** [resolve_many] reads the records in the order asked for. *)
Lemma quiet_resolve identities m Q c d v n :
  map_Forall (λ _ row, valid_row row) (continuity_records d) →
  (∀ n', Q (Ok (foldl (λ m identity, <[identity := resolve_state (abs d) identity]> m) m identities)) (mkWorld c d v n')) →
  wp (resolve_each env identities m) Q (mkWorld c d v n).
Proof using Hq.
  intros Hrows. revert m n. induction identities as [|i l IH]; intros m n Ho; simpl; [wp_step; apply Ho|].
  repeat quiet_step Hq. pose proof (lookup_abs_record d i) as Hlk. simpl in Ho. unfold resolve_state at 2 in Ho. rewrite Hlk in Ho.
  destruct (continuity_records d !! i) as [row|] eqn:Er; [|by apply IH].
  destruct (Hrows i row Er) as [Hrt Hsid]. unfold record_of, corrupt. repeat quiet_step Hq. rewrite Hrt. repeat quiet_step Hq.
  rewrite Hsid. repeat quiet_step Hq. apply IH. apply Ho.
Qed.

Lemma simulates_resolve identities : simulates (local_resolve_many env identities) (ref_resolve_many identities).
Proof using Hq.
  start Hb. unfold local_resolve_many, ref_resolve_many. quiet_step Hq. apply quiet_resolve; [done|intros n']. wp_step.
  by eapply agree_same.
Qed.

Lemma simulates_core call : admissible call → simulates (answer_core local call) (answer_core reference call).
Proof using Hq.
  intros Hadm. destruct call; apply simulates_answering;
    [apply simulates_resolve|apply simulates_load|apply simulates_delete|by apply simulates_save
    |by apply simulates_upsert|apply simulates_remove].
Qed.

Lemma simulates_run calls w :
  Forall admissible calls → blob_only w → answers local calls w = answers reference calls (abs (committed w)).
Proof using Hq.
  intros Hadm. revert w. induction Hadm as [|call calls Hc _ IH]; intros w Hw; [done|]. simpl.
  pose proof (simulates_core call Hc w Hw) as H. unfold wp in H.
  destruct (answer_core local call w) as [r w'], (answer_core reference call (abs (committed w))) as [r' s'].
  destruct H as (Hr & Hs & Hb). simpl in Hr, Hs. by rewrite Hr, (IH w' Hb), Hs.
Qed.
End refinement.
