(* ===== verification/ContinuityTheorems.v ===== *)
(** * Identity continuity: what the local store promises

    The contract of the continuity store as its clients use it: fencing, the
    exact records every call leaves, the transcript of a head-canonical session,
    and agreement with the reference store. *)

From S2P Require Import Prelude Strings SqlWorld ContinuityTypes ContinuityReference ContinuityTables ContinuityLocal ContinuityProofs ContinuityWrites ContinuityFence ContinuityLedger ContinuityLease ContinuityTranscript ContinuityExamples ContinuityRefinement.
Open Scope Z_scope.

(** Two holders in turn: the fence of [identity] is at least [f] from here on. *)
Definition fenced_at (d : Db) (identity : string) (f : Z) : Prop :=
  ∃ stored, local_fence d identity = Some stored ∧ f ≤ stored.

Section claims.
Context (env : ContinuityEnv).
Context {Session Message Head Commit Rewrite RowPrefix RewritePrefix : Type}.
Context (core : SessionCore Session Message Head Commit Rewrite RowPrefix RewritePrefix).
Context {Hkeys : HeadKeys core}.

(** C2: a superseded lease holder changes nothing.  Once an identity's record
    carries the fence [f], and through any sequence of calls on the store (by any
    holders, whole-document or delta, with the database failing at any point) that
    does not remove the record, the fence never drops below [f]; and a call that
    presents a smaller token for the identity is refused and leaves the file
    exactly as it was. *)
Theorem superseded_holder_changes_nothing calls w identity f call token :
  local_fence (committed w) identity = Some f →
  Forall (λ c, local_removes c identity = false) calls →
  local_presents core call = Some (identity, token) → token < f →
  let w' := run_local env core calls w in
  fenced_at (committed w') identity f ∧
  (perform_local env core call w').1 = false ∧
  committed (perform_local env core call w').2 = committed w'.
Proof using Hkeys.
  intros Hf Hr Hp Ht w'. assert (Forall (λ c, valid (FencedStore := local_fenced env core) c) calls) as Hv
    by (by apply Forall_true).
  split; [|by apply (superseded (FencedStore0 := local_fenced env core) calls w identity f call token)].
  destruct (run_fence (FencedStore0 := local_fenced env core) calls w identity f) as (f' & Hf' & Hle); [done..|]. by exists f'.
Qed.

(** C19: the continuity records, exactly.  An accepted call left the records the
    specification [records_effect] computes from the ones before: a save or delta
    write required the same session and generation, a token not below the fence and
    a newer checkpoint version, and advanced that one record; an upsert required the
    fence and generation not to go back and merged the checkpoint version; a
    rollback required the exact attempt and fence; every other call left every
    record alone.  A refused call left the whole file alone, whichever statement
    failed. *)
Theorem records_change_exactly call w :
  let '(ok, w') := perform_local env core call w in
  if ok then records_effect core call (committed w) (committed w') else committed w' = committed w.
Proof using Hkeys.
  pose proof (local_call_outcome env core call w) as H. unfold call_outcome in H. by destruct (perform_local env core call w).
Qed.

(** C29: the transcript of a head-canonical session is append-only.  On any file a
    sequence of calls reached, once the session has a head row, no sequence of
    saves, appends, rewrites, new heads, upserts, reads, migrations and reopenings
    changes or loses a stored transcript row or the archived document, or takes the
    head row away (the head row itself moves on); only the calls that delete or
    replace a document do. *)
Theorem transcript_is_append_only before calls sid :
  Forall (λ call, replaces call = false) calls →
  let d := committed (run_local env core before fresh_handle) in
  let d' := committed (run_local env core (before ++ calls) fresh_handle) in
  has_head d sid = true →
  has_head d' sid = true ∧ session_snapshots d' !! sid = session_snapshots d !! sid ∧
  ∀ strand i row, continuity_strand_messages d !! (sid, strand, i) = Some row →
                  continuity_strand_messages d' !! (sid, strand, i) = Some row.
Proof using Hkeys.
  intros Hr d d'. subst d d'. unfold run_local. rewrite foldl_app.
  apply (run_transcript env core sid calls); [|done]. apply (run_sound env core before). apply fresh_sound.
Qed.

(** What was appended is read back.  After an accepted append of [messages] at
    [base] (which may repeat rows that were already there), a read of that range of
    the strand, on a database that does not fail, returns exactly [messages]. *)
Theorem append_is_read_back c sid strand base messages w w' row head :
  no_faults env →
  (∀ m bytes, encode_message core m = Ok bytes → decode_message core bytes = Ok m) →
  append_messages env core c sid strand base messages w = (Ok tt, w') →
  continuity_session_heads (committed w') !! sid = Some row → decode_head core (hd_json row) = Some head →
  base + Z.of_nat (length messages) ≤ I64_MAX →
  (load_messages env core sid strand base (base + Z.of_nat (length messages)) w').1 = Ok messages.
Proof using Hkeys.
  intros Hq Hcodec Happ Hrow Hhead Hfit. eapply load_stored; [done|done| |done|done|done|by eapply append_stores].
  pose proof (wp_append_messages env core c sid strand base messages w) as H. unfold wp in H. rewrite Happ in H. by destruct H.
Qed.

(** An accepted whole-document save, exactly.  The caller's cursor was current
    and the session his; onto a head-canonical session the save leaves a head under
    the caller's cursor and keeps the archived document and every row (the archive
    is never written again), otherwise it leaves the document under the cursor and
    no head-canonical row; the record is advanced, other sessions, the schema and
    the ledger are as before. *)
Theorem accepted_save_exact identity sid gen version token data w w' :
  local_save_session_snapshot env core identity sid gen version token data w = (Ok tt, w') →
  let d := committed w in
  let d' := committed w' in
  cursor_admits d identity sid gen version token ∧ owns_snapshot d identity sid gen ∧
  (knows_heads w = true → owns_head d identity sid gen) ∧
  elsewhere sid d d' ∧ continuity_records d' = alter (advanced version token) identity (continuity_records d) ∧
  document_saved (knows_heads w) d d' identity sid gen version token data.
Proof using Hkeys.
  intros Hs d d'. pose proof (wp_save env core identity sid gen version token data w) as H. unfold wp in H. rewrite Hs in H.
  destruct H as (? & ? & ? & [Hel Hrec] & Ht & Hl & ?). split_and!; [done..| |done|done].
  simpl in *. rewrite Ht, Hl in Hel. by destruct (committed w).
Qed.
End claims.


(** ** Concrete runs *)

Module ContinuityWitnesses.
Import ContinuityExamples.

(** A new holder takes over with token 9; the old one still presents 7. *)
Definition file3 : CWorld :=
  run_local toy_env toy_core [second_message; Trait (UpsertRecord (mkContinuityRecord "ada" "rt-2" "s1" 1 2) 9)] file1.
Definition new_holder : list ToyCall := [AppendMessages (mkCursor "ada" 1 3 9) "s1" "main" 2 ["new holder"]].
Definition late_append : ToyCall := AppendMessages (mkCursor "ada" 1 4 7) "s1" "main" 3 ["late"].

Lemma superseded_holder_changes_nothing_witness :
  let w' := run_local toy_env toy_core new_holder file3 in
  fenced_at (committed w') "ada" 9 ∧ (perform_local toy_env toy_core late_append w').1 = false ∧
  committed (perform_local toy_env toy_core late_append w').2 = committed w'.
Proof.
  refine (superseded_holder_changes_nothing toy_env toy_core new_holder file3 "ada" 9 late_append 7 _ _ _ _).
  - vm_compute. reflexivity.
  - repeat constructor.
  - reflexivity.
  - lia.
Defined.

Lemma records_change_exactly_witness :
  let '(ok, w') := perform_local toy_env toy_core second_message file1 in
  if ok then records_effect toy_core second_message (committed file1) (committed w') else committed w' = committed file1.
Proof. exact (records_change_exactly toy_env toy_core second_message file1). Defined.

Definition third_message : list ToyCall := [AppendMessages (mkCursor "ada" 1 3 7) "s1" "main" 2 ["third"]].

Lemma transcript_is_append_only_witness :
  let d := committed (run_local toy_env toy_core (first_life ++ [second_message]) fresh_handle) in
  let d' := committed (run_local toy_env toy_core ((first_life ++ [second_message]) ++ third_message) fresh_handle) in
  has_head d' "s1" = true ∧ session_snapshots d' !! "s1" = session_snapshots d !! "s1" ∧
  ∀ strand i row, continuity_strand_messages d !! ("s1", strand, i) = Some row →
                  continuity_strand_messages d' !! ("s1", strand, i) = Some row.
Proof.
  refine (transcript_is_append_only toy_env toy_core (first_life ++ [second_message]) third_message "s1" _ _).
  - repeat constructor.
  - vm_compute. reflexivity.
Defined.

Definition stored_head : HeadRow :=
  default (mkHeadRow "" 0 0 0 "" 0 0 "" "") (continuity_session_heads (committed file2) !! "s1").

Lemma append_is_read_back_witness :
  (load_messages toy_env toy_core "s1" "main" 1 (1 + Z.of_nat (length ["again"])) file2).1 = Ok ["again"].
Proof.
  refine (append_is_read_back toy_env toy_core (mkCursor "ada" 1 2 7) "s1" "main" 1 ["again"] file1 file2 stored_head
    ("s1", "main", 1, 0, text ["hello"]) _ _ _ _ _ _).
  - exact toy_quiet.
  - intros m bytes [= <-]. change (ok_or (untext (A := string) (text m)) "not a message" = Ok m). by rewrite untext_text.
  - vm_compute. reflexivity.
  - vm_compute. reflexivity.
  - vm_compute. reflexivity.
  - vm_compute. discriminate.
Defined.

Lemma accepted_save_exact_witness :
  let w := run_local toy_env toy_core [Reopen; Trait (UpsertRecord record1 7)] fresh_handle in
  document_saved (knows_heads w) (committed w) (committed file1) "ada" "s1" 1 1 7 document1.
Proof.
  pose (w := run_local toy_env toy_core [Reopen; Trait (UpsertRecord record1 7)] fresh_handle).
  destruct (accepted_save_exact toy_env toy_core "ada" "s1" 1 1 7 document1 w file1) as (_ & _ & _ & _ & _ & H);
    [vm_compute; reflexivity|exact H].
Defined.

Lemma head_rows_lock_older_binaries_out_witness :
  let d := committed (run_local toy_env toy_core (first_life ++ [second_message]) fresh_handle) in
  has_head d "s1" = true ∧ stamped d = true.
Proof.
  destruct (head_rows_lock_older_binaries_out toy_env toy_core (first_life ++ [second_message])) as (H & _).
  assert (has_head (committed (run_local toy_env toy_core (first_life ++ [second_message]) fresh_handle)) "s1" = true) as Hh
    by (vm_compute; reflexivity).
  split; [exact Hh|exact (H "s1" Hh)].
Defined.

(** The gateway restarts on the file of [file3], and two runtimes ask for leases. *)
Definition restarted : LocalLeaseState := with_floor 9.
Definition lease_calls : list LeaseCall :=
  [Acquire ["ada"; "bob"] "gw-1"; Acquire ["ada"] "gw-2"; Release [mkGrant "ada" 10 LOCAL_LEASE_TTL]; Acquire ["ada"] "gw-2"].

Lemma restart_outranks_the_file_witness :
  let '(grants, s) := lease_run lease_calls restarted in
  grant_token <$> grants = seqZ (next_token restarted) (Z.of_nat (length grants)) ∧
  (∀ g f, g ∈ grants → on_file (committed (open_identity_substrate toy_env file3).2) f → f < grant_token g) ∧
  (∀ g, g ∈ grants → renew_one s g = Renewed (mkGrant (grant_identity g) (grant_token g) LOCAL_LEASE_TTL) →
     ∀ g', g' ∈ grants → grant_identity g' = grant_identity g → grant_token g' ≤ grant_token g).
Proof.
  refine (restart_outranks_the_file toy_env file3 restarted (open_identity_substrate toy_env file3).2 lease_calls _ _ _).
  - apply sound_file. apply (run_sound toy_env toy_core). apply (run_sound toy_env toy_core). apply fresh_sound.
  - vm_compute. reflexivity.
  - vm_compute. discriminate.
Defined.

Example lease_grants : grant_token <$> (lease_run lease_calls restarted).1 = [10; 11; 12].
Proof. vm_compute. reflexivity. Qed.

Definition opened : CWorld := run_local toy_env toy_core [Reopen] fresh_handle.


(** The four calls that are not compared do differ: on the same file the stores disagree on the match of the
    current document, on the version of a binding, on the owner of a document without a record and on a
    rollback under a larger token. *)
Definition both_stores {A} (call : ∀ W, ContinuityStore W → M W ContinuityStoreError A) (w : CWorld)
    : Result A ContinuityStoreError * Result A ContinuityStoreError :=
  ((call _ (LocalContinuityStore toy_env toy_core) w).1,
   (call _ (CompatRollbackContinuityStore (decode_session toy_core) (session_projection_cas_token toy_core))
      (abs (committed w))).1).

Definition saved_first : CWorld :=
  run_local toy_env toy_core [Trait (SaveSnapshot "ada" "s1" 1 5 7 document1); Trait (UpsertRecord record1 7)] opened.

Definition unbound : CWorld := run_local toy_env toy_core [Trait (SaveSnapshot "ada" "s1" 1 5 7 document1)] opened.

Example left_out_calls_differ :
  both_stores (λ _ store, session_snapshot_matches_current store (mkCandidate "ada" "s1" 1 1 7 document1)) file1 =
    (Ok true, Ok false) ∧
  both_stores (λ _ store, found ← resolve_record_by_session store "s1"; mret (snd <$> found)) saved_first = (Ok (Some 5), Ok (Some 0)) ∧
  both_stores (λ _ store, session_owner store "s1") unbound = (Ok (Some "ada"), Ok None) ∧
  both_stores (λ _ store, rollback_continuity_record store record1 None 8) file1 = (Err (StaleFencingToken "ada" 8 7), Ok tt).
Proof. vm_compute. split_and!; reflexivity. Qed.
End ContinuityWitnesses.
