(* ===== verification/MemoryRecords.v ===== *)
(** * Governed memory: the record model ([memory/records.rs])

    Scopes, kinds, trust tiers, authors, statuses and the record itself, with the
    deterministic guards on its fields.  The digest of SHA-256 is the parameter
    [Sha256]; what is hashed is written out. *)

From Stdlib Require Ascii.
From S2P Require Import Prelude Strings.
Open Scope Z_scope.

Definition MAX_RECORD_TITLE_BYTES : nat := 200.
Definition MAX_RECORD_DESCRIPTION_BYTES : nat := 400.
Definition MAX_RECORD_BODY_BYTES : nat := Z.to_nat (64 * 1024).

(** ** Scopes *)

Inductive MemoryScope :=
| IdentityScope (realm identity : string)
| MobScope (realm mob : string)
| OperatorScope (realm operator : string)
| RealmScope (realm : string).
#[global] Instance MemoryScope_eq_dec : EqDecision MemoryScope.
Proof. solve_decision. Defined.

Definition scope_realm (s : MemoryScope) : string :=
  match s with IdentityScope r _ | MobScope r _ | OperatorScope r _ | RealmScope r => r end.
Definition scope_kind_str (s : MemoryScope) : string :=
  match s with
  | IdentityScope _ _ => "identity"
  | MobScope _ _ => "mob"
  | OperatorScope _ _ => "operator"
  | RealmScope _ => "realm"
  end.
Definition scope_key (s : MemoryScope) : string :=
  match s with IdentityScope _ k | MobScope _ k | OperatorScope _ k => k | RealmScope _ => "" end.

Definition AGENT_MEMORY_TARGET_OWNER : string := "meta.agent_memory".

Fixpoint escape_scope_ref_part (part : string) : string :=
  match part with
  | "" => ""
  | String ch rest =>
      (if ch =b "%"%char then "%25" else if ch =b "/"%char then "%2F" else String ch "")
        +:+ escape_scope_ref_part rest
  end.

(** The owner and the scope text of the typed memory target. *)
Definition operation_scope_ref (s : MemoryScope) : string * string :=
  (AGENT_MEMORY_TARGET_OWNER,
   scope_kind_str s +:+ "/" +:+ escape_scope_ref_part (scope_realm s) +:+ "/" +:+
   escape_scope_ref_part (scope_key s)).

(** ** Kinds, tiers, statuses and authors *)

Inductive MemoryKind := Preference | Fact | Gotcha | Procedure | Relationship | OpenLoop | Reference.
#[global] Instance MemoryKind_eq_dec : EqDecision MemoryKind.
Proof. solve_decision. Defined.

Definition kind_as_str (k : MemoryKind) : string :=
  match k with
  | Preference => "preference" | Fact => "fact" | Gotcha => "gotcha" | Procedure => "procedure"
  | Relationship => "relationship" | OpenLoop => "open_loop" | Reference => "reference"
  end.
Definition kind_parse (value : string) : option MemoryKind :=
  if value =b "preference" then Some Preference
  else if value =b "fact" then Some Fact
  else if value =b "gotcha" then Some Gotcha
  else if value =b "procedure" then Some Procedure
  else if value =b "relationship" then Some Relationship
  else if value =b "open_loop" then Some OpenLoop
  else if value =b "reference" then Some Reference
  else None.

(** The order of the variants is the order of authority. *)
Inductive TrustTier := Untrusted | AgentObserved | AgentVerified | ApplicationTier | OperatorTier.
#[global] Instance TrustTier_eq_dec : EqDecision TrustTier.
Proof. solve_decision. Defined.

Definition tier_rank (t : TrustTier) : Z :=
  match t with Untrusted => 0 | AgentObserved => 1 | AgentVerified => 2 | ApplicationTier => 3 | OperatorTier => 4 end.
Definition tier_gt (a b : TrustTier) : bool := tier_rank b <? tier_rank a.

Definition tier_as_str (t : TrustTier) : string :=
  match t with
  | Untrusted => "untrusted" | AgentObserved => "agent_observed" | AgentVerified => "agent_verified"
  | ApplicationTier => "application" | OperatorTier => "operator"
  end.
Definition tier_parse (value : string) : option TrustTier :=
  if value =b "untrusted" then Some Untrusted
  else if value =b "agent_observed" then Some AgentObserved
  else if value =b "agent_verified" then Some AgentVerified
  else if value =b "application" then Some ApplicationTier
  else if value =b "operator" then Some OperatorTier
  else None.

Definition assignable_via_staged_batch (t : TrustTier) : bool :=
  negb ((t =b OperatorTier) || (t =b ApplicationTier)).
Definition llm_write_ceiling : TrustTier := AgentObserved.
Definition capped_for_tainted_provenance (t : TrustTier) : TrustTier :=
  if tier_gt t AgentObserved then AgentObserved else t.

Inductive RecordStatus :=
| Active
| Superseded (superseded_by : string)
| Quarantined (reason : string)
| Tombstoned.
#[global] Instance RecordStatus_eq_dec : EqDecision RecordStatus.
Proof. solve_decision. Defined.

Definition status_kind_str (s : RecordStatus) : string :=
  match s with
  | Active => "active" | Superseded _ => "superseded" | Quarantined _ => "quarantined" | Tombstoned => "tombstoned"
  end.
Definition is_quarantined (s : RecordStatus) : bool := match s with Quarantined _ => true | _ => false end.

Inductive MemoryAuthor :=
| OperatorAuthor
| ApplicationAuthor
| AgentAuthor (identity : string)
| StewardAuthor (run_id : string)
| DistillerAuthor (run_id : string).
#[global] Instance MemoryAuthor_eq_dec : EqDecision MemoryAuthor.
Proof. solve_decision. Defined.

Definition is_llm (a : MemoryAuthor) : bool :=
  match a with AgentAuthor _ | StewardAuthor _ | DistillerAuthor _ => true | _ => false end.
Definition is_steward (a : MemoryAuthor) : bool := match a with StewardAuthor _ => true | _ => false end.

(** ** Provenance and records *)

Record EvidenceRef := mkEvidence {
  evidence_session_id : string;
  evidence_generation : Z;
  evidence_revision : option string;
  evidence_range : option (Z * Z);
}.
#[global] Instance EvidenceRef_eq_dec : EqDecision EvidenceRef.
Proof. solve_decision. Defined.

Record CalibrationRef := mkCalibration {
  calibration_stage : string; calibration_bundle : string; calibration_version : string; calibration_model : string;
}.
#[global] Instance CalibrationRef_eq_dec : EqDecision CalibrationRef.
Proof. solve_decision. Defined.

Record VerificationClaim := mkClaim { claim_checked : string; claim_evidence : list EvidenceRef }.
#[global] Instance VerificationClaim_eq_dec : EqDecision VerificationClaim.
Proof. solve_decision. Defined.

Record MemoryProvenance := mkProvenance {
  provenance_evidence : list EvidenceRef;
  provenance_author : MemoryAuthor;
  provenance_profile : option CalibrationRef;
  provenance_verification : option VerificationClaim;
}.
#[global] Instance MemoryProvenance_eq_dec : EqDecision MemoryProvenance.
Proof. solve_decision. Defined.

Record UsageStats := mkUsage {
  injected_count : Z;
  last_injected_at_ms : option Z;
  explicit_recall_count : Z;
  last_recalled_at_ms : option Z;
  judged_useful_count : Z;
  last_useful_at_ms : option Z;
}.
#[global] Instance UsageStats_eq_dec : EqDecision UsageStats.
Proof. solve_decision. Defined.
Definition usage_default : UsageStats := mkUsage 0 None 0 None 0 None.

Inductive UsageEvent := Injected | ExplicitRecall | JudgedUseful.

(** [count += 1] on a [u64], without overflow checks. *)
Definition count_up (n : Z) : Z := (n + 1) mod 2 ^ 64.

(** The counters after an event at [now]. *)
Definition record_usage (event : UsageEvent) (now : Z) (u : UsageStats) : UsageStats :=
  match event with
  | Injected =>
      mkUsage (count_up (injected_count u)) (Some now) (explicit_recall_count u) (last_recalled_at_ms u)
        (judged_useful_count u) (last_useful_at_ms u)
  | ExplicitRecall =>
      mkUsage (injected_count u) (last_injected_at_ms u) (count_up (explicit_recall_count u)) (Some now)
        (judged_useful_count u) (last_useful_at_ms u)
  | JudgedUseful =>
      mkUsage (injected_count u) (last_injected_at_ms u) (explicit_recall_count u) (last_recalled_at_ms u)
        (count_up (judged_useful_count u)) (Some now)
  end.

Inductive InjectionSurface := BuildSurface | TurnSurface.
#[global] Instance InjectionSurface_eq_dec : EqDecision InjectionSurface.
Proof. solve_decision. Defined.
Definition surface_as_str (s : InjectionSurface) : string :=
  match s with BuildSurface => "build" | TurnSurface => "turn" end.
Definition surface_parse (value : string) : option InjectionSurface :=
  if value =b "build" then Some BuildSurface else if value =b "turn" then Some TurnSurface else None.

Record InjectionLogEntry := mkInjection {
  injection_record_id : string;
  injection_identity : string;
  injection_session_key : option string;
  injection_surface : InjectionSurface;
  injection_at_ms : Z;
}.

Record MemoryRecord := mkRecord {
  memory_id : string;
  scope : MemoryScope;
  kind : MemoryKind;
  title : string;
  description : string;
  body : string;
  tags : list string;
  provenance : MemoryProvenance;
  trust : TrustTier;
  status : RecordStatus;
  supersedes : option string;
  derived_from : list string;
  working_set_rank : option Z;
  created_at_ms : Z;
  updated_at_ms : Z;
  usage : UsageStats;
  ever_quarantined : bool;
}.

Record NewMemoryRecord := mkNewRecord {
  new_kind : MemoryKind;
  new_title : string;
  new_description : string;
  new_body : string;
  new_tags : list string;
  new_evidence : list EvidenceRef;
  new_verification : option VerificationClaim;
}.
#[global] Instance NewMemoryRecord_eq_dec : EqDecision NewMemoryRecord.
Proof. solve_decision. Defined.

Record RecordMeta := mkMeta {
  meta_id : string;
  meta_kind : MemoryKind;
  meta_title : string;
  meta_description : string;
  meta_age_days : Z;
  meta_rank : option Z;
}.

Inductive ManifestTier := WorkingSet (k : nat) | Full.

(** ** The content hash and the field guards *)

Class Sha256 := sha256 : string → list Z.

Definition byte_char (b : Z) : ascii := ascii_of_N (Z.to_N b).

(** [(n as u64).to_le_bytes()] *)
Fixpoint le_bytes (count : nat) (n : Z) : string :=
  match count with
  | O => ""
  | S count' => String (byte_char (n mod 256)) (le_bytes count' (n / 256))
  end.

Definition hash_input (title body : string) : string :=
  le_bytes 8 (Z.of_nat (str_len title)) +:+ title +:+ body.

Fixpoint hex_bytes (bytes : list Z) : string :=
  match bytes with
  | [] => ""
  | b :: rest => String (hex_char (b / 16)) (String (hex_char (b mod 16)) (hex_bytes rest))
  end.

Definition content_hash `{Sha256} (title body : string) : string := hex_bytes (sha256 (hash_input title body)).

Definition validate_record_fields (title description body : string) : Result unit string :=
  if str_is_empty (trim title) then Err "title must not be empty"
  else if (MAX_RECORD_TITLE_BYTES <? str_len title)%nat then Err "title must be at most 200 bytes"
  else if (MAX_RECORD_DESCRIPTION_BYTES <? str_len description)%nat then Err "description must be at most 400 bytes"
  else if str_is_empty (trim body) then Err "body must not be empty"
  else if (MAX_RECORD_BODY_BYTES <? str_len body)%nat then Err "body must be at most 65536 bytes"
  else Ok tt.

Definition age_days (updated_at_ms now_ms : Z) : Z :=
  u64_saturating_sub now_ms updated_at_ms / (24 * 60 * 60 * 1000).

(** ** Lemmas *)

Lemma kind_parse_as_str k : kind_parse (kind_as_str k) = Some k.
Proof. by destruct k. Qed.
Lemma tier_parse_as_str t : tier_parse (tier_as_str t) = Some t.
Proof. by destruct t. Qed.
Lemma surface_parse_as_str s : surface_parse (surface_as_str s) = Some s.
Proof. by destruct s. Qed.

(** Escaping removes every separator and can be undone. *)
Fixpoint unescape_part (s : string) : string :=
  match s with
  | String c1 (String c2 (String c3 rest) as tail) =>
      if c1 =b "%"%char then String (if c2 =b "2"%char then if c3 =b "5"%char then "%"%char else "/"%char else c1) (unescape_part rest)
      else String c1 (unescape_part tail)
  | String c1 tail => String c1 (unescape_part tail)
  | "" => ""
  end.

Lemma unescape_plain c s : c ≠ "%"%char → unescape_part (String c s) = String c (unescape_part s).
Proof. intros Hc. destruct s as [|c2 [|c3 s]]; cbn -[bool_decide]; [done..|]. by rewrite bool_decide_eq_false_2. Qed.

Lemma unescape_escape s : unescape_part (escape_scope_ref_part s) = s.
Proof.
  induction s as [|c s IH]; [done|]. cbn [escape_scope_ref_part].
  destruct (bool_decide_reflect (c = "%"%char)) as [->|Hp].
  { change (String "%"%char (unescape_part (escape_scope_ref_part s)) = String "%"%char s). by rewrite IH. }
  destruct (bool_decide_reflect (c = "/"%char)) as [->|Hs].
  { change (String "/"%char (unescape_part (escape_scope_ref_part s)) = String "/"%char s). by rewrite IH. }
  rewrite str_app_cons, str_app_nil_l, unescape_plain by done. by f_equal.
Qed.

Lemma escape_no_slash s : contains_byte "/"%char (escape_scope_ref_part s) = false.
Proof.
  induction s as [|c s IH]; [done|]. cbn [escape_scope_ref_part].
  destruct (bool_decide_reflect (c = "%"%char)) as [->|Hp]; [done|].
  destruct (bool_decide_reflect (c = "/"%char)) as [->|Hs]; [done|].
  rewrite str_app_cons, str_app_nil_l. cbn [contains_byte]. by rewrite IH, bool_decide_eq_false_2.
Qed.

Lemma kind_str_no_slash s : contains_byte "/"%char (scope_kind_str s) = false.
Proof. by destruct s. Qed.

(** Two scopes never share a reference. *)
Lemma operation_scope_ref_inj s t : operation_scope_ref s = operation_scope_ref t → s = t.
Proof.
  unfold operation_scope_ref. rewrite !str_app_cons, !str_app_nil_l.
  intros [= H]. apply (f_equal (split_once "/"%char)) in H.
  rewrite !split_once_app in H by apply kind_str_no_slash. injection H as Hk H.
  apply (f_equal (split_once "/"%char)) in H. rewrite !split_once_app in H by apply escape_no_slash.
  injection H as Hr He. apply (f_equal unescape_part) in Hr, He. rewrite !unescape_escape in Hr, He.
  destruct s, t; simpl in *; congruence.
Qed.

(** The length prefix keeps a title and a body apart in what is hashed. *)
Lemma le_bytes_inj count n m : 0 ≤ n < 256 ^ Z.of_nat count → 0 ≤ m < 256 ^ Z.of_nat count →
  le_bytes count n = le_bytes count m → n = m.
Proof.
  revert n m. induction count as [|count IH]; intros n m Hn Hm; [simpl in *; lia|].
  rewrite Nat2Z.inj_succ, Z.pow_succ_r in Hn, Hm by lia. cbn [le_bytes]. intros [= Hb Hr].
  apply (f_equal byte_val) in Hb. unfold byte_val, byte_char in Hb.
  pose proof (Z.mod_pos_bound n 256). pose proof (Z.mod_pos_bound m 256).
  rewrite !Stdlib.Strings.Ascii.N_ascii_embedding in Hb by lia. rewrite !Z2N.id in Hb by lia.
  apply IH in Hr; [|split; [apply Z.div_pos; lia|apply Z.div_lt_upper_bound; lia]..].
  rewrite (Z.div_mod n 256), (Z.div_mod m 256) by lia. by rewrite Hb, Hr.
Qed.

Lemma str_len_le_bytes count n : str_len (le_bytes count n) = count.
Proof. revert n. induction count as [|count IH]; intros n; [done|]. cbn. by rewrite IH. Qed.

Lemma str_app_inj_len s1 s2 t1 t2 : str_len s1 = str_len s2 → s1 +:+ t1 = s2 +:+ t2 → s1 = s2 ∧ t1 = t2.
Proof.
  revert s2. induction s1 as [|a s1 IH]; intros [|b s2]; simpl; [by auto|done..|].
  intros [= Hl] [= -> H]. destruct (IH _ Hl H) as [-> ->]. done.
Qed.

Lemma hash_input_inj t b t' b' :
  Z.of_nat (str_len t) ≤ U64_MAX → Z.of_nat (str_len t') ≤ U64_MAX →
  hash_input t b = hash_input t' b' → t = t' ∧ b = b'.
Proof.
  unfold hash_input, U64_MAX. intros Ht Ht' H.
  apply str_app_inj_len in H as [Hl H]; [|by rewrite !str_len_le_bytes].
  apply le_bytes_inj in Hl; [|simpl; lia..]. apply Nat2Z.inj in Hl. by apply str_app_inj_len in H.
Qed.
