(* ===== verification/MemorySecrets.v ===== *)
(** * Governed memory: the secret scan of the write path ([memory/secrets.rs])

    A text is its UTF-8 bytes.  The scanners only accept ASCII characters, and a
    byte of a longer character is none of them, so scanning bytes and scanning
    characters agree.  [search] is the loop the scanners share: find the next
    occurrence of a prefix, test it, and go on after the prefix. *)

From S2P Require Import Prelude Strings.
Open Scope Z_scope.

Definition CLASS_AWS_ACCESS_KEY_ID : string := "aws-access-key-id".
Definition CLASS_GITHUB_TOKEN : string := "github-token".
Definition CLASS_PRIVATE_KEY : string := "private-key".
Definition CLASS_CREDENTIAL_ASSIGNMENT : string := "credential-assignment".

Definition is_ascii_uppercase (a : ascii) : bool := (65 <=? byte_val a) && (byte_val a <=? 90).
Definition is_ascii_lowercase (a : ascii) : bool := (97 <=? byte_val a) && (byte_val a <=? 122).
Definition is_ascii_alphanumeric (a : ascii) : bool :=
  is_ascii_uppercase a || is_ascii_lowercase a || is_ascii_digit a.
Definition is_word_char (a : ascii) : bool := is_ascii_alphanumeric a || (a =b "_"%char).

(** ** The search loop *)

(** [text[from..].find(p)]: the character before the first occurrence and what follows it. *)
Fixpoint find_at (strip : string → option string) (before : option ascii) (s : string) : option (option ascii * string) :=
  match strip s with
  | Some rest => Some (before, rest)
  | None => match s with "" => None | String a s' => find_at strip (Some a) s' end
  end.

Fixpoint search (fuel : nat) (strip : string → option string) (last : ascii)
    (hit : option ascii → string → bool) (before : option ascii) (s : string) : bool :=
  match fuel with
  | O => false
  | S fuel' =>
      match find_at strip before s with
      | None => false
      | Some (b, rest) => hit b rest || search fuel' strip last hit (Some last) rest
      end
  end.

Definition last_char (p : string) : ascii := match String.rev p with String a _ => a | "" => "000"%char end.
Definition search_prefix (p : string) (hit : option ascii → string → bool) (text : string) : bool :=
  search (str_len text) (strip_prefix p) (last_char p) hit None text.

Definition boundary (before : option ascii) : bool := is_none_or before (λ c, negb (is_word_char c)).

(** [take_while(allowed).count()] *)
Fixpoint run_length (allowed : ascii → bool) (s : string) : nat :=
  match s with
  | "" => 0
  | String a s' => if allowed a then S (run_length allowed s') else 0
  end.

(** ** The four classes *)

Fixpoint take_str (n : nat) (s : string) : string :=
  match n, s with S n', String a s' => String a (take_str n' s') | _, _ => "" end.
Fixpoint drop_str (n : nat) (s : string) : string :=
  match n, s with S n', String _ s' => drop_str n' s' | _, _ => s end.
Definition head_char (s : string) : option ascii := match s with String a _ => Some a | "" => None end.

Definition is_key_char (c : ascii) : bool := is_ascii_uppercase c || is_ascii_digit c.

Definition aws_hit (before : option ascii) (rest : string) : bool :=
  boundary before &&
  ((16 <=? str_len (take_str 17 rest))%nat && str_forall is_key_char (take_str 16 rest)) &&
  boundary (head_char (drop_str 16 rest)).

Definition has_aws_access_key_id (text : string) : bool :=
  existsb (λ p, search_prefix p aws_hit text) ["AKIA"; "ASIA"].

Definition run_hit (min_len : nat) (allowed : ascii → bool) (before : option ascii) (rest : string) : bool :=
  boundary before && (min_len <=? run_length allowed rest)%nat.
Definition prefixed_run_at_least (text p : string) (min_len : nat) (allowed : ascii → bool) : bool :=
  search_prefix p (run_hit min_len allowed) text.

Definition has_github_token (text : string) : bool :=
  existsb (λ p, prefixed_run_at_least text p 36 is_ascii_alphanumeric) ["ghp_"; "gho_"; "ghu_"; "ghs_"; "ghr_"] ||
  prefixed_run_at_least text "github_pat_" 22 (λ c, is_ascii_alphanumeric c || (c =b "_"%char)).

Definition has_private_key_header (text : string) : bool :=
  str_contains "PRIVATE KEY-----" text && str_contains "-----BEGIN" text.

Definition is_blank (c : ascii) : bool := (c =b " "%char) || (byte_val c =? 9).
Fixpoint skip_blanks (s : string) : string :=
  match s with String a s' => if is_blank a then skip_blanks s' else s | "" => "" end.
Definition is_token_char (c : ascii) : bool :=
  is_ascii_alphanumeric c || (c =b "_"%char) || (c =b "-"%char) || (c =b "/"%char) || (c =b "+"%char) ||
  (c =b "="%char) || (c =b "."%char).
Fixpoint token_run (s : string) : nat * bool :=
  match s with
  | String a s' =>
      if is_token_char a then let '(len, digit) := token_run s' in (S len, is_ascii_digit a || digit) else (0%nat, false)
  | "" => (0%nat, false)
  end.

Definition assignment_value_follows (tail : string) : bool :=
  match skip_blanks tail with
  | String c s =>
      if (c =b "="%char) || (c =b ":"%char) then
        let s := skip_blanks s in
        let s := match s with
                 | String q s' => if (byte_val q =? 34) || (q =b "'"%char) then s' else s
                 | "" => ""
                 end in
        let '(len, has_digit) := token_run s in (16 <=? len)%nat && has_digit
      else false
  | "" => false
  end.

Definition KEY_NAMES : list string :=
  ["api_key"; "api-key"; "apikey"; "secret_key"; "secret-key"; "client_secret"; "access_token"; "access-token";
   "auth_token"; "auth-token"; "aws_secret_access_key"; "private_token"].

(** The name is searched in the lower-cased text, the value is read from the
    original: lower-casing keeps every offset. *)
Definition strip_name (name text : string) : option string :=
  if starts_with name (to_ascii_lowercase text) then Some (drop_str (str_len name) text) else None.
Definition assignment_hit (before : option ascii) (tail : string) : bool :=
  boundary (ascii_lower <$> before) && assignment_value_follows tail.
Definition has_credential_assignment (text : string) : bool :=
  existsb (λ name, search (str_len text) (strip_name name) (last_char name) assignment_hit None text) KEY_NAMES.

Definition detect_secret (text : string) : option string :=
  if has_aws_access_key_id text then Some CLASS_AWS_ACCESS_KEY_ID
  else if has_github_token text then Some CLASS_GITHUB_TOKEN
  else if has_private_key_header text then Some CLASS_PRIVATE_KEY
  else if has_credential_assignment text then Some CLASS_CREDENTIAL_ASSIGNMENT
  else None.

Definition detect_record_secret (title description body : string) (tags : list string) : option string :=
  opt_or (detect_secret title)
    (opt_or (detect_secret description) (opt_or (detect_secret body) (head (omap detect_secret tags)))).

(** ** The loop misses nothing

    The loop goes on after the prefix it found, so an occurrence that overlaps it
    is skipped.  Where a prefix overlaps itself, the character before the overlap
    is a word character, and such an occurrence is no hit. *)

(** [b] is the character just before the end of [pre], or [before] when [pre] is empty. *)
Definition before_of (before : option ascii) (pre : string) : option ascii :=
  match pre with "" => before | _ => Some (last_char pre) end.

Lemma last_char_snoc s a : last_char (s +:+ String a "") = a.
Proof. unfold last_char. rewrite str_rev_app. done. Qed.
Lemma last_char_cons a b s : last_char (String a (String b s)) = last_char (String b s).
Proof.
  unfold last_char. rewrite !(str_rev_cons a). destruct (String.rev (String b s)) eqn:E; [|done].
  apply (f_equal str_len) in E. by rewrite str_len_rev in E.
Qed.
Lemma before_of_cons before a pre : before_of before (String a pre) = before_of (Some a) pre.
Proof. destruct pre as [|b pre]; [done|]. simpl. by rewrite last_char_cons. Qed.

Lemma find_at_None strip before s :
  find_at strip before s = None ↔ ∀ pre suf, s = pre +:+ suf → strip suf = None.
Proof.
  revert before. induction s as [|a s IH]; intros before; cbn [find_at].
  - destruct (strip "") eqn:E; split; [done| | |done].
    + intros H. by rewrite (H "" "") in E.
    + intros _ [|] suf; [rewrite str_app_nil_l; by intros <-|done].
  - destruct (strip (String a s)) eqn:E; [split; [done|]; intros H; by rewrite (H "" _ eq_refl) in E|].
    rewrite IH. split.
    + intros H [|b pre] suf; [rewrite str_app_nil_l; by intros <-|]. intros [= -> Hs]. by eapply H.
    + intros H pre suf ->. by apply (H (String a pre)).
Qed.

Lemma find_at_Some strip before s b rest :
  find_at strip before s = Some (b, rest) →
  ∃ pre suf, s = pre +:+ suf ∧ strip suf = Some rest ∧ b = before_of before pre ∧
    ∀ pre' suf', s = pre' +:+ suf' → (str_len pre' < str_len pre)%nat → strip suf' = None.
Proof.
  revert before. induction s as [|a s IH]; intros before; cbn [find_at].
  - destruct (strip "") eqn:E; [|done]. intros [= <- <-]. exists "", "". split_and!; [done..|simpl; lia].
  - destruct (strip (String a s)) eqn:E.
    + intros [= <- <-]. exists "", (String a s). split_and!; [done..|simpl; lia].
    + intros (pre & suf & -> & Hs & -> & Hmin)%IH. exists (String a pre), suf. split_and!; [done..| |].
      * by rewrite before_of_cons.
      * intros [|b pre'] suf'; [rewrite str_app_nil_l; by intros <-|]. intros [= -> Heq] Hlen. eapply Hmin; [done|simpl in *; lia].
Qed.

Lemma str_app_split s1 t1 s2 t2 :
  s1 +:+ t1 = s2 +:+ t2 → (str_len s1 ≤ str_len s2)%nat → ∃ m, s2 = s1 +:+ m ∧ t1 = m +:+ t2.
Proof.
  revert s2. induction s1 as [|a s1 IH]; intros s2; [rewrite str_app_nil_l; intros -> _; by exists s2|].
  destruct s2 as [|b s2]; simpl; [lia|]. intros [= -> H] Hlen.
  destruct (IH s2 H) as (m & -> & ->); [lia|]. by exists m.
Qed.

Lemma last_char_app s a t : last_char (s +:+ String a t) = last_char (String a t).
Proof.
  unfold last_char. rewrite str_rev_app. destruct (String.rev (String a t)) eqn:E; [|done].
  apply (f_equal str_len) in E. by rewrite str_len_rev in E.
Qed.

Lemma before_of_app before s t : t ≠ "" → before_of before (s +:+ t) = before_of None t.
Proof.
  intros Ht. destruct t as [|a t]; [done|].
  unfold before_of. rewrite last_char_app. by destruct (s +:+ String a t) as [|b u] eqn:E; [destruct s|].
Qed.

Section exact.
Context (strip : string → option string) (last : ascii) (hit : option ascii → string → bool) (n : nat).
Context (Hpos : (1 ≤ n)%nat).
Context (Hstrip : ∀ s rest, strip s = Some rest → ∃ q, s = q +:+ rest ∧ str_len q = n ∧
  ∀ tail, hit (Some (last_char q)) tail = hit (Some last) tail).
Context (Hoverlap : ∀ q pre suf rest rest', strip (q +:+ rest) = Some rest → q +:+ rest = pre +:+ suf →
  (0 < str_len pre < str_len q)%nat → strip suf = Some rest' → hit (before_of None pre) rest' = false).

(** The occurrences of the prefix that are hits. *)
Definition occurs (before : option ascii) (s : string) : Prop :=
  ∃ pre suf rest, s = pre +:+ suf ∧ strip suf = Some rest ∧ hit (before_of before pre) rest = true.

Lemma occurs_after before pre0 q rest0 :
  strip (q +:+ rest0) = Some rest0 → q ≠ "" → (∀ tail, hit (Some (last_char q)) tail = hit (Some last) tail) →
  (∀ pre' suf', pre0 +:+ q +:+ rest0 = pre' +:+ suf' → (str_len pre' < str_len pre0)%nat → strip suf' = None) →
  occurs before (pre0 +:+ q +:+ rest0) → hit (before_of before pre0) rest0 = true ∨ occurs (Some last) rest0.
Proof using Hoverlap Hpos.
  intros Hs Hq Hlast Hmin (pre & suf & rest & Heq & Hsuf & Hhit).
  destruct (decide (str_len pre < str_len pre0)%nat) as [Hlt|Hge]; [by rewrite (Hmin _ _ Heq) in Hsuf|].
  destruct (str_app_split _ _ _ _ Heq) as (m & -> & Hm); [lia|].
  destruct (decide (str_len m < str_len q)%nat) as [Hlt|Hge'].
  - destruct (decide (m = "")) as [->|Hne].
    + left. rewrite str_app_nil_r in Hhit. rewrite str_app_nil_l in Hm. subst suf. rewrite Hs in Hsuf. by injection Hsuf as <-.
    + rewrite before_of_app in Hhit by done. rewrite (Hoverlap q m suf rest0 rest) in Hhit; try done.
      split; [destruct m; [done|simpl; lia]|done].
  - right. destruct (str_app_split _ _ _ _ Hm) as (m' & -> & ->); [lia|].
    exists m', suf, rest. split_and!; [done..|]. rewrite str_app_assoc in Hhit.
    destruct (decide (m' = "")) as [->|Hne].
    + rewrite str_app_nil_r, before_of_app in Hhit by done. unfold before_of in *. destruct q as [|a q]; [done|].
      by rewrite Hlast in Hhit.
    + rewrite before_of_app in Hhit by done. by destruct m'.
Qed.

Lemma search_exact fuel before s :
  (str_len s ≤ fuel)%nat → search fuel strip last hit before s = true ↔ occurs before s.
Proof using All.
  revert before s. induction fuel as [|fuel IH]; intros before s Hlen.
  - split; [done|]. intros (pre & suf & rest & -> & Hs & _). apply Hstrip in Hs as (q & -> & Hq & _).
    rewrite !str_len_app in Hlen. lia.
  - cbn [search]. destruct (find_at strip before s) as [[b rest]|] eqn:E.
    + apply find_at_Some in E as (pre & suf & -> & Hs & -> & Hmin).
      pose proof (Hstrip _ _ Hs) as (q & -> & Hq & Hlast). rewrite !str_len_app in Hlen.
      assert (q ≠ "") as Hne by (intros ->; simpl in Hq; lia).
      rewrite orb_true_iff, IH by lia. split.
      * intros [Hh|(pre' & suf' & rest' & -> & Hs' & Hh)]; [by exists pre, (q +:+ rest), rest|].
        exists (pre +:+ q +:+ pre'), suf', rest'. split_and!; [by rewrite !str_app_assoc|done|].
        destruct (decide (pre' = "")) as [->|Hne'].
        -- rewrite str_app_nil_r, before_of_app by done. unfold before_of in *. destruct q; [done|]. by rewrite Hlast.
        -- rewrite str_app_assoc, before_of_app by done. by destruct pre'.
      * by apply occurs_after.
    + split; [done|]. intros (pre & suf & rest & Heq & Hs & _).
      rewrite find_at_None in E. by rewrite (E _ _ Heq) in Hs.
Qed.
End exact.

(** A prefix whose overlaps with itself all follow a word character. *)
Definition overlap_ok (p : string) : bool :=
  forallb (λ i, negb (starts_with (drop_str i p) p) || is_word_char (last_char (take_str i p))) (seq 1 (str_len p - 1)).

Lemma take_drop_app s t : take_str (str_len s) (s +:+ t) = s ∧ drop_str (str_len s) (s +:+ t) = t.
Proof.
  induction s as [|a s [IH1 IH2]]; [by destruct t|]. rewrite str_app_cons. cbn [str_len take_str drop_str]. by rewrite IH1, IH2.
Qed.

Lemma take_drop_str n s : s = take_str n s +:+ drop_str n s.
Proof.
  revert s. induction n as [|n IH]; intros s; [by rewrite str_app_nil_l|].
  destruct s as [|a s]; [done|]. cbn [take_str drop_str]. rewrite str_app_cons. by rewrite <- IH.
Qed.

Lemma prefix_overlap p pre suf rest rest' :
  overlap_ok p = true → p +:+ rest = pre +:+ suf → (0 < str_len pre < str_len p)%nat →
  strip_prefix p suf = Some rest' → boundary (before_of None pre) = false.
Proof.
  intros Hok Heq Hlen Hs. apply strip_prefix_Some in Hs as ->. symmetry in Heq.
  destruct (str_app_split _ _ _ _ Heq) as (m & -> & Hm); [lia|].
  assert (starts_with m (pre +:+ m) = true) as Hstart.
  { apply starts_with_spec. destruct (str_app_split m rest (pre +:+ m) rest') as (m' & -> & _); [done| |eauto].
    rewrite str_len_app. lia. }
  unfold overlap_ok in Hok. rewrite forallb_elem_of in Hok. specialize (Hok (str_len pre)).
  destruct (take_drop_app pre m) as [Ht Hd]. rewrite Ht, Hd, Hstart in Hok. simpl in Hok.
  assert (is_word_char (last_char pre) = true) as Hw.
  { apply Hok, elem_of_seq. rewrite str_len_app in *. lia. }
  unfold boundary, before_of. destruct pre; [simpl in Hlen; lia|]. simpl is_none_or. by rewrite Hw.
Qed.

(** Every occurrence of the prefix on a word boundary that passes the test is found. *)
Lemma search_prefix_exact p hit text :
  overlap_ok p = true → p ≠ "" → (∀ b rest, hit b rest = true → boundary b = true) →
  search_prefix p hit text = true ↔
  ∃ pre rest, text = pre +:+ p +:+ rest ∧ hit (before_of None pre) rest = true.
Proof.
  intros Hok Hp Hb. unfold search_prefix. rewrite (search_exact (strip_prefix p) (last_char p) hit (str_len p)).
  - unfold occurs. split.
    + intros (pre & suf & rest & -> & ->%strip_prefix_Some & Hh). eauto.
    + intros (pre & rest & -> & Hh). exists pre, (p +:+ rest), rest. by rewrite strip_prefix_app.
  - destruct p; [done|simpl; lia].
  - intros s rest ->%strip_prefix_Some. by exists p.
  - intros q pre suf rest rest' Hq Heq Hlen Hs. apply strip_prefix_Some in Hq.
    destruct (hit _ _) eqn:Eh; [|done]. apply Hb in Eh.
    destruct (str_app_split q rest p rest) as (m & -> & Hm); [done| |].
    { apply (f_equal str_len) in Hq. rewrite !str_len_app in Hq. lia. }
    apply (f_equal str_len) in Hm as Hl. rewrite str_len_app in Hl. destruct m; [|simpl in Hl; lia].
    rewrite str_app_nil_r in *. by erewrite prefix_overlap in Eh.
  - done.
Qed.

Lemma run_length_spec allowed min rest :
  (min <=? run_length allowed rest)%nat = true ↔
  ∃ run post, rest = run +:+ post ∧ str_len run = min ∧ str_forall allowed run = true.
Proof.
  rewrite Nat.leb_le. revert rest. induction min as [|min IH]; intros rest.
  - split; [intros _; by exists "", rest|lia].
  - destruct rest as [|a rest]; cbn [run_length].
    { split; [lia|]. by intros ([|] & post & ? & ? & _). }
    destruct (allowed a) eqn:Ea.
    + rewrite <- Nat.succ_le_mono, IH. split.
      * intros (run & post & -> & Hl & Hf). exists (String a run), post. split_and!; [done|simpl; lia|]. simpl. by rewrite Ea.
      * intros ([|b run] & post & Heq & Hl & Hf); [done|]. injection Heq as <- ->. simpl in *. rewrite Ea in Hf.
        exists run, post. split_and!; [done|lia|done].
    + split; [lia|]. intros ([|b run] & post & Heq & Hl & Hf); [done|]. injection Heq as <- ->. simpl in Hf. by rewrite Ea in Hf.
Qed.

Lemma aws_hit_spec before rest :
  aws_hit before rest = true ↔
  boundary before = true ∧ ∃ key post, rest = key +:+ post ∧ str_len key = 16%nat ∧
    str_forall is_key_char key = true ∧ boundary (head_char post) = true.
Proof.
  unfold aws_hit. rewrite !andb_true_iff, Nat.leb_le. split.
  - intros [[Hb [Hl Hf]] Ha]. split; [done|]. exists (take_str 16 rest), (drop_str 16 rest).
    split_and!; [apply take_drop_str| |done..].
    clear -Hl. do 17 (destruct rest as [|? rest]; [simpl in Hl; try lia; done|]); done.
  - intros (Hb & key & post & -> & Hl & Hf & Ha). destruct (take_drop_app key post) as [Ht Hd]. rewrite Hl in Ht, Hd.
    rewrite Ht, Hd. split_and!; try done. clear -Hl.
    do 16 (destruct key as [|? key]; [simpl in Hl; lia|]). simpl. lia.
Qed.

(** The scan for access keys and tokens misses nothing and invents nothing.
    Although the loop resumes after the prefix it found, it answers exactly
    whether the text holds, anywhere, an AWS key id (prefix, sixteen upper-case
    letters or digits, word boundaries on both sides), and exactly whether it
    holds a GitHub token prefix on a word boundary followed by a long enough run. *)
Theorem key_scan_exact text :
  (has_aws_access_key_id text = true ↔
   ∃ pre p key post, text = pre +:+ p +:+ key +:+ post ∧ p ∈ ["AKIA"; "ASIA"] ∧
     str_len key = 16%nat ∧ str_forall is_key_char key = true ∧
     boundary (before_of None pre) = true ∧ boundary (head_char post) = true) ∧
  (has_github_token text = true ↔
   ∃ pre p run post, text = pre +:+ p +:+ run +:+ post ∧ boundary (before_of None pre) = true ∧
     ((p ∈ ["ghp_"; "gho_"; "ghu_"; "ghs_"; "ghr_"] ∧ str_len run = 36%nat ∧ str_forall is_ascii_alphanumeric run = true) ∨
      (p = "github_pat_" ∧ str_len run = 22%nat ∧ str_forall (λ c, is_ascii_alphanumeric c || (c =b "_"%char)) run = true))).
Proof.
  assert (∀ min allowed p, overlap_ok p = true → p ≠ "" →
    prefixed_run_at_least text p min allowed = true ↔
    ∃ pre run post, text = pre +:+ p +:+ run +:+ post ∧ boundary (before_of None pre) = true ∧
      str_len run = min ∧ str_forall allowed run = true) as Hrun.
  { intros min allowed p Hok Hp. unfold prefixed_run_at_least. rewrite search_prefix_exact by (done || (by intros ? ? [? _]%andb_true_iff)).
    unfold run_hit. setoid_rewrite andb_true_iff. setoid_rewrite run_length_spec. split.
    - intros (pre & rest & -> & Hb & run & post & -> & ?). exists pre, run, post. naive_solver.
    - intros (pre & run & post & -> & Hb & ?). exists pre, (run +:+ post). naive_solver. }
  split.
  - unfold has_aws_access_key_id. rewrite existsb_elem_of.
    assert (∀ p, p ∈ ["AKIA"; "ASIA"] → search_prefix p aws_hit text = true ↔
      ∃ pre rest, text = pre +:+ p +:+ rest ∧ aws_hit (before_of None pre) rest = true) as Hs.
    { intros p Hp. apply search_prefix_exact; [set_unfold; naive_solver|set_unfold; naive_solver|].
      by intros b rest [? _]%aws_hit_spec. }
    split.
    + intros (p & Hp & Hx). apply Hs in Hx as (pre & rest & -> & (Hb & key & post & -> & ? & ? & ?)%aws_hit_spec); [|done].
      exists pre, p, key, post. done.
    + intros (pre & p & key & post & -> & Hp & ? & ? & ? & ?). exists p. split; [done|]. apply Hs; [done|].
      exists pre, (key +:+ post). split; [done|]. apply aws_hit_spec. eauto 10.
  - unfold has_github_token. rewrite orb_true_iff, existsb_elem_of. rewrite Hrun by done. split.
    + intros [(p & Hp & Hx)|(pre & run & post & -> & ? & ? & ?)]; [|exists pre, "github_pat_", run, post; naive_solver].
      apply Hrun in Hx as (pre & run & post & -> & ? & ? & ?); [|set_unfold; naive_solver..].
      exists pre, p, run, post. naive_solver.
    + intros (pre & p & run & post & -> & Hb & [(Hp & Hl & Hf)|(-> & Hl & Hf)]); [left|right; eauto 10].
      exists p. split; [done|]. apply Hrun; [set_unfold; naive_solver..|eauto 10].
Qed.
