(* ===== verification/MemoryTaint.v ===== *)
(** * Governed memory: content taint and the write gate ([memory/taint.rs])

    The content-trust configuration, the session-sticky taint tracker and the gate
    the store asks before an LLM-authored write.  The tracker's mutex makes each of
    its methods one step.  The clock and the iteration order of a hash map are the
    class [TaintEnv], read at the tracker's observation counter; the timeline sink
    and the outbound declarer are callbacks, kept as the lists of what they were
    told.  The observer task that feeds the tracker is not modelled here: its feed
    is the sequence of operations. *)

From S2P Require Import Prelude Strings Json MemoryRecords MemorySecrets.
Open Scope Z_scope.

(** ** Text helpers of the standard library *)

(** [s.find(needle)]: what is before and after the first occurrence. *)
Fixpoint split_sub (needle s : string) : option (string * string) :=
  match strip_prefix needle s with
  | Some rest => Some ("", rest)
  | None => match s with
            | "" => None
            | String a s' => (λ p, (String a p.1, p.2)) <$> split_sub needle s'
            end
  end.
(** [s.split(needle).next()] *)
Definition before_sub (needle s : string) : string :=
  match split_sub needle s with Some (a, _) => a | None => s end.
(** [s.rsplit(c).next()] *)
Definition after_last (c : ascii) (s : string) : string :=
  match split_once c (String.rev s) with Some (a, _) => String.rev a | None => s end.

Definition strip_cr (line : string) : string :=
  match String.rev line with
  | String a _ => if byte_val a =? 13 then take_str (str_len line - 1) line else line
  | "" => ""
  end.
(** [s.lines()]: a line ends with [\n] or [\r\n]; what follows the last one is a
    line unless it is empty. *)
Fixpoint line_list (parts : list string) : list string :=
  match parts with
  | [] => []
  | [final] => if str_is_empty final then [] else [final]
  | part :: rest => strip_cr part :: line_list rest
  end.
Definition lines (s : string) : list string := line_list (split_byte "010"%char s).

(** ** Content trust *)

Definition ALWAYS_UNTRUSTED_TOOL_NAMES : list string := ["web_search"; "web_fetch"; "fetch"; "http_request"].
Definition MCP_QUALIFIED_PREFIX : string := "mcp__".
Definition MAX_TRACKED_TAINTED_SESSIONS : nat := Z.to_nat 4096.

Record ContentTrustConfig := mkTrust {
  trusted_mcp_servers : list string;
  untrusted_tools : list string;
  trusted_tools : list string;
}.

Inductive ToolContentTrust := Trusted | UntrustedSource (source : string).

(** The typed owner of a tool; of its kind only being an MCP server matters. *)
Inductive ToolSourceKind := McpSource | OtherSource.
Record ToolProvenance := mkToolProvenance { tool_source_kind : ToolSourceKind; tool_source_id : string }.

Definition as_array (v : Value) : option (list Value) := match v with VArray l => Some l | _ => None end.

Fixpoint parse_name_entries (key : string) (entries : list Value) : Result (list string) string :=
  match entries with
  | [] => Ok []
  | entry :: rest =>
      name ←? ok_or (opt_filter (λ name, negb (str_is_empty name)) (trim <$> as_str entry))
                ("content_trust." +:+ key +:+ " entries must be non-empty strings");
      names ←? parse_name_entries key rest;
      Ok (name :: names)
  end.
Definition parse_names (object : list (string * Value)) (key : string) : Result (list string) string :=
  match member key object with
  | None => Ok []
  | Some value =>
      entries ←? ok_or (as_array value) ("content_trust." +:+ key +:+ " must be an array");
      parse_name_entries key entries
  end.
Definition from_json_value (value : Value) : Result ContentTrustConfig string :=
  object ←? ok_or (as_object value) "content_trust must be an object";
  let supported := ["trusted_mcp_servers"; "untrusted_tools"; "trusted_tools"] in
  let unsupported := List.filter (λ key, negb (existsb (λ s, s =b key) supported)) object.*1 in
  if negb (is_empty unsupported) then Err ("unsupported content_trust fields: " +:+ join ", " unsupported)
  else
    servers ←? parse_names object "trusted_mcp_servers";
    untrusted ←? parse_names object "untrusted_tools";
    trusted ←? parse_names object "trusted_tools";
    Ok (mkTrust servers untrusted trusted).

Definition classify_mcp_server (c : ContentTrustConfig) (server name : string) : ToolContentTrust :=
  if existsb (λ trusted, trusted =b server) (trusted_mcp_servers c) then Trusted
  else UntrustedSource ("MCP server '" +:+ server +:+ "' (tool '" +:+ name +:+ "')").

Definition classify_tool_with_provenance (c : ContentTrustConfig) (name : string) (provenance : option ToolProvenance)
    : ToolContentTrust :=
  if existsb (λ tool, tool =b name) ALWAYS_UNTRUSTED_TOOL_NAMES then UntrustedSource ("web tool '" +:+ name +:+ "'")
  else if existsb (λ tool, tool =b name) (untrusted_tools c)
  then UntrustedSource ("configured untrusted tool '" +:+ name +:+ "'")
  else if existsb (λ tool, tool =b name) (trusted_tools c) then Trusted
  else
    let by_name := match strip_prefix MCP_QUALIFIED_PREFIX name with
                   | Some rest => classify_mcp_server c (before_sub "__" rest) name
                   | None => Trusted
                   end in
    match provenance with
    | Some (mkToolProvenance McpSource server) => classify_mcp_server c server name
    | _ => by_name
    end.
Definition classify_tool (c : ContentTrustConfig) (name : string) : ToolContentTrust :=
  classify_tool_with_provenance c name None.

(** ** The tracker *)

Record TaintState := mkTaint { tainted_at_ms : Z; taint_source : string }.

Inductive SenderContentTaint := SenderClean | SenderTainted.
#[global] Instance SenderContentTaint_eq_dec : EqDecision SenderContentTaint.
Proof. solve_decision. Defined.

(** The timeline events of this file. *)
Record TaintTransition := mkTransition {
  transition_identity : option string;
  transition_session_key : string;
  transition_kind : string;
  transition_source : string;
}.

Record TaintInner := mkInner {
  current_session : gmap string string;
  tainted : gmap string TaintState;
  pending_identity_taint : gmap string TaintState;
  reset_boundaries : gmap string Z;
}.
Definition inner_default : TaintInner := mkInner ∅ ∅ ∅ ∅.

Class TaintEnv := {
  now_at : nat → Z;
  iteration_order : nat → list (string * Z) → list (string * Z);
  iteration_permutes n l : iteration_order n l ≡ₚ l;
}.

(** The tracker: configuration, shared state, the two callbacks (present once
    wired) with what they were told, newest last, and the observation counter. *)
Record Tracker := mkTracker {
  trust_config : ContentTrustConfig;
  inner : TaintInner;
  sink_wired : bool;
  declarer_wired : bool;
  timeline : list TaintTransition;
  declarations : list (string * option SenderContentTaint);
  observations : nat;
}.

Definition new_tracker (c : ContentTrustConfig) : Tracker := mkTracker c inner_default false false [] [] 0.
Definition with_inner (f : TaintInner → TaintInner) (t : Tracker) : Tracker :=
  mkTracker (trust_config t) (f (inner t)) (sink_wired t) (declarer_wired t) (timeline t) (declarations t) (observations t).
Definition observe_again (t : Tracker) : Tracker :=
  mkTracker (trust_config t) (inner t) (sink_wired t) (declarer_wired t) (timeline t) (declarations t) (S (observations t)).
Definition set_tainted (m : gmap string TaintState) (i : TaintInner) : TaintInner :=
  mkInner (current_session i) m (pending_identity_taint i) (reset_boundaries i).
Definition set_pending (m : gmap string TaintState) (i : TaintInner) : TaintInner :=
  mkInner (current_session i) (tainted i) m (reset_boundaries i).
Definition set_current (m : gmap string string) (i : TaintInner) : TaintInner :=
  mkInner m (tainted i) (pending_identity_taint i) (reset_boundaries i).
Definition set_boundaries (m : gmap string Z) (i : TaintInner) : TaintInner :=
  mkInner (current_session i) (tainted i) (pending_identity_taint i) m.

Definition set_outbound_taint_declarer (t : Tracker) : Tracker :=
  mkTracker (trust_config t) (inner t) (sink_wired t) true (timeline t) (declarations t) (observations t).
Definition set_event_sink (t : Tracker) : Tracker :=
  mkTracker (trust_config t) (inner t) true (declarer_wired t) (timeline t) (declarations t) (observations t).

Definition emit_event (e : TaintTransition) (t : Tracker) : Tracker :=
  if sink_wired t
  then mkTracker (trust_config t) (inner t) true (declarer_wired t) (timeline t ++ [e]) (declarations t) (observations t)
  else t.
Definition declare_outbound (identity : string) (taint : option SenderContentTaint) (t : Tracker) : Tracker :=
  if declarer_wired t
  then mkTracker (trust_config t) (inner t) (sink_wired t) true (timeline t) (declarations t ++ [(identity, taint)])
         (observations t)
  else t.

(** [iter().min_by_key(key)]: the first entry, in iteration order, of the least key. *)
Fixpoint min_entry (best : string * Z) (l : list (string * Z)) : string * Z :=
  match l with
  | [] => best
  | e :: l' => min_entry (if e.2 <? best.2 then e else best) l'
  end.
Definition oldest_of (l : list (string * Z)) : option string :=
  match l with [] => None | e :: l' => Some (min_entry e l').1 end.

Section tracker.
Context `{TaintEnv}.

Definition now_ms (t : Tracker) : Z := now_at (observations t).
Definition oldest (t : Tracker) {A} (key : A → Z) (m : gmap string A) : option string :=
  oldest_of (iteration_order (observations t) (prod_map id key <$> map_to_list m)).

(** An occupied entry is kept as it is, and nothing is evicted then. *)
Definition insert_taint (session : string) (state : TaintState) (t : Tracker) : Tracker :=
  match tainted (inner t) !! session with
  | Some _ => t
  | None =>
      let t := emit_event (mkTransition None session "tainted" (taint_source state)) t in
      let t := with_inner (λ i, set_tainted (<[session := state]> (tainted i)) i) t in
      if (MAX_TRACKED_TAINTED_SESSIONS <? size (tainted (inner t)))%nat
      then match oldest t tainted_at_ms (tainted (inner t)) with
           | Some key => observe_again (with_inner (λ i, set_tainted (delete key (tainted i)) i) t)
           | None => t
           end
      else t
  end.

Definition mark_identity_tainted (identity source : string) (t : Tracker) : Tracker :=
  let state := mkTaint (now_ms t) source in
  let t := observe_again t in
  let t := match current_session (inner t) !! identity with
           | Some session => insert_taint session state t
           | None => with_inner (λ i, set_pending (<[identity := state]> (pending_identity_taint i)) i) t
           end in
  declare_outbound identity (Some SenderTainted) t.

(** The identity leaves a tainted session for another one. *)
Definition rotated_away_from_tainted (identity session_key : string) (t : Tracker) : bool :=
  let previous := current_session (inner t) !! identity in
  negb (previous =b Some session_key) && is_some_and previous (λ prior, is_some (tainted (inner t) !! prior)).
Definition attribute_session (identity session_key : string) (t : Tracker) : Tracker :=
  with_inner (λ i, set_current (<[identity := session_key]> (current_session i))
                     (set_pending (delete identity (pending_identity_taint i)) i)) t.

Definition note_current_session (identity session_key : string) (t : Tracker) : Tracker :=
  let pending := pending_identity_taint (inner t) !! identity in
  let rotated := rotated_away_from_tainted identity session_key t in
  let t := attribute_session identity session_key t in
  let t := if rotated
           then emit_event (mkTransition (Some identity) session_key "rotated_clean"
                              "session rotation away from tainted session") t
           else t in
  let t := match pending with Some state => insert_taint session_key state t | None => t end in
  if rotated && negb (is_some pending) then declare_outbound identity None t else t.

Definition clear_identity (identity : string) (t : Tracker) : Tracker :=
  let t := with_inner (λ i, set_current (delete identity (current_session i))
                              (set_pending (delete identity (pending_identity_taint i)) i)) t in
  declare_outbound identity None t.

Definition mark_reset_boundary (session_key : string) (t : Tracker) : Tracker :=
  let at_ms := now_ms t in
  let fresh := is_none (reset_boundaries (inner t) !! session_key) in
  let t := observe_again t in
  let t := with_inner (λ i, set_boundaries (<[session_key := at_ms]> (reset_boundaries i)) i) t in
  let t := if fresh then emit_event (mkTransition None session_key "reset_boundary" "reset() boundary (§8.4)") t else t in
  if (MAX_TRACKED_TAINTED_SESSIONS <? size (reset_boundaries (inner t)))%nat
  then match oldest t (λ at_ms, at_ms) (reset_boundaries (inner t)) with
       | Some key => observe_again (with_inner (λ i, set_boundaries (delete key (reset_boundaries i)) i) t)
       | None => t
       end
  else t.

(** ** Queries *)

Definition evidence_quarantine_reason (t : Tracker) (session_key : string) : option string :=
  match tainted (inner t) !! session_key with
  | Some state => Some ("evidence session tainted by " +:+ taint_source state +:+ " (session-tainted ⇒ range-tainted)")
  | None =>
      if is_some (reset_boundaries (inner t) !! session_key)
      then Some "evidence session closed at a reset boundary; distillates quarantine pending steward review (§8.4)"
      else None
  end.
Definition session_taint (t : Tracker) (session_key : string) : option TaintState := tainted (inner t) !! session_key.
Definition identity_taint (t : Tracker) (identity : string) : option TaintState :=
  opt_or (pending_identity_taint (inner t) !! identity)
         (session ← current_session (inner t) !! identity; tainted (inner t) !! session).

(** ** The peer-message join *)

Definition peer_projection_sender_identity (line : string) : option string :=
  let named name := if str_is_empty name then None else Some (after_last "/"%char name) in
  match strip_prefix "Peer message from " line with
  | Some rest =>
      named (match split_sub ": " rest with
             | Some (name, _) => trim name
             | None => trim (unwrap_or (strip_suffix ":" rest) rest)
             end)
  | None =>
      rest ← strip_prefix "Peer response from " line;
      named (trim (before_sub " (to request:" rest))
  end.

Definition observe_peer_line (identity session_key : string) (t : Tracker) (line : string) : Tracker :=
  match peer_projection_sender_identity line with
  | None => t
  | Some sender =>
      if sender =b identity then t
      else match identity_taint t sender with
           | Some state =>
               let at_ms := now_ms t in
               insert_taint session_key
                 (mkTaint at_ms ("peer message from tainted sender '" +:+ sender +:+ "' (sender session tainted by " +:+
                                 taint_source state +:+ ")"))
                 (observe_again t)
           | None => t
           end
  end.
Definition observe_inbound_peer_content (identity session_key text : string) (t : Tracker) : Tracker :=
  foldl (observe_peer_line identity session_key) t (lines text).

(** ** The event feed

    Of an agent event only what the tracker reads; every other event is [OtherEvent]. *)

Inductive AgentEvent :=
| RunStarted (session_id : string) (prompt_text : option string)
| PeerContentIngested (display_name : option string) (sender_taint : option SenderContentTaint)
| ToolResultReceived (name : string)
| ToolExecutionCompleted (name : string)
| ServerToolContent (provider_name : string)
| OtherEvent.

Definition mark_classified (identity : string) (verdict : ToolContentTrust) (t : Tracker) : Tracker :=
  match verdict with
  | UntrustedSource source => mark_identity_tainted identity source t
  | Trusted => t
  end.

Definition server_tool_source (provider_name : string) : string :=
  "provider server tool '" +:+ provider_name +:+ "'".

Definition observe_agent_event (identity : string) (event : AgentEvent) (t : Tracker) : Tracker :=
  match event with
  | RunStarted session_id prompt =>
      let t := note_current_session identity session_id t in
      match prompt with
      | Some text => observe_inbound_peer_content identity session_id text t
      | None => t
      end
  | PeerContentIngested display_name sender_taint =>
      if sender_taint =b Some SenderTainted
      then mark_identity_tainted identity
             ("peer content declared tainted by sender '" +:+ unwrap_or display_name "peer" +:+ "'") t
      else t
  | ToolResultReceived name | ToolExecutionCompleted name =>
      mark_classified identity (classify_tool (trust_config t) name) t
  | ServerToolContent provider_name => mark_identity_tainted identity (server_tool_source provider_name) t
  | OtherEvent => t
  end.

Definition observe_dispatched_tool_result (identity name : string) (provenance : option ToolProvenance) (t : Tracker)
    : Tracker := mark_classified identity (classify_tool_with_provenance (trust_config t) name provenance) t.
Definition observe_dispatched_server_tool (identity provider_name : string) (t : Tracker) : Tracker :=
  mark_identity_tainted identity (server_tool_source provider_name) t.
End tracker.

(** ** The write gate *)

Inductive StagedBatchKind := FreshWrite | ReviewVerdict.
#[global] Instance StagedBatchKind_eq_dec : EqDecision StagedBatchKind.
Proof. solve_decision. Defined.

Inductive AgentMemoryLlmWrites := Observed | QuarantinedWrites.
#[global] Instance AgentMemoryLlmWrites_eq_dec : EqDecision AgentMemoryLlmWrites.
Proof. solve_decision. Defined.

(** The trait: the reason this write must land quarantined, if it must. *)
Definition LlmWriteGate : Type := MemoryAuthor → StagedBatchKind → list EvidenceRef → option string.

Definition TaintLlmWriteGate (tracker : option Tracker) (llm_writes : AgentMemoryLlmWrites) : LlmWriteGate :=
  λ author kind evidence,
    if negb (is_llm author) then None
    else if (llm_writes =b QuarantinedWrites) && negb (kind =b ReviewVerdict) then Some "llm_writes=quarantined policy"
    else
      t ← tracker;
      let by_identity := match author with
                         | AgentAuthor identity => identity_taint t identity
                         | _ => None
                         end in
      match by_identity with
      | Some state => Some ("session tainted by " +:+ taint_source state)
      | None => head (omap (λ e, evidence_quarantine_reason t (evidence_session_id e)) evidence)
      end.
