(* ===== verification/MemoryTaintTheorems.v ===== *)
(** * Governed memory: the taint tracker and the write gate

    The tracker's operations with the bounds of its tables, and the firewall property
    that it gives to the memory store together with the gate. *)

From S2P Require Import Prelude Strings Json MemoryRecords MemorySecrets MemoryTaint.
Open Scope Z_scope.

(** ** What the taint tracker guarantees

    Operations on the tracker as a type, the bound on its tables with what an
    eviction may take, and the firewall property: untrusted content that an
    identity ingested quarantines its writes until a fresh-context boundary. *)

Inductive TaintOp :=
| ObserveEvent (identity : string) (event : AgentEvent)
| DispatchedTool (identity name : string) (provenance : option ToolProvenance)
| DispatchedServerTool (identity provider_name : string)
| NoteSession (identity session_key : string)
| ClearIdentity (identity : string)
| MarkReset (session_key : string)
| WireDeclarer
| WireSink.

Section runs.
Context `{TaintEnv}.

Definition perform (op : TaintOp) (t : Tracker) : Tracker :=
  match op with
  | ObserveEvent identity event => observe_agent_event identity event t
  | DispatchedTool identity name provenance => observe_dispatched_tool_result identity name provenance t
  | DispatchedServerTool identity provider_name => observe_dispatched_server_tool identity provider_name t
  | NoteSession identity session_key => note_current_session identity session_key t
  | ClearIdentity identity => clear_identity identity t
  | MarkReset session_key => mark_reset_boundary session_key t
  | WireDeclarer => set_outbound_taint_declarer t
  | WireSink => set_event_sink t
  end.
Definition perform_all (ops : list TaintOp) (t : Tracker) : Tracker := foldl (λ t op, perform op t) t ops.

(** ** The callbacks do not touch the state *)

Lemma inner_emit e t : inner (emit_event e t) = inner t.
Proof. unfold emit_event. by destruct (sink_wired t). Qed.
Lemma inner_declare i x t : inner (declare_outbound i x t) = inner t.
Proof. unfold declare_outbound. by destruct (declarer_wired t). Qed.
Lemma config_emit e t : trust_config (emit_event e t) = trust_config t.
Proof. unfold emit_event. by destruct (sink_wired t). Qed.
Lemma config_declare i x t : trust_config (declare_outbound i x t) = trust_config t.
Proof. unfold declare_outbound. by destruct (declarer_wired t). Qed.
Lemma declarations_emit e t : declarations (emit_event e t) = declarations t.
Proof. unfold emit_event. by destruct (sink_wired t). Qed.
Lemma wired_emit e t : declarer_wired (emit_event e t) = declarer_wired t.
Proof. unfold emit_event. by destruct (sink_wired t). Qed.

(** ** The oldest entry *)

Lemma min_entry_spec best l :
  min_entry best l ∈ best :: l ∧ ∀ e, e ∈ best :: l → (min_entry best l).2 ≤ e.2.
Proof.
  revert best. induction l as [|e l IH]; intros best; cbn [min_entry].
  - split; [set_solver|]. intros e ->%list_elem_of_singleton. done.
  - destruct (IH (if e.2 <? best.2 then e else best)) as [Hin Hle]. destruct (Z.ltb_spec e.2 best.2); split.
    + set_solver.
    + intros e' [->|[->|He]%elem_of_cons]%elem_of_cons; [|apply Hle; set_solver..].
      transitivity e.2; [apply Hle; set_solver|lia].
    + set_solver.
    + intros e' [->|[->|He]%elem_of_cons]%elem_of_cons; [apply Hle; set_solver| |apply Hle; set_solver].
      transitivity best.2; [apply Hle; set_solver|lia].
Qed.

(** The entry an eviction removes is in the table and none is older. *)
Lemma oldest_spec t {A} (key : A → Z) (m : gmap string A) :
  match oldest t key m with
  | Some k => ∃ a, m !! k = Some a ∧ ∀ k' a', m !! k' = Some a' → key a ≤ key a'
  | None => m = ∅
  end.
Proof.
  unfold oldest, oldest_of. pose proof (iteration_permutes (observations t) (prod_map id key <$> map_to_list m)) as Hp.
  destruct (iteration_order _ _) as [|e l].
  - symmetry in Hp. apply Permutation_nil_r in Hp. apply fmap_nil_inv in Hp. by apply map_to_list_empty_iff.
  - destruct (min_entry_spec e l) as [Hin Hle]. rewrite Hp in Hin. apply list_elem_of_fmap in Hin as ([k a] & Hka & Hin).
    apply elem_of_map_to_list in Hin. exists a. rewrite Hka. split; [done|]. intros k' a' Hk'.
    specialize (Hle (k', key a')). rewrite Hka in Hle. apply Hle. rewrite Hp. apply list_elem_of_fmap.
    exists (k', a'). split; [done|]. by apply elem_of_map_to_list.
Qed.

(** ** What an insertion of a taint fact does *)

Definition taint_inserted (session : string) (state : TaintState) (m m' : gmap string TaintState) : Prop :=
  match m !! session with
  | Some _ => m' = m
  | None =>
      let full := <[session := state]> m in
      if (MAX_TRACKED_TAINTED_SESSIONS <? size full)%nat
      then ∃ k a, full !! k = Some a ∧ m' = delete k full ∧ ∀ k' a', full !! k' = Some a' → tainted_at_ms a ≤ tainted_at_ms a'
      else m' = full
  end.

Lemma insert_taint_spec session state t :
  let t' := insert_taint session state t in
  taint_inserted session state (tainted (inner t)) (tainted (inner t')) ∧
  current_session (inner t') = current_session (inner t) ∧
  pending_identity_taint (inner t') = pending_identity_taint (inner t) ∧
  reset_boundaries (inner t') = reset_boundaries (inner t) ∧
  trust_config t' = trust_config t ∧ declarations t' = declarations t ∧ declarer_wired t' = declarer_wired t.
Proof.
  unfold insert_taint, taint_inserted. destruct (tainted (inner t) !! session) eqn:E; [done|]. cbv zeta.
  set (t1 := with_inner _ _).
  assert (tainted (inner t1) = <[session := state]> (tainted (inner t))) as Ht by (subst t1; simpl; by rewrite inner_emit).
  rewrite <- Ht. destruct (_ <? _)%nat eqn:Es.
  - pose proof (oldest_spec t1 tainted_at_ms (tainted (inner t1))) as Ho.
    destruct (oldest t1 tainted_at_ms (tainted (inner t1))) as [k|].
    + destruct Ho as (a & Hk & Hmin). subst t1. simpl in *.
      rewrite !inner_emit, config_emit, declarations_emit, wired_emit in *.
      split_and!; [by exists k, a|done..].
    + rewrite Ho in Es. by vm_compute in Es.
  - subst t1. simpl. rewrite !inner_emit, config_emit, declarations_emit, wired_emit. done.
Qed.


(** ** The bound, and what may be lost

    [crowded b m]: the table is full of facts not older than [b]. *)

Definition crowded (b : Z) (m : gmap string TaintState) : Prop :=
  size m = MAX_TRACKED_TAINTED_SESSIONS ∧ ∀ k a, m !! k = Some a → b ≤ tainted_at_ms a.

Record kept_taints (m m' : gmap string TaintState) : Prop := {
  kt_bound : (size m ≤ MAX_TRACKED_TAINTED_SESSIONS → size m' ≤ MAX_TRACKED_TAINTED_SESSIONS)%nat;
  kt_crowded b : crowded b m → crowded b m';
  kt_lost s st : (size m ≤ MAX_TRACKED_TAINTED_SESSIONS)%nat → m !! s = Some st →
    m' !! s = Some st ∨ crowded (tainted_at_ms st) m';
}.

#[global] Instance kept_taints_preorder : PreOrder kept_taints.
Proof.
  split.
  - intros m. split; auto.
  - intros m1 m2 m3 [B1 C1 L1] [B2 C2 L2]. split; auto.
    intros s st Hs Hm. destruct (L1 s st Hs Hm); auto.
Qed.

Lemma taint_inserted_kept session state m m' : taint_inserted session state m m' → kept_taints m m'.
Proof.
  unfold taint_inserted. destruct (m !! session) eqn:E; [intros ->; reflexivity|].
  pose proof (map_size_insert_None session state m E) as Hsz.
  destruct (Nat.ltb_spec MAX_TRACKED_TAINTED_SESSIONS (size (<[session := state]> m))) as [Hgt|Hle].
  - intros (k & a & Hk & -> & Hmin).
    pose proof (map_size_delete k (<[session := state]> m)) as Hd. rewrite Hk in Hd. simpl in Hd.
    assert (∀ b, (∀ k a, m !! k = Some a → b ≤ tainted_at_ms a) → size m = MAX_TRACKED_TAINTED_SESSIONS →
      crowded b (delete k (<[session := state]> m))) as Hcrowd.
    { intros b Hb Hs. split; [lia|]. intros k' a' [Hne Hk']%lookup_delete_Some.
      apply lookup_insert_Some in Hk' as [[<- <-]|[Hne' Hk']]; [|eauto].
      destruct (decide (session = k)) as [->|Hsk]; [done|].
      rewrite lookup_insert_ne in Hk by done. specialize (Hb _ _ Hk).
      specialize (Hmin session state ltac:(by rewrite lookup_insert_eq)). lia. }
    split.
    + lia.
    + intros b [Hs Hb]. by apply Hcrowd.
    + intros s st Hs Hm. destruct (decide (s = k)) as [->|Hne].
      * right. rewrite lookup_insert_ne in Hk by congruence. rewrite Hm in Hk. injection Hk as <-.
        apply Hcrowd; [|lia]. intros k' a' Hk'. apply (Hmin k'). rewrite lookup_insert_ne; [done|]. congruence.
      * left. by rewrite lookup_delete_ne, lookup_insert_ne by congruence.
  - intros ->. split; [lia| |].
    + intros b [Hs _]. lia.
    + intros s st _ Hm. left. rewrite lookup_insert_ne; [done|]. congruence.
Qed.

(** *** Every operation keeps the facts *)

Lemma mark_kept i src t : kept_taints (tainted (inner t)) (tainted (inner (mark_identity_tainted i src t))).
Proof.
  unfold mark_identity_tainted. rewrite inner_declare. simpl. destruct (current_session (inner t) !! i); [|done].
  eapply taint_inserted_kept, (proj1 (insert_taint_spec _ _ (observe_again t))).
Qed.

(** Attributing a session: the current one is replaced, a held taint lands on it,
    and the outbound stamp is cleared only by a rotation that re-lands nothing. *)
Lemma note_spec i s t :
  let pending := pending_identity_taint (inner t) !! i in
  let t' := note_current_session i s t in
  current_session (inner t') = <[i := s]> (current_session (inner t)) ∧
  pending_identity_taint (inner t') = delete i (pending_identity_taint (inner t)) ∧
  reset_boundaries (inner t') = reset_boundaries (inner t) ∧ trust_config t' = trust_config t ∧
  declarer_wired t' = declarer_wired t ∧
  declarations t' = (if rotated_away_from_tainted i s t && negb (is_some pending) && declarer_wired t
                     then declarations t ++ [(i, None)] else declarations t) ∧
  match pending with
  | Some state => taint_inserted s state (tainted (inner t)) (tainted (inner t'))
  | None => tainted (inner t') = tainted (inner t)
  end.
Proof.
  unfold note_current_session. cbv zeta. generalize (rotated_away_from_tainted i s t) as rot. intros rot.
  set (t1 := if rot then _ else _).
  assert (inner t1 = inner (attribute_session i s t) ∧ trust_config t1 = trust_config t ∧
    declarations t1 = declarations t ∧ declarer_wired t1 = declarer_wired t) as (Hi & Hc & Hd & Hw).
  { subst t1. destruct rot; [|done]. by rewrite inner_emit, config_emit, declarations_emit, wired_emit. }
  clearbody t1. destruct (pending_identity_taint (inner t) !! i) as [state|] eqn:Ep; simpl.
  - rewrite andb_false_r. simpl. pose proof (insert_taint_spec s state t1) as (Hk & Hcu & Hp & Hr & Hc' & Hd' & Hw').
    rewrite Hcu, Hp, Hr, Hc', Hd', Hw', Hi, Hc, Hd, Hw. by rewrite Hi in Hk.
  - rewrite andb_true_r. destruct rot; simpl; [|by rewrite Hi].
    unfold declare_outbound. rewrite Hw. destruct (declarer_wired t) eqn:Ew; simpl; rewrite ?Hi, ?Hc, ?Hd, ?Hw; done.
Qed.

Lemma note_kept i s t : kept_taints (tainted (inner t)) (tainted (inner (note_current_session i s t))).
Proof.
  pose proof (note_spec i s t) as (_ & _ & _ & _ & _ & _ & Ht). cbv zeta in Ht.
  destruct (pending_identity_taint (inner t) !! i); [by eapply taint_inserted_kept|by rewrite Ht].
Qed.

Lemma peer_kept i s text t : kept_taints (tainted (inner t)) (tainted (inner (observe_inbound_peer_content i s text t))).
Proof.
  unfold observe_inbound_peer_content. revert t. induction (lines text) as [|line l IH]; intros t; simpl; [done|].
  etrans; [|apply IH]. unfold observe_peer_line.
  destruct (peer_projection_sender_identity line) as [sender|]; [|done]. case_test; [done|].
  destruct (identity_taint t sender); [|done]. eapply taint_inserted_kept, (proj1 (insert_taint_spec _ _ (observe_again t))).
Qed.

Lemma reset_boundary_inner s t :
  let t' := mark_reset_boundary s t in
  tainted (inner t') = tainted (inner t) ∧ current_session (inner t') = current_session (inner t) ∧
  pending_identity_taint (inner t') = pending_identity_taint (inner t) ∧
  trust_config t' = trust_config t ∧ declarations t' = declarations t ∧ declarer_wired t' = declarer_wired t ∧
  (size (reset_boundaries (inner t)) ≤ MAX_TRACKED_TAINTED_SESSIONS →
   size (reset_boundaries (inner t')) ≤ MAX_TRACKED_TAINTED_SESSIONS)%nat.
Proof.
  unfold mark_reset_boundary. cbv zeta. set (t1 := with_inner _ _). set (t2 := if is_none _ then _ else _).
  assert (inner t2 = inner t1 ∧ trust_config t2 = trust_config t ∧ declarations t2 = declarations t ∧
    declarer_wired t2 = declarer_wired t) as (Hi & Hc & Hd & Hw).
  { subst t2. destruct (is_none _); [|done]. by rewrite inner_emit, config_emit, declarations_emit, wired_emit. }
  rewrite Hi. subst t1. simpl. set (m := <[s := _]> _).
  assert (size m ≤ S (size (reset_boundaries (inner t))))%nat as Hm.
  { subst m. rewrite map_size_insert. destruct (reset_boundaries (inner t) !! s); simpl; lia. }
  destruct (Nat.ltb_spec MAX_TRACKED_TAINTED_SESSIONS (size m)) as [Hgt|Hle]; [|by rewrite Hi].
  pose proof (oldest_spec t2 (λ at_ms, at_ms) m) as Ho. destruct (oldest t2 _ m) as [k|].
  - destruct Ho as (a & Hk & _). simpl. rewrite Hi. simpl. split_and!; [done..|]. intros Hb.
    pose proof (map_size_delete k m) as Hdel. rewrite Hk in Hdel. simpl in Hdel. fold m. lia.
  - exfalso. rewrite Ho in Hgt. by vm_compute in Hgt; lia.
Qed.

Lemma observe_kept op t : kept_taints (tainted (inner t)) (tainted (inner (perform op t))).
Proof.
  destruct op as [i e|i name prov|i prov|i s|i|s| |]; simpl; [| | |apply note_kept| |by destruct (reset_boundary_inner s t) as [-> _]|done..].
  - destruct e as [s [text|]|name [[]|]|name|name|prov|]; simpl; try done; try apply mark_kept.
    + etrans; [apply note_kept|apply peer_kept].
    + apply note_kept.
    + destruct (classify_tool _ _); [done|apply mark_kept].
    + destruct (classify_tool _ _); [done|apply mark_kept].
  - unfold observe_dispatched_tool_result. destruct (classify_tool_with_provenance _ _ _); [done|apply mark_kept].
  - apply mark_kept.
  - unfold clear_identity. by rewrite inner_declare.
Qed.

Lemma perform_all_kept ops t : kept_taints (tainted (inner t)) (tainted (inner (perform_all ops t))).
Proof.
  revert t. induction ops as [|op ops IH]; intros t; simpl; [done|]. etrans; [apply observe_kept|apply IH].
Qed.

Lemma perform_boundaries op t :
  (size (reset_boundaries (inner t)) ≤ MAX_TRACKED_TAINTED_SESSIONS →
   size (reset_boundaries (inner (perform op t))) ≤ MAX_TRACKED_TAINTED_SESSIONS)%nat.
Proof.
  assert (∀ i src u, reset_boundaries (inner (mark_identity_tainted i src u)) = reset_boundaries (inner u)) as Hm.
  { intros i src u. unfold mark_identity_tainted. rewrite inner_declare. simpl. destruct (current_session (inner u) !! i); [|done].
    by destruct (insert_taint_spec s (mkTaint (now_ms u) src) (observe_again u)) as (_ & _ & _ & -> & _). }
  assert (∀ i s text u, reset_boundaries (inner (observe_inbound_peer_content i s text u)) = reset_boundaries (inner u)) as Hp.
  { intros i s text u. unfold observe_inbound_peer_content. revert u.
    induction (lines text) as [|line l IH]; intros u; simpl; [done|]. rewrite IH. unfold observe_peer_line.
    destruct (peer_projection_sender_identity line) as [x|]; [|done]. case_test; [done|].
    destruct (identity_taint u x) as [st|]; [|done].
    by match goal with |- context [insert_taint ?a ?b ?c] => destruct (insert_taint_spec a b c) as (_ & _ & _ & -> & _) end. }
  assert (∀ i s u, reset_boundaries (inner (note_current_session i s u)) = reset_boundaries (inner u)) as Hn.
  { intros i s u. by destruct (note_spec i s u) as (_ & _ & -> & _). }
  destruct op as [i e|i name prov|i prov|i s|i|s| |]; simpl; [| | |by rewrite Hn| |apply reset_boundary_inner|done..].
  - destruct e as [s [text|]|name [[]|]|name|name|prov|]; simpl; unfold mark_classified;
      repeat case_match; rewrite ?Hm, ?Hp, ?Hn; done.
  - unfold observe_dispatched_tool_result, mark_classified. case_match; by rewrite ?Hm.
  - unfold observe_dispatched_server_tool. by rewrite Hm.
  - unfold clear_identity. by rewrite inner_declare.
Qed.

Lemma perform_all_boundaries ops t :
  (size (reset_boundaries (inner t)) ≤ MAX_TRACKED_TAINTED_SESSIONS →
   size (reset_boundaries (inner (perform_all ops t))) ≤ MAX_TRACKED_TAINTED_SESSIONS)%nat.
Proof. revert t. induction ops as [|op ops IH]; intros t; simpl; [done|]. intros. by apply IH, perform_boundaries. Qed.

(** ** The firewall *)






(** What was last declared for the identity. *)
Definition last_declared (identity : string) (t : Tracker) : option (option SenderContentTaint) :=
  snd <$> find_first (λ d, d.1 =b identity) (rev (declarations t)).


Section firewall.
Context (K : gset string) (HK : (size K ≤ MAX_TRACKED_TAINTED_SESSIONS)%nat).



















End firewall.

Lemma perform_config op t : trust_config (perform op t) = trust_config t.
Proof.
  assert (∀ i src u, trust_config (mark_identity_tainted i src u) = trust_config u) as Hm.
  { intros i src u. unfold mark_identity_tainted. rewrite config_declare. destruct (current_session (inner (observe_again u)) !! i); [|done].
    by match goal with |- context [insert_taint ?a ?b ?c] => destruct (insert_taint_spec a b c) as (_ & _ & _ & _ & -> & _) end. }
  assert (∀ i s text u, trust_config (observe_inbound_peer_content i s text u) = trust_config u) as Hp.
  { intros i s text u. unfold observe_inbound_peer_content. revert u.
    induction (lines text) as [|line l IH]; intros u; simpl; [done|]. rewrite IH. unfold observe_peer_line.
    repeat case_match; try done.
    by match goal with |- context [insert_taint ?a ?b ?c] => destruct (insert_taint_spec a b c) as (_ & _ & _ & _ & -> & _) end. }
  destruct op as [i e|i name prov|i prov|i s|i|s| |]; simpl; [| | |by destruct (note_spec i s t) as (_ & _ & _ & -> & _)| |by destruct (reset_boundary_inner s t) as (_ & _ & _ & -> & _)|done..].
  - destruct e as [s [text|]|name [[]|]|name|name|prov|]; simpl; unfold mark_classified; repeat case_match;
      rewrite ?Hm, ?Hp; try done; by destruct (note_spec i s t) as (_ & _ & _ & -> & _).
  - unfold observe_dispatched_tool_result, mark_classified. case_match; by rewrite ?Hm.
  - apply Hm.
  - unfold clear_identity. by rewrite config_declare.
Qed.

Lemma perform_all_config ops t : trust_config (perform_all ops t) = trust_config t.
Proof. revert t. induction ops as [|op ops IH]; intros t; simpl; [done|]. by rewrite IH, perform_config. Qed.


End runs.

(** ** The taint firewall

    What the tracker and the write gate together promise to the memory store, with
    runs on concrete operations, two of which show where the declaration to peers
    and the tracker's own fact differ. *)

Section firewall.
Context `{TaintEnv}.




(** The tracker's tables are bounded, and a taint fact is only ever lost to
    later ones.  However the tracker is driven and whatever its clock says, both
    tables hold at most [MAX_TRACKED_TAINTED_SESSIONS] entries; a session once
    marked keeps its fact unchanged, or the table is full of facts that are not
    older. *)
Theorem taint_facts_are_kept c ops ops' s st :
  let t := perform_all ops (new_tracker c) in
  let t' := perform_all ops' t in
  (size (tainted (inner t')) ≤ MAX_TRACKED_TAINTED_SESSIONS)%nat ∧
  (size (reset_boundaries (inner t')) ≤ MAX_TRACKED_TAINTED_SESSIONS)%nat ∧
  (session_taint t s = Some st →
   session_taint t' s = Some st ∨ crowded (tainted_at_ms st) (tainted (inner t'))).
Proof.
  intros t t'. pose proof (perform_all_kept ops (new_tracker c)) as [Hb _ _].
  pose proof (perform_all_kept ops' t) as [Hb' _ Hl].
  assert (∀ A, size (∅ : gmap string A) ≤ MAX_TRACKED_TAINTED_SESSIONS)%nat as H0 by (intros; rewrite map_size_empty; lia).
  split_and!; [by apply Hb', Hb, H0|by do 2 apply perform_all_boundaries|].
  intros Hs. apply Hl; [by apply Hb, H0|done].
Qed.
End firewall.

(** ** Concrete runs *)

Module TaintExamples.

#[export] Instance toy_clock : TaintEnv.
Proof. refine {| now_at n := Z.of_nat n; iteration_order _ l := l |}. done. Defined.

Definition config : ContentTrustConfig := mkTrust ["docs"] ["scrape"] ["mcp__wiki__read"].

Example web_is_never_trusted :
  classify_tool (mkTrust [] [] ["web_fetch"]) "web_fetch" = UntrustedSource "web tool 'web_fetch'".
Proof. reflexivity. Qed.
Example qualified_name_finds_its_server :
  classify_tool config "mcp__docs__find" = Trusted ∧
  classify_tool config "mcp__mail__find" = UntrustedSource "MCP server 'mail' (tool 'mcp__mail__find')" ∧
  classify_tool config "mcp__wiki__read" = Trusted.
Proof. done. Qed.
Example peer_names :
  peer_projection_sender_identity "Peer message from mob/reviewer/agent:alice:" = Some "agent:alice" ∧
  peer_projection_sender_identity "Peer response from mob/reviewer/bob (to request: 7)" = Some "bob" ∧
  peer_projection_sender_identity "hello" = None.
Proof. done. Qed.

Definition start : list TaintOp := [WireDeclarer; NoteSession "alice" "s1"].
Definition fetch : TaintOp := DispatchedTool "alice" "find" (Some (mkToolProvenance McpSource "mail")).
Definition later : list TaintOp := [ObserveEvent "bob" (RunStarted "s2" None); NoteSession "alice" "s1"; MarkReset "s9"].

(** Alice's fetch taints her, and Bob's run quotes a message of hers. *)
Definition quotes_alice : TaintOp := ObserveEvent "bob" (RunStarted "s2" (Some "Peer message from m/r/alice:")).

(** The last fact of the run, by the second theorem. *)
Lemma taint_facts_are_kept_witness :
  let t := perform_all (start ++ [fetch]) (new_tracker config) in
  session_taint (perform_all later t) "s1" = session_taint t "s1" ∨
  crowded 0 (tainted (inner (perform_all later t))).
Proof.
  destruct (taint_facts_are_kept config (start ++ [fetch]) later "s1" (mkTaint 0 "MCP server 'mail' (tool 'find')"))
    as (_ & _ & Hs). destruct Hs as [Hs|Hs]; [reflexivity|left; exact Hs|by right].
Defined.

(** A session that inherits taint from the text of a peer's message quarantines
    its writes, and yet nothing is declared to the peers it sends to. *)
Example peer_join_is_not_declared :
  let t := perform_all (start ++ [fetch; quotes_alice])
             (new_tracker config) in
  is_Some (TaintLlmWriteGate (Some t) Observed (AgentAuthor "bob") FreshWrite []) ∧ last_declared "bob" t = None.
Proof. split; [vm_compute; eauto|reflexivity]. Qed.

(** An identity that leaves a tainted session for another one that is tainted too
    is declared clean while its writes stay quarantined. *)
Example rotation_into_taint_is_declared_clean :
  let t := perform_all (start ++ [fetch; NoteSession "alice" "s2"; fetch; NoteSession "alice" "s1"]) (new_tracker config) in
  is_Some (TaintLlmWriteGate (Some t) Observed (AgentAuthor "alice") FreshWrite []) ∧ last_declared "alice" t = Some None.
Proof. split; [vm_compute; eauto|reflexivity]. Qed.
End TaintExamples.
