(* ===== verification/MemoryStaged.v ===== *)
(** * Governed memory: staged batches and their validator ([memory/staged.rs])

    A batch is one principal's proposal; [validate_batch] checks its operations in
    order against the stored records and an overlay of the batch's own effects.

    The validator reads the store through a view.  A view is what the rows say,
    together with which of its reads fail: the SQLite view answers [None] when a
    query fails, so a failed read looks like an absent record.  Reads are numbered
    by the state of the validator's monad.

    The walks over the provenance graph are loops with a set of visited ids; the
    fuel they get is shown to be enough in [MemoryWalk]. *)

From S2P Require Import Prelude Strings MemoryRecords MemorySecrets MemoryTaint.
Open Scope Z_scope.

Definition DEFAULT_TOMBSTONE_RECREATE_WINDOW_MS : Z := 7 * 24 * 60 * 60 * 1000.
Definition MAX_BATCH_OPS : nat := Z.to_nat 1024.

(** ** Batches *)

Inductive StagedOp :=
| Create (id : option string) (scope : MemoryScope) (record : NewMemoryRecord) (trust : TrustTier)
    (derived_from : list string) (rationale : option string) (created_at_ms updated_at_ms : option Z)
| Supersede (id : option string) (prior : string) (record : NewMemoryRecord) (trust : TrustTier)
    (derived_from : list string) (rationale : option string)
| Tombstone (id : string) (rationale : option string)
| Retier (id : string) (trust : TrustTier) (rationale : option string)
| SetRank (id : string) (rank : option Z).
#[global] Instance StagedOp_eq_dec : EqDecision StagedOp.
Proof. solve_decision. Defined.

Definition op_kind_str (op : StagedOp) : string :=
  match op with
  | Create _ _ _ _ _ _ _ _ => "create"
  | Supersede _ _ _ _ _ _ => "supersede"
  | Tombstone _ _ => "tombstone"
  | Retier _ _ _ => "retier"
  | SetRank _ _ => "set_rank"
  end.

Record StagedMutationBatch := mkBatch {
  batch_realm : string;
  batch_author : MemoryAuthor;
  batch_kind : StagedBatchKind;
  batch_ops : list StagedOp;
}.
#[global] Instance StagedMutationBatch_eq_dec : EqDecision StagedMutationBatch.
Proof. solve_decision. Defined.

Record StageToken := mkStageToken { token_realm : string; token_text : string }.
Record CommitReceipt := mkCommitReceipt { receipt_token : string; applied_ops : nat; memory_ids : list string }.

(** ** What the validator sees *)

Record StagedRecordView := mkView {
  view_scope : MemoryScope;
  view_trust : TrustTier;
  view_status : RecordStatus;
  view_supersedes : option string;
  view_derived_from : list string;
  view_content_hash : string;
  view_has_verification : bool;
  view_ever_quarantined : bool;
}.

Record StagedBatchView := mkBatchView {
  stored : gmap string StagedRecordView;
  tombstones : MemoryScope → string → option Z;
  read_fails : nat → bool;
}.

Inductive StagedBatchError :=
| EmptyBatch
| TooManyOps (max got : nat)
| InvalidRecordFields (op_index : nat) (reason : string)
| SecretDetected (op_index : nat) (class : string)
| RealmMismatch (op_index : nat) (expected got : string)
| ScopeNotWritable (op_index : nat) (reason : string)
| TierNotStagedAssignable (op_index : nat) (tier : TrustTier)
| TierAboveAuthorCeiling (op_index : nat) (tier ceiling : TrustTier)
| TransitiveTaintCeiling (op_index : nat) (tier : TrustTier)
| UnverifiedRetier (op_index : nat)
| UnresolvableEvidence (op_index : nat) (reason : string)
| UnknownRecord (op_index : nat) (id : string)
| RecordExists (op_index : nat) (id : string)
| NotActive (op_index : nat) (id : string)
| AlreadyTombstoned (op_index : nat) (id : string)
| SupersedeCycle (op_index : nat) (id : string)
| TombstoneRecreation (op_index : nat) (content_hash : string).

Definition batch_error_text (e : StagedBatchError) : string :=
  let op i := "op " +:+ fmt_dec (Z.of_nat i) +:+ ": " in
  match e with
  | EmptyBatch => "staged batch must contain at least one op"
  | TooManyOps max got =>
      "staged batch has " +:+ fmt_dec (Z.of_nat got) +:+ " ops; the cap is " +:+ fmt_dec (Z.of_nat max)
  | InvalidRecordFields i reason => op i +:+ "invalid record: " +:+ reason
  | SecretDetected i class =>
      op i +:+ "write refused: content matches the '" +:+ class +:+
      "' secret pattern class (§10.4). Durable memory must never hold credentials — store a reference to where the credential lives instead. Do not retry with the secret paraphrased or split."
  | RealmMismatch i expected got =>
      op i +:+ "scope realm '" +:+ got +:+ "' does not match batch realm '" +:+ expected +:+ "'"
  | ScopeNotWritable i reason => op i +:+ "scope not writable: " +:+ reason
  | TierNotStagedAssignable i tier =>
      op i +:+ "trust tier '" +:+ tier_as_str tier +:+ "' is never assignable via a staged batch"
  | TierAboveAuthorCeiling i tier ceiling =>
      op i +:+ "trust tier '" +:+ tier_as_str tier +:+ "' exceeds the author's ceiling '" +:+ tier_as_str ceiling +:+ "'"
  | TransitiveTaintCeiling i tier =>
      op i +:+ "trust tier '" +:+ tier_as_str tier +:+
      "' rejected: provenance chain reaches untrusted/quarantined content (capped at agent_observed)"
  | UnverifiedRetier i =>
      op i +:+ "retier to agent_verified requires a steward author and a verification claim on the record"
  | UnresolvableEvidence i reason =>
      op i +:+ "retier to agent_verified rejected: verification evidence does not resolve against the session store (" +:+
      reason +:+ ")"
  | UnknownRecord i id => op i +:+ "record '" +:+ id +:+ "' does not exist"
  | RecordExists i id => op i +:+ "record '" +:+ id +:+ "' already exists"
  | NotActive i id => op i +:+ "record '" +:+ id +:+ "' is not active"
  | AlreadyTombstoned i id => op i +:+ "record '" +:+ id +:+ "' is already tombstoned"
  | SupersedeCycle i id => op i +:+ "supersede chain through '" +:+ id +:+ "' would form a cycle"
  | TombstoneRecreation i hash =>
      op i +:+ "content (hash " +:+ hash +:+ ") was tombstoned within the recreation window and cannot be re-created"
  end.

(** The validator's monad: the state numbers the reads of the view. *)
Notation V := (M nat StagedBatchError).

Section validator.
Context `{Sha256}.
Context (view : StagedBatchView).

Definition record (id : string) : V (option StagedRecordView) :=
  λ n, (Ok (if read_fails view n then None else stored view !! id), S n).
Definition tombstoned_at_ms (scope : MemoryScope) (hash : string) : V (option Z) :=
  λ n, (Ok (if read_fails view n then None else tombstones view scope hash), S n).

Notation Overlay := (gmap string StagedRecordView).

Definition lookup_record (overlay : Overlay) (id : string) : V (option StagedRecordView) :=
  match overlay !! id with Some r => mret (Some r) | None => record id end.

(** ** The checks *)

Definition check_record_payload (op_index : nat) (r : NewMemoryRecord) : Result unit StagedBatchError :=
  _ ←? map_err (InvalidRecordFields op_index) (validate_record_fields (new_title r) (new_description r) (new_body r));
  match detect_record_secret (new_title r) (new_description r) (new_body r) (new_tags r) with
  | Some class => Err (SecretDetected op_index class)
  | None => Ok tt
  end.

Definition check_scope (op_index : nat) (batch : StagedMutationBatch) (scope : MemoryScope) : Result unit StagedBatchError :=
  if negb (scope_realm scope =b batch_realm batch)
  then Err (RealmMismatch op_index (batch_realm batch) (scope_realm scope))
  else match batch_author batch with
       | AgentAuthor identity =>
           let own := match scope with IdentityScope _ scope_identity => scope_identity =b identity | _ => false end in
           if own then Ok tt
           else Err (ScopeNotWritable op_index
                  ("agent '" +:+ identity +:+ "' may only write its own identity scope, not " +:+ scope_kind_str scope +:+
                   " scope (mob/operator writes go through proposals)"))
       | _ => Ok tt
       end.

Definition check_tier_assignment (op_index : nat) (batch : StagedMutationBatch) (tier : TrustTier) (is_retier : bool)
    : Result unit StagedBatchError :=
  if negb (assignable_via_staged_batch tier) then Err (TierNotStagedAssignable op_index tier)
  else if is_llm (batch_author batch) && tier_gt tier llm_write_ceiling && negb (is_retier && is_steward (batch_author batch))
  then Err (TierAboveAuthorCeiling op_index tier llm_write_ceiling)
  else Ok tt.

(** Two sums that bound the walks: edges and records in reach. *)
Definition edges_of (r : StagedRecordView) : nat := S (length (view_derived_from r)).
Definition sum_edges (m : Overlay) : nat := map_fold (λ _ r acc, edges_of r + acc)%nat 0%nat m.

(** [while let Some(id) = stack.pop()]; the stack's top is its head. *)
Fixpoint taint_walk (fuel : nat) (overlay : Overlay) (visited : gset string) (stack : list string) : V (option bool) :=
  match fuel with
  | O => mret None
  | S fuel' =>
      match stack with
      | [] => mret (Some false)
      | id :: stack =>
          if decide (id ∈ visited) then taint_walk fuel' overlay visited stack
          else
            let visited := {[id]} ∪ visited in
            found ← lookup_record overlay id;
            match found with
            | None => taint_walk fuel' overlay visited stack
            | Some r =>
                if (view_trust r =b Untrusted) || view_ever_quarantined r || is_quarantined (view_status r)
                then mret (Some true)
                else
                  let stack := match view_supersedes r with Some prior => prior :: stack | None => stack end in
                  taint_walk fuel' overlay visited (rev (view_derived_from r) ++ stack)
            end
      end
  end.
Definition chain_reaches_taint (overlay : Overlay) (start : list string) : V bool :=
  answer ← taint_walk (S (length start + sum_edges overlay + sum_edges (stored view))) overlay ∅ (rev start);
  mret (unwrap_or answer true).

Definition is_tombstone_recreation (author : MemoryAuthor) (batch_tombstoned : list (MemoryScope * string))
    (scope : MemoryScope) (hash : string) (window_ms now_ms : Z) : V bool :=
  if negb (is_llm author) then mret false
  else if decide ((scope, hash) ∈ batch_tombstoned) then mret true
  else
    at_ms ← tombstoned_at_ms scope hash;
    mret (is_some_and at_ms (λ at_ms, u64_saturating_sub now_ms at_ms <=? window_ms)).

(** The new edge would close a cycle: walk the prior's chain. *)
Fixpoint cycle_walk (fuel : nat) (op_index : nat) (overlay : Overlay) (visited : gset string) (cursor : option string) : V unit :=
  match fuel, cursor with
  | _, None => mret tt
  | O, Some current => throw (SupersedeCycle op_index current)
  | S fuel', Some current =>
      _ ← throw_if (bool_decide (current ∈ visited)) (SupersedeCycle op_index current);
      found ← lookup_record overlay current;
      cycle_walk fuel' op_index overlay ({[current]} ∪ visited) (found ≫= view_supersedes)
  end.
Definition check_acyclic (op_index : nat) (overlay : Overlay) (new_id : option string) (prior : string) : V unit :=
  match new_id with
  | None => mret tt
  | Some new_id => cycle_walk (S (size overlay + size (stored view))) op_index overlay {[new_id]} (Some prior)
  end.

Fixpoint check_sources (op_index : nat) (overlay : Overlay) (sources : list string) : V unit :=
  match sources with
  | [] => mret tt
  | source :: rest =>
      found ← lookup_record overlay source;
      _ ← throw_if (is_none found) (UnknownRecord op_index source);
      check_sources op_index overlay rest
  end.

(** An explicit id must be free. *)
Definition check_free (op_index : nat) (overlay : Overlay) (id : option string) : V unit :=
  match id with
  | None => mret tt
  | Some id =>
      found ← lookup_record overlay id;
      throw_if (is_some found) (RecordExists op_index id)
  end.

(** An existing record that is not tombstoned, in a scope the author may write. *)
Definition check_live (op_index : nat) (batch : StagedMutationBatch) (overlay : Overlay) (id : string) : V StagedRecordView :=
  found ← lookup_record overlay id;
  existing ← lift_result (ok_or found (UnknownRecord op_index id));
  _ ← throw_if (view_status existing =b Tombstoned) (AlreadyTombstoned op_index id);
  _ ← lift_result (check_scope op_index batch (view_scope existing));
  mret existing.

(** ** One operation

    Its checks, and the overlay and the contents tombstoned so far after it. *)

Notation Effects := (Overlay * list (MemoryScope * string))%type.

Definition with_status (r : StagedRecordView) (status : RecordStatus) (ever : bool) : StagedRecordView :=
  mkView (view_scope r) (view_trust r) status (view_supersedes r) (view_derived_from r) (view_content_hash r)
    (view_has_verification r) ever.
Definition with_trust (r : StagedRecordView) (trust : TrustTier) : StagedRecordView :=
  mkView (view_scope r) trust (view_status r) (view_supersedes r) (view_derived_from r) (view_content_hash r)
    (view_has_verification r) (view_ever_quarantined r).
Definition overlay_new (overlay : Overlay) (id : option string) (r : StagedRecordView) : Overlay :=
  match id with Some id => <[id := r]> overlay | None => overlay end.

Section ops.
Context (batch : StagedMutationBatch) (window_ms now_ms : Z).

Definition check_create (op_index : nat) (eff : Effects) (id : option string) (scope : MemoryScope)
    (r : NewMemoryRecord) (trust : TrustTier) (derived : list string) : V Effects :=
  _ ← lift_result (check_record_payload op_index r);
  _ ← lift_result (check_scope op_index batch scope);
  _ ← lift_result (check_tier_assignment op_index batch trust false);
  _ ← check_free op_index eff.1 id;
  _ ← check_sources op_index eff.1 derived;
  tainted ← chain_reaches_taint eff.1 derived;
  _ ← throw_if (tainted && tier_gt trust llm_write_ceiling) (TransitiveTaintCeiling op_index trust);
  let hash := content_hash (new_title r) (new_body r) in
  recreated ← is_tombstone_recreation (batch_author batch) eff.2 scope hash window_ms now_ms;
  _ ← throw_if recreated (TombstoneRecreation op_index hash);
  mret (overlay_new eff.1 id (mkView scope trust Active None derived hash (is_some (new_verification r)) tainted), eff.2).

Definition check_supersede (op_index : nat) (eff : Effects) (id : option string) (prior : string)
    (r : NewMemoryRecord) (trust : TrustTier) (derived : list string) : V Effects :=
  _ ← lift_result (check_record_payload op_index r);
  _ ← lift_result (check_tier_assignment op_index batch trust false);
  found ← lookup_record eff.1 prior;
  prior_view ← lift_result (ok_or found (UnknownRecord op_index prior));
  _ ← throw_if (negb (view_status prior_view =b Active)) (NotActive op_index prior);
  _ ← lift_result (check_scope op_index batch (view_scope prior_view));
  _ ← check_free op_index eff.1 id;
  _ ← check_sources op_index eff.1 derived;
  _ ← check_acyclic op_index eff.1 id prior;
  tainted ← chain_reaches_taint eff.1 (prior :: derived);
  _ ← throw_if (tainted && tier_gt trust llm_write_ceiling) (TransitiveTaintCeiling op_index trust);
  let hash := content_hash (new_title r) (new_body r) in
  recreated ← is_tombstone_recreation (batch_author batch) eff.2 (view_scope prior_view) hash window_ms now_ms;
  _ ← throw_if recreated (TombstoneRecreation op_index hash);
  let overlay := <[prior := with_status prior_view (Superseded (unwrap_or id "<pending>")) (view_ever_quarantined prior_view)]> eff.1 in
  mret (overlay_new overlay id
          (mkView (view_scope prior_view) trust Active (Some prior) derived hash (is_some (new_verification r)) tainted), eff.2).

Definition check_tombstone (op_index : nat) (eff : Effects) (id : string) : V Effects :=
  existing ← check_live op_index batch eff.1 id;
  mret (<[id := with_status existing Tombstoned (view_ever_quarantined existing || is_quarantined (view_status existing))]> eff.1,
        (view_scope existing, view_content_hash existing) :: eff.2).

Definition check_retier (op_index : nat) (eff : Effects) (id : string) (trust : TrustTier) : V Effects :=
  _ ← lift_result (check_tier_assignment op_index batch trust true);
  existing ← check_live op_index batch eff.1 id;
  _ ← throw_if ((trust =b AgentVerified) && (negb (is_steward (batch_author batch)) || negb (view_has_verification existing)))
        (UnverifiedRetier op_index);
  _ ← (if tier_gt trust llm_write_ceiling then
         tainted ← chain_reaches_taint eff.1 [id];
         throw_if tainted (TransitiveTaintCeiling op_index trust)
       else mret tt);
  mret (<[id := with_trust existing trust]> eff.1, eff.2).

Definition check_op (op_index : nat) (op : StagedOp) (eff : Effects) : V Effects :=
  match op with
  | Create id scope r trust derived _ _ _ => check_create op_index eff id scope r trust derived
  | Supersede id prior r trust derived _ => check_supersede op_index eff id prior r trust derived
  | Tombstone id _ => check_tombstone op_index eff id
  | Retier id trust _ => check_retier op_index eff id trust
  | SetRank id _ => _ ← check_live op_index batch eff.1 id; mret eff
  end.

Fixpoint check_ops (op_index : nat) (ops : list StagedOp) (eff : Effects) : V unit :=
  match ops with
  | [] => mret tt
  | op :: rest => eff ← check_op op_index op eff; check_ops (S op_index) rest eff
  end.
End ops.

Definition validate_batch (batch : StagedMutationBatch) (window_ms now_ms : Z) : V unit :=
  _ ← throw_if (is_empty (batch_ops batch)) EmptyBatch;
  _ ← throw_if (MAX_BATCH_OPS <? length (batch_ops batch))%nat (TooManyOps MAX_BATCH_OPS (length (batch_ops batch)));
  check_ops batch window_ms now_ms 0 (batch_ops batch) (∅, []).
End validator.
