(* ===== verification/MemoryStore.v ===== *)
(** * Governed memory: the SQLite store, its write paths ([memory/sqlite_store.rs], [memory/review.rs])

    The file of one realm, in the worlds of [SqlWorld].  Enumerations and scopes
    are columns of text, parsed when read, as in the source.  A column of JSON is
    kept as the value it encodes, [None] standing for text that does not decode:
    encoding the types stored here cannot fail, and decoding what was written
    gives it back.  Timestamps are the [i64] the code casts to and from [u64].

    Outside is [MemoryEnv]: failing statements, failing reads of the validator's
    view (which the code answers with [None], not with an error), the clock, the
    minted tokens and ids, the write gate and the evidence resolver installed at
    the moment, and the order of an unordered scan. *)

From S2P Require Import Prelude Strings SqlWorld MemoryRecords MemorySecrets MemoryTaint MemoryStaged.
Open Scope Z_scope.

Inductive AgentMemoryError :=
| InvalidConfig (msg : string)
| InvalidRecord (msg : string)
| Io (msg : string)
| Parse (msg : string)
| Timeout (msg : string)
| Unsupported (msg : string).

(** ** Tables *)

Notation JsonText A := (option A) (only parsing).

Record RecordRow := mkRow {
  row_scope_kind : string;
  row_scope_key : string;
  row_kind : string;
  row_title : string;
  row_description : string;
  row_body : string;
  row_tags : JsonText (list string);
  row_provenance : JsonText MemoryProvenance;
  row_trust : string;
  row_status_kind : string;
  row_status_detail : option string;
  row_supersedes : option string;
  row_derived_from : JsonText (list string);
  row_working_set_rank : option Z;
  row_rank_set_at_ms : option Z;
  row_content_hash : string;
  row_created_at_ms : Z;
  row_updated_at_ms : Z;
  row_usage_stats : JsonText UsageStats;
  row_tombstoned_at_ms : option Z;
  row_ever_quarantined : bool;
  row_rowid : Z;
}.

(** *** Reviews *)

Inductive QuarantineDecision := DecideRelease | DecideTombstone.
#[global] Instance QuarantineDecision_eq_dec : EqDecision QuarantineDecision.
Proof. solve_decision. Defined.
Definition decision_as_str (d : QuarantineDecision) : string :=
  match d with DecideRelease => "release" | DecideTombstone => "tombstone" end.

Inductive QuarantineReviewer := OperatorReviewer (principal : option string) | StewardReviewer (run_id : string).
Definition reviewer_author (r : QuarantineReviewer) : MemoryAuthor :=
  match r with OperatorReviewer _ => OperatorAuthor | StewardReviewer run_id => StewardAuthor run_id end.
Definition is_operator_reviewer (r : QuarantineReviewer) : bool :=
  match r with OperatorReviewer _ => true | StewardReviewer _ => false end.

Record QuarantineReviewRequest := mkReview {
  review_scope : MemoryScope;
  review_memory_id : string;
  review_decision : QuarantineDecision;
  expected_content_hash : string;
  review_reviewer : QuarantineReviewer;
  review_rationale : option string;
}.

Record ReviewAudit := mkReviewAudit {
  audit_verdict : QuarantineDecision;
  audit_reviewer : QuarantineReviewer;
  audit_origin : string;
  audit_successor : option string;
  audit_expected_hash : string;
  audit_quarantine_reason : string;
  audit_expired_promotions : list string;
  audit_invalidated_promotions : list string;
  audit_rationale : option string;
}.

Record ReviewedRecordReceipt := mkReceipt {
  reviewed_memory_id : string;
  reviewed_scope : MemoryScope;
  reviewed_kind : MemoryKind;
  reviewed_status : RecordStatus;
  reviewed_trust : TrustTier;
  reviewed_ever_quarantined : bool;
  reviewed_content_hash : string;
  reviewed_supersedes : option string;
  reviewed_derived_from : list string;
  reviewed_created_at_ms : Z;
  reviewed_updated_at_ms : Z;
}.

Record ReviewDecision := mkDecision { decision_token : string; decided_at_ms : Z; decided_review : ReviewAudit }.

Inductive QuarantineReviewOutcome :=
| Released (origin successor : ReviewedRecordReceipt) (superseded_prior : option string) (decision : ReviewDecision)
| AlreadyReleased (origin successor : ReviewedRecordReceipt) (decision : ReviewDecision)
| ReviewTombstoned (origin : ReviewedRecordReceipt) (decision : ReviewDecision)
| AlreadyTombstonedByReview (origin : ReviewedRecordReceipt) (decision : ReviewDecision).
Definition outcome_applied (o : QuarantineReviewOutcome) : bool :=
  match o with Released _ _ _ _ | ReviewTombstoned _ _ => true | _ => false end.
Definition outcome_origin (o : QuarantineReviewOutcome) : ReviewedRecordReceipt :=
  match o with Released r _ _ _ | AlreadyReleased r _ _ | ReviewTombstoned r _ | AlreadyTombstonedByReview r _ => r end.
Definition outcome_successor (o : QuarantineReviewOutcome) : option ReviewedRecordReceipt :=
  match o with Released _ s _ _ | AlreadyReleased _ s _ => Some s | _ => None end.
Definition outcome_decision (o : QuarantineReviewOutcome) : ReviewDecision :=
  match o with
  | Released _ _ _ d | AlreadyReleased _ _ d | ReviewTombstoned _ d | AlreadyTombstonedByReview _ d => d
  end.

Inductive QuarantineReviewRefusal :=
| ReviewNotFound
| ContentMismatch
| NotQuarantined (status : string) (released_as : option string)
| GatePending (pending_id : string) (expires_at_ms : Z)
| SuccessorConflict (successor_id : string)
| ReviewSecretDetected (class : string)
| StaleUpdate (prior prior_status : string).

Definition RELEASE_SUCCESSOR_SUFFIX : string := "-released".
Definition release_successor_id (origin : string) : string := origin +:+ RELEASE_SUCCESSOR_SUFFIX.
Definition GATED_PROMOTION_EXPIRY_MS : Z := 7 * 24 * 60 * 60 * 1000.

Definition release_copy (r : MemoryRecord) : NewMemoryRecord :=
  mkNewRecord (kind r) (title r) (description r) (body r) (tags r) [] (provenance_verification (provenance r)).

Definition quarantine_release_ops (origin : MemoryRecord) (create_rationale tombstone_rationale : string) : list StagedOp :=
  let successor := Some (release_successor_id (memory_id origin)) in
  let record := release_copy origin in
  let derived := [memory_id origin] in
  let first := match supersedes origin with
               | Some prior => Supersede successor prior record AgentObserved derived (Some create_rationale)
               | None => Create successor (scope origin) record AgentObserved derived (Some create_rationale) None None
               end in
  [first; Tombstone (memory_id origin) (Some tombstone_rationale)].

(** *** The other tables *)

(** The JSON of an audit row's detail. *)
Record AuditDetail := mkDetail {
  detail_op : string;
  detail_author : MemoryAuthor;
  detail_rationale : option string;
  detail_quarantined : option string;
  detail_review : option ReviewAudit;
}.
Record AuditRow := mkAudit {
  audit_stage_token : string;
  audit_op_index : Z;
  audit_op_kind : string;
  audit_memory_id : option string;
  audit_detail : AuditDetail;
  audit_applied_at_ms : Z;
}.

Record StageRow := mkStage { stage_batch : JsonText StagedMutationBatch; stage_created_at_ms : Z }.

Record PendingPromotion := mkPromotion {
  promotion_stage_token : string;
  promotion_record_id : string;
  promotion_scope_kind : string;
  promotion_scope_key : string;
  promotion_rationale : option string;
  promotion_status : string;
  promotion_created_at_ms : Z;
  promotion_resolved_at_ms : option Z;
}.

Record ProposalRow := mkProposal {
  proposal_scope_kind : string;
  proposal_scope_key : string;
  proposal_record : JsonText NewMemoryRecord;
  proposal_author : JsonText MemoryAuthor;
  proposal_status : string;
  proposal_created_at_ms : Z;
  proposal_taint : option string;
}.

(** [audit] is in the order of its autoincremented key. *)
Record Db := mkDb {
  records : gmap string RecordRow;
  proposals : gmap string ProposalRow;
  audit : list AuditRow;
  stage : gmap string StageRow;
  pending_promotions : gmap string PendingPromotion;
}.
Definition empty_db : Db := mkDb ∅ ∅ [] ∅ ∅.

Definition with_records (f : gmap string RecordRow → gmap string RecordRow) (d : Db) : Db :=
  mkDb (f (records d)) (proposals d) (audit d) (stage d) (pending_promotions d).
Definition with_proposals (f : gmap string ProposalRow → gmap string ProposalRow) (d : Db) : Db :=
  mkDb (records d) (f (proposals d)) (audit d) (stage d) (pending_promotions d).
Definition with_audit (row : AuditRow) (d : Db) : Db :=
  mkDb (records d) (proposals d) (audit d ++ [row]) (stage d) (pending_promotions d).
Definition with_stage (f : gmap string StageRow → gmap string StageRow) (d : Db) : Db :=
  mkDb (records d) (proposals d) (audit d) (f (stage d)) (pending_promotions d).
Definition with_promotions (f : gmap string PendingPromotion → gmap string PendingPromotion) (d : Db) : Db :=
  mkDb (records d) (proposals d) (audit d) (stage d) (f (pending_promotions d)).

(** The timeline events of the store; the sink is a callback, kept as what it was told. *)
Inductive MemoryTimelineEvent :=
| QuarantinedWrite (realm : string) (author : MemoryAuthor) (reason : string)
| QuarantineVerdict (realm record_id verdict : string) (successor_id : option string)
| QuarantineReleaseBlocked (realm record_id verdict class : string).
Record Sink := mkSink { sink_present : bool; sink_events : list MemoryTimelineEvent }.

Record MemoryEnv := mkEnv {
  sql_fault : nat → option string;
  view_fault : nat → bool;
  enter_fault : nat → option string;
  clock : nat → Z;
  token_at : nat → string;
  new_id_at : nat → string;
  gate_at : nat → option LlmWriteGate;
  resolver_at : nat → option (EvidenceRef → Result unit string);
  unique_violation : string;
  no_rows : string;
  json_error : string;
  scan_order : list (string * RecordRow) → list (string * RecordRow);
}.

Notation St := (M (World Db Sink) AgentMemoryError).

(** [u64 as i64] and back. *)
Definition as_i64 (n : Z) : Z := if n <? 2 ^ 63 then n else n - 2 ^ 64.
Definition as_u64 (n : Z) : Z := if n <? 0 then n + 2 ^ 64 else n.

Section store.
Context `{Sha256}.
Context (env : MemoryEnv).

Definition sql : St unit := statement (λ n, Io <$> sql_fault env n).
Definition update (f : Db → Db) : St unit := modify (λ w, with_working (f (working w)) w).
Definition table {A} (f : Db → A) : St A := gets (λ w, f (working w)).
(** A statement outside a transaction takes effect at once. *)
Definition autocommit (f : Db → Db) : St unit :=
  _ ← sql; modify (λ w, mkWorld (f (working w)) (f (working w)) (volatile w) (observed w)).
Definition commit : St unit := commit_tables (λ n, Io <$> sql_fault env n).
Definition with_realm_conn {A} (f : St A) : St A := enter (λ n, Io <$> enter_fault env n) f.
Definition now_ms : St Z := observe (clock env).
Definition mint_token : St string := observe (token_at env).
Definition new_memory_id : St string := observe (new_id_at env).
Definition emit (e : MemoryTimelineEvent) : St unit :=
  modify (λ w, if sink_present (volatile w)
               then mkWorld (committed w) (working w) (mkSink true (sink_events (volatile w) ++ [e])) (observed w) else w).

(** ** Rows and values *)

Definition status_from_parts (kind : string) (detail : option string) : RecordStatus :=
  if kind =b "superseded" then Superseded (unwrap_or detail "")
  else if kind =b "quarantined" then Quarantined (unwrap_or detail "")
  else if kind =b "tombstoned" then Tombstoned
  else Active.

Definition scope_from_parts (kind key realm : string) : Result MemoryScope AgentMemoryError :=
  if kind =b "identity" then Ok (IdentityScope realm key)
  else if kind =b "mob" then Ok (MobScope realm key)
  else if kind =b "operator" then Ok (OperatorScope realm key)
  else if kind =b "realm" then Ok (RealmScope realm)
  else Err (Parse ("unknown scope kind '" +:+ kind +:+ "'")).

Definition into_record (realm id : string) (row : RecordRow) : Result MemoryRecord AgentMemoryError :=
  scope ←? scope_from_parts (row_scope_kind row) (row_scope_key row) realm;
  provenance ←? ok_or (row_provenance row) (Parse (json_error env));
  kind ←? ok_or (kind_parse (row_kind row)) (Parse ("unknown record kind '" +:+ row_kind row +:+ "'"));
  trust ←? ok_or (tier_parse (row_trust row)) (Parse ("unknown trust tier '" +:+ row_trust row +:+ "'"));
  Ok (mkRecord id scope kind (row_title row) (row_description row) (row_body row)
        (unwrap_or (row_tags row) []) provenance trust (status_from_parts (row_status_kind row) (row_status_detail row))
        (row_supersedes row) (unwrap_or (row_derived_from row) [])
        ((λ rank, rank mod 2 ^ 32) <$> row_working_set_rank row) (as_u64 (row_created_at_ms row))
        (as_u64 (row_updated_at_ms row)) (unwrap_or (row_usage_stats row) usage_default) (row_ever_quarantined row)).

Definition load_record (realm id : string) : St (option MemoryRecord) :=
  _ ← sql;
  row ← table (λ d, records d !! id);
  match row with
  | None => mret None
  | Some row => r ← lift_result (into_record realm id row); mret (Some r)
  end.

(** ** The view the validator reads *)

Definition row_view (realm : string) (row : RecordRow) : option StagedRecordView :=
  scope ← match scope_from_parts (row_scope_kind row) (row_scope_key row) realm with Ok s => Some s | Err _ => None end;
  provenance ← row_provenance row;
  trust ← tier_parse (row_trust row);
  Some (mkView scope trust (status_from_parts (row_status_kind row) (row_status_detail row)) (row_supersedes row)
          (unwrap_or (row_derived_from row) []) (row_content_hash row) (is_some (provenance_verification provenance))
          (row_ever_quarantined row)).

(** [SELECT MAX(tombstoned_at_ms) ... WHERE scope AND content_hash AND tombstoned] *)
Definition tombstone_time (scope : MemoryScope) (hash : string) (row : RecordRow) : option Z :=
  if (row_scope_kind row =b scope_kind_str scope) && (row_scope_key row =b scope_key scope) &&
     (row_content_hash row =b hash) && (row_status_kind row =b "tombstoned")
  then row_tombstoned_at_ms row else None.
Definition opt_max (a b : option Z) : option Z :=
  match a, b with Some x, Some y => Some (Z.max x y) | Some x, None => Some x | None, _ => b end.
Definition max_tombstone (d : Db) (scope : MemoryScope) (hash : string) : option Z :=
  as_u64 <$> map_fold (λ _ row acc, opt_max (tombstone_time scope hash row) acc) None (records d).

Definition ConnBatchView (realm : string) (d : Db) : StagedBatchView :=
  mkBatchView (omap (row_view realm) (records d)) (max_tombstone d) (view_fault env).

(** [validate_batch] over the connection; its reads are observations. *)
Definition validate_in (batch : StagedMutationBatch) (now : Z) : St unit :=
  λ w, let '(r, n) := validate_batch (ConnBatchView (batch_realm batch) (working w)) batch
                        DEFAULT_TOMBSTONE_RECREATE_WINDOW_MS now (observed w) in
       (map_err (λ e, InvalidRecord (batch_error_text e)) r, mkWorld (committed w) (working w) (volatile w) n).

(** ** Applying one operation *)

Definition MAX_MEMORY_TAGS : nat := 32.
Definition MAX_MEMORY_TAG_BYTES : nat := 64.
Fixpoint insert_tags (tags : list string) (acc : gset string) : Result (gset string) AgentMemoryError :=
  match tags with
  | [] => Ok acc
  | tag :: rest =>
      let tag := to_ascii_lowercase (trim tag) in
      if (MAX_MEMORY_TAG_BYTES <? str_len tag)%nat then Err (InvalidRecord "tags must be at most 64 bytes")
      else insert_tags rest (if str_is_empty tag then acc else {[tag]} ∪ acc)
  end.
Definition normalize_tags (tags : list string) : Result (list string) AgentMemoryError :=
  if (MAX_MEMORY_TAGS <? length tags)%nat then Err (InvalidRecord "tags must contain at most 32 entries")
  else set ←? insert_tags tags ∅; Ok (bset_elements set).

(** Some named row was quarantined once, or is. *)
Definition ancestors_reach_quarantine (ancestors : list string) : St bool :=
  if is_empty ancestors then mret false
  else
    _ ← sql;
    table (λ d, existsb (λ id, is_some_and (records d !! id)
                  (λ row, row_ever_quarantined row || (row_status_kind row =b "quarantined"))) ancestors).

(** Rows are never deleted, so the largest rowid is their number. *)
Definition fresh_rowid (d : Db) : Z := Z.of_nat (size (records d)) + 1.

Definition insert_record (id : string) (scope : MemoryScope) (r : NewMemoryRecord) (trust : TrustTier)
    (author : MemoryAuthor) (derived : list string) (prior : option string) (rank : option Z)
    (quarantine : option string) (created updated : Z) : St unit :=
  tags ← lift_result (normalize_tags (new_tags r));
  let provenance := mkProvenance (new_evidence r) author None (new_verification r) in
  ever ← (if is_some quarantine then mret true
          else ancestors_reach_quarantine (derived ++ match prior with Some p => [p] | None => [] end));
  _ ← sql;
  present ← table (λ d, is_some (records d !! id));
  _ ← throw_if present (Io (unique_violation env));
  update (λ d, with_records (insert id
    (mkRow (scope_kind_str scope) (scope_key scope) (kind_as_str (new_kind r)) (new_title r) (new_description r) (new_body r)
       (Some tags) (Some provenance) (tier_as_str trust)
       (if is_some quarantine then "quarantined" else "active") quarantine prior (Some derived) rank None
       (content_hash (new_title r) (new_body r)) (as_i64 created) (as_i64 updated) (Some usage_default) None ever
       (fresh_rowid d))) d).

(** [UPDATE records SET ... WHERE memory_id = ?]: no row, no change. *)
Definition update_row (id : string) (f : RecordRow → RecordRow) : St unit :=
  _ ← sql; update (with_records (alter f id)).

Definition row_with_status (kind : string) (detail : option string) (tombstoned : option Z) (now : Z) (row : RecordRow) : RecordRow :=
  mkRow (row_scope_kind row) (row_scope_key row) (row_kind row) (row_title row) (row_description row) (row_body row)
    (row_tags row) (row_provenance row) (row_trust row) kind detail (row_supersedes row) (row_derived_from row)
    (row_working_set_rank row) (row_rank_set_at_ms row) (row_content_hash row) (row_created_at_ms row) (as_i64 now)
    (row_usage_stats row) tombstoned (row_ever_quarantined row) (row_rowid row).
Definition row_with_trust (trust : TrustTier) (now : Z) (row : RecordRow) : RecordRow :=
  mkRow (row_scope_kind row) (row_scope_key row) (row_kind row) (row_title row) (row_description row) (row_body row)
    (row_tags row) (row_provenance row) (tier_as_str trust) (row_status_kind row) (row_status_detail row)
    (row_supersedes row) (row_derived_from row) (row_working_set_rank row) (row_rank_set_at_ms row) (row_content_hash row)
    (row_created_at_ms row) (as_i64 now) (row_usage_stats row) (row_tombstoned_at_ms row) (row_ever_quarantined row)
    (row_rowid row).
Definition row_with_rank (rank : option Z) (now : Z) (row : RecordRow) : RecordRow :=
  mkRow (row_scope_kind row) (row_scope_key row) (row_kind row) (row_title row) (row_description row) (row_body row)
    (row_tags row) (row_provenance row) (row_trust row) (row_status_kind row) (row_status_detail row)
    (row_supersedes row) (row_derived_from row) rank (Some (as_i64 now)) (row_content_hash row)
    (row_created_at_ms row) (row_updated_at_ms row) (row_usage_stats row) (row_tombstoned_at_ms row)
    (row_ever_quarantined row) (row_rowid row).

Definition row_with_usage (usage : JsonText UsageStats) (row : RecordRow) : RecordRow :=
  mkRow (row_scope_kind row) (row_scope_key row) (row_kind row) (row_title row) (row_description row) (row_body row)
    (row_tags row) (row_provenance row) (row_trust row) (row_status_kind row) (row_status_detail row)
    (row_supersedes row) (row_derived_from row) (row_working_set_rank row) (row_rank_set_at_ms row) (row_content_hash row)
    (row_created_at_ms row) (row_updated_at_ms row) usage (row_tombstoned_at_ms row)
    (row_ever_quarantined row) (row_rowid row).

Definition id_or_new (id : option string) : St string :=
  match id with Some id => mret id | None => new_memory_id end.

(** The prior's scope and rank carry over; a quarantined supersede leaves the
    prior active. *)
Definition apply_supersede (batch : StagedMutationBatch) (id : option string) (prior : string) (r : NewMemoryRecord)
    (trust : TrustTier) (derived : list string) (quarantine : option string) (now : Z) : St string :=
  _ ← sql;
  found ← table (λ d, records d !! prior);
  prior_row ← lift_result (ok_or found (Io (no_rows env)));
  scope ← lift_result (scope_from_parts (row_scope_kind prior_row) (row_scope_key prior_row) (batch_realm batch));
  memory_id ← id_or_new id;
  _ ← insert_record memory_id scope r trust (batch_author batch) derived (Some prior) (row_working_set_rank prior_row)
        quarantine now now;
  _ ← (if is_none quarantine
       then update_row prior (λ row, row_with_status "superseded" (Some memory_id) (row_tombstoned_at_ms row) now row)
       else mret tt);
  mret memory_id.

Definition apply_op (batch : StagedMutationBatch) (op : StagedOp) (quarantine : option string) (now : Z) : St string :=
  match op with
  | Create id scope r trust derived _ created updated =>
      memory_id ← id_or_new id;
      _ ← insert_record memory_id scope r trust (batch_author batch) derived None None quarantine
            (unwrap_or created now) (unwrap_or updated now);
      mret memory_id
  | Supersede id prior r trust derived _ => apply_supersede batch id prior r trust derived quarantine now
  | Tombstone id _ =>
      _ ← update_row id (row_with_status "tombstoned" None (Some (as_i64 now)) now); mret id
  | Retier id trust _ => _ ← update_row id (row_with_trust trust now); mret id
  | SetRank id rank => _ ← update_row id (row_with_rank rank now); mret id
  end.

Definition op_rationale (op : StagedOp) : option string :=
  match op with
  | Create _ _ _ _ _ rationale _ _ | Supersede _ _ _ _ _ rationale | Tombstone _ rationale | Retier _ _ rationale => rationale
  | SetRank _ _ => None
  end.

(** ** Applying a batch *)

Definition batch_evidence (batch : StagedMutationBatch) : list EvidenceRef :=
  flat_map (λ op, match op with
                  | Create _ _ r _ _ _ _ _ | Supersede _ _ r _ _ _ => new_evidence r
                  | _ => []
                  end) (batch_ops batch).

Definition batch_quarantine_reason (batch : StagedMutationBatch) (gate : option LlmWriteGate) : St (option string) :=
  let quarantine := gate ≫= λ g, g (batch_author batch) (batch_kind batch) (batch_evidence batch) in
  _ ← match quarantine with
      | Some reason => emit (QuarantinedWrite (batch_realm batch) (batch_author batch) reason)
      | None => mret tt
      end;
  mret quarantine.

Fixpoint apply_ops (batch : StagedMutationBatch) (quarantine : option string) (token : string) (now : Z)
    (review : option ReviewAudit) (op_index : nat) (ops : list StagedOp) : St (list string) :=
  match ops with
  | [] => mret []
  | op :: rest =>
      memory_id ← apply_op batch op quarantine now;
      _ ← sql;
      _ ← update (with_audit (mkAudit token (Z.of_nat op_index) (op_kind_str op) (Some memory_id)
             (mkDetail (op_kind_str op) (batch_author batch) (op_rationale op) quarantine review) (as_i64 now)));
      memory_ids ← apply_ops batch quarantine token now review (S op_index) rest;
      mret (memory_id :: memory_ids)
  end.

Definition apply_batch_in_tx (batch : StagedMutationBatch) (quarantine : option string) (token : string) (now : Z)
    (review : option ReviewAudit) : St CommitReceipt :=
  _ ← validate_in batch now;
  memory_ids ← apply_ops batch quarantine token now review 0 (batch_ops batch);
  _ ← sql;
  _ ← update (with_stage (delete token));
  mret (mkCommitReceipt token (length (batch_ops batch)) memory_ids).

Definition apply_batch_tx (batch : StagedMutationBatch) (gate : option LlmWriteGate) (token : string) (now : Z)
    : St CommitReceipt :=
  quarantine ← batch_quarantine_reason batch gate;
  _ ← sql;
  receipt ← apply_batch_in_tx batch quarantine token now None;
  _ ← commit;
  mret receipt.

(** The gate installed when an operation starts. *)
Definition gate : St (option LlmWriteGate) := observe (gate_at env).
Definition resolver : St (option (EvidenceRef → Result unit string)) := observe (resolver_at env).
End store.
