(* ===== verification/MemoryCalls.v ===== *)
(** * Governed memory: the calls of the store ([memory/sqlite_store.rs])

    Every call that writes: remembering, superseding, forgetting, proposing,
    staging and committing batches, quarantine review, and the bookkeeping of gated
    promotions; and the reads a caller sees records through. *)

From S2P Require Import Prelude Strings SqlWorld MemoryRecords MemorySecrets MemoryTaint MemoryStaged MemoryStore.
Open Scope Z_scope.

Definition STAGE_GC_MAX_AGE_MS : Z := 24 * 60 * 60 * 1000.

Record AgentMemoryRecord := mkAgentRecord {
  agent_memory_id : string;
  agent_title : string;
  agent_body : string;
  agent_tags : list string;
  agent_created_at_ms : Z;
  agent_updated_at_ms : Z;
}.
Record AuthoredWriteReceipt := mkAuthored { authored_memory_id : string; authored_status : RecordStatus }.
Record NewAgentMemory := mkNewAgentMemory { new_agent_title : string; new_agent_body : string; new_agent_tags : list string }.
Record AgentMemoryForgetResult := mkForget { forget_memory_id : string; forget_deleted : bool }.

Definition project_record (r : MemoryRecord) : AgentMemoryRecord :=
  mkAgentRecord (memory_id r) (title r) (body r) (tags r) (created_at_ms r) (updated_at_ms r).

(** [s.split_whitespace()] joined by single spaces: the words between runs of
    white space, ASCII and Unicode. *)
Fixpoint words (fuel : nat) (current : string) (s : string) : list string :=
  match fuel with
  | O => if str_is_empty current then [] else [current]
  | S fuel' =>
      match ws_head s with
      | Some rest => if str_is_empty current then words fuel' "" rest else current :: words fuel' "" rest
      | None => match s with
                | "" => if str_is_empty current then [] else [current]
                | String a s' => words fuel' (current +:+ String a "") s'
                end
      end
  end.
Definition compact_whitespace (s : string) : string := join " " (words (S (str_len s)) "" s).

Section calls.
Context `{Sha256}.
Context (env : MemoryEnv).

(** ** Opening

    The sweep of stale stage tokens at the first use of a realm; it spares those
    a pending promotion refers to. *)
Definition gc_stage (now : Z) (d : Db) : Db :=
  with_stage (filter (λ kv, ¬ (stage_created_at_ms kv.2 < as_i64 (u64_saturating_sub now STAGE_GC_MAX_AGE_MS) ∧
    ¬ Exists (λ p, promotion_status p.2 = "pending" ∧ promotion_stage_token p.2 = kv.1) (map_to_list (pending_promotions d))))) d.
Definition open_realm : St unit :=
  with_realm_conn env (now ← now_ms env; autocommit env (gc_stage now)).

(** ** Reads *)

Definition active_in (scope : MemoryScope) (row : RecordRow) : bool :=
  (row_scope_kind row =b scope_kind_str scope) && (row_scope_key row =b scope_key scope) && (row_status_kind row =b "active").

Fixpoint into_records (realm : string) (rows : list (string * RecordRow)) : St (list MemoryRecord) :=
  match rows with
  | [] => mret []
  | (id, row) :: rest =>
      _ ← sql env;
      r ← lift_result (into_record env realm id row);
      rs ← into_records realm rest;
      mret (r :: rs)
  end.

Definition active_scope_records (scope : MemoryScope) : St (list MemoryRecord) :=
  _ ← sql env;
  rows ← table (λ d, scan_order env (List.filter (λ kv, active_in scope kv.2) (map_to_list (records d))));
  into_records (scope_realm scope) rows.

(** [... AND content_hash = ? AND status_kind = 'active' ORDER BY created_at_ms ASC LIMIT 1] *)
Definition duplicate_rows (scope : MemoryScope) (hash : string) (d : Db) : list (string * RecordRow) :=
  List.filter (λ kv, active_in scope kv.2 && (row_content_hash kv.2 =b hash)) (map_to_list (records d)).
Definition older (p q : string * RecordRow) : string * RecordRow :=
  if row_created_at_ms q.2 <? row_created_at_ms p.2 then q else p.
Definition first_duplicate (scope : MemoryScope) (hash : string) (d : Db) : option (string * RecordRow) :=
  match scan_order env (duplicate_rows scope hash d) with
  | [] => None
  | first :: rest => Some (foldl older first rest)
  end.
Definition find_duplicate (scope : MemoryScope) (hash : string) : St (option MemoryRecord) :=
  _ ← sql env;
  found ← table (first_duplicate scope hash);
  match found with
  | None => mret None
  | Some (id, row) => r ← lift_result (into_record env (scope_realm scope) id row); mret (Some r)
  end.

(** ** Direct writes *)

Definition one_op (realm : string) (author : MemoryAuthor) (op : StagedOp) : StagedMutationBatch :=
  mkBatch realm author FreshWrite [op].

Definition apply_direct (batch : StagedMutationBatch) (g : option LlmWriteGate) : St CommitReceipt :=
  token ← mint_token env;
  now ← now_ms env;
  apply_batch_tx env batch g token now.

(** The record a direct write left, read back. *)
Definition written_record (realm : string) (receipt : CommitReceipt) (none vanished : string) : St MemoryRecord :=
  id ← lift_result (ok_or (head (memory_ids receipt)) (Io none));
  loaded ← load_record env realm id;
  lift_result (ok_or loaded (Io vanished)).

Definition normalized_record (r : NewMemoryRecord) (title body : string) (tags : list string) : NewMemoryRecord :=
  mkNewRecord (new_kind r) title (new_description r) body tags (new_evidence r) (new_verification r).

(** [remember_authored]; the floor warning after it only reads and logs. *)
Definition remember_in (scope : MemoryScope) (r : NewMemoryRecord) (author : MemoryAuthor) : St MemoryRecord :=
  let title := compact_whitespace (new_title r) in
  let body := trim (new_body r) in
  _ ← lift_result (map_err InvalidRecord (validate_record_fields title (new_description r) body));
  tags ← lift_result (normalize_tags (new_tags r));
  g ← gate env;
  with_realm_conn env (
    existing ← find_duplicate scope (content_hash title body);
    match existing with
    | Some found => mret found
    | None =>
        receipt ← apply_direct (one_op (scope_realm scope) author
          (Create None scope (normalized_record r title body tags) AgentObserved [] None None None)) g;
        _ ← sql env;
        written_record (scope_realm scope) receipt "remember commit returned no record id"
          "remembered record vanished mid-commit"
    end).
Definition remember_authored (scope : MemoryScope) (r : NewMemoryRecord) (author : MemoryAuthor) : St AuthoredWriteReceipt :=
  found ← remember_in scope r author;
  mret (mkAuthored (memory_id found) (status found)).
Definition remember (realm identity : string) (memory : NewAgentMemory) : St AgentMemoryRecord :=
  found ← remember_in (IdentityScope realm identity)
    (mkNewRecord Fact (new_agent_title memory) "" (new_agent_body memory) (new_agent_tags memory) [] None) ApplicationAuthor;
  mret (project_record found).

Definition supersede_with_author (scope : MemoryScope) (prior : string) (r : NewMemoryRecord) (author : MemoryAuthor)
    : St AuthoredWriteReceipt :=
  let title := compact_whitespace (new_title r) in
  let body := trim (new_body r) in
  _ ← lift_result (map_err InvalidRecord (validate_record_fields title (new_description r) body));
  tags ← lift_result (normalize_tags (new_tags r));
  let realm := scope_realm scope in
  g ← gate env;
  with_realm_conn env (
    loaded ← load_record env realm prior;
    existing ← lift_result (ok_or loaded (InvalidRecord ("record '" +:+ prior +:+ "' does not exist")));
    _ ← throw_if (negb (MemoryRecords.scope existing =b scope))
          (InvalidRecord ("record '" +:+ prior +:+ "' does not belong to the requested scope"));
    receipt ← apply_direct (one_op realm author
      (Supersede None prior (normalized_record r title body tags) AgentObserved [] None)) g;
    found ← written_record realm receipt "supersede commit returned no record id" "superseding record vanished mid-commit";
    mret (mkAuthored (memory_id found) (status found))).

Definition forget_in_scope (scope : MemoryScope) (id : string) (author : MemoryAuthor) : St AgentMemoryForgetResult :=
  g ← gate env;
  with_realm_conn env (
    loaded ← load_record env (scope_realm scope) id;
    let deletable := is_some_and loaded (λ r, (MemoryRecords.scope r =b scope) && negb (status r =b Tombstoned)) in
    if negb deletable then mret (mkForget id false)
    else _ ← apply_direct (one_op (scope_realm scope) author (Tombstone id None)) g; mret (mkForget id true)).
Definition forget (realm identity id : string) : St AgentMemoryForgetResult :=
  _ ← throw_if (str_is_empty (trim id)) (InvalidRecord "memory_id must not be empty");
  forget_in_scope (IdentityScope realm identity) (trim id) ApplicationAuthor.

(** ** Proposals *)

Definition propose (scope : MemoryScope) (r : NewMemoryRecord) (author : MemoryAuthor) : St string :=
  _ ← lift_result (map_err InvalidRecord (validate_record_fields (new_title r) (new_description r) (new_body r)));
  _ ← match detect_record_secret (new_title r) (new_description r) (new_body r) (new_tags r) with
      | Some class => throw (InvalidRecord (batch_error_text (SecretDetected 0 class)))
      | None => mret tt
      end;
  g ← gate env;
  let taint := g ≫= λ g, g author FreshWrite (new_evidence r) in
  proposal_id ← mint_token env;
  with_realm_conn env (
    now ← now_ms env;
    present ← table (λ d, is_some (proposals d !! proposal_id));
    _ ← throw_if present (Io (unique_violation env));
    _ ← autocommit env (with_proposals (insert proposal_id
          (mkProposal (scope_kind_str scope) (scope_key scope) (Some r) (Some author) "pending" (as_i64 now) taint)));
    mret proposal_id).

(** ** Staged batches *)

Definition check_retier_op (resolves : EvidenceRef → Result unit string) (op_index : nat) (op : StagedOp) : St unit :=
  match op with
  | Retier id trust _ =>
      if negb (trust =b AgentVerified) then mret tt
      else
        let reject reason := InvalidRecord (batch_error_text (UnresolvableEvidence op_index reason)) in
        _ ← sql env;
        found ← table (λ d, records d !! id);
        match found with
        | None => mret tt
        | Some row =>
            provenance ← lift_result (ok_or (row_provenance row) (Parse (json_error env)));
            let evidence := match provenance_verification provenance with Some claim => claim_evidence claim | None => [] end in
            _ ← throw_if (is_empty evidence) (reject "verification claim cites no evidence refs");
            lift_result (foldl (λ r e, _ ←? r; map_err reject (resolves e)) (Ok tt) evidence)
        end
  | _ => mret tt
  end.
Fixpoint check_retier_ops (resolves : EvidenceRef → Result unit string) (op_index : nat) (ops : list StagedOp) : St unit :=
  match ops with
  | [] => mret tt
  | op :: rest => _ ← check_retier_op resolves op_index op; check_retier_ops resolves (S op_index) rest
  end.
Definition check_verified_retier_evidence (batch : StagedMutationBatch) (resolves : option (EvidenceRef → Result unit string))
    : St unit :=
  match resolves with
  | None => mret tt
  | Some resolves => check_retier_ops resolves 0 (batch_ops batch)
  end.

Definition stage_call (batch : StagedMutationBatch) : St StageToken :=
  resolves ← resolver env;
  with_realm_conn env (
    now ← now_ms env;
    _ ← validate_in env batch now;
    _ ← check_verified_retier_evidence batch resolves;
    token ← mint_token env;
    now ← now_ms env;
    present ← table (λ d, is_some (MemoryStore.stage d !! token));
    _ ← throw_if present (Io (unique_violation env));
    _ ← autocommit env (with_stage (insert token (mkStage (Some batch) (as_i64 now))));
    mret (mkStageToken (batch_realm batch) token)).

Definition commit_call (token : StageToken) : St CommitReceipt :=
  g ← gate env;
  resolves ← resolver env;
  with_realm_conn env (
    _ ← sql env;
    found ← table (λ d, MemoryStore.stage d !! token_text token);
    row ← lift_result (ok_or found (InvalidRecord ("unknown or expired stage token '" +:+ token_text token +:+ "'")));
    batch ← lift_result (ok_or (stage_batch row) (Parse (json_error env)));
    _ ← check_verified_retier_evidence batch resolves;
    now ← now_ms env;
    apply_batch_tx env batch g (token_text token) now).

Definition discard_stage (token : StageToken) : St unit :=
  with_realm_conn env (autocommit env (with_stage (delete (token_text token)))).

(** ** Usage marks

    Each record that is there has its counters read and written back, whatever its
    status, in a statement of its own.  The call goes over the files of all realms;
    this is what it does to one of them, and a failure before it comes to this one
    is a failure to enter it. *)
Fixpoint mark_each (event : UsageEvent) (now : Z) (ids : list string) : St unit :=
  match ids with
  | [] => mret tt
  | id :: rest =>
      _ ← sql env;
      usage_json ← table (λ d, row_usage_stats <$> records d !! id);
      _ ← match usage_json with
          | None => mret tt
          | Some usage_json =>
              let usage := record_usage event now (unwrap_or usage_json usage_default) in
              autocommit env (with_records (alter (row_with_usage (Some usage)) id))
          end;
      mark_each event now rest
  end.
Definition mark_usage_blocking (ids : list string) (event : UsageEvent) : St unit :=
  now ← now_ms env;
  with_realm_conn env (mark_each event now ids).

(** ** Gated promotions *)

Definition record_pending_promotion (pending_id : string) (p : PendingPromotion) : St unit :=
  with_realm_conn env (
    present ← table (λ d, is_some (pending_promotions d !! pending_id));
    _ ← throw_if present (Io (unique_violation env));
    autocommit env (with_promotions (insert pending_id
      (mkPromotion (promotion_stage_token p) (promotion_record_id p) (promotion_scope_kind p) (promotion_scope_key p)
         (promotion_rationale p) (promotion_status p) (as_i64 (promotion_created_at_ms p)) None)))).

Definition resolve_promotion (status : string) (at_ms : Z) (p : PendingPromotion) : PendingPromotion :=
  mkPromotion (promotion_stage_token p) (promotion_record_id p) (promotion_scope_kind p) (promotion_scope_key p)
    (promotion_rationale p) status (promotion_created_at_ms p) (Some (as_i64 at_ms)).
(** [UPDATE ... WHERE pending_id = ? AND status = 'pending'] *)
Definition resolve_if_pending (pending_id status : string) (at_ms : Z) : Db → Db :=
  with_promotions (alter (λ p, if promotion_status p =b "pending" then resolve_promotion status at_ms p else p) pending_id).
Definition is_pending (pending_id : string) (d : Db) : bool :=
  is_some_and (pending_promotions d !! pending_id) (λ p, promotion_status p =b "pending").

Definition resolve_pending_promotion (pending_id status : string) : St bool :=
  _ ← throw_if (negb ((status =b "committed") || (status =b "denied") || (status =b "expired")))
        (InvalidRecord ("unknown promotion resolution '" +:+ status +:+ "'"));
  with_realm_conn env (
    now ← now_ms env;
    resolved ← table (is_pending pending_id);
    _ ← autocommit env (resolve_if_pending pending_id status now);
    mret resolved).

Definition rekey_pending_promotion (old_id new_id : string) : St bool :=
  with_realm_conn env (
    found ← table (λ d, pending_promotions d !! old_id);
    match opt_filter (λ p, promotion_status p =b "pending") found with
    | None => _ ← sql env; mret false
    | Some p =>
        present ← table (λ d, is_some (delete old_id (pending_promotions d) !! new_id));
        _ ← throw_if present (Io (unique_violation env));
        _ ← autocommit env (with_promotions (λ m, <[new_id := p]> (delete old_id m)));
        mret true
    end).

(** ** Quarantine review *)

(** The promotions of a record that are still pending, oldest first. *)
Definition promotion_le (p q : string * PendingPromotion) : Prop := promotion_created_at_ms p.2 ≤ promotion_created_at_ms q.2.
#[local] Instance promotion_le_dec : RelDecision promotion_le.
Proof. intros p q. unfold promotion_le. apply _. Defined.
Definition pending_promotions_for (record_id : string) : St (list (string * PendingPromotion)) :=
  _ ← sql env;
  table (λ d, merge_sort promotion_le
    (List.filter (λ kv, (promotion_record_id kv.2 =b record_id) && (promotion_status kv.2 =b "pending"))
       (map_to_list (pending_promotions d)))).

Definition expire_promotion_in_tx (pending_id : string) (p : PendingPromotion) (now : Z) : St unit :=
  _ ← sql env;
  _ ← update (with_stage (delete (promotion_stage_token p)));
  _ ← sql env;
  update (resolve_if_pending pending_id "expired" now).

(** Expired ones are expired here, an operator's tombstone invalidates live ones,
    and any other live one refuses the review. *)
Fixpoint settle_promotions (operator_tombstone : bool) (now : Z) (ps : list (string * PendingPromotion))
    (expired invalidated : list string) : St (Result (list string * list string) QuarantineReviewRefusal) :=
  match ps with
  | [] => mret (Ok (expired, invalidated))
  | (pending_id, p) :: rest =>
      let expires_at_ms := u64_saturating_add (as_u64 (promotion_created_at_ms p)) GATED_PROMOTION_EXPIRY_MS in
      if expires_at_ms <=? now then
        _ ← expire_promotion_in_tx pending_id p now;
        settle_promotions operator_tombstone now rest (expired ++ [pending_id]) invalidated
      else if operator_tombstone then
        _ ← expire_promotion_in_tx pending_id p now;
        settle_promotions operator_tombstone now rest expired (invalidated ++ [pending_id])
      else mret (Err (GatePending pending_id expires_at_ms))
  end.

Definition review_receipt (realm id : string) : St ReviewedRecordReceipt :=
  loaded ← load_record env realm id;
  r ← lift_result (ok_or loaded (Io ("reviewed record '" +:+ id +:+ "' vanished mid-review")));
  mret (mkReceipt (memory_id r) (scope r) (kind r) (status r) (trust r) (ever_quarantined r)
          (content_hash (title r) (body r)) (supersedes r) (derived_from r) (created_at_ms r) (updated_at_ms r)).

Definition stale_update_refusal (realm : string) (origin : MemoryRecord) : St (option QuarantineReviewRefusal) :=
  match supersedes origin with
  | None => mret None
  | Some prior =>
      loaded ← load_record env realm prior;
      mret (match loaded with
            | Some r => if status r =b Active then None else Some (StaleUpdate prior (status_kind_str (status r)))
            | None => Some (StaleUpdate prior "missing")
            end)
  end.

(** The committed review among the audit rows of the origin's tombstones, newest
    first.  The successor of a release must still be exactly that release. *)
Definition inconsistent (origin what : string) : AgentMemoryError :=
  Io ("quarantine review evidence for '" +:+ origin +:+ "' is inconsistent: " +:+ what).

Definition check_recorded_release (realm token : string) (origin : MemoryRecord) (review : ReviewAudit) : St unit :=
  let bad := inconsistent (memory_id origin) in
  successor_id ← lift_result (ok_or (audit_successor review) (bad "a release without a successor"));
  _ ← sql env;
  created ← table (λ d, find_first (λ a, (audit_stage_token a =b token) && (audit_op_index a =? 0)) (audit d));
  _ ← throw_if (negb (is_some_and created (λ a, (audit_memory_id a =b Some successor_id) &&
        ((audit_op_kind a =b "create") || (audit_op_kind a =b "supersede")))))
        (bad "the successor was not written by the review");
  loaded ← load_record env realm successor_id;
  successor ← lift_result (ok_or loaded (bad "the successor row is missing"));
  throw_if (negb (scope successor =b scope origin) || negb (derived_from successor =b [memory_id origin]) ||
            negb (content_hash (title successor) (body successor) =b content_hash (title origin) (body origin)))
    (bad "the successor is not the origin's release").

Fixpoint find_review (realm : string) (origin : MemoryRecord) (rows : list AuditRow) : St (option ReviewDecision) :=
  match rows with
  | [] => mret None
  | a :: rest =>
      _ ← sql env;
      match detail_review (audit_detail a) with
      | None => find_review realm origin rest
      | Some review =>
          if negb (audit_origin review =b memory_id origin) then find_review realm origin rest
          else
            _ ← (if audit_verdict review =b DecideRelease then check_recorded_release realm (audit_stage_token a) origin review
                 else mret tt);
            mret (Some (mkDecision (audit_stage_token a) (as_u64 (audit_applied_at_ms a)) review))
      end
  end.
Definition recorded_review (realm : string) (origin : MemoryRecord) : St (option ReviewDecision) :=
  _ ← sql env;
  rows ← table (λ d, rev (List.filter (λ a, (audit_memory_id a =b Some (memory_id origin)) && (audit_op_kind a =b "tombstone")) (audit d)));
  find_review realm origin rows.

Notation Reviewed := (Result QuarantineReviewOutcome QuarantineReviewRefusal).

Definition review_replay (realm : string) (origin : MemoryRecord) (decision : QuarantineDecision) : St Reviewed :=
  recorded ← recorded_review realm origin;
  match recorded with
  | None => mret (Err (NotQuarantined "tombstoned" None))
  | Some recorded =>
      let review := decided_review recorded in
      match decision, audit_verdict review, audit_successor review with
      | DecideRelease, DecideRelease, Some successor =>
          o ← review_receipt realm (memory_id origin);
          s ← review_receipt realm successor;
          mret (Ok (AlreadyReleased o s recorded))
      | DecideTombstone, DecideTombstone, _ =>
          o ← review_receipt realm (memory_id origin);
          mret (Ok (AlreadyTombstonedByReview o recorded))
      | _, _, released_as => mret (Err (NotQuarantined "tombstoned" released_as))
      end
  end.

(** What a release must pass before it is staged. *)
Definition release_checks (realm : string) (origin : MemoryRecord) : St (option QuarantineReviewRefusal) :=
  match detect_record_secret (title origin) (description origin) (body origin) (tags origin) with
  | Some class => mret (Some (ReviewSecretDetected class))
  | None =>
      stale ← stale_update_refusal realm origin;
      match stale with
      | Some refusal => mret (Some refusal)
      | None =>
          let successor_id := release_successor_id (memory_id origin) in
          taken ← load_record env realm successor_id;
          mret (if is_some taken then Some (SuccessorConflict successor_id) else None)
      end
  end.

Definition review_ops (request : QuarantineReviewRequest) (origin : MemoryRecord) : list StagedOp :=
  let rationale := match review_rationale request with Some r => ": " +:+ r | None => "" end in
  let who := if is_operator_reviewer (review_reviewer request) then "operator " else "" in
  match review_decision request with
  | DecideRelease => quarantine_release_ops origin (who +:+ "quarantine release" +:+ rationale)
                       ("superseded by " +:+ who +:+ "quarantine release")
  | DecideTombstone => [Tombstone (memory_id origin) (Some (who +:+ "quarantine tombstone" +:+ rationale))]
  end.

(** The decision over a record that is quarantined. *)
Definition apply_review (request : QuarantineReviewRequest) (g : option LlmWriteGate) (now : Z) (origin : MemoryRecord)
    (quarantine_reason : string) : St Reviewed :=
  let realm := scope_realm (review_scope request) in
  let successor_id := release_successor_id (memory_id origin) in
  let release := review_decision request =b DecideRelease in
  let operator_tombstone := negb release && is_operator_reviewer (review_reviewer request) in
  ps ← pending_promotions_for (memory_id origin);
  settled ← settle_promotions operator_tombstone now ps [] [];
  match settled with
  | Err refusal => mret (Err refusal)
  | Ok (expired, invalidated) =>
      refused ← (if release then release_checks realm origin else mret None);
      match refused with
      | Some refusal => mret (Err refusal)
      | None =>
          let batch := mkBatch realm (reviewer_author (review_reviewer request)) ReviewVerdict (review_ops request origin) in
          quarantine ← batch_quarantine_reason batch g;
          token ← mint_token env;
          let review := mkReviewAudit (review_decision request) (review_reviewer request) (memory_id origin)
                          (if release then Some successor_id else None) (expected_content_hash request) quarantine_reason
                          expired invalidated (review_rationale request) in
          _ ← apply_batch_in_tx env batch quarantine token now (Some review);
          let decision := mkDecision token now review in
          o ← review_receipt realm (memory_id origin);
          if release then
            s ← review_receipt realm successor_id;
            mret (Ok (Released o s (supersedes origin) decision))
          else mret (Ok (ReviewTombstoned o decision))
      end
  end.

Definition review_in_tx (request : QuarantineReviewRequest) (g : option LlmWriteGate) (now : Z) : St Reviewed :=
  let realm := scope_realm (review_scope request) in
  loaded ← load_record env realm (review_memory_id request);
  match opt_filter (λ r, scope r =b review_scope request) loaded with
  | None => mret (Err ReviewNotFound)
  | Some origin =>
      if negb (content_hash (title origin) (body origin) =b expected_content_hash request) then mret (Err ContentMismatch)
      else match status origin with
           | Quarantined reason => apply_review request g now origin reason
           | Tombstoned => review_replay realm origin (review_decision request)
           | other => mret (Err (NotQuarantined (status_kind_str other) None))
           end
  end.

Definition review_events (request : QuarantineReviewRequest) (decided : Reviewed) : St unit :=
  let realm := scope_realm (review_scope request) in
  match decided with
  | Ok outcome =>
      if outcome_applied outcome
      then emit (QuarantineVerdict realm (reviewed_memory_id (outcome_origin outcome))
                   (decision_as_str (audit_verdict (decided_review (outcome_decision outcome))))
                   (reviewed_memory_id <$> outcome_successor outcome))
      else mret tt
  | Err (ReviewSecretDetected class) =>
      emit (QuarantineReleaseBlocked realm (review_memory_id request) (decision_as_str (review_decision request)) class)
  | Err _ => mret tt
  end.

Definition review_quarantined (request : QuarantineReviewRequest) : St Reviewed :=
  g ← gate env;
  decided ← with_realm_conn env (
    _ ← sql env;
    now ← now_ms env;
    decided ← review_in_tx request g now;
    _ ← (if match decided with Ok outcome => outcome_applied outcome | Err _ => false end then commit env else mret tt);
    mret decided);
  _ ← review_events request decided;
  mret decided.
End calls.
