(* ===== verification/MemoryWalk.v ===== *)
(** * Governed memory: the batch validator

    What a successful check of each operation says, and the walks over provenance. *)

From S2P Require Import Prelude Strings MemoryRecords MemorySecrets MemoryTaint MemoryStaged.
Open Scope Z_scope.

(** ** What the batch validator guarantees

    The specification of a successful check of each operation against what the
    overlay and the stored rows say ([seen]).  Facts that need every read of the
    view to succeed are stated under [reads_work]; the others hold whatever read
    fails.  The walks get enough fuel. *)

Notation Overlay := (gmap string StagedRecordView).

(** The record carries taint itself. *)
Definition view_tainted (r : StagedRecordView) : bool :=
  (view_trust r =b Untrusted) || view_ever_quarantined r || is_quarantined (view_status r).

(** What a batch creates under explicit ids. *)
Definition op_new_id (op : StagedOp) : option string :=
  match op with Create id _ _ _ _ _ _ _ | Supersede id _ _ _ _ _ => id | _ => None end.

Section proofs.
Context `{Sha256}.
Context (view : StagedBatchView).
Implicit Types (overlay : Overlay).

Definition reads_work : Prop := ∀ n, read_fails view n = false.
Definition seen overlay (id : string) : option StagedRecordView := opt_or (overlay !! id) (stored view !! id).

Lemma wp_lookup overlay id (Q : Result (option StagedRecordView) StagedBatchError → nat → Prop) n :
  (∀ o n', (∀ v, o = Some v → seen overlay id = Some v) → (reads_work → o = seen overlay id) → Q (Ok o) n') →
  wp (lookup_record view overlay id) Q n.
Proof.
  intros HQ. unfold lookup_record, seen in *. destruct (overlay !! id) as [v|] eqn:E; simpl in *.
  - apply HQ; [naive_solver|done].
  - unfold wp, record. simpl. apply HQ; destruct (read_fails view n) eqn:Ef; try done.
    intros Hr. by rewrite Hr in Ef.
Qed.

(** ** The taint walk *)

Lemma wp_taint_walk overlay fuel visited stack n :
  wp (taint_walk view fuel overlay visited stack)
    (λ a _, reads_work → a = Ok (Some false) →
       ∀ id v, id ∈ stack → id ∉ visited → seen overlay id = Some v → view_tainted v = false) n.
Proof.
  revert visited stack n. induction fuel as [|fuel IH]; intros visited stack n; cbn [taint_walk]; [by wp_step|].
  destruct stack as [|id stack]; [wp_step; set_solver|]. case_decide as Hin.
  - eapply wp_mono; [apply IH|]. intros a ? Ha Hr Hf id' v [->|Hid]%elem_of_cons Hn; [done|by eapply Ha].
  - wp_step. apply wp_lookup. intros o n' _ Ho. destruct o as [r|].
    + destruct (_ || is_quarantined _) eqn:Et; [wp_step; by intros _ [=]|].
      eapply wp_mono; [apply IH|]. intros a ? Ha Hr Hf id' v Hid Hn Hs. specialize (Ho Hr).
      destruct (decide (id' = id)) as [->|Hne]; [rewrite <- Ho in Hs; by injection Hs as <-|].
      apply (Ha Hr Hf id' v); [|set_solver|done]. apply elem_of_cons in Hid as [->|Hid]; [done|].
      apply elem_of_app. right. destruct (view_supersedes r); [by right|done].
    + eapply wp_mono; [apply IH|]. intros a ? Ha Hr Hf id' v Hid Hn Hs. specialize (Ho Hr).
      destruct (decide (id' = id)) as [->|Hne]; [congruence|].
      apply (Ha Hr Hf id' v); [|set_solver|done]. by apply elem_of_cons in Hid as [->|Hid].
Qed.

Lemma wp_chain overlay start (Q : Result bool StagedBatchError → nat → Prop) n :
  (∀ b n', (b = false → reads_work → ∀ id v, id ∈ start → seen overlay id = Some v → view_tainted v = false) →
           Q (Ok b) n') →
  (∀ e n', Q (Err e) n') →
  wp (chain_reaches_taint view overlay start) Q n.
Proof.
  intros HQ He. unfold chain_reaches_taint. wp_step. eapply wp_mono; [apply wp_taint_walk|].
  intros [[[]|]|e] n' Hw; [..|apply He]; wp_step; apply HQ; simpl; try done.
  intros _ Hr id v Hid. apply (Hw Hr eq_refl); [by apply list_elem_of_In, in_rev; rewrite rev_involutive; apply list_elem_of_In|set_solver].
Qed.

(** ** The other checks *)

Lemma wp_sources op_index overlay sources n :
  wp (check_sources view op_index overlay sources)
    (λ a _, a = Ok tt → ∀ id, id ∈ sources → is_Some (seen overlay id)) n.
Proof.
  revert n. induction sources as [|source sources IH]; intros n; cbn [check_sources]; [wp_step; set_solver|].
  wp_step. apply wp_lookup. intros o n' Ho _. wp_step. wp_step. destruct o as [v|]; simpl; [|done].
  eapply wp_mono; [apply IH|]. intros a ? Ha Hok id [->|Hid]%elem_of_cons; [rewrite (Ho v) by done; eauto|by apply Ha].
Qed.

Lemma wp_free op_index overlay id n :
  wp (check_free view op_index overlay id)
    (λ a _, a = Ok tt → reads_work → ∀ i, id = Some i → seen overlay i = None) n.
Proof.
  unfold check_free. destruct id as [i|]; [|by wp_step]. wp_step. apply wp_lookup. intros o n' _ Ho. wp_step.
  destruct o; simpl; [done|]. intros _ Hr ? [= <-]. by rewrite <- Ho.
Qed.

Lemma wp_live op_index batch overlay id n :
  wp (check_live view op_index batch overlay id)
    (λ a _, ∀ v, a = Ok v → seen overlay id = Some v ∧ view_status v ≠ Tombstoned ∧
       check_scope op_index batch (view_scope v) = Ok tt) n.
Proof.
  unfold check_live. wp_step. apply wp_lookup. intros o n' Ho _. wp_step. wp_step. destruct o as [v|]; simpl; [|done].
  wp_step. wp_step. case_bool_decide as Hst; [done|]. do 2 wp_step. destruct (check_scope _ _ _) as [[]|] eqn:Es; [|done].
  wp_step. intros ? [= <-]. auto.
Qed.

Lemma payload_ok op_index (r : NewMemoryRecord) :
  check_record_payload op_index r = Ok tt →
  validate_record_fields (new_title r) (new_description r) (new_body r) = Ok tt ∧
  detect_record_secret (new_title r) (new_description r) (new_body r) (new_tags r) = None.
Proof.
  unfold check_record_payload. destruct (validate_record_fields _ _ _) as [[]|]; [|done]. simpl.
  by destruct (detect_record_secret _ _ _ _).
Qed.

Lemma scope_ok op_index batch scope :
  check_scope op_index batch scope = Ok tt →
  scope_realm scope = batch_realm batch ∧
  ∀ identity, batch_author batch = AgentAuthor identity → scope = IdentityScope (batch_realm batch) identity.
Proof.
  unfold check_scope. case_bool_decide as Hr; [|done]. simpl. intros Hs. split; [done|]. intros identity Ha. rewrite Ha in Hs.
  destruct scope; simpl in *; try done. case_bool_decide; [|done]. by subst.
Qed.

Lemma tier_ok op_index batch tier is_retier :
  check_tier_assignment op_index batch tier is_retier = Ok tt →
  tier_rank tier ≤ tier_rank AgentVerified ∧
  (tier_gt tier llm_write_ceiling = true → is_llm (batch_author batch) = true → is_retier = true ∧ is_steward (batch_author batch) = true).
Proof.
  unfold check_tier_assignment. destruct (assignable_via_staged_batch tier) eqn:Ea; simpl; [|done].
  intros Ht. split; [destruct tier; simpl in *; (lia || done)|]. intros Hgt Hl. rewrite Hgt, Hl in Ht. simpl in Ht.
  destruct is_retier, (is_steward (batch_author batch)); done.
Qed.

(** ** What a successful check of one operation says *)

Definition writable (batch : StagedMutationBatch) (scope : MemoryScope) : Prop :=
  scope_realm scope = batch_realm batch ∧
  ∀ identity, batch_author batch = AgentAuthor identity → scope = IdentityScope (batch_realm batch) identity.

(** A new record: its payload, scope and tier, its sources, and the taint it inherits. *)
Record new_admitted (batch : StagedMutationBatch) overlay (id : option string) (scope : MemoryScope)
    (n : NewMemoryRecord) (trust : TrustTier) (ancestors : list string) (tainted : bool) : Prop := {
  na_fields : validate_record_fields (new_title n) (new_description n) (new_body n) = Ok tt;
  na_secret : detect_record_secret (new_title n) (new_description n) (new_body n) (new_tags n) = None;
  na_scope : writable batch scope;
  na_tier : tier_rank trust ≤ tier_rank AgentVerified;
  na_ceiling : is_llm (batch_author batch) = true → tier_gt trust llm_write_ceiling = false;
  na_sources : ∀ a, a ∈ ancestors → is_Some (seen overlay a);
  na_free : reads_work → ∀ i, id = Some i → seen overlay i = None;
  na_clean : tier_gt trust llm_write_ceiling = true → tainted = false;
  na_taint : tainted = false → reads_work → ∀ a v, a ∈ ancestors → seen overlay a = Some v → view_tainted v = false;
}.

Definition op_admitted (batch : StagedMutationBatch) overlay (op : StagedOp) overlay' : Prop :=
  match op with
  | Create id scope n trust derived _ _ _ =>
      ∃ tainted, new_admitted batch overlay id scope n trust derived tainted ∧
        overlay' = overlay_new overlay id (mkView scope trust Active None derived
          (content_hash (new_title n) (new_body n)) (is_some (new_verification n)) tainted)
  | Supersede id prior n trust derived _ =>
      ∃ tainted v, seen overlay prior = Some v ∧ view_status v = Active ∧
        new_admitted batch overlay id (view_scope v) n trust (prior :: derived) tainted ∧
        overlay' = overlay_new
          (<[prior := with_status v (Superseded (unwrap_or id "<pending>")) (view_ever_quarantined v)]> overlay) id
          (mkView (view_scope v) trust Active (Some prior) derived
             (content_hash (new_title n) (new_body n)) (is_some (new_verification n)) tainted)
  | Tombstone id _ =>
      ∃ v, seen overlay id = Some v ∧ view_status v ≠ Tombstoned ∧ writable batch (view_scope v) ∧
        overlay' = <[id := with_status v Tombstoned (view_ever_quarantined v || is_quarantined (view_status v))]> overlay
  | Retier id trust _ =>
      ∃ v, seen overlay id = Some v ∧ view_status v ≠ Tombstoned ∧ writable batch (view_scope v) ∧
        tier_rank trust ≤ tier_rank AgentVerified ∧
        (trust = AgentVerified → is_steward (batch_author batch) = true ∧ view_has_verification v = true) ∧
        (tier_gt trust llm_write_ceiling = true → reads_work → view_tainted v = false) ∧
        overlay' = <[id := with_trust v trust]> overlay
  | SetRank id _ =>
      ∃ v, seen overlay id = Some v ∧ view_status v ≠ Tombstoned ∧ writable batch (view_scope v) ∧ overlay' = overlay
  end.

(** A bind whose continuation matters only on success. *)
Lemma wp_and {S E A B} (m : M S E A) (f : A → M S E B) (P : A → Prop) (Q : Result B E → S → Prop) s :
  wp m (λ a _, ∀ x, a = Ok x → P x) s → (∀ e s', Q (Err e) s') → (∀ x s', P x → wp (f x) Q s') → wp (m ≫= f) Q s.
Proof. intros Hm He Hf. wp_step. eapply wp_mono; [exact Hm|]. intros [x|e] s' Hx; [by apply Hf, Hx|apply He]. Qed.

Lemma wp_unit {S E B} (m : M S E unit) (f : unit → M S E B) (P : Prop) (Q : Result B E → S → Prop) s :
  wp m (λ a _, a = Ok tt → P) s → (∀ e s', Q (Err e) s') → (∀ s', P → wp (f tt) Q s') → wp (m ≫= f) Q s.
Proof. intros Hm He Hf. eapply (wp_and _ _ (λ _, P)); [eapply wp_mono; [exact Hm|]; by intros ? ? Ha []|done|by intros [] s' HP; apply Hf]. Qed.

Lemma wp_lift_unit {S E B} (r : Result unit E) (f : unit → M S E B) (Q : Result B E → S → Prop) s :
  (∀ e s', Q (Err e) s') → (∀ s', r = Ok tt → wp (f tt) Q s') → wp (lift_result r ≫= f) Q s.
Proof. intros He Hf. eapply (wp_unit _ _ (r = Ok tt)); [by wp_step|done|done]. Qed.

Lemma wp_guard {S E B} (b : bool) (e : E) (f : unit → M S E B) (Q : Result B E → S → Prop) s :
  (∀ e s', Q (Err e) s') → (∀ s', b = false → wp (f tt) Q s') → wp (throw_if b e ≫= f) Q s.
Proof. intros He Hf. eapply (wp_unit _ _ (b = false)); [by destruct b|done|done]. Qed.

Section op.
Context (batch : StagedMutationBatch) (window_ms now_ms : Z).

Lemma wp_recreation author tombs scope hash (Q : Result bool StagedBatchError → nat → Prop) n :
  (∀ b n', Q (Ok b) n') → wp (is_tombstone_recreation view author tombs scope hash window_ms now_ms) Q n.
Proof.
  intros HQ. unfold is_tombstone_recreation. destruct (is_llm author); simpl; [|wp_step; apply HQ].
  case_decide; [wp_step; apply HQ|]. wp_step. unfold wp, tombstoned_at_ms. simpl. apply HQ.
Qed.

Notation checked eff op := (λ a (_ : nat), ∀ eff', a = Ok eff' → op_admitted batch eff.1 op eff'.1).

Lemma wp_create op_index eff id scope r trust derived rationale created updated n :
  wp (check_create view batch window_ms now_ms op_index eff id scope r trust derived)
    (checked eff (Create id scope r trust derived rationale created updated)) n.
Proof.
  unfold check_create. apply wp_lift_unit; [done|]. intros ? [Hf Hsec]%payload_ok.
  apply wp_lift_unit; [done|]. intros ? Hsc%scope_ok. apply wp_lift_unit; [done|]. intros ? [Ht Hc]%tier_ok.
  eapply wp_unit; [apply wp_free|done|]. intros ? Hfree. eapply wp_unit; [apply wp_sources|done|]. intros ? Hsrc.
  wp_step. apply wp_chain; [|done]. intros tainted n' Htaint. apply wp_guard; [done|]. intros ? Hg.
  wp_step. apply wp_recreation. intros b ?. apply wp_guard; [done|]. intros ? ->. wp_step.
  intros eff' [= <-]. exists tainted. split; [|done]. split; try done.
  - intros Hl. destruct (tier_gt trust llm_write_ceiling); [|done]. by destruct (Hc eq_refl Hl).
  - intros Hgt. rewrite Hgt, andb_true_r in Hg. done.
Qed.

Lemma wp_supersede op_index eff id prior r trust derived rationale n :
  wp (check_supersede view batch window_ms now_ms op_index eff id prior r trust derived)
    (checked eff (Supersede id prior r trust derived rationale)) n.
Proof.
  unfold check_supersede. apply wp_lift_unit; [done|]. intros ? [Hf Hsec]%payload_ok.
  apply wp_lift_unit; [done|]. intros ? [Ht Hc]%tier_ok.
  wp_step. apply wp_lookup. intros o n' Ho _. wp_step. wp_step. destruct o as [v|]; simpl; [|done].
  specialize (Ho v eq_refl). apply wp_guard; [done|]. intros ? Hact. apply negb_false_iff, bool_decide_eq_true in Hact.
  apply wp_lift_unit; [done|]. intros ? Hsc%scope_ok.
  eapply wp_unit; [apply wp_free|done|]. intros ? Hfree. eapply wp_unit; [apply wp_sources|done|]. intros ? Hsrc.
  eapply (wp_unit _ _ True); [done|done|]. intros ? _.
  wp_step. apply wp_chain; [|done]. intros tainted ? Htaint. apply wp_guard; [done|]. intros ? Hg.
  wp_step. apply wp_recreation. intros b ?. apply wp_guard; [done|]. intros ? ->. wp_step.
  intros eff' [= <-]. exists tainted, v. split_and!; try done. split; try done.
  - intros Hl. destruct (tier_gt trust llm_write_ceiling); [|done]. by destruct (Hc eq_refl Hl).
  - intros a [->|Ha]%elem_of_cons; [eauto|by apply Hsrc].
  - intros Hgt. rewrite Hgt, andb_true_r in Hg. done.
Qed.

Lemma wp_retier op_index eff id trust rationale n :
  wp (check_retier view batch op_index eff id trust) (checked eff (Retier id trust rationale)) n.
Proof.
  unfold check_retier. apply wp_lift_unit; [done|]. intros ? [Ht _]%tier_ok.
  eapply wp_and; [apply wp_live|done|]. intros v ? (Hs & Hst & Hsc%scope_ok). apply wp_guard; [done|]. intros ? Hg.
  eapply (wp_unit _ _ (tier_gt trust llm_write_ceiling = true → reads_work → view_tainted v = false)); [|done|].
  - destruct (tier_gt trust llm_write_ceiling); [|wp_step; by intros _ [=]]. wp_step. apply wp_chain; [|done].
    intros b n' Hb. wp_step. destruct b; [done|]. intros _ _ Hr. by eapply (Hb eq_refl Hr id); [set_solver|].
  - intros ? Hclean. wp_step. intros eff' [= <-]. exists v. split_and!; try done; apply Hsc || idtac.
    + intros ->. rewrite bool_decide_eq_true_2 in Hg by done. simpl in Hg.
      apply orb_false_elim in Hg as [H1%negb_false_iff H2%negb_false_iff]. done.
Qed.

Lemma wp_check_op op_index op eff n :
  wp (check_op view batch window_ms now_ms op_index op eff) (checked eff op) n.
Proof.
  destruct op as [id scope r trust derived ra c u|id prior r trust derived ra|id ra|id trust ra|id rank]; simpl check_op.
  - apply wp_create.
  - apply wp_supersede.
  - unfold check_tombstone. eapply wp_and; [apply wp_live|done|]. intros v ? (Hs & Hst & Hsc%scope_ok). wp_step.
    intros eff' [= <-]. by exists v.
  - apply wp_retier.
  - eapply wp_and; [apply wp_live|done|]. intros v ? (Hs & Hst & Hsc%scope_ok). wp_step. intros eff' [= <-]. by exists v.
Qed.

(** The operations were admitted one after the other. *)
Fixpoint ops_admitted (ops : list StagedOp) overlay : Prop :=
  match ops with
  | [] => True
  | op :: rest => ∃ overlay', op_admitted batch overlay op overlay' ∧ ops_admitted rest overlay'
  end.

Lemma wp_check_ops op_index ops eff n :
  wp (check_ops view batch window_ms now_ms op_index ops eff) (λ a _, a = Ok tt → ops_admitted ops eff.1) n.
Proof.
  revert op_index eff n. induction ops as [|op ops IH]; intros op_index eff n; cbn [check_ops]; [by wp_step|].
  eapply wp_and; [apply wp_check_op|done|]. intros eff' s' Hop. eapply wp_mono; [apply IH|].
  intros a ? Ha Hok. exists eff'.1. auto.
Qed.

Lemma validate_admitted n n' :
  validate_batch view batch window_ms now_ms n = (Ok tt, n') →
  batch_ops batch ≠ [] ∧ (length (batch_ops batch) ≤ MAX_BATCH_OPS)%nat ∧ ops_admitted (batch_ops batch) ∅.
Proof.
  intros Hrun. assert (wp (validate_batch view batch window_ms now_ms)
    (λ a _, a = Ok tt → batch_ops batch ≠ [] ∧ (length (batch_ops batch) ≤ MAX_BATCH_OPS)%nat ∧ ops_admitted (batch_ops batch) ∅) n) as Hw.
  { unfold validate_batch. apply wp_guard; [done|]. intros ? He. apply wp_guard; [done|]. intros ? Hlen.
    eapply wp_mono; [apply wp_check_ops|]. intros a ? Ha Hok. split_and!; [by destruct (batch_ops batch)|by apply Nat.ltb_ge|auto]. }
  unfold wp in Hw. rewrite Hrun in Hw. auto.
Qed.
End op.
End proofs.

(** ** The provenance walks

    The walk of the validator over supersede and derivation edges is reachability
    in the provenance graph, and its fuel is enough: the loop ends. *)

(** The records a record comes from. *)
Definition sources_of (r : StagedRecordView) : list string :=
  view_derived_from r ++ match view_supersedes r with Some prior => [prior] | None => [] end.

(** ** Counting edges *)

Lemma sum_edges_delete id r (m : Overlay) : m !! id = Some r → sum_edges m = (edges_of r + sum_edges (delete id m))%nat.
Proof. intros Hm. unfold sum_edges. rewrite (map_fold_delete_L _ _ id r m); [done| |done]. intros; lia. Qed.

Definition unvisited (visited : gset string) (m : Overlay) : Overlay := filter (λ kv, kv.1 ∉ visited) m.

Lemma unvisited_step id visited (m : Overlay) : unvisited ({[id]} ∪ visited) m = delete id (unvisited visited m).
Proof.
  apply map_eq. intros i. unfold unvisited. apply option_eq. intros r.
  rewrite lookup_delete_Some, !map_lookup_filter_Some. simpl. set_solver.
Qed.

Lemma unvisited_sum_step id visited (m : Overlay) :
  id ∉ visited →
  sum_edges (unvisited visited m) =
  (match m !! id with Some r => edges_of r | None => 0%nat end + sum_edges (unvisited ({[id]} ∪ visited) m))%nat.
Proof.
  intros Hid. rewrite unvisited_step. destruct (m !! id) as [r|] eqn:E.
  - apply sum_edges_delete. by apply map_lookup_filter_Some.
  - rewrite delete_id; [done|]. apply map_lookup_filter_None. by left.
Qed.

Lemma unvisited_empty (m : Overlay) : unvisited ∅ m = m.
Proof. apply map_filter_id. intros i x _. simpl. set_solver. Qed.

Section walk.
Context (view : StagedBatchView).
Implicit Types (overlay : Overlay) (visited : gset string) (stack : list string).

(** Work left: the stack and the edges of what was not visited. *)
Definition work overlay visited stack : nat :=
  (length stack + sum_edges (unvisited visited overlay) + sum_edges (unvisited visited (stored view)))%nat.

Lemma work_step overlay visited id stack o :
  id ∉ visited → (∀ r, o = Some r → seen view overlay id = Some r) →
  let pushed := match o with Some r => rev (view_derived_from r) ++ match view_supersedes r with Some p => p :: stack | None => stack end
                            | None => stack end in
  (work overlay ({[id]} ∪ visited) pushed < work overlay visited (id :: stack))%nat.
Proof.
  intros Hid Ho pushed. unfold work.
  pose proof (unvisited_sum_step id visited overlay Hid) as H1.
  pose proof (unvisited_sum_step id visited (stored view) Hid) as H2.
  destruct o as [r|].
  - specialize (Ho r eq_refl). unfold seen in Ho.
    assert (length pushed ≤ edges_of r + length stack)%nat as Hp.
    { subst pushed. rewrite length_app, length_rev. unfold edges_of. destruct (view_supersedes r); simpl; lia. }
    simpl length. destruct (overlay !! id) as [r'|]; simpl in Ho; [injection Ho as ->; lia|]. rewrite Ho in H2. lia.
  - subst pushed. simpl length. lia.
Qed.

(** With fuel for the work left the walk answers. *)
Lemma taint_walk_answers overlay fuel visited stack n :
  (work overlay visited stack < fuel)%nat →
  wp (taint_walk view fuel overlay visited stack) (λ a _, ∃ b, a = Ok (Some b)) n.
Proof.
  revert visited stack n. induction fuel as [|fuel IH]; intros visited stack n Hf; [lia|]. cbn [taint_walk].
  destruct stack as [|id stack]; [wp_step; eauto|]. case_decide as Hin.
  - apply IH. unfold work in *. simpl in Hf. lia.
  - wp_step. apply wp_lookup. intros o n' Ho _.
    pose proof (work_step overlay visited id stack o Hin Ho) as Hw. cbv zeta in Hw.
    destruct o as [r|]; [destruct (_ || is_quarantined _); [wp_step; eauto|]|]; apply IH; lia.
Qed.

(** ** Reachability *)

Inductive reaches overlay : string → string → Prop :=
| reaches_refl id : reaches overlay id id
| reaches_step id r a b : seen view overlay id = Some r → a ∈ sources_of r → reaches overlay a b → reaches overlay id b.

Definition tainted_at overlay (id : string) : Prop := ∃ r, seen view overlay id = Some r ∧ view_tainted r = true.

(** Visited records are clean and their sources are visited or due. *)
Definition explored overlay visited stack : Prop :=
  ∀ id r, id ∈ visited → seen view overlay id = Some r →
    view_tainted r = false ∧ ∀ a, a ∈ sources_of r → a ∈ visited ∨ a ∈ stack.

Lemma explored_step overlay visited stack id o pushed :
  explored overlay visited (id :: stack) → o = seen view overlay id → (∀ r, o = Some r → view_tainted r = false) →
  (∀ a, a ∈ stack → a ∈ pushed) → (∀ r a, o = Some r → a ∈ sources_of r → a ∈ pushed) →
  explored overlay ({[id]} ∪ visited) pushed.
Proof.
  intros He Ho Hc Hs Hp id' r [->%elem_of_singleton|Hv]%elem_of_union Hr.
  - subst o. split; [by apply Hc|]. intros a Ha. right. by eapply Hp.
  - destruct (He id' r Hv Hr) as [Hcl Hsrc]. split; [done|]. intros a Ha. destruct (Hsrc a Ha) as [?|[->|?]%elem_of_cons]; set_solver.
Qed.

Lemma taint_walk_exact overlay fuel visited stack n :
  reads_work view →
  wp (taint_walk view fuel overlay visited stack)
    (λ a _, match a with
            | Ok (Some true) => ∃ start id, start ∈ stack ∧ reaches overlay start id ∧ tainted_at overlay id
            | Ok (Some false) => explored overlay visited stack →
                ∃ F : gset string, (∀ id, id ∈ visited ∨ id ∈ stack → id ∈ F) ∧ explored overlay F []
            | _ => True
            end) n.
Proof.
  intros Hr. revert visited stack n. induction fuel as [|fuel IH]; intros visited stack n; cbn [taint_walk]; [by wp_step|].
  destruct stack as [|id stack].
  { wp_step. intros He. exists visited. split; [set_solver|]. intros i r Hi Hs. destruct (He i r Hi Hs) as [? Hsrc]. naive_solver. }
  case_decide as Hin.
  { eapply wp_mono; [apply IH|]. intros [[[]|]|] s' Ha; try done.
    - destruct Ha as (start & i & ? & ?). exists start, i. split; [by right|done].
    - intros He. destruct Ha as (F & HF & HE); [|exists F; split; [|done]].
      + intros i r Hi Hs. destruct (He i r Hi Hs) as [? Hsrc]. split; [done|]. intros a Ha. destruct (Hsrc a Ha) as [?|[->|?]%elem_of_cons]; auto.
      + intros i [?|[->|?]%elem_of_cons]; auto. }
  wp_step. apply wp_lookup. intros o n' _ Ho. specialize (Ho Hr). destruct o as [r|].
  - destruct (_ || is_quarantined _) eqn:Et.
    { wp_step. exists id, id. split_and!; [by left|constructor|]. exists r. done. }
    set (pushed := rev _ ++ _).
    assert (∀ a, a ∈ stack → a ∈ pushed) as Hst.
    { intros a Ha. subst pushed. apply elem_of_app. right. destruct (view_supersedes r); [by right|done]. }
    assert (∀ a, a ∈ sources_of r ↔ a ∈ pushed ∧ (a ∈ view_derived_from r ∨ view_supersedes r = Some a)) as Hsrc.
    { intros a. subst pushed. unfold sources_of. rewrite !elem_of_app, !list_elem_of_In, <- in_rev.
      destruct (view_supersedes r) as [p|]; rewrite <- ?list_elem_of_In; set_unfold; naive_solver. }
    eapply wp_mono; [apply IH|]. intros [[[]|]|] s' Ha; try done.
    + destruct Ha as (start & i & Hst' & Hre & Hta).
      destruct (decide (start ∈ stack)) as [Hs|Hs]; [exists start, i; split; [by right|done]|].
      exists id, i. split_and!; [by left| |done]. eapply reaches_step; [by symmetry|apply Hsrc; split; [done|]|done].
      subst pushed. apply elem_of_app in Hst' as [Hd|Hd].
      * left. by apply list_elem_of_In, in_rev, list_elem_of_In.
      * destruct (view_supersedes r) as [p|]; [|done]. apply elem_of_cons in Hd as [->|?]; [by right|done].
    + intros He. destruct Ha as (F & HF & HE).
      * eapply (explored_step overlay visited stack id (Some r)); [done|done|by intros ? [= <-]|done|].
        intros ? a [= <-] Hsa. by apply Hsrc in Hsa as [? _].
      * exists F. split; [|done]. intros i [?|[->|?]%elem_of_cons]; apply HF; set_solver.
  - eapply wp_mono; [apply IH|]. intros [[[]|]|] s' Ha; try done.
    + destruct Ha as (start & i & ? & ?). exists start, i. split; [by right|done].
    + intros He. destruct Ha as (F & HF & HE).
      * eapply (explored_step overlay visited stack id None); [done|done|by intros ? [=]|done|by intros ? ? [=]].
      * exists F. split; [|done]. intros i [?|[->|?]%elem_of_cons]; apply HF; set_solver.
Qed.

Lemma explored_reaches overlay (F : gset string) a b :
  explored overlay F [] → a ∈ F → reaches overlay a b → b ∈ F.
Proof.
  intros HE Ha Hr. induction Hr as [|id r x y Hs Hx _ IH]; [done|]. apply IH.
  destruct (HE id r Ha Hs) as [_ Hsrc]. destruct (Hsrc x Hx); [done|set_solver].
Qed.

(** C33: the taint ceiling's walk is reachability.  When the view's reads succeed,
    the loop over the stack ends, and it answers exactly whether some record that
    can be reached from the start along supersede and derivation edges, through the
    batch's own effects first and the stored rows else, is untrusted, quarantined or
    was ever quarantined; cycles and shared ancestors included. *)
Theorem taint_walk_is_reachability overlay start n :
  reads_work view →
  ∃ b, (chain_reaches_taint view overlay start n).1 = Ok b ∧
    (b = true ↔ ∃ a id, a ∈ start ∧ reaches overlay a id ∧ tainted_at overlay id).
Proof.
  intros Hr. unfold chain_reaches_taint. set (fuel := S _).
  pose proof (taint_walk_answers overlay fuel ∅ (rev start) n) as Ha.
  pose proof (taint_walk_exact overlay fuel ∅ (rev start) n Hr) as He. unfold wp in Ha, He. unfold mbind, m_bind.
  destruct (taint_walk view fuel overlay ∅ (rev start) n) as [a n']. simpl in Ha, He. destruct Ha as [b ->].
  { unfold work. subst fuel. rewrite !unvisited_empty, length_rev. lia. }
  simpl. exists b. split; [done|].
  assert (∀ x, x ∈ rev start ↔ x ∈ start) as Hrev by (intros x; by rewrite !list_elem_of_In, <- in_rev).
  destruct b.
  - destruct He as (x & id & Hx & Hre & Ht). split; [|done]. intros _. exists x, id. by rewrite <- Hrev.
  - split; [done|]. intros (x & id & Hx & Hre & r & Hs & Ht). exfalso.
    destruct He as (F & HF & HE); [intros ? ? []%elem_of_empty|].
    destruct (HE id r) as [Hc _]; [|done|congruence]. eapply explored_reaches; [done| |done]. apply HF. right. by apply Hrev.
Qed.
End walk.

Module WalkExamples.

Definition clean (supersedes : option string) (derived : list string) (ever : bool) : StagedRecordView :=
  mkView (RealmScope "r") AgentObserved Active supersedes derived "h" false ever.
(** A merge of two records, one of which descends from a quarantined one, and a cycle. *)
Definition graph : StagedBatchView :=
  mkBatchView (list_to_map [("a", clean (Some "b") [] false); ("b", clean None ["c"] false); ("c", clean None ["b"] true);
                            ("d", clean None ["e"] false); ("e", clean (Some "d") [] false)]) (λ _ _, None) (λ _, false).

Lemma taint_walk_is_reachability_witness :
  (∃ b, (chain_reaches_taint graph ∅ ["d"; "a"] 0%nat).1 = Ok b ∧
     (b = true ↔ ∃ a id, a ∈ ["d"; "a"] ∧ reaches graph ∅ a id ∧ tainted_at graph ∅ id)) ∧
  (chain_reaches_taint graph ∅ ["d"; "a"] 0%nat).1 = Ok true ∧ (chain_reaches_taint graph ∅ ["d"] 0%nat).1 = Ok false.
Proof. split; [apply (taint_walk_is_reachability graph ∅ ["d"; "a"] 0%nat); intros n; reflexivity|split; reflexivity]. Defined.
End WalkExamples.
