(* ===== verification/MemoryStoreInvariants.v ===== *)
(** * Governed memory: committed batches

    Which rows a batch writes, how each row may change, and the provenance invariant
    that every committed batch preserves. *)

From S2P Require Import Prelude Strings SqlWorld MemoryRecords MemorySecrets MemoryTaint MemoryStaged MemoryStore MemoryWalk.
Open Scope Z_scope.

(** ** What a committed batch does to the rows

    [op_applied] says which rows one operation writes, [ops_run] pairs it with the
    validator's admission of the operation, in order, and [Sim] relates the overlay
    the validator keeps to the rows as they are written.  The effects of a whole
    batch on the records, used by all theorems about the store, follow by induction
    on [ops_run]. *)

Notation Rows := (gmap string RecordRow).

Definition ancestors_of (derived : list string) (prior : option string) : list string :=
  derived ++ match prior with Some p => [p] | None => [] end.

(** Some of the named rows was quarantined, or is. *)
Definition quarantine_in (rows : Rows) (ancestors : list string) : bool :=
  existsb (λ id, is_some_and (rows !! id) (λ row, row_ever_quarantined row || (row_status_kind row =b "quarantined"))) ancestors.

(** A bind of which only the successful results matter. *)
Lemma wp_then {S E A B} (m : M S E A) (f : A → M S E B) (P : A → S → Prop) (Q : Result B E → S → Prop) s :
  wp m (λ a s', ∀ x, a = Ok x → P x s') s → (∀ e s', Q (Err e) s') → (∀ x s', P x s' → wp (f x) Q s') → wp (m ≫= f) Q s.
Proof. intros Hm He Hf. wp_step. eapply wp_mono; [exact Hm|]. intros [x|e] s' Hx; [by apply Hf, Hx|apply He]. Qed.

Section rows.
Context `{Sha256}.
Context (env : MemoryEnv).
Implicit Types (rows : Rows) (w : World Db Sink).

(** The row [r] is the new record. *)
Record new_row_of (scope : MemoryScope) (r : NewMemoryRecord) (trust : TrustTier) (author : MemoryAuthor)
    (derived : list string) (prior : option string) (quarantine : option string) (rows : Rows) (row : RecordRow) : Prop := {
  nr_scope_kind : row_scope_kind row = scope_kind_str scope;
  nr_scope_key : row_scope_key row = scope_key scope;
  nr_title : row_title row = new_title r;
  nr_description : row_description row = new_description r;
  nr_body : row_body row = new_body r;
  nr_provenance : row_provenance row = Some (mkProvenance (new_evidence r) author None (new_verification r));
  nr_trust : row_trust row = tier_as_str trust;
  nr_status : row_status_kind row = if is_some quarantine then "quarantined" else "active";
  nr_supersedes : row_supersedes row = prior;
  nr_derived : row_derived_from row = Some derived;
  nr_hash : row_content_hash row = content_hash (new_title r) (new_body r);
  nr_ever : row_ever_quarantined row = is_some quarantine || quarantine_in rows (ancestors_of derived prior);
  nr_rowid : row_rowid row = Z.of_nat (size rows) + 1;
}.

(** The rows [op] writes; [mid] is the id it reports. *)
Definition op_applied (batch : StagedMutationBatch) (quarantine : option string) (now : Z) (op : StagedOp) (mid : string)
    rows rows' : Prop :=
  match op with
  | Create id scope r trust derived _ _ _ =>
      (∀ i, id = Some i → mid = i) ∧ rows !! mid = None ∧
      ∃ row, new_row_of scope r trust (batch_author batch) derived None quarantine rows row ∧ rows' = <[mid := row]> rows
  | Supersede id prior r trust derived _ =>
      (∀ i, id = Some i → mid = i) ∧ rows !! mid = None ∧
      ∃ prior_row scope row, rows !! prior = Some prior_row ∧
        scope_from_parts (row_scope_kind prior_row) (row_scope_key prior_row) (batch_realm batch) = Ok scope ∧
        new_row_of scope r trust (batch_author batch) derived (Some prior) quarantine rows row ∧
        rows' = <[mid := row]> (if quarantine then rows
          else <[prior := row_with_status "superseded" (Some mid) (row_tombstoned_at_ms prior_row) now prior_row]> rows)
  | Tombstone id _ => mid = id ∧ rows' = alter (row_with_status "tombstoned" None (Some (as_i64 now)) now) id rows
  | Retier id trust _ => mid = id ∧ rows' = alter (row_with_trust trust now) id rows
  | SetRank id rank => mid = id ∧ rows' = alter (row_with_rank rank now) id rows
  end.

(** Only the working records moved. *)
Definition wrote_records w w' : Prop :=
  committed w' = committed w ∧ volatile w' = volatile w ∧ proposals (working w') = proposals (working w) ∧
  audit (working w') = audit (working w) ∧ stage (working w') = stage (working w) ∧
  pending_promotions (working w') = pending_promotions (working w).

Lemma wrote_tick w w' : wrote_records w w' → wrote_records w (tick w').
Proof. done. Qed.

Ltac sql := wp_step; unfold sql; apply wp_statement; [done|].

Lemma wp_insert_record id scope r trust author derived prior rank quarantine created updated w :
  wp (insert_record env id scope r trust author derived prior rank quarantine created updated)
    (λ a w', a = Ok tt → wrote_records w w' ∧ records (working w) !! id = None ∧
       ∃ row, new_row_of scope r trust author derived prior quarantine (records (working w)) row ∧
         records (working w') = <[id := row]> (records (working w))) w.
Proof.
  unfold insert_record. wp_step. wp_step. destruct (normalize_tags _) as [tags|]; [|done].
  wp_step. eapply (wp_mono _ (λ a w', ∀ ever, a = Ok ever → wrote_records w w' ∧ records (working w') = records (working w) ∧
     ever = is_some quarantine || quarantine_in (records (working w)) (ancestors_of derived prior))).
  - destruct quarantine; simpl; [wp_step; by intros ? [= <-]|]. unfold ancestors_reach_quarantine.
    fold (ancestors_of derived prior). destruct (ancestors_of derived prior) as [|x xs] eqn:Ea; simpl is_empty; cbn iota.
    + wp_step. by intros ? [= <-].
    + sql. unfold table. wp_step. by intros ? [= <-].
  - intros [ever|] w1 Hev; [|done]. destruct (Hev ever eq_refl) as (Hw & Hrec & ->). clear Hev. sql.
    wp_step. unfold table. wp_step. wp_step. wp_step. simpl.
    destruct (records (working w1) !! id) eqn:Eid; simpl; [done|]. unfold update. wp_step. intros _. simpl.
    rewrite Hrec in Eid. split_and!; [done..|]. unfold fresh_rowid; rewrite Hrec. eexists. split; [|done]. by split.
Qed.

Lemma wp_update_row id f w :
  wp (update_row env id f) (λ a w', a = Ok tt → wrote_records w w' ∧ records (working w') = alter f id (records (working w))) w.
Proof. unfold update_row. sql. unfold update. wp_step. done. Qed.

Lemma wp_id_or_new id w :
  wp (id_or_new env id) (λ a w', ∀ mid, a = Ok mid → (∀ i, id = Some i → mid = i) ∧ wrote_records w w' ∧ working w' = working w) w.
Proof.
  unfold id_or_new, new_memory_id. destruct id; [wp_step; intros ? [= <-]; split_and!; [by intros ? [= ->]|done..]|].
  apply wp_observe. by intros ? [= <-].
Qed.

Lemma wrote_trans w1 w2 w3 : wrote_records w1 w2 → wrote_records w2 w3 → wrote_records w1 w3.
Proof. unfold wrote_records. intuition congruence. Qed.

Lemma wp_apply_op batch op quarantine now w :
  wp (apply_op env batch op quarantine now)
    (λ a w', ∀ mid, a = Ok mid → wrote_records w w' ∧
       op_applied batch quarantine now op mid (records (working w)) (records (working w'))) w.
Proof.
  destruct op as [id scope r trust derived ra c u|id prior r trust derived ra|id ra|id trust ra|id rank]; simpl.
  - eapply wp_then; [apply wp_id_or_new|done|]. intros mid w1 (Hid & Hw & He).
    wp_step. eapply wp_mono; [apply wp_insert_record|]. intros [[]|] w2 Hi; [|done].
    destruct Hi as (Hw2 & Hn & row & Hr & Hrec); [done|]. wp_step. intros ? [= <-]. rewrite He in *.
    split; [by eapply wrote_trans|]. eauto.
  - unfold apply_supersede. sql. wp_step. unfold table. wp_step. wp_step. wp_step. simpl.
    destruct (records (working w) !! prior) as [prior_row|] eqn:Ep; simpl; [|done].
    wp_step. wp_step. destruct (scope_from_parts _ _ _) as [scope|] eqn:Es; [|done].
    eapply wp_then; [apply wp_id_or_new|done|]. intros mid w1 (Hid & Hw & He).
    wp_step. eapply wp_mono; [apply wp_insert_record|]. intros [[]|] w2 Hi; [|done].
    destruct Hi as (Hw2 & Hn & row & Hr & Hrec); [done|]. rewrite He in *. simpl in *.
    destruct quarantine as [reason|]; simpl.
    + wp_step. wp_step. wp_step. intros ? [= <-]. split; [by do 2 (eapply wrote_trans; [|done])|]. split_and!; [done..|]. naive_solver.
    + wp_step. eapply wp_mono; [apply wp_update_row|]. intros [[]|] w3 Hu; [|done]. destruct Hu as [Hw3 Hrec3]; [done|].
      wp_step. intros ? [= <-]. split; [by do 3 (eapply wrote_trans; [|done])|]. split_and!; [done..|].
      exists prior_row, scope, row. split_and!; try done. rewrite Hrec3, Hrec.
      assert (prior ≠ mid) by congruence. apply map_eq. intros i.
      destruct (decide (i = prior)) as [->|Hi]; [rewrite lookup_alter, lookup_insert_ne, Ep, lookup_insert_ne, lookup_insert by done; by simplify_map_eq|].
      rewrite lookup_alter_ne by done. destruct (decide (i = mid)) as [->|]; by simplify_map_eq.
  - wp_step. eapply wp_mono; [apply wp_update_row|]. intros [[]|] w3 Hu; [|done]. destruct Hu as [Hw3 Hrec3]; [done|].
    wp_step. by intros ? [= <-].
  - wp_step. eapply wp_mono; [apply wp_update_row|]. intros [[]|] w3 Hu; [|done]. destruct Hu as [Hw3 Hrec3]; [done|].
    wp_step. by intros ? [= <-].
  - wp_step. eapply wp_mono; [apply wp_update_row|]. intros [[]|] w3 Hu; [|done]. destruct Hu as [Hw3 Hrec3]; [done|].
    wp_step. by intros ? [= <-].
Qed.

(** ** A batch

    The validator ran over the rows [rows0] the batch starts from. *)

Definition view_of (realm : string) rows (fails : nat → bool) (tombs : MemoryScope → string → option Z) : StagedBatchView :=
  mkBatchView (omap (row_view realm) rows) tombs fails.

Section batch.
Context (batch : StagedMutationBatch) (quarantine : option string) (now : Z) (view : StagedBatchView).

(** Operations admitted against [overlay] and applied to the rows, in order. *)
Inductive ops_run : Overlay → Rows → list StagedOp → list string → Rows → Prop :=
| run_nil overlay rows : ops_run overlay rows [] [] rows
| run_cons overlay overlay' rows rows1 rows2 op ops mid mids :
    op_admitted view batch overlay op overlay' →
    op_applied batch quarantine now op mid rows rows1 →
    ops_run overlay' rows1 ops mids rows2 →
    ops_run overlay rows (op :: ops) (mid :: mids) rows2.

(** One audit row per operation, numbered from [op_index]. *)
Fixpoint audit_of (token : string) (review : option ReviewAudit) (op_index : nat) (ops : list StagedOp) (mids : list string)
    : list AuditRow :=
  match ops, mids with
  | op :: ops, mid :: mids =>
      mkAudit token (Z.of_nat op_index) (op_kind_str op) (Some mid)
        (mkDetail (op_kind_str op) (batch_author batch) (op_rationale op) quarantine review) (as_i64 now)
      :: audit_of token review (S op_index) ops mids
  | _, _ => []
  end.

(** The records and the audit trail moved. *)
Definition wrote_audited (news : list AuditRow) w w' : Prop :=
  committed w' = committed w ∧ volatile w' = volatile w ∧ proposals (working w') = proposals (working w) ∧
  audit (working w') = audit (working w) ++ news ∧ stage (working w') = stage (working w) ∧
  pending_promotions (working w') = pending_promotions (working w).

Lemma wp_apply_ops token review op_index ops overlay w :
  ops_admitted view batch ops overlay →
  wp (apply_ops env batch quarantine token now review op_index ops)
    (λ a w', ∀ mids, a = Ok mids →
       ops_run overlay (records (working w)) ops mids (records (working w')) ∧
       wrote_audited (audit_of token review op_index ops mids) w w') w.
Proof.
  revert op_index overlay w. induction ops as [|op ops IH]; intros op_index overlay w Hadm; simpl.
  - wp_step. intros ? [= <-]. split; [constructor|]. unfold wrote_audited. by rewrite app_nil_r.
  - destruct Hadm as (overlay' & Hop & Hops). eapply wp_then; [apply wp_apply_op|done|]. intros mid w1 [Hw1 Ha].
    sql. wp_step. unfold update. wp_step.
    eapply wp_then; [by apply (IH _ overlay')|done|]. intros mids w2 [Hrun Hw2]. wp_step. intros ? [= <-]. simpl in *.
    split; [by econstructor|]. destruct Hw1 as (?&?&?&Hau&?&?), Hw2 as (?&?&?&Hau2&?&?). simpl in *.
    split_and!; try congruence. by rewrite Hau2, Hau, <- app_assoc.
Qed.
End batch.

(** The batch was validated against the rows and applied to them. *)
Definition batch_run (batch : StagedMutationBatch) (quarantine : option string) (now : Z) rows (mids : list string) rows' : Prop :=
  ∃ tombs, let view := view_of (batch_realm batch) rows (view_fault env) tombs in
  batch_ops batch ≠ [] ∧ (length (batch_ops batch) ≤ MAX_BATCH_OPS)%nat ∧
  ops_run batch quarantine now view ∅ rows (batch_ops batch) mids rows'.

Lemma wp_validate_in batch t w :
  wp (validate_in env batch t)
    (λ a w', working w' = working w ∧ committed w' = committed w ∧ volatile w' = volatile w ∧
       (a = Ok tt → batch_ops batch ≠ [] ∧ (length (batch_ops batch) ≤ MAX_BATCH_OPS)%nat ∧
          ops_admitted (ConnBatchView env (batch_realm batch) (working w)) batch (batch_ops batch) ∅)) w.
Proof.
  unfold wp, validate_in. destruct (validate_batch _ _ _ _ _) as [[[]|e] n] eqn:Ev; simpl; [|done].
  split_and!; [done..|]. intros _. by eapply validate_admitted.
Qed.

Lemma wp_apply_batch_in_tx batch quarantine token now review w :
  wp (apply_batch_in_tx env batch quarantine token now review)
    (λ a w', ∀ receipt, a = Ok receipt → ∃ mids,
       receipt = mkCommitReceipt token (length (batch_ops batch)) mids ∧
       batch_run batch quarantine now (records (working w)) mids (records (working w')) ∧
       committed w' = committed w ∧ volatile w' = volatile w ∧ proposals (working w') = proposals (working w) ∧
       audit (working w') = audit (working w) ++ audit_of batch quarantine now token review 0 (batch_ops batch) mids ∧
       stage (working w') = delete token (stage (working w)) ∧
       pending_promotions (working w') = pending_promotions (working w)) w.
Proof.
  unfold apply_batch_in_tx. wp_step. eapply wp_mono; [apply wp_validate_in|].
  intros [[]|] w1 (Hwk & Hc & Hv & Hadm); [|done]. destruct Hadm as (Hne & Hlen & Hadm); [done|].
  eapply wp_then; [by apply wp_apply_ops|done|]. intros mids w2 (Hrun & Hcm & Hvo & Hp & Hau & Hs & Hpp).
  sql. wp_step. unfold update. wp_step. wp_step. intros ? [= <-]. simpl. rewrite Hwk in *.
  exists mids. split; [done|]. split; [|split_and!; congruence].
  exists (max_tombstone (working w)). by split_and!.
Qed.
End rows.

(** ** Invariants of the record rows

    How one admitted operation changes each row ([row_change]), the simulation
    between the validator's overlay and the rows, and what follows for a batch:
    tombstoned rows are frozen, a quarantined batch activates nothing, an agent
    stays in its scope, and the rows keep the provenance invariant [rows_ok]. *)

Definition row_scope (realm : string) (row : RecordRow) : Result MemoryScope AgentMemoryError :=
  scope_from_parts (row_scope_kind row) (row_scope_key row) realm.

Lemma row_scope_of_parts realm scope :
  scope_realm scope = realm → scope_from_parts (scope_kind_str scope) (scope_key scope) realm = Ok scope.
Proof. intros <-. by destruct scope. Qed.

Lemma row_scope_identity realm row realm' identity :
  row_scope realm row = Ok (IdentityScope realm' identity) → row_scope_kind row = "identity" ∧ row_scope_key row = identity.
Proof. unfold row_scope, scope_from_parts. repeat case_bool_decide; naive_solver. Qed.

(** The row was quarantined once, or is. *)
Definition row_tainted (row : RecordRow) : bool := row_ever_quarantined row || (row_status_kind row =b "quarantined").
Definition view_quarantined (v : StagedRecordView) : bool := view_ever_quarantined v || is_quarantined (view_status v).

Lemma view_quarantined_tainted v : view_tainted v = false → view_quarantined v = false.
Proof. unfold view_tainted, view_quarantined. destruct (view_trust v =b Untrusted); simpl; [done|]. auto. Qed.

Section rows.
Context `{Sha256}.
Context (batch : StagedMutationBatch) (quarantine : option string) (now : Z) (view : StagedBatchView).
Implicit Types (rows : Rows) (overlay : Overlay) (created : gset string).

(** What a record may become while it lives. *)
Inductive row_update overlay (op : StagedOp) (id : string) (row : RecordRow) : RecordRow → Prop :=
| update_superseded mid : quarantine = None →
    row_update overlay op id row (row_with_status "superseded" (Some mid) (row_tombstoned_at_ms row) now row)
| update_tombstoned : row_update overlay op id row (row_with_status "tombstoned" None (Some (as_i64 now)) now row)
| update_trust v t rationale : op = Retier id t rationale → seen view overlay id = Some v →
    tier_rank t ≤ tier_rank AgentVerified →
    (tier_gt t llm_write_ceiling = true → reads_work view → view_tainted v = false) →
    row_update overlay op id row (row_with_trust t now row)
| update_rank rank : row_update overlay op id row (row_with_rank rank now row).

(** How one admitted operation changes the row at [id]. *)
Inductive row_change overlay (op : StagedOp) rows (id : string) : option RecordRow → option RecordRow → Prop :=
| row_kept o : row_change overlay op rows id o o
| row_created scope r trust derived prior row tainted new_id :
    new_row_of scope r trust (batch_author batch) derived prior quarantine rows row →
    new_admitted view batch overlay new_id scope r trust (ancestors_of derived prior) tainted →
    op_new_id op = new_id → (∀ i, new_id = Some i → id = i) →
    row_change overlay op rows id None (Some row)
| row_changed row row' v :
    seen view overlay id = Some v → view_status v ≠ Tombstoned → writable batch (view_scope v) →
    row_update overlay op id row row' → row_change overlay op rows id (Some row) (Some row').

Lemma ancestors_elem derived prior a : a ∈ ancestors_of derived (Some prior) ↔ a ∈ prior :: derived.
Proof. unfold ancestors_of. set_solver. Qed.

Lemma new_admitted_perm overlay id scope r trust l l' tainted :
  (∀ a, a ∈ l ↔ a ∈ l') → new_admitted view batch overlay id scope r trust l tainted →
  new_admitted view batch overlay id scope r trust l' tainted.
Proof. intros Hl []. split; try done; intros; naive_solver. Qed.

(** ** The overlay and the rows *)

Definition Sim overlay created rows : Prop :=
  ∀ id v, seen view overlay id = Some v → ∃ row, rows !! id = Some row ∧
    row_scope (batch_realm batch) row = Ok (view_scope v) ∧
    (row_status_kind row = "tombstoned" → view_status v = Tombstoned) ∧
    (reads_work view → quarantine = None ∨ id ∉ created → row_tainted row = true → view_quarantined v = true).

Lemma op_row_change overlay created op overlay' mid rows rows' id :
  Sim overlay created rows →
  op_admitted view batch overlay op overlay' → op_applied batch quarantine now op mid rows rows' →
  row_change overlay op rows id (rows !! id) (rows' !! id).
Proof.
  intros Hsim. destruct op as [nid scope r trust derived ra c u|nid prior r trust derived ra|i ra|i trust ra|i rank]; simpl.
  - intros (tainted & Hadm & _) (Hmid & Hn & row & Hrow & ->).
    destruct (decide (id = mid)) as [->|]; [|rewrite lookup_insert_ne by done; constructor].
    rewrite Hn, lookup_insert_eq. eapply (row_created _ _ _ _ _ _ _ derived None); [done| |done|done].
    eapply new_admitted_perm; [|done]. intros a. unfold ancestors_of. set_solver.
  - intros (tainted & v & Hs & Hst & Hadm & _) (Hmid & Hn & prior_row & scope & row & Hp & Hsc & Hrow & ->).
    destruct (Hsim _ _ Hs) as (prow & Hprow & Hsc' & _). simplify_eq. unfold row_scope in Hsc'. rewrite Hsc' in Hsc. simplify_eq.
    destruct (decide (id = mid)) as [->|].
    + rewrite Hn, lookup_insert_eq. eapply (row_created _ _ _ _ _ _ _ derived (Some prior)); [done| |done|done].
      eapply new_admitted_perm; [|done]. intros a. by rewrite ancestors_elem.
    + rewrite lookup_insert_ne by done. destruct quarantine eqn:Eq; [constructor|].
      destruct (decide (id = prior)) as [->|]; [|rewrite lookup_insert_ne by done; constructor].
      rewrite Hp, lookup_insert_eq. eapply row_changed; [done|by rewrite Hst|apply Hadm|by constructor].
  - intros (v & Hs & Hst & Hw & _) (_ & ->). destruct (Hsim _ _ Hs) as (row & Hrow & _).
    destruct (decide (id = i)) as [->|]; [|rewrite lookup_alter_ne by done; constructor].
    rewrite lookup_alter_eq, Hrow. by eapply row_changed; [..|constructor].
  - intros (v & Hs & Hst & Hw & Ht & _ & Hcl & _) (_ & ->). destruct (Hsim _ _ Hs) as (row & Hrow & _).
    destruct (decide (id = i)) as [->|]; [|rewrite lookup_alter_ne by done; constructor].
    rewrite lookup_alter_eq, Hrow. by eapply row_changed; [..|econstructor].
  - intros (v & Hs & Hst & Hw & _) (_ & ->). destruct (Hsim _ _ Hs) as (row & Hrow & _).
    destruct (decide (id = i)) as [->|]; [|rewrite lookup_alter_ne by done; constructor].
    rewrite lookup_alter_eq, Hrow. by eapply row_changed; [..|constructor].
Qed.

(** ** The simulation holds at the start and is kept *)

Lemma sim_start fails tombs rows : view = view_of (batch_realm batch) rows fails tombs → Sim ∅ ∅ rows.
Proof.
  intros Hview id v Hs. unfold seen in Hs. rewrite Hview in Hs. unfold view_of in Hs. rewrite lookup_empty in Hs. cbn [opt_or stored] in Hs. rewrite lookup_omap in Hs.
  destruct (rows !! id) as [row|]; [|done]. simpl in Hs. exists row. split; [done|].
  unfold row_view, row_scope in *. destruct (scope_from_parts _ _ _) as [scope|]; [|done]. simpl in Hs.
  destruct (row_provenance row); [|done]. simpl in Hs. destruct (tier_parse _); [|done]. simpl in Hs. simplify_eq. simpl.
  split_and!; [done| |].
  - intros ->. done.
  - intros _ _ Ht. unfold row_tainted, view_quarantined in *. simpl. apply orb_true_iff in Ht as [->|Hk%bool_decide_eq_true]; [done|].
    rewrite Hk. by destruct (row_ever_quarantined row).
Qed.

(** A record the batch adds, not quarantined, of clean ancestors. *)
Lemma new_row_clean overlay created rows nid scope r trust derived prior row tainted :
  Sim overlay created rows → quarantine = None → reads_work view →
  new_row_of scope r trust (batch_author batch) derived prior quarantine rows row →
  new_admitted view batch overlay nid scope r trust (ancestors_of derived prior) tainted →
  tainted = false → row_tainted row = false.
Proof.
  intros Hsim Hq Hr [] [] Ht. unfold row_tainted. rewrite nr_ever0, nr_status0, Hq. simpl. rewrite orb_false_r.
  apply not_true_is_false. intros (a & Ha & Hrow)%existsb_exists. apply list_elem_of_In in Ha.
  destruct (na_sources a Ha) as [v Hv]. destruct (Hsim a v Hv) as (arow & Harow & _ & _ & Hta). rewrite Harow in Hrow. simpl in Hrow.
  pose proof (view_quarantined_tainted v (na_taint Ht Hr a v Ha Hv)) as Hc. rewrite Hta in Hc; [done|done|by left|done].
Qed.

Lemma new_row_scope scope r trust derived prior rows row overlay nid l tainted :
  new_row_of scope r trust (batch_author batch) derived prior quarantine rows row →
  new_admitted view batch overlay nid scope r trust l tainted → row_scope (batch_realm batch) row = Ok scope.
Proof.
  intros [] []. unfold row_scope. rewrite nr_scope_kind0, nr_scope_key0. apply row_scope_of_parts, na_scope.
Qed.

Definition ids_of (id : option string) : gset string := match id with Some id => {[id]} | None => ∅ end.

Lemma seen_insert overlay id v id' : seen view (<[id := v]> overlay) id' = if decide (id' = id) then Some v else seen view overlay id'.
Proof. unfold seen. case_decide; subst; [by rewrite lookup_insert_eq|by rewrite lookup_insert_ne by done]. Qed.

(** Adding the record [mid] to the rows and, under an explicit id, to the overlay. *)
Lemma sim_new overlay created rows nid mid row v :
  Sim overlay created rows → rows !! mid = None → (∀ i, nid = Some i → mid = i) →
  row_scope (batch_realm batch) row = Ok (view_scope v) → row_status_kind row ≠ "tombstoned" →
  (reads_work view → quarantine = None → row_tainted row = true → view_quarantined v = true) →
  Sim (overlay_new overlay nid v) (ids_of nid ∪ created) (<[mid := row]> rows).
Proof.
  intros Hsim Hn Hmid Hsc Hst Ht id v' Hs.
  assert (nid = Some id ∧ v' = v ∨ seen view overlay id = Some v' ∧ nid ≠ Some id) as [[-> ->]|[Hs' Hne]].
  { destruct nid as [i|]; simpl in Hs; [|by right]. rewrite seen_insert in Hs. case_decide; simplify_eq; [by left|right; split; congruence]. }
  - rewrite (Hmid id eq_refl), lookup_insert_eq. exists row. split_and!; [done|done|done|].
    intros Hr [Hq|Hni] Hrt; [auto|]. exfalso. apply Hni. simpl. set_solver.
  - destruct (Hsim id v' Hs') as (row' & Hrow' & ? & ? & Hq). rewrite lookup_insert_ne by congruence.
    exists row'. split_and!; [done..|]. intros Hr [?|Hni]; [auto|]. apply Hq; [done|right; set_solver].
Qed.

(** A new view and a new row for a record both know. *)
Lemma sim_set overlay created rows rows' id v v' row row' :
  Sim overlay created rows → seen view overlay id = Some v → rows !! id = Some row →
  rows' !! id = Some row' → (∀ j, j ≠ id → rows' !! j = rows !! j) →
  row_scope_kind row' = row_scope_kind row → row_scope_key row' = row_scope_key row → view_scope v' = view_scope v →
  (row_status_kind row' = "tombstoned" → view_status v' = Tombstoned) →
  (row_tainted row' = true → row_tainted row = true) → (view_quarantined v = true → view_quarantined v' = true) →
  Sim (<[id := v']> overlay) created rows'.
Proof.
  intros Hsim Hs Hrow Hrow' Hrest Hk Hky Hv Ht Hq Hq' j u Hu. rewrite seen_insert in Hu.
  destruct (Hsim id v Hs) as (? & ? & Hsc & _ & Hta). simplify_eq. case_decide as Hj.
  - simplify_eq. exists row'. unfold row_scope in *. rewrite Hk, Hky, Hv. split_and!; [done..|]. intros Hr Hc Hrt. auto.
  - destruct (Hsim j u Hu) as (jrow & Hjrow & ?). exists jrow. rewrite Hrest by done. auto.
Qed.

Lemma row_tainted_status kind detail t row :
  row_tainted row = false → kind ≠ "quarantined" → row_tainted (row_with_status kind detail t now row) = false.
Proof. unfold row_tainted. simpl. intros [-> _]%orb_false_elim Hk. by rewrite bool_decide_eq_false_2. Qed.

Lemma sim_step overlay created op overlay' mid rows rows' :
  Sim overlay created rows → op_admitted view batch overlay op overlay' → op_applied batch quarantine now op mid rows rows' →
  Sim overlay' (ids_of (op_new_id op) ∪ created) rows'.
Proof.
  intros Hsim. destruct op as [nid scope r trust derived ra c u|nid prior r trust derived ra|i ra|i trust ra|i rank]; simpl.
  - intros (tainted & Hadm & ->) (Hmid & Hn & row & Hrow & ->).
    eapply new_admitted_perm in Hadm; [|intros a; instantiate (1 := ancestors_of derived None); unfold ancestors_of; set_solver].
    apply sim_new; [done..|by eapply new_row_scope|rewrite (nr_status _ _ _ _ _ _ _ _ _ Hrow); by destruct quarantine|].
    intros Hr Hq Hrt. unfold view_quarantined. simpl. rewrite orb_false_r. destruct tainted; [done|].
    rewrite (new_row_clean _ _ _ _ _ _ _ _ _ _ _ Hsim Hq Hr Hrow Hadm eq_refl) in Hrt. done.
  - intros (tainted & v & Hs & Hst & Hadm & ->) (Hmid & Hn & prior_row & scope & row & Hp & Hsc & Hrow & ->).
    destruct (Hsim _ _ Hs) as (prow & Hprow & Hsc' & _). simplify_eq. unfold row_scope in Hsc'. rewrite Hsc' in Hsc. simplify_eq.
    eapply new_admitted_perm in Hadm; [|intros a; symmetry; apply ancestors_elem].
    assert (mid ≠ prior) by congruence.
    apply sim_new; [|destruct quarantine; [done|by rewrite lookup_insert_ne]|done|by eapply new_row_scope
                    |rewrite (nr_status _ _ _ _ _ _ _ _ _ Hrow); by destruct quarantine|].
    + eapply (sim_set _ _ _ _ _ _ _ prior_row
        (if quarantine then prior_row else row_with_status "superseded" (Some mid) (row_tombstoned_at_ms prior_row) now prior_row));
        [done|done|done|..].
      * destruct quarantine; [done|]. by rewrite lookup_insert_eq.
      * intros j Hj. destruct quarantine; [done|]. by rewrite lookup_insert_ne.
      * by destruct quarantine.
      * by destruct quarantine.
      * done.
      * destruct (Hsim _ _ Hs) as (? & ? & _ & Htb & _). simplify_eq. rewrite Hst in Htb. destruct quarantine; [intros Hk; by apply Htb in Hk|done].
      * destruct quarantine; [done|]. destruct (row_tainted prior_row) eqn:Et; [done|]. by rewrite row_tainted_status.
      * unfold view_quarantined. rewrite Hst. simpl. by rewrite orb_false_r.
    + intros Hr Hq Hrt. unfold view_quarantined. simpl. rewrite orb_false_r. destruct tainted; [done|].
      rewrite (new_row_clean _ _ _ _ _ _ _ _ _ _ _ Hsim Hq Hr Hrow Hadm eq_refl) in Hrt. done.
  - intros (v & Hs & Hst & Hw & ->) (_ & ->). destruct (Hsim _ _ Hs) as (row & Hrow & _). rewrite (left_id_L ∅ _).
    eapply sim_set; [done..|by rewrite lookup_alter_eq, Hrow|intros; by rewrite lookup_alter_ne|done|done|done|done| |].
    + destruct (row_tainted row) eqn:Et; [done|]. by rewrite row_tainted_status.
    + unfold view_quarantined. simpl. by intros ->.
  - intros (v & Hs & Hst & Hw & Ht & _ & Hcl & ->) (_ & ->). destruct (Hsim _ _ Hs) as (row & Hrow & _ & Htb & _). rewrite (left_id_L ∅ _).
    eapply sim_set; [done..|by rewrite lookup_alter_eq, Hrow|intros; by rewrite lookup_alter_ne|done|done|done|exact Htb|done|done].
  - intros (v & Hs & Hst & Hw & ->) (_ & ->). destruct (Hsim _ _ Hs) as (row & Hrow & _). rewrite (left_id_L ∅ _).
    intros j u Hu. destruct (Hsim j u Hu) as (jrow & Hj & ?). destruct (decide (j = i)) as [->|]; [|rewrite lookup_alter_ne by done; eauto].
    rewrite lookup_alter_eq, Hj. eexists. split; [done|]. done.
Qed.

(** ** What never changes in a row *)

Record row_grows (row row' : RecordRow) : Prop := {
  rg_scope_kind : row_scope_kind row' = row_scope_kind row;
  rg_scope_key : row_scope_key row' = row_scope_key row;
  rg_kind : row_kind row' = row_kind row;
  rg_title : row_title row' = row_title row;
  rg_description : row_description row' = row_description row;
  rg_body : row_body row' = row_body row;
  rg_tags : row_tags row' = row_tags row;
  rg_provenance : row_provenance row' = row_provenance row;
  rg_supersedes : row_supersedes row' = row_supersedes row;
  rg_derived : row_derived_from row' = row_derived_from row;
  rg_hash : row_content_hash row' = row_content_hash row;
  rg_created : row_created_at_ms row' = row_created_at_ms row;
  rg_ever : row_ever_quarantined row' = row_ever_quarantined row;
  rg_rowid : row_rowid row' = row_rowid row;
  rg_activation : row_status_kind row' = "active" → row_status_kind row = "active";
}.

#[global] Instance row_grows_preorder : PreOrder row_grows.
Proof. split; [by split|]. intros r1 r2 r3 [] []. split; try congruence. auto. Qed.

Lemma row_update_grows overlay op id row row' : row_update overlay op id row row' → row_grows row row'.
Proof. by intros []. Qed.

(** Only the usage counters of rows differ. *)
Definition used (row row' : RecordRow) : Prop := ∃ usage, row' = row_with_usage usage row.
Definition rows_used (rows rows' : Rows) : Prop := ∀ id, option_Forall2 used (rows !! id) (rows' !! id).

#[global] Instance used_preorder : PreOrder used.
Proof. split; [intros []; by eexists|]. intros r1 r2 r3 [u ->] [v ->]. by exists v. Qed.
#[global] Instance rows_used_preorder : PreOrder rows_used.
Proof.
  split; [by intros rows id; destruct (rows !! id); constructor|]. intros r1 r2 r3 H1 H2 id.
  specialize (H1 id). specialize (H2 id). destruct H1; inversion H2; subst; constructor. by etrans.
Qed.

Lemma used_grows row row' : used row row' → row_grows row row'.
Proof. by intros [u ->]. Qed.
Lemma rows_used_alter usage id rows : rows_used rows (alter (row_with_usage usage) id rows).
Proof.
  intros i. destruct (decide (i = id)) as [->|Hne]; [rewrite lookup_alter_eq|rewrite lookup_alter_ne by done].
  - destruct (rows !! id); constructor. by eexists.
  - by destruct (rows !! i); constructor.
Qed.
Lemma rows_used_Some rows rows' id row :
  rows_used rows rows' → rows !! id = Some row → ∃ row', rows' !! id = Some row' ∧ used row row'.
Proof. intros Hu Hr. specialize (Hu id). rewrite Hr in Hu. inversion Hu; subst. eauto. Qed.
Lemma rows_used_back rows rows' id row' :
  rows_used rows rows' → rows' !! id = Some row' → ∃ row, rows !! id = Some row ∧ used row row'.
Proof. intros Hu Hr. specialize (Hu id). rewrite Hr in Hu. inversion Hu; subst. eauto. Qed.

(** Rows are only added, and those that exist only move on. *)
Definition rows_grow (rows rows' : Rows) : Prop :=
  ∀ id row, rows !! id = Some row → ∃ row', rows' !! id = Some row' ∧ row_grows row row'.
#[global] Instance rows_grow_preorder : PreOrder rows_grow.
Proof.
  split; [intros rows id row ?; eexists; split; [done|reflexivity]|]. intros r1 r2 r3 H1 H2 id row Hr.
  destruct (H1 _ _ Hr) as (row' & Hr' & ?), (H2 _ _ Hr') as (row'' & ? & ?). eexists. split; [done|by etrans].
Qed.

Lemma rows_grow_size rows rows' : rows_grow rows rows' → (size rows ≤ size rows')%nat.
Proof.
  intros Hg. rewrite <- !size_dom. apply subseteq_size. intros id [row Hr]%elem_of_dom. apply elem_of_dom.
  destruct (Hg _ _ Hr) as (? & ? & _). eauto.
Qed.
Lemma rows_grow_new rows rows' id row :
  rows_grow rows rows' → rows !! id = None → rows' !! id = Some row → (size rows < size rows')%nat.
Proof.
  intros Hg Hn Hs. rewrite <- !size_dom. apply subset_size. split.
  - intros i [r Hr]%elem_of_dom. apply elem_of_dom. destruct (Hg _ _ Hr) as (? & ? & _). eauto.
  - intros Hsub. apply (not_elem_of_dom_2 (D := gset string)) in Hn. apply Hn, Hsub. apply elem_of_dom. eauto.
Qed.

Fixpoint ops_ok (P : gset string → StagedOp → Prop) created (ops : list StagedOp) : Prop :=
  match ops with
  | [] => True
  | op :: rest => P created op ∧ ops_ok P (ids_of (op_new_id op) ∪ created) rest
  end.

(** One operation. *)
Record op_runs overlay created (op : StagedOp) rows rows' : Prop := {
  or_sim : Sim overlay created rows;
  or_change id : row_change overlay op rows id (rows !! id) (rows' !! id);
}.

Lemma op_rows_grow overlay created op rows rows' : op_runs overlay created op rows rows' → rows_grow rows rows'.
Proof.
  intros [_ Hc] id row Hr. specialize (Hc id). rewrite Hr in Hc. inversion Hc as [| |? row' v ? ? ? Hu]; simplify_eq.
  - eexists. split; [done|reflexivity].
  - eexists. split; [done|by eapply row_update_grows].
Qed.

(** Induction over a batch.  [P] is what the caller knows of its operations,
    given the ids the batch created before. *)
Lemma run_invariant (P : gset string → StagedOp → Prop) (I : Rows → Prop) :
  (∀ overlay created op rows rows', op_runs overlay created op rows rows' → P created op → I rows → I rows') →
  ∀ overlay rows ops mids rows', ops_run batch quarantine now view overlay rows ops mids rows' →
  ∀ created, Sim overlay created rows → ops_ok P created ops → I rows → I rows'.
Proof.
  intros Hstep overlay rows ops mids rows' Hrun.
  induction Hrun as [|overlay overlay' rows rows1 rows2 op ops mid mids Hadm Hop Hrun IH]; intros created Hsim Hok HI; [done|].
  destruct Hok as [HP Hok]. apply (IH (ids_of (op_new_id op) ∪ created)); [by eapply sim_step|done|].
  eapply Hstep; [|done|done]. split; [done|]. intros id. by eapply op_row_change.
Qed.

Lemma run_unconditional (I : Rows → Prop) :
  (∀ overlay created op rows rows', op_runs overlay created op rows rows' → I rows → I rows') →
  ∀ overlay rows ops mids rows' created, ops_run batch quarantine now view overlay rows ops mids rows' →
  Sim overlay created rows → I rows → I rows'.
Proof.
  intros Hstep ?????? Hrun Hsim. eapply (run_invariant (λ _ _, True)); [naive_solver|done|done|].
  clear. generalize dependent created. induction ops; simpl; auto.
Qed.
End rows.

(** ** What every committed batch preserves

    Consequences of the lemmas on rows for a whole batch, and the provenance
    invariant [rows_ok] of the record table. *)

(** A row's direct sources, and everything it descends from. *)
Definition row_sources (row : RecordRow) : list string :=
  ancestors_of (unwrap_or (row_derived_from row) []) (row_supersedes row).
Inductive descends (rows : Rows) : string → string → Prop :=
| descends_refl id : descends rows id id
| descends_step id row a b : rows !! id = Some row → a ∈ row_sources row → descends rows a b → descends rows id b.

Definition row_above_ceiling (row : RecordRow) : Prop :=
  ∃ t, tier_parse (row_trust row) = Some t ∧ tier_gt t llm_write_ceiling = true.

(** The provenance invariant: quarantine leaves a mark that is inherited from
    every source, a row with the mark is at or below the ceiling, sources exist
    and are older, and content carries no credential. *)
Record row_ok (rows : Rows) (row : RecordRow) : Prop := {
  ok_marked : row_status_kind row = "quarantined" → row_ever_quarantined row = true;
  ok_tier : ∃ t, tier_parse (row_trust row) = Some t ∧ tier_rank t ≤ tier_rank AgentVerified;
  ok_clean : row_above_ceiling row → row_ever_quarantined row = false;
  ok_rowid : row_rowid row ≤ Z.of_nat (size rows);
  ok_sources : ∀ a, a ∈ row_sources row → ∃ arow, rows !! a = Some arow ∧ row_rowid arow < row_rowid row ∧
    (row_ever_quarantined arow = true → row_ever_quarantined row = true);
  ok_secret : detect_secret (row_title row) = None ∧ detect_secret (row_description row) = None ∧ detect_secret (row_body row) = None;
}.
Definition rows_ok (rows : Rows) : Prop := ∀ id row, rows !! id = Some row → row_ok rows row.

Lemma record_secret_parts title description body tags :
  detect_record_secret title description body tags = None →
  detect_secret title = None ∧ detect_secret description = None ∧ detect_secret body = None.
Proof.
  unfold detect_record_secret. destruct (detect_secret title); [done|]. destruct (detect_secret description); [done|].
  by destruct (detect_secret body).
Qed.

(** A batch does not lift a record of its own above the ceiling. *)
Definition no_self_promotion (created : gset string) (op : StagedOp) : Prop :=
  match op with Retier id trust _ => tier_gt trust llm_write_ceiling = true → id ∉ created | _ => True end.

Section batch.
Context `{Sha256}.
Context (batch : StagedMutationBatch) (quarantine : option string) (now : Z) (view : StagedBatchView).
Implicit Types (rows : Rows) (overlay : Overlay) (created : gset string).
Notation op_runs := (op_runs batch quarantine now view).

Lemma row_ok_grow rows rows' row row' :
  rows_grow rows rows' → row_ok rows row → row_grows row row' →
  (row_status_kind row' = "quarantined" → row_ever_quarantined row' = true) →
  (∃ t, tier_parse (row_trust row') = Some t ∧ tier_rank t ≤ tier_rank AgentVerified) →
  (row_above_ceiling row' → row_ever_quarantined row' = false) → row_ok rows' row'.
Proof.
  intros Hg [] [] Hm Ht Hc. split; try done.
  - rewrite rg_rowid0. pose proof (rows_grow_size _ _ Hg). lia.
  - unfold row_sources. rewrite rg_derived0, rg_supersedes0. intros a Ha.
    destruct (ok_sources0 a Ha) as (arow & Harow & Hid & Hev). destruct (Hg _ _ Harow) as (arow' & Harow' & []).
    exists arow'. split_and!; [done|congruence|]. rewrite rg_ever1, rg_ever0. auto.
  - rewrite rg_title0, rg_description0, rg_body0. done.
Qed.

Lemma created_row_ok overlay created rows rows' id scope r trust derived prior row tainted nid :
  reads_work view → (is_some quarantine = true → is_llm (batch_author batch) = true) →
  Sim batch quarantine view overlay created rows → rows_ok rows → rows_grow rows rows' →
  rows !! id = None → rows' !! id = Some row →
  new_row_of scope r trust (batch_author batch) derived prior quarantine rows row →
  new_admitted view batch overlay nid scope r trust (ancestors_of derived prior) tainted →
  row_ok rows' row.
Proof.
  intros Hr Hgate Hsim Hok Hg Hn Hs Hrow Hadm. pose proof (rows_grow_new _ _ _ _ Hg Hn Hs) as Hsize.
  pose proof (new_row_clean batch quarantine view overlay created rows nid scope r trust derived prior row tainted Hsim) as Hclean.
  pose proof Hrow as [? ? ? ? ? ? ? ? ? ? ? Hever Hid]. pose proof Hadm as [? ? ? ? ? ? ? ? ?]. split.
  - rewrite nr_status0, Hever. by destruct quarantine.
  - exists trust. rewrite nr_trust0. by rewrite tier_parse_as_str.
  - intros (t & Hp & Hgt). rewrite nr_trust0, tier_parse_as_str in Hp. simplify_eq.
    destruct quarantine as [reason|] eqn:Eq; [rewrite na_ceiling in Hgt by auto; done|].
    apply (orb_false_elim _ (row_status_kind row =b "quarantined")). apply Hclean; auto.
  - rewrite Hid. lia.
  - unfold row_sources. rewrite nr_derived0, nr_supersedes0. simpl. intros a Ha.
    destruct (na_sources a Ha) as [v Hv]. destruct (Hsim a v Hv) as (arow & Harow & _).
    destruct (Hg _ _ Harow) as (arow' & Harow' & Hga). exists arow'.
    split_and!; [done|rewrite (rg_rowid _ _ Hga), Hid; pose proof (ok_rowid _ _ (Hok _ _ Harow)); lia|].
    rewrite (rg_ever _ _ Hga), Hever. intros Hev. apply orb_true_iff. right.
    apply existsb_exists. exists a. split; [by apply list_elem_of_In|]. rewrite Harow. simpl. by rewrite Hev.
  - rewrite nr_title0, nr_description0, nr_body0. by eapply record_secret_parts.
Qed.

Lemma op_rows_ok overlay created op rows rows' :
  reads_work view → (is_some quarantine = true → is_llm (batch_author batch) = true) →
  (is_some quarantine = true → no_self_promotion created op) →
  op_runs overlay created op rows rows' → rows_ok rows → rows_ok rows'.
Proof.
  intros Hr Hgate Hself Hop Hok id row' Hrow'. pose proof (op_rows_grow _ _ _ _ _ _ _ _ _ Hop) as Hg.
  destruct Hop as [Hsim Hc]. specialize (Hc id). rewrite Hrow' in Hc.
  inversion Hc as [o Ho Ho'|scope r trust derived prior row tainted nid Hrow Hadm Hnid Hid Ho|row ? v Hs Hst Hw Hu Ho]; simplify_eq.
  - destruct (Hok id row') as []; [done|]. eapply (row_ok_grow rows); [done|by apply (Hok id)|reflexivity|done..].
  - by eapply created_row_ok.
  - symmetry in Ho. pose proof (Hok _ _ Ho) as Hrow. eapply (row_ok_grow rows); [done..|by eapply row_update_grows| | |];
      destruct Hrow as [? ? ? ? ? ?], Hu as [| |u t ra -> Hu Ht Hcl|]; simpl; try done.
    + exists t. by rewrite tier_parse_as_str.
    + intros (t' & Hp & Hgt). simpl in Hp. rewrite tier_parse_as_str in Hp. simplify_eq.
      destruct (Hsim id v Hs) as (srow & Hsrow & _ & _ & Hta). rewrite Ho in Hsrow. injection Hsrow as <-.
      pose proof (view_quarantined_tainted v (Hcl Hgt Hr)) as Hq.
      destruct (row_ever_quarantined row) eqn:Ee; [|done]. rewrite Hta in Hq; [done|done| |unfold row_tainted; by rewrite Ee].
      destruct quarantine; [right|by left]. by apply Hself.
Qed.
End batch.

(** ** Whole batches *)

Section whole.
Context `{Sha256}.
Context (env : MemoryEnv) (batch : StagedMutationBatch) (quarantine : option string) (now : Z).
Context (rows rows' : Rows) (mids : list string) (Hrun : batch_run env batch quarantine now rows mids rows').

Lemma batch_rows_ok :
  (∀ n, view_fault env n = false) → (is_some quarantine = true → is_llm (batch_author batch) = true) →
  (is_some quarantine = true → ops_ok no_self_promotion ∅ (batch_ops batch)) → rows_ok rows → rows_ok rows'.
Proof using Hrun.
  intros Hr Hgate Hself. destruct Hrun as (tombs & _ & _ & Hops).
  eapply (run_invariant _ _ _ _ (λ created op, is_some quarantine = true → no_self_promotion created op)
    rows_ok); [|done|by eapply sim_start|].
  - intros overlay created op r r' Hop HP. by eapply (op_rows_ok _ _ _ _ _ _ _ _ _ (Hr : reads_work (view_of _ rows _ tombs)) Hgate HP).
  - clear Hops. revert Hself. generalize (∅ : gset string). induction (batch_ops batch) as [|op ops IH]; intros created Hself; simpl; [done|].
    split; [by intros [? _]%Hself|]. apply IH. by intros [_ ?]%Hself.
Qed.

Lemma batch_rows_grow : rows_grow rows rows'.
Proof using Hrun.
  destruct Hrun as (tombs & _ & _ & Hops).
  eapply (run_unconditional _ _ _ _ (rows_grow rows)); [|done|by eapply sim_start|reflexivity].
  intros overlay created op r r' Hop Hg. etrans; [done|by eapply op_rows_grow].
Qed.

Lemma batch_frozen id row : rows !! id = Some row → row_status_kind row = "tombstoned" → rows' !! id = Some row.
Proof using Hrun.
  intros Hrow Ht. destruct Hrun as (tombs & _ & _ & Hops).
  eapply (run_unconditional _ _ _ _ (λ r, r !! id = Some row)); [|done|by eapply sim_start|done].
  intros overlay created op r r' [Hsim Hc] Hr. specialize (Hc id). rewrite Hr in Hc.
  inversion Hc as [o Ho Ho'|? ? ? ? ? ? ? ? ? ? ? ? Ho|row0 row1 v Hs Hst Hw Hu Ho]; [done|].
  destruct (Hsim id v Hs) as (? & ? & _ & Htb & _). simplify_eq. naive_solver.
Qed.

(** A quarantined batch: what is active afterwards was active before. *)
Lemma batch_inactive id row' :
  is_some quarantine = true → rows' !! id = Some row' → row_status_kind row' = "active" →
  ∃ row, rows !! id = Some row ∧ row_status_kind row = "active" ∧ row_grows row row'.
Proof using Hrun.
  intros Hq Hrow' Ha. destruct Hrun as (tombs & _ & _ & Hops).
  assert (∀ row', rows' !! id = Some row' → row_status_kind row' = "active" →
    ∃ row, rows !! id = Some row ∧ row_status_kind row = "active" ∧ row_grows row row') as HI; [|by apply HI].
  eapply (run_unconditional _ _ _ _ (λ r, ∀ row', r !! id = Some row' → row_status_kind row' = "active" →
    ∃ row, rows !! id = Some row ∧ row_status_kind row = "active" ∧ row_grows row row')); [|done|by eapply sim_start|].
  - intros overlay created op r r' [_ Hc] HI row1 Hr Hact. specialize (Hc id). rewrite Hr in Hc.
    inversion Hc as [o Ho Ho'|? ? ? ? ? ? ? ? Hnew ? ? ? Ho|row0 ? v Hs Hst Hw Hu Ho]; simplify_eq.
    + by apply HI.
    + rewrite (nr_status _ _ _ _ _ _ _ _ _ Hnew), Hq in Hact. done.
    + apply row_update_grows in Hu. destruct (HI row0) as (row & ? & ? & ?); [done|by apply Hu|]. exists row. split_and!; [done..|by etrans].
  - intros. eexists. split_and!; [done..|reflexivity].
Qed.

(** An agent's batch: every row it adds or changes is of the agent's own scope. *)
Lemma batch_confined identity id :
  batch_author batch = AgentAuthor identity → rows' !! id ≠ rows !! id →
  ∃ row', rows' !! id = Some row' ∧ row_scope_kind row' = "identity" ∧ row_scope_key row' = identity.
Proof using Hrun.
  intros Ha Hne. destruct Hrun as (tombs & _ & _ & Hops).
  assert (rows' !! id = rows !! id ∨
    ∃ row', rows' !! id = Some row' ∧ row_scope_kind row' = "identity" ∧ row_scope_key row' = identity) as []; [|done|done].
  eapply (run_unconditional _ _ _ _ (λ r, r !! id = rows !! id ∨
    ∃ row', r !! id = Some row' ∧ row_scope_kind row' = "identity" ∧ row_scope_key row' = identity)); [|done|by eapply sim_start|by left].
  intros overlay created op r r' [Hsim Hc] HI. cbv beta in *. specialize (Hc id).
  inversion Hc as [o Ho Ho'|scope ? ? ? ? row ? ? Hnew Hadm ? ? Ho Hr|row0 row1 v Hs Hst [_ Hw] Hu Ho Hr].
  - done.
  - right. exists row. split; [done|]. destruct (na_scope _ _ _ _ _ _ _ _ _ Hadm) as [_ ->%(λ x, x identity Ha)].
    by rewrite (nr_scope_kind _ _ _ _ _ _ _ _ _ Hnew), (nr_scope_key _ _ _ _ _ _ _ _ _ Hnew).
  - right. exists row1. split; [done|]. destruct (Hsim id v Hs) as (? & ? & Hsc & _). rewrite (Hw _ Ha) in Hsc.
    apply row_update_grows in Hu as []. apply row_scope_identity in Hsc as []. simplify_eq. split; congruence.
Qed.
End whole.
