(* ===== verification/MemoryStoreCalls.v ===== *)
(** * Governed memory: what each call does to the file

    Whatever a call of the store does and however it fails, the committed records
    are as before, or one validated batch was applied to them as a whole, under the
    verdict of the gate that was installed, or the call was a usage mark and only
    usage counters moved ([moved]). *)

From S2P Require Import Prelude Strings SqlWorld MemoryRecords MemorySecrets MemoryTaint MemoryStaged MemoryStore MemoryCalls MemoryWalk MemoryStoreInvariants.
Open Scope Z_scope.

(** The write calls of the store. *)
Inductive MemoryCall :=
| OpenRealm
| RememberAuthored (scope : MemoryScope) (r : NewMemoryRecord) (author : MemoryAuthor)
| Remember (realm identity : string) (memory : NewAgentMemory)
| SupersedeWithAuthor (scope : MemoryScope) (prior : string) (r : NewMemoryRecord) (author : MemoryAuthor)
| ForgetInScope (scope : MemoryScope) (id : string) (author : MemoryAuthor)
| Forget (realm identity id : string)
| Propose (scope : MemoryScope) (r : NewMemoryRecord) (author : MemoryAuthor)
| StageCall (batch : StagedMutationBatch)
| CommitCall (token : StageToken)
| DiscardStage (token : StageToken)
| RecordPromotion (pending_id : string) (p : PendingPromotion)
| ResolvePromotion (pending_id status : string)
| RekeyPromotion (old_id new_id : string)
| ReviewQuarantined (request : QuarantineReviewRequest)
| MarkUsage (ids : list string) (event : UsageEvent).

(** The batch a call stages. *)
Definition staged_by (c : MemoryCall) : option StagedMutationBatch :=
  match c with StageCall batch => Some batch | _ => None end.

Section calls.
Context `{Sha256}.
Context (env : MemoryEnv).
Implicit Types (w : World Db Sink) (d : Db).

Definition run_call (c : MemoryCall) w : World Db Sink :=
  match c with
  | OpenRealm => (open_realm env w).2
  | RememberAuthored scope r author => (remember_authored env scope r author w).2
  | Remember realm identity memory => (remember env realm identity memory w).2
  | SupersedeWithAuthor scope prior r author => (supersede_with_author env scope prior r author w).2
  | ForgetInScope scope id author => (forget_in_scope env scope id author w).2
  | Forget realm identity id => (forget env realm identity id w).2
  | Propose scope r author => (propose env scope r author w).2
  | StageCall batch => (stage_call env batch w).2
  | CommitCall token => (commit_call env token w).2
  | DiscardStage token => (discard_stage env token w).2
  | RecordPromotion pending_id p => (record_pending_promotion env pending_id p w).2
  | ResolvePromotion pending_id status => (resolve_pending_promotion env pending_id status w).2
  | RekeyPromotion old_id new_id => (rekey_pending_promotion env old_id new_id w).2
  | ReviewQuarantined request => (review_quarantined env request w).2
  | MarkUsage ids event => (mark_usage_blocking env ids event w).2
  end.

(** The verdict of a gate that was installed. *)
Definition gated (batch : StagedMutationBatch) (quarantine : option string) : Prop :=
  ∃ n, quarantine = gate_at env n ≫= λ g, g (batch_author batch) (batch_kind batch) (batch_evidence batch).

Definition retiers (op : StagedOp) : bool := match op with Retier _ _ _ => true | _ => false end.

(** The batches a call may apply to the file [d]: one it makes itself for its
    author, which retiers nothing, or the staged one its token names. *)
Definition own_batch (author : MemoryAuthor) (kind : StagedBatchKind) (batch : StagedMutationBatch) : Prop :=
  batch_author batch = author ∧ batch_kind batch = kind ∧ Forall (λ op, retiers op = false) (batch_ops batch).
Definition authored (c : MemoryCall) d (batch : StagedMutationBatch) : Prop :=
  match c with
  | RememberAuthored _ _ author | SupersedeWithAuthor _ _ _ author | ForgetInScope _ _ author => own_batch author FreshWrite batch
  | Remember _ _ _ | Forget _ _ _ => own_batch ApplicationAuthor FreshWrite batch
  | ReviewQuarantined request => own_batch (reviewer_author (review_reviewer request)) ReviewVerdict batch
  | CommitCall token => ∃ row, stage d !! token_text token = Some row ∧ stage_batch row = Some batch
  | _ => False
  end.

Definition applied (c : MemoryCall) d d' : Prop :=
  ∃ batch quarantine now mids, authored c d batch ∧ gated batch quarantine ∧
    batch_run env batch quarantine now (records d) mids (records d').

Definition staged_within (c : MemoryCall) d d' : Prop :=
  ∀ token row, stage d' !! token = Some row → stage d !! token = Some row ∨ ∃ b, staged_by c = Some b ∧ stage_batch row = Some b.

(** A usage mark changes usage counters only. *)
Definition marks_usage (c : MemoryCall) : bool := match c with MarkUsage _ _ => true | _ => false end.

Definition moved (c : MemoryCall) d d' : Prop :=
  (records d' = records d ∨ applied c d d' ∨ (marks_usage c = true ∧ rows_used (records d) (records d'))) ∧
  staged_within c d d'.

Lemma moved_refl c d : moved c d d.
Proof. split; [by left|]. by left. Qed.
Lemma moved_eq c d d' : d' = d → moved c d d'.
Proof. intros ->. apply moved_refl. Qed.

(** ** Reads: both copies of the tables stay *)

Definition still w w' : Prop := committed w' = committed w ∧ working w' = working w.
#[global] Instance still_preorder : PreOrder still.
Proof. split; [by split|]. intros w1 w2 w3 [] []. split; congruence. Qed.
Notation reads := (within still).

Lemma reads_memory_sql : reads (sql env).
Proof. by apply within_statement. Qed.
Lemma reads_observe {A} (f : nat → A) : reads (observe f : St A).
Proof. by apply within_observe. Qed.
Lemma reads_table {A} (f : Db → A) : reads (table f).
Proof. by intros w. Qed.
#[local] Hint Resolve reads_memory_sql reads_observe reads_table : meta.

(** Splitting a program that only reads. *)
Ltac reading :=
  repeat first
    [ solve [eauto 2 with meta]
    | apply within_bind; [apply _| |intros ?]
    | progress cbv zeta
    | case_match ].

Lemma reads_validate batch t : reads (validate_in env batch t).
Proof. intros w. by destruct (wp_validate_in env batch t w) as (Hw & Hc & _). Qed.
Lemma reads_load_record realm id : reads (load_record env realm id).
Proof. unfold load_record. reading. Qed.
#[local] Hint Resolve reads_load_record : meta.
Lemma reads_duplicate scope hash : reads (find_duplicate env scope hash).
Proof. unfold find_duplicate. reading. Qed.
Lemma reads_written realm receipt none vanished : reads (written_record env realm receipt none vanished).
Proof. unfold written_record. reading. Qed.
Lemma reads_retier_op resolves op_index op : reads (check_retier_op env resolves op_index op).
Proof. unfold check_retier_op. reading. Qed.
#[local] Hint Resolve reads_duplicate reads_written reads_retier_op : meta.
Lemma reads_retier batch resolves : reads (check_verified_retier_evidence env batch resolves).
Proof.
  unfold check_verified_retier_evidence. destruct resolves as [resolves|]; [|reading]. generalize 0%nat.
  induction (batch_ops batch) as [|op ops IH]; intros n; simpl; reading.
Qed.
Lemma reads_review_receipt realm id : reads (review_receipt env realm id).
Proof. unfold review_receipt. reading. Qed.
Lemma reads_stale realm origin : reads (stale_update_refusal env realm origin).
Proof. unfold stale_update_refusal. reading. Qed.
#[local] Hint Resolve reads_retier reads_review_receipt reads_stale : meta.
Lemma reads_release_checks realm origin : reads (release_checks env realm origin).
Proof. unfold release_checks. reading. Qed.
Lemma reads_recorded_release realm token origin review : reads (check_recorded_release env realm token origin review).
Proof. unfold check_recorded_release. reading. Qed.
#[local] Hint Resolve reads_release_checks reads_recorded_release : meta.
Lemma reads_recorded realm origin : reads (recorded_review env realm origin).
Proof.
  unfold recorded_review. reading. match goal with |- context [find_review _ _ _ ?l] => induction l end; simpl; reading.
Qed.
#[local] Hint Resolve reads_recorded : meta.
Lemma reads_replay realm origin decision : reads (review_replay env realm origin decision).
Proof. unfold review_replay. reading. Qed.
Lemma reads_pending id : reads (pending_promotions_for env id).
Proof. unfold pending_promotions_for. reading. Qed.
#[local] Hint Resolve reads_validate reads_replay reads_pending : meta.

(** ** Statements inside a transaction: the committed tables stay *)

Definition uncommitted w w' : Prop := committed w' = committed w.
#[global] Instance uncommitted_preorder : PreOrder uncommitted.
Proof. split; [by intros w|]. unfold uncommitted. intros w1 w2 w3 ??. congruence. Qed.
Notation inside := (within uncommitted).

Lemma inside_reads {A} (f : St A) : reads f → inside f.
Proof. intros Hf w. apply Hf. Qed.
Lemma inside_update f : inside (update f).
Proof. by intros w. Qed.
Lemma inside_emit e : inside (emit e).
Proof. intros w. unfold emit, modify. simpl. by destruct (sink_present (volatile w)). Qed.
#[local] Hint Resolve inside_update inside_emit : meta.
#[local] Hint Extern 1 (inside _) => apply inside_reads; solve [eauto 2 with meta] : meta.

Ltac writing :=
  repeat first
    [ solve [eauto 2 with meta]
    | apply within_bind; [apply _| |intros ?]
    | progress cbv zeta
    | case_match ].

Lemma inside_insert id scope r trust author derived prior rank quarantine created updated :
  inside (insert_record env id scope r trust author derived prior rank quarantine created updated).
Proof. unfold insert_record, ancestors_reach_quarantine. writing. Qed.
Lemma inside_update_row id f : inside (update_row env id f).
Proof. unfold update_row. writing. Qed.
Lemma inside_id id : inside (id_or_new env id).
Proof. unfold id_or_new, new_memory_id. writing. Qed.
#[local] Hint Resolve inside_insert inside_update_row inside_id : meta.
Lemma inside_op batch op quarantine t : inside (apply_op env batch op quarantine t).
Proof. unfold apply_op, apply_supersede. writing. Qed.
#[local] Hint Resolve inside_op : meta.
Lemma inside_ops batch quarantine token t review n ops : inside (apply_ops env batch quarantine token t review n ops).
Proof. revert n. induction ops; intros n; simpl; writing. Qed.
#[local] Hint Resolve inside_ops : meta.
Lemma inside_batch batch quarantine token t review : inside (apply_batch_in_tx env batch quarantine token t review).
Proof. unfold apply_batch_in_tx. writing. Qed.
Lemma inside_reason batch g : inside (batch_quarantine_reason batch g).
Proof. unfold batch_quarantine_reason. writing. Qed.
Lemma inside_expire id p t : inside (expire_promotion_in_tx env id p t).
Proof. unfold expire_promotion_in_tx. writing. Qed.
#[local] Hint Resolve inside_batch inside_reason inside_expire : meta.
Lemma inside_settle operator t ps expired invalidated : inside (settle_promotions env operator t ps expired invalidated).
Proof. revert expired invalidated. induction ps as [|[id p] ps IH]; intros expired invalidated; simpl; writing. Qed.
#[local] Hint Resolve inside_settle : meta.
Lemma inside_apply_review request g t origin reason : inside (apply_review env request g t origin reason).
Proof. unfold apply_review. writing. Qed.
#[local] Hint Resolve inside_apply_review : meta.
Lemma inside_review request g t : inside (review_in_tx env request g t).
Proof. unfold review_in_tx. writing. Qed.

(** What holds of a successful run, when the committed tables stay in any. *)
Lemma wp_inside {A} (f : St A) (P : A → World Db Sink → Prop) w :
  inside f → wp f (λ a w', ∀ x, a = Ok x → P x w') w →
  wp f (λ a w', committed w' = committed w ∧ ∀ x, a = Ok x → P x w') w.
Proof. intros Hi Hw. split; [apply Hi|exact Hw]. Qed.

(** ** Programs from a connection that was just entered *)

Definition settles (c : MemoryCall) d {A} (f : St A) : Prop :=
  ∀ w, committed w = d → working w = d → wp f (λ _ w', moved c d (committed w')) w.

Lemma settles_read c d {A} (f : St A) : reads f → settles c d f.
Proof. intros Hf w Hc Hw. destruct (Hf w) as [Hc' _]. apply moved_eq. congruence. Qed.
Lemma settles_bind c d {A B} (f : St A) (g : A → St B) :
  reads f → (∀ a, settles c d (g a)) → settles c d (f ≫= g).
Proof.
  intros Hf Hg w Hc Hw. destruct (Hf w) as [Hc' Hw']. unfold wp, mbind, m_bind. destruct (f w) as [[a|e] w'] eqn:Ef; simpl in *.
  - apply Hg; congruence.
  - apply moved_eq. congruence.
Qed.
Lemma settles_table c d {A B} (f : Db → A) (g : A → St B) : settles c d (g (f d)) → settles c d (table f ≫= g).
Proof. intros Hg w Hc Hw. unfold wp, table, mbind, m_bind. simpl. rewrite Hw. by apply Hg. Qed.
Lemma settles_then c d {A B} (f : St A) (g : A → St B) :
  settles c d f → (∀ a, reads (g a)) → settles c d (f ≫= g).
Proof.
  intros Hf Hg w Hc Hw. specialize (Hf w Hc Hw). unfold wp, mbind, m_bind in *. destruct (f w) as [[a|e] w'] eqn:Ef; simpl in *; [|done].
  destruct (Hg a w') as [Hc' _]. by rewrite Hc'.
Qed.

(** A statement of its own transaction that leaves the records. *)
Lemma settles_autocommit c d f :
  records (f d) = records d → staged_within c d (f d) → settles c d (autocommit env f).
Proof.
  intros Hr Hs w Hc Hw. unfold autocommit. wp_step. apply wp_statement.
  - intros e _. by apply moved_eq.
  - wp_step. simpl. rewrite Hw. split; [by left|done].
Qed.

Lemma wp_quarantine_reason batch n w :
  wp (batch_quarantine_reason batch (gate_at env n)) (λ a w', still w w' ∧ ∀ q, a = Ok q → gated batch q) w.
Proof.
  unfold batch_quarantine_reason. cbv zeta.
  set (q := gate_at env n ≫= λ g, g (batch_author batch) (batch_kind batch) (batch_evidence batch)). wp_step.
  eapply (wp_mono _ (λ a w', a = Ok tt ∧ still w w')).
  - destruct q; [|by wp_step]. unfold emit. wp_step. split; [done|]. by destruct (sink_present _).
  - intros ? w1 [-> Hs]. wp_step. split; [done|]. intros ? [= <-]. by exists n.
Qed.

(** What a batch writes to the tables. *)
Record batch_written (batch : StagedMutationBatch) (q : option string) (token : string) (t : Z) (mids : list string) d d' : Prop := {
  bw_records : batch_run env batch q t (records d) mids (records d');
  bw_audit : audit d' = audit d ++ audit_of batch q t token None 0 (batch_ops batch) mids;
  bw_stage : stage d' = delete token (stage d);
  bw_proposals : proposals d' = proposals d;
  bw_promotions : pending_promotions d' = pending_promotions d;
}.

(** A batch in a transaction of its own: all of it or nothing. *)
Lemma wp_apply_batch_tx batch n token t w :
  wp (apply_batch_tx env batch (gate_at env n) token t)
    (λ a w', match a with
             | Err _ => committed w' = committed w
             | Ok receipt => ∃ q mids, gated batch q ∧ receipt = mkCommitReceipt token (length (batch_ops batch)) mids ∧
                 batch_written batch q token t mids (working w) (committed w')
             end) w.
Proof.
  unfold apply_batch_tx. wp_step. eapply wp_mono; [apply wp_quarantine_reason|].
  intros [q|e] w1 [[Hc1 Hw1] Hq]; [|done]. specialize (Hq q eq_refl). wp_step. apply wp_statement; [done|].
  wp_step. eapply wp_mono; [apply wp_inside; [eauto with meta|apply wp_apply_batch_in_tx]|].
  intros [receipt|e] w2 [Hc2 Hrun]; [|simpl in *; congruence].
  destruct (Hrun receipt eq_refl) as (mids & -> & Hb & _ & _ & ? & ? & ? & ?). simpl in *.
  wp_step. apply wp_commit_tables; [intros; simpl; congruence|]. wp_step. simpl. rewrite Hw1 in *.
  exists q, mids. split_and!; [done..|]. by split.
Qed.

Lemma settles_batch c d batch n token t :
  authored c d batch → settles c d (apply_batch_tx env batch (gate_at env n) token t).
Proof.
  intros Hk w Hc Hw. eapply wp_mono; [apply wp_apply_batch_tx|]. intros [receipt|e] w' Ha; [|apply moved_eq; congruence].
  destruct Ha as (q & mids & Hq & _ & []). rewrite Hw in *. split.
  - right; left. by exists batch, q, t, mids.
  - intros tok row. rewrite bw_stage0. intros [_ ?]%lookup_delete_Some. by left.
Qed.

(** ** A review *)

(** Promotions are settled: the records stay, stage tokens only go. *)
Definition shrinks w w' : Prop :=
  records (working w') = records (working w) ∧ stage (working w') ⊆ stage (working w).
#[global] Instance shrinks_preorder : PreOrder shrinks.
Proof. split; [by split|]. intros w1 w2 w3 [] []. split; [congruence|by etrans]. Qed.
Notation settling := (within shrinks).

Lemma settling_reads {A} (f : St A) : reads f → settling f.
Proof. intros Hf w. unfold shrinks. destruct (Hf w) as [_ ->]. done. Qed.
Lemma settling_emit e : settling (emit e).
Proof. intros w. unfold emit, modify. simpl. by destruct (sink_present (volatile w)). Qed.
Lemma settling_update f : (∀ d, records (f d) = records d ∧ stage (f d) ⊆ stage d) → settling (update f).
Proof. intros Hf w. apply Hf. Qed.
#[local] Hint Resolve settling_emit : meta.
#[local] Hint Extern 1 (settling _) => apply settling_reads; solve [eauto 2 with meta] : meta.

Lemma settling_expire id p t : settling (expire_promotion_in_tx env id p t).
Proof.
  unfold expire_promotion_in_tx. writing; apply settling_update; intros d; simpl; [|done].
  split; [done|apply delete_subseteq].
Qed.
#[local] Hint Resolve settling_expire : meta.
Lemma settling_settle operator t ps expired invalidated : settling (settle_promotions env operator t ps expired invalidated).
Proof. revert expired invalidated. induction ps as [|[id p] ps IH]; intros expired invalidated; simpl; writing. Qed.
#[local] Hint Resolve settling_settle : meta.

Lemma review_ops_retier_nothing request origin : Forall (λ op, retiers op = false) (review_ops request origin).
Proof.
  unfold review_ops, quarantine_release_ops. destruct (review_decision request), (supersedes origin); repeat constructor.
Qed.

Definition reviewed request w w' : Prop :=
  (records (working w') = records (working w) ∨ applied (ReviewQuarantined request) (working w) (working w')) ∧ stage (working w') ⊆ stage (working w).

(** The rest of a program that only reads, or refuses. *)
Lemma reviewed_shrinks request w w' : shrinks w w' → reviewed request w w'.
Proof. intros [Hr Hs]. split; [by left|done]. Qed.
Lemma reviewed_then request w w1 w2 : shrinks w w1 → reviewed request w1 w2 → reviewed request w w2.
Proof.
  intros [Hr Hs] [Hrec Hst]. split; [|by etrans]. destruct Hrec as [Hrec|(batch & q & t & mids & Hk & Hg & Hrun)]; [left; congruence|].
  right. exists batch, q, t, mids. by rewrite Hr in *.
Qed.
Lemma reviewed_still request w w1 w2 : reviewed request w w1 → still w1 w2 → reviewed request w w2.
Proof. unfold reviewed. by intros ? [_ ->]. Qed.

Notation decides request w := (λ a w', ∀ x, a = Ok x → reviewed request w w').

Lemma decides_settling request {A} (f : St A) w0 w : shrinks w0 w → settling f → wp f (decides request w0) w.
Proof. intros Hw Hf x _. apply reviewed_shrinks. etrans; [done|apply Hf]. Qed.
Lemma decides_bind request {A B} (f : St A) (g : A → St B) w0 w :
  shrinks w0 w → settling f → (∀ a w', shrinks w0 w' → wp (g a) (decides request w0) w') → wp (f ≫= g) (decides request w0) w.
Proof.
  intros Hw Hf Hg. eapply (wp_then _ _ (λ _ w', shrinks w0 w')); [|done|done]. intros x _. etrans; [done|apply Hf].
Qed.
Lemma decides_read request {A} (f : St A) w0 w : reviewed request w0 w → reads f → wp f (decides request w0) w.
Proof. intros Hw Hf x _. eapply reviewed_still; [done|apply Hf]. Qed.

Lemma wp_apply_review request n t origin reason w :
  wp (apply_review env request (gate_at env n) t origin reason) (decides request w) w.
Proof.
  unfold apply_review. cbv zeta. apply decides_bind; [done|eauto with meta|]. intros ps w1 H1.
  apply decides_bind; [done|eauto with meta|]. intros [[expired invalidated]|refusal] w2 H2; [|by apply decides_settling; eauto with meta].
  apply decides_bind; [done|case_match; eauto with meta|]. intros [refusal|] w3 H3; [by apply decides_settling; eauto with meta|].
  wp_step. eapply wp_mono; [apply wp_quarantine_reason|]. intros [q|e] w4 [[_ Hw4] Hq]; [|done]. specialize (Hq q eq_refl).
  assert (shrinks w w4) as H4 by (unfold shrinks in *; by rewrite Hw4).
  apply decides_bind; [done|eauto with meta|]. intros token w5 H5.
  eapply wp_then; [apply wp_apply_batch_in_tx|done|]. intros receipt w6 (mids & _ & Hb & _ & _ & _ & _ & Hst & _).
  apply decides_read; [|writing].
  eapply reviewed_then; [exact H5|]. split; [right|rewrite Hst; apply delete_subseteq].
  eexists _, q, t, mids. split_and!; [|exact Hq|exact Hb]. split_and!; [done..|]. apply review_ops_retier_nothing.
Qed.

Lemma wp_review_in_tx request n t w : wp (review_in_tx env request (gate_at env n) t) (decides request w) w.
Proof.
  unfold review_in_tx. cbv zeta. wp_step. eapply (wp_mono _ (λ _ w', still w w')); [apply reads_load_record|].
  intros [loaded|e] w1 Hs; [|done].
  assert (∀ {A} (f : St A), wp f (decides request w1) w1 → wp f (decides request w) w1) as Hlift.
  { intros A f Hf. eapply wp_mono; [exact Hf|]. intros a w2 Hd x Hx. specialize (Hd x Hx). unfold reviewed in *. by rewrite (proj2 Hs) in Hd. }
  apply Hlift. destruct (opt_filter _ _) as [origin|]; [|by wp_step; intros; apply reviewed_shrinks].
  case_match; [by wp_step; intros; apply reviewed_shrinks|].
  destruct (status origin); [by wp_step; intros; apply reviewed_shrinks..|apply wp_apply_review|apply decides_settling; [done|eauto with meta]].
Qed.

(** ** Every call *)

Definition moves (c : MemoryCall) {A} (f : St A) : Prop :=
  ∀ w, wp f (λ _ w', moved c (committed w) (committed w')) w.

Lemma moves_run c {A} (f : St A) w : moves c f → moved c (committed w) (committed (f w).2).
Proof. intros Hf. apply Hf. Qed.
Lemma moves_inside c {A} (f : St A) : inside f → moves c f.
Proof. intros Hf w. apply moved_eq, Hf. Qed.
Lemma moves_bind c {A B} (f : St A) (g : A → St B) : inside f → (∀ a, moves c (g a)) → moves c (f ≫= g).
Proof.
  intros Hf Hg w. specialize (Hf w). unfold uncommitted in Hf. unfold wp, mbind, m_bind. destruct (f w) as [[a|e] w'] eqn:Ef; simpl in *.
  - rewrite <- Hf. apply Hg.
  - by apply moved_eq.
Qed.
Lemma moves_then c {A B} (f : St A) (g : A → St B) : moves c f → (∀ a, inside (g a)) → moves c (f ≫= g).
Proof.
  intros Hf Hg w. specialize (Hf w). unfold wp, mbind, m_bind in *. destruct (f w) as [[a|e] w'] eqn:Ef; simpl in *; [|done].
  by rewrite (Hg a w').
Qed.
Lemma moves_gate c {B} (g : option LlmWriteGate → St B) : (∀ n, moves c (g (gate_at env n))) → moves c (gate env ≫= g).
Proof. intros Hg w. wp_step. apply wp_observe. apply (Hg (observed w) (tick w)). Qed.
Lemma moves_enter c {A} (f : St A) : (∀ d, settles c d f) → moves c (with_realm_conn env f).
Proof.
  intros Hf w. apply wp_enter; [intros; by apply moved_eq|]. by apply (Hf (committed w)).
Qed.

Lemma settles_direct c d batch n :
  authored c d batch → settles c d (apply_direct env batch (gate_at env n)).
Proof.
  intros Hk. unfold apply_direct. apply settles_bind; [eauto with meta|intros token].
  apply settles_bind; [eauto with meta|intros t]. by apply settles_batch.
Qed.
Lemma one_op_own realm author op : retiers op = false → own_batch author FreshWrite (one_op realm author op).
Proof. intros Ho. split_and!; [done..|]. by repeat constructor. Qed.

#[local] Hint Resolve inside_review : meta.
#[local] Hint Extern 1 (settles _ _ _) => apply settles_read; solve [eauto 2 with meta] : meta.
#[local] Hint Extern 1 (moves _ _) => apply moves_inside; solve [eauto 2 with meta] : meta.

(** Splitting a call into reads, a write, and reads. *)
Ltac calling :=
  repeat first
    [ solve [eauto 2 with meta]
    | progress cbv zeta
    | apply moves_gate; intros ?
    | apply moves_enter; intros ?
    | apply moves_bind; [solve [writing]|intros ?]
    | apply settles_direct; solve [by apply one_op_own|auto using one_op_own]
    | apply settles_autocommit
    | apply settles_table
    | apply settles_bind; [solve [reading]|intros ?]
    | apply settles_then; [|intros ?; solve [reading]]
    | case_match ].

Lemma remember_in_moves c scope r author :
  (∀ d batch, own_batch author FreshWrite batch → authored c d batch) → moves c (remember_in env scope r author).
Proof. intros Hc. unfold remember_in. calling. Qed.
Lemma supersede_moves scope prior r author :
  moves (SupersedeWithAuthor scope prior r author) (supersede_with_author env scope prior r author).
Proof. unfold supersede_with_author. calling. Qed.
Lemma forget_in_moves c scope id author :
  (∀ d batch, own_batch author FreshWrite batch → authored c d batch) → moves c (forget_in_scope env scope id author).
Proof. intros Hc. unfold forget_in_scope. calling. Qed.
Lemma propose_moves scope r author : moves (Propose scope r author) (propose env scope r author).
Proof. unfold propose. calling. intros token row ?. by left. Qed.
Lemma stage_moves batch : moves (StageCall batch) (stage_call env batch).
Proof.
  unfold stage_call. calling. intros token row. simpl. intros [[<- <-]|[_ ?]]%lookup_insert_Some; [right|by left]. by exists batch.
Qed.
Lemma settles_lift c d {A B} (r : Result A AgentMemoryError) (g : A → St B) :
  (∀ a, r = Ok a → settles c d (g a)) → settles c d (lift_result r ≫= g).
Proof. intros Hg w Hc Hw. wp_step. wp_step. destruct r as [a|e]; [by apply Hg|by apply moved_eq]. Qed.
Lemma commit_moves token : moves (CommitCall token) (commit_call env token).
Proof.
  unfold commit_call. apply moves_gate. intros n. apply moves_bind; [writing|intros resolves].
  apply moves_enter. intros d. apply settles_bind; [reading|intros _]. apply settles_table.
  apply settles_lift. intros row Hrow. apply settles_lift. intros batch Hbatch.
  apply settles_bind; [reading|intros ?]. apply settles_bind; [reading|intros t]. apply settles_batch.
  exists row. unfold ok_or in *.
  destruct (stage d !! token_text token); simplify_eq/=. by destruct (stage_batch row); simplify_eq/=.
Qed.
Lemma review_moves request : moves (ReviewQuarantined request) (review_quarantined env request).
Proof.
  unfold review_quarantined. apply moves_gate. intros n. apply moves_then.
  - apply moves_enter. intros d. apply settles_bind; [reading|intros _]. apply settles_bind; [reading|intros t].
    intros w Hc Hw. wp_step. eapply wp_mono; [apply wp_inside; [eauto with meta|apply wp_review_in_tx]|].
    intros [decided|e] w1 [Hc1 Hd]; [|apply moved_eq; congruence]. specialize (Hd decided eq_refl). wp_step. case_match.
    + apply wp_commit_tables; [intros; apply moved_eq; simpl; congruence|]. wp_step. simpl. rewrite <- Hw. destruct Hd as [Hrec Hst].
      split; [naive_solver|]. intros token row Hrow. left. by eapply lookup_weaken.
    + wp_step. wp_step. apply moved_eq. congruence.
  - intros decided. unfold review_events. writing.
Qed.

Lemma staged_delete c d (f : Db → Db) :
  stage (f d) ⊆ stage d → staged_within c d (f d).
Proof. intros Hs token row Hrow. left. by eapply lookup_weaken. Qed.

(** A usage mark, statement by statement. *)
Lemma mark_each_used event now ids w :
  working w = committed w →
  wp (mark_each env event now ids) (λ _ w', rows_used (records (committed w)) (records (committed w')) ∧
    stage (committed w') = stage (committed w)) w.
Proof.
  revert w. induction ids as [|id ids IH]; intros w Hw; simpl; [by wp_step|]. wp_step. apply wp_statement; [done|].
  wp_step. unfold table at 1. do 2 wp_step. simpl. destruct (records (working w) !! id) as [row|]; simpl.
  - unfold autocommit. wp_step. apply wp_statement; [done|]. wp_step. simpl. eapply wp_mono; [by apply IH|].
    intros _ w' [Hu Hs]. simpl in *. rewrite Hw in *. split; [|done]. etrans; [apply rows_used_alter|exact Hu].
  - wp_step. exact (IH (tick w) Hw).
Qed.
Lemma mark_usage_moves ids event : moves (MarkUsage ids event) (mark_usage_blocking env ids event).
Proof.
  apply moves_bind; [writing|intros now]. apply moves_enter. intros d w <- Hw.
  eapply wp_mono; [by apply mark_each_used|]. intros _ w' [Hu Hs]. split; [by right; right|].
  intros token row Hrow. left. by rewrite <- Hs.
Qed.

(** Every call moves the file as [moved] says. *)
Lemma call_moved c w : moved c (committed w) (committed (run_call c w)).
Proof.
  destruct c; apply moves_run.
  - unfold open_realm. calling. apply staged_delete. simpl. apply map_filter_subseteq.
  - apply moves_then; [by apply remember_in_moves|intros; writing].
  - apply moves_then; [by apply remember_in_moves|intros; writing].
  - apply supersede_moves.
  - by apply forget_in_moves.
  - apply moves_bind; [writing|intros _; by apply forget_in_moves].
  - apply propose_moves.
  - apply stage_moves.
  - apply commit_moves.
  - unfold discard_stage. calling. apply staged_delete, delete_subseteq.
  - unfold record_pending_promotion. calling. by apply staged_delete.
  - unfold resolve_pending_promotion. calling. by apply staged_delete.
  - unfold rekey_pending_promotion. calling. by apply staged_delete.
  - apply review_moves.
  - apply mark_usage_moves.
Qed.
End calls.
