(* ===== verification/MemoryStoreTheorems.v ===== *)
(** * Governed memory: the theorems about the store

    Runs of the store are lists of its calls over one realm's file, with whatever
    statements, reads and connections fail on the way. *)

From S2P Require Import Prelude Strings SqlWorld MemoryRecords MemorySecrets MemoryTaint MemoryStaged MemoryStore MemoryCalls MemoryWalk MemoryStoreInvariants MemoryStoreCalls.
Open Scope Z_scope.

Section theorems.
Context `{Sha256}.
Context (env : MemoryEnv).
Implicit Types (w : World Db Sink) (d : Db).

Definition run_calls (cs : list MemoryCall) w : World Db Sink := foldl (λ w c, run_call env c w) w cs.

(** Invariants of the records, kept by every batch and by usage marks. *)
Lemma run_calls_rows (I : Rows → Prop) cs w :
  (∀ batch q t rows mids rows', batch_run env batch q t rows mids rows' → I rows → I rows') →
  (∀ rows rows', rows_used rows rows' → I rows → I rows') →
  I (records (committed w)) → I (records (committed (run_calls cs w))).
Proof.
  intros Hb Hu. unfold run_calls. revert w. induction cs as [|c cs IH]; intros w Hi; simpl; [done|]. apply IH.
  destruct (call_moved env c w) as [[->|[(batch & q & t & mids & _ & _ & Hrun)|[_ Hused]]] _]; [done| |].
  - by eapply Hb.
  - by eapply Hu.
Qed.

(** C24: records are append-only and a tombstone is final.  Whatever calls are made
    and whatever fails, a stored record keeps its scope, kind, title, description,
    body, tags, provenance, sources, hash, creation time and quarantine mark for
    ever; one that is not active never becomes active again; and once tombstoned,
    its row is frozen but for the usage counters, which a usage mark counts up in
    rows of any status. *)
Theorem records_are_append_only cs w id row :
  records (committed w) !! id = Some row →
  ∃ row', records (committed (run_calls cs w)) !! id = Some row' ∧ row_grows row row' ∧
    (row_status_kind row = "tombstoned" → ∃ usage, row' = row_with_usage usage row).
Proof.
  intros Hrow. eapply (run_calls_rows (λ rows, ∃ row', rows !! id = Some row' ∧ row_grows row row' ∧
    (row_status_kind row = "tombstoned" → used row row'))).
  - intros batch q t rows mids rows' Hrun (row1 & Hr1 & Hg1 & Hf1).
    destruct (batch_rows_grow _ _ _ _ _ _ _ Hrun _ _ Hr1) as (row2 & Hr2 & Hg2). exists row2. split_and!; [done|by etrans|].
    intros Ht. destruct (Hf1 Ht) as [u ->]. pose proof (batch_frozen _ _ _ _ _ _ _ Hrun _ _ Hr1 Ht).
    exists u. congruence.
  - intros rows rows' Hu (row1 & Hr1 & Hg1 & Hf1). destruct (rows_used_Some _ _ _ _ Hu Hr1) as (row2 & Hr2 & Hu2).
    exists row2. split_and!; [done|etrans; [done|by apply used_grows]|intros Ht; etrans; [by apply Hf1|done]].
  - exists row. split_and!; [done|reflexivity|reflexivity].
Qed.

Definition vetted (row : RecordRow) : Prop :=
  detect_secret (row_title row) = None ∧ detect_secret (row_description row) = None ∧ detect_secret (row_body row) = None ∧
  validate_record_fields (row_title row) (row_description row) (row_body row) = Ok tt ∧
  row_content_hash row = content_hash (row_title row) (row_body row).

Lemma batch_vetted batch q t rows mids rows' :
  batch_run env batch q t rows mids rows' → map_Forall (λ _, vetted) rows → map_Forall (λ _, vetted) rows'.
Proof.
  intros (tombs & _ & _ & Hops). eapply (run_unconditional _ _ _ _ (map_Forall (λ _, vetted))); [|done|by eapply sim_start].
  intros overlay created op r r' [_ Hc] HI id row' Hrow'. specialize (Hc id). rewrite Hrow' in Hc.
  inversion Hc as [o Ho Ho'|? ? ? ? ? ? ? ? Hnew Hadm ? ? Ho|row0 ? v Hs Hst Hw Hu Ho]; simplify_eq.
  - by apply (HI id).
  - destruct Hnew, Hadm. unfold vetted. rewrite nr_title, nr_description, nr_body, nr_hash.
    apply record_secret_parts in na_secret as (? & ? & ?). done.
  - symmetry in Ho. pose proof (HI _ _ Ho) as Hv. apply row_update_grows in Hu as []. unfold vetted in *. congruence.
Qed.

(** C35: what is stored was vetted.  In a file that only the store's calls wrote, no
    title, description or body of any record, active, quarantined or dead, matches
    a credential pattern; all are within the size limits; and the indexed hash is
    the hash of the content. *)
Theorem stored_content_is_vetted cs w id row :
  records (committed w) = ∅ → records (committed (run_calls cs w)) !! id = Some row → vetted row.
Proof.
  intros H0. apply (run_calls_rows (map_Forall (λ _, vetted))).
  - intros. by eapply batch_vetted.
  - intros rows rows' Hu Hv i r Hr. destruct (rows_used_back _ _ _ _ Hu Hr) as (r0 & Hr0 & [u ->]). exact (Hv i r0 Hr0).
  - rewrite H0. apply map_Forall_empty.
Qed.

(** ** Provenance *)

(** The gate binds language models only. *)
Definition gate_binds_llm : Prop :=
  ∀ n g author kind evidence, gate_at env n = Some g → is_some (g author kind evidence) = true → is_llm author = true.
Definition modest (batch : StagedMutationBatch) : Prop := ops_ok no_self_promotion ∅ (batch_ops batch).
Definition modest_call (c : MemoryCall) : Prop := ∀ batch, staged_by c = Some batch → modest batch.

Lemma no_retier_modest ops created : Forall (λ op, retiers op = false) ops → ops_ok no_self_promotion created ops.
Proof.
  intros Hf. revert created. induction Hf as [|op ops Hop _ IH]; intros created; simpl; [done|]. split; [by destruct op|done].
Qed.

Lemma authored_modest c d batch :
  (∀ token row b, stage d !! token = Some row → stage_batch row = Some b → modest b) → authored c d batch → modest batch.
Proof.
  intros Hst. destruct c; simpl; try done; try (by intros (_ & _ & ?); apply no_retier_modest).
  intros (row & ? & ?). by eapply Hst.
Qed.

Lemma rows_used_ok rows rows' : rows_used rows rows' → rows_ok rows → rows_ok rows'.
Proof.
  intros Hu Hok id row' Hrow'. destruct (rows_used_back _ _ _ _ Hu Hrow') as (row & Hrow & [u ->]).
  pose proof (Hok _ _ Hrow) as Hr. eapply row_ok_grow; [|exact Hr|by apply used_grows; eexists|apply Hr..].
  intros i r Hi. destruct (rows_used_Some _ _ _ _ Hu Hi) as (r' & Hr' & ?). exists r'. split; [done|by apply used_grows].
Qed.

Lemma run_calls_ok cs w :
  (∀ n, view_fault env n = false) → gate_binds_llm → Forall modest_call cs →
  rows_ok (records (committed w)) →
  (∀ token row b, stage (committed w) !! token = Some row → stage_batch row = Some b → modest b) →
  rows_ok (records (committed (run_calls cs w))).
Proof.
  intros Hr Hgate. unfold run_calls. revert w. induction cs as [|c cs IH]; intros w Hcs Hok Hst; simpl; [done|].
  apply Forall_cons in Hcs as [Hc Hcs]. destruct (call_moved env c w) as [Hrec Hsw]. apply IH; [done| |].
  - destruct Hrec as [->|[(batch & q & t & mids & Ha & [n Hq] & Hrun)|[_ Hu]]]; [done| |by eapply rows_used_ok].
    eapply batch_rows_ok; [exact Hrun|done| | |done].
    + intros Hs. destruct (gate_at env n) as [g|] eqn:Eg; [|by rewrite Hq in Hs]. rewrite Hq in Hs. by eapply Hgate.
    + intros _. by eapply authored_modest.
  - intros token row b Hrow Hb. destruct (Hsw token row Hrow) as [?|(b' & ? & ?)]; [by eapply Hst|].
    assert (b' = b) as -> by congruence. by apply Hc.
Qed.

Lemma descends_clean rows a b row :
  rows_ok rows → descends rows a b → rows !! a = Some row → row_ever_quarantined row = false →
  ∃ brow, rows !! b = Some brow ∧ row_ever_quarantined brow = false ∧ row_status_kind brow ≠ "quarantined".
Proof.
  intros Hok Hd. revert row. induction Hd as [id|id row0 x y Hrow0 Hx _ IH]; intros row Hrow Hev.
  - exists row. split_and!; [done..|]. intros Hq. pose proof (ok_marked _ _ (Hok _ _ Hrow) Hq). congruence.
  - assert (row0 = row) as -> by congruence. destruct (ok_sources _ _ (Hok _ _ Hrow) x Hx) as (xrow & Hxrow & _ & Hinh). apply (IH xrow Hxrow).
    destruct (row_ever_quarantined xrow); [|done]. by rewrite Hinh in Hev.
Qed.

(** C21: trust is never laundered.  Take any run of the store's calls from an empty
    file in which the validator's reads succeed, the gate binds language models
    only, and no staged batch lifts a record it creates itself above the ceiling.
    Then a record whose tier is above [AgentObserved] has tier [AgentVerified], was
    never quarantined, and neither it nor anything it descends from, through any
    chain of supersedes and derivations, is or ever was quarantined; all of these
    ancestors are still stored. *)
Theorem promoted_records_are_clean cs w id row :
  (∀ n, view_fault env n = false) → gate_binds_llm → Forall modest_call cs →
  records (committed w) = ∅ → stage (committed w) = ∅ →
  let rows := records (committed (run_calls cs w)) in
  rows !! id = Some row → row_above_ceiling row →
  tier_parse (row_trust row) = Some AgentVerified ∧
  ∀ b, descends rows id b →
    ∃ brow, rows !! b = Some brow ∧ row_ever_quarantined brow = false ∧ row_status_kind brow ≠ "quarantined".
Proof.
  intros Hr Hgate Hcs H0 Hs0 rows Hrow Habove.
  assert (rows_ok rows) as Hok.
  { apply run_calls_ok; [done..| |]; [rewrite H0; by intros ? ? ?%lookup_empty_Some|rewrite Hs0; by intros ? ? ? ?%lookup_empty_Some]. }
  pose proof (Hok _ _ Hrow) as Hrok. split.
  - destruct Habove as (t & Ht & Hgt), (ok_tier _ _ Hrok) as (t' & Ht' & Hle). assert (t' = t) as -> by congruence. rewrite Ht.
    destruct t; simpl in *; try done; lia.
  - intros b Hd. eapply descends_clean; [done..|]. by apply (ok_clean _ _ Hrok).
Qed.

(** ** Quarantine and scope *)

(** C22: a tainted identity makes nothing active.  While the tracker behind the
    installed gate holds taint for an agent, no call in its name, be it a write, a
    supersede, a forget or the commit of a batch it staged, adds an active record
    or re-activates one, whatever the configured posture and whatever fails: each
    record that is active afterwards was active before, with the same content. *)
Theorem tainted_identity_activates_nothing c identity (tracker : nat → Tracker) (posture : nat → AgentMemoryLlmWrites) w id row' :
  (∀ n, gate_at env n = Some (TaintLlmWriteGate (Some (tracker n)) (posture n)) ∧ is_Some (identity_taint (tracker n) identity)) →
  (∀ batch, authored c (committed w) batch → batch_author batch = AgentAuthor identity) →
  records (committed (run_call env c w)) !! id = Some row' → row_status_kind row' = "active" →
  ∃ row, records (committed w) !! id = Some row ∧ row_status_kind row = "active" ∧ row_grows row row'.
Proof.
  intros Hgate Hauthor Hrow' Hact. destruct (call_moved env c w) as [[Heq|[(batch & q & t & mids & Ha & [n Hq] & Hrun)|[_ Hu]]] _].
  - rewrite Heq in Hrow'. exists row'. split_and!; [done..|reflexivity].
  - eapply batch_inactive; [done| |done|done]. destruct (Hgate n) as [Hg [st Hst]]. rewrite Hq, Hg, (Hauthor batch Ha).
    unfold TaintLlmWriteGate. simpl. case_match; [done|]. by rewrite Hst.
  - destruct (rows_used_back _ _ _ _ Hu Hrow') as (row & Hrow & Hr). exists row. split_and!; [done| |by apply used_grows].
    by apply (used_grows _ _ Hr).
Qed.

(** C36: an agent writes only its own scope.  Whatever an agent's call does, also
    through a staged batch, and even where the validator's reads fail, every
    record it adds or changes belongs to that agent's identity scope.  The one call
    that touches rows of other scopes is the usage mark, which has no author and
    changes nothing but the usage counters. *)
Theorem agents_write_only_their_scope c identity w id :
  (∀ batch, authored c (committed w) batch → batch_author batch = AgentAuthor identity) →
  records (committed (run_call env c w)) !! id ≠ records (committed w) !! id →
  ∃ row', records (committed (run_call env c w)) !! id = Some row' ∧
    (row_scope_kind row' = "identity" ∧ row_scope_key row' = identity ∨
     marks_usage c = true ∧ ∃ row usage, records (committed w) !! id = Some row ∧ row' = row_with_usage usage row).
Proof.
  intros Hauthor Hne. destruct (call_moved env c w) as [[Heq|[(batch & q & t & mids & Ha & _ & Hrun)|[Hm Hu]]] _].
  - by rewrite Heq in Hne.
  - edestruct batch_confined as (row' & ? & ?); [done|by apply Hauthor|done|]. eauto.
  - specialize (Hu id). inversion Hu as [row row' [u ->] Hr Hr'|]; [|congruence]. eexists. split; [done|]. right.
    split; [done|]. by exists row, u.
Qed.
End theorems.
