(* ===== verification/MemoryReview.v ===== *)
(** * Governed memory: commits and reviews happen once

    A stage token is spent by the commit that uses it, and a quarantined record is
    decided by one review: its row is tombstoned by either verdict and a tombstoned
    row can only be answered for. *)

From S2P Require Import Prelude Strings SqlWorld MemoryRecords MemorySecrets MemoryTaint MemoryTaintTheorems MemoryStaged MemoryStore MemoryCalls MemoryWalk MemoryStoreInvariants MemoryStoreCalls MemoryStoreTheorems.
Open Scope Z_scope.

Section review.
Context `{Sha256}.
Context (env : MemoryEnv).
Implicit Types (w : World Db Sink) (d : Db).

Definition same_committed {A} w (r : A * World Db Sink) : Prop := committed r.2 = committed w.

(** What a commit did, by its answer. *)
Definition commit_spec (token : StageToken) w (r : Result CommitReceipt AgentMemoryError * World Db Sink) : Prop :=
  match r with
  | (Err _, w') => committed w' = committed w
  | (Ok receipt, w') =>
      ∃ row batch q mids t, stage (committed w) !! token_text token = Some row ∧ stage_batch row = Some batch ∧
        gated env batch q ∧ receipt = mkCommitReceipt (token_text token) (length (batch_ops batch)) mids ∧
        batch_written env batch q (token_text token) t mids (committed w) (committed w')
  end.

Lemma wp_commit_call token w : wp (commit_call env token) (λ a w', commit_spec token w (a, w')) w.
Proof.
  unfold commit_call. wp_step. apply wp_observe. wp_step. apply wp_observe. unfold with_realm_conn. apply wp_enter; [done|].
  wp_step. apply wp_statement; [done|]. wp_step. unfold table. wp_step. cbn [working with_working tick committed].
  wp_step. wp_step. destruct (stage (committed w) !! token_text token) as [row|] eqn:Es; [|done]. simpl.
  wp_step. wp_step. destruct (stage_batch row) as [batch|] eqn:Eb; [|done]. simpl.
  wp_step. eapply (within_wp still); [apply reads_retier|].
  intros [[]|e] w2 [Hc Hw]; [|done]. wp_step. apply wp_observe. eapply wp_mono; [apply wp_apply_batch_tx|].
  intros [receipt|e] w3 Ha; simpl in *; [|congruence]. destruct Ha as (q & mids & Hq & Hr & Hb). rewrite Hw in Hb. simpl in Hb.
  by eexists row, batch, q, mids, _.
Qed.

(** A commit is all or nothing and spends its token.  On an error the file is
    as before.  On success the token named a staged batch, the whole batch was
    validated and applied under the gate's verdict, one audit row per operation was
    appended in order, and the token is gone; nothing else changed.  A commit of a
    token that is not staged any more is refused and changes nothing. *)
Theorem commit_is_all_or_nothing token w :
  commit_spec token w (commit_call env token w) ∧
  (stage (committed w) !! token_text token = None → ∃ e, (commit_call env token w).1 = Err e).
Proof.
  pose proof (wp_commit_call token w) as Hw. unfold wp in Hw. destruct (commit_call env token w) as [[receipt|e] w'] eqn:Ec; simpl in *;
    split; eauto. intros Hn. destruct Hw as (row & ? & ? & ? & ? & ? & _). congruence.
Qed.

(** ** Reviews *)

Definition decides_now (decided : Result QuarantineReviewOutcome QuarantineReviewRefusal) : bool :=
  match decided with Ok outcome => outcome_applied outcome | Err _ => false end.

Definition tombstoned_in (id : string) (rows : Rows) : Prop :=
  ∃ row, rows !! id = Some row ∧ row_status_kind row = "tombstoned".

(** Its last operation buries the record. *)
Lemma run_last_tombstone batch q t view overlay rows ops id ra mids rows' :
  ops_run batch q t view overlay rows (ops ++ [Tombstone id ra]) mids rows' →
  ∀ created, Sim batch q view overlay created rows → is_Some (rows !! id) → tombstoned_in id rows'.
Proof.
  revert overlay rows mids. induction ops as [|op ops IH]; intros overlay rows mids Hrun created Hsim [row Hs]; simpl in Hrun;
    inversion Hrun as [|? overlay1 ? rows1 ? ? ? ? mids1 Hadm Hop Hrest Hov Hro Hops]; subst.
  - inversion Hrest; subst. destruct Hop as [_ ->]. eexists. rewrite lookup_alter_eq, Hs. done.
  - eapply IH; [done|by eapply sim_step|].
    assert (rows_grow rows rows1) as Hg by (eapply op_rows_grow; split; [done|intros; by eapply op_row_change]).
    destruct (Hg _ _ Hs) as (? & ? & _). eauto.
Qed.

Lemma review_ops_end request origin :
  ∃ ops ra, review_ops request origin = ops ++ [Tombstone (memory_id origin) ra].
Proof.
  unfold review_ops, quarantine_release_ops. destruct (review_decision request).
  - eexists [_], _. reflexivity.
  - eexists [], _. reflexivity.
Qed.

Notation buries id := (λ a w', ∀ decided, a = Ok decided → decides_now decided = true → tombstoned_in id (records (working w'))).

Lemma wp_apply_review_buries request g t origin reason w :
  is_Some (records (working w) !! memory_id origin) →
  wp (apply_review env request g t origin reason) (buries (memory_id origin)) w.
Proof.
  intros Hs. unfold apply_review. cbv zeta.
  eapply (wp_then _ _ (λ _ w', shrinks w w')); [by intros x _; apply settling_reads, reads_pending|done|]. intros ps w1 H1.
  eapply (wp_then _ _ (λ _ w', shrinks w w')); [by intros x _; etrans; [exact H1|apply settling_settle]|done|].
  intros [[expired invalidated]|refusal] w2 H2; [|by wp_step; intros ? [= <-]].
  eapply (wp_then _ _ (λ _ w', shrinks w w')).
  { intros x _. etrans; [exact H2|]. apply settling_reads. case_match; [apply reads_release_checks|by intros v]. }
  { done. }
  intros [refusal|] w3 H3; [by wp_step; intros ? [= <-]|].
  eapply (wp_then _ _ (λ _ w', shrinks w w')); [|done|].
  { intros x _. etrans; [exact H3|]. unfold batch_quarantine_reason. cbv zeta. apply within_bind; [apply _| |by intros []].
    case_match; [apply settling_emit|by intros v]. }
  intros q w4 H4. wp_step. apply wp_observe.
  eapply wp_then; [apply wp_apply_batch_in_tx|done|]. intros receipt w6 (mids & _ & (tombs & _ & _ & Hrun) & _). simpl in Hrun.
  destruct (review_ops_end request origin) as (ops & ra & Hops). rewrite Hops in Hrun.
  assert (tombstoned_in (memory_id origin) (records (working w6))) as Ht.
  { eapply (run_last_tombstone _ _ _ _ _ _ _ _ _ _ _ Hrun); [by eapply sim_start|]. by rewrite (proj1 H4). }
  eapply (within_wp still); [|by intros a w7 [_ ->] decided _ _].
  apply within_bind; [apply _|apply reads_review_receipt|intros o]. case_match; [|by intros v].
  apply within_bind; [apply _|apply reads_review_receipt|]. by intros v.
Qed.

(** The record that was loaded is the row's. *)
Definition loads (realm id : string) (rows : Rows) (loaded : option MemoryRecord) : Prop :=
  match loaded with
  | None => rows !! id = None
  | Some r => ∃ row, rows !! id = Some row ∧ into_record env realm id row = Ok r
  end.
Lemma wp_load_record realm id w :
  wp (load_record env realm id) (λ a w', still w w' ∧ ∀ loaded, a = Ok loaded → loads realm id (records (working w)) loaded) w.
Proof.
  unfold load_record. wp_step. apply wp_statement; [done|]. wp_step. unfold table. wp_step. simpl.
  destruct (records (working w) !! id) as [row|] eqn:Er; [|wp_step; split; [done|]; by intros ? [= <-]].
  wp_step. wp_step. destruct (into_record env realm id row) as [r|e] eqn:Ei; [|done].
  wp_step. split; [done|]. intros ? [= <-]. by exists row.
Qed.
Lemma into_record_facts realm id row r :
  into_record env realm id row = Ok r →
  memory_id r = id ∧ status r = status_from_parts (row_status_kind row) (row_status_detail row).
Proof.
  unfold into_record. destruct (scope_from_parts _ _ _); [|done]. simpl. destruct (row_provenance row); [|done]. simpl.
  destruct (kind_parse _); [|done]. simpl. destruct (tier_parse _); [|done]. simpl. by intros [= <-].
Qed.

(** Answering for a past review is no decision. *)
Lemma wp_replay_undecided realm origin decision w :
  wp (review_replay env realm origin decision) (λ a _, ∀ decided, a = Ok decided → decides_now decided = false) w.
Proof.
  unfold review_replay. eapply (wp_then _ _ (λ _ _, True)); [done|done|]. intros [recorded|] w1 _; [|by wp_step; intros ? [= <-]].
  cbv zeta. destruct decision, (audit_verdict (decided_review recorded)), (audit_successor (decided_review recorded)) as [successor|];
    try (by wp_step; intros ? [= <-]);
    (eapply (wp_then _ _ (λ _ _, True)); [done|done|]; intros o w2 _);
    try (eapply (wp_then _ _ (λ _ _, True)); [done|done|]; intros r w3 _); by wp_step; intros ? [= <-].
Qed.

(** What the decision inside the transaction does. *)
Lemma wp_review_in_tx_once request g t w :
  wp (review_in_tx env request g t)
    (λ a w', ∀ decided, a = Ok decided → decides_now decided = true →
       ¬ tombstoned_in (review_memory_id request) (records (working w)) ∧
       tombstoned_in (review_memory_id request) (records (working w'))) w.
Proof.
  unfold review_in_tx. cbv zeta. wp_step. eapply wp_mono; [apply wp_load_record|]. intros [loaded|e] w1 [[_ Hw1] Hl]; [|done].
  specialize (Hl loaded eq_refl). destruct loaded as [origin|]; simpl; [|by wp_step; intros ? [= <-]].
  destruct Hl as (row & Hrow & (Hid & Hst)%into_record_facts). destruct (scope origin =b review_scope request); [|by wp_step; intros ? [= <-]].
  case_match; [by wp_step; intros ? [= <-]|]. destruct (status origin) as [|successor|reason|] eqn:Es; [by wp_step; intros ? [= <-]..| |].
  - eapply wp_mono; [apply wp_apply_review_buries; rewrite Hid, Hw1; eauto|]. intros a w2 Hb decided Ha Hd.
    split; [|rewrite <- Hid; by eapply Hb]. intros (row' & Hrow' & Ht). simplify_eq. rewrite Ht in Hst. done.
  - eapply wp_mono; [apply wp_replay_undecided|]. intros a w2 Hu decided Ha Hd. rewrite (Hu decided Ha) in Hd. done.
Qed.

(** The whole call: it decides, and then buries a record that was not buried, or
    the file stays. *)
Definition buried (request : QuarantineReviewRequest) w w' : Prop :=
  ¬ tombstoned_in (review_memory_id request) (records (committed w)) ∧
  tombstoned_in (review_memory_id request) (records (committed w')).
Definition once (request : QuarantineReviewRequest) w w' : Prop := committed w' = committed w ∨ buried request w w'.

Definition answered (r : Result (Result QuarantineReviewOutcome QuarantineReviewRefusal) AgentMemoryError) : bool :=
  match r with Ok decided => decides_now decided | Err _ => false end.

Lemma wp_review_quarantined request w :
  wp (review_quarantined env request) (λ a w', once request w w' ∧ (answered a = true → buried request w w')) w.
Proof.
  unfold review_quarantined. wp_step. apply wp_observe. wp_step. unfold with_realm_conn. apply wp_enter; [split; [by left|done]|].
  wp_step. apply wp_statement; [split; [by left|done]|]. wp_step. apply wp_observe.
  wp_step. eapply wp_mono; [apply wp_inside; [apply inside_review|apply wp_review_in_tx_once]|]. cbv beta.
  intros [decided|e] w1 [Hc Hd]; [|split; [by left|done]]. simpl in *. specialize (Hd decided eq_refl).
  fold (decides_now decided). wp_step.
  assert (∀ w2, once request w w2 → (decides_now decided = true → buried request w w2) →
    wp (_ ← review_events request decided; mret decided)
      (λ a w', once request w w' ∧ (answered a = true → buried request w w')) w2) as Hend.
  { intros w2 Ho Ha. wp_step. eapply (within_wp uncommitted).
    - unfold review_events. case_match; case_match; try (by intros v); apply inside_emit.
    - intros [[]|e] w3 Hu; unfold once, buried, uncommitted in *; [wp_step|]; rewrite Hu; auto. done. }
  destruct (decides_now decided) eqn:Ed.
  - apply wp_commit_tables; [split; [by left|done]|]. wp_step. apply Hend; [right; by apply Hd|]. intros _. by apply Hd.
  - wp_step. wp_step. apply Hend; [by left|done].
Qed.

(** A quarantined record is reviewed once.  A review either leaves the file as
    it was, or it finds the record not yet tombstoned and leaves it tombstoned; the
    latter is the case whenever it answers that it decided.  From then on, after
    any further calls, every review of that record, with whatever decision, leaves
    the file untouched, and none answers that it decided. *)
Theorem review_decides_once request w cs request' :
  let r := review_quarantined env request w in
  let w2 := run_calls env cs r.2 in
  let r' := review_quarantined env request' w2 in
  once request w r.2 ∧
  (answered r.1 = true → review_memory_id request' = review_memory_id request →
   committed r'.2 = committed w2 ∧ answered r'.1 = false).
Proof.
  intros r w2 r'. destruct (wp_review_quarantined request w) as [Ho Ht]. fold r in Ho, Ht. split; [done|].
  intros Ha Hid. destruct (Ht Ha) as [_ Hb].
  assert (tombstoned_in (review_memory_id request') (records (committed w2))) as Ht2.
  { rewrite Hid. subst w2. apply (run_calls_rows env (tombstoned_in (review_memory_id request))); [| |done].
    - intros batch q t rows mids rows' Hrun (row1 & Hr1 & Ht1). exists row1. split; [by eapply batch_frozen|done].
    - intros rows rows' Hu (row1 & Hr1 & Ht1). destruct (rows_used_Some _ _ _ _ Hu Hr1) as (row2 & Hr2 & [u ->]).
      by exists (row_with_usage u row1). }
  destruct (wp_review_quarantined request' w2) as [Ho' Ht']. fold r' in Ho', Ht'. split.
  - by destruct Ho' as [Heq|[Hn _]].
  - destruct (answered r'.1); [|done]. by destruct (Ht' eq_refl).
Qed.
End review.

(** ** Concrete runs

    Runs of the store over a file that starts empty: the inputs at which the
    theorems about it are applied, and the behaviours of its corner cases. *)
Module MemoryWitnesses.
Import TaintExamples.

#[export] Instance toy_sha : Sha256 := λ s, (λ c, Z.of_N (N_of_ascii c)) <$> String.list_ascii_of_string s.

(** Nothing fails; every observation has its own token, id and time. *)
Definition env_with (g : option LlmWriteGate) (view : nat → bool) : MemoryEnv := {|
  sql_fault _ := None; view_fault := view; enter_fault _ := None; clock n := 1000 + Z.of_nat n;
  token_at n := "t" +:+ fmt_dec (Z.of_nat n); new_id_at n := "m" +:+ fmt_dec (Z.of_nat n); gate_at _ := g;
  resolver_at _ := None; unique_violation := "unique"; no_rows := "no rows"; json_error := "json"; scan_order l := l |}.
Definition open_env : MemoryEnv := env_with None (λ _, false).

Definition no_tables : Db := mkDb ∅ ∅ [] ∅ ∅.
Definition empty_file : World Db Sink := mkWorld no_tables no_tables (mkSink true []) 0.

Definition claim : VerificationClaim := mkClaim "checked against the release notes" [mkEvidence "s9" 1 None None].
Definition note (title body : string) : NewMemoryRecord := mkNewRecord Fact title "" body [] [mkEvidence "s1" 1 None None] (Some claim).
Definition alice : MemoryScope := IdentityScope "r" "alice".

Definition steward_batch (ops : list StagedOp) : StagedMutationBatch := mkBatch "r" (StewardAuthor "run") FreshWrite ops.

(** A note of the agent, verified by the steward. *)
Definition promote : list MemoryCall :=
  [RememberAuthored alice (note "Deploys" "They run on Tuesdays") (AgentAuthor "alice");
   StageCall (steward_batch [Retier "m7" AgentVerified None]);
   CommitCall (mkStageToken "r" "t19")].
Definition summary (w : World Db Sink) : list (string * (string * string * bool)) :=
  (λ kv, (kv.1, (row_trust kv.2, row_status_kind kv.2, row_ever_quarantined kv.2))) <$> map_to_list (records (committed w)).
Definition tokens (w : World Db Sink) : list string := (λ kv, kv.1) <$> map_to_list (stage (committed w)).

Definition tainted : Tracker := perform_all (start ++ [fetch]) (new_tracker config).
Definition gated_env (view : nat → bool) : MemoryEnv := env_with (Some (TaintLlmWriteGate (Some tainted) Observed)) view.
Definition remembered : World Db Sink := run_calls (gated_env (λ _, false)) (take 1 promote) empty_file.
Definition retier : StagedMutationBatch := steward_batch [Retier "m7" AgentVerified None].
Definition settle : list MemoryCall := [StageCall retier; CommitCall (mkStageToken "r" "t19")].
Definition promoted : World Db Sink := run_calls open_env promote empty_file.

Definition review (decision : QuarantineDecision) : QuarantineReviewRequest :=
  mkReview alice "m7" decision (content_hash "Deploys" "They run on Tuesdays") (OperatorReviewer (Some "ops")) None.

(** ** Corner cases *)

(** The taint ceiling holds the quarantined note down ... *)
Example quarantined_note_is_not_promoted :
  summary (run_calls (gated_env (λ _, false)) settle remembered) = [("m7", ("agent_observed", "quarantined", true))].
Proof. reflexivity. Qed.
(** ... but where the walk's read of it fails, the failure reads as an absent
    record, and the note is promoted. *)
Example failed_read_lifts_the_ceiling :
  summary (run_calls (gated_env (λ n, (n =? 18)%nat || (n =? 29)%nat)) settle remembered) =
  [("m7", ("agent_verified", "quarantined", true))].
Proof. reflexivity. Qed.
(** A batch that promotes a record it creates itself: the validator does not know
    the gate's verdict, so the record lands quarantined and verified. *)
Example self_promotion_is_quarantined_and_verified :
  summary (run_calls (gated_env (λ _, false))
    [StageCall (steward_batch [Create (Some "x") alice (note "Deploys" "They run on Fridays") AgentObserved [] None None None;
                               Retier "x" AgentVerified None]);
     CommitCall (mkStageToken "r" "t5")] empty_file) = [("x", ("agent_verified", "quarantined", true))].
Proof. reflexivity. Qed.

(** A release: the origin is buried, its copy active and marked; a second verdict
    on the origin names the copy. *)
Example release_then_tombstone :
  let w := run_call (gated_env (λ _, false)) (ReviewQuarantined (review DecideRelease)) remembered in
  summary w = [("m7-released", ("agent_observed", "active", true)); ("m7", ("agent_observed", "tombstoned", true))] ∧
  (review_quarantined (gated_env (λ _, false)) (review DecideTombstone) w).1 = Ok (Err (NotQuarantined "tombstoned" (Some "m7-released"))).
Proof. split; reflexivity. Qed.

(** ** The theorems at concrete inputs *)

(** The released note's origin is tombstoned; its counters still go up. *)
Definition released : World Db Sink := run_call (gated_env (λ _, false)) (ReviewQuarantined (review DecideRelease)) remembered.
Definition later : list MemoryCall := [MarkUsage ["m7"; "absent"] ExplicitRecall; StageCall retier].
Lemma records_are_append_only_witness :
  ∃ row row', records (committed released) !! "m7" = Some row ∧
    records (committed (run_calls open_env later released)) !! "m7" = Some row' ∧ row_grows row row' ∧
    row_status_kind row = "tombstoned" ∧ explicit_recall_count <$> row_usage_stats row' = Some 1 ∧
    ∃ usage, row' = row_with_usage usage row.
Proof.
  eexists _. edestruct (records_are_append_only open_env later released "m7") as (row' & Hr & Hg & Hf); [vm_compute; reflexivity|].
  exists row'. split; [vm_compute; reflexivity|]. split; [exact Hr|]. split; [exact Hg|]. split; [reflexivity|]. split.
  - assert (explicit_recall_count <$> (records (committed (run_calls open_env later released)) !! "m7" ≫= row_usage_stats) = Some 1) as Hu
      by (vm_compute; reflexivity). rewrite Hr in Hu. exact Hu.
  - apply Hf. reflexivity.
Defined.

Lemma stored_content_is_vetted_witness :
  ∃ row, records (committed promoted) !! "m7" = Some row ∧ vetted row.
Proof.
  eexists _. split; [|eapply (stored_content_is_vetted open_env promote empty_file "m7"); [reflexivity|vm_compute; reflexivity]].
  vm_compute. reflexivity.
Defined.

Lemma promoted_records_are_clean_witness :
  summary promoted = [("m7", ("agent_verified", "active", false))] ∧
  ∃ brow, records (committed promoted) !! "m7" = Some brow ∧ row_ever_quarantined brow = false ∧
    row_status_kind brow ≠ "quarantined".
Proof.
  split; [reflexivity|].
  eapply (promoted_records_are_clean open_env promote empty_file "m7"); [done|done| |done|done|vm_compute; reflexivity|by exists AgentVerified|constructor].
  repeat constructor; intros b Hb; simplify_eq/=. split; [set_solver|done].
Defined.

Lemma tainted_identity_activates_nothing_witness :
  summary (run_call (gated_env (λ _, false)) (RememberAuthored alice (note "Deploys" "Now") (AgentAuthor "alice"))
    (run_calls open_env (take 1 promote) empty_file)) =
    [("m7", ("agent_observed", "active", false)); ("m21", ("agent_observed", "quarantined", true))] ∧
  ∃ row row', records (committed (run_calls open_env (take 1 promote) empty_file)) !! "m7" = Some row ∧
    row_status_kind row = "active" ∧ row_grows row row'.
Proof.
  split; [vm_compute; reflexivity|].
  edestruct (tainted_identity_activates_nothing (gated_env (λ _, false)) (RememberAuthored alice (note "Deploys" "Now") (AgentAuthor "alice"))
    "alice" (λ _, tainted) (λ _, Observed) (run_calls open_env (take 1 promote) empty_file) "m7") as (row & Hr & Ha & Hg).
  - intros n. split; [reflexivity|]. vm_compute. eauto.
  - by intros batch [Ha _].
  - vm_compute. reflexivity.
  - reflexivity.
  - exists row. eexists. split; [exact Hr|]. split; [exact Ha|exact Hg].
Defined.

Lemma agents_write_only_their_scope_witness :
  ∃ row', records (committed (run_calls open_env (take 1 promote) empty_file)) !! "m7" = Some row' ∧
    row_scope_kind row' = "identity" ∧ row_scope_key row' = "alice".
Proof.
  edestruct (agents_write_only_their_scope open_env (RememberAuthored alice (note "Deploys" "They run on Tuesdays") (AgentAuthor "alice"))
    "alice" empty_file "m7") as (row' & Hr & [Hs|[Hm _]]); [by intros batch [Ha _]|vm_compute; discriminate| |discriminate Hm].
  exists row'. split; [exact Hr|exact Hs].
Defined.
End MemoryWitnesses.
