(* ===== verification/MemberIds.v ===== *)
(** * Member identities: the roster codec ([member_comms_id.rs])

    Public member aliases are encoded into comms-safe roster ids and decoded back.
    The codec walks [char]s, so this file also holds the UTF-8 decoding of a byte
    string into scalar values.  The keyed locks of [reserve_raw_member_targets] are
    not state of the model: a reservation is its two validation passes.  Which durable identity
    owns an alias is what the identity runtime answers at each question. *)

From S2P Require Import Prelude Strings Json.
Open Scope Z_scope.

(** ** Scalar values and UTF-8 *)

(** [char::from_u32(c).is_some()] *)
Definition is_char (c : Z) : bool := ((0 <=? c) && (c <? 55296)) || ((57344 <=? c) && (c <? 1114112)).
Definition char_from_u32 (c : Z) : option Z := if is_char c then Some c else None.

Definition byte (n : Z) : ascii := ascii_of_N (Z.to_N n).
Definition cont (n : Z) : ascii := byte (128 + n mod 64).
Definition cont_val (a : ascii) : Z := byte_val a - 128.

(** [String::push] *)
Definition encode_utf8 (c : Z) : string :=
  if c <? 128 then String (byte c) ""
  else if c <? 2048 then String (byte (192 + c / 64)) (String (cont c) "")
  else if c <? 65536
  then String (byte (224 + c / 4096)) (String (cont (c / 64)) (String (cont c) ""))
  else String (byte (240 + c / 262144))
         (String (cont (c / 4096)) (String (cont (c / 64)) (String (cont c) ""))).

(** [Chars::next] *)
Definition next_char (s : string) : option (Z * string) :=
  match s with
  | "" => None
  | String a s1 =>
      let n := byte_val a in
      if n <? 128 then Some (n, s1)
      else match s1 with
      | "" => None
      | String b s2 =>
          if n <? 224 then Some ((n - 192) * 64 + cont_val b, s2)
          else match s2 with
          | "" => None
          | String c s3 =>
              if n <? 240 then Some ((n - 224) * 4096 + cont_val b * 64 + cont_val c, s3)
              else match s3 with
              | "" => None
              | String d s4 =>
                  Some ((n - 240) * 262144 + cont_val b * 4096 + cont_val c * 64 + cont_val d, s4)
              end
          end
      end
  end.

Fixpoint chars_loop (fuel : nat) (s : string) : list Z :=
  match fuel with
  | O => []
  | S f => match next_char s with Some (c, rest) => c :: chars_loop f rest | None => [] end
  end.
(** [s.chars()]: every character is at least one byte. *)
Definition chars (s : string) : list Z := chars_loop (str_len s) s.
(** [String] from [char]s *)
Fixpoint of_chars (cs : list Z) : string :=
  match cs with [] => "" | c :: rest => encode_utf8 c +:+ of_chars rest end.

(** A Rust [str]: well-formed UTF-8. *)
Definition is_str (s : string) : bool :=
  forallb is_char (chars s) && (of_chars (chars s) =b s).

(** [char] tests of the standard library on a scalar value *)
Definition is_ascii_alphabetic (c : Z) : bool := ((65 <=? c) && (c <=? 90)) || ((97 <=? c) && (c <=? 122)).
Definition is_ascii_alphanumeric (c : Z) : bool := is_ascii_alphabetic c || ((48 <=? c) && (c <=? 57)).

(** [c.to_digit(16)] *)
Definition hex_val (c : Z) : option Z :=
  if (48 <=? c) && (c <=? 57) then Some (c - 48)
  else if (97 <=? c) && (c <=? 102) then Some (c - 87)
  else if (65 <=? c) && (c <=? 70) then Some (c - 55)
  else None.
Fixpoint radix16 (cs : list Z) (acc : Z) : option Z :=
  match cs with
  | [] => Some acc
  | c :: rest =>
      d ← hex_val c;
      if acc * 16 + d <=? U32_MAX then radix16 rest (acc * 16 + d) else None
  end.
(** [u32::from_str_radix(s, 16).ok()]: an optional [+], then at least one digit. *)
Definition u32_from_hex (cs : list Z) : option Z :=
  match cs with
  | [] => None
  | c :: rest => if c =? 43 then if is_empty rest then None else radix16 rest 0 else radix16 cs 0
  end.

Definition ascii_codes (s : string) : list Z := byte_val <$> String.list_ascii_of_string s.
(** [format!("{:x}", c as u32)] *)
Definition fmt_hex (c : Z) : list Z := ascii_codes (hex_digits 8 c "").

(** ** The codec *)

Definition MARKER : string := "mk--".
Definition UNDERSCORE : Z := 95.
Definition COLON : Z := 58.
Definition HYPHEN : Z := 45.

Definition is_valid_comms_component (s : string) : bool :=
  match chars s with
  | [] => false
  | first :: rest =>
      (is_ascii_alphabetic first || (first =? UNDERSCORE)) &&
      forallb (λ c, is_ascii_alphanumeric c || (c =? HYPHEN) || (c =? UNDERSCORE)) rest
  end.

Definition escape_char (c : Z) : list Z :=
  if c =? UNDERSCORE then [95; 95]
  else if c =? COLON then [95; 99]
  else if is_ascii_alphanumeric c || (c =? HYPHEN) then [c]
  else [95; 120] ++ fmt_hex c ++ [95].
Definition escape_body (s : string) : string := of_chars (concat (escape_char <$> chars s)).

(** The inner loop: the digits up to the closing underscore. *)
Fixpoint read_hex (cs hex : list Z) : option (list Z * list Z) :=
  match cs with
  | [] => None
  | c :: rest => if c =? UNDERSCORE then Some (hex, rest) else read_hex rest (hex ++ [c])
  end.

Fixpoint unescape_loop (fuel : nat) (cs : list Z) : option (list Z) :=
  match cs with
  | [] => Some []
  | c :: rest =>
      match fuel with
      | O => None
      | S f =>
          if negb (c =? UNDERSCORE) then (cons c) <$> unescape_loop f rest
          else match rest with
          | [] => None
          | k :: rest' =>
              if k =? 95 then (cons UNDERSCORE) <$> unescape_loop f rest'
              else if k =? 99 then (cons COLON) <$> unescape_loop f rest'
              else if k =? 120 then
                '(hex, after) ← read_hex rest' [];
                code ← u32_from_hex hex;
                ch ← char_from_u32 code;
                (cons ch) <$> unescape_loop f after
              else None
          end
      end
  end.
Definition unescape_body (s : string) : option string :=
  of_chars <$> unescape_loop (length (chars s)) (chars s).

(** A typed [AgentIdentity] of the mob plane is its text. *)
Definition mob_member_id_str (alias : string) : string :=
  if is_valid_comms_component alias && negb (starts_with MARKER alias) then alias
  else MARKER +:+ escape_body alias.
Definition mob_member_id (alias : string) : string := mob_member_id_str alias.

Definition runtime_alias_str (member_id : string) : string :=
  match strip_prefix MARKER member_id with
  | Some body => match unescape_body body with Some alias => alias | None => member_id end
  | None => member_id
  end.

Definition is_reserved_generated_alias (member_id : string) : bool :=
  starts_with "rt:" (runtime_alias_str member_id).

(** [s.rsplit_once(c)] for an ASCII character *)
Definition rsplit_once (c : ascii) (s : string) : option (string * string) :=
  (λ p, (String.rev p.2, String.rev p.1)) <$> split_once c (String.rev s).

Definition durable_identity_from_runtime_alias (alias : string) : option string :=
  rest ← strip_prefix "rt:" alias;
  '(identity, generation) ← rsplit_once ":" rest;
  if str_is_empty identity || is_none (parse_u64 generation) then None else Some identity.

Definition logical_memory_identity (member_id_or_alias : string) : string :=
  let alias := runtime_alias_str member_id_or_alias in
  unwrap_or (durable_identity_from_runtime_alias alias) alias.
Definition durable_identity_for_roster_member (member_id : string) : string := logical_memory_identity member_id.

(** [meerkat_mob]'s [AgentRuntimeId]: a roster identity and its generation. *)
Record AgentRuntimeId := mkRuntimeId { rid_identity : string; rid_generation : Z }.

Definition public_runtime_alias (runtime_id : AgentRuntimeId) : string :=
  let identity := runtime_alias_str (rid_identity runtime_id) in
  let generation := fmt_dec (rid_generation runtime_id) in
  if starts_with "rt:" identity then identity +:+ ":" +:+ generation
  else "rt:" +:+ identity +:+ ":" +:+ generation.

Definition runtime_event_alias (runtime_id : AgentRuntimeId) : string :=
  runtime_alias_str (rid_identity runtime_id) +:+ ":" +:+ fmt_dec (rid_generation runtime_id).

Definition roster_member_id_for_supplied_id (supplied : string) : string :=
  let decoded := runtime_alias_str supplied in
  mob_member_id (unwrap_or (durable_identity_from_runtime_alias decoded) decoded).
Definition roster_member_id_for_identity (identity : string) : string := mob_member_id identity.

Definition live_member_is_identity (live_member_id identity : string) : bool :=
  runtime_alias_str live_member_id =b identity.
Definition live_member_names_identity_or_incarnation
    (live_member_id identity : string) (registered_runtime_id : option string) : bool :=
  live_member_is_identity live_member_id identity ||
  is_some_and registered_runtime_id (λ registered, runtime_alias_str live_member_id =b registered).
Definition live_binding_matches_identity (live_member_id : string) (live_session_id : option string)
    (identity : string) (registered_session_id registered_runtime_id : option string) : bool :=
  let names_identity := live_member_is_identity live_member_id identity in
  let is_registered_incarnation :=
    is_some_and registered_runtime_id (λ registered, runtime_alias_str live_member_id =b registered) in
  (names_identity || is_registered_incarnation) && (live_session_id =b registered_session_id).

(** ** Ingress checks *)

Definition durable_identity_label (labels : gmap string string) : option string :=
  opt_filter (λ value, negb (str_is_empty value) && negb (is_reserved_generated_alias value))
    (trim <$> labels !! "agent_identity").
Definition validate_raw_identity_labels (labels : gmap string string) : Result unit string :=
  match labels !! "agent_identity" with
  | Some _ => Err "labels.agent_identity is runtime-authoritative and may not be supplied by raw member creation"
  | None => Ok tt
  end.

Definition uses_reserved_roster_marker (member_id : string) : bool := starts_with MARKER (trim member_id).

Definition validate_public_member_alias (field value : string) : Result unit string :=
  if uses_reserved_roster_marker value
  then Err (field +:+ " may not use the reserved encoded roster-id namespace")
  else Ok tt.

Definition TARGET_FIELDS : list string :=
  ["identity"; "member_id"; "agent_id"; "agent_identity"; "meerkat_id"; "local_member_id"; "remote_member_id";
   "from_member_id"; "source_member_id"; "runtime_member_id"; "agent_runtime_id"].

Fixpoint validate_target_fields (params : list (string * Value)) (fields : list string) : Result unit string :=
  match fields with
  | [] => Ok tt
  | field :: rest =>
      _ ←? match v ← member field params; as_str v with
           | Some value => validate_public_member_alias field value
           | None => Ok tt
           end;
      validate_target_fields params rest
  end.
Definition validate_public_rpc_member_aliases (params : Value) : Result unit string :=
  match as_object params with
  | None => Ok tt
  | Some params => validate_target_fields params TARGET_FIELDS
  end.

(** [identity_for_member_mutation]: who owns an alias, asked at step [n]. *)
Definition MutationOwner := nat → string → option string.

Definition validate_raw_member_target (runtime : option MutationOwner) (n : nat) (member_id : string)
    : Result string string :=
  let member_id := trim member_id in
  let alias := runtime_alias_str member_id in
  if uses_reserved_roster_marker member_id || is_reserved_generated_alias alias
  then Err ("member id '" +:+ member_id +:+ "' uses an identity-runtime reserved namespace")
  else match owner ← runtime; owner n alias with
       | Some identity => Err ("member id '" +:+ alias +:+ "' is owned by durable identity '" +:+ identity +:+ "'")
       | None => Ok alias
       end.

Fixpoint validate_raw_targets (runtime : option MutationOwner) (n : nat) (member_ids : list string)
    : Result (list string) string :=
  match member_ids with
  | [] => Ok []
  | member_id :: rest =>
      alias ←? validate_raw_member_target runtime n member_id;
      aliases ←? validate_raw_targets runtime (S n) rest;
      Ok (alias :: aliases)
  end.

(** The first pass only refuses; the second runs with the alias guards held. *)
Definition reserve_raw_member_targets (runtime : option MutationOwner) (n : nat) (member_ids : list string)
    : Result (list string) string :=
  let member_ids := trim <$> member_ids in
  if is_empty member_ids then Err "raw member reservation requires at least one member id"
  else
    _ ←? validate_raw_targets runtime n member_ids;
    validate_raw_targets runtime (n + length member_ids) member_ids.
Definition reserve_raw_member_target (runtime : option MutationOwner) (n : nat) (member_id : string)
    : Result (list string) string :=
  reserve_raw_member_targets runtime n [member_id].
