(* ===== verification/MemberIdTheorems.v ===== *)
(** * Member identities: the codec round trip and the roster lookup

    Decoding inverts encoding on every alias, so two aliases never share a roster
    id; every spelling of an identity names one roster row; and a caller-chosen
    member id is admitted only outside the runtime-owned namespaces. *)

From S2P Require Import Prelude Strings Json MemberIds.
Open Scope Z_scope.

(** ** UTF-8 *)

Lemma byte_val_byte n : 0 ≤ n < 256 → byte_val (byte n) = n.
Proof. intros H. unfold byte_val, byte. rewrite Ascii.N_ascii_embedding; lia. Qed.
Lemma cont_val_cont n : cont_val (cont n) = n mod 64.
Proof. unfold cont_val, cont. pose proof (Z.mod_pos_bound n 64). rewrite byte_val_byte; lia. Qed.

Lemma is_char_spec c : is_char c = true ↔ 0 ≤ c < 55296 ∨ 57344 ≤ c < 1114112.
Proof. unfold is_char. rewrite orb_true_iff, !andb_true_iff, !Z.leb_le, !Z.ltb_lt. lia. Qed.

Lemma next_char_encode c s : is_char c = true → next_char (encode_utf8 c +:+ s) = Some (c, s).
Proof.
  intros Hc%is_char_spec. unfold encode_utf8.
  replace (c / 262144) with (c / 64 / 64 / 64) by (rewrite !Z.div_div; [done|lia..]).
  replace (c / 4096) with (c / 64 / 64) by (rewrite Z.div_div; [done|lia..]).
  destruct (Z.ltb_spec c 128) as [H1|H1]; [|destruct (Z.ltb_spec c 2048) as [H2|H2];
    [|destruct (Z.ltb_spec c 65536) as [H3|H3]]]; rewrite ?str_app_cons, ?str_app_nil_l; cbn [next_char];
    rewrite ?cont_val_cont, ?byte_val_byte by (Z.to_euclidean_division_equations; lia);
    repeat match goal with |- context [?a <? ?b] => destruct (Z.ltb_spec a b) end;
    try (exfalso; Z.to_euclidean_division_equations; lia);
    do 2 f_equal; Z.to_euclidean_division_equations; lia.
Qed.

Lemma chars_loop_of_chars cs fuel :
  forallb is_char cs = true → (length cs ≤ fuel)%nat → chars_loop fuel (of_chars cs) = cs.
Proof.
  revert fuel. induction cs as [|c cs IH]; intros [|fuel]; cbn [length forallb of_chars chars_loop]; try done; try lia.
  intros [Hc Hcs]%andb_true_iff Hf. rewrite next_char_encode by done. f_equal. apply IH; [done|lia].
Qed.

Lemma encode_utf8_len c : (1 ≤ str_len (encode_utf8 c))%nat.
Proof. unfold encode_utf8. repeat case_match; simpl; lia. Qed.
Lemma of_chars_len cs : (length cs ≤ str_len (of_chars cs))%nat.
Proof. induction cs as [|c cs IH]; simpl; [lia|]. rewrite str_len_app. pose proof (encode_utf8_len c). lia. Qed.

Lemma chars_of_chars cs : forallb is_char cs = true → chars (of_chars cs) = cs.
Proof. intros H. apply chars_loop_of_chars; [done|apply of_chars_len]. Qed.

Lemma is_str_of_chars cs : forallb is_char cs = true → is_str (of_chars cs) = true.
Proof. intros H. unfold is_str. rewrite chars_of_chars, H by done. by rewrite bool_decide_true. Qed.
Lemma is_str_spec s : is_str s = true ↔ ∃ cs, forallb is_char cs = true ∧ s = of_chars cs.
Proof.
  split; [|intros (cs & H & ->); by apply is_str_of_chars].
  unfold is_str. intros [H1 H2%bool_decide_eq_true]%andb_true_iff. by exists (chars s).
Qed.
Lemma of_chars_app cs ds : of_chars (cs ++ ds) = of_chars cs +:+ of_chars ds.
Proof. induction cs as [|c cs IH]; simpl; [done|]. by rewrite IH, str_app_assoc. Qed.
Lemma is_str_app s t : is_str s = true → is_str t = true → is_str (s +:+ t) = true.
Proof.
  rewrite !is_str_spec. intros (cs & Hc & ->) (ds & Hd & ->). exists (cs ++ ds).
  by rewrite forallb_app, Hc, Hd, of_chars_app.
Qed.

(** ** Hexadecimal escapes *)

Lemma hex_val_char d : 0 ≤ d < 16 → hex_val (byte_val (hex_char d)) = Some d.
Proof.
  intros Hd. assert (d = 0 ∨ d = 1 ∨ d = 2 ∨ d = 3 ∨ d = 4 ∨ d = 5 ∨ d = 6 ∨ d = 7 ∨ d = 8 ∨ d = 9 ∨
    d = 10 ∨ d = 11 ∨ d = 12 ∨ d = 13 ∨ d = 14 ∨ d = 15) as Hcases by lia.
  repeat destruct Hcases as [->|Hcases]; try reflexivity. by subst.
Qed.

Lemma radix16_digits f n acc :
  0 ≤ n < 16 ^ Z.of_nat f → n ≤ U32_MAX →
  radix16 (ascii_codes (hex_digits f n acc)) 0 = radix16 (ascii_codes acc) n.
Proof.
  revert n acc. induction f as [|f IH]; intros n acc Hn Hmax.
  - simpl in *. by replace n with 0 by lia.
  - cbn [hex_digits]. pose proof (Z.mod_pos_bound n 16 ltac:(lia)) as Hm.
    pose proof (Z.div_mod n 16 ltac:(lia)) as Hdm.
    assert (∀ a, a * 16 + n mod 16 = n → radix16 (ascii_codes (String (hex_char (n mod 16)) acc)) a = radix16 (ascii_codes acc) n) as Hstep.
    { intros a Ha. cbn [ascii_codes String.list_ascii_of_string fmap list_fmap radix16].
      rewrite hex_val_char by done. cbn [mbind option_bind]. rewrite Ha. destruct (Z.leb_spec n U32_MAX); [done|lia]. }
    destruct (Z.ltb_spec n 16) as [Hlt|Hge]; [apply Hstep; lia|].
    rewrite IH; [apply Hstep; lia| |].
    + split; [apply Z.div_pos; lia|]. apply Z.div_lt_upper_bound; [lia|].
      rewrite <- Z.pow_succ_r, <- Nat2Z.inj_succ by lia. lia.
    + transitivity n; [apply Z.div_le_upper_bound; lia|done].
Qed.

Definition is_hex_code (c : Z) : bool := ((48 <=? c) && (c <=? 57)) || ((97 <=? c) && (c <=? 102)).
Lemma fmt_hex_codes c : 0 ≤ c → forallb is_hex_code (fmt_hex c) = true.
Proof.
  intros _. unfold fmt_hex. generalize 8%nat, c.
  assert (∀ f n acc, forallb is_hex_code (ascii_codes acc) = true → forallb is_hex_code (ascii_codes (hex_digits f n acc)) = true) as H.
  { induction f as [|f IH]; intros n acc Hacc; [done|]. cbn [hex_digits].
    assert (forallb is_hex_code (ascii_codes (String (hex_char (n mod 16)) acc)) = true) as H1.
    { cbn [ascii_codes String.list_ascii_of_string fmap list_fmap forallb]. fold (ascii_codes acc). rewrite Hacc, andb_true_r.
      pose proof (Z.mod_pos_bound n 16 ltac:(lia)) as Hm. revert Hm. generalize (n mod 16). intros d Hd.
      assert (d = 0 ∨ d = 1 ∨ d = 2 ∨ d = 3 ∨ d = 4 ∨ d = 5 ∨ d = 6 ∨ d = 7 ∨ d = 8 ∨ d = 9 ∨
        d = 10 ∨ d = 11 ∨ d = 12 ∨ d = 13 ∨ d = 14 ∨ d = 15) as Hcases by lia.
      repeat destruct Hcases as [->|Hcases]; try reflexivity. by subst. }
    case_match; [done|by apply IH]. }
  intros f n. by apply H.
Qed.

Lemma fmt_hex_cons c : ∃ d ds, fmt_hex c = d :: ds ∧ d ≠ 43.
Proof.
  assert (∀ f n acc, (acc = "" → (1 ≤ f)%nat) → ∃ d ds, ascii_codes (hex_digits f n acc) = d :: ds) as H.
  { induction f as [|f IH]; intros n acc Hacc; cbn [hex_digits].
    - destruct acc as [|a acc]; [specialize (Hacc eq_refl); lia|]. eauto.
    - case_match; [eauto|]. by apply IH. }
  destruct (H 8%nat c "" ltac:(lia)) as (d & ds & Heq). exists d, ds. split; [done|]. intros ->.
  destruct (decide (0 ≤ c)) as [Hc|Hc].
  - pose proof (fmt_hex_codes c Hc) as Hh. unfold fmt_hex in Hh. by rewrite Heq in Hh.
  - assert (c <? 16 = true) as Hlt by (apply Z.ltb_lt; lia). cbn [hex_digits] in Heq. rewrite Hlt in Heq.
    cbn in Heq. injection Heq as Heq. pose proof (Z.mod_pos_bound c 16 ltac:(lia)) as Hm. revert Heq Hm.
    generalize (c mod 16). intros d Heq Hm. pose proof (hex_val_char d Hm) as Hv. by rewrite Heq in Hv.
Qed.

Lemma u32_from_fmt_hex c : is_char c = true → u32_from_hex (fmt_hex c) = Some c.
Proof.
  intros Hc%is_char_spec. destruct (fmt_hex_cons c) as (d & ds & Heq & Hd). unfold u32_from_hex. rewrite Heq.
  destruct (Z.eqb_spec d 43); [done|]. rewrite <- Heq. unfold fmt_hex. rewrite radix16_digits; [done| |unfold U32_MAX]; lia.
Qed.

Lemma read_hex_app hs rest acc :
  Forall (λ c, c ≠ UNDERSCORE) hs → read_hex (hs ++ UNDERSCORE :: rest) acc = Some (acc ++ hs, rest).
Proof.
  revert acc. induction hs as [|h hs IH]; intros acc; cbn [app read_hex]; [by rewrite app_nil_r|].
  intros [Hh Hhs]%Forall_cons. destruct (Z.eqb_spec h UNDERSCORE); [done|]. rewrite IH by done. by rewrite <- app_assoc.
Qed.

Lemma fmt_hex_no_underscore c : 0 ≤ c → Forall (λ d, d ≠ UNDERSCORE) (fmt_hex c).
Proof.
  intros Hc. apply Forall_forall. intros d Hd ->.
  pose proof (fmt_hex_codes c Hc) as H. rewrite forallb_elem_of in H. by specialize (H _ Hd).
Qed.

Lemma unescape_hex f cs :
  unescape_loop (S f) ([95; 120] ++ cs) =
  ('(hex, after) ← read_hex cs [];
   code ← u32_from_hex hex;
   ch ← char_from_u32 code;
   (cons ch) <$> unescape_loop f after).
Proof. done. Qed.

(** One character is read back whatever follows. *)
Lemma unescape_char c rest fuel :
  is_char c = true → (1 ≤ fuel)%nat →
  ∃ f, (fuel ≤ S f)%nat ∧ unescape_loop fuel (escape_char c ++ rest) = (cons c) <$> unescape_loop f rest.
Proof.
  intros Hc Hf. destruct fuel as [|f]; [lia|]. exists f. split; [lia|].
  unfold escape_char. destruct (Z.eqb_spec c UNDERSCORE) as [->|Hu]; [done|].
  destruct (Z.eqb_spec c COLON) as [->|Hcol]; [done|].
  destruct (is_ascii_alphanumeric c || (c =? HYPHEN)) eqn:Hp.
  - cbn [app unescape_loop]. by destruct (Z.eqb_spec c UNDERSCORE).
  - assert (0 ≤ c) as H0 by (apply is_char_spec in Hc; lia).
    rewrite <- !app_assoc. change ([95] ++ rest) with (UNDERSCORE :: rest). rewrite unescape_hex.
    rewrite (read_hex_app (fmt_hex c) rest []) by (by apply fmt_hex_no_underscore).
    cbn [mbind option_bind app]. rewrite u32_from_fmt_hex by done. cbn [mbind option_bind].
    unfold char_from_u32. by rewrite Hc.
Qed.

Lemma unescape_escaped cs fuel :
  forallb is_char cs = true → (length cs ≤ fuel)%nat →
  unescape_loop fuel (concat (escape_char <$> cs)) = Some cs.
Proof.
  revert fuel. induction cs as [|c cs IH]; intros fuel; [by destruct fuel|].
  cbn [forallb length fmap list_fmap concat]. intros [Hc Hcs]%andb_true_iff Hf.
  destruct (unescape_char c (concat (escape_char <$> cs)) fuel Hc ltac:(lia)) as (f & Hf' & ->).
  rewrite IH by (done || lia). done.
Qed.

(** The characters of an escape. *)
Definition is_comms_char (c : Z) : bool := is_ascii_alphanumeric c || (c =? HYPHEN) || (c =? UNDERSCORE).

Lemma comms_char_is_char c : is_comms_char c = true → is_char c = true.
Proof.
  unfold is_comms_char, is_ascii_alphanumeric, is_ascii_alphabetic, HYPHEN, UNDERSCORE. rewrite is_char_spec.
  rewrite !orb_true_iff, !andb_true_iff, !Z.leb_le, !Z.eqb_eq. lia.
Qed.
Lemma hex_code_is_comms c : is_hex_code c = true → is_comms_char c = true.
Proof.
  unfold is_hex_code, is_comms_char, is_ascii_alphanumeric, is_ascii_alphabetic.
  rewrite !orb_true_iff, !andb_true_iff, !Z.leb_le. lia.
Qed.

Lemma escape_char_comms c : is_char c = true → forallb is_comms_char (escape_char c) = true.
Proof.
  intros Hc%is_char_spec. unfold escape_char. destruct (Z.eqb_spec c UNDERSCORE); [done|].
  destruct (Z.eqb_spec c COLON); [done|]. destruct (is_ascii_alphanumeric c || (c =? HYPHEN)) eqn:Hp.
  - cbn [forallb]. unfold is_comms_char. by rewrite Hp.
  - rewrite forallb_app, forallb_app. cbn [forallb]. rewrite !andb_true_iff. split_and!; try done.
    pose proof (fmt_hex_codes c ltac:(lia)) as Hh. rewrite forallb_elem_of in *.
    intros d Hd. apply hex_code_is_comms. by apply Hh.
Qed.

Lemma escaped_comms cs : forallb is_char cs = true → forallb is_comms_char (concat (escape_char <$> cs)) = true.
Proof.
  induction cs as [|c cs IH]; [done|]. cbn [forallb fmap list_fmap concat]. intros [Hc Hcs]%andb_true_iff.
  rewrite forallb_app, IH, escape_char_comms by done. done.
Qed.
Lemma comms_chars cs : forallb is_comms_char cs = true → forallb is_char cs = true.
Proof. rewrite !forallb_elem_of. intros H c Hc. by apply comms_char_is_char, H. Qed.

Lemma escaped_length cs : (length cs ≤ length (concat (escape_char <$> cs)))%nat.
Proof.
  induction cs as [|c cs IH]; [done|]. cbn [length fmap list_fmap concat]. rewrite length_app.
  assert (1 ≤ length (escape_char c))%nat; [|lia]. unfold escape_char. repeat case_match; simpl; lia.
Qed.

Lemma unescape_escape_body s : is_str s = true → unescape_body (escape_body s) = Some s.
Proof.
  intros (cs & Hcs & ->)%is_str_spec. unfold unescape_body, escape_body. rewrite (chars_of_chars cs) by done.
  rewrite chars_of_chars by (by apply comms_chars, escaped_comms).
  rewrite unescape_escaped by (done || apply escaped_length). done.
Qed.

(** ** ASCII text *)

Definition is_ascii (a : ascii) : bool := byte_val a <? 128.

Lemma encode_ascii a : is_ascii a = true → encode_utf8 (byte_val a) = String a "".
Proof.
  unfold is_ascii, encode_utf8. intros ->. f_equal. unfold byte, byte_val. rewrite N2Z.id. apply Ascii.ascii_N_embedding.
Qed.
Lemma of_ascii_codes s : str_forall is_ascii s = true → of_chars (ascii_codes s) = s.
Proof.
  induction s as [|a s IH]; [done|]. cbn [str_forall]. intros [Ha Hs]%andb_true_iff.
  unfold ascii_codes. cbn [String.list_ascii_of_string fmap list_fmap of_chars]. rewrite encode_ascii by done.
  rewrite str_app_cons, str_app_nil_l. f_equal. by apply IH.
Qed.
Lemma ascii_codes_chars s : str_forall is_ascii s = true → forallb is_char (ascii_codes s) = true.
Proof.
  intros H. induction s as [|a s IH]; [done|]. cbn [str_forall] in H. apply andb_true_iff in H as [Ha Hs].
  unfold ascii_codes. cbn [String.list_ascii_of_string fmap list_fmap forallb]. apply andb_true_iff. split; [|by apply IH].
  apply is_char_spec. unfold is_ascii in Ha. apply Z.ltb_lt in Ha. pose proof (byte_val_range a). lia.
Qed.
Lemma is_str_ascii s : str_forall is_ascii s = true → is_str s = true.
Proof. intros H. apply is_str_spec. exists (ascii_codes s). by rewrite of_ascii_codes, ascii_codes_chars. Qed.

Lemma fmt_dec_digits n : str_forall is_ascii_digit (fmt_dec n) = true.
Proof. by apply dec_digits_are_digits. Qed.
Lemma fmt_dec_parse n : is_u64 n → parse_u64 (fmt_dec n) = Some n.
Proof.
  intros [Hn Hm]. pose proof (fmt_dec_digits n) as Hd.
  assert (parse_digits (fmt_dec n) 0 = Some n) as Hp.
  { unfold fmt_dec. rewrite parse_dec_digits; [done| |done]. split; [done|]. unfold U64_MAX in Hm. simpl. lia. }
  unfold parse_u64. destruct (fmt_dec n) as [|a s] eqn:E.
  - unfold fmt_dec in E. cbn [dec_digits] in E. exfalso. revert E.
    assert (∀ f m acc, acc ≠ "" → dec_digits f m acc ≠ "") as H.
    { induction f as [|f IH]; intros m acc Hacc; [done|]. cbn [dec_digits]. case_match; [done|by apply IH]. }
    case_match; [done|]. by apply (H 19%nat).
  - simpl in Hd. apply andb_true_iff in Hd as [Ha _].
    destruct (Z.eqb_spec (byte_val a) 43) as [H43|_]; [|done].
    unfold is_ascii_digit, digit_val in Ha. rewrite H43 in Ha. discriminate.
Qed.
Lemma fmt_dec_inj n m : is_u64 n → is_u64 m → fmt_dec n = fmt_dec m → n = m.
Proof. intros Hn Hm E. apply fmt_dec_parse in Hn, Hm. rewrite E in Hn. congruence. Qed.

Lemma str_forall_impl (f g : ascii → bool) s : (∀ a, f a = true → g a = true) → str_forall f s = true → str_forall g s = true.
Proof.
  intros H. induction s as [|a s IH]; simpl; [done|]. intros [Ha Hs]%andb_true_iff. by rewrite (H a Ha), IH.
Qed.
Lemma digit_is_ascii a : is_ascii_digit a = true → is_ascii a = true.
Proof.
  unfold is_ascii_digit, digit_val, is_ascii. case_match eqn:E; [|done]. intros _.
  apply andb_true_iff in E as [_ E]. apply Z.leb_le in E. apply Z.ltb_lt. lia.
Qed.
Lemma fmt_dec_is_str n : is_str (fmt_dec n) = true.
Proof. apply is_str_ascii. eapply str_forall_impl; [apply digit_is_ascii|apply fmt_dec_digits]. Qed.

Lemma str_forall_rev f s : str_forall f (String.rev s) = str_forall f s.
Proof.
  induction s as [|a s IH]; [done|]. rewrite str_rev_cons, str_forall_app, IH. simpl. rewrite andb_true_r. apply andb_comm.
Qed.

Lemma rsplit_once_app x y :
  contains_byte ":" (String.rev y) = false → rsplit_once ":" (x +:+ ":" +:+ y) = Some (x, y).
Proof.
  intros H. unfold rsplit_once. rewrite !str_rev_app, <- str_app_assoc.
  change (String.rev ":") with (String ":" ""). rewrite str_app_cons, str_app_nil_l, split_once_app by done.
  simpl. by rewrite !str_rev_involutive.
Qed.

(** ** Encoding *)

Lemma runtime_alias_plain s : starts_with MARKER s = false → runtime_alias_str s = s.
Proof. unfold starts_with, runtime_alias_str. by destruct (strip_prefix MARKER s). Qed.

Lemma decode_encode s : is_str s = true → runtime_alias_str (mob_member_id_str s) = s.
Proof.
  intros Hs. unfold mob_member_id_str. destruct (is_valid_comms_component s && negb (starts_with MARKER s)) eqn:E.
  - apply andb_true_iff in E as [_ E%negb_true_iff]. by apply runtime_alias_plain.
  - unfold runtime_alias_str. rewrite strip_prefix_app, unescape_escape_body by done. done.
Qed.

Lemma encode_valid s : is_str s = true → is_valid_comms_component (mob_member_id_str s) = true.
Proof.
  intros (cs & Hcs & ->)%is_str_spec. unfold mob_member_id_str. case_match eqn:E; [by apply andb_true_iff in E as [E _]|].
  unfold escape_body. rewrite (chars_of_chars cs) by done.
  change MARKER with (of_chars [109; 107; 45; 45]). rewrite <- of_chars_app. unfold is_valid_comms_component.
  pose proof (escaped_comms cs Hcs) as He. pose proof (comms_chars _ He) as Hc.
  rewrite chars_of_chars by (rewrite forallb_app, Hc; done). exact He.
Qed.

(** C28: the roster codec is a bijection onto its image.  For every alias (every
    well-formed UTF-8 text), the roster id it encodes to is a valid comms-name
    component, decodes back to exactly that alias, and is the roster id of no other
    alias. *)
Theorem roster_codec_round_trip s :
  is_str s = true →
  runtime_alias_str (mob_member_id_str s) = s ∧
  is_valid_comms_component (mob_member_id_str s) = true ∧
  ∀ t, is_str t = true → mob_member_id_str t = mob_member_id_str s → t = s.
Proof.
  intros Hs. split_and!; [by apply decode_encode|by apply encode_valid|].
  intros t Ht E. apply (f_equal runtime_alias_str) in E. by rewrite !decode_encode in E.
Qed.

(** Decoding is not the identity on every id that was never encoded: a marked id whose
    body is a valid component decodes, though its alias encodes to itself. *)
Lemma decode_of_unencoded : runtime_alias_str "mk--scout" = "scout" ∧ mob_member_id_str "scout" = "scout".
Proof. done. Qed.

(** ** Which row a spelling names *)

(** A durable identity: text outside the two runtime-owned namespaces. *)
Definition is_durable_identity (s : string) : bool :=
  is_str s && negb (str_is_empty s) && negb (starts_with "rt:" s) && negb (starts_with MARKER s).

Lemma is_durable_spec s :
  is_durable_identity s = true ↔
  is_str s = true ∧ str_is_empty s = false ∧ starts_with "rt:" s = false ∧ starts_with MARKER s = false.
Proof. unfold is_durable_identity. rewrite !andb_true_iff, !negb_true_iff. tauto. Qed.

Definition incarnation (identity : string) (generation : Z) : string :=
  "rt:" +:+ identity +:+ ":" +:+ fmt_dec generation.

Lemma durable_of_incarnation identity g :
  str_is_empty identity = false → is_u64 g →
  durable_identity_from_runtime_alias (incarnation identity g) = Some identity.
Proof.
  intros He Hg. unfold durable_identity_from_runtime_alias, incarnation. rewrite strip_prefix_app. cbn [mbind option_bind].
  rewrite rsplit_once_app; [cbn [mbind option_bind]; by rewrite He, fmt_dec_parse|].
  apply (str_forall_no_byte is_ascii_digit); [done|]. rewrite str_forall_rev. apply fmt_dec_digits.
Qed.

Lemma durable_of_plain s : starts_with "rt:" s = false → durable_identity_from_runtime_alias s = None.
Proof. unfold starts_with, durable_identity_from_runtime_alias. by destruct (strip_prefix "rt:" s). Qed.

Lemma is_str_incarnation identity g : is_str identity = true → is_str (incarnation identity g) = true.
Proof.
  intros Hi. unfold incarnation. apply is_str_app; [by apply is_str_ascii|]. apply is_str_app; [done|].
  apply is_str_app; [by apply is_str_ascii|apply fmt_dec_is_str].
Qed.
Lemma incarnation_unmarked identity g : starts_with MARKER (incarnation identity g) = false.
Proof. done. Qed.

Lemma incarnation_inj identity g g' : is_u64 g → is_u64 g' → incarnation identity g = incarnation identity g' → g = g'.
Proof.
  unfold incarnation. intros Hg Hg' E.
  assert (∀ p a b, p +:+ a = p +:+ b → a = b) as Hp.
  { induction p as [|x p IH]; intros a b; [by rewrite !str_app_nil_l|].
    rewrite !str_app_cons. intros [= H]. by apply IH. }
  apply Hp, Hp, Hp in E. by apply fmt_dec_inj.
Qed.

(** Looking a member up collapses its spellings; agreeing on a binding does not.
    For a durable identity and a generation, the bare identity, its roster id, the
    public alias of its incarnation and the roster encoding of that alias all name
    the identity's one roster row, and the logical memory identity of each is the
    identity.  But a live binding under the encoded alias of generation [g] is
    accepted against the registration of generation [g'] exactly when the generations
    are equal and the sessions are. *)
Theorem spellings_name_one_row identity g g' session registered :
  is_durable_identity identity = true → is_u64 g → is_u64 g' →
  Forall (λ supplied,
      roster_member_id_for_supplied_id supplied = roster_member_id_for_identity identity ∧
      logical_memory_identity supplied = identity)
    [identity; mob_member_id_str identity; incarnation identity g; mob_member_id_str (incarnation identity g);
     public_runtime_alias (mkRuntimeId (mob_member_id_str identity) g)] ∧
  (live_binding_matches_identity (mob_member_id_str (incarnation identity g)) session
     identity registered (Some (incarnation identity g')) = true ↔ g = g' ∧ session = registered).
Proof.
  intros (Hs & He & Hrt & Hm)%is_durable_spec Hg Hg'.
  pose proof (runtime_alias_plain _ Hm) as Hp. pose proof (is_str_incarnation identity g Hs) as Hsi.
  assert (runtime_alias_str (incarnation identity g) = incarnation identity g) as Hpi
    by (by apply runtime_alias_plain, incarnation_unmarked).
  assert (public_runtime_alias (mkRuntimeId (mob_member_id_str identity) g) = incarnation identity g) as ->.
  { unfold public_runtime_alias. cbn [rid_identity rid_generation]. by rewrite decode_encode, Hrt. }
  split.
  - unfold roster_member_id_for_supplied_id, logical_memory_identity, roster_member_id_for_identity.
    repeat apply Forall_cons_2; try apply Forall_nil_2;
      rewrite ?decode_encode, ?Hpi, ?Hp, ?(durable_of_plain identity), ?durable_of_incarnation by done; done.
  - unfold live_binding_matches_identity, live_member_is_identity. rewrite decode_encode by done. cbn [is_some_and].
    rewrite (bool_decide_false (incarnation identity g = identity)).
    + rewrite orb_false_l, andb_true_iff, !bool_decide_eq_true. split; [|by intros [-> ->]].
      intros [E ->]. split; [by eapply incarnation_inj|done].
    + intros E. rewrite <- E in Hrt. done.
Qed.

(** ** Admission of caller-chosen member ids *)

(** What a validation at step [n] admits. *)
Definition admissible (runtime : option MutationOwner) (n : nat) (member_id : string) : Prop :=
  starts_with MARKER member_id = false ∧ starts_with "rt:" member_id = false ∧
  match runtime with Some owner => owner n member_id = None | None => True end.

Lemma validate_raw_member_target_Ok runtime n id alias :
  trim id = id →
  validate_raw_member_target runtime n id = Ok alias ↔ alias = id ∧ admissible runtime n id.
Proof.
  intros Ht. unfold validate_raw_member_target, uses_reserved_roster_marker, is_reserved_generated_alias, admissible.
  rewrite !Ht. destruct (starts_with MARKER id) eqn:Em; [by split; [done|naive_solver]|].
  rewrite !(runtime_alias_plain id Em). cbn [orb]. destruct (starts_with "rt:" id) eqn:Er; [by split; [done|naive_solver]|].
  destruct runtime as [owner|]; cbn [mbind option_bind]; [destruct (owner n id)|]; naive_solver.
Qed.

Lemma validate_raw_targets_Ok runtime n ids aliases :
  Forall (λ id, trim id = id) ids →
  validate_raw_targets runtime n ids = Ok aliases ↔
  aliases = ids ∧ ∀ i id, ids !! i = Some id → admissible runtime (n + i) id.
Proof.
  intros Ht. revert n aliases. induction Ht as [|id ids Hid Ht IH]; intros n aliases; cbn [validate_raw_targets].
  - split; [by intros [= <-]|by intros [-> _]].
  - rewrite and_then_Ok. setoid_rewrite and_then_Ok. setoid_rewrite IH. setoid_rewrite validate_raw_member_target_Ok; [|done].
    split.
    + intros (? & [-> Ha] & ? & [-> Hrest] & [= <-]). split; [done|]. intros [|i] id' Hi.
      * injection Hi as <-. by rewrite Nat.add_0_r.
      * rewrite <- Nat.add_succ_comm. by apply Hrest.
    + intros [-> H]. exists id. split; [split; [done|]; specialize (H 0%nat id eq_refl); by rewrite Nat.add_0_r in H|].
      exists ids. split_and!; [done| |done]. intros i id' Hi. specialize (H (S i) id' Hi). by rewrite <- Nat.add_succ_comm in H.
Qed.

Lemma trim_all ids : Forall (λ id, trim id = id) (trim <$> ids).
Proof. apply Forall_fmap, Forall_true. intros id. apply trim_idemp. Qed.

(** A reservation of raw member ids succeeds exactly when there is at least one
    id and every trimmed id is outside the encoded-roster and the generated-alias
    namespaces and is owned by no durable identity, both when it is first checked and
    again once the alias guards are held; the aliases reserved are the trimmed ids in
    request order. *)
Theorem raw_reservation_exact runtime n ids aliases :
  reserve_raw_member_targets runtime n ids = Ok aliases ↔
  ids ≠ [] ∧ aliases = (trim <$> ids) ∧
  ∀ i id, ids !! i = Some id →
    admissible runtime (n + i) (trim id) ∧ admissible runtime (n + length ids + i) (trim id).
Proof.
  unfold reserve_raw_member_targets. destruct (decide (ids = [])) as [->|Hne]; [by split; [|intros [? _]]|].
  replace (is_empty (trim <$> ids)) with false by (by destruct ids).
  rewrite and_then_Ok. setoid_rewrite validate_raw_targets_Ok; [|apply trim_all..].
  rewrite length_fmap. setoid_rewrite list_lookup_fmap. split.
  - intros (? & [-> H1] & -> & H2). split_and!; [done..|]. intros i id Hi.
    split; [apply H1|apply H2]; by rewrite Hi.
  - intros (_ & -> & H). exists (trim <$> ids). split_and!; try done;
      intros i id' (id & Hi & ->)%fmap_Some; by apply H.
Qed.

Module MemberIdExamples.

Example encodes_operator_value :
  roster_member_id_for_supplied_id "mk--rt_cperson_cjane_x2e_doe_x40_example_x2e_com_c2" =
  roster_member_id_for_identity "person:jane.doe@example.com".
Proof. vm_compute. reflexivity. Qed.
Example encodes_non_ascii : mob_member_id_str (of_chars [233; 128512]) = "mk--_xe9__x1f600_".
Proof. vm_compute. reflexivity. Qed.

Lemma roster_codec_round_trip_witness :
  is_str "review:singleton" = true ∧ runtime_alias_str (mob_member_id_str "review:singleton") = "review:singleton".
Proof. split; [vm_compute; reflexivity|]. apply (proj1 (roster_codec_round_trip "review:singleton" eq_refl)). Defined.

Lemma spellings_name_one_row_witness :
  roster_member_id_for_supplied_id (incarnation "review:singleton" 7) = roster_member_id_for_identity "review:singleton" ∧
  live_binding_matches_identity (mob_member_id_str (incarnation "review:singleton" 7)) (Some "s") "review:singleton"
    (Some "s") (Some (incarnation "review:singleton" 8)) ≠ true.
Proof.
  destruct (spellings_name_one_row "review:singleton" 7 8 (Some "s") (Some "s")) as [Hall Hbind].
  - vm_compute. reflexivity.
  - unfold is_u64, U64_MAX. lia.
  - unfold is_u64, U64_MAX. lia.
  - split; [apply (Forall_lookup_1 _ _ 2 _ Hall eq_refl)|].
    intros [? _]%Hbind. lia.
Defined.

End MemberIdExamples.
