(* ===== verification/ToolPolicy.v ===== *)
(** * Application tool policies ([member_tool_policy.rs])

    The compiled policy artifact, its canonical parser and its own validation are
    Meerkat's: they are the operations of [PolicyArtifacts].  Here are the snapshot
    that answers a request, the provider with its fence on accepted revisions, the
    readers of the two init parameters and the boot code of the gateway that puts
    them together ([rpc_gateway.rs]).  The read-write lock of the provider is not
    state of the model: every operation takes it once, so a call is one step. *)

From S2P Require Import Prelude Strings Json MemberIds MemberIdTheorems.
Open Scope Z_scope.

(** ** What Meerkat defines *)

(** [CompiledMemberToolAction]: the match in [evaluate] has one arm. *)
Inductive CompiledMemberToolAction := Invoke.
(** The fields of a grant and of a member's grants that are read here. *)
Record CompiledMemberToolGrant := mkGrant { tool_name : string; action : CompiledMemberToolAction }.
Record CompiledMemberToolGrants := mkGrants { member_identity : string; grants : list CompiledMemberToolGrant }.

Inductive ApplicationToolPolicyBinding :=
| BindProvider (provider_id policy_id : string)
| Inherit
| Unmanaged.

Inductive ToolConsequenceFailure :=
| EvaluationFailed (reason : string)
| RevisionRollback (provider_id policy_id : string) (accepted_revision observed_revision : Z)
| RevisionDigestConflict (provider_id policy_id : string) (revision : Z)
| PolicyMissing (provider_id policy_id : string).

Inductive ToolConsequenceVerdict := Allow | Deny (code message : string).

(** The member and the tool of a [ToolConsequenceRequest]. *)
Record ToolConsequenceRequest := mkToolRequest { req_member : string; req_tool_name : string }.
Record PolicyEvaluationProvenance := mkProvenance { prov_revision : Z; prov_digest : string }.

Class PolicyArtifacts := {
  CompiledApplicationToolPolicy : Type;
  provider_id_of : CompiledApplicationToolPolicy → string;
  policy_id_of : CompiledApplicationToolPolicy → string;
  revision_of : CompiledApplicationToolPolicy → Z;
  policy_digest_of : CompiledApplicationToolPolicy → string;
  default_deny_of : CompiledApplicationToolPolicy → bool;
  members_of : CompiledApplicationToolPolicy → list CompiledMemberToolGrants;
  (** [CompiledApplicationToolPolicy::validate] and [parse_canonical_json] *)
  validate_policy : CompiledApplicationToolPolicy → Result unit string;
  parse_canonical_json : string → Result CompiledApplicationToolPolicy string;
  (** serde's text for a value that is not an array of strings *)
  not_strings_error : Value → string;
  binding_from_value : Value → Result ApplicationToolPolicyBinding string;
  (** [Display] of a failure *)
  fmt_failure : ToolConsequenceFailure → string;
}.

Section policy.
Context `{PA : PolicyArtifacts}.
Implicit Types p : CompiledApplicationToolPolicy.

(** ** The snapshot *)

Definition DENIAL_CODE_NO_GRANT : string := "application_tool_policy_no_grant".

Definition provenance p : PolicyEvaluationProvenance := mkProvenance (revision_of p) (policy_digest_of p).

(** The exact entry: the first entry of the member, its first grant of the tool. *)
Definition find_grant p (request : ToolConsequenceRequest) : option CompiledMemberToolGrant :=
  m ← find_first (λ m, member_identity m =b req_member request) (members_of p);
  find_first (λ g, tool_name g =b req_tool_name request) (grants m).

Definition policy_evaluate p (request : ToolConsequenceRequest) : ToolConsequenceVerdict :=
  match find_grant p request with
  | Some grant => match action grant with Invoke => Allow end
  | None =>
      if default_deny_of p then
        Deny DENIAL_CODE_NO_GRANT
          ("no exact grant for tool '" +:+ req_tool_name request +:+ "' and member '" +:+
           req_member request +:+ "' in policy '" +:+ policy_id_of p +:+ "' revision " +:+
           fmt_dec (revision_of p))
      else Allow
  end.

(** ** The provider *)

Record AcceptedPolicy := mkAccepted { ap_revision : Z; ap_digest : string; ap_snapshot : CompiledApplicationToolPolicy }.
Record CompiledPolicyProvider := mkProvider {
  cp_provider_id : string; cp_generation : Z; cp_accepted : gmap string AcceptedPolicy }.
Definition new_provider (provider_id : string) (generation : Z) : CompiledPolicyProvider :=
  mkProvider provider_id generation ∅.

Definition validate_member_identity (member_identity : string) : Result unit string :=
  if str_is_empty member_identity then Err "is empty" else
  let decoded := runtime_alias_str member_identity in
  if is_reserved_generated_alias member_identity then
    Err (match durable_identity_from_runtime_alias decoded with
         | Some durable =>
             "names the agent RUNTIME id '" +:+ decoded +:+
             "', which is binding detail and matches no roster row; compile the encoded durable identity '" +:+
             mob_member_id_str durable +:+ "' instead"
         | None =>
             "names the reserved '" +:+ decoded +:+ "' runtime namespace, which matches no roster row"
         end)
  else
  let canonical := mob_member_id_str decoded in
  if negb (canonical =b member_identity) then
    Err ("is not a canonical roster member id; the encoded form of '" +:+ decoded +:+ "' is '" +:+
         canonical +:+ "'")
  else Ok tt.

(** The loop over the members of a policy *)
Fixpoint validate_members p (members : list CompiledMemberToolGrants) : Result unit ToolConsequenceFailure :=
  match members with
  | [] => Ok tt
  | m :: rest =>
      match validate_member_identity (member_identity m) with
      | Err reason =>
          Err (EvaluationFailed
            ("compiled policy '" +:+ policy_id_of p +:+ "' revision " +:+ fmt_dec (revision_of p) +:+
             " declares member_identity '" +:+ member_identity m +:+ "' which " +:+ reason))
      | Ok _ => validate_members p rest
      end
  end.

(** The fence: the checks against what is accepted for the policy id. *)
Definition check_revision (provider_id : string) (current : option AcceptedPolicy) p : Result unit ToolConsequenceFailure :=
  match current with
  | None => Ok tt
  | Some current =>
      if revision_of p <? ap_revision current then
        Err (RevisionRollback provider_id (policy_id_of p) (ap_revision current) (revision_of p))
      else if (revision_of p =? ap_revision current) && negb (policy_digest_of p =b ap_digest current) then
        Err (RevisionDigestConflict provider_id (policy_id_of p) (revision_of p))
      else Ok tt
  end.

Definition rejected (error : string) : ToolConsequenceFailure :=
  EvaluationFailed ("compiled application tool policy rejected: " +:+ error).

Definition accept p : M CompiledPolicyProvider ToolConsequenceFailure unit :=
  self ← get;
  throw_if (negb (provider_id_of p =b cp_provider_id self))
    (EvaluationFailed ("compiled policy names provider '" +:+ provider_id_of p +:+
                       "' but this provider is '" +:+ cp_provider_id self +:+ "'"));;
  lift_result (validate_members p (members_of p));;
  lift_result (map_err rejected (validate_policy p));;
  lift_result (check_revision (cp_provider_id self) (cp_accepted self !! policy_id_of p) p);;
  modify (λ s, mkProvider (cp_provider_id s) (cp_generation s)
    (<[policy_id_of p := mkAccepted (revision_of p) (policy_digest_of p) p]> (cp_accepted s))).

Definition accept_canonical_json (bytes : string) : M CompiledPolicyProvider ToolConsequenceFailure unit :=
  p ← lift_result (map_err rejected (parse_canonical_json bytes));
  accept p.

Definition accepted_revision (self : CompiledPolicyProvider) (policy_id : string) : option Z :=
  ap_revision <$> cp_accepted self !! policy_id.

Definition snapshot (self : CompiledPolicyProvider) (policy_id : string)
    : Result CompiledApplicationToolPolicy ToolConsequenceFailure :=
  match cp_accepted self !! policy_id with
  | Some accepted => Ok (ap_snapshot accepted)
  | None => Err (PolicyMissing (cp_provider_id self) policy_id)
  end.

(** ** The init parameters *)

(** [serde_json::from_value::<Vec<String>>] *)
Definition strings_from_value (v : Value) : Result (list string) string :=
  match v with
  | VArray items => ok_or (mapM as_str items) (not_strings_error v)
  | _ => Err (not_strings_error v)
  end.

Definition compiled_policy_payloads_from_init_params (params : Value) : Result (list string) ToolConsequenceFailure :=
  match value_get "application_tool_policies" params with
  | None => Ok []
  | Some value =>
      map_err (λ error, EvaluationFailed ("application_tool_policies is malformed: " +:+ error))
        (strings_from_value value)
  end.

(** A text between double quotes *)
Definition quoted (s : string) : string := String "034" (s +:+ String "034" "").

Definition child_application_tool_policy_from_init_params (params : Value)
    : Result (option ApplicationToolPolicyBinding) ToolConsequenceFailure :=
  match value_get "child_application_tool_policy" params with
  | None => Ok None
  | Some value =>
      binding ←? map_err (λ error, EvaluationFailed ("child_application_tool_policy is malformed: " +:+ error))
        (binding_from_value value);
      match binding with
      | Inherit =>
          Err (EvaluationFailed
            ("child_application_tool_policy cannot be {" +:+ quoted "kind" +:+ ":" +:+ quoted "inherit" +:+
             "}: a child mob has no member to inherit from; choose a provider binding or {" +:+
             quoted "kind" +:+ ":" +:+ quoted "unmanaged" +:+ "}"))
      | _ => Ok (Some binding)
      end
  end.

Definition validate_child_application_tool_policy (binding : ApplicationToolPolicyBinding)
    (providers : list CompiledPolicyProvider) : Result unit ToolConsequenceFailure :=
  match binding with
  | BindProvider provider_id policy_id =>
      provider ←? ok_or (find_first (λ q, cp_provider_id q =b provider_id) providers)
        (EvaluationFailed ("child_application_tool_policy names provider '" +:+ provider_id +:+
                           "', which no application_tool_policies entry carries"));
      match snapshot provider policy_id with
      | Ok _ => Ok tt
      | Err error =>
          Err (EvaluationFailed ("child_application_tool_policy names policy '" +:+ policy_id +:+
            "' of provider '" +:+ provider_id +:+ "', which it cannot load: " +:+ fmt_failure error))
      end
  | _ => Ok tt
  end.

(** The loop over the payloads: one provider per provider id the artifacts carry. *)
Fixpoint install_payloads (payloads : list string) (by_provider : gmap string CompiledPolicyProvider)
    : Result (gmap string CompiledPolicyProvider) ToolConsequenceFailure :=
  match payloads with
  | [] => Ok by_provider
  | payload :: rest =>
      p ←? map_err rejected (parse_canonical_json payload);
      let provider_id := provider_id_of p in
      let provider := unwrap_or (by_provider !! provider_id) (new_provider provider_id 1) in
      match accept p provider with
      | (Ok _, provider') => install_payloads rest (<[provider_id := provider']> by_provider)
      | (Err e, _) => Err e
      end
  end.
Definition providers_from_canonical_payloads (payloads : list string)
    : Result (list CompiledPolicyProvider) ToolConsequenceFailure :=
  by_provider ←? install_payloads payloads ∅;
  Ok (btree_values by_provider).

(** ** The boot of the gateway: the code and the text [fail_init] is given.
    [registry_new] is [ToolConsequencePolicyRegistry::new]. *)
Section boot.
Context {Registry : Type} (registry_new : list CompiledPolicyProvider → Result Registry string).

Definition check_child (child : option ApplicationToolPolicyBinding) (providers : list CompiledPolicyProvider)
    : Result unit (Z * string) :=
  match child with
  | Some binding =>
      map_err (λ error, (-32602, fmt_failure error)) (validate_child_application_tool_policy binding providers)
  | None => Ok tt
  end.

Definition arm_tool_policies (params : Value)
    : Result (option Registry * option ApplicationToolPolicyBinding) (Z * string) :=
  compiled_tool_policies ←? map_err (λ error, (-32602, fmt_failure error))
    (compiled_policy_payloads_from_init_params params);
  child ←? map_err (λ error, (-32602, fmt_failure error))
    (child_application_tool_policy_from_init_params params);
  if is_empty compiled_tool_policies then
    _ ←? check_child child []; Ok (None, child)
  else
    providers ←? map_err (λ error, (-32602, "application_tool_policies entry rejected: " +:+ fmt_failure error))
      (providers_from_canonical_payloads compiled_tool_policies);
    _ ←? check_child child providers;
    registry ←? map_err (λ error, (-32603, "application tool policy registry could not be built: " +:+ error))
      (registry_new providers);
    Ok (Some registry, child).
End boot.

(** ** Lemmas *)

(** An id that passes the check is the roster id of a public alias outside the
    generated namespace. *)
Lemma validate_member_identity_Ok s :
  validate_member_identity s = Ok tt ↔
  s ≠ "" ∧ starts_with "rt:" (runtime_alias_str s) = false ∧ mob_member_id_str (runtime_alias_str s) = s.
Proof.
  unfold validate_member_identity, is_reserved_generated_alias.
  destruct (str_is_empty s) eqn:E1; [apply str_is_empty_true in E1; naive_solver|apply str_is_empty_false in E1].
  destruct (starts_with "rt:" (runtime_alias_str s)); [naive_solver|].
  case_bool_decide; simpl; naive_solver.
Qed.

Lemma validate_members_Ok p ms :
  validate_members p ms = Ok tt ↔ Forall (λ m, validate_member_identity (member_identity m) = Ok tt) ms.
Proof.
  induction ms as [|m ms IH]; simpl; [by split; [constructor|]|]. rewrite Forall_cons, <- IH.
  destruct (validate_member_identity _) as [[]|]; naive_solver.
Qed.

(** What the fence lets a policy id move to. *)
Definition moves_forward (a b : AcceptedPolicy) : Prop :=
  ap_revision a ≤ ap_revision b ∧ (ap_revision a = ap_revision b → ap_digest a = ap_digest b).
#[local] Instance moves_forward_preorder : PreOrder moves_forward.
Proof.
  split; [by intros a; unfold moves_forward|]. intros a b c [H1 H2] [H3 H4]. split; [lia|].
  intros E. rewrite H2 by lia. apply H4. lia.
Qed.

Definition fence_le (s t : CompiledPolicyProvider) : Prop :=
  cp_provider_id s = cp_provider_id t ∧
  ∀ policy_id a, cp_accepted s !! policy_id = Some a →
    ∃ b, cp_accepted t !! policy_id = Some b ∧ moves_forward a b.
#[local] Instance fence_le_preorder : PreOrder fence_le.
Proof.
  split; [intros s; split; [done|intros ? a Ha; exists a; split; [done|reflexivity]]|]. intros s t u [E1 H1] [E2 H2].
  split; [congruence|]. intros policy_id a (b & Hb & Hab)%H1. apply H2 in Hb as (c & Hc & Hbc).
  exists c. split; [done|]. by etrans.
Qed.

(** The artifact of an entry: checked, of this provider, and what the fence records of it. *)
Definition entry_ok (self : CompiledPolicyProvider) (policy_id : string) (a : AcceptedPolicy) : Prop :=
  let p := ap_snapshot a in
  provider_id_of p = cp_provider_id self ∧ policy_id_of p = policy_id ∧
  ap_revision a = revision_of p ∧ ap_digest a = policy_digest_of p ∧
  validate_policy p = Ok tt ∧
  Forall (λ m, validate_member_identity (member_identity m) = Ok tt) (members_of p).
Definition provider_ok (self : CompiledPolicyProvider) : Prop := map_Forall (entry_ok self) (cp_accepted self).

Lemma provider_ok_new id g : provider_ok (new_provider id g).
Proof. apply map_Forall_empty. Qed.

Lemma check_revision_Ok id current p :
  check_revision id current p = Ok tt →
  ∀ a, current = Some a → moves_forward a (mkAccepted (revision_of p) (policy_digest_of p) p).
Proof.
  intros H a ->. unfold moves_forward, check_revision in *. simpl in *.
  destruct (Z.ltb_spec (revision_of p) (ap_revision a)); [done|]. split; [lia|]. intros E.
  rewrite <- E, Z.eqb_refl in H. simpl in H. case_bool_decide; naive_solver.
Qed.

(** Acceptance on every branch: a refusal changes nothing, an acceptance replaces
    exactly the entry of its policy id and moves it forward. *)
Definition accepts p (self : CompiledPolicyProvider) : Prop :=
  provider_id_of p = cp_provider_id self ∧
  Forall (λ m, validate_member_identity (member_identity m) = Ok tt) (members_of p) ∧
  validate_policy p = Ok tt ∧
  check_revision (cp_provider_id self) (cp_accepted self !! policy_id_of p) p = Ok tt.
Definition installed p (self : CompiledPolicyProvider) : CompiledPolicyProvider :=
  mkProvider (cp_provider_id self) (cp_generation self)
    (<[policy_id_of p := mkAccepted (revision_of p) (policy_digest_of p) p]> (cp_accepted self)).

Lemma accept_spec p self :
  (accept p self = (Ok tt, installed p self) ∧ accepts p self) ∨
  (∃ e, accept p self = (Err e, self) ∧ ¬ accepts p self).
Proof.
  unfold accept, mbind, m_bind, get, throw_if, lift_result, modify.
  destruct (decide (provider_id_of p = cp_provider_id self)) as [E1|E1];
    [rewrite bool_decide_true by done|rewrite bool_decide_false by done; right; eexists; split; [done|by intros [? _]]]; simpl.
  pose proof (validate_members_Ok p (members_of p)) as Hm.
  destruct (validate_members p _) as [[]|e]; [|right; eexists; split; [done|by intros (_ & ?%Hm & _)]].
  destruct (validate_policy p) as [[]|e] eqn:E3; simpl; [|right; eexists; split; [done|intros (_ & _ & ? & _); congruence]].
  destruct (check_revision _ _ p) as [[]|e] eqn:E4; [|right; eexists; split; [done|intros (_ & _ & _ & ?); congruence]].
  left. split; [done|]. split_and!; [done|by apply Hm|done..].
Qed.

Lemma installed_fence p self : accepts p self → fence_le self (installed p self).
Proof.
  intros (_ & _ & _ & Hc). split; [done|]. intros policy_id a Ha. simpl.
  destruct (decide (policy_id_of p = policy_id)) as [<-|Hne].
  - rewrite lookup_insert_eq. eexists. split; [done|]. by eapply check_revision_Ok.
  - rewrite lookup_insert_ne by done. exists a. split; [done|reflexivity].
Qed.
Lemma installed_ok p self : accepts p self → provider_ok self → provider_ok (installed p self).
Proof. intros (E & Hm & Hv & _) Hok. apply map_Forall_insert_2; [|done]. by repeat split. Qed.

Lemma accept_keeps p self : fence_le self (accept p self).2 ∧ (provider_ok self → provider_ok (accept p self).2).
Proof.
  destruct (accept_spec p self) as [[-> H]|(e & -> & _)]; simpl; [|split; [reflexivity|done]].
  split; [by apply installed_fence|by apply installed_ok].
Qed.

(** The calls of [accept] on one provider, whatever each answers. *)
Definition run_accepts (policies : list CompiledApplicationToolPolicy) (self : CompiledPolicyProvider)
    : CompiledPolicyProvider := foldl (λ s p, (accept p s).2) self policies.

Lemma run_accepts_keeps ps self :
  fence_le self (run_accepts ps self) ∧ (provider_ok self → provider_ok (run_accepts ps self)).
Proof.
  revert self. induction ps as [|p ps IH]; intros self; simpl; [split; [reflexivity|done]|].
  destruct (accept_keeps p self) as [H1 H2], (IH (accept p self).2) as [H3 H4]. split; [by etrans|auto].
Qed.

(** C34: whatever artifacts a provider is offered, and however each offer is
    answered, the revision accepted for a policy id never goes back and one
    revision never changes its digest; every accepted artifact carries the
    provider's and the policy's own id, passed its own validation and names only
    canonical roster members; and a refused offer changes nothing. *)
Theorem accepted_revisions_never_go_back id generation before after policy_id a :
  let now := run_accepts before (new_provider id generation) in
  cp_accepted now !! policy_id = Some a →
  entry_ok now policy_id a ∧
  (∃ b, cp_accepted (run_accepts after now) !! policy_id = Some b ∧ moves_forward a b) ∧
  (∀ p e, (accept p now).1 = Err e → (accept p now).2 = now).
Proof.
  intros now Ha. split_and!.
  - by apply (proj2 (run_accepts_keeps before _) (provider_ok_new _ _)).
  - destruct (run_accepts_keeps after now) as [[_ H] _]. by apply H.
  - intros p e He. destruct (accept_spec p now) as [[E _]|(e' & E & _)]; by rewrite E in *.
Qed.

(** ** What a boot arms *)

(** The providers built from payloads: their own key, checked entries, each parsed
    from one of the payloads. *)
Definition carried (payloads : list string) (k : string) (q : CompiledPolicyProvider) : Prop :=
  cp_provider_id q = k ∧ provider_ok q ∧
  ∀ policy_id a, cp_accepted q !! policy_id = Some a →
    ∃ payload, payload ∈ payloads ∧ parse_canonical_json payload = Ok (ap_snapshot a).
(** The artifact of a payload is served, at its revision or a later one. *)
Definition served (by_provider : gmap string CompiledPolicyProvider) (payload : string) : Prop :=
  ∃ p q a, parse_canonical_json payload = Ok p ∧ by_provider !! provider_id_of p = Some q ∧
    cp_accepted q !! policy_id_of p = Some a ∧
    moves_forward (mkAccepted (revision_of p) (policy_digest_of p) p) a.

Lemma carried_installed all payload p q :
  payload ∈ all → parse_canonical_json payload = Ok p → accepts p q →
  carried all (provider_id_of p) q → carried all (provider_id_of p) (installed p q).
Proof.
  intros Hin Hp Hacc (E & Hok & Hfrom). split_and!; [done|by apply installed_ok|].
  intros policy_id a. simpl. intros [[<- <-]|[_ Ha]]%lookup_insert_Some; [eauto|by apply Hfrom in Ha].
Qed.

Lemma served_installed by_provider payload p q :
  by_provider !! provider_id_of p = Some q → accepts p q → served by_provider payload →
  served (<[provider_id_of p := installed p q]> by_provider) payload.
Proof.
  intros Hq Hacc (p' & q' & a & Hp & Hq' & Ha & Hle). destruct (decide (provider_id_of p = provider_id_of p')) as [E|Hne].
  - rewrite <- E in Hq'. simplify_eq. apply (installed_fence p q Hacc) in Ha as (b & Hb & Hab).
    exists p', (installed p q), b. rewrite <- E, lookup_insert_eq. split_and!; [done..|by etrans].
  - exists p', q', a. by rewrite lookup_insert_ne.
Qed.

Lemma install_payloads_spec all rest done by_provider out :
  all = done ++ rest →
  map_Forall (carried all) by_provider → Forall (served by_provider) done →
  install_payloads rest by_provider = Ok out →
  map_Forall (carried all) out ∧ Forall (served out) all.
Proof.
  revert done by_provider. induction rest as [|payload rest IH]; intros don by_provider -> Hc Hs; simpl.
  { rewrite app_nil_r in *. naive_solver. }
  destruct (parse_canonical_json payload) as [p|] eqn:Hp; simpl; [|done].
  set (q := unwrap_or _ _). set (all := don ++ payload :: rest) in *.
  assert (carried all (provider_id_of p) q) as Hq.
  { subst q. destruct (by_provider !! _) as [q|] eqn:E; simpl; [by apply Hc in E|].
    split_and!; [done|apply provider_ok_new|done]. }
  assert (payload ∈ all) as Hin by (apply elem_of_app; right; by left).
  destruct (accept_spec p q) as [[-> Hacc]|(e & -> & _)]; [|done].
  apply (IH (don ++ [payload])); [by rewrite <- app_assoc|..].
  - apply map_Forall_insert_2; [by eapply carried_installed|done].
  - apply Forall_app. split.
    + eapply Forall_impl; [exact Hs|]. intros x Hx. destruct (by_provider !! provider_id_of p) as [q'|] eqn:E.
      * apply served_installed; by rewrite ?E.
      * destruct Hx as (p' & q' & a & H1 & H2 & H3). exists p', q', a. rewrite lookup_insert_ne by congruence. done.
    + apply Forall_singleton. exists p, (installed p q). eexists. rewrite lookup_insert_eq. simpl. rewrite lookup_insert_eq.
      split_and!; [done..|reflexivity].
Qed.

Lemma providers_spec payloads providers :
  providers_from_canonical_payloads payloads = Ok providers →
  ∃ by_provider, providers = btree_values by_provider ∧
    map_Forall (carried payloads) by_provider ∧ Forall (served by_provider) payloads.
Proof.
  unfold providers_from_canonical_payloads. intros (out & Hout & [= <-])%and_then_Ok. exists out. split; [done|].
  by apply (install_payloads_spec payloads payloads [] ∅).
Qed.

Lemma check_child_Ok child providers :
  check_child child providers = Ok tt →
  ∀ a b, child = Some (BindProvider a b) → ∃ q p, q ∈ providers ∧ cp_provider_id q = a ∧ snapshot q b = Ok p.
Proof.
  intros H a b ->. simpl in H. destruct (find_first _ _) as [q|] eqn:E; simpl in H; [|done].
  apply find_first_Some in E as [Hin Hq%bool_decide_eq_true]. destruct (snapshot q b) as [p|] eqn:Es; [|done]. eauto 10.
Qed.

Lemma child_not_inherit params child :
  child_application_tool_policy_from_init_params params = Ok child → child ≠ Some Inherit.
Proof.
  unfold child_application_tool_policy_from_init_params. destruct (value_get _ _) as [v|]; [|by intros [= <-]].
  intros (b & _ & Hb)%and_then_Ok. by destruct b; simplify_eq.
Qed.

Lemma carried_keys payloads by_provider :
  map_Forall (carried payloads) by_provider → cp_provider_id <$> btree_values by_provider = btree_keys by_provider.
Proof.
  intros Hc. unfold btree_values, btree_keys. rewrite <- list_fmap_compose. apply list_fmap_ext.
  intros i [k q] Hi. apply list_elem_of_lookup_2, elem_of_btree_entries, Hc in Hi. apply Hi.
Qed.

Lemma evaluate_Allow p request :
  default_deny_of p = true → policy_evaluate p request = Allow → is_Some (find_grant p request).
Proof. unfold policy_evaluate. intros ->. destruct (find_grant p request); [eauto|done]. Qed.
Lemma find_grant_Some p request g :
  find_grant p request = Some g →
  ∃ m, m ∈ members_of p ∧ member_identity m = req_member request ∧ g ∈ grants m ∧ tool_name g = req_tool_name request.
Proof.
  unfold find_grant. intros (m & [Hm ?%bool_decide_eq_true]%find_first_Some & [Hg ?%bool_decide_eq_true]%find_first_Some)%bind_Some.
  eauto 10.
Qed.

(** The request names a roster row by its canonical id, and the artifact grants it the tool. *)
Definition granted p (request : ToolConsequenceRequest) : Prop :=
  ∃ m g, m ∈ members_of p ∧ member_identity m = req_member request ∧
    g ∈ grants m ∧ tool_name g = req_tool_name request ∧
    mob_member_id_str (runtime_alias_str (req_member request)) = req_member request ∧
    starts_with "rt:" (runtime_alias_str (req_member request)) = false.

Section armed.
(** Meerkat's validation requires a default-deny artifact. *)
Hypothesis validate_requires_default_deny : ∀ p, validate_policy p = Ok tt → default_deny_of p = true.

Lemma entry_allows q policy_id a request :
  entry_ok q policy_id a → policy_evaluate (ap_snapshot a) request = Allow → granted (ap_snapshot a) request.
Proof.
  intros (_ & _ & _ & _ & Hv & Hm) Hallow. apply evaluate_Allow in Hallow as [g Hg]; [|by apply validate_requires_default_deny].
  apply find_grant_Some in Hg as (m & Hin & Hid & Hg & Ht). exists m, g. rewrite Forall_forall in Hm.
  pose proof (Hm _ Hin) as Hok%validate_member_identity_Ok. rewrite Hid in Hok.
  destruct Hok as (_ & ? & ?). by split_and!.
Qed.

(** What the boot hands to the registry. *)
Definition armed_ok (payloads : list string) (child : option ApplicationToolPolicyBinding)
    (providers : list CompiledPolicyProvider) : Prop :=
  (** one provider per id, in the order of the ids *)
  StronglySorted String.le (cp_provider_id <$> providers) ∧ NoDup (cp_provider_id <$> providers) ∧
  (** whatever is served was supplied, and allows only what it grants *)
  (∀ q policy_id p, q ∈ providers → snapshot q policy_id = Ok p →
    (∃ payload, payload ∈ payloads ∧ parse_canonical_json payload = Ok p) ∧
    provider_id_of p = cp_provider_id q ∧ policy_id_of p = policy_id ∧
    ∀ request, policy_evaluate p request = Allow → granted p request) ∧
  (** whatever was supplied is served, at its revision or a later one *)
  (∀ payload, payload ∈ payloads → ∃ p q served, parse_canonical_json payload = Ok p ∧ q ∈ providers ∧
    cp_provider_id q = provider_id_of p ∧ snapshot q (policy_id_of p) = Ok served ∧ revision_of p ≤ revision_of served) ∧
  (** the child policy can be resolved *)
  (∀ a b, child = Some (BindProvider a b) → ∃ q p, q ∈ providers ∧ cp_provider_id q = a ∧ snapshot q b = Ok p) ∧
  child ≠ Some Inherit.

Lemma providers_armed payloads providers child :
  providers_from_canonical_payloads payloads = Ok providers →
  check_child child providers = Ok tt → child ≠ Some Inherit → armed_ok payloads child providers.
Proof.
  intros (by_provider & -> & Hc & Hs)%providers_spec Hchild Hinh. unfold armed_ok.
  rewrite (carried_keys _ _ Hc). split_and!; [exact (btree_keys_sorted by_provider)|apply NoDup_btree_keys|..|done].
  - intros q policy_id p [k Hq]%elem_of_btree_values. apply Hc in Hq as (<- & Hok & Hfrom). unfold snapshot.
    destruct (cp_accepted q !! policy_id) as [a|] eqn:Ha; [intros [= <-]|done].
    pose proof (Hok _ _ Ha) as Hentry. split_and!; [by eapply Hfrom|apply Hentry..|]. intros request.
    by eapply entry_allows.
  - intros payload Hin. rewrite Forall_forall in Hs. apply Hs in Hin as (p & q & a & Hp & Hq & Ha & [Hle _]).
    destruct (Hc _ _ Hq) as (Hid & Hok & _). destruct (Hok _ _ Ha) as (_ & _ & Hr & _). simpl in Hle.
    exists p, q, (ap_snapshot a). unfold snapshot. rewrite Ha. split_and!; [done|apply elem_of_btree_values; eauto|done..|lia].
  - by apply check_child_Ok.
Qed.

(** C12: a gateway that boots serves exactly the tool policies it was given: one
    provider per provider id the artifacts carry, every supplied artifact at its
    revision or a later one, and nothing else; a request is allowed only by a grant
    of a served artifact for exactly its tool and its member, named by a canonical
    roster id; the child policy names a served policy and is never [inherit]; and
    without artifacts there is no registry. *)
Theorem boot_serves_only_granted_tools {Registry} (registry_new : list CompiledPolicyProvider → Result Registry string)
    params registry child :
  arm_tool_policies registry_new params = Ok (registry, child) →
  ∃ payloads providers,
    compiled_policy_payloads_from_init_params params = Ok payloads ∧
    child_application_tool_policy_from_init_params params = Ok child ∧
    armed_ok payloads child providers ∧
    match registry with
    | None => payloads = []
    | Some r => payloads ≠ [] ∧ registry_new providers = Ok r
    end.
Proof.
  unfold arm_tool_policies. intros (payloads & Hp & (child' & Hch & H)%and_then_Ok)%and_then_Ok.
  destruct (compiled_policy_payloads_from_init_params params) as [ps|]; simplify_eq/=.
  destruct (child_application_tool_policy_from_init_params params) as [ch|] eqn:Ech; simplify_eq/=.
  pose proof (child_not_inherit _ _ Ech) as Hni. exists payloads. destruct payloads as [|x payloads]; simpl in H.
  - apply and_then_Ok in H as ([] & Hc & [= <- <-]). exists []. split_and!; try done.
    apply providers_armed; done.
  - apply and_then_Ok in H as (providers & Hpr & H). apply and_then_Ok in H as ([] & Hc & (r & Hr & [= <- <-])%and_then_Ok).
    destruct (providers_from_canonical_payloads _) as [prs|] eqn:E; simplify_eq/=.
    exists providers. split_and!; [done..|by apply providers_armed|done|]. by destruct (registry_new providers); simplify_eq/=.
Qed.
End armed.
End policy.

(** ** Runs *)
Module ToolPolicyExamples.

Record Artifact := mkArtifact {
  art_provider : string; art_policy : string; art_revision : Z; art_digest : string; art_members : list CompiledMemberToolGrants }.
Definition artifact_of (bytes : string) : Result Artifact string :=
  let grant m t := [mkGrants m [mkGrant t Invoke]] in
  if bytes =b "one" then Ok (mkArtifact "acme" "fleet" 1 "d1" (grant "mk--domain_ccalendar" "shell"))
  else if bytes =b "two" then Ok (mkArtifact "acme" "fleet" 2 "d2" (grant "scout" "shell"))
  else if bytes =b "two, changed" then Ok (mkArtifact "acme" "fleet" 2 "d3" (grant "scout" "http"))
  else if bytes =b "runtime id" then Ok (mkArtifact "acme" "fleet" 3 "d4" (grant "mk--rt_cdomain_ccalendar_c0" "shell"))
  else if bytes =b "other" then Ok (mkArtifact "beta" "child-tools" 1 "d5" (grant "scout" "http"))
  else Err "not canonical".

#[local] Instance artifacts : PolicyArtifacts := {|
  CompiledApplicationToolPolicy := Artifact;
  provider_id_of := art_provider; policy_id_of := art_policy; revision_of := art_revision;
  policy_digest_of := art_digest; default_deny_of := λ _, true; members_of := art_members;
  validate_policy := λ _, Ok tt; parse_canonical_json := artifact_of;
  not_strings_error := λ _, "invalid type";
  binding_from_value := λ v,
    match value_get "provider_id" v, value_get "policy_id" v with
    | Some (VString a), Some (VString b) => Ok (BindProvider a b)
    | _, _ => if value_eqb v (obj [("kind", str "unmanaged")]) then Ok Unmanaged else Err "not a binding"
    end;
  fmt_failure := λ f, match f with EvaluationFailed r => r | _ => "refused" end |}.

Definition art (bytes : string) : Artifact :=
  match artifact_of bytes with Ok a => a | Err _ => mkArtifact "" "" 0 "" [] end.
Definition boot_params (payloads : list string) : Value :=
  obj [("application_tool_policies", VArray (VString <$> payloads));
       ("child_application_tool_policy", obj [("provider_id", str "beta"); ("policy_id", str "child-tools")])].
Definition count_providers (providers : list CompiledPolicyProvider) : Result nat string := Ok (length providers).

(** The order of the payloads matters: an older revision after a newer one refuses the boot. *)
Example boots :
  arm_tool_policies count_providers (boot_params ["one"; "other"; "two"]) =
    Ok (Some 2%nat, Some (BindProvider "beta" "child-tools")) ∧
  arm_tool_policies count_providers (boot_params ["two"; "other"; "one"]) =
    Err (-32602, "application_tool_policies entry rejected: refused") ∧
  arm_tool_policies count_providers (boot_params ["one"; "two"]) =
    Err (-32602, "child_application_tool_policy names provider 'beta', which no application_tool_policies entry carries") ∧
  arm_tool_policies count_providers (obj []) = Ok (None, None) ∧
  arm_tool_policies count_providers (obj [("application_tool_policies", VNull)]) =
    Err (-32602, "application_tool_policies is malformed: invalid type").
Proof. by vm_compute. Qed.

(** An artifact compiled against runtime ids is refused with the id it should carry. *)
Example runtime_ids_are_refused :
  validate_member_identity "mk--rt_cdomain_ccalendar_c0" =
    Err "names the agent RUNTIME id 'rt:domain:calendar:0', which is binding detail and matches no roster row; compile the encoded durable identity 'mk--domain_ccalendar' instead" ∧
  validate_member_identity "domain:calendar" =
    Err "is not a canonical roster member id; the encoded form of 'domain:calendar' is 'mk--domain_ccalendar'".
Proof. by vm_compute. Qed.

Lemma accepted_revisions_never_go_back_witness :
  let now := run_accepts [art "one"; art "runtime id"] (new_provider "acme" 1) in
  ∃ a b, cp_accepted now !! "fleet" = Some a ∧ ap_revision a = 1 ∧
    cp_accepted (run_accepts [art "two"; art "one"; art "two, changed"] now) !! "fleet" = Some b ∧ moves_forward a b.
Proof.
  eexists. destruct (accepted_revisions_never_go_back (PA:=artifacts) "acme" 1 [art "one"; art "runtime id"]
    [art "two"; art "one"; art "two, changed"] "fleet" (mkAccepted (PA:=artifacts) 1 "d1" (art "one"))) as (_ & (b & Hb & Hm) & _).
  { by vm_compute. }
  exists b. split; [by vm_compute|]. split; [done|]. by split.
Defined.

Lemma boot_serves_only_granted_tools_witness :
  ∃ payloads providers,
    compiled_policy_payloads_from_init_params (boot_params ["one"; "other"; "two"]) = Ok payloads ∧
    armed_ok payloads (Some (BindProvider "beta" "child-tools")) providers ∧ payloads ≠ [].
Proof.
  destruct (boot_serves_only_granted_tools (PA:=artifacts) (λ _ _, eq_refl) count_providers (boot_params ["one"; "other"; "two"])
    (Some 2%nat) (Some (BindProvider "beta" "child-tools"))) as (payloads & providers & H1 & _ & H2 & H3 & _).
  { by vm_compute. }
  by exists payloads, providers.
Defined.
End ToolPolicyExamples.
