(* ===== verification/ToolCompose.v ===== *)
(** * Composed tool dispatchers ([tool_compose.rs])

    A dispatcher slot holds either a dispatcher of Meerkat's or of the host, or a
    composition of two dispatchers made here.  The former are the handles of
    [ToolHost], whose operations may read and change the world; the latter are the
    constructor [Composed], and every trait method of [ComposedExternalTools] is a
    fixpoint over the two.  Execution plans, their owner witnesses and binding
    fingerprints are Meerkat's too; what a composition relies on of them is
    [PlanLaws]. *)

From S2P Require Import Prelude Strings Json MemberIds MemberIdTheorems.
Open Scope Z_scope.

Inductive ToolUnavailableReason := ExecutionOwnerChanged | OtherReason (code : Z).

Class ToolHost := {
  (** the world the dispatchers act on, and what they pass around *)
  HostWorld : Type;
  Handle : Type;
  ToolDef : Type;
  tool_def_name : ToolDef → string;
  ToolCatalogEntry : Type;
  entry_tool : ToolCatalogEntry → ToolDef;
  ToolCallView : Type;
  call_name : ToolCallView → string;
  ToolDispatchContext : Type;
  ToolExecutionResolutionContext : Type;
  ToolDispatchOutcome : Type;
  ToolApplicationRequest : Type;
  ToolMutationClass : Type;
  LiveBridgeEffectKind : Type;
  ReviewEntrySupport : Type;
  (** errors *)
  ToolError : Type;
  tool_unavailable : string → ToolUnavailableReason → ToolError;
  tool_access_denied : string → ToolError;
  ToolExecutionResolutionError : Type;
  resolution_unavailable : string → ToolUnavailableReason → ToolExecutionResolutionError;
  tool_error_from : ToolExecutionResolutionError → ToolError;
  (** binding fingerprints *)
  Fingerprint : Type;
  fingerprint_eq_dec :: EqDecision Fingerprint;
  with_live_authority : Fingerprint → Z → Z → Fingerprint;
  (** owner witnesses: the authority's key, the owner it chose, the owner's binding *)
  OwnerWitness : Type;
  witness_new : string → string → Fingerprint → Result OwnerWitness ToolExecutionResolutionError;
  witness_owner_key : OwnerWitness → string;
  witness_fingerprint : OwnerWitness → Fingerprint;
  Plan : Type;
  plan_with_witness : Plan → OwnerWitness → Result Plan ToolExecutionResolutionError;
  plan_witness : Plan → string → option OwnerWitness;
  AppBinding : Type;
  binding_with_witness : AppBinding → OwnerWitness → Result AppBinding ToolExecutionResolutionError;
  (** [ToolApplicationResolution]: the name and binding of its [Call] variant *)
  Resolution : Type;
  resolution_call : Resolution → option (string * AppBinding);
  set_resolution_binding : Resolution → AppBinding → Resolution;
  (** the operations of a dispatcher that is no composition *)
  h_tools : Handle → HostWorld → list ToolDef;
  h_catalog : Handle → HostWorld → list ToolCatalogEntry;
  h_exact_catalog : Handle → HostWorld → bool;
  h_may_require_control_plane : Handle → HostWorld → bool;
  h_ops_lifecycle : Handle → HostWorld → bool;
  h_mutation_class : Handle → HostWorld → string → ToolMutationClass;
  h_live_bridge_effect : Handle → HostWorld → string → LiveBridgeEffectKind;
  h_review_entry : Handle → HostWorld → string → ReviewEntrySupport;
  h_binding_epoch : Handle → HostWorld → string → Z;
  h_fingerprint : Handle → HostWorld → string → Result Fingerprint ToolExecutionResolutionError;
  h_resolve_plan : Handle → ToolCallView → ToolDispatchContext → ToolExecutionResolutionContext →
    M HostWorld ToolExecutionResolutionError Plan;
  h_validate_plan : Handle → HostWorld → ToolCallView → ToolExecutionResolutionContext → Plan →
    Result unit ToolExecutionResolutionError;
  h_dispatch_resolved : Handle → ToolCallView → ToolDispatchContext → Plan → M HostWorld ToolError ToolDispatchOutcome;
  h_dispatch : Handle → ToolCallView → M HostWorld ToolError ToolDispatchOutcome;
  h_dispatch_with_context : Handle → ToolCallView → ToolDispatchContext → M HostWorld ToolError ToolDispatchOutcome;
  h_resolve_application : Handle → string → ToolApplicationRequest → Value → ToolDispatchContext →
    M HostWorld ToolError Resolution;
}.

Section compose.
Context `{TH : ToolHost}.

(** [Arc<dyn AgentToolDispatcher>] *)
Inductive Dispatcher :=
| Leaf (h : Handle)
| Composed (primary fallback : Dispatcher) (execution_authority_id : Z).
Implicit Types d : Dispatcher.
Implicit Types w : HostWorld.

Definition advertises (tools : list ToolDef) (name : string) : bool :=
  existsb (λ t, tool_def_name t =b name) tools.

Definition merge_tools (primary fallback : list ToolDef) : list ToolDef :=
  primary ++ filter (λ t, negb (advertises primary (tool_def_name t))) fallback.

Fixpoint tools d w : list ToolDef :=
  match d with
  | Leaf h => h_tools h w
  | Composed primary fallback _ => merge_tools (tools primary w) (tools fallback w)
  end.

Definition primary_advertises (primary : Dispatcher) w (name : string) : bool := advertises (tools primary w) name.

Definition shadowed_fallback_names (primary fallback : Dispatcher) w : list string :=
  tool_def_name <$> filter (λ t, advertises (tools primary w) (tool_def_name t)) (tools fallback w).

(** [NEXT_EXECUTION_AUTHORITY_ID.fetch_add(1)] on an [AtomicUsize]; the composition
    that is made, and the names the warning lists. *)
Definition next_usize (n : Z) : Z := (n + 1) mod 2 ^ 64.
Definition over (primary : Dispatcher) (fallback : option Dispatcher) w (next_id : Z)
    : Dispatcher * list string * Z :=
  match fallback with
  | None => (primary, [], next_id)
  | Some fallback =>
      (Composed primary fallback next_id, shadowed_fallback_names primary fallback w, next_usize next_id)
  end.

(** [owner]: the route's name; the owner itself is the half it names. *)
Definition route (primary : Dispatcher) w (name : string) : string :=
  if primary_advertises primary w name then "primary" else "fallback".

Definition execution_authority_key (id : Z) : string := "meta:composed-external-tools:" +:+ fmt_dec id.

(** The methods that only read *)
Fixpoint tool_catalog d w : list ToolCatalogEntry :=
  match d with
  | Leaf h => h_catalog h w
  | Composed primary fallback _ =>
      tool_catalog primary w ++
      filter (λ e, negb (primary_advertises primary w (tool_def_name (entry_tool e)))) (tool_catalog fallback w)
  end.
(** [tool_catalog_capabilities]: exactness, and the need of a control plane *)
Fixpoint tool_catalog_capabilities d w : bool * bool :=
  match d with
  | Leaf h => (h_exact_catalog h w, h_may_require_control_plane h w)
  | Composed primary fallback _ =>
      let p := tool_catalog_capabilities primary w in
      let f := tool_catalog_capabilities fallback w in
      (p.1 && f.1, p.2 || f.2)
  end.
(** [capabilities().ops_lifecycle] *)
Fixpoint capabilities d w : bool :=
  match d with
  | Leaf h => h_ops_lifecycle h w
  | Composed primary fallback _ => capabilities primary w || capabilities fallback w
  end.
Fixpoint tool_mutation_class d w (name : string) : ToolMutationClass :=
  match d with
  | Leaf h => h_mutation_class h w name
  | Composed primary fallback _ =>
      if primary_advertises primary w name then tool_mutation_class primary w name else tool_mutation_class fallback w name
  end.
Fixpoint live_bridge_effect_kind d w (name : string) : LiveBridgeEffectKind :=
  match d with
  | Leaf h => h_live_bridge_effect h w name
  | Composed primary fallback _ =>
      if primary_advertises primary w name then live_bridge_effect_kind primary w name
      else live_bridge_effect_kind fallback w name
  end.
Fixpoint review_entry_support d w (name : string) : ReviewEntrySupport :=
  match d with
  | Leaf h => h_review_entry h w name
  | Composed primary fallback _ =>
      if primary_advertises primary w name then review_entry_support primary w name
      else review_entry_support fallback w name
  end.
Fixpoint execution_binding_epoch d w (name : string) : Z :=
  match d with
  | Leaf h => h_binding_epoch h w name
  | Composed primary fallback _ =>
      if primary_advertises primary w name then execution_binding_epoch primary w name
      else execution_binding_epoch fallback w name
  end.
Fixpoint execution_binding_fingerprint d w (name : string) : Result Fingerprint ToolExecutionResolutionError :=
  match d with
  | Leaf h => h_fingerprint h w name
  | Composed primary fallback id =>
      let to_primary := primary_advertises primary w name in
      child ←? (if to_primary then execution_binding_fingerprint primary w name
                else execution_binding_fingerprint fallback w name);
      Ok (with_live_authority child id (if to_primary then 1 else 0))
  end.

(** [x.execution_binding_fingerprint(name).as_ref() == Ok(&f)] *)
Definition fingerprint_is (r : Result Fingerprint ToolExecutionResolutionError) (f : Fingerprint) : bool :=
  match r with Ok g => g =b f | Err _ => false end.

(** ** Planning and running a call *)

Fixpoint resolve_execution_plan d (call : ToolCallView) (context : ToolDispatchContext)
    (resolution_context : ToolExecutionResolutionContext) : M HostWorld ToolExecutionResolutionError Plan :=
  match d with
  | Leaf h => h_resolve_plan h call context resolution_context
  | Composed primary fallback id =>
      w ← get;
      let name := call_name call in
      let to_primary := primary_advertises primary w name in
      let fingerprint w' :=
        if to_primary then execution_binding_fingerprint primary w' name
        else execution_binding_fingerprint fallback w' name in
      before ← lift_result (fingerprint w);
      plan ← (if to_primary then resolve_execution_plan primary call context resolution_context
              else resolve_execution_plan fallback call context resolution_context);
      w' ← get;
      throw_if (negb (route primary w' name =b route primary w name) || negb (fingerprint_is (fingerprint w') before))
        (resolution_unavailable name ExecutionOwnerChanged);;
      witness ← lift_result (witness_new (execution_authority_key id) (route primary w name) before);
      lift_result (plan_with_witness plan witness)
  end.

Fixpoint validate_resolved_execution_plan d w (call : ToolCallView) (context : ToolExecutionResolutionContext)
    (plan : Plan) : Result unit ToolExecutionResolutionError :=
  match d with
  | Leaf h => h_validate_plan h w call context plan
  | Composed primary fallback _ =>
      if primary_advertises primary w (call_name call)
      then validate_resolved_execution_plan primary w call context plan
      else validate_resolved_execution_plan fallback w call context plan
  end.

Fixpoint dispatch_resolved_with_context d (call : ToolCallView) (context : ToolDispatchContext) (plan : Plan)
    : M HostWorld ToolError ToolDispatchOutcome :=
  match d with
  | Leaf h => h_dispatch_resolved h call context plan
  | Composed primary fallback id =>
      w ← get;
      let name := call_name call in
      let to_primary := primary_advertises primary w name in
      let changed := tool_unavailable name ExecutionOwnerChanged in
      witness ← lift_result (ok_or (plan_witness plan (execution_authority_key id)) changed);
      throw_if (negb (witness_owner_key witness =b route primary w name) ||
                negb (fingerprint_is
                  (if to_primary then execution_binding_fingerprint primary w name
                   else execution_binding_fingerprint fallback w name) (witness_fingerprint witness)))
        changed;;
      if to_primary then dispatch_resolved_with_context primary call context plan
      else dispatch_resolved_with_context fallback call context plan
  end.

Fixpoint dispatch d (call : ToolCallView) : M HostWorld ToolError ToolDispatchOutcome :=
  match d with
  | Leaf h => h_dispatch h call
  | Composed primary fallback _ =>
      w ← get;
      if primary_advertises primary w (call_name call) then dispatch primary call else dispatch fallback call
  end.
Fixpoint dispatch_with_context d (call : ToolCallView) (context : ToolDispatchContext)
    : M HostWorld ToolError ToolDispatchOutcome :=
  match d with
  | Leaf h => h_dispatch_with_context h call context
  | Composed primary fallback _ =>
      w ← get;
      if primary_advertises primary w (call_name call) then dispatch_with_context primary call context
      else dispatch_with_context fallback call context
  end.

Fixpoint resolve_tool_application d (source_tool : string) (request : ToolApplicationRequest) (invocation : Value)
    (context : ToolDispatchContext) : M HostWorld ToolError Resolution :=
  match d with
  | Leaf h => h_resolve_application h source_tool request invocation context
  | Composed primary fallback id =>
      w ← get;
      let to_primary := primary_advertises primary w source_tool in
      let changed := tool_unavailable source_tool ExecutionOwnerChanged in
      let fingerprint w' :=
        if to_primary then execution_binding_fingerprint primary w' source_tool
        else execution_binding_fingerprint fallback w' source_tool in
      before ← lift_result (map_err (λ _, changed) (fingerprint w));
      result ← (if to_primary then resolve_tool_application primary source_tool request invocation context
                else resolve_tool_application fallback source_tool request invocation context);
      w' ← get;
      throw_if (negb (route primary w' source_tool =b route primary w source_tool) ||
                negb (fingerprint_is (fingerprint w') before)) changed;;
      match resolution_call result with
      | None => mret result
      | Some (name, binding) =>
          throw_if (negb (route primary w' name =b route primary w source_tool)) (tool_access_denied name);;
          target ← lift_result (map_err tool_error_from
            (if primary_advertises primary w' name then execution_binding_fingerprint primary w' name
             else execution_binding_fingerprint fallback w' name));
          witness ← lift_result (map_err (λ _, changed)
            (witness_new (execution_authority_key id) (route primary w' name) target));
          binding' ← lift_result (map_err tool_error_from (binding_with_witness binding witness));
          mret (set_resolution_binding result binding')
      end
  end.

(** ** Binding the halves to a session's registry.  [strong_count] is the number of
    owners of a dispatcher, [h_bind] the bind of a handle, which answers whether it
    was bound and the dispatcher to use from then on. *)
Inductive OpsLifecycleBindError := SharedOwnership | OtherBindError (code : Z).
Section bind.
Context (strong_count : Dispatcher → nat)
  (h_bind : Handle → M HostWorld OpsLifecycleBindError (bool * Handle)).

Fixpoint bind_ops_lifecycle d : M HostWorld OpsLifecycleBindError (bool * Dispatcher) :=
  match d with
  | Leaf h => '(b, h') ← h_bind h; mret (b, Leaf h')
  | Composed primary fallback id =>
      throw_if (negb (strong_count d =? 1)%nat) SharedOwnership;;
      let bind_half half (bind : M HostWorld OpsLifecycleBindError (bool * Dispatcher)) :=
        w ← get;
        if negb (capabilities half w) then mret (false, half)
        else if negb (strong_count half =? 1)%nat then throw SharedOwnership
        else bind in
      p ← bind_half primary (bind_ops_lifecycle primary);
      f ← bind_half fallback (bind_ops_lifecycle fallback);
      mret (p.1 || f.1, Composed p.2 f.2 id)
  end.
End bind.

(** ** Who runs a call *)

(** The dispatcher a name is routed to, through every composition. *)
Fixpoint leaf_of d w (name : string) : Handle :=
  match d with
  | Leaf h => h
  | Composed primary fallback _ =>
      if primary_advertises primary w name then leaf_of primary w name else leaf_of fallback w name
  end.

Definition find_tool (tools : list ToolDef) (name : string) : option ToolDef :=
  find_first (λ t, tool_def_name t =b name) tools.

Lemma advertises_find ts name : advertises ts name = is_some (find_tool ts name).
Proof.
  unfold find_tool, find_first, advertises. induction ts as [|t ts IH]; simpl; [done|].
  by case_bool_decide; simpl; rewrite ?IH.
Qed.
Lemma find_tool_app ts us name :
  find_tool (ts ++ us) name = if advertises ts name then find_tool ts name else find_tool us name.
Proof.
  unfold find_tool, find_first, advertises. induction ts as [|t ts IH]; simpl; [done|].
  by case_bool_decide.
Qed.
Lemma find_tool_filter f ts name :
  (∀ t, tool_def_name t = name → f t = true) → find_tool (filter (λ t, Is_true (f t)) ts) name = find_tool ts name.
Proof.
  intros Hf. unfold find_tool, find_first. induction ts as [|t ts IH]; [done|]. rewrite filter_cons. simpl.
  destruct (decide (tool_def_name t = name)) as [E|E].
  - rewrite (Hf t E). rewrite bool_decide_true by done. destruct (decide (Is_true true)) as [|[]]; [|done].
    simpl. by rewrite bool_decide_true.
  - rewrite (bool_decide_false _ E). destruct (decide (Is_true (f t))); [simpl; by rewrite (bool_decide_false _ E)|done].
Qed.
Lemma find_tool_merge ts us name :
  find_tool (merge_tools ts us) name = if advertises ts name then find_tool ts name else find_tool us name.
Proof.
  unfold merge_tools. rewrite find_tool_app. destruct (advertises ts name) eqn:E; [done|].
  apply find_tool_filter. intros t ->. by rewrite E.
Qed.

Lemma find_tool_leaf d w name : find_tool (tools d w) name = find_tool (h_tools (leaf_of d w name) w) name.
Proof.
  induction d as [|p IHp f IHf id]; [done|]. simpl. rewrite find_tool_merge. unfold primary_advertises.
  by destruct (advertises (tools p w) name).
Qed.
Lemma dispatch_leaf d call w : dispatch d call w = h_dispatch (leaf_of d w (call_name call)) call w.
Proof. induction d as [|p IHp f IHf id]; [done|]. simpl. unfold mbind, m_bind, get. by case_match. Qed.
Lemma dispatch_with_context_leaf d call context w :
  dispatch_with_context d call context w = h_dispatch_with_context (leaf_of d w (call_name call)) call context w.
Proof. induction d as [|p IHp f IHf id]; [done|]. simpl. unfold mbind, m_bind, get. by case_match. Qed.

Lemma merge_tools_NoDup ts us :
  NoDup (tool_def_name <$> ts) → NoDup (tool_def_name <$> us) → NoDup (tool_def_name <$> merge_tools ts us).
Proof.
  intros Ht Hu. unfold merge_tools. rewrite fmap_app. apply NoDup_app. split_and!; [done|..].
  - intros n Hn (t & -> & [Hneg Hin]%list_elem_of_filter)%list_elem_of_fmap.
    apply Is_true_true, negb_true_iff in Hneg. apply list_elem_of_fmap in Hn as (t' & E & Hin').
    unfold advertises in Hneg. apply not_true_iff_false in Hneg. apply Hneg, existsb_exists.
    exists t'. split; [by apply list_elem_of_In|]. by apply bool_decide_eq_true.
  - eapply sublist_NoDup; [exact Hu|]. apply fmap_sublist, sublist_filter.
Qed.

(** Every call runs in the dispatcher whose tool is advertised under the call's
    name, and a composition advertises no name twice when its parts do not. *)
Lemma advertised_tool_runs d w :
  (∀ name, find_tool (tools d w) name = find_tool (h_tools (leaf_of d w name) w) name) ∧
  (∀ call, dispatch d call w = h_dispatch (leaf_of d w (call_name call)) call w) ∧
  (∀ call context, dispatch_with_context d call context w =
     h_dispatch_with_context (leaf_of d w (call_name call)) call context w) ∧
  ((∀ h, NoDup (tool_def_name <$> h_tools h w)) → NoDup (tool_def_name <$> tools d w)).
Proof.
  split_and!; intros; [apply find_tool_leaf|apply dispatch_leaf|apply dispatch_with_context_leaf|].
  induction d; simpl; [done|by apply merge_tools_NoDup].
Qed.

(** ** Plans *)

Fixpoint authority_ids d : list Z :=
  match d with
  | Leaf _ => []
  | Composed primary fallback id => id :: authority_ids primary ++ authority_ids fallback
  end.
(** A composition's id is not that of a composition inside it. *)
Fixpoint well_composed d : Prop :=
  match d with
  | Leaf _ => True
  | Composed primary fallback id =>
      is_u64 id ∧ id ∉ authority_ids primary ++ authority_ids fallback ∧
      well_composed primary ∧ well_composed fallback
  end.

(** [over] keeps this while the counter is above every id in use. *)
Lemma over_well_composed primary fallback w next :
  let '(d, _, next') := over primary fallback w next in
  well_composed primary → default True (well_composed <$> fallback) →
  Forall (λ id, 0 ≤ id < next) (authority_ids primary) →
  Forall (λ id, 0 ≤ id < next) (default [] (authority_ids <$> fallback)) →
  0 ≤ next < U64_MAX →
  well_composed d ∧ Forall (λ id, 0 ≤ id < next') (authority_ids d).
Proof.
  destruct fallback as [f|]; simpl; intros Hp Hf Ip If Hn; [|done]. unfold next_usize.
  assert ((next + 1) mod 2 ^ 64 = next + 1) as -> by (apply Z.mod_small; unfold U64_MAX in Hn; lia).
  assert (Forall (λ id, 0 ≤ id < next) (authority_ids primary ++ authority_ids f)) as Hall by (by apply Forall_app).
  split; [split; [unfold is_u64; lia|split; [|done]]|constructor; [lia|]].
  - rewrite Forall_forall in Hall. intros Hin%Hall. lia.
  - eapply Forall_impl; [exact Hall|]. simpl. lia.
Qed.

(** Every composition on the way of the name finds its witness in the plan, for the
    route it takes now and the present binding of that half. *)
Fixpoint bound d (plan : Plan) w (name : string) : Prop :=
  match d with
  | Leaf _ => True
  | Composed primary fallback id =>
      ∃ witness, plan_witness plan (execution_authority_key id) = Some witness ∧
        witness_owner_key witness = route primary w name ∧
        if primary_advertises primary w name
        then execution_binding_fingerprint primary w name = Ok (witness_fingerprint witness) ∧ bound primary plan w name
        else execution_binding_fingerprint fallback w name = Ok (witness_fingerprint witness) ∧ bound fallback plan w name
  end.

Lemma route_inj primary w w' name :
  route primary w name = route primary w' name → primary_advertises primary w name = primary_advertises primary w' name.
Proof. unfold route. by do 2 case_match. Qed.

Lemma fingerprint_is_true r f : fingerprint_is r f = true ↔ r = Ok f.
Proof. destruct r; simpl; [rewrite bool_decide_eq_true|]; naive_solver. Qed.

(** A bound plan runs where the name is routed. *)
Lemma bound_dispatch d call context plan w :
  bound d plan w (call_name call) →
  dispatch_resolved_with_context d call context plan w =
  h_dispatch_resolved (leaf_of d w (call_name call)) call context plan w.
Proof.
  induction d as [|p IHp f IHf id]; [done|]. simpl. intros (witness & Hw & Hr & Hb).
  unfold mbind, m_bind, get, lift_result, throw_if. rewrite Hw. simpl. rewrite bool_decide_true by done. simpl.
  destruct (primary_advertises p w (call_name call)); destruct Hb as [Hf Hb];
    rewrite (proj2 (fingerprint_is_true _ _) Hf); simpl; auto.
Qed.

(** Whatever the plan, a call runs only in a bound state; otherwise it is refused. *)
Lemma dispatch_needs_bound d call context plan w :
  dispatch_resolved_with_context d call context plan w = (Err (tool_unavailable (call_name call) ExecutionOwnerChanged), w) ∨
  bound d plan w (call_name call).
Proof.
  induction d as [|p IHp f IHf id]; [by right|]. simpl.
  unfold mbind, m_bind, get, lift_result, throw_if.
  destruct (plan_witness plan _) as [witness|]; simpl; [|by left]. case_bool_decide as Hr; simpl; [|by left].
  destruct (primary_advertises p w (call_name call));
    (destruct (fingerprint_is _ _) eqn:Hf; simpl; [apply fingerprint_is_true in Hf|by left]).
  - destruct IHp as [->|Hb]; [by left|right; eauto].
  - destruct IHf as [->|Hb]; [by left|right; eauto].
Qed.

(** One plan bound in two states names one dispatcher with one binding. *)
Lemma bound_agree d plan w w' name :
  bound d plan w name → bound d plan w' name →
  leaf_of d w' name = leaf_of d w name ∧
  match d with
  | Leaf _ => True
  | Composed _ _ _ =>
      ∃ f, h_fingerprint (leaf_of d w name) w name = Ok f ∧ h_fingerprint (leaf_of d w name) w' name = Ok f
  end.
Proof.
  induction d as [|p IHp f IHf id]; [done|]. simpl. intros (wt & Hw & Hr & Hb) (wt' & Hw' & Hr' & Hb').
  rewrite Hw in Hw'. injection Hw' as <-. rewrite Hr in Hr'. apply route_inj in Hr'. rewrite <- Hr' in *.
  destruct (primary_advertises p w name); destruct Hb as [Hf Hb], Hb' as [Hf' Hb'].
  - destruct (IHp Hb Hb') as [-> H]. split; [done|]. destruct p; [simpl in *; eauto|exact H].
  - destruct (IHf Hb Hb') as [-> H]. split; [done|]. destruct f; [simpl in *; eauto|exact H].
Qed.
End compose.

(** What a composition relies on of plans: a witness says what it was made of, and a
    plan that carries it answers it under its authority's key, the others as before. *)
Class PlanLaws `{TH : ToolHost} : Prop := {
  witness_new_owner key owner f witness : witness_new key owner f = Ok witness → witness_owner_key witness = owner;
  witness_new_fingerprint key owner f witness : witness_new key owner f = Ok witness → witness_fingerprint witness = f;
  plan_witness_new key owner f witness plan plan' :
    witness_new key owner f = Ok witness → plan_with_witness plan witness = Ok plan' →
    plan_witness plan' key = Some witness;
  plan_witness_other key owner f witness plan plan' key' :
    witness_new key owner f = Ok witness → plan_with_witness plan witness = Ok plan' → key' ≠ key →
    plan_witness plan' key' = plan_witness plan key';
  (** the assignment to the [binding] field of a [Call] *)
  resolution_call_set r binding :
    resolution_call (set_resolution_binding r binding) = (λ c, (c.1, binding)) <$> resolution_call r;
}.

Section plans.
Context `{TH : ToolHost} {laws : PlanLaws}.
Implicit Types d : Dispatcher.
Implicit Types w : HostWorld.

Lemma bound_other_key d plan plan' w name :
  (∀ id, id ∈ authority_ids d → plan_witness plan' (execution_authority_key id) = plan_witness plan (execution_authority_key id)) →
  bound d plan w name → bound d plan' w name.
Proof.
  induction d as [|p IHp f IHf id]; [done|]. simpl. intros Hk (wt & Hw & Hr & Hb). exists wt.
  rewrite Hk by left. split_and!; [done..|]. case_match; destruct Hb as [Hf Hb]; (split; [done|]).
  - apply IHp; [|done]. intros i Hi. apply Hk. right. by apply elem_of_app; left.
  - apply IHf; [|done]. intros i Hi. apply Hk. right. by apply elem_of_app; right.
Qed.

Lemma authority_key_inj a b : is_u64 a → is_u64 b → execution_authority_key a = execution_authority_key b → a = b.
Proof.
  intros Ha Hb E. apply fmt_dec_inj; [done..|]. unfold execution_authority_key in E.
  apply (f_equal (strip_prefix "meta:composed-external-tools:")) in E. rewrite !strip_prefix_app in E. by injection E.
Qed.

Lemma well_composed_u64 d id : well_composed d → id ∈ authority_ids d → is_u64 id.
Proof.
  induction d as [|p IHp f IHf i]; simpl; [by intros _ ?%elem_of_nil|]. intros (Hi & _ & Hp & Hf) [->|Hin]%elem_of_cons; [done|].
  apply elem_of_app in Hin as [?|?]; auto.
Qed.

(** The half a name takes, and what a composition checks around a call to it. *)
Definition half (p f : Dispatcher) w (name : string) : Dispatcher := if primary_advertises p w name then p else f.

Lemma resolve_composed p f id call context rctx w plan' w' :
  resolve_execution_plan (Composed p f id) call context rctx w = (Ok plan', w') →
  let name := call_name call in
  ∃ plan before witness,
    resolve_execution_plan (half p f w name) call context rctx w = (Ok plan, w') ∧
    execution_binding_fingerprint (half p f w name) w name = Ok before ∧
    execution_binding_fingerprint (half p f w name) w' name = Ok before ∧
    route p w' name = route p w name ∧
    witness_new (execution_authority_key id) (route p w name) before = Ok witness ∧
    plan_with_witness plan witness = Ok plan'.
Proof.
  simpl. unfold mbind, m_bind, get, lift_result, throw_if, half, mret, m_ret. intros Hrun.
  destruct (primary_advertises p w (call_name call));
    repeat (case_match; simplify_eq/=);
    repeat match goal with E : _ || _ = false |- _ => apply orb_false_iff in E; destruct E as [?%negb_false_iff ?%negb_false_iff] end;
    repeat match goal with H : bool_decide _ = true |- _ => apply bool_decide_eq_true in H | H : fingerprint_is _ _ = true |- _ => apply fingerprint_is_true in H end;
    eauto 10.
Qed.

Lemma half_route p f w w' name : route p w' name = route p w name → half p f w' name = half p f w name.
Proof. unfold half. by intros ->%route_inj. Qed.

Lemma bound_half p f id plan w name :
  bound (Composed p f id) plan w name ↔
  ∃ witness, plan_witness plan (execution_authority_key id) = Some witness ∧
    witness_owner_key witness = route p w name ∧
    execution_binding_fingerprint (half p f w name) w name = Ok (witness_fingerprint witness) ∧
    bound (half p f w name) plan w name.
Proof. simpl. unfold half. by destruct (primary_advertises p w name). Qed.

Lemma resolved_is_bound d call context rctx w plan w' :
  well_composed d → resolve_execution_plan d call context rctx w = (Ok plan, w') →
  bound d plan w (call_name call) ∧ bound d plan w' (call_name call).
Proof.
  revert plan. induction d as [h|p IHp f IHf id]; intros plan' Hwf; [done|].
  intros (plan & before & witness & Hres & Hb & Hb' & Hroute & Hwit & Hplan)%resolve_composed.
  destruct Hwf as (Hid & Hnot & Hp & Hf). set (name := call_name call) in *.
  assert (bound (half p f w name) plan w name ∧ bound (half p f w name) plan w' name) as [H1 H2].
  { unfold half in *. destruct (primary_advertises p w name); [by apply IHp|by apply IHf]. }
  assert (∀ i, i ∈ authority_ids (half p f w name) →
    plan_witness plan' (execution_authority_key i) = plan_witness plan (execution_authority_key i)) as Hkeep.
  { intros i Hi. eapply plan_witness_other; [done..|]. intros ->%authority_key_inj; [|by unfold half in Hi; case_match; eauto using well_composed_u64|done].
    apply Hnot, elem_of_app. unfold half in Hi. case_match; auto. }
  rewrite !bound_half, (half_route _ _ _ _ _ Hroute), Hroute.
  rewrite <- (witness_new_owner _ _ _ _ Hwit), <- (witness_new_fingerprint _ _ _ _ Hwit) in *.
  split; exists witness; (split_and!; [by eapply plan_witness_new|done..|]); by eapply bound_other_key.
Qed.

(** C13: a call that a composition planned runs only in the dispatcher it was
    planned for, however deep the compositions are nested: right after planning it
    does run there; in any later world it either runs there, while that dispatcher's
    binding for the tool is the one at planning, or is refused as "execution owner
    changed" with nothing touched. *)
Theorem planned_call_runs_where_planned primary fallback id call context rctx w plan w' :
  let d := Composed primary fallback id in
  let name := call_name call in
  let owner := leaf_of d w name in
  well_composed d →
  resolve_execution_plan d call context rctx w = (Ok plan, w') →
  (∀ ctx, dispatch_resolved_with_context d call ctx plan w' = h_dispatch_resolved owner call ctx plan w') ∧
  ∀ ctx later,
    dispatch_resolved_with_context d call ctx plan later = (Err (tool_unavailable name ExecutionOwnerChanged), later) ∨
    (∃ binding, h_fingerprint owner w name = Ok binding ∧ h_fingerprint owner later name = Ok binding) ∧
    dispatch_resolved_with_context d call ctx plan later = h_dispatch_resolved owner call ctx plan later.
Proof.
  intros d name owner Hwf [H1 H2]%resolved_is_bound; [|done]. split.
  - intros ctx. rewrite bound_dispatch by done. subst owner name. by rewrite (proj1 (bound_agree d plan w w' _ H1 H2)).
  - intros ctx later. destruct (dispatch_needs_bound d call ctx plan later) as [->|Hb]; [by left|right].
    destruct (bound_agree d plan w later name H1 Hb) as [E Hf]. split; [exact Hf|]. rewrite bound_dispatch by done.
    subst owner name. by rewrite E.
Qed.

Lemma resolve_application_composed p f id source request invocation context w result w' :
  resolve_tool_application (Composed p f id) source request invocation context w = (Ok result, w') →
  ∃ inner, resolve_tool_application (half p f w source) source request invocation context w = (Ok inner, w') ∧
    route p w' source = route p w source ∧
    match resolution_call inner with
    | None => result = inner
    | Some (name, _) => route p w' name = route p w source ∧ ∃ b, result = set_resolution_binding inner b
    end.
Proof.
  simpl. unfold mbind, m_bind, get, lift_result, throw_if, half, mret, m_ret. intros Hrun.
  destruct (primary_advertises p w source);
    repeat (case_match; simplify_eq/=);
    repeat match goal with E : _ || _ = false |- _ => apply orb_false_iff in E; destruct E as [?%negb_false_iff ?%negb_false_iff] end;
    repeat match goal with E : negb _ = false |- _ => apply negb_false_iff in E | E : bool_decide _ = true |- _ => apply bool_decide_eq_true in E end;
    eexists; (split; [done|]); (split; [done|]);
    repeat match goal with E : resolution_call _ = _ |- _ => rewrite E end; eauto.
Qed.

(** A resolved application call stays with the dispatcher of its source tool. *)
Lemma resolved_application_stays d source request invocation context w result w' name binding :
  resolve_tool_application d source request invocation context w = (Ok result, w') →
  resolution_call result = Some (name, binding) →
  leaf_of d w' name = leaf_of d w source.
Proof.
  revert result binding. induction d as [h|p IHp f IHf id]; intros result binding; [done|].
  intros (inner & Hin & Hr & Hres)%resolve_application_composed Hcall.
  assert (∃ b, resolution_call inner = Some (name, b)) as [b Hb].
  { destruct (resolution_call inner) as [[n b]|] eqn:E; [|congruence].
    destruct Hres as (_ & b' & ->). rewrite resolution_call_set, E in Hcall. simplify_eq/=. eauto. }
  rewrite Hb in Hres. destruct Hres as [Hn _]. unfold half in Hin. simpl.
  assert (primary_advertises p w' name = primary_advertises p w source) as ->.
  { unfold route in Hn. by do 2 case_match. }
  destruct (primary_advertises p w source); [by eapply IHp|by eapply IHf].
Qed.
End plans.

(** ** Runs: handles are numbers, the world lists the tools each advertises. *)
Module ToolComposeExamples.

Definition World := list (nat * list string).
Definition advertised (h : nat) (w : World) : list string := (concat (snd <$> filter (λ p, p.1 = h) w)).
Definition Witness : Type := string * string * list Z.

#[local] Instance host : ToolHost := {|
  HostWorld := World; Handle := nat; ToolDef := string; tool_def_name := λ t, t;
  ToolCatalogEntry := string; entry_tool := λ e, e; ToolCallView := string; call_name := λ c, c;
  ToolDispatchContext := unit; ToolExecutionResolutionContext := unit; ToolDispatchOutcome := nat;
  ToolApplicationRequest := unit; ToolMutationClass := nat; LiveBridgeEffectKind := nat; ReviewEntrySupport := nat;
  ToolError := string * option ToolUnavailableReason;
  tool_unavailable := λ name r, (name, Some r); tool_access_denied := λ name, (name, None);
  ToolExecutionResolutionError := string * option ToolUnavailableReason;
  resolution_unavailable := λ name r, (name, Some r); tool_error_from := λ e, e;
  Fingerprint := list Z; with_live_authority := λ f a b, f ++ [a; b];
  OwnerWitness := Witness; witness_new := λ k o f, Ok (k, o, f);
  witness_owner_key := λ w, w.1.2; witness_fingerprint := snd;
  Plan := list Witness; plan_with_witness := λ p w, Ok (w :: p);
  plan_witness := λ p k, find_first (λ w : Witness, w.1.1 =b k) p;
  AppBinding := list Witness; binding_with_witness := λ p w, Ok (w :: p);
  Resolution := option (string * list Witness);
  resolution_call := λ r, r; set_resolution_binding := λ r b, (λ c : string * list Witness, (c.1, b)) <$> r;
  h_tools := advertised; h_catalog := advertised; h_exact_catalog := λ _ _, true;
  h_may_require_control_plane := λ _ _, false; h_ops_lifecycle := λ _ _, false;
  h_mutation_class := λ h _ _, h; h_live_bridge_effect := λ h _ _, h; h_review_entry := λ h _ _, h;
  h_binding_epoch := λ _ _ _, 0;
  h_fingerprint := λ h w name, if bool_decide (name ∈ advertised h w) then Ok [Z.of_nat h] else Err (name, None);
  h_resolve_plan := λ h _ _ _, mret []; h_validate_plan := λ _ _ _ _ _, Ok tt;
  h_dispatch_resolved := λ h _ _ _, mret h; h_dispatch := λ h _, mret h; h_dispatch_with_context := λ h _ _, mret h;
  h_resolve_application := λ h source _ _ _, mret (Some (source, []));
|}.

Lemma host_laws : PlanLaws.
Proof.
  split; simpl; intros; simplify_eq; try done.
  - unfold find_first. simpl. by rewrite bool_decide_true.
  - unfold find_first. simpl. by rewrite bool_decide_false.
Qed.

(** A recorder installed first, host tools composed over it, then a second layer. *)
Definition first_layer : Dispatcher := Composed (Leaf 2%nat) (Leaf 1%nat) 1.
Definition last_installed : Dispatcher := Leaf 3%nat.
Definition layered : Dispatcher := Composed last_installed first_layer 2.
Definition before : World := [(1%nat, ["memory"; "note"]); (2%nat, ["shell"]); (3%nat, ["http"])].
Definition shadowed : World := [(1%nat, ["memory"; "note"]); (2%nat, ["shell"; "memory"]); (3%nat, ["http"])].

Example layers :
  tools layered before = ["http"; "shell"; "memory"; "note"] ∧
  dispatch layered "memory" before = (Ok 1%nat, before) ∧
  dispatch layered "memory" shadowed = (Ok 2%nat, shadowed) ∧
  over (Leaf 2%nat) (Some (Leaf 1%nat)) shadowed 7 = (Composed (Leaf 2%nat) (Leaf 1%nat) 7, ["memory"], 8).
Proof. by vm_compute. Qed.

(** A plan made before the name was shadowed is refused afterwards, not run by the new owner. *)
Example shadowing_refuses_the_plan :
  match resolve_execution_plan layered "memory" tt tt before with
  | (Ok plan, w) =>
      dispatch_resolved_with_context layered "memory" tt plan w = (Ok 1%nat, before) ∧
      dispatch_resolved_with_context layered "memory" tt plan shadowed =
        (Err ("memory", Some ExecutionOwnerChanged), shadowed)
  | _ => False
  end.
Proof. by vm_compute. Qed.

Lemma planned_call_runs_where_planned_witness :
  ∃ plan, resolve_execution_plan layered "memory" tt tt before = (Ok plan, before) ∧
    dispatch_resolved_with_context layered "memory" tt plan before = (Ok 1%nat, before).
Proof.
  eexists. split; [vm_compute; reflexivity|].
  eapply (proj1 (planned_call_runs_where_planned (TH:=host) (laws:=host_laws) last_installed first_layer 2 "memory" tt tt before _ before _ eq_refl)).
  Unshelve. simpl. repeat split; try done; rewrite ?not_elem_of_cons; try split; try done; try (by intros ?%elem_of_nil).
Defined.
End ToolComposeExamples.
