(* ===== verification/WorkGraphAdmission.v ===== *)
(** * Admission of work-graph attention bindings ([workgraph_admission.rs])

    A binding points the attention of a session or of a mob member at a goal.  The
    binding rows and the service that writes them are Meerkat's: they are the
    operations of [WorkGraph].  Here are the admission authority (resolution of a
    session to its member with its cache, write-side normalisation of targets, the
    two occupancy checks), the surfaces that take it ([rpc/workgraph_methods.rs]
    and the agent tool plane of [workgraph_wiring.rs]) and the realm check
    ([workgraph_realm.rs]).  A guarded call has three parts, as in the code: it is
    prepared without the permit, then checked and carried out under it.

    The second half interleaves such calls of several processes with the calls no
    guard applies to: the RPC methods that take no permit ([service_run]) and the tool
    calls that are forwarded as they came ([step_forward]).  What the service promises
    of its rows is [WorkGraphLaws].  With the slot of every tool plane filled, no owner
    key is ever given two occupying bindings, whatever the rosters and session stores
    answer; and no member is, under any spelling, while no session changes hands
    ([settled]).  Rows that others write to the store, such as a command-line client,
    are outside the runs. *)

From S2P Require Import Prelude Strings Json.
Open Scope Z_scope.

(** ** What Meerkat defines *)

Inductive WorkOwnerKind := KSession | KAgent | KOther (name : string).
Record WorkOwnerKey := mkOwnerKey { ok_kind : WorkOwnerKind; ok_id : string }.
#[global] Instance owner_kind_eq_dec : EqDecision WorkOwnerKind.
Proof. solve_decision. Defined.
#[global] Instance owner_key_eq_dec : EqDecision WorkOwnerKey.
Proof. solve_decision. Defined.
(** A session id is its text. *)
Inductive GoalAttentionTarget := TSession (session_id : string) | TOwner (owner_key : WorkOwnerKey).
#[global] Instance goal_target_eq_dec : EqDecision GoalAttentionTarget.
Proof. solve_decision. Defined.
Inductive WorkAttentionStatus := AActive | APaused (until : option Z) | ASuperseded | AStopped.

Inductive WorkGraphError :=
| StaleRevision (detail : string)
| GraphConflict (detail : string)
| InvalidTransition (message : string)
| InvalidInput (message : string)
| AttentionTargetRealmMismatch (owner_key mob_id required_realm_id realm_id : string)
| StoreError (message : string)
| AttentionNotFound (detail : string)
| OtherGraphError (detail : string).

Inductive ToolError :=
| InvalidArguments (name message : string)
| ExecutionFailed (message : string) (data : option Value)
| ToolPanic.

Class WorkGraph := {
  (** the store of the realm and namespace the service is scoped to *)
  WG : Type;
  WorkAttentionTarget : Type;
  to_attention_target : GoalAttentionTarget → WorkAttentionTarget;
  target_owner_key : WorkAttentionTarget → Result WorkOwnerKey WorkGraphError;
  canonical : WorkOwnerKey → string;
  owner_key_session : string → Result WorkOwnerKey WorkGraphError;
  (** the mob id and the realm of [as_mob_agent] *)
  as_mob_agent : WorkOwnerKey → option (string * Result string WorkGraphError);
  session_id_parse : string → Result string string;
  lower_agent_identity_owner_key : string → string → Result WorkOwnerKey string;
  lower_agent_identity_attention_target : string → string → Result GoalAttentionTarget string;
  fmt_error : WorkGraphError → string;
  (** the wire forms *)
  namespace_from_value : Value → Result string string;
  target_from_value : Value → Result GoalAttentionTarget string;
  target_to_value : GoalAttentionTarget → Value;
  binding_id_new : string → Result string string;
  GoalCreateRequest : Type;
  goal_create_from_value : Value → Result GoalCreateRequest string;
  create_namespace : GoalCreateRequest → option string;
  create_target : GoalCreateRequest → GoalAttentionTarget;
  AttentionResumeRequest : Type;
  resume_from_value : Value → Result AttentionResumeRequest string;
  resume_namespace : AttentionResumeRequest → option string;
  resume_binding_id : AttentionResumeRequest → string;
  reassign_args_from_value : Value → Result (string * GoalAttentionTarget) string;
  (** the service *)
  default_namespace : string;
  default_realm_id : string;
  Projection : Type;
  projection_mode : Projection → string;
  rows : WG → list (string * WorkAttentionTarget * WorkAttentionStatus);
  list_attention : WG → string → WorkAttentionStatus →
    Result (list (string * WorkAttentionTarget * WorkAttentionStatus)) WorkGraphError;
  attention_binding : WG → option string → string →
    Result (string * WorkAttentionTarget * WorkAttentionStatus) WorkGraphError;
  attention_projection : WG → string → option string → Result Projection WorkGraphError;
  create_goal : GoalCreateRequest → M WG WorkGraphError Value;
  resume_attention : AttentionResumeRequest → M WG WorkGraphError Value;
  reassign_attention : string → option string → Z → Projection → GoalAttentionTarget → M WG WorkGraphError Value;
  break_glass_reassign_attention : string → option string → Z → GoalAttentionTarget → string → string →
    M WG WorkGraphError Value;
  (** the service's other mutations: items, links, evidence, pausing, closing, pruning *)
  ServiceCall : Type;
  service_run : ServiceCall → M WG WorkGraphError Value;
  (** the inner tool surface; a dispatch context may carry the attention projection *)
  inner_dispatch : string → option Projection → Value → M WG ToolError Value;
}.

(** What the runtime answers when a call asks it: the roster both ways, the session
    store ([mob_id] and [member] of a session's binding metadata) and the clock. *)
Record Env := mkEnv {
  roster_session : string → option string;
  roster_identity : string → option string;
  load_session : option (string → Result (option (string * string)) string);
  now : Z }.

Section admission.
Context `{G : WorkGraph}.

(** [WorkAttentionBinding]: id, target, status *)
Definition Binding : Type := string * WorkAttentionTarget * WorkAttentionStatus.
Definition binding_id (b : Binding) : string := b.1.1.
Definition b_target (b : Binding) : WorkAttentionTarget := b.1.2.
Definition b_status (b : Binding) : WorkAttentionStatus := b.2.

Inductive WorkGraphAdmissionError :=
| Occupied (detail : string)
| Service (error : WorkGraphError)
| Lock (detail : string).

(** ** The admission authority *)

Definition MEMBER_RESOLUTION_CACHE_MAX : nat := 4096.
Definition MEMBER_RESOLUTION_TTL : Z := 60 * 1000.
(** [member_resolution_cache]: the stamp and the identity of a session *)
Definition Cache : Type := gmap string (Z * string).

Context (mob_id : string).

Definition elapsed (stamped_at : Z) (env : Env) : Z := Z.max 0 (now env - stamped_at).
Definition cached (cache : Cache) (env : Env) (session_id : string) : option string :=
  '(stamped_at, identity) ← cache !! session_id;
  if elapsed stamped_at env <? MEMBER_RESOLUTION_TTL then Some identity else None.
Definition cache_insert (session_id identity : string) (env : Env) (cache : Cache) : Cache :=
  <[session_id := (now env, identity)]>
    (if (MEMBER_RESOLUTION_CACHE_MAX <=? size cache)%nat then ∅ else cache).

Definition resolve_member_identity (env : Env) (session_id : string) : M Cache WorkGraphError (option string) :=
  match roster_session env session_id with
  | Some identity => mret (Some identity)
  | None =>
      cache ← get;
      match cached cache env session_id with
      | Some identity => mret (Some identity)
      | None =>
          match load_session env with
          | None => mret None
          | Some load =>
              session ← lift_result (map_err (λ error, StoreError
                ("workgraph admission could not read session " +:+ session_id +:+
                 " from the session store while resolving its mob member: " +:+ error)) (load session_id));
              let resolved := snd <$> opt_filter (λ binding, binding.1 =b mob_id) session in
              match resolved with
              | Some identity => modify (cache_insert session_id identity env);; mret resolved
              | None => mret resolved
              end
          end
      end
  end.

Definition lower_member_session_target (env : Env) (target : GoalAttentionTarget)
    : M Cache WorkGraphAdmissionError GoalAttentionTarget :=
  let lower session_id :=
    identity ← with_err Service (resolve_member_identity env session_id);
    mret (match identity with
          | None => TSession session_id
          | Some identity =>
              match lower_agent_identity_attention_target mob_id identity with
              | Ok lowered => lowered
              | Err _ => TSession session_id
              end
          end) in
  match target with
  | TSession session_id => lower session_id
  | TOwner owner_key =>
      if ok_kind owner_key =b KSession then
        session_id ← lift_result (map_err (λ error, Service (InvalidInput
          ("attention target owner key '" +:+ canonical owner_key +:+
           "' has kind 'session' but its id does not parse as a session id: " +:+ error)))
          (session_id_parse (ok_id owner_key)));
        lower session_id
      else mret target
  end.

(** [s.split_once(sep)] for a separator of several characters *)
Fixpoint split_once_str (sep s : string) : option (string * string) :=
  match strip_prefix sep s with
  | Some rest => Some ("", rest)
  | None => match s with
            | "" => None
            | String a s' => (λ p, (String a p.1, p.2)) <$> split_once_str sep s'
            end
  end.
Definition mob_agent_owner_key_parts (owner_id : string) : option (string * string) :=
  rest ← strip_prefix "mob/" owner_id;
  '(mob, agent_identity) ← split_once_str "/agent/" rest;
  if str_is_empty mob || str_is_empty agent_identity || contains_byte "/" mob || contains_byte "/" agent_identity
  then None else Some (mob, agent_identity).

Definition attention_target_alias_keys (env : Env) (target : WorkAttentionTarget)
    : M Cache WorkGraphError (gset string) :=
  primary ← lift_result (target_owner_key target);
  let keys : gset string := {[canonical primary]} in
  match ok_kind primary with
  | KSession =>
      match session_id_parse (ok_id primary) with
      | Err _ => mret keys
      | Ok session_id =>
          identity ← resolve_member_identity env session_id;
          mret (match identity with
                | None => keys
                | Some identity =>
                    match lower_agent_identity_owner_key mob_id identity with
                    | Ok key => keys ∪ {[canonical key]}
                    | Err _ => keys
                    end
                end)
      end
  | KAgent =>
      mret (match mob_agent_owner_key_parts (ok_id primary) with
            | None => keys
            | Some (mob, identity) =>
                if negb (mob =b mob_id) then keys else
                match roster_identity env identity with
                | None => keys
                | Some session_id =>
                    match owner_key_session session_id with Ok key => keys ∪ {[canonical key]} | Err _ => keys end
                end
            end)
  | KOther _ => mret keys
  end.

Definition binding_occupies_target (status : WorkAttentionStatus) : bool :=
  match status with AActive | APaused _ => true | _ => false end.

Definition list_occupying_attention (wg : WG) (namespace : option string) : Result (list Binding) WorkGraphError :=
  let namespace := unwrap_or namespace default_namespace in
  active ←? list_attention wg namespace AActive;
  paused ←? list_attention wg namespace (APaused None);
  Ok (active ++ paused).

(** The test of the two [find]s *)
Definition occupies (aliases : gset string) (exclude : option string) (b : Binding) : bool :=
  negb (exclude =b Some (binding_id b)) && binding_occupies_target (b_status b) &&
  match target_owner_key (b_target b) with Ok key => bool_decide (canonical key ∈ aliases) | Err _ => false end.

Definition check_target_free (env : Env) (wg : WG) (namespace : option string) (target : WorkAttentionTarget)
    (exclude : option string) (action : string) : M Cache WorkGraphAdmissionError unit :=
  aliases ← with_err Service (attention_target_alias_keys env target);
  bindings ← lift_result (map_err Service (list_occupying_attention wg namespace));
  match find_first (occupies aliases exclude) bindings with
  | None => mret tt
  | Some existing =>
      target_key ← lift_result (map_err Service (target_owner_key target));
      throw (Occupied (match b_status existing with
        | APaused _ =>
            "target '" +:+ canonical target_key +:+ "' already has a paused attention binding " +:+
            binding_id existing +:+ " that will reactivate when its pause expires; resume it or close its goal instead of " +:+ action
        | _ =>
            "target '" +:+ canonical target_key +:+ "' already has an active attention binding " +:+
            binding_id existing +:+ "; reassign it or close its goal before " +:+ action
        end))
  end.

Definition check_resume_target_free (env : Env) (wg : WG) (namespace : option string) (id : string)
    : M Cache WorkGraphAdmissionError unit :=
  match attention_binding wg namespace id with
  | Err (AttentionNotFound _) => mret tt
  | Err error => throw (Service error)
  | Ok resumed =>
      aliases ← with_err Service (attention_target_alias_keys env (b_target resumed));
      siblings ← lift_result (map_err Service (list_occupying_attention wg namespace));
      match find_first (occupies aliases (Some id)) siblings with
      | None => mret tt
      | Some other =>
          let target_key := match target_owner_key (b_target resumed) with Ok k => canonical k | Err _ => "" end in
          throw (Occupied (match b_status other with
            | APaused _ =>
                "resuming attention binding " +:+ id +:+ " would give target '" +:+ target_key +:+
                "' a second occupying binding: " +:+ binding_id other +:+
                " is paused and will reactivate when its pause expires; close its goal first"
            | _ =>
                "resuming attention binding " +:+ id +:+ " would give target '" +:+ target_key +:+
                "' a second active binding (" +:+ binding_id other +:+
                " is already active); reassign it or close its goal first"
            end))
      end
  end.

(** ** The realm of a target ([workgraph_realm.rs]) *)

Inductive AttentionTargetRealm := Unscoped | ThisMob (mob : string) | OtherMob (mob required_realm_id : string).
Definition classify_owner_key (owner_key : WorkOwnerKey) (service_realm_id : string)
    : Result AttentionTargetRealm WorkGraphError :=
  match as_mob_agent owner_key with
  | None => Ok Unscoped
  | Some (mob, realm) =>
      required_realm_id ←? realm;
      Ok (if required_realm_id =b service_realm_id then ThisMob mob else OtherMob mob required_realm_id)
  end.
Definition classify_goal_target (target : GoalAttentionTarget) : Result AttentionTargetRealm WorkGraphError :=
  match target with
  | TSession _ => Ok Unscoped
  | TOwner owner_key => classify_owner_key owner_key default_realm_id
  end.
Definition refuse_foreign_mob_target (target : GoalAttentionTarget) : Result unit WorkGraphError :=
  realm ←? classify_goal_target target;
  match realm with
  | OtherMob mob required_realm_id =>
      Err (AttentionTargetRealmMismatch
        (match target with TOwner k => canonical k | TSession s => "session:" +:+ s end)
        mob required_realm_id default_realm_id)
  | _ => Ok tt
  end.

(** ** The RPC surface *)

Record JsonRpcError := mkRpcError { rpc_code : Z; rpc_message : string; rpc_data : option Value }.
Definition WORKGRAPH_UNAVAILABLE_CODE : Z := -32041.
Definition WORKGRAPH_CONFLICT_CODE : Z := -32042.
Definition WORKGRAPH_ERROR_CODE : Z := -32000.
Definition WORKGRAPH_READ_METHODS : list string :=
  ["meta/workgraph/snapshot"; "meta/workgraph/list"; "meta/workgraph/get"; "meta/workgraph/ready";
   "meta/workgraph/events"; "meta/workgraph/facts"; "meta/workgraph/attention/list"; "meta/workgraph/goal/status"].
Definition WORKGRAPH_MUTATE_METHODS : list string :=
  ["meta/workgraph/create"; "meta/workgraph/update"; "meta/workgraph/claim"; "meta/workgraph/release";
   "meta/workgraph/close"; "meta/workgraph/block"; "meta/workgraph/link"; "meta/workgraph/evidence/add";
   "meta/workgraph/policy/escalate"; "meta/workgraph/goal/create"; "meta/workgraph/goal/confirm";
   "meta/workgraph/goal/request_close"; "meta/workgraph/attention/pause"; "meta/workgraph/attention/resume";
   "meta/workgraph/attention/reassign"; "meta/workgraph/attention/prune"].
Definition WORKGRAPH_CONSOLE_MUTATE_METHODS : list string := ["meta/workgraph/attention/break_glass_reassign"].
Definition is_workgraph_method (method : string) : bool := starts_with "meta/workgraph/" method.
Definition is_workgraph_read_method (method : string) : bool := bool_decide (method ∈ WORKGRAPH_READ_METHODS).
Definition is_workgraph_mutating_method (method : string) : bool :=
  bool_decide (method ∈ WORKGRAPH_MUTATE_METHODS) || bool_decide (method ∈ WORKGRAPH_CONSOLE_MUTATE_METHODS).

Definition invalid_params (message : string) : JsonRpcError := mkRpcError (-32602) ("Invalid params: " +:+ message) None.
Definition method_not_found : JsonRpcError := mkRpcError (-32601) "Method not found" None.
Definition workgraph_unavailable_error : JsonRpcError :=
  mkRpcError WORKGRAPH_UNAVAILABLE_CODE "workgraph is not configured on this runtime"
    (Some (obj [("kind", str "workgraph_unavailable")])).
Definition STALE_ATTENTION_WITNESS_PREFIX : string := "stale WorkGraph attention projection".
Definition workgraph_conflict (detail : string) : JsonRpcError :=
  mkRpcError WORKGRAPH_CONFLICT_CODE ("workgraph conflict: " +:+ detail)
    (Some (obj [("kind", str "workgraph_conflict"); ("detail", str detail)])).
Definition workgraph_failure (detail : string) : JsonRpcError :=
  mkRpcError WORKGRAPH_ERROR_CODE detail (Some (obj [("kind", str "workgraph_error"); ("detail", str detail)])).

Definition workgraph_error_to_rpc (error : WorkGraphError) : JsonRpcError :=
  let detail := fmt_error error in
  match error with
  | StaleRevision _ | GraphConflict _ => workgraph_conflict detail
  | InvalidTransition message =>
      if starts_with STALE_ATTENTION_WITNESS_PREFIX message then workgraph_conflict detail else workgraph_failure detail
  | InvalidInput _ => invalid_params detail
  | AttentionTargetRealmMismatch owner_key mob required_realm_id realm_id =>
      mkRpcError (-32602) ("Invalid params: " +:+ detail)
        (Some (obj [("kind", str "attention_target_realm_mismatch"); ("owner_key", str owner_key);
                    ("mob_id", str mob); ("required_realm_id", str required_realm_id); ("realm_id", str realm_id)]))
  | _ => workgraph_failure detail
  end.
Definition admission_error_to_rpc (error : WorkGraphAdmissionError) : JsonRpcError :=
  match error with
  | Occupied detail => workgraph_conflict detail
  | Service error => workgraph_error_to_rpc error
  | Lock detail => workgraph_failure ("workgraph admission lock failed: " +:+ detail)
  end.
Definition reassign_error_to_rpc (error : WorkGraphError) (id mode : string) : JsonRpcError :=
  match error with
  | InvalidInput message =>
      if str_contains "requires derived_from link authority" message then
        let detail := "attention binding " +:+ id +:+ " is in '" +:+ mode +:+
          "' mode; meerkat 0.8.22 derives the derived_from link authority reassignment requires only for coordinate-mode bindings — pause the binding or recreate the goal with mode 'coordinate'" in
        mkRpcError WORKGRAPH_ERROR_CODE ("workgraph attention reassignment denied: " +:+ detail)
          (Some (obj [("kind", str "workgraph_error"); ("detail", str detail)]))
      else workgraph_error_to_rpc error
  | _ => workgraph_error_to_rpc error
  end.

Definition Members : Type := list (string * Value).
(** [Map::insert], [Map::remove] and [contains_key] on a key-ordered map *)
Fixpoint members_insert (k : string) (v : Value) (m : Members) : Members :=
  match m with
  | [] => [(k, v)]
  | (k', v') :: m' =>
      if k =b k' then (k, v) :: m'
      else if bool_decide (String.le k k') then (k, v) :: m
      else (k', v') :: members_insert k v m'
  end.
Definition members_remove (k : string) (m : Members) : Members := filter (λ p, p.1 ≠ k) m.
Definition contains_key (k : string) (m : Members) : bool := is_some (member k m).

Definition params_object (params : Value) : Result Members JsonRpcError :=
  match params with
  | VNull => Ok []
  | VObject m => Ok m
  | _ => Err (invalid_params "params must be a JSON object")
  end.
Definition parse_binding_id (object : Members) : Result string JsonRpcError :=
  raw ←? ok_or (trimmed_non_empty (v ← member "binding_id" object; as_str v))
    (invalid_params "binding_id must be a non-empty string");
  map_err invalid_params (binding_id_new raw).
Definition parse_expected_revision (object : Members) : Result Z JsonRpcError :=
  ok_or (v ← member "expected_revision" object; as_u64 v)
    (invalid_params "expected_revision must be a non-negative integer").
Definition parse_namespace (object : Members) : Result (option string) JsonRpcError :=
  match member "namespace" object with
  | None | Some VNull => Ok None
  | Some value =>
      match namespace_from_value value with
      | Ok ns => Ok (Some ns)
      | Err error => Err (invalid_params ("namespace is invalid: " +:+ error))
      end
  end.
Definition reject_non_default_namespace (object : Members) : Result unit JsonRpcError :=
  namespace ←? parse_namespace object;
  match namespace with
  | None => Ok tt
  | Some namespace =>
      if namespace =b default_namespace then Ok tt
      else Err (invalid_params ("namespace '" +:+ namespace +:+
        "' is not accepted on goal/attention methods: turn attention overlays resolve only in the default namespace '" +:+
        default_namespace +:+ "', so a goal filed elsewhere would never reach its member"))
  end.
Definition resolve_goal_target (value : Value) : Result GoalAttentionTarget JsonRpcError :=
  object ←? ok_or (as_object value) (invalid_params "target must be a JSON object");
  let kind := unwrap_or (v ← member "kind" object; as_str v) "" in
  let from v := map_err (λ error, invalid_params ("target is invalid: " +:+ error)) (target_from_value v) in
  if kind =b "identity" then
    identity ←? ok_or (trimmed_non_empty (v ← member "identity" object; as_str v))
      (invalid_params "target.identity must be a non-empty string");
    map_err invalid_params (lower_agent_identity_attention_target mob_id identity)
  else if (kind =b "session") || (kind =b "owner") then from value
  else if kind =b "lowered_owner" then from (VObject (members_insert "kind" (VString "owner") object))
  else Err (invalid_params ("target.kind '" +:+ kind +:+
    "' is unsupported (allowed: session, owner, lowered_owner, identity)")).

Inductive WorkgraphSurface := HostStdin | Console (authenticated_principal : option string).

(** A guarded call once it is prepared: what is done with the permit held. *)
Inductive GuardedCall :=
| CreateGoal (request : GoalCreateRequest)
| Resume (request : AttentionResumeRequest)
| Reassign (binding_id : string) (expected_revision : Z) (namespace : option string) (target : GoalAttentionTarget)
| BreakGlass (binding_id : string) (expected_revision : Z) (namespace : option string)
    (target : GoalAttentionTarget) (principal reason : string)
| ToolReassign (binding_id : string) (target given : GoalAttentionTarget) (pinned : Value) (context : option Projection).

(** [resolve_goal_target], [lower_member_session_target] and [refuse_foreign_mob_target] *)
Definition prepare_target (env : Env) (target_value : Value) : M Cache JsonRpcError GoalAttentionTarget :=
  target ← lift_result (resolve_goal_target target_value);
  target ← with_err admission_error_to_rpc (lower_member_session_target env target);
  lift_result (map_err workgraph_error_to_rpc (refuse_foreign_mob_target target));;
  mret target.

Definition prepare_goal_create (env : Env) (object : Members) : M Cache JsonRpcError GuardedCall :=
  lift_result (reject_non_default_namespace object);;
  target_value ← lift_result (ok_or (member "target" object) (invalid_params "target is required"));
  target ← prepare_target env target_value;
  let object := members_insert "target" (target_to_value target) (members_remove "target" object) in
  request ← lift_result (map_err invalid_params (goal_create_from_value (VObject object)));
  mret (CreateGoal request).
Definition prepare_resume (object : Members) : M Cache JsonRpcError GuardedCall :=
  lift_result (reject_non_default_namespace object);;
  request ← lift_result (map_err invalid_params (resume_from_value (VObject object)));
  mret (Resume request).
Definition prepare_reassign (env : Env) (object : Members) : M Cache JsonRpcError GuardedCall :=
  lift_result (reject_non_default_namespace object);;
  throw_if (contains_key "authority_projection" object)
    (invalid_params "authority_projection is not accepted; the authority witness is fetched server-side from binding_id");;
  id ← lift_result (parse_binding_id object);
  expected_revision ← lift_result (parse_expected_revision object);
  namespace ← lift_result (parse_namespace object);
  target_value ← lift_result (ok_or (member "target" object) (invalid_params "target is required"));
  target ← prepare_target env target_value;
  mret (Reassign id expected_revision namespace target).
Definition prepare_break_glass (env : Env) (surface : WorkgraphSurface) (object : Members)
    : M Cache JsonRpcError GuardedCall :=
  lift_result (reject_non_default_namespace object);;
  match surface with
  | HostStdin => throw method_not_found
  | Console authenticated_principal =>
      principal ← lift_result (ok_or (trimmed_non_empty authenticated_principal)
        (mkRpcError (-32030) "break-glass reassignment requires an authenticated console principal for audit attribution"
          (Some (obj [("kind", str "access_denied")]))));
      throw_if (contains_key "principal" object)
        (invalid_params "principal is not accepted; the authenticated console principal is recorded");;
      throw_if (contains_key "authority_projection" object)
        (invalid_params "authority_projection is not accepted; break-glass bypasses the witness by design and is audited instead");;
      id ← lift_result (parse_binding_id object);
      expected_revision ← lift_result (parse_expected_revision object);
      namespace ← lift_result (parse_namespace object);
      reason ← lift_result (ok_or (trimmed_non_empty (v ← member "reason" object; as_str v))
        (invalid_params "reason is required and must be non-empty"));
      target_value ← lift_result (ok_or (member "target" object) (invalid_params "target is required"));
      target ← prepare_target env target_value;
      mret (BreakGlass id expected_revision namespace target principal reason)
  end.

(** [handle_workgraph_method] up to the permit, for the methods that take one.
    [configured] tells whether the runtime has a work-graph service. *)
Definition prepare_method (env : Env) (configured : bool) (surface : WorkgraphSurface) (method : string) (params : Value)
    : M Cache JsonRpcError GuardedCall :=
  throw_if (negb (is_workgraph_read_method method) && negb (is_workgraph_mutating_method method)) method_not_found;;
  throw_if (bool_decide (method ∈ WORKGRAPH_CONSOLE_MUTATE_METHODS) &&
            match surface with HostStdin => true | _ => false end) method_not_found;;
  throw_if (negb configured) workgraph_unavailable_error;;
  object ← lift_result (params_object params);
  throw_if (contains_key "realm_id" object)
    (invalid_params "realm_id is not accepted; workgraph is scoped to this runtime's realm");;
  if method =b "meta/workgraph/goal/create" then prepare_goal_create env object
  else if method =b "meta/workgraph/attention/resume" then prepare_resume object
  else if method =b "meta/workgraph/attention/reassign" then prepare_reassign env object
  else if method =b "meta/workgraph/attention/break_glass_reassign" then prepare_break_glass env surface object
  else throw method_not_found.

(** ** The agent tool plane *)

(** [pin_args]: [None] is a call of another tool.  [args] is what its text parses to. *)
Definition pin_args (name : string) (args : Result Value string) : Result (option Value) ToolError :=
  if negb (starts_with "workgraph_" name) then Ok None else
  args ←? map_err (λ error, InvalidArguments name ("invalid workgraph tool-call arguments JSON: " +:+ error)) args;
  Ok (Some (match args with
    | VObject m =>
        VObject (members_remove "all_namespaces"
          (members_insert "namespace" (VString default_namespace)
            (members_insert "realm_id" (VString default_realm_id) m)))
    | _ => args
    end)).

Definition admission_tool_error (name : string) (error : WorkGraphAdmissionError) : ToolError :=
  match error with
  | Occupied detail =>
      ExecutionFailed ("workgraph conflict: " +:+ detail)
        (Some (obj [("kind", str "workgraph_conflict"); ("detail", str detail)]))
  | Service error => ExecutionFailed (name +:+ " admission check failed: " +:+ fmt_error error) None
  | Lock detail => ExecutionFailed (name +:+ " admission lock failed: " +:+ detail) None
  end.

(** [admit] up to the permit: [None] forwards the pinned arguments unguarded.
    [filled] tells whether the slot holds the runtime's admission; [witnessed] is that
    the dispatch context carries the projection. *)
Definition prepare_tool (env : Env) (filled : bool) (name : string) (pinned : Value) (context : option Projection)
    : M Cache ToolError (option GuardedCall) :=
  let witnessed := is_some context in
  if negb (name =b "workgraph_attention_reassign") || negb witnessed || negb filled then mret None else
  args ← lift_result (map_err (λ error, InvalidArguments name
    ("invalid workgraph_attention_reassign arguments: " +:+ error)) (reassign_args_from_value pinned));
  target ← with_err (admission_tool_error name) (lower_member_session_target env args.2);
  mret (Some (ToolReassign args.1 target args.2 pinned context)).

(** [value["target"] = target]: a value that is neither an object nor null has no such place. *)
Definition forwarded_args (target given : GoalAttentionTarget) (pinned : Value) : Result Value ToolError :=
  if target =b given then Ok pinned
  else match pinned with
    | VObject m => Ok (VObject (members_insert "target" (target_to_value target) m))
    | VNull => Ok (VObject [("target", target_to_value target)])
    | _ => Err ToolPanic
    end.

(** ** Under the permit *)

Definition call_check (env : Env) (wg : WG) (call : GuardedCall) : M Cache WorkGraphAdmissionError unit :=
  match call with
  | CreateGoal request =>
      check_target_free env wg (create_namespace request) (to_attention_target (create_target request)) None
        "creating another goal for the same target"
  | Resume request => check_resume_target_free env wg (resume_namespace request) (resume_binding_id request)
  | Reassign id _ namespace target =>
      check_target_free env wg namespace (to_attention_target target) (Some id)
        "reassigning this binding onto the same target"
  | BreakGlass id _ namespace target _ _ =>
      check_target_free env wg namespace (to_attention_target target) (Some id)
        "break-glass reassigning this binding onto the same target"
  | ToolReassign id target _ _ _ =>
      check_target_free env wg None (to_attention_target target) (Some id)
        "reassigning this binding onto the same target"
  end.

(** What a guarded call answers: to the RPC surfaces, or to the tool plane. *)
Inductive CallError := RpcFailed (error : JsonRpcError) | ToolFailed (error : ToolError).
Definition call_check_error (call : GuardedCall) (error : WorkGraphAdmissionError) : CallError :=
  match call with
  | ToolReassign _ _ _ _ _ => ToolFailed (admission_tool_error "workgraph_attention_reassign" error)
  | _ => RpcFailed (admission_error_to_rpc error)
  end.

Definition call_mutate (call : GuardedCall) : M WG CallError Value :=
  let rpc := λ error, RpcFailed (workgraph_error_to_rpc error) in
  match call with
  | CreateGoal request => with_err rpc (create_goal request)
  | Resume request => with_err rpc (resume_attention request)
  | Reassign id expected_revision namespace target =>
      wg ← get;
      projection ← lift_result (map_err rpc (attention_projection wg id namespace));
      with_err (λ error, RpcFailed (reassign_error_to_rpc error id (projection_mode projection)))
        (reassign_attention id namespace expected_revision projection target)
  | BreakGlass id expected_revision namespace target principal reason =>
      with_err rpc (break_glass_reassign_attention id namespace expected_revision target principal reason)
  | ToolReassign id target given pinned context =>
      forwarded ← lift_result (map_err ToolFailed (forwarded_args target given pinned));
      with_err ToolFailed (inner_dispatch "workgraph_attention_reassign" context forwarded)
  end.

(** A guarded RPC call that runs without interference: prepared, checked, carried out.
    [permit] is what [acquire] answers. *)
Definition handle_guarded (env env' : Env) (permit : Result unit WorkGraphAdmissionError) (configured : bool)
    (surface : WorkgraphSurface) (method : string) (params : Value) : M (Cache * WG) CallError Value :=
  λ '(cache, wg),
    match prepare_method env configured surface method params cache with
    | (Err error, cache) => (Err (RpcFailed error), (cache, wg))
    | (Ok call, cache) =>
        match permit with
        | Err error => (Err (call_check_error call error), (cache, wg))
        | Ok _ =>
            match call_check env' wg call cache with
            | (Err error, cache) => (Err (call_check_error call error), (cache, wg))
            | (Ok _, cache) => let '(r, wg) := call_mutate call wg in (r, (cache, wg))
            end
        end
    end.
End admission.

(** ** What the service promises *)

Section promises.
Context `{G : WorkGraph}.
Implicit Types w : WG.

Definition occupying (b : Binding) : Prop := binding_occupies_target (b_status b) = true.
Definition target_key (t : WorkAttentionTarget) : option string :=
  match target_owner_key t with Ok k => Some (canonical k) | Err _ => None end.

(** A row of an earlier store, at most as occupying as it was. *)
Definition kept w (b' : Binding) : Prop :=
  ∃ b, b ∈ rows w ∧ binding_id b = binding_id b' ∧ b_target b = b_target b' ∧ (occupying b' → occupying b).
Definition no_growth w w' : Prop := ∀ b', b' ∈ rows w' → kept w b'.
(** At most one new row, on the target; a superseded binding no longer occupies. *)
Definition moved w w' (superseded : option string) (t : WorkAttentionTarget) : Prop :=
  no_growth w w' ∨
  ∃ fresh, (∀ b, b ∈ rows w → binding_id b ≠ fresh) ∧
    ∀ b', b' ∈ rows w' →
      (kept w b' ∧ (occupying b' → superseded ≠ Some (binding_id b'))) ∨ (binding_id b' = fresh ∧ b_target b' = t).
Definition reactivated w w' (id : string) : Prop :=
  ∀ b', b' ∈ rows w' → ∃ b, b ∈ rows w ∧ binding_id b = binding_id b' ∧ b_target b = b_target b' ∧
    (occupying b' → occupying b ∨ binding_id b' = id).
End promises.

Class WorkGraphLaws `{G : WorkGraph} : Prop := {
  (** owner keys *)
  owner_key_of_owner k : target_owner_key (to_attention_target (TOwner k)) = Ok k;
  owner_key_of_session s : target_owner_key (to_attention_target (TSession s)) = owner_key_session s;
  owner_key_session_is s k : owner_key_session s = Ok k → ok_kind k = KSession ∧ session_id_parse (ok_id k) = Ok s;
  lowered_target_is_owner mob i t : lower_agent_identity_attention_target mob i = Ok t →
    ∃ k, t = TOwner k ∧ ok_kind k = KAgent;
  lowering_agrees mob i e k : lower_agent_identity_attention_target mob i = Err e →
    lower_agent_identity_owner_key mob i ≠ Ok k;
  (** the wire *)
  create_wire object t request :
    goal_create_from_value (VObject object) = Ok request → member "target" object = Some (target_to_value t) →
    create_target request = t;
  create_namespace_wire object request :
    goal_create_from_value (VObject object) = Ok request → parse_namespace object = Ok (create_namespace request);
  resume_namespace_wire object request :
    resume_from_value (VObject object) = Ok request → parse_namespace object = Ok (resume_namespace request);
  reassign_args_wire m id given target :
    reassign_args_from_value (VObject m) = Ok (id, given) →
    reassign_args_from_value (VObject (members_insert "target" (target_to_value target) m)) = Ok (id, target);
  reassign_args_null r : reassign_args_from_value VNull ≠ Ok r;
  (** reads *)
  rows_unique w b b' : b ∈ rows w → b' ∈ rows w → binding_id b = binding_id b' → b = b';
  scans_find_occupants w active paused b :
    list_attention w default_namespace AActive = Ok active →
    list_attention w default_namespace (APaused None) = Ok paused →
    b ∈ rows w → occupying b → b ∈ active ++ paused;
  binding_found w ns id b :
    unwrap_or ns default_namespace = default_namespace → attention_binding w ns id = Ok b →
    b ∈ rows w ∧ binding_id b = id;
  binding_missing w ns id d b :
    unwrap_or ns default_namespace = default_namespace → attention_binding w ns id = Err (AttentionNotFound d) →
    b ∈ rows w → binding_id b ≠ id;
  (** writes *)
  create_goal_rows request w : moved w (create_goal request w).2 None (to_attention_target (create_target request));
  resume_rows request w : reactivated w (resume_attention request w).2 (resume_binding_id request);
  reassign_rows id ns revision projection t w :
    moved w (reassign_attention id ns revision projection t w).2 (Some id) (to_attention_target t);
  break_glass_rows id ns revision t principal reason w :
    moved w (break_glass_reassign_attention id ns revision t principal reason w).2 (Some id) (to_attention_target t);
  tool_reassign_rows context args id t w :
    reassign_args_from_value args = Ok (id, t) →
    moved w (inner_dispatch "workgraph_attention_reassign" context args w).2 (Some id) (to_attention_target t);
  (** a reassign without the projection is denied before any store access *)
  witnessless_denied args w : (inner_dispatch "workgraph_attention_reassign" None args w).2 = w;
  (** no other tool and no other call of the service creates or revives a binding *)
  tool_other_rows name context args w :
    name ≠ "workgraph_attention_reassign" → no_growth w (inner_dispatch name context args w).2;
  service_rows call w : no_growth w (service_run call w).2;
}.

(** ** One occupying binding per member *)

Section exclusion.
Context `{G : WorkGraph} {laws : WorkGraphLaws} (mob_id : string).
(** What the runtime may answer during a run, and the member whose session a session is. *)
Context (seen : Env → Prop) (member_of : string → option string).
Implicit Types w : WG.

(** The answers agree with the mapping: the roster never contradicts it, and the
    session store, when it can be read, tells it. *)
Definition agrees (env : Env) : Prop :=
  (∀ s i, roster_session env s = Some i → member_of s = Some i) ∧
  ∃ load, load_session env = Some load ∧
    ∀ s b, load s = Ok b → snd <$> opt_filter (λ binding, binding.1 =b mob_id) b = member_of s.
(** The mapping stays as it is for the whole run: no session is adopted. *)
Definition settled : Prop := ∀ env, seen env → agrees env.
Definition cache_ok (cache : Cache) : Prop :=
  settled → ∀ s stamp i, cache !! s = Some (stamp, i) → member_of s = Some i.

(** The member a target addresses, under any of its spellings. *)
Definition addresses (t : WorkAttentionTarget) : option string :=
  match target_owner_key t with
  | Err _ => None
  | Ok k =>
      let member :=
        if ok_kind k =b KSession then
          match session_id_parse (ok_id k) with
          | Ok s => i ← member_of s;
                    match lower_agent_identity_owner_key mob_id i with Ok k' => Some (canonical k') | Err _ => None end
          | Err _ => None
          end
        else None in
      Some (unwrap_or member (canonical k))
  end.
(** A target in the form it is stored in while the mapping stays: a session only when
    it is no member's. *)
Definition normal (t : WorkAttentionTarget) : Prop := settled → addresses t = target_key t.

Lemma cached_ok cache env s i : settled → cache_ok cache → cached cache env s = Some i → member_of s = Some i.
Proof.
  intros Hs Hok. unfold cached. destruct (cache !! s) as [[st j]|] eqn:E; simpl; [|done].
  case_match; [intros [= <-]|done]. by eapply Hok.
Qed.
Lemma cache_insert_ok s i env cache :
  (settled → member_of s = Some i) → cache_ok cache → cache_ok (cache_insert s i env cache).
Proof.
  intros Hs Hok Hset s' st j. unfold cache_insert. intros [[<- [= _ <-]]|[_ H]]%lookup_insert_Some; [auto|].
  destruct (_ <=? _)%nat; [by apply lookup_empty_Some in H|by eapply Hok].
Qed.

(** A resolution is the member, or a refusal, while the mapping stays. *)
Lemma resolve_spec env s cache :
  seen env → cache_ok cache →
  wp (resolve_member_identity mob_id env s)
    (λ r cache', cache_ok cache' ∧ ∀ o, r = Ok o → settled → o = member_of s) cache.
Proof.
  intros Henv Hok. assert (settled → agrees env) as Hag by (intros Hs; by apply Hs). unfold agrees in Hag.
  unfold resolve_member_identity.
  destruct (roster_session env s) as [i|] eqn:Er; [apply wp_ret; naive_solver|].
  apply wp_bind. unfold wp at 1, get. simpl.
  destruct (cached cache env s) as [i|] eqn:Ec.
  { apply wp_ret. split; [done|]. intros o [= <-] Hs. symmetry. by eapply cached_ok. }
  destruct (load_session env) as [load|] eqn:Eload; [|apply wp_ret; naive_solver].
  apply wp_bind, wp_lift_result. destruct (load s) as [b|e] eqn:El; simpl; [|naive_solver].
  assert (settled → snd <$> opt_filter (λ binding, binding.1 =b mob_id) b = member_of s) as Hb by naive_solver.
  destruct (opt_filter _ b) as [[m i]|]; simpl in *; [|apply wp_ret; naive_solver].
  apply wp_bind, wp_modify, wp_ret. split; [apply cache_insert_ok; naive_solver|naive_solver].
Qed.

Lemma addresses_owner k :
  ok_kind k ≠ KSession → addresses (to_attention_target (TOwner k)) = target_key (to_attention_target (TOwner k)).
Proof. intros Hk. unfold addresses, target_key. rewrite owner_key_of_owner. by rewrite bool_decide_false. Qed.
Lemma addresses_session s :
  (∀ i k, member_of s = Some i → lower_agent_identity_owner_key mob_id i ≠ Ok k) →
  addresses (to_attention_target (TSession s)) = target_key (to_attention_target (TSession s)).
Proof.
  intros Hs. unfold addresses, target_key. rewrite owner_key_of_session.
  destruct (owner_key_session s) as [k|e] eqn:E; [|done]. apply owner_key_session_is in E as [-> ->]. simpl.
  destruct (member_of s) as [i|]; simpl; [|done]. by destruct (lower_agent_identity_owner_key mob_id i) as [k'|] eqn:E; [apply Hs in E|].
Qed.

(** What is written is in normal form. *)
Lemma lower_target_spec env target cache :
  seen env → cache_ok cache →
  wp (lower_member_session_target mob_id env target)
    (λ r cache', cache_ok cache' ∧ ∀ t, r = Ok t → normal (to_attention_target t)) cache.
Proof.
  intros Henv Hok.
  assert (∀ s, wp (identity ← with_err Service (resolve_member_identity mob_id env s);
    mret (match identity with
          | None => TSession s
          | Some identity => match lower_agent_identity_attention_target mob_id identity with Ok l => l | Err _ => TSession s end
          end)) (λ (r : Result GoalAttentionTarget WorkGraphAdmissionError) cache',
            cache_ok cache' ∧ ∀ t, r = Ok t → normal (to_attention_target t)) cache) as Hlower.
  { intros s. apply wp_bind, wp_with_err. eapply wp_mono; [by apply resolve_spec|]. intros r cache' [Hc Hr].
    destruct r as [o|e]; simpl; [|done]. apply wp_ret. split; [done|]. intros t [= <-] Hset. specialize (Hr o eq_refl Hset). subst o.
    destruct (member_of s) as [i|] eqn:Es; [|apply addresses_session; congruence].
    destruct (lower_agent_identity_attention_target mob_id i) as [l|e] eqn:El.
    - apply lowered_target_is_owner in El as (k & -> & Hk). apply addresses_owner. by rewrite Hk.
    - apply addresses_session. intros i' k. rewrite Es. intros [= <-]. by eapply lowering_agrees. }
  unfold lower_member_session_target. destruct target as [s|k]; [apply Hlower|]. case_bool_decide as Hk.
  - apply wp_bind, wp_lift_result. destruct (session_id_parse (ok_id k)) as [s|e]; simpl; [apply Hlower|done].
  - apply wp_ret. split; [done|]. intros t [= <-] _. by apply addresses_owner.
Qed.

Lemma alias_keys_spec env t cache :
  seen env → cache_ok cache →
  wp (attention_target_alias_keys mob_id env t)
    (λ r cache', cache_ok cache' ∧ ∀ keys, r = Ok keys → ∃ k, target_key t = Some k ∧ k ∈ keys) cache.
Proof.
  intros Henv Hok. unfold attention_target_alias_keys, target_key. apply wp_bind, wp_lift_result.
  destruct (target_owner_key t) as [k|e]; [|done].
  assert (∀ keys : gset string, canonical k ∈ keys → ∃ k0, Some (canonical k) = Some k0 ∧ k0 ∈ keys) as Hin by eauto.
  destruct (ok_kind k).
  - destruct (session_id_parse (ok_id k)) as [s|]; [|apply wp_ret; split; [done|intros ? [= <-]; apply Hin; set_solver]].
    apply wp_bind. eapply wp_mono; [by apply resolve_spec|]. intros [o|e] cache' [Hc _]; [|done]. apply wp_ret.
    split; [done|]. intros keys [= <-]. apply Hin. repeat case_match; set_solver.
  - apply wp_ret. split; [done|]. intros keys [= <-]. apply Hin. repeat case_match; set_solver.
  - apply wp_ret. split; [done|]. intros keys [= <-]. apply Hin. set_solver.
Qed.

Lemma no_occupant w ns keys exclude bs k b :
  unwrap_or ns default_namespace = default_namespace → list_occupying_attention w ns = Ok bs →
  find_first (occupies keys exclude) bs = None →
  b ∈ rows w → occupying b → target_key (b_target b) = Some k → k ∈ keys → exclude = Some (binding_id b).
Proof.
  unfold list_occupying_attention. intros -> (active & Ha & (paused & Hp & [= <-])%and_then_Ok)%and_then_Ok Hnone Hb Hocc Hk Hin.
  pose proof (scans_find_occupants _ _ _ _ Ha Hp Hb Hocc) as Hb'%list_elem_of_In.
  pose proof (List.find_none _ _ Hnone _ Hb') as Hno. unfold occupies in Hno. rewrite Hocc in Hno.
  unfold target_key in Hk. destruct (target_owner_key (b_target b)) as [k'|]; [injection Hk as <-|done].
  rewrite (bool_decide_true (canonical k' ∈ keys)), !andb_true_r in Hno by done.
  apply negb_false_iff in Hno. by apply bool_decide_eq_true in Hno.
Qed.

(** What a passed check knows of the store. *)
Definition free_for w (exclude : option string) (t : WorkAttentionTarget) : Prop :=
  ∀ b k, b ∈ rows w → occupying b → target_key (b_target b) = Some k → target_key t = Some k →
    exclude = Some (binding_id b).

Lemma check_target_free_spec env w ns t exclude action cache :
  seen env → cache_ok cache → unwrap_or ns default_namespace = default_namespace →
  wp (check_target_free mob_id env w ns t exclude action)
    (λ r cache', cache_ok cache' ∧ (r = Ok tt → free_for w exclude t)) cache.
Proof.
  intros Henv Hok Hns. unfold check_target_free. apply wp_bind, wp_with_err.
  eapply wp_mono; [by apply alias_keys_spec|]. intros [keys|e] cache' [Hc Hkeys]; [simpl|done].
  destruct (Hkeys keys eq_refl) as (k & Hk & Hin).
  apply wp_bind, wp_lift_result. destruct (list_occupying_attention w ns) as [bs|e] eqn:El; simpl; [|done].
  destruct (find_first _ bs) as [b|] eqn:Ef.
  - apply wp_bind, wp_lift_result. destruct (target_owner_key t); simpl; [apply wp_throw|]; done.
  - apply wp_ret. split; [done|]. intros _ b k' Hb Hocc Hbk Htk. rewrite Hk in Htk. injection Htk as <-.
    by eapply no_occupant.
Qed.

Definition call_free w (call : GuardedCall) : Prop :=
  match call with
  | CreateGoal request => free_for w None (to_attention_target (create_target request))
  | Resume request => ∀ b, b ∈ rows w → binding_id b = resume_binding_id request → free_for w (Some (binding_id b)) (b_target b)
  | Reassign id _ _ target | BreakGlass id _ _ target _ _ | ToolReassign id target _ _ _ =>
      free_for w (Some id) (to_attention_target target)
  end.
(** What a prepared call is about: the default namespace and a target in normal form. *)
Definition call_ok (call : GuardedCall) : Prop :=
  match call with
  | CreateGoal request =>
      unwrap_or (create_namespace request) default_namespace = default_namespace ∧
      normal (to_attention_target (create_target request))
  | Resume request => unwrap_or (resume_namespace request) default_namespace = default_namespace
  | Reassign _ _ ns target | BreakGlass _ _ ns target _ _ =>
      unwrap_or ns default_namespace = default_namespace ∧ normal (to_attention_target target)
  | ToolReassign id target given pinned _ =>
      reassign_args_from_value pinned = Ok (id, given) ∧ normal (to_attention_target target)
  end.

Lemma call_check_spec env w call cache :
  seen env → cache_ok cache → call_ok call →
  wp (call_check mob_id env w call) (λ r cache', cache_ok cache' ∧ (r = Ok tt → call_free w call)) cache.
Proof.
  intros Henv Hok Hcall.
  destruct call as [request|request|id rev ns t|id rev ns t pr re|id t given pinned context]; simpl in *;
    try (apply check_target_free_spec; [done..|]; by destruct Hcall).
  unfold check_resume_target_free.
  destruct (attention_binding w (resume_namespace request) (resume_binding_id request)) as [b|e] eqn:Eb.
  - apply wp_bind, wp_with_err. eapply wp_mono; [by apply alias_keys_spec|].
    intros [keys|e] cache' [Hc Hkeys]; [simpl|done]. destruct (Hkeys keys eq_refl) as (k & Hk & Hin).
    apply wp_bind, wp_lift_result. destruct (list_occupying_attention w _) as [bs|e] eqn:El; simpl; [|done].
    destruct (find_first _ bs) as [b'|] eqn:Ef; [by apply wp_throw|]. apply wp_ret. split; [done|].
    intros _ b0 Hb0 Hid b' k' Hb' Hocc Hk' Hk0. apply binding_found in Eb as [Hb Hbid]; [|done].
    assert (b0 = b) as -> by (eapply rows_unique; [done..|congruence]). rewrite Hk in Hk0. injection Hk0 as <-. rewrite Hid.
    by eapply no_occupant.
  - destruct e; try (apply wp_throw; done). apply wp_ret. split; [done|]. intros _ b Hb Hid.
    by eapply binding_missing in Eb as Hne; [|done|exact Hb].
Qed.

(** ** Preparation *)

Lemma member_insert_eq k v m : member k (members_insert k v m) = Some v.
Proof.
  unfold member, find_first. induction m as [|[k' v'] m IH]; simpl; [by rewrite bool_decide_true|].
  case_bool_decide as E; [simpl; by rewrite bool_decide_true|].
  case_bool_decide; simpl; [by rewrite bool_decide_true|]. by rewrite bool_decide_false by done.
Qed.
Lemma member_insert_ne j k v m : j ≠ k → member j (members_insert k v m) = member j m.
Proof.
  intros Hne. unfold member, find_first. induction m as [|[k' v'] m IH]; simpl; [by rewrite bool_decide_false|].
  case_bool_decide as E; [subst k'; simpl; by rewrite bool_decide_false|].
  case_bool_decide; simpl; [by rewrite (bool_decide_false (k = j))|]. by case_bool_decide.
Qed.
Lemma member_remove_ne j k m : j ≠ k → member j (members_remove k m) = member j m.
Proof.
  intros Hne. unfold member, find_first, members_remove, Members in *. induction m as [|[k' v'] m IH]; [done|].
  rewrite filter_cons. simpl. destruct (decide (k' = k)) as [->|E].
  - rewrite decide_False by (intros H; by apply H). by rewrite bool_decide_false.
  - rewrite decide_True by done. simpl. by case_bool_decide.
Qed.

Lemma namespace_default m ns :
  reject_non_default_namespace m = Ok tt → parse_namespace m = Ok ns → unwrap_or ns default_namespace = default_namespace.
Proof.
  unfold reject_non_default_namespace. intros H E. rewrite E in H. simpl in H. destruct ns as [ns|]; [|done]. by case_bool_decide.
Qed.

Lemma prepare_target_spec env v cache :
  seen env → cache_ok cache →
  wp (prepare_target mob_id env v)
    (λ r cache', cache_ok cache' ∧ ∀ t, r = Ok t → normal (to_attention_target t)) cache.
Proof.
  intros Henv Hok. unfold prepare_target. apply wp_bind, wp_lift_result. destruct (resolve_goal_target _ v); [|done].
  apply wp_bind, wp_with_err. eapply wp_mono; [by apply lower_target_spec|]. intros [t|e] cache' [Hc Ht]; simpl; [|done].
  apply wp_bind, wp_lift_result. destruct (refuse_foreign_mob_target t) as [[]|]; simpl; [|done]. apply wp_ret. split; [done|]. intros ? [= <-]. by apply Ht.
Qed.

(** Symbolic execution of a preparation: a test that fails ends it with the cache as it is. *)
Ltac prep :=
  lazymatch goal with
  | |- wp (mret _) _ _ => apply wp_ret; split; [done|intros ? [= <-]; simpl]
  | |- wp (throw _) _ _ => apply wp_throw; done
  | |- wp (lift_result ?r ≫= _) _ _ => apply wp_bind, wp_lift_result; destruct r as [?|?] eqn:?; simpl; [prep|done]
  | |- wp (throw_if ?b _ ≫= _) _ _ => apply wp_bind, wp_throw_if; destruct b; simpl; [done|prep]
  | |- wp (prepare_target _ _ _ ≫= _) _ _ =>
      apply wp_bind; eapply wp_mono; [by apply prepare_target_spec|];
      intros [?|?] ? [? ?]; simpl; [prep|done]
  | |- _ => idtac
  end.

Definition prepared (r : Result GuardedCall JsonRpcError) (cache : Cache) : Prop :=
  cache_ok cache ∧ ∀ call, r = Ok call → call_ok call.
Lemma prepare_goal_create_spec env m cache :
  seen env → cache_ok cache → wp (prepare_goal_create mob_id env m) prepared cache.
Proof.
  intros Henv Hok. unfold prepare_goal_create, prepared. prep.
  match goal with u : unit |- _ => destruct u end.
  match goal with E : map_err _ _ = Ok ?r |- _ => rename r into request; destruct (goal_create_from_value _) as [r|] eqn:Ec; simplify_eq/= end.
  split.
  - apply create_namespace_wire in Ec as Hns. eapply namespace_default; [done|].
    unfold parse_namespace in Hns. by rewrite member_insert_ne, member_remove_ne in Hns.
  - rewrite (create_wire _ _ _ Ec (member_insert_eq _ _ _)). auto.
Qed.
Lemma prepare_resume_spec m cache : cache_ok cache → wp (prepare_resume m) prepared cache.
Proof.
  intros Hok. unfold prepare_resume, prepared. prep. match goal with u : unit |- _ => destruct u end.
  destruct (resume_from_value _) as [r|] eqn:Ec; simplify_eq/=. eapply namespace_default; [done|].
  by apply resume_namespace_wire.
Qed.
Lemma prepare_reassign_spec env m cache :
  seen env → cache_ok cache → wp (prepare_reassign mob_id env m) prepared cache.
Proof.
  intros Henv Hok. unfold prepare_reassign, prepared. prep. match goal with u : unit |- _ => destruct u end.
  split; [by eapply namespace_default|auto].
Qed.
Lemma prepare_break_glass_spec env surface m cache :
  seen env → cache_ok cache → wp (prepare_break_glass mob_id env surface m) prepared cache.
Proof.
  intros Henv Hok. unfold prepare_break_glass, prepared. prep. match goal with u : unit |- _ => destruct u end.
  destruct surface; prep. split; [by eapply namespace_default|auto].
Qed.

Lemma prepared_Err e cache : cache_ok cache → prepared (Err e) cache.
Proof. done. Qed.
Lemma prepare_method_spec env configured surface method params cache :
  seen env → cache_ok cache → wp (prepare_method mob_id env configured surface method params) prepared cache.
Proof.
  intros Henv Hok. pose proof (λ e, prepared_Err e cache Hok) as Hrefused. unfold prepare_method.
  do 3 (apply wp_bind, wp_throw_if; match goal with |- context [if ?b then Err _ else _] => destruct b end; [apply Hrefused|]).
  apply wp_bind, wp_lift_result. destruct (params_object params) as [m|]; [|apply Hrefused].
  apply wp_bind, wp_throw_if. destruct (contains_key _ m); [apply Hrefused|].
  repeat case_bool_decide; auto using prepare_goal_create_spec, prepare_resume_spec, prepare_reassign_spec, prepare_break_glass_spec.
  apply wp_throw, Hrefused.
Qed.

(** With the slot filled, what goes on without a permit is another tool or has no projection. *)
Lemma prepare_tool_unguarded env name pinned context cache cache' :
  prepare_tool mob_id env true name pinned context cache = (Ok None, cache') →
  name ≠ "workgraph_attention_reassign" ∨ context = None.
Proof.
  unfold prepare_tool. case_bool_decide as Hn; [|by left]. destruct context; [|by right]. simpl.
  unfold mbind, m_bind, lift_result, with_err. intros H. repeat (case_match; simplify_eq/=).
Qed.
Lemma prepare_tool_spec env filled name pinned context cache :
  seen env → cache_ok cache →
  wp (prepare_tool mob_id env filled name pinned context)
    (λ r cache', cache_ok cache' ∧ ∀ call, r = Ok (Some call) → call_ok call) cache.
Proof.
  intros Henv Hok. unfold prepare_tool. case_match; [by apply wp_ret|].
  apply wp_bind, wp_lift_result. destruct (reassign_args_from_value pinned) as [[id given]|] eqn:Ea; simpl; [|done].
  apply wp_bind, wp_with_err. eapply wp_mono; [by apply lower_target_spec|]. intros [t|e] cache' [Hc Ht]; simpl; [|done].
  apply wp_ret. split; [done|]. intros call [= <-]. simpl. auto.
Qed.

(** ** Several processes *)

(** The store, each process's cache, the calls that wait for the permit and the
    permits that are held, with whether the check was passed. *)
Record Sys := mkSys {
  sys_wg : WG;
  sys_cache : nat → Cache;
  sys_pending : list (nat * GuardedCall);
  sys_held : gmap nat (GuardedCall * bool) }.

Definition set_cache (p : nat) (cache : Cache) (f : nat → Cache) : nat → Cache :=
  λ q, if decide (p = q) then cache else f q.
Definition waiting (p : nat) (r : option GuardedCall) (pending : list (nat * GuardedCall)) : list (nat * GuardedCall) :=
  match r with Some call => (p, call) :: pending | None => pending end.
Definition ok_of {A E} (r : Result A E) : option A := match r with Ok a => Some a | Err _ => None end.

(** [acquire]: the gate of the process, and across processes the sidecar file; a
    runtime without one is the only process of its store. *)
Definition may_acquire (sidecar : bool) (p : nat) (s : Sys) : Prop :=
  sys_held s !! p = None ∧ if sidecar then sys_held s = ∅ else p = O.

(** [filled]: every process's tool plane has the admission in its slot. *)
Inductive sys_step (sidecar filled : bool) : Sys → Sys → Prop :=
| step_prepare s p env configured surface method params r cache :
    seen env →
    prepare_method mob_id env configured surface method params (sys_cache s p) = (r, cache) →
    sys_step sidecar filled s
      (mkSys (sys_wg s) (set_cache p cache (sys_cache s)) (waiting p (ok_of r) (sys_pending s)) (sys_held s))
| step_prepare_tool s p env name args pinned context r cache :
    seen env → pin_args name args = Ok (Some pinned) →
    prepare_tool mob_id env filled name pinned context (sys_cache s p) = (r, cache) →
    sys_step sidecar filled s
      (mkSys (sys_wg s) (set_cache p cache (sys_cache s)) (waiting p (ok_of r ≫= id) (sys_pending s)) (sys_held s))
(** [dispatch] of a call that no guard applies to: its arguments, pinned for a
    work-graph tool, go to the inner surface *)
| step_forward s p env name args o context cache :
    seen env → pin_args name (Ok args) = Ok o →
    prepare_tool mob_id env filled name (unwrap_or o args) context (sys_cache s p) = (Ok None, cache) →
    sys_step sidecar filled s
      (mkSys (inner_dispatch name context (unwrap_or o args) (sys_wg s)).2
        (set_cache p cache (sys_cache s)) (sys_pending s) (sys_held s))
(** an RPC method that takes no permit *)
| step_service s call :
    sys_step sidecar filled s (mkSys (service_run call (sys_wg s)).2 (sys_cache s) (sys_pending s) (sys_held s))
| step_acquire s p call :
    (p, call) ∈ sys_pending s → may_acquire sidecar p s →
    sys_step sidecar filled s (mkSys (sys_wg s) (sys_cache s) (sys_pending s) (<[p := (call, false)]> (sys_held s)))
| step_give_up s pending :
    pending ⊆ sys_pending s → sys_step sidecar filled s (mkSys (sys_wg s) (sys_cache s) pending (sys_held s))
| step_check s p call env r cache :
    seen env → sys_held s !! p = Some (call, false) →
    call_check mob_id env (sys_wg s) call (sys_cache s p) = (r, cache) →
    sys_step sidecar filled s
      (mkSys (sys_wg s) (set_cache p cache (sys_cache s)) (sys_pending s)
        (if is_ok r then <[p := (call, true)]> (sys_held s) else delete p (sys_held s)))
| step_mutate s p call :
    sys_held s !! p = Some (call, true) →
    sys_step sidecar filled s (mkSys (call_mutate call (sys_wg s)).2 (sys_cache s) (sys_pending s) (delete p (sys_held s)))
| step_cancel s p : sys_step sidecar filled s (mkSys (sys_wg s) (sys_cache s) (sys_pending s) (delete p (sys_held s))).

Definition initial (s : Sys) : Prop :=
  rows (sys_wg s) = [] ∧ (∀ p, sys_cache s p = ∅) ∧ sys_pending s = [] ∧ sys_held s = ∅.

(** ** The invariant *)

Definition rows_ok w : Prop :=
  (∀ b, b ∈ rows w → normal (b_target b)) ∧
  ∀ b b' k, b ∈ rows w → b' ∈ rows w → occupying b → occupying b' →
    target_key (b_target b) = Some k → target_key (b_target b') = Some k → binding_id b = binding_id b'.
(** At most one permit is held. *)
Definition exclusive (sidecar : bool) (held : gmap nat (GuardedCall * bool)) : Prop :=
  (∀ p q, is_Some (held !! p) → is_Some (held !! q) → p = q) ∧ (sidecar = false → ∀ p, is_Some (held !! p) → p = O).
Definition sys_ok (sidecar : bool) (s : Sys) : Prop :=
  rows_ok (sys_wg s) ∧ (∀ p, cache_ok (sys_cache s p)) ∧
  (∀ p call, (p, call) ∈ sys_pending s → call_ok call) ∧
  exclusive sidecar (sys_held s) ∧
  ∀ p call checked, sys_held s !! p = Some (call, checked) → call_ok call ∧ (checked = true → call_free (sys_wg s) call).

Lemma free_for_kept w w' exclude t : no_growth w w' → free_for w exclude t → free_for w' exclude t.
Proof.
  intros Hk Hf b' k Hb' Hocc Hbk Htk. apply Hk in Hb' as (b & Hb & Hid & Ht & Ho). rewrite <- Hid. rewrite <- Ht in Hbk. eauto.
Qed.
Lemma call_free_kept w w' call : no_growth w w' → call_free w call → call_free w' call.
Proof.
  intros Hk. destruct call; simpl; eauto using free_for_kept. intros Hf b' Hb' Hid.
  destruct (Hk _ Hb') as (b & Hb & Hbid & Ht & _). rewrite <- Ht, <- Hbid in *. eapply free_for_kept; [done|]. auto.
Qed.
Lemma rows_ok_kept w w' : no_growth w w' → rows_ok w → rows_ok w'.
Proof.
  intros Hk [Hn Hd]. split.
  - intros b' (b & Hb & _ & <- & _)%Hk. auto.
  - intros b1' b2' k (b1 & Hb1 & <- & <- & Ho1)%Hk (b2 & Hb2 & <- & <- & Ho2)%Hk. eauto.
Qed.

(** A move onto a free target in normal form keeps the invariant. *)
Lemma rows_ok_moved w w' superseded t :
  moved w w' superseded t → free_for w superseded t → normal t → rows_ok w → rows_ok w'.
Proof.
  intros [Hk|(fresh & Hfresh & Hm)] Hfree Hnt [Hn Hd]; [by eapply rows_ok_kept|].
  assert (∀ b1 b2 k, kept w b1 → (occupying b1 → superseded ≠ Some (binding_id b1)) → b_target b2 = t →
    occupying b1 → target_key (b_target b1) = Some k → target_key (b_target b2) = Some k → False) as Hclash.
  { intros b1 b2 k (b & Hb & Hid & Ht & Ho) Hsup Ht2 Hocc Hk1 Hk2. apply (Hsup Hocc). rewrite <- Hid.
    rewrite Ht2 in Hk2. rewrite <- Ht in Hk1. by eapply (Hfree b k); auto. }
  split.
  - intros b' [[(b & Hb & _ & <- & _) _]|[_ ->]]%Hm; auto.
  - intros b1 b2 k H1%Hm H2%Hm Ho1 Ho2 Hk1 Hk2. destruct H1 as [[K1 S1]|[I1 T1]], H2 as [[K2 S2]|[I2 T2]].
    + destruct K1 as (c1 & Hc1 & <- & Ht1 & O1), K2 as (c2 & Hc2 & <- & Ht2 & O2). rewrite <- Ht1 in Hk1. rewrite <- Ht2 in Hk2. eauto.
    + by destruct (Hclash b1 b2 k).
    + by destruct (Hclash b2 b1 k).
    + congruence.
Qed.
Lemma rows_ok_reactivated w w' id :
  reactivated w w' id → (∀ b, b ∈ rows w → binding_id b = id → free_for w (Some (binding_id b)) (b_target b)) →
  rows_ok w → rows_ok w'.
Proof.
  intros Hr Hfree [Hn Hd]. split; [intros b' (b & Hb & _ & <- & _)%Hr; auto|].
  intros b1' b2' k (b1 & Hb1 & I1 & T1 & O1)%Hr (b2 & Hb2 & I2 & T2 & O2)%Hr Ho1 Ho2 Hk1 Hk2.
  rewrite <- T1 in Hk1. rewrite <- T2 in Hk2. destruct (O1 Ho1) as [Ho1'|E1], (O2 Ho2) as [Ho2'|E2].
  - rewrite <- I1, <- I2. eauto.
  - rewrite <- I1, <- I2. rewrite <- I2 in E2. specialize (Hfree b2 Hb2 E2 b1 k Hb1 Ho1' Hk1 Hk2). congruence.
  - rewrite <- I1, <- I2. rewrite <- I1 in E1. specialize (Hfree b1 Hb1 E1 b2 k Hb2 Ho2' Hk2 Hk1). congruence.
  - congruence.
Qed.

Lemma no_growth_refl w : no_growth w w.
Proof. intros b Hb. exists b. auto. Qed.

Lemma forwarded_parse target given pinned id fwd :
  reassign_args_from_value pinned = Ok (id, given) → forwarded_args target given pinned = Ok fwd →
  reassign_args_from_value fwd = Ok (id, target).
Proof.
  intros Hp. unfold forwarded_args. case_bool_decide as E; [subst; congruence|].
  destruct pinned; intros [= <-]; [by apply reassign_args_null in Hp|by eapply reassign_args_wire].
Qed.

Lemma call_mutate_ok call w : call_ok call → call_free w call → rows_ok w → rows_ok (call_mutate call w).2.
Proof.
  intros Hok Hfree Hrows. destruct call as [request|request|id rev ns t|id rev ns t pr re|id t given pinned context]; simpl in *.
  - destruct Hok. eapply rows_ok_moved; [apply create_goal_rows|done..].
  - eapply rows_ok_reactivated; [apply resume_rows|done..].
  - destruct Hok. unfold mbind, m_bind, get, lift_result. destruct (attention_projection w id ns); simpl; [|done].
    eapply rows_ok_moved; [apply reassign_rows|done..].
  - destruct Hok. eapply rows_ok_moved; [apply break_glass_rows|done..].
  - destruct Hok as [Hp Hn]. unfold mbind, m_bind, lift_result.
    destruct (forwarded_args t given pinned) as [fwd|] eqn:Ef; simpl; [|done].
    eapply rows_ok_moved; [eapply tool_reassign_rows, forwarded_parse|..]; done.
Qed.

Lemma set_cache_ok p cache f : cache_ok cache → (∀ q, cache_ok (f q)) → ∀ q, cache_ok (set_cache p cache f q).
Proof. intros H1 H2 q. unfold set_cache. by case_decide. Qed.
Lemma waiting_ok p r pending :
  (∀ call, r = Some call → call_ok call) → (∀ q call, (q, call) ∈ pending → call_ok call) →
  ∀ q call, (q, call) ∈ waiting p r pending → call_ok call.
Proof. intros H1 H2 q call. destruct r as [c|]; simpl; [|eauto]. intros [[= -> ->]|?]%elem_of_cons; eauto. Qed.
Lemma ok_of_Some {A E} (r : Result A E) a : ok_of r = Some a → r = Ok a.
Proof. destruct r; naive_solver. Qed.

(** What the permits held say, when they are those of before or fewer. *)
Lemma held_delete (held : gmap nat (GuardedCall * bool)) (P : GuardedCall → bool → Prop) p :
  (∀ q c b, held !! q = Some (c, b) → P c b) → ∀ q c b, delete p held !! q = Some (c, b) → P c b.
Proof. intros H q c b [_ ?]%lookup_delete_Some. eauto. Qed.

Lemma exclusive_acquire sidecar p c (s : Sys) :
  may_acquire sidecar p s → exclusive sidecar (sys_held s) → exclusive sidecar (<[p := c]> (sys_held s)).
Proof.
  intros [Hp Hside] [Hone Hzero].
  assert (∀ q, is_Some (<[p := c]> (sys_held s) !! q) → q = p) as Hq.
  { intros q Hq. destruct (decide (p = q)) as [|Hne]; [done|]. rewrite lookup_insert_ne in Hq by done. destruct sidecar.
    - rewrite Hside in Hq. by apply is_Some_None in Hq.
    - rewrite (Hzero eq_refl q Hq), Hside. done. }
  split; [intros q q' ->%Hq ->%Hq; done|]. intros E q ->%Hq. by subst sidecar.
Qed.
Lemma exclusive_update sidecar p c (held : gmap nat (GuardedCall * bool)) :
  is_Some (held !! p) → exclusive sidecar held → exclusive sidecar (<[p := c]> held).
Proof.
  intros Hp [Hone Hzero].
  assert (∀ q, is_Some (<[p := c]> held !! q) → is_Some (held !! q)) as Hq.
  { intros q. destruct (decide (p = q)) as [<-|]; [done|]. by rewrite lookup_insert_ne. }
  split; eauto.
Qed.
Lemma exclusive_delete sidecar p (held : gmap nat (GuardedCall * bool)) :
  exclusive sidecar held → exclusive sidecar (delete p held).
Proof.
  intros [Hone Hzero].
  assert (∀ q, is_Some (delete p held !! q) → is_Some (held !! q)) as Hq by (intros q [c [_ Hc]%lookup_delete_Some]; eauto).
  split; eauto.
Qed.

Lemma sys_ok_kept sidecar s cache w :
  no_growth (sys_wg s) w → (∀ p, cache_ok (cache p)) → sys_ok sidecar s →
  sys_ok sidecar (mkSys w cache (sys_pending s) (sys_held s)).
Proof.
  intros Hk Hc (Hrows & _ & Hpend & Hone & Hheld). split; [by eapply rows_ok_kept|]. split; [done|]. split; [done|].
  split; [done|]. intros q c b Hq. destruct (Hheld _ _ _ Hq) as [H1 H2]. split; [done|].
  intros Hb. eapply call_free_kept; eauto.
Qed.
Lemma forward_no_growth env name args context w cache cache' :
  prepare_tool mob_id env true name args context cache = (Ok None, cache') →
  no_growth w (inner_dispatch name context args w).2.
Proof.
  intros Hrun. destruct (decide (name = "workgraph_attention_reassign")) as [->|Hne]; [|by apply tool_other_rows].
  apply prepare_tool_unguarded in Hrun as [?| ->]; [done|]. rewrite witnessless_denied. apply no_growth_refl.
Qed.

Lemma step_ok sidecar s s' : sys_step sidecar true s s' → sys_ok sidecar s → sys_ok sidecar s'.
Proof.
  intros Hstep Hall. pose proof Hall as (Hrows & Hcache & Hpend & Hone & Hheld).
  destruct Hstep as [s p env configured surface method params r cache Henv Hrun|s p env name args pinned context r cache Henv Hpin Hrun
    |s p env name args o context cache Henv Hpin Hrun|s call|s p call Hin Hmay|s pending Hsub|s p call env r cache Henv Hp Hrun|s p call Hp|s p]; unfold sys_ok; simpl in *.
  - destruct (wp_run _ _ _ _ _ Hrun (prepare_method_spec env configured surface method params _ Henv (Hcache p))) as [Hc Hcall].
    split; [done|]. split; [by apply set_cache_ok|]. split; [apply waiting_ok; [|done]|done].
    intros call ?%ok_of_Some. auto.
  - destruct (wp_run _ _ _ _ _ Hrun (prepare_tool_spec env true name pinned context _ Henv (Hcache p))) as [Hc Hcall].
    split; [done|]. split; [by apply set_cache_ok|]. split; [apply waiting_ok; [|done]|done].
    intros call (o & ?%ok_of_Some & Ho)%bind_Some. simpl in Ho. subst o. auto.
  - destruct (wp_run _ _ _ _ _ Hrun (prepare_tool_spec env true name _ context _ Henv (Hcache p))) as [Hc _].
    apply sys_ok_kept; [by eapply forward_no_growth|by apply set_cache_ok|done].
  - apply sys_ok_kept; [apply service_rows|done..].
  - split; [done|]. split; [done|]. split; [done|]. split; [by apply exclusive_acquire|].
    intros q c b [[<- [= <- <-]]|[_ Hq]]%lookup_insert_Some; [split; [by eapply Hpend|done]|by eapply Hheld].
  - split; [done|]. split; [done|]. split; [|done]. intros q c Hq. eapply Hpend, Hsub, Hq.
  - destruct (Hheld _ _ _ Hp) as [Hok _].
    destruct (wp_run _ _ _ _ _ Hrun (call_check_spec env (sys_wg s) call _ Henv (Hcache p) Hok)) as [Hc Hchk].
    split; [done|]. split; [by apply set_cache_ok|]. split; [done|]. destruct r as [[]|e]; simpl.
    + split; [by apply exclusive_update; eauto|].
      intros q c b [[<- [= <- <-]]|[_ Hq]]%lookup_insert_Some; [auto|by eapply Hheld].
    + split; [by apply exclusive_delete|by apply held_delete].
  - destruct (Hheld _ _ _ Hp) as [Hok Hfree]. split; [by apply call_mutate_ok; auto|]. split; [done|]. split; [done|].
    split; [by apply exclusive_delete|]. intros q c b [Hne Hq]%lookup_delete_Some. destruct Hone as [Hone _].
    by destruct Hne; apply Hone; eauto.
  - split; [done|]. split; [done|]. split; [done|]. split; [by apply exclusive_delete|by apply held_delete].
Qed.

Lemma initial_ok sidecar s : initial s → sys_ok sidecar s.
Proof.
  intros (Hr & Hc & Hp & Hh). unfold sys_ok, rows_ok, exclusive, cache_ok. rewrite Hr, Hp, Hh.
  split; [split; [by intros b ?%elem_of_nil|by intros b b' k ?%elem_of_nil]|].
  split; [intros p _ s0 st i; rewrite Hc; by intros ?%lookup_empty_Some|]. split; [by intros p call ?%elem_of_nil|].
  split; [split; [by intros p q ?%is_Some_None|by intros _ p ?%is_Some_None]|]. by intros p call checked ?%lookup_empty_Some.
Qed.

(** C11: any number of processes that take turns by the admission permit run
    work-graph calls, in any interleaving, on a store that starts without bindings.
    Every tool plane has the admission in its slot, as a mob runtime's has; the calls
    are all RPC methods and all agent tools, guarded or not, and the service keeps
    its promise that nothing but creating a goal, resuming and reassigning makes a
    binding occupying.  Then at every moment two bindings that are active or paused
    and are stored under the same owner key are the same binding, whatever the
    rosters, the session stores and the caches answer and however a session changes
    hands.  If moreover no session changes hands while the calls run, so that every
    answer agrees with one mapping of sessions to members, then two bindings that are
    active or paused and address the same member, under whatever spelling, are the
    same binding, and a stored session target is never a member's. *)
Theorem member_has_one_occupying_binding sidecar s s' :
  initial s → rtc (sys_step sidecar true) s s' →
  (∀ b b' k, b ∈ rows (sys_wg s') → b' ∈ rows (sys_wg s') → occupying b → occupying b' →
    target_key (b_target b) = Some k → target_key (b_target b') = Some k → b = b') ∧
  (settled →
    (∀ b b' k, b ∈ rows (sys_wg s') → b' ∈ rows (sys_wg s') → occupying b → occupying b' →
      addresses (b_target b) = Some k → addresses (b_target b') = Some k → b = b') ∧
    ∀ b, b ∈ rows (sys_wg s') → addresses (b_target b) = target_key (b_target b)).
Proof.
  intros Hinit Hsteps. assert (sys_ok sidecar s') as ([Hn Hd] & _).
  { assert (sys_ok sidecar s) as Hok by by apply initial_ok. clear Hinit. induction Hsteps; eauto using step_ok. }
  split; [intros; eapply rows_unique; eauto|]. intros Hset. split; [|intros b Hb; by apply Hn].
  intros b b' k Hb Hb' Ho Ho' Hk Hk'. eapply rows_unique; [done..|].
  rewrite (Hn b Hb Hset) in Hk. rewrite (Hn b' Hb' Hset) in Hk'. eauto.
Qed.

(** A lowered owner id is read back into its mob and its agent. *)
Lemma split_once_agent mob rest :
  contains_byte "/" mob = false → split_once_str "/agent/" (mob +:+ "/agent/" +:+ rest) = Some (mob, rest).
Proof.
  induction mob as [|a mob IH]; intros H.
  - done.
  - simpl in H. apply orb_false_iff in H as [Ha H]. rewrite str_app_cons. simpl.
    apply bool_decide_eq_false in Ha. rewrite bool_decide_false by congruence. by rewrite IH.
Qed.
Lemma owner_key_parts_round_trip mob identity :
  mob ≠ "" → identity ≠ "" → contains_byte "/" mob = false → contains_byte "/" identity = false →
  mob_agent_owner_key_parts ("mob/" +:+ mob +:+ "/agent/" +:+ identity) = Some (mob, identity).
Proof.
  intros Hm Hi Hm' Hi'. unfold mob_agent_owner_key_parts. rewrite strip_prefix_app. cbn [mbind option_bind].
  rewrite split_once_agent by done. cbn [mbind option_bind].
  apply str_is_empty_false in Hm, Hi. by rewrite Hm, Hi, Hm', Hi'.
Qed.

(** The cache of resolutions stays within its bound. *)
Lemma resolve_bounded env s cache :
  (size cache ≤ MEMBER_RESOLUTION_CACHE_MAX)%nat →
  wp (resolve_member_identity mob_id env s) (λ _ cache', (size cache' ≤ MEMBER_RESOLUTION_CACHE_MAX)%nat) cache.
Proof.
  intros Hs. unfold resolve_member_identity. case_match; [by apply wp_ret|]. apply wp_bind. unfold wp at 1, get. simpl.
  case_match; [by apply wp_ret|]. case_match; [|by apply wp_ret]. apply wp_bind, wp_lift_result.
  destruct (map_err _ _) as [b|e]; [|done]. destruct (snd <$> _) as [i|]; [|by apply wp_ret].
  apply wp_bind, wp_modify, wp_ret. unfold cache_insert, MEMBER_RESOLUTION_CACHE_MAX, Cache in *.
  destruct (4096 <=? size cache)%nat eqn:E; [rewrite map_size_insert_None by apply lookup_empty; rewrite map_size_empty; lia|].
  apply Nat.leb_gt in E. rewrite map_size_insert. destruct (cache !! s); [exact Hs|exact E].
Qed.
End exclusion.

(** ** Runs: a store that is a map of bindings *)
Module WorkGraphExamples.

#[local] Notation Store := (gmap string (GoalAttentionTarget * WorkAttentionStatus)).
Definition store_rows (w : Store) : list (string * GoalAttentionTarget * WorkAttentionStatus) :=
  (λ p, (p.1, p.2.1, p.2.2)) <$> map_to_list w.
(** An id longer than every id in use. *)
Definition fresh_id (w : Store) : string := "b" +:+ foldr (λ p acc, p.1 +:+ acc) "" (map_to_list w).

Definition text (k : string) (m : list (string * Value)) : Result string string :=
  ok_or (v ← member k m; as_str v) ("missing " +:+ k).
Definition decode_target (v : Value) : Result GoalAttentionTarget string :=
  m ←? ok_or (as_object v) "not an object";
  kind ←? text "kind" m;
  if kind =b "session" then s ←? text "session_id" m; Ok (TSession s)
  else owner ←? text "owner_kind" m; id ←? text "id" m;
    Ok (TOwner (mkOwnerKey (if owner =b "session" then KSession else if owner =b "agent" then KAgent
                            else KOther (unwrap_or (strip_prefix "other:" owner) owner)) id)).
Definition encode_target (t : GoalAttentionTarget) : Value :=
  match t with
  | TSession s => VObject [("kind", str "session"); ("session_id", str s)]
  | TOwner k =>
      VObject [("id", str (ok_id k)); ("kind", str "owner");
        ("owner_kind", str (match ok_kind k with KSession => "session" | KAgent => "agent" | KOther n => "other:" +:+ n end))]
  end.
Lemma target_round_trip t : decode_target (encode_target t) = Ok t.
Proof. destruct t as [s|[[| |n] id]]; reflexivity. Qed.

Definition decode_namespace (m : list (string * Value)) : Result (option string) string :=
  match member "namespace" m with
  | None | Some VNull => Ok None
  | Some (VString s) => Ok (Some s)
  | Some _ => Err "not a namespace"
  end.

Definition store_move (superseded : option string) (t : GoalAttentionTarget) : M Store WorkGraphError Value := λ w,
  let w' := match superseded with Some id => alter (λ p, (p.1, ASuperseded)) id w | None => w end in
  (Ok VNull, <[fresh_id w := (t, AActive)]> w').

#[local] Instance store : WorkGraph := {|
  WG := Store; WorkAttentionTarget := GoalAttentionTarget; to_attention_target := λ t, t;
  target_owner_key := λ t, Ok (match t with TSession s => mkOwnerKey KSession s | TOwner k => k end);
  canonical := λ k, match ok_kind k with KSession => "session:" | KAgent => "agent:" | KOther n => n +:+ ":" end +:+ ok_id k;
  owner_key_session := λ s, Ok (mkOwnerKey KSession s);
  as_mob_agent := λ _, None; session_id_parse := λ s, Ok s;
  lower_agent_identity_owner_key := λ mob i, Ok (mkOwnerKey KAgent ("mob/" +:+ mob +:+ "/agent/" +:+ i));
  lower_agent_identity_attention_target := λ mob i, Ok (TOwner (mkOwnerKey KAgent ("mob/" +:+ mob +:+ "/agent/" +:+ i)));
  fmt_error := λ e, match e with InvalidInput m | StoreError m => m | _ => "error" end;
  namespace_from_value := λ v, ok_or (as_str v) "not a namespace";
  target_from_value := decode_target; target_to_value := encode_target; binding_id_new := λ s, Ok s;
  GoalCreateRequest := option string * GoalAttentionTarget;
  goal_create_from_value := λ v,
    m ←? ok_or (as_object v) "not an object"; ns ←? decode_namespace m;
    v ←? ok_or (member "target" m) "missing target"; t ←? decode_target v; Ok (ns, t);
  create_namespace := fst; create_target := snd;
  AttentionResumeRequest := option string * string;
  resume_from_value := λ v,
    m ←? ok_or (as_object v) "not an object"; ns ←? decode_namespace m; id ←? text "binding_id" m; Ok (ns, id);
  resume_namespace := fst; resume_binding_id := snd;
  reassign_args_from_value := λ v,
    m ←? ok_or (as_object v) "not an object"; id ←? text "binding_id" m;
    v ←? ok_or (member "target" m) "missing target"; t ←? decode_target v; Ok (id, t);
  default_namespace := "default"; default_realm_id := "mob.fleet";
  Projection := unit; projection_mode := λ _, "coordinate";
  rows := store_rows;
  list_attention := λ w _ status,
    Ok (List.filter (λ b, match status, b.2 with AActive, AActive | APaused _, APaused _ => true | _, _ => false end) (store_rows w));
  attention_binding := λ w _ id,
    match w !! id with Some p => Ok (id, p.1, p.2) | None => Err (AttentionNotFound id) end;
  attention_projection := λ _ _ _, Ok tt;
  create_goal := λ request, store_move None request.2;
  resume_attention := λ request w, (Ok VNull, alter (λ p, (p.1, AActive)) request.2 w);
  reassign_attention := λ id _ _ _ t, store_move (Some id) t;
  break_glass_reassign_attention := λ id _ _ t _ _, store_move (Some id) t;
  ServiceCall := string; service_run := λ id w, (Ok VNull, alter (λ p, (p.1, AStopped)) id w);
  inner_dispatch := λ name context args w,
    if negb (name =b "workgraph_attention_reassign") then (Ok VNull, w) else
    if negb (is_some context) then (Err (ExecutionFailed "access denied" None), w) else
    match (m ← as_object args; id ← (v ← member "binding_id" m; as_str v); v ← member "target" m;
           match decode_target v with Ok t => Some (id, t) | Err _ => None end) with
    | Some (id, t) => (Ok VNull, (store_move (Some id) t w).2)
    | None => (Err ToolPanic, w)
    end |}.

Lemma elem_of_store_rows w i t st : (i, t, st) ∈ store_rows w ↔ w !! i = Some (t, st).
Proof.
  unfold store_rows. rewrite list_elem_of_fmap. split.
  - intros ([j [t' st']] & [= -> -> ->] & H). by apply elem_of_map_to_list in H.
  - intros H. exists (i, (t, st)). by rewrite elem_of_map_to_list.
Qed.

Lemma fresh_id_longer i p (w : Store) : w !! i = Some p → (str_len i < str_len (fresh_id w))%nat.
Proof.
  unfold fresh_id. rewrite <- elem_of_map_to_list. generalize (map_to_list w). intros l H. rewrite str_len_app.
  induction l as [|x l IH]; [by apply elem_of_nil in H|]. simpl in *. rewrite str_len_app.
  apply elem_of_cons in H as [<-|H]; simpl; [lia|]. apply IH in H. lia.
Qed.

Lemma store_moved w superseded t : moved w (store_move superseded t w).2 superseded t.
Proof.
  right. exists (fresh_id w). split.
  - intros [[i t'] st] Hb%elem_of_store_rows E. apply fresh_id_longer in Hb. unfold binding_id in E. simpl in E. subst. lia.
  - intros [[i t'] st] Hb%elem_of_store_rows. unfold store_move in Hb. simpl in Hb. apply lookup_insert_Some in Hb as [[<- [= <- <-]]|[Hne Hb]]; [by right|left].
    destruct superseded as [id|]; [apply lookup_alter_Some in Hb as [(<- & [t0 st0] & Hb & [= -> ->])|[Hid Hb]]|].
    + split; [|done]. exists (id, t0, st0). rewrite elem_of_store_rows. by repeat split.
    + split; [|intros _ [= ->]; done]. exists (i, t', st). by rewrite elem_of_store_rows.
    + split; [|done]. exists (i, t', st). by rewrite elem_of_store_rows.
Qed.

Lemma decode_namespace_wire m ns : decode_namespace m = Ok ns → parse_namespace m = Ok ns.
Proof. unfold decode_namespace, parse_namespace. destruct (member "namespace" m) as [[]|]; simpl; congruence. Qed.

#[local] Instance store_laws : WorkGraphLaws.
Proof.
  split; simpl; try done.
  - by intros s k [= <-].
  - intros mob i t [= <-]. eauto.
  - intros m t request (ns & _ & (v & Hv & (t' & Ht' & [= <-])%and_then_Ok)%and_then_Ok)%and_then_Ok Hm.
    rewrite Hm in Hv. injection Hv as <-. rewrite target_round_trip in Ht'. by injection Ht'.
  - intros m request (ns & Hns & (v & Hv & (t' & Ht' & [= <-])%and_then_Ok)%and_then_Ok)%and_then_Ok. by apply decode_namespace_wire.
  - intros m request (ns & Hns & (id & Hid & [= <-])%and_then_Ok)%and_then_Ok. by apply decode_namespace_wire.
  - intros m id given target (id' & Hid & (v & Hv & (t' & Ht' & [= -> ->])%and_then_Ok)%and_then_Ok)%and_then_Ok.
    unfold text in *. rewrite member_insert_ne, Hid, member_insert_eq by done. simpl. by rewrite target_round_trip.
  - intros w [[i t] st] [[i' t'] st'] H%elem_of_store_rows H'%elem_of_store_rows E. unfold binding_id in E. simpl in E. subst. congruence.
  - intros w active paused [[i t] st] [= <-] [= <-] Hb Hocc. apply elem_of_app.
    rewrite !list_elem_of_In, !filter_In, <- list_elem_of_In. unfold occupying in Hocc. simpl in *. destruct st; naive_solver.
  - intros w ns id [[i t] st] _. destruct (w !! id) as [[t' st']|] eqn:E; [intros [= <- <- <-]|done]. by rewrite elem_of_store_rows.
  - intros w ns id d [[i t] st] _. destruct (w !! id) as [p|] eqn:E; [done|]. intros _ H%elem_of_store_rows Hi.
    unfold binding_id in Hi. simpl in Hi. subst. congruence.
  - intros request w. exact (store_moved w None request.2).
  - intros request w [[i t] st] Hb%elem_of_store_rows. simpl in Hb.
    apply lookup_alter_Some in Hb as [(<- & [t0 st0] & Hb & [= -> ->])|[Hid Hb]]; eexists (_, _, _); rewrite elem_of_store_rows; (split; [done|]); repeat split; auto.
  - intros id ns revision projection t w. exact (store_moved w (Some id) t).
  - intros id ns revision t principal reason w. exact (store_moved w (Some id) t).
  - intros [u|] args id t w; [|intros _; left; apply no_growth_refl]. destruct args as [| | | | |m]; try done. simpl. unfold text.
    intros (id' & Hid & (v & Hv & (t' & Ht' & [= -> ->])%and_then_Ok)%and_then_Ok)%and_then_Ok.
    destruct (member "binding_id" m) as [v0|]; simpl in *; [|done]. destruct (as_str v0); simplify_eq/=.
    destruct (member "target" m); simplify_eq/=. rewrite Ht'. exact (store_moved w (Some id) t).
  - intros name context args w Hne. rewrite bool_decide_false by done. apply no_growth_refl.
  - intros id w [[i t] st] Hb%elem_of_store_rows. simpl in Hb.
    apply lookup_alter_Some in Hb as [(<- & [t0 st0] & Hb & [= -> ->])|[Hid Hb]];
      eexists (_, _, _); rewrite elem_of_store_rows; (split; [done|]); by repeat split.
Qed.

Definition members_of_fleet (s : string) : option string := if s =b "s1" then Some "scout" else None.
(** A process that knows no roster: the member is read from the session store. *)
Definition blind : Env :=
  mkEnv (λ _, None) (λ _, None) (Some (λ s, Ok (if s =b "s1" then Some ("fleet", "scout") else None))) 0.
Definition fleet_goal (target : Value) : Value := obj [("title", str "watch"); ("target", target)].
Definition by_session : Value := fleet_goal (obj [("kind", str "session"); ("session_id", str "s1")]).
Definition by_identity : Value := fleet_goal (obj [("kind", str "identity"); ("identity", str " scout ")]).
Definition run_create (params : Value) (s : @Cache * Store) : Result Value CallError * (@Cache * Store) :=
  handle_guarded "fleet" blind blind (Ok tt) true HostStdin "meta/workgraph/goal/create" params s.

(** A goal for the member's session and one for its identity: the second is refused
    and named; after a pause the target stays taken. *)
Example spellings_conflict :
  let s1 := (run_create by_session (∅, ∅)).2 in
  map_to_list s1.2 = [("b", (TOwner (mkOwnerKey KAgent "mob/fleet/agent/scout"), AActive))] ∧
  (run_create by_identity s1).1 = Err (RpcFailed (workgraph_conflict
    "target 'agent:mob/fleet/agent/scout' already has an active attention binding b; reassign it or close its goal before creating another goal for the same target")) ∧
  let paused : Store := alter (λ p, (p.1, APaused (Some 9))) "b" s1.2 in
  (run_create by_session (∅, paused)).1 = Err (RpcFailed (workgraph_conflict
    "target 'agent:mob/fleet/agent/scout' already has a paused attention binding b that will reactivate when its pause expires; resume it or close its goal instead of creating another goal for the same target")).
Proof. by vm_compute. Qed.

(** Array arguments that are read as a reassignment reach an index that panics. *)
Example array_arguments_panic :
  forwarded_args (TOwner (mkOwnerKey KAgent "mob/fleet/agent/scout")) (TSession "s1")
    (VArray [str "b"; encode_target (TSession "s1")]) = Err ToolPanic.
Proof. done. Qed.

(** Every answer is [blind]'s. *)
Definition seen_blind (env : Env) : Prop := env = blind.
Lemma seen_itself : seen_blind blind.
Proof. done. Qed.
Lemma blind_settled : settled "fleet" seen_blind members_of_fleet.
Proof.
  intros env ->. split; [done|]. eexists. split; [done|]. intros s b [= <-]. unfold members_of_fleet. by case_bool_decide.
Qed.

(** Two processes share the store: one names the member by session, one by identity. *)
Definition start : Sys := mkSys (∅ : Store) (λ _, ∅) [] ∅.
Definition scout_goal : GuardedCall := CreateGoal ((None, TOwner (mkOwnerKey KAgent "mob/fleet/agent/scout")) : @GoalCreateRequest store).
Definition scout_row : string * GoalAttentionTarget * WorkAttentionStatus :=
  ("b", TOwner (mkOwnerKey KAgent "mob/fleet/agent/scout"), AActive).

Lemma first_goal_runs :
  ∃ s, rtc (sys_step "fleet" seen_blind true true) start s ∧ rows (sys_wg s) = [scout_row].
Proof.
  eexists. split.
  - eapply rtc_l.
    { apply (step_prepare _ _ true true start 0 blind true HostStdin "meta/workgraph/goal/create" by_session (Ok scout_goal)
        {["s1" := (0, "scout")]} seen_itself). vm_cast_no_check (@eq_refl (Result GuardedCall JsonRpcError * Cache) (Ok scout_goal, {["s1" := (0, "scout")]})). }
    eapply rtc_l; [apply (step_acquire _ _ _ _ _ 0 scout_goal); [by left|by split]|].
    eapply rtc_l.
    { apply (step_check _ _ _ _ _ 0 scout_goal blind (Ok tt) {["s1" := (0, "scout")]} seen_itself); [done|].
      vm_cast_no_check (@eq_refl (Result unit WorkGraphAdmissionError * Cache) (Ok tt, {["s1" := (0, "scout")]})). }
    eapply rtc_l; [apply (step_mutate _ _ _ _ _ 0 scout_goal); done|]. apply rtc_refl.
  - by vm_compute.
Qed.

(** An embedder that never fills the slot: the tool's reassign is forwarded as it
    came, and puts a second binding, in another spelling, on the member. *)
Definition two_members : Store :=
  {["b" := (TOwner (mkOwnerKey KAgent "mob/fleet/agent/scout"), AActive);
    "c" := (TOwner (mkOwnerKey KAgent "mob/fleet/agent/cook"), AActive)]}.
Definition reassign_to_session : Value :=
  obj [("binding_id", str "c"); ("target", encode_target (TSession "s1"))].
Example unfilled_slot_is_not_guarded :
  ∃ s, sys_step "fleet" seen_blind true false (mkSys (two_members : Store) (λ _, ∅) [] ∅) s ∧
    let taken := List.filter (λ b, binding_occupies_target (b_status b) &&
      (addresses "fleet" members_of_fleet (b_target b) =b Some "agent:mob/fleet/agent/scout")) (rows (sys_wg s)) in
    length taken = 2%nat.
Proof.
  eexists. split.
  - by eapply (step_forward _ _ _ _ _ 0 blind "workgraph_attention_reassign" reassign_to_session _ (Some (tt : @Projection store))).
  - by vm_compute.
Qed.

Lemma member_has_one_occupying_binding_witness :
  ∃ s, rows (sys_wg s) = [scout_row] ∧
    addresses "fleet" members_of_fleet scout_row.1.2 = target_key scout_row.1.2.
Proof.
  destruct first_goal_runs as (s & Hs & Hrows). exists s. split; [done|].
  assert (initial start) as Hinit by by repeat split.
  apply (proj2 (proj2 (member_has_one_occupying_binding "fleet" seen_blind members_of_fleet true start s Hinit Hs)
    blind_settled) scout_row).
  rewrite Hrows. by left.
Defined.
End WorkGraphExamples.
