(* ===== verification/Policies.v ===== *)
(** * Decision policies, governance checks and the contact directory
      ([decisions.rs], [governance.rs], [contact_directory.rs])

    The checks an operator's documents go through: the console's access policy, the
    trust manifest, the release metadata, the governance files with their
    traceability table, and the directory of other mobs with its addresses.  The
    TOML, YAML, JSON and base64 libraries are the operations of [DocumentParsers]. *)

From S2P Require Import Prelude Strings RuntimeTypes MemberIds MemoryTaint.
Open Scope Z_scope.

Class DocumentParsers := {
  Toml : Type;
  toml_from_str : string → Result Toml string;
  toml_as_str : Toml → option string;
  toml_as_bool : Toml → option bool;
  (** the entries of a table, in the order of iteration *)
  toml_as_table : Toml → option (list (string * Toml));
  fmt_toml : Toml → string;
  (** the modules of a trust manifest: id, command, args, restart policy *)
  manifest_from_toml : string → Result (list (string * string * list string * option RestartPolicy)) string;
  (** the release metadata: targets and support matrix *)
  release_from_json : string → Result (list string * string) string;
  (** the rows of a traceability document: status and evidence *)
  rows_from_yaml : string → option (list (string * list string));
  base64_decode : string → Result (list Z) string;
}.

Section decisions.
Context `{DP : DocumentParsers}.

(** ** Decision policies *)

Definition REQUIRED_RELEASE_TARGETS : list string := ["crates.io"; "npm"; "pypi"; "github-releases"].

Inductive DecisionPolicyError :=
| EmptyBigQueryDataset | EmptyBigQueryTable | InvalidBigQueryName (name : string)
| TomlParse (message : string) | MissingModuleId | MissingModuleCommand
| AuthProviderMismatch | AuthProviderNotSupported | EmailNotAllowlisted
| InvalidServiceIdentity | ServiceIdentityNotAllowlisted
| ReplicaCountMustBeOne (count : Z) | SloTargetsNotSupportedV01
| MissingReleaseTarget (target : string) | DuplicateReleaseTarget (target : string)
| InvalidSupportMatrix (matrix : string) | InvalidTrustedAuthConfig (message : string).

Record BigQueryNaming := mkNaming { dataset : string; table : string }.
Inductive AuthProvider := GoogleOAuth | GitHubOAuth | GenericOidc | ServiceIdentity | TestProvider.
#[global] Instance auth_provider_eq_dec : EqDecision AuthProvider.
Proof. solve_decision. Defined.
Record AuthPolicy := mkAuthPolicy { default_provider : AuthProvider; email_allowlist : list string }.
Definition auth_policy_default : AuthPolicy := mkAuthPolicy GoogleOAuth [].
(** The fields of [ConsolePolicy] a decision reads. *)
Record ConsolePolicy := mkConsolePolicy { require_app_auth : bool; read_only : bool; fetch_timeout_ms : option Z }.
Definition console_policy_default : ConsolePolicy := mkConsolePolicy true false None.
Record ConsoleAccessRequest := mkAccessRequest { provider : AuthProvider; email : string }.
Record RuntimeOpsPolicy := mkOpsPolicy { replica_count : Z; enforce_slo_targets : bool }.
Definition ops_policy_default : RuntimeOpsPolicy := mkOpsPolicy 1 false.
Record ReleaseMetadata := mkRelease { targets : list string; support_matrix : string }.

(** [value.chars().all(..)] of ASCII characters is a test of the bytes. *)
Definition is_bigquery_char (a : ascii) : bool :=
  is_ascii_alphanumeric (byte_val a) || (byte_val a =? 95) || (byte_val a =? 45).
Definition validate_bigquery_naming (naming : BigQueryNaming) : Result unit DecisionPolicyError :=
  if str_is_empty (trim (dataset naming)) then Err EmptyBigQueryDataset
  else if str_is_empty (trim (table naming)) then Err EmptyBigQueryTable
  else match find_first (λ value, negb (str_forall is_bigquery_char value)) [dataset naming; table naming] with
       | Some value => Err (InvalidBigQueryName value)
       | None => Ok tt
       end.

Fixpoint trusted_modules (modules : list (string * string * list string * option RestartPolicy))
    : Result (list ModuleConfig) DecisionPolicyError :=
  match modules with
  | [] => Ok []
  | (id, command, args, policy) :: rest =>
      if str_is_empty (trim id) then Err MissingModuleId
      else if str_is_empty (trim command) then Err MissingModuleCommand
      else rest ←? trusted_modules rest;
           Ok (mkModule id command args (unwrap_or policy OnFailure) :: rest)
  end.
Definition load_trusted_meta_modules_from_toml (toml_text : string) : Result (list ModuleConfig) DecisionPolicyError :=
  parsed ←? map_err (λ err, TomlParse ("trust manifest TOML: " +:+ err)) (manifest_from_toml toml_text);
  trusted_modules parsed.

Definition enforce_console_route_access (auth_policy : AuthPolicy) (console_policy : ConsolePolicy)
    (request : ConsoleAccessRequest) : Result unit DecisionPolicyError :=
  let listed := bool_decide (email request ∈ email_allowlist auth_policy) in
  if negb (require_app_auth console_policy) then Ok tt
  else if provider request =b ServiceIdentity then
    if negb (starts_with "svc:" (email request)) || (str_len (email request) <=? 4)%nat then Err InvalidServiceIdentity
    else if negb listed then Err ServiceIdentityNotAllowlisted
    else Ok tt
  else if negb (provider request =b default_provider auth_policy) then Err AuthProviderMismatch
  else if provider request =b TestProvider then Err AuthProviderNotSupported
  else if negb listed then Err EmailNotAllowlisted
  else Ok tt.

Definition validate_runtime_ops_policy (policy : RuntimeOpsPolicy) : Result unit DecisionPolicyError :=
  if negb (replica_count policy =? 1) then Err (ReplicaCountMustBeOne (replica_count policy))
  else if enforce_slo_targets policy then Err SloTargetsNotSupportedV01
  else Ok tt.

Definition parse_release_metadata_json (json_text : string) : Result ReleaseMetadata DecisionPolicyError :=
  match release_from_json json_text with
  | Ok (ts, m) => Ok (mkRelease ts m)
  | Err err => Err (TomlParse ("release metadata JSON: " +:+ err))
  end.
(** The first loop: the targets seen, or the first that repeats. *)
Fixpoint collect_targets (ts : list string) (seen : gset string) : Result (gset string) DecisionPolicyError :=
  match ts with
  | [] => Ok seen
  | t :: ts => if bool_decide (t ∈ seen) then Err (DuplicateReleaseTarget t) else collect_targets ts ({[t]} ∪ seen)
  end.
Definition validate_release_metadata (metadata : ReleaseMetadata) : Result unit DecisionPolicyError :=
  seen ←? collect_targets (targets metadata) ∅;
  match find_first (λ required, negb (bool_decide (required ∈ seen))) REQUIRED_RELEASE_TARGETS with
  | Some required => Err (MissingReleaseTarget required)
  | None =>
      if negb (support_matrix metadata =b "same-as-meerkat")
      then Err (InvalidSupportMatrix (support_matrix metadata)) else Ok tt
  end.

(** ** Governance *)

Definition STRICT_TRACEABILITY_STATUSES : list string :=
  ["TYPED"; "WIRED"; "VALIDATED"; "PROVISIONAL"; "MISSING"; "DEFERRED"; "STUBBED"].
Definition REQUIRED_GOVERNANCE_STATE : string := "realignment_in_progress".

Inductive GovernanceValidationError :=
| MissingGovernanceState (file : string)
| InvalidGovernanceState (file found : string)
| NoTraceabilityRows
| InvalidTraceabilityStatus (line : nat) (status : string)
| MissingTraceabilityEvidence (line : nat)
| InvalidTraceabilityRow (line : nat).

Definition validate_governance_state (file_name content : string) : Result unit GovernanceValidationError :=
  line ←? ok_or (find_first (λ line, starts_with "governance_state:" (trim_start line)) (lines content))
    (MissingGovernanceState file_name);
  let found := match split_once ":" line with Some (_, value) => trim value | None => "" end in
  if negb (found =b REQUIRED_GOVERNANCE_STATE) then Err (InvalidGovernanceState file_name found) else Ok tt.

(** [trim_start_matches(c)], [trim_end_matches(c)] and [trim_matches(c)] *)
Fixpoint trim_start_byte (c : ascii) (s : string) : string :=
  match s with String a s' => if a =b c then trim_start_byte c s' else s | "" => "" end.
Definition trim_end_byte (c : ascii) (s : string) : string := String.rev (trim_start_byte c (String.rev s)).
Definition trim_byte (c : ascii) (s : string) : string := trim_end_byte c (trim_start_byte c s).

Definition looks_like_markdown_table (content : string) : bool :=
  existsb (λ line, starts_with "|" (trim_start line)) (lines content).

Fixpoint filter_bytes (f : ascii → bool) (s : string) : string :=
  match s with "" => "" | String a s' => if f a then String a (filter_bytes f s') else filter_bytes f s' end.
Definition is_evidence_or_link_column (column : string) : bool :=
  let normalized := to_ascii_lowercase (filter_bytes (λ a, is_ascii_alphanumeric (byte_val a)) column) in
  str_contains "evidence" normalized || str_contains "link" normalized.
Definition is_missing_evidence (value : string) : bool :=
  str_is_empty value ||
  bool_decide (to_ascii_lowercase value ∈
    ["-"; "--"; "n/a"; "na"; "none"; "null"; "todo"; "tbd"; "placeholder"]).
Definition status_requires_evidence (status : string) : bool :=
  negb (bool_decide (status ∈ ["MISSING"; "DEFERRED"; "STUBBED"])).

(** The cells of a table line; [None] skips the line: no table line, or a rule of dashes. *)
Definition table_columns (line : string) : option (list string) :=
  let trimmed := trim line in
  if negb (starts_with "|" trimmed) then None else
  let columns := trim <$> split_byte "|" (trim_end_byte "|" (trim_start_byte "|" trimmed)) in
  if is_empty columns ||
     forallb (λ column, negb (str_is_empty column) &&
                str_forall (λ a, (a =b "-"%char) || (a =b ":"%char)) column) columns
  then None else Some columns.

(** The checks of one row under a header *)
Definition check_row (line header_line status_column : nat) (evidence_column : option nat) (columns : list string)
    : Result unit GovernanceValidationError :=
  match evidence_column with
  | None => Err (InvalidTraceabilityRow header_line)
  | Some evidence_column =>
      match columns !! status_column, columns !! evidence_column with
      | Some status, Some evidence =>
          let status := trim_byte "`" status in
          if negb (bool_decide (status ∈ STRICT_TRACEABILITY_STATUSES)) then Err (InvalidTraceabilityStatus line status)
          else if status_requires_evidence status && is_missing_evidence (trim (trim_byte "`" evidence))
          then Err (MissingTraceabilityEvidence line)
          else Ok tt
      | _, _ => Err (InvalidTraceabilityRow line)
      end
  end.

Record ScanState := mkScan {
  seen_rows : bool; scan_status : option nat; scan_evidence : option nat; scan_header : option nat }.
(** The loop over the lines, numbered from one *)
Fixpoint scan_lines (ls : list string) (line : nat) (st : ScanState) : Result ScanState GovernanceValidationError :=
  match ls with
  | [] => Ok st
  | l :: ls =>
      match table_columns l with
      | None => scan_lines ls (S line) st
      | Some columns =>
          match scan_status st with
          | None =>
              scan_lines ls (S line)
                (mkScan (seen_rows st) (position (λ c, eq_ignore_ascii_case c "Status") columns)
                  (position is_evidence_or_link_column columns) (Some line))
          | Some status_column =>
              _ ←? check_row line (unwrap_or (scan_header st) line) status_column (scan_evidence st) columns;
              scan_lines ls (S line) (mkScan true (scan_status st) (scan_evidence st) (scan_header st))
          end
      end
  end.
Definition validate_markdown_traceability_statuses (markdown : string) : Result unit GovernanceValidationError :=
  st ←? scan_lines (lines markdown) 1 (mkScan false None None None);
  if seen_rows st then Ok tt else Err NoTraceabilityRows.

Fixpoint check_yaml_rows (rows : list (string * list string)) (line : nat) : Result unit GovernanceValidationError :=
  match rows with
  | [] => Ok tt
  | (status, evidence) :: rest =>
      if negb (bool_decide (status ∈ STRICT_TRACEABILITY_STATUSES)) then Err (InvalidTraceabilityStatus line status)
      else if status_requires_evidence status && forallb is_missing_evidence evidence
      then Err (MissingTraceabilityEvidence line)
      else check_yaml_rows rest (S line)
  end.
Definition validate_yaml_traceability_statuses (yaml : string) : Result unit GovernanceValidationError :=
  match rows_from_yaml yaml with
  | None => Err (InvalidTraceabilityRow 1)
  | Some [] => Err NoTraceabilityRows
  | Some rows => check_yaml_rows rows 1
  end.
Definition validate_traceability_statuses (markdown : string) : Result unit GovernanceValidationError :=
  if looks_like_markdown_table markdown then validate_markdown_traceability_statuses markdown
  else validate_yaml_traceability_statuses markdown.
Definition validate_governance_contracts (spec_yaml plan_yaml checklist_yaml traceability_markdown : string)
    : Result unit GovernanceValidationError :=
  _ ←? validate_governance_state ".rct/spec.yaml" spec_yaml;
  _ ←? validate_governance_state ".rct/plan.yaml" plan_yaml;
  _ ←? validate_governance_state ".rct/checklist.yaml" checklist_yaml;
  validate_traceability_statuses traceability_markdown.

(** ** The contact directory *)

Inductive MobTransport := Inproc | Tcp (addr : string) | Uds (path : string).
Record ContactEntry := mkContact {
  ce_mob_id : string; transport : MobTransport; pubkey : option (list Z); require_signed_control : option bool }.
Inductive ContactDirectoryError :=
| ParseFailed (reason : string)
| InvalidTransport (mob_id value : string)
| InvalidPubkey (mob_id reason : string).

Definition decode_pubkey_b64 (text : string) : Result (list Z) string :=
  let trimmed := trim text in
  let body := unwrap_or (strip_prefix "ed25519:" trimmed) trimmed in
  bytes ←? map_err (λ e, "invalid pubkey base64: " +:+ e) (base64_decode body);
  if negb (length bytes =? 32)%nat
  then Err ("pubkey must be 32 bytes, got " +:+ fmt_dec (Z.of_nat (length bytes))) else Ok bytes.

Definition parse_transport (s : string) : option MobTransport :=
  if s =b "inproc" then Some Inproc
  else match strip_prefix "tcp://" s with
       | Some addr => Some (Tcp addr)
       | None => Uds <$> strip_prefix "uds://" s
       end.

Definition table_get (k : string) (m : list (string * Toml)) : option Toml := snd <$> find_first (λ p, p.1 =b k) m.
Definition parse_entry (mob_id : string) (value : Toml) : Result ContactEntry ContactDirectoryError :=
  match toml_as_str value with
  | Some s =>
      transport ←? ok_or (parse_transport s) (InvalidTransport mob_id s);
      Ok (mkContact mob_id transport None None)
  | None =>
      match toml_as_table value with
      | None => Err (InvalidTransport mob_id (fmt_toml value))
      | Some tbl =>
          transport_str ←? ok_or (v ← table_get "transport" tbl; toml_as_str v) (InvalidTransport mob_id (fmt_toml value));
          transport ←? ok_or (parse_transport transport_str) (InvalidTransport mob_id transport_str);
          pubkey ←? match (v ← table_get "pubkey" tbl; toml_as_str v) with
                    | Some s => key ←? map_err (InvalidPubkey mob_id) (decode_pubkey_b64 s); Ok (Some key)
                    | None => Ok None
                    end;
          require_signed_control ←? match table_get "require_signed_control" tbl with
            | None => Ok None
            | Some value =>
                b ←? ok_or (toml_as_bool value)
                  (InvalidTransport mob_id ("require_signed_control must be a boolean, got " +:+ fmt_toml value));
                Ok (Some b)
            end;
          Ok (mkContact mob_id transport pubkey require_signed_control)
      end
  end.

Definition ContactDirectory : Type := gmap string ContactEntry.
Fixpoint parse_entries (mobs : list (string * Toml)) (entries : ContactDirectory)
    : Result ContactDirectory ContactDirectoryError :=
  match mobs with
  | [] => Ok entries
  | (mob_id, value) :: rest => entry ←? parse_entry mob_id value; parse_entries rest (<[mob_id := entry]> entries)
  end.
Definition from_toml (text : string) : Result ContactDirectory ContactDirectoryError :=
  table ←? map_err ParseFailed (toml_from_str text);
  let mobs := unwrap_or (t ← toml_as_table table; v ← table_get "mobs" t; toml_as_table v) [] in
  parse_entries mobs ∅.
Definition directory_get (directory : ContactDirectory) (mob_id : string) : option ContactEntry := directory !! mob_id.
Definition directory_contains (directory : ContactDirectory) (mob_id : string) : bool := is_some (directory !! mob_id).
Definition directory_list (directory : ContactDirectory) : list ContactEntry := btree_values directory.

(** [rfind(::)] and the two slices around it: the last separator of the text *)
Fixpoint rsplit_pair (s : string) : option (string * string) :=
  match s with
  | "" => None
  | String a s' =>
      match rsplit_pair s' with
      | Some (l, r) => Some (String a l, r)
      | None => (λ r, ("", r)) <$> strip_prefix "::" s
      end
  end.
Definition parse_cross_mob_address (address : string) (directory : ContactDirectory) : option (string * string) :=
  '(member, mob_id) ← rsplit_pair address;
  if str_is_empty member || str_is_empty mob_id then None
  else if negb (directory_contains directory mob_id) then None
  else Some (member, mob_id).

(** ** The console *)

(** Access to the console is granted exactly when it needs no authentication, or to
    an allowlisted principal that signed in with the configured provider, or to an
    allowlisted service identity; never to the test provider. *)
Lemma console_access_exact auth console request :
  enforce_console_route_access auth console request = Ok tt ↔
  require_app_auth console = false ∨
  email request ∈ email_allowlist auth ∧
  (provider request = ServiceIdentity ∧ (∃ name, name ≠ "" ∧ email request = "svc:" +:+ name) ∨
   provider request = default_provider auth ∧ provider request ≠ ServiceIdentity ∧ provider request ≠ TestProvider).
Proof.
  unfold enforce_console_route_access. destruct (require_app_auth console); simpl; [|by split; [left|]].
  assert (negb (starts_with "svc:" (email request)) || (str_len (email request) <=? 4)%nat = false ↔
    ∃ name, name ≠ "" ∧ email request = "svc:" +:+ name) as Hsvc.
  { rewrite orb_false_iff, negb_false_iff, starts_with_spec, Nat.leb_gt. split.
    - intros [[r E] Hl]. exists r. split; [|done]. intros ->. rewrite E in Hl. simpl in Hl. lia.
    - intros (r & Hr & ->). split; [eauto|]. rewrite str_len_app. simpl. destruct r; [done|simpl; lia]. }
  case_bool_decide as E1.
  - destruct (negb _ || _) eqn:E2; [split; [done|]|].
    + intros [|[_ [[_ H%Hsvc]|(_ & H & _)]]]; congruence.
    + pose proof (proj1 Hsvc eq_refl) as Hname. case_bool_decide as E3; simpl; split; try done; [tauto|].
      intros [|[H _]]; [done|by apply E3 in H].
  - case_bool_decide as E2; simpl; [|split; [done|]; intros [|[_ [[? _]|[? _]]]]; congruence].
    case_bool_decide as E3; simpl; [split; [done|]; intros [|[_ [[? _]|(_ & _ & ?)]]]; congruence|].
    case_bool_decide as E4; simpl; split; try done; [tauto|]. intros [|[H _]]; [done|by apply E4 in H].
Qed.

(** ** The traceability table *)

(** The table lines of a document with their numbers. *)
Fixpoint table_rows (ls : list string) (line : nat) : list (nat * list string) :=
  match ls with
  | [] => []
  | l :: ls => match table_columns l with
               | Some columns => (line, columns) :: table_rows ls (S line)
               | None => table_rows ls (S line)
               end
  end.
Definition status_position (columns : list string) : option nat := position (λ c, eq_ignore_ascii_case c "Status") columns.
Definition evidence_position (columns : list string) : option nat := position is_evidence_or_link_column columns.

(** A row with a known status, and evidence where the status needs it. *)
Definition row_ok (status_column evidence_column : nat) (columns : list string) : Prop :=
  ∃ status evidence, columns !! status_column = Some status ∧ columns !! evidence_column = Some evidence ∧
    trim_byte "`" status ∈ STRICT_TRACEABILITY_STATUSES ∧
    (status_requires_evidence (trim_byte "`" status) = true → is_missing_evidence (trim (trim_byte "`" evidence)) = false).

Lemma check_row_Ok line header s e columns :
  check_row line header s e columns = Ok tt ↔ ∃ c, e = Some c ∧ row_ok s c columns.
Proof.
  unfold check_row, row_ok. destruct e as [c|]; [|split; [done|by intros (? & ? & _)]].
  assert (∀ P : nat → Prop, (∃ c', Some c = Some c' ∧ P c') ↔ P c) as -> by (intros P; split; [by intros (? & [= <-] & ?)|eauto]).
  destruct (columns !! s) as [status|] eqn:Es; [|split; [done|intros (? & ? & ? & _); congruence]].
  destruct (columns !! c) as [evidence|] eqn:E; [|split; [done|intros (? & ? & _ & ? & _); congruence]].
  case_bool_decide as Hs; simpl; [|split; [done|intros (? & ? & [= <-] & _ & ? & _); done]].
  destruct (status_requires_evidence (trim_byte "`" status)) eqn:E1, (is_missing_evidence (trim (trim_byte "`" evidence))) eqn:E2; simpl;
    (split; [intros H|]); try done; try (exists status, evidence; split_and!; [done..|congruence]).
  intros (s' & e' & [= <-] & [= <-] & _ & H). rewrite H in E2; [done|exact E1].
Qed.

(** The scan under a header *)
Lemma scan_body ls line seen s e h :
  (∃ st, scan_lines ls line (mkScan seen (Some s) e h) = Ok st ∧ seen_rows st = true) ↔
  Forall (λ r, ∃ c, e = Some c ∧ row_ok s c r.2) (table_rows ls line) ∧ (seen = true ∨ table_rows ls line ≠ []).
Proof.
  revert line seen. induction ls as [|l ls IH]; intros line seen; simpl.
  { split; [intros (st & [= <-] & H); split; [constructor|by left]|]. intros [_ [->|H]]; [eauto|done]. }
  destruct (table_columns l) as [columns|]; [|apply IH]. simpl. rewrite Forall_cons, <- (check_row_Ok line (unwrap_or h line) s e columns).
  destruct (check_row _ _ _ _ columns) as [[]|err]; simpl; [rewrite IH; naive_solver|naive_solver].
Qed.

(** The scan from the start: the first line with a status cell is the header. *)
Definition table_ok (rows : list (nat * list string)) : Prop :=
  ∃ before n header body s e, rows = before ++ (n, header) :: body ∧
    Forall (λ r, status_position r.2 = None) before ∧
    status_position header = Some s ∧ evidence_position header = Some e ∧
    body ≠ [] ∧ Forall (λ r, row_ok s e r.2) body.

Lemma table_ok_skip n columns rows :
  status_position columns = None → table_ok ((n, columns) :: rows) ↔ table_ok rows.
Proof.
  intros Hn. split.
  - intros (before & n' & header & body & s & e & E & Hb & Hs & Hrest). destruct before as [|r before]; simplify_eq/=.
    apply Forall_cons in Hb as [_ Hb]. by exists before, n', header, body, s, e.
  - intros (before & n' & header & body & s & e & -> & Hb & Hrest). exists ((n, columns) :: before), n', header, body, s, e.
    split; [done|]. split; [by constructor|done].
Qed.
Lemma table_ok_header n columns rows s :
  status_position columns = Some s →
  table_ok ((n, columns) :: rows) ↔
  Forall (λ r, ∃ c, evidence_position columns = Some c ∧ row_ok s c r.2) rows ∧ rows ≠ [].
Proof.
  intros Hs. split.
  - intros (before & n' & header & body & s' & e & E & Hb & Hs' & He & Hne & Hbody). destruct before as [|r before]; simplify_eq/=.
    + split; [|done]. eapply Forall_impl; [exact Hbody|]. intros r Hr. exists e. by simplify_eq.
    + apply Forall_cons in Hb as [Hb _]. simpl in Hb. congruence.
  - intros [Hall Hne]. destruct rows as [|r rows]; [done|]. pose proof Hall as [(c & Hc & _) _]%Forall_cons.
    exists [], n, columns, (r :: rows), s, c. split_and!; try done. eapply Forall_impl; [exact Hall|].
    intros r' (c' & Hc' & Hr'). by simplify_eq.
Qed.

Lemma scan_start ls line h e :
  (∃ st, scan_lines ls line (mkScan false None e h) = Ok st ∧ seen_rows st = true) ↔ table_ok (table_rows ls line).
Proof.
  revert line h e. induction ls as [|l ls IH]; intros line h e; simpl.
  { split; [by intros (st & [= <-] & ?)|]. intros (before & ? & ? & ? & ? & ? & E & _). by destruct before. }
  destruct (table_columns l) as [columns|]; [|apply IH]. simpl.
  fold (status_position columns). fold (evidence_position columns).
  destruct (status_position columns) as [s|] eqn:Es.
  - rewrite scan_body, (table_ok_header _ _ _ _ Es). naive_solver.
  - rewrite IH. by rewrite table_ok_skip.
Qed.

(** The one-pass scan of a traceability document accepts it exactly when it has a
    table whose first line with a status cell also names an evidence or link
    column, and below it at least one row, and every row has a known status and,
    unless its status is one of the open ones, real evidence; the lines that are no
    table lines and the rules between rows do not matter. *)
Theorem traceability_scan_exact markdown :
  validate_markdown_traceability_statuses markdown = Ok tt ↔ table_ok (table_rows (lines markdown) 1).
Proof.
  rewrite <- (scan_start (lines markdown) 1 None None). unfold validate_markdown_traceability_statuses.
  destruct (scan_lines _ _ _) as [st|err]; simpl; [|split; [done|by intros (? & ? & _)]].
  destruct (seen_rows st) eqn:E; (split; [by eauto|]); intros (st' & [= <-] & H); congruence.
Qed.

(** ** Cross-mob addresses *)

Lemma rsplit_pair_None s : rsplit_pair s = None ↔ str_contains "::" s = false.
Proof.
  induction s as [|a s IH]; [done|]. cbn [rsplit_pair str_contains]. unfold starts_with. rewrite orb_false_iff, <- IH.
  destruct (rsplit_pair s) as [[l r]|]; [split; [done|by intros [_ ?]]|].
  destruct (strip_prefix "::" (String a s)); simpl; split; try done. by intros [? _].
Qed.
(** The last separator: what follows it has none, not even one that overlaps it. *)
Lemma rsplit_pair_Some s l r :
  rsplit_pair s = Some (l, r) ↔ s = l +:+ "::" +:+ r ∧ str_contains "::" (":" +:+ r) = false.
Proof.
  revert l. induction s as [|a s IH]; intros l.
  { split; [done|]. by intros [E _]; destruct l. }
  cbn [rsplit_pair]. destruct (rsplit_pair s) as [[l' r']|] eqn:Es.
  - split.
    + intros [= <- <-]. destruct (proj1 (IH l') eq_refl) as [-> Hr]. by rewrite !str_app_cons.
    + intros [E Hr]. destruct l as [|b l].
      * simpl in E. injection E as -> E. exfalso.
        apply not_true_iff_false in Hr. apply Hr. rewrite <- E. apply not_false_iff_true. intros H%rsplit_pair_None. congruence.
      * rewrite str_app_cons in E. injection E as -> E. pose proof (proj2 (IH l) (conj E Hr)). by simplify_eq.
  - split.
    + intros (r0 & Hp & [= -> ->])%fmap_Some. apply strip_prefix_Some in Hp. split; [done|].
      apply rsplit_pair_None. simpl in Hp. injection Hp as -> ->. exact Es.
    + intros [E Hr]. destruct l as [|b l]; [change (String a s = "::" +:+ r) in E; by rewrite E, strip_prefix_app|].
      rewrite str_app_cons in E. injection E as -> E. by pose proof (proj2 (IH l) (conj E Hr)).
Qed.

(** An address is read as a member of another mob exactly when it is a member,
    the separator and the id of a mob of the directory, and the separator is its
    last; in particular every such pair whose mob id has no separator of its own is
    read back from its address, whatever the member's name contains. *)
Theorem cross_mob_address_exact address directory member mob_id :
  parse_cross_mob_address address directory = Some (member, mob_id) ↔
  address = member +:+ "::" +:+ mob_id ∧ str_contains "::" (":" +:+ mob_id) = false ∧
  member ≠ "" ∧ mob_id ≠ "" ∧ is_Some (directory_get directory mob_id).
Proof.
  unfold parse_cross_mob_address, directory_contains, directory_get. split.
  - intros ([m i] & [E Hsep]%rsplit_pair_Some & H)%bind_Some.
    destruct (str_is_empty m) eqn:E1, (str_is_empty i) eqn:E2; simplify_eq/=. apply str_is_empty_false in E1, E2.
    destruct (directory !! i) eqn:Ed; simplify_eq/=. split_and!; eauto.
  - intros (-> & Hsep & Hm & Hi & e & Hd).
    rewrite (proj2 (rsplit_pair_Some (member +:+ "::" +:+ mob_id) member mob_id)) by done. cbn [mbind option_bind].
    apply str_is_empty_false in Hm, Hi. by rewrite Hm, Hi, Hd.
Qed.

(** Every entry of a directory carries the id it is filed under, and a key of 32 bytes if any. *)
Lemma parse_entry_ok mob_id value entry :
  parse_entry mob_id value = Ok entry → ce_mob_id entry = mob_id ∧ ∀ k, pubkey entry = Some k → length k = 32%nat.
Proof.
  unfold parse_entry. destruct (toml_as_str value) as [s|].
  { by intros (t & _ & [= <-])%and_then_Ok. }
  destruct (toml_as_table value) as [tbl|]; [|done].
  intros (ts & _ & (t & _ & (k & Hk & (r & _ & [= <-])%and_then_Ok)%and_then_Ok)%and_then_Ok)%and_then_Ok. split; [done|].
  simpl. intros k' ->. destruct (table_get "pubkey" tbl ≫= toml_as_str) as [s|]; [|done].
  apply and_then_Ok in Hk as (key & Hkey & [= ->]). destruct (decode_pubkey_b64 s) as [b|] eqn:E; simplify_eq/=.
  unfold decode_pubkey_b64 in E. apply and_then_Ok in E as (bytes & _ & E).
  destruct (Nat.eqb_spec (length bytes) 32); simpl in E; congruence.
Qed.
Definition entry_filed (mob_id : string) (entry : ContactEntry) : Prop :=
  ce_mob_id entry = mob_id ∧ ∀ k, pubkey entry = Some k → length k = 32%nat.
Lemma parse_entries_ok mobs (directory directory' : ContactDirectory) :
  map_Forall entry_filed directory → parse_entries mobs directory = Ok directory' → map_Forall entry_filed directory'.
Proof.
  revert directory. induction mobs as [|[i v] mobs IH]; intros directory Hm; simpl; [by intros [= <-]|].
  intros (entry & Hentry & Hrest)%and_then_Ok. eapply IH; [|exact Hrest].
  apply map_Forall_insert_2; [by apply parse_entry_ok in Hentry|done].
Qed.
Lemma from_toml_ok text directory : from_toml text = Ok directory → map_Forall entry_filed directory.
Proof. unfold from_toml. intros (tbl & _ & H)%and_then_Ok. eapply parse_entries_ok; [apply map_Forall_empty|exact H]. Qed.
End decisions.

(** ** Runs *)
Module PolicyExamples.

(** A TOML value is a text, a number or a table; documents are written out here. *)
Inductive TomlValue := TStr (s : string) | TInt (n : Z) | TTable (m : list (string * TomlValue)).
#[local] Instance documents : DocumentParsers := {|
  Toml := TomlValue;
  toml_from_str := λ text,
    if text =b "contacts" then
      Ok (TTable [("mobs", TTable [("hub", TTable [("transport", TStr "tcp://10.0.0.2:9002"); ("pubkey", TInt 42)]);
                                   ("workspace", TStr "inproc")])])
    else Err "unknown document";
  toml_as_str := λ v, match v with TStr s => Some s | _ => None end;
  toml_as_bool := λ _, None;
  toml_as_table := λ v, match v with TTable m => Some m | _ => None end;
  fmt_toml := λ _, "value";
  manifest_from_toml := λ _, Ok []; release_from_json := λ _, Ok ([], "");
  rows_from_yaml := λ _, None; base64_decode := λ _, Ok [] |}.

(** A [pubkey] that is present and no text is dropped: the contact is taken without a key. *)
Example numeric_pubkey_is_ignored :
  match from_toml "contacts" with
  | Ok directory => directory_get directory "hub" = Some (mkContact "hub" (Tcp "10.0.0.2:9002") None None)
  | Err _ => False
  end.
Proof. by vm_compute. Qed.

Definition newline : string := String "010" "".
Definition traceability : string :=
  "# Trace" +:+ newline +:+ "| Id | Status | Evidence / link |" +:+ newline +:+ "|----|:---|---|" +:+ newline +:+
  "| R1 | `WIRED` | tests/a.rs |" +:+ newline +:+ "| R2 | DEFERRED | - |" +:+ newline.
Example traceability_runs :
  validate_traceability_statuses traceability = Ok tt ∧
  validate_traceability_statuses (traceability +:+ "| R3 | TYPED | TBD |") = Err (MissingTraceabilityEvidence 6) ∧
  validate_traceability_statuses (traceability +:+ "| R3 | done | x |") = Err (InvalidTraceabilityStatus 6 "done").
Proof. by vm_compute. Qed.

Example addresses_run :
  match from_toml "contacts" with
  | Ok directory =>
      parse_cross_mob_address "a::b::hub" directory = Some ("a::b", "hub") ∧
      parse_cross_mob_address "personal:user@example.com" directory = None ∧
      parse_cross_mob_address "cal::nowhere" directory = None
  | Err _ => False
  end.
Proof. by vm_compute. Qed.
End PolicyExamples.
