(* ===== verification/Composition.v ===== *)
(** * Composition provenance of a mob ([mob_composition_manifest.rs])

    What composition a mob storage was created for, and the checks before a resume:
    the manifest beside the storage, the comparison of the recorded with the supplied
    definition down to the fields that differ, and the refusals.  Definitions are
    Meerkat's and are compared through their serialised form; the file system and
    serde are the operations of [ManifestEnv]. *)

From S2P Require Import Prelude Strings Json.
Open Scope Z_scope.

Definition MANIFEST_VERSION : Z := 1.
Definition MANIFEST_FILE_SUFFIX : string := ".composition.json".
Definition CARGO_PKG_VERSION : string := "0.9.2".

Inductive CompositionAuthority := Authoritative | NonAuthoritative.
Inductive CandidateDefinition := RequireMatch | Stored.

(** A path is its last component, when that is a file name, and what precedes it
    ([/] and [..] have no file name and are all base). *)
Record Path := mkPath { p_base : string; p_file_name : option string }.
#[global] Instance path_eq_dec : EqDecision Path.
Proof. solve_decision. Defined.
Definition with_file_name (path : Path) (name : string) : Path := mkPath (p_base path) (Some name).
Definition manifest_path (mob_storage_path : Path) : Path :=
  with_file_name mob_storage_path (unwrap_or (p_file_name mob_storage_path) "mob" +:+ MANIFEST_FILE_SUFFIX).

Inductive MobCompositionProvenanceError :=
| Missing (manifest storage : Path)
| Unreadable (manifest : Path) (message : string)
| Malformed (manifest : Path) (message : string)
| UnsupportedVersion (manifest : Path) (found supported : Z)
| Divergent (manifest : Path) (fields : list string)
| NotRecorded (manifest : Path) (message : string)
| CreatedByRehearsal (manifest storage : Path)
| CandidateDivergent (fields : list string)
| UnprovenStorage.

Inductive CompositionProvenanceRefusalKind :=
| KMissing | KUnreadable | KMalformed | KUnsupportedVersion | KDivergent | KNotRecorded
| KCreatedByRehearsal | KCandidateDivergent | KUnprovenStorage.
Record CompositionProvenanceRefusal := mkRefusal {
  ref_kind : CompositionProvenanceRefusalKind; ref_fields : list string; ref_manifest : option Path;
  ref_storage : option Path; ref_found_version : option Z; ref_supported_version : option Z }.
Definition refusal_of (kind : CompositionProvenanceRefusalKind) : CompositionProvenanceRefusal :=
  mkRefusal kind [] None None None None.
Definition refusal_kind (e : MobCompositionProvenanceError) : CompositionProvenanceRefusalKind :=
  match e with
  | Missing _ _ => KMissing | Unreadable _ _ => KUnreadable | Malformed _ _ => KMalformed
  | UnsupportedVersion _ _ _ => KUnsupportedVersion | Divergent _ _ => KDivergent
  | NotRecorded _ _ => KNotRecorded | CreatedByRehearsal _ _ => KCreatedByRehearsal
  | CandidateDivergent _ => KCandidateDivergent | UnprovenStorage => KUnprovenStorage
  end.
Definition refusal (e : MobCompositionProvenanceError) : CompositionProvenanceRefusal :=
  match e with
  | Missing manifest storage | CreatedByRehearsal manifest storage =>
      mkRefusal (refusal_kind e) [] (Some manifest) (Some storage) None None
  | Unreadable manifest _ | Malformed manifest _ | NotRecorded manifest _ =>
      mkRefusal (refusal_kind e) [] (Some manifest) None None None
  | UnsupportedVersion manifest found supported =>
      mkRefusal (refusal_kind e) [] (Some manifest) None (Some found) (Some supported)
  | Divergent manifest fields => mkRefusal (refusal_kind e) fields (Some manifest) None None None
  | CandidateDivergent fields => mkRefusal (refusal_kind e) fields None None None None
  | UnprovenStorage => refusal_of (refusal_kind e)
  end.

Definition speaks_for_composition (authority : CompositionAuthority) : bool :=
  match authority with Authoritative => true | NonAuthoritative => false end.

(** ** Comparing two serialised definitions *)

Definition WHOLE_DEFINITION : string := "<whole definition>".
Definition child_path (prefix key : string) : string :=
  if str_is_empty prefix then key else prefix +:+ "." +:+ key.
(** [keys().chain(keys())], sorted and without repetition *)
Definition merged_keys (m n : list (string * Value)) : list string :=
  bset_elements (list_to_set (m.*1 ++ n.*1)).

(** How deep objects are nested: the fuel of the walk. *)
Fixpoint depth (v : Value) : nat :=
  match v with
  | VObject m => S (list_max ((λ p, depth p.2) <$> m))
  | _ => 1
  end.

Fixpoint collect_diverged_paths (fuel : nat) (prefix : string) (recorded supplied : Value) : list string :=
  match fuel with
  | O => []
  | S fuel =>
      if recorded =b supplied then []
      else match as_object recorded, as_object supplied with
      | Some recorded_map, Some supplied_map =>
          concat ((λ key,
            let recorded_child := member key recorded_map in
            let supplied_child := member key supplied_map in
            if recorded_child =b supplied_child then []
            else let path := child_path prefix key in
                 match recorded_child, supplied_child with
                 | Some recorded_value, Some supplied_value => collect_diverged_paths fuel path recorded_value supplied_value
                 | _, _ => [path]
                 end) <$> merged_keys recorded_map supplied_map)
      | _, _ => [if str_is_empty prefix then WHOLE_DEFINITION else prefix]
      end
  end.

(** ** The walk, characterised *)

(** The value at a list of keys. *)
Fixpoint at_keys (v : Value) (ks : list string) : option Value :=
  match ks with
  | [] => Some v
  | k :: ks => m ← as_object v; child ← member k m; at_keys child ks
  end.
Definition both_objects (r s : option Value) : Prop :=
  ∃ m n, r = Some (VObject m) ∧ s = Some (VObject n).
(** The keys of a place where two values first differ: everything above it is an
    object on both sides, and it is not. *)
Definition first_difference (r s : Value) (ks : list string) : Prop :=
  at_keys r ks ≠ at_keys s ks ∧ ¬ both_objects (at_keys r ks) (at_keys s ks) ∧
  ∀ before k after, ks = before ++ k :: after → both_objects (at_keys r before) (at_keys s before).

(** How a place is written: its keys with dots between them; the text of a place
    present on both sides that has no name is the whole definition. *)
Definition dotted (prefix : string) (ks : list string) : string := foldl child_path prefix ks.
Definition place_text (prefix : string) (r s : Value) (ks : list string) : string :=
  let path := dotted prefix ks in
  match at_keys r ks, at_keys s ks with
  | Some _, Some _ => if str_is_empty path then WHOLE_DEFINITION else path
  | _, _ => path
  end.

Lemma member_In k m v : member k m = Some v → (k, v) ∈ m.
Proof.
  unfold member. intros ([k' v'] & Hf & [= ->])%fmap_Some. apply find_first_Some in Hf as [Hin Hk].
  apply bool_decide_eq_true in Hk. simpl in Hk. by subst k'.
Qed.
Lemma depth_member k m v : member k m = Some v → (depth v < depth (VObject m))%nat.
Proof.
  intros Hin%member_In. simpl. apply Nat.lt_succ_r.
  pose proof (proj1 (list_max_le ((λ p, depth p.2) <$> m) _) (le_n _)) as Hall. rewrite Forall_fmap, Forall_forall in Hall.
  exact (Hall _ Hin).
Qed.
Lemma depth_positive v : (0 < depth v)%nat.
Proof. destruct v; simpl; lia. Qed.

Lemma merged_keys_differ k m n : member k m ≠ member k n → k ∈ merged_keys m n.
Proof.
  intros Hne. unfold merged_keys. rewrite elem_of_bset_elements, elem_of_list_to_set, elem_of_app, !list_elem_of_fmap.
  destruct (member k m) as [v|] eqn:Em; [left; by exists (k, v); split; [|apply member_In]|].
  destruct (member k n) as [v|] eqn:En; [right; by exists (k, v); split; [|apply member_In]|done].
Qed.

(** A first difference of two objects is one of a pair of their members. *)
Lemma first_difference_nil r s :
  first_difference r s [] ↔ r ≠ s ∧ ¬ both_objects (Some r) (Some s).
Proof.
  unfold first_difference. simpl. split; [intros (H1 & H2 & _); split; [congruence|done]|].
  intros [H1 H2]. split_and!; [congruence|done|]. intros before k after E. by destruct before.
Qed.
Lemma first_difference_cons m n k ks :
  first_difference (VObject m) (VObject n) (k :: ks) ↔
  member k m ≠ member k n ∧
  match member k m, member k n with
  | Some r, Some s => first_difference r s ks
  | _, _ => ks = []
  end.
Proof.
  assert (∀ l before, at_keys (VObject l) (k :: before) = member k l ≫= λ v, at_keys v before) as Hat by done.
  unfold first_difference. rewrite !Hat. split.
  - intros (H1 & H2 & H3). assert (member k m ≠ member k n) as Hne by congruence. split; [done|].
    destruct (member k m) as [r|] eqn:Em, (member k n) as [s|] eqn:En; simpl in H1, H2.
    + split_and!; [done..|]. intros before k' after ->. specialize (H3 (k :: before) k' after eq_refl).
      by rewrite !Hat, Em, En in H3.
    + destruct ks as [|k' ks]; [done|]. specialize (H3 [k] k' ks eq_refl). rewrite !Hat, Em, En in H3.
      by destruct H3 as (? & ? & _ & ?).
    + destruct ks as [|k' ks]; [done|]. specialize (H3 [k] k' ks eq_refl). rewrite !Hat, Em, En in H3.
      by destruct H3 as (? & ? & ? & _).
    + done.
  - intros [Hne H]. destruct (member k m) as [r|] eqn:Em, (member k n) as [s|] eqn:En; simpl.
    + destruct H as (H1 & H2 & H3). split_and!; [done..|]. intros [|k' before] k0 after [= -> ->]; [by exists m, n|].
      rewrite !Hat, Em, En. simpl. by eapply H3.
    + subst ks. split_and!; [done|by intros (? & ? & _ & ?)|]. intros [|? [|]] k0 after [=]; by exists m, n.
    + subst ks. split_and!; [done|by intros (? & ? & ? & _)|]. intros [|? [|]] k0 after [=]; by exists m, n.
    + done.
Qed.
Lemma first_difference_leaf r s k ks : ¬ both_objects (Some r) (Some s) → ¬ first_difference r s (k :: ks).
Proof. intros Hn (_ & _ & H). by apply Hn, (H [] k ks). Qed.

Lemma both_objects_as_object r s :
  both_objects (Some r) (Some s) ↔ ∃ m n, as_object r = Some m ∧ as_object s = Some n.
Proof.
  unfold both_objects. split; intros (m & n & H1 & H2); exists m, n; [by simplify_eq|].
  destruct r, s; simplify_eq/=; done.
Qed.

Lemma elem_of_concat_map {A B} (f : A → list B) l x : x ∈ concat (f <$> l) ↔ ∃ k, k ∈ l ∧ x ∈ f k.
Proof.
  rewrite list_elem_of_In, in_concat. setoid_rewrite <- list_elem_of_In. setoid_rewrite list_elem_of_fmap. split.
  - intros (? & (k & -> & Hk) & Hx). eauto.
  - intros (k & Hk & Hx). eauto.
Qed.

(** The walk reports exactly the places where the values first differ. *)
Lemma collect_spec fuel prefix r s p :
  (depth r ≤ fuel)%nat →
  p ∈ collect_diverged_paths fuel prefix r s ↔ ∃ ks, first_difference r s ks ∧ p = place_text prefix r s ks.
Proof.
  revert prefix r s. induction fuel as [|fuel IH]; intros prefix r s Hd; [pose proof (depth_positive r); lia|].
  cbn [collect_diverged_paths]. case_bool_decide as Heq.
  { subst s. rewrite elem_of_nil. split; [done|]. by intros (ks & [Hne _] & _). }
  destruct (decide (is_Some (as_object r) ∧ is_Some (as_object s))) as [[[m Hm] [n Hn]]|Hno].
  - rewrite Hm, Hn. destruct r, s; simplify_eq/=. rewrite elem_of_concat_map. split.
    + intros (k & Hk & Hp). case_bool_decide as Hne; [by apply elem_of_nil in Hp|].
      destruct (member k m) as [r|] eqn:Em, (member k n) as [s|] eqn:En; try done.
      * apply IH in Hp as (ks & Hks & ->); [|apply depth_member in Em; simpl in *; lia].
        exists (k :: ks). rewrite first_difference_cons, Em, En. split; [done|]. unfold place_text. simpl. by rewrite Em, En.
      * apply list_elem_of_singleton in Hp as ->. exists [k]. rewrite first_difference_cons, Em, En. split; [done|].
        unfold place_text. simpl. by rewrite Em, En.
      * apply list_elem_of_singleton in Hp as ->. exists [k]. rewrite first_difference_cons, Em, En. split; [done|].
        unfold place_text. simpl. by rewrite Em, En.
    + intros ([|k ks] & Hks & Hp).
      { apply first_difference_nil in Hks as [_ []]. by eexists _, _. }
      apply first_difference_cons in Hks as [Hne Hks]. exists k. split; [by apply merged_keys_differ|].
      rewrite bool_decide_false by done. unfold place_text in Hp. simpl in Hp.
      destruct (member k m) as [r|] eqn:Em, (member k n) as [s|] eqn:En; simpl in Hp.
      * apply IH; [apply depth_member in Em; simpl in *; lia|]. by exists ks.
      * subst ks. simpl in Hp. by apply list_elem_of_singleton.
      * subst ks. simpl in Hp. by apply list_elem_of_singleton.
      * done.
  - assert (¬ both_objects (Some r) (Some s)) as Hb.
    { rewrite both_objects_as_object. intros (m & n & Hm & Hn). apply Hno. eauto. }
    destruct (as_object r) as [m|] eqn:Em, (as_object s) as [n|] eqn:En; [exfalso; eauto|..];
      (rewrite list_elem_of_singleton; split;
       [intros ->; exists []; rewrite first_difference_nil; done
       |intros ([|k ks] & Hks & ->); [done|by apply first_difference_leaf in Hks]]).
Qed.

(** ** Two values that differ have a first difference

    [serde_json] keeps the members of an object under distinct keys, here in key
    order; arrays are compared whole. *)
Inductive keys_ordered : Value → Prop :=
| ordered_leaf v : as_object v = None → keys_ordered v
| ordered_object m :
    StronglySorted member_le m → NoDup m.*1 → (∀ k v, member k m = Some v → keys_ordered v) →
    keys_ordered (VObject m).

Lemma member_complete k v m : NoDup m.*1 → (k, v) ∈ m → member k m = Some v.
Proof.
  intros Hnd Hin. unfold member. destruct (find_first _ m) as [[k' v']|] eqn:Hf.
  - apply find_first_Some in Hf as [Hin' Hk]. apply bool_decide_eq_true in Hk. simpl in *. subst k'. f_equal.
    pose proof (elem_of_list_to_map_1 (M := gmap string) m k v Hnd Hin).
    pose proof (elem_of_list_to_map_1 (M := gmap string) m k v' Hnd Hin'). congruence.
  - exfalso. pose proof (proj1 (find_first_None _ _) Hf _ Hin) as Hk. by apply bool_decide_eq_false in Hk.
Qed.

Lemma ordered_members_equal m n :
  StronglySorted member_le m → NoDup m.*1 → StronglySorted member_le n → NoDup n.*1 →
  (∀ k, member k m = member k n) → m = n.
Proof.
  intros Sm Nm Sn Nn Heq.
  assert (∀ l l', NoDup l'.*1 → (∀ k, member k l = member k l') → NoDup l.*1 → ∀ p, p ∈ l → p ∈ l') as Hsub.
  { intros l l' N' E N [k v] Hin. apply member_In. rewrite <-E. by apply member_complete. }
  apply (StronglySorted_unique_strong member_le).
  - intros [k v] [k' w] Hm Hn H1 H2. assert (k = k') as <- by (by apply (anti_symm String.le)). f_equal.
    apply member_complete in Hm; [|done]. apply member_complete in Hn; [|done]. congruence.
  - done.
  - done.
  - apply NoDup_Permutation; [by eapply NoDup_fmap_1..|]. intros p. split; apply Hsub; done.
Qed.

Lemma differing_key m n :
  StronglySorted member_le m → NoDup m.*1 → StronglySorted member_le n → NoDup n.*1 →
  m ≠ n → ∃ k, member k m ≠ member k n.
Proof.
  intros Sm Nm Sn Nn Hne.
  destruct (decide (Exists (λ k, member k m ≠ member k n) (merged_keys m n))) as [(k & _ & H)%Exists_exists|H]; [eauto|].
  exfalso. apply Hne, ordered_members_equal; [done..|]. intros k.
  destruct (decide (member k m = member k n)) as [|Hk]; [done|]. exfalso. apply H, Exists_exists. exists k.
  split; [by apply merged_keys_differ|done].
Qed.

Lemma first_difference_exists r s :
  keys_ordered r → keys_ordered s → r ≠ s → ∃ ks, first_difference r s ks.
Proof.
  intros Hr. revert s. induction Hr as [r Hr|m Sm Nm Hm IH]; intros s Hs Hne.
  { exists []. rewrite first_difference_nil, both_objects_as_object. split; [done|]. intros (? & ? & ? & _). congruence. }
  destruct Hs as [s Hs|n Sn Nn Hn].
  { exists []. rewrite first_difference_nil, both_objects_as_object. split; [done|]. intros (? & ? & _ & ?). congruence. }
  destruct (differing_key m n) as [k Hk]; [done..|congruence|].
  destruct (member k m) as [r|] eqn:Em, (member k n) as [s|] eqn:En; [|exists [k]; by rewrite first_difference_cons, Em, En..].
  destruct (IH k r Em s) as [ks Hks]; [by eapply Hn|congruence|]. exists (k :: ks). by rewrite first_difference_cons, Em, En.
Qed.

(** ** Definitions and their normalisation

    What the code reads of Meerkat's [MobDefinition]: the inline profiles with the
    fields the normalisation reads and writes, and the models.  The remaining fields
    are carried along. *)
Class DefinitionEnv := {
  Provider : Type;
  provider_eq_dec :: EqDecision Provider;
  SelfHosted : Provider;
  OtherProvider : Provider;
  ResumeOverrideField : Type;
  field_eq_dec :: EqDecision ResumeOverrideField;
  FModel : ResumeOverrideField;
  FProvider : ResumeOverrideField;
  FProviderParams : ResumeOverrideField;
  (** distinct variants of one enum *)
  params_is_not_model : FProviderParams ≠ FModel;
  params_is_not_provider : FProviderParams ≠ FProvider;
  ProviderParams : Type;
  params_eq_dec :: EqDecision ProviderParams;
  (** every field of a definition, profile, binding or model entry the code leaves alone *)
  Rest : Type;
  rest_eq_dec :: EqDecision Rest;
  (** the provider Meerkat's model catalog names for a model *)
  infer_provider : string → option Provider;
}.

Section definitions.
Context `{E : DefinitionEnv}.

Record Profile := mkProfile {
  model : string; provider : option Provider; self_hosted_server_id : option string;
  provider_params : option ProviderParams; resume_overrides : list ResumeOverrideField; profile_rest : Rest }.
Inductive ProfileBinding := InlineProfile (profile : Profile) | RealmRef (reference : Rest).
Record MobDefinition := mkDefinition {
  profiles : list (string * ProfileBinding); models : list (string * (Provider * Rest)); definition_rest : Rest }.
#[global] Instance profile_eq_dec : EqDecision Profile.
Proof. solve_decision. Defined.
#[global] Instance binding_eq_dec : EqDecision ProfileBinding.
Proof. solve_decision. Defined.
#[global] Instance definition_eq_dec : EqDecision MobDefinition.
Proof. solve_decision. Defined.

Definition model_provider (ms : list (string * (Provider * Rest))) (name : string) : option Provider :=
  (λ e : string * (Provider * Rest), e.2.1) <$> find_first (λ e, e.1 =b name) ms.
Definition or_else {A} (o p : option A) : option A := match o with Some a => Some a | None => p end.
Definition coherent_provider (ms : list (string * (Provider * Rest))) (p : Profile) : option Provider :=
  or_else (provider p)
    (or_else ((λ _, SelfHosted) <$> self_hosted_server_id p)
       (provider ← or_else (infer_provider (model p)) (model_provider ms (model p));
        if (provider =b SelfHosted) || (provider =b OtherProvider) then None else Some provider)).
(** [if !contains(&field) { push(field) }] over the declared fields *)
Definition push_missing (fields declared : list ResumeOverrideField) : list ResumeOverrideField :=
  foldl (λ fs f, if bool_decide (f ∈ fs) then fs else fs ++ [f]) fields declared.

(** The fields a profile declares; [pair] is the provider the model and provider are
    written as, when they are. *)
Definition mark_profile (pair : option Provider) (p : Profile) : Profile :=
  let declared :=
    match pair with Some _ => [FModel; FProvider] | None => [] end ++
    match provider_params p with Some _ => [FProviderParams] | None => [] end in
  mkProfile (model p) (match pair with Some provider => Some provider | None => provider p end)
    (self_hosted_server_id p) (provider_params p) (push_missing (resume_overrides p) declared) (profile_rest p).
Definition explicit_llm_identity_override (p : Profile) : bool :=
  existsb (λ field, (field =b FModel) || (field =b FProvider)) (resume_overrides p).

Definition map_inline (f : Profile → Profile) (b : ProfileBinding) : ProfileBinding :=
  match b with InlineProfile p => InlineProfile (f p) | RealmRef r => RealmRef r end.
Definition map_profiles (f : Profile → Profile) (d : MobDefinition) : MobDefinition :=
  mkDefinition (prod_map id (map_inline f) <$> profiles d) (models d) (definition_rest d).

Definition auto_mark_declared_resume_overrides (d : MobDefinition) : MobDefinition :=
  map_profiles (λ p,
    mark_profile (if explicit_llm_identity_override p then coherent_provider (models d) p else None) p) d.
Definition legacy_auto_mark_declared_resume_overrides (d : MobDefinition) : MobDefinition :=
  map_profiles (λ p, mark_profile (coherent_provider (models d) p) p) d.

(** Normalising twice is normalising once. *)
Lemma push_missing_noop fields declared : Forall (.∈ fields) declared → push_missing fields declared = fields.
Proof.
  unfold push_missing. induction declared as [|f declared IH]; simpl; [done|]. intros [Hf Hall]%Forall_cons.
  rewrite bool_decide_true by done. auto.
Qed.
Lemma elem_of_push_missing f fields declared : f ∈ push_missing fields declared ↔ f ∈ fields ∨ f ∈ declared.
Proof.
  unfold push_missing. revert fields. induction declared as [|g declared IH]; intros fields; simpl; [set_solver|].
  rewrite IH. case_bool_decide; set_solver.
Qed.
Lemma mark_profile_again pair p : mark_profile pair (mark_profile pair p) = mark_profile pair p.
Proof.
  unfold mark_profile. simpl. f_equal; [by destruct pair|]. apply push_missing_noop, Forall_forall. intros f Hf.
  rewrite elem_of_push_missing. by right.
Qed.
Lemma explicit_override_spec p :
  explicit_llm_identity_override p = true ↔ FModel ∈ resume_overrides p ∨ FProvider ∈ resume_overrides p.
Proof.
  unfold explicit_llm_identity_override. rewrite existsb_exists. setoid_rewrite orb_true_iff.
  setoid_rewrite bool_decide_eq_true. setoid_rewrite <- list_elem_of_In. split.
  - intros (f & Hf & [->| ->]); auto.
  - intros [Hf|Hf]; eauto.
Qed.
Lemma explicit_after_mark p pair :
  explicit_llm_identity_override (mark_profile pair p) =
  explicit_llm_identity_override p || match pair with Some _ => true | None => false end.
Proof.
  apply Bool.eq_iff_eq_true. rewrite orb_true_iff, !explicit_override_spec. unfold mark_profile. simpl.
  rewrite !elem_of_push_missing, !elem_of_app.
  pose proof params_is_not_model. pose proof params_is_not_provider.
  destruct pair, (provider_params p); set_solver.
Qed.
Lemma coherent_after_mark ms p pair :
  pair = None ∨ pair = coherent_provider ms p → coherent_provider ms (mark_profile pair p) = coherent_provider ms p.
Proof.
  intros [->| ->]; [done|]. destruct (coherent_provider ms p) as [q|] eqn:Hq; [done|]. exact Hq.
Qed.

Definition mark_pair ms (p : Profile) : option Provider :=
  if explicit_llm_identity_override p then coherent_provider ms p else None.
Lemma mark_pair_again ms p : mark_pair ms (mark_profile (mark_pair ms p) p) = mark_pair ms p.
Proof.
  unfold mark_pair. rewrite explicit_after_mark. destruct (explicit_llm_identity_override p) eqn:He; [|by rewrite ?orb_false_r].
  apply coherent_after_mark. by right.
Qed.

Lemma map_profiles_again f g d :
  (∀ p, g (f p) = f p) → map_profiles g (map_profiles f d) = map_profiles f d.
Proof.
  intros H. unfold map_profiles. simpl. f_equal. rewrite <-list_fmap_compose. apply list_fmap_ext.
  intros _ [k [p|r]] _; simpl; by rewrite ?H.
Qed.
Lemma auto_mark_idempotent d :
  auto_mark_declared_resume_overrides (auto_mark_declared_resume_overrides d) = auto_mark_declared_resume_overrides d.
Proof.
  apply map_profiles_again. intros p. fold (mark_pair (models d) p). simpl.
  change (mark_profile (mark_pair (models d) (mark_profile (mark_pair (models d) p) p)) (mark_profile (mark_pair (models d) p) p) =
          mark_profile (mark_pair (models d) p) p).
  rewrite mark_pair_again. apply mark_profile_again.
Qed.
End definitions.
