(* ===== verification/CompositionLaunch.v ===== *)
(** * Creating and resuming a mob storage

    The composition manifest beside a storage ([mob_composition_manifest.rs]) and the
    selection between creating and resuming ([mob_handle_runtime.rs], in
    [MobRuntime::prepare]), over any sequence of launches against one persistent storage:
    authoritative and candidate ones, ones that fail half way, with file faults and
    definition updates in between. *)

From S2P Require Import Prelude Strings Json Composition.
Open Scope Z_scope.

(** ** The manifest *)

Section manifest.
Context `{E : DefinitionEnv}.

Record MobCompositionManifest := mkManifest {
  manifest_version : Z; created_by_meta : string; manifest_definition : MobDefinition;
  created_by_authority : CompositionAuthority; legacy_synthesized_profile_normalization : option bool }.

(** The files of the process: contents by path, and the faults of the moment.  A
    write that fails may leave other bytes behind. *)
Record Disk := mkDisk {
  contents : list (Path * string);
  read_fault : Path → option string;
  create_dir_fault : string → option string;
  write_fault : Path → option (string * option string) }.
Inductive ReadOutcome := ReadBytes (bytes : string) | ReadNotFound | ReadFailed (message : string).
Definition file_at (disk : Disk) (path : Path) : option string :=
  snd <$> find_first (λ p, p.1 =b path) (contents disk).
Definition read_file (disk : Disk) (path : Path) : ReadOutcome :=
  match read_fault disk path with
  | Some message => ReadFailed message
  | None => match file_at disk path with Some bytes => ReadBytes bytes | None => ReadNotFound end
  end.
Definition put_file (path : Path) (bytes : string) (disk : Disk) : Disk :=
  mkDisk ((path, bytes) :: contents disk) (read_fault disk) (create_dir_fault disk) (write_fault disk).
Definition write_file {F} (fail : string → F) (path : Path) (bytes : string) : M Disk F unit :=
  disk ← get;
  match write_fault disk path with
  | None => modify (put_file path bytes)
  | Some (message, remains) =>
      modify (λ d, match remains with Some partial => put_file path partial d | None => d end);; throw (fail message)
  end.
End manifest.

(** [serde_json] on definitions and manifests, as far as the code relies on it. *)
Class SerdeEnv `{E : DefinitionEnv} := {
  definition_to_value : MobDefinition → Result Value string;
  definition_to_value_ordered d v : definition_to_value d = Ok v → keys_ordered v;
  version_from_slice : string → Result Z string;
  manifest_from_slice : string → Result MobCompositionManifest string;
  manifest_to_vec_pretty : MobCompositionManifest → Result string string;
  (** A manifest that was written is read back, up to its definition. *)
  manifest_reads_back m bytes : manifest_to_vec_pretty m = Ok bytes →
    version_from_slice bytes = Ok (manifest_version m) ∧
    ∃ d, manifest_from_slice bytes =
      Ok (mkManifest (manifest_version m) (created_by_meta m) d (created_by_authority m)
            (legacy_synthesized_profile_normalization m));
}.

Section composition.
Context `{SE : SerdeEnv}.

Definition diverged_definition_fields (recorded supplied : MobDefinition) : list string :=
  match definition_to_value recorded, definition_to_value supplied with
  | Ok recorded_value, Ok supplied_value =>
      let paths := collect_diverged_paths (depth recorded_value) "" recorded_value supplied_value in
      if is_empty paths && negb (recorded_value =b supplied_value) then [WHOLE_DEFINITION]
      else bset_elements (list_to_set paths)
  | _, _ => if recorded =b supplied then [] else [WHOLE_DEFINITION]
  end.

Definition verify_authoritative_definition (manifest : Path) (authoritative supplied : MobDefinition)
    : Result unit MobCompositionProvenanceError :=
  let fields := diverged_definition_fields authoritative supplied in
  if is_empty fields then Ok tt else Err (Divergent manifest fields).

Definition record_on_create (mob_storage_path : Path) (definition : MobDefinition)
    (authority : CompositionAuthority) : M Disk MobCompositionProvenanceError unit :=
  let manifest := manifest_path mob_storage_path in
  let record := mkManifest MANIFEST_VERSION CARGO_PKG_VERSION definition authority (Some false) in
  bytes ← lift_result (map_err (NotRecorded manifest) (manifest_to_vec_pretty record));
  disk ← get;
  (* a path with a file name has a parent *)
  match create_dir_fault disk (p_base manifest) with
  | Some message => throw (NotRecorded manifest message)
  | None => mret tt
  end;;
  write_file (NotRecorded manifest) manifest bytes.

(** The version, then the manifest; the manifest of a rehearsal is refused. *)
Definition read_manifest (mob_storage_path manifest : Path) (bytes : string)
    : Result MobCompositionManifest MobCompositionProvenanceError :=
  version ←? map_err (Malformed manifest) (version_from_slice bytes);
  if negb (version =? MANIFEST_VERSION) then Err (UnsupportedVersion manifest version MANIFEST_VERSION) else
  record ←? map_err (Malformed manifest) (manifest_from_slice bytes);
  if negb (speaks_for_composition (created_by_authority record)) then Err (CreatedByRehearsal manifest mob_storage_path)
  else Ok record.

Definition verify_before_resume (disk : Disk) (mob_storage_path : Path) (authoritative supplied : MobDefinition)
    : Result unit MobCompositionProvenanceError :=
  let manifest := manifest_path mob_storage_path in
  match read_file disk manifest with
  | ReadNotFound =>
      _ ←? verify_authoritative_definition manifest authoritative supplied;
      Err (Missing manifest mob_storage_path)
  | ReadFailed message => Err (Unreadable manifest message)
  | ReadBytes bytes =>
      _ ←? read_manifest mob_storage_path manifest bytes;
      verify_authoritative_definition manifest authoritative supplied
  end.

Definition is_synthesizing_release (version : string) : bool :=
  match split_byte "." version with
  | [major; minor; patch] =>
      match parse_u64 major, parse_u64 minor, parse_u64 patch with
      | Some major, Some minor, Some patch => (major =? 0) && (minor =? 8) && ((9 <=? patch) && (patch <? 29))
      | _, _, _ => false
      end
  | _ => false
  end.
Definition released_writer (record : MobCompositionManifest) : bool :=
  match legacy_synthesized_profile_normalization record with
  | Some value => value
  | None => is_synthesizing_release (created_by_meta record)
  end.

Definition verify_legacy_synthesized_definition_before_resume (disk : Disk) (mob_storage_path : Path)
    (authority_epoch : Z) (authoritative supplied legacy_supplied : MobDefinition)
    : Result unit MobCompositionProvenanceError :=
  let manifest := manifest_path mob_storage_path in
  if negb (authority_epoch =? 1) then verify_authoritative_definition manifest authoritative supplied else
  match read_file disk manifest with
  | ReadNotFound => verify_authoritative_definition manifest authoritative supplied
  | ReadFailed message => Err (Unreadable manifest message)
  | ReadBytes bytes =>
      record ←? read_manifest mob_storage_path manifest bytes;
      if negb (released_writer record) then verify_authoritative_definition manifest authoritative supplied
      else verify_authoritative_definition manifest authoritative legacy_supplied
  end.

Definition verify_candidate_resume (fields : list string) (policy : CandidateDefinition)
    : Result (list string) MobCompositionProvenanceError :=
  if is_empty fields || match policy with Stored => true | RequireMatch => false end then Ok fields
  else Err (CandidateDivergent fields).

Inductive MobStorageProvenance := Unspecified | DeclaredEphemeral | Persistent (path : Path).
Definition persistent_path (p : MobStorageProvenance) : option Path :=
  match p with Persistent path => Some path | _ => None end.
Definition permits_unverified_resume (p : MobStorageProvenance) : bool :=
  match p with Unspecified => false | _ => true end.

(** ** Create or resume *)

(** The two variants this code raises. *)
Inductive MobRuntimeError := CompositionProvenance (e : MobCompositionProvenanceError) | Mob (message : string).

(** The event log as the storage shows it: whether it is empty, and the canonical
    definition with its epoch; both reads can fail. *)
Record StorageView := mkView {
  is_event_log_empty : Result bool string;
  created_definition_snapshot : Result (option (Z * MobDefinition)) string }.
Record MobBootstrapSpec := mkSpec {
  spec_definition : MobDefinition; mob_storage_provenance : MobStorageProvenance;
  composition_authority : CompositionAuthority; candidate_definition : CandidateDefinition }.
Inductive MobBuilder :=
| BuilderNew (definition : MobDefinition)
| ForResumeVerified (snapshot : Z * MobDefinition)
| ForResume.
(** [StorageSlotSummary::degraded]: the domain and the detail shown in the health report *)
Record StorageSlotSummary := degraded { slot_domain : string; slot_detail : string }.
Definition candidate_slot (diverged : list string) : StorageSlotSummary :=
  degraded "mob_composition"
    ("candidate launch runs the stored mob definition, not the supplied one; diverged: " +:+ join ", " diverged).

Definition load_snapshot (view : StorageView) : Result (Z * MobDefinition) MobRuntimeError :=
  snapshot ←? map_err Mob (created_definition_snapshot view);
  ok_or snapshot (Mob "non-empty mob storage has no canonical definition").

(** The resume of a launch that speaks for the composition. *)
Definition resume_authoritative (spec : MobBootstrapSpec) (path : Path) (view : StorageView)
    : M Disk MobRuntimeError (MobBuilder * option StorageSlotSummary) :=
  let definition := auto_mark_declared_resume_overrides (spec_definition spec) in
  snapshot ← lift_result (load_snapshot view);
  disk ← get;
  match verify_before_resume disk path snapshot.2 definition with
  | Ok _ => mret tt
  | Err (Divergent _ _) =>
      lift_result (map_err CompositionProvenance
        (verify_legacy_synthesized_definition_before_resume disk path snapshot.1 snapshot.2 definition
           (legacy_auto_mark_declared_resume_overrides (spec_definition spec))))
  | Err (Missing _ _) =>
      with_err CompositionProvenance (record_on_create path definition (composition_authority spec))
  | Err other => throw (CompositionProvenance other)
  end;;
  mret (ForResumeVerified snapshot, None).

(** The fields a candidate's definition differs in, after the allowance for the
    released representation. *)
Definition candidate_diverged (disk : Disk) (spec : MobBootstrapSpec) (snapshot : Z * MobDefinition) : list string :=
  let definition := auto_mark_declared_resume_overrides (spec_definition spec) in
  let diverged := diverged_definition_fields snapshot.2 definition in
  match persistent_path (mob_storage_provenance spec) with
  | Some path =>
      if negb (is_empty diverged) &&
         is_ok (verify_legacy_synthesized_definition_before_resume disk path snapshot.1 snapshot.2 definition
                  (legacy_auto_mark_declared_resume_overrides (spec_definition spec)))
      then [] else diverged
  | None => diverged
  end.
Definition resume_candidate (spec : MobBootstrapSpec) (view : StorageView)
    : M Disk MobRuntimeError (MobBuilder * option StorageSlotSummary) :=
  snapshot ← lift_result (load_snapshot view);
  disk ← get;
  diverged ← lift_result (map_err CompositionProvenance
    (verify_candidate_resume (candidate_diverged disk spec snapshot) (candidate_definition spec)));
  mret (ForResumeVerified snapshot, if is_empty diverged then None else Some (candidate_slot diverged)).

Definition select_builder (spec : MobBootstrapSpec) (view : StorageView)
    : M Disk MobRuntimeError (MobBuilder * option StorageSlotSummary) :=
  event_log_empty ← lift_result (map_err Mob (is_event_log_empty view));
  if negb event_log_empty && negb (permits_unverified_resume (mob_storage_provenance spec))
  then throw (CompositionProvenance UnprovenStorage)
  else if event_log_empty then
    let definition := auto_mark_declared_resume_overrides (spec_definition spec) in
    match persistent_path (mob_storage_provenance spec) with
    | Some path => with_err CompositionProvenance (record_on_create path definition (composition_authority spec))
    | None => mret tt
    end;;
    mret (BuilderNew definition, None)
  else if speaks_for_composition (composition_authority spec) then
    match persistent_path (mob_storage_provenance spec) with
    | Some path => resume_authoritative spec path view
    | None => mret (ForResume, None)
    end
  else resume_candidate spec view.

(** ** The comparison decides equality *)

(** Two definitions are the same when their serialised forms are; where one of them
    cannot be serialised, when they are equal. *)
Definition same_definition (d d' : MobDefinition) : Prop :=
  match definition_to_value d, definition_to_value d' with Ok v, Ok v' => v = v' | _, _ => d = d' end.
#[global] Instance same_definition_dec d d' : Decision (same_definition d d').
Proof. unfold same_definition. destruct (definition_to_value d), (definition_to_value d'); apply _. Defined.

Lemma is_empty_spec {A} (l : list A) : is_empty l = true ↔ l = [].
Proof. by destruct l. Qed.
Lemma bset_of_list_nil (l : list string) : bset_elements (list_to_set l) = [] ↔ l = [].
Proof.
  split; [|intros ->; unfold bset_elements; simpl; by rewrite elements_empty]. intros H. apply elem_of_nil_inv. intros x Hx.
  assert (x ∈ bset_elements (list_to_set l)) as Hin by by apply elem_of_bset_elements, elem_of_list_to_set.
  rewrite H in Hin. by apply elem_of_nil in Hin.
Qed.
Lemma collect_same fuel prefix v : collect_diverged_paths fuel prefix v v = [].
Proof. destruct fuel; simpl; [done|]. by rewrite bool_decide_true. Qed.

Lemma diverged_nil d d' : diverged_definition_fields d d' = [] ↔ same_definition d d'.
Proof.
  unfold diverged_definition_fields, same_definition.
  destruct (definition_to_value d) as [v|], (definition_to_value d') as [v'|]; [|case_bool_decide; naive_solver..].
  destruct (decide (v = v')) as [<-|Hne].
  - rewrite collect_same, bool_decide_true by done. split; [done|intros _; by apply bset_of_list_nil].
  - rewrite bool_decide_false by done. simpl. rewrite andb_true_r.
    destruct (collect_diverged_paths _ _ _ _) as [|p l] eqn:Hc; [done|]. simpl is_empty. cbv iota.
    rewrite bset_of_list_nil. split; [done|]. intros Heq. congruence.
Qed.
Lemma verify_spec manifest d d' :
  verify_authoritative_definition manifest d d' =
  if decide (same_definition d d') then Ok tt else Err (Divergent manifest (diverged_definition_fields d d')).
Proof.
  unfold verify_authoritative_definition. destruct (is_empty _) eqn:He; case_decide as Hs; try done.
  - exfalso. by apply Hs, diverged_nil, is_empty_spec.
  - apply diverged_nil, is_empty_spec in Hs. congruence.
Qed.

(** ** What a resume runs *)

(** The grounds on which a resume takes the stored definition for the supplied one:
    they are the same, or the manifest proves a writer of the released representation
    and they are the same in that representation. *)
Definition released_representation (disk : Disk) (path : Path) (epoch : Z) : Prop :=
  epoch = 1 ∧ ∃ bytes record, read_file disk (manifest_path path) = ReadBytes bytes ∧
    read_manifest path (manifest_path path) bytes = Ok record ∧ released_writer record = true.
Definition presented (disk : Disk) (path : Path) (spec : MobBootstrapSpec) (epoch : Z) (stored : MobDefinition) : Prop :=
  same_definition stored (auto_mark_declared_resume_overrides (spec_definition spec)) ∨
  released_representation disk path epoch ∧
    same_definition stored (legacy_auto_mark_declared_resume_overrides (spec_definition spec)).

Lemma legacy_accepts disk path epoch stored supplied legacy :
  verify_legacy_synthesized_definition_before_resume disk path epoch stored supplied legacy = Ok tt →
  same_definition stored supplied ∨ released_representation disk path epoch ∧ same_definition stored legacy.
Proof.
  unfold verify_legacy_synthesized_definition_before_resume, released_representation. rewrite !verify_spec.
  destruct (Z.eqb_spec epoch 1) as [->|]; simpl; [|case_decide; [auto|done]].
  destruct (read_file _ _) as [bytes| |]; [|case_decide; [auto|done]|done].
  intros (record & Hr & H)%and_then_Ok. destruct (released_writer record) eqn:Hw; simpl in H.
  - case_decide; [|done]. right. split; [|done]. split; [done|]. by exists bytes, record.
  - case_decide; [|done]. by left.
Qed.

Lemma verify_before_resume_same disk path stored supplied r :
  verify_before_resume disk path stored supplied = r →
  match r with
  | Ok _ => same_definition stored supplied
  | Err (Missing _ _) => same_definition stored supplied ∧ read_file disk (manifest_path path) = ReadNotFound
  | Err _ => True
  end.
Proof.
  intros <-. unfold verify_before_resume. rewrite !verify_spec. destruct (read_file _ _) as [bytes| |] eqn:Hread.
  - destruct (read_manifest _ _ _) as [record|e] eqn:Hr; simpl; [by case_decide|]. destruct e; try done.
    exfalso. revert Hr. unfold read_manifest. destruct (version_from_slice _); simpl; [|done]. case_match; [done|].
    destruct (manifest_from_slice _); simpl; [|done]. by case_match.
  - by case_decide.
  - done.
Qed.

(** A launch that reads a non-empty log. *)
Definition resume (spec : MobBootstrapSpec) (path : Path) (view : StorageView)
    : M Disk MobRuntimeError (MobBuilder * option StorageSlotSummary) :=
  if speaks_for_composition (composition_authority spec) then resume_authoritative spec path view
  else resume_candidate spec view.
Lemma select_builder_resumes spec path view :
  is_event_log_empty view = Ok false → mob_storage_provenance spec = Persistent path →
  select_builder spec view = resume spec path view.
Proof. intros Hv Hp. unfold select_builder, resume. rewrite Hv, Hp. reflexivity. Qed.

Lemma resume_authoritative_presents spec path view disk b slot disk' :
  resume_authoritative spec path view disk = (Ok (b, slot), disk') →
  ∃ epoch stored, load_snapshot view = Ok (epoch, stored) ∧ b = ForResumeVerified (epoch, stored) ∧ slot = None ∧
    presented disk path spec epoch stored.
Proof.
  unfold resume_authoritative, mbind, m_bind, lift_result. simpl.
  destruct (load_snapshot view) as [[epoch stored]|e]; [|done]. simpl.
  destruct (verify_before_resume _ _ _ _) as [[]|e] eqn:Hv; apply verify_before_resume_same in Hv.
  { intros [= <- <- _]. exists epoch, stored. split_and!; [done..|]. by left. }
  destruct e; try done.
  - destruct Hv as [Hv _]. unfold with_err. destruct (record_on_create _ _ _ _) as [[]?]; [|done].
    intros [= <- <- _]. exists epoch, stored. split_and!; [done..|]. by left.
  - destruct (verify_legacy_synthesized_definition_before_resume _ _ _ _ _ _) as [[]|e] eqn:Hl; [|done].
    intros [= <- <- _]. exists epoch, stored. split_and!; [done..|]. by apply legacy_accepts in Hl.
Qed.

Lemma candidate_diverged_nil disk spec path epoch stored :
  mob_storage_provenance spec = Persistent path →
  candidate_diverged disk spec (epoch, stored) = [] → presented disk path spec epoch stored.
Proof.
  intros Hp. unfold candidate_diverged. rewrite Hp. simpl.
  destruct (verify_legacy_synthesized_definition_before_resume _ _ _ _ _ _) as [[]|e] eqn:Hl.
  - intros _. by apply legacy_accepts in Hl.
  - simpl. rewrite andb_false_r. intros Hd. left. by apply diverged_nil.
Qed.

Lemma diverged_elements d d' v v' :
  definition_to_value d = Ok v → definition_to_value d' = Ok v' →
  diverged_definition_fields d d' = bset_elements (list_to_set (collect_diverged_paths (depth v) "" v v')).
Proof.
  intros Hv Hv'. unfold diverged_definition_fields. rewrite Hv, Hv'. simpl.
  destruct (decide (v = v')) as [->|Hne]; [by rewrite bool_decide_true, andb_false_r by done|].
  destruct (first_difference_exists v v') as [ks Hks]; [by eapply definition_to_value_ordered..|done|].
  assert (place_text "" v v' ks ∈ collect_diverged_paths (depth v) "" v v') as Hin by (apply collect_spec; eauto).
  destruct (collect_diverged_paths _ _ _ _); [by apply elem_of_nil in Hin|done].
Qed.

(** ** Launches against one persistent storage *)

Section launches.
Context (store : Path).
Notation manifest := (manifest_path store).

(** The files, the event log's definition with its epoch, and the authority of the
    launch that created the log. *)
Record World := mkWorld {
  w_disk : Disk; w_log : option (Z * MobDefinition); w_creator : option CompositionAuthority }.

(** What a launch reads of the log, when the read does not fail. *)
Definition shows (view : StorageView) (log : option (Z * MobDefinition)) : Prop :=
  (∀ b, is_event_log_empty view = Ok b → b = bool_decide (log = None)) ∧
  (∀ snapshot, created_definition_snapshot view = Ok snapshot → snapshot = log).

(** A launch finds the files of the world, under the faults of its own run. *)
Inductive launches (w : World) : MobBootstrapSpec → Result (MobBuilder * option StorageSlotSummary) MobRuntimeError → Disk → Prop :=
| launch_run disk spec view r disk' :
    contents disk = contents (w_disk w) → shows view (w_log w) → mob_storage_provenance spec = Persistent store →
    select_builder spec view disk = (r, disk') → launches w spec r disk'.

Inductive step : World → World → Prop :=
| step_launch w spec r disk' :
    (* resumed, refused, or failed before the log was created *)
    launches w spec r disk' → step w (mkWorld disk' (w_log w) (w_creator w))
| step_create w spec d slot disk' :
    launches w spec (Ok (BuilderNew d, slot)) disk' →
    step w (mkWorld disk' (Some (1, d)) (Some (composition_authority spec)))
| step_update w epoch d d' :
    (* the definition-update ceremony of the storage *)
    w_log w = Some (epoch, d) → step w (mkWorld (w_disk w) (Some (epoch + 1, d')) (w_creator w))
| step_files w disk' :
    (* every other file *)
    file_at disk' manifest = file_at (w_disk w) manifest → step w (mkWorld disk' (w_log w) (w_creator w)).

Definition fresh (w : World) : Prop := w_log w = None.
Definition reachable (w : World) : Prop := ∃ w0, fresh w0 ∧ rtc step w0 w.

(** Beside a log that holds events lies the manifest of the launch that created it. *)
Definition recorded (disk : Disk) (authority : CompositionAuthority) : Prop :=
  ∃ bytes d, file_at disk manifest = Some bytes ∧ version_from_slice bytes = Ok MANIFEST_VERSION ∧
    manifest_from_slice bytes = Ok (mkManifest MANIFEST_VERSION CARGO_PKG_VERSION d authority (Some false)).
Definition creator_is_recorded (w : World) : Prop :=
  w_log w ≠ None → ∃ authority, w_creator w = Some authority ∧ recorded (w_disk w) authority.

Lemma file_at_contents disk disk' path : contents disk = contents disk' → file_at disk path = file_at disk' path.
Proof. unfold file_at. by intros ->. Qed.
Lemma recorded_file disk disk' a :
  file_at disk manifest = file_at disk' manifest → recorded disk a → recorded disk' a.
Proof. unfold recorded. by intros ->. Qed.

Lemma record_on_create_records disk definition authority disk' :
  record_on_create store definition authority disk = (Ok tt, disk') → recorded disk' authority.
Proof.
  unfold record_on_create, write_file, mbind, m_bind, lift_result, get, throw, modify. simpl.
  destruct (manifest_to_vec_pretty _) as [bytes|e] eqn:Hb; simpl; [|done].
  destruct (create_dir_fault _ _); [done|]. simpl. destruct (write_fault _ _) as [[message remains]|]; [done|].
  intros [= <-]. apply manifest_reads_back in Hb as [Hver [d Hm]]. exists bytes, d. split_and!; [|done..].
  unfold file_at, put_file. simpl. by rewrite bool_decide_true.
Qed.

(** The manifest decides what its reader gets. *)
Lemma recorded_read_manifest disk authority :
  recorded disk authority →
  ∃ bytes record, file_at disk manifest = Some bytes ∧ released_writer record = false ∧
    read_manifest store manifest bytes =
      match authority with Authoritative => Ok record | NonAuthoritative => Err (CreatedByRehearsal manifest store) end.
Proof.
  intros (bytes & d & Hf & Hver & Hm). eexists bytes, _. split; [done|]. split; [|unfold read_manifest; rewrite Hver; simpl; rewrite Hm; by destruct authority].
  done.
Qed.
Lemma recorded_read disk bytes : file_at disk manifest = Some bytes →
  read_file disk manifest = match read_fault disk manifest with Some message => ReadFailed message | None => ReadBytes bytes end.
Proof. unfold read_file. by intros ->. Qed.

(** No resume writes where a creator is recorded. *)
Lemma resume_keeps_disk spec view disk authority :
  recorded disk authority → (resume spec store view disk).2 = disk.
Proof.
  intros (bytes & record & Hf & Hw & Hm)%recorded_read_manifest. unfold resume, resume_authoritative, resume_candidate.
  unfold mbind, m_bind, lift_result. destruct (speaks_for_composition _); simpl.
  - destruct (load_snapshot view) as [[epoch stored]|]; [|done]. simpl.
    destruct (verify_before_resume _ _ _ _) as [[]|e] eqn:Hv; [done|]. destruct e; try done.
    + apply verify_before_resume_same in Hv as [_ Hr]. rewrite (recorded_read _ _ Hf) in Hr. by destruct (read_fault _ _).
    + by destruct (verify_legacy_synthesized_definition_before_resume _ _ _ _ _ _).
  - destruct (load_snapshot view) as [[epoch stored]|]; [|done]. simpl. by destruct (verify_candidate_resume _ _).
Qed.

Lemma launch_keeps_record w spec r disk' authority :
  launches w spec r disk' → w_log w ≠ None → recorded (w_disk w) authority →
  recorded disk' authority ∧ ∀ d slot, r ≠ Ok (BuilderNew d, slot).
Proof.
  intros [disk spec' view r' disk'' Hc [He _] Hp Hrun] Hlog Hrec.
  assert (recorded disk authority) as Hrd by (eapply recorded_file; [by symmetry; apply file_at_contents|done]).
  destruct (is_event_log_empty view) as [b|e] eqn:Hv.
  - assert (b = false) as -> by (rewrite (He b eq_refl); by apply bool_decide_false).
    rewrite (select_builder_resumes _ store) in Hrun by done. pose proof (resume_keeps_disk spec' view disk _ Hrd) as Hd.
    rewrite Hrun in Hd. simpl in Hd. subst disk''. split; [done|]. intros d slot ->. revert Hrun. unfold resume.
    destruct (speaks_for_composition _).
    + intros (? & ? & _ & ? & _)%resume_authoritative_presents. done.
    + unfold resume_candidate, mbind, m_bind, lift_result. destruct (load_snapshot view); [|done]. simpl.
      by destruct (verify_candidate_resume _ _).
  - unfold select_builder, mbind, m_bind, lift_result in Hrun. rewrite Hv in Hrun. simplify_eq/=. done.
Qed.
Lemma launch_creates_record w spec d slot disk' :
  launches w spec (Ok (BuilderNew d, slot)) disk' → w_log w = None → recorded disk' (composition_authority spec).
Proof.
  intros Hl Hlog. inversion Hl as [disk spec' view r' disk'' Hc [He _] Hp Hrun]; subst.
  unfold select_builder, mbind, m_bind, lift_result in Hrun. destruct (is_event_log_empty view) as [b|e]; [|done].
  assert (b = true) as -> by (rewrite (He b eq_refl), Hlog; done). simpl in Hrun. rewrite Hp in Hrun. simpl in Hrun.
  unfold with_err in Hrun. destruct (record_on_create _ _ _ _) as [[[]|] disk1] eqn:Hr; simplify_eq/=.
  injection Hrun as _ _ ->. by eapply record_on_create_records.
Qed.

Lemma step_records w w' : step w w' → creator_is_recorded w → creator_is_recorded w'.
Proof.
  unfold creator_is_recorded. intros Hs IH. destruct Hs as [w spec r disk' Hl|w spec d slot disk' Hl|w epoch d d' Hlog|w disk' Hf]; simpl.
  - intros Hne. destruct (IH Hne) as (a & Ha & Hr). exists a. split; [done|]. by eapply launch_keeps_record.
  - intros _. exists (composition_authority spec). split; [done|]. destruct (w_log w) eqn:Hlog; [|by eapply launch_creates_record].
    destruct IH as (a & _ & Hr); [congruence|]. destruct (launch_keeps_record _ _ _ _ a Hl) as [_ Hno]; [congruence|done|].
    by destruct (Hno d slot).
  - intros _. apply IH. congruence.
  - intros Hne. destruct (IH Hne) as (a & Ha & Hr). exists a. split; [done|]. by eapply recorded_file.
Qed.
Lemma reachable_recorded w : reachable w → creator_is_recorded w.
Proof.
  intros (w0 & H0 & Hs). assert (creator_is_recorded w0) as H1 by by intros []. clear H0.
  induction Hs as [|w0 w1 w Hstep _ IH]; [done|]. apply IH. by eapply step_records.
Qed.

(** An authoritative resume of a storage with a readable record. *)
Lemma authoritative_resume_exact spec view disk authority epoch stored :
  recorded disk authority → read_fault disk manifest = None → load_snapshot view = Ok (epoch, stored) →
  let supplied := auto_mark_declared_resume_overrides (spec_definition spec) in
  resume_authoritative spec store view disk =
  (match authority with
   | NonAuthoritative => Err (CompositionProvenance (CreatedByRehearsal manifest store))
   | Authoritative =>
       if decide (same_definition stored supplied) then Ok (ForResumeVerified (epoch, stored), None)
       else Err (CompositionProvenance (Divergent manifest (diverged_definition_fields stored supplied)))
   end, disk).
Proof.
  intros (bytes & record & Hf & Hw & Hm)%recorded_read_manifest Hnf Hs supplied.
  pose proof (recorded_read disk bytes Hf) as Hread. rewrite Hnf in Hread.
  unfold resume_authoritative, mbind, m_bind, lift_result. rewrite Hs. simpl.
  unfold verify_before_resume, verify_legacy_synthesized_definition_before_resume. fold supplied.
  rewrite Hread, Hm. destruct authority; [|done]. simpl. rewrite Hw. simpl. rewrite !verify_spec.
  case_decide; [done|]. by destruct (epoch =? 1).
Qed.
End launches.

(** ** The claims *)

(** C17: the comparison of two definitions that serialise is exact: it reports nothing
    exactly when the serialised forms are equal; otherwise it reports, in order and
    once each, the places where they first differ and nothing else: the dotted path of
    every key up to which both sides are objects and below which one of them is not an
    object, or is absent. *)
Theorem diverged_fields_exact d d' v v' :
  definition_to_value d = Ok v → definition_to_value d' = Ok v' →
  let fields := diverged_definition_fields d d' in
  (fields = [] ↔ v = v') ∧ StronglySorted String.le fields ∧ NoDup fields ∧
  ∀ p, p ∈ fields ↔ ∃ ks, first_difference v v' ks ∧ p = place_text "" v v' ks.
Proof.
  intros Hv Hv' fields. split; [|split; [|split]].
  - unfold fields. rewrite diverged_nil. unfold same_definition. by rewrite Hv, Hv'.
  - unfold fields. rewrite (diverged_elements _ _ _ _ Hv Hv'). apply StronglySorted_merge_sort; apply _.
  - unfold fields. rewrite (diverged_elements _ _ _ _ Hv Hv'). unfold bset_elements. rewrite merge_sort_Permutation. apply NoDup_elements.
  - intros p. unfold fields. rewrite (diverged_elements _ _ _ _ Hv Hv'), elem_of_bset_elements, elem_of_list_to_set. by apply collect_spec.
Qed.

(** C16: a launch never runs another composition than the one it presents.  Whatever
    the files hold and whichever of their operations fail, a launch that resumes a
    persistent storage binds to the definition of the event log, and that definition is
    the supplied one (after normalisation), or is the supplied one as a released writer
    proven by an authoritative manifest wrote it in the first epoch, or the launch is a
    candidate that asked for the stored definition and its health slot names the fields
    that differ. *)
Theorem resume_presents_what_it_runs spec path view disk b slot disk' :
  mob_storage_provenance spec = Persistent path → is_event_log_empty view = Ok false →
  select_builder spec view disk = (Ok (b, slot), disk') →
  ∃ epoch stored,
    created_definition_snapshot view = Ok (Some (epoch, stored)) ∧ b = ForResumeVerified (epoch, stored) ∧
    ((slot = None ∧ presented disk path spec epoch stored) ∨
     (composition_authority spec = NonAuthoritative ∧ candidate_definition spec = Stored ∧ disk' = disk ∧
      let fields := diverged_definition_fields stored (auto_mark_declared_resume_overrides (spec_definition spec)) in
      fields ≠ [] ∧ slot = Some (candidate_slot fields))).
Proof.
  intros Hp Hv. rewrite (select_builder_resumes _ _ _ Hv Hp). unfold resume.
  assert (∀ s, load_snapshot view = Ok s → created_definition_snapshot view = Ok (Some s)) as Hload.
  { unfold load_snapshot. destruct (created_definition_snapshot view) as [[s'|]|]; simpl; by intros s [= <-]. }
  destruct (composition_authority spec); simpl.
  - intros (epoch & stored & Hs & -> & -> & Hpr)%resume_authoritative_presents. exists epoch, stored. auto.
  - unfold resume_candidate, mbind, m_bind, lift_result. destruct (load_snapshot view) as [[epoch stored]|] eqn:Hs; [|done].
    simpl. unfold verify_candidate_resume. destruct (is_empty (candidate_diverged _ _ _)) eqn:He; simpl.
    + rewrite He. intros [= <- <- _]. exists epoch, stored. split_and!; [auto..|]. left. split; [done|].
      apply candidate_diverged_nil; [done|]. by apply is_empty_spec.
    + destruct (candidate_definition spec); [done|]. simpl. rewrite He. intros [= <- <- <-]. exists epoch, stored.
      split_and!; [auto..|]. right. do 3 (split; [done|]). revert He. unfold candidate_diverged. rewrite Hp. simpl.
      case_match; [done|]. intros He. split; [by intros Hnil; rewrite Hnil in He|done].
Qed.

(** C15: over every history of a persistent storage that starts empty - launches of
    either authority, launches that fail at any file operation or before the log is
    created, definition updates, changes of other files - an authoritative launch that
    can read the manifest is decided by who created the log: a storage created by a
    candidate is refused as such, whatever is supplied; one created by an authoritative
    launch is resumed exactly when the supplied definition is the stored one, and is
    otherwise refused with the fields that differ.  Neither writes a file. *)
Theorem launch_decides_by_creator store w spec view disk epoch stored :
  reachable store w → w_log w = Some (epoch, stored) →
  contents disk = contents (w_disk w) → read_fault disk (manifest_path store) = None →
  is_event_log_empty view = Ok false → created_definition_snapshot view = Ok (Some (epoch, stored)) →
  mob_storage_provenance spec = Persistent store → composition_authority spec = Authoritative →
  let supplied := auto_mark_declared_resume_overrides (spec_definition spec) in
  ∃ creator, w_creator w = Some creator ∧
  select_builder spec view disk =
  (match creator with
   | NonAuthoritative => Err (CompositionProvenance (CreatedByRehearsal (manifest_path store) store))
   | Authoritative =>
       if decide (same_definition stored supplied) then Ok (ForResumeVerified (epoch, stored), None)
       else Err (CompositionProvenance (Divergent (manifest_path store) (diverged_definition_fields stored supplied)))
   end, disk).
Proof.
  intros Hr Hlog Hc Hnf Hv Hs Hp Ha supplied.
  destruct (reachable_recorded store w Hr) as (creator & Hcr & Hrec); [congruence|]. exists creator. split; [done|].
  rewrite (select_builder_resumes _ _ _ Hv Hp). unfold resume. rewrite Ha. simpl.
  apply authoritative_resume_exact; [|done|unfold load_snapshot; by rewrite Hs].
  eapply recorded_file; [|exact Hrec]. by symmetry; apply file_at_contents.
Qed.
End composition.

(** ** Concrete launches *)

Module CompositionWitnesses.

(** Providers and override fields by name; a profile's other fields are not there and
    a definition's are a name. *)
#[export] Instance example_definitions : DefinitionEnv := {|
  Provider := string; SelfHosted := "self_hosted"; OtherProvider := "other";
  ResumeOverrideField := string; FModel := "model"; FProvider := "provider"; FProviderParams := "provider_params";
  params_is_not_model := ltac:(discriminate); params_is_not_provider := ltac:(discriminate);
  ProviderParams := string; Rest := string;
  infer_provider m := if m =b "claude" then Some "anthropic" else None |}.

Definition profile_value (p : string * ProfileBinding) : Value :=
  VArray (VString p.1 ::
    match p.2 with
    | InlineProfile q => [VString (model q); VString (unwrap_or (provider q) ""); VArray (VString <$> resume_overrides q)]
    | RealmRef r => [VString r]
    end).
Definition example_value (d : MobDefinition) : Value :=
  VObject [("meta", VObject [("name", VString (definition_rest d))]); ("profiles", VArray (profile_value <$> profiles d))].
Lemma example_value_ordered d : keys_ordered (example_value d).
Proof.
  assert (keys_ordered (VObject [("name", VString (definition_rest d))])) as Hinner.
  { apply ordered_object; [repeat constructor|repeat constructor; set_solver|]. intros k v Hv%member_In.
    apply list_elem_of_singleton in Hv as [= -> ->]. by constructor. }
  apply ordered_object.
  - repeat constructor.
  - repeat constructor; set_solver.
  - intros k v Hv%member_In. apply elem_of_cons in Hv as [[= -> ->]|[= -> ->]%list_elem_of_singleton]; [done|by constructor].
Qed.
Lemma example_ordered d v : Ok (E := string) (example_value d) = Ok v → keys_ordered v.
Proof. intros [= <-]. apply example_value_ordered. Qed.

Definition blank : MobDefinition := mkDefinition [] [] "".
Definition example_write (m : MobCompositionManifest) : Result string string :=
  if (manifest_version m =b MANIFEST_VERSION) && (created_by_meta m =b CARGO_PKG_VERSION) &&
     (legacy_synthesized_profile_normalization m =b Some false)
  then Ok (match created_by_authority m with Authoritative => "authoritative" | NonAuthoritative => "candidate" end)
  else Err "not a manifest of this build".
Definition example_read (bytes : string) : Result MobCompositionManifest string :=
  let record a := Ok (mkManifest MANIFEST_VERSION CARGO_PKG_VERSION blank a (Some false)) in
  if bytes =b "authoritative" then record Authoritative
  else if bytes =b "candidate" then record NonAuthoritative else Err "malformed".
Lemma example_reads_back m bytes : example_write m = Ok bytes →
  (if bytes =b "" then Err "no version" else Ok MANIFEST_VERSION) = Ok (E := string) (manifest_version m) ∧
  ∃ d, example_read bytes = Ok (mkManifest (manifest_version m) (created_by_meta m) d (created_by_authority m)
                                  (legacy_synthesized_profile_normalization m)).
Proof.
  unfold example_write. destruct m as [version creator d authority normalization]. simpl.
  destruct (_ && _) eqn:Hm; [|done]. rewrite !andb_true_iff, !bool_decide_eq_true in Hm. destruct Hm as [[-> ->] ->].
  intros [= <-]. destruct authority; (split; [done|by exists blank]).
Qed.
#[export] Instance example_serde : SerdeEnv := {|
  definition_to_value d := Ok (example_value d);
  definition_to_value_ordered := example_ordered;
  version_from_slice bytes := if bytes =b "" then Err "no version" else Ok MANIFEST_VERSION;
  manifest_from_slice := example_read;
  manifest_to_vec_pretty := example_write;
  manifest_reads_back := example_reads_back |}.

Definition mob (name : string) (overrides : list string) : MobDefinition :=
  mkDefinition [("lead", InlineProfile (mkProfile "claude" None None None overrides ""))] [] name.
Definition mob_path : Path := mkPath "/srv" (Some "mob.db").
Definition quiet (files : list (Path * string)) : Disk := mkDisk files (λ _, None) (λ _, None) (λ _, None).
Definition spec_for (authority : CompositionAuthority) (policy : CandidateDefinition) (d : MobDefinition) : MobBootstrapSpec :=
  mkSpec d (Persistent mob_path) authority policy.
Definition view_of (log : option (Z * MobDefinition)) : StorageView := mkView (Ok (bool_decide (log = None))) (Ok log).

(** An explicit model override brings the provider with it; none is left alone. *)
Example normalised_pair :
  profiles (auto_mark_declared_resume_overrides (mob "m" ["model"])) =
    [("lead", InlineProfile (mkProfile "claude" (Some "anthropic") None None ["model"; "provider"] ""))] ∧
  auto_mark_declared_resume_overrides (mob "m" []) = mob "m" [].
Proof. split; reflexivity. Qed.

Lemma diverged_fields_exact_witness :
  diverged_definition_fields (mob "a" []) (mob "b" ["model"]) = ["meta.name"; "profiles"] ∧
  ∃ ks, first_difference (example_value (mob "a" [])) (example_value (mob "b" ["model"])) ks ∧
    "meta.name" = place_text "" (example_value (mob "a" [])) (example_value (mob "b" ["model"])) ks.
Proof.
  split; [vm_compute; reflexivity|].
  destruct (diverged_fields_exact (SE := example_serde) (mob "a" []) (mob "b" ["model"])
    (example_value (mob "a" [])) (example_value (mob "b" ["model"])) eq_refl eq_refl) as (_ & _ & _ & H).
  apply H. apply (bool_decide_unpack _). vm_compute. exact I.
Defined.

(** A candidate that asks for the stored definition runs it and says so. *)
Lemma resume_presents_what_it_runs_witness :
  ∃ epoch stored, Some (1, mob "stored" []) = Some (epoch, stored) ∧
    diverged_definition_fields stored (mob "edited" []) = ["meta.name"].
Proof.
  destruct (resume_presents_what_it_runs (SE := example_serde) (spec_for NonAuthoritative Stored (mob "edited" [])) mob_path
    (view_of (Some (1, mob "stored" []))) (quiet [])
    (ForResumeVerified (1, mob "stored" [])) (Some (candidate_slot ["meta.name"])) (quiet []))
    as (epoch & stored & [= <- <-] & _ & _); [reflexivity|reflexivity|vm_compute; reflexivity|].
  exists 1, (mob "stored" []). split; [reflexivity|vm_compute; reflexivity].
Defined.

Definition empty_world : World := mkWorld (quiet []) None None.
Definition created_by (authority : CompositionAuthority) : World :=
  mkWorld (quiet [(manifest_path mob_path, match authority with Authoritative => "authoritative" | NonAuthoritative => "candidate" end)])
    (Some (1, mob "m" [])) (Some authority).
Lemma launched_world_reachable authority : reachable mob_path (created_by authority).
Proof.
  exists empty_world. split; [done|]. apply rtc_once.
  apply (step_create mob_path empty_world (spec_for authority RequireMatch (mob "m" [])) (mob "m" []) None).
  apply (launch_run mob_path empty_world (quiet []) _ (view_of None)); [done|split; by intros ? [= <-]|done|].
  destruct authority; reflexivity.
Qed.

(** The authoritative launch after a rehearsal is refused, whatever it supplies; after
    an authoritative creation it resumes its own definition and is refused another. *)
Lemma launch_decides_by_creator_witness :
  let launch d a := select_builder (spec_for Authoritative RequireMatch d) (view_of (w_log (created_by a))) (w_disk (created_by a)) in
  (launch (mob "m" []) NonAuthoritative).1 =
    Err (CompositionProvenance (CreatedByRehearsal (manifest_path mob_path) mob_path)) ∧
  (launch (mob "m" []) Authoritative).1 = Ok (ForResumeVerified (1, mob "m" []), None) ∧
  (launch (mob "n" []) Authoritative).1 =
    Err (CompositionProvenance (Divergent (manifest_path mob_path) ["meta.name"])).
Proof.
  assert (∀ d a, _) as H by (intros d a; exact (launch_decides_by_creator (SE := example_serde) mob_path (created_by a)
    (spec_for Authoritative RequireMatch d) (view_of (w_log (created_by a))) (w_disk (created_by a)) 1 (mob "m" [])
    (launched_world_reachable a) eq_refl eq_refl eq_refl eq_refl eq_refl eq_refl eq_refl)).
  split_and!.
  - destruct (H (mob "m" []) NonAuthoritative) as (c & [= <-] & Hl). exact (f_equal fst Hl).
  - destruct (H (mob "m" []) Authoritative) as (c & [= <-] & Hl). rewrite Hl. vm_compute. reflexivity.
  - destruct (H (mob "n" []) Authoritative) as (c & [= <-] & Hl). rewrite Hl. vm_compute. reflexivity.
Defined.
End CompositionWitnesses.
