(* ===== verification/TopologyTypes.v ===== *)
(** * Topology control: data ([topology_control.rs], [unified_runtime/edge_types.rs])

    The policy, endpoints, edges, requests, snapshots, plans, receipts, audit records
    and the durable intent of the topology control plane, with the constructors that
    canonicalize them.  [u64] and [usize] values are [Z]; a [BTreeSet] is a [gset]
    iterated in key order; a [VecDeque] is a list, its front first.  The [Debug]
    rendering of a string is the class [DebugText]. *)

From S2P Require Import Prelude Strings AccessModel ContinuityTypes MemoryRecords MemberIds.
Open Scope Z_scope.

Class DebugText := debug_quote : string → string.

(** [InvalidIdentity]'s [Display] *)
Definition invalid_identity_display `{DebugText} (e : InvalidIdentity) : string :=
  "invalid identity " +:+ debug_quote (invalid_input e) +:+ ": " +:+ invalid_reason e.

(** ** Ordered sets *)

Section ordered_set.
Context {K : Type} `{Countable K} `{!KeyOrder K}.
Definition oset_elements (s : gset K) : list K := merge_sort key_le (elements s).
Lemma elem_of_oset_elements (s : gset K) x : x ∈ oset_elements s ↔ x ∈ s.
Proof. unfold oset_elements. rewrite merge_sort_Permutation. apply elem_of_elements. Qed.
Lemma NoDup_oset_elements (s : gset K) : NoDup (oset_elements s).
Proof. unfold oset_elements. rewrite merge_sort_Permutation. apply NoDup_elements. Qed.
End ordered_set.

(** [Option<T>] derives [None < Some]. *)
Definition opt_le {A} (R : relation A) (x y : option A) : Prop :=
  match x, y with None, _ => True | Some _, None => False | Some a, Some b => R a b end.
Section opt_le.
Context {A} (R : relation A) `{!RelDecision R, !PartialOrder R, !Total R}.
#[global] Instance opt_le_dec : RelDecision (opt_le R).
Proof using All. intros [a|] [b|]; simpl; apply _. Defined.
#[global] Instance opt_le_po : PartialOrder (opt_le R).
Proof using All.
  split; [split|].
  - intros [a|]; simpl; [reflexivity|done].
  - intros [a|] [b|] [c|]; simpl; try done. by etrans.
  - intros [a|] [b|]; simpl; try done. intros. f_equal. by apply (anti_symm R).
Qed.
#[global] Instance opt_le_total : Total (opt_le R).
Proof using All. intros [a|] [b|]; simpl; [apply (total R)|auto..]. Qed.
End opt_le.

(** ** Peer edges *)

Inductive DesiredPeerEdgeError := EmptyEndpoint | SelfEdge.
Definition peer_edge_error_text (e : DesiredPeerEdgeError) : string :=
  match e with EmptyEndpoint => "edge endpoint must not be empty" | SelfEdge => "self-edges are not allowed" end.

(** A canonical undirected edge: its endpoints in order. *)
Definition DesiredPeerEdge : Type := string * string.
Definition peer_edge_le : relation DesiredPeerEdge := lex2_le String.le String.le.
#[global] Instance peer_edge_order : KeyOrder DesiredPeerEdge.
Proof. refine {| key_le := peer_edge_le |}; unfold peer_edge_le; apply _. Defined.

(** [if a > b { swap }] *)
Definition sorted_pair (a b : string) : string * string := if bool_decide (String.le a b) then (a, b) else (b, a).

Definition peer_edge_new (a b : string) : Result DesiredPeerEdge DesiredPeerEdgeError :=
  let a := trim a in
  let b := trim b in
  if str_is_empty a || str_is_empty b then Err EmptyEndpoint
  else if a =b b then Err SelfEdge
  else Ok (sorted_pair a b).
Definition endpoints (e : DesiredPeerEdge) : string * string := e.

Record EdgeMemberView := mkMemberView {
  view_identity : string;
  view_role : string;
  view_wired_to : gset string;
  view_labels : gmap string string;
}.

Record EdgeReconcileFailure := mkEdgeFailure { failed_edge : DesiredPeerEdge; failed_operation : string; failed_error : string }.

Record UnifiedRuntimeReconcileEdgesReport := mkEdgesReport {
  desired_edges : list DesiredPeerEdge;
  wired_edges : list DesiredPeerEdge;
  unwired_edges : list DesiredPeerEdge;
  retained_edges : list DesiredPeerEdge;
  preexisting_edges : list DesiredPeerEdge;
  skipped_missing_members : list DesiredPeerEdge;
  pruned_stale_managed_edges : list DesiredPeerEdge;
  edge_failures : list EdgeReconcileFailure;
}.
Definition empty_report : UnifiedRuntimeReconcileEdgesReport := mkEdgesReport [] [] [] [] [] [] [] [].
Definition is_complete (r : UnifiedRuntimeReconcileEdgesReport) : bool :=
  is_empty (edge_failures r) && is_empty (skipped_missing_members r).

(** [ManagedPeerEdge]: two validated identities in order. *)
Definition ManagedPeerEdge : Type := string * string.
Definition managed_peer_edge_new (a b : string) : Result ManagedPeerEdge string :=
  if a =b b then Err "self-edges are not allowed" else Ok (sorted_pair a b).

(** ** Policy *)

Definition MAX_POLICY_BATCH_SIZE : Z := 1024.
Definition DEFAULT_RECEIPT_LIMIT : Z := 256.
Definition DEFAULT_IDEMPOTENCY_HISTORY_LIMIT : Z := 4096.
Definition TOPOLOGY_STATE_SCHEMA_VERSION : Z := 1.
Definition TOPOLOGY_OPERATION_RECORD_VERSION : Z := 1.

Inductive TopologyControlMode := ModeDisabled | ModeReadOnly | ModeEditable.
#[global] Instance TopologyControlMode_eq_dec : EqDecision TopologyControlMode.
Proof. solve_decision. Defined.

Record TopologyControlPolicy := mkTopologyPolicy {
  mode : TopologyControlMode;
  allow_bulk : bool;
  max_batch_size : Z;
  allow_cross_authority : bool;
  receipt_limit : Z;
  idempotency_history_limit : Z;
}.
#[global] Instance TopologyControlPolicy_eq_dec : EqDecision TopologyControlPolicy.
Proof. solve_decision. Defined.
Definition default_topology_policy : TopologyControlPolicy :=
  mkTopologyPolicy ModeDisabled false 1 false DEFAULT_RECEIPT_LIMIT DEFAULT_IDEMPOTENCY_HISTORY_LIMIT.

(** ** Endpoints and edges *)

Record TopologyEndpoint := mkEndpoint { ep_authority : option string; ep_identity : string }.
#[global] Instance TopologyEndpoint_eq_dec : EqDecision TopologyEndpoint.
Proof. solve_decision. Defined.
Definition endpoint_key (e : TopologyEndpoint) : option string * string := (ep_authority e, ep_identity e).
#[global] Instance TopologyEndpoint_countable : Countable TopologyEndpoint.
Proof.
  refine (inj_countable' endpoint_key (λ k, mkEndpoint k.1 k.2) _). by intros [].
Defined.

Definition by_key {A B} (f : A → B) (R : relation B) (x y : A) : Prop := R (f x) (f y).
#[global] Instance by_key_dec {A B} (f : A → B) R `{!RelDecision R} : RelDecision (by_key f R).
Proof. intros x y. unfold by_key. apply _. Defined.
#[global] Instance by_key_total {A B} (f : A → B) R `{!Total R} : Total (by_key f R).
Proof. intros x y. unfold by_key. apply (total R). Qed.
Lemma by_key_po {A B} (f : A → B) R `{!Inj (=) (=) f, !PartialOrder R} : PartialOrder (by_key f R).
Proof.
  split; [split|].
  - intros x. unfold by_key. reflexivity.
  - intros x y z. unfold by_key. by etrans.
  - intros x y H1 H2. apply (inj f). by apply (anti_symm R).
Qed.
#[global] Instance endpoint_key_inj : Inj (=) (=) endpoint_key.
Proof. intros [] [] [= -> ->]. done. Qed.
#[global] Instance endpoint_order : KeyOrder TopologyEndpoint.
Proof.
  refine {| key_le := by_key endpoint_key (lex2_le (opt_le String.le) String.le) |}; try apply _. apply by_key_po; apply _.
Defined.

Record TopologyEdge := mkEdge { edge_a : TopologyEndpoint; edge_b : TopologyEndpoint }.
#[global] Instance TopologyEdge_eq_dec : EqDecision TopologyEdge.
Proof. solve_decision. Defined.
Definition edge_key (e : TopologyEdge) : TopologyEndpoint * TopologyEndpoint := (edge_a e, edge_b e).
#[global] Instance TopologyEdge_countable : Countable TopologyEdge.
Proof. refine (inj_countable' edge_key (λ k, mkEdge k.1 k.2) _). by intros []. Defined.
#[global] Instance edge_key_inj : Inj (=) (=) edge_key.
Proof. intros [] [] [= -> ->]. done. Qed.
#[global] Instance edge_order : KeyOrder TopologyEdge.
Proof. refine {| key_le := by_key edge_key (lex2_le key_le key_le) |}; try apply _. apply by_key_po; apply _. Defined.

Inductive TopologyAction := Connect | Disconnect | Reconnect.
#[global] Instance TopologyAction_eq_dec : EqDecision TopologyAction.
Proof. solve_decision. Defined.
Definition access_action (a : TopologyAction) : string :=
  match a with
  | Connect => ACTION_TOPOLOGY_CONNECT
  | Disconnect => ACTION_TOPOLOGY_DISCONNECT
  | Reconnect => ACTION_TOPOLOGY_RECONNECT
  end.

Record TopologyMutation := mkMutation { mut_action : TopologyAction; mut_edge : TopologyEdge }.
#[global] Instance TopologyMutation_eq_dec : EqDecision TopologyMutation.
Proof. solve_decision. Defined.

Record TopologyPlanRequest := mkPlanRequest { plan_expected_revision : Z; plan_operations : list TopologyMutation }.

Record TopologyApplyRequest := mkApplyRequest {
  expected_revision : Z;
  idempotency_key : string;
  operations : list TopologyMutation;
  reason : option string;
  risk_tier : option string;
}.
#[global] Instance TopologyApplyRequest_eq_dec : EqDecision TopologyApplyRequest.
Proof. solve_decision. Defined.

(** ** Snapshots and plans *)

Record TopologyNodeAffordances := mkAffordances {
  can_connect : bool;
  can_disconnect : bool;
  can_reconnect : bool;
  can_bulk : bool;
  can_cross_authority : bool;
}.
Record TopologyNodeSnapshot := mkNode {
  node_endpoint : TopologyEndpoint;
  node_role : string;
  node_labels : gmap string string;
  node_affordances : option TopologyNodeAffordances;
}.

Record TopologyEdgeSnapshot := mkEdgeSnapshot {
  snap_edge : TopologyEdge;
  actual : bool;
  declared : bool;
  operator_added : bool;
  suppressed : bool;
  desired : bool;
}.

Record TopologySnapshot := mkSnapshot {
  snap_authority : string;
  snap_revision : Z;
  snap_policy : TopologyControlPolicy;
  snap_nodes : list TopologyNodeSnapshot;
  snap_edges : list TopologyEdgeSnapshot;
}.

Record TopologyPlannedEdge := mkPlanned {
  planned_action : TopologyAction;
  planned_edge : TopologyEdge;
  actual_before : bool;
  desired_before : bool;
  desired_after : bool;
  planned_declared : bool;
  planned_operator_added : bool;
  planned_suppressed : bool;
  requires_physical_change : bool;
  requires_intent_change : bool;
}.
Record TopologyPlan := mkPlan {
  plan_authority : string;
  plan_base_revision : Z;
  planned_operations : list TopologyPlannedEdge;
}.

(** ** Receipts and audit records *)

Inductive TopologyEdgeResultStatus := EdgePending | EdgeApplied | EdgeNoop | EdgeFailed | EdgeRolledBack | EdgeRollbackFailed.
#[global] Instance TopologyEdgeResultStatus_eq_dec : EqDecision TopologyEdgeResultStatus.
Proof. solve_decision. Defined.

Record TopologyEdgeResult := mkEdgeResult {
  result_action : TopologyAction;
  result_edge : TopologyEdge;
  result_status : TopologyEdgeResultStatus;
  result_actual_before : bool;
  result_actual_after : bool;
  result_error : option string;
}.
#[global] Instance TopologyEdgeResult_eq_dec : EqDecision TopologyEdgeResult.
Proof. solve_decision. Defined.

Inductive TopologyOperationStatus := OpPending | OpApplied | OpNoop | OpRolledBack | OpPartialDegraded.
#[global] Instance TopologyOperationStatus_eq_dec : EqDecision TopologyOperationStatus.
Proof. solve_decision. Defined.

Record TopologyRevisionTransition := mkTransition { trans_base_revision : Z; trans_revision : Z }.
#[global] Instance TopologyRevisionTransition_eq_dec : EqDecision TopologyRevisionTransition.
Proof. solve_decision. Defined.

Record TopologyOperationReceipt := mkTopologyReceipt {
  receipt_operation_id : string;
  receipt_key : string;
  receipt_actor : string;
  receipt_status : TopologyOperationStatus;
  receipt_base_revision : Z;
  receipt_revision : Z;
  receipt_created_at : string;
  receipt_reason : option string;
  receipt_results : list TopologyEdgeResult;
  authority_revisions : gmap string TopologyRevisionTransition;
}.
#[global] Instance TopologyOperationReceipt_eq_dec : EqDecision TopologyOperationReceipt.
Proof. solve_decision. Defined.

Inductive TopologyOperationRecordStatus :=
| RecRequested | RecDenied | RecInvalid | RecConflict | RecPending | RecApplied | RecNoop
| RecRolledBack | RecPartialDegraded | RecRecoveryFailed | RecInterrupted.
#[global] Instance TopologyOperationRecordStatus_eq_dec : EqDecision TopologyOperationRecordStatus.
Proof. solve_decision. Defined.

Record TopologyOperationRecord := mkOpRecord {
  rec_version : Z;
  rec_seq : Z;
  rec_record_id : string;
  rec_operation_id : string;
  rec_key_fingerprint : string;
  rec_actor : string;
  rec_principal : option string;
  rec_authorities : list string;
  rec_operations : list TopologyMutation;
  rec_status : TopologyOperationRecordStatus;
  rec_requested_at : string;
  rec_updated_at : string;
  rec_error_kind : option string;
  rec_error_message : option string;
}.
#[global] Instance TopologyOperationRecord_eq_dec : EqDecision TopologyOperationRecord.
Proof. solve_decision. Defined.

Record TopologyAuditPage := mkAuditPage {
  page_records : list TopologyOperationRecord;
  next_after_seq : Z;
  oldest_available_seq : option Z;
  latest_seq : Z;
  has_more : bool;
}.

(** ** The durable intent *)

Record IdempotencyRecord := mkIdempotency { idem_fingerprint : string; idem_operation_id : string }.
#[global] Instance IdempotencyRecord_eq_dec : EqDecision IdempotencyRecord.
Proof. solve_decision. Defined.

Inductive PendingTopologyPhase := Applying | RollingBack.
#[global] Instance PendingTopologyPhase_eq_dec : EqDecision PendingTopologyPhase.
Proof. solve_decision. Defined.

Record PendingTopologyOperation := mkPendingOp {
  pend_operation_id : string;
  pend_audit_record_id : string;
  pend_key : string;
  pend_fingerprint : string;
  pend_actor : string;
  pend_base_revision : Z;
  pend_target_revision : Z;
  pend_created_at : string;
  pend_reason : option string;
  pend_operations : list TopologyMutation;
  pend_phase : PendingTopologyPhase;
  rollback_additions : gset DesiredPeerEdge;
  rollback_suppressions : gset DesiredPeerEdge;
  rollback_cross_additions : gset TopologyEdge;
  rollback_cross_suppressions : gset TopologyEdge;
  rollback_revision : Z;
  last_recovery_error : option string;
  recovery_attempts : Z;
}.
#[global] Instance PendingTopologyOperation_eq_dec : EqDecision PendingTopologyOperation.
Proof. solve_decision. Defined.

Record BilateralCoordinatorBinding := mkBilateral { coordinator_id : string; journal_path : string }.
#[global] Instance BilateralCoordinatorBinding_eq_dec : EqDecision BilateralCoordinatorBinding.
Proof. solve_decision. Defined.

Record TopologyIntentState := mkIntent {
  schema_version : Z;
  st_authority : option string;
  revision : Z;
  additions : gset DesiredPeerEdge;
  suppressions : gset DesiredPeerEdge;
  cross_additions : gset TopologyEdge;
  cross_suppressions : gset TopologyEdge;
  receipts : list TopologyOperationReceipt;
  operation_records : list TopologyOperationRecord;
  last_operation_record_seq : Z;
  idempotency : gmap string IdempotencyRecord;
  compacted_idempotency : list string;
  bilateral_bindings : gmap string BilateralCoordinatorBinding;
  pending : option PendingTopologyOperation;
}.
#[global] Instance TopologyIntentState_eq_dec : EqDecision TopologyIntentState.
Proof. solve_decision. Defined.
Definition default_intent : TopologyIntentState := mkIntent 0 None 0 ∅ ∅ ∅ ∅ [] [] 0 ∅ [] ∅ None.

Record CommittedTopologyIntent := mkCommitted {
  committed_revision : Z;
  committed_additions : gset DesiredPeerEdge;
  committed_suppressions : gset DesiredPeerEdge;
  committed_cross_additions : gset TopologyEdge;
  committed_cross_suppressions : gset TopologyEdge;
}.
#[global] Instance CommittedTopologyIntent_eq_dec : EqDecision CommittedTopologyIntent.
Proof. solve_decision. Defined.

(** ** Errors *)

Inductive TopologyControlError :=
| InvalidPolicy (message : string)
| InvalidRequest (message : string)
| DurableStateRequired
| ReconnectTargetMissing (edge : TopologyEdge)
| DisconnectTargetMissing (edge : TopologyEdge)
| ReconnectRequired (edge : TopologyEdge)
| FeatureDisabled
| ReadOnly
| BulkDisabled
| BatchTooLarge (count max : Z)
| CrossAuthorityDisabled
| CrossAuthorityUnsupported
| ApprovalUnsupported (tier : string)
| AuthorityMismatch (message : string)
| TopologyAccessDenied (authority action identity : string)
| RevisionConflict (expected actual : Z)
| IdempotencyConflict (key : string)
| IdempotencyReceiptExpired (key operation_id : string)
| IdempotencyHistoryCompacted (key : string)
| OperationInProgress (operation_id : string)
| OperationNotFound (operation_id : string)
| AuditCursorExpired (after_seq oldest_available_seq : Z)
| MemberNotFound (identity : string)
| Actuator (message : string)
| Persistence (message : string)
| ApplyFailed (message : string) (receipt : TopologyOperationReceipt).
#[global] Instance TopologyControlError_eq_dec : EqDecision TopologyControlError.
Proof. solve_decision. Defined.

Definition error_kind (e : TopologyControlError) : string :=
  match e with
  | InvalidPolicy _ => "invalid_policy"
  | InvalidRequest _ => "invalid_request"
  | DurableStateRequired => "topology_durable_state_required"
  | ReconnectTargetMissing _ => "topology_reconnect_target_missing"
  | DisconnectTargetMissing _ => "topology_disconnect_target_missing"
  | ReconnectRequired _ => "topology_reconnect_required"
  | FeatureDisabled => "topology_control_disabled"
  | ReadOnly => "topology_control_read_only"
  | BulkDisabled => "topology_bulk_disabled"
  | BatchTooLarge _ _ => "topology_batch_too_large"
  | CrossAuthorityDisabled => "topology_cross_authority_disabled"
  | CrossAuthorityUnsupported => "topology_cross_authority_unsupported"
  | ApprovalUnsupported _ => "topology_approval_unsupported"
  | AuthorityMismatch _ => "topology_authority_mismatch"
  | TopologyAccessDenied _ _ _ => "topology_access_denied"
  | RevisionConflict _ _ => "topology_revision_conflict"
  | IdempotencyConflict _ => "topology_idempotency_conflict"
  | IdempotencyReceiptExpired _ _ => "topology_idempotency_receipt_expired"
  | IdempotencyHistoryCompacted _ => "topology_idempotency_history_compacted"
  | OperationInProgress _ => "topology_operation_in_progress"
  | OperationNotFound _ => "topology_operation_not_found"
  | AuditCursorExpired _ _ => "topology_audit_cursor_expired"
  | MemberNotFound _ => "topology_member_not_found"
  | Actuator _ => "topology_actuator_failed"
  | Persistence _ => "topology_persistence_failed"
  | ApplyFailed _ _ => "topology_apply_failed"
  end.

Definition error_receipt (e : TopologyControlError) : option TopologyOperationReceipt :=
  match e with ApplyFailed _ receipt => Some receipt | _ => None end.

Definition pair_text (e : TopologyEdge) : string := ep_identity (edge_a e) +:+ " <-> " +:+ ep_identity (edge_b e).
Definition error_text `{DebugText} (e : TopologyControlError) : string :=
  match e with
  | InvalidPolicy message => "invalid topology policy: " +:+ message
  | InvalidRequest message => "invalid topology request: " +:+ message
  | DurableStateRequired => "editable topology control requires a durable topology state path"
  | ReconnectTargetMissing edge =>
      "reconnect requires an existing desired, suppressed, or historical edge: " +:+ pair_text edge
  | DisconnectTargetMissing edge =>
      "disconnect requires an existing desired, actual, or suppressed edge: " +:+ pair_text edge
  | ReconnectRequired edge =>
      "edge " +:+ pair_text edge +:+
      " already has topology history; reconnect permission is required to repair or restore it"
  | FeatureDisabled => "topology control is disabled"
  | ReadOnly => "topology control is read-only"
  | BulkDisabled => "bulk topology mutation is disabled"
  | BatchTooLarge count max =>
      "topology batch has " +:+ fmt_dec count +:+ " operations; maximum is " +:+ fmt_dec max
  | CrossAuthorityDisabled => "cross-authority topology is disabled"
  | CrossAuthorityUnsupported =>
      "cross-authority topology requires bilateral delegated authorization and is not available"
  | ApprovalUnsupported tier =>
      "topology risk tier " +:+ tier +:+ " requires atomic approval admission, which is not available"
  | AuthorityMismatch message => "topology authority mismatch: " +:+ message
  | TopologyAccessDenied authority action identity =>
      "topology access denied by authority " +:+ debug_quote authority +:+ ": " +:+ action +:+ " on " +:+ debug_quote identity
  | RevisionConflict expected actual =>
      "topology revision conflict: expected " +:+ fmt_dec expected +:+ ", actual " +:+ fmt_dec actual
  | IdempotencyConflict key => "idempotency key " +:+ debug_quote key +:+ " was reused with a different request"
  | IdempotencyReceiptExpired key operation_id =>
      "idempotency key " +:+ debug_quote key +:+ " was already committed as " +:+ operation_id +:+
      ", but its receipt has expired"
  | IdempotencyHistoryCompacted key =>
      "idempotency key " +:+ debug_quote key +:+
      " may refer to compacted topology history; choose a new key only for a genuinely new operation"
  | OperationInProgress id => "topology operation is still in progress: " +:+ id
  | OperationNotFound id => "topology operation not found: " +:+ id
  | AuditCursorExpired after_seq oldest =>
      "topology audit cursor " +:+ fmt_dec after_seq +:+
      " predates retained history; oldest available sequence is " +:+ fmt_dec oldest
  | MemberNotFound id => "topology member not found: " +:+ id
  | Actuator message => "topology actuator failed: " +:+ message
  | Persistence message => "topology persistence failed: " +:+ message
  | ApplyFailed message _ => "topology apply failed: " +:+ message
  end.

Definition policy_validate (p : TopologyControlPolicy) : Result unit TopologyControlError :=
  if (max_batch_size p =? 0) || (MAX_POLICY_BATCH_SIZE <? max_batch_size p)
  then Err (InvalidPolicy "max_batch_size must be in 1..=1024")
  else if (receipt_limit p =? 0) || (65536 <? receipt_limit p)
  then Err (InvalidPolicy "receipt_limit must be in 1..=65536")
  else if (idempotency_history_limit p =? 0) || (65536 <? idempotency_history_limit p)
  then Err (InvalidPolicy "idempotency_history_limit must be in 1..=65536")
  else Ok tt.

(** ** Canonical edges *)

Definition endpoint_local (identity : string) : TopologyEndpoint := mkEndpoint None identity.

Definition endpoint_normalize `{DebugText} (e : TopologyEndpoint) (local_authority : string)
    : Result TopologyEndpoint TopologyControlError :=
  let identity := trim (ep_identity e) in
  if str_is_empty identity then Err (InvalidRequest "topology endpoint identity must not be empty")
  else
    identity ←? map_err (λ error, InvalidRequest ("invalid topology endpoint identity " +:+ debug_quote identity +:+
                                                  ": " +:+ invalid_identity_display error)) (parse_identity identity);
    Ok (mkEndpoint
          (opt_or (opt_filter (λ authority, negb (str_is_empty authority)) (trim <$> ep_authority e))
                  (Some local_authority))
          identity).

Definition edge_new (a b : TopologyEndpoint) : Result TopologyEdge TopologyControlError :=
  if str_is_empty (trim (ep_identity a)) || str_is_empty (trim (ep_identity b))
  then Err (InvalidRequest "topology edge endpoints must not be empty")
  else if a =b b then Err (InvalidRequest "topology self-edges are not allowed")
  else if bool_decide (key_le a b) then Ok (mkEdge a b) else Ok (mkEdge b a).

Definition edge_normalize `{DebugText} (e : TopologyEdge) (local_authority : string)
    : Result TopologyEdge TopologyControlError :=
  a ←? endpoint_normalize (edge_a e) local_authority;
  b ←? endpoint_normalize (edge_b e) local_authority;
  edge_new a b.

Definition is_local_to (e : TopologyEdge) (authority : string) : bool :=
  (ep_authority (edge_a e) =b Some authority) && (ep_authority (edge_b e) =b Some authority).

Definition local_desired_edge (e : TopologyEdge) (authority : string) : option DesiredPeerEdge :=
  if negb (is_local_to e authority) then None
  else match peer_edge_new (ep_identity (edge_a e)) (ep_identity (edge_b e)) with Ok d => Some d | Err _ => None end.

Definition local_topology_edge (authority : string) (edge : DesiredPeerEdge) : Result TopologyEdge TopologyControlError :=
  let '(a, b) := endpoints edge in
  edge_new (mkEndpoint (Some authority) a) (mkEndpoint (Some authority) b).

Definition managed_peer_edge_from_desired `{DebugText} (edge : DesiredPeerEdge) : Result ManagedPeerEdge TopologyControlError :=
  let '(a, b) := endpoints edge in
  let parse s := map_err (λ error, InvalidRequest ("invalid logical identity " +:+ debug_quote s +:+ ": " +:+
                                                   invalid_identity_display error)) (parse_identity s) in
  a ←? parse a;
  b ←? parse b;
  map_err InvalidRequest (managed_peer_edge_new a b).

(** The first error of a [collect] into a [Result]. *)
Fixpoint traverse {A B E} (f : A → Result B E) (l : list A) : Result (list B) E :=
  match l with
  | [] => Ok []
  | x :: rest => y ←? f x; ys ←? traverse f rest; Ok (y :: ys)
  end.
