(* ===== verification/TopologyState.v ===== *)
(** * Topology control: the pure part of the controller ([topology_control.rs])

    Transitions of the durable intent and of its audit records and receipts, request
    validation, planning and projection.  A function that reads the clock takes the
    number of the observation; SHA-256 and the name-based UUID are classes. *)

From S2P Require Import Prelude Strings ContinuityTypes MemoryRecords MemberIds TopologyTypes.
Open Scope Z_scope.

(** [chrono::Utc::now().to_rfc3339()], the [n]-th observation *)
Class UtcClock := utc_now : nat → string.
(** [Uuid::new_v5(&NAMESPACE_OID, bytes)] *)
Class UuidV5 := uuid_v5 : string → string.
(** [serde_json::to_vec(request)] *)
Class RequestJson := request_json : TopologyApplyRequest → Result string string.

(** ** Setters *)

Definition with_records (st : TopologyIntentState) rs last : TopologyIntentState :=
  mkIntent (schema_version st) (st_authority st) (revision st) (additions st) (suppressions st) (cross_additions st)
    (cross_suppressions st) (receipts st) rs last (idempotency st) (compacted_idempotency st) (bilateral_bindings st) (pending st).
Definition with_receipts (st : TopologyIntentState) rs idem compacted : TopologyIntentState :=
  mkIntent (schema_version st) (st_authority st) (revision st) (additions st) (suppressions st) (cross_additions st)
    (cross_suppressions st) rs (operation_records st) (last_operation_record_seq st) idem compacted (bilateral_bindings st) (pending st).
Definition with_pending (st : TopologyIntentState) p : TopologyIntentState :=
  mkIntent (schema_version st) (st_authority st) (revision st) (additions st) (suppressions st) (cross_additions st)
    (cross_suppressions st) (receipts st) (operation_records st) (last_operation_record_seq st) (idempotency st)
    (compacted_idempotency st) (bilateral_bindings st) p.
Definition with_intent (st : TopologyIntentState) (c : CommittedTopologyIntent) : TopologyIntentState :=
  mkIntent (schema_version st) (st_authority st) (committed_revision c) (committed_additions c) (committed_suppressions c)
    (committed_cross_additions c) (committed_cross_suppressions c) (receipts st) (operation_records st)
    (last_operation_record_seq st) (idempotency st) (compacted_idempotency st) (bilateral_bindings st) (pending st).
Definition with_authority (st : TopologyIntentState) version authority : TopologyIntentState :=
  mkIntent version authority (revision st) (additions st) (suppressions st) (cross_additions st)
    (cross_suppressions st) (receipts st) (operation_records st) (last_operation_record_seq st) (idempotency st)
    (compacted_idempotency st) (bilateral_bindings st) (pending st).

(** The intent the fields of a state hold, whatever its journal says. *)
Definition current_intent (st : TopologyIntentState) : CommittedTopologyIntent :=
  mkCommitted (revision st) (additions st) (suppressions st) (cross_additions st) (cross_suppressions st).
Definition rollback_intent (p : PendingTopologyOperation) : CommittedTopologyIntent :=
  mkCommitted (rollback_revision p) (rollback_additions p) (rollback_suppressions p)
    (rollback_cross_additions p) (rollback_cross_suppressions p).

Definition committed_intent (st : TopologyIntentState) : CommittedTopologyIntent :=
  match pending st with Some p => rollback_intent p | None => current_intent st end.

(** [iter_mut().find(p)] followed by an update of what was found *)
Fixpoint update_first {A} (p : A → bool) (f : A → A) (l : list A) : list A :=
  match l with
  | [] => []
  | x :: rest => if p x then f x :: rest else x :: update_first p f rest
  end.

(** ** Audit records *)

Definition operation_record_status_is_terminal (s : TopologyOperationRecordStatus) : bool :=
  match s with
  | RecDenied | RecInvalid | RecConflict | RecApplied | RecNoop | RecRolledBack | RecInterrupted => true
  | _ => false
  end.

Definition status_of_receipt (s : TopologyOperationStatus) : TopologyOperationRecordStatus :=
  match s with
  | OpPending => RecNoop
  | OpApplied => RecApplied
  | OpNoop => RecNoop
  | OpRolledBack => RecRolledBack
  | OpPartialDegraded => RecPartialDegraded
  end.

Definition operation_record_outcome (result : Result TopologyOperationReceipt TopologyControlError)
    : TopologyOperationRecordStatus * option TopologyControlError :=
  match result with
  | Ok receipt => (status_of_receipt (receipt_status receipt), None)
  | Err error =>
      (match error with
       | FeatureDisabled | ReadOnly | TopologyAccessDenied _ _ _ | DurableStateRequired => RecDenied
       | RevisionConflict _ _ | IdempotencyConflict _ | IdempotencyReceiptExpired _ _ | IdempotencyHistoryCompacted _
       | OperationInProgress _ => RecConflict
       | ApplyFailed _ receipt =>
           match receipt_status receipt with
           | OpRolledBack => RecRolledBack
           | OpPartialDegraded => RecPartialDegraded
           | _ => RecRecoveryFailed
           end
       | Actuator _ | Persistence _ => RecRecoveryFailed
       | _ => RecInvalid
       end, Some error)
  end.

Section clock.
Context `{UtcClock}.

Definition set_operation_record_status (n : nat) (r : TopologyOperationRecord)
    (status : TopologyOperationRecordStatus) (kind : option string) : TopologyOperationRecord :=
  if operation_record_status_is_terminal (rec_status r) then r
  else mkOpRecord (rec_version r) (rec_seq r) (rec_record_id r) (rec_operation_id r) (rec_key_fingerprint r) (rec_actor r)
         (rec_principal r) (rec_authorities r) (rec_operations r) status (rec_requested_at r) (utc_now n) kind
         ((λ kind, "topology operation failed (" +:+ kind +:+ ")") <$> kind).

Definition has_record_id (id : string) (r : TopologyOperationRecord) : bool := rec_record_id r =b id.

(** The record with [record_id = id], if it is retained, gets the status. *)
Definition mark_record (n : nat) (id : string) status kind (st : TopologyIntentState) : TopologyIntentState :=
  with_records st (update_first (has_record_id id) (λ r, set_operation_record_status n r status kind) (operation_records st))
    (last_operation_record_seq st).

(** The audit record a pending journal owns. *)
Definition owns_record (p : PendingTopologyOperation) (r : TopologyOperationRecord) : bool :=
  (negb (str_is_empty (pend_audit_record_id p)) && (rec_record_id r =b pend_audit_record_id p)) ||
  (str_is_empty (pend_audit_record_id p) && (rec_operation_id r =b pend_operation_id p) &&
   negb (operation_record_status_is_terminal (rec_status r))).
Definition mark_owned (n : nat) (p : PendingTopologyOperation) status kind (st : TopologyIntentState) : TopologyIntentState :=
  with_records st (update_first (owns_record p) (λ r, set_operation_record_status n r status kind) (operation_records st))
    (last_operation_record_seq st).

Definition reconcile_record (n : nat) (rs : list TopologyOperationReceipt) (pend : option (string * string * bool))
    (r : TopologyOperationRecord) : TopologyOperationRecord :=
  if operation_record_status_is_terminal (rec_status r) then r
  else
    let by_receipt :=
      match find_first (λ receipt, receipt_operation_id receipt =b rec_operation_id r) rs with
      | Some receipt =>
          let status := match receipt_status receipt with
                        | OpPending => RecNoop
                        | OpApplied => RecApplied
                        | OpNoop => RecNoop
                        | OpRolledBack => RecRolledBack
                        | OpPartialDegraded => RecInterrupted
                        end in
          set_operation_record_status n r status None
      | None => set_operation_record_status n r RecInterrupted (Some "topology_operation_interrupted")
      end in
    match pend with
    | Some (operation_id, audit_record_id, degraded) =>
        if (negb (str_is_empty audit_record_id) && (rec_record_id r =b audit_record_id)) ||
           (str_is_empty audit_record_id && (rec_operation_id r =b operation_id))
        then set_operation_record_status n r (if degraded then RecRecoveryFailed else RecPending)
               (if (degraded : bool) then Some "topology_actuator_failed" else None)
        else by_receipt
    | None => by_receipt
    end.
Fixpoint reconcile_persisted_operation_records (n : nat) (records : list TopologyOperationRecord)
    (rs : list TopologyOperationReceipt) (pend : option (string * string * bool)) : list TopologyOperationRecord :=
  match records with
  | [] => []
  | r :: rest => reconcile_record n rs pend r :: reconcile_persisted_operation_records (S n) rest rs pend
  end.
Definition pending_audit (st : TopologyIntentState) : option (string * string * bool) :=
  (λ p, (pend_operation_id p, pend_audit_record_id p, is_some (last_recovery_error p))) <$> pending st.
Definition reconcile_records (n : nat) (st : TopologyIntentState) : TopologyIntentState :=
  with_records st (reconcile_persisted_operation_records n (operation_records st) (receipts st) (pending_audit st))
    (last_operation_record_seq st).
End clock.

Definition set_seq (r : TopologyOperationRecord) (seq : Z) : TopologyOperationRecord :=
  mkOpRecord (rec_version r) seq (rec_record_id r) (rec_operation_id r) (rec_key_fingerprint r) (rec_actor r)
    (rec_principal r) (rec_authorities r) (rec_operations r) (rec_status r) (rec_requested_at r) (rec_updated_at r)
    (rec_error_kind r) (rec_error_message r).

Fixpoint assign_seqs (next : Z) (records : list TopologyOperationRecord) : list TopologyOperationRecord * Z :=
  match records with
  | [] => ([], next)
  | r :: rest =>
      if rec_seq r =? 0 then
        let next := u64_saturating_add next 1 in
        let '(rest', last) := assign_seqs next rest in (set_seq r next :: rest', last)
      else let '(rest', last) := assign_seqs next rest in (r :: rest', last)
  end.
Definition normalize_operation_record_sequences (records : list TopologyOperationRecord) (last_seq : Z)
    : list TopologyOperationRecord * Z :=
  assign_seqs (Z.max last_seq (foldr Z.max 0 (rec_seq <$> records))) records.

Definition audit_limit (p : TopologyControlPolicy) : Z := u64_clamp 16 4096 (u64_saturating_mul (receipt_limit p) 4).
(** The record is given its sequence number in passing. *)
Definition append_operation_record (p : TopologyControlPolicy) (st : TopologyIntentState) (r : TopologyOperationRecord)
    : TopologyIntentState :=
  let last := u64_saturating_add (last_operation_record_seq st) 1 in
  with_records st (shrink_front (Z.to_nat (audit_limit p)) (operation_records st ++ [set_seq r last])) last.

Definition audit_page (records : list TopologyOperationRecord) (latest : Z) (after_seq : option Z) (limit : Z)
    : Result TopologyAuditPage TopologyControlError :=
  let oldest := rec_seq <$> head records in
  let requested := match after_seq with
                   | Some a => a
                   | None => unwrap_or ((λ o, u64_saturating_sub o 1) <$> oldest) latest
                   end in
  if is_some after_seq && negb (requested =? 0) && is_some_and oldest (λ o, u64_saturating_add requested 1 <? o)
  then Err (AuditCursorExpired requested (unwrap_or oldest 0))
  else
    let limit := Z.to_nat (u64_clamp 1 4096 limit) in
    let matching := List.filter (λ r, requested <? rec_seq r) records in
    let page := take limit matching in
    Ok (mkAuditPage page (unwrap_or (rec_seq <$> last page) requested) oldest latest (negb (is_empty (drop limit matching)))).

(** ** Receipts and idempotency *)

Definition idempotency_key_fingerprint `{Sha256} (key : string) : string := hex_bytes (sha256 key).
Definition request_fingerprint `{Sha256} `{RequestJson} (request : TopologyApplyRequest) : Result string TopologyControlError :=
  bytes ←? map_err InvalidRequest (request_json request);
  Ok (hex_bytes (sha256 bytes)).
Definition operation_id `{UuidV5} (key fingerprint : string) : string :=
  uuid_v5 ("meta-topology:" +:+ key +:+ ":" +:+ fingerprint).

Section receipts.
Context `{Sha256}.

Definition push_compacted (compacted : list string) (key : string) : list string :=
  let c := idempotency_key_fingerprint key in
  if existsb (λ x, x =b c) compacted then compacted else compacted ++ [c].

Fixpoint evict_receipts (limit : nat) (rs : list TopologyOperationReceipt) (idem : gmap string IdempotencyRecord)
    (compacted : list string) : list TopologyOperationReceipt * gmap string IdempotencyRecord * list string :=
  match rs with
  | [] => (rs, idem, compacted)
  | evicted :: rest =>
      if (length rs <=? limit)%nat then (rs, idem, compacted)
      else evict_receipts limit rest (delete (receipt_key evicted) idem) (push_compacted compacted (receipt_key evicted))
  end.

Definition record_receipt (p : TopologyControlPolicy) (st : TopologyIntentState) (receipt : TopologyOperationReceipt)
    (fingerprint : string) : TopologyIntentState :=
  let idem := <[receipt_key receipt := mkIdempotency fingerprint (receipt_operation_id receipt)]> (idempotency st) in
  let '(rs, idem, compacted) :=
    evict_receipts (Z.to_nat (receipt_limit p)) (receipts st ++ [receipt]) idem (compacted_idempotency st) in
  with_receipts st rs idem (shrink_front (Z.to_nat (idempotency_history_limit p)) compacted).

Definition compacted_idempotency_contains (st : TopologyIntentState) (key : string) : bool :=
  existsb (λ x, x =b idempotency_key_fingerprint key) (compacted_idempotency st).
End receipts.

Definition pending_receipt (p : PendingTopologyOperation) : TopologyOperationReceipt :=
  let degraded := is_some (last_recovery_error p) in
  mkTopologyReceipt (pend_operation_id p) (pend_key p) (pend_actor p)
    (if degraded then OpPartialDegraded else OpPending) (pend_base_revision p) (pend_target_revision p)
    (pend_created_at p) (pend_reason p)
    ((λ op, mkEdgeResult (mut_action op) (mut_edge op) (if degraded then EdgeRollbackFailed else EdgePending)
              false false (last_recovery_error p)) <$> pend_operations p) ∅.

Definition terminal_receipt_from_pending (p : PendingTopologyOperation) (status : TopologyOperationStatus)
    (error : option string) : TopologyOperationReceipt :=
  let edge_status := match status with
                     | OpApplied => EdgeApplied
                     | OpRolledBack => EdgeRolledBack
                     | OpNoop => EdgeNoop
                     | OpPending => EdgePending
                     | OpPartialDegraded => EdgeRollbackFailed
                     end in
  mkTopologyReceipt (pend_operation_id p) (pend_key p) (pend_actor p) status (pend_base_revision p)
    (pend_target_revision p) (pend_created_at p) (pend_reason p)
    ((λ op, mkEdgeResult (mut_action op) (mut_edge op) edge_status false
              match mut_action op with Connect | Reconnect => true | Disconnect => false end error) <$> pend_operations p) ∅.

(** ** Readers of the intent *)

Definition compose_declared (st : TopologyIntentState) (declared : list DesiredPeerEdge) : list DesiredPeerEdge :=
  oset_elements ((list_to_set declared ∪ additions st) ∖ suppressions st).

Definition has_pending (st : TopologyIntentState) : bool := is_some (pending st).
Definition pending_operation_id (st : TopologyIntentState) : option string := pend_operation_id <$> pending st.
Definition needs_recovery_or_reconcile (st : TopologyIntentState) : bool :=
  is_some (pending st) ||
  existsb (λ r, negb (operation_record_status_is_terminal (rec_status r))) (operation_records st).
Definition operation_records_newest (st : TopologyIntentState) (limit : Z) : list TopologyOperationRecord :=
  take (Z.to_nat (u64_clamp 1 4096 limit)) (rev (operation_records st)).

Definition parse_persisted `{DebugText} (s : string) : Result string TopologyControlError :=
  map_err (λ error, InvalidRequest ("invalid persisted topology identity " +:+ debug_quote s +:+ ": " +:+
                                    invalid_identity_display error)) (parse_identity s).

Definition pending_local_recovery_edges `{DebugText} (st : TopologyIntentState)
    : Result (gset DesiredPeerEdge) TopologyControlError :=
  match pending st with
  | None => Ok ∅
  | Some p =>
      authority ←? ok_or (st_authority st) (Persistence "pending topology recovery has no bound authority");
      edges ←? traverse (λ edge : DesiredPeerEdge,
                 let '(a, b) := endpoints edge in
                 a ←? parse_persisted a; b ←? parse_persisted b; Ok (sorted_pair a b))
               (omap (λ m, local_desired_edge (mut_edge m) authority) (pend_operations p));
      Ok (list_to_set edges)
  end.

Definition desired_of_managed (edge : ManagedPeerEdge) : Result DesiredPeerEdge TopologyControlError :=
  map_err (λ error, InvalidRequest (peer_edge_error_text error)) (peer_edge_new edge.1 edge.2).

Definition compose_managed_peer_edges `{DebugText} (st : TopologyIntentState) (declared : list ManagedPeerEdge)
    : Result (list ManagedPeerEdge) TopologyControlError :=
  desired ←? traverse desired_of_managed declared;
  traverse (λ edge : DesiredPeerEdge,
    let '(a, b) := endpoints edge in
    a ←? parse_persisted a; b ←? parse_persisted b;
    map_err InvalidRequest (managed_peer_edge_new a b)) (compose_declared st desired).

(** ** Request validation *)

Definition validate_batch (p : TopologyControlPolicy) (count : Z) : Result unit TopologyControlError :=
  if count =? 0 then Err (InvalidRequest "operations must not be empty")
  else if (1 <? count) && negb (allow_bulk p) then Err BulkDisabled
  else if max_batch_size p <? count then Err (BatchTooLarge count (max_batch_size p))
  else Ok tt.

Fixpoint unique_from (seen : gset TopologyEdge) (ops : list TopologyMutation) : Result unit TopologyControlError :=
  match ops with
  | [] => Ok tt
  | op :: rest =>
      if bool_decide (mut_edge op ∈ seen)
      then Err (InvalidRequest ("topology batch repeats canonical edge " +:+ pair_text (mut_edge op) +:+
                                "; split sequential intent changes into separate CAS revisions"))
      else unique_from ({[mut_edge op]} ∪ seen) rest
  end.
Definition validate_unique_operations (ops : list TopologyMutation) : Result unit TopologyControlError := unique_from ∅ ops.

Definition op_count (ops : list TopologyMutation) : Z := Z.of_nat (length ops).

Definition validate_local_apply_preflight (p : TopologyControlPolicy) (request : TopologyApplyRequest)
    : Result unit TopologyControlError :=
  match mode p with
  | ModeDisabled => Err FeatureDisabled
  | ModeReadOnly => Err ReadOnly
  | ModeEditable =>
      _ ←? validate_batch p (op_count (operations request));
      if str_is_empty (trim (idempotency_key request))
      then Err (InvalidRequest "idempotency_key must not be empty")
      else
        match risk_tier request with
        | Some tier =>
            if negb (str_is_empty (trim tier)) && negb (eq_ignore_ascii_case tier "r0")
            then Err (ApprovalUnsupported tier)
            else validate_unique_operations (operations request)
        | None => validate_unique_operations (operations request)
        end
  end.

Definition first_error {A} (f : A → option TopologyControlError) (l : list A) : Result unit TopologyControlError :=
  match omap f l with [] => Ok tt | error :: _ => Err error end.

Definition validate_known_endpoints (s : TopologySnapshot) (ops : list TopologyMutation) : Result unit TopologyControlError :=
  let known : gset TopologyEndpoint := list_to_set (node_endpoint <$> snap_nodes s) in
  first_error (λ endpoint, if bool_decide (endpoint ∈ known) then None else Some (MemberNotFound (ep_identity endpoint)))
    (ops ≫= λ op, [edge_a (mut_edge op); edge_b (mut_edge op)]).

Definition validate_reconnect_targets (s : TopologySnapshot) (ops : list TopologyMutation) : Result unit TopologyControlError :=
  let historical : gset TopologyEdge := list_to_set (snap_edge <$> snap_edges s) in
  first_error (λ op,
    if bool_decide (mut_edge op ∈ historical) then None
    else match mut_action op with
         | Reconnect => Some (ReconnectTargetMissing (mut_edge op))
         | Disconnect => Some (DisconnectTargetMissing (mut_edge op))
         | Connect => None
         end) ops.

Definition validate_connect_does_not_clear_suppression (s : TopologySnapshot) (ops : list TopologyMutation)
    : Result unit TopologyControlError :=
  let reconnect_required : gset TopologyEdge :=
    list_to_set (snap_edge <$> List.filter (λ e, suppressed e || (desired e && negb (actual e))) (snap_edges s)) in
  first_error (λ op,
    if (mut_action op =b Connect) && bool_decide (mut_edge op ∈ reconnect_required)
    then Some (ReconnectRequired (mut_edge op)) else None) ops.

Definition normalize_operations `{DebugText} (ops : list TopologyMutation) (local_authority : string)
    (p : TopologyControlPolicy) : Result (list TopologyMutation) TopologyControlError :=
  traverse (λ op,
    edge ←? edge_normalize (mut_edge op) local_authority;
    if negb (is_local_to edge local_authority)
    then if negb (allow_cross_authority p) then Err CrossAuthorityDisabled else Err CrossAuthorityUnsupported
    else Ok (mkMutation (mut_action op) edge)) ops.

(** ** Planning *)

(** The snapshot's edges keyed by edge: of two rows with one key the later one. *)
Definition row_of (s : TopologySnapshot) (edge : TopologyEdge) : option TopologyEdgeSnapshot :=
  find_first (λ row, snap_edge row =b edge) (rev (snap_edges s)).

Definition plan_operation (s : TopologySnapshot) (op : TopologyMutation) : TopologyPlannedEdge :=
  let before := row_of s (mut_edge op) in
  let actual_now := is_some_and before actual in
  let desired_now := is_some_and before desired in
  let after := negb (mut_action op =b Disconnect) in
  mkPlanned (mut_action op) (mut_edge op) actual_now desired_now after (is_some_and before declared)
    (is_some_and before operator_added) (is_some_and before suppressed)
    ((mut_action op =b Reconnect) || negb (eqb actual_now after))
    (negb (eqb desired_now after) || ((mut_action op =b Reconnect) && is_some_and before suppressed)).
Definition plan_from_snapshot (s : TopologySnapshot) (ops : list TopologyMutation) : TopologyPlan :=
  mkPlan (snap_authority s) (snap_revision s) (plan_operation s <$> ops).

(** One planned operation's effect on the intent, given the declared edges. *)
Definition apply_intent (declared : gset DesiredPeerEdge) (action : TopologyAction) (edge : DesiredPeerEdge)
    (st : TopologyIntentState) : TopologyIntentState :=
  match action with
  | Connect | Reconnect =>
      with_intent st (mkCommitted (revision st)
        (if bool_decide (edge ∈ declared) then additions st else {[edge]} ∪ additions st) (suppressions st ∖ {[edge]})
        (cross_additions st) (cross_suppressions st))
  | Disconnect =>
      with_intent st (mkCommitted (revision st) (additions st ∖ {[edge]}) ({[edge]} ∪ suppressions st)
        (cross_additions st) (cross_suppressions st))
  end.

(** ** Projection of the roster *)

(** The fields of [MobMemberListEntry] the crate reads. *)
Record MobMember := mkMobMember {
  mob_identity : string;
  mob_role : string;
  mob_wired_to : list string;
  mob_labels : gmap string string;
}.

Definition node_le : relation TopologyNodeSnapshot := by_key node_endpoint key_le.
Definition snapshot_le : relation TopologyEdgeSnapshot := by_key snap_edge key_le.
#[global] Instance node_le_dec : RelDecision node_le.
Proof. unfold node_le. apply _. Defined.
#[global] Instance snapshot_le_dec : RelDecision snapshot_le.
Proof. unfold snapshot_le. apply _. Defined.

Definition member_view (m : MobMember) : EdgeMemberView :=
  mkMemberView (runtime_alias_str (mob_identity m)) (mob_role m) (list_to_set (runtime_alias_str <$> mob_wired_to m)) (mob_labels m).
Definition directed_edges (members : list MobMember) : gset (string * string) :=
  list_to_set (members ≫= λ m, (λ peer, (runtime_alias_str (mob_identity m), runtime_alias_str peer)) <$> mob_wired_to m).
Definition mutual_edges (directed : gset (string * string)) : gset DesiredPeerEdge :=
  list_to_set (omap (λ '(a, b),
    if bool_decide ((b, a) ∈ directed) then match peer_edge_new a b with Ok e => Some e | Err _ => None end else None)
    (elements directed)).
Definition project_members (authority : string) (members : list MobMember)
    : list TopologyNodeSnapshot * gset DesiredPeerEdge * list EdgeMemberView :=
  (merge_sort node_le ((λ m, mkNode (mkEndpoint (Some authority) (runtime_alias_str (mob_identity m))) (mob_role m) (mob_labels m) None) <$> members),
   mutual_edges (directed_edges members), member_view <$> members).

(** The rows of one authority's own edges and of its half of the cross-authority intent. *)
Definition local_row (authority : string) (declared_edges actual_edges : gset DesiredPeerEdge) (c : CommittedTopologyIntent)
    (edge : DesiredPeerEdge) : Result TopologyEdgeSnapshot TopologyControlError :=
  logical ←? local_topology_edge authority edge;
  let is_declared := bool_decide (edge ∈ declared_edges) in
  let added := bool_decide (edge ∈ committed_additions c) in
  let tombstone := bool_decide (edge ∈ committed_suppressions c) in
  Ok (mkEdgeSnapshot logical (bool_decide (edge ∈ actual_edges)) is_declared added tombstone ((is_declared || added) && negb tombstone)).
Definition cross_row (c : CommittedTopologyIntent) (edge : TopologyEdge) : TopologyEdgeSnapshot :=
  let added := bool_decide (edge ∈ committed_cross_additions c) in
  let tombstone := bool_decide (edge ∈ committed_cross_suppressions c) in
  mkEdgeSnapshot edge false false added tombstone (added && negb tombstone).
Definition append_cross_intent (c : CommittedTopologyIntent) (authority : string) (edges : list TopologyEdgeSnapshot)
    : list TopologyEdgeSnapshot :=
  edges ++ (cross_row c <$>
    List.filter (λ e, (ep_authority (edge_a e) =b Some authority) || (ep_authority (edge_b e) =b Some authority))
      (oset_elements (committed_cross_additions c ∪ committed_cross_suppressions c))).

(** [sort_by] of the standard library is a stable sort, as [merge_sort] is. *)
Definition snapshot_edges (authority : string) (declared_edges actual_edges : gset DesiredPeerEdge) (c : CommittedTopologyIntent)
    : Result (list TopologyEdgeSnapshot) TopologyControlError :=
  let all := declared_edges ∪ committed_additions c ∪ committed_suppressions c ∪ actual_edges in
  edges ←? traverse (local_row authority declared_edges actual_edges c) (oset_elements all);
  Ok (merge_sort snapshot_le (append_cross_intent c authority edges)).
