(* ===== verification/TopologyWorld.v ===== *)
(** * Topology control: the world it acts on

    What the control plane shares and changes: the policy, the intent in memory, the
    intent on disk, the dynamic edges it manages, and the calls it makes to the mob.
    Every effect is appended to a trace, so a cancelled future or a crash is a prefix
    of the trace of the operation that was running.  The file system, the mob handle,
    the application's edge discovery and the random UUIDs are [TopologyEnv]; the part
    of the identity runtime that topology control calls is the interface
    [IdentityTopology]. *)

From S2P Require Import Prelude Strings MemoryRecords MemberIds TopologyTypes TopologyState.
Open Scope Z_scope.

(** The report of [wire_members_batch]: roster ids. *)
Record WireReport := mkWireReport { report_wired : list (string * string); report_already_wired : list (string * string) }.

(** [persist_state]: the file is replaced by a rename; what fails before the rename
    leaves the old content, and the directory sync after it can fail too. *)
Inductive PersistOutcome := PersistOk | PersistFailed (renamed : bool) (error : string).

Record RosterSpec := mkRosterSpec { spec_identity : string; spec_profile : string; spec_labels : gmap string string }.

Inductive IdentityEdgeOwnership := TopologyProvider | WiredByThisProcess.

Class TopologyEnv := {
  env_clock :: UtcClock;
  env_uuid_v5 :: UuidV5;
  env_sha :: Sha256;
  env_request_json :: RequestJson;
  env_debug :: DebugText;
  uuid_v4 : nat → string;
  persist_outcome : nat → TopologyIntentState → PersistOutcome;
  list_members_including_retiring : nat → list MobMember;
  discover_edges : nat → list EdgeMemberView → list DesiredPeerEdge;
  get_member : nat → string → Result (option MobMember) string;
  wire_members_batch : nat → list (string * string) → Result WireReport string;
  unwire_members : nat → string → string → Result unit string;
}.

Class IdentityTopology := {
  topology_snapshot_inputs : nat → Result (list RosterSpec * list ManagedPeerEdge) string;
  logical_peer_edges : nat → Result (list ManagedPeerEdge) string;
  logical_peer_edges_any_half : nat → Result (list ManagedPeerEdge) string;
  managed_peer_edges_snapshot : nat → gset ManagedPeerEdge;
  reconcile_managed_peer_edges_admitted : nat → list ManagedPeerEdge → Result unit string;
  mutate_managed_peer_edge_admitted : nat → TopologyAction → ManagedPeerEdge → Result unit string;
  identity_edge_ownership : IdentityEdgeOwnership;
  definition_declared_identity_edges : nat → gset ManagedPeerEdge;
  pending_recovery_is_physically_complete : nat → list ManagedPeerEdge → gset DesiredPeerEdge → Result bool string;
}.

Inductive TopologyEvent :=
| EvPersisted (st : TopologyIntentState)
| EvPublished (st : TopologyIntentState)
| EvWire (edges : list (string * string)) (result : Result WireReport string)
| EvUnwire (a b : string) (result : Result unit string)
| EvMutate (action : TopologyAction) (edge : ManagedPeerEdge) (result : Result unit string)
| EvReconcile (desired : list ManagedPeerEdge) (result : Result unit string)
| EvRetain (edges : gset DesiredPeerEdge).

Record TopologyWorld := mkTopologyWorld {
  tw_policy : TopologyControlPolicy;
  tw_mem : TopologyIntentState;
  tw_disk : option TopologyIntentState;
  tw_durable : bool; (* [persist_path] is set *)
  tw_managed : gset (string * string);
  tw_step : nat;
  tw_trace : list TopologyEvent;
}.

(** [TopologyRuntimeHandle]: the mob id, whether edges are discovered, and whether
    identities own the topology. *)
Record TopologyRuntimeHandle := mkTopologyHandle {
  handle_authority : string;
  handle_discovery : bool;
  handle_identity : bool;
}.

Notation TM := (M TopologyWorld TopologyControlError).

Section world.
Context `{TopologyEnv}.

Definition observe : TM nat := λ w,
  (Ok (tw_step w),
   mkTopologyWorld (tw_policy w) (tw_mem w) (tw_disk w) (tw_durable w) (tw_managed w) (S (tw_step w)) (tw_trace w)).
Definition observe_many (k : nat) : TM nat := λ w,
  (Ok (tw_step w),
   mkTopologyWorld (tw_policy w) (tw_mem w) (tw_disk w) (tw_durable w) (tw_managed w) (tw_step w + k) (tw_trace w)).
Definition log_event (e : TopologyEvent) : TM unit :=
  modify (λ w, mkTopologyWorld (tw_policy w) (tw_mem w) (tw_disk w) (tw_durable w) (tw_managed w) (tw_step w) (tw_trace w ++ [e])).

(** The rename of [persist_state] *)
Definition rename_state (st : TopologyIntentState) : TM unit :=
  modify (λ w, mkTopologyWorld (tw_policy w) (tw_mem w) (Some st) (tw_durable w) (tw_managed w) (tw_step w)
                 (tw_trace w ++ [EvPersisted st])).
Definition persist_state (st : TopologyIntentState) : TM unit :=
  n ← observe;
  match persist_outcome n st with
  | PersistOk => rename_state st
  | PersistFailed renamed error => (if renamed then rename_state st else mret tt);; throw (Persistence error)
  end.
Definition persist_candidate (st : TopologyIntentState) : TM unit :=
  durable ← gets tw_durable;
  if (durable : bool) then persist_state st else mret tt.

(** [*self.inner.state.write().await = state] *)
Definition publish (st : TopologyIntentState) : TM unit :=
  modify (λ w, mkTopologyWorld (tw_policy w) st (tw_disk w) (tw_durable w) (tw_managed w) (tw_step w)
                 (tw_trace w ++ [EvPublished st])).
Definition commit_state (st : TopologyIntentState) : TM unit := persist_candidate st;; publish st.
Definition set_managed (edges : gset (string * string)) : TM unit :=
  modify (λ w, mkTopologyWorld (tw_policy w) (tw_mem w) (tw_disk w) (tw_durable w) edges (tw_step w) (tw_trace w)).

(** ** The mob's actuators *)

Definition call_wire (edges : list (string * string)) : TM (Result WireReport string) :=
  n ← observe;
  let r := wire_members_batch n edges in
  log_event (EvWire edges r);; mret r.
Definition call_unwire (a b : string) : TM (Result unit string) :=
  n ← observe;
  let r := unwire_members n a b in
  log_event (EvUnwire a b r);; mret r.

Definition wire_edge (edge : DesiredPeerEdge) : TM (Result unit string) :=
  let '(a, b) := endpoints edge in
  r ← call_wire [(mob_member_id a, mob_member_id b)];
  match r with
  | Err error => mret (Err error)
  | Ok report =>
      if is_empty (report_wired report) && is_empty (report_already_wired report)
      then mret (Err "wire_members_batch omitted edge from report") else mret (Ok tt)
  end.
Definition unwire_edge (edge : DesiredPeerEdge) : TM (Result unit string) :=
  let '(a, b) := endpoints edge in call_unwire (mob_member_id a) (mob_member_id b).
Definition reconnect_edge (edge : DesiredPeerEdge) (has_any_half : bool) : TM (Result unit string) :=
  if has_any_half then
    r ← unwire_edge edge;
    match r with Err error => mret (Err error) | Ok _ => wire_edge edge end
  else wire_edge edge.

Definition lookup_member (id name : string) : TM MobMember :=
  n ← observe;
  m ← lift_result (map_err Actuator (get_member n id));
  lift_result (ok_or m (MemberNotFound name)).
Definition edge_actual_state (edge : DesiredPeerEdge) : TM (bool * bool) :=
  let '(a, b) := endpoints edge in
  a_member ← lookup_member (mob_member_id a) a;
  b_member ← lookup_member (mob_member_id b) b;
  mret (existsb (λ peer, runtime_alias_str peer =b b) (mob_wired_to a_member),
        existsb (λ peer, runtime_alias_str peer =b a) (mob_wired_to b_member)).

Fixpoint rollback_changes (undo : DesiredPeerEdge → bool → TM (Result unit string)) (changes : list (DesiredPeerEdge * bool))
    : TM (list (DesiredPeerEdge * string)) :=
  match changes with
  | [] => mret []
  | (edge, was_connected) :: rest =>
      r ← undo edge was_connected;
      failures ← rollback_changes undo rest;
      mret match r with Ok _ => failures | Err error => (edge, error) :: failures end
  end.
Definition undo_physical (edge : DesiredPeerEdge) (was_connected : bool) : TM (Result unit string) :=
  if was_connected then wire_edge edge else unwire_edge edge.
Definition rollback_physical (changes : list (DesiredPeerEdge * bool)) : TM (list (DesiredPeerEdge * string)) :=
  rollback_changes undo_physical (rev changes).

Context `{IdentityTopology}.

Definition call_mutate (action : TopologyAction) (edge : ManagedPeerEdge) : TM (Result unit string) :=
  n ← observe;
  let r := mutate_managed_peer_edge_admitted n action edge in
  log_event (EvMutate action edge r);; mret r.
Definition undo_identity (edge : DesiredPeerEdge) (was_connected : bool) : TM (Result unit string) :=
  match managed_peer_edge_from_desired edge with
  | Err error => mret (Err (error_text error))
  | Ok managed => call_mutate (if was_connected then Connect else Disconnect) managed
  end.
Definition rollback_identity_physical (changes : list (DesiredPeerEdge * bool)) : TM (list (DesiredPeerEdge * string)) :=
  rollback_changes undo_identity (rev changes).
End world.

(** ** Crashes and cancelled futures

    The memory and the disk after a prefix of the effects. *)
Definition replay_mem (mem : TopologyIntentState) (e : TopologyEvent) : TopologyIntentState :=
  match e with EvPublished st => st | _ => mem end.
Definition replay_disk (disk : option TopologyIntentState) (e : TopologyEvent) : option TopologyIntentState :=
  match e with EvPersisted st => Some st | _ => disk end.

Lemma replay_snoc (es : list TopologyEvent) e m d :
  foldl replay_mem m (es ++ [e]) = replay_mem (foldl replay_mem m es) e ∧
  foldl replay_disk d (es ++ [e]) = replay_disk (foldl replay_disk d es) e.
Proof. by rewrite !foldl_app. Qed.
