(* ===== verification/EdgeReconcile.v ===== *)
(** * Edge reconciliation ([unified_runtime/edge_reconcile.rs] and the identity-first
      reconcile of [topology_control.rs])

    The default discovery policy of a mob definition, the diff of desired against
    managed edges that wires and unwires, and the identity-first form that goes
    through the identity runtime.  Unwires run in request order; the source runs up to
    64 at once and collects them as they complete, which only orders the report. *)

From S2P Require Import Prelude Strings MemberIds TopologyTypes TopologyState TopologyWorld.
Open Scope Z_scope.

(** ** The definition's declared wiring *)

(** The wiring block of [meerkat_mob::MobDefinition]. *)
Record MobWiring := mkWiring {
  wiring_auto_orchestrator : bool;
  wiring_role_wiring : list (string * string);
  wiring_orchestrator : option string; (* the orchestrator's profile *)
}.

Record DefinitionWiringEdgeDiscovery := mkDefinitionWiring {
  auto_wire_orchestrator : bool;
  orchestrator_profile : option string;
  role_wiring : list (string * string);
}.

Definition from_definition (d : MobWiring) : option DefinitionWiringEdgeDiscovery :=
  let auto := wiring_auto_orchestrator d && is_some (wiring_orchestrator d) in
  if negb auto && is_empty (wiring_role_wiring d) then None
  else Some (mkDefinitionWiring auto (wiring_orchestrator d) (wiring_role_wiring d)).

(** [if let Ok(edge) = DesiredPeerEdge::new(..)] *)
Definition ok_edge (a b : string) : list DesiredPeerEdge :=
  match peer_edge_new a b with Ok e => [e] | Err _ => [] end.

Definition role_pairs (members : list EdgeMemberView) (left right : EdgeMemberView → bool) : list DesiredPeerEdge :=
  l ← List.filter left members;
  r ← List.filter right members;
  ok_edge (view_identity l) (view_identity r).

Definition definition_desired_edges (d : DefinitionWiringEdgeDiscovery) (members : list EdgeMemberView) : list DesiredPeerEdge :=
  let auto :=
    if auto_wire_orchestrator d then
      match orchestrator_profile d with
      | Some profile => role_pairs members (λ m, view_role m =b profile) (λ m, negb (view_role m =b profile))
      | None => []
      end
    else [] in
  let roles := role_wiring d ≫= λ '(a, b), role_pairs members (λ m, view_role m =b a) (λ m, view_role m =b b) in
  oset_elements (list_to_set (auto ++ roles)).

(** ** The diff *)

Definition alias_ids (members : list MobMember) : gset string :=
  list_to_set ((λ m, runtime_alias_str (mob_identity m)) <$> members).
Definition current_wiring (members : list MobMember) : gset (string * string) :=
  list_to_set (members ≫= λ m, (λ peer, sorted_pair (runtime_alias_str (mob_identity m)) (runtime_alias_str peer)) <$> mob_wired_to m).

Inductive EdgeClass := ClassReserved | ClassMissing | ClassRetained | ClassHeal | ClassPreexisting | ClassWire.
#[global] Instance EdgeClass_eq_dec : EqDecision EdgeClass.
Proof. solve_decision. Defined.

Definition reserved_pair (e : string * string) : bool :=
  is_reserved_generated_alias e.1 || is_reserved_generated_alias e.2.
Definition present_pair (ids : gset string) (e : string * string) : bool :=
  bool_decide (e.1 ∈ ids) && bool_decide (e.2 ∈ ids).

Definition classify_desired (ids : gset string) (managed current : gset (string * string)) (e : string * string) : EdgeClass :=
  if reserved_pair e then ClassReserved
  else if negb (present_pair ids e) then ClassMissing
  else if bool_decide (e ∈ managed) then if bool_decide (e ∈ current) then ClassRetained else ClassHeal
  else if bool_decide (e ∈ current) then ClassPreexisting
  else ClassWire.

Inductive StaleClass := StaleReserved | StalePruned | StaleUnwire.
#[global] Instance StaleClass_eq_dec : EqDecision StaleClass.
Proof. solve_decision. Defined.
Definition classify_stale (ids : gset string) (current : gset (string * string)) (e : string * string) : StaleClass :=
  if reserved_pair e then StaleReserved
  else if negb (present_pair ids e) then StalePruned
  else if negb (bool_decide (e ∈ current)) then StalePruned
  else StaleUnwire.

Definition reserved_failure (operation : string) (e : DesiredPeerEdge) : EdgeReconcileFailure :=
  mkEdgeFailure e operation "generated aliases require IdentityRuntime topology authority".
Definition edges_of (l : list (string * string)) : list DesiredPeerEdge := l ≫= λ e, ok_edge e.1 e.2.

(** [BTreeSet] order on pairs of strings *)
Definition pairs_of (s : gset (string * string)) : list (string * string) := oset_elements (K := DesiredPeerEdge) s.

Section reconcile.
Context `{TopologyEnv}.

(** What the wire batch answered, in alias space: successes (with whether the edge is
    new) and failures. *)
Definition wire_outcome (to_wire : list (string * string * string)) (r : Result WireReport string)
    : list (string * string * bool) * list (string * string * string * string) :=
  match r with
  | Ok report =>
      let key (e : string * string) := sorted_pair (runtime_alias_str e.1) (runtime_alias_str e.2) in
      let successes := ((λ e, (key e, true)) <$> report_wired report) ++ ((λ e, (key e, false)) <$> report_already_wired report) in
      let seen : gset (string * string) := list_to_set successes.*1 in
      (successes,
       omap (λ '(a, b, operation),
         let k := sorted_pair a b in
         if bool_decide (k ∈ seen) then None else Some (k, operation, "wire_members_batch omitted edge from report")) to_wire)
  | Err error => ([], (λ '(a, b, operation), (a, b, operation, error)) <$> to_wire)
  end.

Definition run_wire (to_wire : list (string * string * string))
    : TM (list (string * string * bool) * list (string * string * string * string)) :=
  if is_empty to_wire then mret ([], [])
  else
    r ← call_wire ((λ '(a, b, _), (mob_member_id a, mob_member_id b)) <$> to_wire);
    mret (wire_outcome to_wire r).

Fixpoint run_unwires (to_unwire : list (string * string)) : TM (list (string * string * Result unit string)) :=
  match to_unwire with
  | [] => mret []
  | (a, b) :: rest =>
      r ← call_unwire (mob_member_id a) (mob_member_id b);
      results ← run_unwires rest;
      mret ((a, b, r) :: results)
  end.

Definition wire_failure (to_wire : list (string * string * string)) (f : string * string * string * string)
    : list EdgeReconcileFailure :=
  let '(a, b, operation, error) := f in
  let ops : gmap (string * string) string := list_to_map ((λ '(a, b, op), ((a, b), op)) <$> rev to_wire) in
  (λ e, mkEdgeFailure e (unwrap_or (ops !! (a, b)) operation) error) <$> ok_edge a b.
Definition unwire_failure (u : string * string * Result unit string) : list EdgeReconcileFailure :=
  let '(a, b, r) := u in
  match r with Ok _ => [] | Err error => (λ e, mkEdgeFailure e "unwire" error) <$> ok_edge a b end.
Definition unwired_key (u : string * string * Result unit string) : option (string * string) :=
  let '(a, b, r) := u in match r with Ok _ => Some (a, b) | Err _ => None end.

(** The desired edges and the managed edges that are no longer desired, in key order. *)
Definition desired_pairs (raw : list DesiredPeerEdge) : list (string * string) := pairs_of (list_to_set raw).
Definition stale_pairs (managed : gset (string * string)) (raw : list DesiredPeerEdge) : list (string * string) :=
  pairs_of (managed ∖ list_to_set raw).
Definition of_class {C} `{EqDecision C} (f : string * string → C) (c : C) (l : list (string * string)) : list (string * string) :=
  List.filter (λ e, f e =b c) l.
Definition wire_label (k : EdgeClass) : option string :=
  match k with ClassHeal => Some "wire (heal)" | ClassWire => Some "wire" | _ => None end.
Definition wires_of (f : string * string → EdgeClass) (l : list (string * string)) : list (string * string * string) :=
  omap (λ e, pair e <$> wire_label (f e)) l.

Definition class_of (managed : gset (string * string)) (members : list MobMember) : string * string → EdgeClass :=
  classify_desired (alias_ids members) managed (current_wiring members).
Definition stale_of (members : list MobMember) : string * string → StaleClass :=
  classify_stale (alias_ids members) (current_wiring members).

Definition diff_report (managed : gset (string * string)) (members : list MobMember) (raw : list DesiredPeerEdge)
    (wired : list (string * string * bool) * list (string * string * string * string))
    (unwires : list (string * string * Result unit string)) : UnifiedRuntimeReconcileEdgesReport :=
  let desired c := edges_of (of_class (class_of managed members) c (desired_pairs raw)) in
  let stale c := edges_of (of_class (stale_of members) c (stale_pairs managed raw)) in
  let new := (List.filter (λ s : string * string * bool, s.2) wired.1).*1 in
  let kept := (List.filter (λ s : string * string * bool, negb s.2) wired.1).*1 in
  mkEdgesReport raw (edges_of new) (edges_of (omap unwired_key unwires)) (desired ClassRetained ++ edges_of kept)
    (desired ClassPreexisting) (desired ClassMissing) (stale StalePruned)
    ((reserved_failure "wire" <$> desired ClassReserved) ++ (reserved_failure "unwire" <$> stale StaleReserved) ++
     (wired.2 ≫= wire_failure (wires_of (class_of managed members) (desired_pairs raw))) ++ (unwires ≫= unwire_failure)).

Definition diff_managed (managed : gset (string * string)) (members : list MobMember) (raw : list DesiredPeerEdge)
    (successes : list (string * string * bool)) (unwires : list (string * string * Result unit string)) : gset (string * string) :=
  ((managed ∪ list_to_set successes.*1) ∖ list_to_set (of_class (stale_of members) StalePruned (stale_pairs managed raw)))
    ∖ list_to_set (omap unwired_key unwires).

(** The body after discovery: [raw] is the composed desired list. *)
Definition reconcile_diff (managed : gset (string * string)) (members : list MobMember) (raw : list DesiredPeerEdge)
    : TM (UnifiedRuntimeReconcileEdgesReport * gset (string * string)) :=
  wired ← run_wire (wires_of (class_of managed members) (desired_pairs raw));
  unwires ← run_unwires (of_class (stale_of members) StaleUnwire (stale_pairs managed raw));
  mret (diff_report managed members raw wired unwires, diff_managed managed members raw wired.1 unwires).

(** [topology] is whether a controller composes the intent over what is discovered. *)
Definition reconcile_edges_over_members (discovery : option (nat → list EdgeMemberView → list DesiredPeerEdge))
    (managed : gset (string * string)) (topology : bool) (members : list MobMember)
    : TM (UnifiedRuntimeReconcileEdgesReport * gset (string * string)) :=
  discovered ← match discovery with
               | Some discover => n ← observe; mret (discover n (member_view <$> members))
               | None => mret []
               end;
  mem ← gets tw_mem;
  reconcile_diff managed members (if topology then compose_declared mem discovered else discovered).
End reconcile.

(** ** Identity-first reconcile *)

Definition failure_report (a b operation error : string) : UnifiedRuntimeReconcileEdgesReport :=
  match peer_edge_new a b with
  | Ok edge => mkEdgesReport [] [] [] [] [] [] [] [mkEdgeFailure edge operation error]
  | Err _ => empty_report
  end.
Definition recovery_failure_report `{DebugText} (error : TopologyControlError) : UnifiedRuntimeReconcileEdgesReport :=
  failure_report "topology-control" "recovery-journal" "prepare_recovery" (error_text error).
Definition identity_reconcile_failure (operation error : string) : UnifiedRuntimeReconcileEdgesReport :=
  failure_report "topology-control" "identity-reconcile" operation error.

(** Run [k] on a success, or report the failure. *)
Definition or_report {A E} (r : Result A E) (on_error : E → UnifiedRuntimeReconcileEdgesReport)
    (k : A → TM UnifiedRuntimeReconcileEdgesReport) : TM UnifiedRuntimeReconcileEdgesReport :=
  match r with Ok a => k a | Err e => mret (on_error e) end.

Section identity.
Context `{TopologyEnv} `{IdentityTopology}.

(** The report of a reconcile that ran: what each desired edge and each reconciled-away
    edge came to. *)
Definition identity_report (desired_edges : list ManagedPeerEdge) (reconciled_away actual actual_after any_half_after : gset DesiredPeerEdge)
    : Result UnifiedRuntimeReconcileEdgesReport DesiredPeerEdgeError :=
  logical ←? traverse (λ e : ManagedPeerEdge, d ←? peer_edge_new e.1 e.2; Ok (e, d)) desired_edges;
  let pick (f : ManagedPeerEdge → bool) := (List.filter (λ p : ManagedPeerEdge * DesiredPeerEdge, f p.1) logical).*2 in
  let now e := bool_decide (e ∈ actual_after) in
  let before e := bool_decide (e ∈ actual) in
  let away := pairs_of (reconciled_away ∖ list_to_set desired_edges) in
  let half e := bool_decide (e ∈ any_half_after) in
  Ok (mkEdgesReport (edges_of desired_edges)
        (pick (λ e, now e && negb (before e)))
        (edges_of (List.filter (λ e, negb (half e)) away))
        (pick (λ e, now e && before e))
        []
        (pick (λ e, negb (now e)) ++ edges_of (List.filter half away))
        [] []).

Definition add_skipped (r : UnifiedRuntimeReconcileEdgesReport) (edges : list DesiredPeerEdge) : UnifiedRuntimeReconcileEdgesReport :=
  mkEdgesReport (desired_edges r) (wired_edges r) (unwired_edges r) (retained_edges r) (preexisting_edges r)
    (foldl (λ skipped e, if existsb (λ x, x =b e) skipped then skipped else skipped ++ [e]) (skipped_missing_members r) edges)
    (pruned_stale_managed_edges r) (edge_failures r).

Definition reconcile_identity_first : TM UnifiedRuntimeReconcileEdgesReport :=
  n ← observe;
  or_report (topology_snapshot_inputs n) (identity_reconcile_failure "discover") (λ '(_, provider_edges),
  mem ← gets tw_mem;
  or_report (compose_managed_peer_edges mem provider_edges) recovery_failure_report (λ desired_edges,
  or_report (pending_local_recovery_edges mem) recovery_failure_report (λ recovery_edges,
  log_event (EvRetain recovery_edges);;
  n ← observe;
  or_report (logical_peer_edges n) (identity_reconcile_failure "inspect") (λ actual_edges,
  n ← observe;
  let managed := managed_peer_edges_snapshot n in
  n ← observe;
  let r := reconcile_managed_peer_edges_admitted n desired_edges in
  log_event (EvReconcile desired_edges r);;
  match r with
  | Err error =>
      mret (mkEdgesReport (edges_of desired_edges) [] [] [] [] [] []
              ((λ e, mkEdgeFailure e "reconcile" error) <$> edges_of desired_edges))
  | Ok _ =>
      n ← observe;
      or_report (logical_peer_edges n) (identity_reconcile_failure "inspect_after") (λ actual_after,
      n ← observe;
      or_report (logical_peer_edges_any_half n) (identity_reconcile_failure "inspect_any_half_after") (λ any_half,
      n ← observe;
      let actual : gset DesiredPeerEdge := list_to_set actual_edges in
      let away := match identity_edge_ownership with
                  | TopologyProvider => managed ∪ (actual ∖ definition_declared_identity_edges n)
                  | WiredByThisProcess => managed
                  end in
      or_report (identity_report desired_edges away actual (list_to_set actual_after) (list_to_set any_half))
        (λ error, identity_reconcile_failure "validate" (peer_edge_error_text error)) (λ report,
      if bool_decide (recovery_edges = ∅) then mret report
      else
        n ← observe;
        or_report (pending_recovery_is_physically_complete n desired_edges recovery_edges)
          (identity_reconcile_failure "inspect_recovery") (λ complete,
        mret (if (complete : bool) then report else add_skipped report (edges_of (pairs_of recovery_edges)))))))
  end)))).
End identity.
