(* ===== verification/TopologyController.v ===== *)
(** * Topology control: the controller and the runtime handle ([topology_control.rs])

    Every operation that reads or changes the durable intent.  An operation that takes
    the mutation lock runs from its first read to its last write without another one
    in between, so it is one function of the world; a reader that does not take the
    lock sees one of the states the operation publishes on the way, which the trace
    records.  The concurrency of snapshot reads is in [TopologyFlights]. *)

From S2P Require Import Prelude Strings ContinuityTypes MemoryRecords MemberIds TopologyTypes TopologyState TopologyWorld EdgeReconcile.
Open Scope Z_scope.

Section controller.
Context `{TopologyEnv}.

(** ** Construction, policy and authority *)

(** [TopologyController::new]: an in-memory controller. *)
Definition new_controller (policy : TopologyControlPolicy) : Result TopologyWorld TopologyControlError :=
  _ ←? policy_validate policy;
  if mode policy =b ModeEditable then Err DurableStateRequired
  else Ok (mkTopologyWorld policy default_intent None false ∅ 0 []).

(** [TopologyController::load_or_default] on the world a previous process left: the
    file lock is held by one process, the file holds a state or is absent.  [opened] is
    the result of creating the directory and taking the lock, [read] that of reading
    the file. *)
Definition load_or_default (policy : TopologyControlPolicy) (opened : Result unit string)
    (read : Result (option TopologyIntentState) string) : TM unit :=
  _ ← lift_result (policy_validate policy);
  _ ← lift_result (map_err Persistence opened);
  found ← lift_result (map_err Persistence read);
  let st := unwrap_or found default_intent in
  if TOPOLOGY_STATE_SCHEMA_VERSION <? schema_version st
  then throw (Persistence ("unsupported topology state schema version " +:+ fmt_dec (schema_version st) +:+ " (maximum 1)"))
  else
    let '(records, last) := normalize_operation_record_sequences (operation_records st) (last_operation_record_seq st) in
    let st := with_records st records last in
    n ← observe_many (length records);
    let st := reconcile_records n st in
    persist_state st;;
    modify (λ w, mkTopologyWorld policy st (tw_disk w) true ∅ (tw_step w) (tw_trace w ++ [EvPublished st])).

Definition bind_authority (authority : string) : TM unit :=
  st ← gets tw_mem;
  match st_authority st with
  | Some existing =>
      if existing =b authority then commit_state (with_authority st TOPOLOGY_STATE_SCHEMA_VERSION (Some authority))
      else throw (Persistence ("topology state belongs to authority " +:+ debug_quote existing +:+ ", not " +:+ debug_quote authority))
  | None => commit_state (with_authority st TOPOLOGY_STATE_SCHEMA_VERSION (Some authority))
  end.

Definition set_policy (policy : TopologyControlPolicy) : TM unit :=
  _ ← lift_result (policy_validate policy);
  durable ← gets tw_durable;
  if (mode policy =b ModeEditable) && negb durable then throw DurableStateRequired
  else modify (λ w, mkTopologyWorld policy (tw_mem w) (tw_disk w) (tw_durable w) (tw_managed w) (tw_step w) (tw_trace w)).

(** ** Audit records *)

Definition reconcile_operation_records_unlocked : TM unit :=
  st ← gets tw_mem;
  n ← observe_many (length (operation_records st));
  let next := reconcile_records n st in
  if operation_records next =b operation_records st then mret tt else commit_state next.

Definition find_operation (st : TopologyIntentState) (operation_id : string) : Result TopologyOperationReceipt TopologyControlError :=
  match find_first (λ r, receipt_operation_id r =b operation_id) (receipts st) with
  | Some receipt => Ok receipt
  | None =>
      ok_or (pending_receipt <$> opt_filter (λ p, pend_operation_id p =b operation_id) (pending st))
        (OperationNotFound operation_id)
  end.
Definition operation (operation_id : string) : TM TopologyOperationReceipt :=
  reconcile_operation_records_unlocked;;
  st ← gets tw_mem;
  lift_result (find_operation st operation_id).

Definition operation_records_page (after_seq : option Z) (limit : Z) : TM TopologyAuditPage :=
  reconcile_operation_records_unlocked;;
  st ← gets tw_mem;
  lift_result (audit_page (operation_records st) (last_operation_record_seq st) after_seq limit).
Definition all_operation_records_after (after_seq : option Z) : TM TopologyAuditPage :=
  operation_records_page after_seq 4096.

Definition upsert_operation_record (r : TopologyOperationRecord) : TM unit :=
  st ← gets tw_mem;
  policy ← gets tw_policy;
  if existsb (has_record_id (rec_record_id r)) (operation_records st) then mret tt
  else commit_state (append_operation_record policy st r).

Definition persist_operation_record_outcome_candidate (st : TopologyIntentState) (record_id : string)
    (status : TopologyOperationRecordStatus) (error : option TopologyControlError) : TM unit :=
  if existsb (has_record_id record_id) (operation_records st) then
    n ← observe;
    commit_state (mark_record n record_id status (error_kind <$> error) st)
  else throw (Persistence ("topology audit record disappeared before outcome: " +:+ record_id)).

(** ** Recovery of an interrupted mutation *)

Definition roll_back_journal (st : TopologyIntentState) (p : PendingTopologyOperation) : TopologyIntentState :=
  with_pending (with_intent st (rollback_intent p))
    (Some (mkPendingOp (pend_operation_id p) (pend_audit_record_id p) (pend_key p) (pend_fingerprint p) (pend_actor p)
             (pend_base_revision p) (rollback_revision p) (pend_created_at p) (pend_reason p) (pend_operations p) RollingBack
             (rollback_additions p) (rollback_suppressions p) (rollback_cross_additions p) (rollback_cross_suppressions p)
             (rollback_revision p) (last_recovery_error p) (recovery_attempts p))).
Definition prepare_pending_recovery : TM unit :=
  st ← gets tw_mem;
  match pending st with
  | None => mret tt
  | Some p => if pend_phase p =b Applying then commit_state (roll_back_journal st p) else mret tt
  end.

(** The journal with one more failed attempt. *)
Definition recovery_failed (p : PendingTopologyOperation) (message : string) : PendingTopologyOperation :=
  mkPendingOp (pend_operation_id p) (pend_audit_record_id p) (pend_key p) (pend_fingerprint p) (pend_actor p)
    (pend_base_revision p) (pend_target_revision p) (pend_created_at p) (pend_reason p) (pend_operations p) (pend_phase p)
    (rollback_additions p) (rollback_suppressions p) (rollback_cross_additions p) (rollback_cross_suppressions p)
    (rollback_revision p) (Some message) (u64_saturating_add (recovery_attempts p) 1).

Definition finalize_recovered_pending (reconcile_complete : bool) : TM unit :=
  st ← gets tw_mem;
  policy ← gets tw_policy;
  match pending st with
  | None => mret tt
  | Some p =>
      n ← observe;
      if negb reconcile_complete then
        commit_state (with_pending (mark_owned n p RecRecoveryFailed (Some "topology_actuator_failed") st)
                        (Some (recovery_failed p "topology recovery reconciliation was incomplete")))
      else
        commit_state (record_receipt policy (with_pending (mark_owned n p RecRolledBack None st) None)
                        (terminal_receipt_from_pending p OpRolledBack None) (pend_fingerprint p))
  end.
End controller.

Section handle.
Context `{TopologyEnv} `{IdentityTopology} (h : TopologyRuntimeHandle).

Definition reconcile_current_unlocked : TM UnifiedRuntimeReconcileEdgesReport :=
  if handle_identity h then reconcile_identity_first
  else
    n ← observe;
    managed ← gets tw_managed;
    r ← reconcile_edges_over_members (if handle_discovery h then Some discover_edges else None) managed true
          (list_members_including_retiring n);
    set_managed r.2;;
    mret r.1.

(** Errors of the journal are reported or logged, never returned. *)
Definition or_failure_report (m : TM unit) (k : TM UnifiedRuntimeReconcileEdgesReport) : TM UnifiedRuntimeReconcileEdgesReport :=
  r ← catch m;
  match r with Err error => mret (recovery_failure_report error) | Ok _ => k end.
Definition finalize_logged (report : UnifiedRuntimeReconcileEdgesReport) : TM UnifiedRuntimeReconcileEdgesReport :=
  _ ← (catch (finalize_recovered_pending (is_complete report)) : TM (Result unit TopologyControlError));
  mret report.

Definition reconcile : TM UnifiedRuntimeReconcileEdgesReport :=
  or_failure_report reconcile_operation_records_unlocked (
  or_failure_report prepare_pending_recovery (
  report ← reconcile_current_unlocked;
  finalize_logged report)).

(** [UnifiedRuntime::reconcile_edges_from_members] *)
Definition reconcile_edges_from_members (members : list MobMember) : TM UnifiedRuntimeReconcileEdgesReport :=
  or_failure_report prepare_pending_recovery (
  managed ← gets tw_managed;
  r ← reconcile_edges_over_members (if handle_discovery h then Some discover_edges else None) managed true members;
  set_managed r.2;;
  finalize_logged r.1).

(** [reconcile_definition_edges_with_topology] with a controller: the managed set is
    transient, so nothing is unwired. *)
Definition reconcile_definition_edges_with_topology (definition : MobWiring) : TM UnifiedRuntimeReconcileEdgesReport :=
  or_failure_report prepare_pending_recovery (
  n ← observe;
  r ← reconcile_edges_over_members ((λ d _ views, definition_desired_edges d views) <$> from_definition definition) ∅ true
        (list_members_including_retiring n);
  finalize_logged r.1).

Definition recover_pending_unlocked : TM unit :=
  st ← gets tw_mem;
  match pending_operation_id st with
  | None => mret tt
  | Some id =>
      prepare_pending_recovery;;
      report ← reconcile_current_unlocked;
      finalize_recovered_pending (is_complete report);;
      if is_complete report then mret tt else throw (OperationInProgress id)
  end.

(** ** Snapshots *)

Definition query_mob : TM TopologySnapshot :=
  n ← observe;
  let '(nodes, actual_edges, views) := project_members (handle_authority h) (list_members_including_retiring n) in
  discovered ← (if handle_discovery h then n ← observe; mret (discover_edges n views) else mret []);
  mem ← gets tw_mem;
  policy ← gets tw_policy;
  let c := committed_intent mem in
  edges ← lift_result (snapshot_edges (handle_authority h) (list_to_set discovered) actual_edges c);
  mret (mkSnapshot (handle_authority h) (committed_revision c) policy nodes edges).

Definition query_identity_first : TM TopologySnapshot :=
  n ← observe;
  inputs ← lift_result (map_err Actuator (topology_snapshot_inputs n));
  n ← observe;
  actual_edges ← lift_result (map_err Actuator (logical_peer_edges n));
  declared_edges ← lift_result (traverse desired_of_managed inputs.2);
  actual_edges ← lift_result (traverse desired_of_managed actual_edges);
  mem ← gets tw_mem;
  policy ← gets tw_policy;
  let c := committed_intent mem in
  edges ← lift_result (snapshot_edges (handle_authority h) (list_to_set declared_edges) (list_to_set actual_edges) c);
  let nodes := (λ s, mkNode (mkEndpoint (Some (handle_authority h)) (spec_identity s)) (spec_profile s) (spec_labels s) None) <$> inputs.1 in
  mret (mkSnapshot (handle_authority h) (committed_revision c) policy (merge_sort node_le nodes) edges).

Definition query_unlocked : TM TopologySnapshot := if handle_identity h then query_identity_first else query_mob.

(** [lock_free]: whether the mutation lock could be taken. *)
Definition recover_interrupted_for_read (lock_free : bool) : TM unit :=
  st ← gets tw_mem;
  if negb (needs_recovery_or_reconcile st) then mret tt
  else if negb lock_free then mret tt
  else reconcile_operation_records_unlocked;; recover_pending_unlocked.
Definition query (lock_free : bool) : TM TopologySnapshot :=
  recover_interrupted_for_read lock_free;; query_unlocked.

Definition validate_against (s : TopologySnapshot) (ops : list TopologyMutation) : Result unit TopologyControlError :=
  _ ←? validate_known_endpoints s ops;
  _ ←? validate_connect_does_not_clear_suppression s ops;
  validate_reconnect_targets s ops.

Definition plan (request : TopologyPlanRequest) : TM TopologyPlan :=
  policy ← gets tw_policy;
  if mode policy =b ModeDisabled then throw FeatureDisabled
  else
    _ ← lift_result (validate_batch policy (op_count (plan_operations request)));
    ops ← lift_result (normalize_operations (plan_operations request) (handle_authority h) policy);
    _ ← lift_result (validate_unique_operations ops);
    reconcile_operation_records_unlocked;;
    recover_pending_unlocked;;
    snapshot ← query_unlocked;
    if negb (plan_expected_revision request =? snap_revision snapshot)
    then throw (RevisionConflict (plan_expected_revision request) (snap_revision snapshot))
    else
      _ ← lift_result (validate_against snapshot ops);
      mret (plan_from_snapshot snapshot ops).

(** ** Applying *)

Definition trim_key (request : TopologyApplyRequest) : TopologyApplyRequest :=
  mkApplyRequest (expected_revision request) (trim (idempotency_key request)) (operations request) (reason request) (risk_tier request).
Definition with_operations (request : TopologyApplyRequest) ops : TopologyApplyRequest :=
  mkApplyRequest (expected_revision request) (idempotency_key request) ops (reason request) (risk_tier request).

Definition new_audit_record_id (n : nat) : string := "topology-audit-" +:+ uuid_v4 n.

Definition operation_record_for_local_request (request : TopologyApplyRequest) (actor : string) (principal : option string)
    (status : TopologyOperationRecordStatus) : TM TopologyOperationRecord :=
  fingerprint ← lift_result (request_fingerprint request);
  n ← observe;
  u ← observe;
  mret (mkOpRecord TOPOLOGY_OPERATION_RECORD_VERSION 0 (new_audit_record_id u)
          (operation_id (trim (idempotency_key request)) fingerprint)
          (idempotency_key_fingerprint (trim (idempotency_key request))) actor principal [handle_authority h]
          (operations request) status (utc_now n) (utc_now n) None None).

Definition record_denied_apply (request : TopologyApplyRequest) (principal : option string) (actor : string)
    (error : TopologyControlError) : TM unit :=
  r ← operation_record_for_local_request request actor principal RecDenied;
  upsert_operation_record
    (mkOpRecord (rec_version r) (rec_seq r) (rec_record_id r) (rec_operation_id r) (rec_key_fingerprint r) (rec_actor r)
       (rec_principal r) (rec_authorities r) (rec_operations r) (rec_status r) (rec_requested_at r) (rec_updated_at r)
       (Some (error_kind error)) (Some ("topology operation failed (" +:+ error_kind error +:+ ")"))).

(** The macro [audited_error]. *)
Definition audited_error {A} (current : TopologyIntentState) (record_id : string) (error : TopologyControlError) : TM A :=
  persist_operation_record_outcome_candidate current record_id (operation_record_outcome (Err error)).1 (Some error);;
  throw error.
Definition audited {A B} (current : TopologyIntentState) (record_id : string) (r : Result A TopologyControlError)
    (k : A → TM B) : TM B :=
  match r with Ok a => k a | Err error => audited_error current record_id error end.
(** An idempotent replay closes its audit record as a no-op. *)
Definition replay_receipt (current : TopologyIntentState) (record_id : string) (receipt : TopologyOperationReceipt)
    : TM TopologyOperationReceipt :=
  persist_operation_record_outcome_candidate current record_id RecNoop None;;
  mret receipt.

Fixpoint apply_plan_intent (declared_set : gset DesiredPeerEdge) (authority : string) (ops : list TopologyPlannedEdge)
    (st : TopologyIntentState) : Result TopologyIntentState TopologyControlError :=
  match ops with
  | [] => Ok st
  | op :: rest =>
      match local_desired_edge (planned_edge op) authority with
      | None => Err CrossAuthorityUnsupported
      | Some edge => apply_plan_intent declared_set authority rest (apply_intent declared_set (planned_action op) edge st)
      end
  end.
Definition declared_of (s : TopologySnapshot) : gset DesiredPeerEdge :=
  list_to_set (omap (λ e, local_desired_edge (snap_edge e) (snap_authority s)) (List.filter declared (snap_edges s))).

(** One edge's physical change: what was there before and whether anything changed. *)
Definition actuate_identity (planned : TopologyPlannedEdge) (edge : DesiredPeerEdge) : TM (bool * Result bool string) :=
  match managed_peer_edge_from_desired edge with
  | Err error => mret (actual_before planned, Err (error_text error))
  | Ok managed =>
      if requires_physical_change planned then
        r ← call_mutate (planned_action planned) managed;
        mret (actual_before planned, match r with Ok _ => Ok true | Err e => Err e end)
      else mret (actual_before planned, Ok false)
  end.
Definition actuate_mob (planned : TopologyPlannedEdge) (edge : DesiredPeerEdge) (halves : bool * bool) : TM (bool * Result bool string) :=
  let before := halves.1 && halves.2 in
  let any_half := halves.1 || halves.2 in
  let changed (r : Result unit string) : Result bool string := match r with Ok _ => Ok true | Err e => Err e end in
  match planned_action planned with
  | Connect => if negb before then r ← reconnect_edge edge any_half; mret (before, changed r) else mret (before, Ok false)
  | Reconnect => r ← reconnect_edge edge any_half; mret (before, changed r)
  | Disconnect => if any_half then r ← unwire_edge edge; mret (before, changed r) else mret (before, Ok false)
  end.

Record Actuation := mkActuation {
  act_results : list TopologyEdgeResult;
  act_changes : list (DesiredPeerEdge * bool);
  act_failed : option string;
}.

Definition record_physical (planned : TopologyPlannedEdge) (edge : DesiredPeerEdge) (before : bool) (physical : Result bool string)
    (acc : Actuation) : Actuation :=
  match physical with
  | Ok changed =>
      mkActuation
        (act_results acc ++ [mkEdgeResult (planned_action planned) (planned_edge planned)
           (if changed || requires_intent_change planned then EdgeApplied else EdgeNoop)
           before (negb (planned_action planned =b Disconnect)) None])
        (if changed then act_changes acc ++ [(edge, before)] else act_changes acc) None
  | Err error =>
      mkActuation
        (act_results acc ++ [mkEdgeResult (planned_action planned) (planned_edge planned) EdgeFailed before before (Some error)])
        (act_changes acc) (Some error)
  end.

Definition actuate_one (authority : string) (planned : TopologyPlannedEdge) (acc : Actuation) : TM Actuation :=
  match local_desired_edge (planned_edge planned) authority with
  | None => mret (mkActuation (act_results acc) (act_changes acc) (Some "cross-authority operation reached local actuator"))
  | Some edge =>
      if handle_identity h then
        p ← actuate_identity planned edge;
        mret (record_physical planned edge p.1 p.2 acc)
      else
        halves ← (catch (edge_actual_state edge) : TM (Result (bool * bool) TopologyControlError));
        match halves with
        | Err error =>
            mret (mkActuation
                    (act_results acc ++ [mkEdgeResult (planned_action planned) (planned_edge planned) EdgeFailed false false
                                           (Some (error_text error))])
                    (act_changes acc) (Some (error_text error)))
        | Ok halves =>
            p ← actuate_mob planned edge halves;
            mret (record_physical planned edge p.1 p.2 acc)
        end
  end.
(** The loop stops at the first failure. *)
Fixpoint actuate (authority : string) (ops : list TopologyPlannedEdge) (acc : Actuation) : TM Actuation :=
  match ops with
  | [] => mret acc
  | planned :: rest =>
      acc ← actuate_one authority planned acc;
      match act_failed acc with Some _ => mret acc | None => actuate authority rest acc end
  end.

Definition set_result (r : TopologyEdgeResult) status after error : TopologyEdgeResult :=
  mkEdgeResult (result_action r) (result_edge r) status (result_actual_before r) after error.
Definition rolled_back_result (authority : string) (failures : list (DesiredPeerEdge * string)) (r : TopologyEdgeResult) : TopologyEdgeResult :=
  if negb (result_status r =b EdgeApplied) then r
  else match find_first (λ f, local_desired_edge (result_edge r) authority =b Some f.1) failures with
       | Some (_, error) => set_result r EdgeRollbackFailed (result_actual_after r) (Some error)
       | None => set_result r EdgeRolledBack (result_actual_before r) (result_error r)
       end.

Definition degraded_receipt (p : PendingTopologyOperation) (results : list TopologyEdgeResult) : TopologyOperationReceipt :=
  let r := pending_receipt p in
  mkTopologyReceipt (receipt_operation_id r) (receipt_key r) (receipt_actor r) OpPartialDegraded (receipt_base_revision r)
    (receipt_revision r) (receipt_created_at r) (receipt_reason r) results (authority_revisions r).

(** The failure path: the rolling-back journal is persisted before anything is undone. *)
Definition roll_back (policy : TopologyControlPolicy) (authority : string) (current : TopologyIntentState)
    (p : PendingTopologyOperation) (act : Actuation) (error : string) : TM TopologyOperationReceipt :=
  n ← observe;
  let rolling := mkPendingOp (pend_operation_id p) (pend_audit_record_id p) (pend_key p) (pend_fingerprint p) (pend_actor p)
                   (pend_base_revision p) (revision current) (pend_created_at p) (pend_reason p) (pend_operations p) RollingBack
                   (rollback_additions p) (rollback_suppressions p) (rollback_cross_additions p) (rollback_cross_suppressions p)
                   (rollback_revision p) (last_recovery_error p) (recovery_attempts p) in
  let rollback_state := mark_record n (pend_audit_record_id p) RecPending None (with_pending current (Some rolling)) in
  persisted ← (catch (persist_candidate rollback_state) : TM (Result unit TopologyControlError));
  match persisted with
  | Err _ => mret (degraded_receipt rolling (act_results act))
  | Ok _ =>
      publish rollback_state;;
      failures ← (if handle_identity h then rollback_identity_physical (act_changes act) else rollback_physical (act_changes act));
      let results := rolled_back_result authority failures <$> act_results act in
      n ← observe;
      if negb (is_empty failures) then
        commit_state (mark_record n (pend_audit_record_id p) RecPartialDegraded (Some "topology_actuator_failed")
          (with_pending rollback_state (Some (recovery_failed rolling "topology rollback reconciliation was incomplete"))));;
        mret (degraded_receipt rolling results)
      else
        let receipt := mkTopologyReceipt (pend_operation_id p) (pend_key p) (pend_actor p) OpRolledBack (revision current)
                         (revision current) (pend_created_at p) (pend_reason p) results ∅ in
        commit_state (record_receipt policy
          (mark_record n (pend_audit_record_id p) RecRolledBack (Some "topology_apply_failed") (with_pending rollback_state None))
          receipt (pend_fingerprint p));;
        throw (ApplyFailed error receipt)
  end.

(** The write-ahead part: journal, actuate, commit or roll back. *)
Definition execute (policy : TopologyControlPolicy) (request : TopologyApplyRequest) (actor fingerprint record_id : string)
    (current : TopologyIntentState) (s : TopologySnapshot) (p : TopologyPlan) (next : TopologyIntentState)
    : TM TopologyOperationReceipt :=
  n ← observe;
  let op_id := operation_id (idempotency_key request) fingerprint in
  let target := u64_saturating_add (revision current) 1 in
  let journal := mkPendingOp op_id record_id (idempotency_key request) fingerprint actor (revision current) target (utc_now n)
                   (reason request) (operations request) Applying (additions current) (suppressions current)
                   (cross_additions current) (cross_suppressions current) (revision current) None 0 in
  n' ← observe;
  let next := with_intent next (mkCommitted target (additions next) (suppressions next) (cross_additions next) (cross_suppressions next)) in
  let next := mark_record n' record_id RecPending None (with_pending next (Some journal)) in
  commit_state next;;
  act ← actuate (snap_authority s) (planned_operations p) (mkActuation [] [] None);
  match act_failed act with
  | Some error => roll_back policy (snap_authority s) current journal act error
  | None =>
      n ← observe;
      let receipt := mkTopologyReceipt op_id (idempotency_key request) actor OpApplied (revision current) (revision next) (pend_created_at journal)
                       (reason request) (act_results act) ∅ in
      commit_state (record_receipt policy (mark_record n record_id RecApplied None (with_pending next None)) receipt fingerprint);;
      mret receipt
  end.

Definition noop_results (p : TopologyPlan) : list TopologyEdgeResult :=
  (λ o, mkEdgeResult (planned_action o) (planned_edge o) EdgeNoop (actual_before o) (actual_before o) None) <$> planned_operations p.

(** After admission and idempotency: the compare-and-set, the checks against the
    snapshot, and the no-op or the execution. *)
Definition apply_checked (policy : TopologyControlPolicy) (request : TopologyApplyRequest) (actor fingerprint record_id : string)
    (current : TopologyIntentState) : TM TopologyOperationReceipt :=
  if negb (expected_revision request =? revision current)
  then audited_error current record_id (RevisionConflict (expected_revision request) (revision current))
  else
    queried ← (catch query_unlocked : TM (Result TopologySnapshot TopologyControlError));
    audited current record_id queried (λ snapshot,
    audited current record_id (validate_against snapshot (operations request)) (λ _,
    let p := plan_from_snapshot snapshot (operations request) in
    audited current record_id (apply_plan_intent (declared_of snapshot) (snap_authority snapshot) (planned_operations p) current) (λ next,
    let intent_changed := negb (additions next =b additions current) || negb (suppressions next =b suppressions current) in
    if negb (intent_changed || existsb requires_physical_change (planned_operations p)) then
      n ← observe;
      n' ← observe;
      let receipt := mkTopologyReceipt (operation_id (idempotency_key request) fingerprint) (idempotency_key request) actor OpNoop
                       (revision current) (revision current) (utc_now n) (reason request) (noop_results p) ∅ in
      commit_state (record_receipt policy (mark_record n' record_id RecNoop None current) receipt fingerprint);;
      mret receipt
    else execute policy request actor fingerprint record_id current snapshot p next))).

Definition apply_inner (request : TopologyApplyRequest) (actor : string) (audit : TopologyOperationRecord)
    : TM TopologyOperationReceipt :=
  let record_id := rec_record_id audit in
  policy ← gets tw_policy;
  let request := trim_key request in
  fingerprint ← lift_result (request_fingerprint request);
  reconcile_operation_records_unlocked;;
  st ← gets tw_mem;
  let current := append_operation_record policy st audit in
  commit_state current;;
  audited current record_id (validate_local_apply_preflight policy request) (λ _,
  match pending current with
  | Some p =>
      if pend_key p =b idempotency_key request then
        if negb (pend_fingerprint p =b fingerprint)
        then audited_error current record_id (IdempotencyConflict (idempotency_key request))
        else replay_receipt current record_id (pending_receipt p)
      else audited_error current record_id (OperationInProgress (pend_operation_id p))
  | None =>
      match idempotency current !! idempotency_key request with
      | Some known =>
          if negb (idem_fingerprint known =b fingerprint)
          then audited_error current record_id (IdempotencyConflict (idempotency_key request))
          else
            match find_first (λ r, receipt_operation_id r =b idem_operation_id known) (receipts current) with
            | Some receipt => replay_receipt current record_id receipt
            | None => audited_error current record_id (IdempotencyReceiptExpired (idempotency_key request) (idem_operation_id known))
            end
      | None =>
          if compacted_idempotency_contains current (idempotency_key request)
          then audited_error current record_id (IdempotencyHistoryCompacted (idempotency_key request))
          else apply_checked policy request actor fingerprint record_id current
      end
  end).

Definition normalize_for_authorization (ops : list TopologyMutation) : TM (list TopologyMutation) :=
  policy ← gets tw_policy;
  lift_result (normalize_operations ops (handle_authority h) policy).

Definition apply_as (request : TopologyApplyRequest) (principal : option string) (actor : string) : TM TopologyOperationReceipt :=
  let normalized := trim_key request in
  ops ← normalize_for_authorization (operations normalized);
  let normalized := with_operations normalized ops in
  policy ← gets tw_policy;
  let preflight := validate_local_apply_preflight policy normalized in
  r ← operation_record_for_local_request normalized actor principal RecRequested;
  match preflight with
  | Err error =>
      n ← observe;
      upsert_operation_record (set_operation_record_status n r (operation_record_outcome (Err error)).1 (Some (error_kind error)));;
      throw error
  | Ok _ => apply_inner normalized actor r
  end.
Definition apply (request : TopologyApplyRequest) (actor : string) : TM TopologyOperationReceipt := apply_as request None actor.
End handle.
