(* ===== verification/TopologyLogic.v ===== *)
(** * Topology control: reasoning about effects

    A weakest precondition over the trace of effects, and the invariant of the durable
    intent that the effects keep. *)

From S2P Require Import Prelude Strings MemoryRecords TopologyTypes TopologyState TopologyWorld TopologyController.
Open Scope Z_scope.

(** ** Reasoning about effects

    [twp P m Q w] says that running [m] in [w] extends the trace by effects that each
    satisfy [P] against the disk they were made on, that the memory and the disk are
    what those effects leave, and that [Q] holds of the result.  A property proved this
    way holds of every prefix of an operation's effects, so of every crash and every
    cancelled future. *)

Definition EventSpec := option TopologyIntentState → TopologyEvent → Prop.

(** Each effect against the disk left by the ones before it. *)
Fixpoint chain (P : EventSpec) (d : option TopologyIntentState) (es : list TopologyEvent) : Prop :=
  match es with
  | [] => True
  | e :: rest => P d e ∧ chain P (replay_disk d e) rest
  end.

Lemma chain_app P d es fs : chain P d (es ++ fs) ↔ chain P d es ∧ chain P (foldl replay_disk d es) fs.
Proof. revert d. induction es as [|e es IH]; intros d; simpl; [tauto|]. rewrite IH. tauto. Qed.

Lemma chain_split P d es pre e post :
  chain P d es → es = pre ++ e :: post → P (foldl replay_disk d pre) e.
Proof. intros H ->. apply chain_app in H as [_ [H _]]. done. Qed.

Lemma chain_impl (P P' : EventSpec) d es : (∀ d e, P d e → P' d e) → chain P d es → chain P' d es.
Proof. intros HP. revert d. induction es as [|e es IH]; intros d; simpl; [done|]. intros [? ?]. eauto. Qed.

Lemma chain_prefix P d es k : chain P d es → chain P d (take k es).
Proof. rewrite <- (take_drop k es) at 1. rewrite chain_app. tauto. Qed.

Definition twp {A} (P : EventSpec) (m : TM A) (Q : Result A TopologyControlError → TopologyWorld → Prop) (w : TopologyWorld) : Prop :=
  ∃ es, tw_trace (m w).2 = tw_trace w ++ es ∧
        tw_mem (m w).2 = foldl replay_mem (tw_mem w) es ∧
        tw_disk (m w).2 = foldl replay_disk (tw_disk w) es ∧
        chain P (tw_disk w) es ∧ Q (m w).1 (m w).2.

(** The world [w'] is [w] with another memory and disk, up to bookkeeping. *)
Record moved (w : TopologyWorld) (mem : TopologyIntentState) (disk : option TopologyIntentState) (w' : TopologyWorld) : Prop := {
  moved_mem : tw_mem w' = mem;
  moved_disk : tw_disk w' = disk;
  moved_policy : tw_policy w' = tw_policy w;
  moved_durable : tw_durable w' = tw_durable w;
}.
Definition kept (w w' : TopologyWorld) : Prop := moved w (tw_mem w) (tw_disk w) w'.

Lemma kept_refl w : kept w w.
Proof. done. Qed.
Lemma kept_moved w w1 mem disk w2 : kept w w1 → moved w1 mem disk w2 → moved w mem disk w2.
Proof. intros [Hm Hd Hp Hu] [Hm' Hd' Hp' Hu']. split; congruence. Qed.
Lemma moved_kept w w1 mem disk w2 : moved w mem disk w1 → kept w1 w2 → moved w mem disk w2.
Proof. intros [Hm Hd Hp Hu] [Hm' Hd' Hp' Hu']. split; congruence. Qed.
Lemma moved_moved w w1 m1 d1 mem disk w2 : moved w m1 d1 w1 → moved w1 mem disk w2 → moved w mem disk w2.
Proof. intros [Hm Hd Hp Hu] [Hm' Hd' Hp' Hu']. split; congruence. Qed.
Lemma kept_trans w w1 w2 : kept w w1 → kept w1 w2 → kept w w2.
Proof. intros [Hm Hd Hp Hu] [Hm' Hd' Hp' Hu']. split; congruence. Qed.

Section rules.
Context {A : Type} (P : EventSpec).
Implicit Types (Q : Result A TopologyControlError → TopologyWorld → Prop).

Lemma twp_mono (m : TM A) Q Q' w : twp P m Q w → (∀ r w', Q r w' → Q' r w') → twp P m Q' w.
Proof. intros (es & Ht & Hm & Hd & Hc & HQ) HQ'. exists es. eauto 10. Qed.

Lemma twp_weaken (P' : EventSpec) (m : TM A) Q w : (∀ d e, P d e → P' d e) → twp P m Q w → twp P' m Q w.
Proof. intros HP (es & ? & ? & ? & Hc & ?). exists es. split_and!; try done. by eapply chain_impl. Qed.

Lemma twp_ret (a : A) Q w : Q (Ok a) w → twp P (mret a) Q w.
Proof. intros H. exists []. cbn. by rewrite app_nil_r. Qed.
Lemma twp_throw e Q w : Q (Err e) w → twp P (throw e) Q w.
Proof. intros H. exists []. cbn. by rewrite app_nil_r. Qed.
Lemma twp_lift (r : Result A _) Q w : Q r w → twp P (lift_result r) Q w.
Proof. intros H. exists []. cbn. by rewrite app_nil_r. Qed.
Lemma twp_gets (f : TopologyWorld → A) Q w : Q (Ok (f w)) w → twp P (gets f) Q w.
Proof. intros H. exists []. cbn. by rewrite app_nil_r. Qed.

Lemma twp_bind {B} (m : TM A) (f : A → TM B) (Q : Result B _ → TopologyWorld → Prop) w :
  twp P m (λ r w', match r with Ok a => twp P (f a) Q w' | Err e => Q (Err e) w' end) w →
  twp P (m ≫= f) Q w.
Proof.
  intros (es & Ht & Hm & Hd & Hc & HQ). unfold twp, mbind, m_bind. destruct (m w) as [[a|e] w'] eqn:E; simpl in *.
  - destruct HQ as (fs & Ht' & Hm' & Hd' & Hc' & HQ). exists (es ++ fs).
    rewrite !foldl_app, <- Hm, <- Hd, chain_app, <- Hd. split_and!; try done. by rewrite Ht', Ht, app_assoc.
  - by exists es.
Qed.

End rules.

Lemma twp_catch {A} P (m : TM A) (Q : Result (Result A _) _ → TopologyWorld → Prop) w :
  twp P m (λ r w', Q (Ok r) w') w → twp P (catch m : TM (Result A TopologyControlError)) Q w.
Proof. intros (es & Ht & Hm & Hd & Hc & HQ). by exists es. Qed.

Lemma twp_catch_bind {A B} P (m : TM A) (f : Result A TopologyControlError → TM B) Q w :
  twp P m (λ r w', twp P (f r) Q w') w →
  twp P (r ← (catch m : TM (Result A TopologyControlError)); f r) Q w.
Proof. intros H. apply twp_bind, twp_catch, H. Qed.

Section effects.
Context `{TopologyEnv} (P : EventSpec).

Lemma twp_observe (Q : Result nat _ → _) w : (∀ w', kept w w' → Q (Ok (tw_step w)) w') → twp P observe Q w.
Proof. intros HQ. exists []. rewrite app_nil_r. split_and!; try done. by apply HQ. Qed.
Lemma twp_observe_many k (Q : Result nat _ → _) w : (∀ w', kept w w' → Q (Ok (tw_step w)) w') → twp P (observe_many k) Q w.
Proof. intros HQ. exists []. rewrite app_nil_r. split_and!; try done. by apply HQ. Qed.

Definition is_state_event (e : TopologyEvent) : bool := match e with EvPersisted _ | EvPublished _ => true | _ => false end.

Lemma twp_log e (Q : Result unit _ → _) w :
  is_state_event e = false → P (tw_disk w) e → (∀ w', kept w w' → Q (Ok tt) w') → twp P (log_event e) Q w.
Proof.
  intros He HP HQ. exists [e]. split_and!; [done| | |done|by apply HQ].
  - by destruct e.
  - by destruct e.
Qed.

Lemma twp_publish st (Q : Result unit _ → _) w :
  P (tw_disk w) (EvPublished st) → (∀ w', moved w st (tw_disk w) w' → Q (Ok tt) w') → twp P (publish st) Q w.
Proof. intros HP HQ. exists [EvPublished st]. split_and!; try done. by apply HQ. Qed.

Lemma twp_rename st (Q : Result unit _ → _) w :
  P (tw_disk w) (EvPersisted st) → (∀ w', moved w (tw_mem w) (Some st) w' → Q (Ok tt) w') → twp P (rename_state st) Q w.
Proof. intros HP HQ. exists [EvPersisted st]. split_and!; try done. by apply HQ. Qed.

Lemma twp_persist_state st (Q : Result unit _ → _) w :
  P (tw_disk w) (EvPersisted st) →
  (∀ w', moved w (tw_mem w) (Some st) w' → Q (Ok tt) w') →
  (∀ e d w', moved w (tw_mem w) d w' → d = tw_disk w ∨ d = Some st → Q (Err (Persistence e)) w') →
  twp P (persist_state st) Q w.
Proof.
  intros HP HQ HE. apply twp_bind, twp_observe. intros w1 K1. assert (tw_disk w1 = tw_disk w) as Hd by apply K1.
  case_match; [|destruct renamed].
  - apply twp_rename; [by rewrite Hd|]. intros w' M. apply HQ. eapply kept_moved; [done|]. by rewrite <- (moved_mem _ _ _ _ K1).
  - apply twp_bind, twp_rename; [by rewrite Hd|]. intros w' M. apply twp_throw. eapply HE; [|by right].
    eapply kept_moved; [done|]. by rewrite <- (moved_mem _ _ _ _ K1).
  - apply twp_bind, twp_ret, twp_throw. eapply HE; [done|by left].
Qed.

(** A candidate that is persisted and then published: on a failure the memory is
    unchanged, and the disk holds the old state or the candidate. *)
Lemma twp_persist st (Q : Result unit _ → _) w :
  P (tw_disk w) (EvPersisted st) →
  (∀ d w', moved w (tw_mem w) d w' → d = (if tw_durable w then Some st else tw_disk w) → Q (Ok tt) w') →
  (∀ e d w', moved w (tw_mem w) d w' → d = tw_disk w ∨ d = Some st → Q (Err (Persistence e)) w') →
  twp P (persist_candidate st) Q w.
Proof.
  intros HP HQ HE. apply twp_bind, twp_gets. destruct (tw_durable w) eqn:D.
  - apply twp_persist_state; eauto.
  - apply twp_ret. eapply HQ; [|done]. done.
Qed.

Lemma twp_commit st (Q : Result unit _ → _) w :
  P (tw_disk w) (EvPersisted st) →
  (∀ d, d = (if tw_durable w then Some st else tw_disk w) → P d (EvPublished st)) →
  (∀ d w', moved w st d w' → d = (if tw_durable w then Some st else tw_disk w) → Q (Ok tt) w') →
  (∀ e d w', moved w (tw_mem w) d w' → d = tw_disk w ∨ d = Some st → Q (Err (Persistence e)) w') →
  twp P (commit_state st) Q w.
Proof.
  intros HP HP' HQ HE. apply twp_bind, twp_persist; [done| |done].
  intros d w' M Hd. apply twp_publish; [rewrite (moved_disk _ _ _ _ M); by apply HP'|].
  intros w'' M'. eapply HQ; [|done]. eapply moved_moved; [done|]. by rewrite (moved_disk _ _ _ _ M) in M'.
Qed.
End effects.

(** What a call returned can be used in its postcondition. *)
Lemma twp_result {A} P (m : TM A) (Q : Result A _ → TopologyWorld → Prop) w :
  twp P m (λ r w', m w = (r, w') → Q r w') w → twp P m Q w.
Proof. intros (es & Ht & Hm & Hd & Hc & HQ). exists es. split_and!; try done. apply HQ. by destruct (m w). Qed.

(** ** Calls that change no state

    [quiet D P m]: from a world whose disk satisfies [D], [m] makes only effects that
    satisfy [P] and leaves the memory, the disk and the policy. *)
Definition quiet (D : option TopologyIntentState → Prop) (P : EventSpec) {A} (m : TM A) : Prop :=
  ∀ w (Q : Result A _ → TopologyWorld → Prop), D (tw_disk w) → (∀ r w', kept w w' → Q r w') → twp P m Q w.

Section quiet.
Context `{TopologyEnv} (D : option TopologyIntentState → Prop) (P : EventSpec).

Lemma quiet_ret {A} (a : A) : quiet D P (mret a).
Proof. intros w Q _ HQ. apply twp_ret. by apply HQ. Qed.
Lemma quiet_throw {A} e : quiet D P (throw e : TM A).
Proof. intros w Q _ HQ. apply twp_throw. by apply HQ. Qed.
Lemma quiet_lift {A} (r : Result A _) : quiet D P (lift_result r).
Proof. intros w Q _ HQ. apply twp_lift. by apply HQ. Qed.
Lemma quiet_gets {A} (f : TopologyWorld → A) : quiet D P (gets f).
Proof. intros w Q _ HQ. apply twp_gets. by apply HQ. Qed.
Lemma quiet_bind {A B} (m : TM A) (f : A → TM B) : quiet D P m → (∀ a, quiet D P (f a)) → quiet D P (m ≫= f).
Proof.
  intros Hm Hf w Q HD HQ. apply twp_bind, Hm; [done|]. intros [a|e] w' K; [|by apply HQ].
  apply Hf; [by rewrite (moved_disk _ _ _ _ K)|]. intros r w'' K'. apply HQ. by eapply kept_trans.
Qed.
Lemma quiet_catch {A} (m : TM A) : quiet D P m → quiet D P (catch m : TM (Result A TopologyControlError)).
Proof. intros Hm w Q HD HQ. apply twp_catch, Hm; [done|]. intros r w' K. by apply HQ. Qed.
Lemma quiet_observe : quiet D P observe.
Proof. intros w Q _ HQ. apply twp_observe. intros. by apply HQ. Qed.
Lemma quiet_log e : is_state_event e = false → (∀ d, D d → P d e) → quiet D P (log_event e).
Proof. intros He HP w Q HD HQ. apply twp_log; [done|by apply HP|]. intros. by apply HQ. Qed.
Lemma quiet_set_managed s : quiet D P (set_managed s).
Proof. intros w Q _ HQ. exists []. rewrite app_nil_r. split_and!; try done. by apply HQ. Qed.

(** The actuators, when their effects are allowed. *)
Lemma quiet_call_wire edges : (∀ d r, D d → P d (EvWire edges r)) → quiet D P (call_wire edges).
Proof. intros HP. apply quiet_bind; [apply quiet_observe|]. intros n. apply quiet_bind; [apply quiet_log; auto|]. intros _. apply quiet_ret. Qed.
Lemma quiet_call_unwire a b : (∀ d r, D d → P d (EvUnwire a b r)) → quiet D P (call_unwire a b).
Proof. intros HP. apply quiet_bind; [apply quiet_observe|]. intros n. apply quiet_bind; [apply quiet_log; auto|]. intros _. apply quiet_ret. Qed.
Lemma quiet_rollback undo changes :
  (∀ e b, (e, b) ∈ changes → quiet D P (undo e b)) → quiet D P (rollback_changes undo changes).
Proof.
  induction changes as [|[e b] changes IH]; intros Hu; [apply quiet_ret|]. cbn [rollback_changes].
  apply quiet_bind; [apply Hu; by left|]. intros r. apply quiet_bind; [apply IH; intros; apply Hu; by right|].
  intros fs. apply quiet_ret.
Qed.
End quiet.

Create HintDb quiet discriminated.
#[export] Hint Resolve quiet_ret quiet_throw quiet_lift quiet_gets quiet_bind quiet_catch quiet_observe quiet_set_managed
  quiet_call_wire quiet_call_unwire quiet_log : quiet.

(** Steps through a quiet computation. *)
Ltac quiet_step :=
  repeat first
    [ progress intros
    | apply quiet_ret | apply quiet_throw | apply quiet_lift | apply quiet_gets | apply quiet_observe | apply quiet_set_managed
    | apply quiet_bind | apply quiet_catch
    | case_match ].

(** ** The invariant of the durable intent

    What every state the controller publishes or persists satisfies: additions and
    suppressions are disjoint, the journal describes the state it is stored with, the
    idempotency index and the retained receipts agree, and the audit sequence is
    strictly increasing; and that each transition keeps it. *)

Definition audit_ok (rs : list TopologyOperationRecord) (last : Z) : Prop :=
  is_u64 last ∧ Forall (λ r, 1 ≤ rec_seq r ≤ last) rs ∧
  (last < U64_MAX → StronglySorted Z.lt (rec_seq <$> rs)).

Section invariant.
Context `{UuidV5}.

(** The journal [p] of a state with these fields. *)
Record journal_ok (st : TopologyIntentState) (p : PendingTopologyOperation) : Prop := {
  journal_base : pend_base_revision p = rollback_revision p;
  journal_revision : is_u64 (rollback_revision p);
  journal_disjoint : rollback_additions p ## rollback_suppressions p;
  journal_cross : rollback_cross_additions p = cross_additions st ∧ rollback_cross_suppressions p = cross_suppressions st;
  journal_fresh : idempotency st !! pend_key p = None;
  journal_id : pend_operation_id p = operation_id (pend_key p) (pend_fingerprint p);
  journal_phase :
    match pend_phase p with
    | Applying => revision st = u64_saturating_add (rollback_revision p) 1 ∧ last_recovery_error p = None
    | RollingBack => current_intent st = rollback_intent p
    end;
  journal_target : pend_target_revision p = revision st;
}.

Record receipts_ok (rs : list TopologyOperationReceipt) (idem : gmap string IdempotencyRecord) : Prop := {
  receipts_keys : NoDup (receipt_key <$> rs);
  receipts_indexed : ∀ k known, idem !! k = Some known →
    idem_operation_id known = operation_id k (idem_fingerprint known) ∧
    ∃ r, r ∈ rs ∧ receipt_key r = k ∧ receipt_operation_id r = idem_operation_id known;
  receipts_retained : ∀ r, r ∈ rs → is_Some (idem !! receipt_key r);
}.

Record state_ok (st : TopologyIntentState) : Prop := {
  ok_revision : is_u64 (revision st);
  ok_disjoint : additions st ## suppressions st;
  ok_journal : ∀ p, pending st = Some p → journal_ok st p;
  ok_receipts : receipts_ok (receipts st) (idempotency st);
  ok_audit : audit_ok (operation_records st) (last_operation_record_seq st);
}.

Lemma default_intent_ok : state_ok default_intent.
Proof.
  split; try done.
  - split; [constructor|by intros ? ?|by intros r ?%elem_of_nil].
  - split_and!; [done|constructor|constructor].
Qed.

Lemma is_u64_succ n : is_u64 n → is_u64 (u64_saturating_add n 1).
Proof. unfold is_u64, u64_saturating_add, U64_MAX. lia. Qed.

(** ** Audit records *)

Lemma audit_ok_seqs rs rs' last : rec_seq <$> rs' = rec_seq <$> rs → audit_ok rs last → audit_ok rs' last.
Proof.
  intros E (Hl & Hf & Hs). split_and!; [done| |by rewrite E].
  apply (Forall_fmap rec_seq (λ s, 1 ≤ s ≤ last)). rewrite E. by apply Forall_fmap.
Qed.

Lemma update_first_seqs (p : TopologyOperationRecord → bool) f rs :
  (∀ r, rec_seq (f r) = rec_seq r) → rec_seq <$> update_first p f rs = rec_seq <$> rs.
Proof.
  intros Hf. induction rs as [|r rs IH]; [done|]. cbn [update_first]. destruct (p r).
  - rewrite !fmap_cons. by rewrite Hf.
  - rewrite !fmap_cons. by rewrite IH.
Qed.

Context `{UtcClock}.

Lemma set_status_seq n r s k : rec_seq (set_operation_record_status n r s k) = rec_seq r.
Proof. unfold set_operation_record_status. by case_match. Qed.
Lemma reconcile_record_seq n rs p r : rec_seq (reconcile_record n rs p r) = rec_seq r.
Proof. unfold reconcile_record. repeat (case_match; rewrite ?set_status_seq; try done). Qed.
Lemma reconcile_persisted_seqs n rs receipts p :
  rec_seq <$> reconcile_persisted_operation_records n rs receipts p = rec_seq <$> rs.
Proof.
  revert n. induction rs as [|r rs IH]; intros n; [done|]. cbn [reconcile_persisted_operation_records].
  rewrite !fmap_cons. by rewrite reconcile_record_seq, IH.
Qed.

Lemma foldr_max_le (l : list Z) b : 0 ≤ b → Forall (λ s, s ≤ b) l → foldr Z.max 0 l ≤ b.
Proof. intros Hb. induction 1; simpl; lia. Qed.

Lemma assign_seqs_id next rs : Forall (λ r, 1 ≤ rec_seq r) rs → assign_seqs next rs = (rs, next).
Proof.
  induction 1 as [|r rs Hr _ IH]; [done|]. cbn [assign_seqs]. destruct (Z.eqb_spec (rec_seq r) 0); [lia|]. by rewrite IH.
Qed.
(** What was written by this schema is not renumbered. *)
Lemma normalize_sequences_id rs last : audit_ok rs last → normalize_operation_record_sequences rs last = (rs, last).
Proof.
  intros ([Hl _] & Hf & _). unfold normalize_operation_record_sequences. rewrite assign_seqs_id.
  - f_equal. apply Z.max_l. apply foldr_max_le; [done|]. apply Forall_fmap. eapply Forall_impl; [done|]. simpl. lia.
  - eapply Forall_impl; [done|]. simpl. lia.
Qed.

Lemma StronglySorted_drop {A} (R : relation A) n (l : list A) : StronglySorted R l → StronglySorted R (drop n l).
Proof.
  revert n. induction l as [|x l IH]; intros [|n] Hs; try done. apply StronglySorted_inv in Hs as [Hs _]. by apply IH.
Qed.
Lemma StronglySorted_snoc (l : list Z) x : StronglySorted Z.lt l → Forall (λ y, y < x) l → StronglySorted Z.lt (l ++ [x]).
Proof.
  induction 1 as [|y l Hs IH Hall]; intros Hx; simpl; [by repeat constructor|].
  apply Forall_cons in Hx as [Hy Hx]. constructor; [by apply IH|]. apply Forall_app. split; [done|by constructor].
Qed.

Lemma append_audit_ok p st r :
  audit_ok (operation_records st) (last_operation_record_seq st) →
  audit_ok (operation_records (append_operation_record p st r)) (last_operation_record_seq (append_operation_record p st r)).
Proof.
  intros (Hl & Hf & Hs). unfold append_operation_record. cbn [operation_records last_operation_record_seq with_records].
  set (last' := u64_saturating_add _ 1). destruct Hl as [Hl0 Hl1].
  assert (last_operation_record_seq st ≤ last' ∧ 1 ≤ last' ≤ U64_MAX) as [Hle Hr].
  { unfold last', u64_saturating_add, U64_MAX in *. lia. }
  rewrite shrink_front_drop. split_and!; [split; lia| |].
  - apply Forall_drop, Forall_app. split; [eapply Forall_impl; [done|]; simpl; lia|].
    constructor; [|done]. unfold set_seq. simpl. lia.
  - intros Hlt. rewrite fmap_drop. apply StronglySorted_drop. rewrite fmap_app. apply StronglySorted_snoc.
    + apply Hs. lia.
    + apply Forall_fmap. eapply Forall_impl; [done|]. cbn. unfold last', u64_saturating_add in *. lia.
Qed.

(** ** Transitions *)

Lemma state_ok_records st rs last : state_ok st → audit_ok rs last → state_ok (with_records st rs last).
Proof.
  intros [Hr Hd Hj Hi _] Ha. split; try done. intros p Hp. destruct (Hj p Hp). by split.
Qed.
Lemma state_ok_mark n id s k st : state_ok st → state_ok (mark_record n id s k st).
Proof.
  intros Hok. apply state_ok_records; [done|]. eapply audit_ok_seqs; [|apply Hok].
  apply update_first_seqs. intros r. apply set_status_seq.
Qed.
Lemma state_ok_mark_owned n p s k st : state_ok st → state_ok (mark_owned n p s k st).
Proof.
  intros Hok. apply state_ok_records; [done|]. eapply audit_ok_seqs; [|apply Hok].
  apply update_first_seqs. intros r. apply set_status_seq.
Qed.
Lemma state_ok_reconcile n st : state_ok st → state_ok (reconcile_records n st).
Proof.
  intros Hok. apply state_ok_records; [done|]. eapply audit_ok_seqs; [|apply Hok]. apply reconcile_persisted_seqs.
Qed.
Lemma state_ok_append p st r : state_ok st → state_ok (append_operation_record p st r).
Proof. intros Hok. apply state_ok_records; [done|]. apply append_audit_ok, Hok. Qed.
Lemma state_ok_authority st v a : state_ok st → state_ok (with_authority st v a).
Proof. intros [Hr Hd Hj Hi Ha]. split; try done. intros p Hp. destruct (Hj p Hp). by split. Qed.

Lemma state_ok_journal st p : state_ok st → journal_ok st p → state_ok (with_pending st (Some p)).
Proof. intros [Hr Hd _ Hi Ha] Hj. split; try done. intros q [= <-]. destruct Hj. by split. Qed.
Lemma state_ok_no_journal st : state_ok st → state_ok (with_pending st None).
Proof. intros [Hr Hd _ Hi Ha]. by split. Qed.

Lemma state_ok_roll_back st p : state_ok st → pending st = Some p → state_ok (roll_back_journal st p).
Proof.
  intros [Hr Hd Hj Hi Ha] Hp. destruct (Hj p Hp) as [Hb Hrev Hdis [Hc1 Hc2] Hf Hid Hph Ht].
  split; try done. intros q [= <-]. by split.
Qed.
Lemma state_ok_recovery_failed st p m :
  state_ok st → journal_ok st p → pend_phase p = RollingBack → state_ok (with_pending st (Some (recovery_failed p m))).
Proof.
  intros Hok [Hb Hrev Hdis Hc Hf Hid Hph Ht] Hp. rewrite Hp in Hph. apply state_ok_journal; [done|].
  split; try done. unfold recovery_failed. cbn [pend_phase]. by rewrite Hp.
Qed.

(** ** Receipts *)

Context `{Sha256}.

Lemma evict_receipts_ok limit rs idem compacted :
  receipts_ok rs idem →
  receipts_ok (evict_receipts limit rs idem compacted).1.1 (evict_receipts limit rs idem compacted).1.2.
Proof.
  revert idem compacted. induction rs as [|r rs IH]; intros idem compacted Hok; [done|]. cbn [evict_receipts].
  destruct (Nat.leb_spec (length (r :: rs)) limit) as [Hle|Hgt].
  - done.
  - apply IH. destruct Hok as [Hk Hx Ht]. rewrite fmap_cons in Hk. apply NoDup_cons in Hk as [Hnin Hk]. split; [done| |].
    + intros k known [Hne Hkn]%lookup_delete_Some. destruct (Hx k known Hkn) as (Hid & r' & Hin & Hkey & Hop).
      split; [done|]. exists r'. apply elem_of_cons in Hin as [->|Hin]; [by rewrite Hkey in Hne|]. done.
    + intros r' Hin. rewrite lookup_delete_ne; [apply Ht; by right|].
      intros E. apply Hnin. rewrite E. by apply list_elem_of_fmap_2.
Qed.

Lemma receipts_ok_push rs idem r fingerprint :
  receipts_ok rs idem → idem !! receipt_key r = None → receipt_operation_id r = operation_id (receipt_key r) fingerprint →
  receipts_ok (rs ++ [r]) (<[receipt_key r := mkIdempotency fingerprint (receipt_operation_id r)]> idem).
Proof.
  intros [Hk Hx Ht] Hnone Hid. split.
  - rewrite fmap_app. apply NoDup_app. split_and!; [done| |apply NoDup_singleton].
    intros k (r' & -> & Hr')%list_elem_of_fmap [=E]%list_elem_of_singleton. specialize (Ht r' Hr'). rewrite E, Hnone in Ht. by destruct Ht.
  - intros k known [[<- <-]|[Hne Hkn]]%lookup_insert_Some.
    + split; [done|]. exists r. split_and!; [|done|done]. apply elem_of_app. right. by left.
    + destruct (Hx k known Hkn) as (? & r' & Hin & ? & ?). split; [done|]. exists r'. split_and!; try done. apply elem_of_app. by left.
  - intros r' [Hin|[=->]%list_elem_of_singleton]%elem_of_app; [|by rewrite lookup_insert_eq].
    destruct (decide (receipt_key r' = receipt_key r)) as [->|Hne]; [by rewrite lookup_insert_eq|].
    rewrite lookup_insert_ne by done. by apply Ht.
Qed.

Lemma evict_receipts_drop limit rs idem compacted :
  (evict_receipts limit rs idem compacted).1.1 = drop (length rs - limit) rs.
Proof.
  revert idem compacted. induction rs as [|r rs IH]; intros idem compacted; [done|]. cbn [evict_receipts].
  destruct (Nat.leb_spec (length (r :: rs)) limit) as [Hle|Hgt].
  - by replace (length (r :: rs) - limit)%nat with 0%nat by lia.
  - replace (length (r :: rs) - limit)%nat with (S (length rs - limit)) by (simpl in *; lia). apply IH.
Qed.

Lemma record_receipt_unfold p st r f :
  ∃ rs idem compacted,
    evict_receipts (Z.to_nat (receipt_limit p)) (receipts st ++ [r])
      (<[receipt_key r := mkIdempotency f (receipt_operation_id r)]> (idempotency st)) (compacted_idempotency st) = (rs, idem, compacted) ∧
    record_receipt p st r f = with_receipts st rs idem (shrink_front (Z.to_nat (idempotency_history_limit p)) compacted).
Proof. unfold record_receipt. case_match eqn:E. destruct p0 as [rs idem]. eauto. Qed.

Lemma last_drop {A} (l : list A) x n : (n ≤ length l)%nat → last (drop n (l ++ [x])) = Some x.
Proof. intros Hn. rewrite drop_app_le by done. apply last_snoc. Qed.

(** The receipt just recorded is retained, as the limit is at least one. *)
Lemma record_receipt_last p st r f : 1 ≤ receipt_limit p → last (receipts (record_receipt p st r f)) = Some r.
Proof.
  intros Hp. destruct (record_receipt_unfold p st r f) as (rs & idem & compacted & E & ->). cbn [receipts with_receipts].
  pose proof (evict_receipts_drop (Z.to_nat (receipt_limit p)) (receipts st ++ [r])
    (<[receipt_key r := mkIdempotency f (receipt_operation_id r)]> (idempotency st)) (compacted_idempotency st)) as Hd.
  rewrite E in Hd. cbn in Hd. rewrite Hd. apply last_drop. rewrite length_app. simpl. lia.
Qed.

Lemma state_ok_receipt p st r f :
  state_ok st → pending st = None → idempotency st !! receipt_key r = None →
  receipt_operation_id r = operation_id (receipt_key r) f → state_ok (record_receipt p st r f).
Proof.
  intros [Hr Hd _ Hi Ha] Hp Hn Hid. destruct (record_receipt_unfold p st r f) as (rs & idem & compacted & E & ->).
  split; try done; cbn [with_receipts pending receipts idempotency]; [by rewrite Hp|].
  pose proof (evict_receipts_ok (Z.to_nat (receipt_limit p)) _ _ (compacted_idempotency st)
    (receipts_ok_push _ _ r f Hi Hn Hid)) as Hok. by rewrite E in Hok.
Qed.
End invariant.
