(* ===== verification/TopologyApply.v ===== *)
(** * Topology control: the operations against the invariant

    Which effects each operation makes, and the write-ahead journal, the actuators, the
    commit and the rollback of [apply_as]. *)

From S2P Require Import Prelude Strings MemoryRecords MemberIds TopologyTypes TopologyState TopologyWorld EdgeReconcile TopologyController TopologyLogic.
Open Scope Z_scope.

(** ** The operations against the invariant

    Which effects each operation makes.  Everything but [apply] keeps the committed
    intent at every effect; [apply] moves it only with the state that holds its
    receipt, and acts on the mob only under a journal that is already on disk. *)

(** ** Specifications of effects *)

(** The intent is what [c] says, and the state is well formed. *)
Definition steady `{UuidV5} (c : CommittedTopologyIntent) : EventSpec := λ _ e,
  match e with
  | EvPersisted st | EvPublished st => state_ok st ∧ committed_intent st = c
  | _ => True
  end.

(** What a request asks of the intent, given the declared edges. *)
Definition request_one (declared : gset DesiredPeerEdge) (action : TopologyAction) (e : DesiredPeerEdge) (c : CommittedTopologyIntent)
    : CommittedTopologyIntent :=
  match action with
  | Connect | Reconnect =>
      mkCommitted (committed_revision c) (if bool_decide (e ∈ declared) then committed_additions c else {[e]} ∪ committed_additions c)
        (committed_suppressions c ∖ {[e]}) (committed_cross_additions c) (committed_cross_suppressions c)
  | Disconnect =>
      mkCommitted (committed_revision c) (committed_additions c ∖ {[e]}) ({[e]} ∪ committed_suppressions c)
        (committed_cross_additions c) (committed_cross_suppressions c)
  end.
Fixpoint requested (declared : gset DesiredPeerEdge) (authority : string) (ops : list TopologyMutation) (c : CommittedTopologyIntent)
    : CommittedTopologyIntent :=
  match ops with
  | [] => c
  | op :: rest =>
      requested declared authority rest
        match local_desired_edge (mut_edge op) authority with
        | Some e => request_one declared (mut_action op) e c
        | None => c
        end
  end.
Definition bump (c : CommittedTopologyIntent) : CommittedTopologyIntent :=
  mkCommitted (u64_saturating_add (committed_revision c) 1) (committed_additions c) (committed_suppressions c)
    (committed_cross_additions c) (committed_cross_suppressions c).

(** The state [st] is the commit of the operation under [key] on the intent [c]: no
    journal is open and the newest receipt says so. *)
Definition committed_by (key authority : string) (ops : list TopologyMutation) (c : CommittedTopologyIntent) (st : TopologyIntentState)
    (receipt : TopologyOperationReceipt) : Prop :=
  pending st = None ∧ last (receipts st) = Some receipt ∧
  receipt_status receipt = OpApplied ∧ receipt_key receipt = key ∧
  receipt_base_revision receipt = committed_revision c ∧ receipt_revision receipt = revision st ∧
  ∃ declared, current_intent st = bump (requested declared authority ops c).

(** The edge an actuator call changes. *)
Definition acts_on `{DebugText} (ev : TopologyEvent) (e : DesiredPeerEdge) : Prop :=
  match ev with
  | EvWire edges _ => edges = [(mob_member_id e.1, mob_member_id e.2)]
  | EvUnwire a b _ => a = mob_member_id e.1 ∧ b = mob_member_id e.2
  | EvMutate _ m _ => managed_peer_edge_from_desired e = Ok m
  | _ => False
  end.
(** The disk holds the journal of the operation under [key], and it names that edge. *)
Definition journaled `{DebugText} (key authority : string) (d : option TopologyIntentState) (ev : TopologyEvent) : Prop :=
  ∃ st p m e, d = Some st ∧ pending st = Some p ∧ pend_key p = key ∧ m ∈ pend_operations p ∧
    local_desired_edge (mut_edge m) authority = Some e ∧ acts_on ev e.

Definition apply_event `{UuidV5} `{DebugText} (key authority : string) (ops : list TopologyMutation) (c : CommittedTopologyIntent) : EventSpec :=
  λ d ev,
  match ev with
  | EvPersisted st | EvPublished st =>
      state_ok st ∧ (committed_intent st = c ∨ ∃ receipt, committed_by key authority ops c st receipt)
  | _ => journaled key authority d ev
  end.

Lemma steady_apply_event `{UuidV5} `{DebugText} key authority ops c d st :
  (steady c d (EvPersisted st) → apply_event key authority ops c d (EvPersisted st)) ∧
  (steady c d (EvPublished st) → apply_event key authority ops c d (EvPublished st)).
Proof. unfold steady, apply_event. naive_solver. Qed.

Section proofs.
Context `{TopologyEnv} `{IdentityTopology} (h : TopologyRuntimeHandle).

(** ** Reading *)

Lemma quiet_query D P : quiet D P (query_unlocked h).
Proof. unfold query_unlocked, query_mob, query_identity_first. quiet_step. Qed.
Lemma quiet_lookup D P id name : quiet D P (lookup_member id name).
Proof. unfold lookup_member. quiet_step. Qed.
Lemma quiet_actual_state D P e : quiet D P (edge_actual_state e).
Proof. unfold edge_actual_state. destruct (endpoints e). quiet_step; apply quiet_lookup. Qed.

Lemma wp_observed Q w :
  Q (Ok (tw_step w)) (mkTopologyWorld (tw_policy w) (tw_mem w) (tw_disk w) (tw_durable w) (tw_managed w) (S (tw_step w)) (tw_trace w)) →
  wp observe Q w.
Proof. done. Qed.

Lemma query_snapshot w s w' :
  query_unlocked h w = (Ok s, w') →
  snap_authority s = handle_authority h ∧ snap_revision s = committed_revision (committed_intent (tw_mem w)).
Proof.
  intros E. assert (wp (query_unlocked h) (λ r _, ∀ s, r = Ok s → snap_authority s = handle_authority h ∧
    snap_revision s = committed_revision (committed_intent (tw_mem w))) w) as Hwp.
  { unfold query_unlocked, query_mob, query_identity_first.
    repeat (wp_step || (apply wp_observed; cbn [tw_mem]) || case_match); try (by intros ?); intros ? [= <-]; done. }
  exact (wp_run _ _ _ _ _ E Hwp s eq_refl).
Qed.

(** ** Recovery *)

(** The file is the one of [d0], or it has the committed intent [c]. *)
Definition filed (c : CommittedTopologyIntent) (d0 d : option TopologyIntentState) : Prop :=
  d = d0 ∨ ∃ st, d = Some st ∧ committed_intent st = c.

(** The memory is well formed and its committed intent is [c]; so is the file's, unless it
    is still the one of [w]; the configuration is that of [w]. *)
Record fine (c : CommittedTopologyIntent) (w w' : TopologyWorld) : Prop := {
  fine_ok : state_ok (tw_mem w');
  fine_intent : committed_intent (tw_mem w') = c;
  fine_policy : tw_policy w' = tw_policy w;
  fine_durable : tw_durable w' = tw_durable w;
  fine_disk : filed c (tw_disk w) (tw_disk w');
}.
Lemma filed_trans c d0 d1 d2 : filed c d0 d1 → filed c d1 d2 → filed c d0 d2.
Proof. by intros H1 [->|?]; [|right]. Qed.
Lemma fine_moved c w w1 w2 st d :
  fine c w w1 → moved w1 st d w2 → state_ok st → committed_intent st = c → filed c (tw_disk w1) d → fine c w w2.
Proof. intros [] [Hm Hdisk Hp Hd] Hok Hc Hfile. split; try congruence. rewrite Hdisk. by eapply filed_trans. Qed.
Lemma fine_kept c w w1 w2 : fine c w w1 → kept w1 w2 → fine c w w2.
Proof. intros Hf K. eapply fine_moved; [done|done|apply Hf|apply Hf|by left]. Qed.
Lemma fine_trans c w w1 w2 : fine c w w1 → fine c w1 w2 → fine c w w2.
Proof. intros [] []. split; try congruence. by eapply filed_trans. Qed.
Lemma fine_refl c w : state_ok (tw_mem w) → committed_intent (tw_mem w) = c → fine c w w.
Proof. split; try done. by left. Qed.

(** A persist of a state of the committed intent [c], and one that failed. *)
Lemma filed_persisted c (durable : bool) d0 st d :
  committed_intent st = c → d = (if durable then Some st else d0) → filed c d0 d.
Proof. intros Hc ->. destruct durable; [right; eauto|by left]. Qed.
Lemma filed_failed c d0 st d : committed_intent st = c → d = d0 ∨ d = Some st → filed c d0 d.
Proof. intros Hc [->| ->]; [by left|right; eauto]. Qed.

(** A specification that allows every well-formed state of the committed intent [c]. *)
Definition covers (c : CommittedTopologyIntent) (P : EventSpec) : Prop :=
  ∀ d st, state_ok st → committed_intent st = c → P d (EvPersisted st) ∧ P d (EvPublished st).
Lemma steady_covers c : covers c (steady c).
Proof. by intros d st Hok Hc. Qed.

Lemma twp_commit_covered P c st (Q : Result unit _ → _) w w1 :
  covers c P → fine c w w1 → state_ok st → committed_intent st = c →
  (∀ w', fine c w w' → tw_mem w' = st → Q (Ok tt) w') →
  (∀ e w', fine c w w' → tw_mem w' = tw_mem w1 → Q (Err e) w') →
  twp P (commit_state st) Q w1.
Proof.
  intros HP Hf Hok Hc HQ HE. apply twp_commit; [by apply HP|intros d _; by apply HP| |].
  - intros d w' M Hd. apply HQ; [|apply M]. eapply fine_moved; [done..|by eapply filed_persisted].
  - intros e d w' M Hd. apply HE; [|apply M]. eapply fine_moved; [done|done|apply Hf|apply Hf|by eapply filed_failed].
Qed.

Lemma twp_commit_steady c st (Q : Result unit _ → _) w w1 :
  fine c w w1 → state_ok st → committed_intent st = c →
  (∀ w', fine c w w' → tw_mem w' = st → Q (Ok tt) w') →
  (∀ e w', fine c w w' → tw_mem w' = tw_mem w1 → Q (Err e) w') →
  twp (steady c) (commit_state st) Q w1.
Proof. apply twp_commit_covered, steady_covers. Qed.

Lemma twp_reconcile_records P c (Q : Result unit _ → _) w w1 :
  covers c P → fine c w w1 → (∀ r w', fine c w w' → Q r w') →
  twp P reconcile_operation_records_unlocked Q w1.
Proof.
  intros HP Hf HQ. apply twp_bind, twp_gets, twp_bind, twp_observe_many. intros w2 K.
  cbv zeta. destruct (bool_decide _).
  - apply twp_ret, HQ. by eapply fine_kept.
  - apply (twp_commit_covered P c _ _ w); [done|by eapply fine_kept|apply state_ok_reconcile, Hf|apply Hf|by eauto|by eauto].
Qed.

(** After it, an open journal is rolling back. *)
Definition rolling (w : TopologyWorld) : Prop := ∀ p, pending (tw_mem w) = Some p → pend_phase p = RollingBack.

Lemma twp_prepare c (Q : Result unit _ → _) w w1 :
  fine c w w1 →
  (∀ w', fine c w w' → rolling w' → pending_operation_id (tw_mem w') = pending_operation_id (tw_mem w1) → Q (Ok tt) w') →
  (∀ e w', fine c w w' → Q (Err e) w') →
  twp (steady c) prepare_pending_recovery Q w1.
Proof.
  intros Hf HQ HE. apply twp_bind, twp_gets. destruct (pending (tw_mem w1)) as [p|] eqn:Hp.
  - destruct (bool_decide_reflect (pend_phase p = Applying)) as [Ha|Hr].
    + pose proof (fine_intent _ _ _ Hf) as Hi. unfold committed_intent in Hi. rewrite Hp in Hi.
      apply (twp_commit_steady c _ _ w); [done|by apply state_ok_roll_back; [apply Hf|]|done| |by eauto].
      intros w' Hw' E. apply HQ; [done| |].
      * intros q. rewrite E. by intros [= <-].
      * unfold pending_operation_id. by rewrite E, Hp.
    + apply twp_ret, HQ; [done| |done]. intros q. rewrite Hp. intros [= <-]. by destruct (pend_phase p).
  - apply twp_ret, HQ; [done| |done]. intros q. by rewrite Hp.
Qed.

Lemma committed_with_records st rs l : committed_intent (with_records st rs l) = committed_intent st.
Proof. done. Qed.

Lemma record_receipt_intent p st r f : committed_intent (record_receipt p st r f) = committed_intent st.
Proof. destruct (record_receipt_unfold p st r f) as (? & ? & ? & _ & ->). done. Qed.
Lemma record_receipt_pending p st r f : pending (record_receipt p st r f) = pending st.
Proof. destruct (record_receipt_unfold p st r f) as (? & ? & ? & _ & ->). done. Qed.
Lemma record_receipt_current p st r f : current_intent (record_receipt p st r f) = current_intent st.
Proof. destruct (record_receipt_unfold p st r f) as (? & ? & ? & _ & ->). done. Qed.

Definition closed_by (st : TopologyIntentState) (id : string) : Prop :=
  pending st = None ∧ ∃ r, r ∈ receipts st ∧ receipt_operation_id r = id ∧ receipt_status r = OpRolledBack.

(** The policy in force has been validated; its limits are [usize] values. *)
Definition valid_policy (p : TopologyControlPolicy) : Prop :=
  policy_validate p = Ok tt ∧ 0 ≤ max_batch_size p ∧ 0 ≤ receipt_limit p ∧ 0 ≤ idempotency_history_limit p.
Lemma valid_policy_limit p : valid_policy p → 1 ≤ receipt_limit p.
Proof.
  intros (Hv & _ & Hr & _). unfold policy_validate in Hv. destruct (Z.eqb_spec (receipt_limit p) 0) as [E|E]; [|lia].
  repeat case_match; done.
Qed.

Lemma twp_finalize c complete (Q : Result unit _ → _) w w1 :
  fine c w w1 → rolling w1 →
  (∀ r w', fine c w w' → (r = Ok tt → complete = true → pending (tw_mem w') = None ∧
      (∀ id, pending_operation_id (tw_mem w1) = Some id → 1 ≤ receipt_limit (tw_policy w1) → closed_by (tw_mem w') id)) → Q r w') →
  twp (steady c) (finalize_recovered_pending complete) Q w1.
Proof.
  intros Hf Hroll HQ. apply twp_bind, twp_gets, twp_bind, twp_gets. destruct (pending (tw_mem w1)) as [p|] eqn:Hp.
  - pose proof (Hroll p Hp) as Hphase. pose proof (fine_ok _ _ _ Hf) as Hok. destruct (ok_journal _ Hok p Hp) as [Hb Hrev Hdis Hc Hfr Hid Hph Ht].
    pose proof (fine_intent _ _ _ Hf) as Hi. unfold committed_intent in Hi. rewrite Hp in Hi. rewrite Hphase in Hph.
    apply twp_bind, twp_observe. intros w2 K. destruct complete; cbn [negb].
    + assert (committed_intent (with_pending (mark_owned (tw_step w1) p RecRolledBack None (tw_mem w1)) None) = c) as Hnew.
      { unfold committed_intent. cbn [pending with_pending]. by rewrite <- Hi, <- Hph. }
      apply (twp_commit_steady c _ _ w); [by eapply fine_kept| | | |].
      * apply state_ok_receipt; [by apply state_ok_no_journal, state_ok_mark_owned|done|done|done].
      * by rewrite record_receipt_intent.
      * intros w' Hw' E. apply HQ; [done|]. intros _ _. rewrite E, record_receipt_pending. split; [done|].
        unfold pending_operation_id. rewrite Hp. intros id [= <-] Hl. split; [by rewrite record_receipt_pending|].
        eexists. split; [apply last_Some_elem_of, record_receipt_last, Hl|done].
      * intros e w' Hw' _. by apply HQ.
    + apply (twp_commit_steady c _ _ w); [by eapply fine_kept| |done| |].
      * apply state_ok_recovery_failed; [by apply state_ok_mark_owned| |done].
        split; try done. by rewrite Hphase.
      * intros w' Hw' E. by apply HQ.
      * intros e w' Hw' _. by apply HQ.
  - apply twp_ret, HQ; [done|]. intros _ _. split; [done|]. unfold pending_operation_id. by rewrite Hp.
Qed.

(** ** Every other operation keeps the committed intent *)

Definition anywhere (d : option TopologyIntentState) : Prop := True.

Lemma quiet_run_wire c l : quiet anywhere (steady c) (run_wire l).
Proof.
  unfold run_wire. case_match; [apply quiet_ret|]. apply quiet_bind; [by apply quiet_call_wire|]. intros r. apply quiet_ret.
Qed.
Lemma quiet_run_unwires c l : quiet anywhere (steady c) (run_unwires l).
Proof.
  induction l as [|[a b] l IH]; cbn [run_unwires]; [apply quiet_ret|].
  apply quiet_bind; [by apply quiet_call_unwire|]. intros r. apply quiet_bind; [done|]. intros rs. apply quiet_ret.
Qed.
Lemma quiet_diff c managed members raw : quiet anywhere (steady c) (reconcile_diff managed members raw).
Proof.
  unfold reconcile_diff. apply quiet_bind; [apply quiet_run_wire|]. intros wired.
  apply quiet_bind; [apply quiet_run_unwires|]. intros unwires. apply quiet_ret.
Qed.
Lemma quiet_over_members c d managed topology members :
  quiet anywhere (steady c) (reconcile_edges_over_members d managed topology members).
Proof.
  unfold reconcile_edges_over_members. apply quiet_bind; [quiet_step|]. intros discovered.
  apply quiet_bind; [apply quiet_gets|]. intros mem. apply quiet_diff.
Qed.
Lemma quiet_or_report {A E} c (r : Result A E) f k :
  (∀ a, quiet anywhere (steady c) (k a)) → quiet anywhere (steady c) (or_report r f k).
Proof. intros Hk. destruct r; [apply Hk|apply quiet_ret]. Qed.
Lemma quiet_identity c : quiet anywhere (steady c) reconcile_identity_first.
Proof.
  unfold reconcile_identity_first.
  repeat first [progress intros | apply quiet_ret | apply quiet_gets | apply quiet_observe | apply quiet_or_report
    | (by apply quiet_log) | apply quiet_bind | case_match ].
Qed.
Lemma quiet_reconcile_current c : quiet anywhere (steady c) (reconcile_current_unlocked h).
Proof.
  unfold reconcile_current_unlocked. case_match; [apply quiet_identity|].
  apply quiet_bind; [apply quiet_observe|]. intros n. apply quiet_bind; [apply quiet_gets|]. intros managed.
  apply quiet_bind; [apply quiet_over_members|]. intros r. apply quiet_bind; [apply quiet_set_managed|]. intros _. apply quiet_ret.
Qed.

(** [steadily m]: from a well-formed memory, [m] keeps it well formed and keeps the
    committed intent, at every effect. *)
Definition steadily {A} (m : TM A) : Prop := ∀ c w w1 (Q : Result A _ → TopologyWorld → Prop),
  fine c w w1 → (∀ r w', fine c w w' → Q r w') → twp (steady c) m Q w1.

Lemma steadily_quiet {A} (m : TM A) : (∀ c, quiet anywhere (steady c) m) → steadily m.
Proof. intros Hm c w w1 Q Hf HQ. apply Hm; [done|]. intros r w' K. apply HQ. by eapply fine_kept. Qed.
Lemma steadily_bind {A B} (m : TM A) (f : A → TM B) : steadily m → (∀ a, steadily (f a)) → steadily (m ≫= f).
Proof.
  intros Hm Hf c w w1 Q Hfine HQ. apply twp_bind. eapply Hm; [done|]. intros [a|e] w' Hw'; [by eapply Hf|by apply HQ].
Qed.
Lemma steadily_catch {A} (m : TM A) : steadily m → steadily (catch m : TM (Result A TopologyControlError)).
Proof. intros Hm c w w1 Q Hf HQ. apply twp_catch. eapply Hm; [done|]. intros r w' K. by apply HQ. Qed.

Lemma steadily_records : steadily reconcile_operation_records_unlocked.
Proof. intros c w w1 Q Hf HQ. eapply twp_reconcile_records; [apply steady_covers|done|done]. Qed.
Lemma steadily_query : steadily (query_unlocked h).
Proof. apply steadily_quiet. intros c. apply quiet_query. Qed.

(** A recovery: prepare, reconcile, finalize. *)
Lemma twp_recovery {A} c (body : TM UnifiedRuntimeReconcileEdgesReport) (k : UnifiedRuntimeReconcileEdgesReport → TM A)
    (Q : Result A _ → TopologyWorld → Prop) w w1 :
  fine c w w1 → quiet anywhere (steady c) body →
  (∀ e w', fine c w w' → Q (Err e) w') →
  (∀ r w', fine c w w' → rolling w' → pending_operation_id (tw_mem w') = pending_operation_id (tw_mem w1) →
     tw_policy w' = tw_policy w1 → twp (steady c) (k r) Q w') →
  twp (steady c) (prepare_pending_recovery;; report ← body; k report) Q w1.
Proof.
  intros Hf Hb HE Hk. apply twp_bind. apply (twp_prepare c _ w); [done| |done].
  intros w2 H2 Hroll Hid. apply twp_bind, Hb; [done|]. intros [r|e] w3 K; [|apply HE; by eapply fine_kept].
  assert (fine c w w3) as H3 by (by eapply fine_kept). apply Hk; [done| | |].
  - intros p. rewrite (moved_mem _ _ _ _ K). apply Hroll.
  - by rewrite (moved_mem _ _ _ _ K).
  - rewrite (moved_policy _ _ _ _ K), (fine_policy _ _ _ H2), (fine_policy _ _ _ Hf). done.
Qed.

Lemma twp_recover c (Q : Result unit _ → _) w w1 :
  fine c w w1 →
  (∀ r w', fine c w w' → (r = Ok tt → pending (tw_mem w') = None ∧
     ∀ id, pending_operation_id (tw_mem w1) = Some id → 1 ≤ receipt_limit (tw_policy w1) → closed_by (tw_mem w') id) → Q r w') →
  twp (steady c) (recover_pending_unlocked h) Q w1.
Proof.
  intros Hf HQ. apply twp_bind, twp_gets. destruct (pending_operation_id (tw_mem w1)) as [id|] eqn:Hid.
  - eapply (twp_recovery c); [done|apply quiet_reconcile_current|by intros; apply HQ|].
    intros r w2 H2 Hroll Hid2 Hpol. apply twp_bind. eapply (twp_finalize c); [done|done|].
    intros [u|e] w3 H3 Hdone; [|by apply HQ]. destruct (is_complete r) eqn:Hc; [|apply twp_throw; by apply HQ].
    apply twp_ret. apply HQ; [done|]. intros _. destruct u. destruct Hdone as [Hp Hcl]; [done|done|].
    split; [done|]. intros id' [= <-] Hl. apply Hcl; [by rewrite Hid2, Hid|by rewrite Hpol].
  - apply twp_ret, HQ; [done|]. intros _. split; [|done]. unfold pending_operation_id in Hid. by destruct (pending (tw_mem w1)).
Qed.
Lemma steadily_recover : steadily (recover_pending_unlocked h).
Proof. intros c w w1 Q Hf HQ. eapply twp_recover; [done|]. intros. by apply HQ. Qed.

Lemma steadily_recovered_report body : (∀ c, quiet anywhere (steady c) body) →
  steadily (or_failure_report prepare_pending_recovery (report ← body; finalize_logged report)).
Proof.
  intros Hb c w w1 Q Hf HQ. apply twp_catch_bind. apply (twp_prepare c _ w); [done| |].
  - intros w2 H2 Hroll Hid. apply twp_bind, Hb; [done|]. intros [r|e] w3 K; [|apply HQ; by eapply fine_kept].
    apply twp_catch_bind. eapply (twp_finalize c); [by eapply fine_kept| |].
    + intros p. rewrite (moved_mem _ _ _ _ K). apply Hroll.
    + intros r' w' Hw' _. apply twp_ret. by apply HQ.
  - intros e w' Hw'. apply twp_ret. by apply HQ.
Qed.

Lemma steadily_reconcile : steadily (reconcile h).
Proof.
  unfold reconcile, or_failure_report at 1. apply steadily_bind; [apply steadily_catch, steadily_records|].
  intros [u|e]; [|apply steadily_quiet; intros c; apply quiet_ret].
  apply steadily_recovered_report. apply quiet_reconcile_current.
Qed.
Lemma steadily_from_members members : steadily (reconcile_edges_from_members h members).
Proof.
  intros c w w1 Q Hf HQ. unfold reconcile_edges_from_members.
  apply twp_catch_bind. apply (twp_prepare c _ w); [done| |by intros; apply twp_ret, HQ].
  intros w2 H2 Hroll Hid. apply twp_bind, twp_gets, twp_bind. apply (quiet_over_members c); [done|].
  intros [r|e] w3 K; [|apply HQ; by eapply fine_kept]. apply twp_bind. apply (quiet_set_managed anywhere); [done|].
  intros [u|e] w4 K4; [|apply HQ; eapply fine_kept; [by eapply fine_kept|done]].
  apply twp_catch_bind. eapply (twp_finalize c); [eapply fine_kept; [by eapply fine_kept|done]| |].
  - intros p. rewrite (moved_mem _ _ _ _ K4), (moved_mem _ _ _ _ K). apply Hroll.
  - intros r' w' Hw' _. apply twp_ret. by apply HQ.
Qed.
Lemma steadily_definition definition : steadily (reconcile_definition_edges_with_topology definition).
Proof.
  intros c w w1 Q Hf HQ. unfold reconcile_definition_edges_with_topology.
  apply twp_catch_bind. apply (twp_prepare c _ w); [done| |by intros; apply twp_ret, HQ].
  intros w2 H2 Hroll Hid. apply twp_bind, twp_observe. intros w3 K. apply twp_bind. apply (quiet_over_members c); [done|].
  intros [r|e] w4 K4; [|apply HQ; eapply fine_kept; [by eapply fine_kept|done]].
  apply twp_catch_bind. eapply (twp_finalize c); [eapply fine_kept; [by eapply fine_kept|done]| |].
  - intros p. rewrite (moved_mem _ _ _ _ K4), (moved_mem _ _ _ _ K). apply Hroll.
  - intros r' w' Hw' _. apply twp_ret. by apply HQ.
Qed.

Lemma steadily_query_call lock_free : steadily (query h lock_free).
Proof.
  unfold query, recover_interrupted_for_read. apply steadily_bind; [|intros _; apply steadily_query].
  apply steadily_bind; [apply steadily_quiet; intros c; apply quiet_gets|]. intros st.
  repeat case_match; try (apply steadily_quiet; intros c; apply quiet_ret).
  apply steadily_bind; [apply steadily_records|intros _; apply steadily_recover].
Qed.
Lemma steadily_plan request : steadily (plan h request).
Proof.
  unfold plan.
  repeat first [progress intros | apply steadily_records | apply steadily_recover | apply steadily_query
    | (apply steadily_quiet; intros; first [apply quiet_gets | apply quiet_throw | apply quiet_lift | apply quiet_ret])
    | case_match | apply steadily_bind].
Qed.
Lemma steadily_operation id : steadily (operation id).
Proof.
  unfold operation. apply steadily_bind; [apply steadily_records|]. intros _. apply steadily_quiet. intros c. quiet_step.
Qed.
Lemma steadily_page after limit : steadily (operation_records_page after limit).
Proof.
  unfold operation_records_page. apply steadily_bind; [apply steadily_records|]. intros _. apply steadily_quiet. intros c. quiet_step.
Qed.

Lemma twp_upsert P c r (Q : Result unit _ → _) w w1 :
  covers c P → fine c w w1 → (∀ r w', fine c w w' → Q r w') → twp P (upsert_operation_record r) Q w1.
Proof.
  intros HP Hf HQ. apply twp_bind, twp_gets, twp_bind, twp_gets. case_match; [by apply twp_ret, HQ|].
  apply (twp_commit_covered P c _ _ w); [done|done|apply state_ok_append, Hf|apply Hf|by eauto|by eauto].
Qed.
Lemma steadily_upsert r : steadily (upsert_operation_record r).
Proof. intros c w w1 Q Hf HQ. eapply twp_upsert; [apply steady_covers|done|done]. Qed.
Lemma quiet_new_record D P request actor principal status :
  quiet D P (operation_record_for_local_request h request actor principal status).
Proof. unfold operation_record_for_local_request. quiet_step. Qed.
Lemma steadily_denied request principal actor error : steadily (record_denied_apply h request principal actor error).
Proof.
  unfold record_denied_apply. apply steadily_bind; [apply steadily_quiet; intros c; apply quiet_new_record|].
  intros r. apply steadily_upsert.
Qed.
Lemma steadily_bind_authority authority : steadily (bind_authority authority).
Proof.
  intros c w w1 Q Hf HQ. apply twp_bind, twp_gets.
  repeat case_match; try (by apply twp_throw, HQ);
    (apply (twp_commit_steady c _ _ w); [done|apply state_ok_authority, Hf|apply Hf|by eauto|by eauto]).
Qed.
End proofs.

(** ** Applying a request

    The effects of [apply_as]: the write-ahead journal, the actuators, the commit and
    the rollback, against [apply_event]. *)

(** ** The target intent *)

Lemma apply_intent_spec declared action e st :
  current_intent (apply_intent declared action e st) = request_one declared action e (current_intent st) ∧
  apply_intent declared action e st = with_intent st (request_one declared action e (current_intent st)).
Proof. by destruct action. Qed.

Lemma with_intent_twice st c c' : with_intent (with_intent st c) c' = with_intent st c'.
Proof. done. Qed.
Lemma with_intent_current st : with_intent st (current_intent st) = st.
Proof. by destruct st. Qed.

Lemma apply_plan_intent_spec declared authority s ops st st' :
  apply_plan_intent declared authority (plan_operation s <$> ops) st = Ok st' →
  st' = with_intent st (requested declared authority ops (current_intent st)).
Proof.
  revert st. induction ops as [|op ops IH]; intros st; cbn [fmap list_fmap apply_plan_intent requested].
  - intros [= <-]. by rewrite with_intent_current.
  - cbn [plan_operation planned_edge planned_action]. destruct (local_desired_edge (mut_edge op) authority) as [e|]; [|done].
    intros ->%IH. destruct (apply_intent_spec declared (mut_action op) e st) as [-> ->]. by rewrite with_intent_twice.
Qed.

Lemma requested_disjoint declared authority ops c :
  committed_additions c ## committed_suppressions c →
  committed_additions (requested declared authority ops c) ## committed_suppressions (requested declared authority ops c).
Proof.
  revert c. induction ops as [|op ops IH]; intros c Hd; [done|]. cbn [requested]. apply IH.
  destruct (local_desired_edge _ _) as [e|]; [|done]. destruct (mut_action op); cbn; try case_match; set_solver.
Qed.
Lemma requested_kept declared authority ops c :
  committed_revision (requested declared authority ops c) = committed_revision c ∧
  committed_cross_additions (requested declared authority ops c) = committed_cross_additions c ∧
  committed_cross_suppressions (requested declared authority ops c) = committed_cross_suppressions c.
Proof.
  revert c. induction ops as [|op ops IH]; intros c; [done|]. cbn [requested].
  destruct (local_desired_edge _ _) as [e|]; [|apply IH].
  destruct (IH (request_one declared (mut_action op) e c)) as (-> & -> & ->). by destruct (mut_action op).
Qed.

Section apply.
Context `{TopologyEnv} `{IdentityTopology} (h : TopologyRuntimeHandle).
Context (key : string) (ops : list TopologyMutation) (c : CommittedTopologyIntent).
Notation authority := (handle_authority h).
Notation spec := (apply_event key authority ops c).

Lemma apply_covers : covers c spec.
Proof. intros d st Hok Hc. split; (split; [done|by left]). Qed.

Lemma spec_persisted d st : state_ok st → committed_intent st = c → spec d (EvPersisted st).
Proof. intros. by apply apply_covers. Qed.
Lemma spec_published d st : state_ok st → committed_intent st = c → spec d (EvPublished st).
Proof. intros. by apply apply_covers. Qed.

(** ** Actuators under the journal *)

Definition under_journal (d : option TopologyIntentState) : Prop :=
  ∃ st p, d = Some st ∧ pending st = Some p ∧ pend_key p = key ∧ pend_operations p = ops.
Definition targeted (e : DesiredPeerEdge) : Prop :=
  ∃ m, m ∈ ops ∧ local_desired_edge (mut_edge m) authority = Some e.

Lemma under_journaled d e ev : under_journal d → targeted e → acts_on ev e → journaled key authority d ev.
Proof. intros (st & p & -> & Hp & Hk & Ho) (m & Hm & He) Ha. exists st, p, m, e. by rewrite Ho. Qed.

Lemma quiet_wire_edge e : targeted e → quiet under_journal spec (wire_edge e).
Proof.
  intros He. unfold wire_edge, endpoints. destruct e as [a b]. apply quiet_bind.
  - apply quiet_call_wire. intros d r Hd. by eapply under_journaled.
  - intros [r|r]; [case_match|]; apply quiet_ret.
Qed.
Lemma quiet_unwire_edge e : targeted e → quiet under_journal spec (unwire_edge e).
Proof.
  intros He. unfold unwire_edge, endpoints. destruct e as [a b]. apply quiet_call_unwire. intros d r Hd. by eapply under_journaled.
Qed.
Lemma quiet_reconnect e half : targeted e → quiet under_journal spec (reconnect_edge e half).
Proof.
  intros He. unfold reconnect_edge. destruct half; [|by apply quiet_wire_edge].
  apply quiet_bind; [by apply quiet_unwire_edge|]. intros [u|r]; [by apply quiet_wire_edge|apply quiet_ret].
Qed.
Lemma quiet_call_mutate action m e : targeted e → managed_peer_edge_from_desired e = Ok m → quiet under_journal spec (call_mutate action m).
Proof.
  intros He Hm. apply quiet_bind; [apply quiet_observe|]. intros n. apply quiet_bind; [|intros _; apply quiet_ret].
  apply quiet_log; [done|]. intros d Hd. by eapply under_journaled.
Qed.

Definition tracked (a : Actuation) : Prop := Forall (λ ch, targeted ch.1) (act_changes a).

Lemma tracked_physical planned e before r acc :
  targeted e → tracked acc → tracked (record_physical planned e before r acc).
Proof.
  intros He Ha. unfold record_physical, tracked. destruct r as [[]|]; cbn [act_changes]; [|done..].
  apply Forall_app. split; [done|by constructor].
Qed.

Lemma quiet_actuate_identity planned e : targeted e → quiet under_journal spec (actuate_identity planned e).
Proof.
  intros He. unfold actuate_identity. destruct (managed_peer_edge_from_desired e) as [m|] eqn:Hm; [|apply quiet_ret].
  case_match; [|apply quiet_ret]. apply quiet_bind; [by eapply quiet_call_mutate|]. intros r. apply quiet_ret.
Qed.
Lemma quiet_actuate_mob planned e halves : targeted e → quiet under_journal spec (actuate_mob planned e halves).
Proof.
  intros He. unfold actuate_mob. cbv zeta.
  destruct (planned_action planned); repeat case_match; try apply quiet_ret;
    (apply quiet_bind; [first [by apply quiet_reconnect | by apply quiet_unwire_edge]|intros r; apply quiet_ret]).
Qed.

Lemma twp_actuate_one planned acc (Q : Result Actuation _ → _) w :
  (∃ m, m ∈ ops ∧ planned_edge planned = mut_edge m) → tracked acc → under_journal (tw_disk w) →
  (∀ e w', kept w w' → Q (Err e) w') → (∀ acc' w', kept w w' → tracked acc' → Q (Ok acc') w') →
  twp spec (actuate_one h authority planned acc) Q w.
Proof.
  intros (m & Hm & Hedge) Ha Hd HE HQ. unfold actuate_one. destruct (local_desired_edge _ _) as [e|] eqn:He.
  - assert (targeted e) as Ht by (exists m; by rewrite <- Hedge). case_match.
    + apply twp_bind, quiet_actuate_identity; [done|done|]. intros [p|e'] w' K; [|by apply HE].
      apply twp_ret, HQ; [done|]. by apply tracked_physical.
    + apply twp_catch_bind, quiet_actual_state with (D := under_journal); [done|]. intros [halves|e'] w' K.
      * apply twp_bind, quiet_actuate_mob; [done|by rewrite (moved_disk _ _ _ _ K)|].
        intros [p|e'] w'' K'; [|apply HE; by eapply kept_trans].
        apply twp_ret, HQ; [by eapply kept_trans|]. by apply tracked_physical.
      * by apply twp_ret, HQ.
  - by apply twp_ret, HQ.
Qed.

Lemma twp_actuate planned acc (Q : Result Actuation _ → _) w :
  Forall (λ p, ∃ m, m ∈ ops ∧ planned_edge p = mut_edge m) planned → tracked acc → under_journal (tw_disk w) →
  (∀ e w', kept w w' → Q (Err e) w') → (∀ acc' w', kept w w' → tracked acc' → Q (Ok acc') w') →
  twp spec (actuate h authority planned acc) Q w.
Proof.
  intros Hp. revert acc w. induction Hp as [|p planned Hp _ IH]; intros acc w Ha Hd HE HQ; cbn [actuate].
  - by apply twp_ret, HQ.
  - apply twp_bind, twp_actuate_one; [done|done|done|done|]. intros acc' w' K Ha'.
    case_match; [by apply twp_ret, HQ|]. apply IH; [done|by rewrite (moved_disk _ _ _ _ K)| |].
    + intros e w'' K'. apply HE. by eapply kept_trans.
    + intros acc'' w'' K' Ha''. apply HQ; [by eapply kept_trans|done].
Qed.

Lemma quiet_rollback_any changes :
  Forall (λ ch, targeted ch.1) changes →
  quiet under_journal spec (if handle_identity h then rollback_identity_physical changes else rollback_physical changes).
Proof.
  intros Hc. rewrite Forall_forall in Hc. 
  case_match; apply quiet_rollback; intros e b Hin%list_elem_of_In%in_rev%list_elem_of_In.
  - unfold undo_identity. destruct (managed_peer_edge_from_desired e) as [m|] eqn:Hm; [|apply quiet_ret].
    eapply quiet_call_mutate; [by apply (Hc (e, b))|done].
  - unfold undo_physical. destruct b; [apply quiet_wire_edge|apply quiet_unwire_edge]; exact (Hc _ Hin).
Qed.

(** ** Outcomes *)

(** What an apply leaves: the committed intent is unchanged; or the call returned the receipt
    of the commit, which is in memory and in the file; or the call failed because the file
    could not be synced after its rename, which holds the commit while the memory does not. *)
Definition applied_or_unchanged (w : TopologyWorld) (r : Result TopologyOperationReceipt TopologyControlError) (w' : TopologyWorld) : Prop :=
  fine c w w' ∨
  (state_ok (tw_mem w') ∧ tw_policy w' = tw_policy w ∧ tw_durable w' = tw_durable w ∧
   (∃ receipt, r = Ok receipt ∧ committed_by key authority ops c (tw_mem w') receipt ∧ tw_disk w' = Some (tw_mem w') ∨
    ∃ message st, r = Err (Persistence message) ∧ committed_intent (tw_mem w') = c ∧ tw_disk w' = Some st ∧
      committed_by key authority ops c st receipt)).

Lemma twp_outcome current id status error (Q : Result unit _ → _) w w1 :
  fine c w w1 → state_ok current → committed_intent current = c →
  (∀ r w', fine c w w' → Q r w') →
  twp spec (persist_operation_record_outcome_candidate current id status error) Q w1.
Proof.
  intros Hf Hok Hc HQ. unfold persist_operation_record_outcome_candidate. case_match; [|by apply twp_throw, HQ].
  apply twp_bind, twp_observe. intros w2 K.
  apply (twp_commit_covered _ c _ _ w); [apply apply_covers|by eapply fine_kept|by apply state_ok_mark|done|by eauto|by eauto].
Qed.
Lemma twp_audited_error {A} current id error (Q : Result A _ → _) w w1 :
  fine c w w1 → state_ok current → committed_intent current = c →
  (∀ e w', fine c w w' → Q (Err e) w') → twp spec (audited_error current id error) Q w1.
Proof.
  intros Hf Hok Hc HQ. apply twp_bind. apply (twp_outcome _ _ _ _ _ w); [done..|].
  intros [u|e] w' Hw'; [apply twp_throw|]; by apply HQ.
Qed.
Lemma twp_audited {A B} current id (r : Result A _) (k : A → TM B) (Q : Result B _ → _) w w1 :
  fine c w w1 → state_ok current → committed_intent current = c →
  (∀ e w', fine c w w' → Q (Err e) w') → (∀ a, r = Ok a → twp spec (k a) Q w1) → twp spec (audited current id r k) Q w1.
Proof. intros Hf Hok Hc HE Hk. destruct r; [by apply Hk|by eapply twp_audited_error]. Qed.
Lemma twp_replay current id receipt w w1 :
  fine c w w1 → state_ok current → committed_intent current = c →
  twp spec (replay_receipt current id receipt) (applied_or_unchanged w) w1.
Proof.
  intros Hf Hok Hc. apply twp_bind. apply (twp_outcome _ _ _ _ _ w); [done..|].
  intros [u|e] w' Hw'; [apply twp_ret|]; by left.
Qed.

(** ** Execution *)

(** The state an apply starts from: no journal, an unused key, the intent [c]. *)
Record ready (current : TopologyIntentState) : Prop := {
  ready_ok : state_ok current;
  ready_pending : pending current = None;
  ready_key : idempotency current !! key = None;
  ready_intent : current_intent current = c;
}.
Lemma ready_committed current : ready current → committed_intent current = c.
Proof. intros [_ Hp _ Hi]. unfold committed_intent. by rewrite Hp. Qed.

(** A journal that remembers [c]. *)
Record journal_of (p : PendingTopologyOperation) : Prop := {
  of_key : pend_key p = key;
  of_ops : pend_operations p = ops;
  of_id : pend_operation_id p = operation_id key (pend_fingerprint p);
  of_base : pend_base_revision p = committed_revision c;
  of_rollback : rollback_intent p = c;
}.

Lemma journal_rolling current p :
  ready current → journal_of p → pend_phase p = RollingBack → pend_target_revision p = revision current → journal_ok current p.
Proof.
  intros [Hok Hp Hk Hi] [E1 E2 E3 E4 E5] Hph Ht. rewrite <- E5 in Hi. injection Hi as Ir Ia Is Ica Ics.
  assert (committed_revision c = rollback_revision p) as Er by (by rewrite <- E5).
  split; try done; try congruence.
  - rewrite <- Ir. apply Hok.
  - rewrite <- Ia, <- Is. apply Hok.
  - by rewrite Hph; unfold current_intent, rollback_intent; rewrite Ir, Ia, Is, Ica, Ics.
Qed.

Lemma twp_roll_back policy current p act error w w1 :
  tw_durable w1 = true → ready current → journal_of p → tracked act → fine c w w1 →
  twp spec (roll_back h policy authority current p act error) (applied_or_unchanged w) w1.
Proof.
  intros Hdur Hready Hj Htr Hf. pose proof (ready_ok _ Hready) as Hok.
  unfold roll_back. apply twp_bind, twp_observe. intros w2 K2. cbv zeta.
  set (rolling := mkPendingOp _ _ _ _ _ _ _ _ _ _ _ _ _ _ _ _ _ _).
  assert (journal_of rolling) as Hjr by (by destruct Hj).
  assert (journal_ok current rolling) as Hjo by (by apply journal_rolling).
  set (rollback_state := mark_record _ _ _ _ _).
  assert (state_ok rollback_state) as Hok1 by (by apply state_ok_mark, state_ok_journal).
  assert (committed_intent rollback_state = c) as Hc1 by apply Hjr.
  assert (fine c w w2) as Hf2 by (by eapply fine_kept).
  assert (tw_durable w2 = true) as Hdur2 by (by rewrite (moved_durable _ _ _ _ K2)).
  apply twp_catch_bind, twp_persist; [by apply spec_persisted| |].
  2: { intros e d w3 M3 Hd. apply twp_ret. left. eapply fine_moved; [done|done|apply Hf2|apply Hf2|by eapply filed_failed]. }
  intros d w3 M3 Hd. rewrite Hdur2 in Hd. apply twp_bind, twp_publish; [by apply spec_published|]. intros w4 M4.
  assert (fine c w w4) as Hf4.
  { eapply fine_moved; [|done|done|done|by left].
    eapply fine_moved; [done|done|apply Hf2|apply Hf2|right; eauto]. }
  apply twp_bind, quiet_rollback_any; [done| |].
  { rewrite (moved_disk _ _ _ _ M4), (moved_disk _ _ _ _ M3), Hd. exists rollback_state, rolling. split_and!; try done; apply Hjr. }
  intros [failures|e] w5 K5; [|left; by eapply fine_kept].
  assert (fine c w w5) as Hf5 by (by eapply fine_kept).
  apply twp_bind, twp_observe. intros w6 K6. assert (fine c w w6) as Hf6 by (by eapply fine_kept). case_match.
  - apply twp_bind. apply (twp_commit_covered _ c _ _ w); [apply apply_covers|done| | | |].
    + apply state_ok_mark, state_ok_recovery_failed; [done| |done]. by destruct Hjo.
    + apply Hjr.
    + intros w' Hw' _. apply twp_ret. by left.
    + intros e w' Hw' _. by left.
  - apply twp_bind. apply (twp_commit_covered _ c _ _ w); [apply apply_covers|done| | | |].
    + apply state_ok_receipt; [|done| |].
      * apply state_ok_mark, state_ok_no_journal. done.
      * cbn [receipt_key]. rewrite (of_key _ Hj). apply Hready.
      * cbn [receipt_key receipt_operation_id]. rewrite (of_key _ Hj). apply Hj.
    + rewrite record_receipt_intent. unfold committed_intent. cbn. apply Hready.
    + intros w' Hw' _. apply twp_throw. by left.
    + intros e w' Hw' _. by left.
Qed.

Lemma twp_execute policy request actor fingerprint id current s next declared w w1 :
  tw_durable w1 = true → 1 ≤ receipt_limit policy → ready current → fine c w w1 →
  idempotency_key request = key → operations request = ops → snap_authority s = authority →
  next = with_intent current (requested declared authority ops c) →
  twp spec (execute h policy request actor fingerprint id current s (plan_from_snapshot s ops) next) (applied_or_unchanged w) w1.
Proof.
  intros Hdur Hlimit Hready Hf Hkey Hops Hs ->. pose proof (ready_ok _ Hready) as Hok.
  pose proof (requested_kept declared authority ops c) as (Krev & Kca & Kcs).
  pose proof (ready_intent _ Hready) as Hi.
  assert (committed_additions c ## committed_suppressions c) as Hdis0 by (rewrite <- Hi; apply Hok).
  pose proof (requested_disjoint declared authority ops c Hdis0) as Hdis.
  unfold execute. apply twp_bind, twp_observe. intros w2 K2. cbv zeta.
  set (journal := mkPendingOp _ _ _ _ _ _ _ _ _ _ _ _ _ _ _ _ _ _).
  assert (journal_of journal) as Hj.
  { split; try done; [by rewrite <- Hkey|by rewrite <- Hi]. }
  apply twp_bind, twp_observe. intros w3 K3.
  set (bare := with_intent (with_intent current _) _). set (next' := mark_record _ _ _ _ _).
  assert (current_intent bare = bump (requested declared authority ops c)) as Hbare.
  { unfold bare, bump. rewrite Krev, <- Hi. done. }
  assert (state_ok (with_pending bare None)) as Hok0.
  { destruct Hok as [Hr Hd Hjj Hrc Ha]. split; [by apply is_u64_succ|exact Hdis|done|done|done]. }
  assert (journal_ok bare journal) as Hjo.
  { assert (cross_additions bare = cross_additions current ∧ cross_suppressions bare = cross_suppressions current) as [Ea Es].
    { unfold bare. cbn. rewrite Kca, Kcs, <- Hi. done. }
    split; try done; [apply Hok|apply Hok|]. cbn. rewrite Hkey. apply Hready. }
  assert (state_ok next') as Hokn.
  { apply state_ok_mark. change (with_pending bare (Some journal)) with (with_pending (with_pending bare None) (Some journal)).
    apply state_ok_journal; [done|]. by destruct Hjo. }
  assert (fine c w w3) as Hf3 by (by eapply fine_kept; [eapply fine_kept|]).
  assert (tw_durable w3 = true) as Hdur3 by (by rewrite (moved_durable _ _ _ _ K3), (moved_durable _ _ _ _ K2)).
  apply twp_bind, twp_commit; [by apply spec_persisted; [|apply Hj]|intros d _; by apply spec_published; [|apply Hj]| |].
  2: { intros e d w4 M4 Hd. left. eapply fine_moved; [done|done|apply Hf3|apply Hf3|eapply (filed_failed _ _ next'); [apply Hj|done]]. }
  intros d w4 M4 Hd. rewrite Hdur3 in Hd.
  assert (fine c w w4) as Hf4 by (eapply fine_moved; [done|done|done|apply Hj|right; exists next'; split; [done|apply Hj]]).
  apply twp_bind. rewrite Hs. apply twp_actuate.
  - cbn [plan_from_snapshot planned_operations]. apply Forall_fmap, Forall_forall. intros m Hm. by exists m.
  - by constructor.
  - rewrite (moved_disk _ _ _ _ M4), Hd. exists next', journal. split_and!; try done; apply Hj.
  - intros e w5 K5. left. by eapply fine_kept.
  - intros act w5 K5 Htr. assert (fine c w w5) as Hf5 by (by eapply fine_kept).
    assert (tw_durable w5 = true) as Hdur5 by (by rewrite (moved_durable _ _ _ _ K5), (moved_durable _ _ _ _ M4)).
    case_match.
    + by apply twp_roll_back.
    + apply twp_bind, twp_observe. intros w6 K6. assert (fine c w w6) as Hf6 by (by eapply fine_kept).
      set (receipt := mkTopologyReceipt _ _ _ _ _ _ _ _ _ _). set (final := record_receipt _ _ _ _).
      assert (state_ok final) as Hokf.
      { apply state_ok_receipt; [|done| |done].
        - apply state_ok_mark. change (state_ok (with_pending next' None)). by apply state_ok_no_journal.
        - cbn [receipt_key receipt]. apply (journal_fresh _ _ Hjo). }
      assert (committed_by key authority ops c final receipt) as Hby.
      { split_and!; [apply record_receipt_pending|by apply record_receipt_last|done|done| | |].
        - cbn. by rewrite <- Hi.
        - unfold final. destruct (record_receipt_unfold policy (mark_record (tw_step w5) id RecApplied None (with_pending next' None)) receipt fingerprint)
            as (? & ? & ? & _ & ->). done.
        - exists declared. unfold final. rewrite record_receipt_current. done. }
      apply twp_bind, twp_commit; [by split; [|right; eauto]|intros; by split; [|right; eauto]| |].
      * intros d' w7 M7 Hd'. apply twp_ret. right. rewrite (moved_durable _ _ _ _ K6), Hdur5 in Hd'.
        rewrite (moved_mem _ _ _ _ M7), (moved_disk _ _ _ _ M7), Hd'.
        split_and!; [done|rewrite (moved_policy _ _ _ _ M7); apply Hf6|rewrite (moved_durable _ _ _ _ M7); apply Hf6|].
        exists receipt. by left.
      * intros e d' w7 M7 [Hd'|Hd'].
        { left. eapply fine_moved; [done|done|apply Hf6|apply Hf6|by left]. }
        right. rewrite (moved_mem _ _ _ _ M7), (moved_disk _ _ _ _ M7), Hd'.
        split_and!; [apply Hf6|rewrite (moved_policy _ _ _ _ M7); apply Hf6|rewrite (moved_durable _ _ _ _ M7); apply Hf6|].
        exists receipt. right. exists e, final. split_and!; [done|apply Hf6|done|done].
Qed.

Lemma twp_apply_checked policy request actor fingerprint id current w w1 :
  tw_durable w1 = true → 1 ≤ receipt_limit policy → ready current → fine c w w1 →
  idempotency_key request = key → operations request = ops →
  twp spec (apply_checked h policy request actor fingerprint id current) (applied_or_unchanged w) w1.
Proof.
  intros Hdur Hlimit Hready Hf Hkey Hops. pose proof (ready_ok _ Hready) as Hok. pose proof (ready_committed _ Hready) as Hc.
  assert (∀ e w', fine c w w' → applied_or_unchanged w (Err e) w') as HE by (by left).
  unfold apply_checked. case_match; [by eapply twp_audited_error|].
  apply twp_catch_bind, twp_result. apply (quiet_query h anywhere); [done|]. intros queried w2 K2 Eq.
  assert (fine c w w2) as Hf2 by (by eapply fine_kept).
  assert (tw_durable w2 = true) as Hdur2 by (by rewrite (moved_durable _ _ _ _ K2)).
  apply (twp_audited _ _ _ _ _ w); [done..|]. intros s ->. apply query_snapshot in Eq as [Hs _].
  apply (twp_audited _ _ _ _ _ w); [done..|]. intros _ _. cbv zeta.
  apply (twp_audited _ _ _ _ _ w); [done..|]. intros next Hnext.
  rewrite Hops, Hs in Hnext. apply apply_plan_intent_spec in Hnext. rewrite (ready_intent _ Hready) in Hnext. case_match.
  - apply twp_bind, twp_observe. intros w3 K3. apply twp_bind, twp_observe. intros w4 K4.
    assert (fine c w w4) as Hf4 by (by eapply fine_kept; [eapply fine_kept|]).
    apply twp_bind. apply (twp_commit_covered _ c _ _ w); [apply apply_covers|done| | | |].
    + apply state_ok_receipt; [by apply state_ok_mark|apply Hready| |done]. cbn [receipt_key]. rewrite Hkey. apply Hready.
    + by rewrite record_receipt_intent.
    + intros w' Hw' _. apply twp_ret. by left.
    + intros e w' Hw' _. by left.
  - rewrite Hops. by eapply twp_execute.
Qed.

Lemma twp_apply_inner request actor audit w w1 :
  tw_durable w1 = true → valid_policy (tw_policy w1) → fine c w w1 →
  trim (idempotency_key request) = key → operations request = ops →
  twp spec (apply_inner h request actor audit) (applied_or_unchanged w) w1.
Proof.
  intros Hdur Hpol Hf Hkey Hops. assert (∀ e w', fine c w w' → applied_or_unchanged w (Err e) w') as HE by (by left).
  unfold apply_inner. cbv zeta. apply twp_bind, twp_gets, twp_bind, twp_lift.
  destruct (request_fingerprint (trim_key request)) as [fingerprint|e]; [|by apply HE].
  apply twp_bind. apply (twp_reconcile_records _ c _ w); [apply apply_covers|done|]. intros [u|e] w2 Hf2; [|by apply HE].
  apply twp_bind, twp_gets. set (current := append_operation_record _ _ _).
  assert (state_ok current) as Hok by (apply state_ok_append, Hf2).
  assert (committed_intent current = c) as Hc by apply Hf2.
  assert (tw_durable w2 = true) as Hdur2.
  { by rewrite (fine_durable _ _ _ Hf2), <- (fine_durable _ _ _ Hf). }
  apply twp_bind. apply twp_commit; [by apply spec_persisted|intros; by apply spec_published| |].
  2: { intros e d w3 M3 Hd. apply HE. eapply fine_moved; [done|done|apply Hf2|apply Hf2|by eapply filed_failed]. }
  intros d w3 M3 Hd. assert (fine c w w3) as Hf3 by (eapply fine_moved; [done..|by eapply filed_persisted]).
  clear Hd. assert (tw_durable w3 = true) as Hdur3 by (by rewrite (moved_durable _ _ _ _ M3)).
  apply (twp_audited _ _ _ _ _ w); [done..|]. intros _ _. cbn [trim_key idempotency_key]. rewrite Hkey.
  destruct (pending current) as [p|] eqn:Hp.
  - repeat case_match; first [by eapply twp_replay | by eapply twp_audited_error].
  - destruct (idempotency current !! key) as [known|] eqn:Hk.
    + repeat case_match; first [by eapply twp_replay | by eapply twp_audited_error].
    + case_match; [by eapply twp_audited_error|]. apply twp_apply_checked; [done| | |done|by cbn [trim_key idempotency_key]|done].
      * by apply valid_policy_limit.
      * split; [done|done|done|]. unfold committed_intent in Hc. by rewrite Hp in Hc.
Qed.

Lemma twp_apply_as request principal actor w :
  tw_durable w = true → valid_policy (tw_policy w) → state_ok (tw_mem w) → committed_intent (tw_mem w) = c →
  trim (idempotency_key request) = key → normalize_operations (operations request) authority (tw_policy w) = Ok ops →
  twp spec (apply_as h request principal actor) (applied_or_unchanged w) w.
Proof.
  intros Hdur Hpol Hok Hc Hkey Hops. assert (∀ e w', fine c w w' → applied_or_unchanged w (Err e) w') as HE by (by left).
  assert (fine c w w) as Hf by (by apply fine_refl).
  unfold apply_as. cbv zeta. unfold normalize_for_authorization. apply twp_bind, twp_bind, twp_gets, twp_lift.
  cbn [trim_key operations]. rewrite Hops. apply twp_bind, twp_gets.
  apply twp_bind. apply (quiet_new_record h anywhere); [done|]. intros [r|e] w2 K2; [|apply HE; by eapply fine_kept].
  assert (fine c w w2) as Hf2 by (by eapply fine_kept). case_match.
  - apply twp_apply_inner; [by rewrite (moved_durable _ _ _ _ K2)|by rewrite (moved_policy _ _ _ _ K2)|done| |done].
    change (trim (trim (idempotency_key request)) = key). by rewrite trim_idemp.
  - apply twp_bind, twp_observe. intros w3 K3. assert (fine c w w3) as Hf3 by (by eapply fine_kept).
    apply twp_bind. apply (twp_upsert _ c _ _ w); [apply apply_covers|done|]. intros [u|e'] w4 Hf4; [apply twp_throw|]; by apply HE.
Qed.
End apply.
