(* ===== verification/TopologyTheorems.v ===== *)
(** * Topology control: theorems

    Executions of the control plane: calls, calls cut short at any effect (a dropped
    future, or the last moments of a process) and restarts from the disk. *)

From S2P Require Import Prelude Strings MemoryRecords MemberIds TopologyTypes TopologyState TopologyWorld EdgeReconcile TopologyController TopologyLogic TopologyApply.
Open Scope Z_scope.

Inductive TopologyCall :=
| CallApply (request : TopologyApplyRequest) (principal : option string) (actor : string)
| CallDenied (request : TopologyApplyRequest) (principal : option string) (actor : string) (error : TopologyControlError)
| CallPlan (request : TopologyPlanRequest)
| CallQuery (lock_free : bool)
| CallReconcile
| CallReconcileMembers (members : list MobMember)
| CallReconcileDefinition (definition : MobWiring)
| CallOperation (id : string)
| CallRecords (after_seq : option Z) (limit : Z)
| CallBind (authority : string)
| CallSetPolicy (policy : TopologyControlPolicy).

(** The limits of a policy are [usize] values. *)
Definition usize_policy (p : TopologyControlPolicy) : Prop :=
  0 ≤ max_batch_size p ∧ 0 ≤ receipt_limit p ∧ 0 ≤ idempotency_history_limit p.
Definition typed_call (call : TopologyCall) : Prop :=
  match call with CallSetPolicy p => usize_policy p | _ => True end.
Definition is_set_policy (call : TopologyCall) : bool := match call with CallSetPolicy _ => true | _ => false end.
Definition is_apply (call : TopologyCall) : bool := match call with CallApply _ _ _ => true | _ => false end.

Section executions.
Context `{TopologyEnv} `{IdentityTopology} (h : TopologyRuntimeHandle).

Definition done {A} (m : TM A) : TM unit := _ ← m; mret tt.
Definition run_topology_call (call : TopologyCall) : TM unit :=
  match call with
  | CallApply request principal actor => done (apply_as h request principal actor)
  | CallDenied request principal actor error => record_denied_apply h request principal actor error
  | CallPlan request => done (plan h request)
  | CallQuery lock_free => done (query h lock_free)
  | CallReconcile => done (reconcile h)
  | CallReconcileMembers members => done (reconcile_edges_from_members h members)
  | CallReconcileDefinition definition => done (reconcile_definition_edges_with_topology definition)
  | CallOperation id => done (operation id)
  | CallRecords after_seq limit => done (operation_records_page after_seq limit)
  | CallBind authority => bind_authority authority
  | CallSetPolicy policy => set_policy policy
  end.

(** The effects of a call, and the world after the first [k] of them. *)
Definition effects {A} (m : TM A) (w : TopologyWorld) : list TopologyEvent := drop (length (tw_trace w)) (tw_trace (m w).2).
Definition cut_after (k : nat) (es : list TopologyEvent) (managed : gset (string * string)) (n : nat) (w : TopologyWorld) : TopologyWorld :=
  mkTopologyWorld (tw_policy w) (foldl replay_mem (tw_mem w) (take k es)) (foldl replay_disk (tw_disk w) (take k es))
    (tw_durable w) managed n (tw_trace w ++ take k es).

Inductive topology_step : TopologyWorld → TopologyWorld → Prop :=
| step_call call w : typed_call call → topology_step w (run_topology_call call w).2
| step_cut call w k managed n : typed_call call →
    topology_step w (cut_after k (effects (run_topology_call call) w) managed n w)
| step_restart policy opened w : usize_policy policy →
    topology_step w (load_or_default policy opened (Ok (tw_disk w)) w).2.

(** A process before its first controller: nothing on disk. *)
Definition fresh_world : TopologyWorld := mkTopologyWorld default_topology_policy default_intent None false ∅ 0 [].

Record world_ok (w : TopologyWorld) : Prop := {
  world_mem : state_ok (tw_mem w);
  world_disk : ∀ st, tw_disk w = Some st → state_ok st;
  world_policy : valid_policy (tw_policy w);
  world_durable : mode (tw_policy w) = ModeEditable → tw_durable w = true;
}.

(** ** Effects of a call *)

Lemma twp_effects {A} P (m : TM A) Q w :
  twp P m Q w →
  tw_trace (m w).2 = tw_trace w ++ effects m w ∧
  tw_mem (m w).2 = foldl replay_mem (tw_mem w) (effects m w) ∧
  tw_disk (m w).2 = foldl replay_disk (tw_disk w) (effects m w) ∧
  chain P (tw_disk w) (effects m w) ∧ Q (m w).1 (m w).2.
Proof.
  intros (es & Ht & Hm & Hd & Hc & HQ). assert (effects m w = es) as ->; [|done].
  unfold effects. by rewrite Ht, drop_app_length.
Qed.

(** A specification under which only well-formed states are stored. *)
Definition stores_ok (P : EventSpec) : Prop :=
  ∀ d st, (P d (EvPersisted st) → state_ok st) ∧ (P d (EvPublished st) → state_ok st).
Lemma steady_stores c : stores_ok (steady c).
Proof. by intros d st; split; intros [? _]. Qed.
Lemma apply_stores key authority ops c : stores_ok (apply_event key authority ops c).
Proof. by intros d st; split; intros [? _]. Qed.

Lemma chain_replay P es mem d :
  stores_ok P → chain P d es → state_ok mem → (∀ st, d = Some st → state_ok st) →
  state_ok (foldl replay_mem mem es) ∧ ∀ st, foldl replay_disk d es = Some st → state_ok st.
Proof.
  intros HP. revert mem d. induction es as [|e es IH]; intros mem d; [done|]. simpl. intros [He Hc] Hm Hd.
  apply IH; [done| |].
  - destruct e as [st|st|?|?|?|?|?]; try done. by apply (proj2 (HP d st)).
  - intros st'. destruct e as [st|st|?|?|?|?|?]; simpl; try apply Hd. intros [= <-]. by apply (proj1 (HP d st)).
Qed.

Lemma cut_ok {A} P (m : TM A) Q w k managed n :
  world_ok w → stores_ok P → twp P m Q w → world_ok (cut_after k (effects m w) managed n w).
Proof.
  intros [Hm Hd Hp Hu] HP Hwp. apply twp_effects in Hwp as (_ & _ & _ & Hc & _).
  apply (chain_prefix _ _ _ k) in Hc. destruct (chain_replay P _ (tw_mem w) _ HP Hc Hm Hd). by split.
Qed.
Lemma call_ok {A} P (m : TM A) w :
  world_ok w → stores_ok P →
  twp P m (λ _ w', tw_policy w' = tw_policy w ∧ tw_durable w' = tw_durable w) w → world_ok (m w).2.
Proof.
  intros [Hm Hd Hp Hu] HP Hwp. apply twp_effects in Hwp as (_ & Em & Ed & Hc & Ep & Eu).
  destruct (chain_replay P _ (tw_mem w) _ HP Hc Hm Hd) as [Hm' Hd']. split; rewrite ?Em, ?Ed, ?Ep, ?Eu; done.
Qed.

(** ** Calls other than an admitted apply *)

Lemma steadily_done {A} (m : TM A) : steadily m → steadily (done m).
Proof. intros Hm. apply steadily_bind; [done|]. intros _. apply steadily_quiet. intros c. apply quiet_ret. Qed.

Lemma steadily_call call :
  is_apply call = false → is_set_policy call = false → steadily (run_topology_call call).
Proof.
  destruct call; intros Ha Hs; try done; cbn [run_topology_call]; try apply steadily_done.
  - apply steadily_denied.
  - apply steadily_plan.
  - apply steadily_query_call.
  - apply steadily_reconcile.
  - apply steadily_from_members.
  - apply steadily_definition.
  - apply steadily_operation.
  - apply steadily_page.
  - apply steadily_bind_authority.
Qed.

(** Outside the editable mode an apply only leaves its audit record. *)
Lemma twp_apply_refused request principal actor c w (Q : Result TopologyOperationReceipt _ → _) :
  mode (tw_policy w) ≠ ModeEditable → fine c w w → (∀ r w', fine c w w' → Q r w') →
  twp (steady c) (apply_as h request principal actor) Q w.
Proof.
  intros Hmode Hf HQ. unfold apply_as. cbv zeta. unfold normalize_for_authorization. apply twp_bind, twp_bind, twp_gets, twp_lift.
  destruct (normalize_operations _ _ _); [|by apply HQ]. apply twp_bind, twp_gets.
  apply twp_bind. apply (quiet_new_record h anywhere); [done|]. intros [r|e] w2 K2; [|apply HQ; by eapply fine_kept].
  assert (fine c w w2) as Hf2 by (by eapply fine_kept).
  assert (∀ req, ∃ e, validate_local_apply_preflight (tw_policy w) req = Err e) as Hpre.
  { intros req. unfold validate_local_apply_preflight. destruct (mode (tw_policy w)); [by eexists|by eexists|done]. }
  match goal with |- context [validate_local_apply_preflight ?p ?r] => destruct (Hpre r) as [error ->] end.
  apply twp_bind, twp_observe. intros w3 K3. apply twp_bind. apply (twp_upsert _ c _ _ w); [apply steady_covers|by eapply fine_kept|].
  intros [u|e'] w4 Hf4; [apply twp_throw|]; by apply HQ.
Qed.
Lemma twp_apply_unnormalized request principal actor e P w (Q : Result TopologyOperationReceipt _ → _) :
  normalize_operations (operations request) (handle_authority h) (tw_policy w) = Err e → Q (Err e) w →
  twp P (apply_as h request principal actor) Q w.
Proof.
  intros He HQ. unfold apply_as. cbv zeta. unfold normalize_for_authorization. apply twp_bind, twp_bind, twp_gets, twp_lift.
  cbn [trim_key operations]. by rewrite He.
Qed.

Lemma twp_done {A} P (m : TM A) (Q : TopologyWorld → Prop) w : twp P m (λ _ w', Q w') w → twp P (done m) (λ _ w', Q w') w.
Proof. intros Hm. apply twp_bind. eapply twp_mono; [exact Hm|]. intros [a|e] w' HQ; [by apply twp_ret|done]. Qed.

Definition same_config (w w' : TopologyWorld) : Prop := tw_policy w' = tw_policy w ∧ tw_durable w' = tw_durable w.

(** Every call but [set_policy] keeps the configuration and stores well-formed states. *)
Lemma twp_call call w :
  world_ok w → is_set_policy call = false →
  ∃ P, stores_ok P ∧ twp P (run_topology_call call) (λ _ w', same_config w w') w.
Proof.
  intros Hw Hs. set (c := committed_intent (tw_mem w)).
  assert (fine c w w) as Hf by (apply fine_refl; [apply Hw|done]).
  destruct (is_apply call) eqn:Ha.
  - destruct call as [request principal actor| | | | | | | | | |]; try done. cbn [run_topology_call].
    destruct (decide (mode (tw_policy w) = ModeEditable)) as [Hm|Hm].
    + destruct (normalize_operations (operations request) (handle_authority h) (tw_policy w)) as [ops|e] eqn:Hn.
      * exists (apply_event (trim (idempotency_key request)) (handle_authority h) ops c). split; [apply apply_stores|].
        apply twp_done. eapply twp_mono; [apply twp_apply_as; try done; [by apply Hw|apply Hw|apply Hw]|].
        intros r w' [Hf'|(_ & ? & ? & _)]; [|done]. split; apply Hf'.
      * exists (steady c). split; [apply steady_stores|]. apply twp_done. by eapply twp_apply_unnormalized.
    + exists (steady c). split; [apply steady_stores|]. apply twp_done. apply twp_apply_refused; [done|done|].
      intros r w' Hf'. split; apply Hf'.
  - exists (steady c). split; [apply steady_stores|]. eapply steadily_call; [done|done|done|].
    intros r w' Hf'. split; apply Hf'.
Qed.

Lemma set_policy_ok p w : usize_policy p → world_ok w → world_ok (set_policy p w).2.
Proof.
  intros (H1 & H2 & H3) Hw. unfold set_policy, mbind, m_bind, lift_result. destruct (policy_validate p) as [[]|e] eqn:Hv; [|done].
  cbn. destruct ((mode p =b ModeEditable) && negb (tw_durable w)) eqn:E; [done|]. destruct Hw as [Hm Hd Hp Hu]. cbn. split; try done.
  cbn. intros Hmode. rewrite Hmode in E. by destruct (tw_durable w).
Qed.
Lemma set_policy_effects p w : effects (set_policy p) w = [].
Proof.
  unfold effects, set_policy, mbind, m_bind, lift_result. destruct (policy_validate p); cbn;
    [destruct ((mode p =b ModeEditable) && negb (tw_durable w)); cbn|]; apply drop_all.
Qed.

(** ** Restart *)

Lemma with_records_same st : with_records st (operation_records st) (last_operation_record_seq st) = st.
Proof. by destruct st. Qed.

Lemma twp_load policy opened disk w (Q : Result unit _ → _) :
  let st := unwrap_or disk default_intent in
  usize_policy policy → state_ok st →
  (∀ r w', (∀ e, r = Err e → same_config w w') →
     (r = Ok tt → valid_policy (tw_policy w') ∧ tw_durable w' = true ∧ ∃ n, tw_mem w' = reconcile_records n st) → Q r w') →
  twp (steady (committed_intent st)) (load_or_default policy opened (Ok disk)) Q w.
Proof.
  intros st Hu Hok HQ. unfold load_or_default. apply twp_bind, twp_lift. destruct (policy_validate policy) as [[]|e] eqn:Hv; [|by apply HQ].
  apply twp_bind, twp_lift. destruct opened as [u|e]; cbn [map_err]; [|by apply HQ].
  apply twp_bind, twp_lift. cbn [map_err]. fold st. cbv zeta. case_match; [by apply twp_throw, HQ|].
  rewrite normalize_sequences_id by apply Hok. rewrite with_records_same.
  apply twp_bind, twp_observe_many. intros w2 K2.
  assert (state_ok (reconcile_records (tw_step w) st)) as Hok2 by (by apply state_ok_reconcile).
  apply twp_bind, twp_persist_state; [done| |].
  - intros w3 M3. exists [EvPublished (reconcile_records (tw_step w) st)]. split_and!; try done. apply HQ; [done|]. intros _.
    split_and!; [|done|by eexists]. split; [done|exact Hu].
  - intros e d w3 M3 _. apply HQ; [|done]. intros _ _. split.
    + rewrite (moved_policy _ _ _ _ M3). apply K2.
    + rewrite (moved_durable _ _ _ _ M3). apply K2.
Qed.

Lemma disk_state_ok w : world_ok w → state_ok (unwrap_or (tw_disk w) default_intent).
Proof. intros Hw. destruct (tw_disk w) as [st|] eqn:E; [by eapply world_disk|]. apply default_intent_ok. Qed.

Lemma restart_ok policy opened w :
  usize_policy policy → world_ok w → world_ok (load_or_default policy opened (Ok (tw_disk w)) w).2.
Proof.
  intros Hu Hw. pose proof (disk_state_ok w Hw) as Hst.
  pose proof (twp_load policy opened (tw_disk w) w (λ r w', (∀ e, r = Err e → same_config w w') ∧
    (r = Ok tt → valid_policy (tw_policy w') ∧ tw_durable w' = true ∧ ∃ n, tw_mem w' = reconcile_records n (unwrap_or (tw_disk w) default_intent)))
    Hu Hst ltac:(done)) as Hwp.
  apply twp_effects in Hwp as (_ & Em & Ed & Hc & HE & HO).
  destruct (chain_replay _ _ (tw_mem w) _ (steady_stores _) Hc) as [Hm' Hd']; [apply Hw|apply Hw|].
  destruct (load_or_default policy opened (Ok (tw_disk w)) w).1 as [[]|e].
  - destruct (HO eq_refl) as (Hp & Hdur & _). by split; rewrite ?Em, ?Ed.
  - destruct (HE e eq_refl) as [Hp Hdur]. split; rewrite ?Em, ?Ed, ?Hp, ?Hdur; try done; apply Hw.
Qed.

Lemma step_world_ok w w' : topology_step w w' → world_ok w → world_ok w'.
Proof.
  intros [call w1 Ht|call w1 k managed n Ht|policy opened w1 Hu] Hw; [| |by apply restart_ok].
  - destruct (is_set_policy call) eqn:Hs; [destruct call; try done; by apply set_policy_ok|].
    destruct (twp_call call w1 Hw Hs) as (P & HP & Hwp). by eapply call_ok.
  - destruct (is_set_policy call) eqn:Hs.
    + destruct call as [| | | | | | | | | |p]; try done. cbn [run_topology_call]. rewrite set_policy_effects.
      unfold cut_after. rewrite take_nil. by destruct Hw; split.
    + destruct (twp_call call w1 Hw Hs) as (P & HP & Hwp). by eapply cut_ok.
Qed.

Lemma fresh_world_ok : world_ok fresh_world.
Proof. split; [apply default_intent_ok|done| |done]. by split. Qed.

Lemma reachable_world_ok w w' : rtc topology_step w w' → world_ok w → world_ok w'.
Proof. induction 1; [done|]. intros. eauto using step_world_ok. Qed.

(** C6: in every execution from an empty disk, whatever the mob, the file system and
    the identity runtime answer, and wherever calls are cut short or the process is
    restarted, the intent in memory and the intent on disk are well formed: additions
    and suppressions are disjoint, an open journal holds the pre-operation intent it
    would restore and an unused key, the retained receipts have distinct keys and are
    exactly what the idempotency index points to, and audit sequences increase
    strictly.  A controller in editable mode has a durable path. *)
Theorem topology_states_wellformed w :
  rtc topology_step fresh_world w →
  state_ok (tw_mem w) ∧ (∀ st, tw_disk w = Some st → state_ok st) ∧
  (mode (tw_policy w) = ModeEditable → tw_durable w = true).
Proof. intros Hr. destruct (reachable_world_ok _ _ Hr fresh_world_ok) as [? ? _ ?]. done. Qed.

(** ** Atomicity and write-ahead journaling *)

Lemma chain_elem P d es e : chain P d es → e ∈ es → ∃ d', P d' e.
Proof.
  intros Hc (pre & post & ->)%list_elem_of_split. eexists. by eapply chain_split.
Qed.

(** C4: an apply is atomic at every instant.  Each state it persists or publishes
    still has the committed intent from before the call, the one a reader is shown and
    a recovery restores, or is the commit itself: no journal is open, the newest
    receipt is this request's, applied from the old revision to the next one, and the
    intent is the old one with exactly the requested edges changed.  When the call
    returns, one of three things holds.  The committed intent in memory is unchanged,
    and the file is as before or has that intent too.  Or the call returned the receipt
    of the commit, which is in memory and in the file alike.  Or the call failed with a
    persistence error because the file could not be synced after its rename: the memory
    has the old intent and the file already holds the commit. *)
Theorem apply_is_atomic request principal actor ops w :
  let c := committed_intent (tw_mem w) in
  let key := trim (idempotency_key request) in
  let authority := handle_authority h in
  world_ok w → tw_durable w = true →
  normalize_operations (operations request) authority (tw_policy w) = Ok ops →
  (∀ st, EvPersisted st ∈ effects (apply_as h request principal actor) w ∨
         EvPublished st ∈ effects (apply_as h request principal actor) w →
     committed_intent st = c ∨ ∃ receipt, committed_by key authority ops c st receipt) ∧
  (let r := (apply_as h request principal actor w).1 in
   let w' := (apply_as h request principal actor w).2 in
   (committed_intent (tw_mem w') = c ∧ filed c (tw_disk w) (tw_disk w')) ∨
   ∃ receipt,
     (r = Ok receipt ∧ committed_by key authority ops c (tw_mem w') receipt ∧ tw_disk w' = Some (tw_mem w')) ∨
     (∃ message st, r = Err (Persistence message) ∧ committed_intent (tw_mem w') = c ∧ tw_disk w' = Some st ∧
        committed_by key authority ops c st receipt)).
Proof.
  intros c key authority Hw Hd Hn.
  pose proof (twp_apply_as h key ops c request principal actor w Hd (world_policy _ Hw) (world_mem _ Hw) eq_refl eq_refl Hn) as Hwp.
  apply twp_effects in Hwp as (_ & _ & _ & Hc & HQ). split.
  - intros st [Hin|Hin]; apply (chain_elem _ _ _ _ Hc) in Hin as (d' & _ & Hst); exact Hst.
  - intros r w'. destruct HQ as [Hf|(_ & _ & _ & Hby)]; [left; split; apply Hf|by right].
Qed.

(** C5: the journal is durable before the mob is touched.  At every call an apply makes
    to wire, unwire or mutate an edge, going forward or rolling back, the state file
    already holds the journal of this very request, and the journal names that edge. *)
Theorem journal_precedes_actuation request principal actor ops w pre ev post :
  world_ok w → tw_durable w = true →
  normalize_operations (operations request) (handle_authority h) (tw_policy w) = Ok ops →
  effects (apply_as h request principal actor) w = pre ++ ev :: post → is_state_event ev = false →
  journaled (trim (idempotency_key request)) (handle_authority h) (foldl replay_disk (tw_disk w) pre) ev.
Proof.
  intros Hw Hd Hn Hes Hev.
  pose proof (twp_apply_as h _ ops _ request principal actor w Hd (world_policy _ Hw) (world_mem _ Hw) eq_refl eq_refl Hn) as Hwp.
  apply twp_effects in Hwp as (_ & _ & _ & Hc & _). pose proof (chain_split _ _ _ _ _ _ Hc Hes) as He.
  by destruct ev.
Qed.

(** Nothing else moves the committed intent.  Every state stored by a plan, a query,
    a recovery, a reconciliation, an audit read, a denied request or a binding has the
    committed intent that was in memory; a restart that succeeds serves exactly the
    committed intent of the disk. *)
Theorem only_apply_moves_intent w :
  world_ok w →
  (∀ call st, is_apply call = false →
     EvPersisted st ∈ effects (run_topology_call call) w ∨ EvPublished st ∈ effects (run_topology_call call) w →
     committed_intent st = committed_intent (tw_mem w)) ∧
  (∀ policy opened w', usize_policy policy → load_or_default policy opened (Ok (tw_disk w)) w = (Ok tt, w') →
     committed_intent (tw_mem w') = committed_intent (unwrap_or (tw_disk w) default_intent)).
Proof.
  intros Hw. split.
  - intros call st Ha Hin. destruct (is_set_policy call) eqn:Hs.
    + destruct call as [| | | | | | | | | |p]; try done. cbn [run_topology_call] in Hin. rewrite set_policy_effects in Hin.
      destruct Hin as [[]%elem_of_nil|[]%elem_of_nil].
    + pose proof (steadily_call call Ha Hs (committed_intent (tw_mem w)) w w (λ _ _, True)
        (fine_refl _ _ (world_mem _ Hw) eq_refl) ltac:(done)) as Hwp.
      apply twp_effects in Hwp as (_ & _ & _ & Hc & _).
      destruct Hin as [Hin|Hin]; apply (chain_elem _ _ _ _ Hc) in Hin as (d' & _ & Hst); exact Hst.
  - intros policy opened w' Hu E.
    pose proof (twp_load policy opened (tw_disk w) w (λ r w', r = Ok tt → ∃ n, tw_mem w' = reconcile_records n (unwrap_or (tw_disk w) default_intent))
      Hu (disk_state_ok w Hw) ltac:(naive_solver)) as Hwp.
    apply twp_effects in Hwp as (_ & _ & _ & _ & HQ). rewrite E in HQ. destruct (HQ eq_refl) as [n Hn]. cbn in Hn. by rewrite Hn.
Qed.

(** C7: recovery restores what readers were told.  When the recovery of an interrupted
    mutation succeeds, no journal is open, the intent in force is exactly the committed
    intent from before, and the interrupted operation is closed by a retained receipt
    that says it was rolled back. *)
Theorem recovery_restores_intent w w' id :
  world_ok w → pending_operation_id (tw_mem w) = Some id → recover_pending_unlocked h w = (Ok tt, w') →
  pending (tw_mem w') = None ∧ current_intent (tw_mem w') = committed_intent (tw_mem w) ∧
  ∃ receipt, receipt ∈ receipts (tw_mem w') ∧ receipt_operation_id receipt = id ∧ receipt_status receipt = OpRolledBack.
Proof.
  intros Hw Hid E. set (c := committed_intent (tw_mem w)).
  pose proof (twp_recover h c (λ r w', fine c w w' ∧ (r = Ok tt → pending (tw_mem w') = None ∧
     ∀ id, pending_operation_id (tw_mem w) = Some id → 1 ≤ receipt_limit (tw_policy w) → closed_by (tw_mem w') id)) w w
     (fine_refl _ _ (world_mem _ Hw) eq_refl) ltac:(done)) as Hwp.
  apply twp_effects in Hwp as (_ & _ & _ & _ & Hf & HQ). rewrite E in Hf, HQ. destruct (HQ eq_refl) as [Hp Hcl].
  split_and!; [done| |].
  - pose proof (fine_intent _ _ _ Hf) as Hi. cbn in Hi, Hp. unfold committed_intent in Hi at 1. by rewrite Hp in Hi.
  - apply (Hcl id Hid), valid_policy_limit, Hw.
Qed.
End executions.
