(* ===== verification/TopologyReplay.v ===== *)
(** * Topology control: idempotent replay, audit pages and the requested edges *)

From S2P Require Import Prelude Strings MemoryRecords MemberIds TopologyTypes TopologyState TopologyWorld EdgeReconcile TopologyController TopologyLogic TopologyApply TopologyTheorems.
Open Scope Z_scope.

Section replay.
Context `{TopologyEnv} `{IdentityTopology} (h : TopologyRuntimeHandle).

(** Only audit records change: no intent, no receipt, no index, and the mob is not called. *)
Definition records_only (st0 : TopologyIntentState) : EventSpec := λ _ e,
  match e with
  | EvPersisted st | EvPublished st => ∃ rs last, st = with_records st0 rs last
  | _ => False
  end.
Definition audited_copy (st0 : TopologyIntentState) (st : TopologyIntentState) : Prop := ∃ rs last, st = with_records st0 rs last.

Lemma audited_again st0 st rs last : audited_copy st0 st → audited_copy st0 (with_records st rs last).
Proof. intros (? & ? & ->). by eexists _, _. Qed.

Lemma twp_commit_records st0 st (Q : Result unit _ → _) w :
  audited_copy st0 st →
  (∀ d w', moved w st d w' → Q (Ok tt) w') → (∀ e d w', moved w (tw_mem w) d w' → Q (Err (Persistence e)) w') →
  twp (records_only st0) (commit_state st) Q w.
Proof. intros Hst HQ HE. apply twp_commit; [done|done| |]; eauto. Qed.

Lemma twp_reconcile_copy st0 (Q : Result unit _ → _) w :
  audited_copy st0 (tw_mem w) →
  (∀ w', audited_copy st0 (tw_mem w') → tw_policy w' = tw_policy w → Q (Ok tt) w') → (∀ e w', Q (Err (Persistence e)) w') →
  twp (records_only st0) reconcile_operation_records_unlocked Q w.
Proof.
  intros Hm HQ HE. apply twp_bind, twp_gets, twp_bind, twp_observe_many. intros w2 K. cbv zeta. destruct (bool_decide _).
  - apply twp_ret, HQ; [by rewrite (moved_mem _ _ _ _ K)|apply K].
  - apply twp_commit_records; [by apply audited_again| |done].
    intros d w' M. apply HQ; [rewrite (moved_mem _ _ _ _ M); by apply audited_again|].
    rewrite (moved_policy _ _ _ _ M). apply K.
Qed.

Lemma twp_outcome_copy st0 current id status error (Q : Result unit _ → _) w :
  audited_copy st0 current → (∀ w', Q (Ok tt) w') → (∀ e w', Q (Err (Persistence e)) w') →
  twp (records_only st0) (persist_operation_record_outcome_candidate current id status error) Q w.
Proof.
  intros Hc HQ HE. unfold persist_operation_record_outcome_candidate. case_match; [|by apply twp_throw].
  apply twp_bind, twp_observe. intros w2 K. apply twp_commit_records; [by apply audited_again|done|done].
Qed.

(** What a repeated key is answered: a policy that refuses the request refuses it, an operation that is under
    way is reported as such unless it is this one, and else the retained receipt is found or the payload differs. *)
Definition replay_answer (st0 : TopologyIntentState) (policy : TopologyControlPolicy) (request : TopologyApplyRequest)
    (fingerprint : string) (known : IdempotencyRecord) (r : Result TopologyOperationReceipt TopologyControlError) : Prop :=
  let key := idempotency_key request in
  (∃ message, r = Err (Persistence message)) ∨
  match validate_local_apply_preflight policy request, pending st0 with
  | Err error, _ => r = Err error
  | Ok _, Some p =>
      r = (if negb (pend_key p =b key) then Err (OperationInProgress (pend_operation_id p))
           else if pend_fingerprint p =b fingerprint then Ok (pending_receipt p) else Err (IdempotencyConflict key))
  | Ok _, None =>
      if idem_fingerprint known =b fingerprint
      then ∃ receipt, r = Ok receipt ∧ receipt ∈ receipts st0 ∧ receipt_operation_id receipt = operation_id key fingerprint
      else r = Err (IdempotencyConflict key)
  end.

Lemma trim_key_trimmed request ops : trim_key (with_operations (trim_key request) ops) = with_operations (trim_key request) ops.
Proof. unfold trim_key, with_operations. cbn [idempotency_key expected_revision operations reason risk_tier]. by rewrite trim_idemp. Qed.

(** An answer given once its audit record is closed. *)
Lemma twp_refusal_copy st0 current id error (Q : Result TopologyOperationReceipt _ → _) w :
  audited_copy st0 current → (∀ w', Q (Err error) w') → (∀ e w', Q (Err (Persistence e)) w') →
  twp (records_only st0) (audited_error current id error) Q w.
Proof. intros Hc HQ HE. apply twp_bind, twp_outcome_copy; [done| |done]. intros w'. by apply twp_throw. Qed.
Lemma twp_replay_receipt st0 current id receipt (Q : Result TopologyOperationReceipt _ → _) w :
  audited_copy st0 current → (∀ w', Q (Ok receipt) w') → (∀ e w', Q (Err (Persistence e)) w') →
  twp (records_only st0) (replay_receipt current id receipt) Q w.
Proof. intros Hc HQ HE. apply twp_bind, twp_outcome_copy; [done| |done]. intros w'. by apply twp_ret. Qed.

Lemma twp_replay_inner st0 request actor audit known fingerprint w :
  let key := idempotency_key request in
  state_ok st0 → idempotency st0 !! key = Some known →
  trim_key request = request → request_fingerprint request = Ok fingerprint →
  validate_local_apply_preflight (tw_policy w) request = Ok tt → audited_copy st0 (tw_mem w) →
  twp (records_only st0) (apply_inner h request actor audit)
    (λ r _, replay_answer st0 (tw_policy w) request fingerprint known r) w.
Proof.
  intros key Hok Hk Ht Hfp Hpre Hm. unfold apply_inner. cbv zeta. rewrite Ht. apply twp_bind, twp_gets, twp_bind, twp_lift. rewrite Hfp.
  unfold replay_answer. fold key. rewrite Hpre.
  apply twp_bind, (twp_reconcile_copy st0); [done| |by left; eauto]. intros w2 Hm2 Hpol. apply twp_bind, twp_gets.
  set (current := append_operation_record _ _ _). assert (audited_copy st0 current) as Hcur by (by apply audited_again).
  apply twp_bind, twp_commit_records; [done| |by left; eauto]. intros d w3 M3. unfold audited.
  assert (pending current = pending st0 ∧ idempotency current = idempotency st0 ∧ receipts current = receipts st0) as (-> & -> & ->).
  { destruct Hcur as (? & ? & ->). done. }
  fold key. destruct (pending st0) as [p|].
  { destruct (bool_decide_reflect (pend_key p = key)); cbn [negb];
      [|apply twp_refusal_copy; [done|intros; by right|by left; eauto]].
    destruct (bool_decide_reflect (pend_fingerprint p = fingerprint)); cbn [negb];
      [apply twp_replay_receipt|apply twp_refusal_copy]; (done || (intros; by right) || (left; eauto)). }
  rewrite Hk. destruct (receipts_indexed _ _ (ok_receipts _ Hok) key known Hk) as (Hop & r0 & Hin0 & _ & Hid0).
  destruct (bool_decide_reflect (idem_fingerprint known = fingerprint)) as [Hf|Hf]; cbn [negb];
    [|apply twp_refusal_copy; [done|intros; by right|by left; eauto]].
  destruct (find_first _ (receipts st0)) as [receipt|] eqn:Hfind.
  - apply find_first_Some in Hfind as [Hin Hid%bool_decide_eq_true].
    apply twp_replay_receipt; [done| |by left; eauto]. intros w4. right. exists receipt. split_and!; [done..|]. by rewrite Hid, Hop, Hf.
  - exfalso. apply (find_first_None _ _) with (x := r0) in Hfind; [|done]. by apply bool_decide_eq_false in Hfind.
Qed.

(** A request the policy refuses leaves its denied record. *)
Lemma twp_upsert_copy st0 r (Q : Result unit _ → _) w :
  audited_copy st0 (tw_mem w) → (∀ w', Q (Ok tt) w') → (∀ e w', Q (Err (Persistence e)) w') →
  twp (records_only st0) (upsert_operation_record r) Q w.
Proof.
  intros Hm HQ HE. apply twp_bind, twp_gets, twp_bind, twp_gets. case_match; [by apply twp_ret|].
  apply twp_commit_records; [by apply audited_again|done|done].
Qed.

(** C25: a key is applied once.  While the receipt of a key is retained, a request that
    repeats the key changes neither the intent nor any receipt and never calls the
    mob: all it writes are audit records.  The answer is a failure to persist one of
    these; or the refusal of a policy that is not editable or does not accept the
    request; or, while an operation is under way, that operation's pending receipt
    if it has the same key and payload, a conflict if it has the same key and
    another payload, and "in progress" if it has another key; and with none under
    way, the retained receipt of the operation that key and payload name if the
    payload is the one applied, and a conflict if it differs.  The receipt is never
    reported as expired. *)
Theorem repeated_key_is_replayed request principal actor ops known fingerprint w :
  let normalized := with_operations (trim_key request) ops in
  world_ok w → idempotency (tw_mem w) !! trim (idempotency_key request) = Some known →
  normalize_operations (operations request) (handle_authority h) (tw_policy w) = Ok ops →
  request_fingerprint normalized = Ok fingerprint →
  replay_answer (tw_mem w) (tw_policy w) normalized fingerprint known (apply_as h request principal actor w).1 ∧
  Forall (λ e, records_only (tw_mem w) None e) (effects (apply_as h request principal actor) w).
Proof.
  intros normalized Hw Hk Hn Hfp.
  assert (twp (records_only (tw_mem w)) (apply_as h request principal actor)
    (λ r _, replay_answer (tw_mem w) (tw_policy w) normalized fingerprint known r) w) as Hwp.
  { unfold apply_as. cbv zeta. unfold normalize_for_authorization. apply twp_bind, twp_bind, twp_gets, twp_lift.
    cbn [trim_key operations]. rewrite Hn. apply twp_bind, twp_gets. change (with_operations _ ops) with normalized.
    apply twp_bind, twp_result. apply (quiet_new_record h anywhere); [done|]. intros [r|e] w2 K2 E;
      [|unfold operation_record_for_local_request, mbind, m_bind, lift_result in E; by rewrite Hfp in E].
    assert (audited_copy (tw_mem w) (tw_mem w2)) as Hm2.
    { rewrite (moved_mem _ _ _ _ K2). eexists _, _. symmetry. apply with_records_same. }
    destruct (validate_local_apply_preflight (tw_policy w) normalized) as [[]|error] eqn:Hpre.
    - rewrite <- (moved_policy _ _ _ _ K2) in Hpre |- *. apply twp_replay_inner; try done; [apply Hw|apply trim_key_trimmed].
    - apply twp_bind, twp_observe. intros w3 K3. unfold replay_answer. rewrite Hpre.
      apply twp_bind, twp_upsert_copy; [by rewrite (moved_mem _ _ _ _ K3)| |by left; eauto].
      intros w4. apply twp_throw. by right. }
  apply twp_effects in Hwp as (_ & _ & _ & Hc & HQ). split; [done|]. apply Forall_forall. intros e He.
  by destruct (chain_elem _ _ _ _ Hc He) as [d Hd].
Qed.
End replay.

(** ** Audit pages *)

(** A client that reads pages until [has_more] is false. *)
Fixpoint read_pages (fuel : nat) (records : list TopologyOperationRecord) (latest : Z) (after : option Z) (limit : Z)
    : option (list TopologyOperationRecord) :=
  match fuel with
  | O => None
  | S f =>
      match audit_page records latest after limit with
      | Err _ => None
      | Ok page =>
          if has_more page then (app (page_records page)) <$> read_pages f records latest (Some (next_after_seq page)) limit
          else Some (page_records page)
      end
  end.

Lemma filter_after_sorted rs a pre post :
  StronglySorted Z.lt (rec_seq <$> rs) → rs = pre ++ post → Forall (λ r, rec_seq r ≤ a) pre → Forall (λ r, a < rec_seq r) post →
  List.filter (λ r, a <? rec_seq r) rs = post.
Proof.
  intros _ -> Hpre Hpost. rewrite List.filter_app.
  assert (List.filter (λ r, a <? rec_seq r) pre = []) as ->.
  { induction Hpre as [|r pre Hr _ IH]; [done|]. simpl. destruct (Z.ltb_spec a (rec_seq r)); [lia|done]. }
  induction Hpost as [|r post Hr _ IH]; [done|]. simpl in *. destruct (Z.ltb_spec a (rec_seq r)); [|lia]. by rewrite IH.
Qed.

Lemma sorted_snoc_split pre r post :
  StronglySorted Z.lt (rec_seq <$> (pre ++ [r]) ++ post) →
  Forall (λ x, rec_seq x ≤ rec_seq r) (pre ++ [r]) ∧ Forall (λ x, rec_seq r < rec_seq x) post.
Proof.
  rewrite <- app_assoc. induction pre as [|x pre IH]; simpl; intros [Hs Hall]%StronglySorted_inv.
  - split; [by repeat constructor|]. by apply (Forall_fmap rec_seq (Z.lt (rec_seq r))).
  - destruct (IH Hs) as [H1 H2]. split; [|done]. constructor; [|done].
    rewrite fmap_app, fmap_cons in Hall. apply Forall_app in Hall as [_ [Hx _]%Forall_cons]. simpl in Hx. lia.
Qed.

(** From the sequence of the last record already read, the pages give the rest. *)
Lemma read_pages_from fuel rs last pre r post limit :
  audit_ok rs last → last < U64_MAX → rs = (pre ++ [r]) ++ post → (length post < fuel)%nat →
  read_pages fuel rs last (Some (rec_seq r)) limit = Some post.
Proof.
  intros Ha Hl. revert pre r post. induction fuel as [|f IH]; intros pre r post Hrs Hf; [lia|].
  destruct Ha as (Hu & Hrange & Hsorted). specialize (Hsorted Hl). rewrite Forall_forall in Hrange.
  assert (StronglySorted Z.lt (rec_seq <$> (pre ++ [r]) ++ post)) as Hs by (by rewrite <- Hrs).
  apply sorted_snoc_split in Hs as [Hpre Hpost].
  assert (r ∈ rs) as Hr by (rewrite Hrs; set_solver). specialize (Hrange r Hr) as Hrr.
  cbn [read_pages]. unfold audit_page. cbn [is_some].
  assert (is_some_and (rec_seq <$> head rs) (λ o, u64_saturating_add (rec_seq r) 1 <? o) = false) as ->.
  { destruct rs as [|x rs']; [done|]. simpl. apply Z.ltb_ge. unfold u64_saturating_add.
    assert (rec_seq x ≤ rec_seq r); [|lia].
    destruct pre as [|y pre]; simpl in Hrs; injection Hrs as -> _; [lia|]. by apply Forall_cons in Hpre as [? _]. }
  rewrite andb_false_r. rewrite (filter_after_sorted rs (rec_seq r) (pre ++ [r]) post) by done.
  set (n := Z.to_nat (u64_clamp 1 4096 limit)).
  assert (1 ≤ n)%nat as Hn. { unfold n, u64_clamp. repeat case_match; lia. }
  cbn [has_more page_records next_after_seq]. destruct (drop n post) as [|y rest] eqn:Hdrop; cbn [is_empty negb].
  - f_equal. rewrite <- (take_drop n post) at 2. by rewrite Hdrop, app_nil_r.
  - destruct (last_is_Some (take n post)) as [_ Hlast]. destruct Hlast as [z Hz].
    { destruct post; [by rewrite drop_nil in Hdrop|]. destruct n; [lia|done]. }
    rewrite Hz. cbn [fmap option_fmap option_map unwrap_or]. apply last_Some in Hz as [mid Hmid].
    rewrite (IH ((pre ++ [r]) ++ mid) z (drop n post)).
    + cbn [fmap option_fmap option_map]. by rewrite take_drop.
    + rewrite Hrs. rewrite <- (take_drop n post) at 1. rewrite Hmid. by rewrite !app_assoc.
    + apply (f_equal length) in Hdrop as Hlen. rewrite length_drop. rewrite length_drop in Hlen. simpl in Hlen. lia.
Qed.

(** Reading the audit log page by page, from the beginning and with any page size,
    terminates and returns every retained record exactly once and in order. *)
Theorem audit_pages_complete rs last limit :
  audit_ok rs last → last < U64_MAX → read_pages (S (length rs)) rs last None limit = Some rs.
Proof.
  intros Ha Hl. pose proof Ha as (Hu & Hrange & Hsorted). specialize (Hsorted Hl).
  destruct rs as [|r rs].
  { cbn. unfold audit_page. cbn. by rewrite take_nil, drop_nil. }
  cbn [read_pages]. unfold audit_page. cbn [is_some andb head fmap option_fmap option_map unwrap_or].
  apply Forall_cons in Hrange as Hr. destruct Hr as [Hr _].
  assert (StronglySorted Z.lt (rec_seq <$> ([] ++ [r]) ++ rs)) as Hs by done.
  apply sorted_snoc_split in Hs as [_ Hpost].
  rewrite (filter_after_sorted (r :: rs) _ [] (r :: rs)); [|done|done|constructor|].
  2: { unfold u64_saturating_sub. constructor; [lia|]. eapply Forall_impl; [done|]. simpl. lia. }
  set (n := Z.to_nat (u64_clamp 1 4096 limit)).
  assert (1 ≤ n)%nat as Hn. { unfold n, u64_clamp. repeat case_match; lia. }
  cbn [has_more page_records next_after_seq]. destruct (drop n (r :: rs)) as [|y rest] eqn:Hdrop; cbn [is_empty negb].
  - f_equal. rewrite <- (take_drop n (r :: rs)) at 2. by rewrite Hdrop, app_nil_r.
  - destruct (last_is_Some (take n (r :: rs))) as [_ Hlast]. destruct Hlast as [z Hz]; [by destruct n; [lia|]|].
    rewrite Hz. cbn [fmap option_fmap option_map unwrap_or]. apply last_Some in Hz as [mid Hmid].
    rewrite (read_pages_from _ _ _ mid z (drop n (r :: rs))); [|done|done| |].
    + cbn [fmap option_fmap option_map]. by rewrite take_drop.
    + by rewrite <- Hmid, take_drop.
    + rewrite length_drop. simpl. lia.
Qed.
