(* ===== verification/TopologyEdges.v ===== *)
(** * Topology control: canonical edges and what an applied request makes desired *)

From S2P Require Import Prelude Strings MemoryRecords ContinuityTypes MemberIds TopologyTypes TopologyState TopologyController TopologyLogic TopologyApply.
Open Scope Z_scope.

(** ** Canonical edges *)

Lemma sorted_pair_le a b : String.le (sorted_pair a b).1 (sorted_pair a b).2.
Proof.
  unfold sorted_pair. destruct (bool_decide_reflect (String.le a b)) as [Hl|Hl]; [done|].
  destruct (total String.le a b); done.
Qed.
Lemma sorted_pair_id a b : String.le a b → sorted_pair a b = (a, b).
Proof. intros Hl. unfold sorted_pair. by rewrite bool_decide_true. Qed.
Lemma sorted_pair_comm a b : sorted_pair a b = sorted_pair b a.
Proof.
  unfold sorted_pair. repeat case_bool_decide; try done.
  - by rewrite (anti_symm String.le a b).
  - destruct (total String.le a b); done.
Qed.
Lemma sorted_pair_cases a b : sorted_pair a b = (a, b) ∨ sorted_pair a b = (b, a).
Proof. unfold sorted_pair. case_match; auto. Qed.

(** A canonical edge, as [DesiredPeerEdge::new] makes it. *)
Record canonical_edge (e : DesiredPeerEdge) : Prop := {
  canonical_trim : trim e.1 = e.1 ∧ trim e.2 = e.2;
  canonical_nonempty : str_is_empty e.1 = false ∧ str_is_empty e.2 = false;
  canonical_distinct : e.1 ≠ e.2;
  canonical_sorted : String.le e.1 e.2;
}.
Lemma peer_edge_new_canonical a b e : peer_edge_new a b = Ok e → canonical_edge e ∧ e = sorted_pair (trim a) (trim b).
Proof.
  unfold peer_edge_new. cbv zeta. destruct (str_is_empty (trim a) || str_is_empty (trim b)) eqn:E; [done|].
  apply orb_false_iff in E as [Ea Eb]. destruct (bool_decide_reflect (trim a = trim b)) as [Heq|Hne]; [done|].
  intros [= <-]. split; [|done].
  pose proof (sorted_pair_le (trim a) (trim b)) as Hle.
  destruct (sorted_pair_cases (trim a) (trim b)) as [Hs|Hs]; rewrite Hs in Hle |- *; cbn [fst snd] in Hle;
    split; cbn [fst snd]; rewrite ?trim_idemp; auto using not_eq_sym.
Qed.
Lemma canonical_edge_new e : canonical_edge e → peer_edge_new e.1 e.2 = Ok e.
Proof.
  intros [[Ta Tb] [Ea Eb] Hne Hle]. destruct e as [a b]. cbn [fst snd] in *. unfold peer_edge_new. cbv zeta. rewrite Ta, Tb, Ea, Eb. cbn [orb].
  rewrite bool_decide_false by done. by rewrite sorted_pair_id.
Qed.
Lemma canonical_edge_new_swap e : canonical_edge e → peer_edge_new e.2 e.1 = Ok e.
Proof.
  intros [[Ta Tb] [Ea Eb] Hne Hle]. destruct e as [a b]. cbn [fst snd] in *. unfold peer_edge_new. cbv zeta. rewrite Ta, Tb, Ea, Eb. cbn [orb].
  rewrite bool_decide_false by done. by rewrite sorted_pair_comm, sorted_pair_id.
Qed.

(** ** Normalized operations *)

(** An edge as normalization leaves it: both endpoints of the authority, identities
    trimmed, distinct and in order. *)
Definition local_edge (authority : string) (e : DesiredPeerEdge) : TopologyEdge :=
  mkEdge (mkEndpoint (Some authority) e.1) (mkEndpoint (Some authority) e.2).
#[global] Instance local_edge_inj authority : Inj (=) (=) (local_edge authority).
Proof. intros [] [] [= -> ->]. done. Qed.

Section edges.
Context `{DebugText}.

Lemma endpoint_normalize_spec e authority e' :
  endpoint_normalize e authority = Ok e' → trim (ep_identity e') = ep_identity e' ∧ str_is_empty (ep_identity e') = false.
Proof.
  unfold endpoint_normalize. cbv zeta. destruct (str_is_empty (trim (ep_identity e))) eqn:He; [done|].
  intros (i & Hi & [= <-])%and_then_Ok. cbn [ep_identity].
  destruct (parse_identity (trim (ep_identity e))) as [i'|] eqn:Hp; [|done]. injection Hi as ->.
  apply parse_identity_Ok in Hp as ->. by rewrite trim_idemp.
Qed.

Lemma local_key_le authority a b :
  key_le (mkEndpoint (Some authority) a) (mkEndpoint (Some authority) b) ↔ String.le a b.
Proof.
  cbn. unfold by_key, lex2_le, endpoint_key. cbn. split; [intros [[_ Hl]|[Hn _]]; [done|congruence]|]. intros Hl. by left.
Qed.

Lemma normalized_edge_local e authority e' :
  edge_normalize e authority = Ok e' → is_local_to e' authority = true →
  ∃ d, canonical_edge d ∧ e' = local_edge authority d.
Proof.
  unfold edge_normalize. intros (a & Ha & (b & Hb & He)%and_then_Ok)%and_then_Ok Hl.
  apply endpoint_normalize_spec in Ha as [Ta Ea], Hb as [Tb Eb].
  unfold edge_new in He. destruct (str_is_empty _ || _); [done|]. destruct (bool_decide_reflect (a = b)) as [|Hne]; [done|].
  assert (ep_authority a = Some authority ∧ ep_authority b = Some authority) as [Aa Ab].
  { unfold is_local_to in Hl. case_match; injection He as <-; cbn in Hl;
      apply andb_true_iff in Hl as [?%bool_decide_eq_true ?%bool_decide_eq_true]; done. }
  destruct a as [aa ai], b as [ba bi]. cbn [ep_authority ep_identity] in *. subst aa ba.
  assert (ai ≠ bi) as Hd by congruence.
  destruct (bool_decide_reflect (key_le (mkEndpoint (Some authority) ai) (mkEndpoint (Some authority) bi))) as [Hle|Hle];
    injection He as <-; rewrite local_key_le in Hle.
  - exists (ai, bi). split; [|done]. by split.
  - exists (bi, ai). split; [|done]. destruct (total String.le ai bi) as [|Hle']; [done|]. by split.
Qed.

Lemma local_desired_local authority d : canonical_edge d → local_desired_edge (local_edge authority d) authority = Some d.
Proof.
  intros Hc. unfold local_desired_edge, is_local_to, local_edge. cbn [edge_a edge_b ep_authority ep_identity].
  rewrite !bool_decide_true by done. cbn [andb negb]. by rewrite canonical_edge_new.
Qed.

Lemma normalize_operations_local raw authority policy ops :
  normalize_operations raw authority policy = Ok ops →
  Forall (λ op, ∃ d, canonical_edge d ∧ mut_edge op = local_edge authority d) ops.
Proof.
  unfold normalize_operations. revert ops. induction raw as [|op raw IH]; intros ops; cbn [traverse].
  - by intros [= <-].
  - intros (op' & Hop & (rest & Hrest & [= <-])%and_then_Ok)%and_then_Ok.
    apply and_then_Ok in Hop as (e & He & Hop). destruct (is_local_to e authority) eqn:Hl; cbn [negb] in Hop; [|by case_match].
    injection Hop as <-. constructor; [by eapply normalized_edge_local|by apply IH].
Qed.

Lemma unique_from_NoDup seen ops :
  unique_from seen ops = Ok tt → NoDup (mut_edge <$> ops) ∧ ∀ op, op ∈ ops → mut_edge op ∉ seen.
Proof.
  revert seen. induction ops as [|op ops IH]; intros seen; cbn [unique_from].
  - intros _. split; [constructor|by intros ? ?%elem_of_nil].
  - destruct (bool_decide_reflect (mut_edge op ∈ seen)) as [|Hn]; [done|]. intros [Hd Hs]%IH. rewrite fmap_cons. split.
    + constructor; [|done]. intros (op' & E & Hin)%list_elem_of_fmap. apply (Hs op' Hin). rewrite <- E. set_solver.
    + intros op' [->|Hin]%elem_of_cons; [done|]. specialize (Hs op' Hin). set_solver.
Qed.

(** ** What becomes desired *)

Definition desired_in (declared : gset DesiredPeerEdge) (c : CommittedTopologyIntent) (e : DesiredPeerEdge) : Prop :=
  (e ∈ declared ∨ e ∈ committed_additions c) ∧ e ∉ committed_suppressions c.

Lemma compose_declared_spec st declared e :
  e ∈ compose_declared st declared ↔ desired_in (list_to_set declared) (current_intent st) e.
Proof. unfold compose_declared, desired_in. rewrite elem_of_oset_elements. set_solver. Qed.

Lemma request_one_desired declared action e c x :
  committed_additions c ## committed_suppressions c →
  desired_in declared (request_one declared action e c) x ↔
  if decide (x = e) then action ≠ Disconnect else desired_in declared c x.
Proof.
  intros Hd. unfold desired_in. destruct (decide (x = e)) as [->|Hne]; destruct action; cbn; try case_bool_decide; set_solver.
Qed.
Lemma request_one_disjoint declared action e c :
  committed_additions c ## committed_suppressions c →
  committed_additions (request_one declared action e c) ## committed_suppressions (request_one declared action e c).
Proof. intros Hd. destruct action; cbn; try case_bool_decide; set_solver. Qed.

Lemma requested_desired declared authority ops c x :
  Forall (λ op, ∃ d, canonical_edge d ∧ mut_edge op = local_edge authority d) ops → NoDup (mut_edge <$> ops) →
  committed_additions c ## committed_suppressions c →
  (∀ op, op ∈ ops → mut_edge op = local_edge authority x → desired_in declared (requested declared authority ops c) x ↔ mut_action op ≠ Disconnect) ∧
  ((∀ op, op ∈ ops → mut_edge op ≠ local_edge authority x) → desired_in declared (requested declared authority ops c) x ↔ desired_in declared c x).
Proof.
  revert c. induction ops as [|op ops IH]; intros c Hloc Hnd Hd; cbn [requested].
  { split; [by intros ? ?%elem_of_nil|done]. }
  apply Forall_cons in Hloc as [(d & Hcan & Hop) Hloc]. rewrite fmap_cons in Hnd. apply NoDup_cons in Hnd as [Hnin Hnd].
  rewrite Hop, local_desired_local by done. destruct (IH (request_one declared (mut_action op) d c) Hloc Hnd (request_one_disjoint _ _ _ _ Hd)) as [IH1 IH2].
  split.
  - intros op' [->|Hin]%elem_of_cons Hx; [|by apply IH1].
    rewrite Hx in Hop. apply (inj (local_edge authority)) in Hop as <-. rewrite IH2.
    + rewrite request_one_desired by done. by rewrite decide_True.
    + intros op' Hin E. apply Hnin. rewrite Hx, <- E. by apply list_elem_of_fmap_2.
  - intros Hno. rewrite IH2 by (intros; apply Hno; by right). rewrite request_one_desired by done.
    rewrite decide_False; [done|]. intros ->. apply (Hno op); [by left|done].
Qed.

(** An applied batch makes exactly the requested edges desired.  For a normalized
    batch without repeated edges, the intent an apply computes over its snapshot,
    composed with the declared topology, wants an edge the batch connects or
    reconnects, does not want an edge it disconnects (even a declared one), and wants
    every other edge exactly as before. *)
Theorem applied_batch_is_desired raw authority policy ops s declared st st' x :
  normalize_operations raw authority policy = Ok ops → validate_unique_operations ops = Ok tt →
  additions st ## suppressions st →
  apply_plan_intent (list_to_set declared) authority (planned_operations (plan_from_snapshot s ops)) st = Ok st' →
  (∀ op, op ∈ ops → mut_edge op = local_edge authority x →
     x ∈ compose_declared st' declared ↔ mut_action op ≠ Disconnect) ∧
  ((∀ op, op ∈ ops → mut_edge op ≠ local_edge authority x) →
     x ∈ compose_declared st' declared ↔ x ∈ compose_declared st declared).
Proof.
  intros Hn Hu Hd Hp. apply normalize_operations_local in Hn. apply unique_from_NoDup in Hu as [Hu _].
  apply apply_plan_intent_spec in Hp.
  destruct (requested_desired (list_to_set declared) authority ops (current_intent st) x Hn Hu Hd) as [H1 H2].
  split; [intros op Hin Hx|intros Hno]; rewrite !compose_declared_spec, Hp; [by apply H1|by apply H2].
Qed.
End edges.
