(* ===== verification/EdgeReconcileTheorems.v ===== *)
(** * Edge reconciliation: a complete report means the graph converged

    The graph is what the roster listed, changed by the wires and unwires the mob
    acknowledged, in the public alias space.  Two graphs are followed: the edges both
    of whose members list each other, and the edges at least one member lists.  The
    reconciliation itself looks at the second only. *)

From S2P Require Import Prelude Strings MemoryRecords MemberIds MemberIdTheorems TopologyTypes TopologyState TopologyWorld EdgeReconcile TopologyLogic TopologyApply TopologyTheorems TopologyEdges.
Open Scope Z_scope.

Definition alias_key (e : string * string) : string * string := sorted_pair (runtime_alias_str e.1) (runtime_alias_str e.2).

Definition graph_event (g : gset (string * string)) (ev : TopologyEvent) : gset (string * string) :=
  match ev with
  | EvWire _ (Ok report) => g ∪ list_to_set (alias_key <$> report_wired report ++ report_already_wired report)
  | EvUnwire a b (Ok _) => g ∖ {[alias_key (a, b)]}
  | _ => g
  end.

(** The edges that are wired: each member lists the other.  [current_wiring] is the edges with either half. *)
Definition reciprocal_wiring (members : list MobMember) : gset (string * string) :=
  filter (λ e, e ∈ directed_edges members ∧ (e.2, e.1) ∈ directed_edges members) (current_wiring members).
Definition half_wired (members : list MobMember) (e : string * string) : Prop :=
  e ∈ current_wiring members ∧ e ∉ reciprocal_wiring members.

(** An edge whose names are Rust strings in canonical order. *)
Definition named_edge (e : DesiredPeerEdge) : Prop := canonical_edge e ∧ is_str e.1 = true ∧ is_str e.2 = true.

Lemma alias_key_roster e : named_edge e → alias_key (mob_member_id e.1, mob_member_id e.2) = e.
Proof.
  intros ([_ _ _ Hle] & H1 & H2). unfold alias_key, mob_member_id. cbn [fst snd]. rewrite !decode_encode by done.
  rewrite sorted_pair_id by done. by destruct e.
Qed.

Lemma ok_edge_named e : named_edge e → ok_edge e.1 e.2 = [e].
Proof. intros [Hc _]. unfold ok_edge. by rewrite canonical_edge_new. Qed.
Lemma edges_of_nil l : Forall named_edge l → edges_of l = [] → l = [].
Proof. destruct l as [|e l]; [done|]. intros [He _]%Forall_cons. unfold edges_of. cbn. by rewrite ok_edge_named. Qed.

Lemma elem_of_pairs_of s e : e ∈ pairs_of s ↔ e ∈ s.
Proof. apply elem_of_oset_elements. Qed.

Section reconcile.
Context `{TopologyEnv}.

(** ** The effects of the diff *)

Definition wire_request (to_wire : list (string * string * string)) : list (string * string) :=
  (λ '(a, b, _), (mob_member_id a, mob_member_id b)) <$> to_wire.

Lemma run_wire_spec to_wire w :
  ∃ es out w', run_wire to_wire w = (Ok out, w') ∧ tw_trace w' = tw_trace w ++ es ∧
    ((to_wire = [] ∧ es = [] ∧ out = ([], [])) ∨
     ∃ r, r = wire_members_batch (tw_step w) (wire_request to_wire) ∧ es = [EvWire (wire_request to_wire) r] ∧ out = wire_outcome to_wire r).
Proof.
  unfold run_wire. destruct to_wire as [|t to_wire]; cbn [is_empty].
  - exists [], ([], []), w. rewrite app_nil_r. split_and!; [done|done|by left].
  - eexists _, _, _. split; [reflexivity|]. split; [reflexivity|]. right. eexists. done.
Qed.

Definition unwire_event (u : string * string * Result unit string) : TopologyEvent :=
  let '(a, b, r) := u in EvUnwire (mob_member_id a) (mob_member_id b) r.

Lemma call_unwire_spec a b w : ∃ r w', call_unwire a b w = (Ok r, w') ∧ tw_trace w' = tw_trace w ++ [EvUnwire a b r].
Proof. exists (unwire_members (tw_step w) a b). eexists. split; [cbv [call_unwire mbind m_bind observe log_event modify mret m_ret]; reflexivity|done]. Qed.

Lemma run_unwires_spec l w :
  ∃ results w', run_unwires l w = (Ok results, w') ∧ results.*1 = l ∧ tw_trace w' = tw_trace w ++ (unwire_event <$> results).
Proof.
  revert w. induction l as [|[a b] l IH]; intros w.
  - exists [], w. by rewrite app_nil_r.
  - destruct (call_unwire_spec (mob_member_id a) (mob_member_id b) w) as (r & w1 & E & T).
    destruct (IH w1) as (results & w' & Hr & Hl & Ht). exists ((a, b, r) :: results), w'.
    split; [cbn [run_unwires]; unfold mbind, m_bind; by rewrite E, Hr|].
    split; [by rewrite <- Hl|]. by rewrite Ht, T, <- app_assoc.
Qed.

(** ** The graph after the effects *)

Lemma graph_unwires results g e :
  Forall (λ u, named_edge u.1) results →
  e ∈ foldl graph_event g (unwire_event <$> results) ↔ e ∈ g ∧ e ∉ omap unwired_key results.
Proof.
  intros Hn. revert g. induction Hn as [|[[a b] r] results Hu _ IH]; intros g; cbn [fmap list_fmap foldl].
  { cbn. set_solver. }
  rewrite IH. cbn [unwire_event graph_event omap list_omap unwired_key fst] in *. destruct r as [u|err].
  - change (mob_member_id a, mob_member_id b) with (mob_member_id (a, b).1, mob_member_id (a, b).2).
    rewrite alias_key_roster by done. rewrite elem_of_cons, elem_of_difference, elem_of_singleton. tauto.
  - done.
Qed.


(** ** Classification *)

Lemma elem_of_class {C} `{EqDecision C} (f : string * string → C) c l e : e ∈ of_class f c l ↔ e ∈ l ∧ f e = c.
Proof. unfold of_class. rewrite !list_elem_of_In, filter_In, bool_decide_eq_true. done. Qed.
Lemma elem_of_wires f l e op : (e, op) ∈ wires_of f l ↔ e ∈ l ∧ wire_label (f e) = Some op.
Proof.
  unfold wires_of. rewrite list_elem_of_omap. split.
  - intros (x & Hx & (op' & Hop & [= -> ->])%fmap_Some). done.
  - intros [Hin Hl]. exists e. by rewrite Hl.
Qed.
Lemma elem_of_desired_pairs raw e : e ∈ desired_pairs raw ↔ e ∈ raw.
Proof. unfold desired_pairs. rewrite elem_of_pairs_of. apply elem_of_list_to_set. Qed.
Lemma elem_of_stale_pairs managed raw e : e ∈ stale_pairs managed raw ↔ e ∈ managed ∧ e ∉ raw.
Proof. unfold stale_pairs. rewrite elem_of_pairs_of, elem_of_difference, elem_of_list_to_set. done. Qed.

Lemma bind_nil {A B} (f : A → list B) l : l ≫= f = [] → ∀ x, x ∈ l → f x = [].
Proof.
  induction l as [|y l IH]; intros Hb x; [by intros ?%elem_of_nil|]. cbn in Hb. apply app_eq_nil in Hb as [Hy Hb].
  intros [->|Hx]%elem_of_cons; [done|by apply IH].
Qed.

(** What a complete wire phase means. *)
Lemma wire_complete to_wire r :
  (∀ e op, (e, op) ∈ to_wire → named_edge e) → (wire_outcome to_wire r).2 ≫= wire_failure to_wire = [] →
  ∀ e op, (e, op) ∈ to_wire → ∃ report, r = Ok report ∧ e ∈ alias_key <$> report_wired report ++ report_already_wired report.
Proof.
  intros Hn Hf [a b] op Hin. pose proof (Hn _ _ Hin) as Hne. pose proof (bind_nil _ _ Hf) as Hnil.
  assert (∀ o err, wire_failure to_wire (a, b, o, err) ≠ []) as Hbad.
  { intros o err. pose proof (ok_edge_named _ Hne) as Hok. cbn [fst snd] in Hok. unfold wire_failure. by rewrite Hok. }
  destruct r as [report|err]; cbn in Hnil.
  - exists report. split; [done|]. destruct (decide ((a, b) ∈ alias_key <$> report_wired report ++ report_already_wired report)) as [|Hno]; [done|].
    exfalso. apply (Hbad op "wire_members_batch omitted edge from report"). apply Hnil. apply list_elem_of_omap.
    exists (a, b, op). split; [done|]. cbn. rewrite sorted_pair_id by apply Hne. rewrite bool_decide_false; [done|].
    intros Hseen. apply Hno. rewrite elem_of_list_to_set, fmap_app, <- !list_fmap_compose in Hseen. by rewrite fmap_app.
  - exfalso. apply (Hbad op err), Hnil. apply list_elem_of_fmap. by exists (a, b, op).
Qed.

Lemma wire_success_keys to_wire report :
  (wire_outcome to_wire (Ok report)).1.*1 = alias_key <$> report_wired report ++ report_already_wired report.
Proof. cbn. by rewrite !fmap_app, <- !list_fmap_compose. Qed.

(** The mob reports only edges it was asked for. *)
Definition honest_reports : Prop := ∀ n edges report p,
  wire_members_batch n edges = Ok report → p ∈ report_wired report ++ report_already_wired report → p ∈ edges.

Lemma honest_keys to_wire n report e :
  honest_reports → (∀ e op, (e, op) ∈ to_wire → named_edge e) → wire_members_batch n (wire_request to_wire) = Ok report →
  e ∈ alias_key <$> report_wired report ++ report_already_wired report → ∃ op, (e, op) ∈ to_wire.
Proof.
  intros Hh Hn Hr (p & -> & Hp)%list_elem_of_fmap. apply (Hh _ _ _ _ Hr) in Hp.
  apply list_elem_of_fmap in Hp as ([[a b] op] & -> & Hin). exists op.
  change (mob_member_id a, mob_member_id b) with (mob_member_id (a, b).1, mob_member_id (a, b).2). rewrite alias_key_roster; [done|]. by eapply Hn.
Qed.

(** ** Convergence *)

Lemma unwires_all_ok results :
  Forall (λ u, named_edge u.1) results → results ≫= unwire_failure = [] → omap unwired_key results = results.*1.
Proof.
  intros Hn. induction Hn as [|[[a b] r] results Hu _ IH]; [done|]. cbn. intros [Hf Hr]%app_eq_nil.
  destruct r as [u|err]; [by rewrite IH|]. exfalso. pose proof (ok_edge_named _ Hu) as Hok. cbn in Hok. by rewrite Hok in Hf.
Qed.

Lemma no_class {C} `{EqDecision C} (f : string * string → C) c l :
  (∀ e, e ∈ l → named_edge e) → edges_of (of_class f c l) = [] → ∀ e, e ∈ l → f e ≠ c.
Proof.
  intros Hn Hnil e He Hc. apply edges_of_nil in Hnil.
  - assert (e ∈ of_class f c l) as Hin by (by apply elem_of_class). rewrite Hnil in Hin. by apply elem_of_nil in Hin.
  - apply Forall_forall. intros x [Hx _]%elem_of_class. by apply Hn.
Qed.

(** The wire phase of a complete run: the graph gains the keys that succeeded, which
    are edges that had to be wired, and all of those. *)
Lemma wire_phase to_wire w wires out g :
  honest_reports → (∀ e op, (e, op) ∈ to_wire → named_edge e) → out.2 ≫= wire_failure to_wire = [] →
  ((to_wire = [] ∧ wires = [] ∧ out = ([], [])) ∨
   ∃ r, r = wire_members_batch (tw_step w) (wire_request to_wire) ∧ wires = [EvWire (wire_request to_wire) r] ∧ out = wire_outcome to_wire r) →
  (∀ e, e ∈ foldl graph_event g wires ↔ e ∈ g ∨ e ∈ out.1.*1) ∧ (∀ e, e ∈ out.1.*1 ↔ ∃ op, (e, op) ∈ to_wire).
Proof.
  intros Hh Hn Hf [(-> & -> & ->)|(r & Hr & -> & ->)].
  - split; intros e; [set_solver|]. split; [by intros ?%elem_of_nil|intros [op Hop]; by apply elem_of_nil in Hop].
  - destruct r as [report|err].
    + rewrite wire_success_keys. split; intros e.
      * cbn [foldl graph_event]. rewrite elem_of_union, elem_of_list_to_set. done.
      * split; [by eapply honest_keys|]. intros [op Hop]. by destruct (wire_complete _ _ Hn Hf _ _ Hop) as (? & [= <-] & ?).
    + assert (to_wire = []) as ->.
      { destruct to_wire as [|[e op] rest]; [done|].
        destruct (wire_complete _ _ Hn Hf e op) as (? & [=] & _). by left. }
      split; intros e; [set_solver|]. split; [by intros ?%elem_of_nil|intros [op Hop]; by apply elem_of_nil in Hop].
Qed.

Definition converged (managed : gset (string * string)) (members : list MobMember) (raw : list DesiredPeerEdge)
    (managed' : gset (string * string)) (after : gset (string * string) → gset (string * string)) : Prop :=
  (∀ e, e ∈ raw → e ∈ after (current_wiring members) ∧ (e ∈ after (reciprocal_wiring members) ↔ ¬ half_wired members e)) ∧
  (∀ e, e ∈ managed → e ∉ raw → present_pair (alias_ids members) e = true → e ∉ after (current_wiring members)) ∧
  (∀ e g, e ∉ managed → e ∉ raw → e ∈ after g ↔ e ∈ g) ∧
  (∀ e, e ∈ managed' → e ∈ raw).

Lemma present_stale_unwired members e :
  stale_of members e ≠ StaleReserved → present_pair (alias_ids members) e = true → e ∈ current_wiring members →
  stale_of members e = StaleUnwire.
Proof.
  unfold stale_of, classify_stale. intros Hr Hp Hc. revert Hr. rewrite Hp, (bool_decide_true _ Hc). destruct (reserved_pair e); [congruence|done].
Qed.

(** An edge is wired exactly when neither member lists it. *)
Lemma labelled_absent managed members e :
  class_of managed members e ≠ ClassMissing → class_of managed members e ≠ ClassReserved →
  is_Some (wire_label (class_of managed members e)) ↔ e ∉ current_wiring members.
Proof.
  unfold class_of, classify_desired. destruct (reserved_pair e), (present_pair (alias_ids members) e), (bool_decide (e ∈ managed)); cbn; try congruence;
    destruct (bool_decide_reflect (e ∈ current_wiring members)); intros _ _; split; try done; try (by intros [? ?]); eauto.
Qed.

Lemma graph_converged managed members raw out results wires w :
  honest_reports → (∀ e, e ∈ raw ∨ e ∈ managed → named_edge e) →
  is_complete (diff_report managed members raw out results) = true →
  results.*1 = of_class (stale_of members) StaleUnwire (stale_pairs managed raw) →
  (let to_wire := wires_of (class_of managed members) (desired_pairs raw) in
   (to_wire = [] ∧ wires = [] ∧ out = ([], [])) ∨
   ∃ r, r = wire_members_batch (tw_step w) (wire_request to_wire) ∧ wires = [EvWire (wire_request to_wire) r] ∧ out = wire_outcome to_wire r) →
  converged managed members raw (diff_managed managed members raw out.1 results)
    (λ g, foldl graph_event g (wires ++ (unwire_event <$> results))).
Proof.
  intros Hh Hn Hc Hkeys Hout. set (to_wire := wires_of _ _) in Hout.
  assert (∀ e, e ∈ desired_pairs raw → named_edge e) as Hnd by (intros e He; apply Hn; left; by apply elem_of_desired_pairs).
  assert (∀ e, e ∈ stale_pairs managed raw → named_edge e) as Hns by (intros e He; apply Hn; right; by apply elem_of_stale_pairs in He as [He _]).
  unfold is_complete in Hc. apply andb_true_iff in Hc as [Hfail Hskip]. cbn [edge_failures skipped_missing_members diff_report] in Hfail, Hskip.
  destruct (edges_of (of_class (class_of managed members) ClassMissing (desired_pairs raw))) eqn:Hmiss; [|done].
  destruct (_ ++ _) eqn:Hnil in Hfail; [|done]. apply app_eq_nil in Hnil as [H1%fmap_nil_inv Hnil].
  apply app_eq_nil in Hnil as [H2%fmap_nil_inv Hnil]. apply app_eq_nil in Hnil as [H3 H4].
  assert (Forall (λ u, named_edge u.1) results) as Hnr.
  { assert (Forall named_edge results.*1) as Hall; [|exact (proj1 (Forall_fmap fst named_edge results) Hall)].
    rewrite Hkeys. apply Forall_forall. intros e [He _]%elem_of_class. by apply Hns. }
  pose proof (eq_trans (unwires_all_ok results Hnr H4) Hkeys) as Hgone.
  assert (∀ e op, (e, op) ∈ to_wire → named_edge e) as Hnw by (intros e op [He _]%elem_of_wires; by apply Hnd).
  destruct (wire_phase to_wire w wires out ∅ Hh Hnw H3 Hout) as [_ Hsucc].
  assert (∀ g e, e ∈ foldl graph_event g wires ↔ e ∈ g ∨ e ∈ out.1.*1) as Hgraph.
  { intros g. by destruct (wire_phase to_wire w wires out g Hh Hnw H3 Hout). }
  assert (∀ e, e ∈ omap unwired_key results ↔ (e ∈ managed ∧ e ∉ raw) ∧ stale_of members e = StaleUnwire) as Hun.
  { intros e. by rewrite Hgone, elem_of_class, elem_of_stale_pairs. }
  assert (∀ e, e ∈ out.1.*1 ↔ e ∈ raw ∧ is_Some (wire_label (class_of managed members e))) as Hs.
  { intros e. rewrite Hsucc. split.
    - intros [op [Hin Hl]%elem_of_wires]. split; [by apply elem_of_desired_pairs|by exists op].
    - intros [Hr [op Hl]]. exists op. apply elem_of_wires. split; [by apply elem_of_desired_pairs|done]. }
  assert (∀ g e, e ∈ foldl graph_event g (wires ++ (unwire_event <$> results)) ↔
    (e ∈ g ∨ e ∈ raw ∧ is_Some (wire_label (class_of managed members e))) ∧
    ¬ ((e ∈ managed ∧ e ∉ raw) ∧ stale_of members e = StaleUnwire)) as Hafter.
  { intros g e. rewrite foldl_app, (graph_unwires results _ e Hnr), Hgraph, Hs, Hun. done. }
  unfold converged. split_and!.
  - intros e He. assert (e ∈ desired_pairs raw) as Hd by (by apply elem_of_desired_pairs).
    pose proof (labelled_absent managed members e (no_class _ _ _ Hnd Hmiss e Hd) (no_class _ _ _ Hnd H1 e Hd)) as Hl.
    rewrite !Hafter, Hl. unfold half_wired. destruct (decide (e ∈ current_wiring members)), (decide (e ∈ reciprocal_wiring members)); tauto.
  - intros e Hm Hr Hp [[Hin|[? _]] Hg]%Hafter; [|done]. apply Hg. split; [done|]. apply present_stale_unwired; [|done|done].
    apply (no_class _ _ _ Hns H2). by apply elem_of_stale_pairs.
  - intros e g Hm Hr. rewrite Hafter. naive_solver.
  - intros e. unfold diff_managed. rewrite !elem_of_difference, elem_of_union, !elem_of_list_to_set, Hs, Hun, elem_of_class, elem_of_stale_pairs.
    intros [[[Hm|[Hr _]] Hpr] Hg]; [|done]. destruct (decide (e ∈ raw)) as [|Hr]; [done|]. exfalso.
    assert (e ∈ stale_pairs managed raw) as Hst by (by apply elem_of_stale_pairs).
    pose proof (no_class _ _ _ Hns H2 e Hst) as N. destruct (stale_of members e) eqn:E; [done|by apply Hpr|by apply Hg].
Qed.

Lemma reconcile_diff_run managed members raw w :
  ∃ wires out results w',
    reconcile_diff managed members raw w = (Ok (diff_report managed members raw out results, diff_managed managed members raw out.1 results), w') ∧
    tw_trace w' = tw_trace w ++ (wires ++ (unwire_event <$> results)) ∧
    results.*1 = of_class (stale_of members) StaleUnwire (stale_pairs managed raw) ∧
    (let to_wire := wires_of (class_of managed members) (desired_pairs raw) in
     (to_wire = [] ∧ wires = [] ∧ out = ([], [])) ∨
     ∃ r, r = wire_members_batch (tw_step w) (wire_request to_wire) ∧ wires = [EvWire (wire_request to_wire) r] ∧ out = wire_outcome to_wire r).
Proof.
  destruct (run_wire_spec (wires_of (class_of managed members) (desired_pairs raw)) w) as (wires & out & w1 & E1 & T1 & Hout).
  destruct (run_unwires_spec (of_class (stale_of members) StaleUnwire (stale_pairs managed raw)) w1) as (results & w2 & E2 & Hkeys & T2).
  exists wires, out, results, w2. split_and!; [|by rewrite T2, T1, app_assoc|done|done].
  unfold reconcile_diff, mbind, m_bind. by rewrite E1, E2.
Qed.

(** C26: a complete reconciliation converges.  Suppose the mob only reports edges it was
    asked for, the desired and the managed edges have names in canonical order, and a
    reconciliation over a roster reports neither a failure nor a skipped edge.  Then a
    desired edge is wired both ways afterwards, unless just one of its members listed
    the other before: such a half edge counts as wired and is left as it is.  Every
    edge it managed between present members that is no longer desired is gone, both
    halves of it; every edge that is neither desired nor managed is as it was; and what
    it manages afterwards is desired. *)
Theorem complete_reconcile_converges discovery managed topology members w report managed' w' :
  honest_reports → reconcile_edges_over_members discovery managed topology members w = (Ok (report, managed'), w') →
  is_complete report = true → (∀ e, e ∈ desired_edges report ∨ e ∈ managed → named_edge e) →
  let after g := foldl graph_event g (effects (reconcile_edges_over_members discovery managed topology members) w) in
  (∀ e, e ∈ desired_edges report → e ∈ after (current_wiring members) ∧
     (e ∈ after (reciprocal_wiring members) ↔ ¬ half_wired members e)) ∧
  (∀ e, e ∈ managed → e ∉ desired_edges report → present_pair (alias_ids members) e = true →
     e ∉ after (current_wiring members)) ∧
  (∀ e g, e ∉ managed → e ∉ desired_edges report → e ∈ after g ↔ e ∈ g) ∧
  (∀ e, e ∈ managed' → e ∈ desired_edges report).
Proof.
  intros Hh Hrun Hc Hn. unfold effects. rewrite Hrun. unfold reconcile_edges_over_members in Hrun. cbn [snd].
  assert (∃ w0 raw, tw_trace w0 = tw_trace w ∧ reconcile_diff managed members raw w0 = (Ok (report, managed'), w')) as (w0 & raw & Ht & Hd).
  { destruct discovery; unfold mbind, m_bind in Hrun; cbn in Hrun; eexists _, _; (split; [|exact Hrun]); done. }
  destruct (reconcile_diff_run managed members raw w0) as (wires & out & results & w1 & E & T & Hkeys & Hout).
  rewrite E in Hd. injection Hd as <- <- <-. rewrite T, Ht, drop_app_length.
  cbn [desired_edges diff_report] in *. exact (graph_converged _ _ _ _ _ _ _ Hh Hn Hc Hkeys Hout).
Qed.
End reconcile.
