(* ===== verification/TopologyFlights.v ===== *)
(** * Topology control: shared snapshot reads ([coalesced_query] and [query_flight] of
      [topology_control.rs])

    Concurrent readers share snapshot computations.  A flight is a shared future: it
    waits for the flight it was queued behind, computes, and clears its slot as it
    finishes.  Who polls it, and when, is left open: a step is a reader's arrival
    (under the lock of the flights), the start of a computation or its end. *)

From S2P Require Import Prelude.
Open Scope Z_scope.

Inductive FlightStatus := Waiting | Computing | Finished.
#[global] Instance FlightStatus_eq_dec : EqDecision FlightStatus.
Proof. solve_decision. Defined.

Record Flight := mkFlight { flight_after : option Z; flight_status : FlightStatus }.

(** [TopologyQueryFlights], with the futures its slots and its callers hold. *)
Record TopologyQueryFlights := mkFlights {
  flight_seq : Z;
  running : option Z;
  next : option Z;
  futures : gmap Z Flight;
}.
Definition no_flights : TopologyQueryFlights := mkFlights 0 None None ∅.

(** [query_flight]: a new future under the next id *)
Definition query_flight (fs : TopologyQueryFlights) (after : option Z) : Z * TopologyQueryFlights :=
  let id := (flight_seq fs + 1) mod 2 ^ 64 in
  (id, mkFlights id (running fs) (next fs) (<[id := mkFlight after Waiting]> (futures fs))).

(** [coalesced_query]: the flight a reader awaits *)
Definition coalesced_query (fs : TopologyQueryFlights) : Z * TopologyQueryFlights :=
  match next fs with
  | Some n => (n, fs)
  | None =>
      match running fs with
      | Some r =>
          let '(id, fs) := query_flight fs (Some r) in
          (id, mkFlights (flight_seq fs) (running fs) (Some id) (futures fs))
      | None =>
          let '(id, fs) := query_flight fs None in
          (id, mkFlights (flight_seq fs) (Some id) (next fs) (futures fs))
      end
  end.

Definition set_status (fs : TopologyQueryFlights) (id : Z) (f : Flight) (s : FlightStatus) : gmap Z Flight :=
  <[id := mkFlight (flight_after f) s]> (futures fs).
Definition finished (fs : TopologyQueryFlights) (id : Z) : bool :=
  is_some_and (futures fs !! id) (λ f, flight_status f =b Finished).

Inductive flight_step : TopologyQueryFlights → TopologyQueryFlights → Prop :=
| flight_arrive fs : flight_step fs (coalesced_query fs).2
| flight_start fs id f :
    (* [after.await] has returned *)
    futures fs !! id = Some f → flight_status f = Waiting → is_none_or (flight_after f) (finished fs) = true →
    flight_step fs (mkFlights (flight_seq fs) (running fs) (next fs) (set_status fs id f Computing))
| flight_finish fs id f :
    (* [query_unlocked] has returned: promote the queued flight *)
    futures fs !! id = Some f → flight_status f = Computing →
    flight_step fs
      (let fs' := mkFlights (flight_seq fs) (running fs) (next fs) (set_status fs id f Finished) in
       if running fs =b Some id then mkFlights (flight_seq fs') (next fs) None (futures fs') else fs').

(** ** Invariant *)

Record flights_ok (fs : TopologyQueryFlights) : Prop := {
  flights_seq : 0 ≤ flight_seq fs;
  flights_ids : ∀ id, is_Some (futures fs !! id) → 0 < id ≤ flight_seq fs;
  flights_running : ∀ id, running fs = Some id →
    ∃ f, futures fs !! id = Some f ∧ flight_status f ≠ Finished ∧ is_none_or (flight_after f) (finished fs) = true;
  flights_next : ∀ id, next fs = Some id →
    ∃ r, running fs = Some r ∧ id ≠ r ∧ futures fs !! id = Some (mkFlight (Some r) Waiting);
  flights_open : ∀ id f, futures fs !! id = Some f → flight_status f ≠ Finished → running fs = Some id ∨ next fs = Some id;
}.

Lemma no_flights_ok : flights_ok no_flights.
Proof. split; try done. intros id [f Hf]. done. Qed.

Lemma finished_insert fs id f s x :
  futures fs !! id = Some f → flight_status f ≠ Finished → finished fs x = true →
  finished (mkFlights (flight_seq fs) (running fs) (next fs) (set_status fs id f s)) x = true.
Proof.
  intros Hf Hs. unfold finished. cbn [futures]. unfold set_status. destruct (decide (x = id)) as [->|Hne].
  - rewrite Hf. cbn. by intros ?%bool_decide_eq_true.
  - by rewrite lookup_insert_ne.
Qed.

(** Ids do not repeat before the counter wraps. *)
Lemma fresh_id fs : flights_ok fs → flight_seq fs < U64_MAX →
  (flight_seq fs + 1) mod 2 ^ 64 = flight_seq fs + 1 ∧ futures fs !! (flight_seq fs + 1) = None.
Proof.
  intros Hok Hlt. split; [apply Z.mod_small; pose proof (flights_seq _ Hok); unfold U64_MAX in Hlt; lia|].
  destruct (futures fs !! (flight_seq fs + 1)) eqn:E; [|done]. exfalso.
  pose proof (flights_ids _ Hok (flight_seq fs + 1) ltac:(by rewrite E)). lia.
Qed.

Lemma finished_fresh fs id f x s r n :
  futures fs !! id = None → finished fs x = true → finished (mkFlights s r n (<[id := f]> (futures fs))) x = true.
Proof.
  intros Hn. unfold finished. cbn [futures]. destruct (decide (x = id)) as [->|Hne]; [by rewrite Hn|by rewrite lookup_insert_ne].
Qed.

Lemma is_none_or_mono {A} (o : option A) (p q : A → bool) :
  (∀ x, p x = true → q x = true) → is_none_or o p = true → is_none_or o q = true.
Proof. destruct o; cbn; auto. Qed.

Lemma arrive_ok fs : flights_ok fs → flight_seq fs < U64_MAX → flights_ok (coalesced_query fs).2.
Proof.
  intros Hok Hlt. destruct (fresh_id fs Hok Hlt) as [Hid Hnew]. pose proof Hok as [Hseq Hids Hrun Hnext Hopen].
  unfold coalesced_query. destruct (next fs) as [n|] eqn:En; [done|]. unfold query_flight.
  destruct (running fs) as [r|] eqn:Er; cbn [snd flight_seq running next futures]; rewrite Hid;
    (split; cbn [flight_seq running next futures]; [lia| | | |]).
  - intros id [f [[<- _]|[_ Hf]]%lookup_insert_Some]; [lia|]. destruct (Hids id); [by rewrite Hf|lia].
  - intros id [= <-]. destruct (Hrun r eq_refl) as (f & Hf & Hs & Ha). exists f. split_and!; [|done|].
    + rewrite lookup_insert_ne; [done|congruence].
    + eapply is_none_or_mono; [|done]. intros x. by apply finished_fresh.
  - intros id [= <-]. exists r. destruct (Hrun r eq_refl) as (f & Hf & _). split_and!; [done|congruence|by rewrite lookup_insert_eq].
  - intros id f [[<- _]|[_ Hf]]%lookup_insert_Some Hs; [by right|]. left. destruct (Hopen id f Hf Hs); congruence.
  - intros id [f [[<- _]|[_ Hf]]%lookup_insert_Some]; [lia|]. destruct (Hids id); [by rewrite Hf|lia].
  - intros id [= <-]. eexists. rewrite lookup_insert_eq. by split_and!.
  - by rewrite En.
  - intros id f [[<- _]|[_ Hf]]%lookup_insert_Some Hs; [by left|]. destruct (Hopen id f Hf Hs); congruence.
Qed.

Lemma start_ok fs id f :
  flights_ok fs → futures fs !! id = Some f → flight_status f = Waiting → is_none_or (flight_after f) (finished fs) = true →
  flights_ok (mkFlights (flight_seq fs) (running fs) (next fs) (set_status fs id f Computing)).
Proof.
  intros [Hseq Hids Hrun Hnext Hopen] Hf Hs Ha. split; cbn [flight_seq running next futures]; [done| | | |]; unfold set_status.
  - intros x [g [[<- _]|[_ Hg]]%lookup_insert_Some]; apply Hids; [by rewrite Hf|by rewrite Hg].
  - intros x Hx. destruct (Hrun x Hx) as (g & Hg & Hsg & Hag).
    assert (is_none_or (flight_after g) (finished (mkFlights (flight_seq fs) (running fs) (next fs) (set_status fs id f Computing))) = true) as Hag'.
    { eapply is_none_or_mono; [|done]. intros y. apply finished_insert; [done|by rewrite Hs]. }
    destruct (decide (x = id)) as [->|Hne].
    + rewrite Hf in Hg. injection Hg as <-. eexists. rewrite lookup_insert_eq. by split_and!.
    + exists g. by rewrite lookup_insert_ne.
  - intros x Hx. destruct (Hnext x Hx) as (r & Hr & Hne & Hg). exists r. split_and!; [done|done|].
    rewrite lookup_insert_ne; [done|]. intros ->. rewrite Hf in Hg. injection Hg as ->. cbn in Ha.
    destruct (Hrun r Hr) as (g & Hgr & Hsr & _). unfold finished in Ha. rewrite Hgr in Ha. cbn in Ha. by apply bool_decide_eq_true in Ha.
  - intros x g [[<- _]|[_ Hg]]%lookup_insert_Some Hsg; [|by eapply Hopen]. eapply Hopen; [done|by rewrite Hs].
Qed.

(** A computing flight is the running one. *)
Lemma computing_is_running fs id f :
  flights_ok fs → futures fs !! id = Some f → flight_status f = Computing → running fs = Some id.
Proof.
  intros Hok Hf Hs. destruct (flights_open _ Hok id f Hf) as [|Hn]; [by rewrite Hs|done|].
  destruct (flights_next _ Hok id Hn) as (r & _ & _ & Hg). rewrite Hf in Hg. injection Hg as ->. done.
Qed.

Lemma finish_ok fs id f :
  flights_ok fs → futures fs !! id = Some f → flight_status f = Computing →
  flights_ok (mkFlights (flight_seq fs) (next fs) None (set_status fs id f Finished)).
Proof.
  intros Hok Hf Hs. pose proof (computing_is_running fs id f Hok Hf Hs) as Hr. pose proof Hok as [Hseq Hids Hrun Hnext Hopen].
  split; cbn [flight_seq running next futures]; [done| | |done|]; unfold set_status.
  - intros x [g [[<- _]|[_ Hg]]%lookup_insert_Some]; apply Hids; [by rewrite Hf|by rewrite Hg].
  - intros x Hx. destruct (Hnext x Hx) as (r & Hr' & Hne & Hg). assert (r = id) as -> by congruence.
    eexists. rewrite lookup_insert_ne by done. split_and!; [done|done|]. cbn. unfold finished. cbn. by rewrite lookup_insert_eq.
  - intros x g [[<- <-]|[Hne Hg]]%lookup_insert_Some Hsg; [done|]. destruct (Hopen x g Hg Hsg) as [Hx|Hx]; [congruence|by left].
Qed.

Lemma flight_step_ok fs fs' : flight_step fs fs' → flight_seq fs < U64_MAX → flights_ok fs → flights_ok fs'.
Proof.
  intros [? | ? id f Hf Hs Ha | ? id f Hf Hs] Hlt Hok.
  - by apply arrive_ok.
  - by apply start_ok.
  - cbv zeta. rewrite (bool_decide_true _ (computing_is_running _ _ _ Hok Hf Hs)). cbn [flight_seq futures]. by apply finish_ok.
Qed.

(** Executions in which the counter has not wrapped. *)
Inductive flight_run : TopologyQueryFlights → Prop :=
| run_none : flight_run no_flights
| run_more fs fs' : flight_run fs → flight_step fs fs' → flight_seq fs < U64_MAX → flight_run fs'.

Lemma flight_run_ok fs : flight_run fs → flights_ok fs.
Proof. induction 1; [apply no_flights_ok|by eapply flight_step_ok]. Qed.

Definition open_flights (fs : TopologyQueryFlights) : list Z :=
  (filter (λ p : Z * Flight, flight_status p.2 ≠ Finished) (map_to_list (futures fs))).*1.

(** C27: readers share computations without reading the past.  In every interleaving of
    arriving readers with computations that start and end, for as long as the flight
    counter has not wrapped: a reader that arrives joins a computation that has not
    started yet, so its snapshot is never older than its call; at most one computation
    runs at a time; and at most two are open however many readers there are. *)
Theorem shared_reads_are_fresh fs :
  flight_run fs →
  (flight_seq fs < U64_MAX → flight_status <$> futures (coalesced_query fs).2 !! (coalesced_query fs).1 = Some Waiting) ∧
  (∀ id id' f f', futures fs !! id = Some f → futures fs !! id' = Some f' →
     flight_status f = Computing → flight_status f' = Computing → id = id') ∧
  (length (open_flights fs) ≤ 2)%nat.
Proof.
  intros Hrun%flight_run_ok. split_and!.
  - intros Hlt. destruct (fresh_id fs Hrun Hlt) as [Hid _]. unfold coalesced_query, query_flight. destruct (next fs) as [n|] eqn:En.
    + destruct (flights_next _ Hrun n En) as (r & _ & _ & Hf). cbn. by rewrite Hf.
    + destruct (running fs); cbn; by rewrite lookup_insert_eq.
  - intros id id' f f' Hf Hf' Hs Hs'. 
    pose proof (computing_is_running fs id f Hrun Hf Hs). pose proof (computing_is_running fs id' f' Hrun Hf' Hs'). congruence.
  - assert (NoDup (open_flights fs)) as Hnd.
    { unfold open_flights. apply (sublist_NoDup _ (map_to_list (futures fs)).*1); [apply NoDup_fst_map_to_list|].
      apply fmap_sublist, sublist_filter. }
    set (slots := option_list (running fs) ++ option_list (next fs)).
    transitivity (length slots); [|unfold slots; rewrite length_app; destruct (running fs), (next fs); simpl; lia].
    apply submseteq_length, NoDup_submseteq; [done|]. intros id ([id' f] & -> & [Hs Hin]%list_elem_of_filter)%list_elem_of_fmap.
    cbn in *. apply elem_of_map_to_list in Hin. unfold slots. rewrite elem_of_app.
    destruct (flights_open _ Hrun id' f Hin Hs) as [->| ->]; cbn; set_solver.
Qed.
