(* ===== verification/TopologyExamples.v ===== *)
(** * Topology control: concrete runs

    A mob of three members over a file system that never fails: the inputs at which
    the theorems are applied, and the corner cases of recovery. *)

From S2P Require Import Prelude Strings MemoryRecords MemberIds TopologyTypes TopologyState TopologyWorld EdgeReconcile TopologyController TopologyLogic TopologyApply TopologyTheorems TopologyReplay TopologyEdges EdgeReconcileTheorems TopologyFlights.
Open Scope Z_scope.

Module TopologyWitnesses.

Definition member (name : string) (peers : list string) : MobMember := mkMobMember name "worker" peers ∅.
Definition roster : list MobMember := [member "ada" []; member "bo" ["cy"]; member "cy" ["bo"]].

(** Wiring [cy] and [ada] fails; every other call succeeds. *)
Definition wire_batch (edges : list (string * string)) : Result WireReport string :=
  if existsb (λ e, e =b ("ada", "cy")) edges then Err "peer unreachable" else Ok (mkWireReport edges []).

#[export] Instance toy_env : TopologyEnv := {|
  env_clock := λ n, fmt_dec (Z.of_nat n);
  env_uuid_v5 := λ s, s;
  env_sha := λ s, (λ c, Z.of_N (N_of_ascii c)) <$> String.list_ascii_of_string s;
  env_request_json := λ r, Ok (idempotency_key r +:+ fmt_dec (op_count (operations r)));
  env_debug := λ s, s;
  uuid_v4 := λ n, fmt_dec (Z.of_nat n);
  persist_outcome := λ _ _, PersistOk;
  list_members_including_retiring := λ _, roster;
  discover_edges := λ _ _, [("bo", "cy")];
  get_member := λ _ id, Ok (find_first (λ m, mob_identity m =b id) roster);
  wire_members_batch := λ _ edges, wire_batch edges;
  unwire_members := λ _ _ _, Ok tt |}.

(** The identity runtime has the same topology. *)
#[export] Instance toy_identity : IdentityTopology := {|
  topology_snapshot_inputs := λ _, Ok ([mkRosterSpec "ada" "worker" ∅; mkRosterSpec "bo" "worker" ∅], []);
  logical_peer_edges := λ _, Ok [];
  logical_peer_edges_any_half := λ _, Ok [];
  managed_peer_edges_snapshot := λ _, ∅;
  reconcile_managed_peer_edges_admitted := λ _ _, Ok tt;
  mutate_managed_peer_edge_admitted := λ _ _ _, Ok tt;
  identity_edge_ownership := WiredByThisProcess;
  definition_declared_identity_edges := λ _, ∅;
  pending_recovery_is_physically_complete := λ _ _ _, Ok true |}.

Definition mob : TopologyRuntimeHandle := mkTopologyHandle "home" true false.
Definition editable : TopologyControlPolicy := mkTopologyPolicy ModeEditable true 8 false 2 4.
Definition opened : TopologyWorld := (load_or_default editable (Ok tt) (Ok None) fresh_world).2.

Definition edge (a b : string) : TopologyEdge := mkEdge (endpoint_local a) (endpoint_local b).
Definition request (key : string) (rev : Z) (ops : list TopologyMutation) : TopologyApplyRequest := mkApplyRequest rev key ops None None.
Definition connect_ada_bo : TopologyApplyRequest := request " k1 " 0 [mkMutation Connect (edge "bo" "ada")].
Definition connect_both : TopologyApplyRequest :=
  request "k2" 0 [mkMutation Disconnect (edge "bo" "cy"); mkMutation Connect (edge "ada" "cy")].

Definition applied : TopologyWorld := (apply mob connect_ada_bo "ops" opened).2.
Definition apply_call (r : TopologyApplyRequest) : TopologyCall := CallApply r None "ops".
Definition effects_of (r : TopologyApplyRequest) : list TopologyEvent := effects (apply_as mob r None "ops") opened.
Definition cut (k : nat) (r : TopologyApplyRequest) : TopologyWorld :=
  cut_after k (effects (run_topology_call mob (apply_call r)) opened) ∅ 40 opened.
Definition interrupted : TopologyWorld := cut 5 connect_ada_bo.
Definition recovered : TopologyWorld := (recover_pending_unlocked mob interrupted).2.

Lemma opened_step : topology_step mob fresh_world opened.
Proof. apply step_restart. by vm_compute. Qed.
Lemma opened_ok : world_ok opened.
Proof. exact (step_world_ok mob _ _ opened_step fresh_world_ok). Qed.
Lemma apply_step r w : topology_step mob w (apply mob r "ops" w).2.
Proof.
  assert ((apply mob r "ops" w).2 = (run_topology_call mob (apply_call r) w).2) as ->; [|by apply step_call].
  cbn [run_topology_call apply_call]. unfold done, mbind, m_bind, apply. by destruct (apply_as _ _ _ _ _) as [[] ?].
Qed.
Lemma applied_ok : world_ok applied.
Proof. exact (step_world_ok mob _ _ (apply_step connect_ada_bo opened) opened_ok). Qed.
Lemma interrupted_ok : world_ok interrupted.
Proof. exact (step_world_ok mob _ _ (step_cut mob (apply_call connect_ada_bo) opened 5 ∅ 40 I) opened_ok). Qed.

(** ** Corner cases *)

Definition outcome_of (w : TopologyWorld) : list (TopologyOperationStatus * list (TopologyEdgeResultStatus * bool * bool)) :=
  (λ r, (receipt_status r, (λ e, (result_status e, result_actual_before e, result_actual_after e)) <$> receipt_results r))
    <$> receipts (tw_mem w).

(** A failed batch is undone before it is answered: the disconnected edge is wired
    again, and its row says so. *)
Example failed_batch_is_undone :
  outcome_of (apply mob connect_both "ops" opened).2 =
  [(OpRolledBack, [(EdgeRolledBack, true, true); (EdgeFailed, false, false)])].
Proof. vm_compute. reflexivity. Qed.
(** The same request cut short and rolled back by the recovery instead: the declared
    edge between [bo] and [cy] is wired and the other is not, but the receipt reports
    the first as absent and the second as present. *)
Example recovered_receipt_misreports_edges :
  (recover_pending_unlocked mob (cut 6 connect_both)).1 = Ok tt ∧
  outcome_of (recover_pending_unlocked mob (cut 6 connect_both)).2 =
  [(OpRolledBack, [(EdgeRolledBack, false, false); (EdgeRolledBack, false, true)])].
Proof. vm_compute. split; reflexivity. Qed.

(** The last persist of an apply renames the file and then fails to sync the directory. *)
Definition unsynced_env : TopologyEnv := {|
  env_clock := env_clock; env_uuid_v5 := env_uuid_v5; env_sha := env_sha; env_request_json := env_request_json;
  env_debug := env_debug; uuid_v4 := uuid_v4;
  persist_outcome := λ _ st, if existsb (λ r, receipt_status r =b OpApplied) (receipts st) then PersistFailed true "sync" else PersistOk;
  list_members_including_retiring := list_members_including_retiring; discover_edges := discover_edges;
  get_member := get_member; wire_members_batch := wire_members_batch; unwire_members := unwire_members |}.
Definition unsynced : Result TopologyOperationReceipt TopologyControlError * TopologyWorld :=
  @apply unsynced_env toy_identity mob connect_ada_bo "ops" opened.
(** The caller is told of the failure and the journal stays open in memory, but the
    file already holds the commit: a restart serves the edge, a recovery in this
    process removes it. *)
Example unsynced_commit_diverges :
  unsynced.1 = Err (Persistence "sync") ∧ pending_operation_id (tw_mem unsynced.2) = Some "meta-topology:k1:6b3131" ∧
  (elements ∘ additions <$> tw_disk unsynced.2) = Some [("ada", "bo")] ∧ (has_pending <$> tw_disk unsynced.2) = Some false ∧
  elements (additions (tw_mem (recover_pending_unlocked mob unsynced.2).2)) = [].
Proof. split_and!; vm_compute; reflexivity. Qed.

(** ** Applications of the theorems *)

Lemma topology_states_wellformed_witness : state_ok (tw_mem applied) ∧ elements (additions (tw_mem applied)) = [("ada", "bo")].
Proof.
  split; [|vm_compute; reflexivity]. refine (proj1 (topology_states_wellformed mob applied _)).
  eapply rtc_l; [exact opened_step|]. apply rtc_once. exact (apply_step connect_ada_bo opened).
Defined.

Definition normalized_ops : list TopologyMutation := [mkMutation Connect (mkEdge (mkEndpoint (Some "home") "ada") (mkEndpoint (Some "home") "bo"))].

Lemma apply_is_atomic_witness :
  committed_revision (committed_intent (tw_mem applied)) = 1 ∧
  ∃ receipt, (apply_as mob connect_ada_bo None "ops" opened).1 = Ok receipt ∧
    committed_by "k1" "home" normalized_ops (committed_intent (tw_mem opened)) (tw_mem applied) receipt ∧
    tw_disk applied = Some (tw_mem applied).
Proof.
  split; [vm_compute; reflexivity|].
  destruct (apply_is_atomic mob connect_ada_bo None "ops" normalized_ops opened opened_ok eq_refl) 
    as [_ [[Hsame _]|(receipt & [Hok|(message & st & _ & Hsame & _)])]].
  - vm_compute. reflexivity.
  - exfalso. apply (f_equal committed_revision) in Hsame. vm_compute in Hsame. discriminate.
  - exists receipt. exact Hok.
  - exfalso. apply (f_equal committed_revision) in Hsame. vm_compute in Hsame. discriminate.
Defined.

Lemma journal_precedes_actuation_witness :
  ∃ ev, effects_of connect_ada_bo !! 4%nat = Some ev ∧ is_state_event ev = false ∧
    journaled "k1" "home" (foldl replay_disk (tw_disk opened) (take 4 (effects_of connect_ada_bo))) ev.
Proof.
  eexists. split_and!; [vm_compute; reflexivity|reflexivity|].
  refine (journal_precedes_actuation mob connect_ada_bo None "ops" normalized_ops opened
            (take 4 (effects_of connect_ada_bo)) _ (drop 5 (effects_of connect_ada_bo)) opened_ok eq_refl _ _ _).
  - vm_compute. reflexivity.
  - vm_compute. reflexivity.
  - reflexivity.
Defined.

Lemma only_apply_moves_intent_witness :
  committed_intent (tw_mem (run_topology_call mob CallReconcile interrupted).2) = committed_intent (tw_mem interrupted) ∧
  ∃ w', load_or_default editable (Ok tt) (Ok (tw_disk applied)) applied = (Ok tt, w') ∧
    committed_intent (tw_mem w') = committed_intent (unwrap_or (tw_disk applied) default_intent).
Proof.
  split.
  - refine (proj1 (only_apply_moves_intent mob interrupted interrupted_ok) CallReconcile _ eq_refl _).
    right. apply (list_elem_of_lookup_2 _ (length (effects (run_topology_call mob CallReconcile) interrupted) - 1)).
    vm_compute. reflexivity.
  - eexists. split; [vm_compute; reflexivity|].
    apply (proj2 (only_apply_moves_intent mob applied applied_ok) editable (Ok tt)); [by vm_compute|vm_compute; reflexivity].
Defined.

Lemma recovery_restores_intent_witness :
  elements (additions (tw_mem interrupted)) = [("ada", "bo")] ∧ current_intent (tw_mem recovered) = committed_intent (tw_mem interrupted).
Proof.
  split; [vm_compute; reflexivity|].
  refine (proj1 (proj2 (recovery_restores_intent mob interrupted recovered "meta-topology:k1:6b3131" interrupted_ok _ _)));
    vm_compute; reflexivity.
Defined.

Lemma repeated_key_is_replayed_witness :
  (∃ receipt, (apply_as mob connect_ada_bo None "ops" applied).1 = Ok receipt) ∧
  Forall (λ e, records_only (tw_mem applied) None e) (effects (apply_as mob connect_ada_bo None "ops") applied).
Proof.
  split; [vm_compute; eauto|].
  refine (proj2 (repeated_key_is_replayed mob connect_ada_bo None "ops" normalized_ops
                   (mkIdempotency "6b3131" "meta-topology:k1:6b3131") "6b3131" applied applied_ok _ _ _)); vm_compute; reflexivity.
Defined.

Lemma audit_pages_complete_witness :
  let rs := operation_records (tw_mem (apply mob connect_ada_bo "ops" applied).2) in
  length rs = 2%nat ∧ read_pages 3 rs 2 None 1 = Some rs.
Proof.
  intros rs. split; [vm_compute; reflexivity|]. apply (audit_pages_complete rs 2 1); [|vm_compute; reflexivity].
  exact (ok_audit _ (world_mem _ (step_world_ok mob _ _ (apply_step connect_ada_bo applied) applied_ok))).
Defined.

(** The edge is declared and suppressed; the batch reconnects it. *)
Definition suppressed_intent : TopologyIntentState := with_intent default_intent (mkCommitted 3 ∅ {[("ada", "bo")]} ∅ ∅).
Definition reconnect_ops : list TopologyMutation := [mkMutation Reconnect (local_edge "home" ("ada", "bo"))].
Definition empty_snapshot : TopologySnapshot := mkSnapshot "home" 3 editable [] [].
Lemma applied_batch_is_desired_witness :
  ∃ st', apply_plan_intent (list_to_set [("ada", "bo")]) "home" (planned_operations (plan_from_snapshot empty_snapshot reconnect_ops))
           suppressed_intent = Ok st' ∧
    compose_declared suppressed_intent [("ada", "bo")] = [] ∧ ("ada", "bo") ∈ compose_declared st' [("ada", "bo")].
Proof.
  eexists. split_and!; [reflexivity|vm_compute; reflexivity|].
  refine (proj2 (proj1 (applied_batch_is_desired [mkMutation Reconnect (edge "bo" "ada")] "home" editable reconnect_ops empty_snapshot
            [("ada", "bo")] suppressed_intent _ ("ada", "bo") _ _ _ eq_refl) (mkMutation Reconnect (local_edge "home" ("ada", "bo"))) _ _) _).
  - vm_compute. reflexivity.
  - vm_compute. reflexivity.
  - set_solver.
  - left.
  - reflexivity.
  - discriminate.
Defined.

(** [ada] and [bo] are wired and managed, [bo] and [cy] are wanted. *)
Definition drifted : list MobMember := [member "ada" ["bo"]; member "bo" ["ada"]; member "cy" []].
Definition converge : TM (UnifiedRuntimeReconcileEdgesReport * gset (string * string)) :=
  reconcile_edges_over_members (Some discover_edges) {[("ada", "bo")]} true drifted.

Lemma toy_reports_honest : honest_reports.
Proof.
  intros n edges report p. cbn. unfold wire_batch. destruct (existsb _ edges); [done|]. intros [= <-]. cbn. by rewrite app_nil_r.
Qed.

Lemma complete_reconcile_converges_witness :
  let after g := foldl graph_event g (effects converge opened) in
  ("bo", "cy") ∈ after (reciprocal_wiring drifted) ∧ ("ada", "bo") ∉ after (current_wiring drifted).
Proof.
  intros after.
  assert (match (converge opened).1 with Ok r => is_complete r.1 && (desired_edges r.1 =b [("bo", "cy")]) | Err _ => false end = true)
    as Hrun by (vm_compute; reflexivity).
  destruct (converge opened) as [[[report managed']|e] w'] eqn:E; cbn [fst] in Hrun.
  - apply andb_true_iff in Hrun as [Hc Hd%bool_decide_eq_true].
    unfold converge in E.
    destruct (complete_reconcile_converges _ _ _ _ _ _ _ _ toy_reports_honest E Hc) as (H1 & H2 & _); rewrite Hd in *.
    + intros e [->%list_elem_of_singleton| ->%elem_of_singleton]; (split; [|split; vm_compute; reflexivity]).
      * apply (proj1 (peer_edge_new_canonical "bo" "cy" ("bo", "cy") eq_refl)).
      * apply (proj1 (peer_edge_new_canonical "ada" "bo" ("ada", "bo") eq_refl)).
    + split; [|].
      { apply H1; [by left|]. intros [Hhalf _]. vm_compute in Hhalf. discriminate Hhalf. }
      apply H2; [set_solver|by intros ?%list_elem_of_singleton|vm_compute; reflexivity].
  - discriminate.
Defined.

(** Only [bo] lists [cy]: the wanted edge counts as wired already, the report is complete, and nothing is called. *)
Definition one_sided : list MobMember := [member "ada" []; member "bo" ["cy"]; member "cy" []].
Definition leave_half : TM (UnifiedRuntimeReconcileEdgesReport * gset (string * string)) :=
  reconcile_edges_over_members (Some discover_edges) ∅ true one_sided.
Example half_wired_edge_is_not_healed :
  (match (leave_half opened).1 with Ok r => Some (is_complete r.1, preexisting_edges r.1) | Err _ => None end) =
    Some (true, [("bo", "cy")]) ∧
  effects leave_half opened = [] ∧ elements (reciprocal_wiring one_sided) = [].
Proof. split_and!; vm_compute; reflexivity. Qed.

(** A reader that arrives while a computation runs is queued behind it. *)
Definition overlapping : TopologyQueryFlights :=
  (coalesced_query (mkFlights 1 (Some 1) None {[1 := mkFlight None Computing]})).2.
Lemma shared_reads_are_fresh_witness : (length (open_flights overlapping) ≤ 2)%nat ∧ length (open_flights overlapping) = 2%nat.
Proof.
  split; [|vm_compute; reflexivity]. refine (proj2 (proj2 (shared_reads_are_fresh overlapping _))).
  eapply run_more; [|apply flight_arrive|vm_compute; reflexivity].
  refine (run_more (coalesced_query no_flights).2 _ _ _ _).
  - eapply run_more; [apply run_none|apply flight_arrive|vm_compute; reflexivity].
  - exact (flight_start (coalesced_query no_flights).2 1 (mkFlight None Waiting) eq_refl eq_refl eq_refl).
  - vm_compute. reflexivity.
Defined.
End TopologyWitnesses.
