(* ===== verification/BilateralState.v ===== *)
(** * Bilateral topology: data and pure functions ([topology_control/coordinator.rs])

    Edges between two authorities of one process are kept as one decision in three
    files: the coordinator's journal and the durable intent of each authority.  Here
    are the journal's data, the validation, the plan, and the merge that recovery
    applies.  A map that the source builds with exactly the two authorities as keys is
    the list of its entries in key order. *)

From S2P Require Import Prelude Strings AccessModel AccessEngine AccessController ContinuityTypes MemoryRecords MemberIds TopologyTypes TopologyState.
Open Scope Z_scope.

Definition COORDINATOR_SCHEMA_VERSION : Z := 1.

Record LivePairOwner := mkOwner { owner_coordinator_id : string; owner_path : string }.
#[global] Instance LivePairOwner_eq_dec : EqDecision LivePairOwner.
Proof. solve_decision. Defined.

Record TopologyBilateralPlanRequest := mkBiPlanRequest {
  bplan_expected_revisions : gmap string Z;
  bplan_request_operations : list TopologyMutation;
}.
Record TopologyBilateralApplyRequest := mkBiRequest {
  breq_expected_revisions : gmap string Z;
  breq_key : string;
  breq_operations : list TopologyMutation;
  breq_reason : option string;
  breq_risk_tier : option string;
}.
Record TopologyBilateralSnapshot := mkBiSnapshot {
  bsnap_authorities : list string;
  bsnap_revisions : gmap string Z;
  bsnap_policies : gmap string TopologyControlPolicy;
  bsnap_nodes : list TopologyNodeSnapshot;
  bsnap_edges : list TopologyEdgeSnapshot;
}.
Record TopologyBilateralPlan := mkBiPlan {
  bplan_revisions : gmap string Z;
  bplan_operations : list TopologyPlannedEdge;
}.

Inductive CoordinatorDecision := DecApplying | DecRollingBack | DecCommitted.
#[global] Instance CoordinatorDecision_eq_dec : EqDecision CoordinatorDecision.
Proof. solve_decision. Defined.

Record CrossIntentMembership := mkMembership { added : bool; suppressed_too : bool }.
#[global] Instance CrossIntentMembership_eq_dec : EqDecision CrossIntentMembership.
Proof. solve_decision. Defined.

Record BilateralIntentDelta := mkDelta {
  delta_edge : TopologyEdge;
  delta_before : gmap string CrossIntentMembership;
  delta_after : gmap string CrossIntentMembership;
}.
#[global] Instance BilateralIntentDelta_eq_dec : EqDecision BilateralIntentDelta.
Proof. solve_decision. Defined.

Record BilateralPhysicalBefore := mkPhysical { phys_edge : TopologyEdge; left_half : bool; right_half : bool }.
#[global] Instance BilateralPhysicalBefore_eq_dec : EqDecision BilateralPhysicalBefore.
Proof. solve_decision. Defined.

Record PendingBilateralOperation := mkBiPending {
  bp_operation_id : string;
  bp_audit_record_id : string;
  bp_key : string;
  bp_fingerprint : string;
  bp_actor : string;
  bp_created_at : string;
  bp_reason : option string;
  bp_operations : list TopologyMutation;
  bp_decision : CoordinatorDecision;
  bp_revisions_before : gmap string Z;
  bp_revisions_after : gmap string Z;
  bp_deltas : list BilateralIntentDelta;
  bp_physical_before : list BilateralPhysicalBefore;
  bp_last_recovery_error : option string;
  bp_recovery_attempts : Z;
}.
#[global] Instance PendingBilateralOperation_eq_dec : EqDecision PendingBilateralOperation.
Proof. solve_decision. Defined.

Record BilateralCoordinatorState := mkCoordinator {
  bc_schema_version : Z;
  bc_coordinator_id : string;
  bc_authorities : list string;
  bc_receipts : list TopologyOperationReceipt;
  bc_operation_records : list TopologyOperationRecord;
  bc_last_operation_record_seq : Z;
  bc_idempotency : gmap string IdempotencyRecord;
  bc_compacted_idempotency : list string;
  bc_pending : option PendingBilateralOperation;
}.
Definition default_coordinator : BilateralCoordinatorState := mkCoordinator 0 "" [] [] [] 0 ∅ [] None.

(** ** Setters *)

Definition bc_with_records (st : BilateralCoordinatorState) rs last : BilateralCoordinatorState :=
  mkCoordinator (bc_schema_version st) (bc_coordinator_id st) (bc_authorities st) (bc_receipts st) rs last (bc_idempotency st)
    (bc_compacted_idempotency st) (bc_pending st).
Definition bc_with_pending (st : BilateralCoordinatorState) p : BilateralCoordinatorState :=
  mkCoordinator (bc_schema_version st) (bc_coordinator_id st) (bc_authorities st) (bc_receipts st) (bc_operation_records st)
    (bc_last_operation_record_seq st) (bc_idempotency st) (bc_compacted_idempotency st) p.
Definition bc_with_receipts (st : BilateralCoordinatorState) rs idem compacted : BilateralCoordinatorState :=
  mkCoordinator (bc_schema_version st) (bc_coordinator_id st) (bc_authorities st) rs (bc_operation_records st)
    (bc_last_operation_record_seq st) idem compacted (bc_pending st).
Definition bc_with_identity (st : BilateralCoordinatorState) version id authorities : BilateralCoordinatorState :=
  mkCoordinator version id authorities (bc_receipts st) (bc_operation_records st) (bc_last_operation_record_seq st)
    (bc_idempotency st) (bc_compacted_idempotency st) (bc_pending st).
Definition bp_with_decision (p : PendingBilateralOperation) d : PendingBilateralOperation :=
  mkBiPending (bp_operation_id p) (bp_audit_record_id p) (bp_key p) (bp_fingerprint p) (bp_actor p) (bp_created_at p)
    (bp_reason p) (bp_operations p) d (bp_revisions_before p) (bp_revisions_after p) (bp_deltas p) (bp_physical_before p)
    (bp_last_recovery_error p) (bp_recovery_attempts p).
Definition bp_recovery_failed (p : PendingBilateralOperation) (detail : string) : PendingBilateralOperation :=
  mkBiPending (bp_operation_id p) (bp_audit_record_id p) (bp_key p) (bp_fingerprint p) (bp_actor p) (bp_created_at p)
    (bp_reason p) (bp_operations p) (bp_decision p) (bp_revisions_before p) (bp_revisions_after p) (bp_deltas p) (bp_physical_before p)
    (Some detail) (u64_saturating_add (bp_recovery_attempts p) 1).
Definition breq_with_key (r : TopologyBilateralApplyRequest) key : TopologyBilateralApplyRequest :=
  mkBiRequest (breq_expected_revisions r) key (breq_operations r) (breq_reason r) (breq_risk_tier r).
Definition breq_with_operations (r : TopologyBilateralApplyRequest) ops : TopologyBilateralApplyRequest :=
  mkBiRequest (breq_expected_revisions r) (breq_key r) ops (breq_reason r) (breq_risk_tier r).

(** A decision written into the journal, if it is open. *)
Definition bc_decide (st : BilateralCoordinatorState) (d : CoordinatorDecision) : BilateralCoordinatorState :=
  bc_with_pending st ((λ p, bp_with_decision p d) <$> bc_pending st).

(** ** The pair *)

Definition authority_pair_key (authorities : list string) : string :=
  String.concat "|" ((λ a, fmt_dec (Z.of_nat (str_len a)) +:+ ":" +:+ a) <$> authorities).

(** [canonical_runtimes]: the two in the order of their authorities *)
Definition canonical_runtimes {R} (mob_id : R → string) (left right : R) : Result (R * R) TopologyControlError :=
  if mob_id left =b mob_id right
  then Err (AuthorityMismatch "bilateral coordinator requires two distinct authorities")
  else if bool_decide (String.le (mob_id left) (mob_id right)) then Ok (left, right) else Ok (right, left).

Definition edge_belongs_to_pair (f s : string) (e : TopologyEdge) : bool :=
  bool_decide ({[unwrap_or (ep_authority (edge_a e)) ""; unwrap_or (ep_authority (edge_b e)) ""]} =@{gset string} {[f; s]}).

Definition debug_option `{DebugText} (o : option string) : string :=
  match o with Some s => "Some(" +:+ debug_quote s +:+ ")" | None => "None" end.
Definition debug_list `{DebugText} (l : list string) : string := "[" +:+ String.concat ", " (debug_quote <$> l) +:+ "]".

Definition endpoints_for_pair `{DebugText} (f s : string) (e : TopologyEdge)
    : Result (TopologyEndpoint * TopologyEndpoint) TopologyControlError :=
  if (ep_authority (edge_a e) =b Some f) && (ep_authority (edge_b e) =b Some s) then Ok (edge_a e, edge_b e)
  else if (ep_authority (edge_b e) =b Some f) && (ep_authority (edge_a e) =b Some s) then Ok (edge_b e, edge_a e)
  else Err (AuthorityMismatch ("edge " +:+ debug_option (ep_authority (edge_a e)) +:+ " <-> " +:+
              debug_option (ep_authority (edge_b e)) +:+ " does not belong to " +:+ f +:+ " <-> " +:+ s)).

Section normalize.
Context `{DebugText} (f s : string).

Definition normalize_bilateral_endpoint (e : TopologyEndpoint) : Result TopologyEndpoint TopologyControlError :=
  match ep_authority e with
  | None => Err (InvalidRequest "bilateral endpoints require an explicit authority")
  | Some authority =>
      if negb ((authority =b f) || (authority =b s)) then Err (AuthorityMismatch authority)
      else
        identity ←? map_err (λ error, InvalidRequest (invalid_identity_display error)) (parse_identity (trim (ep_identity e)));
        Ok (mkEndpoint (Some authority) identity)
  end.
Definition normalize_bilateral_operations (ops : list TopologyMutation) : Result (list TopologyMutation) TopologyControlError :=
  traverse (λ op,
    a ←? normalize_bilateral_endpoint (edge_a (mut_edge op));
    b ←? normalize_bilateral_endpoint (edge_b (mut_edge op));
    edge ←? edge_new a b;
    if ep_authority (edge_a edge) =b ep_authority (edge_b edge)
    then Err (InvalidRequest "bilateral API accepts cross-authority edges only; use the authority-local API for same-mob edges")
    else Ok (mkMutation (mut_action op) edge)) ops.
End normalize.

(** One policy of [validate_pair_policies]; the pair is checked in order. *)
Definition validate_pair_policy (count : Z) (mutation : bool) (p : TopologyControlPolicy) : Result unit TopologyControlError :=
  if mode p =b ModeDisabled then Err FeatureDisabled
  else if mutation && negb (mode p =b ModeEditable) then Err ReadOnly
  else if negb (allow_cross_authority p) then Err CrossAuthorityDisabled
  else validate_batch p count.
Definition validate_pair_policies (first second : TopologyControlPolicy) (count : Z) (mutation : bool)
    : Result unit TopologyControlError :=
  _ ←? validate_pair_policy count mutation first;
  validate_pair_policy count mutation second.

(** ** Validation against the snapshot *)

Fixpoint check_revisions (expected : gmap string Z) (actual : list (string * Z)) : Result unit TopologyControlError :=
  match actual with
  | [] => Ok tt
  | (authority, actual) :: rest =>
      match expected !! authority with
      | None => Err (AuthorityMismatch ("expected revision missing for " +:+ authority))
      | Some wanted => if negb (wanted =? actual) then Err (RevisionConflict wanted actual) else check_revisions expected rest
      end
  end.
Definition validate_expected_revisions (snap : TopologyBilateralSnapshot) (expected : gmap string Z)
    : Result unit TopologyControlError :=
  if negb (size expected =? size (bsnap_revisions snap))%nat
  then Err (InvalidRequest "expected_revisions must name exactly both authorities")
  else check_revisions expected (btree_entries (bsnap_revisions snap)).

Definition validate_bilateral_known_endpoints (snap : TopologyBilateralSnapshot) (ops : list TopologyMutation)
    : Result unit TopologyControlError :=
  let known : gset TopologyEndpoint := list_to_set (node_endpoint <$> bsnap_nodes snap) in
  first_error (λ endpoint, if bool_decide (endpoint ∈ known) then None else Some (MemberNotFound (ep_identity endpoint)))
    (ops ≫= λ op, [edge_a (mut_edge op); edge_b (mut_edge op)]).

Definition validate_bilateral_reconnect_targets (snap : TopologyBilateralSnapshot) (ops : list TopologyMutation)
    : Result unit TopologyControlError :=
  let historical : gset TopologyEdge := list_to_set (snap_edge <$> bsnap_edges snap) in
  first_error (λ op,
    if bool_decide (mut_edge op ∈ historical) then None
    else match mut_action op with
         | Reconnect => Some (ReconnectTargetMissing (mut_edge op))
         | Disconnect => Some (DisconnectTargetMissing (mut_edge op))
         | Connect => None
         end) ops.

Definition validate_bilateral_connect_does_not_clear_suppression (snap : TopologyBilateralSnapshot) (ops : list TopologyMutation)
    : Result unit TopologyControlError :=
  let reconnect_required : gset TopologyEdge :=
    list_to_set (snap_edge <$> List.filter (λ e, suppressed e || (desired e && negb (actual e))) (bsnap_edges snap)) in
  first_error (λ op,
    if (mut_action op =b Connect) && bool_decide (mut_edge op ∈ reconnect_required)
    then Some (ReconnectRequired (mut_edge op)) else None) ops.

Definition plan_bilateral_operation (snap : TopologyBilateralSnapshot) (op : TopologyMutation) : TopologyPlannedEdge :=
  let before := find_first (λ e, snap_edge e =b mut_edge op) (rev (bsnap_edges snap)) in
  let actual_now := is_some_and before actual in
  let desired_now := is_some_and before desired in
  let wanted := negb (mut_action op =b Disconnect) in
  mkPlanned (mut_action op) (mut_edge op) actual_now desired_now wanted (is_some_and before declared)
    (is_some_and before operator_added) (is_some_and before suppressed)
    ((mut_action op =b Reconnect) || negb (Bool.eqb actual_now wanted)) (negb (Bool.eqb desired_now wanted)).
Definition plan_bilateral (snap : TopologyBilateralSnapshot) (ops : list TopologyMutation) : TopologyBilateralPlan :=
  mkBiPlan (bsnap_revisions snap) (plan_bilateral_operation snap <$> ops).

(** ** Access

    A view of one authority: the view of the principal and the attributes it resolves
    agents with. *)
Definition SideView : Type := AccessView * gmap string AgentResourceAttributes.
Definition view_enforced (v : SideView) : bool := enabled (view_config v.1).
Definition allows_agent (v : SideView) (action identity : string) : bool := is_allow (decide_agent v.1 v.2 action identity).

Definition view_allows (view : option SideView) (action identity : string) : bool :=
  is_none_or view (λ v, negb (view_enforced v) || allows_agent v action identity).
Definition endpoint_visible (view : option SideView) (endpoint : TopologyEndpoint) : bool :=
  is_none_or view (λ v,
    negb (view_enforced v) ||
    (can_view_agent v.1 v.2 (ep_identity endpoint) && allows_agent v ACTION_AGENT_VIEW (ep_identity endpoint)
     && allows_agent v ACTION_TOPOLOGY_VIEW (ep_identity endpoint))).

Definition edge_endpoints (e : TopologyEdge) : list TopologyEndpoint := [edge_a e; edge_b e].
Definition audit_visible (first second : option SideView) (endpoint : TopologyEndpoint) : bool :=
  endpoint_visible first endpoint && endpoint_visible second endpoint
  && view_allows first ACTION_TOPOLOGY_AUDIT (ep_identity endpoint) && view_allows second ACTION_TOPOLOGY_AUDIT (ep_identity endpoint).
Definition bilateral_attribution_allowed (first second : option SideView) (results : list TopologyEdgeResult) : bool :=
  forallb (λ r, forallb (audit_visible first second) (edge_endpoints (result_edge r))) results.

Definition clear_actor (r : TopologyOperationReceipt) : TopologyOperationReceipt :=
  mkTopologyReceipt (receipt_operation_id r) (receipt_key r) "" (receipt_status r) (receipt_base_revision r) (receipt_revision r)
    (receipt_created_at r) (receipt_reason r) (receipt_results r) (authority_revisions r).
Definition project_receipt (first second : option SideView) (r : TopologyOperationReceipt) : TopologyOperationReceipt :=
  if bilateral_attribution_allowed first second (receipt_results r) then r else clear_actor r.
Definition project_bilateral_result_attribution (first second : option SideView)
    (result : Result TopologyOperationReceipt TopologyControlError) : Result TopologyOperationReceipt TopologyControlError :=
  match result with
  | Ok receipt => Ok (project_receipt first second receipt)
  | Err (ApplyFailed message receipt) => Err (ApplyFailed message (project_receipt first second receipt))
  | Err error => Err error
  end.

(** [authorize_bilateral]: what one endpoint of one operation needs of one authority. *)
Definition authorize_endpoint (bulk : bool) (action : TopologyAction) (authority : string) (view : option SideView)
    (endpoint : TopologyEndpoint) : option TopologyControlError :=
  let denied a := TopologyAccessDenied authority a (ep_identity endpoint) in
  if negb (view_allows view (access_action action) (ep_identity endpoint)) then Some (denied (access_action action))
  else if negb (view_allows view ACTION_TOPOLOGY_CROSS_AUTHORITY (ep_identity endpoint))
  then Some (denied ACTION_TOPOLOGY_CROSS_AUTHORITY)
  else if bulk && negb (view_allows view ACTION_TOPOLOGY_BULK (ep_identity endpoint)) then Some (denied ACTION_TOPOLOGY_BULK)
  else None.
Definition authorize_bilateral (views : list (string * option SideView)) (ops : list TopologyMutation) : Result unit TopologyControlError :=
  let bulk := (1 <? length ops)%nat in
  first_error (λ '(op, (authority, view), endpoint), authorize_endpoint bulk (mut_action op) authority view endpoint)
    (op ← ops; view ← views; endpoint ← edge_endpoints (mut_edge op); [(op, view, endpoint)]).

(** ** Intent of the two authorities *)

(** The entries of [BTreeMap<String, TopologyIntentState>] in key order. *)
Definition ControllerStates : Type := list (string * TopologyIntentState).

Definition with_cross (st : TopologyIntentState) (adds supps : gset TopologyEdge) : TopologyIntentState :=
  with_intent st (mkCommitted (revision st) (additions st) (suppressions st) adds supps).
Definition with_revision (st : TopologyIntentState) (r : Z) : TopologyIntentState :=
  with_intent st (mkCommitted r (additions st) (suppressions st) (cross_additions st) (cross_suppressions st)).

Definition apply_cross_intent (op : TopologyMutation) (st : TopologyIntentState) : TopologyIntentState :=
  match mut_action op with
  | Connect | Reconnect => with_cross st ({[mut_edge op]} ∪ cross_additions st) (cross_suppressions st ∖ {[mut_edge op]})
  | Disconnect => with_cross st (cross_additions st ∖ {[mut_edge op]}) ({[mut_edge op]} ∪ cross_suppressions st)
  end.
Definition apply_cross_intents (ops : list TopologyMutation) (states : ControllerStates) : ControllerStates :=
  (λ '(authority, st), (authority, foldl (λ st op, apply_cross_intent op st) st ops)) <$> states.

Definition membership (st : TopologyIntentState) (e : TopologyEdge) : CrossIntentMembership :=
  mkMembership (bool_decide (e ∈ cross_additions st)) (bool_decide (e ∈ cross_suppressions st)).
Definition memberships (states : ControllerStates) (e : TopologyEdge) : gmap string CrossIntentMembership :=
  list_to_map ((λ '(authority, st), (authority, membership st e)) <$> states).
Definition intent_delta (before after : ControllerStates) (op : TopologyMutation) : BilateralIntentDelta :=
  mkDelta (mut_edge op) (memberships before (mut_edge op)) (memberships after (mut_edge op)).
Definition revisions_of (states : ControllerStates) : gmap string Z :=
  list_to_map ((λ '(authority, st), (authority, revision st)) <$> states).

Definition set_member (e : TopologyEdge) (present : bool) (edges : gset TopologyEdge) : gset TopologyEdge :=
  if present then {[e]} ∪ edges else edges ∖ {[e]}.
Definition merge_delta (m : CrossIntentMembership) (e : TopologyEdge) (st : TopologyIntentState) : TopologyIntentState :=
  with_cross st (set_member e (added m) (cross_additions st)) (set_member e (suppressed_too m) (cross_suppressions st)).
Definition delta_side (committed : bool) (d : BilateralIntentDelta) : gmap string CrossIntentMembership :=
  if committed then delta_after d else delta_before d.

Fixpoint merge_deltas (committed : bool) (authority : string) (deltas : list BilateralIntentDelta) (st : TopologyIntentState)
    (changed : bool) : Result (TopologyIntentState * bool) TopologyControlError :=
  match deltas with
  | [] => Ok (st, changed)
  | d :: rest =>
      match delta_side committed d !! authority with
      | None => Err (AuthorityMismatch ("bilateral journal has no intent delta for authority " +:+ authority))
      | Some m =>
          merge_deltas committed authority rest (merge_delta m (delta_edge d) st)
            (changed || negb (membership st (delta_edge d) =b m))
      end
  end.

Definition merge_state (p : PendingBilateralOperation) (committed : bool) (authority : string) (st : TopologyIntentState)
    : Result TopologyIntentState TopologyControlError :=
  merged ←? merge_deltas committed authority (bp_deltas p) st false;
  before ←? ok_or (bp_revisions_before p !! authority) (AuthorityMismatch authority);
  target ←? ok_or ((if committed then bp_revisions_after p else bp_revisions_before p) !! authority) (AuthorityMismatch authority);
  Ok (with_revision merged.1
        (if revision st =? before then target
         else if merged.2 : bool then u64_saturating_add (revision st) 1 else revision st)).
Definition merge_pending_intent (states : ControllerStates) (p : PendingBilateralOperation) (committed : bool)
    : Result ControllerStates TopologyControlError :=
  traverse (λ '(authority, st), st' ←? merge_state p committed authority st; Ok (authority, st')) states.

(** ** Receipts *)

Definition fold_min (l : list Z) : Z := match l with [] => 0 | x :: rest => foldl Z.min x rest end.
Definition fold_max (l : list Z) : Z := match l with [] => 0 | x :: rest => foldl Z.max x rest end.
Definition revision_transitions (before after : gmap string Z) : gmap string TopologyRevisionTransition :=
  map_imap (λ authority b, mkTransition b <$> after !! authority) before.

Definition pending_bilateral_receipt (p : PendingBilateralOperation) : TopologyOperationReceipt :=
  let degraded := is_some (bp_last_recovery_error p) in
  mkTopologyReceipt (bp_operation_id p) (bp_key p) (bp_actor p) (if degraded then OpPartialDegraded else OpPending)
    (fold_min (btree_values (bp_revisions_before p))) (fold_max (btree_values (bp_revisions_after p))) (bp_created_at p) (bp_reason p)
    ((λ op, mkEdgeResult (mut_action op) (mut_edge op) (if degraded then EdgeRollbackFailed else EdgePending) false false
              (bp_last_recovery_error p)) <$> bp_operations p)
    (revision_transitions (bp_revisions_before p) (bp_revisions_after p)).

Definition edge_status_of (status : TopologyOperationStatus) : TopologyEdgeResultStatus :=
  match status with
  | OpApplied => EdgeApplied
  | OpNoop => EdgeNoop
  | OpRolledBack => EdgeRolledBack
  | OpPartialDegraded => EdgeRollbackFailed
  | OpPending => EdgePending
  end.
Definition bilateral_receipt (operation_id key actor : string) (status : TopologyOperationStatus) (created_at : string)
    (reason : option string) (plan : TopologyBilateralPlan) (before after : gmap string Z) (error : option string)
    : TopologyOperationReceipt :=
  mkTopologyReceipt operation_id key actor status (fold_min (btree_values before)) (fold_max (btree_values after)) created_at reason
    ((λ o, mkEdgeResult (planned_action o) (planned_edge o) (edge_status_of status) (actual_before o)
             (match status with OpApplied => desired_after o | _ => actual_before o end) error) <$> bplan_operations plan)
    (revision_transitions before after).

(** The plan of a receipt that recovery writes from the journal. *)
Definition recovery_plan (p : PendingBilateralOperation) : TopologyBilateralPlan :=
  mkBiPlan (bp_revisions_before p)
    ((λ op, mkPlanned (mut_action op) (mut_edge op) false false (negb (mut_action op =b Disconnect)) false false false true true)
       <$> bp_operations p).
