(* ===== verification/BilateralCoordinator.v ===== *)
(** * Bilateral topology: the coordinator ([topology_control/coordinator.rs])

    One coordinator of a process, the two runtimes it is given (a [TopologyWorld] for
    each authority) and the process-wide table of live owners.  Every public call holds
    the coordinator's lock and the mutation locks of both authorities throughout, so it
    is one function of the world; its effects, in order, are the trace.

    The bilateral actuators of the runtimes, the mobs, the files and the access
    controllers are the class [BilateralEnv]. *)

From S2P Require Import Prelude Strings AccessModel AccessEngine AccessController ContinuityTypes MemoryRecords MemberIds TopologyTypes TopologyState TopologyWorld EdgeReconcile TopologyController BilateralState.
Open Scope Z_scope.

Class BilateralEnv := {
  bi_env : string → TopologyEnv;
  bi_identity : string → IdentityTopology;
  bi_clock :: UtcClock;
  bi_uuid_v5 :: UuidV5;
  bi_sha :: Sha256;
  bi_debug :: DebugText;
  bi_uuid_v4 : nat → string;
  bilateral_json : TopologyBilateralApplyRequest → Result string string;
  journal_outcome : nat → BilateralCoordinatorState → PersistOutcome;
  access_controller : string → nat → option AccessController.AccessController;
  bilateral_same_process_state : nat → string → string → Result (bool * bool) string;
  wire_bilateral_same_process : nat → string → string → Result unit string;
  unwire_bilateral_same_process : nat → string → string → Result unit string;
}.

Inductive BilateralEvent :=
| BiRuntime (authority : string) (e : TopologyEvent)
| BiPersisted (st : BilateralCoordinatorState)
| BiPublished (st : BilateralCoordinatorState)
| BiWire (a b : string) (result : Result unit string)
| BiUnwire (a b : string) (result : Result unit string).

Record BilateralWorld := mkBiWorld {
  bw_runtimes : string → TopologyWorld;
  bw_mem : BilateralCoordinatorState;
  bw_disk : option BilateralCoordinatorState;
  bw_path : string;
  bw_bound : option string; (* [bound_pair_key] *)
  bw_reconciled : bool; (* [pair_reconciled] *)
  bw_error : option string; (* [last_clean_reconcile_error] *)
  bw_owners : gmap string LivePairOwner;
  bw_step : nat;
  bw_trace : list BilateralEvent;
}.
Definition set_runtime (g : string → TopologyWorld) (a : string) (rt : TopologyWorld) : string → TopologyWorld :=
  λ b, if b =b a then rt else g b.
Notation BM := (M BilateralWorld TopologyControlError).

Section coordinator.
Context `{BilateralEnv}.

Definition b_observe : BM nat := λ w,
  (Ok (bw_step w),
   mkBiWorld (bw_runtimes w) (bw_mem w) (bw_disk w) (bw_path w) (bw_bound w) (bw_reconciled w) (bw_error w) (bw_owners w)
     (S (bw_step w)) (bw_trace w)).
Definition b_observe_many (k : nat) : BM nat := λ w,
  (Ok (bw_step w),
   mkBiWorld (bw_runtimes w) (bw_mem w) (bw_disk w) (bw_path w) (bw_bound w) (bw_reconciled w) (bw_error w) (bw_owners w)
     (bw_step w + k) (bw_trace w)).
Definition b_log (e : BilateralEvent) : BM unit :=
  modify (λ w, mkBiWorld (bw_runtimes w) (bw_mem w) (bw_disk w) (bw_path w) (bw_bound w) (bw_reconciled w) (bw_error w) (bw_owners w)
                 (bw_step w) (bw_trace w ++ [e])).
Definition b_set_owner (key : string) (owner : LivePairOwner) : BM unit :=
  modify (λ w, mkBiWorld (bw_runtimes w) (bw_mem w) (bw_disk w) (bw_path w) (Some key) (bw_reconciled w) (bw_error w)
                 (<[key := owner]> (bw_owners w)) (bw_step w) (bw_trace w)).
Definition b_set_reconciled (b : bool) : BM unit :=
  modify (λ w, mkBiWorld (bw_runtimes w) (bw_mem w) (bw_disk w) (bw_path w) (bw_bound w) b (bw_error w) (bw_owners w)
                 (bw_step w) (bw_trace w)).
Definition b_set_error (e : option string) : BM unit :=
  modify (λ w, mkBiWorld (bw_runtimes w) (bw_mem w) (bw_disk w) (bw_path w) (bw_bound w) (bw_reconciled w) e (bw_owners w)
                 (bw_step w) (bw_trace w)).

(** A call on the runtime of an authority: its effects go to the common trace. *)
Definition on (a : string) {A} (m : TM A) : BM A := λ w,
  let '(r, rt) := m (bw_runtimes w a) in
  (r, mkBiWorld (set_runtime (bw_runtimes w) a rt) (bw_mem w) (bw_disk w) (bw_path w) (bw_bound w) (bw_reconciled w) (bw_error w)
        (bw_owners w) (bw_step w) (bw_trace w ++ (BiRuntime a <$> drop (length (tw_trace (bw_runtimes w a))) (tw_trace rt)))).
Definition persist_runtime (a : string) (st : TopologyIntentState) : BM unit := on a (@persist_candidate (bi_env a) st).
Definition publish_runtime (a : string) (st : TopologyIntentState) : BM unit := on a (publish st).
Definition runtime_state (a : string) : BM TopologyIntentState := gets (λ w, tw_mem (bw_runtimes w a)).
Definition runtime_policy (a : string) : BM TopologyControlPolicy := gets (λ w, tw_policy (bw_runtimes w a)).

(** ** The journal *)

Definition rename_journal (st : BilateralCoordinatorState) : BM unit :=
  modify (λ w, mkBiWorld (bw_runtimes w) (bw_mem w) (Some st) (bw_path w) (bw_bound w) (bw_reconciled w) (bw_error w) (bw_owners w)
                 (bw_step w) (bw_trace w ++ [BiPersisted st])).
Definition persist_coordinator_state (st : BilateralCoordinatorState) : BM unit :=
  n ← b_observe;
  match journal_outcome n st with
  | PersistOk => rename_journal st
  | PersistFailed renamed error => (if renamed then rename_journal st else mret tt);; throw (Persistence error)
  end.
Definition publish_journal (st : BilateralCoordinatorState) : BM unit :=
  modify (λ w, mkBiWorld (bw_runtimes w) st (bw_disk w) (bw_path w) (bw_bound w) (bw_reconciled w) (bw_error w) (bw_owners w)
                 (bw_step w) (bw_trace w ++ [BiPublished st])).
Definition commit_journal (st : BilateralCoordinatorState) : BM unit := persist_coordinator_state st;; publish_journal st.

Definition bc_pending_audit (st : BilateralCoordinatorState) : option (string * string * bool) :=
  (λ p, (bp_operation_id p, bp_audit_record_id p, is_some (bp_last_recovery_error p))) <$> bc_pending st.
Definition bc_reconcile_records (n : nat) (st : BilateralCoordinatorState) : BilateralCoordinatorState :=
  bc_with_records st (reconcile_persisted_operation_records n (bc_operation_records st) (bc_receipts st) (bc_pending_audit st))
    (bc_last_operation_record_seq st).
Definition bc_mark (n : nat) (p : TopologyOperationRecord → bool) status kind (st : BilateralCoordinatorState) : BilateralCoordinatorState :=
  bc_with_records st (update_first p (λ r, set_operation_record_status n r status kind) (bc_operation_records st))
    (bc_last_operation_record_seq st).

(** [open]: [opened] is the result of the path checks, the directory and the file lock,
    [read] that of reading the journal. *)
Definition open_coordinator (opened : Result unit string) (read : Result (option BilateralCoordinatorState) string) : BM unit :=
  _ ← lift_result (map_err Persistence opened);
  found ← lift_result (map_err Persistence read);
  let st := unwrap_or found default_coordinator in
  if COORDINATOR_SCHEMA_VERSION <? bc_schema_version st
  then throw (Persistence ("unsupported bilateral topology journal schema " +:+ fmt_dec (bc_schema_version st) +:+ " (maximum 1)"))
  else
    n ← b_observe;
    let id := if str_is_empty (bc_coordinator_id st) then bi_uuid_v4 n else bc_coordinator_id st in
    let '(records, last) := normalize_operation_record_sequences (bc_operation_records st) (bc_last_operation_record_seq st) in
    let st := bc_with_records (bc_with_identity st COORDINATOR_SCHEMA_VERSION id (bc_authorities st)) records last in
    n ← b_observe_many (length records);
    let st := bc_reconcile_records n st in
    persist_coordinator_state st;;
    modify (λ w, mkBiWorld (bw_runtimes w) st (bw_disk w) (bw_path w) None false None (bw_owners w) (bw_step w)
                   (bw_trace w ++ [BiPublished st])).

(** [Drop]: the pair's live ownership ends with the coordinator. *)
Definition drop_coordinator : BM unit :=
  modify (λ w,
    match bw_bound w with
    | None => w
    | Some key =>
        if bw_owners w !! key =b Some (mkOwner (bc_coordinator_id (bw_mem w)) (bw_path w))
        then mkBiWorld (bw_runtimes w) (bw_mem w) (bw_disk w) (bw_path w) (bw_bound w) (bw_reconciled w) (bw_error w)
               (delete key (bw_owners w)) (bw_step w) (bw_trace w)
        else w
    end).

(** ** Ownership of the pair *)

Definition with_binding (st : TopologyIntentState) (key : string) (b : BilateralCoordinatorBinding) : TopologyIntentState :=
  mkIntent (schema_version st) (st_authority st) (revision st) (additions st) (suppressions st) (cross_additions st)
    (cross_suppressions st) (receipts st) (operation_records st) (last_operation_record_seq st) (idempotency st)
    (compacted_idempotency st) (<[key := b]> (bilateral_bindings st)) (pending st).

(** The state an authority has to store, if it is not bound yet. *)
Definition binding_candidate (pair : list string) (key : string) (expected : BilateralCoordinatorBinding) (a : string)
    : BM (list (string * TopologyIntentState)) :=
  st ← runtime_state a;
  match bilateral_bindings st !! key with
  | Some existing =>
      if negb (existing =b expected)
      then throw (AuthorityMismatch ("authority pair " +:+ debug_list pair +:+
                                     " has a different bilateral coordinator lease or journal path"))
      else mret []
  | None => mret [(a, with_binding st key expected)]
  end.
Fixpoint persist_each (states : list (string * TopologyIntentState)) : BM unit :=
  match states with [] => mret tt | (a, st) :: rest => persist_runtime a st;; persist_each rest end.
Fixpoint publish_each (states : list (string * TopologyIntentState)) : BM unit :=
  match states with [] => mret tt | (a, st) :: rest => publish_runtime a st;; publish_each rest end.

Definition bind_pair_locked (f s : string) : BM unit :=
  let pair := [f; s] in
  st ← gets bw_mem;
  (if negb (is_empty (bc_authorities st)) && negb (bc_authorities st =b pair)
   then throw (AuthorityMismatch ("journal belongs to " +:+ debug_list (bc_authorities st) +:+ ", not " +:+ debug_list pair))
   else mret tt);;
  (if is_empty (bc_authorities st) then commit_journal (bc_with_identity st (bc_schema_version st) (bc_coordinator_id st) pair) else mret tt);;
  let key := authority_pair_key pair in
  st ← gets bw_mem;
  path ← gets bw_path;
  let expected := mkBilateral (bc_coordinator_id st) path in
  c1 ← binding_candidate pair key expected f;
  c2 ← binding_candidate pair key expected s;
  owners ← gets bw_owners;
  let owner := mkOwner (bc_coordinator_id st) path in
  (if is_some_and (owners !! key) (λ existing, negb (existing =b owner))
   then throw (AuthorityMismatch ("authority pair " +:+ debug_list pair +:+ " already has a live bilateral coordinator"))
   else b_set_owner key owner);;
  persist_each (c1 ++ c2);;
  publish_each (c1 ++ c2).

(** ** Actuators *)

Definition call_bilateral_wire (a b : string) : BM (Result unit string) :=
  n ← b_observe;
  let r := wire_bilateral_same_process n a b in
  b_log (BiWire a b r);; mret r.
Definition call_bilateral_unwire (a b : string) : BM (Result unit string) :=
  n ← b_observe;
  let r := unwire_bilateral_same_process n a b in
  b_log (BiUnwire a b r);; mret r.

Definition bilateral_actuate (f s : string) (op : TopologyMutation) : BM unit :=
  ends ← lift_result (endpoints_for_pair f s (mut_edge op));
  let a := ep_identity ends.1 in
  let b := ep_identity ends.2 in
  match mut_action op with
  | Connect => r ← call_bilateral_wire a b; lift_result (map_err Actuator r)
  | Disconnect => r ← call_bilateral_unwire a b; lift_result (map_err Actuator r)
  | Reconnect =>
      r ← call_bilateral_unwire a b;
      _ ← lift_result (map_err Actuator r);
      r ← call_bilateral_wire a b;
      lift_result (map_err Actuator r)
  end.

(** Each operation in turn; the failures, without stopping. *)
Fixpoint actuate_collect (f s : string) (ops : list TopologyMutation) : BM (list string) :=
  match ops with
  | [] => mret []
  | op :: rest =>
      r ← (catch (bilateral_actuate f s op) : BM (Result unit TopologyControlError));
      failures ← actuate_collect f s rest;
      mret match r with Ok _ => failures | Err error => error_text error :: failures end
  end.
(** Each operation in turn, up to the first failure. *)
Fixpoint actuate_until (f s : string) (ops : list TopologyMutation) : BM (option string) :=
  match ops with
  | [] => mret None
  | op :: rest =>
      r ← (catch (bilateral_actuate f s op) : BM (Result unit TopologyControlError));
      match r with Ok _ => actuate_until f s rest | Err error => mret (Some (error_text error)) end
  end.

Definition undo_operation (prior : BilateralPhysicalBefore) : TopologyMutation :=
  mkMutation (if left_half prior && right_half prior then Connect else Disconnect) (phys_edge prior).
Definition rollback_physical_pair (f s : string) (before : list BilateralPhysicalBefore) : BM (list string) :=
  actuate_collect f s (undo_operation <$> rev before).

(** ** Snapshots *)

Definition access_view (a : string) (principal : option string) : BM (option SideView) :=
  n ← b_observe;
  mret ((λ k, (view_from_config (AccessController.config k) principal, AccessController.attributes k)) <$> access_controller a n).

Fixpoint dedup_nodes (nodes : list TopologyNodeSnapshot) : list TopologyNodeSnapshot :=
  match nodes with
  | [] => []
  | n :: rest =>
      match dedup_nodes rest with
      | m :: rest' => if node_endpoint n =b node_endpoint m then n :: rest' else n :: m :: rest'
      | [] => [n]
      end
  end.
Definition sort_nodes (nodes : list TopologyNodeSnapshot) : list TopologyNodeSnapshot := dedup_nodes (merge_sort node_le nodes).

Definition or_rows (existing e : TopologyEdgeSnapshot) : TopologyEdgeSnapshot :=
  mkEdgeSnapshot (snap_edge existing) (actual existing || actual e) (declared existing || declared e)
    (operator_added existing || operator_added e) (suppressed existing || suppressed e) (desired existing || desired e).
Definition edge_map (edges : list TopologyEdgeSnapshot) : gmap TopologyEdge TopologyEdgeSnapshot :=
  foldl (λ m e, <[snap_edge e := match m !! snap_edge e with Some existing => or_rows existing e | None => e end]> m) ∅ edges.
Definition set_actual (e : TopologyEdgeSnapshot) (b : bool) : TopologyEdgeSnapshot :=
  mkEdgeSnapshot (snap_edge e) b (declared e) (operator_added e) (suppressed e) (desired e).

Fixpoint observe_cross (f s : string) (edges : list TopologyEdgeSnapshot) : BM (list TopologyEdgeSnapshot) :=
  match edges with
  | [] => mret []
  | e :: rest =>
      e' ← (if negb (is_local_to (snap_edge e) f) && negb (is_local_to (snap_edge e) s) && edge_belongs_to_pair f s (snap_edge e) then
              ends ← lift_result (endpoints_for_pair f s (snap_edge e));
              n ← b_observe;
              mret (set_actual e match bilateral_same_process_state n (ep_identity ends.1) (ep_identity ends.2) with
                                 | Ok (first_half, second_half) => first_half && second_half
                                 | Err _ => false
                                 end)
            else mret e);
      rest' ← observe_cross f s rest;
      mret (e' :: rest')
  end.

Definition missing_labels : gmap string string := {["topology_status" := "missing"]}.
Definition missing_nodes (nodes : list TopologyNodeSnapshot) (edges : list TopologyEdgeSnapshot) : list TopologyNodeSnapshot :=
  let live : gset TopologyEndpoint := list_to_set (node_endpoint <$> nodes) in
  (λ endpoint, mkNode endpoint "unavailable" missing_labels (Some (mkAffordances false false false false false))) <$>
    List.filter (λ endpoint, negb (bool_decide (endpoint ∈ live))) (edges ≫= λ e, edge_endpoints (snap_edge e)).

Definition action_allowed (p1 p2 : TopologyControlPolicy) (v1 v2 : option SideView) (identity action : string) : bool :=
  (mode p1 =b ModeEditable) && (mode p2 =b ModeEditable) && allow_cross_authority p1 && allow_cross_authority p2
  && view_allows v1 action identity && view_allows v2 action identity
  && view_allows v1 ACTION_TOPOLOGY_CROSS_AUTHORITY identity && view_allows v2 ACTION_TOPOLOGY_CROSS_AUTHORITY identity.
Definition afford (p1 p2 : TopologyControlPolicy) (v1 v2 : option SideView) (n : TopologyNodeSnapshot) : TopologyNodeSnapshot :=
  if node_labels n !! "topology_status" =b Some "missing" then n
  else
    let allowed := action_allowed p1 p2 v1 v2 (ep_identity (node_endpoint n)) in
    mkNode (node_endpoint n) (node_role n) (node_labels n)
      (Some (mkAffordances (allowed ACTION_TOPOLOGY_CONNECT) (allowed ACTION_TOPOLOGY_DISCONNECT) (allowed ACTION_TOPOLOGY_RECONNECT)
               (allow_bulk p1 && allow_bulk p2 && allowed ACTION_TOPOLOGY_BULK) (allowed ACTION_TOPOLOGY_CROSS_AUTHORITY))).

(** What the principal is shown of the merged nodes and rows. *)
Definition project_pair (p1 p2 : TopologyControlPolicy) (v1 v2 : option SideView) (nodes : list TopologyNodeSnapshot)
    (edges : list TopologyEdgeSnapshot) : list TopologyNodeSnapshot * list TopologyEdgeSnapshot :=
  let nodes := List.filter (λ n, endpoint_visible v1 (node_endpoint n) && endpoint_visible v2 (node_endpoint n)) nodes in
  let visible : gset TopologyEndpoint := list_to_set (node_endpoint <$> nodes) in
  (afford p1 p2 v1 v2 <$> nodes,
   merge_sort snapshot_le
     (List.filter (λ e, bool_decide (edge_a (snap_edge e) ∈ visible) && bool_decide (edge_b (snap_edge e) ∈ visible)) edges)).

Definition query_locked (first second : TopologyRuntimeHandle) (principal : option string) : BM TopologyBilateralSnapshot :=
  let f := handle_authority first in
  let s := handle_authority second in
  bind_pair_locked f s;;
  on f (@recover_pending_unlocked (bi_env f) (bi_identity f) first);;
  on s (@recover_pending_unlocked (bi_env s) (bi_identity s) second);;
  first_snapshot ← on f (@query_unlocked (bi_env f) (bi_identity f) first);
  second_snapshot ← on s (@query_unlocked (bi_env s) (bi_identity s) second);
  let nodes := sort_nodes (snap_nodes first_snapshot ++ snap_nodes second_snapshot) in
  edges ← observe_cross f s (btree_values (edge_map (snap_edges first_snapshot ++ snap_edges second_snapshot)));
  let nodes := sort_nodes (nodes ++ missing_nodes nodes edges) in
  v1 ← access_view f principal;
  v2 ← access_view s principal;
  p1 ← runtime_policy f;
  p2 ← runtime_policy s;
  st1 ← runtime_state f;
  st2 ← runtime_state s;
  let '(nodes, edges) := project_pair p1 p2 v1 v2 nodes edges in
  mret (mkBiSnapshot [f; s] (revisions_of [(f, st1); (s, st2)]) (list_to_map [(f, p1); (s, p2)]) nodes edges).

(** ** Audit records *)

Definition reconcile_operation_records_locked : BM unit :=
  st ← gets bw_mem;
  n ← b_observe_many (length (bc_operation_records st));
  let next := bc_reconcile_records n st in
  if bc_operation_records next =b bc_operation_records st then mret tt else commit_journal next.

Definition min_limit (limit : TopologyControlPolicy → Z) (f s : string) : BM Z :=
  p1 ← runtime_policy f;
  p2 ← runtime_policy s;
  mret (Z.min (limit p1) (limit p2)).

Definition upsert_operation_record_locked (f s : string) (r : TopologyOperationRecord) : BM unit :=
  st ← gets bw_mem;
  if existsb (has_record_id (rec_record_id r)) (bc_operation_records st) then mret tt
  else
    let seq := u64_saturating_add (bc_last_operation_record_seq st) 1 in
    limit ← min_limit receipt_limit f s;
    let limit := u64_clamp 16 4096 (u64_saturating_mul limit 4) in
    commit_journal (bc_with_records st (shrink_front (Z.to_nat limit) (bc_operation_records st ++ [set_seq r seq])) seq).

Definition update_operation_record_locked (record_id : string) (status : TopologyOperationRecordStatus)
    (error : option TopologyControlError) : BM unit :=
  st ← gets bw_mem;
  if existsb (has_record_id record_id) (bc_operation_records st) then
    n ← b_observe;
    commit_journal (bc_mark n (has_record_id record_id) status (error_kind <$> error) st)
  else throw (Persistence ("bilateral topology audit record disappeared before terminal update: " +:+ record_id)).

(** ** The terminal receipt *)

Definition audit_status (s : TopologyOperationStatus) : TopologyOperationRecordStatus :=
  match s with
  | OpPending => RecPending
  | OpApplied => RecApplied
  | OpNoop => RecNoop
  | OpRolledBack => RecRolledBack
  | OpPartialDegraded => RecPartialDegraded
  end.
Definition owns_attempt (audit_id : option string) (operation_id : string) (r : TopologyOperationRecord) : bool :=
  is_some_and (opt_filter (λ id, negb (str_is_empty id)) audit_id) (λ id, rec_record_id r =b id)
  || (is_none_or audit_id str_is_empty && (rec_operation_id r =b operation_id)
      && negb (operation_record_status_is_terminal (rec_status r))).

Definition state_for (states : ControllerStates) (a : string) : Result TopologyIntentState TopologyControlError :=
  ok_or (snd <$> find_first (λ p : string * TopologyIntentState, p.1 =b a) states) (AuthorityMismatch a).

(** The coordinator's state with the receipt and without the journal. *)
Definition close_journal (n : nat) (receipt_max history_max : Z) (receipt : TopologyOperationReceipt) (fingerprint : string)
    (st : BilateralCoordinatorState) : BilateralCoordinatorState :=
  let audit_id := bp_audit_record_id <$> opt_filter (λ p, bp_operation_id p =b receipt_operation_id receipt) (bc_pending st) in
  let st := bc_with_pending st None in
  let st := bc_mark n (owns_attempt audit_id (receipt_operation_id receipt)) (audit_status (receipt_status receipt)) None st in
  let idem := <[receipt_key receipt := mkIdempotency fingerprint (receipt_operation_id receipt)]> (bc_idempotency st) in
  let rs := if existsb (λ r, receipt_operation_id r =b receipt_operation_id receipt) (bc_receipts st) then bc_receipts st
            else bc_receipts st ++ [receipt] in
  let '(rs, idem, compacted) := evict_receipts (Z.to_nat receipt_max) rs idem (bc_compacted_idempotency st) in
  bc_with_receipts st rs idem (shrink_front (Z.to_nat history_max) compacted).

Definition commit_terminal_receipt (f s : string) (coordinator : BilateralCoordinatorState) (states : ControllerStates)
    (receipt : TopologyOperationReceipt) (fingerprint : string) : BM unit :=
  st1 ← lift_result (state_for states f);
  persist_runtime f st1;;
  st2 ← lift_result (state_for states s);
  persist_runtime s st2;;
  publish_runtime f st1;;
  publish_runtime s st2;;
  n ← b_observe;
  receipt_max ← min_limit receipt_limit f s;
  history_max ← min_limit idempotency_history_limit f s;
  commit_journal (close_journal n receipt_max history_max receipt fingerprint coordinator).

(** ** Recovery *)

Definition reconcile_committed_pair_intent_locked (f s : string) : BM unit :=
  st1 ← runtime_state f;
  st2 ← runtime_state s;
  let pair_edges (edges : gset TopologyEdge) : gset TopologyEdge := list_to_set (List.filter (edge_belongs_to_pair f s) (elements edges)) in
  if negb (pair_edges (cross_additions st1) =b pair_edges (cross_additions st2))
     || negb (pair_edges (cross_suppressions st1) =b pair_edges (cross_suppressions st2))
  then throw (AuthorityMismatch ("bilateral intent diverged between " +:+ debug_quote f +:+ " and " +:+ debug_quote s +:+ "; refusing to guess"))
  else
    let supps := pair_edges (cross_suppressions st1) in
    (fix go ops := match ops with [] => mret tt | op :: rest => bilateral_actuate f s op;; go rest end)
      ((mkMutation Connect <$> oset_elements (pair_edges (cross_additions st1) ∖ supps)) ++
       (mkMutation Disconnect <$> oset_elements supps)).

(** No journal is open: reinstall the committed intent once per process. *)
Definition reconcile_clean_pair (f s : string) : BM unit :=
  reconciled ← gets bw_reconciled;
  if (reconciled : bool) then mret tt
  else
    r ← (catch (reconcile_committed_pair_intent_locked f s) : BM (Result unit TopologyControlError));
    match r with
    | Ok _ => b_set_reconciled true;; b_set_error None
    | Err error => b_set_reconciled false;; b_set_error (Some (error_text error))
    end.

(** The journal keeps its decision and counts the failed attempt. *)
Definition keep_journal (n : nat) (p : PendingBilateralOperation) (detail : string) (st : BilateralCoordinatorState) : BilateralCoordinatorState :=
  let note q := bp_recovery_failed (if bp_decision q =b DecApplying then bp_with_decision q DecRollingBack else q) detail in
  bc_mark n
    (λ r, (negb (str_is_empty (bp_audit_record_id p)) && (rec_record_id r =b bp_audit_record_id p))
          || (str_is_empty (bp_audit_record_id p) && (rec_operation_id r =b bp_operation_id p)
              && negb (operation_record_status_is_terminal (rec_status r))))
    RecRecoveryFailed (Some "topology_actuator_failed") (bc_with_pending st (note <$> bc_pending st)).

Definition recover_actuators (f s : string) (p : PendingBilateralOperation) : BM (list string) :=
  match bp_decision p with
  | DecApplying | DecRollingBack => rollback_physical_pair f s (bp_physical_before p)
  | DecCommitted => actuate_collect f s (bp_operations p)
  end.

Definition recover_pending (f s : string) (p : PendingBilateralOperation) : BM TopologyOperationReceipt :=
  b_set_reconciled false;;
  (if bp_decision p =b DecApplying then st ← gets bw_mem; commit_journal (bc_decide st DecRollingBack) else mret tt);;
  let committed := bp_decision p =b DecCommitted in
  failures ← recover_actuators f s p;
  if negb (is_empty failures) then
    let detail := "bilateral topology recovery incomplete: " +:+ String.concat "; " failures in
    n ← b_observe;
    st ← gets bw_mem;
    commit_journal (keep_journal n p detail st);;
    throw (Actuator detail)
  else
    st1 ← runtime_state f;
    st2 ← runtime_state s;
    let current := [(f, st1); (s, st2)] in
    merged ← lift_result (merge_pending_intent current p committed);
    let receipt := bilateral_receipt (bp_operation_id p) (bp_key p) (bp_actor p) (if committed then OpApplied else OpRolledBack)
                     (bp_created_at p) (bp_reason p) (recovery_plan p) (revisions_of current) (revisions_of merged) None in
    st ← gets bw_mem;
    commit_terminal_receipt f s st merged receipt (bp_fingerprint p);;
    b_set_reconciled true;;
    b_set_error None;;
    mret receipt.

Definition recover_locked (f s : string) : BM (option TopologyOperationReceipt) :=
  bind_pair_locked f s;;
  reconcile_operation_records_locked;;
  st ← gets bw_mem;
  match bc_pending st with
  | None => reconcile_clean_pair f s;; mret None
  | Some p => receipt ← recover_pending f s p; mret (Some receipt)
  end.

(** ** Applying *)

Definition bilateral_fingerprint (r : TopologyBilateralApplyRequest) : Result string TopologyControlError :=
  bytes ←? map_err InvalidRequest (bilateral_json r);
  Ok (hex_bytes (sha256 bytes)).

Definition operation_record_for_bilateral_request (f s : string) (r : TopologyBilateralApplyRequest) (actor : string)
    (principal : option string) : BM TopologyOperationRecord :=
  fingerprint ← lift_result (bilateral_fingerprint r);
  n ← b_observe;
  u ← b_observe;
  mret (mkOpRecord TOPOLOGY_OPERATION_RECORD_VERSION 0 ("topology-audit-" +:+ bi_uuid_v4 u) (operation_id (breq_key r) fingerprint)
          (idempotency_key_fingerprint (breq_key r)) actor principal [f; s] (breq_operations r) RecRequested (utc_now n) (utc_now n)
          None None).

(** The two halves of every edge before the operation. *)
Fixpoint observe_physical (f s : string) (ops : list TopologyMutation) : BM (list BilateralPhysicalBefore) :=
  match ops with
  | [] => mret []
  | op :: rest =>
      ends ← lift_result (endpoints_for_pair f s (mut_edge op));
      n ← b_observe;
      halves ← lift_result (map_err Actuator (bilateral_same_process_state n (ep_identity ends.1) (ep_identity ends.2)));
      rest ← observe_physical f s rest;
      mret (mkPhysical (mut_edge op) halves.1 halves.2 :: rest)
  end.

Definition bump_revisions (changed : bool) (states : ControllerStates) : ControllerStates :=
  (λ '(a, st), (a, with_revision st (if changed then u64_saturating_add (revision st) 1 else revision st))) <$> states.

(** The failure path of an apply, after the rolling-back decision. *)
Definition finish_rollback (f s : string) (p : PendingBilateralOperation) (plan : TopologyBilateralPlan) (states_before : ControllerStates)
    (error : string) : BM TopologyOperationReceipt :=
  st ← gets bw_mem;
  commit_journal (bc_decide st DecRollingBack);;
  failures ← rollback_physical_pair f s (bp_physical_before p);
  let complete := is_empty failures in
  let detail := if complete then error else error +:+ "; rollback failures: " +:+ String.concat "; " failures in
  let receipt := bilateral_receipt (bp_operation_id p) (bp_key p) (bp_actor p) (if complete then OpRolledBack else OpPartialDegraded)
                   (bp_created_at p) (bp_reason p) plan (bp_revisions_before p) (bp_revisions_before p) (Some detail) in
  (if complete then
     st ← gets bw_mem;
     commit_terminal_receipt f s st states_before receipt (bp_fingerprint p)
   else
     n ← b_observe;
     st ← gets bw_mem;
     commit_journal (bc_mark n (has_record_id (bp_audit_record_id p)) RecPartialDegraded (Some "topology_actuator_failed")
                       (bc_with_pending st ((λ q, bp_recovery_failed q detail) <$> bc_pending st))));;
  throw (ApplyFailed detail receipt).

(** Journal, actuate, decide, commit. *)
Definition execute_bilateral (f s : string) (coordinator_before : BilateralCoordinatorState) (states_before states_after : ControllerStates)
    (plan : TopologyBilateralPlan) (p : PendingBilateralOperation) : BM TopologyOperationReceipt :=
  n ← b_observe;
  commit_journal (bc_mark n (has_record_id (bp_audit_record_id p)) RecPending None (bc_with_pending coordinator_before (Some p)));;
  failure ← actuate_until f s (bp_operations p);
  match failure with
  | Some error => finish_rollback f s p plan states_before error
  | None =>
      st ← gets bw_mem;
      let committed := bc_decide st DecCommitted in
      commit_journal committed;;
      let receipt := bilateral_receipt (bp_operation_id p) (bp_key p) (bp_actor p) OpApplied (bp_created_at p) (bp_reason p) plan
                       (bp_revisions_before p) (bp_revisions_after p) None in
      commit_terminal_receipt f s committed states_after receipt (bp_fingerprint p);;
      mret receipt
  end.

(** After admission: the checks against the snapshot, and the no-op or the execution. *)
Definition apply_checked_locked (first second : TopologyRuntimeHandle) (request : TopologyBilateralApplyRequest) (principal : option string)
    (actor audit_record_id fingerprint : string) (coordinator_before : BilateralCoordinatorState) : BM TopologyOperationReceipt :=
  let f := handle_authority first in
  let s := handle_authority second in
  snapshot ← query_locked first second principal;
  _ ← lift_result (validate_expected_revisions snapshot (breq_expected_revisions request));
  _ ← lift_result (validate_bilateral_known_endpoints snapshot (breq_operations request));
  _ ← lift_result (validate_bilateral_connect_does_not_clear_suppression snapshot (breq_operations request));
  _ ← lift_result (validate_bilateral_reconnect_targets snapshot (breq_operations request));
  let plan := plan_bilateral snapshot (breq_operations request) in
  st1 ← runtime_state f;
  st2 ← runtime_state s;
  let states_before := [(f, st1); (s, st2)] in
  match opt_or (pending st1) (pending st2) with
  | Some local => throw (OperationInProgress (pend_operation_id local))
  | None =>
      physical_before ← observe_physical f s (breq_operations request);
      let states_after := apply_cross_intents (breq_operations request) states_before in
      let changed := negb (states_after =b states_before) || existsb requires_physical_change (bplan_operations plan) in
      let states_after := bump_revisions changed states_after in
      let op_id := operation_id (breq_key request) fingerprint in
      n ← b_observe;
      if negb changed then
        let receipt := bilateral_receipt op_id (breq_key request) actor OpNoop (utc_now n) (breq_reason request) plan
                         (revisions_of states_before) (revisions_of states_after) None in
        commit_terminal_receipt f s coordinator_before states_before receipt fingerprint;;
        mret receipt
      else
        execute_bilateral f s coordinator_before states_before states_after plan
          (mkBiPending op_id audit_record_id (breq_key request) fingerprint actor (utc_now n) (breq_reason request)
             (breq_operations request) DecApplying (revisions_of states_before) (revisions_of states_after)
             (intent_delta states_before states_after <$> breq_operations request) physical_before None 0)
  end.

Definition bilateral_views (f s : string) (principal : option string) : BM (list (string * option SideView)) :=
  v1 ← access_view f principal;
  v2 ← access_view s principal;
  mret [(f, v1); (s, v2)].
Definition check_pair (f s : string) (principal : option string) (ops : list TopologyMutation) : BM (Result unit TopologyControlError) :=
  p1 ← runtime_policy f;
  p2 ← runtime_policy s;
  views ← bilateral_views f s principal;
  mret (_ ←? validate_unique_operations ops;
        _ ←? validate_pair_policies p1 p2 (op_count ops) true;
        authorize_bilateral views ops).

Definition apply_locked (first second : TopologyRuntimeHandle) (request : TopologyBilateralApplyRequest) (principal : option string)
    (actor audit_record_id : string) : BM TopologyOperationReceipt :=
  let f := handle_authority first in
  let s := handle_authority second in
  let request := breq_with_key request (trim (breq_key request)) in
  if str_is_empty (breq_key request) || str_is_empty (trim actor)
  then throw (InvalidRequest "idempotency_key and actor must not be empty")
  else
    _ ← lift_result match breq_risk_tier request with
                    | Some tier => if negb (str_is_empty (trim tier)) && negb (eq_ignore_ascii_case tier "r0")
                                   then Err (ApprovalUnsupported tier) else Ok tt
                    | None => Ok tt
                    end;
    ops ← lift_result (normalize_bilateral_operations f s (breq_operations request));
    let request := breq_with_operations request ops in
    admitted ← check_pair f s principal ops;
    _ ← lift_result admitted;
    bind_pair_locked f s;;
    fingerprint ← lift_result (bilateral_fingerprint request);
    st ← gets bw_mem;
    match bc_pending st with
    | Some p => throw (OperationInProgress (bp_operation_id p))
    | None =>
        match bc_idempotency st !! breq_key request with
        | Some known =>
            if negb (idem_fingerprint known =b fingerprint) then throw (IdempotencyConflict (breq_key request))
            else lift_result (ok_or (find_first (λ r, receipt_operation_id r =b idem_operation_id known) (bc_receipts st))
                                (IdempotencyReceiptExpired (breq_key request) (idem_operation_id known)))
        | None =>
            if existsb (λ x, x =b idempotency_key_fingerprint (breq_key request)) (bc_compacted_idempotency st)
            then throw (IdempotencyHistoryCompacted (breq_key request))
            else apply_checked_locked first second request principal actor audit_record_id fingerprint st
        end
    end.

Definition bilateral_apply (left right : TopologyRuntimeHandle) (request : TopologyBilateralApplyRequest) (principal : option string)
    (actor : string) : BM TopologyOperationReceipt :=
  pair ← lift_result (canonical_runtimes handle_authority left right);
  let f := handle_authority pair.1 in
  let s := handle_authority pair.2 in
  recover_locked f s;;
  let normalized := breq_with_key request (trim (breq_key request)) in
  ops ← lift_result (normalize_bilateral_operations f s (breq_operations normalized));
  let normalized := breq_with_operations normalized ops in
  preflight ← check_pair f s principal ops;
  r ← operation_record_for_bilateral_request f s normalized actor principal;
  n ← b_observe;
  let r := match preflight with
           | Err error => set_operation_record_status n r (operation_record_outcome (Err error)).1 (Some (error_kind error))
           | Ok _ => r
           end in
  upsert_operation_record_locked f s r;;
  degraded ← gets bw_error;
  result ← match preflight with
           | Err error => mret (Err error)
           | Ok _ =>
               match degraded with
               | Some error => mret (Err (Actuator error))
               | None => (catch (apply_locked pair.1 pair.2 normalized principal actor (rec_record_id r)) : BM (Result TopologyOperationReceipt TopologyControlError))
               end
           end;
  let outcome := operation_record_outcome result in
  update_operation_record_locked (rec_record_id r) outcome.1 outcome.2;;
  v1 ← access_view f principal;
  v2 ← access_view s principal;
  lift_result (project_bilateral_result_attribution v1 v2 result).

(** ** The other calls *)

Definition bilateral_query (left right : TopologyRuntimeHandle) (principal : option string) : BM TopologyBilateralSnapshot :=
  pair ← lift_result (canonical_runtimes handle_authority left right);
  recover_locked (handle_authority pair.1) (handle_authority pair.2);;
  query_locked pair.1 pair.2 principal.

Definition bilateral_plan (left right : TopologyRuntimeHandle) (request : TopologyBilateralPlanRequest) (principal : option string)
    : BM TopologyBilateralPlan :=
  pair ← lift_result (canonical_runtimes handle_authority left right);
  let f := handle_authority pair.1 in
  let s := handle_authority pair.2 in
  recover_locked f s;;
  ops ← lift_result (normalize_bilateral_operations f s (bplan_request_operations request));
  _ ← lift_result (validate_unique_operations ops);
  p1 ← runtime_policy f;
  p2 ← runtime_policy s;
  _ ← lift_result (validate_pair_policies p1 p2 (op_count ops) false);
  snapshot ← query_locked pair.1 pair.2 principal;
  _ ← lift_result (validate_expected_revisions snapshot (bplan_expected_revisions request));
  _ ← lift_result (validate_bilateral_known_endpoints snapshot ops);
  _ ← lift_result (validate_bilateral_connect_does_not_clear_suppression snapshot ops);
  _ ← lift_result (validate_bilateral_reconnect_targets snapshot ops);
  views ← bilateral_views f s principal;
  _ ← lift_result (authorize_bilateral views ops);
  mret (plan_bilateral snapshot ops).

Definition bilateral_operation (left right : TopologyRuntimeHandle) (id : string) (principal : option string) : BM TopologyOperationReceipt :=
  pair ← lift_result (canonical_runtimes handle_authority left right);
  let f := handle_authority pair.1 in
  let s := handle_authority pair.2 in
  recover_locked f s;;
  st ← gets bw_mem;
  receipt ← lift_result
    match find_first (λ r, receipt_operation_id r =b id) (bc_receipts st) with
    | Some receipt => Ok receipt
    | None => ok_or (pending_bilateral_receipt <$> opt_filter (λ p, bp_operation_id p =b id) (bc_pending st)) (OperationNotFound id)
    end;
  v1 ← access_view f principal;
  v2 ← access_view s principal;
  if existsb (λ endpoint, negb (endpoint_visible v1 endpoint) || negb (endpoint_visible v2 endpoint))
       (receipt_results receipt ≫= λ r, edge_endpoints (result_edge r))
  then throw (TopologyAccessDenied "bilateral" ACTION_TOPOLOGY_VIEW "<redacted>")
  else
    v1 ← access_view f principal;
    v2 ← access_view s principal;
    mret (project_receipt v1 v2 receipt).

(** The visible records of a page, up to a limit: the records, the last sequence that
    was looked at, and whether the page was read to its end. *)
Fixpoint visible_records (visible : TopologyOperationRecord → bool) (limit : nat) (next : Z) (records : list TopologyOperationRecord)
    : list TopologyOperationRecord * Z * bool :=
  match records with
  | [] => ([], next, true)
  | r :: rest =>
      if visible r then
        match limit with
        | S (S limit') =>
            let '(found, next, all) := visible_records visible (S limit') (rec_seq r) rest in (r :: found, next, all)
        | _ => ([r], rec_seq r, false)
        end
      else visible_records visible limit (rec_seq r) rest
  end.

Definition bilateral_audit (left right : TopologyRuntimeHandle) (principal : option string) (after_seq : option Z) (limit : Z)
    : BM TopologyAuditPage :=
  pair ← lift_result (canonical_runtimes handle_authority left right);
  let f := handle_authority pair.1 in
  let s := handle_authority pair.2 in
  bind_pair_locked f s;;
  reconcile_operation_records_locked;;
  v1 ← access_view f principal;
  v2 ← access_view s principal;
  if existsb (λ view, is_some_and view (λ v, view_enforced v && negb (may_perform_anywhere v.1 ACTION_TOPOLOGY_AUDIT))) [v1; v2]
  then throw (TopologyAccessDenied "bilateral" ACTION_TOPOLOGY_AUDIT "<redacted>")
  else
    st ← gets bw_mem;
    page ← lift_result (audit_page (bc_operation_records st) (bc_last_operation_record_seq st) after_seq 4096);
    let visible r := forallb (λ op, forallb (audit_visible v1 v2) (edge_endpoints (mut_edge op))) (rec_operations r) in
    let '(records, next, all) := visible_records visible (Z.to_nat (u64_clamp 1 1024 limit)) (next_after_seq page) (page_records page) in
    mret (mkAuditPage records next (oldest_available_seq page) (latest_seq page) (has_more page || negb all)).

Definition bilateral_recover (left right : TopologyRuntimeHandle) : BM (option TopologyOperationReceipt) :=
  pair ← lift_result (canonical_runtimes handle_authority left right);
  b_set_reconciled false;;
  receipt ← recover_locked (handle_authority pair.1) (handle_authority pair.2);
  degraded ← gets bw_error;
  match degraded with Some error => throw (Actuator error) | None => mret receipt end.
End coordinator.
