(* ===== verification/BilateralLogic.v ===== *)
(** * Bilateral topology: reasoning about effects on three files

    [bwp P m Q w] is [twp] for the coordinator: running [m] in [w] extends the trace by
    effects that each satisfy [P] against the three files they were made on, the files
    are what those effects leave, and [Q] holds of the result.  So a property proved
    this way holds at every prefix of a call's effects. *)

From S2P Require Import Prelude Strings MemoryRecords TopologyTypes TopologyState TopologyWorld TopologyLogic BilateralState BilateralCoordinator.
Open Scope Z_scope.

(** The journal and the durable intent of the two authorities. *)
Record Disks := mkDisks {
  dk_journal : option BilateralCoordinatorState;
  dk_first : option TopologyIntentState;
  dk_second : option TopologyIntentState;
}.

Section logic.
Context (f s : string).

Definition disks (w : BilateralWorld) : Disks := mkDisks (bw_disk w) (tw_disk (bw_runtimes w f)) (tw_disk (bw_runtimes w s)).
Definition replay_bilateral (d : Disks) (e : BilateralEvent) : Disks :=
  match e with
  | BiPersisted st => mkDisks (Some st) (dk_first d) (dk_second d)
  | BiRuntime a ev =>
      mkDisks (dk_journal d)
        (if a =b f then replay_disk (dk_first d) ev else dk_first d)
        (if a =b s then replay_disk (dk_second d) ev else dk_second d)
  | _ => d
  end.

Definition DiskSpec := Disks → BilateralEvent → Prop.
Fixpoint bchain (P : DiskSpec) (d : Disks) (es : list BilateralEvent) : Prop :=
  match es with
  | [] => True
  | e :: rest => P d e ∧ bchain P (replay_bilateral d e) rest
  end.
Lemma bchain_app P d es fs : bchain P d (es ++ fs) ↔ bchain P d es ∧ bchain P (foldl replay_bilateral d es) fs.
Proof. revert d. induction es as [|e es IH]; intros d; simpl; [tauto|]. rewrite IH. tauto. Qed.

Definition bwp {A} (P : DiskSpec) (m : BM A) (Q : Result A TopologyControlError → BilateralWorld → Prop) (w : BilateralWorld) : Prop :=
  ∃ es, bw_trace (m w).2 = bw_trace w ++ es ∧ disks (m w).2 = foldl replay_bilateral (disks w) es ∧
        bchain P (disks w) es ∧ Q (m w).1 (m w).2.

Section rules.
Context {A : Type} (P : DiskSpec).
Implicit Types (Q : Result A TopologyControlError → BilateralWorld → Prop).

Lemma bwp_mono (m : BM A) Q Q' w : bwp P m Q w → (∀ r w', Q r w' → Q' r w') → bwp P m Q' w.
Proof. intros (es & ? & ? & ? & ?) HQ. exists es. auto. Qed.
(** A computation without effects on the trace and the files. *)
Lemma bwp_silent (m : BM A) Q w :
  bw_trace (m w).2 = bw_trace w → disks (m w).2 = disks w → Q (m w).1 (m w).2 → bwp P m Q w.
Proof. intros Ht Hd HQ. exists []. rewrite app_nil_r. done. Qed.
Lemma bwp_ret (a : A) Q w : Q (Ok a) w → bwp P (mret a) Q w.
Proof. intros. by apply bwp_silent. Qed.
Lemma bwp_throw e Q w : Q (Err e) w → bwp P (throw e) Q w.
Proof. intros. by apply bwp_silent. Qed.
Lemma bwp_lift (r : Result A _) Q w : Q r w → bwp P (lift_result r) Q w.
Proof. intros. by apply bwp_silent. Qed.
Lemma bwp_gets (g : BilateralWorld → A) Q w : Q (Ok (g w)) w → bwp P (gets g) Q w.
Proof. intros. by apply bwp_silent. Qed.
Lemma bwp_bind {B} (m : BM A) (k : A → BM B) (Q : Result B _ → BilateralWorld → Prop) w :
  bwp P m (λ r w', match r with Ok a => bwp P (k a) Q w' | Err e => Q (Err e) w' end) w → bwp P (m ≫= k) Q w.
Proof.
  intros (es & Ht & Hd & Hc & HQ). unfold bwp, mbind, m_bind. destruct (m w) as [[a|e] w']; simpl in *; [|by exists es].
  destruct HQ as (fs & Ht' & Hd' & Hc' & HQ). exists (es ++ fs). rewrite foldl_app, <- Hd, bchain_app, <- Hd.
  split_and!; try done. by rewrite Ht', Ht, app_assoc.
Qed.
End rules.

Lemma bwp_catch {A} P (m : BM A) (Q : Result (Result A _) _ → BilateralWorld → Prop) w :
  bwp P m (λ r w', Q (Ok r) w') w → bwp P (catch m : BM (Result A TopologyControlError)) Q w.
Proof. intros (es & ? & ? & ? & ?). by exists es. Qed.

(** The world [w'] is [w] up to bookkeeping. *)
Record bkept (w w' : BilateralWorld) : Prop := {
  bkept_mem : bw_mem w' = bw_mem w;
  bkept_disk : bw_disk w' = bw_disk w;
  bkept_runtimes : ∀ a, kept (bw_runtimes w a) (bw_runtimes w' a);
}.
Lemma bkept_refl w : bkept w w.
Proof. done. Qed.
Lemma bkept_trans w w1 w2 : bkept w w1 → bkept w1 w2 → bkept w w2.
Proof. intros [Hm Hd Hr] [Hm' Hd' Hr']. split; [congruence|congruence|]. intros a. eapply kept_trans; [apply Hr|apply Hr']. Qed.
Lemma bkept_disks w w' : bkept w w' → disks w' = disks w.
Proof. intros [_ Hd Hr]. unfold disks. by rewrite Hd, !(moved_disk _ _ _ _ (Hr _)). Qed.

Section effects.
Context `{BilateralEnv} (P : DiskSpec).

Lemma bwp_observe (Q : Result nat _ → _) w : (∀ n w', bkept w w' → Q (Ok n) w') → bwp P b_observe Q w.
Proof. intros HQ. apply bwp_silent; try done. by apply HQ. Qed.
Lemma bwp_observe_many k (Q : Result nat _ → _) w : (∀ n w', bkept w w' → Q (Ok n) w') → bwp P (b_observe_many k) Q w.
Proof. intros HQ. apply bwp_silent; try done. by apply HQ. Qed.
Lemma bwp_set_reconciled b (Q : Result unit _ → _) w : (∀ w', bkept w w' → Q (Ok tt) w') → bwp P (b_set_reconciled b) Q w.
Proof. intros HQ. apply bwp_silent; try done. by apply HQ. Qed.
Lemma bwp_set_error e (Q : Result unit _ → _) w : (∀ w', bkept w w' → Q (Ok tt) w') → bwp P (b_set_error e) Q w.
Proof. intros HQ. apply bwp_silent; try done. by apply HQ. Qed.
Lemma bwp_set_owner k o (Q : Result unit _ → _) w : (∀ w', bkept w w' → Q (Ok tt) w') → bwp P (b_set_owner k o) Q w.
Proof. intros HQ. apply bwp_silent; try done. by apply HQ. Qed.

(** The journal is renamed into place, and then published. *)
Record journaled_as (w : BilateralWorld) mem disk (w' : BilateralWorld) : Prop := {
  journaled_mem : bw_mem w' = mem;
  journaled_disk : bw_disk w' = disk;
  journaled_runtimes : ∀ a, kept (bw_runtimes w a) (bw_runtimes w' a);
}.
Lemma bwp_persist_journal st (Q : Result unit _ → _) w :
  P (disks w) (BiPersisted st) →
  (∀ w', journaled_as w (bw_mem w) (Some st) w' → Q (Ok tt) w') →
  (∀ e d w', journaled_as w (bw_mem w) d w' → d = bw_disk w ∨ d = Some st → Q (Err (Persistence e)) w') →
  bwp P (persist_coordinator_state st) Q w.
Proof.
  intros HP HQ HE. apply bwp_bind, bwp_observe. intros n w1 K1. pose proof (bkept_disks _ _ K1) as HD. destruct K1 as [Km Kd Kr].
  assert (∀ (Q' : Result unit _ → _), (∀ w', journaled_as w (bw_mem w) (Some st) w' → Q' (Ok tt) w') → bwp P (rename_journal st) Q' w1) as Hren.
  { intros Q' HQ'. exists [BiPersisted st]. split_and!; [done|done|simpl; by rewrite HD|]. apply HQ'. by split. }
  case_match; [by apply Hren|]. destruct renamed.
  - apply bwp_bind, Hren. intros w' M. apply bwp_throw. eapply HE; [done|by right].
  - apply bwp_bind, bwp_ret, bwp_throw. eapply HE; [|by left]. by split.
Qed.
Lemma bwp_commit_journal st (Q : Result unit _ → _) w :
  P (disks w) (BiPersisted st) → P (mkDisks (Some st) (dk_first (disks w)) (dk_second (disks w))) (BiPublished st) →
  (∀ w', journaled_as w st (Some st) w' → Q (Ok tt) w') →
  (∀ e d w', journaled_as w (bw_mem w) d w' → d = bw_disk w ∨ d = Some st → Q (Err (Persistence e)) w') →
  bwp P (commit_journal st) Q w.
Proof.
  intros HP HP' HQ HE. apply bwp_bind, bwp_persist_journal; [done| |done]. intros w' [Hm Hd Hr].
  exists [BiPublished st]. split_and!; [done|done| |].
  - simpl. split; [|done]. unfold disks. rewrite Hd, !(moved_disk _ _ _ _ (Hr _)). exact HP'.
  - apply HQ. by split.
Qed.

Lemma bwp_call_wire a b (Q : Result (Result unit string) _ → _) w :
  (∀ r, P (disks w) (BiWire a b r)) → (∀ r w', bkept w w' → Q (Ok r) w') → bwp P (call_bilateral_wire a b) Q w.
Proof.
  intros HP HQ. apply bwp_bind, bwp_observe. intros n w1 K. apply bwp_bind. eexists [_]. split_and!; [done|done| |].
  - simpl. split; [|done]. by rewrite (bkept_disks _ _ K).
  - apply bwp_ret, HQ. destruct K. by split.
Qed.
Lemma bwp_call_unwire a b (Q : Result (Result unit string) _ → _) w :
  (∀ r, P (disks w) (BiUnwire a b r)) → (∀ r w', bkept w w' → Q (Ok r) w') → bwp P (call_bilateral_unwire a b) Q w.
Proof.
  intros HP HQ. apply bwp_bind, bwp_observe. intros n w1 K. apply bwp_bind. eexists [_]. split_and!; [done|done| |].
  - simpl. split; [|done]. by rewrite (bkept_disks _ _ K).
  - apply bwp_ret, HQ. destruct K. by split.
Qed.
End effects.

(** ** Calls on one runtime *)

Context (Hne : f ≠ s).

Lemma set_runtime_eq g a rt : set_runtime g a rt a = rt.
Proof. unfold set_runtime. by rewrite bool_decide_true. Qed.
Lemma set_runtime_ne g a b rt : a ≠ b → set_runtime g a rt b = g b.
Proof. intros. unfold set_runtime. by rewrite bool_decide_false. Qed.

(** The world [w'] is [w] with another memory and file of the authority [a]. *)
Record runtime_moved (a : string) (w : BilateralWorld) mem disk (w' : BilateralWorld) : Prop := {
  rmoved_mem : bw_mem w' = bw_mem w;
  rmoved_disk : bw_disk w' = bw_disk w;
  rmoved_runtime : moved (bw_runtimes w a) mem disk (bw_runtimes w' a);
  rmoved_others : ∀ b, b ≠ a → bw_runtimes w' b = bw_runtimes w b;
}.

Definition with_side (a : string) (d : Disks) (x : option TopologyIntentState) : Disks :=
  mkDisks (dk_journal d) (if a =b f then x else dk_first d) (if a =b s then x else dk_second d).

(** An effect of one runtime leaves the other files. *)
Lemma replay_runtime a d es x :
  (a = f → dk_first d = x) → (a = s → dk_second d = x) →
  foldl replay_bilateral d (BiRuntime a <$> es) = with_side a d (foldl replay_disk x es).
Proof.
  revert d x. induction es as [|e es IH]; intros d x Hf Hs; cbn [fmap list_fmap foldl].
  - destruct d as [j d1 d2]. unfold with_side. cbn in *. by repeat case_bool_decide; f_equal; auto.
  - rewrite (IH _ (replay_disk x e)); unfold with_side; cbn.
    + f_equal; by repeat case_bool_decide.
    + intros ->. rewrite bool_decide_true by done. by rewrite Hf.
    + intros ->. rewrite bool_decide_true by done. by rewrite Hs.
Qed.
Lemma bchain_runtime P a d es x (P' : EventSpec) :
  (a = f → dk_first d = x) → (a = s → dk_second d = x) →
  (∀ y e, P' y e → P (with_side a d y) (BiRuntime a e)) → chain P' x es → bchain P d (BiRuntime a <$> es).
Proof.
  revert d x. induction es as [|e es IH]; intros d x Hf Hs HP; [done|]. cbn [fmap list_fmap bchain]. intros [He Hc]. split.
  - replace d with (with_side a d x); [by apply HP|]. destruct d as [j d1 d2]. unfold with_side. cbn in *.
    by repeat case_bool_decide; f_equal; auto using eq_sym.
  - apply (IH _ (replay_disk x e)); cbn; [| |intros y ev Hy|done].
    + intros ->. rewrite bool_decide_true by done. by rewrite Hf.
    + intros ->. rewrite bool_decide_true by done. by rewrite Hs.
    + replace (with_side a _ y) with (with_side a d y); [by apply HP|]. unfold with_side. cbn. by repeat case_bool_decide.
Qed.

Context `{BilateralEnv} (P : DiskSpec).

Lemma bwp_on a {A} (m : TM A) (P' : EventSpec) (Q : Result A _ → BilateralWorld → Prop) w :
  (∀ y e, P' y e → P (with_side a (disks w) y) (BiRuntime a e)) →
  twp P' m (λ r rt, ∀ w', bw_mem w' = bw_mem w → bw_disk w' = bw_disk w → bw_runtimes w' a = rt →
                     (∀ b, b ≠ a → bw_runtimes w' b = bw_runtimes w b) → Q r w') (bw_runtimes w a) →
  bwp P (on a m) Q w.
Proof.
  intros HP (es & Ht & _ & Hd & Hc & HQ). exists (BiRuntime a <$> es). unfold on. destruct (m (bw_runtimes w a)) as [r rt]. cbn in *.
  rewrite Ht, drop_app_length. split_and!; [done| | |].
  - rewrite (replay_runtime a _ es (tw_disk (bw_runtimes w a))) by (by intros ->). rewrite <- Hd.
    unfold disks, with_side. cbn [bw_disk bw_runtimes dk_journal dk_first dk_second]. f_equal.
    + unfold set_runtime. rewrite (bool_decide_ext (f = a) (a = f)) by (split; congruence). by case_bool_decide.
    + unfold set_runtime. rewrite (bool_decide_ext (s = a) (a = s)) by (split; congruence). by case_bool_decide.
  - by apply (bchain_runtime P a _ es (tw_disk (bw_runtimes w a)) P'); [intros ->|intros ->| |].
  - apply HQ; [done|done|apply set_runtime_eq|]. intros b Hb. cbn. by apply set_runtime_ne.
Qed.

Lemma bwp_persist_runtime a st (Q : Result unit _ → _) w :
  P (disks w) (BiRuntime a (EvPersisted st)) → tw_durable (bw_runtimes w a) = true →
  (∀ w', runtime_moved a w (tw_mem (bw_runtimes w a)) (Some st) w' → Q (Ok tt) w') →
  (∀ e d w', runtime_moved a w (tw_mem (bw_runtimes w a)) d w' → d = tw_disk (bw_runtimes w a) ∨ d = Some st → Q (Err (Persistence e)) w') →
  bwp P (persist_runtime a st) Q w.
Proof.
  intros HP Hdur HQ HE.
  apply (bwp_on a _ (λ y e, y = tw_disk (bw_runtimes w a) ∧ e = EvPersisted st)).
  { intros y e [-> ->]. replace (with_side a (disks w) _) with (disks w); [done|]. unfold with_side, disks. cbn.
    by repeat case_bool_decide; f_equal; subst. }
  apply (@twp_persist (bi_env a)); [done| |].
  - intros d rt M Hd w' Hm Hdk Hrt Ho. rewrite Hdur in Hd. subst d. apply HQ. split; [done|done|by rewrite Hrt|done].
  - intros e d rt M Hd w' Hm Hdk Hrt Ho. eapply HE; [|exact Hd]. split; [done|done|by rewrite Hrt|done].
Qed.
Lemma bwp_publish_runtime a st (Q : Result unit _ → _) w :
  P (disks w) (BiRuntime a (EvPublished st)) →
  (∀ w', runtime_moved a w st (tw_disk (bw_runtimes w a)) w' → Q (Ok tt) w') →
  bwp P (publish_runtime a st) Q w.
Proof.
  intros HP HQ. apply (bwp_on a _ (λ y e, y = tw_disk (bw_runtimes w a) ∧ e = EvPublished st)).
  { intros y e [-> ->]. replace (with_side a (disks w) _) with (disks w); [done|]. unfold with_side, disks. cbn.
    by repeat case_bool_decide; f_equal; subst. }
  apply twp_publish; [done|]. intros rt M w' Hm Hdk Hrt Ho. apply HQ. split; [done|done|by rewrite Hrt|done].
Qed.
(** A call that changes nothing of the runtime's state. *)
Lemma bwp_on_quiet a {A} (m : TM A) (Q : Result A _ → BilateralWorld → Prop) w :
  (∀ e, is_state_event e = false → P (disks w) (BiRuntime a e)) →
  quiet (λ d, d = tw_disk (bw_runtimes w a)) (λ d e, d = tw_disk (bw_runtimes w a) ∧ is_state_event e = false) m →
  (∀ r w', bkept w w' → Q r w') → bwp P (on a m) Q w.
Proof.
  intros HP Hm HQ. apply (bwp_on a _ (λ d e, d = tw_disk (bw_runtimes w a) ∧ is_state_event e = false)).
  { intros y e [-> He]. replace (with_side a (disks w) _) with (disks w); [by apply HP|]. unfold with_side, disks. cbn.
    by repeat case_bool_decide; f_equal; subst. }
  apply Hm; [done|]. intros r rt K w' Hmem Hdk Hrt Ho. apply HQ. split; [done|done|]. intros b.
  destruct (decide (b = a)) as [->|Hb]; [by rewrite Hrt|]. rewrite Ho by done. apply kept_refl.
Qed.
End logic.
