(* ===== verification/BilateralInvariant.v ===== *)
(** * Bilateral topology: the invariant of the three files

    Cross-authority intent and the merge of a journal's deltas, and which contents of
    the intent files go with which journal. *)

From S2P Require Import Prelude Strings MemoryRecords TopologyTypes TopologyState TopologyWorld EdgeReconcile TopologyController TopologyLogic TopologyApply BilateralState BilateralCoordinator BilateralLogic.
Open Scope Z_scope.

(** ** Cross-authority intent

    What a batch asks of the cross-authority intent of an authority, and that merging a
    journal's deltas gives exactly that, whether or not the batch is in the intent
    already; and which changes of an authority's state keep it well formed. *)

(** ** Cross-authority intent *)

Definition CrossIntent : Type := gset TopologyEdge * gset TopologyEdge.
Definition cross (st : TopologyIntentState) : CrossIntent := (cross_additions st, cross_suppressions st).
Definition request_cross (X : CrossIntent) (op : TopologyMutation) : CrossIntent :=
  match mut_action op with
  | Connect | Reconnect => ({[mut_edge op]} ∪ X.1, X.2 ∖ {[mut_edge op]})
  | Disconnect => (X.1 ∖ {[mut_edge op]}, {[mut_edge op]} ∪ X.2)
  end.
(** What a batch asks of the intent of an authority. *)
Definition requested_cross (ops : list TopologyMutation) (X : CrossIntent) : CrossIntent := foldl request_cross X ops.

Lemma cross_apply_one op st : cross (apply_cross_intent op st) = request_cross (cross st) op.
Proof. unfold apply_cross_intent, request_cross. by destruct (mut_action op). Qed.
Lemma cross_apply ops st : cross (foldl (λ st op, apply_cross_intent op st) st ops) = requested_cross ops (cross st).
Proof. revert st. induction ops as [|op ops IH]; intros st; [done|]. simpl. rewrite IH. by rewrite cross_apply_one. Qed.

Lemma requested_elsewhere ops X e :
  e ∉ mut_edge <$> ops → (e ∈ (requested_cross ops X).1 ↔ e ∈ X.1) ∧ (e ∈ (requested_cross ops X).2 ↔ e ∈ X.2).
Proof.
  revert X. induction ops as [|op ops IH]; intros X He; [done|]. rewrite fmap_cons, not_elem_of_cons in He. destruct He as [Hne He].
  simpl. destruct (IH (request_cross X op) He) as [-> ->]. unfold request_cross. destruct (mut_action op); cbn; set_solver.
Qed.

(** Merging the memberships of [T] at some edges. *)
Definition merge_to (T : TopologyIntentState) (es : list TopologyEdge) (st : TopologyIntentState) : TopologyIntentState :=
  foldl (λ st e, merge_delta (membership T e) e st) st es.
Lemma merge_to_spec T es st e :
  (e ∈ cross_additions (merge_to T es st) ↔ if decide (e ∈ es) then e ∈ cross_additions T else e ∈ cross_additions st) ∧
  (e ∈ cross_suppressions (merge_to T es st) ↔ if decide (e ∈ es) then e ∈ cross_suppressions T else e ∈ cross_suppressions st).
Proof.
  revert st. induction es as [|x es IH]; intros st.
  { unfold merge_to. simpl. destruct (decide (e ∈ [])) as [[]%elem_of_nil|]; done. }
  unfold merge_to in *. simpl. destruct (IH (merge_delta (membership T x) x st)) as [-> ->]. unfold merge_delta, membership, set_member. cbn.
  destruct (decide (e ∈ x :: es)) as [Hx|Hx]; rewrite elem_of_cons in Hx;
    destruct (decide (e ∈ es)) as [Hin|Hnin]; try tauto.
  - destruct Hx as [->|]; [|done]. split; case_bool_decide; set_solver.
  - split; case_bool_decide; set_solver.
Qed.
(** Merging the target at the edges of a batch gives the target, whether the batch was
    applied already or not. *)
Lemma merge_to_target ops X T st :
  cross T = requested_cross ops X → cross st = X ∨ cross st = requested_cross ops X →
  cross (merge_to T (mut_edge <$> ops) st) = requested_cross ops X.
Proof.
  intros HT Hst. unfold cross in *. rewrite (surjective_pairing (requested_cross ops X)) in *. injection HT as HT1 HT2.
  f_equal; apply set_eq; intros e; destruct (merge_to_spec T (mut_edge <$> ops) st e) as [H1 H2].
  - rewrite H1. destruct (decide _) as [Hin|Hnin]; [by rewrite HT1|]. destruct (requested_elsewhere ops X e Hnin) as [-> _].
    destruct Hst as [<-|[= -> _]]; [done|]. apply (requested_elsewhere ops X e Hnin).
  - rewrite H2. destruct (decide _) as [Hin|Hnin]; [by rewrite HT2|]. destruct (requested_elsewhere ops X e Hnin) as [_ ->].
    destruct Hst as [<-|[= _ ->]]; [done|]. apply (requested_elsewhere ops X e Hnin).
Qed.
Lemma merge_to_same es T st : cross T = cross st → cross (merge_to T es st) = cross st.
Proof.
  intros [= H1 H2]. unfold cross. f_equal; apply set_eq; intros e; destruct (merge_to_spec T es st e) as [E1 E2]; [rewrite E1|rewrite E2]; case_match; by rewrite ?H1, ?H2.
Qed.
Lemma merge_to_frame T es st :
  ∃ adds supps, merge_to T es st = with_cross st adds supps.
Proof.
  revert st. induction es as [|e es IH]; intros st.
  - exists (cross_additions st), (cross_suppressions st). by destruct st.
  - destruct (IH (merge_delta (membership T e) e st)) as (adds & supps & E). exists adds, supps. unfold merge_to in *. simpl. by rewrite E.
Qed.

(** ** States of one authority *)

Section states.
Context `{BilateralEnv}.

Record holds (a : string) (X : CrossIntent) (st : TopologyIntentState) : Prop := {
  holds_ok : @state_ok (@env_uuid_v5 (bi_env a)) st;
  holds_pending : pending st = None;
  holds_cross : cross st = X;
}.
Definition on_file (a : string) (X : CrossIntent) (d : option TopologyIntentState) : Prop := ∃ st, d = Some st ∧ holds a X st.

Lemma holds_rewrite a X st c :
  holds a X st → is_u64 (committed_revision c) → committed_additions c = additions st → committed_suppressions c = suppressions st →
  holds a (committed_cross_additions c, committed_cross_suppressions c) (with_intent st c).
Proof.
  intros [[Hr Hd Hj Hi Ha] Hp Hx] Hu Ea Es. split; [|done|done]. split; try done; cbn.
  - by rewrite Ea, Es.
  - intros p Hp'. rewrite Hp in Hp'. done.
Qed.
Lemma holds_revision_u64 a X st : holds a X st → is_u64 (revision st).
Proof. intros [[Hr _ _ _ _] _ _]. done. Qed.
Lemma holds_with_revision a X st r : holds a X st → is_u64 r → holds a X (with_revision st r).
Proof.
  intros Hh Hr. pose proof (holds_cross _ _ _ Hh) as <-.
  by apply (holds_rewrite a (cross st) st (mkCommitted r (additions st) (suppressions st) (cross_additions st) (cross_suppressions st))).
Qed.
Lemma holds_with_cross a X st adds supps : holds a X st → holds a (adds, supps) (with_cross st adds supps).
Proof.
  intros Hh. apply (holds_rewrite a X st (mkCommitted (revision st) (additions st) (suppressions st) adds supps)); try done.
  by eapply holds_revision_u64.
Qed.
Lemma holds_with_binding a X st k b : holds a X st → holds a X (with_binding st k b).
Proof.
  intros [[Hr Hd Hj Hi Ha] Hp Hx]. split; [|done|done]. split; try done. intros p Hp'. unfold with_binding in Hp'. cbn in Hp'. by rewrite Hp in Hp'.
Qed.
Lemma holds_apply a X st ops : holds a X st → holds a (requested_cross ops X) (foldl (λ st op, apply_cross_intent op st) st ops).
Proof.
  revert X st. induction ops as [|op ops IH]; intros X st Hh; [done|]. simpl. apply IH. unfold apply_cross_intent, request_cross.
  pose proof (holds_cross _ _ _ Hh) as <-. destruct (mut_action op); by eapply holds_with_cross.
Qed.
Lemma holds_merge_to a X Y T es st : holds a X st → cross (merge_to T es st) = Y → holds a Y (merge_to T es st).
Proof.
  intros Hh HY. destruct (merge_to_frame T es st) as (adds & supps & E). rewrite E in *. rewrite <- HY. by eapply holds_with_cross.
Qed.

(** The merge of recovery, over the states a journal was made from. *)
Lemma merge_deltas_to committed a before after T ops st ch :
  (∀ op, op ∈ ops → delta_side committed (intent_delta before after op) !! a = Some (membership T (mut_edge op))) →
  ∃ ch', merge_deltas committed a (intent_delta before after <$> ops) st ch = Ok (merge_to T (mut_edge <$> ops) st, ch').
Proof.
  revert st ch. induction ops as [|op ops IH]; intros st ch HT; [by exists ch|]. cbn [fmap list_fmap merge_deltas]. rewrite HT by (by left).
  apply IH. intros op' Hin. apply HT. by right.
Qed.

Lemma merge_state_to committed a before after T ops p st target r0 X :
  bp_deltas p = intent_delta before after <$> ops →
  (∀ op, op ∈ ops → delta_side committed (intent_delta before after op) !! a = Some (membership T (mut_edge op))) →
  bp_revisions_before p !! a = Some r0 → (if committed then bp_revisions_after p else bp_revisions_before p) !! a = Some target →
  is_u64 target → holds a X st →
  ∃ st', merge_state p committed a st = Ok st' ∧ holds a (cross (merge_to T (mut_edge <$> ops) st)) st'.
Proof.
  intros Hd HT H0 H1 Hu Hh. unfold merge_state. rewrite Hd.
  destruct (merge_deltas_to committed a before after T ops st false HT) as [ch ->]. cbn [and_then].
  rewrite H0. cbn. rewrite H1. cbn. eexists. split; [done|]. apply holds_with_revision; [by eapply holds_merge_to|].
  pose proof (holds_revision_u64 _ _ _ Hh). destruct (_ =? _); [done|]. destruct ch; [by apply is_u64_succ|done].
Qed.
End states.

(** ** The invariant of the three files

    The cross-authority intent of the two authorities is [X] before an operation and
    [new] after it.  [coherent] says which contents of the two intent files go with which
    journal: an open journal that is not committed goes with the old intent of both, a
    committed one with either intent of each, and a closed one with the same of both.
    [Inv pm M w] adds what the process knows: its copy of the journal is open as [pm]
    says and its copies of the intent are [M].  Every effect of a call that keeps it
    leaves coherent files. *)

Notation Intents := (string → CrossIntent).

Section invariant.
Context (f s : string) (Hne : f ≠ s) `{BilateralEnv} (X : Intents) (ops : list TopologyMutation).

Definition side (a : string) : Prop := a = f ∨ a = s.
Definition new : Intents := λ a, requested_cross ops (X a).
Definition same (Y Z : Intents) : Prop := ∀ a, side a → Y a = Z a.
Definition mixed (Z : Intents) : Prop := ∀ a, side a → Z a = X a ∨ Z a = new a.
Definition is_committed (p : PendingBilateralOperation) : bool := bp_decision p =b DecCommitted.
Definition outcome (committed : bool) : Intents := if committed then new else X.

Lemma same_refl Y : same Y Y.
Proof. by intros a _. Qed.
Lemma same_mixed Z b : same Z (outcome b) → mixed Z.
Proof. intros HZ a Ha. rewrite (HZ a Ha). destruct b; [by right|by left]. Qed.

(** The journal merges into the intent it was written for. *)
Definition journal_for (p : PendingBilateralOperation) : Prop := ∀ a st, side a →
  (holds a (X a) st ∨ holds a (new a) st → ∃ st', merge_state p true a st = Ok st' ∧ holds a (new a) st') ∧
  (holds a (X a) st → ∃ st', merge_state p false a st = Ok st' ∧ holds a (X a) st').
Lemma journal_for_ext p q :
  bp_deltas q = bp_deltas p → bp_revisions_before q = bp_revisions_before p → bp_revisions_after q = bp_revisions_after p →
  journal_for p → journal_for q.
Proof. intros Ed Eb Ea Hj a st Ha. destruct (Hj a st Ha) as [H1 H2]. unfold merge_state in *. rewrite Ed, Eb, Ea. done. Qed.
Lemma journal_for_decided p d : journal_for p → journal_for (bp_with_decision p d).
Proof. by apply journal_for_ext. Qed.
Lemma journal_for_failed p e : journal_for p → journal_for (bp_recovery_failed p e).
Proof. by apply journal_for_ext. Qed.

Definition coherent (pd : option PendingBilateralOperation) (Z : Intents) : Prop :=
  match pd with
  | None => same Z X ∨ same Z new
  | Some p => journal_for p ∧ if is_committed p then mixed Z else same Z X
  end.

Definition files (D : Disks) (pd : option PendingBilateralOperation) (Z : Intents) : Prop :=
  (∃ j, dk_journal D = Some j ∧ bc_pending j = pd) ∧ on_file f (Z f) (dk_first D) ∧ on_file s (Z s) (dk_second D).
Definition consistent (D : Disks) : Prop := ∃ pd Z, files D pd Z ∧ coherent pd Z.
(** Every effect leaves the three files consistent. *)
Definition stays_consistent : DiskSpec := λ D e, consistent (replay_bilateral f s D e).

(** ** What a process knows *)

Inductive sit (pm pd : option PendingBilateralOperation) (M Z : Intents) : Prop :=
| sit_old : same M X → same Z X → (∀ p, pm = Some p → is_committed p = false ∧ journal_for p) →
    (∀ p, pd = Some p → journal_for p) → sit pm pd M Z
| sit_new : pm = None → pd = None → same M new → same Z new → sit pm pd M Z
| sit_committed p : pm = Some p → is_committed p = true → journal_for p → mixed M → mixed Z →
    match pd with Some q => is_committed q = true ∧ journal_for q | None => same M new ∧ same Z new end → sit pm pd M Z.

Lemma sit_coherent pm pd M Z : sit pm pd M Z → coherent pd Z.
Proof.
  intros [HM HZ Hm Hd| -> -> HM HZ|p -> Hc Hp HM HZ Hd]; unfold coherent.
  - destruct pd as [p|]; [|by left]. split; [by apply Hd|]. case_match; [|done]. by apply (same_mixed Z false).
  - by right.
  - destruct pd as [q|]; [|right; apply Hd]. destruct Hd as [Hq ?]. by rewrite Hq.
Qed.
Lemma coherent_sit pd Z : coherent pd Z → sit pd pd Z Z.
Proof.
  intros HZ. destruct pd as [p|]; cbn in HZ.
  - destruct HZ as [Hp HZ]. destruct (is_committed p) eqn:Hc.
    + by apply (sit_committed _ _ _ _ p).
    + by apply sit_old; [| |intros q [= <-]|intros q [= <-]].
  - destruct HZ as [HZ|HZ]; [by apply sit_old|by apply sit_new].
Qed.

(** The journal is written again as the process knows it. *)
Lemma sit_rewrite pm pd M Z : sit pm pd M Z → sit pm pm M Z.
Proof.
  intros [HM HZ Hm Hd| -> -> HM HZ|p -> Hc Hp HM HZ Hd].
  - apply sit_old; try done. intros p Hp. by apply Hm.
  - by apply sit_new.
  - by apply (sit_committed _ _ _ _ p).
Qed.
Definition upd (Z : Intents) (a : string) (x : CrossIntent) : Intents := λ b, if b =b a then x else Z b.
Lemma upd_eq Z a x : upd Z a x a = x.
Proof. unfold upd. by rewrite bool_decide_true. Qed.
Lemma upd_ne Z a b x : b ≠ a → upd Z a x b = Z b.
Proof. intros. unfold upd. by rewrite bool_decide_false. Qed.
Lemma same_upd Z Y a x : same Z Y → (side a → x = Y a) → same (upd Z a x) Y.
Proof. intros HZ Hx b Hb. unfold upd. case_bool_decide; [subst; auto|by apply HZ]. Qed.
Lemma mixed_upd Z a x : mixed Z → (side a → x = X a ∨ x = new a) → mixed (upd Z a x).
Proof. intros HZ Hx b Hb. unfold upd. case_bool_decide; [subst; auto|by apply HZ]. Qed.

(** An intent file is written again as the process knows it. *)
Lemma sit_stored pm pd M Z a : sit pm pd M Z → sit pm pd M (upd Z a (M a)).
Proof.
  intros [HM HZ Hm Hd| -> -> HM HZ|p -> Hc Hp HM HZ Hd].
  - apply sit_old; try done. by apply same_upd; [|apply HM].
  - apply sit_new; try done. by apply same_upd; [|apply HM].
  - apply (sit_committed _ _ _ _ p); try done; [by apply mixed_upd; [|apply HM]|]. destruct pd as [q|]; [done|].
    destruct Hd as [HM' HZ']. split; [done|]. by apply same_upd; [|apply HM'].
Qed.

Record has (w : BilateralWorld) (pm pd : option PendingBilateralOperation) (M Z : Intents) : Prop := {
  has_mem : bc_pending (bw_mem w) = pm;
  has_disk : ∃ j, bw_disk w = Some j ∧ bc_pending j = pd;
  has_intent : ∀ a, side a → holds a (M a) (tw_mem (bw_runtimes w a));
  has_file : ∀ a, side a → on_file a (Z a) (tw_disk (bw_runtimes w a));
  has_durable : ∀ a, side a → tw_durable (bw_runtimes w a) = true;
}.
Definition InvZ pm M Z (w : BilateralWorld) : Prop := ∃ pd, has w pm pd M Z ∧ sit pm pd M Z.
Definition Inv pm M (w : BilateralWorld) : Prop := ∃ Z, InvZ pm M Z w.

Lemma side_f : side f.
Proof. by left. Qed.
Lemma side_s : side s.
Proof. by right. Qed.
Hint Resolve side_f side_s : core.

Lemma has_files w pm pd M Z : has w pm pd M Z → files (disks f s w) pd Z.
Proof. intros [_ Hd _ Hf _]. split_and!; [done|by apply (Hf f)|by apply (Hf s)]. Qed.
Lemma inv_consistent pm M w : Inv pm M w → consistent (disks f s w).
Proof. intros (Z & pd & Hh & Hs). exists pd, Z. split; [by eapply has_files|by eapply sit_coherent]. Qed.

Lemma has_bkept w w' pm pd M Z : bkept w w' → has w pm pd M Z → has w' pm pd M Z.
Proof.
  intros [Hm Hd Hr] [Hm' Hd' Hi Hf Hu]. split; [by rewrite Hm|by rewrite Hd| | |]; intros a Ha; destruct (Hr a) as [Em Ed _ Eu].
  - rewrite Em. auto.
  - rewrite Ed. auto.
  - rewrite Eu. auto.
Qed.
Lemma invz_bkept w w' pm M Z : bkept w w' → InvZ pm M Z w → InvZ pm M Z w'.
Proof. intros K (pd & Hh & Hs). exists pd. split; [by eapply has_bkept|done]. Qed.
Lemma inv_bkept w w' pm M : bkept w w' → Inv pm M w → Inv pm M w'.
Proof. intros K (Z & Hi). exists Z. by eapply invz_bkept. Qed.

Lemma invz_ext pm M M' Z Z' w : same M' M → same Z' Z → InvZ pm M Z w → InvZ pm M' Z' w.
Proof.
  intros EM EZ (pd & [Hm Hd Hi Hf Hu] & Hs). exists pd. split.
  - split; try done; intros a Ha; [rewrite EM by done|rewrite EZ by done]; auto.
  - assert (∀ Y, same M Y → same M' Y) as TM by (intros Y HY a Ha; rewrite EM by done; auto).
    assert (∀ Y, same Z Y → same Z' Y) as TZ by (intros Y HY a Ha; rewrite EZ by done; auto).
    destruct Hs as [HM HZ Hpm Hpd| -> -> HM HZ|p -> Hc Hp HM HZ Hpd].
    + apply sit_old; auto.
    + apply sit_new; auto.
    + apply (sit_committed _ _ _ _ p); try done; [intros a Ha; rewrite EM by done; auto|intros a Ha; rewrite EZ by done; auto|].
      destruct pd; [done|]. naive_solver.
Qed.

(** ** Effects *)

Lemma has_journaled w w' pm pd M Z mem disk pm' pd' :
  has w pm pd M Z → journaled_as w mem disk w' → bc_pending mem = pm' → (∃ j, disk = Some j ∧ bc_pending j = pd') → has w' pm' pd' M Z.
Proof.
  intros [Hm Hd Hi Hf Hu] [Hm' Hd' Hr] Em Ed. split; [by rewrite Hm'|by rewrite Hd'| | |]; intros a Ha; destruct (Hr a) as [E1 E2 _ E3].
  - rewrite E1. auto.
  - rewrite E2. auto.
  - rewrite E3. auto.
Qed.

(** The journal moves from [pm] to [pm']. *)
Lemma bwp_journal st pm pm' M Z (Q : Result unit _ → _) w :
  InvZ pm M Z w → bc_pending st = pm' →
  (∀ pd, sit pm pd M Z → sit pm pm' M Z ∧ sit pm' pm' M Z) →
  (∀ w', InvZ pm' M Z w' → bw_mem w' = st → Q (Ok tt) w') →
  (∀ e w', InvZ pm M Z w' → bw_mem w' = bw_mem w → Q (Err e) w') →
  bwp f s stays_consistent (commit_journal st) Q w.
Proof.
  intros (pd & Hh & Hs) Hst Hmove HQ HE. destruct (Hmove pd Hs) as [Hs1 Hs2].
  assert (∀ d, dk_first d = dk_first (disks f s w) → dk_second d = dk_second (disks f s w) → dk_journal d = Some st → consistent d) as Hcon.
  { intros d E1 E2 E3. exists pm', Z. split; [|by eapply sit_coherent]. destruct (has_files _ _ _ _ _ Hh) as (_ & ? & ?).
    split_and!; [by eexists|by rewrite E1|by rewrite E2]. }
  apply bwp_commit_journal; [by apply Hcon|by apply Hcon| |].
  - intros w' J. apply HQ; [|apply J]. exists pm'. split; [|done]. eapply has_journaled; [done|done|done|by eexists].
  - intros e d w' J Hd. apply HE; [|apply J]. destruct Hd as [->| ->].
    + exists pd. split; [|done]. eapply has_journaled; [done|done|apply Hh|apply Hh].
    + exists pm'. split; [|done]. eapply has_journaled; [done|done|apply Hh|by eexists].
Qed.

Lemma has_runtime w w' pm pd M Z a mem disk M' Z' :
  has w pm pd M Z → runtime_moved a w mem disk w' →
  holds a (M' a) mem → on_file a (Z' a) disk → (∀ b, b ≠ a → M' b = M b ∧ Z' b = Z b) → has w' pm pd M' Z'.
Proof.
  intros [Hm Hd Hi Hf Hu] [Em Ed Er Eo] Hmem Hdisk Ho. split; [by rewrite Em|by rewrite Ed| | |]; intros b Hb;
    (destruct (decide (b = a)) as [->|Hba]; [destruct Er as [E1 E2 _ E3]|rewrite (Eo b Hba); destruct (Ho b Hba) as [E1 E2]]).
  - by rewrite E1.
  - rewrite E1. auto.
  - by rewrite E2.
  - rewrite E2. auto.
  - rewrite E3. auto.
  - auto.
Qed.

(** The intent file of [a] moves to [x]. *)
Lemma bwp_store a st x pm M Z (Q : Result unit _ → _) w :
  InvZ pm M Z w → side a → holds a x st →
  (∀ pd, sit pm pd M Z → sit pm pd M (upd Z a x)) →
  (∀ w', InvZ pm M (upd Z a x) w' → bw_mem w' = bw_mem w → Q (Ok tt) w') →
  (∀ e w', Inv pm M w' → Q (Err e) w') →
  bwp f s stays_consistent (persist_runtime a st) Q w.
Proof.
  intros (pd & Hh & Hs) Ha Hst Hmove HQ HE. pose proof (Hmove pd Hs) as Hs'.
  assert (∀ w', runtime_moved a w (tw_mem (bw_runtimes w a)) (Some st) w' → InvZ pm M (upd Z a x) w') as Hstored.
  { intros w' R. exists pd. split; [|done]. eapply has_runtime; [done|done|by apply Hh| |].
    - eexists. split; [done|]. by rewrite upd_eq.
    - intros b Hb. by rewrite upd_ne. }
  apply (bwp_persist_runtime f s Hne); [|by apply Hh| |].
  - exists pd, (upd Z a x). split; [|by eapply sit_coherent]. destruct (has_files _ _ _ _ _ Hh) as (Hj & Hf & Hsec).
    split_and!; [done| |]; cbn.
    + case_bool_decide; [subst; rewrite upd_eq; by eexists|rewrite upd_ne by done; done].
    + case_bool_decide; [subst; rewrite upd_eq; by eexists|rewrite upd_ne by done; done].
  - intros w' R. apply HQ; [by apply Hstored|apply R].
  - intros e d w' R [->| ->]; [|by apply HE; eexists; apply Hstored]. apply HE. exists Z, pd. split; [|done].
    eapply has_runtime; [done|done|by apply Hh|by apply Hh|done].
Qed.
(** The process's intent of [a] moves to [x]. *)
Lemma bwp_show a st x pm M Z (Q : Result unit _ → _) w :
  InvZ pm M Z w → side a → holds a x st →
  (∀ pd, sit pm pd M Z → sit pm pd (upd M a x) Z) →
  (∀ w', InvZ pm (upd M a x) Z w' → bw_mem w' = bw_mem w → Q (Ok tt) w') →
  bwp f s stays_consistent (publish_runtime a st) Q w.
Proof.
  intros (pd & Hh & Hs) Ha Hst Hmove HQ. apply (bwp_publish_runtime f s Hne).
  - exists pd, Z. split; [|by eapply sit_coherent]. destruct (has_files _ _ _ _ _ Hh) as (Hj & Hf & Hsec).
    split_and!; [done| |]; cbn; by case_bool_decide.
  - intros w' R. apply HQ; [|apply R]. exists pd. split; [|by apply Hmove].
    eapply has_runtime; [done|done|by rewrite upd_eq|by apply Hh|]. intros b Hb. by rewrite upd_ne.
Qed.
End invariant.
