(* ===== verification/BilateralOperations.v ===== *)
(** * Bilateral topology: the operations against the invariant

    Calls that move no intent, and how the terminal receipt, the execution of a batch
    and the recovery of a journal move it. *)

From S2P Require Import Prelude Strings MemoryRecords TopologyTypes TopologyState TopologyWorld EdgeReconcile TopologyController TopologyLogic TopologyApply BilateralState BilateralCoordinator BilateralLogic BilateralInvariant.
Open Scope Z_scope.

(** ** Calls that move no intent

    [keeps pm M m]: from a world where the process's journal is [pm] and its intent is
    [M], every effect of [m] leaves the three files consistent, and the process knows
    the same afterwards.  Binding the pair, the snapshot, the audit records and the
    actuators are such calls. *)

Section keeps.
Context (f s : string) (Hne : f ≠ s) `{BilateralEnv} (X : Intents) (ops : list TopologyMutation).
Context (pm : option PendingBilateralOperation) (M : Intents).
Notation Inv := (Inv f s X ops).
Notation stays_consistent := (stays_consistent f s X ops).
Notation side := (side f s).

Definition keeps {A} (m : BM A) : Prop := ∀ w (Q : Result A _ → BilateralWorld → Prop),
  Inv pm M w → (∀ r w', Inv pm M w' → Q r w') → bwp f s stays_consistent m Q w.

Lemma keeps_silent {A} (m : BM A) :
  (∀ w (Q : Result A _ → BilateralWorld → Prop), (∀ r w', bkept w w' → Q r w') → bwp f s stays_consistent m Q w) → keeps m.
Proof. intros Hm w Q Hi HQ. apply Hm. intros r w' K. apply HQ. by eapply inv_bkept. Qed.
Lemma keeps_ret {A} (a : A) : keeps (mret a).
Proof. intros w Q Hi HQ. by apply bwp_ret, HQ. Qed.
Lemma keeps_throw {A} e : keeps (throw e : BM A).
Proof. intros w Q Hi HQ. by apply bwp_throw, HQ. Qed.
Lemma keeps_lift {A} (r : Result A _) : keeps (lift_result r).
Proof. intros w Q Hi HQ. by apply bwp_lift, HQ. Qed.
Lemma keeps_gets {A} (g : BilateralWorld → A) : keeps (gets g).
Proof. intros w Q Hi HQ. by apply bwp_gets, HQ. Qed.
Lemma keeps_bind {A B} (m : BM A) (k : A → BM B) : keeps m → (∀ a, keeps (k a)) → keeps (m ≫= k).
Proof. intros Hm Hk w Q Hi HQ. apply bwp_bind, Hm; [done|]. intros [a|e] w' Hi'; [by apply Hk|by apply HQ]. Qed.
Lemma keeps_catch {A} (m : BM A) : keeps m → keeps (catch m : BM (Result A TopologyControlError)).
Proof. intros Hm w Q Hi HQ. apply bwp_catch, Hm; [done|]. intros r w' Hi'. by apply HQ. Qed.
Lemma keeps_observe : keeps b_observe.
Proof. apply keeps_silent. intros w Q HQ. apply bwp_observe. auto. Qed.
Lemma keeps_observe_many k : keeps (b_observe_many k).
Proof. apply keeps_silent. intros w Q HQ. apply bwp_observe_many. auto. Qed.
Lemma keeps_set_reconciled b : keeps (b_set_reconciled b).
Proof. apply keeps_silent. intros w Q HQ. apply bwp_set_reconciled. auto. Qed.
Lemma keeps_set_error e : keeps (b_set_error e).
Proof. apply keeps_silent. intros w Q HQ. apply bwp_set_error. auto. Qed.
Lemma keeps_set_owner k o : keeps (b_set_owner k o).
Proof. apply keeps_silent. intros w Q HQ. apply bwp_set_owner. auto. Qed.

(** What is read is what the process knows. *)
Lemma keeps_journal {B} (k : BilateralCoordinatorState → BM B) :
  (∀ st, bc_pending st = pm → keeps (k st)) → keeps (gets bw_mem ≫= k).
Proof. intros Hk w Q Hi HQ. apply bwp_bind, bwp_gets, Hk; [|done|done]. destruct Hi as (Z & pd & Hh & _). apply Hh. Qed.
Lemma keeps_state a {B} (k : TopologyIntentState → BM B) :
  side a → (∀ st, holds a (M a) st → keeps (k st)) → keeps (runtime_state a ≫= k).
Proof. intros Ha Hk w Q Hi HQ. apply bwp_bind, bwp_gets, Hk; [|done|done]. destruct Hi as (Z & pd & Hh & _). by apply Hh. Qed.
Lemma keeps_policy a : keeps (runtime_policy a).
Proof. apply keeps_gets. Qed.

Lemma keeps_commit st : bc_pending st = pm → keeps (commit_journal st).
Proof.
  intros Hst w Q (Z & Hi) HQ. apply (bwp_journal f s X ops st pm pm M Z); [done|done| | |].
  - intros pd Hs. by split; eapply sit_rewrite.
  - intros w' Hi' _. apply HQ. by exists Z.
  - intros e w' Hi' _. apply HQ. by exists Z.
Qed.
Lemma keeps_persist a st : side a → holds a (M a) st → keeps (persist_runtime a st).
Proof.
  intros Ha Hst w Q (Z & Hi) HQ. apply (bwp_store f s Hne X ops a st (M a) pm M Z); try done.
  - intros pd. apply sit_stored.
  - intros w' Hi' _. apply HQ. by eexists.
  - intros e w' Hi'. by apply HQ.
Qed.
Lemma upd_self a : same f s (upd M a (M a)) M.
Proof. apply same_upd; [apply same_refl|done]. Qed.
Lemma keeps_publish a st : side a → holds a (M a) st → keeps (publish_runtime a st).
Proof.
  intros Ha Hst w Q (Z & Hi) HQ. apply (bwp_show f s Hne X ops a st (M a) pm M Z); try done.
  - intros pd Hs. pose proof Hi as (pd0 & Hh & _).
    assert (∀ Y, same f s M Y → same f s (upd M a (M a)) Y) as T by (intros Y HY; apply same_upd; [done|apply HY]).
    destruct Hs as [HM HZ Hpm Hpd| Ep Ed HM HZ|p Ep Hc Hp HM HZ Hpd].
    + apply sit_old; auto.
    + apply sit_new; auto.
    + apply (sit_committed _ _ _ _ _ _ _ _ p); try done; [apply mixed_upd; [done|apply HM]|]. destruct pd; [done|]. naive_solver.
  - intros w' Hi' _. apply HQ. exists Z. eapply invz_ext; [|apply same_refl|done]. intros b Hb. symmetry. by apply upd_self.
Qed.

(** Calls on the runtimes. *)
Lemma keeps_on_quiet a {A} (m : TM A) : side a → (∀ D P, quiet D P m) → keeps (on a m).
Proof.
  intros Ha Hm w Q Hi HQ. apply (bwp_on_quiet f s Hne); [|by apply Hm|].
  - intros e He. pose proof (inv_consistent _ _ _ _ _ _ _ Hi) as Hc. unfold BilateralInvariant.stays_consistent.
    replace (replay_bilateral f s (disks f s w) (BiRuntime a e)) with (disks f s w); [done|].
    unfold replay_bilateral, disks. destruct e; try done; cbn; by repeat case_bool_decide.
  - intros r w' K. apply HQ. by eapply inv_bkept.
Qed.
Lemma keeps_on_query (h : TopologyRuntimeHandle) a : side a → keeps (on a (@query_unlocked (bi_env a) (bi_identity a) h)).
Proof. intros Ha. apply keeps_on_quiet; [done|]. intros D P. apply (@quiet_query (bi_env a) (bi_identity a)). Qed.
(** No local journal is open, so there is nothing to recover on one side. *)
Lemma keeps_on_recover (h : TopologyRuntimeHandle) a : side a → keeps (on a (@recover_pending_unlocked (bi_env a) (bi_identity a) h)).
Proof.
  intros Ha w Q Hi HQ. assert (pending (tw_mem (bw_runtimes w a)) = None) as Hp.
  { destruct Hi as (Z & pd & Hh & _). eapply holds_pending, Hh, Ha. }
  assert (@recover_pending_unlocked (bi_env a) (bi_identity a) h (bw_runtimes w a) = (Ok tt, bw_runtimes w a)) as E.
  { unfold recover_pending_unlocked, mbind, m_bind, gets, pending_operation_id. by rewrite Hp. }
  assert (bkept w (on a (@recover_pending_unlocked (bi_env a) (bi_identity a) h) w).2) as K.
  { unfold on. rewrite E. split; [done|done|]. intros b. cbn. unfold set_runtime. case_bool_decide; subst; apply kept_refl. }
  apply bwp_silent.
  - unfold on. rewrite E. cbn. by rewrite drop_all, app_nil_r.
  - by apply bkept_disks.
  - apply HQ. by eapply inv_bkept.
Qed.

Lemma keeps_wire a b : keeps (call_bilateral_wire a b).
Proof.
  intros w Q Hi HQ. apply bwp_call_wire; [intros r; by eapply inv_consistent|]. intros r w' K. apply HQ. by eapply inv_bkept.
Qed.
Lemma keeps_unwire a b : keeps (call_bilateral_unwire a b).
Proof.
  intros w Q Hi HQ. apply bwp_call_unwire; [intros r; by eapply inv_consistent|]. intros r w' K. apply HQ. by eapply inv_bkept.
Qed.
End keeps.

(** Steps through a computation that keeps what the process knows. *)
Create HintDb keeps discriminated.
#[export] Hint Resolve side_f side_s : keeps.
Ltac keeps_step :=
  repeat first
    [ progress intros
    | apply keeps_ret | apply keeps_throw | apply keeps_lift | apply keeps_observe | apply keeps_observe_many
    | apply keeps_set_reconciled | apply keeps_set_error | apply keeps_set_owner | apply keeps_wire | apply keeps_unwire
    | apply keeps_journal | apply keeps_state; [by auto with keeps|] | apply keeps_gets
    | apply keeps_commit; done
    | apply keeps_bind | apply keeps_catch
    | progress auto with keeps nocore
    | case_match ].

(** ** The operations against the invariant

    Which calls of the coordinator keep the intent of both authorities, and how the
    terminal receipt, the execution of a batch and the recovery of a journal move it:
    from the old intent of both to the new intent of both, by way of a journal that says
    which. *)

Section operations.
Context (f s : string) (Hne : f ≠ s) `{BilateralEnv} (X : Intents) (ops : list TopologyMutation).
Notation Inv := (Inv f s X ops).
Notation InvZ := (InvZ f s X ops).
Notation stays_consistent := (stays_consistent f s X ops).
Notation side := (side f s).
Notation new := (new X ops).
Notation outcome := (outcome X ops).
Notation journal_for := (journal_for f s X ops).
Notation wp := (bwp f s stays_consistent).

(** ** Calls that keep the intent *)

Section keeping.
Context (pm : option PendingBilateralOperation) (M : Intents).
Notation keeps := (keeps f s X ops pm M).

Lemma keeps_binding_candidate pair key expected a {B} (k : list (string * TopologyIntentState) → BM B) :
  side a → (∀ c, Forall (λ '(b, st), b = a ∧ holds a (M a) st) c → keeps (k c)) → keeps (binding_candidate pair key expected a ≫= k).
Proof.
  intros Ha Hk w Q Hi HQ. apply bwp_bind. unfold binding_candidate. apply bwp_bind, bwp_gets.
  assert (holds a (M a) (tw_mem (bw_runtimes w a))) as Hst by (destruct Hi as (Z & pd & Hh & _); by apply Hh).
  case_match; [case_match; [by apply bwp_throw, HQ|]|]; apply bwp_ret, Hk; try done. apply Forall_singleton. split; [done|].
  by apply holds_with_binding.
Qed.
Lemma keeps_persist_each c : Forall (λ '(b, st), side b ∧ holds b (M b) st) c → keeps (persist_each c).
Proof.
  induction 1 as [|[b st] c [Hb Hst] _ IH]; [apply keeps_ret|]. cbn [persist_each].
  apply keeps_bind; [by apply keeps_persist|]. by intros _.
Qed.
Lemma keeps_publish_each c : Forall (λ '(b, st), side b ∧ holds b (M b) st) c → keeps (publish_each c).
Proof.
  induction 1 as [|[b st] c [Hb Hst] _ IH]; [apply keeps_ret|]. cbn [publish_each].
  apply keeps_bind; [by apply keeps_publish|]. by intros _.
Qed.
Lemma keeps_bind_pair : keeps (bind_pair_locked f s).
Proof.
  unfold bind_pair_locked. apply keeps_journal. intros st Hst. apply keeps_bind; [case_match; keeps_step|]. intros _.
  apply keeps_bind; [case_match; keeps_step|]. intros _. apply keeps_journal. intros st' Hst'.
  apply keeps_bind; [apply keeps_gets|]. intros path.
  apply keeps_binding_candidate; [apply side_f|]. intros c1 Hc1. apply keeps_binding_candidate; [apply side_s|]. intros c2 Hc2.
  apply keeps_bind; [apply keeps_gets|]. intros owners. apply keeps_bind; [case_match; keeps_step|]. intros _.
  assert (Forall (λ '(b, st), side b ∧ holds b (M b) st) (c1 ++ c2)) as Hc.
  { apply Forall_app. split; eapply Forall_impl; [done| |done|]; intros [b st''] [-> ?]; split; auto using side_f, side_s. }
  apply keeps_bind; [by apply keeps_persist_each|]. intros _. by apply keeps_publish_each.
Qed.

Lemma keeps_reconcile_records : keeps reconcile_operation_records_locked.
Proof. unfold reconcile_operation_records_locked. keeps_step. Qed.
Lemma keeps_min_limit g : keeps (min_limit g f s).
Proof. unfold min_limit, runtime_policy. keeps_step. Qed.
Lemma keeps_upsert r : keeps (upsert_operation_record_locked f s r).
Proof. unfold upsert_operation_record_locked. keeps_step. Qed.
Lemma keeps_update id status error : keeps (update_operation_record_locked id status error).
Proof. unfold update_operation_record_locked. keeps_step. Qed.

Lemma keeps_actuate op : keeps (bilateral_actuate f s op).
Proof. unfold bilateral_actuate. keeps_step. Qed.
Lemma keeps_actuate_collect l : keeps (actuate_collect f s l).
Proof. induction l as [|op l IH]; cbn [actuate_collect]; keeps_step; apply keeps_actuate. Qed.
Lemma keeps_actuate_until l : keeps (actuate_until f s l).
Proof. induction l as [|op l IH]; cbn [actuate_until]; keeps_step; apply keeps_actuate. Qed.
Lemma keeps_rollback before : keeps (rollback_physical_pair f s before).
Proof. apply keeps_actuate_collect. Qed.
Lemma keeps_recover_actuators p : keeps (recover_actuators f s p).
Proof. unfold recover_actuators. case_match; auto using keeps_rollback, keeps_actuate_collect. Qed.

Lemma keeps_access_view a principal : keeps (access_view a principal).
Proof. unfold access_view. keeps_step. Qed.
Lemma keeps_observe_cross edges : keeps (observe_cross f s edges).
Proof. induction edges as [|e edges IH]; cbn [observe_cross]; keeps_step. Qed.
Lemma keeps_observe_physical l : keeps (observe_physical f s l).
Proof. induction l as [|op l IH]; cbn [observe_physical]; keeps_step. Qed.
Lemma keeps_query (h1 h2 : TopologyRuntimeHandle) principal :
  handle_authority h1 = f → handle_authority h2 = s → keeps (query_locked h1 h2 principal).
Proof.
  intros E1 E2. unfold query_locked. rewrite E1, E2. apply keeps_bind; [apply keeps_bind_pair|intros _].
  apply keeps_bind; [apply keeps_on_recover; auto using side_f, side_s|intros _].
  apply keeps_bind; [apply keeps_on_recover; auto using side_f, side_s|intros _].
  apply keeps_bind; [apply keeps_on_query; auto using side_f, side_s|intros s1].
  apply keeps_bind; [apply keeps_on_query; auto using side_f, side_s|intros s2].
  apply keeps_bind; [apply keeps_observe_cross|intros edges]. unfold runtime_policy.
  keeps_step; apply keeps_access_view.
Qed.
Lemma keeps_check_pair principal l : keeps (check_pair f s principal l).
Proof. unfold check_pair, bilateral_views, runtime_policy. keeps_step; apply keeps_access_view. Qed.
Lemma keeps_record r actor principal : keeps (operation_record_for_bilateral_request f s r actor principal).
Proof. unfold operation_record_for_bilateral_request. keeps_step. Qed.
Lemma keeps_reconcile_pair : keeps (reconcile_committed_pair_intent_locked f s).
Proof.
  unfold reconcile_committed_pair_intent_locked. apply keeps_state; [apply side_f|]. intros st1 _. apply keeps_state; [apply side_s|].
  intros st2 _. case_match; [apply keeps_throw|]. lazymatch goal with |- context [?l1 ++ ?l2] => generalize (l1 ++ l2) end.
  intros l. induction l as [|op l IH]; [apply keeps_ret|].
  apply keeps_bind; [apply keeps_actuate|]. by intros _.
Qed.
Lemma keeps_reconcile_clean : keeps (reconcile_clean_pair f s).
Proof.
  unfold reconcile_clean_pair. apply keeps_bind; [apply keeps_gets|]. intros [|]; [apply keeps_ret|].
  apply keeps_bind; [apply keeps_catch, keeps_reconcile_pair|]. keeps_step.
Qed.
End keeping.

(** ** Moves *)

(** What the process knows somehow. *)
Definition settled (w : BilateralWorld) : Prop := ∃ pm M, Inv pm M w.

Lemma sit_none_old pd Z : sit f s X ops None pd X Z → same f s Z X.
Proof.
  intros [_ HZ _ _| _ _ HM HZ|p Ep]; [done| |done]. intros a Ha. by rewrite (HZ a Ha), (HM a Ha).
Qed.
Lemma sit_open p pd Z : is_committed p = false → journal_for p → sit f s X ops None pd X Z →
  sit f s X ops None (Some p) X Z ∧ sit f s X ops (Some p) (Some p) X Z.
Proof.
  intros Hc Hp Hs. pose proof (sit_none_old _ _ Hs) as HZ.
  split; apply sit_old; try done; try (by intros q [= <-]); apply same_refl.
Qed.
Lemma sit_known p pd M Z : sit f s X ops (Some p) pd M Z →
  journal_for p ∧ if is_committed p then mixed f s X ops M else same f s M X.
Proof.
  intros [HM _ Hpm _| Ep _ _ _|q [= <-] Hc Hp HM _ _]; [|done|by rewrite Hc]. destruct (Hpm p eq_refl) as [-> ?]. done.
Qed.
Lemma sit_renote p q pd M Z : is_committed q = is_committed p → journal_for q → sit f s X ops (Some p) pd M Z →
  sit f s X ops (Some p) (Some q) M Z ∧ sit f s X ops (Some q) (Some q) M Z.
Proof.
  intros Hc Hq [HM HZ Hpm Hpd| Ep _ _ _|p' [= <-] Hc' Hp HM HZ _]; [|done|].
  - destruct (Hpm p eq_refl) as [Hnc _]. split; apply sit_old; try done; by intros ? [= <-]; rewrite ?Hc.
  - split; eapply (sit_committed _ _ _ _ _ _ _ _); try done; rewrite ?Hc; try done.
Qed.
Lemma sit_decide p q pd M Z : is_committed p = false → is_committed q = true → journal_for q → sit f s X ops (Some p) pd M Z →
  sit f s X ops (Some p) (Some q) M Z ∧ sit f s X ops (Some q) (Some q) M Z.
Proof.
  intros Hp Hc Hq [HM HZ Hpm Hpd| Ep _ _ _|p' [= <-] Hc' _ _ _ _]; [|done|congruence].
  split; [apply sit_old; try done; by intros ? [= <-]|].
  eapply (sit_committed _ _ _ _ _ _ _ _ q); try done; by apply (same_mixed f s X ops _ false).
Qed.

(** The intent that a journal, or its absence, lets a call store. *)
Definition allowed (b : bool) (pm : option PendingBilateralOperation) (M : Intents) : Prop :=
  match pm with Some p => is_committed p = b | None => b = false ∧ same f s M X end.
Lemma sit_move_file b a pm pd M Z : allowed b pm M → sit f s X ops pm pd M Z → sit f s X ops pm pd M (upd Z a (outcome b a)).
Proof.
  intros Hb [HM HZ Hpm Hpd| -> -> HM HZ|p -> Hc Hp HM HZ Hpd].
  - assert (b = false) as -> by (destruct pm as [p|]; [rewrite <- Hb; by apply Hpm|apply Hb]). apply sit_old; try done. by apply same_upd.
  - destruct Hb as [-> HX]. apply sit_new; try done. apply same_upd; [done|]. intros Ha. cbn. by rewrite <- (HX a Ha), (HM a Ha).
  - cbn in Hb. rewrite Hc in Hb. subst b. apply (sit_committed _ _ _ _ _ _ _ _ p); try done; [apply mixed_upd; [done|by right]|].
    destruct pd; [done|]. destruct Hpd as [? ?]. split; [done|]. by apply same_upd.
Qed.
Lemma sit_move_mem b a pm pd M Z : allowed b pm M → sit f s X ops pm pd M Z → sit f s X ops pm pd (upd M a (outcome b a)) Z.
Proof.
  intros Hb [HM HZ Hpm Hpd| -> -> HM HZ|p -> Hc Hp HM HZ Hpd].
  - assert (b = false) as -> by (destruct pm as [p|]; [rewrite <- Hb; by apply Hpm|apply Hb]). apply sit_old; try done. by apply same_upd.
  - destruct Hb as [-> HX]. apply sit_new; try done. apply same_upd; [done|]. intros Ha. cbn. by rewrite <- (HX a Ha), (HM a Ha).
  - cbn in Hb. rewrite Hc in Hb. subst b. apply (sit_committed _ _ _ _ _ _ _ _ p); try done; [apply mixed_upd; [done|by right]|].
    destruct pd; [done|]. destruct Hpd as [? ?]. split; [|done]. by apply same_upd.
Qed.
Lemma allowed_upd b a pm M : allowed b pm M → allowed b pm (upd M a (outcome b a)).
Proof. destruct pm as [p|]; [done|]. intros [-> HM]. split; [done|]. by apply same_upd. Qed.
Lemma sit_close b pm pd M : allowed b pm M → sit f s X ops pm pd (outcome b) (outcome b) →
  sit f s X ops pm None (outcome b) (outcome b) ∧ sit f s X ops None None (outcome b) (outcome b).
Proof.
  intros Hb [HM HZ Hpm Hpd| -> -> HM HZ|p -> Hc Hp HM HZ Hpd].
  - split; by apply sit_old.
  - split; by apply sit_new.
  - cbn in Hb. rewrite Hc in Hb. subst b. split; [|apply sit_new; try done; apply same_refl].
    by apply (sit_committed _ _ _ _ _ _ _ _ p).
Qed.

(** ** The terminal receipt *)

Lemma wp_min_limit g (Q : Result Z _ → _) w : (∀ n, Q (Ok n) w) → wp (min_limit g f s) Q w.
Proof. intros HQ. apply bwp_bind, bwp_gets, bwp_bind, bwp_gets, bwp_ret, HQ. Qed.
Lemma close_journal_pending n rm hm receipt fp st : bc_pending (close_journal n rm hm receipt fp st) = None.
Proof. unfold close_journal. by repeat case_match. Qed.

Lemma wp_commit_terminal b st1 st2 pm M coordinator receipt fp (Q : Result unit _ → _) w :
  Inv pm M w → allowed b pm M → holds f (outcome b f) st1 → holds s (outcome b s) st2 →
  (∀ w', Inv None (outcome b) w' → Q (Ok tt) w') → (∀ e w', settled w' → Q (Err e) w') →
  wp (commit_terminal_receipt f s coordinator [(f, st1); (s, st2)] receipt fp) Q w.
Proof.
  intros (Z & Hi) Hb H1 H2 HQ HE. unfold commit_terminal_receipt.
  assert (state_for [(f, st1); (s, st2)] f = Ok st1) as -> by (unfold state_for; cbn; by rewrite bool_decide_true).
  assert (state_for [(f, st1); (s, st2)] s = Ok st2) as ->
    by (unfold state_for; cbn; rewrite (bool_decide_false (f = s)) by done; by rewrite bool_decide_true).
  apply bwp_bind, bwp_lift, bwp_bind.
  eapply (bwp_store f s Hne X ops f); [done|apply side_f|done|intros pd; by apply sit_move_file| |intros e w' Hi'; by apply HE; do 2 eexists].
  intros w1 I1 _. apply bwp_bind, bwp_lift, bwp_bind.
  eapply (bwp_store f s Hne X ops s); [done|apply side_s|done|intros pd; by apply sit_move_file| |intros e w' Hi'; by apply HE; do 2 eexists].
  intros w2 I2 _. apply bwp_bind.
  eapply (bwp_show f s Hne X ops f); [done|apply side_f|done|intros pd; by apply sit_move_mem|]. intros w3 I3 _. apply bwp_bind.
  eapply (bwp_show f s Hne X ops s); [done|apply side_s|done|intros pd; by apply sit_move_mem, allowed_upd|]. intros w4 I4 _.
  apply bwp_bind, bwp_observe. intros n w5 K5. apply (invz_bkept _ _ _ _ _ _ _ _ _ K5) in I4.
  assert (InvZ pm (outcome b) (outcome b) w5) as I5.
  { eapply invz_ext; [| |done]; intros a [->| ->]; rewrite ?upd_eq; try done; rewrite (upd_ne _ s f) by done; by rewrite upd_eq. }
  apply bwp_bind, wp_min_limit. intros rm. apply bwp_bind, wp_min_limit. intros hm.
  eapply (bwp_journal f s X ops); [done|apply close_journal_pending| | |].
  - intros pd Hs. by eapply sit_close.
  - intros w' I' _. apply HQ. by eexists.
  - intros e w' I' _. apply HE. by do 3 eexists.
Qed.

(** ** Journals *)

Lemma inv_settled pm M w : Inv pm M w → settled w.
Proof. intros Hi. by exists pm, M. Qed.
Hint Resolve inv_settled : core.

Lemma wp_move_journal st p q M (Q : Result unit _ → _) w :
  Inv (Some p) M w → bc_pending st = Some q →
  (∀ pd Z, sit f s X ops (Some p) pd M Z → sit f s X ops (Some p) (Some q) M Z ∧ sit f s X ops (Some q) (Some q) M Z) →
  (∀ w', Inv (Some q) M w' → bw_mem w' = st → Q (Ok tt) w') → (∀ e w', settled w' → Q (Err e) w') → wp (commit_journal st) Q w.
Proof.
  intros (Z & Hi) Hst Hmove HQ HE. eapply (bwp_journal f s X ops); [done|done|intros pd Hs; by eapply Hmove| |].
  - intros w' I' E'. apply HQ; [by exists Z|done].
  - intros e w' I' _. apply HE. by do 3 eexists.
Qed.
Lemma inv_journal pm M w : Inv pm M w → bc_pending (bw_mem w) = pm.
Proof. intros (Z & pd & Hh & _). apply Hh. Qed.
Lemma inv_state pm M w a : Inv pm M w → side a → holds a (M a) (tw_mem (bw_runtimes w a)).
Proof. intros (Z & pd & Hh & _) Ha. by apply Hh. Qed.
Lemma inv_known p M w : Inv (Some p) M w → journal_for p ∧ if is_committed p then mixed f s X ops M else same f s M X.
Proof. intros (Z & pd & _ & Hs). by eapply sit_known. Qed.

(** The failure path of an apply: it always ends in an error, with the old intent. *)
Lemma wp_finish_rollback p q plan st1 st2 error (Q : Result TopologyOperationReceipt _ → _) w :
  Inv (Some q) X w → is_committed q = false → holds f (X f) st1 → holds s (X s) st2 →
  (∀ e w', settled w' → Q (Err e) w') → wp (finish_rollback f s p plan [(f, st1); (s, st2)] error) Q w.
Proof.
  intros Hi Hc H1 H2 HE. unfold finish_rollback. apply bwp_bind, bwp_gets, bwp_bind.
  destruct (inv_known _ _ _ Hi) as [Hq _]. set (q1 := bp_with_decision q DecRollingBack).
  apply (wp_move_journal _ q q1 X); [done| | | |done].
  { cbn. by rewrite (inv_journal _ _ _ Hi). }
  { intros pd Z. apply sit_renote; [by rewrite Hc|by apply journal_for_decided]. }
  intros w1 I1 _. apply bwp_bind. apply (keeps_rollback (Some q1) X); [done|]. intros [failures|e] w2 I2; [|by apply HE; eauto].
  cbv zeta. apply bwp_bind. destruct (is_empty failures).
  - apply bwp_bind, bwp_gets. apply (wp_commit_terminal false _ _ (Some q1) X); try done.
    intros w3 I3. apply bwp_throw. eauto.
  - apply bwp_bind, bwp_observe. intros n w3 K3. apply (inv_bkept _ _ _ _ _ _ _ _ K3) in I2. apply bwp_bind, bwp_gets.
    set (detail := _ +:+ _). apply (wp_move_journal _ q1 (bp_recovery_failed q1 detail) X); [done| | | |done].
    + cbn. by rewrite (inv_journal _ _ _ I2).
    + intros pd Z. apply sit_renote; [done|by apply journal_for_failed, journal_for_decided].
    + intros w4 I4 _. apply bwp_throw. eauto.
Qed.

(** A batch is journaled, actuated, decided and committed, or rolled back. *)
Lemma wp_execute coordinator st1 st2 st1' st2' plan p (Q : Result TopologyOperationReceipt _ → _) w :
  Inv None X w → is_committed p = false → journal_for p →
  holds f (X f) st1 → holds s (X s) st2 → holds f (new f) st1' → holds s (new s) st2' →
  (∀ receipt w', Inv None new w' → Q (Ok receipt) w') → (∀ e w', settled w' → Q (Err e) w') →
  wp (execute_bilateral f s coordinator [(f, st1); (s, st2)] [(f, st1'); (s, st2')] plan p) Q w.
Proof.
  intros Hi Hc Hp H1 H2 H1' H2' HQ HE. unfold execute_bilateral. apply bwp_bind, bwp_observe. intros n w1 K1.
  apply (inv_bkept _ _ _ _ _ _ _ _ K1) in Hi. destruct Hi as (Z & Hi). apply bwp_bind.
  eapply (bwp_journal f s X ops _ None (Some p)); [done|done|intros pd; by apply sit_open| |intros e w' Hi' _; by apply HE; do 3 eexists].
  intros w2 I2 _. apply bwp_bind, (keeps_actuate_until (Some p) X); [by eexists|]. intros [[error|]|e] w3 I3; [| |by eauto].
  { eapply wp_finish_rollback; [done|done|done|done|]. eauto. }
  apply bwp_bind, bwp_gets. cbv zeta. set (q := bp_with_decision p DecCommitted). apply bwp_bind.
  apply (wp_move_journal _ p q X); [done| | | |done].
  { cbn. by rewrite (inv_journal _ _ _ I3). }
  { intros pd Z'. apply sit_decide; [done|done|by apply journal_for_decided]. }
  intros w4 I4 _. apply bwp_bind, (wp_commit_terminal true _ _ (Some q) X); try done.
  intros w5 I5. by apply bwp_ret, HQ.
Qed.

(** ** Recovery *)

Lemma merge_pending_ok p (committed : bool) M st1 st2 :
  journal_for p → (if committed then mixed f s X ops M else same f s M X) → holds f (M f) st1 → holds s (M s) st2 →
  ∃ st1' st2', merge_pending_intent [(f, st1); (s, st2)] p committed = Ok [(f, st1'); (s, st2')] ∧
    holds f (outcome committed f) st1' ∧ holds s (outcome committed s) st2'.
Proof.
  intros Hp HM H1 H2.
  assert (∀ a st, side a → holds a (M a) st → ∃ st', merge_state p committed a st = Ok st' ∧ holds a (outcome committed a) st') as Hm.
  { intros a st Ha Hst. destruct committed; [|rewrite (HM a Ha) in Hst; by apply (Hp a st Ha)].
    apply (Hp a st Ha). destruct (HM a Ha) as [E|E]; rewrite E in Hst; [by left|by right]. }
  destruct (Hm f st1 (side_f f s) H1) as (st1' & E1 & H1'). destruct (Hm s st2 (side_s f s) H2) as (st2' & E2 & H2').
  exists st1', st2'. split; [|done]. unfold merge_pending_intent. cbn. rewrite E1. cbn. by rewrite E2.
Qed.

Lemma wp_recover_pending p M (Q : Result TopologyOperationReceipt _ → _) w :
  Inv (Some p) M w → (∀ receipt w', Inv None (outcome (is_committed p)) w' → Q (Ok receipt) w') → (∀ e w', settled w' → Q (Err e) w') →
  wp (recover_pending f s p) Q w.
Proof.
  intros Hi HQ HE. destruct (inv_known _ _ _ Hi) as [Hp HM]. unfold recover_pending.
  apply bwp_bind, bwp_set_reconciled. intros w1 K1. apply (inv_bkept _ _ _ _ _ _ _ _ K1) in Hi. apply bwp_bind.
  apply (bwp_mono _ _ _ _ (λ r w', match r with Ok _ => ∃ q, Inv (Some q) M w' ∧ is_committed q = is_committed p ∧ journal_for q | Err e => settled w' end)).
  { destruct (bool_decide_reflect (bp_decision p = DecApplying)) as [E|_].
    - apply bwp_bind, bwp_gets. set (q := bp_with_decision p DecRollingBack).
      assert (is_committed q = is_committed p) as Hq by (unfold is_committed; by rewrite E).
      apply (wp_move_journal _ p q M); [done| | | |done].
      + cbn. by rewrite (inv_journal _ _ _ Hi).
      + intros pd Z. apply sit_renote; [done|by apply journal_for_decided].
      + intros w' I' _. exists q. split_and!; [done|done|by apply journal_for_decided].
    - apply bwp_ret. by exists p. }
  intros [[]|e] w2; [|by apply HE]. intros (q & I2 & Hq & Hqj). cbv zeta. apply bwp_bind, (keeps_recover_actuators (Some q) M); [done|].
  intros [failures|e] w3 I3; [|by eauto]. destruct (is_empty failures); cbn [negb].
  - apply bwp_bind, bwp_gets, bwp_bind, bwp_gets, bwp_bind, bwp_lift. fold (is_committed p).
    destruct (merge_pending_ok p (is_committed p) M _ _ Hp HM (inv_state _ _ _ f I3 (side_f f s)) (inv_state _ _ _ s I3 (side_s f s)))
      as (st1 & st2 & -> & H1 & H2).
    apply bwp_bind, bwp_gets, bwp_bind, (wp_commit_terminal (is_committed p) _ _ (Some q) M); try done.
    intros w4 I4. apply bwp_bind, bwp_set_reconciled. intros w5 K5. apply bwp_bind, bwp_set_error. intros w6 K6.
    apply bwp_ret, HQ. eapply inv_bkept; [done|]. by eapply inv_bkept.
  - apply bwp_bind, bwp_observe. intros n w4 K4. apply (inv_bkept _ _ _ _ _ _ _ _ K4) in I3. apply bwp_bind, bwp_gets, bwp_bind.
    set (detail := _ +:+ _). set (q' := bp_recovery_failed (if bp_decision q =b DecApplying then bp_with_decision q DecRollingBack else q) detail).
    apply (wp_move_journal _ q q' M); [done| | | |done].
    + cbn. by rewrite (inv_journal _ _ _ I3).
    + intros pd Z. apply sit_renote; [|apply (journal_for_failed f s X ops); destruct (_ =b DecApplying); [by apply journal_for_decided|done]].
      unfold is_committed, q'. cbn. destruct (bool_decide_reflect (bp_decision q = DecApplying)) as [E|_]; [by rewrite E|done].
    + intros w5 I5 _. apply bwp_throw. eauto.
Qed.

Lemma wp_recover_locked pm M (Q : Result (option TopologyOperationReceipt) _ → _) w :
  Inv pm M w →
  (∀ receipt w', Inv None (match pm with Some p => outcome (is_committed p) | None => M end) w' → Q (Ok receipt) w') →
  (∀ e w', settled w' → Q (Err e) w') → wp (recover_locked f s) Q w.
Proof.
  intros Hi HQ HE. unfold recover_locked. apply bwp_bind, (keeps_bind_pair pm M); [done|].
  intros [[]|e] w1 I1; [|by eauto]. apply bwp_bind, (keeps_reconcile_records pm M); [done|].
  intros [[]|e] w2 I2; [|by eauto]. apply bwp_bind, bwp_gets. rewrite (inv_journal _ _ _ I2). destruct pm as [p|].
  - apply bwp_bind, (wp_recover_pending p M); [done| |by eauto]. intros receipt w3 I3. by apply bwp_ret, HQ.
  - apply bwp_bind, (keeps_reconcile_clean None M); [done|]. intros [[]|e] w3 I3; [|by eauto]. by apply bwp_ret, HQ.
Qed.
End operations.
