(* ===== verification/BilateralTheorems.v ===== *)
(** * Bilateral topology: atomicity and recovery

    An apply and a restart against the invariant, and the theorems: all or nothing across
    the three files at every effect, and recovery carries the decision out. *)

From S2P Require Import Prelude Strings AccessModel AccessEngine AccessController ContinuityTypes MemoryRecords TopologyTypes TopologyState TopologyWorld EdgeReconcile TopologyController TopologyLogic TopologyApply TopologyTheorems BilateralState BilateralCoordinator BilateralLogic BilateralInvariant BilateralOperations.
Open Scope Z_scope.

(** ** An apply and a restart against the invariant

    The journal that an apply writes merges into the intent it was written for; an apply
    moves both authorities to the requested intent or leaves the old intent of both; and
    a process that opens the three files knows what they say. *)

(** ** Normalized batches *)

Section normalized.
Context `{DebugText} (f s : string).

Lemma normalize_endpoint_spec e e' :
  normalize_bilateral_endpoint f s e = Ok e' → normalize_bilateral_endpoint f s e' = Ok e'.
Proof.
  unfold normalize_bilateral_endpoint. destruct (ep_authority e) as [a|]; [|done]. destruct (negb _) eqn:Ha; [done|].
  destruct (parse_identity (trim (ep_identity e))) as [id|] eqn:Hid; [|done]. cbn [map_err and_then]. intros [= <-].
  cbn [ep_authority ep_identity]. rewrite Ha. pose proof (parse_identity_Ok _ _ Hid) as ->. by rewrite trim_idemp, Hid.
Qed.
Lemma edge_new_sorted a b e : edge_new a b = Ok e → edge_new (edge_a e) (edge_b e) = Ok e ∧ ((edge_a e, edge_b e) = (a, b) ∨ (edge_a e, edge_b e) = (b, a)).
Proof.
  unfold edge_new. destruct (_ || _) eqn:He; [done|]. case_bool_decide as Hab; [done|]. case_bool_decide as Hle; intros [= <-]; cbn.
  - rewrite He. rewrite bool_decide_false by done. rewrite bool_decide_true by done. auto.
  - rewrite orb_comm, He. rewrite bool_decide_false by congruence. rewrite bool_decide_true; [auto|].
    by destruct (total key_le a b).
Qed.
(** A normalized batch is normalized. *)
Lemma normalize_bilateral_idemp raw l : normalize_bilateral_operations f s raw = Ok l → normalize_bilateral_operations f s l = Ok l.
Proof.
  unfold normalize_bilateral_operations. revert l. induction raw as [|op raw IH]; intros l; cbn [traverse]; [by intros [= <-]|].
  destruct (normalize_bilateral_endpoint f s (edge_a (mut_edge op))) as [a|] eqn:Ha; [|done].
  destruct (normalize_bilateral_endpoint f s (edge_b (mut_edge op))) as [b|] eqn:Hb; [|done]. cbn.
  destruct (edge_new a b) as [e|] eqn:He; [|done]. cbn. destruct (ep_authority (edge_a e) =b ep_authority (edge_b e)) eqn:Hd; [done|]. cbn.
  destruct (traverse _ raw) as [l'|] eqn:Hl; [|done]. cbn. intros [= <-]. cbn [traverse mut_edge mut_action].
  destruct (edge_new_sorted _ _ _ He) as [He' Hor].
  assert (normalize_bilateral_endpoint f s (edge_a e) = Ok (edge_a e) ∧ normalize_bilateral_endpoint f s (edge_b e) = Ok (edge_b e)) as [-> ->].
  { apply normalize_endpoint_spec in Ha, Hb. destruct Hor as [[= -> ->]|[= -> ->]]; done. }
  cbn. rewrite He'. cbn. rewrite Hd. cbn. by rewrite (IH l' eq_refl).
Qed.
End normalized.

(** Case analysis on the result that decides the goal; the error is immediate. *)
Ltac case_result := cbv beta; lazymatch goal with |- match ?r with Ok _ => _ | Err _ => _ end => destruct r; [|by eauto] end.

Section applying.
Context (f s : string) (Hne : f ≠ s) `{BilateralEnv} (X : Intents) (ops : list TopologyMutation).
Notation Inv := (Inv f s X ops).
Notation stays_consistent := (stays_consistent f s X ops).
Notation side := (side f s).
Notation new := (new X ops).
Notation outcome := (outcome X ops).
Notation journal_for := (journal_for f s X ops).
Notation settled := (settled f s X ops).
Notation wp := (bwp f s stays_consistent).
#[local] Hint Resolve inv_settled : core.

Lemma pair_lookup {A} (x y : A) : list_to_map (M:=gmap string A) [(f, x); (s, y)] !! f = Some x ∧ list_to_map (M:=gmap string A) [(f, x); (s, y)] !! s = Some y.
Proof. cbn. by rewrite lookup_insert_eq, lookup_insert_ne, lookup_insert_eq. Qed.

(** ** The journal of a batch *)

Lemma journal_for_batch st1 st2 st1' st2' p :
  holds f (X f) st1 → holds s (X s) st2 → holds f (new f) st1' → holds s (new s) st2' →
  bp_deltas p = intent_delta [(f, st1); (s, st2)] [(f, st1'); (s, st2')] <$> ops →
  bp_revisions_before p = revisions_of [(f, st1); (s, st2)] → bp_revisions_after p = revisions_of [(f, st1'); (s, st2')] →
  journal_for p.
Proof.
  intros H1 H2 H1' H2' Hd Hb Ha.
  assert (∀ committed a, side a → ∃ T, cross T = outcome committed a ∧
    (∀ op, op ∈ ops → delta_side committed (intent_delta [(f, st1); (s, st2)] [(f, st1'); (s, st2')] op) !! a = Some (membership T (mut_edge op))) ∧
    ∃ r, (if committed then bp_revisions_after p else bp_revisions_before p) !! a = Some r ∧ is_u64 r) as HT.
  { intros committed a Hside. rewrite Hb, Ha. unfold intent_delta, delta_side, memberships, revisions_of. cbn [delta_before delta_after fmap list_fmap].
    destruct committed, Hside as [->| ->]; eexists; (split; [eapply holds_cross; cycle 1|]);
      try (split; [intros op _; apply pair_lookup|]); try (eexists; split; [apply pair_lookup|]); eauto using holds_revision_u64. }
  intros a st Hside. split; [intros Hst|intros Hst].
  - destruct (HT true a Hside) as (T & HcT & Hdelta & r & Hr & Hu). destruct (HT false a Hside) as (_ & _ & _ & r0 & Hr0 & _).
    assert (∃ Y, holds a Y st ∧ (cross st = X a ∨ cross st = new a)) as (Y & HY & Hcr).
    { destruct Hst as [Hst|Hst]; eexists; (split; [done|]); rewrite (holds_cross _ _ _ Hst); auto. }
    destruct (merge_state_to true a _ _ T ops p st r r0 Y Hd Hdelta Hr0 Hr Hu HY) as (st' & E & Hh). exists st'. split; [done|].
    by rewrite (merge_to_target ops (X a) T st HcT Hcr) in Hh.
  - destruct (HT false a Hside) as (T & HcT & Hdelta & r & Hr & Hu).
    destruct (merge_state_to false a _ _ T ops p st r r (X a) Hd Hdelta Hr Hr Hu Hst) as (st' & E & Hh). exists st'. split; [done|].
    rewrite merge_to_same in Hh; [by rewrite (holds_cross _ _ _ Hst) in Hh|]. by rewrite HcT, (holds_cross _ _ _ Hst).
Qed.

(** ** Applying *)

Lemma wp_apply_checked (h1 h2 : TopologyRuntimeHandle) request principal actor audit fp coordinator (Q : Result TopologyOperationReceipt _ → _) w :
  handle_authority h1 = f → handle_authority h2 = s → breq_operations request = ops → Inv None X w →
  (∀ receipt w', Inv None new w' → Q (Ok receipt) w') → (∀ e w', settled w' → Q (Err e) w') →
  wp (apply_checked_locked h1 h2 request principal actor audit fp coordinator) Q w.
Proof.
  intros E1 E2 Eo Hi HQ HE. unfold apply_checked_locked. rewrite E1, E2, Eo. cbv zeta.
  apply bwp_bind, (keeps_query f s Hne X ops None X h1 h2 principal E1 E2); [done|]. intros [snap|e] w1 I1; [|by eauto].
  do 4 (apply bwp_bind, bwp_lift; case_match; [|by eauto]). clear dependent Hi.
  apply bwp_bind, bwp_gets, bwp_bind, bwp_gets. pose proof (inv_state _ _ _ _ _ _ _ f I1 (side_f f s)) as Ho1. pose proof (inv_state _ _ _ _ _ _ _ s I1 (side_s f s)) as Ho2.
  rewrite (holds_pending _ _ _ Ho1), (holds_pending _ _ _ Ho2). cbn [opt_or].
  set (st1 := tw_mem _) in *. set (st2 := tw_mem (bw_runtimes w1 s)) in *.
  apply bwp_bind, (keeps_observe_physical f s X ops None X); [done|]. intros [physical|e] w2 I2; [|by eauto].
  unfold apply_cross_intents, bump_revisions. cbn [fmap list_fmap].
  pose proof (holds_apply f _ _ ops Ho1) as Hn1. pose proof (holds_apply s _ _ ops Ho2) as Hn2.
  set (st1' := foldl _ st1 ops) in *. set (st2' := foldl _ st2 ops) in *.
  apply bwp_bind, bwp_observe. intros n w3 K3. apply (inv_bkept _ _ _ _ _ _ _ _ K3) in I2. set (changed := negb _ || _).
  destruct changed eqn:Hch; cbn [negb].
  - eapply (wp_execute f s Hne X ops); [done|done| | | | | |done|done]; [|done|done| |];
      try (apply holds_with_revision; [done|apply is_u64_succ; by eapply holds_revision_u64]).
    eapply journal_for_batch; [exact Ho1|exact Ho2| | |done|done|done];
      (apply holds_with_revision; [done|apply is_u64_succ; by eapply holds_revision_u64]).
  - assert (st1' = st1 ∧ st2' = st2) as [Eq1 Eq2].
    { unfold changed in Hch. apply orb_false_iff in Hch as [Hch _]. apply negb_false_iff, bool_decide_eq_true in Hch. by simplify_eq. }
    apply bwp_bind, (wp_commit_terminal f s Hne X ops false _ _ None X); try done.
    intros w4 (Z & I4). apply bwp_ret, HQ. exists Z. eapply invz_ext; [|apply same_refl|done].
    intros b [->| ->]; cbn [BilateralInvariant.outcome].
    + rewrite Eq1 in Hn1. etrans; [symmetry; by apply holds_cross in Hn1|by apply holds_cross in Ho1].
    + rewrite Eq2 in Hn2. etrans; [symmetry; by apply holds_cross in Hn2|by apply holds_cross in Ho2].
Qed.

Lemma wp_apply_locked (h1 h2 : TopologyRuntimeHandle) request principal actor audit (Q : Result TopologyOperationReceipt _ → _) w :
  handle_authority h1 = f → handle_authority h2 = s → normalize_bilateral_operations f s (breq_operations request) = Ok ops → Inv None X w →
  (∀ receipt w', Inv None X w' ∨ Inv None new w' → Q (Ok receipt) w') → (∀ e w', settled w' → Q (Err e) w') →
  wp (apply_locked h1 h2 request principal actor audit) Q w.
Proof.
  intros E1 E2 Eo Hi HQ HE. unfold apply_locked. rewrite E1, E2. cbv zeta. case_match; [apply bwp_throw; eauto|].
  apply bwp_bind, bwp_lift. case_result. apply bwp_bind, bwp_lift. cbn [breq_with_key breq_operations]. rewrite Eo.
  apply bwp_bind, (keeps_check_pair f s X ops None X); [done|]. intros [admitted|e] w1 I1; [|by eauto].
  apply bwp_bind, bwp_lift. case_result.
  apply bwp_bind, (keeps_bind_pair f s Hne X ops None X); [done|]. intros [[]|e] w2 I2; [|by eauto].
  apply bwp_bind, bwp_lift. case_result. apply bwp_bind, bwp_gets. rewrite (inv_journal _ _ _ _ _ _ _ I2).
  case_match.
  - case_match; [apply bwp_throw; eauto|]. apply bwp_lift. destruct (ok_or _ _); eauto.
  - case_match; [apply bwp_throw; eauto|]. eapply wp_apply_checked; eauto.
Qed.

Lemma wp_bilateral_apply left right (h1 h2 : TopologyRuntimeHandle) request principal actor (Q : Result TopologyOperationReceipt _ → _) w :
  canonical_runtimes handle_authority left right = Ok (h1, h2) → handle_authority h1 = f → handle_authority h2 = s →
  normalize_bilateral_operations f s (breq_operations request) = Ok ops → Inv None X w →
  (∀ receipt w', Inv None X w' ∨ Inv None new w' → Q (Ok receipt) w') → (∀ e w', settled w' → Q (Err e) w') →
  wp (bilateral_apply left right request principal actor) Q w.
Proof.
  intros Ep E1 E2 Eo Hi HQ HE. unfold bilateral_apply. apply bwp_bind, bwp_lift. rewrite Ep. cbn [fst snd]. rewrite E1, E2.
  apply bwp_bind, (wp_recover_locked f s Hne X ops None X); [done| |by eauto]. intros _ w1 I1. cbv zeta.
  apply bwp_bind, bwp_lift. cbn [breq_with_key breq_operations]. rewrite Eo.
  apply bwp_bind, (keeps_check_pair f s X ops None X); [done|]. intros [preflight|e] w2 I2; [|by eauto].
  apply bwp_bind, (keeps_record f s X ops None X); [done|]. intros [r|e] w3 I3; [|by eauto].
  apply bwp_bind, bwp_observe. intros n w4 K4. apply (inv_bkept _ _ _ _ _ _ _ _ K4) in I3. set (r' := match preflight with Ok _ => r | Err error => _ end).
  apply bwp_bind, (keeps_upsert f s X ops None X); [done|]. intros [[]|e] w5 I5; [|by eauto].
  apply bwp_bind, bwp_gets, bwp_bind.
  apply (bwp_mono _ _ _ _ (λ result w', match result with
    | Ok (Ok _) => Inv None X w' ∨ Inv None new w' | _ => settled w' end)).
  { destruct preflight; [|by apply bwp_ret; eauto]. case_match; [by apply bwp_ret; eauto|].
    apply bwp_catch. eapply (wp_apply_locked h1 h2); try done. by eapply normalize_bilateral_idemp. }
  intros [result|e] w6; [|by eauto]. cbv zeta. intros Hres.
  assert (∃ pm M, Inv pm M w6 ∧ (∀ receipt, result = Ok receipt → pm = None ∧ (same f s M X ∨ same f s M new))) as (pm & M & I6 & HM).
  { destruct result as [receipt|e]; [|destruct Hres as (pm & M & ?); by exists pm, M].
    destruct Hres as [I6|I6]; do 2 eexists; (split; [done|]); intros _ _; (split; [done|]); [left|right]; apply same_refl. }
  apply bwp_bind, (keeps_update f s X ops pm M); [done|]. intros [[]|e] w7 I7; [|by eauto].
  apply bwp_bind, (keeps_access_view f s X ops pm M); [done|]. intros [v1|e] w8 I8; [|by eauto].
  apply bwp_bind, (keeps_access_view f s X ops pm M); [done|]. intros [v2|e] w9 I9; [|by eauto].
  apply bwp_lift. destruct result as [receipt|e]; cbn [project_bilateral_result_attribution].
  - destruct (HM receipt eq_refl) as [-> Hor]. apply HQ. destruct I9 as (Z & I9).
    destruct Hor as [Hs|Hs]; [left|right]; exists Z; (eapply invz_ext; [|apply same_refl|done]); intros a Ha; by rewrite (Hs a Ha).
  - case_match; eauto.
Qed.

(** ** Restart *)

Lemma holds_reconcile a Y st n : holds a Y st → holds a Y (@reconcile_records (@env_clock (bi_env a)) n st).
Proof. intros [Hok Hp Hx]. split; [|done|done]. by apply state_ok_reconcile. Qed.

(** Loading an authority's intent from its file. *)
Lemma bwp_load a policy opened pd Z (Q : Result unit _ → _) w :
  files f s (disks f s w) pd Z → coherent f s X ops pd Z → side a →
  (∀ w', bw_mem w' = bw_mem w → bw_disk w' = bw_disk w → (∀ b, b ≠ a → bw_runtimes w' b = bw_runtimes w b) →
     holds a (Z a) (tw_mem (bw_runtimes w' a)) → on_file a (Z a) (tw_disk (bw_runtimes w' a)) →
     tw_durable (bw_runtimes w' a) = true → Q (Ok tt) w') →
  (∀ e w', Q (Err e) w') →
  wp (on a (@load_or_default (bi_env a) policy opened (Ok (tw_disk (bw_runtimes w a))))) Q w.
Proof.
  intros Hfiles Hc Ha HQ HE. destruct Hfiles as (Hj & Hf1 & Hf2).
  assert (on_file a (Z a) (tw_disk (bw_runtimes w a))) as (st & Hd & Hst) by (destruct Ha as [->| ->]; done). rewrite Hd.
  apply (bwp_on f s stays_consistent a _ (λ y e, on_file a (Z a) y ∧ match e with EvPersisted st' => holds a (Z a) st' | _ => True end)).
  { intros y e [Hy He]. exists pd, Z. split; [|done]. split_and!; [done| |]; cbn.
    - case_bool_decide; [subst a|done]. destruct e; try done. by eexists.
    - case_bool_decide; [subst a|done]. destruct e; try done. by eexists. }
  unfold load_or_default. apply twp_bind, twp_lift. destruct (policy_validate policy); [|by intros; apply HE].
  apply twp_bind, twp_lift. destruct opened; cbn [map_err]; [|by intros; apply HE]. apply twp_bind, twp_lift. cbn [map_err unwrap_or].
  case_match; [by apply twp_throw; intros; apply HE|]. rewrite normalize_sequences_id by apply Hst. rewrite with_records_same.
  apply twp_bind, twp_observe_many. intros rt K. pose proof (moved_disk _ _ _ _ K) as Kd. rewrite Hd in Kd.
  apply twp_bind, (@twp_persist_state (bi_env a)).
  - rewrite Kd. split; [by eexists|by apply holds_reconcile].
  - intros rt1 M1. eexists [EvPublished _]. split_and!; [done|done|done| |].
    + split; [|done]. rewrite (moved_disk _ _ _ _ M1). split; [|done]. eexists. split; [done|by apply holds_reconcile].
    + intros w' Hm Hdk Hrt Ho. apply HQ; try done; rewrite Hrt; cbn; [by apply holds_reconcile| |done].
      rewrite (moved_disk _ _ _ _ M1). eexists. split; [done|by apply holds_reconcile].
  - intros e d rt1 _ _ w' _ _ _ _. apply HE.
Qed.

(** Opening the coordinator on its journal. *)
Lemma bwp_open opened Z j (Q : Result unit _ → _) w :
  bw_disk w = Some j → coherent f s X ops (bc_pending j) Z →
  (∀ a, side a → holds a (Z a) (tw_mem (bw_runtimes w a)) ∧ on_file a (Z a) (tw_disk (bw_runtimes w a)) ∧ tw_durable (bw_runtimes w a) = true) →
  (∀ w', Inv (bc_pending j) Z w' → Q (Ok tt) w') → (∀ e w', Q (Err e) w') →
  wp (open_coordinator opened (Ok (bw_disk w))) Q w.
Proof.
  intros Hj Hc Hsides HQ HE. unfold open_coordinator. rewrite Hj. apply bwp_bind, bwp_lift. destruct opened as [[]|error]; cbn [map_err]; [|by apply HE].
  apply bwp_bind, bwp_lift. cbn [map_err unwrap_or]. case_match; [by apply bwp_throw, HE|].
  apply bwp_bind, bwp_observe. intros n w1 K1. destruct (normalize_operation_record_sequences _ _) as [records last].
  apply bwp_bind, bwp_observe_many. intros n2 w2 K2. pose proof (bkept_trans _ _ _ K1 K2) as K. cbv zeta. set (st := bc_reconcile_records _ _).
  assert (∀ a, side a → holds a (Z a) (tw_mem (bw_runtimes w2 a)) ∧ on_file a (Z a) (tw_disk (bw_runtimes w2 a)) ∧ tw_durable (bw_runtimes w2 a) = true) as Hsides2.
  { intros a Ha. destruct (bkept_runtimes _ _ K a) as [E1 E2 _ E3]. rewrite E1, E2, E3. auto. }
  assert (∀ d, d = mkDisks (Some st) (dk_first (disks f s w2)) (dk_second (disks f s w2)) → consistent f s X ops d) as Hcon.
  { intros d ->. exists (bc_pending j), Z. split; [|done]. split_and!; [by exists st|by apply (Hsides2 f (side_f f s))|by apply (Hsides2 s (side_s f s))]. }
  apply bwp_bind, bwp_persist_journal; [by apply Hcon| |intros; apply HE].
  intros w3 [_ Hd3 Hr3]. eexists [BiPublished _]. split_and!; [done|done| |].
  - split; [|done]. apply Hcon. unfold disks. cbn. by rewrite Hd3, !(moved_disk _ _ _ _ (Hr3 _)).
  - apply HQ. exists Z, (bc_pending j). split; [|by apply coherent_sit]. split; cbn.
    + done.
    + exists st. by rewrite Hd3.
    + intros a Ha. rewrite (moved_mem _ _ _ _ (Hr3 a)). by apply Hsides2.
    + intros a Ha. rewrite (moved_disk _ _ _ _ (Hr3 a)). by apply Hsides2.
    + intros a Ha. rewrite (moved_durable _ _ _ _ (Hr3 a)). by apply Hsides2.
Qed.
End applying.

(** ** Atomicity and recovery

    A bilateral apply is all or nothing across the three files at every one of its
    effects, and whatever prefix of them a crash leaves, and however often recovery
    itself is interrupted, a recovery that succeeds gives both authorities the old
    intent or both the new one, as the journal decided. *)

(** The effects of a call. *)
Definition b_effects {A} (m : BM A) (w : BilateralWorld) : list BilateralEvent := drop (length (bw_trace w)) (bw_trace (m w).2).

Lemma bwp_effects {A} f s P (m : BM A) Q w :
  bwp f s P m Q w →
  disks f s (m w).2 = foldl (replay_bilateral f s) (disks f s w) (b_effects m w) ∧ bchain f s P (disks f s w) (b_effects m w) ∧ Q (m w).1 (m w).2.
Proof.
  intros (es & Ht & Hd & Hc & HQ). assert (b_effects m w = es) as -> by (unfold b_effects; rewrite Ht; apply drop_app_length). done.
Qed.

Section theorems.
Context `{BilateralEnv}.

(** Both authorities have the intent [X], in memory and on disk, and no journal is open. *)
Record pair_at_rest (f s : string) (X : Intents) (w : BilateralWorld) : Prop := {
  rest_mem : bc_pending (bw_mem w) = None;
  rest_disk : bc_pending <$> bw_disk w = Some None;
  rest_first : holds f (X f) (tw_mem (bw_runtimes w f)) ∧ on_file f (X f) (tw_disk (bw_runtimes w f)) ∧ tw_durable (bw_runtimes w f) = true;
  rest_second : holds s (X s) (tw_mem (bw_runtimes w s)) ∧ on_file s (X s) (tw_disk (bw_runtimes w s)) ∧ tw_durable (bw_runtimes w s) = true;
}.
Lemma rest_inv f s X ops w : pair_at_rest f s X w → Inv f s X ops None X w.
Proof.
  intros [Hm Hd (H1 & H2 & H3) (H4 & H5 & H6)]. exists X, None. split.
  - split; [done| | | |]; try (intros a [->| ->]; done). destruct (bw_disk w) as [j|]; [|done]. exists j. split; [done|by simplify_eq/=].
  - apply coherent_sit. left. apply same_refl.
Qed.
Lemma canonical_distinct (l r : TopologyRuntimeHandle) h1 h2 :
  canonical_runtimes handle_authority l r = Ok (h1, h2) → handle_authority h1 ≠ handle_authority h2.
Proof. unfold canonical_runtimes. case_bool_decide; [done|]. case_bool_decide; intros [= <- <-]; congruence. Qed.

Lemma chain_consistent f s X ops d es pre post :
  bchain f s (stays_consistent f s X ops) d es → consistent f s X ops d → es = pre ++ post →
  consistent f s X ops (foldl (replay_bilateral f s) d pre).
Proof.
  intros Hc Hd ->. apply bchain_app in Hc as [Hc _]. revert d Hd Hc. induction pre as [|e pre IH]; intros d Hd; [done|].
  intros [He Hc]. by apply IH.
Qed.

(** ** Files between two effects *)

(** What the journal [pd] says of the intents [Z] of the two files: a closed journal
    goes with the old intents or with the new ones, an open one that is not committed
    with the old ones, a committed one with either of each. *)
Definition decided (f s : string) (X : Intents) (ops : list TopologyMutation) (pd : option PendingBilateralOperation) (Z : Intents) : Prop :=
  match pd with
  | None => same f s Z X ∨ same f s Z (new X ops)
  | Some p => if is_committed p then mixed f s X ops Z else same f s Z X
  end.
Lemma coherent_decided f s X ops pd Z : coherent f s X ops pd Z → decided f s X ops pd Z.
Proof. destruct pd; [|done]. by intros [_ ?]. Qed.

(** C8: a bilateral apply is all or nothing across three files.  Whatever the mobs, the
    files and the access controllers answer, after every prefix of the effects of an
    apply on two authorities at rest, both intent files hold a well-formed state, and
    their cross-authority intents are the old ones, or the requested ones once the
    journal says committed: both old or both new when the journal is closed, both old
    while it is open and undecided. *)
Theorem bilateral_apply_is_atomic left right first second request principal actor ops X w pre post :
  let f := handle_authority first in
  let s := handle_authority second in
  canonical_runtimes handle_authority left right = Ok (first, second) →
  normalize_bilateral_operations f s (breq_operations request) = Ok ops →
  pair_at_rest f s X w →
  b_effects (bilateral_apply left right request principal actor) w = pre ++ post →
  ∃ pd Z, files f s (foldl (replay_bilateral f s) (disks f s w) pre) pd Z ∧ decided f s X ops pd Z.
Proof.
  intros f s Ep Eo Hr Hes. pose proof (rest_inv f s X ops w Hr) as Hi.
  pose proof (wp_bilateral_apply f s (canonical_distinct _ _ _ _ Ep) X ops left right first second request principal actor (λ _ _, True) w
    Ep eq_refl eq_refl Eo Hi ltac:(done) ltac:(done)) as Hwp.
  apply bwp_effects in Hwp as (_ & Hc & _).
  destruct (chain_consistent _ _ _ _ _ _ _ _ Hc (inv_consistent _ _ _ _ _ _ _ Hi) Hes) as (pd & Z & Hf & Hco).
  exists pd, Z. split; [done|by apply coherent_decided].
Qed.

(** ** Crashes *)

(** A new process on the files of the old one: both authorities are loaded, and the
    coordinator is opened on its journal. *)
Definition restart_pair (f s : string) (policies : TopologyControlPolicy * TopologyControlPolicy)
    (opened : Result unit string * Result unit string * Result unit string) : BM unit :=
  d1 ← gets (λ w, tw_disk (bw_runtimes w f));
  on f (@load_or_default (bi_env f) policies.1 opened.1.1 (Ok d1));;
  d2 ← gets (λ w, tw_disk (bw_runtimes w s));
  on s (@load_or_default (bi_env s) policies.2 opened.1.2 (Ok d2));;
  j ← gets bw_disk;
  open_coordinator opened.2 (Ok j).

(** One crash: a process starts on the files, recovers, and stops after some of its
    effects. *)
Inductive crash (left right : TopologyRuntimeHandle) (f s : string) : Disks → Disks → Prop :=
| crash_recovery policies opened w k :
    crash left right f s (disks f s w)
      (foldl (replay_bilateral f s) (disks f s w) (take k (b_effects (restart_pair f s policies opened;; bilateral_recover left right) w))).

Section recovery.
Context (left right first second : TopologyRuntimeHandle).
Notation f := (handle_authority first).
Notation s := (handle_authority second).
Context (Ep : canonical_runtimes handle_authority left right = Ok (first, second)) (X : Intents) (ops : list TopologyMutation).

Lemma wp_restart policies opened pd Z (Q : Result unit _ → _) w :
  files f s (disks f s w) pd Z → coherent f s X ops pd Z →
  (∀ w', Inv f s X ops pd Z w' → Q (Ok tt) w') → (∀ e w', Q (Err e) w') →
  bwp f s (stays_consistent f s X ops) (restart_pair f s policies opened) Q w.
Proof.
  intros Hf Hc HQ HE. pose proof (canonical_distinct _ _ _ _ Ep) as Hne. unfold restart_pair.
  apply bwp_bind, bwp_gets, bwp_bind, (bwp_load f s X ops f _ _ pd Z); [done|done|apply side_f| |done].
  intros w1 _ Ed1 Eo1 M1 F1 D1. apply bwp_bind, bwp_gets, bwp_bind, (bwp_load f s X ops s _ _ pd Z); [|done|apply side_s| |done].
  { destruct Hf as (Hj & _ & Hs). split_and!; [by cbn; rewrite Ed1|done|cbn; by rewrite Eo1]. }
  intros w2 _ Ed2 Eo2 M2 F2 D2. destruct Hf as ((j & Ej & Ejp) & _ & _). apply bwp_bind, bwp_gets. subst pd.
  apply (bwp_open f s X ops _ Z j); [by rewrite Ed2, Ed1|done| |done|done].
  intros a [->| ->]; [|done]. by rewrite Eo2.
Qed.

Lemma wp_recover_pair policies opened pd Z (Q : Result (option TopologyOperationReceipt) _ → _) w :
  files f s (disks f s w) pd Z → coherent f s X ops pd Z →
  (∀ r w', Inv f s X ops None (match pd with Some p => outcome X ops (is_committed p) | None => Z end) w' → Q (Ok r) w') →
  (∀ e w', Q (Err e) w') →
  bwp f s (stays_consistent f s X ops) (restart_pair f s policies opened;; bilateral_recover left right) Q w.
Proof.
  intros Hf Hc HQ HE. apply bwp_bind, (wp_restart _ _ pd Z); [done|done| |done]. intros w1 I1. unfold bilateral_recover.
  apply bwp_bind, bwp_lift. rewrite Ep. apply bwp_bind, bwp_set_reconciled. intros w2 K2. apply (inv_bkept _ _ _ _ _ _ _ _ K2) in I1.
  apply bwp_bind, (wp_recover_locked f s (canonical_distinct _ _ _ _ Ep) X ops pd Z); [done| |done]. intros r w3 I3.
  apply bwp_bind, bwp_gets. destruct (bw_error w3); [by apply bwp_throw|]. by apply bwp_ret, HQ.
Qed.

Lemma crash_consistent D D' : crash left right f s D D' → consistent f s X ops D → consistent f s X ops D'.
Proof.
  intros [policies opened w k] Hc. pose proof Hc as (pd & Z & Hf & Hco).
  pose proof (wp_recover_pair policies opened pd Z (λ _ _, True) w Hf Hco ltac:(done) ltac:(done)) as Hwp.
  apply bwp_effects in Hwp as (_ & Hch & _). eapply chain_consistent; [done|done|]. symmetry. apply take_drop.
Qed.
Lemma crashes_consistent D D' : rtc (crash left right f s) D D' → consistent f s X ops D → consistent f s X ops D'.
Proof. induction 1; eauto using crash_consistent. Qed.

Lemma inv_outcome M w b : Inv f s X ops None M w → same f s M (outcome X ops b) →
  bc_pending (bw_mem w) = None ∧ ∀ a, side f s a → holds a (outcome X ops b a) (tw_mem (bw_runtimes w a)) ∧ on_file a (outcome X ops b a) (tw_disk (bw_runtimes w a)).
Proof.
  intros (Z & pd & Hh & Hs) HM. split; [apply Hh|]. intros a Ha. rewrite <- (HM a Ha). split; [by apply Hh|].
  assert (M a = Z a) as ->; [|by apply Hh].
  destruct Hs as [H1 H2 _ _|_ _ H1 H2|p Ep' _ _ _ _ _]; [| |done]; by rewrite (H1 a Ha), (H2 a Ha).
Qed.
End recovery.

(** C9: recovery carries the decision out on both sides.  Take the files after any prefix
    of a bilateral apply, and after any number of further processes that crashed while
    recovering.  When a process that starts on them recovers successfully, its journal
    is closed and the cross-authority intent of both authorities, in memory and on disk,
    is the requested one or is the old one: the requested one when it found the journal
    committed, and the old one when it found the journal open and not committed. *)
Theorem bilateral_recovery_carries_out_the_decision left right first second request principal actor ops X w pre post policies opened w1 r w2 :
  let f := handle_authority first in
  let s := handle_authority second in
  canonical_runtimes handle_authority left right = Ok (first, second) →
  normalize_bilateral_operations f s (breq_operations request) = Ok ops →
  pair_at_rest f s X w →
  b_effects (bilateral_apply left right request principal actor) w = pre ++ post →
  rtc (crash left right f s) (foldl (replay_bilateral f s) (disks f s w) pre) (disks f s w1) →
  (restart_pair f s policies opened;; bilateral_recover left right) w1 = (Ok r, w2) →
  ∃ committed : bool,
    (∀ j p, bw_disk w1 = Some j → bc_pending j = Some p → committed = is_committed p) ∧
    bc_pending (bw_mem w2) = None ∧
    ∀ a, a = f ∨ a = s →
      let target := if committed then requested_cross ops (X a) else X a in
      holds a target (tw_mem (bw_runtimes w2 a)) ∧ on_file a target (tw_disk (bw_runtimes w2 a)).
Proof.
  intros f s Ep Eo Hr Hes Hcr Er. pose proof (rest_inv f s X ops w Hr) as Hi.
  pose proof (wp_bilateral_apply f s (canonical_distinct _ _ _ _ Ep) X ops left right first second request principal actor (λ _ _, True) w
    Ep eq_refl eq_refl Eo Hi ltac:(done) ltac:(done)) as Hwp.
  apply bwp_effects in Hwp as (_ & Hc & _).
  pose proof (chain_consistent _ _ _ _ _ _ _ _ Hc (inv_consistent _ _ _ _ _ _ _ Hi) Hes) as Hcon.
  apply (crashes_consistent left right first second Ep X ops _ _ Hcr) in Hcon as (pd & Z & Hf & Hco).
  pose proof (wp_recover_pair left right first second Ep X ops policies opened pd Z (λ r w', ∀ r', r = Ok r' →
    Inv f s X ops None (match pd with Some p => outcome X ops (is_committed p) | None => Z end) w') w1 Hf Hco ltac:(by cbv beta) ltac:(by cbv beta)) as Hwp.
  apply bwp_effects in Hwp as (_ & _ & HQ). fold f s in HQ. rewrite Er in HQ. specialize (HQ r eq_refl). cbn [fst snd] in HQ.
  assert (∃ b, same f s (match pd with Some p => outcome X ops (is_committed p) | None => Z end) (outcome X ops b) ∧
    ∀ p, pd = Some p → b = is_committed p) as (b & Hb & Hp).
  { destruct pd as [p|]; [exists (is_committed p); split; [apply same_refl|by intros ? [= <-]]|].
    destruct Hco as [HZ|HZ]; [by exists false|by exists true]. }
  exists b. split.
  - intros j p Ej Ejp. apply Hp. destruct Hf as ((j' & Ej' & <-) & _). cbn in Ej'. rewrite Ej in Ej'. by simplify_eq.
  - destruct (inv_outcome first second X ops _ _ _ HQ Hb) as [Hm Hsides]. split; [done|]. intros a Ha target.
    pose proof (Hsides a Ha) as Hside. unfold target. by destruct b.
Qed.

(** A batch that is admitted and succeeds reaches both authorities.  When the checked
    part of a bilateral apply returns a receipt, on two authorities at rest, the journal
    is closed and the cross-authority intent of both authorities, in memory and on disk,
    is exactly the one requested. *)
Theorem checked_batch_reaches_both first second request principal actor audit fingerprint coordinator X w receipt w' :
  let f := handle_authority first in
  let s := handle_authority second in
  f ≠ s → pair_at_rest f s X w →
  apply_checked_locked first second request principal actor audit fingerprint coordinator w = (Ok receipt, w') →
  bc_pending (bw_mem w') = None ∧
  ∀ a, a = f ∨ a = s →
    holds a (requested_cross (breq_operations request) (X a)) (tw_mem (bw_runtimes w' a)) ∧
    on_file a (requested_cross (breq_operations request) (X a)) (tw_disk (bw_runtimes w' a)).
Proof.
  intros f s Hne Hr Er. set (ops := breq_operations request). pose proof (rest_inv f s X ops w Hr) as Hi.
  pose proof (wp_apply_checked f s Hne X ops first second request principal actor audit fingerprint coordinator
    (λ r w', ∀ r', r = Ok r' → Inv f s X ops None (new X ops) w') w eq_refl eq_refl eq_refl Hi ltac:(by cbv beta) ltac:(by cbv beta)) as Hwp.
  apply bwp_effects in Hwp as (_ & _ & HQ). rewrite Er in HQ.
  exact (inv_outcome first second X ops _ _ true (HQ receipt eq_refl) (same_refl _ _ _)).
Qed.
End theorems.
