(* ===== verification/BilateralAccess.v ===== *)
(** * Bilateral topology: who may act, who may see, and who owns a pair

    After the recovery every call starts with, a batch has to be allowed by the access
    controllers of both authorities at both ends of every edge before it has any effect
    but its audit record; a snapshot shows only what both let the
    principal see; and a pair of authorities has one coordinator. *)

From S2P Require Import Prelude Strings AccessModel AccessEngine AccessController ContinuityTypes MemoryRecords TopologyTypes TopologyState TopologyWorld EdgeReconcile TopologyController TopologyLogic BilateralState BilateralCoordinator BilateralTheorems.
Open Scope Z_scope.




(** ** The key of a pair *)

(** A decimal number up to the first character that is no digit. *)
Fixpoint read_len (t : string) (acc : Z) : Z * string :=
  match t with
  | String c rest => match digit_val c with Some d => read_len rest (acc * 10 + d) | None => (acc, t) end
  | EmptyString => (acc, t)
  end.
Lemma read_dec_digits fuel n acc : 0 ≤ n < 10 ^ Z.of_nat fuel → read_len (dec_digits fuel n acc) 0 = read_len acc n.
Proof.
  revert n acc. induction fuel as [|fuel IH]; intros n acc Hn.
  - simpl in *. by replace n with 0 by lia.
  - cbn [dec_digits]. pose proof (Z.mod_pos_bound n 10 ltac:(lia)). pose proof (Z.div_mod n 10 ltac:(lia)).
    destruct (Z.ltb_spec n 10).
    + cbn [read_len]. rewrite digit_val_char by done. by rewrite Z.mod_small by lia.
    + rewrite IH.
      * cbn [read_len]. rewrite digit_val_char by done. f_equal. lia.
      * split; [apply Z.div_pos; lia|]. apply Z.div_lt_upper_bound; [lia|]. rewrite <- Z.pow_succ_r, <- Nat2Z.inj_succ by lia. lia.
Qed.
Lemma dec_digits_app fuel n acc t : dec_digits fuel n acc +:+ t = dec_digits fuel n (acc +:+ t).
Proof. revert n acc. induction fuel as [|fuel IH]; intros n acc; [done|]. cbn [dec_digits]. case_match; [done|]. by rewrite IH. Qed.
Lemma read_fmt_dec n t : is_u64 n → read_len (fmt_dec n +:+ String ":" t) 0 = (n, String ":" t).
Proof.
  intros [? Hm]. unfold fmt_dec. rewrite dec_digits_app, read_dec_digits; [done|]. split; [done|]. unfold U64_MAX in Hm. simpl. lia.
Qed.
Lemma str_app_inj a b t u : str_len a = str_len b → a +:+ t = b +:+ u → a = b ∧ t = u.
Proof.
  revert b. induction a as [|c a IH]; intros [|d b]; simpl; try done. rewrite !str_app_cons. intros [= Hl] [= -> E].
  destruct (IH b Hl E) as [-> ->]. done.
Qed.
Lemma length_prefixed_inj a b t u :
  is_u64 (Z.of_nat (str_len a)) → is_u64 (Z.of_nat (str_len b)) →
  fmt_dec (Z.of_nat (str_len a)) +:+ ":" +:+ a +:+ t = fmt_dec (Z.of_nat (str_len b)) +:+ ":" +:+ b +:+ u → a = b ∧ t = u.
Proof.
  intros Ha Hb E. rewrite !(str_app_cons ":"), !str_app_nil_l in E. apply (f_equal (λ x, read_len x 0)) in E. rewrite !read_fmt_dec in E by done. injection E as Hl E.
  apply str_app_inj; [lia|done].
Qed.
(** Different pairs have different keys, whatever characters the names contain. *)
Lemma authority_pair_key_inj f s f' s' :
  Forall (λ a, is_u64 (Z.of_nat (str_len a))) [f; s; f'; s'] →
  authority_pair_key [f; s] = authority_pair_key [f'; s'] → f = f' ∧ s = s'.
Proof.
  rewrite !Forall_cons. intros (Hf & Hs & Hf' & Hs' & _) E. unfold authority_pair_key in E. cbn [fmap list_fmap String.concat] in E.
  rewrite <- !str_app_assoc in E.
  apply length_prefixed_inj in E as [-> E]; [|done|done]. rewrite !str_app_cons, !str_app_nil_l in E. injection E as E.
  split; [done|]. apply (length_prefixed_inj s s' "" ""); [done|done|]. by rewrite !str_app_nil_r.
Qed.

Section access.
Context `{BilateralEnv}.

(** The view that the [n]-th observation of the access controllers gives. *)
Definition view_at (a : string) (n : nat) (principal : option string) : option SideView :=
  (λ k, (view_from_config (AccessController.config k) principal, AccessController.attributes k)) <$> access_controller a n.



(** *** Audit records *)





(** *** Admission *)




(** ** Snapshots *)

Lemma elem_of_lfilter {A} (g : A → bool) l x : x ∈ List.filter g l ↔ x ∈ l ∧ g x = true.
Proof. rewrite !list_elem_of_In, filter_In. done. Qed.
Lemma afford_endpoint p1 p2 v1 v2 n : node_endpoint (afford p1 p2 v1 v2 n) = node_endpoint n.
Proof. unfold afford. by case_bool_decide. Qed.

Lemma project_pair_visible p1 p2 v1 v2 nodes edges :
  let '(nodes', edges') := project_pair p1 p2 v1 v2 nodes edges in
  (∀ n, n ∈ nodes' → endpoint_visible v1 (node_endpoint n) = true ∧ endpoint_visible v2 (node_endpoint n) = true) ∧
  (∀ r e, r ∈ edges' → e ∈ edge_endpoints (snap_edge r) → endpoint_visible v1 e = true ∧ endpoint_visible v2 e = true).
Proof.
  unfold project_pair. cbv zeta.
  assert (∀ e, e ∈ node_endpoint <$> List.filter (λ n, endpoint_visible v1 (node_endpoint n) && endpoint_visible v2 (node_endpoint n)) nodes →
    endpoint_visible v1 e = true ∧ endpoint_visible v2 e = true) as Hvis.
  { intros e (n & -> & Hn)%list_elem_of_fmap. apply elem_of_lfilter in Hn as [_ Hn]. by apply andb_true_iff in Hn. }
  split.
  - intros n (m & -> & Hm)%list_elem_of_fmap. rewrite afford_endpoint. apply Hvis. by apply list_elem_of_fmap_2.
  - intros r e Hr He. rewrite merge_sort_Permutation in Hr. apply elem_of_lfilter in Hr as [_ Hr].
    apply andb_true_iff in Hr as [Ha%bool_decide_eq_true Hb%bool_decide_eq_true]. rewrite elem_of_list_to_set in Ha, Hb.
    apply Hvis. unfold edge_endpoints in He. rewrite !elem_of_cons in He. destruct He as [->|[->|?%elem_of_nil]]; done.
Qed.

Lemma run_bind {A B} (m : BM A) (k : A → BM B) w b w' :
  (m ≫= k) w = (Ok b, w') → ∃ a w1, m w = (Ok a, w1) ∧ k a w1 = (Ok b, w').
Proof. unfold mbind, m_bind. destruct (m w) as [[a|e] w1]; [|done]. eauto. Qed.
Lemma run_gets {A} (g : BilateralWorld → A) w a w' : (gets g : BM A) w = (Ok a, w') → a = g w ∧ w' = w.
Proof. by intros [= <- <-]. Qed.
Lemma run_view a principal w v w' : access_view a principal w = (Ok v, w') → v = view_at a (bw_step w) principal.
Proof. by intros [= <- _]. Qed.

(** A bilateral snapshot shows only what both authorities let the principal see.
    Every node and every end of every edge that a bilateral query returns is visible, by
    the view of the principal that the query read, in both authorities. *)
Theorem bilateral_snapshot_needs_both_views left right principal w snap w' :
  bilateral_query left right principal w = (Ok snap, w') →
  ∃ first second n1 n2, canonical_runtimes handle_authority left right = Ok (first, second) ∧
    let v1 := view_at (handle_authority first) n1 principal in
    let v2 := view_at (handle_authority second) n2 principal in
    (∀ n, n ∈ bsnap_nodes snap → endpoint_visible v1 (node_endpoint n) = true ∧ endpoint_visible v2 (node_endpoint n) = true) ∧
    (∀ r e, r ∈ bsnap_edges snap → e ∈ edge_endpoints (snap_edge r) → endpoint_visible v1 e = true ∧ endpoint_visible v2 e = true).
Proof.
  unfold bilateral_query. intros ([first second] & w1 & [= Ep _] & Hq)%run_bind. apply run_bind in Hq as (_ & w2 & _ & Hq).
  unfold query_locked in Hq. cbv zeta in Hq. cbn [fst snd] in Hq.
  do 6 (apply run_bind in Hq as (? & ? & _ & Hq)).
  apply run_bind in Hq as (v1 & ? & ->%run_view & Hq). apply run_bind in Hq as (v2 & ? & ->%run_view & Hq).
  do 4 (apply run_bind in Hq as (? & ? & _ & Hq)). do 4 eexists. split; [done|]. cbv zeta.
  match type of Hq with context [project_pair ?p1 ?p2 ?v1 ?v2 ?ns ?es] => pose proof (project_pair_visible p1 p2 v1 v2 ns es) as Hp end.
  destruct (project_pair _ _ _ _ _ _) as [nodes edges]. by injection Hq as <- _.
Qed.

(** ** Ownership *)

(** The world [w'] is [w] with another journal of the same coordinator. *)
Record rejournaled (w w' : BilateralWorld) : Prop := {
  rejournaled_runtimes : bw_runtimes w' = bw_runtimes w;
  rejournaled_owners : bw_owners w' = bw_owners w;
  rejournaled_path : bw_path w' = bw_path w;
  rejournaled_id : bc_coordinator_id (bw_mem w') = bc_coordinator_id (bw_mem w);
}.
Lemma wp_rejournal st Q w :
  bc_coordinator_id st = bc_coordinator_id (bw_mem w) → (∀ r w', rejournaled w w' → Q r w') → wp (commit_journal st) Q w.
Proof.
  intros Hid HQ. unfold commit_journal, persist_coordinator_state. repeat wp_step. unfold wp at 1, b_observe. cbn [fst snd].
  destruct (journal_outcome (bw_step w) st) as [|[] error]; repeat wp_step; unfold wp, rename_journal, publish_journal, modify; cbn [fst snd]; by apply HQ.
Qed.

(** The binding of the pair [key] in the memory of an authority. *)
Definition binding_of (w : BilateralWorld) (a key : string) : option BilateralCoordinatorBinding :=
  bilateral_bindings (tw_mem (bw_runtimes w a)) !! key.

Lemma wp_persist_quiet a st Q w :
  (∀ r w', bw_mem w' = bw_mem w → bw_path w' = bw_path w → bw_owners w' = bw_owners w →
     (∀ b, tw_mem (bw_runtimes w' b) = tw_mem (bw_runtimes w b)) → Q r w') → wp (persist_runtime a st) Q w.
Proof.
  intros HQ. unfold wp, persist_runtime, on.
  assert (tw_mem (@persist_candidate (bi_env a) st (bw_runtimes w a)).2 = tw_mem (bw_runtimes w a)) as Hm.
  { unfold persist_candidate, persist_state, mbind, m_bind, gets, observe. destruct (tw_durable (bw_runtimes w a)); [|done]. cbn.
    by destruct (persist_outcome _ st) as [|[] ?]. }
  destruct (@persist_candidate (bi_env a) st (bw_runtimes w a)) as [r rt]. cbn [fst snd] in *. apply HQ; try done.
  intros b. cbn [bw_runtimes]. unfold set_runtime. case_bool_decide; [by subst|done].
Qed.
Lemma wp_persist_each l Q w :
  (∀ r w', bw_mem w' = bw_mem w → bw_path w' = bw_path w → bw_owners w' = bw_owners w →
     (∀ b, tw_mem (bw_runtimes w' b) = tw_mem (bw_runtimes w b)) → Q r w') → wp (persist_each l) Q w.
Proof.
  revert Q w. induction l as [|[a st] l IH]; intros Q w HQ; cbn [persist_each]; [by wp_step; apply HQ|].
  wp_step. apply wp_persist_quiet. intros [[]|e] w1 E1 E2 E3 E4; [|by apply HQ].
  apply IH. intros r w2 F1 F2 F3 F4. apply HQ; congruence.
Qed.
Lemma wp_publish_bound a key x (c : list (string * TopologyIntentState)) (Q : Result unit TopologyControlError → _) w :
  Forall (λ '(b, st), b = a ∧ bilateral_bindings st !! key = Some x) c →
  (∀ w', bw_mem w' = bw_mem w → bw_path w' = bw_path w → bw_owners w' = bw_owners w →
     (binding_of w a key = Some x ∨ c ≠ [] → binding_of w' a key = Some x) →
     (∀ b, b ≠ a → binding_of w' b key = binding_of w b key) → Q (Ok tt) w') →
  wp (publish_each c) Q w.
Proof.
  revert w. induction c as [|[b st] c IH]; intros w Hc HQ; cbn [publish_each].
  { wp_step. apply HQ; naive_solver. }
  apply Forall_cons in Hc as [[-> Hb] Hc]. wp_step. unfold wp at 1, publish_runtime, on, publish, modify. cbn [fst snd].
  apply IH; [done|]. intros w' E1 E2 E3 E4 E5. apply HQ; try done.
  - intros _. apply E4. left. unfold binding_of. cbn. unfold set_runtime. by rewrite bool_decide_true.
  - intros b Hb'. rewrite E5 by done. unfold binding_of. cbn. unfold set_runtime. by rewrite bool_decide_false.
Qed.

(** The rest of the binding, after the journal names the pair. *)
Lemma publish_each_app c1 c2 : ∀ w, publish_each (c1 ++ c2) w = (publish_each c1;; publish_each c2) w.
Proof.
  induction c1 as [|[a st] c1 IH]; intros w; cbn [publish_each app]; [done|]. unfold mbind, m_bind in *.
  destruct (publish_runtime a st w) as [[[]|e] w1]; [|done]. apply IH.
Qed.
Lemma wp_candidate pair key expected a (Q : Result (list (string * TopologyIntentState)) TopologyControlError → _) w :
  (binding_of w a key = Some expected → Q (Ok []) w) →
  (∀ st, binding_of w a key = None → bilateral_bindings st !! key = Some expected → Q (Ok [(a, st)]) w) →
  (∀ e b, binding_of w a key = Some b → b ≠ expected → Q (Err e) w) → wp (binding_candidate pair key expected a) Q w.
Proof.
  intros H1 H2 H3. unfold binding_candidate, runtime_state. repeat wp_step. unfold binding_of in *.
  destruct (bilateral_bindings _ !! key) as [b|] eqn:E.
  - case_bool_decide; cbn [negb]; wp_step; [apply H1; congruence|by eapply H3].
  - wp_step. apply H2; [done|]. cbn. apply lookup_insert_eq.
Qed.

(** The coordinator of a world, as owner and as binding. *)
Definition owner_of (w : BilateralWorld) : LivePairOwner := mkOwner (bc_coordinator_id (bw_mem w)) (bw_path w).
Definition as_binding (o : LivePairOwner) : BilateralCoordinatorBinding := mkBilateral (owner_coordinator_id o) (owner_path o).

Section bind.
Context (f s : string) (Hne : f ≠ s).
Notation key := (authority_pair_key [f; s]).

(** The binding, once the journal names the pair. *)
Definition bind_owned : BM unit :=
  st ← gets bw_mem;
  path ← gets bw_path;
  let expected := mkBilateral (bc_coordinator_id st) path in
  c1 ← binding_candidate [f; s] key expected f;
  c2 ← binding_candidate [f; s] key expected s;
  owners ← gets bw_owners;
  let owner := mkOwner (bc_coordinator_id st) path in
  (if is_some_and (owners !! key) (λ existing, negb (existing =b owner))
   then throw (AuthorityMismatch ("authority pair " +:+ debug_list [f; s] +:+ " already has a live bilateral coordinator"))
   else b_set_owner key owner);;
  persist_each (c1 ++ c2);;
  publish_each (c1 ++ c2).
Lemma wp_bind_pair (Q : Result unit TopologyControlError → _) w :
  (∀ w1, rejournaled w w1 → wp bind_owned Q w1) → (∀ e w1, rejournaled w w1 → Q (Err e) w1) → wp (bind_pair_locked f s) Q w.
Proof.
  intros HQ HE. unfold bind_pair_locked. cbv zeta. repeat wp_step. destruct (_ && _); repeat wp_step; [by apply HE|].
  destruct (is_empty (bc_authorities (bw_mem w))); [|wp_step; by apply HQ].
  apply wp_rejournal; [done|]. intros [[]|e] w1 R; [by apply HQ|by apply HE].
Qed.

Lemma wp_bind_owned (Q : Result unit TopologyControlError → _) w :
  (∀ w', owner_of w' = owner_of w → bw_owners w' !! key = Some (owner_of w) →
     (∀ a, a = f ∨ a = s → binding_of w' a key = Some (as_binding (owner_of w))) → Q (Ok tt) w') →
  (∀ e w', Q (Err e) w') → wp bind_owned Q w.
Proof.
  intros HQ HE. unfold bind_owned. repeat wp_step. cbv zeta. change (mkBilateral _ _) with (as_binding (owner_of w)).
  set (x := as_binding (owner_of w)).
  apply (wp_mono _ (λ r w1, match r with Ok c1 => w1 = w ∧ Forall (λ '(b, st), b = f ∧ bilateral_bindings st !! key = Some x) c1 ∧
    (binding_of w f key = Some x ∨ c1 ≠ []) | Err e => True end)).
  { apply wp_candidate; [naive_solver| |done]. intros st _ Hst. split_and!; [done|by apply Forall_singleton|by right]. }
  intros [c1|e] w1; [|by intros; apply HE]. intros (-> & Hc1 & Hb1). wp_step.
  apply (wp_mono _ (λ r w1, match r with Ok c2 => w1 = w ∧ Forall (λ '(b, st), b = s ∧ bilateral_bindings st !! key = Some x) c2 ∧
    (binding_of w s key = Some x ∨ c2 ≠ []) | Err e => True end)).
  { apply wp_candidate; [naive_solver| |done]. intros st _ Hst. split_and!; [done|by apply Forall_singleton|by right]. }
  intros [c2|e] w1; [|by intros; apply HE]. intros (-> & Hc2 & Hb2). repeat wp_step.
  destruct (is_some_and _ _); [by wp_step; apply HE|]. unfold wp at 1, b_set_owner, modify. cbn [fst snd]. wp_step.
  apply wp_persist_each. intros [[]|e] w2 E1 E2 E3 E4; [|by apply HE]. cbn [bw_mem bw_path bw_owners bw_runtimes] in *.
  unfold wp. rewrite publish_each_app. fold (wp (publish_each c1;; publish_each c2) Q w2). wp_step.
  apply (wp_publish_bound f key x); [done|]. intros w3 F1 F2 F3 F4 F5.
  apply (wp_publish_bound s key x); [done|]. intros w4 G1 G2 G3 G4 G5. apply HQ.
  - unfold owner_of. by rewrite G1, G2, F1, F2, E1, E2.
  - rewrite G3, F3, E3. apply lookup_insert_eq.
  - assert (∀ b, binding_of w2 b key = binding_of w b key) as Hsame by (intros b; unfold binding_of; by rewrite E4).
    intros a [->| ->].
    + rewrite G5 by done. apply F4. by rewrite Hsame.
    + apply G4. rewrite F5 by done. by rewrite Hsame.
Qed.
(** It is refused when an authority or the table of owners names someone else. *)
Lemma wp_bind_refused (Q : Result unit TopologyControlError → _) w o :
  o ≠ owner_of w → bw_owners w !! key = Some o ∨ (∃ a, (a = f ∨ a = s) ∧ binding_of w a key = Some (as_binding o)) →
  (∀ e, Q (Err e) w) → wp bind_owned Q w.
Proof.
  intros Ho Hclash HE. unfold bind_owned. repeat wp_step. cbv zeta. change (mkBilateral _ _) with (as_binding (owner_of w)).
  assert (as_binding o ≠ as_binding (owner_of w)) as Hx by (destruct o, (owner_of w); cbv; congruence).
  apply (wp_mono _ (λ r w1, w1 = w ∧ ((∃ c, r = Ok c) → binding_of w f key ≠ Some (as_binding o)))).
  { apply wp_candidate; naive_solver. }
  intros [c1|e] w1 [-> Hf]; [|done]. wp_step.
  apply (wp_mono _ (λ r w1, w1 = w ∧ ((∃ c, r = Ok c) → binding_of w s key ≠ Some (as_binding o)))).
  { apply wp_candidate; naive_solver. }
  intros [c2|e] w1 [-> Hs]; [|done]. repeat wp_step.
  assert (is_some_and (bw_owners w !! key) (λ existing, negb (existing =b mkOwner (bc_coordinator_id (bw_mem w)) (bw_path w))) = true) as ->.
  { destruct Hclash as [->|(a & [->| ->] & Ha)]; [|by destruct Hf; eauto|by destruct Hs; eauto].
    cbn. change (mkOwner _ _) with (owner_of w). by rewrite bool_decide_false. }
  wp_step. apply HE.
Qed.
End bind.

(** C14: a pair of authorities has one coordinator.  A coordinator that bound the pair is
    its live owner and is the one both authorities name in their durable intent.  From
    then on every other coordinator, one with another identity or another journal, fails
    to bind the pair, and touches neither authority: while the owner lives, and also
    after it is gone, as long as one of the authorities still names it. *)
Theorem pair_has_one_coordinator f s w w' :
  let key := authority_pair_key [f; s] in
  f ≠ s → bind_pair_locked f s w = (Ok tt, w') →
  bw_owners w' !! key = Some (owner_of w') ∧
  (∀ a, a = f ∨ a = s → binding_of w' a key = Some (as_binding (owner_of w'))) ∧
  ∀ other, owner_of other ≠ owner_of w' →
    bw_owners other !! key = bw_owners w' !! key ∨
    (∃ a, (a = f ∨ a = s) ∧ binding_of other a key = binding_of w' a key) →
    ∃ e other', bind_pair_locked f s other = (Err e, other') ∧ bw_runtimes other' = bw_runtimes other.
Proof.
  intros key Hne E.
  assert (bw_owners w' !! key = Some (owner_of w') ∧ ∀ a, a = f ∨ a = s → binding_of w' a key = Some (as_binding (owner_of w'))) as [Ho Hb].
  { apply (wp_run _ (λ r w', r = Ok tt → bw_owners w' !! key = Some (owner_of w') ∧
      ∀ a, a = f ∨ a = s → binding_of w' a key = Some (as_binding (owner_of w'))) _ _ _ E); [|done].
    apply wp_bind_pair; [|done]. intros w1 _. apply wp_bind_owned; [done| |done]. intros w2 -> Ho Hb _. done. }
  split_and!; [done|done|]. intros other Hdiff Hknown.
  assert (wp (bind_pair_locked f s) (λ r other', (∃ e, r = Err e) ∧ bw_runtimes other' = bw_runtimes other) other) as Hwp.
  { apply wp_bind_pair; [|intros e w1 R; split; [eauto|apply R]]. intros w1 [R1 R2 R3 R4].
    assert (owner_of w1 = owner_of other) as Hw1 by (unfold owner_of; congruence).
    assert (∀ a, binding_of w1 a key = binding_of other a key) as Hb1 by (intros a; unfold binding_of; by rewrite R1).
    apply (wp_bind_refused f s _ w1 (owner_of w')); [congruence| |intros e; split; [eauto|done]].
    fold key. destruct Hknown as [Hk|(a & Ha & Hk)]; [left; by rewrite R2, Hk|]. right. exists a. split; [done|]. by rewrite Hb1, Hk, Hb. }
  unfold wp in Hwp. destruct (bind_pair_locked f s other) as [r other']. cbn in Hwp. destruct Hwp as [[e ->] ?]. eauto.
Qed.
End access.
