(* ===== verification/BilateralExamples.v ===== *)
(** * Bilateral topology: concrete runs

    Two authorities over the mob of [TopologyExamples] and files that never fail: the
    inputs at which the theorems are applied, and what a local journal that is open
    across a bilateral recovery does to the pair. *)

From S2P Require Import Prelude Strings AccessModel AccessEngine AccessController MemoryRecords MemberIds TopologyTypes TopologyState TopologyWorld EdgeReconcile TopologyController TopologyLogic TopologyApply TopologyTheorems TopologyExamples BilateralState BilateralCoordinator BilateralLogic BilateralInvariant BilateralTheorems BilateralAccess.
Import TopologyWitnesses.
Open Scope Z_scope.

Module BilateralWitnesses.

(** The second authority lets only [root] act and see. *)
Definition guarded : AccessController.AccessController :=
  AccessController.mkController None (mkConfig true ["root"] ∅ [] ∅) 0 None ∅ false 0 ∅.

#[export] Instance pair_env : BilateralEnv := {|
  bi_env := λ _, toy_env;
  bi_identity := λ _, toy_identity;
  bi_clock := λ n, fmt_dec (Z.of_nat n);
  bi_uuid_v5 := λ t, t;
  bi_sha := λ t, (λ c, Z.of_N (N_of_ascii c)) <$> String.list_ascii_of_string t;
  bi_debug := λ t, t;
  bi_uuid_v4 := λ n, fmt_dec (Z.of_nat n);
  bilateral_json := λ r, Ok (breq_key r +:+ fmt_dec (op_count (breq_operations r)));
  journal_outcome := λ _ _, PersistOk;
  access_controller := λ a _, if a =b "west" then Some guarded else None;
  bilateral_same_process_state := λ _ _ _, Ok (false, false);
  wire_bilateral_same_process := λ _ _ _, Ok tt;
  unwire_bilateral_same_process := λ _ _ _, Ok tt |}.

Definition east : TopologyRuntimeHandle := mkTopologyHandle "east" true false.
Definition west : TopologyRuntimeHandle := mkTopologyHandle "west" true false.
Definition crossing : TopologyControlPolicy := mkTopologyPolicy ModeEditable true 8 true 2 4.
Definition loaded : TopologyWorld := (load_or_default crossing (Ok tt) (Ok None) fresh_world).2.
Definition unopened : BilateralWorld := mkBiWorld (λ _, loaded) default_coordinator None "/journal" None false None ∅ 0 [].
Definition rested : BilateralWorld := (open_coordinator (Ok tt) (Ok None) unopened).2.

Definition bridge : TopologyEdge := mkEdge (mkEndpoint (Some "east") "ada") (mkEndpoint (Some "west") "bo").
Definition connect_bridge : TopologyBilateralApplyRequest :=
  mkBiRequest {["east" := 0; "west" := 0]} "k" [mkMutation Connect (mkEdge (mkEndpoint (Some "west") " bo") (mkEndpoint (Some "east") "ada"))] None None.
Definition bridging : list TopologyMutation := [mkMutation Connect bridge].
Definition connecting : BM TopologyOperationReceipt := bilateral_apply west east connect_bridge (Some "root") "ops".
Definition connected : BilateralWorld := (connecting rested).2.

Lemma loaded_ok : world_ok loaded.
Proof.
  apply (step_world_ok mob fresh_world); [|apply fresh_world_ok]. apply (step_restart mob crossing (Ok tt) fresh_world). by vm_compute.
Qed.
Definition empty_intent : Intents := λ _, cross (tw_mem loaded).
Lemma loaded_holds a : holds a (empty_intent a) (tw_mem loaded) ∧ on_file a (empty_intent a) (tw_disk loaded) ∧ tw_durable loaded = true.
Proof.
  assert (holds a (empty_intent a) (tw_mem loaded)) as Hh by (split; [apply loaded_ok|reflexivity|reflexivity]).
  split_and!; [exact Hh| |reflexivity]. exists (tw_mem loaded). split; [reflexivity|exact Hh].
Qed.
Lemma rested_at_rest : pair_at_rest "east" "west" empty_intent rested.
Proof. split; [reflexivity|reflexivity|apply loaded_holds|apply loaded_holds]. Qed.

(** The world of a process that has not loaded anything yet. *)
Definition cold (D : Disks) : BilateralWorld :=
  mkBiWorld (λ a, mkTopologyWorld crossing default_intent (if a =b "east" then dk_first D else dk_second D) false ∅ 0 [])
    default_coordinator (dk_journal D) "/journal" None false None ∅ 0 [].
Notation recovering :=
  (restart_pair (handle_authority east) (handle_authority west) (crossing, crossing) (Ok tt, Ok tt, Ok tt);; bilateral_recover west east).
Definition after (k : nat) (m : BM TopologyOperationReceipt) (w : BilateralWorld) : Disks :=
  foldl (replay_bilateral "east" "west") (disks "east" "west" w) (take k (b_effects m w)).
(** The first authority is committed, the second is not; then a recovery is cut short. *)
Definition half_committed : Disks := after 14 connecting rested.
Definition cut_recovery : Disks :=
  foldl (replay_bilateral "east" "west") half_committed (take 5 (b_effects recovering (cold half_committed))).

Definition cross_edges (w : BilateralWorld) (a : string) : list TopologyEdge := elements (cross_additions (tw_mem (bw_runtimes w a))).

Example half_committed_differs :
  elements ∘ cross_additions <$> dk_first half_committed = Some [bridge] ∧ elements ∘ cross_additions <$> dk_second half_committed = Some [].
Proof. split; vm_compute; reflexivity. Qed.
Example recovery_finishes_the_commit :
  cross_edges (recovering (cold cut_recovery)).2 "east" = [bridge] ∧ cross_edges (recovering (cold cut_recovery)).2 "west" = [bridge].
Proof. split; vm_compute; reflexivity. Qed.
Example undecided_is_rolled_back :
  cross_edges (recovering (cold (after 11 connecting rested))).2 "east" = [] ∧
  cross_edges (recovering (cold (after 11 connecting rested))).2 "west" = [].
Proof. split; vm_compute; reflexivity. Qed.

(** ** A local journal that is open across a bilateral recovery

    A process stops once the bilateral commit is journaled.  The next one starts a
    mutation of the first authority's own edges before any bilateral call and stops
    while it is actuated: the local journal keeps the cross-authority intent from before
    the commit. *)
Definition second_process : BilateralWorld :=
  (restart_pair "east" "west" (crossing, crossing) (Ok tt, Ok tt, Ok tt) (cold (after 12 connecting rested))).2.
Definition local_effects : list TopologyEvent := effects (apply_as east connect_ada_bo None "ops") (bw_runtimes second_process "east").
Definition two_journals : Disks :=
  mkDisks (dk_journal (disks "east" "west" second_process))
    (foldl replay_disk (dk_first (disks "east" "west" second_process)) (take 5 local_effects))
    (dk_second (disks "east" "west" second_process)).
Definition third_process : BilateralWorld := (recovering (cold two_journals)).2.
Definition locally_recovered : BilateralWorld := (on "east" (recover_pending_unlocked east) third_process).2.

(** The bilateral recovery succeeds and closes its journal with the edge on both sides.
    The local recovery then restores the intent of its own journal, without the edge,
    and from then on the pair disagrees and every bilateral apply is refused. *)
Example local_recovery_undoes_a_bilateral_commit :
  (is_ok (recovering (cold two_journals)).1, cross_edges third_process "east", cross_edges third_process "west") = (true, [bridge], [bridge]) ∧
  (is_ok (on "east" (recover_pending_unlocked east) third_process).1, cross_edges locally_recovered "east", cross_edges locally_recovered "west")
    = (true, [], [bridge]) ∧
  (reconcile_committed_pair_intent_locked "east" "west" locally_recovered).1 =
    Err (AuthorityMismatch "bilateral intent diverged between east and west; refusing to guess").
Proof. split_and!; vm_compute; reflexivity. Qed.

(** ** Applications of the theorems *)

Lemma bilateral_apply_is_atomic_witness :
  ∃ pd Z, files "east" "west" half_committed pd Z ∧ decided "east" "west" empty_intent bridging pd Z.
Proof.
  refine (bilateral_apply_is_atomic west east east west connect_bridge (Some "root") "ops" bridging empty_intent rested
            (take 14 (b_effects connecting rested)) (drop 14 (b_effects connecting rested)) _ _ rested_at_rest _).
  - vm_compute. reflexivity.
  - vm_compute. reflexivity.
  - symmetry. apply take_drop.
Defined.

Lemma cold_disks D : disks "east" "west" (cold D) = D.
Proof. by destruct D. Qed.
Lemma cut_recovery_reached :
  rtc (crash west east (handle_authority east) (handle_authority west))
    (foldl (replay_bilateral (handle_authority east) (handle_authority west)) (disks (handle_authority east) (handle_authority west) rested)
       (take 14 (b_effects (bilateral_apply west east connect_bridge (Some "root") "ops") rested)))
    (disks (handle_authority east) (handle_authority west) (cold cut_recovery)).
Proof.
  pose proof (crash_recovery west east (handle_authority east) (handle_authority west) (crossing, crossing) (Ok tt, Ok tt, Ok tt) (cold half_committed) 5) as C.
  change (handle_authority east) with "east" in *. change (handle_authority west) with "west" in *.
  rewrite cold_disks in C. rewrite cold_disks. apply rtc_once, C.
Qed.

Definition journal_committed (j : option BilateralCoordinatorState) : bool := is_some_and (j ≫= bc_pending) is_committed.

Lemma bilateral_recovery_carries_out_the_decision_witness :
  ∃ r w2, recovering (cold cut_recovery) = (Ok r, w2) ∧ bc_pending (bw_mem w2) = None ∧
    ∀ a, a = "east" ∨ a = "west" → holds a (requested_cross bridging (empty_intent a)) (tw_mem (bw_runtimes w2 a)).
Proof.
  destruct (recovering (cold cut_recovery)) as [[r|e] w2] eqn:E.
  - destruct (bilateral_recovery_carries_out_the_decision west east east west connect_bridge (Some "root") "ops" bridging empty_intent rested
            (take 14 (b_effects (bilateral_apply west east connect_bridge (Some "root") "ops") rested))
            (drop 14 (b_effects (bilateral_apply west east connect_bridge (Some "root") "ops") rested)) (crossing, crossing) (Ok tt, Ok tt, Ok tt)
            (cold cut_recovery) r w2) as (committed & Hdec & Hp & Hsides).
    + vm_compute. reflexivity.
    + vm_compute. reflexivity.
    + exact rested_at_rest.
    + symmetry. apply take_drop.
    + exact cut_recovery_reached.
    + exact E.
    + assert (committed = true) as ->.
      { assert (journal_committed (bw_disk (cold cut_recovery)) = true) as Hj by (vm_compute; reflexivity).
        destruct (bw_disk (cold cut_recovery)) as [j|]; [|discriminate]. unfold journal_committed in Hj. cbn in Hj.
        destruct (bc_pending j) as [p|] eqn:Hpj; [|discriminate]. rewrite (Hdec j p eq_refl Hpj). exact Hj. }
      exists r, w2. split; [reflexivity|]. split; [exact Hp|]. intros a Ha. exact (proj1 (Hsides a Ha)).
  - exfalso. assert (is_ok (recovering (cold cut_recovery)).1 = true) as Hok by (vm_compute; reflexivity). rewrite E in Hok. discriminate.
Defined.

Definition checked : BM TopologyOperationReceipt :=
  apply_checked_locked east west (breq_with_operations connect_bridge bridging) (Some "root") "ops" "audit" "fp" (bw_mem rested).
Lemma checked_batch_reaches_both_witness :
  ∃ receipt w', checked rested = (Ok receipt, w') ∧
    on_file "west" (requested_cross bridging (empty_intent "west")) (tw_disk (bw_runtimes w' "west")).
Proof.
  destruct (checked rested) as [[receipt|e] w'] eqn:E.
  - exists receipt, w'. split; [reflexivity|].
    refine (proj2 (proj2 (checked_batch_reaches_both east west (breq_with_operations connect_bridge bridging) (Some "root") "ops" "audit" "fp"
      (bw_mem rested) empty_intent rested receipt w' _ rested_at_rest E) "west" (or_intror eq_refl))). discriminate.
  - exfalso. assert (is_ok (checked rested).1 = true) as Hok by (vm_compute; reflexivity). rewrite E in Hok. discriminate.
Defined.

Example guests_are_refused :
  (bilateral_apply west east connect_bridge (Some "guest") "ops" rested).1 = Err (TopologyAccessDenied "west" ACTION_TOPOLOGY_CONNECT "ada").
Proof. vm_compute. reflexivity. Qed.


Definition seen (principal : string) : Result TopologyBilateralSnapshot TopologyControlError := (bilateral_query west east (Some principal) connected).1.
Example snapshots_differ :
  match seen "root", seen "guest" with
  | Ok r, Ok g => (length (bsnap_nodes r), length (bsnap_edges r), length (bsnap_nodes g), length (bsnap_edges g)) = (6%nat, 3%nat, 0%nat, 0%nat)
  | _, _ => False
  end.
Proof. vm_compute. reflexivity. Qed.
Lemma bilateral_snapshot_needs_both_views_witness :
  ∃ snap n2, seen "root" = Ok snap ∧ bsnap_nodes snap ≠ [] ∧
    ∀ n, n ∈ bsnap_nodes snap → endpoint_visible (view_at "west" n2 (Some "root")) (node_endpoint n) = true.
Proof.
  unfold seen. assert (match (bilateral_query west east (Some "root") connected).1 with Ok g => negb (is_empty (bsnap_nodes g)) | Err _ => false end = true)
    as Hne by (vm_compute; reflexivity).
  destruct (bilateral_query west east (Some "root") connected) as [[snap|e] w'] eqn:E; [|discriminate].
  destruct (bilateral_snapshot_needs_both_views west east (Some "root") connected snap w' E) as (first & second & n1 & n2 & Hc & Hnodes & _).
  assert (canonical_runtimes handle_authority west east = Ok (east, west)) as Hc' by (vm_compute; reflexivity).
  rewrite Hc' in Hc. injection Hc as <- <-. exists snap, n2. split; [reflexivity|]. split; [intros Hnil; cbn [fst] in Hne; rewrite Hnil in Hne; discriminate|].
  intros n Hn. exact (proj2 (Hnodes n Hn)).
Defined.

(** Another coordinator of the same process, and one of a later process. *)
Definition rival (owners : gmap string LivePairOwner) (w : BilateralWorld) : BilateralWorld :=
  mkBiWorld (bw_runtimes w) (bw_mem w) None "/other" None false None owners 0 [].
Lemma pair_has_one_coordinator_witness :
  ∃ w', bind_pair_locked "east" "west" rested = (Ok tt, w') ∧
    (∃ e other', bind_pair_locked "east" "west" (rival (bw_owners w') rested) = (Err e, other')) ∧
    (∃ e other', bind_pair_locked "east" "west" (rival ∅ w') = (Err e, other')).
Proof.
  assert (is_ok (bind_pair_locked "east" "west" rested).1 = true) as Hok by (vm_compute; reflexivity).
  assert (bw_path (bind_pair_locked "east" "west" rested).2 = "/journal") as Hp by (vm_compute; reflexivity).
  destruct (bind_pair_locked "east" "west" rested) as [[[]|e] w'] eqn:E; [|discriminate]. cbn in Hp.
  destruct (pair_has_one_coordinator "east" "west" rested w') as (_ & _ & Hone); [discriminate|exact E|].
  exists w'. split; [reflexivity|]. split.
  - destruct (Hone (rival (bw_owners w') rested)) as (e & other' & Hb & _).
    + unfold owner_of. cbn. rewrite Hp. congruence.
    + left. reflexivity.
    + exists e, other'. exact Hb.
  - destruct (Hone (rival ∅ w')) as (e & other' & Hb & _).
    + unfold owner_of. cbn. rewrite Hp. congruence.
    + right. exists "east". split; [by left|reflexivity].
    + exists e, other'. exact Hb.
Defined.
End BilateralWitnesses.
